(* ===== verification/_CoqProject ===== *)
-Q . S2P
Prelude.v
SortedKeys.v
HeapTree.v
HeapRot.v
HeapFocus.v
AVLTree.v
RBTree.v
OrdContainers.v
Buffer.v
Board.v
Room.v
Lobby.v
StdString.v
HttpRequest.v
HttpResponse.v
Cgi.v
CalProto.v
CalServer.v
FdServers.v
Chat.v
HashChain.v
HashOpen.v
DList.v
Vec.v
Bits.v
Str.v
TimerWheel.v
Any.v
Connection.v
Echo.v
EventLoop.v
TcpServer.v
Session.v
Gobang.v
UserTable.v
SmartPtr.v
Queues.v
Bytes.v
WsFrame.v
Utf8.v
WsProcessor.v
WsReceive.v
WsStream.v
Base64.v
Sha1.v
HttpText.v
HttpTextFacts.v
HttpParser.v
HttpStream.v
HttpReply.v
Uri.v
WsHandshake.v
WsHandshakeFacts.v
Md5.v
WsHybi00.v
WsConnection.v
WsSession.v
WsDelivery.v
WsDeflate.v
WsCompressed.v
WsIostream.v
WsDial.v
WsEndpoint.v
