(* ===== verification/Prelude.v ===== *)
(** * Verified models of the containers, the servers and the gobang game

    The repository holds programs and lessons in C++:

    - [src/Algorithm]: containers written from scratch (trees, hash tables, list,
      vector, string, bit set, Bloom filter) and smart pointers;
    - [src/Reactor_http/source/server.hpp]: a network library of the reactor kind
      (byte buffer, timer wheel, poller, event loops, connections, server), with the
      server of [echo/echo.hpp] on it;
    - [src/game/source]: a gobang (five-in-a-row) server: http and websocket handlers
      over the user table, sessions, the table of users online, matching queues and rooms;
    - [src/my_Http]: a web server with static pages and programs;
    - [src/lesson_IO], [src/lesson6] to [src/lesson10]: servers over select, poll
      and epoll, a calculator protocol and its servers, a UDP chat, and queues between threads;
    - [src/websocketpp-master/websocketpp]: the websocket library the game server runs on.

    ** How code becomes Rocq

    A function of the source is a definition of the same name.  Code that can fail
    returns [res]: [Err] says in which way the C++ program leaves its defined
    behaviour (null or dangling pointer, failed assertion, access out of bounds,
    uncaught exception, signed overflow).  Objects linked by pointers live in a heap,
    a finite map from addresses to nodes; objects that own their parts are records.
    Integers whose width matters are integers with the wrap-around written out.
    Loops without a structural bound take fuel, and the error [OutOfFuel] is kept
    apart from every error of the program.  Threads are step relations whose steps are the
    critical sections of the source.  What the kernel will answer ([recv], [send],
    [accept], [stat]) is part of the state or an argument.

    ** Files

    Shared:
    - [Prelude]: errors, the result monad, its notation, tactics and hints; programs
      over variables that hold objects.
    - [SortedKeys]: sequences of entries in key order, the abstract value of the
      ordered containers.
    - [StdString]: the operations of [std::string] and of number conversion.

    Containers:
    - [HeapTree], [HeapRot], [HeapFocus]: trees with parent links in a heap; the
      rotations; accesses at a position.  Used by both trees.
    - [AVLTree]: AVLTree.hpp, both classes.  Insertion on a balanced search tree
      gives one, with the new entry at its place, and reports whether the key was
      new; the checkers decide balance; the two classes insert alike.
    - [RBTree]: RBTree.hpp.  The same for the red-black tree, and its iterators
      visit the entries in key order.
    - [OrdContainers]: Set.hpp and Map.hpp over the red-black tree.
    - [HashChain], [HashOpen]: HashTable.hpp, Unordered_map.hpp and Unordered_set.hpp.
      The chained tables implement finite maps; the open-addressing one finds what is stored
      while some slot is free, and [find] does not return after enough erasures.
    - [DList], [Vec], [Str], [Bits]: List.hpp, Vector.hpp, String.hpp, BitSet.hpp
      and BloomFilter.hpp, each refined to a sequence, a text or a set; lists and vectors as
      programs over several of them that copy, move, assign and swap.
    - [SmartPtr]: SmartPtr.hpp.  A shared count is the number of the variables that
      share it, and an object is deleted once, when the last of them goes; the raw
      pointers of [unique_ptr], [auto_ptr] and [weak_ptr].

    Reactor ([src/Reactor_http/source/server.hpp]):
    - [Buffer]: class [Buffer], refined to a queue of bytes.
    - [TimerWheel]: [TimerTask] and [TimerWheel], refined to a set of deadlines.
    - [Any]: class [Any], refined to variables that hold a value of some type.
    - [Connection]: [Channel] and [Connection].  Bytes reach the message callback
      and leave the socket in order and once, also when the callback shuts the connection
      down and is called again for it; a shutdown drains the output.  The
      class [LoopTimers] is what a connection needs of its loop's timers, and
      [wheel_timers] shows that the wheel provides it.
    - [Echo]: the echo server on such a connection, from its start to its release.
    - [EventLoop]: [Poller], the task queue of [EventLoop] and [LoopThreadPool].  The
      kernel watches what the channels ask for; the pool hands out its loops in turn.
    - [TcpServer]: [TcpServer] with its threads.  Connections are touched only by the
      thread of their loop, tasks run once and in order, and the table of the server
      holds the connections that are not released.

    Servers of the lessons:
    - [CalProto]: Protocol.hpp and main.cc of [src/lesson_IO/Reactor].  The replies do
      not depend on how the stream is cut.  The server is proved against the class
      [Codec]; the text codec is an instance.
    - [CalServer]: TcpServer.hpp and Epoller.hpp there, the edge-triggered server around the
      protocol, and the blocking one of [src/lesson10/cal].  Every connection receives
      the answers to its complete requests, in order; what the server does not survive.
    - [FdServers]: the select, poll and epoll servers of [src/lesson_IO].
    - [Chat]: the UDP server of [src/lesson9/udp], as a chat and as a dictionary.
    - [Queues]: the blocking queue of [src/lesson6], the ring of [src/lesson7] and the
      thread pool of [src/my_Http]: nothing is lost, doubled or left without a waker.

    Web server ([src/my_Http]):
    - [HttpRequest]: the reader of Protocol.hpp; what a client writes is what is read.
    - [HttpResponse]: from the parsed request to the bytes sent: which file, error page or
      program answers a request.
    - [Cgi]: the program of cgi/test_cgi.cc, and the web server that runs it.

    Gobang ([src/game/source]):
    - [Board]: [room::five] and [room::check_win], against the rule of the game.
    - [Room]: class [room] and online.hpp; invariant of all reachable rooms.
    - [Lobby]: [room_manager] and matcher.hpp, whose threads are interleaved at every access to
      what they share.
    - [Session]: session.hpp, with the timers of the event queue.
    - [Gobang]: server.hpp: login, user information, the websocket handlers.  The
      cookie of a login names its session, a request without one changes nothing, and the
      tables stay consistent with each other while the matching threads run between the
      accesses of a handler.  The handlers are written once, over a monad: run at once, or as
      programs of accesses.
    - [UserTable]: db.hpp and the http handlers of server.hpp over it: the statements
      fit their buffer or overflow it, and a session is only given for a row of the login
      statement.

    Websocket library ([src/websocketpp-master/websocketpp]):
    - [Bytes]: bytes, words and machines of either byte order and width of [size_t].
    - [WsFrame]: frame.hpp.  Headers are read as they were written, and every masking
      loop is the masking of RFC 6455.
    - [Utf8]: utf8_validator.hpp, against the definition of UTF-8.
    - [Base64], [Sha1], [Md5]: base64.hpp, sha1.hpp and md5.hpp, against RFC 4648, FIPS 180
      and RFC 1321.
    - [WsProcessor], [WsReceive], [WsStream]: processors/hybi13.hpp with the message
      buffers, close.hpp and the errors.  [consume] stays inside its buffers and returns; the
      cuts between reads do not matter; what one end sends the other receives.
    - [HttpText], [HttpTextFacts], [HttpParser], [HttpStream], [HttpReply]: http/*.hpp.
      Parameter lists, requests and responses are read as they were written, from
      a stream cut anywhere.
    - [Uri]: uri.hpp.
    - [WsHandshake], [WsHandshakeFacts]: processor.hpp and the handshake of hybi13.hpp; a
      client and a server reach agreement on key, URI and subprotocol.
    - [WsHybi00]: hybi00.hpp, the oldest draft: its handshake and its frames.
    - [WsDeflate]: extensions/permessage_deflate/enabled.hpp over an interface of zlib.  The
      two ends agree on windows, and inflate what the other one has compressed.
    - [WsCompressed]: the frames of [WsProcessor] with the extension of [WsDeflate]; compressed
      messages arrive however their frames are cut.
    - [WsConnection]: connection.hpp and connection_impl.hpp over the steps of
      transport/asio/connection.hpp: handshake, frames, sending, pings, closing, timers.
    - [WsSession]: a connection implements an abstract session; frames leave in the
      order they were accepted in, and the handlers are called in a legal order.
    - [WsDelivery]: a connection that is open has no undefined behaviour, and delivers the
      messages of its peer, whole, in order and once.
    - [WsIostream]: transport/iostream/connection.hpp; bytes between two programs over
      streams, read in the sizes asked for.
    - [WsDial]: async_connect of transport/asio/endpoint.hpp; every attempt is answered once.
    - [WsEndpoint]: endpoint.hpp, endpoint_impl.hpp, roles/*.hpp and the accepts of
      transport/asio/endpoint.hpp.  Each connection of an endpoint has the settings it was
      created with and is a run of [WsConnection]; a server that accepts goes on accepting.

    ** Fuel

    [AVLTree] and [RBTree] descend and climb with the number of heap cells plus one,
    which bounds every path of a tree in that heap; the theorems say that insertion
    returns.  Iteration and the checkers are bounded the same way.
    [CalProto] gives its loop the length of the input plus one, and each round
    consumes a byte ([serve_terminates]); the calls of a message callback in [Connection] are nested at
    most once for each byte it finds, and one that leaves them all is nested without end
    ([shutdown_recurses]).  [CalServer] states that some fuel is enough
    for every batch of events ([runs]), and any greater one gives the same.
    [HashOpen] takes the bound as an argument and states for which bounds a probe
    returns.  The [while] loops of [DList] count nodes, [Str]'s and [HttpRequest]'s
    readers consume the input.  [WsProcessor.consume] has three rounds for each byte and
    five more, [WsStream.read_loop], [HttpParser.read_lines], the scans of [HttpText],
    [Iostream.read_all], [Iostream.read] and [Md5.full_blocks] the length of the input plus
    one, [WsConnection.frame_loop] the same, [pop_messages] the length of the queue; each is
    proved to be enough.  The loops of [WsDeflate] take a bound, and its theorems and those of
    [WsCompressed] say that there is one from which on the result is the same.

    ** Parameters and what is taken for granted

    Code outside the repository is a parameter: JsonCpp (classes [JsonLib] in [Room]
    and [Codec] in [CalProto]), the MySQL server, the results of system calls, the file
    system, the user's message callback, the hash function of a table; for the websocket
    library the machine, the random generator, the configuration, the compression extension
    (classes [Deflate] and [Extension], with the disabled one and the one of [WsDeflate] as
    instances), zlib (class [Zlib], its documented behaviour in [ZlibLaws] with a small codec
    as instance), the user's handlers, and what uninitialised arrays hold.  A
    user's handler of the websocket library is a program of calls that does not throw; the
    calls and handlers of one connection do not overlap, as its strand guarantees; the
    initialisation and shutdown of a plain socket call back at once.
    [Vec] and [Str] take arguments by value, so an argument does not alias the
    container.  [strcpy] on overlapping arrays, which [Str.erase] meets, is taken
    to copy from left to right.  Reference counts in [SmartPtr] are unbounded.
    Timer callbacks in [TimerWheel] do not themselves add timers.
    Cells of a new array hold an arbitrary value.  Allocation does not fail.
    A [write] of a program's output and a [send] of a header take all they are given.

    ** Not modelled

    The creation of sockets, timers and event descriptors ([Socket], [Acceptor], [Sock]),
    the text of JSON, the contents of files, logging, the assignment
    and copy of [shared_mutex_ptr] (those of [shared_ptr] under a lock), destructors of
    hash tables, the clients and demonstrations of the lessons (system calls and printing).
    Of websocketpp: TLS, proxies and the setup of sockets, the debug and stub transports, the
    endpoint of the stream transport, the control of the io service, loggers, random numbers,
    configurations and getters; they are glue around asio, zlib and OpenSSL, which are not in
    the repository.  [WsStream] and [WsDelivery] are about connections without
    compression; [WsCompressed] is about whole compressed messages between two processors, not
    about fragments, nor about control frames between them. *)

From stdpp Require Export base gmap list sorting numbers strings.

(** ** Results and errors

    C++ code leaves a function normally or stops in one of the ways below. *)
Inductive err :=
  | NullDeref       (** dereference of a null pointer *)
  | DanglingPtr     (** dereference of a pointer to no live object *)
  | AssertFailed    (** [assert] with a false argument, or [abort] *)
  | OutOfBounds     (** access outside an array, vector or buffer *)
  | StdException    (** an exception thrown by the standard library *)
  | SignedOverflow  (** undefined: a signed operation left its range *)
  | OutOfFuel.      (** the model's loop bound was reached *)

Inductive res (A : Type) :=
  | Ok (a : A)
  | Err (e : err).
Arguments Ok {A} a.
Arguments Err {A} e.

#[global] Instance err_eq_dec : EqDecision err.
Proof. solve_decision. Defined.
#[global] Instance res_eq_dec `{EqDecision A} : EqDecision (res A).
Proof. solve_decision. Defined.

#[global] Instance res_ret : MRet res := λ A a, Ok a.
#[global] Instance res_bind : MBind res := λ A B f m,
  match m with Ok a => f a | Err e => Err e end.

Lemma res_bind_ok {A B} (m : res A) (f : A → res B) a : m = Ok a → (m ≫= f) = f a.
Proof. by intros ->. Qed.

(** The C++ [assert] of a pure function. *)
Definition assert_res (b : bool) : res () := if b then Ok () else Err AssertFailed.

(** ** State and error monad *)
Definition M (S A : Type) : Type := S → res (A * S).

#[global] Instance M_ret {S} : MRet (M S) := λ A a s, Ok (a, s).
#[global] Instance M_bind {S} : MBind (M S) := λ A B f m s,
  match m s with Ok (a, s') => f a s' | Err e => Err e end.

Definition fail {S A} (e : err) : M S A := λ _, Err e.
Definition gets {S A} (f : S → A) : M S A := λ s, Ok (f s, s).
Definition modify {S} (f : S → S) : M S () := λ s, Ok ((), f s).
Definition assert_M {S} (b : bool) : M S () := if b then mret () else fail AssertFailed.
Definition lift_res {S A} (r : res A) : M S A := λ s,
  match r with Ok a => Ok (a, s) | Err e => Err e end.

Lemma bind_ok {S A B} (m : M S A) (f : A → M S B) s a s' :
  m s = Ok (a, s') → (m ≫= f) s = f a s'.
Proof. intros H. unfold mbind, M_bind. by rewrite H. Qed.

Lemma bind_err {S A B} (m : M S A) (f : A → M S B) s e :
  m s = Err e → (m ≫= f) s = Err e.
Proof. intros H. unfold mbind, M_bind. by rewrite H. Qed.

Lemma bind_inv {S A B} (m : M S A) (f : A → M S B) s b s'' :
  (m ≫= f) s = Ok (b, s'') → ∃ a s', m s = Ok (a, s') ∧ f a s' = Ok (b, s'').
Proof.
  unfold mbind, M_bind. destruct (m s) as [[a s']|] eqn:E; [|done]. eauto.
Qed.

(** ** Total orders on keys

    The containers compare keys with [<], [>] and [==]; a key type is one on
    which [<] is a strict total order and [k1 > k2] means [k2 < k1]. *)
Class KeyOrder (K : Type) := {
  key_ltb : K → K → bool;
  key_irrefl : ∀ k, key_ltb k k = false;
  key_trans : ∀ k1 k2 k3, key_ltb k1 k2 = true → key_ltb k2 k3 = true → key_ltb k1 k3 = true;
  key_total : ∀ k1 k2, key_ltb k1 k2 = false → key_ltb k2 k1 = false → k1 = k2;
}.

Definition key_gtb `{KeyOrder K} (k1 k2 : K) : bool := key_ltb k2 k1.

#[export, refine] Instance Z_key : KeyOrder Z := {| key_ltb := Z.ltb |}.
Proof. all: intros; lia. Defined.

(** ** Integers of the machine

    Conversion to [uint64_t] or [size_t], to [uint32_t], and to [int]. *)
Definition u64 (x : Z) : Z := (x mod 2 ^ 64)%Z.
Definition u32 (x : Z) : Z := (x mod 2 ^ 32)%Z.
Definition to_int32 (x : Z) : Z := ((x + 2 ^ 31) mod 2 ^ 32 - 2 ^ 31)%Z.

Lemma u64_small x : (0 ≤ x < 2 ^ 64)%Z → u64 x = x.
Proof. apply Z.mod_small. Qed.
Lemma u64_range x : (0 ≤ u64 x < 2 ^ 64)%Z.
Proof. by apply Z.mod_pos_bound. Qed.
Lemma u32_range x : (0 ≤ u32 x < 2 ^ 32)%Z.
Proof. by apply Z.mod_pos_bound. Qed.
Lemma to_int32_small x : (- 2 ^ 31 ≤ x < 2 ^ 31)%Z → to_int32 x = x.
Proof. intros. unfold to_int32. rewrite Z.mod_small by lia. lia. Qed.

(** ** Variables of a program

    Objects by the name of the variable that holds them: the value of a variable,
    and the declaration of one that does not exist yet. *)
Definition lookup_var {A} (m : gmap nat A) (a : nat) : res A :=
  match m !! a with Some x => Ok x | None => Err DanglingPtr end.
Definition fresh_var {A} (m : gmap nat A) (a : nat) : res () := if decide (m !! a = None) then Ok () else Err AssertFailed.

(** Programs over variables, run over objects and over the values they stand for:
    the variables agree when each object represents the value of its variable. *)
Section Variables.
Context {A B : Type} (R : A → B → Prop).
Implicit Types (m : gmap nat A) (ms : gmap nat B).

Definition vars_rep m ms : Prop := map_relation (λ _, R) (λ _ _, False) (λ _ _, False) m ms.
Definition same_result (r : res (gmap nat A)) (rs : res (gmap nat B)) : Prop :=
  match r, rs with Ok m, Ok ms => vars_rep m ms | Err e, Err e' => e = e' | _, _ => False end.

Lemma vars_empty : vars_rep ∅ ∅.
Proof. intros a. by rewrite !lookup_empty. Qed.
Lemma vars_insert a v x m ms : vars_rep m ms → R v x → vars_rep (<[a := v]> m) (<[a := x]> ms).
Proof.
  intros Hm HE b. specialize (Hm b). destruct (decide (a = b)) as [->|]; [by rewrite !lookup_insert_eq|by rewrite !lookup_insert_ne].
Qed.
Lemma vars_delete a m ms : vars_rep m ms → vars_rep (delete a m) (delete a ms).
Proof.
  intros Hm b. specialize (Hm b). destruct (decide (a = b)) as [->|]; [by rewrite !lookup_delete_eq|by rewrite !lookup_delete_ne].
Qed.
Lemma vars_lookup a m ms f g :
  vars_rep m ms → (∀ v x, ms !! a = Some x → R v x → same_result (f v) (g x)) →
  same_result (v ← lookup_var m a; f v) (x ← lookup_var ms a; g x).
Proof.
  intros Hm Hf. specialize (Hm a). unfold lookup_var. destruct (m !! a), (ms !! a) eqn:E; try done. cbn. by apply Hf.
Qed.
Lemma vars_fresh a m ms f g :
  vars_rep m ms → same_result (f ()) (g ()) → same_result (u ← fresh_var m a; f u) (u ← fresh_var ms a; g u).
Proof.
  intros Hm Hf. specialize (Hm a). unfold fresh_var. destruct (m !! a), (ms !! a); try done.
Qed.
Lemma vars_dom m ms : vars_rep m ms → dom m = dom ms.
Proof. intros Hm. apply set_eq. intros a. rewrite !elem_of_dom. specialize (Hm a). by destruct (m !! a), (ms !! a). Qed.
Lemma vars_at m ms a v x : vars_rep m ms → m !! a = Some v → ms !! a = Some x → R v x.
Proof. intros Hm Hv Hx. specialize (Hm a). by rewrite Hv, Hx in Hm. Qed.
End Variables.

(** ** Flags of [epoll]

    The bits of an event mask, and the entries [epoll_ctl] accepts: it adds a
    descriptor that is not in the list, and changes or deletes one that is. *)
Definition EPOLLIN : Z := 1.
Definition EPOLLPRI : Z := 2.
Definition EPOLLOUT : Z := 4.
Definition EPOLLERR : Z := 8.
Definition EPOLLHUP : Z := 16.
Definition EPOLLRDHUP : Z := 8192.

Definition has_bit (events flag : Z) : bool := negb (Z.land events flag =? 0)%Z.

Inductive epoll_op := EPOLL_CTL_ADD | EPOLL_CTL_MOD | EPOLL_CTL_DEL.
Definition epoll_ctl (op : epoll_op) (fd events : Z) (l : gmap Z Z) : gmap Z Z :=
  match op, l !! fd with
  | EPOLL_CTL_ADD, None => <[fd := events]> l
  | EPOLL_CTL_MOD, Some _ => <[fd := events]> l
  | EPOLL_CTL_DEL, Some _ => delete fd l
  | _, _ => l
  end.
