(* ===== verification/SortedKeys.v ===== *)
(** * Sorted sequences of keyed entries

    The abstract value of an ordered container: its entries in key order.
    [ins] is the specification of an insertion that refuses a key already
    present, [find_key] of a lookup. *)

From S2P Require Import Prelude.

Section SortedKeys.
Context {P K : Type} `{KeyOrder K} (key : P → K).

Definition key_lt (d1 d2 : P) : Prop := key_ltb (key d1) (key d2) = true.
Definition before (k : K) (d : P) : Prop := key_ltb (key d) k = true.
Definition after (k : K) (d : P) : Prop := key_ltb k (key d) = true.
Definition sorted_keys (l : list P) : Prop := StronglySorted key_lt l.

Fixpoint ins (d : P) (l : list P) : list P :=
  match l with
  | [] => [d]
  | x :: l' =>
      if key_ltb (key x) (key d) then x :: ins d l'
      else if key_ltb (key d) (key x) then d :: l
      else l
  end.

Fixpoint find_key (k : K) (l : list P) : option P :=
  match l with
  | [] => None
  | x :: l' =>
      if key_ltb (key x) k then find_key k l'
      else if key_ltb k (key x) then None
      else Some x
  end.

Lemma key_asym k1 k2 : key_ltb k1 k2 = true → key_ltb k2 k1 = false.
Proof.
  intros H1. destruct (key_ltb k2 k1) eqn:H2; [|done].
  rewrite <- (key_irrefl k1). symmetry. by eapply key_trans.
Qed.

Lemma ins_app d l1 l2 :
  Forall (before (key d)) l1 → Forall (after (key d)) l2 → ins d (l1 ++ l2) = l1 ++ d :: l2.
Proof.
  intros H1 H2. induction H1 as [|x l1 Hx H1 IH]; simpl.
  - destruct H2 as [|y l2 Hy _]; simpl; [done|].
    unfold after in Hy. by rewrite (key_asym _ _ Hy), Hy.
  - unfold before in Hx. by rewrite Hx, IH.
Qed.

Lemma ins_present d l1 d' l2 :
  Forall (before (key d)) l1 → key d' = key d → ins d (l1 ++ d' :: l2) = l1 ++ d' :: l2.
Proof.
  intros H1 Hk. induction H1 as [|x l1 Hx H1 IH]; simpl.
  - by rewrite Hk, key_irrefl.
  - unfold before in Hx. by rewrite Hx, IH.
Qed.

Lemma find_key_present k l1 d l2 :
  Forall (before k) l1 → key d = k → find_key k (l1 ++ d :: l2) = Some d.
Proof.
  intros H1 Hk. induction H1 as [|x l1 Hx H1 IH]; simpl.
  - by rewrite Hk, key_irrefl.
  - unfold before in Hx. by rewrite Hx.
Qed.

Lemma find_key_absent k l1 l2 :
  Forall (before k) l1 → Forall (after k) l2 → find_key k (l1 ++ l2) = None.
Proof.
  intros H1 H2. induction H1 as [|x l1 Hx H1 IH]; simpl.
  - destruct H2 as [|y l2 Hy _]; simpl; [done|].
    unfold after in Hy. by rewrite (key_asym _ _ Hy), Hy.
  - unfold before in Hx. by rewrite Hx.
Qed.

Lemma ins_elem d l x : x ∈ ins d l → x = d ∨ x ∈ l.
Proof.
  induction l as [|y l IH]; simpl; [set_solver|].
  repeat case_match; set_solver.
Qed.

Lemma sorted_ins d l : sorted_keys l → sorted_keys (ins d l).
Proof.
  unfold sorted_keys. induction l as [|x l IH]; simpl; intros Hs.
  - repeat constructor.
  - apply StronglySorted_cons in Hs as [Hx Hs].
    destruct (key_ltb (key x) (key d)) eqn:E1.
    + apply StronglySorted_cons. split; [|by apply IH].
      rewrite Forall_forall in *. intros y [->|Hy]%ins_elem; [done|]. by apply Hx.
    + destruct (key_ltb (key d) (key x)) eqn:E2; [|by apply StronglySorted_cons].
      apply StronglySorted_cons. split; [|by apply StronglySorted_cons].
      constructor; [done|]. eapply Forall_impl; [done|]. intros y Hy.
      unfold key_lt in *. by eapply key_trans.
Qed.

(** Lookups in the result of an insertion. *)
Lemma find_key_ins_eq d l :
  sorted_keys l → find_key (key d) l = None → find_key (key d) (ins d l) = Some d.
Proof.
  unfold sorted_keys. induction l as [|x l IH]; simpl; intros Hs Hf.
  - by rewrite key_irrefl.
  - apply StronglySorted_cons in Hs as [_ Hs].
    destruct (key_ltb (key x) (key d)) eqn:E1; simpl; [rewrite E1; by apply IH|].
    destruct (key_ltb (key d) (key x)) eqn:E2; simpl; [by rewrite key_irrefl|done].
Qed.

Lemma find_key_ins_ne d l k :
  sorted_keys l → k ≠ key d → find_key k (ins d l) = find_key k l.
Proof.
  unfold sorted_keys. induction l as [|x l IH]; simpl; intros Hs Hk.
  - destruct (key_ltb (key d) k) eqn:E1; [done|].
    destruct (key_ltb k (key d)) eqn:E2; [done|]. by destruct Hk; apply key_total.
  - apply StronglySorted_cons in Hs as [Hx Hs].
    destruct (key_ltb (key x) (key d)) eqn:E1; simpl; [by rewrite IH|].
    destruct (key_ltb (key d) (key x)) eqn:E2; simpl; [|done].
    destruct (key_ltb (key d) k) eqn:E3; [done|].
    destruct (key_ltb k (key d)) eqn:E4; [|by destruct Hk; apply key_total].
    pose proof (key_trans _ _ _ E4 E2) as E5. by rewrite (key_asym _ _ E5), E5.
Qed.

End SortedKeys.

(** Entries that are projected to what they hold keep their order. *)
Section Projection.
Context {P Q K : Type} `{KeyOrder K} (key : Q → K) (f : P → Q).

Lemma sorted_keys_fmap l : sorted_keys key (f <$> l) ↔ sorted_keys (key ∘ f) l.
Proof.
  unfold sorted_keys. induction l as [|x l IH]; simpl; [by split; constructor|].
  rewrite !StronglySorted_cons, IH, Forall_fmap. done.
Qed.

Lemma ins_fmap d l : ins key (f d) (f <$> l) = f <$> ins (key ∘ f) d l.
Proof.
  induction l as [|x l IH]; [done|]. rewrite fmap_cons. cbn [ins].
  change ((key ∘ f) x) with (key (f x)). change ((key ∘ f) d) with (key (f d)).
  destruct (key_ltb (key (f x)) (key (f d))); [by rewrite IH|].
  by destruct (key_ltb (key (f d)) (key (f x))).
Qed.

Lemma find_key_fmap k l : find_key key k (f <$> l) = f <$> find_key (key ∘ f) k l.
Proof.
  induction l as [|x l IH]; [done|]. rewrite fmap_cons. cbn [find_key].
  change ((key ∘ f) x) with (key (f x)).
  destruct (key_ltb (key (f x)) k); [done|]. by destruct (key_ltb k (key (f x))).
Qed.

End Projection.
