(* ===== verification/HeapTree.v ===== *)
(** * Parent-linked binary trees in a heap

    The nodes of [AVLTreeNode] (src/Algorithm/AVLTree.hpp) and [RBTreeNode]
    (src/Algorithm/RBTree.hpp) are heap cells with [_left], [_right] and
    [_parent] pointers and a payload: [(_kv, _bf)] for the AVL tree,
    [(_data, _col)] for the red-black tree.  This file holds the heap, the
    member accesses, the pointer part of the single rotations (the same text in
    both headers) and the shape predicate that relates a heap to a tree whose
    nodes are labelled with their addresses. *)

From S2P Require Import Prelude.

Definition loc := positive.
Definition ptr : Type := option loc.

Create HintDb keeps.

Section Heap.
Context {P : Type}.

Record node := mkNode {
  _left : ptr;
  _right : ptr;
  _parent : ptr;
  _payload : P;
}.

(** The class [AVLTree] or [RBTree]: the heap of live nodes, the member
    [_root], and the allocator's next address. *)
Record tstate := TState {
  heap : gmap loc node;
  _root : ptr;
  next_loc : loc;
}.

(** ** Member accesses *)
Definition deref (p : ptr) : M tstate node := λ st,
  match p with
  | None => Err NullDeref
  | Some l => match heap st !! l with
              | None => Err DanglingPtr
              | Some n => Ok (n, st)
              end
  end.

Definition update (p : ptr) (f : node → node) : M tstate () := λ st,
  match p with
  | None => Err NullDeref
  | Some l => match heap st !! l with
              | None => Err DanglingPtr
              | Some n => Ok ((), TState (<[l := f n]> (heap st)) (_root st) (next_loc st))
              end
  end.

Definition get_left (p : ptr) : M tstate ptr := n ← deref p; mret (_left n).
Definition get_right (p : ptr) : M tstate ptr := n ← deref p; mret (_right n).
Definition get_parent (p : ptr) : M tstate ptr := n ← deref p; mret (_parent n).
Definition get_payload (p : ptr) : M tstate P := n ← deref p; mret (_payload n).
Definition set_left (p v : ptr) : M tstate () :=
  update p (λ n, mkNode v (_right n) (_parent n) (_payload n)).
Definition set_right (p v : ptr) : M tstate () :=
  update p (λ n, mkNode (_left n) v (_parent n) (_payload n)).
Definition set_parent (p v : ptr) : M tstate () :=
  update p (λ n, mkNode (_left n) (_right n) v (_payload n)).
Definition set_payload (p : ptr) (d : P) : M tstate () :=
  update p (λ n, mkNode (_left n) (_right n) (_parent n) d).
Definition get_root : M tstate ptr := gets _root.
Definition set_root (p : ptr) : M tstate () :=
  modify (λ st, TState (heap st) p (next_loc st)).

(** [new Node(d)]: all three links are null. *)
Definition new_node (d : P) : M tstate ptr := λ st,
  Ok (Some (next_loc st),
      TState (<[next_loc st := mkNode None None None d]> (heap st))
             (_root st) (Pos.succ (next_loc st))).

(** The default constructor: [_root = nullptr]. *)
Definition empty_tree : tstate := TState ∅ None 1%positive.

(** Loops over the nodes of a tree run at most once per live node. *)
Definition fuel_of (st : tstate) : nat := S (size (heap st)).

(** ** The link part of [RotateL] and [RotateR] *)
Definition RotateL_links (parent : ptr) : M tstate () :=
  subR ← get_right parent;
  subRL ← get_left subR;
  set_right parent subRL;;
  match subRL with Some _ => set_parent subRL parent | None => mret () end;;
  ppNode ← get_parent parent;
  set_left subR parent;;
  set_parent parent subR;;
  match ppNode with
  | None =>
      set_root subR;;
      r ← get_root;
      set_parent r None
  | Some _ =>
      l ← get_left ppNode;
      (if decide (l = parent) then set_left ppNode subR else set_right ppNode subR);;
      set_parent subR ppNode
  end.

Definition RotateR_links (parent : ptr) : M tstate () :=
  subL ← get_left parent;
  subLR ← get_right subL;
  set_left parent subLR;;
  match subLR with Some _ => set_parent subLR parent | None => mret () end;;
  ppNode ← get_parent parent;
  set_right subL parent;;
  set_parent parent subL;;
  match ppNode with
  | None =>
      set_root subL;;
      r ← get_root;
      set_parent r None
  | Some _ =>
      l ← get_left ppNode;
      (if decide (l = parent) then set_left ppNode subL else set_right ppNode subL);;
      set_parent subL ppNode
  end.

(** ** Address-labelled trees and their contexts *)
Inductive tree :=
  | Leaf
  | Node (a : loc) (l : tree) (d : P) (r : tree).

Definition tptr (t : tree) : ptr := match t with Leaf => None | Node a _ _ _ => Some a end.

Fixpoint labels (t : tree) : list loc :=
  match t with Leaf => [] | Node a l _ r => labels l ++ a :: labels r end.
Fixpoint inorder (t : tree) : list P :=
  match t with Leaf => [] | Node _ l d r => inorder l ++ d :: inorder r end.

(** [LeftF a d r]: the hole is the left child of node [a] with payload [d] and
    right subtree [r]; [RightF] is the mirror image. *)
Inductive frame :=
  | LeftF (a : loc) (d : P) (r : tree)
  | RightF (a : loc) (l : tree) (d : P).

Definition plug1 (f : frame) (t : tree) : tree :=
  match f with LeftF a d r => Node a t d r | RightF a l d => Node a l d t end.
Fixpoint plug (c : list frame) (t : tree) : tree :=
  match c with [] => t | f :: c => plug c (plug1 f t) end.
Definition frame_loc (f : frame) : loc :=
  match f with LeftF a _ _ => a | RightF a _ _ => a end.
Definition cptr (c : list frame) : ptr :=
  match c with [] => None | f :: _ => Some (frame_loc f) end.
Definition frame_labels (f : frame) : list loc :=
  match f with LeftF a _ r => a :: labels r | RightF a l _ => a :: labels l end.
Definition clabels (c : list frame) : list loc := concat (frame_labels <$> c).

(** ** Shape predicate *)
Fixpoint rep (h : gmap loc node) (par : ptr) (t : tree) : Prop :=
  match t with
  | Leaf => True
  | Node a l d r =>
      h !! a = Some (mkNode (tptr l) (tptr r) par d) ∧ rep h (Some a) l ∧ rep h (Some a) r
  end.

Fixpoint rep_ctx (h : gmap loc node) (hole : ptr) (c : list frame) : Prop :=
  match c with
  | [] => True
  | LeftF a d r :: c =>
      h !! a = Some (mkNode hole (tptr r) (cptr c) d) ∧ rep h (Some a) r ∧ rep_ctx h (Some a) c
  | RightF a l d :: c =>
      h !! a = Some (mkNode (tptr l) hole (cptr c) d) ∧ rep h (Some a) l ∧ rep_ctx h (Some a) c
  end.

(** [st] holds exactly the nodes of [t], linked as [t] says. *)
Record Rep (st : tstate) (t : tree) : Prop := {
  Rep_root : _root st = tptr t;
  Rep_nodup : NoDup (labels t);
  Rep_rep : rep (heap st) None t;
  Rep_dom : ∀ l, is_Some (heap st !! l) ↔ l ∈ labels t;
  Rep_next : ∀ l, l ∈ labels t → (l < next_loc st)%positive;
}.

(** ** Contexts *)
Fixpoint cleft (c : list frame) : list P :=
  match c with
  | [] => []
  | LeftF _ _ _ :: c => cleft c
  | RightF _ l d :: c => cleft c ++ inorder l ++ [d]
  end.
Fixpoint cright (c : list frame) : list P :=
  match c with
  | [] => []
  | LeftF _ d r :: c => d :: inorder r ++ cright c
  | RightF _ _ _ :: c => cright c
  end.

Lemma inorder_plug c t : inorder (plug c t) = cleft c ++ inorder t ++ cright c.
Proof.
  revert t. induction c as [|[a d r|a l d] c IH]; intros t; simpl.
  - by rewrite app_nil_r.
  - rewrite IH. simpl. by rewrite <- !app_assoc.
  - rewrite IH. simpl. by rewrite <- !app_assoc.
Qed.

Lemma labels_plug c t : labels (plug c t) ≡ₚ labels t ++ clabels c.
Proof.
  revert t. induction c as [|[a d r|a l d] c IH]; intros t; simpl;
    rewrite ?IH; unfold clabels; simpl.
  - by rewrite app_nil_r.
  - by rewrite <- !app_assoc.
  - rewrite <- !app_assoc. simpl. by rewrite <- !Permutation_middle, !app_assoc,
      (Permutation_app_comm (labels l) (labels t)).
Qed.

Lemma plug_app c1 c2 t : plug (c1 ++ c2) t = plug c2 (plug c1 t).
Proof. revert t. induction c1; intros t; simpl; auto. Qed.

Lemma tptr_plug1 f t : tptr (plug1 f t) = Some (frame_loc f).
Proof. by destruct f. Qed.

Lemma tptr_plug_inv c t1 t2 : tptr t1 = tptr t2 → tptr (plug c t1) = tptr (plug c t2).
Proof.
  revert t1 t2. induction c as [|f c IH]; intros t1 t2 H; simpl; [done|].
  apply IH. by rewrite !tptr_plug1.
Qed.

Lemma tptr_plug_cons f c t1 t2 : tptr (plug (f :: c) t1) = tptr (plug (f :: c) t2).
Proof. simpl. apply tptr_plug_inv. by rewrite !tptr_plug1. Qed.

Lemma rep_plug h c t :
  rep h None (plug c t) ↔ rep h (cptr c) t ∧ rep_ctx h (tptr t) c.
Proof.
  revert t. induction c as [|f c IH]; intros t; simpl; [naive_solver|].
  rewrite IH. destruct f; simpl; naive_solver.
Qed.

(** ** Framing *)
Lemma rep_insert_ne h par t a n :
  a ∉ labels t → rep h par t → rep (<[a := n]> h) par t.
Proof.
  revert par. induction t as [|b l IHl d r IHr]; intros par Ha; simpl; [done|].
  simpl in Ha. rewrite elem_of_app, elem_of_cons in Ha.
  intros (Hb & Hl & Hr). rewrite lookup_insert_ne by naive_solver.
  split; [done|]. split; [apply IHl|apply IHr]; naive_solver.
Qed.

Lemma rep_ctx_insert_ne h hole c a n :
  a ∉ clabels c → rep_ctx h hole c → rep_ctx (<[a := n]> h) hole c.
Proof.
  revert hole. induction c as [|f c IH]; intros hole Ha; simpl; [done|].
  unfold clabels in Ha; simpl in Ha. fold (clabels c) in Ha.
  rewrite elem_of_app in Ha.
  destruct f; simpl in Ha; rewrite elem_of_cons in Ha; intros (Hb & Ht & Hc);
    (split; [by rewrite lookup_insert_ne by naive_solver|]);
    (split; [apply rep_insert_ne; naive_solver|apply IH; naive_solver]).
Qed.

Lemma rep_labels h par t l : rep h par t → l ∈ labels t → is_Some (h !! l).
Proof.
  revert par. induction t as [|b tl IHl d tr IHr]; intros par; simpl;
    [intros _ H; by apply not_elem_of_nil in H|].
  intros (Hb & Hl & Hr). rewrite elem_of_app, elem_of_cons.
  intros [?|[->|?]]; eauto.
Qed.

(** ** Operations that neither allocate nor free *)
Definition same_cells (s s' : tstate) : Prop :=
  next_loc s' = next_loc s ∧ dom (heap s') = dom (heap s).

Definition keeps {A} (m : M tstate A) : Prop :=
  ∀ s a s', m s = Ok (a, s') → same_cells s s'.

Lemma keeps_ret {A} (a : A) : keeps (mret a).
Proof. intros s a' s' [= -> <-]. by split. Qed.
Lemma keeps_bind {A B} (m : M tstate A) (f : A → M tstate B) :
  keeps m → (∀ a, keeps (f a)) → keeps (m ≫= f).
Proof.
  intros Hm Hf s b s'' (a & s' & H1 & H2)%bind_inv.
  destruct (Hm _ _ _ H1), (Hf _ _ _ _ H2). split; congruence.
Qed.
Lemma keeps_deref p : keeps (deref p).
Proof.
  intros s n s'. unfold deref. destruct p as [l|]; [|done].
  destruct (heap s !! l); [|done]. intros [= -> <-]. by split.
Qed.
Lemma keeps_update p f : keeps (update p f).
Proof.
  intros s n s'. unfold update. destruct p as [l|]; [|done].
  destruct (heap s !! l) eqn:E; [|done]. intros [= <- <-]. split; [done|]. simpl.
  apply dom_insert_lookup_L. by eexists.
Qed.
Lemma keeps_gets {A} (f : tstate → A) : keeps (gets f).
Proof. intros s a s'. unfold gets. intros [= <- <-]. split; done. Qed.
Lemma keeps_set_root p : keeps (set_root p).
Proof. intros s a s'. unfold set_root, modify. intros [= <- <-]. split; done. Qed.
Lemma keeps_fail {A} e : keeps (A:=A) (fail e).
Proof. by intros s a s'. Qed.

#[local] Hint Resolve keeps_ret keeps_deref keeps_update keeps_gets keeps_set_root keeps_fail : keeps.
#[local] Hint Extern 2 (keeps (_ ≫= _)) => apply keeps_bind; [|intros ?] : keeps.
#[local] Hint Extern 1 (keeps (match ?x with _ => _ end)) => destruct x : keeps.

Lemma keeps_RotateL p : keeps (RotateL_links p).
Proof. unfold RotateL_links, get_left, get_right, get_parent, set_left, set_right, set_parent, get_root.
  auto 30 with keeps. Qed.
Lemma keeps_RotateR p : keeps (RotateR_links p).
Proof. unfold RotateR_links, get_left, get_right, get_parent, set_left, set_right, set_parent, get_root.
  auto 30 with keeps. Qed.

(** ** Running member accesses on a known cell *)
Lemma get_left_ok l st n :
  heap st !! l = Some n → get_left (Some l) st = Ok (_left n, st).
Proof. intros H. unfold get_left, deref, mbind, M_bind. by rewrite H. Qed.
Lemma get_right_ok l st n :
  heap st !! l = Some n → get_right (Some l) st = Ok (_right n, st).
Proof. intros H. unfold get_right, deref, mbind, M_bind. by rewrite H. Qed.
Lemma get_parent_ok l st n :
  heap st !! l = Some n → get_parent (Some l) st = Ok (_parent n, st).
Proof. intros H. unfold get_parent, deref, mbind, M_bind. by rewrite H. Qed.
Lemma get_payload_ok l st n :
  heap st !! l = Some n → get_payload (Some l) st = Ok (_payload n, st).
Proof. intros H. unfold get_payload, deref, mbind, M_bind. by rewrite H. Qed.
Lemma update_ok l f st n :
  heap st !! l = Some n →
  update (Some l) f st = Ok ((), TState (<[l := f n]> (heap st)) (_root st) (next_loc st)).
Proof. intros H. unfold update. by rewrite H. Qed.

Lemma Rep_step st st' t t' :
  Rep st t → same_cells st st' → labels t' ≡ₚ labels t →
  _root st' = tptr t' → rep (heap st') None t' → Rep st' t'.
Proof.
  intros [_ Hnd _ Hdom Hnext] [Hn Hd] Hl Hr Hrep. split; auto.
  - by rewrite Hl.
  - intros l. rewrite Hl, <- Hdom, <- !elem_of_dom. by rewrite Hd.
  - intros l. rewrite Hl, Hn. apply Hnext.
Qed.

Lemma tptr_ne t a : a ∉ labels t → tptr t ≠ Some a.
Proof. destruct t; simpl; [done|]. intros H [= ->]. apply H. set_solver. Qed.

Lemma Rep_empty : Rep empty_tree Leaf.
Proof.
  split; simpl; [done|constructor|done| |by intros ? ?%not_elem_of_nil].
  intros l. rewrite lookup_empty, elem_of_nil, is_Some_alt. done.
Qed.

End Heap.
Arguments node : clear implicits.
Arguments tstate : clear implicits.
Arguments tree : clear implicits.
Arguments frame : clear implicits.

(** ** Proof automation for heap trees *)
#[export] Hint Resolve keeps_ret keeps_deref keeps_update keeps_gets keeps_set_root keeps_fail
  keeps_RotateL keeps_RotateR : keeps.
#[export] Hint Extern 2 (keeps (_ ≫= _)) => apply keeps_bind; [|intros ?] : keeps.
#[export] Hint Extern 1 (keeps (match ?x with _ => _ end)) => destruct x : keeps.

(** [split_nodup H] turns the [NoDup] of a label list into disequalities and
    non-membership facts about its parts. *)
Ltac split_nodup H :=
  repeat (simpl in H || rewrite NoDup_app in H || rewrite NoDup_cons in H
    || setoid_rewrite not_elem_of_app in H || setoid_rewrite not_elem_of_cons in H
    || setoid_rewrite elem_of_app in H || setoid_rewrite elem_of_cons in H);
  destruct_and?.

(** The disequality of two addresses, from the facts of [split_nodup]. *)
Ltac at_loc y :=
  repeat match goal with H : ∀ z : loc, _ |- _ => specialize (H y) end.
Ltac neq x y := assert (x ≠ y) by (intros ->; at_loc y; pose proof (eq_refl y); tauto).
Ltac notin := match goal with |- ?x ∉ _ => intros ?; at_loc x; pose proof (eq_refl x); tauto end.

Ltac acc :=
  first [ eapply get_left_ok | eapply get_right_ok | eapply get_parent_ok
        | eapply get_payload_ok | eapply update_ok ];
  cbn [heap]; simplify_map_eq; reflexivity.
Ltac mstep := erewrite bind_ok by (solve [acc | reflexivity]); cbn [_left _right _parent _payload tptr cptr frame_loc].

Ltac solve_rep :=
  repeat first
    [ split
    | exact I
    | assumption
    | apply rep_insert_ne; [solve [notin]|]
    | apply rep_ctx_insert_ne; [solve [notin]|]
    | solve [simplify_map_eq; reflexivity] ].

