(* ===== verification/HeapRot.v ===== *)
(** * The single rotations on a heap tree

    [RotateL] and [RotateR] of src/Algorithm/AVLTree.hpp and
    src/Algorithm/RBTree.hpp, run at any position of a tree that a heap
    represents, leave a heap that represents the rotated tree. *)

From S2P Require Import Prelude HeapTree.

Section Rotations.
Context {P : Type}.
Implicit Types (t A B C : tree P) (c : list (frame P)) (st : tstate P).

Lemma RotateL_spec st c p A dp s B ds C :
  Rep st (plug c (Node p A dp (Node s B ds C))) →
  ∃ st', RotateL_links (Some p) st = Ok ((), st') ∧
         Rep st' (plug c (Node s (Node p A dp B) ds C)).
Proof.
  intros HR. destruct (HR) as [Hroot Hnd Hrep _ _].
  assert (∃ st', RotateL_links (Some p) st = Ok ((), st') ∧
    _root st' = tptr (plug c (Node s (Node p A dp B) ds C)) ∧
    rep (heap st') None (plug c (Node s (Node p A dp B) ds C))) as (st' & He & Hr' & Hrep').
  2: { exists st'. split; [done|]. eapply Rep_step; eauto using keeps_RotateL.
       - eapply keeps_RotateL; eauto.
       - rewrite !labels_plug. simpl. repeat (rewrite <- app_assoc; simpl). done. }
  rewrite labels_plug in Hnd. rewrite rep_plug in Hrep. setoid_rewrite rep_plug.
  destruct st as [h r n]. simpl in *.
  destruct Hrep as ((Hp & HA & Hs & HB & HC) & Hc).
  unfold RotateL_links.
  unfold set_left, set_right, set_parent, get_root, set_root.
  destruct B as [|b B1 db B2], c as [|[f df F|f F df] c]; simpl in *; destruct_and?.
  all: unfold clabels in Hnd; split_nodup Hnd; try fold (clabels c) in *.
  - neq p s. subst r. repeat mstep. eexists; split; [acc|]. split; [done|]. solve_rep.
  - neq p s. neq f p. neq f s. repeat mstep. rewrite decide_True by done. repeat mstep.
    eexists; split; [acc|]. split; [subst r; by apply tptr_plug_inv|]. solve_rep.
  - neq p s. neq f p. neq f s. repeat mstep.
    rewrite decide_False by (apply tptr_ne; notin). repeat mstep.
    eexists; split; [acc|]. split; [subst r; by apply tptr_plug_inv|]. solve_rep.
  - neq p s. neq p b. neq s b. subst r. repeat mstep. eexists; split; [acc|].
    split; [done|]. solve_rep.
  - neq p s. neq f p. neq f s. neq p b. neq s b. neq f b. repeat mstep.
    rewrite decide_True by done. repeat mstep.
    eexists; split; [acc|]. split; [subst r; by apply tptr_plug_inv|]. solve_rep.
  - neq p s. neq f p. neq f s. neq p b. neq s b. neq f b. repeat mstep.
    rewrite decide_False by (apply tptr_ne; notin). repeat mstep.
    eexists; split; [acc|]. split; [subst r; by apply tptr_plug_inv|]. solve_rep.
Qed.

Lemma RotateR_spec st c p A dp s B ds C :
  Rep st (plug c (Node p (Node s C ds B) dp A)) →
  ∃ st', RotateR_links (Some p) st = Ok ((), st') ∧
         Rep st' (plug c (Node s C ds (Node p B dp A))).
Proof.
  intros HR. destruct (HR) as [Hroot Hnd Hrep _ _].
  assert (∃ st', RotateR_links (Some p) st = Ok ((), st') ∧
    _root st' = tptr (plug c (Node s C ds (Node p B dp A))) ∧
    rep (heap st') None (plug c (Node s C ds (Node p B dp A)))) as (st' & He & Hr' & Hrep').
  2: { exists st'. split; [done|]. eapply Rep_step; eauto using keeps_RotateR.
       - eapply keeps_RotateR; eauto.
       - rewrite !labels_plug. simpl. repeat (rewrite <- app_assoc; simpl). done. }
  rewrite labels_plug in Hnd. rewrite rep_plug in Hrep. setoid_rewrite rep_plug.
  destruct st as [h r n]. simpl in *.
  destruct Hrep as ((Hp & (Hs & HC & HB) & HA) & Hc).
  unfold RotateR_links.
  unfold set_left, set_right, set_parent, get_root, set_root.
  destruct B as [|b B1 db B2], c as [|[f df F|f F df] c]; simpl in *; destruct_and?.
  all: unfold clabels in Hnd; split_nodup Hnd; try fold (clabels c) in *.
  - neq p s. subst r. repeat mstep. eexists; split; [acc|]. split; [done|]. solve_rep.
  - neq p s. neq f p. neq f s. repeat mstep. rewrite decide_True by done. repeat mstep.
    eexists; split; [acc|]. split; [subst r; by apply tptr_plug_inv|]. solve_rep.
  - neq p s. neq f p. neq f s. repeat mstep.
    rewrite decide_False by (apply tptr_ne; notin). repeat mstep.
    eexists; split; [acc|]. split; [subst r; by apply tptr_plug_inv|]. solve_rep.
  - neq p s. neq p b. neq s b. subst r. repeat mstep. eexists; split; [acc|].
    split; [done|]. solve_rep.
  - neq p s. neq f p. neq f s. neq p b. neq s b. neq f b. repeat mstep.
    rewrite decide_True by done. repeat mstep.
    eexists; split; [acc|]. split; [subst r; by apply tptr_plug_inv|]. solve_rep.
  - neq p s. neq f p. neq f s. neq p b. neq s b. neq f b. repeat mstep.
    rewrite decide_False by (apply tptr_ne; notin). repeat mstep.
    eexists; split; [acc|]. split; [subst r; by apply tptr_plug_inv|]. solve_rep.
Qed.

End Rotations.
