(* ===== verification/HeapFocus.v ===== *)
(** * Reading and changing a heap tree at a position

    Specifications of the member accesses at a node that sits in a context, of
    the allocation of a node, and of the descent that looks a key up. *)

From S2P Require Import Prelude SortedKeys HeapTree.

Section Focus.
Context {P : Type}.
Implicit Types (t A B C : tree P) (c : list (frame P)) (st : tstate P).

(** ** Focused specifications

    A program point inside a tree is a context [c] and a subtree: the cell of
    [a] in [plug c (Node a l d r)] has the children of that node and the parent
    [cptr c]. *)
Lemma deref_spec st c a (l : tree P) d r :
  Rep st (plug c (Node a l d r)) →
  heap st !! a = Some (mkNode (tptr l) (tptr r) (cptr c) d).
Proof. intros [_ _ Hrep _ _]. rewrite rep_plug in Hrep. simpl in Hrep. naive_solver. Qed.

Lemma set_payload_spec st c a (l : tree P) d r d' :
  Rep st (plug c (Node a l d r)) →
  ∃ st', set_payload (Some a) d' st = Ok ((), st') ∧ Rep st' (plug c (Node a l d' r)).
Proof.
  intros HR. pose proof (deref_spec _ _ _ _ _ _ HR) as Ha.
  pose proof (update_ok a (λ n, mkNode (_left n) (_right n) (_parent n) d') st _ Ha) as He.
  eexists. split; [exact He|].
  eapply Rep_step; [done| | | |].
  - eapply keeps_update, He.
  - by rewrite !labels_plug.
  - simpl. rewrite (Rep_root _ _ HR). by apply tptr_plug_inv.
  - destruct HR as [_ Hnd Hrep _ _]. rewrite labels_plug in Hnd. rewrite rep_plug in *.
    simpl in *. destruct Hrep as ((_ & Hl & Hr) & Hc). split_nodup Hnd.
    simplify_map_eq. solve_rep.
Qed.

Lemma Rep_size st t : Rep st t → size (heap st) = length (labels t).
Proof.
  intros [_ Hnd _ Hdom _]. rewrite <- size_dom.
  assert (dom (heap st) = list_to_set (labels t)) as ->.
  { apply set_eq. intros l. by rewrite elem_of_dom, Hdom, elem_of_list_to_set. }
  by apply size_list_to_set.
Qed.

Lemma Rep_fresh st t : Rep st t → (next_loc st ∉ labels t) ∧ heap st !! (next_loc st) = None.
Proof.
  intros [_ _ _ Hdom Hnext].
  assert (next_loc st ∉ labels t) as H by (intros H%Hnext; lia).
  split; [done|]. apply eq_None_not_Some. by rewrite Hdom.
Qed.

(** The child pointers of a node differ. *)
Lemma sibling_ne st c x (L : tree P) d a l' d' r' :
  Rep st (plug (RightF x L d :: c) (Node a l' d' r')) → tptr L ≠ Some a.
Proof.
  intros [_ Hnd _ _ _]. rewrite labels_plug in Hnd. simpl in Hnd. apply tptr_ne.
  split_nodup Hnd. intros Hin. naive_solver.
Qed.
Lemma sibling_ne' st c x (R : tree P) d a l' d' r' :
  Rep st (plug (LeftF x d R :: c) (Node a l' d' r')) → tptr R ≠ Some a.
Proof.
  intros [_ Hnd _ _ _]. rewrite labels_plug in Hnd. simpl in Hnd. apply tptr_ne.
  split_nodup Hnd. intros Hin. naive_solver.
Qed.

(** A represented tree determines the state, up to the allocator. *)
Lemma rep_lookup_det h1 h2 par t x :
  rep h1 par t → rep h2 par t → x ∈ labels t → h1 !! x = h2 !! x.
Proof.
  revert par. induction t as [|a l IHl d r IHr]; intros par; simpl;
    [intros _ _ H; by apply not_elem_of_nil in H|].
  intros (H1 & H1l & H1r) (H2 & H2l & H2r). rewrite elem_of_app, elem_of_cons.
  intros [Hx|[->|Hx]]; [eauto|congruence|eauto].
Qed.

Lemma Rep_det st1 st2 t :
  Rep st1 t → Rep st2 t → next_loc st1 = next_loc st2 → st1 = st2.
Proof.
  intros [Hr1 _ H1 Hd1 _] [Hr2 _ H2 Hd2 _] Hn.
  destruct st1 as [h1 r1 n1], st2 as [h2 r2 n2]; simpl in *. f_equal; [|congruence|done].
  apply map_eq. intros x. destruct (decide (x ∈ labels t)) as [Hx|Hx].
  - by eapply rep_lookup_det.
  - assert (h1 !! x = None) as -> by (apply eq_None_not_Some; by rewrite Hd1).
    symmetry. apply eq_None_not_Some. by rewrite Hd2.
Qed.

Lemma length_clabels c : length c ≤ length (clabels c).
Proof.
  unfold clabels. induction c as [|f c IH]; [done|].
  rewrite fmap_cons. cbn [concat length]. rewrite length_app.
  destruct f; cbn [frame_labels length]; lia.
Qed.

(** Linking a fresh node below a context whose hole is empty. *)
Definition link_child (f : frame P) (n : ptr) : M (tstate P) () :=
  match f with
  | LeftF a _ _ => set_left (Some a) n;; set_parent n (Some a)
  | RightF a _ _ => set_right (Some a) n;; set_parent n (Some a)
  end.

(** A heap that gained the cell at [next_loc] represents a tree that gained a
    node there. *)
Lemma Rep_grown st st' t t' :
  Rep st t → next_loc st' = Pos.succ (next_loc st) →
  (∀ l, is_Some (heap st' !! l) ↔ l = next_loc st ∨ is_Some (heap st !! l)) →
  labels t' ≡ₚ next_loc st :: labels t →
  rep (heap st') None t' → tptr t' = _root st' → Rep st' t'.
Proof.
  intros HR Hn Hd Hl Hrep Ht. destruct (Rep_fresh _ _ HR) as [Hfr Hnone].
  destruct HR as [Hroot Hnd _ Hdom Hnext]. split; auto.
  - rewrite Hl. by apply NoDup_cons.
  - intros l. rewrite Hd, Hl, Hdom. set_solver.
  - intros l. rewrite Hl, Hn. rewrite elem_of_cons. intros [->|H]; [lia|].
    apply Pos.lt_trans with (next_loc st); [by apply Hnext|lia].
Qed.

Lemma attach_spec st f c d :
  Rep st (plug (f :: c) Leaf) →
  ∃ st1 st', new_node d st = Ok (Some (next_loc st), st1) ∧
    heap st1 !! (frame_loc f) = heap st !! (frame_loc f) ∧
    link_child f (Some (next_loc st)) st1 = Ok ((), st') ∧
    Rep st' (plug (f :: c) (Node (next_loc st) Leaf d Leaf)).
Proof.
  intros HR. destruct (Rep_fresh _ _ HR) as [Hfr Hnone].
  pose proof HR as [Hroot Hnd Hrep _ _].
  rewrite labels_plug in Hnd, Hfr. rewrite rep_plug in Hrep.
  destruct st as [h r n]. unfold new_node. simpl in *. eexists.
  destruct Hrep as [_ Hc]. unfold clabels in *. assert (h !! n = None) as Hn0 by done.
  destruct f as [a fd F|a F fd]; simpl in Hc; destruct Hc as (Ha & HF & Hc);
    simpl in *; split_nodup Hnd; split_nodup Hfr; fold (clabels c) in *;
    (eexists; split; [reflexivity|]; split; [by simpl; rewrite lookup_insert_ne by congruence|]);
    unfold set_left, set_right, set_parent; mstep; (split; [acc|]);
    (apply (Rep_grown _ _ _ _ HR); simpl;
      [done
      |intros l; rewrite !lookup_insert_is_Some'; split; [|by intros [->|?]; auto];
       intros [->|[->|[->|?]]]; eauto
      |rewrite !labels_plug; simpl
      |rewrite rep_plug; simpl; solve_rep
      |rewrite Hroot; by apply tptr_plug_inv]).
  - done.
  - rewrite <- ?app_assoc. simpl. rewrite <- ?app_assoc. simpl. rewrite <- !Permutation_middle. apply perm_swap.
Qed.

End Focus.

(** Run one step of a program whose specification [lem] ends in a new state. *)
Ltac run lem :=
  let st' := fresh "st" in let He := fresh "He" in let HR := fresh "HR" in
  destruct lem as (st' & He & HR); erewrite bind_ok by exact He; clear He.
Ltac run_last lem :=
  let st' := fresh "st" in let He := fresh "He" in let HR := fresh "HR" in
  destruct lem as (st' & He & HR); exists st'; split; [exact He|].
Ltac read H := erewrite bind_ok by
  (first [ eapply get_left_ok | eapply get_right_ok | eapply get_parent_ok ];
   eapply deref_spec; exact H); cbn [_left _right _parent tptr].


(** ** Looking a key up *)
Section Locate.
Context {P K : Type} `{KeyOrder K} (key : P → K).
Implicit Types (t : tree P) (c : list (frame P)) (st : tstate P).

(** Where the search for [k] stops: at the node with key [k], or at the empty
    position where it belongs. *)
Fixpoint locate (k : K) (c : list (frame P)) (t : tree P) : list (frame P) * tree P :=
  match t with
  | Leaf => (c, Leaf)
  | Node a l d r =>
      if key_ltb (key d) k then locate k (RightF a l d :: c) r
      else if key_ltb k (key d) then locate k (LeftF a d r :: c) l
      else (c, t)
  end.

Fixpoint height (t : tree P) : nat :=
  match t with Leaf => 0 | Node _ l _ r => S (height l `max` height r) end.

Lemma height_labels t : height t ≤ length (labels t).
Proof. induction t; simpl; rewrite ?length_app; simpl; lia. Qed.

Definition frame_side (k : K) (f : frame P) : Prop :=
  match f with LeftF _ d _ => after key k d | RightF _ _ d => before key k d end.

Lemma locate_plug k c t : plug (locate k c t).1 (locate k c t).2 = plug c t.
Proof.
  revert c. induction t as [|a l IHl d r IHr]; intros c; simpl; [done|].
  destruct (key_ltb (key d) k); [by rewrite IHr|].
  destruct (key_ltb k (key d)); [by rewrite IHl|done].
Qed.

Lemma locate_side k c t : Forall (frame_side k) c → Forall (frame_side k) (locate k c t).1.
Proof.
  revert c. induction t as [|a l IHl d r IHr]; intros c Hc; simpl; [done|].
  destruct (key_ltb (key d) k) eqn:E1; [apply IHr; by constructor|].
  destruct (key_ltb k (key d)) eqn:E2; [apply IHl; by constructor|done].
Qed.

Lemma locate_node k c t :
  match (locate k c t).2 with Leaf => True | Node _ _ d _ => key d = k end.
Proof.
  revert c. induction t as [|a l IHl d r IHr]; intros c; simpl; [done|].
  destruct (key_ltb (key d) k) eqn:E1; [apply IHr|].
  destruct (key_ltb k (key d)) eqn:E2; [apply IHl|]. by apply key_total.
Qed.

Lemma context_bounds k c x :
  Forall (frame_side k) c → sorted_keys key (cleft c ++ x ++ cright c) →
  Forall (before key k) (cleft c) ∧ Forall (after key k) (cright c).
Proof.
  revert x. induction c as [|f c IH]; intros x Hc Hs; [by split; constructor|].
  apply Forall_cons in Hc as [Hf Hc]. destruct f as [a d r|a l d]; simpl in *.
  - destruct (IH (x ++ d :: inorder r) Hc) as [Hl Hr]; [by rewrite <- app_assoc|].
    split; [done|]. constructor; [done|]. apply Forall_app. split; [|done].
    apply StronglySorted_app_1_r, StronglySorted_app_1_r, StronglySorted_cons in Hs as [Hd _].
    apply Forall_app in Hd as [Hd _]. eapply Forall_impl; [done|].
    unfold after, key_lt in *. intros y Hy. by eapply key_trans.
  - destruct (IH ((inorder l ++ [d]) ++ x) Hc) as [Hl Hr];
      [by rewrite <- !app_assoc in *|].
    split; [|done]. apply Forall_app. split; [done|]. apply Forall_app.
    split; [|by constructor].
    rewrite <- !app_assoc in Hs. apply StronglySorted_app_1_r in Hs.
    apply Forall_forall. intros y Hy.
    assert (key_lt key y d) as Hyd
      by (eapply StronglySorted_app_1_elem_of; [exact Hs|done|set_solver]).
    unfold before, key_lt in *. by eapply key_trans.
Qed.

(** What a stopped search says about the sequence of entries. *)
Lemma locate_absent k t :
  sorted_keys key (inorder t) → (locate k [] t).2 = Leaf →
  plug (locate k [] t).1 Leaf = t ∧
  Forall (frame_side k) (locate k [] t).1 ∧
  Forall (before key k) (cleft (locate k [] t).1) ∧
  Forall (after key k) (cright (locate k [] t).1).
Proof.
  intros Hs Hl. pose proof (locate_plug k [] t) as Hp. rewrite Hl in Hp. simpl in Hp.
  pose proof (locate_side k [] t (Forall_nil_2 _)) as Hf.
  split; [done|]. split; [done|]. apply context_bounds with []; [done|].
  by rewrite <- Hp, inorder_plug in Hs.
Qed.

Lemma locate_present k t a l d r :
  sorted_keys key (inorder t) → (locate k [] t).2 = Node a l d r →
  plug (locate k [] t).1 (Node a l d r) = t ∧ key d = k ∧
  Forall (before key k) (cleft (locate k [] t).1 ++ inorder l).
Proof.
  intros Hs Hl. pose proof (locate_plug k [] t) as Hp. rewrite Hl in Hp. simpl in Hp.
  pose proof (locate_node k [] t) as Hk. rewrite Hl in Hk.
  split; [done|]. split; [done|].
  rewrite <- Hp, inorder_plug in Hs. simpl in Hs. rewrite <- app_assoc, app_assoc in Hs.
  apply Forall_forall. intros y Hy. unfold before. rewrite <- Hk.
  change (key_lt key y d). eapply StronglySorted_app_1_elem_of; [exact Hs|done|set_solver].
Qed.

End Locate.
