(* ===== verification/AVLTree.v ===== *)
(** * The AVL tree of src/Algorithm/AVLTree.hpp

    [zhc::AVLTree]: nodes with parent links and balance factors, insertion with
    rotations, and the checker [IsBalance].  [bit::AVLTree], in the same file,
    is the same tree with the branches in another order and a stricter checker;
    it is the module [bit] below. *)

From S2P Require Import Prelude SortedKeys HeapTree HeapRot HeapFocus.

(** The part of [AVLTreeNode] that is not a link. *)
Record avl_data (K V : Type) := mkAvl { _kv : K * V; _bf : Z }.
Arguments mkAvl {K V} _kv _bf.
Arguments _kv {K V} _.
Arguments _bf {K V} _.

Section AVL.
Context {K V : Type} `{KeyOrder K}.
Abbreviation avl := (avl_data K V).
Abbreviation state := (tstate avl).

Definition get_kv (p : ptr) : M state (K * V) := d ← get_payload p; mret (_kv d).
Definition get_bf (p : ptr) : M state Z := d ← get_payload p; mret (_bf d).
Definition set_bf (p : ptr) (b : Z) : M state () :=
  d ← get_payload p; set_payload p (mkAvl (_kv d) b).

(** ** Rotations *)
Definition RotateL (parent : ptr) : M state () :=
  subR ← get_right parent;
  RotateL_links parent;;
  set_bf subR 0;;
  set_bf parent 0.

Definition RotateR (parent : ptr) : M state () :=
  subL ← get_left parent;
  RotateR_links parent;;
  set_bf parent 0;;
  set_bf subL 0.

Definition RotateLR (parent : ptr) : M state () :=
  subL ← get_left parent;
  subLR ← get_right subL;
  bf ← get_bf subLR;
  pl ← get_left parent;
  RotateL pl;;
  RotateR parent;;
  if (bf =? 0)%Z then set_bf parent 0;; set_bf subLR 0;; set_bf subL 0
  else if (bf =? -1)%Z then set_bf parent 1;; set_bf subL 0;; set_bf subLR 0
  else if (bf =? 1)%Z then set_bf subL (-1);; set_bf subLR 0;; set_bf parent 0
  else fail AssertFailed.

Definition RotateRL (parent : ptr) : M state () :=
  subR ← get_right parent;
  subRL ← get_left subR;
  bf ← get_bf subRL;
  pr ← get_right parent;
  RotateR pr;;
  RotateL parent;;
  if (bf =? 1)%Z then set_bf parent (-1);; set_bf subR 0;; set_bf subRL 0
  else if (bf =? -1)%Z then set_bf parent 0;; set_bf subR 1;; set_bf subRL 0
  else if (bf =? 0)%Z then set_bf parent 0;; set_bf subR 0;; set_bf subRL 0
  else fail AssertFailed.

(** ** Insertion *)

(** The first loop: walk down from [cur]; [true] when the key is present. *)
Fixpoint descend (fuel : nat) (k : K) (cur parent : ptr) : M state (bool * ptr) :=
  match fuel with
  | 0 => fail OutOfFuel
  | S fuel =>
      match cur with
      | None => mret (false, parent)
      | Some _ =>
          kv ← get_kv cur;
          if key_ltb (fst kv) k then (r ← get_right cur; descend fuel k r cur)
          else if key_gtb (fst kv) k then (l ← get_left cur; descend fuel k l cur)
          else mret (true, parent)
      end
  end.

(** [x && y], where [y] is evaluated only when [x] holds. *)
Definition and_also (x : bool) (y : M state bool) : M state bool :=
  if x then y else mret false.

(** [parent->_bf--] when [cur] is the left child, [parent->_bf++] otherwise. *)
Definition update_bf (cur parent : ptr) : M state () :=
  l ← get_left parent;
  b0 ← get_bf parent;
  set_bf parent (if decide (cur = l) then b0 - 1 else b0 + 1)%Z.

(** The second loop: update the balance factors from [cur] up, and rotate. *)
Fixpoint rebalance (fuel : nat) (cur parent : ptr) : M state () :=
  match fuel with
  | 0 => fail OutOfFuel
  | S fuel =>
      match parent with
      | None => mret ()
      | Some _ =>
          update_bf cur parent;;
          b ← get_bf parent;
          if (b =? 0)%Z then mret ()
          else if ((b =? 1) || (b =? -1))%Z then
            (pp ← get_parent parent; rebalance fuel parent pp)
          else if ((b =? 2) || (b =? -2))%Z then
            (c1 ← and_also (b =? 2)%Z (r ← get_right parent; x ← get_bf r; mret (x =? 1)%Z);
             if (c1 : bool) then RotateL parent else
             c2 ← and_also (b =? -2)%Z (l ← get_left parent; x ← get_bf l; mret (x =? -1)%Z);
             if (c2 : bool) then RotateR parent else
             c3 ← and_also (b =? 2)%Z (x ← get_bf cur; mret (x =? -1)%Z);
             if (c3 : bool) then RotateRL parent else
             c4 ← and_also (b =? -2)%Z (x ← get_bf cur; mret (x =? 1)%Z);
             if (c4 : bool) then RotateLR parent else fail AssertFailed)
          else fail AssertFailed
      end
  end.

(** [new Node(kv)], hung below [parent] on the side its key belongs to. *)
Definition link_new (kv : K * V) (parent : ptr) : M state ptr :=
  cur ← new_node (mkAvl kv 0);
  pkv ← get_kv parent;
  (if key_gtb (fst pkv) (fst kv)
   then set_left parent cur;; set_parent cur parent
   else set_right parent cur;; set_parent cur parent);;
  mret cur.

Definition insert (kv : K * V) : M state bool :=
  fuel ← gets fuel_of;
  root ← get_root;
  match root with
  | None => n ← new_node (mkAvl kv 0); set_root n;; mret true
  | Some _ =>
      fp ← descend fuel (fst kv) root None;
      if fst fp : bool then mret false
      else
        cur ← link_new kv (snd fp);
        rebalance fuel cur (snd fp);;
        mret true
  end.

(** ** The checker *)
Fixpoint Hight (fuel : nat) (root : ptr) : M state Z :=
  match fuel with
  | 0 => fail OutOfFuel
  | S fuel =>
      match root with
      | None => mret 0%Z
      | Some _ =>
          l ← get_left root; left ← Hight fuel l;
          r ← get_right root; right ← Hight fuel r;
          mret (if (right <? left)%Z then left + 1 else right + 1)%Z
      end
  end.

Fixpoint IsBalance_at (fuel : nat) (root : ptr) : M state bool :=
  match fuel with
  | 0 => fail OutOfFuel
  | S fuel =>
      match root with
      | None => mret true
      | Some _ =>
          l ← get_left root; leftHight ← Hight fuel l;
          r ← get_right root; rightHight ← Hight fuel r;
          bl ← and_also (Z.abs (rightHight - leftHight) <? 2)%Z
                        (l ← get_left root; IsBalance_at fuel l);
          and_also bl (r ← get_right root; IsBalance_at fuel r)
      end
  end.

Definition IsBalance : M state bool :=
  fuel ← gets fuel_of; root ← get_root; IsBalance_at fuel root.

(** ** Traversal *)

(** [_Inorder(root)]: the entries in the order they are printed. *)
Fixpoint Inorder_at (fuel : nat) (root : ptr) : M state (list (K * V)) :=
  match fuel with
  | 0 => fail OutOfFuel
  | S fuel =>
      match root with
      | None => mret []
      | Some _ =>
          l ← get_left root; out1 ← Inorder_at fuel l;
          kv ← get_kv root;
          r ← get_right root; out2 ← Inorder_at fuel r;
          mret (out1 ++ kv :: out2)
      end
  end.

Definition Inorder : M state (list (K * V)) :=
  fuel ← gets fuel_of; root ← get_root; Inorder_at fuel root.

(** ** Invariant *)
Implicit Types (t l r : tree avl) (c : list (frame avl)) (st : state).

(** [Z]-valued height. *)
Definition zh (t : tree avl) : Z := Z.of_nat (height t).

(** Every balance factor is the height difference and is at most 1 in size. *)
Fixpoint avl_ok (t : tree avl) : Prop :=
  match t with
  | Leaf => True
  | Node _ l d r => (_bf d = zh r - zh l)%Z ∧ (-1 ≤ _bf d ≤ 1)%Z ∧ avl_ok l ∧ avl_ok r
  end.

(** The same for a context whose hole has height [h]. *)
Fixpoint ctx_ok (h : Z) (c : list (frame avl)) : Prop :=
  match c with
  | [] => True
  | LeftF _ d r :: c =>
      (_bf d = zh r - h)%Z ∧ (-1 ≤ _bf d ≤ 1)%Z ∧ avl_ok r ∧ ctx_ok (1 + Z.max h (zh r)) c
  | RightF _ l d :: c =>
      (_bf d = h - zh l)%Z ∧ (-1 ≤ _bf d ≤ 1)%Z ∧ avl_ok l ∧ ctx_ok (1 + Z.max (zh l) h) c
  end.

Lemma zh_node a l d r : zh (Node a l d r) = (1 + Z.max (zh l) (zh r))%Z.
Proof. unfold zh. simpl. lia. Qed.
Lemma zh_nonneg t : (0 ≤ zh t)%Z.
Proof. unfold zh. lia. Qed.

Lemma avl_plug c t : avl_ok (plug c t) ↔ avl_ok t ∧ ctx_ok (zh t) c.
Proof.
  revert t. induction c as [|[a d r|a l d] c IH]; intros t; simpl; [tauto| |];
    rewrite IH; simpl; rewrite zh_node; tauto.
Qed.

(** ** Accesses at a position *)
Lemma get_bf_spec st c a l d r :
  Rep st (plug c (Node a l d r)) → get_bf (Some a) st = Ok (_bf d, st).
Proof.
  intros HR%deref_spec. unfold get_bf. erewrite bind_ok by (by eapply get_payload_ok). done.
Qed.
Lemma get_kv_spec st c a l d r :
  Rep st (plug c (Node a l d r)) → get_kv (Some a) st = Ok (_kv d, st).
Proof.
  intros HR%deref_spec. unfold get_kv. erewrite bind_ok by (by eapply get_payload_ok). done.
Qed.
Lemma set_bf_spec st c a l d r b :
  Rep st (plug c (Node a l d r)) →
  ∃ st', set_bf (Some a) b st = Ok ((), st') ∧ Rep st' (plug c (Node a l (mkAvl (_kv d) b) r)).
Proof.
  intros HR. pose proof (deref_spec _ _ _ _ _ _ HR) as Hd.
  destruct (set_payload_spec _ _ _ _ _ _ (mkAvl (_kv d) b) HR) as (st' & He & HR').
  exists st'. split; [|done]. unfold set_bf. erewrite bind_ok by (by eapply get_payload_ok). done.
Qed.

Lemma RotateL_ok st c p A dp s B ds C :
  Rep st (plug c (Node p A dp (Node s B ds C))) →
  ∃ st', RotateL (Some p) st = Ok ((), st') ∧
    Rep st' (plug c (Node s (Node p A (mkAvl (_kv dp) 0) B) (mkAvl (_kv ds) 0) C)).
Proof.
  intros HR. unfold RotateL. read HR.
  run (RotateL_spec _ _ _ _ _ _ _ _ _ HR).
  run (set_bf_spec _ c s _ _ _ 0 HR0).
  run_last (set_bf_spec st1 (LeftF s (mkAvl (_kv ds) 0) C :: c) p A dp B 0 HR1). done.
Qed.

Lemma RotateR_ok st c p A dp s B ds C :
  Rep st (plug c (Node p (Node s C ds B) dp A)) →
  ∃ st', RotateR (Some p) st = Ok ((), st') ∧
    Rep st' (plug c (Node s C (mkAvl (_kv ds) 0) (Node p B (mkAvl (_kv dp) 0) A))).
Proof.
  intros HR. unfold RotateR. read HR.
  run (RotateR_spec _ _ _ _ _ _ _ _ _ HR).
  run (set_bf_spec st0 (RightF s C ds :: c) p B dp A 0 HR0).
  run_last (set_bf_spec st1 c s C ds _ 0 HR1). done.
Qed.

Lemma RotateLR_ok st c p s A ds b B db C dp D :
  Rep st (plug c (Node p (Node s A ds (Node b B db C)) dp D)) → (-1 ≤ _bf db ≤ 1)%Z →
  ∃ st', RotateLR (Some p) st = Ok ((), st') ∧
    Rep st' (plug c (Node b
      (Node s A (mkAvl (_kv ds) (if (_bf db =? 1)%Z then -1 else 0)) B)
      (mkAvl (_kv db) 0)
      (Node p C (mkAvl (_kv dp) (if (_bf db =? -1)%Z then 1 else 0)) D))).
Proof.
  intros HR Hb. unfold RotateLR. read HR.
  assert (Rep st (plug (LeftF p dp D :: c) (Node s A ds (Node b B db C)))) as HRs by done.
  read HRs.
  assert (Rep st (plug (RightF s A ds :: LeftF p dp D :: c) (Node b B db C))) as HRb by done.
  erewrite bind_ok by exact (get_bf_spec _ _ _ _ _ _ HRb). read HR.
  run (RotateL_ok _ _ _ _ _ _ _ _ _ HRs). simpl in HR0.
  run (RotateR_ok _ _ _ _ _ _ _ _ _ HR0). simpl in HR1.
  assert (_bf db = 0 ∨ _bf db = -1 ∨ _bf db = 1)%Z as [E|[E|E]] by lia; rewrite E; simpl.
  - run (set_bf_spec _ (RightF b _ _ :: c) _ _ _ _ 0 HR1).
    run (set_bf_spec _ c _ _ _ _ 0 HR2).
    run_last (set_bf_spec _ (LeftF b _ _ :: c) _ _ _ _ 0 HR3). done.
  - run (set_bf_spec _ (RightF b _ _ :: c) _ _ _ _ 1 HR1).
    run (set_bf_spec _ (LeftF b _ _ :: c) _ _ _ _ 0 HR2).
    run_last (set_bf_spec _ c _ _ _ _ 0 HR3). done.
  - run (set_bf_spec _ (LeftF b _ _ :: c) _ _ _ _ (-1) HR1).
    run (set_bf_spec _ c _ _ _ _ 0 HR2).
    run_last (set_bf_spec _ (RightF b _ _ :: c) _ _ _ _ 0 HR3). done.
Qed.

Lemma RotateRL_ok st c p s A ds b B db C dp D :
  Rep st (plug c (Node p D dp (Node s (Node b B db C) ds A))) → (-1 ≤ _bf db ≤ 1)%Z →
  ∃ st', RotateRL (Some p) st = Ok ((), st') ∧
    Rep st' (plug c (Node b
      (Node p D (mkAvl (_kv dp) (if (_bf db =? 1)%Z then -1 else 0)) B)
      (mkAvl (_kv db) 0)
      (Node s C (mkAvl (_kv ds) (if (_bf db =? -1)%Z then 1 else 0)) A))).
Proof.
  intros HR Hb. unfold RotateRL. read HR.
  assert (Rep st (plug (RightF p D dp :: c) (Node s (Node b B db C) ds A))) as HRs by done.
  read HRs.
  assert (Rep st (plug (LeftF s ds A :: RightF p D dp :: c) (Node b B db C))) as HRb by done.
  erewrite bind_ok by exact (get_bf_spec _ _ _ _ _ _ HRb). read HR.
  run (RotateR_ok _ _ _ _ _ _ _ _ _ HRs). simpl in HR0.
  run (RotateL_ok _ _ _ _ _ _ _ _ _ HR0). simpl in HR1.
  assert (_bf db = 0 ∨ _bf db = -1 ∨ _bf db = 1)%Z as [E|[E|E]] by lia; rewrite E; simpl.
  - run (set_bf_spec _ (LeftF b _ _ :: c) _ _ _ _ 0 HR1).
    run (set_bf_spec _ (RightF b _ _ :: c) _ _ _ _ 0 HR2).
    run_last (set_bf_spec _ c _ _ _ _ 0 HR3). done.
  - run (set_bf_spec _ (LeftF b _ _ :: c) _ _ _ _ 0 HR1).
    run (set_bf_spec _ (RightF b _ _ :: c) _ _ _ _ 1 HR2).
    run_last (set_bf_spec _ c _ _ _ _ 0 HR3). done.
  - run (set_bf_spec _ (LeftF b _ _ :: c) _ _ _ _ (-1) HR1).
    run (set_bf_spec _ (RightF b _ _ :: c) _ _ _ _ 0 HR2).
    run_last (set_bf_spec _ c _ _ _ _ 0 HR3). done.
Qed.

(** ** Rebalancing *)

(** The entries of a tree, in order. *)
Definition entries (t : tree avl) : list (K * V) := _kv <$> inorder t.

Lemma entries_plug c t1 t2 :
  entries t1 = entries t2 → entries (plug c t1) = entries (plug c t2).
Proof. unfold entries. rewrite !inorder_plug, !fmap_app. by intros ->. Qed.

(** One iteration at the frame above [t], where the subtree [t] has grown by
    one: the balance factor of the frame is updated. *)
Definition bump (f : frame avl) : frame avl :=
  match f with
  | LeftF a d r => LeftF a (mkAvl (_kv d) (_bf d - 1)) r
  | RightF a l d => RightF a l (mkAvl (_kv d) (_bf d + 1))
  end.
Definition frame_data (f : frame avl) : avl :=
  match f with LeftF _ d _ => d | RightF _ _ d => d end.

Lemma bump_spec st f c t :
  Rep st (plug (f :: c) t) → t ≠ Leaf →
  ∃ st', update_bf (tptr t) (cptr (f :: c)) st = Ok ((), st') ∧
    Rep st' (plug (bump f :: c) t).
Proof.
  unfold update_bf. intros HR Ht. assert (Rep st (plug c (plug1 f t))) as HR' by done.
  destruct f as [a d r|a l d]; simpl in *.
  - read HR'. erewrite bind_ok by exact (get_bf_spec _ _ _ _ _ _ HR').
    rewrite decide_True by done. apply (set_bf_spec _ _ _ _ _ _ _ HR').
  - read HR'. erewrite bind_ok by exact (get_bf_spec _ _ _ _ _ _ HR').
    rewrite decide_False; [apply (set_bf_spec _ _ _ _ _ _ _ HR')|].
    destruct t as [|b tl td tr]; [done|]. simpl. apply not_eq_sym.
    by apply (sibling_ne _ _ _ _ _ _ _ _ _ HR).
Qed.

(** Close the balance of a context, or of a tree, by arithmetic on heights. *)
Ltac heights :=
  repeat match goal with t : tree _ |- _ => pose proof (zh_nonneg t); revert t end; intros;
  try match goal with H : ctx_ok ?h ?c |- ctx_ok ?h' ?c => replace h' with h by lia; exact H end;
  try lia.
Ltac balanced := rewrite ?avl_plug; simpl; rewrite ?zh_node in *; simpl; split_and!; auto; heights.

Ltac same_entries :=
  apply entries_plug; unfold entries; simpl;
  repeat (rewrite ?fmap_app; simpl; rewrite <- ?app_assoc; simpl); reflexivity.

(** What rebalancing achieves from a node [a] whose subtree has grown by one. *)
Definition rebalanced (m : M state ()) (st : state) (t : tree avl) : Prop :=
  ∃ st' t', m st = Ok ((), st') ∧ Rep st' t' ∧ avl_ok t' ∧ entries t' = entries t.
Definition rebalances (fuel : nat) : Prop := ∀ st c a l d r,
  Rep st (plug c (Node a l d r)) →
  avl_ok (Node a l d r) → ctx_ok (zh (Node a l d r) - 1) c →
  (_bf d ≠ 0 ∨ zh (Node a l d r) = 1)%Z →
  length c < fuel →
  rebalanced (rebalance fuel (Some a) (cptr c)) st (plug c (Node a l d r)).

Lemma rebalance_from_left fuel st c a l d r x dx R :
  rebalances fuel → Rep st (plug (LeftF x dx R :: c) (Node a l d r)) →
  avl_ok (Node a l d r) → ctx_ok (zh (Node a l d r) - 1) (LeftF x dx R :: c) →
  (_bf d ≠ 0 ∨ zh (Node a l d r) = 1)%Z → length c < fuel →
  rebalanced (rebalance (S fuel) (Some a) (cptr (LeftF x dx R :: c))) st (plug (LeftF x dx R :: c) (Node a l d r)).
Proof.
  intros IH HR Ht Hc Hd Hf. unfold rebalanced.
  change (rebalance (S fuel) (Some a) (cptr (LeftF x dx R :: c)) st) with
    (rebalance (S fuel) (tptr (Node a l d r)) (Some x) st).
  cbn [rebalance].
  destruct (bump_spec _ _ _ _ HR) as (st1 & He & HR1); [done|].
  erewrite bind_ok by exact He. clear He HR.
  destruct Ht as (Hbd & Hbd' & Hl & Hr), Hc as (Hbx & Hbx' & HX & Hc).
  simpl in Hf. rewrite zh_node in *.
  assert (HRx : Rep st1 (plug c (Node x (Node a l d r) (mkAvl (_kv dx) (_bf dx - 1)) R))) by done.
  assert (HRa : Rep st1 (plug (LeftF x (mkAvl (_kv dx) (_bf dx - 1)) R :: c) (Node a l d r))) by done.
  erewrite bind_ok by exact (get_bf_spec _ _ _ _ _ _ HRx). cbn [_bf].
  pose proof (zh_nonneg R).
  assert (_bf dx - 1 = 0 ∨ _bf dx - 1 = -1 ∨ _bf dx - 1 = -2)%Z as [E|[E|E]] by lia;
    rewrite E in *; simpl.
  - exists st1. eexists. split; [done|]. split; [exact HRx|]. split; [balanced|same_entries].
  - read HRx. destruct (IH _ _ _ _ _ _ HRx) as (st' & t' & He & HR' & Hok & Hent);
      rewrite ?zh_node; simpl; [balanced|heights|lia|lia|].
    exists st', t'. split; [done|]. split; [done|]. split; [done|]. rewrite Hent. same_entries.
  - erewrite bind_ok by reflexivity. cbn [and_also].
    erewrite bind_ok by (read HRx; erewrite bind_ok by exact (get_bf_spec _ _ _ _ _ _ HRa); reflexivity).
    assert (_bf d = -1 ∨ _bf d = 1)%Z as [Ed|Ed] by lia; rewrite Ed in *; simpl.
    + destruct (RotateR_ok _ _ _ _ _ _ _ _ _ HRx) as (st' & He & HR').
      exists st'. eexists. split; [exact He|]. split; [exact HR'|]. split; [balanced|same_entries].
    + erewrite bind_ok by reflexivity. simpl.
      erewrite bind_ok by (erewrite bind_ok by exact (get_bf_spec _ _ _ _ _ _ HRa); reflexivity).
      rewrite Ed. simpl.
      destruct r as [|b B db C]; [pose proof (zh_nonneg l); unfold zh in Hbd at 1; simpl in Hbd; lia|].
      simpl in Hr. destruct Hr as (Hb & Hb' & HB & HC).
      destruct (RotateLR_ok _ _ _ _ _ _ _ _ _ _ _ _ HRx Hb') as (st' & He & HR').
      exists st'. eexists. split; [exact He|]. split; [exact HR'|]. split; [|same_entries].
      rewrite !zh_node in *. destruct (_bf db =? 1)%Z eqn:?, (_bf db =? -1)%Z eqn:?; balanced.
Qed.

Lemma rebalance_from_right fuel st c a l d r x L dx :
  rebalances fuel → Rep st (plug (RightF x L dx :: c) (Node a l d r)) →
  avl_ok (Node a l d r) → ctx_ok (zh (Node a l d r) - 1) (RightF x L dx :: c) →
  (_bf d ≠ 0 ∨ zh (Node a l d r) = 1)%Z → length c < fuel →
  rebalanced (rebalance (S fuel) (Some a) (cptr (RightF x L dx :: c))) st (plug (RightF x L dx :: c) (Node a l d r)).
Proof.
  intros IH HR Ht Hc Hd Hf. unfold rebalanced.
  change (rebalance (S fuel) (Some a) (cptr (RightF x L dx :: c)) st) with
    (rebalance (S fuel) (tptr (Node a l d r)) (Some x) st).
  cbn [rebalance].
  destruct (bump_spec _ _ _ _ HR) as (st1 & He & HR1); [done|].
  erewrite bind_ok by exact He. clear He HR.
  destruct Ht as (Hbd & Hbd' & Hl & Hr), Hc as (Hbx & Hbx' & HX & Hc).
  simpl in Hf. rewrite zh_node in *.
  assert (HRx : Rep st1 (plug c (Node x L (mkAvl (_kv dx) (_bf dx + 1)) (Node a l d r)))) by done.
  assert (HRa : Rep st1 (plug (RightF x L (mkAvl (_kv dx) (_bf dx + 1)) :: c) (Node a l d r))) by done.
  erewrite bind_ok by exact (get_bf_spec _ _ _ _ _ _ HRx). cbn [_bf].
  pose proof (zh_nonneg L).
  assert (_bf dx + 1 = 0 ∨ _bf dx + 1 = 1 ∨ _bf dx + 1 = 2)%Z as [E|[E|E]] by lia;
    rewrite E in *; simpl.
  - exists st1. eexists. split; [done|]. split; [exact HRx|]. split; [balanced|same_entries].
  - read HRx. destruct (IH _ _ _ _ _ _ HRx) as (st' & t' & He & HR' & Hok & Hent);
      rewrite ?zh_node; simpl; [balanced|heights|lia|lia|].
    exists st', t'. split; [done|]. split; [done|]. split; [done|]. rewrite Hent. same_entries.
  - erewrite bind_ok by (read HRx; erewrite bind_ok by exact (get_bf_spec _ _ _ _ _ _ HRa); reflexivity).
    assert (_bf d = -1 ∨ _bf d = 1)%Z as [Ed|Ed] by lia; rewrite Ed in *; simpl.
    + erewrite bind_ok by reflexivity. simpl.
      erewrite bind_ok by (erewrite bind_ok by exact (get_bf_spec _ _ _ _ _ _ HRa); reflexivity).
      rewrite Ed. simpl.
      destruct l as [|b B db C]; [pose proof (zh_nonneg r); unfold zh in Hbd at 2; simpl in Hbd; lia|].
      simpl in Hl. destruct Hl as (Hb & Hb' & HB & HC).
      destruct (RotateRL_ok _ _ _ _ _ _ _ _ _ _ _ _ HRx Hb') as (st' & He & HR').
      exists st'. eexists. split; [exact He|]. split; [exact HR'|]. split; [|same_entries].
      rewrite !zh_node in *. destruct (_bf db =? 1)%Z eqn:?, (_bf db =? -1)%Z eqn:?; balanced.
    + destruct (RotateL_ok _ _ _ _ _ _ _ _ _ HRx) as (st' & He & HR').
      exists st'. eexists. split; [exact He|]. split; [exact HR'|]. split; [balanced|same_entries].
Qed.

Lemma rebalance_spec fuel : rebalances fuel.
Proof.
  induction fuel as [|fuel IH]; intros st c a l d r HR Ht Hc Hd Hf; [lia|].
  destruct c as [|[x dx R|x L dx] c]; simpl in Hf.
  - exists st, (Node a l d r). simpl. auto.
  - apply rebalance_from_left; auto with lia.
  - apply rebalance_from_right; auto with lia.
Qed.

(** ** The descent *)
Abbreviation akey := (fst ∘ @_kv K V).

Lemma descend_spec fuel st k c t :
  Rep st (plug c t) → height t < fuel →
  descend fuel k (tptr t) (cptr c) st =
    Ok (match (locate akey k c t).2 with Leaf => false | _ => true end,
        cptr (locate akey k c t).1, st).
Proof.
  revert c t. induction fuel as [|fuel IH]; intros c t HR Hf; [lia|].
  destruct t as [|a l d r]; [done|].
  assert (HRl : Rep st (plug (LeftF a d r :: c) l)) by done.
  assert (HRr : Rep st (plug (RightF a l d :: c) r)) by done.
  cbn [descend tptr]. erewrite bind_ok by exact (get_kv_spec _ _ _ _ _ _ HR).
  cbn [locate]. unfold key_gtb. change (akey d) with (fst (_kv d)). simpl in Hf.
  destruct (key_ltb (fst (_kv d)) k).
  - read HR. apply (IH _ _ HRr). lia.
  - destruct (key_ltb k (fst (_kv d))); [|done]. read HR. apply (IH _ _ HRl). lia.
Qed.

(** ** Correctness of insertion *)

(** [st] is an AVL search tree that holds the sorted entries [es]. *)
Definition AvlTree (st : state) (es : list (K * V)) : Prop :=
  ∃ t, Rep st t ∧ avl_ok t ∧ entries t = es ∧ sorted_keys fst es.

Definition absent {A} (o : option A) : bool := match o with None => true | Some _ => false end.

Lemma first_insert_ok st kv :
  Rep st Leaf →
  ∃ st', insert kv st = Ok (true, st') ∧
    Rep st' (Node (next_loc st) Leaf (mkAvl kv 0) Leaf).
Proof.
  intros [Hroot _ _ Hdom _]. unfold insert. do 2 (erewrite bind_ok by reflexivity).
  rewrite Hroot. simpl. eexists. split; [reflexivity|]. split; simpl.
  - done.
  - apply NoDup_singleton.
  - rewrite lookup_insert_eq. done.
  - intros l. rewrite lookup_insert_is_Some', Hdom, list_elem_of_singleton.
    split; [intros [->|H']; [done|by apply not_elem_of_nil in H']|by left].
  - intros l ->%list_elem_of_singleton. lia.
Qed.

Lemma link_new_ok st f c kv :
  Rep st (plug (f :: c) Leaf) → frame_side akey (fst kv) f →
  ∃ st', link_new kv (cptr (f :: c)) st = Ok (Some (next_loc st), st') ∧
    Rep st' (plug (f :: c) (Node (next_loc st) Leaf (mkAvl kv 0) Leaf)).
Proof.
  intros HR Hf. destruct (attach_spec st f c (mkAvl kv 0) HR) as (st1 & st' & H1 & Hfr & H2 & HR').
  exists st'. split; [|done]. unfold link_new. erewrite bind_ok by exact H1.
  assert (HR0 : Rep st (plug c (plug1 f Leaf))) by done.
  destruct f as [a d r|a l d]; simpl in *; pose proof (deref_spec _ _ _ _ _ _ HR0) as Hd;
    rewrite Hd in Hfr; unfold get_kv; (erewrite bind_ok by
      (erewrite bind_ok by (eapply get_payload_ok, Hfr); reflexivity)); cbn [_payload];
    unfold after, before in Hf; unfold key_gtb.
  - change (fst (_kv d)) with (akey d). rewrite Hf. by erewrite bind_ok by exact H2.
  - change (fst (_kv d)) with (akey d). rewrite (key_asym _ _ Hf). by erewrite bind_ok by exact H2.
Qed.

Lemma insert_Rep st t kv :
  Rep st t → avl_ok t → sorted_keys fst (entries t) →
  ∃ st' t', insert kv st = Ok (absent (find_key fst (fst kv) (entries t)), st') ∧
    Rep st' t' ∧ avl_ok t' ∧ entries t' = ins fst kv (entries t).
Proof.
  intros HR Hok Hs. destruct (tptr t) as [r0|] eqn:Et.
  2: { destruct t; [|done]. destruct (first_insert_ok st kv HR) as (st' & He & HR'). exists st'. eexists.
    split; [exact He|]. split; [exact HR'|]. split; [|done]. by simpl; repeat split. }
  unfold insert. do 2 (erewrite bind_ok by reflexivity).
  rewrite (Rep_root _ _ HR), Et, <- Et.
  unfold entries in *. rewrite sorted_keys_fmap in Hs. rewrite find_key_fmap.
  change kv with (_kv (mkAvl kv 0)) at 4. rewrite ins_fmap.
  pose proof (Rep_size _ _ HR) as Hsz. pose proof (height_labels t).
  erewrite bind_ok by (apply (descend_spec _ _ (fst kv) [] t HR); unfold fuel_of; lia).
  destruct ((locate akey (fst kv) [] t).2) as [|a l d r] eqn:El; cbn [fst snd].
  - destruct (locate_absent akey _ _ Hs El) as (Hp & Hside & Hb & Ha).
    set (c := (locate akey (fst kv) [] t).1) in *.
    assert (Hi : inorder t = cleft c ++ cright c) by (by rewrite <- Hp, inorder_plug).
    rewrite Hi, (find_key_absent akey _ _ _ Hb Ha).
    rewrite (ins_app akey (mkAvl kv 0) _ _ Hb Ha).
    rewrite <- Hp in HR, Hsz, Hok. clear El Hi.
    destruct c as [|f c]; [by subst t|]. apply Forall_cons in Hside as [Hf _].
    destruct (link_new_ok _ _ _ kv HR Hf) as (st1 & H1 & HR1).
    erewrite bind_ok by exact H1. apply avl_plug in Hok as [_ Hok].
    destruct (rebalance_spec (fuel_of st) st1 (f :: c) _ _ _ _ HR1) as (st' & t' & H2 & HR' & Hok' & Hent).
    + by simpl.
    + exact Hok.
    + by right.
    + rewrite labels_plug in Hsz. pose proof (length_clabels (f :: c)). unfold fuel_of. simpl in *. lia.
    + erewrite bind_ok by exact H2. exists st', t'. split; [done|]. split; [done|]. split; [done|].
      fold (entries t'). rewrite Hent. unfold entries. by rewrite inorder_plug.
  - destruct (locate_present akey _ _ _ _ _ _ Hs El) as (Hp & Hk & Hb).
    set (c := (locate akey (fst kv) [] t).1) in *.
    assert (Hi : inorder t = (cleft c ++ inorder l) ++ d :: inorder r ++ cright c).
    { rewrite <- Hp, inorder_plug. simpl. by rewrite <- !app_assoc. }
    rewrite Hi, (find_key_present akey _ _ _ _ Hb Hk).
    rewrite (ins_present akey (mkAvl kv 0) _ _ _ Hb Hk).
    exists st, t. rewrite Hi. done.
Qed.

(** C1: [AVLTree::insert] refines insertion into a sorted map: on a tree that
    holds the sorted entries [es], it never fails, reports whether the key was
    absent, and leaves a balanced search tree that holds [ins kv es]. *)
Theorem insert_refines st es kv :
  AvlTree st es →
  ∃ st', insert kv st = Ok (absent (find_key fst (fst kv) es), st') ∧
         AvlTree st' (ins fst kv es).
Proof.
  intros (t & HR & Hok & <- & Hs).
  destruct (insert_Rep st t kv HR Hok Hs) as (st' & t' & He & HR' & Hok' & Hent).
  exists st'. split; [done|]. exists t'. split; [done|]. split; [done|].
  split; [done|]. by apply sorted_ins.
Qed.

(** ** The checker *)

(** At every node the heights of the two subtrees differ by at most one. *)
Fixpoint balanced (t : tree avl) : Prop :=
  match t with
  | Leaf => True
  | Node _ l _ r => (Z.abs (zh r - zh l) < 2)%Z ∧ balanced l ∧ balanced r
  end.

Lemma avl_balanced t : avl_ok t → balanced t.
Proof.
  induction t as [|a l IHl d r IHr]; simpl; [done|].
  intros (? & ? & ? & ?). split; [lia|]. auto.
Qed.

Lemma Hight_spec fuel st c t :
  Rep st (plug c t) → height t < fuel → Hight fuel (tptr t) st = Ok (zh t, st).
Proof.
  revert c t. induction fuel as [|fuel IH]; intros c t HR Hf; [lia|].
  destruct t as [|a l d r]; [done|]. simpl in Hf. cbn [Hight tptr].
  assert (HRl : Rep st (plug (LeftF a d r :: c) l)) by done.
  assert (HRr : Rep st (plug (RightF a l d :: c) r)) by done.
  read HR. erewrite bind_ok by (apply (IH _ _ HRl); lia).
  read HR. erewrite bind_ok by (apply (IH _ _ HRr); lia).
  rewrite zh_node. unfold mret, M_ret. do 2 f_equal. destruct (Z.ltb_spec (zh r) (zh l)); lia.
Qed.

Lemma IsBalance_at_spec fuel st c t :
  Rep st (plug c t) → height t < fuel →
  ∃ b, IsBalance_at fuel (tptr t) st = Ok (b, st) ∧ (b = true ↔ balanced t).
Proof.
  revert c t. induction fuel as [|fuel IH]; intros c t HR Hf; [lia|].
  destruct t as [|a l d r]; [by exists true|]. simpl in Hf. cbn [IsBalance_at tptr].
  assert (HRl : Rep st (plug (LeftF a d r :: c) l)) by done.
  assert (HRr : Rep st (plug (RightF a l d :: c) r)) by done.
  read HR. erewrite bind_ok by (apply (Hight_spec _ _ _ _ HRl); lia).
  read HR. erewrite bind_ok by (apply (Hight_spec _ _ _ _ HRr); lia).
  destruct (IH _ _ HRl) as (bl & Hl & Hbl); [lia|].
  destruct (IH _ _ HRr) as (br & Hr & Hbr); [lia|].
  destruct (Z.ltb_spec (Z.abs (zh r - zh l)) 2); simpl.
  - erewrite bind_ok by (read HR; exact Hl). destruct bl; simpl.
    + read HR. exists br. split; [done|]. tauto.
    + exists false. split; [done|]. split; [done|]. intros (_ & Hbl' & _). by apply Hbl.
  - erewrite bind_ok by reflexivity. exists false. split; [done|]. split; [done|]. lia.
Qed.

(** [IsBalance()] terminates, changes nothing, and answers [true] exactly
    when the subtree heights differ by at most one at every node. *)
Theorem IsBalance_decides st t :
  Rep st t → ∃ b, IsBalance st = Ok (b, st) ∧ (b = true ↔ balanced t).
Proof.
  intros HR. unfold IsBalance. do 2 (erewrite bind_ok by reflexivity).
  rewrite (Rep_root _ _ HR). apply (IsBalance_at_spec _ _ [] _ HR).
  unfold fuel_of. rewrite (Rep_size _ _ HR). pose proof (height_labels t). lia.
Qed.

Lemma Inorder_at_spec fuel st c t :
  Rep st (plug c t) → height t < fuel → Inorder_at fuel (tptr t) st = Ok (entries t, st).
Proof.
  revert c t. induction fuel as [|fuel IH]; intros c t HR Hf; [lia|].
  destruct t as [|a l d r]; [done|]. simpl in Hf. cbn [Inorder_at tptr].
  assert (HRl : Rep st (plug (LeftF a d r :: c) l)) by done.
  assert (HRr : Rep st (plug (RightF a l d :: c) r)) by done.
  read HR. erewrite bind_ok by (apply (IH _ _ HRl); lia).
  erewrite bind_ok by exact (get_kv_spec _ _ _ _ _ _ HR).
  read HR. erewrite bind_ok by (apply (IH _ _ HRr); lia).
  unfold entries. simpl. by rewrite fmap_app.
Qed.

Lemma Inorder_spec st t : Rep st t → Inorder st = Ok (entries t, st).
Proof.
  intros HR. unfold Inorder. do 2 (erewrite bind_ok by reflexivity).
  rewrite (Rep_root _ _ HR). apply (Inorder_at_spec _ _ [] _ HR).
  unfold fuel_of. rewrite (Rep_size _ _ HR). pose proof (height_labels t). lia.
Qed.

(** ** Height *)
Lemma length_inorder t : length (inorder t) = length (labels t).
Proof. induction t; simpl; rewrite ?length_app; simpl; lia. Qed.

Lemma avl_height_pow t : avl_ok t → 2 ^ (height t / 2) ≤ S (length (labels t)).
Proof.
  induction t as [|a l IHl d r IHr]; [simpl; lia|]. intros (Hb & Hb' & Hl & Hr).
  specialize (IHl Hl). specialize (IHr Hr). unfold zh in Hb.
  cbn [height labels]. rewrite length_app. cbn [length].
  set (h := height l `max` height r) in *.
  destruct (decide (h = 0)) as [->|Hh]; [simpl; lia|].
  assert (S h / 2 = S ((h - 1) / 2)) as ->.
  { replace (S h) with ((h - 1) + 1 * 2) by lia. rewrite Nat.div_add by lia. lia. }
  rewrite Nat.pow_succ_r'.
  assert (2 ^ ((h - 1) / 2) ≤ 2 ^ (height l / 2)).
  { apply Nat.pow_le_mono_r; [lia|]. apply Nat.Div0.div_le_mono. lia. }
  assert (2 ^ ((h - 1) / 2) ≤ 2 ^ (height r / 2)).
  { apply Nat.pow_le_mono_r; [lia|]. apply Nat.Div0.div_le_mono. lia. }
  lia.
Qed.

(** ** Histories *)

(** The states that a sequence of insertions into an empty tree leaves. *)
Fixpoint insert_all (kvs : list (K * V)) : M state () :=
  match kvs with [] => mret () | kv :: kvs => insert kv;; insert_all kvs end.

Lemma insert_all_ok st es kvs :
  AvlTree st es →
  ∃ st', insert_all kvs st = Ok ((), st') ∧
         AvlTree st' (foldl (λ es kv, ins fst kv es) es kvs).
Proof.
  revert st es. induction kvs as [|kv kvs IH]; intros st es HA; simpl; [by exists st|].
  destruct HA as (t & HR & Hok & <- & Hs).
  destruct (insert_Rep st t kv HR Hok Hs) as (st1 & t1 & He & HR1 & Hok1 & Hent).
  erewrite bind_ok by exact He. apply IH. exists t1. split; [done|]. split; [done|].
  split; [done|]. by apply sorted_ins.
Qed.

(** After any sequence of insertions into an empty tree, the tree holds the
    sorted map of what was inserted (first value of a key wins), [Inorder()]
    prints it in key order, [IsBalance()] answers [true], and the height [h] satisfies [2^(h/2) <= n + 1] for [n]
    entries. *)
Theorem insert_all_balanced (kvs : list (K * V)) :
  ∃ st t, insert_all kvs empty_tree = Ok ((), st) ∧ Rep st t ∧
    entries t = foldl (λ es kv, ins fst kv es) [] kvs ∧ sorted_keys fst (entries t) ∧
    Inorder st = Ok (entries t, st) ∧ IsBalance st = Ok (true, st) ∧
    2 ^ (height t / 2) ≤ S (length (entries t)).
Proof.
  destruct (insert_all_ok empty_tree [] kvs) as (st & He & t & HR & Hok & Hent & Hs).
  { exists Leaf. split; [apply Rep_empty|]. repeat split. constructor. }
  exists st, t. split; [done|]. split; [done|]. split; [done|]. split; [by rewrite Hent|].
  split; [by apply Inorder_spec|]. split.
  - unfold IsBalance. do 2 (erewrite bind_ok by reflexivity). rewrite (Rep_root _ _ HR).
    destruct (IsBalance_at_spec (fuel_of st) st [] t HR) as (b & Hb & Hbal).
    { unfold fuel_of. rewrite (Rep_size _ _ HR). pose proof (height_labels t). lia. }
    rewrite Hb. by rewrite (proj2 Hbal (avl_balanced _ Hok)).
  - unfold entries. rewrite length_fmap, length_inorder. by apply avl_height_pow.
Qed.

(** ** [bit::AVLTree]

    The second tree of the file.  Its descent, single rotations, [Height] and
    [Inorder] are the same text as above; the linking of the new node, the
    choice of the rotation, the order of the assignments after a double
    rotation and the checker differ. *)
Definition bit_link_new (kv : K * V) (parent : ptr) : M state ptr :=
  cur ← new_node (mkAvl kv 0);
  pkv ← get_kv parent;
  (if key_ltb (fst pkv) (fst kv)
   then set_right parent cur;; set_parent cur parent
   else set_left parent cur;; set_parent cur parent);;
  mret cur.

Definition bit_RotateL : ptr → M state () := RotateL.
Definition bit_RotateR : ptr → M state () := RotateR.

Definition bit_RotateLR (parent : ptr) : M state () :=
  subL ← get_left parent;
  subLR ← get_right subL;
  bf ← get_bf subLR;
  pl ← get_left parent;
  bit_RotateL pl;;
  bit_RotateR parent;;
  if (bf =? -1)%Z then set_bf subL 0;; set_bf parent 1;; set_bf subLR 0
  else if (bf =? 1)%Z then set_bf parent 0;; set_bf subL (-1);; set_bf subLR 0
  else if (bf =? 0)%Z then set_bf parent 0;; set_bf subL 0;; set_bf subLR 0
  else fail AssertFailed.

Definition bit_RotateRL (parent : ptr) : M state () :=
  subR ← get_right parent;
  subRL ← get_left subR;
  bf ← get_bf subRL;
  pr ← get_right parent;
  bit_RotateR pr;;
  bit_RotateL parent;;
  if (bf =? 1)%Z then set_bf subR 0;; set_bf subRL 0;; set_bf parent (-1)
  else if (bf =? -1)%Z then set_bf subR 1;; set_bf subRL 0;; set_bf parent 0
  else if (bf =? 0)%Z then set_bf subR 0;; set_bf subRL 0;; set_bf parent 0
  else fail AssertFailed.

Fixpoint bit_rebalance (fuel : nat) (cur parent : ptr) : M state () :=
  match fuel with
  | 0 => fail OutOfFuel
  | S fuel =>
      match parent with
      | None => mret ()
      | Some _ =>
          update_bf cur parent;;
          b ← get_bf parent;
          if (b =? 0)%Z then mret ()
          else if ((b =? 1) || (b =? -1))%Z then
            (pp ← get_parent parent; bit_rebalance fuel parent pp)
          else if ((b =? 2) || (b =? -2))%Z then
            (c1 ← and_also (b =? 2)%Z (x ← get_bf cur; mret (x =? 1)%Z);
             if (c1 : bool) then bit_RotateL parent else
             c2 ← and_also (b =? -2)%Z (x ← get_bf cur; mret (x =? -1)%Z);
             if (c2 : bool) then bit_RotateR parent else
             c3 ← and_also (b =? -2)%Z (x ← get_bf cur; mret (x =? 1)%Z);
             if (c3 : bool) then bit_RotateLR parent else
             c4 ← and_also (b =? 2)%Z (x ← get_bf cur; mret (x =? -1)%Z);
             if (c4 : bool) then bit_RotateRL parent else fail AssertFailed)
          else fail AssertFailed
      end
  end.

Definition bit_Insert (kv : K * V) : M state bool :=
  fuel ← gets fuel_of;
  root ← get_root;
  match root with
  | None => n ← new_node (mkAvl kv 0); set_root n;; mret true
  | Some _ =>
      fp ← descend fuel (fst kv) root None;
      if fst fp : bool then mret false
      else
        cur ← bit_link_new kv (snd fp);
        bit_rebalance fuel cur (snd fp);;
        mret true
  end.

Definition bit_Height : nat → ptr → M state Z := Hight.

(** The checker also compares every balance factor with the heights. *)
Fixpoint bit_IsBalance_at (fuel : nat) (root : ptr) : M state bool :=
  match fuel with
  | 0 => fail OutOfFuel
  | S fuel =>
      match root with
      | None => mret true
      | Some _ =>
          l ← get_left root; leftHeight ← bit_Height fuel l;
          r ← get_right root; rightHeight ← bit_Height fuel r;
          b ← get_bf root;
          if negb (rightHeight - leftHeight =? b)%Z then mret false
          else
            bl ← and_also (Z.abs (rightHeight - leftHeight) <? 2)%Z
                          (l ← get_left root; bit_IsBalance_at fuel l);
            and_also bl (r ← get_right root; bit_IsBalance_at fuel r)
      end
  end.

Definition bit_IsBalance : M state bool :=
  fuel ← gets fuel_of; root ← get_root; bit_IsBalance_at fuel root.

Lemma bit_IsBalance_at_spec fuel st c t :
  Rep st (plug c t) → height t < fuel →
  ∃ b, bit_IsBalance_at fuel (tptr t) st = Ok (b, st) ∧ (b = true ↔ avl_ok t).
Proof.
  revert c t. induction fuel as [|fuel IH]; intros c t HR Hf; [lia|].
  destruct t as [|a l d r]; [by exists true|]. simpl in Hf. cbn [bit_IsBalance_at tptr].
  assert (HRl : Rep st (plug (LeftF a d r :: c) l)) by done.
  assert (HRr : Rep st (plug (RightF a l d :: c) r)) by done.
  unfold bit_Height.
  read HR. erewrite bind_ok by (apply (Hight_spec _ _ _ _ HRl); lia).
  read HR. erewrite bind_ok by (apply (Hight_spec _ _ _ _ HRr); lia).
  erewrite bind_ok by exact (get_bf_spec _ _ _ _ _ _ HR).
  destruct (IH _ _ HRl) as (bl & Hl & Hbl); [lia|].
  destruct (IH _ _ HRr) as (br & Hr & Hbr); [lia|].
  destruct (Z.eqb_spec (zh r - zh l) (_bf d)); simpl.
  2: { exists false. split; [done|]. split; [done|]. lia. }
  destruct (Z.ltb_spec (Z.abs (zh r - zh l)) 2); simpl.
  - erewrite bind_ok by (read HR; exact Hl). destruct bl; simpl.
    + read HR. exists br. split; [done|]. rewrite Hbr. split; [|tauto].
      intros. split; [lia|]. split; [lia|]. tauto.
    + exists false. split; [done|]. split; [done|]. intros (_ & _ & Hbl' & _). by apply Hbl.
  - erewrite bind_ok by reflexivity. exists false. split; [done|]. split; [done|]. lia.
Qed.

(** Two runs that lead to the same tree without allocating agree. *)
Lemma same_result (m1 m2 : M state ()) st t :
  keeps m1 → keeps m2 →
  (∃ st', m1 st = Ok ((), st') ∧ Rep st' t) → (∃ st', m2 st = Ok ((), st') ∧ Rep st' t) →
  m1 st = m2 st.
Proof.
  intros K1 K2 (st1 & H1 & R1) (st2 & H2 & R2). rewrite H1, H2. do 2 f_equal.
  eapply Rep_det; [done|done|]. destruct (K1 _ _ _ H1), (K2 _ _ _ H2). congruence.
Qed.

Ltac keeps := unfold bit_RotateLR, bit_RotateRL, RotateLR, RotateRL, bit_RotateL, bit_RotateR,
  RotateL, RotateR, get_bf, set_bf, get_left, get_right, get_parent, get_payload, set_payload;
  auto 40 with keeps.

Lemma bit_RotateLR_eq st c p s A ds b B db C dp D :
  Rep st (plug c (Node p (Node s A ds (Node b B db C)) dp D)) → (-1 ≤ _bf db ≤ 1)%Z →
  bit_RotateLR (Some p) st = RotateLR (Some p) st.
Proof.
  intros HR Hb. eapply same_result; [keeps|keeps| |by apply RotateLR_ok].
  unfold bit_RotateLR, bit_RotateL, bit_RotateR. read HR.
  assert (Rep st (plug (LeftF p dp D :: c) (Node s A ds (Node b B db C)))) as HRs by done.
  read HRs.
  assert (Rep st (plug (RightF s A ds :: LeftF p dp D :: c) (Node b B db C))) as HRb by done.
  erewrite bind_ok by exact (get_bf_spec _ _ _ _ _ _ HRb). read HR.
  run (RotateL_ok _ _ _ _ _ _ _ _ _ HRs). simpl in HR0.
  run (RotateR_ok _ _ _ _ _ _ _ _ _ HR0). simpl in HR1.
  assert (_bf db = 0 ∨ _bf db = -1 ∨ _bf db = 1)%Z as [E|[E|E]] by lia; rewrite E; simpl.
  - run (set_bf_spec _ (RightF b _ _ :: c) _ _ _ _ 0 HR1).
    run (set_bf_spec _ (LeftF b _ _ :: c) _ _ _ _ 0 HR2).
    run_last (set_bf_spec _ c _ _ _ _ 0 HR3). done.
  - run (set_bf_spec _ (LeftF b _ _ :: c) _ _ _ _ 0 HR1).
    run (set_bf_spec _ (RightF b _ _ :: c) _ _ _ _ 1 HR2).
    run_last (set_bf_spec _ c _ _ _ _ 0 HR3). done.
  - run (set_bf_spec _ (RightF b _ _ :: c) _ _ _ _ 0 HR1).
    run (set_bf_spec _ (LeftF b _ _ :: c) _ _ _ _ (-1) HR2).
    run_last (set_bf_spec _ c _ _ _ _ 0 HR3). done.
Qed.

Lemma bit_RotateRL_eq st c p s A ds b B db C dp D :
  Rep st (plug c (Node p D dp (Node s (Node b B db C) ds A))) → (-1 ≤ _bf db ≤ 1)%Z →
  bit_RotateRL (Some p) st = RotateRL (Some p) st.
Proof.
  intros HR Hb. eapply same_result; [keeps|keeps| |by apply RotateRL_ok].
  unfold bit_RotateRL, bit_RotateL, bit_RotateR. read HR.
  assert (Rep st (plug (RightF p D dp :: c) (Node s (Node b B db C) ds A))) as HRs by done.
  read HRs.
  assert (Rep st (plug (LeftF s ds A :: RightF p D dp :: c) (Node b B db C))) as HRb by done.
  erewrite bind_ok by exact (get_bf_spec _ _ _ _ _ _ HRb). read HR.
  run (RotateR_ok _ _ _ _ _ _ _ _ _ HRs). simpl in HR0.
  run (RotateL_ok _ _ _ _ _ _ _ _ _ HR0). simpl in HR1.
  assert (_bf db = 0 ∨ _bf db = -1 ∨ _bf db = 1)%Z as [E|[E|E]] by lia; rewrite E; simpl.
  - run (set_bf_spec _ (RightF b _ _ :: c) _ _ _ _ 0 HR1).
    run (set_bf_spec _ c _ _ _ _ 0 HR2).
    run_last (set_bf_spec _ (LeftF b _ _ :: c) _ _ _ _ 0 HR3). done.
  - run (set_bf_spec _ (RightF b _ _ :: c) _ _ _ _ 1 HR1).
    run (set_bf_spec _ c _ _ _ _ 0 HR2).
    run_last (set_bf_spec _ (LeftF b _ _ :: c) _ _ _ _ 0 HR3). done.
  - run (set_bf_spec _ (RightF b _ _ :: c) _ _ _ _ 0 HR1).
    run (set_bf_spec _ c _ _ _ _ 0 HR2).
    run_last (set_bf_spec _ (LeftF b _ _ :: c) _ _ _ _ (-1) HR3). done.
Qed.

(** Steps of both sides of an equation between runs, and the evaluation of one
    branch condition of the left side. *)
Ltac both tac := tac; symmetry; tac; symmetry.
Ltac cond HRa :=
  first
    [ erewrite bind_ok by reflexivity
    | erewrite bind_ok by (erewrite bind_ok by exact (get_bf_spec _ _ _ _ _ _ HRa); reflexivity)
    | erewrite bind_ok by
        (erewrite bind_ok by
           (first [eapply get_left_ok | eapply get_right_ok];
            match goal with H : Rep _ _ |- _ => eapply (deref_spec _ _ _ _ _ _ H) end);
         cbn [_left _right tptr];
         erewrite bind_ok by exact (get_bf_spec _ _ _ _ _ _ HRa); reflexivity) ];
  repeat match goal with E : _bf ?d = _ |- _ => rewrite E end; simpl.

Lemma bit_rebalance_eq fuel st c a l d r :
  Rep st (plug c (Node a l d r)) →
  avl_ok (Node a l d r) → ctx_ok (zh (Node a l d r) - 1) c →
  (_bf d ≠ 0 ∨ zh (Node a l d r) = 1)%Z →
  bit_rebalance fuel (Some a) (cptr c) st = rebalance fuel (Some a) (cptr c) st.
Proof.
  revert st c a l d r. induction fuel as [|fuel IH]; intros st c a l d r HR Ht Hc Hd; [done|].
  destruct c as [|f c]; [done|]. cbn [bit_rebalance rebalance cptr].
  destruct (bump_spec _ _ _ _ HR) as (st1 & He & HR1); [done|]. cbn [tptr cptr] in He.
  both ltac:(erewrite bind_ok by exact He). clear He HR.
  destruct Ht as (Hbd & Hbd' & Hl & Hr). rewrite zh_node in *.
  destruct f as [x dx R|x L dx]; simpl in Hc;
    destruct Hc as (Hbx & Hbx' & HX & Hc); cbn [frame_loc].
  - assert (HRx : Rep st1 (plug c (Node x (Node a l d r) (mkAvl (_kv dx) (_bf dx - 1)) R))) by done.
    assert (HRa : Rep st1 (plug (LeftF x (mkAvl (_kv dx) (_bf dx - 1)) R :: c) (Node a l d r))) by done.
    both ltac:(erewrite bind_ok by exact (get_bf_spec _ _ _ _ _ _ HRx)). cbn [_bf].
    pose proof (zh_nonneg R).
    assert (_bf dx - 1 = 0 ∨ _bf dx - 1 = -1 ∨ _bf dx - 1 = -2)%Z as [E|[E|E]] by lia;
      rewrite E in *; simpl; [done| |].
    + both ltac:(read HRx). apply (IH _ _ _ _ _ _ HRx); rewrite ?zh_node; simpl; [balanced|heights|lia].
    + assert (_bf d = -1 ∨ _bf d = 1)%Z as [Ed|Ed] by lia.
      * do 2 cond HRa. symmetry. do 2 cond HRa. done.
      * do 3 cond HRa. symmetry. do 4 cond HRa.
        destruct r as [|b B db C]; [pose proof (zh_nonneg l); unfold zh in Hbd at 1; simpl in Hbd; lia|].
        symmetry. simpl in Hr. apply (bit_RotateLR_eq _ _ _ _ _ _ _ _ _ _ _ _ HRx). tauto.
  - assert (HRx : Rep st1 (plug c (Node x L (mkAvl (_kv dx) (_bf dx + 1)) (Node a l d r)))) by done.
    assert (HRa : Rep st1 (plug (RightF x L (mkAvl (_kv dx) (_bf dx + 1)) :: c) (Node a l d r))) by done.
    both ltac:(erewrite bind_ok by exact (get_bf_spec _ _ _ _ _ _ HRx)). cbn [_bf].
    pose proof (zh_nonneg L).
    assert (_bf dx + 1 = 0 ∨ _bf dx + 1 = 1 ∨ _bf dx + 1 = 2)%Z as [E|[E|E]] by lia;
      rewrite E in *; simpl; [done| |].
    + both ltac:(read HRx). apply (IH _ _ _ _ _ _ HRx); rewrite ?zh_node; simpl; [balanced|heights|lia].
    + assert (_bf d = -1 ∨ _bf d = 1)%Z as [Ed|Ed] by lia.
      * do 4 cond HRa. symmetry. do 3 cond HRa.
        destruct l as [|b B db C]; [pose proof (zh_nonneg r); unfold zh in Hbd at 2; simpl in Hbd; lia|].
        symmetry. simpl in Hl. apply (bit_RotateRL_eq _ _ _ _ _ _ _ _ _ _ _ _ HRx). tauto.
      * cond HRa. symmetry. cond HRa. done.
Qed.

Lemma bit_link_new_eq st f c kv :
  Rep st (plug (f :: c) Leaf) → frame_side akey (fst kv) f →
  bit_link_new kv (cptr (f :: c)) st = link_new kv (cptr (f :: c)) st.
Proof.
  intros HR Hf. destruct (attach_spec st f c (mkAvl kv 0) HR) as (st1 & st' & H1 & Hfr & _ & _).
  unfold bit_link_new, link_new. both ltac:(erewrite bind_ok by exact H1).
  assert (HR0 : Rep st (plug c (plug1 f Leaf))) by done.
  destruct f as [a d r|a l d]; simpl in *; pose proof (deref_spec _ _ _ _ _ _ HR0) as Hd;
    rewrite Hd in Hfr; unfold get_kv;
    both ltac:(erewrite bind_ok by
      (erewrite bind_ok by (eapply get_payload_ok, Hfr); reflexivity)); cbn [_payload];
    unfold after, before in Hf; unfold key_gtb; change (fst (_kv d)) with (akey d);
    by rewrite Hf, (key_asym _ _ Hf).
Qed.

(** The two AVL trees of the file implement the same insertion: on every
    balanced search tree [bit::AVLTree::Insert] and [zhc::AVLTree::insert]
    return the same result and leave the same heap, although they choose and
    finish the rotations differently. *)
Theorem bit_Insert_equiv st es kv :
  AvlTree st es → bit_Insert kv st = insert kv st.
Proof.
  intros (t & HR & Hok & <- & Hs). unfold bit_Insert, insert.
  do 2 both ltac:(erewrite bind_ok by reflexivity). rewrite (Rep_root _ _ HR).
  destruct (tptr t) as [r0|] eqn:Et; [|done]. rewrite <- Et.
  unfold entries in Hs. rewrite sorted_keys_fmap in Hs.
  pose proof (Rep_size _ _ HR) as Hsz. pose proof (height_labels t).
  both ltac:(erewrite bind_ok by (apply (descend_spec _ _ (fst kv) [] t HR); unfold fuel_of; lia)).
  destruct ((locate akey (fst kv) [] t).2) as [|a l d r] eqn:El; cbn [fst snd]; [|done].
  destruct (locate_absent akey _ _ Hs El) as (Hp & Hside & Hb & Ha).
  set (c := (locate akey (fst kv) [] t).1) in *. rewrite <- Hp in HR, Hok. clear El.
  destruct c as [|f c]; [by subst t|]. apply Forall_cons in Hside as [Hf _].
  destruct (link_new_ok _ _ _ kv HR Hf) as (st1 & H1 & HR1).
  erewrite bind_ok by (rewrite (bit_link_new_eq _ _ _ _ HR Hf); exact H1).
  symmetry. erewrite bind_ok by exact H1. symmetry.
  apply avl_plug in Hok as [_ Hok].
  unfold mbind, M_bind. rewrite (bit_rebalance_eq _ _ _ _ _ _ _ HR1); [done|done|exact Hok|by right].
Qed.

(** [bit::AVLTree::IsBalance()] answers [true] exactly when the tree
    satisfies the AVL invariant, balance factors included. *)
Theorem bit_IsBalance_decides st t :
  Rep st t → ∃ b, bit_IsBalance st = Ok (b, st) ∧ (b = true ↔ avl_ok t).
Proof.
  intros HR. unfold bit_IsBalance. do 2 (erewrite bind_ok by reflexivity).
  rewrite (Rep_root _ _ HR). apply (bit_IsBalance_at_spec _ _ [] _ HR).
  unfold fuel_of. rewrite (Rep_size _ _ HR). pose proof (height_labels t). lia.
Qed.

End AVL.

(** ** Witnesses *)
Lemma insert_refines_witness :
  ∃ st st' : tstate (avl_data Z Z),
    insert_all [(2, 20); (1, 10); (3, 30)]%Z empty_tree = Ok ((), st) ∧
    insert (4, 40)%Z st = Ok (true, st') ∧ AvlTree st' [(1, 10); (2, 20); (3, 30); (4, 40)]%Z.
Proof.
  destruct (insert_all_ok empty_tree [] [(2, 20); (1, 10); (3, 30)]%Z) as (st & He & HA).
  { exists Leaf. split; [apply Rep_empty|]. repeat split. constructor. }
  destruct (insert_refines st _ (4, 40)%Z HA) as (st' & H1 & H2).
  exists st, st'. split; [exact He|]. split; [exact H1|exact H2].
Defined.

Lemma IsBalance_decides_witness :
  ∃ (st : tstate (avl_data Z Z)) (t : tree (avl_data Z Z)) b,
    insert_all [(2, 20); (1, 10); (3, 30)]%Z empty_tree = Ok ((), st) ∧
    IsBalance st = Ok (b, st) ∧ (b = true ↔ balanced t).
Proof.
  destruct (insert_all_ok empty_tree [] [(2, 20); (1, 10); (3, 30)]%Z) as (st & He & t & HR & _).
  { exists Leaf. split; [apply Rep_empty|]. repeat split. constructor. }
  destruct (IsBalance_decides st t HR) as (b & H1 & H2). exists st, t, b. auto.
Defined.

Lemma bit_Insert_equiv_witness :
  ∃ st : tstate (avl_data Z Z),
    insert_all [(2, 20); (1, 10); (3, 30); (5, 50)]%Z empty_tree = Ok ((), st) ∧
    bit_Insert (4, 40)%Z st = insert (4, 40)%Z st.
Proof.
  destruct (insert_all_ok empty_tree [] [(2, 20); (1, 10); (3, 30); (5, 50)]%Z) as (st & He & HA).
  { exists Leaf. split; [apply Rep_empty|]. repeat split. constructor. }
  exists st. split; [exact He|]. exact (bit_Insert_equiv st _ (4, 40)%Z HA).
Defined.

Lemma bit_IsBalance_decides_witness :
  ∃ (st : tstate (avl_data Z Z)) (t : tree (avl_data Z Z)) b,
    insert_all [(2, 20); (1, 10); (3, 30)]%Z empty_tree = Ok ((), st) ∧
    bit_IsBalance st = Ok (b, st) ∧ (b = true ↔ avl_ok t).
Proof.
  destruct (insert_all_ok empty_tree [] [(2, 20); (1, 10); (3, 30)]%Z) as (st & He & t & HR & _).
  { exists Leaf. split; [apply Rep_empty|]. repeat split. constructor. }
  destruct (bit_IsBalance_decides st t HR) as (b & H1 & H2). exists st, t, b. auto.
Defined.
