(* ===== verification/RBTree.v ===== *)
(** * The red-black tree of src/Algorithm/RBTree.hpp

    [RBTree<K,T,KeyOFT>]: nodes with parent links and colours, insertion with
    recolouring and rotations, the checker [IsRBTree], and the bidirectional
    iterators that [map] and [set] (src/Algorithm/Map.hpp, Set.hpp) hand out. *)

From S2P Require Import Prelude SortedKeys HeapTree HeapRot HeapFocus.

Inductive Color := RED | BLACK.
#[global] Instance Color_eq_dec : EqDecision Color.
Proof. solve_decision. Defined.

(** The part of [RBTreeNode] that is not a link. *)
Record rb_data (T : Type) := mkRb { _data : T; _col : Color }.
Arguments mkRb {T} _data _col.
Arguments _data {T} _.
Arguments _col {T} _.

Section RB.
Context {K T : Type} `{KeyOrder K} (kot : T → K).
Abbreviation rbd := (rb_data T).
Abbreviation state := (tstate rbd).

Definition get_data (p : ptr) : M state T := d ← get_payload p; mret (_data d).
Definition get_col (p : ptr) : M state Color := d ← get_payload p; mret (_col d).
Definition set_col (p : ptr) (c : Color) : M state () :=
  d ← get_payload p; set_payload p (mkRb (_data d) c).

(** [p && p->_col==RED] *)
Definition is_red (p : ptr) : M state bool :=
  match p with
  | None => mret false
  | Some _ => c ← get_col p; mret (bool_decide (c = RED))
  end.

(** ** Insertion *)
Fixpoint rb_descend (fuel : nat) (k : K) (cur parent : ptr) : M state (ptr * ptr) :=
  match fuel with
  | 0 => fail OutOfFuel
  | S fuel =>
      match cur with
      | None => mret (None, parent)
      | Some _ =>
          d ← get_data cur;
          if key_gtb (kot d) k then (l ← get_left cur; rb_descend fuel k l cur)
          else if key_ltb (kot d) k then (r ← get_right cur; rb_descend fuel k r cur)
          else mret (cur, parent)
      end
  end.

Definition rb_link_new (data : T) (parent : ptr) : M state ptr :=
  cur ← new_node (mkRb data RED);
  pd ← get_data parent;
  (if key_gtb (kot pd) (kot data)
   then set_left parent cur;; set_parent cur parent
   else set_right parent cur;; set_parent cur parent);;
  mret cur.

(** The loop that removes a red node with a red parent. *)
Fixpoint fixup (fuel : nat) (cur parent : ptr) : M state () :=
  match fuel with
  | 0 => fail OutOfFuel
  | S fuel =>
      red ← is_red parent;
      if negb red then mret ()
      else
        grandfater ← get_parent parent;
        match grandfater with
        | None => fail AssertFailed
        | Some _ =>
            gl ← get_left grandfater;
            if decide (gl = parent) then
              uncle ← get_right grandfater;
              ured ← is_red uncle;
              if (ured : bool) then
                set_col uncle BLACK;; set_col parent BLACK;;
                set_col grandfater RED;;
                pp ← get_parent grandfater;
                fixup fuel grandfater pp
              else
                pl ← get_left parent;
                if decide (pl = cur) then
                  RotateR_links grandfater;;
                  set_col parent BLACK;;
                  set_col grandfater RED;; set_col cur RED
                else
                  RotateL_links parent;;
                  RotateR_links grandfater;;
                  set_col cur BLACK;;
                  set_col grandfater RED;; set_col parent RED
            else
              gr ← get_right grandfater;
              if decide (gr = parent) then
                uncle ← get_left grandfater;
                ured ← is_red uncle;
                if (ured : bool) then
                  set_col parent BLACK;; set_col uncle BLACK;;
                  set_col grandfater RED;;
                  pp ← get_parent grandfater;
                  fixup fuel grandfater pp
                else
                  pr ← get_right parent;
                  if decide (pr = cur) then
                    RotateL_links grandfater;;
                    set_col parent BLACK;;
                    set_col grandfater RED;; set_col cur RED
                  else
                    RotateR_links parent;;
                    RotateL_links grandfater;;
                    set_col cur BLACK;;
                    set_col grandfater RED;; set_col parent RED
              else fail AssertFailed
        end
  end.

(** [insert(data)]: the position of the entry with that key, and whether it is
    new. *)
Definition rb_insert (data : T) : M state (ptr * bool) :=
  fuel ← gets fuel_of;
  root ← get_root;
  match root with
  | None =>
      n ← new_node (mkRb data RED);
      set_root n;;
      r ← get_root; set_col r BLACK;;
      r ← get_root; mret (r, true)
  | Some _ =>
      cp ← rb_descend fuel (kot data) root None;
      match fst cp with
      | Some _ => mret (fst cp, false)
      | None =>
          newnode ← rb_link_new data (snd cp);
          fixup fuel newnode (snd cp);;
          r ← get_root; set_col r BLACK;;
          mret (newnode, true)
      end
  end.

(** ** The checker *)
Fixpoint left_blacks (fuel : nat) (left : ptr) (ref : Z) : M state Z :=
  match fuel with
  | 0 => fail OutOfFuel
  | S fuel =>
      match left with
      | None => mret ref
      | Some _ =>
          c ← get_col left;
          l ← get_left left;
          left_blacks fuel l (if decide (c = BLACK) then ref + 1 else ref)%Z
      end
  end.

Fixpoint check (fuel : nat) (root : ptr) (BlackNum ref : Z) : M state bool :=
  match fuel with
  | 0 => fail OutOfFuel
  | S fuel =>
      match root with
      | None => mret (BlackNum =? ref)%Z
      | Some _ =>
          c ← get_col root;
          rr ← (if decide (c = RED)
                then p ← get_parent root; pc ← get_col p; mret (bool_decide (pc = RED))
                else mret false);
          if (rr : bool) then mret false
          else
            let BlackNum' := (if decide (c = BLACK) then BlackNum + 1 else BlackNum)%Z in
            l ← get_left root; bl ← check fuel l BlackNum' ref;
            if (bl : bool) then r ← get_right root; check fuel r BlackNum' ref
            else mret false
      end
  end.

Definition IsRBTree : M state bool :=
  fuel ← gets fuel_of;
  root ← get_root;
  match root with
  | None => mret true
  | Some _ =>
      c ← get_col root;
      if decide (c = RED) then mret false
      else
        ref ← left_blacks fuel root 0;
        check fuel root 0 ref
  end.

(** ** Iterators *)

(** [while(left&&left->_left) left=left->_left;] and its mirror image. *)
Fixpoint leftmost (fuel : nat) (left : ptr) : M state ptr :=
  match fuel with
  | 0 => fail OutOfFuel
  | S fuel =>
      match left with
      | None => mret None
      | Some _ => l ← get_left left; match l with Some _ => leftmost fuel l | None => mret left end
      end
  end.
Fixpoint rightmost (fuel : nat) (right : ptr) : M state ptr :=
  match fuel with
  | 0 => fail OutOfFuel
  | S fuel =>
      match right with
      | None => mret None
      | Some _ => r ← get_right right; match r with Some _ => rightmost fuel r | None => mret right end
      end
  end.

(** [while(parent&&parent->_right==cur) { parent=parent->_parent; cur=cur->_parent; }] *)
Fixpoint climb_right (fuel : nat) (cur parent : ptr) : M state ptr :=
  match fuel with
  | 0 => fail OutOfFuel
  | S fuel =>
      match parent with
      | None => mret None
      | Some _ =>
          r ← get_right parent;
          if decide (r = cur) then
            parent' ← get_parent parent; cur' ← get_parent cur; climb_right fuel cur' parent'
          else mret parent
      end
  end.
Fixpoint climb_left (fuel : nat) (cur parent : ptr) : M state ptr :=
  match fuel with
  | 0 => fail OutOfFuel
  | S fuel =>
      match parent with
      | None => mret None
      | Some _ =>
          l ← get_left parent;
          if decide (l = cur) then
            parent' ← get_parent parent; cur' ← get_parent cur; climb_left fuel cur' parent'
          else mret parent
      end
  end.

Definition rb_begin : M state ptr := fuel ← gets fuel_of; r ← get_root; leftmost fuel r.
Definition rb_end : ptr := None.
Definition rb_rbegin : M state ptr := fuel ← gets fuel_of; r ← get_root; rightmost fuel r.
Definition rb_rend : ptr := None.

(** [RBTree_iterator::operator++] *)
Definition iter_next (_node : ptr) : M state ptr :=
  fuel ← gets fuel_of;
  r ← get_right _node;
  match r with
  | Some _ => leftmost fuel r
  | None => parent ← get_parent _node; climb_right fuel _node parent
  end.

(** [RBTree_iterator::operator--] *)
Definition iter_prev (_node : ptr) : M state ptr :=
  fuel ← gets fuel_of;
  l ← get_left _node;
  match l with
  | Some _ => rightmost fuel l
  | None => parent ← get_parent _node; climb_left fuel _node parent
  end.

(** [_reverse_iterator::operator++] has the text of [RBTree_iterator::operator--]. *)
Definition riter_next (_node : ptr) : M state ptr :=
  fuel ← gets fuel_of;
  l ← get_left _node;
  match l with
  | Some _ => rightmost fuel l
  | None => parent ← get_parent _node; climb_left fuel _node parent
  end.

(** [for(it=begin(); it!=end(); ++it)] over an advance function. *)
Fixpoint traverse (next : ptr → M state ptr) (fuel : nat) (it : ptr) : M state (list T) :=
  match fuel with
  | 0 => fail OutOfFuel
  | S fuel =>
      match it with
      | None => mret []
      | Some _ =>
          d ← get_data it; it' ← next it; ds ← traverse next fuel it'; mret (d :: ds)
      end
  end.

Definition iterate : M state (list T) :=
  fuel ← gets fuel_of; b ← rb_begin; traverse iter_next fuel b.
Definition riterate : M state (list T) :=
  fuel ← gets fuel_of; b ← rb_rbegin; traverse riter_next fuel b.

(** ** Invariant *)
Implicit Types (t l r A B C D U : tree rbd) (c : list (frame rbd)) (st : state).

Definition black (t : tree rbd) : Prop :=
  match t with Leaf => True | Node _ _ d _ => _col d = BLACK end.

(** Every path below [t] has [n] black nodes, and no red node has a red child. *)
Fixpoint rb (n : nat) (t : tree rbd) : Prop :=
  match t with
  | Leaf => n = 0
  | Node _ l d r =>
      match _col d with
      | BLACK => match n with 0 => False | S m => rb m l ∧ rb m r end
      | RED => rb n l ∧ rb n r ∧ black l ∧ black r
      end
  end.

Definition frame_data (f : frame rbd) : rbd :=
  match f with LeftF _ d _ => d | RightF _ _ d => d end.
Definition sibling (f : frame rbd) : tree rbd :=
  match f with LeftF _ _ r => r | RightF _ l _ => l end.
Definition under_black (c : list (frame rbd)) : Prop :=
  match c with [] => False | f :: _ => _col (frame_data f) = BLACK end.

(** The same for a context whose hole has black height [n]. *)
Fixpoint rbc (n : nat) (c : list (frame rbd)) : Prop :=
  match c with
  | [] => True
  | f :: c =>
      rb n (sibling f) ∧
      match _col (frame_data f) with
      | BLACK => rbc (S n) c
      | RED => black (sibling f) ∧ under_black c ∧ rbc n c
      end
  end.

Lemma rb_plug1 n f t :
  rb n (plug1 f t) ↔
    match _col (frame_data f) with
    | BLACK => ∃ m, n = S m ∧ rb m t ∧ rb m (sibling f)
    | RED => rb n t ∧ rb n (sibling f) ∧ black t ∧ black (sibling f)
    end.
Proof.
  destruct f as [a d r|a l d]; simpl; destruct (_col d); try tauto;
    (destruct n; [split; [done|intros (m & Hm & _); done]|]);
    (split; [intros [? ?]; eauto|intros (m & [= <-] & ? & ?); done]).
Qed.

Lemma black_plug1 f t : black (plug1 f t) ↔ _col (frame_data f) = BLACK.
Proof. by destruct f. Qed.

Lemma rb_unplug N c t :
  rb N (plug c t) → black (plug c t) →
  ∃ n, rb n t ∧ rbc n c ∧ (black t ∨ under_black c).
Proof.
  revert t. induction c as [|f c IH]; intros t Hr Hb; [by exists N; simpl in *; auto|].
  destruct (IH _ Hr Hb) as (n & H1 & H2 & H3).
  apply rb_plug1 in H1. rewrite black_plug1 in H3. simpl in *.
  destruct (_col (frame_data f)).
  - destruct H3 as [H3|H3]; [done|]. exists n. tauto.
  - destruct H1 as (m & -> & ? & ?). exists m. tauto.
Qed.

Lemma rb_replug n c t :
  rb n t → rbc n c → (c = [] ∨ black t ∨ under_black c) → ∃ N, rb N (plug c t).
Proof.
  revert n t. induction c as [|f c IH]; intros n t Ht Hc Hb; [by exists n|].
  simpl in Hc. destruct Hc as [Hf Hc], Hb as [Hb|Hb]; [done|]. simpl in *.
  destruct (_col (frame_data f)) eqn:E.
  - destruct Hc as (Hs & Hu & Hc). destruct Hb as [Hb|Hb]; [|done].
    apply (IH n); auto. apply rb_plug1. by rewrite E.
  - apply (IH (S n)); [|done|rewrite black_plug1; auto]. apply rb_plug1. rewrite E. eauto.
Qed.

(** ** The nodes and their data, in order *)
Fixpoint cells (t : tree rbd) : list (loc * T) :=
  match t with Leaf => [] | Node a l d r => cells l ++ (a, _data d) :: cells r end.
Fixpoint cells_left (c : list (frame rbd)) : list (loc * T) :=
  match c with
  | [] => []
  | LeftF _ _ _ :: c => cells_left c
  | RightF a l d :: c => cells_left c ++ cells l ++ [(a, _data d)]
  end.
Fixpoint cells_right (c : list (frame rbd)) : list (loc * T) :=
  match c with
  | [] => []
  | LeftF a d r :: c => (a, _data d) :: cells r ++ cells_right c
  | RightF _ _ _ :: c => cells_right c
  end.

Lemma cells_plug c t : cells (plug c t) = cells_left c ++ cells t ++ cells_right c.
Proof.
  revert t. induction c as [|[a d r|a l d] c IH]; intros t; simpl;
    rewrite ?app_nil_r, ?IH; simpl; by rewrite <- ?app_assoc.
Qed.
Lemma cells_labels t : (cells t).*1 = labels t.
Proof. induction t as [|a l IHl d r IHr]; simpl; [done|]. by rewrite fmap_app, IHl, <- IHr. Qed.
Lemma cells_data t : (cells t).*2 = _data <$> inorder t.
Proof. induction t as [|a l IHl d r IHr]; simpl; [done|]. by rewrite !fmap_app, IHl, !fmap_cons, <- IHr. Qed.
Lemma cells_left_data c : (cells_left c).*2 = _data <$> cleft c.
Proof.
  induction c as [|[a d r|a l d] c IH]; simpl; [done|done|].
  by rewrite !fmap_app, IH, cells_data.
Qed.
Lemma cells_right_data c : (cells_right c).*2 = _data <$> cright c.
Proof.
  induction c as [|[a d r|a l d] c IH]; simpl; [done| |done].
  by rewrite !fmap_app, <- IH, cells_data.
Qed.

Ltac same_cells_tac :=
  rewrite !cells_plug; f_equal; simpl; repeat (rewrite <- ?app_assoc; simpl); reflexivity.

(** ** Accesses at a position *)
Lemma get_col_spec st c a l d r :
  Rep st (plug c (Node a l d r)) → get_col (Some a) st = Ok (_col d, st).
Proof.
  intros HR%deref_spec. unfold get_col. erewrite bind_ok by (by eapply get_payload_ok). done.
Qed.
Lemma get_data_spec st c a l d r :
  Rep st (plug c (Node a l d r)) → get_data (Some a) st = Ok (_data d, st).
Proof.
  intros HR%deref_spec. unfold get_data. erewrite bind_ok by (by eapply get_payload_ok). done.
Qed.
Lemma set_col_spec st c a l d r b :
  Rep st (plug c (Node a l d r)) →
  ∃ st', set_col (Some a) b st = Ok ((), st') ∧ Rep st' (plug c (Node a l (mkRb (_data d) b) r)).
Proof.
  intros HR. pose proof (deref_spec _ _ _ _ _ _ HR) as Hd.
  destruct (set_payload_spec _ _ _ _ _ _ (mkRb (_data d) b) HR) as (st' & He & HR').
  exists st'. split; [|done]. unfold set_col. erewrite bind_ok by (by eapply get_payload_ok). done.
Qed.

Lemma is_red_tree st c t :
  Rep st (plug c t) → ∃ b, is_red (tptr t) st = Ok (b, st) ∧ (b = false ↔ black t).
Proof.
  destruct t as [|a l d r]; intros HR; [by exists false|]. cbn [is_red tptr].
  erewrite bind_ok by exact (get_col_spec _ _ _ _ _ _ HR).
  eexists. split; [reflexivity|]. simpl. rewrite bool_decide_eq_false.
  by destruct (_col d).
Qed.

(** ** The steps of the repair loop

    [F] is the frame of the red parent, [t] the red node below it, [U] the uncle. *)
Definition paint (b : Color) (d : rbd) : rbd := mkRb (_data d) b.
Definition paint_frame (b : Color) (f : frame rbd) : frame rbd :=
  match f with LeftF a d r => LeftF a (paint b d) r | RightF a l d => RightF a l (paint b d) end.

Lemma set_col_frame st c f t b :
  Rep st (plug (f :: c) t) →
  ∃ st', set_col (Some (frame_loc f)) b st = Ok ((), st') ∧ Rep st' (plug (paint_frame b f :: c) t).
Proof. intros HR. destruct f; by apply (set_col_spec st c). Qed.

Lemma get_parent_frame st c f t :
  Rep st (plug (f :: c) t) → get_parent (Some (frame_loc f)) st = Ok (cptr c, st).
Proof.
  intros HR. destruct f; cbn [frame_loc]; by rewrite (get_parent_ok _ _ _ (deref_spec st c _ _ _ _ HR)).
Qed.

Lemma is_red_frame st c f t :
  Rep st (plug (f :: c) t) →
  is_red (cptr (f :: c)) st = Ok (bool_decide (_col (frame_data f) = RED), st).
Proof.
  intros HR. destruct f; cbn [is_red cptr frame_loc frame_data];
    by erewrite bind_ok by (exact (get_col_spec st c _ _ _ _ HR)).
Qed.

(** The first tests of an iteration: the parent is red, the grandfather exists,
    and the uncle is on one of its sides. *)
Ltac enter HR Hred :=
  cbn [fixup cptr]; erewrite bind_ok by exact (is_red_frame _ _ _ _ HR);
  rewrite Hred;
  rewrite bool_decide_eq_true_2 by done; cbn [negb];
  erewrite bind_ok by exact (get_parent_frame _ _ _ _ HR); cbn [cptr frame_loc].

Lemma fixup_uncle_l fuel st F g dg x Ul dU Ur c t :
  Rep st (plug (F :: LeftF g dg (Node x Ul dU Ur) :: c) t) →
  _col (frame_data F) = RED → _col dU = RED →
  ∃ st', fixup (S fuel) (tptr t) (cptr (F :: LeftF g dg (Node x Ul dU Ur) :: c)) st
           = fixup fuel (Some g) (cptr c) st' ∧
    Rep st' (plug c (Node g (plug1 (paint_frame BLACK F) t) (paint RED dg)
                       (Node x Ul (paint BLACK dU) Ur))).
Proof.
  intros HR Hred HU. enter HR Hred.
  assert (HRg : Rep st (plug c (Node g (plug1 F t) dg (Node x Ul dU Ur)))) by done.
  read HRg. rewrite tptr_plug1, decide_True by done. read HRg.
  assert (HRu : Rep st (plug (RightF g (plug1 F t) dg :: c) (Node x Ul dU Ur))) by done.
  unfold is_red. erewrite bind_ok by
    (erewrite bind_ok by exact (get_col_spec _ _ _ _ _ _ HRu); reflexivity).
  rewrite HU. rewrite bool_decide_eq_true_2 by done.
  run (set_col_spec _ _ _ _ _ _ BLACK HRu).
  assert (HR1 : Rep st0 (plug (F :: LeftF g dg (Node x Ul (paint BLACK dU) Ur) :: c) t)) by done.
  run (set_col_frame _ _ _ _ BLACK HR1).
  assert (HR3 : Rep st1 (plug c (Node g (plug1 (paint_frame BLACK F) t) dg (Node x Ul (paint BLACK dU) Ur)))) by done.
  run (set_col_spec _ _ _ _ _ _ RED HR3). read HR4. eauto.
Qed.

Lemma fixup_uncle_r fuel st F g dg x Ul dU Ur c t :
  Rep st (plug (F :: RightF g (Node x Ul dU Ur) dg :: c) t) →
  _col (frame_data F) = RED → _col dU = RED →
  ∃ st', fixup (S fuel) (tptr t) (cptr (F :: RightF g (Node x Ul dU Ur) dg :: c)) st
           = fixup fuel (Some g) (cptr c) st' ∧
    Rep st' (plug c (Node g (Node x Ul (paint BLACK dU) Ur) (paint RED dg)
                       (plug1 (paint_frame BLACK F) t))).
Proof.
  intros HR Hred HU. enter HR Hred.
  assert (HRg : Rep st (plug c (Node g (Node x Ul dU Ur) dg (plug1 F t)))) by done.
  assert (Hne : Some x ≠ Some (frame_loc F)).
  { destruct F; by apply (sibling_ne st c g (Node x Ul dU Ur) dg _ _ _ _ HRg). }
  read HRg. rewrite decide_False by done. read HRg. rewrite tptr_plug1, decide_True by done. read HRg.
  assert (HRu : Rep st (plug (LeftF g dg (plug1 F t) :: c) (Node x Ul dU Ur))) by done.
  unfold is_red. erewrite bind_ok by
    (erewrite bind_ok by exact (get_col_spec _ _ _ _ _ _ HRu); reflexivity).
  rewrite HU. rewrite bool_decide_eq_true_2 by done.
  run (set_col_frame _ _ _ _ BLACK HR).
  assert (HR1 : Rep st0 (plug (LeftF g dg (plug1 (paint_frame BLACK F) t) :: c) (Node x Ul dU Ur))) by done.
  run (set_col_spec _ _ _ _ _ _ BLACK HR1).
  assert (HR3 : Rep st1 (plug c (Node g (Node x Ul (paint BLACK dU) Ur) dg (plug1 (paint_frame BLACK F) t)))) by done.
  run (set_col_spec _ _ _ _ _ _ RED HR3). read HR4. eauto.
Qed.

(** After the rotations of the two cases with a black uncle on the right. *)
Definition rotated_l (F : frame rbd) (a : loc) l d r (g : loc) dg U : tree rbd :=
  match F with
  | LeftF p dp X => Node p (Node a l (paint RED d) r) (paint BLACK dp) (Node g X (paint RED dg) U)
  | RightF p X dp => Node a (Node p X (paint RED dp) l) (paint BLACK d) (Node g r (paint RED dg) U)
  end.
Definition rotated_r (F : frame rbd) (a : loc) l d r (g : loc) dg U : tree rbd :=
  match F with
  | RightF p X dp => Node p (Node g U (paint RED dg) X) (paint BLACK dp) (Node a l (paint RED d) r)
  | LeftF p dp X => Node a (Node g U (paint RED dg) l) (paint BLACK d) (Node p r (paint RED dp) X)
  end.

Lemma fixup_rotate_l fuel st F g dg U c a l d r :
  Rep st (plug (F :: LeftF g dg U :: c) (Node a l d r)) →
  _col (frame_data F) = RED → black U →
  ∃ st', fixup (S fuel) (Some a) (cptr (F :: LeftF g dg U :: c)) st = Ok ((), st') ∧
    Rep st' (plug c (rotated_l F a l d r g dg U)).
Proof.
  intros HR Hred HU. enter HR Hred.
  assert (HRg : Rep st (plug c (Node g (plug1 F (Node a l d r)) dg U))) by done.
  read HRg. rewrite tptr_plug1, decide_True by done. read HRg.
  destruct (is_red_tree st (RightF g (plug1 F (Node a l d r)) dg :: c) U HRg) as (b & Hb & Hbl).
  erewrite bind_ok by exact Hb. rewrite (proj2 Hbl HU). clear Hb Hbl b.
  destruct F as [p dp X|p X dp]; cbn [frame_loc rotated_l].
  - assert (HRp' : Rep st (plug (LeftF g dg U :: c) (Node p (Node a l d r) dp X))) by done.
    read HRp'. rewrite decide_True by done.
    run (RotateR_spec _ _ _ _ _ _ _ _ _ HRg).
    run (set_col_spec _ _ _ _ _ _ BLACK HR0).
    assert (HR2 : Rep st1 (plug (RightF p (Node a l d r) (paint BLACK dp) :: c) (Node g X dg U))) by done.
    run (set_col_spec _ _ _ _ _ _ RED HR2).
    assert (HR4 : Rep st2 (plug (LeftF p (paint BLACK dp) (Node g X (paint RED dg) U) :: c) (Node a l d r))) by done.
    run_last (set_col_spec _ _ _ _ _ _ RED HR4). done.
  - assert (HRp' : Rep st (plug (LeftF g dg U :: c) (Node p X dp (Node a l d r)))) by done.
    read HRp'. rewrite decide_False by exact (sibling_ne _ _ _ _ _ _ _ _ _ HR).
    run (RotateL_spec _ _ _ _ _ _ _ _ _ HRp').
    assert (HR1 : Rep st0 (plug c (Node g (Node a (Node p X dp l) d r) dg U))) by done.
    run (RotateR_spec _ _ _ _ _ _ _ _ _ HR1).
    run (set_col_spec _ _ _ _ _ _ BLACK HR2).
    assert (HR4 : Rep st2 (plug (RightF a (Node p X dp l) (paint BLACK d) :: c) (Node g r dg U))) by done.
    run (set_col_spec _ _ _ _ _ _ RED HR4).
    assert (HR6 : Rep st3 (plug (LeftF a (paint BLACK d) (Node g r (paint RED dg) U) :: c) (Node p X dp l))) by done.
    run_last (set_col_spec _ _ _ _ _ _ RED HR6). done.
Qed.

Lemma fixup_rotate_r fuel st F g dg U c a l d r :
  Rep st (plug (F :: RightF g U dg :: c) (Node a l d r)) →
  _col (frame_data F) = RED → black U →
  ∃ st', fixup (S fuel) (Some a) (cptr (F :: RightF g U dg :: c)) st = Ok ((), st') ∧
    Rep st' (plug c (rotated_r F a l d r g dg U)).
Proof.
  intros HR Hred HU. enter HR Hred.
  assert (HRg : Rep st (plug c (Node g U dg (plug1 F (Node a l d r))))) by done.
  assert (Hne : tptr U ≠ Some (frame_loc F)) by (destruct F; exact (sibling_ne st c _ _ _ _ _ _ _ HRg)).
  read HRg. rewrite decide_False by done. read HRg. rewrite tptr_plug1, decide_True by done. read HRg.
  destruct (is_red_tree st (LeftF g dg (plug1 F (Node a l d r)) :: c) U HRg) as (b & Hb & Hbl).
  erewrite bind_ok by exact Hb. rewrite (proj2 Hbl HU). clear Hb Hbl b.
  destruct F as [p dp X|p X dp]; cbn [frame_loc rotated_r].
  - assert (HRp' : Rep st (plug (RightF g U dg :: c) (Node p (Node a l d r) dp X))) by done.
    read HRp'. rewrite decide_False by exact (sibling_ne' _ _ _ _ _ _ _ _ _ HR).
    run (RotateR_spec _ _ _ _ _ _ _ _ _ HRp').
    assert (HR1 : Rep st0 (plug c (Node g U dg (Node a l d (Node p r dp X))))) by done.
    run (RotateL_spec _ _ _ _ _ _ _ _ _ HR1).
    run (set_col_spec _ _ _ _ _ _ BLACK HR2).
    assert (HR4 : Rep st2 (plug (LeftF a (paint BLACK d) (Node p r dp X) :: c) (Node g U dg l))) by done.
    run (set_col_spec _ _ _ _ _ _ RED HR4).
    assert (HR6 : Rep st3 (plug (RightF a (Node g U (paint RED dg) l) (paint BLACK d) :: c) (Node p r dp X))) by done.
    run_last (set_col_spec _ _ _ _ _ _ RED HR6). done.
  - assert (HRp' : Rep st (plug (RightF g U dg :: c) (Node p X dp (Node a l d r)))) by done.
    read HRp'. rewrite decide_True by done.
    run (RotateL_spec _ _ _ _ _ _ _ _ _ HRg).
    run (set_col_spec _ _ _ _ _ _ BLACK HR0).
    assert (HR2 : Rep st1 (plug (LeftF p (paint BLACK dp) (Node a l d r) :: c) (Node g U dg X))) by done.
    run (set_col_spec _ _ _ _ _ _ RED HR2).
    assert (HR4 : Rep st2 (plug (RightF p (Node g U (paint RED dg) X) (paint BLACK dp) :: c) (Node a l d r))) by done.
    run_last (set_col_spec _ _ _ _ _ _ RED HR4). done.
Qed.

Lemma rotated_l_ok n F g dg U a l d r :
  rb n (Node a l d r) → _col d = RED → rb n (sibling F) → black (sibling F) → rb n U → black U →
  rb (S n) (rotated_l F a l d r g dg U) ∧ black (rotated_l F a l d r g dg U) ∧
  cells (rotated_l F a l d r g dg U) = cells (plug1 F (Node a l d r)) ++ (g, _data dg) :: cells U.
Proof.
  simpl. intros Ht Hd. rewrite Hd in Ht. destruct F; simpl; intros; split_and!; try tauto;
    repeat (rewrite <- ?app_assoc; simpl); reflexivity.
Qed.
Lemma rotated_r_ok n F g dg U a l d r :
  rb n (Node a l d r) → _col d = RED → rb n (sibling F) → black (sibling F) → rb n U → black U →
  rb (S n) (rotated_r F a l d r g dg U) ∧ black (rotated_r F a l d r g dg U) ∧
  cells (rotated_r F a l d r g dg U) = cells U ++ (g, _data dg) :: cells (plug1 F (Node a l d r)).
Proof.
  simpl. intros Ht Hd. rewrite Hd in Ht. destruct F; simpl; intros; split_and!; try tauto;
    repeat (rewrite <- ?app_assoc; simpl); reflexivity.
Qed.

Lemma rb_recolour n F t :
  rb n t → rb n (sibling F) → rb (S n) (plug1 (paint_frame BLACK F) t).
Proof. destruct F; simpl; auto. Qed.
Lemma cells_recolour F t : cells (plug1 (paint_frame BLACK F) t) = cells (plug1 F t).
Proof. by destruct F. Qed.
Lemma black_dec t : black t ∨ ∃ a l d r, t = Node a l d r ∧ _col d = RED.
Proof. destruct t as [|a l d r]; simpl; [by left|]. destruct (_col d) eqn:?; eauto 10. Qed.
Lemma rb_red_node n a l d r :
  _col d = RED → rb n (Node a l d r) → rb (S n) (Node a l (paint BLACK d) r).
Proof. simpl. intros ->. tauto. Qed.

(** The loop, started at a red node whose subtree is in order, ends with a tree
    that is in order except that its root may be red. *)
Lemma fixup_spec fuel n st c a l d r :
  Rep st (plug c (Node a l d r)) → _col d = RED → rb n (Node a l d r) → rbc n c → length c < fuel →
  ∃ st' t' N, fixup fuel (Some a) (cptr c) st = Ok ((), st') ∧
    Rep st' t' ∧ rb N t' ∧ cells t' = cells (plug c (Node a l d r)).
Proof.
  revert n st c a l d r. induction fuel as [|fuel IH]; intros n st c a l d r HR Hd Ht Hc Hf; [lia|].
  destruct c as [|F c]; [by exists st, (Node a l d r), n|].
  destruct (_col (frame_data F)) eqn:HF; simpl in Hc; rewrite HF in Hc.
  2: { destruct Hc as [HFs Hc].
    destruct (rb_replug n (F :: c) (Node a l d r)) as [N HN]; [done| |by right; right|].
    { simpl. by rewrite HF. }
    exists st. eexists _, N. split; [|by split]. cbn [fixup cptr].
    erewrite bind_ok by exact (is_red_frame _ _ _ _ HR). by rewrite HF. }
  destruct Hc as (HFs & HFb & Hu & Hc). destruct c as [|G c]; [done|]. simpl in Hu, Hc, Hf.
  rewrite Hu in Hc. destruct Hc as [HU Hc].
  destruct G as [g dg U|g U dg]; cbn [sibling frame_data] in *;
    destruct (black_dec U) as [HUb|(x & Ul & dU & Ur & -> & HUr)].
  - destruct (fixup_rotate_l fuel _ _ _ _ _ _ _ _ _ _ HR HF HUb) as (st' & He & HR').
    destruct (rotated_l_ok n F g dg U a l d r) as (H1 & H2 & H3); [done..|].
    destruct (rb_replug (S n) c _ H1 Hc) as [N HN]; [auto|].
    exists st'. eexists _, N. split; [exact He|]. split; [exact HR'|]. split; [exact HN|].
    cbn [plug]. rewrite !(cells_plug c), H3. simpl. done.
  - destruct (fixup_uncle_l fuel _ _ _ _ _ _ _ _ _ _ HR HF HUr) as (st1 & He & HR1).
    destruct (IH (S n) _ _ _ _ _ _ HR1) as (st' & t' & N & He' & HR' & HN & Hcells); [done| |done|lia|].
    { cbn [rb]. cbn [_col paint]. split; [by apply rb_recolour|].
      split; [exact (rb_red_node _ x _ _ _ HUr HU)|]. split; [by rewrite black_plug1; destruct F|done]. }
    exists st', t', N. split; [by etrans; [exact He|]|]. split; [done|]. split; [done|].
    rewrite Hcells. cbn [plug plug1]. rewrite !(cells_plug c). cbn [cells]. by rewrite cells_recolour.
  - destruct (fixup_rotate_r fuel _ _ _ _ _ _ _ _ _ _ HR HF HUb) as (st' & He & HR').
    destruct (rotated_r_ok n F g dg U a l d r) as (H1 & H2 & H3); [done..|].
    destruct (rb_replug (S n) c _ H1 Hc) as [N HN]; [auto|].
    exists st'. eexists _, N. split; [exact He|]. split; [exact HR'|]. split; [exact HN|].
    cbn [plug]. rewrite !(cells_plug c), H3. simpl. done.
  - destruct (fixup_uncle_r fuel _ _ _ _ _ _ _ _ _ _ HR HF HUr) as (st1 & He & HR1).
    destruct (IH (S n) _ _ _ _ _ _ HR1) as (st' & t' & N & He' & HR' & HN & Hcells); [done| |done|lia|].
    { cbn [rb]. cbn [_col paint]. split; [exact (rb_red_node _ x _ _ _ HUr HU)|].
      split; [by apply rb_recolour|]. split; [done|by rewrite black_plug1; destruct F]. }
    exists st', t', N. split; [by etrans; [exact He|]|]. split; [done|]. split; [done|].
    rewrite Hcells. cbn [plug plug1]. rewrite !(cells_plug c). cbn [cells]. by rewrite cells_recolour.
Qed.

(** [_root->_col=BLACK] *)
Lemma blacken_root st t N :
  Rep st t → rb N t → t ≠ Leaf →
  ∃ st' t' N', set_col (tptr t) BLACK st = Ok ((), st') ∧
    Rep st' t' ∧ rb N' t' ∧ black t' ∧ cells t' = cells t.
Proof.
  intros HR HN Ht. destruct t as [|a l d r]; [done|].
  destruct (set_col_spec st [] a l d r BLACK HR) as (st' & He & HR').
  destruct (_col d) eqn:Ed.
  - exists st', (Node a l (paint BLACK d) r), (S N). split; [exact He|].
    split; [exact HR'|]. split; [exact (rb_red_node _ a _ _ _ Ed HN)|done].
  - exists st', (Node a l (paint BLACK d) r), N. split; [exact He|].
    split; [exact HR'|]. simpl in *. by rewrite Ed in HN.
Qed.

(** ** The descent *)
Abbreviation rkey := (kot ∘ @_data T).
Abbreviation ckey := (kot ∘ @snd loc T).

Lemma rb_descend_spec fuel st k c t :
  Rep st (plug c t) → height t < fuel →
  ∃ p, rb_descend fuel k (tptr t) (cptr c) st = Ok (tptr (locate rkey k c t).2, p, st) ∧
    ((locate rkey k c t).2 = Leaf → p = cptr (locate rkey k c t).1).
Proof.
  revert c t. induction fuel as [|fuel IH]; intros c t HR Hf; [lia|].
  destruct t as [|a l d r]; [by eexists|].
  assert (HRl : Rep st (plug (LeftF a d r :: c) l)) by done.
  assert (HRr : Rep st (plug (RightF a l d :: c) r)) by done.
  cbn [rb_descend tptr]. erewrite bind_ok by exact (get_data_spec _ _ _ _ _ _ HR).
  cbn [locate]. unfold key_gtb. change (rkey d) with (kot (_data d)). simpl in Hf.
  destruct (key_ltb (kot (_data d)) k) eqn:E1.
  - rewrite (key_asym _ _ E1). read HR. apply (IH _ _ HRr). lia.
  - destruct (key_ltb k (kot (_data d))); [read HR; apply (IH _ _ HRl); lia|]. by eexists.
Qed.

Lemma rb_link_new_ok st f c x :
  Rep st (plug (f :: c) Leaf) → frame_side rkey (kot x) f →
  ∃ st', rb_link_new x (cptr (f :: c)) st = Ok (Some (next_loc st), st') ∧
    Rep st' (plug (f :: c) (Node (next_loc st) Leaf (mkRb x RED) Leaf)).
Proof.
  intros HR Hf. destruct (attach_spec st f c (mkRb x RED) HR) as (st1 & st' & H1 & Hfr & H2 & HR').
  exists st'. split; [|done]. unfold rb_link_new. erewrite bind_ok by exact H1.
  assert (HR0 : Rep st (plug c (plug1 f Leaf))) by done.
  destruct f as [a d r|a l d]; simpl in *; pose proof (deref_spec _ _ _ _ _ _ HR0) as Hd;
    rewrite Hd in Hfr; unfold get_data; (erewrite bind_ok by
      (erewrite bind_ok by (eapply get_payload_ok, Hfr); reflexivity)); cbn [_payload];
    unfold after, before in Hf; unfold key_gtb; change (kot (_data d)) with (rkey d).
  - rewrite Hf. by erewrite bind_ok by exact H2.
  - rewrite (key_asym _ _ Hf). by erewrite bind_ok by exact H2.
Qed.

(** ** Correctness of insertion *)

(** [st] is a red-black search tree whose nodes and data, in order, are [es]. *)
Definition RbTree (st : state) (es : list (loc * T)) : Prop :=
  ∃ t n, Rep st t ∧ rb n t ∧ black t ∧ cells t = es ∧ sorted_keys ckey es.

Definition is_new {X : Type} (o : option X) : bool := match o with None => true | Some _ => false end.

Lemma sorted_cells t : sorted_keys ckey (cells t) ↔ sorted_keys rkey (inorder t).
Proof. by rewrite <- (sorted_keys_fmap kot snd), cells_data, sorted_keys_fmap. Qed.

Lemma cells_left_before c k : Forall (before rkey k) (cleft c) → Forall (before ckey k) (cells_left c).
Proof.
  intros Hb. change (before ckey k) with (before kot k ∘ @snd loc T). apply Forall_fmap.
  rewrite cells_left_data. by apply Forall_fmap.
Qed.
Lemma cells_right_after c k : Forall (after rkey k) (cright c) → Forall (after ckey k) (cells_right c).
Proof.
  intros Hb. change (after ckey k) with (after kot k ∘ @snd loc T). apply Forall_fmap.
  rewrite cells_right_data. by apply Forall_fmap.
Qed.
Lemma cells_before t k : Forall (before rkey k) (inorder t) → Forall (before ckey k) (cells t).
Proof.
  intros Hb. change (before ckey k) with (before kot k ∘ @snd loc T). apply Forall_fmap.
  rewrite cells_data. by apply Forall_fmap.
Qed.

Lemma first_rb_insert st x :
  Rep st Leaf →
  ∃ st', rb_insert x st = Ok (Some (next_loc st), true, st') ∧
    Rep st' (Node (next_loc st) Leaf (mkRb x BLACK) Leaf).
Proof.
  intros [Hroot _ _ Hdom _]. unfold rb_insert. do 2 (erewrite bind_ok by reflexivity).
  rewrite Hroot. cbn [tptr]. do 3 (erewrite bind_ok by reflexivity).
  unfold set_col, set_payload. cbn [_root].
  erewrite bind_ok by (mstep; acc).
  erewrite bind_ok by reflexivity. eexists. split; [reflexivity|]. split; simpl.
  - done.
  - apply NoDup_singleton.
  - by rewrite lookup_insert_eq.
  - intros l. rewrite !lookup_insert_is_Some', Hdom, list_elem_of_singleton.
    split; [intros [->|[->|H']]; [done|done|by apply not_elem_of_nil in H']|by left].
  - intros l ->%list_elem_of_singleton. lia.
Qed.

(** Insertion of a key that is absent, at the position the search ends in. *)
Lemma rb_insert_at st f c x n :
  Rep st (plug (f :: c) Leaf) → rbc n (f :: c) → n = 0 → frame_side rkey (kot x) f →
  ∃ st' t' N,
    (newnode ← rb_link_new x (cptr (f :: c)); fixup (fuel_of st) newnode (cptr (f :: c));;
     r ← get_root; set_col r BLACK;; mret (newnode, true)) st = Ok (Some (next_loc st), true, st') ∧
    Rep st' t' ∧ rb N t' ∧ black t' ∧
    cells t' = cells_left (f :: c) ++ (next_loc st, x) :: cells_right (f :: c).
Proof.
  intros HR Hc -> Hf. destruct (rb_link_new_ok _ _ _ x HR Hf) as (st1 & H1 & HR1).
  erewrite bind_ok by exact H1.
  destruct (fixup_spec (fuel_of st) 0 _ _ _ _ _ _ HR1) as (st2 & t2 & N & H2 & HR2 & HN & Hcells).
  - done.
  - by simpl.
  - done.
  - pose proof (Rep_size _ _ HR) as Hsz. rewrite labels_plug in Hsz.
    pose proof (length_clabels (f :: c)). unfold fuel_of. simpl in *. lia.
  - erewrite bind_ok by exact H2. erewrite bind_ok by reflexivity. rewrite (Rep_root _ _ HR2).
    rewrite cells_plug in Hcells.
    destruct (blacken_root _ _ _ HR2 HN) as (st' & t' & N' & H3 & HR' & HN' & Hb & Hcells').
    { intros ->. by destruct (cells_left (f :: c)). }
    erewrite bind_ok by exact H3. exists st', t', N'. split; [done|].
    split; [done|]. split; [done|]. split; [done|]. by rewrite Hcells', Hcells.
Qed.

Lemma rb_insert_Rep st t n x :
  Rep st t → rb n t → black t → sorted_keys ckey (cells t) →
  ∃ st' t' n' p d, rb_insert x st = Ok (Some p, is_new (find_key ckey (kot x) (cells t)), st') ∧
    Rep st' t' ∧ rb n' t' ∧ black t' ∧ cells t' = ins ckey (next_loc st, x) (cells t) ∧
    find_key ckey (kot x) (cells t') = Some (p, d).
Proof.
  intros HR Hn Hbl Hs. destruct (tptr t) as [r0|] eqn:Et.
  2: { destruct t; [|done]. destruct (first_rb_insert st x HR) as (st' & He & HR'). exists st'.
    eexists _, 1, _, _. split; [exact He|]. split; [exact HR'|]. do 2 (split; [done|]).
    split; [done|]. cbn. by rewrite key_irrefl. }
  unfold rb_insert. do 2 (erewrite bind_ok by reflexivity).
  rewrite (Rep_root _ _ HR), Et, <- Et. apply sorted_cells in Hs.
  pose proof (Rep_size _ _ HR) as Hsz. pose proof (height_labels t).
  destruct (rb_descend_spec (fuel_of st) _ (kot x) [] t HR) as (p & Hd & Hp); [unfold fuel_of; lia|].
  erewrite bind_ok by exact Hd. clear Hd.
  destruct ((locate rkey (kot x) [] t).2) as [|a l d r] eqn:El; cbn [fst snd tptr].
  - destruct (locate_absent rkey _ _ Hs El) as (Hpl & Hside & Hb%cells_left_before & Ha%cells_right_after).
    rewrite Hp by done. set (c := (locate rkey (kot x) [] t).1) in *. clear El Hp.
    assert (Hi : cells t = cells_left c ++ cells_right c) by (by rewrite <- Hpl, cells_plug).
    rewrite Hi, (find_key_absent ckey _ _ _ Hb Ha), (ins_app ckey (next_loc st, x) _ _ Hb Ha).
    rewrite <- Hpl in HR, Hn, Hbl. destruct (rb_unplug _ _ _ Hn Hbl) as (m & Hm & Hc & _).
    destruct c as [|f c]; [by subst t|]. apply Forall_cons in Hside as [Hf _].
    destruct (rb_insert_at _ _ _ x m HR Hc Hm Hf) as (st' & t' & N & H1 & HR' & HN & Hb' & Hcells).
    exists st', t', N, (next_loc st), x. split; [exact H1|]. do 4 (split; [done|]).
    rewrite Hcells. by apply (find_key_present ckey).
  - destruct (locate_present rkey _ _ _ _ _ _ Hs El) as (Hpl & Hk & [Hb1 Hb2]%Forall_app).
    set (c := (locate rkey (kot x) [] t).1) in *.
    assert (Hb : Forall (before ckey (kot x)) (cells_left c ++ cells l))
      by (apply Forall_app; split; [by apply cells_left_before|by apply cells_before]).
    assert (Hi : cells t = (cells_left c ++ cells l) ++ (a, _data d) :: cells r ++ cells_right c).
    { rewrite <- Hpl, cells_plug. simpl. by rewrite <- !app_assoc. }
    exists st, t, n, a, (_data d). rewrite Hi, (find_key_present ckey _ _ (a, _data d) _ Hb Hk).
    rewrite (ins_present ckey (next_loc st, x) _ (a, _data d) _ Hb Hk).
    split; [done|]. split; [done|]. split; [done|]. split; [done|]. split; [reflexivity|].
    done.
Qed.

(** C2: [RBTree::insert] refines insertion into a sorted map of nodes: it never
    fails (the [assert(false)] of the repair loop is unreachable), reports
    whether the key was absent, keeps the red-black invariant, leaves every
    other node where it was, and returns an iterator to the entry with that
    key. *)
Theorem rb_insert_refines st es x :
  RbTree st es →
  ∃ st' p d, rb_insert x st = Ok (Some p, is_new (find_key ckey (kot x) es), st') ∧
    RbTree st' (ins ckey (next_loc st, x) es) ∧
    find_key ckey (kot x) (ins ckey (next_loc st, x) es) = Some (p, d).
Proof.
  intros (t & n & HR & Hn & Hb & <- & Hs).
  destruct (rb_insert_Rep st t n x HR Hn Hb Hs)
    as (st' & t' & n' & p & d & He & HR' & Hn' & Hb' & Hcells & Hf).
  exists st', p, d. split; [done|]. rewrite <- Hcells. split; [|done].
  exists t', n'. do 4 (split; [done|]). rewrite Hcells. by apply sorted_ins.
Qed.

(** A sequence of insertions. *)
Fixpoint rb_insert_all (xs : list T) : M state () :=
  match xs with [] => mret () | x :: xs => rb_insert x;; rb_insert_all xs end.

Lemma RbTree_empty : RbTree empty_tree [].
Proof. exists Leaf, 0. split; [apply Rep_empty|]. repeat split. constructor. Qed.

Lemma RbTree_insert st es x :
  RbTree st es → ∃ st' pb, rb_insert x st = Ok (pb, st') ∧ RbTree st' (ins ckey (next_loc st, x) es).
Proof.
  intros (t & n & HR & Hn & Hb & <- & Hs).
  destruct (rb_insert_Rep st t n x HR Hn Hb Hs)
    as (st' & t' & n' & p & d & He & HR' & Hn' & Hb' & Hcells & _).
  eexists st', _. split; [exact He|]. exists t', n'. do 4 (split; [done|]). by apply sorted_ins.
Qed.

Lemma rb_insert_all_ok st es xs :
  RbTree st es →
  ∃ st' es', rb_insert_all xs st = Ok ((), st') ∧ RbTree st' es' ∧
    es'.*2 = foldl (λ acc x, ins kot x acc) es.*2 xs.
Proof.
  revert st es. induction xs as [|x xs IH]; intros st es HT; [by exists st, es|].
  destruct (RbTree_insert st es x HT) as (st1 & pb & H1 & HT1).
  destruct (IH _ _ HT1) as (st' & es' & H2 & HT' & Hes).
  exists st', es'. simpl. erewrite bind_ok by exact H1. split; [done|]. split; [done|].
  rewrite Hes. by rewrite <- (ins_fmap kot snd (next_loc st, x)).
Qed.

(** ** The checker *)
Fixpoint spine_blacks (t : tree rbd) : nat :=
  match t with
  | Leaf => 0
  | Node _ l d _ => (if decide (_col d = BLACK) then 1 else 0) + spine_blacks l
  end.

Lemma rb_spine n t : rb n t → spine_blacks t = n.
Proof.
  revert n. induction t as [|a l IHl d r IHr]; intros n; simpl; [done|].
  destruct (_col d); simpl.
  - intros (Hl & _). auto.
  - destruct n; [done|]. intros [Hl _]. f_equal. auto.
Qed.

Lemma left_blacks_spec fuel st c t ref :
  Rep st (plug c t) → height t < fuel →
  left_blacks fuel (tptr t) ref st = Ok (ref + Z.of_nat (spine_blacks t), st)%Z.
Proof.
  revert c t ref. induction fuel as [|fuel IH]; intros c t ref HR Hf; [lia|].
  destruct t as [|a l d r]; [by simpl; rewrite Z.add_0_r|]. simpl in Hf. cbn [left_blacks tptr].
  assert (HRl : Rep st (plug (LeftF a d r :: c) l)) by done.
  erewrite bind_ok by exact (get_col_spec _ _ _ _ _ _ HR). read HR.
  rewrite (IH _ _ _ HRl) by lia. cbn [spine_blacks].
  destruct (decide (_col d = BLACK)); do 2 f_equal; lia.
Qed.

(** What [check(root, BlackNum, ref)] decides about the subtree [t] below [c]. *)
Definition check_ok (c : list (frame rbd)) (t : tree rbd) (BlackNum ref : Z) : Prop :=
  ∃ n, ref = (BlackNum + Z.of_nat n)%Z ∧ rb n t ∧ (black t ∨ under_black c).

Lemma check_ok_red c a l d r (B ref : Z) :
  _col d = RED → under_black c →
  check_ok c (Node a l d r) B ref ↔
    check_ok (LeftF a d r :: c) l B ref ∧ check_ok (RightF a l d :: c) r B ref.
Proof.
  intros Hd Hu. unfold check_ok, under_black. simpl. rewrite Hd. split.
  - intros (n & ? & (? & ? & ? & ?) & _). split; exists n; auto.
  - intros [(n & -> & ? & [?|?]) (m & Hm & ? & [?|?])]; try done.
    assert (m = n) as -> by lia. exists n. auto 10.
Qed.
Lemma check_ok_black c a l d r (B ref : Z) :
  _col d = BLACK →
  check_ok c (Node a l d r) B ref ↔
    check_ok (LeftF a d r :: c) l (B + 1) ref ∧ check_ok (RightF a l d :: c) r (B + 1) ref.
Proof.
  intros Hd. unfold check_ok. simpl. rewrite Hd. split.
  - intros (n & -> & Hn & _). destruct n as [|n]; [done|]. destruct Hn.
    split; exists n; (split; [lia|auto]).
  - intros [(n & -> & ? & _) (m & Hm & ? & _)].
    assert (m = n) as -> by lia. exists (S n). split; [lia|auto].
Qed.

Lemma check_spec fuel st c t (B ref : Z) :
  Rep st (plug c t) → height t < fuel → (c = [] → black t) →
  ∃ b, check fuel (tptr t) B ref st = Ok (b, st) ∧ (b = true ↔ check_ok c t B ref).
Proof.
  revert c t B. induction fuel as [|fuel IH]; intros c t B HR Hf Hroot; [lia|].
  destruct t as [|a l d r].
  { eexists. split; [reflexivity|]. rewrite Z.eqb_eq. unfold check_ok. simpl.
    split; [intros ->; exists 0; split; [lia|auto]|]. intros (n & -> & -> & _). lia. }
  simpl in Hf. cbn [check tptr].
  destruct (IH (LeftF a d r :: c) l (if decide (_col d = BLACK) then B + 1 else B)%Z)
    as (bl & Hl & Hbl); [done|lia|done|].
  destruct (IH (RightF a l d :: c) r (if decide (_col d = BLACK) then B + 1 else B)%Z)
    as (br & Hr & Hbr); [done|lia|done|].
  erewrite bind_ok by exact (get_col_spec _ _ _ _ _ _ HR).
  destruct (_col d) eqn:Ed; cbn [decide decide_rel Color_eq_dec] in *; simpl in *.
  - destruct c as [|f c]; [specialize (Hroot eq_refl); congruence|].
    assert (Hpc : (p ← get_parent (Some a); pc ← get_col p; mret (bool_decide (pc = RED))) st
                  = Ok (bool_decide (_col (frame_data f) = RED), st)).
    { read HR. exact (is_red_frame st c f _ HR). }
    erewrite bind_ok by exact Hpc. destruct (_col (frame_data f)) eqn:Ef; simpl.
    + exists false. split; [done|]. split; [done|]. intros (n & _ & _ & [Hb|Hb]); simpl in Hb; congruence.
    + pose proof (check_ok_red (f :: c) a l d r B ref Ed Ef) as Hck. read HR. erewrite bind_ok by exact Hl. destruct bl.
      * read HR. exists br. tauto.
      * exists false. split; [done|]. split; [done|]. tauto.
  - pose proof (check_ok_black c a l d r B ref Ed) as Hck. erewrite bind_ok by reflexivity.
    cbv beta iota zeta. read HR. erewrite bind_ok by exact Hl. destruct bl.
    + read HR. exists br. tauto.
    + exists false. split; [done|]. split; [done|]. tauto.
Qed.

Lemma IsRBTree_Rep st t :
  Rep st t → ∃ b, IsRBTree st = Ok (b, st) ∧ (b = true ↔ black t ∧ ∃ n, rb n t).
Proof.
  intros HR. unfold IsRBTree. do 2 (erewrite bind_ok by reflexivity).
  rewrite (Rep_root _ _ HR). destruct t as [|a l d r].
  { exists true. split; [done|]. split; [|done]. intros _. split; [done|]. by exists 0. }
  assert (Hf : height (Node a l d r) < fuel_of st).
  { unfold fuel_of. rewrite (Rep_size _ _ HR). pose proof (height_labels (Node a l d r)). lia. }
  cbn [tptr]. erewrite bind_ok by exact (get_col_spec st [] _ _ _ _ HR).
  destruct (decide (_col d = RED)) as [Ed|Ed].
  - exists false. split; [done|]. split; [done|]. simpl. intros [Hb _]. congruence.
  - erewrite bind_ok by exact (left_blacks_spec _ st [] (Node a l d r) 0 HR Hf).
    destruct (check_spec (fuel_of st) st [] (Node a l d r) 0
      (0 + Z.of_nat (spine_blacks (Node a l d r))) HR Hf) as (b & Hb & Hok);
      [intros _; simpl; by destruct (_col d)|].
    exists b. split; [exact Hb|]. rewrite Hok. unfold check_ok. split.
    + intros (n & _ & Hn & [Hb'|Hb']); [|done]. eauto.
    + intros [Hbl [n Hn]]. exists n. rewrite (rb_spine _ _ Hn). auto.
Qed.

(** [IsRBTree()] terminates, changes nothing, and answers [true] exactly
    when the root is black, no red node has a red child, and all paths hold the
    same number of black nodes. *)
Theorem IsRBTree_decides st t :
  Rep st t → ∃ b, IsRBTree st = Ok (b, st) ∧ (b = true ↔ black t ∧ ∃ n, rb n t).
Proof. apply IsRBTree_Rep. Qed.

(** ** Iterators *)
Lemma head_app_cons {X} (xs : list X) y ys zs :
  head ((xs ++ y :: ys) ++ zs) = head (xs ++ y :: ys).
Proof. by destruct xs. Qed.

Lemma leftmost_spec fuel st c t :
  Rep st (plug c t) → height t < fuel →
  leftmost fuel (tptr t) st = Ok (fst <$> head (cells t), st).
Proof.
  revert c t. induction fuel as [|fuel IH]; intros c t HR Hf; [lia|].
  destruct t as [|a l d r]; [done|]. simpl in Hf. cbn [leftmost tptr]. read HR.
  destruct l as [|b ll ld lr]; [done|].
  etrans; [apply (IH (LeftF a d r :: c) (Node b ll ld lr)); done || lia|].
  cbn [cells]. by rewrite head_app_cons.
Qed.

Lemma rightmost_spec fuel st c t :
  Rep st (plug c t) → height t < fuel →
  rightmost fuel (tptr t) st = Ok (fst <$> last (cells t), st).
Proof.
  revert c t. induction fuel as [|fuel IH]; intros c t HR Hf; [lia|].
  destruct t as [|a l d r]; [done|]. simpl in Hf. cbn [rightmost tptr]. read HR.
  destruct r as [|b rl rd rr]; [by cbn; rewrite last_snoc|].
  etrans; [apply (IH (RightF a l d :: c) (Node b rl rd rr)); done || lia|].
  cbn [cells]. by rewrite !last_app, !last_cons, !last_app, !last_cons; destruct (last (cells rr)).
Qed.

Lemma climb_right_spec fuel st c a l d r :
  Rep st (plug c (Node a l d r)) → length c < fuel →
  climb_right fuel (Some a) (cptr c) st = Ok (fst <$> head (cells_right c), st).
Proof.
  revert c a l d r. induction fuel as [|fuel IH]; intros c a l d r HR Hf; [lia|].
  destruct c as [|[x dx R|x L dx] c]; [done|..]; simpl in Hf; cbn [climb_right cptr frame_loc].
  - assert (HRx : Rep st (plug c (Node x (Node a l d r) dx R))) by done. read HRx.
    by rewrite decide_False by exact (sibling_ne' _ _ _ _ _ _ _ _ _ HR).
  - assert (HRx : Rep st (plug c (Node x L dx (Node a l d r)))) by done. read HRx.
    rewrite decide_True by done. read HRx. read HR. cbn [cptr frame_loc].
    rewrite (IH _ _ _ _ _ HRx) by lia. done.
Qed.

Lemma climb_left_spec fuel st c a l d r :
  Rep st (plug c (Node a l d r)) → length c < fuel →
  climb_left fuel (Some a) (cptr c) st = Ok (fst <$> last (cells_left c), st).
Proof.
  revert c a l d r. induction fuel as [|fuel IH]; intros c a l d r HR Hf; [lia|].
  destruct c as [|[x dx R|x L dx] c]; [done|..]; simpl in Hf; cbn [climb_left cptr frame_loc].
  - assert (HRx : Rep st (plug c (Node x (Node a l d r) dx R))) by done. read HRx.
    rewrite decide_True by done. read HRx. read HR. cbn [cptr frame_loc].
    rewrite (IH _ _ _ _ _ HRx) by lia. done.
  - assert (HRx : Rep st (plug c (Node x L dx (Node a l d r)))) by done. read HRx.
    rewrite decide_False by exact (sibling_ne _ _ _ _ _ _ _ _ _ HR).
    cbn [cells_left]. by rewrite app_assoc, last_snoc.
Qed.

(** A node of a tree is the focus of a context. *)
Lemma focus t a x pre post :
  cells t = pre ++ (a, x) :: post → NoDup (labels t) →
  ∃ c l d r, t = plug c (Node a l d r) ∧ x = _data d ∧
    pre = cells_left c ++ cells l ∧ post = cells r ++ cells_right c.
Proof.
  intros Ht Hnd.
  assert (∃ c l d r, t = plug c (Node a l d r)) as (c & l & d & r & ->).
  { clear Hnd. assert (Hin : a ∈ labels t) by (rewrite <- cells_labels, Ht, fmap_app, fmap_cons; apply elem_of_app; right; by left). clear Ht.
    change t with (plug (P:=rbd) [] t). generalize (@nil (frame rbd)).
    induction t as [|b l IHl d r IHr]; intros c; [by apply not_elem_of_nil in Hin|].
    simpl in Hin. rewrite elem_of_app, elem_of_cons in Hin. destruct Hin as [Hin|[->|Hin]].
    - destruct (IHl Hin (LeftF b d r :: c)) as (c' & l' & d' & r' & E). eauto.
    - eauto.
    - destruct (IHr Hin (RightF b l d :: c)) as (c' & l' & d' & r' & E). eauto. }
  exists c, l, d, r. split; [done|].
  assert (Ht' := Ht). rewrite cells_plug in Ht'. cbn [cells] in Ht'.
  rewrite <- app_assoc, app_assoc in Ht'. cbn [app] in Ht'.
  rewrite <- cells_labels, Ht, fmap_app, fmap_cons in Hnd. cbn [fst] in Hnd.
  apply (f_equal (fmap fst)) in Ht' as Hl. rewrite !fmap_app, !fmap_cons in Hl. cbn [fst] in Hl.
  assert (length ((cells_left c ++ cells l).*1) = length pre.*1) as Hlen.
  { apply (NoDup_lookup (pre.*1 ++ a :: post.*1) _ _ a); [done|..].
    - rewrite <- Hl. rewrite <- fmap_app. by apply list_lookup_middle.
    - by apply list_lookup_middle. }
  rewrite !length_fmap in Hlen. apply app_inj_1 in Ht' as [-> [= ->]]; [|done]. done.
Qed.

Lemma fuel_bounds st c a l d r :
  Rep st (plug c (Node a l d r)) →
  length c < fuel_of st ∧ height l < fuel_of st ∧ height r < fuel_of st.
Proof.
  intros HR%Rep_size. rewrite labels_plug in HR. simpl in HR. rewrite !length_app in HR. simpl in HR.
  pose proof (length_clabels c). pose proof (height_labels l). pose proof (height_labels r).
  unfold fuel_of. lia.
Qed.

Lemma iter_next_cells st t pre a x post :
  Rep st t → cells t = pre ++ (a, x) :: post →
  iter_next (Some a) st = Ok (fst <$> head post, st).
Proof.
  intros HR Ht. destruct (focus _ _ _ _ _ Ht (Rep_nodup _ _ HR)) as (c & l & d & r & -> & -> & -> & ->).
  destruct (fuel_bounds _ _ _ _ _ _ HR) as (H1 & H2 & H3).
  unfold iter_next. erewrite bind_ok by reflexivity. read HR.
  destruct r as [|b rl rd rr].
  - cbn [tptr]. read HR. by rewrite (climb_right_spec _ _ _ _ _ _ _ HR).
  - etrans; [apply (leftmost_spec _ st (RightF a l d :: c) (Node b rl rd rr)); done || lia|].
    cbn [cells]. by rewrite head_app_cons.
Qed.

Lemma iter_prev_cells st t pre a x post :
  Rep st t → cells t = pre ++ (a, x) :: post →
  iter_prev (Some a) st = Ok (fst <$> last pre, st).
Proof.
  intros HR Ht. destruct (focus _ _ _ _ _ Ht (Rep_nodup _ _ HR)) as (c & l & d & r & -> & -> & -> & ->).
  destruct (fuel_bounds _ _ _ _ _ _ HR) as (H1 & H2 & H3).
  unfold iter_prev. erewrite bind_ok by reflexivity. read HR.
  destruct l as [|b ll ld lr].
  - cbn [tptr]. read HR. rewrite (climb_left_spec _ _ _ _ _ _ _ HR) by done. by rewrite app_nil_r.
  - etrans; [apply (rightmost_spec _ st (LeftF a d r :: c) (Node b ll ld lr)); done || lia|].
    cbn [cells]. by rewrite !last_app, !last_cons; destruct (last (cells lr)).
Qed.

Lemma get_data_cells st t pre a x post :
  Rep st t → cells t = pre ++ (a, x) :: post → get_data (Some a) st = Ok (x, st).
Proof.
  intros HR Ht. destruct (focus _ _ _ _ _ Ht (Rep_nodup _ _ HR)) as (c & l & d & r & -> & -> & _).
  exact (get_data_spec _ _ _ _ _ _ HR).
Qed.

Lemma traverse_next fuel st t pre post :
  Rep st t → cells t = pre ++ post → length post < fuel →
  traverse iter_next fuel (fst <$> head post) st = Ok (post.*2, st).
Proof.
  revert pre post. induction fuel as [|fuel IH]; intros pre post HR Ht Hf; [lia|].
  destruct post as [|[a x] post]; [done|]. cbn [head fmap option_fmap option_map fst traverse].
  erewrite bind_ok by exact (get_data_cells _ _ _ _ _ _ HR Ht).
  erewrite bind_ok by exact (iter_next_cells _ _ _ _ _ _ HR Ht).
  simpl in Hf. erewrite bind_ok by (apply (IH (pre ++ [(a, x)])); [done|by rewrite <- app_assoc|lia]).
  done.
Qed.

Lemma traverse_rnext fuel st t pre post :
  Rep st t → cells t = pre ++ post → length pre < fuel →
  traverse riter_next fuel (fst <$> last pre) st = Ok (reverse pre.*2, st).
Proof.
  revert pre post. induction fuel as [|fuel IH]; intros pre post HR Ht Hf; [lia|].
  destruct pre as [|[a x] pre _] using rev_ind; [done|].
  rewrite last_snoc, fmap_app. rewrite length_app in Hf. simpl in Hf.
  rewrite <- app_assoc in Ht. cbn [fmap option_fmap option_map fst traverse].
  erewrite bind_ok by exact (get_data_cells _ _ _ _ _ _ HR Ht).
  erewrite bind_ok by exact (iter_prev_cells _ _ _ _ _ _ HR Ht).
  erewrite bind_ok by (apply (IH pre _ HR Ht); lia). cbn [list_fmap fmap snd].
  by rewrite reverse_snoc.
Qed.

Lemma iterate_cells st t :
  Rep st t → iterate st = Ok ((cells t).*2, st) ∧ riterate st = Ok (reverse (cells t).*2, st).
Proof.
  intros HR. assert (height t < fuel_of st ∧ length (cells t) < fuel_of st) as [Hh Hl].
  { unfold fuel_of. rewrite (Rep_size _ _ HR), <- (length_fmap fst (cells t)), cells_labels.
    pose proof (height_labels t). lia. }
  unfold iterate, riterate. split; erewrite bind_ok by reflexivity.
  - erewrite bind_ok by (unfold rb_begin; do 2 (erewrite bind_ok by reflexivity);
      rewrite (Rep_root _ _ HR); exact (leftmost_spec _ _ [] _ HR Hh)).
    by apply (traverse_next _ _ _ [] _ HR).
  - erewrite bind_ok by (unfold rb_rbegin; do 2 (erewrite bind_ok by reflexivity);
      rewrite (Rep_root _ _ HR); exact (rightmost_spec _ _ [] _ HR Hh)).
    apply (traverse_rnext _ _ t _ []); [done|by rewrite app_nil_r|done].
Qed.

(** A [begin()]..[end()] loop visits the entries in key order, each once, and
    a [rbegin()]..[rend()] loop visits them in the opposite order. *)
Theorem iteration_in_order st es :
  RbTree st es →
  iterate st = Ok (es.*2, st) ∧ riterate st = Ok (reverse es.*2, st) ∧ sorted_keys kot es.*2.
Proof.
  intros (t & n & HR & _ & _ & <- & Hs). destruct (iterate_cells st t HR) as [H1 H2].
  split; [done|]. split; [done|]. by apply sorted_keys_fmap.
Qed.

(** [++] and [--] are inverse to each other between two neighbouring
    entries, [++] of the last entry is [end()], and [--] of the first is
    [end()] too. *)
Theorem iterators_inverse st es pre a x post :
  RbTree st es → es = pre ++ (a, x) :: post →
  iter_next (Some a) st = Ok (fst <$> head post, st) ∧
  iter_prev (Some a) st = Ok (fst <$> last pre, st) ∧
  (∀ b y post', post = (b, y) :: post' → iter_prev (Some b) st = Ok (Some a, st)).
Proof.
  intros (t & n & HR & _ & _ & Ht & _) ->.
  split; [exact (iter_next_cells _ _ _ _ _ _ HR Ht)|].
  split; [exact (iter_prev_cells _ _ _ _ _ _ HR Ht)|].
  intros b y post' ->. rewrite (iter_prev_cells _ t (pre ++ [(a, x)]) b y post' HR).
  - by rewrite last_snoc.
  - by rewrite Ht, <- app_assoc.
Qed.

(** Whatever is inserted into an empty tree, and in whatever order, the
    insertions succeed, the result passes [IsRBTree()], and a loop over it
    yields each key once, in key order, with the datum inserted first. *)
Theorem rb_insert_all_iterates xs :
  ∃ st, rb_insert_all xs empty_tree = Ok ((), st) ∧
    IsRBTree st = Ok (true, st) ∧
    iterate st = Ok (foldl (λ acc x, ins kot x acc) [] xs, st).
Proof.
  destruct (rb_insert_all_ok _ _ xs RbTree_empty) as (st & es & He & (t & n & HR & Hn & Hb & <- & Hs) & Hes).
  exists st. split; [done|]. destruct (IsRBTree_Rep _ _ HR) as (b & Hc & Hbt).
  assert (b = true) as -> by (apply Hbt; eauto). split; [done|].
  destruct (iterate_cells _ _ HR) as [Hi _]. by rewrite Hi, Hes.
Qed.

End RB.

(** ** Witnesses *)
Lemma rb_insert_refines_witness :
  ∃ (st st' : tstate (rb_data Z)) es p d,
    rb_insert_all id [2; 1; 3]%Z empty_tree = Ok ((), st) ∧
    rb_insert id 4%Z st = Ok (Some p, is_new (find_key (id ∘ snd) 4%Z es), st') ∧
    find_key (id ∘ snd) 4%Z (ins (id ∘ snd) (next_loc st, 4%Z) es) = Some (p, d).
Proof.
  destruct (rb_insert_all_ok id empty_tree [] [2; 1; 3]%Z (RbTree_empty id)) as (st & es & He & HT & _).
  destruct (rb_insert_refines id st es 4%Z HT) as (st' & p & d & H1 & _ & H3).
  exists st, st', es, p, d. split; [exact He|]. split; [exact H1|exact H3].
Defined.

Lemma IsRBTree_decides_witness :
  ∃ (st : tstate (rb_data Z)) (t : tree (rb_data Z)) b,
    rb_insert_all id [2; 1; 3; 5]%Z empty_tree = Ok ((), st) ∧
    IsRBTree st = Ok (b, st) ∧ (b = true ↔ black t ∧ ∃ n, rb n t).
Proof.
  destruct (rb_insert_all_ok id empty_tree [] [2; 1; 3; 5]%Z (RbTree_empty id))
    as (st & es & He & (t & n & HR & _) & _).
  destruct (IsRBTree_decides st t HR) as (b & H1 & H2). exists st, t, b. auto.
Defined.

Lemma iteration_in_order_witness :
  ∃ st : tstate (rb_data Z),
    rb_insert_all id [2; 1; 3; 5]%Z empty_tree = Ok ((), st) ∧
    iterate st = Ok ([1; 2; 3; 5]%Z, st) ∧ riterate st = Ok ([5; 3; 2; 1]%Z, st).
Proof.
  destruct (rb_insert_all_ok id empty_tree [] [2; 1; 3; 5]%Z (RbTree_empty id)) as (st & es & He & HT & Hes).
  destruct (iteration_in_order id st es HT) as (H1 & H2 & _).
  exists st. rewrite H1, H2, Hes. split; [exact He|]. split; reflexivity.
Defined.

Lemma iterators_inverse_witness :
  ∃ (st : tstate (rb_data Z)) a,
    rb_insert_all id [2]%Z empty_tree = Ok ((), st) ∧
    iter_next (Some a) st = Ok (None, st) ∧ iter_prev (Some a) st = Ok (None, st).
Proof.
  destruct (rb_insert_all_ok id empty_tree [] [2]%Z (RbTree_empty id)) as (st & es & He & HT & Hes).
  destruct es as [|[a x] [|]]; [done| |done].
  destruct (iterators_inverse id st _ [] a x [] HT eq_refl) as (H1 & H2 & _).
  exists st, a. split; [exact He|]. split; [exact H1|exact H2].
Defined.
