(* ===== verification/OrdContainers.v ===== *)
(** * The ordered containers of src/Algorithm/Map.hpp and Set.hpp

    [zhc::map] and [zhc::set] wrap the red-black tree.  The functor
    [map::mapKeyOft] returns the key as a [const V&], so the class is usable
    only where the mapped type is the key type: [Map] below is that instance. *)

From S2P Require Import Prelude SortedKeys HeapTree HeapFocus RBTree.

(** ** Writing through an iterator *)
Section Assign.
Context {K T : Type} `{KeyOrder K} (kot : T → K).
Abbreviation state := (tstate (rb_data T)).
Abbreviation ckey := (kot ∘ @snd loc T).

(** [*it = x] *)
Definition set_data (p : ptr) (x : T) : M state () :=
  d ← get_payload p; set_payload p (mkRb x (_col d)).

Lemma rb_plug_data n c (a : loc) l d (x : T) r :
  rb n (plug c (Node a l d r)) → rb n (plug c (Node a l (mkRb x (_col d)) r)).
Proof.
  assert (Hgen : ∀ (c : list (frame (rb_data T))) t1 t2, (∀ m, rb m t1 → rb m t2) → (black t1 → black t2) →
            rb n (plug c t1) → rb n (plug c t2)).
  { clear c. induction c as [|f c IH]; intros t1 t2 Hrb Hbl; simpl; [apply Hrb|].
    apply IH; [intros m; rewrite !rb_plug1|by rewrite !black_plug1].
    destruct (_col (frame_data f)); [intros (? & ? & ? & ?); auto|]. intros (k & -> & ? & ?). eauto. }
  by apply Hgen.
Qed.

Lemma black_plug_data c (a : loc) l d (x : T) r :
  black (plug c (Node a l d r)) → black (plug c (Node a l (mkRb x (_col d)) r)).
Proof.
  destruct c as [|f c]; [done|]. cbn [plug].
  assert (Hgen : ∀ (c : list (frame (rb_data T))) t1 t2, (black t1 → black t2) → black (plug c t1) → black (plug c t2)).
  { clear c f. induction c as [|f c IH]; intros t1 t2 Hb; simpl; [done|].
    apply IH. by rewrite !black_plug1. }
  apply Hgen. by rewrite !black_plug1.
Qed.

Lemma sorted_replace (pre post : list (loc * T)) a x y :
  kot x = kot y →
  sorted_keys ckey (pre ++ (a, x) :: post) → sorted_keys ckey (pre ++ (a, y) :: post).
Proof.
  intros Hk Hs. apply (sorted_keys_fmap kot snd). apply (sorted_keys_fmap kot snd) in Hs.
  apply (sorted_keys_fmap id kot). apply (sorted_keys_fmap id kot) in Hs.
  rewrite !fmap_app, !fmap_cons in *. cbn [snd] in *. by rewrite <- Hk.
Qed.

Lemma set_data_spec st pre a x post y :
  RbTree kot st (pre ++ (a, x) :: post) → kot x = kot y →
  ∃ st', set_data (Some a) y st = Ok ((), st') ∧ RbTree kot st' (pre ++ (a, y) :: post).
Proof.
  intros (t & n & HR & Hn & Hb & Ht & Hs) Hk.
  destruct (focus _ _ _ _ _ Ht (Rep_nodup _ _ HR)) as (c & l & d & r & -> & -> & -> & ->).
  destruct (set_payload_spec _ _ _ _ _ _ (mkRb y (_col d)) HR) as (st' & He & HR').
  exists st'. split.
  { unfold set_data. pose proof (deref_spec _ _ _ _ _ _ HR) as Hd.
    by erewrite bind_ok by (by eapply get_payload_ok). }
  exists (plug c (Node a l (mkRb y (_col d)) r)), n. split; [done|].
  split; [by apply rb_plug_data|]. split; [by apply black_plug_data|].
  split; [rewrite cells_plug; cbn [cells]; by rewrite <- !app_assoc|].
  by apply (sorted_replace _ _ _ (_data d)).
Qed.

(** The entry an insertion returns, with its neighbours. *)
Lemma insert_entry st es x :
  RbTree kot st es →
  ∃ st' p d pre post, rb_insert kot x st = Ok (Some p, is_new (find_key ckey (kot x) es), st') ∧
    RbTree kot st' (pre ++ (p, d) :: post) ∧ kot d = kot x ∧
    ins ckey (next_loc st, x) es = pre ++ (p, d) :: post ∧
    find_key ckey (kot x) (pre ++ (p, d) :: post) = Some (p, d).
Proof.
  intros (t & n & HR & Hn & Hb & <- & Hs).
  destruct (rb_insert_Rep kot st t n x HR Hn Hb Hs)
    as (st' & t' & n' & p & d & He & HR' & Hn' & Hb' & Hcells & Hf).
  assert (∃ pre post, cells t' = pre ++ (p, d) :: post ∧ kot d = kot x) as (pre & post & Hpp & Hk).
  { clear -Hf. induction (cells t') as [|e es IH]; [done|]. cbn [find_key] in Hf.
    destruct (key_ltb (ckey e) (kot x)) eqn:E1.
    - destruct (IH Hf) as (pre & post & -> & Hk). by exists (e :: pre), post.
    - destruct (key_ltb (kot x) (ckey e)) eqn:E2; [done|]. simplify_eq.
      exists [], es. split; [done|]. exact (key_total _ _ E1 E2). }
  exists st', p, d, pre, post. split; [done|]. rewrite <- Hpp. split; [|done].
  exists t', n'. do 4 (split; [done|]). rewrite Hcells. by apply sorted_ins.
Qed.

End Assign.

(** Keys are equal when neither is less. *)
Definition key_eq_dec `{KeyOrder K} : EqDecision K.
Proof.
  intros k1 k2. destruct (key_ltb k1 k2) eqn:E1.
  { right. intros ->. by rewrite key_irrefl in E1. }
  destruct (key_ltb k2 k1) eqn:E2; [|left; by apply key_total].
  right. intros ->. by rewrite key_irrefl in E2.
Defined.

(** ** [zhc::set] *)
Module Set_.
Section Set_.
Context {K : Type} `{KeyOrder K}.
Abbreviation state := (tstate (rb_data K)).
#[local] Existing Instance key_eq_dec.

Definition setKeyOFt (k : K) : K := k.
Definition set_insert (key : K) : M state (ptr * bool) := rb_insert setKeyOFt key.
Definition set_begin : M state ptr := rb_begin.
Definition set_end : ptr := rb_end.
Definition set_rbegin : M state ptr := rb_rbegin.
Definition set_rend : ptr := rb_rend.
(** [rend()const] calls [_t.rbegin()]. *)
Definition set_rend_const : M state ptr := rb_rbegin.

(** [for(it=first; it!=last; ++it)], as in a loop over a container. *)
Fixpoint loop (next : ptr → M state ptr) (fuel : nat) (it last : ptr) : M state (list K) :=
  match fuel with
  | 0 => fail OutOfFuel
  | S fuel =>
      if decide (it = last) then mret []
      else d ← get_data it; it' ← next it; ds ← loop next fuel it' last; mret (d :: ds)
  end.
Definition reverse_loop_const : M state (list K) :=
  fuel ← gets fuel_of; b ← set_rbegin; e ← set_rend_const; loop riter_next fuel b e.
Definition forward_loop : M state (list K) :=
  fuel ← gets fuel_of; b ← set_begin; loop iter_next fuel b set_end.

Lemma loop_traverse next fuel it st : loop next fuel it None st = traverse next fuel it st.
Proof.
  revert it st. induction fuel as [|fuel IH]; intros it st; [done|]. cbn [loop traverse].
  destruct it as [p|]; [rewrite decide_False by done|by rewrite decide_True].
  unfold mbind, M_bind. destruct (get_data (Some p) st) as [[d s1]|]; [|done].
  destruct (next (Some p) s1) as [[it' s2]|]; [|done]. by rewrite IH.
Qed.

(** A [set] holds each inserted key once: [insert(k)] reports whether [k]
    was absent, and a loop from [begin()] to [end()] afterwards yields the keys
    held before with [k] put in its place. *)
Theorem set_insert_loop st es k :
  RbTree setKeyOFt st es →
  ∃ st' p, set_insert k st = Ok (Some p, bool_decide (k ∉ es.*2), st') ∧
    forward_loop st' = Ok (ins id k es.*2, st').
Proof.
  intros HT. destruct (insert_entry setKeyOFt st es k HT) as (st' & p & d & pre & post & He & HT' & Hd & Hi & Hf).
  exists st', p. split.
  - unfold set_insert. rewrite He. do 3 f_equal. clear -HT.
    destruct HT as (t & n & _ & _ & _ & _ & Hs). induction es as [|[a x] es IH]; [done|].
    apply StronglySorted_cons in Hs as [Hx Hs]. specialize (IH Hs).
    cbn [find_key fmap list_fmap snd]. change (compose setKeyOFt snd (a, x)) with x.
    change (setKeyOFt k) with k in *.
    destruct (key_ltb x k) eqn:E1.
    + rewrite IH. apply bool_decide_ext. rewrite not_elem_of_cons.
      split; [|tauto]. split; [|done]. intros ->. by rewrite key_irrefl in E1.
    + destruct (key_ltb k x) eqn:E2.
      * symmetry. apply bool_decide_eq_true_2. rewrite not_elem_of_cons. split.
        { intros ->. by rewrite key_irrefl in E2. }
        intros (e & -> & He)%list_elem_of_fmap. rewrite Forall_forall in Hx. specialize (Hx _ He).
        unfold key_lt in Hx. cbn in Hx. unfold setKeyOFt in Hx.
        pose proof (key_trans _ _ _ Hx E2) as Hc. by rewrite key_irrefl in Hc.
      * symmetry. apply bool_decide_eq_false_2. intros Hn. apply Hn.
        rewrite (key_total _ _ E1 E2). set_solver.
  - destruct HT' as (t & n & HR & _ & _ & Ht & _). destruct (iterate_cells st' t HR) as [Hit _].
    unfold forward_loop. erewrite bind_ok by reflexivity.
    unfold iterate in Hit. erewrite bind_ok in Hit by reflexivity.
    apply bind_inv in Hit as (b & s1 & Hb & Hit). unfold set_begin. erewrite bind_ok by exact Hb.
    unfold set_end, rb_end. rewrite loop_traverse. assert (s1 = st') as ->.
    { unfold rb_begin in Hb. do 2 erewrite bind_ok in Hb by reflexivity. rewrite (Rep_root _ _ HR) in Hb.
      rewrite (leftmost_spec _ st' [] t) in Hb; [by injection Hb|done|].
      unfold fuel_of. rewrite (Rep_size _ _ HR). pose proof (height_labels t). lia. }
    rewrite Hit, Ht, <- Hi. by rewrite <- (ins_fmap id snd (next_loc st, k)).
Qed.

(** On a [const set], the loop from [rbegin()] to [rend()] visits nothing,
    whatever the set holds: [rend()const] is [rbegin()]. *)
Theorem set_const_reverse_empty st t :
  Rep st t → reverse_loop_const st = Ok ([], st).
Proof.
  intros HR. assert (height t < fuel_of st) as Hh.
  { unfold fuel_of. rewrite (Rep_size _ _ HR). pose proof (height_labels t). lia. }
  assert (rb_rbegin st = Ok (fst <$> last (cells t), st)) as Hr.
  { unfold rb_rbegin. do 2 (erewrite bind_ok by reflexivity).
    rewrite (Rep_root _ _ HR). exact (rightmost_spec _ _ [] _ HR Hh). }
  unfold reverse_loop_const, set_rbegin, set_rend_const. erewrite bind_ok by reflexivity.
  do 2 (erewrite bind_ok by exact Hr). cbn [fuel_of loop]. by rewrite decide_True.
Qed.

End Set_.
End Set_.

(** ** [zhc::map], with the key type as mapped type *)
Module Map.
Section Map.
Context {K : Type} `{KeyOrder K} (V0 : K).
Abbreviation state := (tstate (rb_data (K * K))).

Definition mapKeyOft (v : K * K) : K := fst v.
Definition map_insert (kv : K * K) : M state (ptr * bool) := rb_insert mapKeyOft kv.

(** [operator[](kv)]: the node whose [second] the result refers to; [V0] is [V()]. *)
Definition op_index (kv : K) : M state ptr :=
  res ← map_insert (kv, V0); mret (fst res).
(** [v = m[k]] and [m[k] = v] *)
Definition read_index (k : K) : M state K := p ← op_index k; d ← get_data p; mret (snd d).
Definition assign_index (k v : K) : M state () :=
  p ← op_index k; d ← get_data p; set_data p (fst d, v).

(** [st] is a map with the sorted entries [es]. *)
Definition MapOf (st : state) (es : list (K * K)) : Prop :=
  ∃ cs, RbTree mapKeyOft st cs ∧ es = cs.*2.

Lemma MapOf_sorted st es : MapOf st es → sorted_keys fst es.
Proof. intros (cs & (t & n & _ & _ & _ & _ & Hs) & ->). by apply sorted_keys_fmap. Qed.

Lemma op_index_entry st es k :
  MapOf st es →
  ∃ st' p v pre post, op_index k st = Ok (Some p, st') ∧
    RbTree mapKeyOft st' (pre ++ (p, (k, v)) :: post) ∧
    ins fst (k, V0) es = pre.*2 ++ (k, v) :: post.*2.
Proof.
  intros (cs & HT & ->).
  destruct (insert_entry mapKeyOft st cs (k, V0) HT) as (st' & p & [k' v] & pre & post & He & HT' & Hk & Hi & _).
  unfold mapKeyOft in Hk; simpl in Hk; subst k'. exists st', p, v, pre, post. split.
  { unfold op_index, map_insert. by erewrite bind_ok by exact He. }
  split; [done|]. change (k, V0) with (snd (next_loc st, (k, V0))).
  rewrite (ins_fmap fst snd). change (fst ∘ snd) with (mapKeyOft ∘ @snd loc (K * K)).
  by rewrite Hi, fmap_app, fmap_cons.
Qed.

Lemma find_key_split k v (l1 l2 : list (K * K)) :
  sorted_keys fst (l1 ++ (k, v) :: l2) → find_key fst k (l1 ++ (k, v) :: l2) = Some (k, v).
Proof.
  intros Hs. apply find_key_present; [|done]. apply Forall_forall. intros e He.
  change (key_lt fst e (k, v)). eapply StronglySorted_app_1_elem_of; [exact Hs|done|set_solver].
Qed.

Lemma find_key_other k k' v v' (l1 l2 : list (K * K)) :
  k' ≠ k → find_key fst k' (l1 ++ (k, v) :: l2) = find_key fst k' (l1 ++ (k, v') :: l2).
Proof.
  intros Hk. induction l1 as [|e l1 IH]; simpl; [|by rewrite IH].
  destruct (key_ltb k k') eqn:E1; [done|]. destruct (key_ltb k' k) eqn:E2; [done|].
  by destruct Hk; apply key_total.
Qed.

(** [m[k] = v] succeeds on every map and leaves a map in which [k] is bound
    to [v] and every other key to what it was bound to before. *)
Theorem map_assign_lookup st es k v :
  MapOf st es →
  ∃ st' es', assign_index k v st = Ok ((), st') ∧ MapOf st' es' ∧
    find_key fst k es' = Some (k, v) ∧
    (∀ k', k' ≠ k → find_key fst k' es' = find_key fst k' es).
Proof.
  intros HM. pose proof (MapOf_sorted _ _ HM) as Hs.
  destruct (op_index_entry _ _ k HM) as (st1 & p & v0 & pre & post & H1 & HT1 & Hi).
  destruct (set_data_spec mapKeyOft st1 pre p (k, v0) post (k, v) HT1 eq_refl) as (st' & H2 & HT').
  exists st', (pre.*2 ++ (k, v) :: post.*2). split.
  { unfold assign_index. erewrite bind_ok by exact H1.
    destruct HT1 as (t & n & HR & _ & _ & Ht & _).
    by erewrite bind_ok by exact (get_data_cells _ _ _ _ _ _ HR Ht). }
  assert (MapOf st' (pre.*2 ++ (k, v) :: post.*2)) as HM'
    by (eexists; split; [exact HT'|by rewrite fmap_app, fmap_cons]).
  split; [done|]. split; [by eapply find_key_split, MapOf_sorted|].
  intros k' Hk'. rewrite (find_key_other k k' v v0) by done. rewrite <- Hi.
  by apply find_key_ins_ne.
Qed.

(** Reading [m[k]] yields the value bound to [k]; for an absent key it
    yields [V()] and adds that binding; no other key changes. *)
Theorem map_index_reads st es k :
  MapOf st es →
  ∃ st', read_index k st = Ok (default V0 (snd <$> find_key fst k es), st') ∧
    MapOf st' (ins fst (k, V0) es).
Proof.
  intros HM. pose proof (MapOf_sorted _ _ HM) as Hs.
  destruct (op_index_entry _ _ k HM) as (st1 & p & v0 & pre & post & H1 & HT1 & Hi).
  exists st1. split.
  2: { eexists. split; [exact HT1|]. by rewrite Hi, fmap_app, fmap_cons. }
  unfold read_index. erewrite bind_ok by exact H1. destruct HT1 as (t & n & HR & _ & _ & Ht & _).
  erewrite bind_ok by exact (get_data_cells _ _ _ _ _ _ HR Ht). unfold mret, M_ret. do 2 f_equal.
  assert (find_key fst k (ins fst (k, V0) es) = Some (k, v0)) as Hf.
  { rewrite Hi. apply find_key_split. rewrite <- Hi. by apply sorted_ins. }
  destruct (find_key fst k es) as [[k2 v2]|] eqn:E.
  - clear -Hf E. cbn. revert Hf E. induction es as [|e es IH]; simpl; [done|].
    destruct (key_ltb (fst e) k) eqn:E1; simpl; rewrite ?E1; [auto|].
    destruct (key_ltb k (fst e)) eqn:E2; simpl; [done|]. rewrite E1, E2. intros; by simplify_eq.
  - pose proof (find_key_ins_eq fst (k, V0) es Hs E) as Hf'. cbn in Hf'. rewrite Hf in Hf'.
    by simplify_eq.
Qed.

End Map.
End Map.

(** ** Witnesses *)
Lemma set_insert_loop_witness :
  ∃ (st st' : tstate (rb_data Z)) p,
    rb_insert_all Set_.setKeyOFt [2; 1; 3]%Z empty_tree = Ok ((), st) ∧
    Set_.set_insert 5%Z st = Ok (Some p, true, st') ∧ Set_.forward_loop st' = Ok ([1; 2; 3; 5]%Z, st').
Proof.
  destruct (rb_insert_all_ok Set_.setKeyOFt empty_tree [] [2; 1; 3]%Z (RbTree_empty _))
    as (st & es & He & HT & Hes).
  destruct (Set_.set_insert_loop st es 5%Z HT) as (st' & p & H1 & H2).
  exists st, st', p. rewrite H1, H2, Hes. split; [exact He|]. split; reflexivity.
Defined.

Lemma set_const_reverse_empty_witness :
  ∃ st : tstate (rb_data Z),
    rb_insert_all Set_.setKeyOFt [2; 1; 3]%Z empty_tree = Ok ((), st) ∧
    Set_.reverse_loop_const st = Ok ([], st) ∧ riterate st = Ok ([3; 2; 1]%Z, st).
Proof.
  destruct (rb_insert_all_ok Set_.setKeyOFt empty_tree [] [2; 1; 3]%Z (RbTree_empty _))
    as (st & es & He & (t & n & HR & _ & _ & Ht & _) & Hes).
  exists st. split; [exact He|]. split; [exact (Set_.set_const_reverse_empty st t HR)|].
  rewrite (proj2 (iterate_cells st t HR)), Ht, Hes. reflexivity.
Defined.

Lemma map_assign_lookup_witness :
  ∃ (st : tstate (rb_data (Z * Z))) es,
    Map.assign_index 0%Z 7%Z 70%Z empty_tree = Ok ((), st) ∧ Map.MapOf st es ∧
    find_key fst 7%Z es = Some (7, 70)%Z.
Proof.
  destruct (Map.map_assign_lookup 0%Z empty_tree [] 7%Z 70%Z) as (st & es & H1 & H2 & H3 & _).
  { exists []. split; [apply RbTree_empty|done]. }
  exists st, es. split; [exact H1|]. split; [exact H2|exact H3].
Defined.

Lemma map_index_reads_witness :
  ∃ st : tstate (rb_data (Z * Z)),
    Map.read_index 0%Z 7%Z empty_tree = Ok (0%Z, st) ∧ Map.MapOf st [(7, 0)]%Z.
Proof.
  destruct (Map.map_index_reads 0%Z empty_tree [] 7%Z) as (st & H1 & H2).
  { exists []. split; [apply RbTree_empty|done]. }
  exists st. split; [exact H1|exact H2].
Defined.
