(* ===== verification/Buffer.v ===== *)
(** * The byte buffer of src/Reactor_http/source/server.hpp (class [Buffer])

    A vector with a read and a write offset.  Offsets and lengths are
    [uint64_t]: integers taken modulo [2^64].  [std::copy] and [memchr] are the
    loops over the vector they stand for; an access outside the vector is an
    error.  The abstract value is the queue of bytes between the offsets. *)

From S2P Require Import Prelude.
From Stdlib Require Import Ascii.

Open Scope Z_scope.

Definition zero_char : ascii := "000"%char.
Definition newline : ascii := "010"%char.

Record Buffer := mkBuf {
  _buffer : list ascii;
  _reader_idx : Z;
  _writer_idx : Z;
}.

Definition new_Buffer : Buffer := mkBuf (replicate 1024 zero_char) 0 0.
Definition vsize (v : list ascii) : Z := Z.of_nat (length v).

(** ** Vector accesses *)
Definition load (v : list ascii) (i : Z) : res ascii :=
  if decide (0 ≤ i) then match v !! Z.to_nat i with Some x => Ok x | None => Err OutOfBounds end
  else Err OutOfBounds.
Definition store (v : list ascii) (i : Z) (x : ascii) : res (list ascii) :=
  if decide (0 ≤ i < vsize v) then Ok (<[Z.to_nat i := x]> v) else Err OutOfBounds.

(** [std::copy(v+src, v+src+n, v+dst)]: first element first. *)
Fixpoint copy_within (n : nat) (v : list ascii) (src dst : Z) : res (list ascii) :=
  match n with
  | O => Ok v
  | S n => x ← load v src; v' ← store v dst x; copy_within n v' (src + 1) (dst + 1)
  end.
(** [std::copy(d, d+len, v+dst)] *)
Fixpoint copy_in (d : list ascii) (v : list ascii) (dst : Z) : res (list ascii) :=
  match d with
  | [] => Ok v
  | x :: d => v' ← store v dst x; copy_in d v' (dst + 1)
  end.
(** [std::copy(v+src, v+src+n, out)] *)
Fixpoint copy_out (n : nat) (v : list ascii) (src : Z) : res (list ascii) :=
  match n with
  | O => Ok []
  | S n => x ← load v src; xs ← copy_out n v (src + 1); mret (x :: xs)
  end.
(** [memchr(v+pos, c, n)], as an index into [v]. *)
Fixpoint memchr (n : nat) (v : list ascii) (pos : Z) (c : ascii) : res (option Z) :=
  match n with
  | O => Ok None
  | S n => x ← load v pos; if decide (x = c) then Ok (Some pos) else memchr n v (pos + 1) c
  end.
(** [vector<char>::resize], with the limit [max_size()]. *)
Definition max_size : Z := 2 ^ 63 - 1.
Definition vresize (v : list ascii) (n : Z) : res (list ascii) :=
  if decide (n ≤ max_size)
  then Ok (take (Z.to_nat n) v ++ replicate (Z.to_nat n - length v) zero_char)
  else Err StdException.

(** ** Members *)
Definition TailIdleSize (b : Buffer) : Z := u64 (vsize (_buffer b) - _writer_idx b).
Definition HeadIdleSize (b : Buffer) : Z := _reader_idx b.
Definition ReadAbleSize (b : Buffer) : Z := u64 (_writer_idx b - _reader_idx b).

Definition MoveReadOffset (len : Z) : M Buffer () := λ b,
  if decide (len ≤ ReadAbleSize b)
  then Ok ((), mkBuf (_buffer b) (u64 (_reader_idx b + len)) (_writer_idx b))
  else Err AssertFailed.

Definition MoveWriteOffset (len : Z) : M Buffer () := λ b,
  if decide (len = 0) then Ok ((), b)
  else if decide (len ≤ TailIdleSize b)
  then Ok ((), mkBuf (_buffer b) (_reader_idx b) (u64 (_writer_idx b + len)))
  else Err AssertFailed.

Definition EnsureWriteSpace (len : Z) : M Buffer () := λ b,
  if decide (len = 0) then Ok ((), b)
  else if decide (len ≤ TailIdleSize b) then Ok ((), b)
  else if decide (len ≤ u64 (HeadIdleSize b + TailIdleSize b)) then
    let rsz := ReadAbleSize b in
    match copy_within (Z.to_nat rsz) (_buffer b) (_reader_idx b) 0 with
    | Ok v => Ok ((), mkBuf v 0 rsz)
    | Err e => Err e
    end
  else
    match vresize (_buffer b) (u64 (_writer_idx b + len)) with
    | Ok v => Ok ((), mkBuf v (_reader_idx b) (_writer_idx b))
    | Err e => Err e
    end.

(** [std::copy(d, d+len, WritePosition())] *)
Definition copy_to_writer (d : list ascii) : M Buffer () := λ b,
  match copy_in d (_buffer b) (_writer_idx b) with
  | Ok v => Ok ((), mkBuf v (_reader_idx b) (_writer_idx b))
  | Err e => Err e
  end.

(** [Write(data, len)] of the bytes [d], with [len] their number. *)
Definition Write (d : list ascii) : M Buffer () :=
  if decide (vsize d = 0) then mret ()
  else EnsureWriteSpace (vsize d);; copy_to_writer d.

Definition WriteAndPush (d : list ascii) : M Buffer () :=
  if decide (vsize d = 0) then mret () else Write d;; MoveWriteOffset (vsize d).
Definition WriteString (data : list ascii) : M Buffer () := Write data.
Definition WriteStringAndPop (data : list ascii) : M Buffer () :=
  WriteString data;; MoveWriteOffset (vsize data).

(** [Read(buf, len)]: the bytes put in [buf]. *)
Definition Read (len : Z) : M Buffer (list ascii) := λ b,
  if decide (len = 0) then Ok ([], b)
  else if decide (len ≤ ReadAbleSize b) then
    match copy_out (Z.to_nat len) (_buffer b) (_reader_idx b) with
    | Ok xs => Ok (xs, b)
    | Err e => Err e
    end
  else Err AssertFailed.
Definition ReadAndPop (len : Z) : M Buffer (list ascii) :=
  if decide (len = 0) then mret [] else xs ← Read len; MoveReadOffset len;; mret xs.
Definition ReadString (len : Z) : M Buffer (list ascii) := λ b,
  if decide (len ≤ ReadAbleSize b) then Read len b else Err AssertFailed.
Definition ReadStringAndPop (len : Z) : M Buffer (list ascii) :=
  str ← ReadString len; MoveReadOffset len;; mret str.

(** [WriteBuffer(data)] from another buffer; [data] is only read. *)
Definition WriteBuffer (data : Buffer) : M Buffer () := λ b,
  match copy_out (Z.to_nat (ReadAbleSize data)) (_buffer data) (_reader_idx data) with
  | Ok d => Write d b
  | Err e => Err e
  end.
Definition WriteBufferAndPush (data : Buffer) : M Buffer () :=
  WriteBuffer data;; MoveWriteOffset (ReadAbleSize data).

Definition FindCRLF : M Buffer (option Z) := λ b,
  match memchr (Z.to_nat (ReadAbleSize b)) (_buffer b) (_reader_idx b) newline with
  | Ok p => Ok (p, b)
  | Err e => Err e
  end.
Definition GetLine : M Buffer (list ascii) :=
  pos ← FindCRLF;
  match pos with
  | None => mret []
  | Some p => r ← gets _reader_idx; ReadString (p - r + 1)
  end.
Definition GetLineAndPop : M Buffer (list ascii) :=
  str ← GetLine; MoveReadOffset (vsize str);; mret str.
Definition Clear : M Buffer () := modify (λ b, mkBuf (_buffer b) 0 0).

(** ** Copies *)
Implicit Types (v d q : list ascii) (b : Buffer).

Lemma load_ok v (i : nat) x : v !! i = Some x → load v (Z.of_nat i) = Ok x.
Proof. intros Hi. unfold load. rewrite decide_True by lia. by rewrite Nat2Z.id, Hi. Qed.
Lemma store_ok v (i : nat) x : (i < length v)%nat → store v (Z.of_nat i) x = Ok (<[i := x]> v).
Proof. intros Hi. unfold store, vsize. rewrite decide_True by lia. by rewrite Nat2Z.id. Qed.
Lemma succ_of_nat n : Z.of_nat n + 1 = Z.of_nat (S n).
Proof. lia. Qed.

Lemma copy_out_ok n v (src : nat) :
  (src + n ≤ length v)%nat → copy_out n v (Z.of_nat src) = Ok (take n (drop src v)).
Proof.
  revert src. induction n as [|n IH]; intros src Hl; [done|]. cbn [copy_out].
  destruct (lookup_lt_is_Some_2 v src) as [x Hx]; [lia|].
  rewrite (load_ok _ _ _ Hx). cbn [mbind res_bind]. rewrite succ_of_nat, IH by lia.
  cbn [mbind res_bind]. by rewrite (drop_S _ _ _ Hx).
Qed.

Lemma copy_in_ok d v (dst : nat) :
  (dst + length d ≤ length v)%nat →
  copy_in d v (Z.of_nat dst) = Ok (take dst v ++ d ++ drop (dst + length d) v).
Proof.
  revert v dst. induction d as [|x d IH]; intros v dst Hl; cbn [copy_in length] in *.
  { rewrite Nat.add_0_r. simpl. by rewrite take_drop. }
  rewrite store_ok by lia. cbn [mbind res_bind].
  rewrite succ_of_nat, IH by (rewrite length_insert; lia).
  f_equal. rewrite drop_insert_lt by lia.
  rewrite (take_S_r _ _ x) by (apply list_lookup_insert_eq; lia).
  rewrite take_insert_ge by lia. rewrite <- app_assoc.
  by replace (dst + S (length d))%nat with (S dst + length d)%nat by lia.
Qed.

Lemma copy_within_ok n v (src dst : nat) :
  (dst ≤ src)%nat → (src + n ≤ length v)%nat →
  ∃ v', copy_within n v (Z.of_nat src) (Z.of_nat dst) = Ok v' ∧ length v' = length v ∧
    take dst v' = take dst v ∧ take n (drop dst v') = take n (drop src v).
Proof.
  revert v src dst. induction n as [|n IH]; intros v src dst Hd Hl; [by exists v|].
  cbn [copy_within]. destruct (lookup_lt_is_Some_2 v src) as [x Hx]; [lia|].
  rewrite (load_ok _ _ _ Hx). cbn [mbind res_bind]. rewrite store_ok by lia. cbn [mbind res_bind].
  rewrite !succ_of_nat.
  destruct (IH (<[dst:=x]> v) (S src) (S dst)) as (v' & He & Hlen & Ht & Hn); [lia|rewrite length_insert; lia|].
  exists v'. split; [done|]. rewrite length_insert in Hlen. split; [done|].
  assert (Hx' : v' !! dst = Some x).
  { rewrite <- (lookup_take_lt v' (S dst)), Ht, lookup_take_lt by lia.
    apply list_lookup_insert_eq. lia. }
  split.
  - assert (Ht' := f_equal (take dst) Ht). rewrite !take_take in Ht'.
    replace (dst `min` S dst)%nat with dst in Ht' by lia. by rewrite Ht', take_insert_ge.
  - rewrite (drop_S _ _ _ Hx'), (drop_S _ _ _ Hx). cbn [take]. f_equal. rewrite Hn.
    by rewrite drop_insert_lt by lia.
Qed.

(** Position of the first [c] in a list. *)
Fixpoint index_of (c : ascii) (q : list ascii) : option nat :=
  match q with
  | [] => None
  | x :: q => if decide (x = c) then Some 0%nat else S <$> index_of c q
  end.

Lemma memchr_ok n v (pos : nat) c :
  (pos + n ≤ length v)%nat →
  memchr n v (Z.of_nat pos) c =
    Ok ((λ i, Z.of_nat (pos + i)) <$> index_of c (take n (drop pos v))).
Proof.
  revert pos. induction n as [|n IH]; intros pos Hl; [done|]. cbn [memchr].
  destruct (lookup_lt_is_Some_2 v pos) as [x Hx]; [lia|].
  rewrite (load_ok _ _ _ Hx). cbn [mbind res_bind]. rewrite (drop_S _ _ _ Hx). cbn [take index_of].
  destruct (decide (x = c)).
  - cbn. do 2 f_equal. lia.
  - rewrite succ_of_nat, IH by lia. destruct (index_of c _); cbn; [|done]. do 2 f_equal. lia.
Qed.

Lemma index_of_lt c q i : index_of c q = Some i → (i < length q)%nat.
Proof.
  revert i. induction q as [|x q IH]; intros i; cbn; [done|].
  destruct (decide (x = c)); [intros [= <-]; lia|].
  destruct (index_of c q) as [j|]; [|done]. intros [= <-]. specialize (IH j eq_refl). lia.
Qed.

(** ** The buffer as a queue *)

(** [b] holds the bytes [q] between its read and its write offset. *)
Definition Holds (b : Buffer) (q : list ascii) : Prop :=
  ∃ r w : nat, _reader_idx b = Z.of_nat r ∧ _writer_idx b = Z.of_nat w ∧
    (r ≤ w ≤ length (_buffer b))%nat ∧ vsize (_buffer b) ≤ max_size ∧
    q = take (w - r) (drop r (_buffer b)).

Lemma Holds_new : Holds new_Buffer [].
Proof. exists 0%nat, 0%nat. simpl. repeat split; try lia. by unfold max_size, vsize; simpl. Qed.

Lemma max_size_small x : x ≤ max_size → x < 2 ^ 64.
Proof. unfold max_size. lia. Qed.

Ltac holds H :=
  let r := fresh "r" in let w := fresh "w" in
  destruct H as (r & w & ?Hr & ?Hw & ?Hle & ?Hmax & ?Hq);
  unfold vsize in *.
Ltac u64s := rewrite ?u64_small by (unfold max_size, vsize in *; lia).

Lemma Holds_ReadAble b q : Holds b q → ReadAbleSize b = vsize q.
Proof.
  intros H. holds H. unfold ReadAbleSize. rewrite Hr, Hw. u64s. subst q.
  unfold vsize. rewrite length_take, length_drop. lia.
Qed.
Lemma Holds_Tail b q : Holds b q → TailIdleSize b = vsize (_buffer b) - _writer_idx b.
Proof. intros H. holds H. unfold TailIdleSize. rewrite Hw. u64s. unfold vsize. lia. Qed.

(** Reading consumes from the front. *)
Lemma MoveReadOffset_spec b q n :
  Holds b q → (n ≤ length q)%nat →
  ∃ b', MoveReadOffset (Z.of_nat n) b = Ok ((), b') ∧ Holds b' (drop n q) ∧
    _writer_idx b' = _writer_idx b ∧ _buffer b' = _buffer b.
Proof.
  intros H Hn. unfold MoveReadOffset. rewrite (Holds_ReadAble _ _ H). unfold vsize.
  rewrite decide_True by lia. holds H. subst q. rewrite length_take, length_drop in Hn.
  eexists. split; [reflexivity|]. split; [|done].
  exists (r + n)%nat, w. simpl. rewrite Hr. u64s. repeat split; auto; try lia.
  rewrite skipn_firstn_comm, drop_drop. f_equal. lia.
Qed.

Lemma Read_spec b q n :
  Holds b q → (n ≤ length q)%nat → Read (Z.of_nat n) b = Ok (take n q, b).
Proof.
  intros H Hn. unfold Read. destruct (decide _) as [E|E]; [by assert (n = 0%nat) as -> by lia|].
  rewrite (Holds_ReadAble _ _ H). unfold vsize. rewrite decide_True by lia.
  holds H. subst q. rewrite length_take, length_drop in Hn. rewrite Hr, Nat2Z.id, copy_out_ok by lia.
  by rewrite take_take, Nat.min_l by lia.
Qed.

Lemma Read_fails b q n :
  Holds b q → (length q < n)%nat →
  Read (Z.of_nat n) b = Err AssertFailed ∧ ReadString (Z.of_nat n) b = Err AssertFailed ∧
  MoveReadOffset (Z.of_nat n) b = Err AssertFailed.
Proof.
  intros H Hn. unfold ReadString, MoveReadOffset, Read. rewrite (Holds_ReadAble _ _ H).
  unfold vsize. rewrite (decide_False (P:=Z.of_nat n = 0)) by lia. by rewrite !decide_False by lia.
Qed.

Lemma ReadStringAndPop_spec b q n :
  Holds b q → (n ≤ length q)%nat →
  ∃ b', ReadStringAndPop (Z.of_nat n) b = Ok (take n q, b') ∧ Holds b' (drop n q) ∧
    _writer_idx b' = _writer_idx b.
Proof.
  intros H Hn. destruct (MoveReadOffset_spec b q n H Hn) as (b' & He & Hb' & Hw & _).
  exists b'. split; [|done]. unfold ReadStringAndPop, ReadString.
  erewrite bind_ok by (rewrite (Holds_ReadAble _ _ H), decide_True by (unfold vsize; lia);
    by apply Read_spec). by erewrite bind_ok by exact He.
Qed.

(** The line at the front of a queue: up to the first newline, or nothing. *)
Definition first_line (q : list ascii) : list ascii :=
  match index_of newline q with None => [] | Some i => take (S i) q end.

Lemma GetLineAndPop_spec b q :
  Holds b q →
  ∃ b', GetLineAndPop b = Ok (first_line q, b') ∧ Holds b' (drop (length (first_line q)) q) ∧
    _writer_idx b' = _writer_idx b.
Proof.
  intros H. assert (GetLine b = Ok (first_line q, b)) as Hl.
  { unfold GetLine, first_line. assert (FindCRLF b = Ok (
      (λ i, _reader_idx b + Z.of_nat i) <$> index_of newline q, b)) as Hf.
    { unfold FindCRLF. rewrite (Holds_ReadAble _ _ H). holds H. rewrite Nat2Z.id, Hr.
      assert (length q = w - r)%nat as Hlen by (subst q; rewrite length_take, length_drop; lia).
      rewrite memchr_ok by lia. rewrite Hlen, <- Hq.
      destruct (index_of newline q); cbn; [|done]. do 4 f_equal. lia. }
    erewrite bind_ok by exact Hf. destruct (index_of newline q) as [i|] eqn:Ei; cbn [fmap option_fmap option_map]; [|done].
    erewrite bind_ok by reflexivity. apply index_of_lt in Ei. unfold ReadString.
    replace (_reader_idx b + Z.of_nat i - _reader_idx b + 1) with (Z.of_nat (S i)) by lia.
    rewrite (Holds_ReadAble _ _ H). rewrite decide_True by (unfold vsize; lia). by apply Read_spec. }
  destruct (MoveReadOffset_spec b q (length (first_line q)) H) as (b' & He & Hb' & Hw & _).
  { unfold first_line. destruct (index_of _ _); [|simpl; lia]. rewrite length_take. lia. }
  exists b'. split; [|done]. unfold GetLineAndPop. erewrite bind_ok by exact Hl.
  by erewrite bind_ok by exact He.
Qed.

(** Making room keeps the queue and never moves the write offset up. *)
Lemma EnsureWriteSpace_spec b q len :
  Holds b q → 0 ≤ len → _writer_idx b + len ≤ max_size →
  ∃ b', EnsureWriteSpace len b = Ok ((), b') ∧ Holds b' q ∧
    _writer_idx b' ≤ _writer_idx b ∧ _writer_idx b' + len ≤ vsize (_buffer b') ∧
    (len ≤ HeadIdleSize b + TailIdleSize b → length (_buffer b') = length (_buffer b)).
Proof.
  intros H Hlen Hmaxw. pose proof (Holds_Tail _ _ H) as HT. pose proof (Holds_ReadAble _ _ H) as HA.
  unfold EnsureWriteSpace, HeadIdleSize. rewrite HT, HA. holds H.
  repeat destruct (decide _); cbv zeta.
  - exists b. split; [done|]. split; [by exists r, w|]. split; [lia|]. split; [lia|done].
  - exists b. split; [done|]. split; [by exists r, w|]. split; [lia|]. split; [lia|done].
  - assert (Hl : length q = (w - r)%nat) by (subst q; rewrite length_take, length_drop; lia).
    destruct (copy_within_ok (length q) (_buffer b) r 0) as (v' & He & Hlv & _ & Hv); [lia|lia|].
    rewrite Nat2Z.id, Hr. change 0 with (Z.of_nat 0) at 1. rewrite He.
    rewrite u64_small in l by (unfold max_size in *; lia).
    eexists. split; [reflexivity|]. simpl. split; [|repeat split; lia].
    exists 0%nat, (length q). simpl. repeat split; unfold vsize; try lia.
    rewrite drop_0 in *. by rewrite ?Nat.sub_0_r, Hv, Hl.
  - rewrite u64_small by (unfold max_size in *; lia). unfold vresize. rewrite decide_True by lia.
    rewrite u64_small in n1 by (unfold max_size in *; lia).
    eexists. split; [reflexivity|]. simpl. unfold vsize. rewrite length_app, length_take, length_replicate.
    split; [|repeat split; lia].
    exists r, w. simpl. repeat split; auto; unfold vsize;
      rewrite ?length_app, ?length_take, ?length_replicate; try lia.
    rewrite (take_ge (_buffer b)) by lia. by rewrite drop_app_le, take_app_le by (rewrite ?length_drop; lia).
Qed.

(** A write puts the bytes behind the queue; [MoveWriteOffset] then adds them. *)
Lemma copy_then_push b q d :
  Holds b q → _writer_idx b + vsize d ≤ vsize (_buffer b) →
  ∃ b1 b', copy_to_writer d b = Ok ((), b1) ∧ MoveWriteOffset (vsize d) b1 = Ok ((), b') ∧
    Holds b' (q ++ d) ∧ _writer_idx b' = _writer_idx b + vsize d ∧
    length (_buffer b') = length (_buffer b).
Proof.
  intros H Hroom. holds H. unfold copy_to_writer. rewrite Hw, copy_in_ok by lia.
  set (v := take w (_buffer b) ++ d ++ drop (w + length d) (_buffer b)).
  assert (Hv : length v = length (_buffer b)).
  { unfold v. rewrite !length_app, length_take, length_drop. lia. }
  eexists (mkBuf v _ _), (mkBuf v (Z.of_nat r) (Z.of_nat (w + length d))). split; [reflexivity|]. split.
  { unfold MoveWriteOffset, TailIdleSize, vsize. simpl. rewrite Hv, Hr.
    destruct (decide _); [do 3 f_equal; lia|]. u64s. rewrite decide_True by lia. do 3 f_equal. lia. }
  split; [|simpl; split; [lia|done]]. exists r, (w + length d)%nat. simpl. unfold vsize. rewrite Hv.
  repeat split; auto; try lia. unfold v. subst q.
  rewrite drop_app_le by (rewrite length_take; lia).
  rewrite take_drop_commute. replace (r + (w - r))%nat with w by lia.
  rewrite take_app_ge by (rewrite length_drop, length_take; lia).
  f_equal. rewrite length_drop, length_take, take_app_length'; [done|lia].
Qed.

Lemma WriteAndPush_spec b q d :
  Holds b q → _writer_idx b + vsize d ≤ max_size →
  ∃ b', WriteAndPush d b = Ok ((), b') ∧ WriteStringAndPop d b = Ok ((), b') ∧
    Holds b' (q ++ d) ∧ _writer_idx b' ≤ _writer_idx b + vsize d ∧
    (vsize d ≤ HeadIdleSize b + TailIdleSize b → length (_buffer b') = length (_buffer b)).
Proof.
  intros H Hmaxw. unfold WriteAndPush, WriteStringAndPop, WriteString, Write.
  destruct (decide (vsize d = 0)) as [E|E].
  { exists b. destruct d; [|done]. split; [done|]. erewrite bind_ok by reflexivity.
    split; [done|]. rewrite app_nil_r. split; [done|]. split; [simpl; lia|done]. }
  destruct (EnsureWriteSpace_spec b q (vsize d) H) as (b0 & H0 & Hh & Hw & Hroom & Hkeep);
    [unfold vsize; lia|done|].
  destruct (copy_then_push b0 q d Hh Hroom) as (b1 & b' & H1 & H2 & Hh' & Hw' & Hlen).
  exists b'. erewrite bind_ok by (erewrite bind_ok by exact H0; exact H1).
  split; [done|]. split; [done|]. split; [done|]. split; [lia|]. intros ?. rewrite Hlen. auto.
Qed.

(** The readable bytes of a buffer. *)
Definition readable (b : Buffer) : list ascii :=
  take (Z.to_nat (_writer_idx b - _reader_idx b)) (drop (Z.to_nat (_reader_idx b)) (_buffer b)).

Lemma Holds_readable b q : Holds b q → readable b = q.
Proof.
  intros H. holds H. unfold readable. rewrite Hr, Hw, Nat2Z.id. rewrite Hq. do 2 f_equal. lia.
Qed.

Lemma WriteBufferAndPush_eq data b qd :
  Holds data qd → WriteBufferAndPush data b = WriteStringAndPop qd b.
Proof.
  intros H. unfold WriteBufferAndPush, WriteStringAndPop, WriteBuffer, WriteString.
  rewrite (Holds_ReadAble _ _ H). unfold mbind, M_bind. holds H.
  rewrite Nat2Z.id, Hr, copy_out_ok; [|subst qd; rewrite length_take, length_drop; lia].
  rewrite Hq. do 2 f_equal.
  rewrite length_take, length_drop, Nat.min_l by lia. by destruct (Write _ b) as [[]|].
Qed.

(** ** Refinement of a queue by the buffer *)
Inductive buf_op :=
  | OWrite (d : list ascii)
  | OWriteString (d : list ascii)
  | OWriteBuffer (data : Buffer)
  | ORead (n : nat)
  | OReadString (n : nat)
  | OGetLine
  | OClear.

Definition do_op (o : buf_op) : M Buffer (list ascii) :=
  match o with
  | OWrite d => WriteAndPush d;; mret []
  | OWriteString d => WriteStringAndPop d;; mret []
  | OWriteBuffer data => WriteBufferAndPush data;; mret []
  | ORead n => ReadAndPop (Z.of_nat n)
  | OReadString n => ReadStringAndPop (Z.of_nat n)
  | OGetLine => GetLineAndPop
  | OClear => Clear;; mret []
  end.

(** The specification: the same operations on a queue of bytes. *)
Definition queue_op (o : buf_op) : M (list ascii) (list ascii) := λ q,
  match o with
  | OWrite d | OWriteString d => Ok ([], q ++ d)
  | OWriteBuffer data => Ok ([], q ++ readable data)
  | ORead n | OReadString n =>
      if decide (n ≤ length q)%nat then Ok (take n q, drop n q) else Err AssertFailed
  | OGetLine => Ok (first_line q, drop (length (first_line q)) q)
  | OClear => Ok ([], [])
  end.

Fixpoint run {S} (step : buf_op → M S (list ascii)) (ops : list buf_op) : M S (list (list ascii)) :=
  match ops with
  | [] => mret []
  | o :: ops => x ← step o; xs ← run step ops; mret (x :: xs)
  end.

Definition result {A S} (r : res (A * S)) : res A :=
  match r with Ok (a, _) => Ok a | Err e => Err e end.

(** Bytes an operation writes; a source buffer is one that holds its bytes. *)
Definition written (o : buf_op) : nat :=
  match o with OWrite d | OWriteString d => length d | OWriteBuffer data => length (readable data) | _ => 0 end.
Definition op_ok (o : buf_op) : Prop :=
  match o with OWriteBuffer data => Holds data (readable data) | _ => True end.

(** One operation: same result, related states, or the same failure. *)
Definition step_sim (b : Buffer) (q : list ascii) (o : buf_op) : Prop :=
  match queue_op o q with
  | Ok (x, q') => ∃ b', do_op o b = Ok (x, b') ∧ Holds b' q' ∧
                    _writer_idx b' ≤ _writer_idx b + Z.of_nat (written o)
  | Err e => do_op o b = Err e
  end.

Lemma do_write_sim b q d :
  Holds b q → _writer_idx b + vsize d ≤ max_size →
  ∃ b', (WriteAndPush d;; mret []) b = Ok ([] : list ascii, b') ∧
    (WriteStringAndPop d;; mret []) b = Ok ([] : list ascii, b') ∧ Holds b' (q ++ d) ∧
    _writer_idx b' ≤ _writer_idx b + vsize d.
Proof.
  intros H Hmaxw. destruct (WriteAndPush_spec b q d H Hmaxw) as (b' & H1 & H2 & Hh & Hw & _).
  exists b'. by erewrite !bind_ok by eassumption.
Qed.

Lemma do_read_sim b q n :
  Holds b q →
  if decide (n ≤ length q)%nat
  then ∃ b', ReadAndPop (Z.of_nat n) b = Ok (take n q, b') ∧
         ReadStringAndPop (Z.of_nat n) b = Ok (take n q, b') ∧ Holds b' (drop n q) ∧
         _writer_idx b' = _writer_idx b
  else ReadAndPop (Z.of_nat n) b = Err AssertFailed ∧ ReadStringAndPop (Z.of_nat n) b = Err AssertFailed.
Proof.
  intros H. unfold ReadAndPop. case_decide as Hn.
  - destruct (MoveReadOffset_spec b q n H Hn) as (b' & He & Hb' & Hw & _).
    destruct (ReadStringAndPop_spec b q n H Hn) as (b2 & He2 & Hb2 & Hw2).
    assert (b2 = b') as ->.
    { unfold ReadStringAndPop in He2. apply bind_inv in He2 as (x & s & Hs & He2).
      assert (s = b) as -> by (unfold ReadString in Hs; case_decide; [|done];
        rewrite (Read_spec _ _ _ H Hn) in Hs; by injection Hs).
      erewrite bind_ok in He2 by exact He. by injection He2. }
    exists b'. split; [|done]. case_decide as E.
    + assert (n = 0%nat) as -> by lia. unfold MoveReadOffset in He. rewrite (Holds_ReadAble _ _ H) in He.
      rewrite decide_True in He by (unfold vsize; lia). injection He as <-. rewrite take_0.
      unfold mret, M_ret. do 2 f_equal. destruct (H) as (r & w & Hr & _ & _ & Hm & _).
      destruct b as [v r0 w0]. simpl in *. subst r0. rewrite Z.add_0_r. f_equal. symmetry. apply u64_small.
      split; [lia|]. destruct H as (r' & w' & Hr' & _ & ? & _). simpl in *.
      unfold max_size, vsize in *. lia.
    + erewrite bind_ok by exact (Read_spec _ _ _ H Hn). by erewrite bind_ok by exact He.
  - destruct (Read_fails b q n H) as (H1 & H2 & _); [lia|]. rewrite decide_False by lia.
    unfold ReadStringAndPop. by erewrite !bind_err by eassumption.
Qed.

Lemma step_simulation b q o :
  Holds b q → op_ok o → _writer_idx b + Z.of_nat (written o) ≤ max_size → step_sim b q o.
Proof.
  intros H Hok Hmaxw. unfold step_sim. destruct o as [d|d|data|n|n| |]; cbn [queue_op do_op written] in *.
  - destruct (do_write_sim b q d H Hmaxw) as (b' & H1 & _ & Hh & Hw). eauto.
  - destruct (do_write_sim b q d H Hmaxw) as (b' & _ & H2 & Hh & Hw). eauto.
  - destruct (do_write_sim b q (readable data) H Hmaxw) as (b' & _ & H2 & Hh & Hw).
    exists b'. split; [|done]. rewrite <- H2. unfold mbind, M_bind.
    by rewrite (WriteBufferAndPush_eq data b (readable data) Hok).
  - pose proof (do_read_sim b q n H) as Hs. case_decide.
    + destruct Hs as (b' & H1 & _ & Hh & Hw). exists b'. split; [done|]. split; [done|lia].
    + apply Hs.
  - pose proof (do_read_sim b q n H) as Hs. case_decide.
    + destruct Hs as (b' & _ & H1 & Hh & Hw). exists b'. split; [done|]. split; [done|lia].
    + apply Hs.
  - destruct (GetLineAndPop_spec b q H) as (b' & H1 & Hh & Hw). exists b'. split; [done|]. split; [done|lia].
  - eexists. split; [reflexivity|]. destruct H as (r & w & Hr & Hw & Hle & Hm & _). simpl. split; [|lia].
    exists 0%nat, 0%nat. simpl. repeat split; auto; lia.
Qed.

Lemma run_simulation ops b q :
  Holds b q → Forall op_ok ops →
  _writer_idx b + Z.of_nat (sum_list (written <$> ops)) ≤ max_size →
  result (run do_op ops b) = result (run queue_op ops q).
Proof.
  revert b q. induction ops as [|o ops IH]; intros b q H Hok Hm; [done|].
  apply Forall_cons in Hok as [Ho Hok]. rewrite fmap_cons in Hm. cbn [sum_list_with id] in Hm. cbn [run].
  pose proof (step_simulation b q o H Ho) as Hs. unfold step_sim in Hs.
  destruct (queue_op o q) as [[x q']|e] eqn:Eq.
  - destruct Hs as (b' & He & Hh & Hw); [lia|].
    erewrite bind_ok by exact He. erewrite (bind_ok (queue_op o)) by exact Eq.
    assert (Hr : result (run do_op ops b') = result (run queue_op ops q')) by (apply IH; auto; lia).
    unfold mbind, M_bind. destruct (run do_op ops b') as [[]|], (run queue_op ops q') as [[]|];
      simpl in *; congruence.
  - erewrite bind_err by (apply Hs; lia). by erewrite (bind_err (queue_op o)) by exact Eq.
Qed.

(** C19: A [Buffer] is a byte queue: any sequence of writes, reads, line reads
    and clears on a fresh buffer returns exactly what the same sequence returns
    on a queue of bytes, and fails an [assert] exactly where a read asks for more
    bytes than the queue holds, as long as the bytes written in total fit a
    [vector<char>].  The compactions and reallocations are not observable. *)
Theorem buffer_refines_queue ops :
  Forall op_ok ops → Z.of_nat (sum_list (written <$> ops)) ≤ max_size →
  result (run do_op ops new_Buffer) = result (run queue_op ops []).
Proof. intros Hok Hm. apply run_simulation; [apply Holds_new|done|done]. Qed.

(** What is written comes back: after [WriteAndPush(d)] on any buffer,
    [ReadStringAndPop] of all its bytes returns the bytes held before followed
    by [d], and empties the buffer. *)
Theorem buffer_round_trip b q d :
  Holds b q → _writer_idx b + vsize d ≤ max_size →
  ∃ b1 b2, WriteAndPush d b = Ok ((), b1) ∧
    ReadStringAndPop (ReadAbleSize b1) b1 = Ok (q ++ d, b2) ∧ Holds b2 [].
Proof.
  intros H Hm. destruct (WriteAndPush_spec b q d H Hm) as (b1 & H1 & _ & Hh & _).
  destruct (ReadStringAndPop_spec b1 (q ++ d) (length (q ++ d)) Hh) as (b2 & H2 & Hh2 & _); [lia|].
  exists b1, b2. rewrite (Holds_ReadAble _ _ Hh). unfold vsize. rewrite H2.
  rewrite drop_ge in Hh2 by lia. by rewrite (take_ge (q ++ d)) by lia.
Qed.

(** A write that fits into the idle space before and after the readable
    bytes never reallocates: the vector keeps its size. *)
Theorem buffer_no_growth b q d :
  Holds b q → _writer_idx b + vsize d ≤ max_size → vsize d ≤ HeadIdleSize b + TailIdleSize b →
  ∃ b', WriteAndPush d b = Ok ((), b') ∧ Holds b' (q ++ d) ∧ length (_buffer b') = length (_buffer b).
Proof.
  intros H Hm Hfit. destruct (WriteAndPush_spec b q d H Hm) as (b' & H1 & _ & Hh & _ & Hk).
  exists b'. auto.
Qed.

(** ** Witnesses *)
Lemma buffer_refines_queue_witness :
  result (run do_op [OWrite ["a"%char; newline; "b"%char]; OGetLine; ORead 2] new_Buffer)
    = Err AssertFailed ∧
  result (run do_op [OWrite ["a"%char; newline; "b"%char]; OGetLine; ORead 1] new_Buffer)
    = Ok [[]; ["a"%char; newline]; ["b"%char]].
Proof.
  split; (rewrite buffer_refines_queue; [reflexivity|repeat constructor|by vm_compute]).
Defined.

Lemma buffer_round_trip_witness :
  ∃ b1 b2, WriteAndPush ["x"%char; "y"%char] new_Buffer = Ok ((), b1) ∧
    ReadStringAndPop (ReadAbleSize b1) b1 = Ok (["x"%char; "y"%char], b2) ∧ Holds b2 [].
Proof. apply (buffer_round_trip new_Buffer []); [exact Holds_new|by vm_compute]. Defined.

Lemma buffer_no_growth_witness :
  ∃ b', WriteAndPush ["x"%char; "y"%char] new_Buffer = Ok ((), b') ∧
    Holds b' ["x"%char; "y"%char] ∧ length (_buffer b') = length (_buffer new_Buffer).
Proof. apply (buffer_no_growth new_Buffer []); [exact Holds_new|by vm_compute|by vm_compute]. Defined.
