(* ===== verification/Board.v ===== *)
(** * The gobang board of src/game/source/room.hpp

    [room::five] and [room::check_win]: the test, from the stone just placed,
    whether five or more stones of one colour stand in a row.  [lined] is the
    rule of the game, stated over the whole board; the theorems relate the two. *)

From S2P Require Import Prelude.

Open Scope Z_scope.

Definition BOARD_ROW : Z := 15.
Definition BOARD_COL : Z := 15.
Definition CHESS_WHITE : Z := 1.
Definition CHESS_BLACK : Z := 2.

Abbreviation board := (list (list Z)).

(** [_board(BOARD_ROW, std::vector<int>(BOARD_COL, 0))] *)
Definition empty_board : board := replicate 15 (replicate 15 0).

(** [_board[row][col]], which is undefined outside the vectors. *)
Definition at_ (b : board) (row col : Z) : res Z :=
  if decide (0 ≤ row ∧ 0 ≤ col) then
    match b !! Z.to_nat row ≫= (.!! Z.to_nat col) with Some x => Ok x | None => Err OutOfBounds end
  else Err OutOfBounds.
Definition set_at (b : board) (row col x : Z) : res board :=
  _ ← at_ b row col;
  mret (alter (λ line, <[Z.to_nat col := x]> line) (Z.to_nat row) b).

Definition on_board (row col : Z) : bool :=
  (0 <=? row) && (row <? BOARD_ROW) && (0 <=? col) && (col <? BOARD_COL).

(** One of the two [while] loops of [five]: how often its body runs. *)
Fixpoint scan (fuel : nat) (b : board) (search_row search_col row_off col_off color : Z) : res Z :=
  match fuel with
  | O => Err OutOfFuel
  | S fuel =>
      if on_board search_row search_col then
        x ← at_ b search_row search_col;
        if decide (x = color) then
          n ← scan fuel b (search_row + row_off) (search_col + col_off) row_off col_off color;
          mret (n + 1)
        else mret 0
      else mret 0
  end.

(** A scan leaves the board after at most 15 steps. *)
Definition scan_fuel : nat := 16.

Definition five (b : board) (row col row_off col_off color : Z) : res bool :=
  n1 ← scan scan_fuel b (row + row_off) (col + col_off) row_off col_off color;
  n2 ← scan scan_fuel b (row - row_off) (col - col_off) (- row_off) (- col_off) color;
  mret (5 <=? 1 + n1 + n2).

(** [check_win], with the members [_white_id] and [_black_id] as arguments. *)
Definition check_win (white_id black_id : Z) (b : board) (row col color : Z) : res Z :=
  let won := if decide (color = CHESS_WHITE) then white_id else black_id in
  f1 ← five b row col 0 1 color;
  if (f1 : bool) then mret won else
  f2 ← five b row col 1 0 color;
  if (f2 : bool) then mret won else
  f3 ← five b row col (-1) 1 color;
  if (f3 : bool) then mret won else
  f4 ← five b row col (-1) (-1) color;
  if (f4 : bool) then mret won else mret 0.

(** ** The rule of the game *)

(** A board of 15 lines of 15 cells. *)
Definition board_ok (b : board) : Prop :=
  length b = 15%nat ∧ Forall (λ line, length line = 15%nat) b.

Definition cell (b : board) (row col : Z) : option Z :=
  if on_board row col then b !! Z.to_nat row ≫= (.!! Z.to_nat col) else None.

Definition directions : list (Z * Z) := [(0, 1); (1, 0); (-1, 1); (-1, -1)].

(** Five cells of colour [color] stand in a row from [(row, col)] on. *)
Definition five_from (b : board) (color row col dr dc : Z) : Prop :=
  ∀ k, 0 ≤ k < 5 → cell b (row + k * dr) (col + k * dc) = Some color.
Definition lined (b : board) (color : Z) : Prop :=
  ∃ row col dr dc, (dr, dc) ∈ directions ∧ five_from b color row col dr dc.

(** ** Cells *)
Implicit Types (b : board).

Lemma on_board_true row col : on_board row col = true ↔ 0 ≤ row < 15 ∧ 0 ≤ col < 15.
Proof. unfold on_board, BOARD_ROW, BOARD_COL. rewrite !andb_true_iff. lia. Qed.

Lemma cell_on_board b row col x : cell b row col = Some x → on_board row col = true.
Proof. unfold cell. by destruct (on_board row col). Qed.

Lemma cell_total b row col :
  board_ok b → on_board row col = true → ∃ x, cell b row col = Some x ∧ at_ b row col = Ok x.
Proof.
  intros [Hl Hf] Hin. unfold cell, at_. rewrite Hin. apply on_board_true in Hin.
  rewrite decide_True by lia.
  destruct (lookup_lt_is_Some_2 b (Z.to_nat row)) as [line Hline]; [lia|].
  rewrite Hline. cbn. rewrite Forall_lookup in Hf. specialize (Hf _ _ Hline).
  destruct (lookup_lt_is_Some_2 line (Z.to_nat col)) as [x Hx]; [lia|]. rewrite Hx. eauto.
Qed.

Lemma at_cell b row col x :
  board_ok b → at_ b row col = Ok x → cell b row col = Some x.
Proof.
  intros [Hl Hf]. unfold at_, cell. case_decide as Hp; [|done].
  destruct (b !! Z.to_nat row) as [line|] eqn:Hline; cbn; [|done].
  destruct (line !! Z.to_nat col) as [y|] eqn:Hy; [|done]. intros [= ->].
  rewrite Forall_lookup in Hf. specialize (Hf _ _ Hline).
  apply lookup_lt_Some in Hline, Hy. by rewrite (proj2 (on_board_true row col)) by lia.
Qed.

(** Placing a stone. *)
Lemma set_at_spec b row col x :
  board_ok b → on_board row col = true →
  ∃ b', set_at b row col x = Ok b' ∧ board_ok b' ∧
    ∀ r c, cell b' r c = if decide (r = row ∧ c = col) then Some x else cell b r c.
Proof.
  intros Hb Hin. destruct (cell_total b row col Hb Hin) as (y & Hy & Hat).
  unfold set_at. rewrite Hat. cbn [mbind res_bind]. eexists. split; [reflexivity|].
  destruct Hb as [Hl Hf]. split.
  { split; [by rewrite length_alter|]. apply Forall_lookup. intros i line Hi.
    rewrite Forall_lookup in Hf. destruct (decide (i = Z.to_nat row)) as [->|Hne].
    - rewrite list_lookup_alter_eq in Hi. destruct (b !! Z.to_nat row) as [line0|] eqn:E; [|done].
      injection Hi as <-. rewrite length_insert. eauto.
    - rewrite list_lookup_alter_ne in Hi by done. eauto. }
  intros r c. unfold cell. destruct (on_board r c) eqn:Hrc.
  2: { rewrite decide_False; [done|]. intros [-> ->]. congruence. }
  unfold cell in Hy. rewrite Hin in Hy. apply on_board_true in Hrc, Hin.
  destruct (decide (r = row)) as [->|Hr].
  - rewrite list_lookup_alter_eq. destruct (b !! Z.to_nat row) as [line|] eqn:Hline; cbn in *; [|done].
    apply lookup_lt_Some in Hy. case_decide as Hc.
    + destruct Hc as [_ ->]. by rewrite list_lookup_insert_eq.
    + rewrite list_lookup_insert_ne; [done|]. intros ?. apply Hc. split; [done|lia].
  - rewrite list_lookup_alter_ne by lia. by rewrite decide_False by tauto.
Qed.

(** ** Scans *)

(** The stones of colour [color] on the ray from [(row, col)]. *)
Definition on_ray b (row col dr dc color k : Z) : Prop :=
  cell b (row + k * dr) (col + k * dc) = Some color.

Definition unit_dir (dr dc : Z) : Prop := -1 ≤ dr ≤ 1 ∧ -1 ≤ dc ≤ 1 ∧ (dr ≠ 0 ∨ dc ≠ 0).

(** A ray that starts at distance [n] of the far edge has left the board after
    [n] steps. *)
Definition steps_left (row col dr dc : Z) : Z :=
  if decide (dr = 1) then 15 - row else if decide (dr = -1) then row + 1
  else if decide (dc = 1) then 15 - col else col + 1.

Lemma scan_spec fuel b row col dr dc color :
  board_ok b → unit_dir dr dc → steps_left row col dr dc < Z.of_nat fuel → (0 < fuel)%nat →
  ∃ n, scan fuel b row col dr dc color = Ok n ∧ 0 ≤ n ∧
    (∀ k, 0 ≤ k < n → on_ray b row col dr dc color k) ∧ ¬ on_ray b row col dr dc color n.
Proof.
  intros Hb Hd. revert row col. induction fuel as [|fuel IH]; intros row col Hf Hp; [lia|].
  cbn [scan]. destruct (on_board row col) eqn:Hin.
  2: { exists 0. split; [done|]. split; [lia|]. split; [lia|]. unfold on_ray.
    rewrite !Z.mul_0_l, !Z.add_0_r. intros Hc%cell_on_board. congruence. }
  destruct (cell_total b row col Hb Hin) as (x & Hx & Hat). rewrite Hat. cbn [mbind res_bind].
  destruct (decide (x = color)) as [->|Hne].
  2: { exists 0. split; [done|]. split; [lia|]. split; [lia|]. unfold on_ray.
    rewrite !Z.mul_0_l, !Z.add_0_r. congruence. }
  apply on_board_true in Hin.
  assert (Hstep : steps_left (row + dr) (col + dc) dr dc = steps_left row col dr dc - 1).
  { unfold steps_left, unit_dir in *. repeat case_decide; lia. }
  assert (1 ≤ steps_left row col dr dc).
  { unfold steps_left. repeat case_decide; lia. }
  destruct (IH (row + dr) (col + dc)) as (n & He & Hn & Hall & Hend); [lia|lia|].
  rewrite He. cbn [mbind res_bind]. exists (n + 1). split; [done|]. split; [lia|].
  assert (Hshift : ∀ k, on_ray b (row + dr) (col + dc) dr dc color k ↔
                        on_ray b row col dr dc color (k + 1)).
  { intros k. unfold on_ray. by replace (row + (k + 1) * dr) with (row + dr + k * dr) by lia;
      replace (col + (k + 1) * dc) with (col + dc + k * dc) by lia. }
  split; [|by rewrite <- Hshift].
  intros k Hk. destruct (decide (k = 0)) as [->|Hk0].
  - unfold on_ray. by rewrite !Z.mul_0_l, !Z.add_0_r.
  - replace k with (k - 1 + 1) by lia. apply Hshift, Hall. lia.
Qed.

Lemma steps_left_on_board row col dr dc :
  unit_dir dr dc → on_board row col = true →
  steps_left (row + dr) (col + dc) dr dc < Z.of_nat scan_fuel.
Proof.
  rewrite on_board_true. unfold unit_dir, steps_left, scan_fuel. intros. repeat case_decide; lia.
Qed.

(** Five stones in a row that include the one at [(row, col)]. *)
Definition through b (row col dr dc color : Z) : Prop :=
  ∃ j, -4 ≤ j ≤ 0 ∧ ∀ k, j ≤ k ≤ j + 4 → on_ray b row col dr dc color k.

Lemma five_spec b row col dr dc color :
  board_ok b → unit_dir dr dc → cell b row col = Some color →
  ∃ f, five b row col dr dc color = Ok f ∧ (f = true ↔ through b row col dr dc color).
Proof.
  intros Hb Hd Hc. pose proof (cell_on_board _ _ _ _ Hc) as Hin.
  assert (Hd' : unit_dir (- dr) (- dc)) by (unfold unit_dir in *; lia).
  destruct (scan_spec scan_fuel b (row + dr) (col + dc) dr dc color) as (n1 & H1 & Hn1 & Ha1 & He1);
    [done|done|by apply steps_left_on_board|unfold scan_fuel; lia|].
  destruct (scan_spec scan_fuel b (row - dr) (col - dc) (- dr) (- dc) color) as (n2 & H2 & Hn2 & Ha2 & He2);
    [done|done|by apply (steps_left_on_board row col (- dr) (- dc))|unfold scan_fuel; lia|].
  unfold five. rewrite H1. cbn [mbind res_bind]. rewrite H2. cbn [mbind res_bind].
  eexists. split; [reflexivity|]. rewrite Z.leb_le.
  assert (Hf : ∀ k, on_ray b (row + dr) (col + dc) dr dc color k ↔ on_ray b row col dr dc color (k + 1)).
  { intros k. unfold on_ray. by replace (row + (k + 1) * dr) with (row + dr + k * dr) by lia;
      replace (col + (k + 1) * dc) with (col + dc + k * dc) by lia. }
  assert (Hg : ∀ k, on_ray b (row - dr) (col - dc) (- dr) (- dc) color k ↔
                    on_ray b row col dr dc color (- (k + 1))).
  { intros k. unfold on_ray. by replace (row + - (k + 1) * dr) with (row - dr + k * - dr) by lia;
      replace (col + - (k + 1) * dc) with (col - dc + k * - dc) by lia. }
  split.
  - intros Hcount. exists (- Z.min n2 4). split; [lia|]. intros k Hk.
    destruct (Z.lt_trichotomy k 0) as [Hk0|[->|Hk0]].
    + replace k with (- ((- k - 1) + 1)) by lia. apply Hg, Ha2. lia.
    + unfold on_ray. by rewrite !Z.mul_0_l, !Z.add_0_r.
    + replace k with (k - 1 + 1) by lia. apply Hf, Ha1. lia.
  - intros (j & Hj & Hall). rewrite Hf in He1. rewrite Hg in He2.
    assert (¬ (n1 + 1 ≤ j + 4)) by (intros ?; apply He1, Hall; lia).
    assert (¬ (j ≤ - (n2 + 1))) by (intros ?; apply He2, Hall; lia). lia.
Qed.

Definition lined_through b (row col color : Z) : Prop :=
  ∃ dr dc, (dr, dc) ∈ directions ∧ through b row col dr dc color.

Lemma directions_unit dr dc : (dr, dc) ∈ directions → unit_dir dr dc.
Proof.
  unfold directions, unit_dir. rewrite !elem_of_cons, elem_of_nil.
  intros [[= -> ->]|[[= -> ->]|[[= -> ->]|[[= -> ->]|[]]]]]; lia.
Qed.

Lemma check_win_spec wid bid b row col color :
  board_ok b → cell b row col = Some color →
  ∃ w, check_win wid bid b row col color = Ok w ∧
    ((lined_through b row col color ∧ w = if decide (color = CHESS_WHITE) then wid else bid) ∨
     (¬ lined_through b row col color ∧ w = 0)).
Proof.
  intros Hb Hc. unfold check_win.
  assert (Hdir : ∀ dr dc, (dr, dc) ∈ directions → ∃ f, five b row col dr dc color = Ok f ∧
            (f = true ↔ through b row col dr dc color)).
  { intros dr dc Hin%directions_unit. by apply five_spec. }
  destruct (Hdir 0 1) as (f1 & H1 & Hf1); [unfold directions; set_solver|].
  destruct (Hdir 1 0) as (f2 & H2 & Hf2); [unfold directions; set_solver|].
  destruct (Hdir (-1) 1) as (f3 & H3 & Hf3); [unfold directions; set_solver|].
  destruct (Hdir (-1) (-1)) as (f4 & H4 & Hf4); [unfold directions; set_solver|].
  assert (Hany : lined_through b row col color ↔ f1 = true ∨ f2 = true ∨ f3 = true ∨ f4 = true).
  { unfold lined_through, directions. rewrite Hf1, Hf2, Hf3, Hf4. split.
    - intros (dr & dc & Hin & Ht). rewrite !elem_of_cons, elem_of_nil in Hin.
      destruct Hin as [[= -> ->]|[[= -> ->]|[[= -> ->]|[[= -> ->]|[]]]]]; auto.
    - intros [?|[?|[?|?]]]; [exists 0, 1|exists 1, 0|exists (-1), 1|exists (-1), (-1)];
        (split; [unfold directions; set_solver|done]). }
  rewrite H1, H2, H3, H4. destruct f1, f2, f3, f4; cbn [mbind res_bind];
    eexists; (split; [reflexivity|]); rewrite Hany; first [left; split; [tauto|reflexivity] | right; split; [|done]];
    intros [?|[?|[?|?]]]; done.
Qed.

(** ** Placing a stone *)

(** Rows of five after a stone of colour [color] is put on [(row, col)]. *)
Lemma lined_place b b' row col color y :
  (∀ r c, cell b' r c = if decide (r = row ∧ c = col) then Some color else cell b r c) →
  cell b row col = Some y → y ≠ color →
  (lined b' color ↔ lined b color ∨ lined_through b' row col color).
Proof.
  intros Hset Hy Hne. split.
  - intros (r & c & dr & dc & Hd & Hfive).
    destruct (decide (Exists (λ k, r + k * dr = row ∧ c + k * dc = col) [0; 1; 2; 3; 4])) as [Hex|Hno].
    + right. exists dr, dc. split; [done|]. apply Exists_exists in Hex as (k0 & Hk0 & <- & <-).
      assert (0 ≤ k0 ≤ 4) by (rewrite !elem_of_cons, elem_of_nil in Hk0; lia).
      exists (- k0). split; [lia|]. intros k Hk. unfold on_ray.
      rewrite <- (Hfive (k0 + k)) by lia. f_equal; lia.
    + left. exists r, c, dr, dc. split; [done|]. intros k Hk. rewrite <- (Hfive k Hk), Hset.
      rewrite decide_False; [done|]. intros [Hr Hc]. apply Hno, Exists_exists. exists k.
      split; [|done]. rewrite !elem_of_cons, elem_of_nil. lia.
  - intros [(r & c & dr & dc & Hd & Hfive)|(dr & dc & Hd & j & Hj & Hall)].
    + exists r, c, dr, dc. split; [done|]. intros k Hk. rewrite Hset.
      case_decide as E; [done|]. auto.
    + exists (row + j * dr), (col + j * dc), dr, dc. split; [done|]. intros k Hk.
      rewrite <- (Hall (j + k)) by lia. unfold on_ray. f_equal; lia.
Qed.

Lemma lined_place_other b b' row col color other :
  (∀ r c, cell b' r c = if decide (r = row ∧ c = col) then Some color else cell b r c) →
  other ≠ color → lined b' other → lined b other.
Proof.
  intros Hset Hne (r & c & dr & dc & Hd & Hfive). exists r, c, dr, dc. split; [done|].
  intros k Hk. specialize (Hfive k Hk). rewrite Hset in Hfive. case_decide; [congruence|done].
Qed.

(** C4: The incremental win test is exact.  On a board where [color] has no five
    in a row, a stone of [color] put on an empty cell makes [check_win], started
    at that cell, name the owner of [color] if the new board has five stones of
    [color] in a row anywhere, and answer 0 otherwise. *)
Theorem check_win_exact wid bid b row col color :
  board_ok b → cell b row col = Some 0 → color ≠ 0 → ¬ lined b color →
  ∃ b' w, set_at b row col color = Ok b' ∧ board_ok b' ∧
    check_win wid bid b' row col color = Ok w ∧
    ((lined b' color ∧ w = if decide (color = CHESS_WHITE) then wid else bid) ∨
     (¬ lined b' color ∧ w = 0)).
Proof.
  intros Hb Hc Hcol Hno. pose proof (cell_on_board _ _ _ _ Hc) as Hin.
  destruct (set_at_spec b row col color Hb Hin) as (b' & He & Hb' & Hset).
  assert (Hc' : cell b' row col = Some color) by (rewrite Hset; by rewrite decide_True).
  destruct (check_win_spec wid bid b' row col color Hb' Hc') as (w & Hw & Hcase).
  exists b', w. split; [done|]. split; [done|]. split; [done|].
  rewrite (lined_place b b' row col color 0) by done. tauto.
Qed.

(** ** Witness *)
Lemma check_win_exact_witness :
  ∃ b' w, set_at empty_board 7 7 CHESS_WHITE = Ok b' ∧ board_ok b' ∧
    check_win 5 6 b' 7 7 CHESS_WHITE = Ok w ∧
    ((lined b' CHESS_WHITE ∧ w = if decide (CHESS_WHITE = CHESS_WHITE) then 5 else 6) ∨
     (¬ lined b' CHESS_WHITE ∧ w = 0)).
Proof.
  apply (check_win_exact 5 6 empty_board 7 7 CHESS_WHITE).
  - split; [reflexivity|]. repeat constructor.
  - reflexivity.
  - discriminate.
  - intros (r & c & dr & dc & _ & Hf). specialize (Hf 0 ltac:(lia)).
    unfold cell in Hf. destruct (on_board _ _) eqn:Hin; [|discriminate].
    apply bind_Some in Hf as (line & Hl & Hx). unfold empty_board in Hl.
    apply lookup_replicate in Hl as [-> _]. apply lookup_replicate in Hx as [Hx _]. discriminate.
Defined.
