(* ===== verification/Room.v ===== *)
(** * A game room: src/game/source/room.hpp (class [room]) and online.hpp

    The request handlers of a room, the table of users online, and the calls a
    room makes on the other components, recorded as events: the updates of the
    user table (src/game/source/db.hpp) and the messages sent.

    A [Json::Value] object is the record of the members the code names.  The
    conversions [asInt], [asUInt64] and [asString] belong to JsonCpp and are the
    operations of the class [JsonLib], with what its documentation says. *)

From S2P Require Import Prelude Board.
From Stdlib Require Import String.

Open Scope Z_scope.

Record json := mkJson {
  optype : option string;
  result : option bool;
  reason : option string;
  room_id : option Z;
  uid : option Z;
  row : option Z;
  col : option Z;
  winner : option Z;
  message : option string;
}.
Definition empty_json : json := mkJson None None None None None None None None None.

Class JsonLib := {
  asInt : option Z → res Z;
  asUInt64 : option Z → res Z;
  asString : option string → res string;
  asInt_range : ∀ o z, asInt o = Ok z → -2 ^ 31 ≤ z < 2 ^ 31;
  asUInt64_value : ∀ z, 0 ≤ z < 2 ^ 64 → asUInt64 (Some z) = Ok z;
  asUInt64_null : asUInt64 None = Ok 0;
  asString_value : ∀ s, asString (Some s) = Ok s;
}.

(** Assignments [j["member"] = v] *)
Definition with_optype (v : string) (j : json) : json :=
  mkJson (Some v) (result j) (reason j) (room_id j) (uid j) (row j) (col j) (winner j) (message j).
Definition with_result (v : bool) (j : json) : json :=
  mkJson (optype j) (Some v) (reason j) (room_id j) (uid j) (row j) (col j) (winner j) (message j).
Definition with_reason (v : string) (j : json) : json :=
  mkJson (optype j) (result j) (Some v) (room_id j) (uid j) (row j) (col j) (winner j) (message j).
Definition with_winner (v : Z) (j : json) : json :=
  mkJson (optype j) (result j) (reason j) (room_id j) (uid j) (row j) (col j) (Some v) (message j).

(** ** [online_game] *)
Definition conn := positive.
(** An entry of the hall can hold a null pointer: the lookups take no lock, and one thread can
    insert such an entry ([hall_index]).  The table of the rooms belongs to the thread of the
    websocket handlers, so its lookups find what they have just seen. *)
Record online_game := mkOnline {
  _hall_user : gmap Z (option conn);
  _room_user : gmap Z conn;
}.
Definition new_online : online_game := mkOnline ∅ ∅.

(** [unordered_map::insert] keeps an entry that is there already. *)
Definition map_insert_new {A} (k : Z) (v : A) (m : gmap Z A) : gmap Z A :=
  match m !! k with Some _ => m | None => <[k := v]> m end.

Definition join_game_hall (u : Z) (c : conn) (og : online_game) : online_game :=
  mkOnline (map_insert_new u (Some c) (_hall_user og)) (_room_user og).
Definition join_game_room (u : Z) (c : conn) (og : online_game) : online_game :=
  mkOnline (_hall_user og) (map_insert_new u c (_room_user og)).
Definition exit_game_hall (u : Z) (og : online_game) : online_game :=
  mkOnline (delete u (_hall_user og)) (_room_user og).
Definition exit_game_room (u : Z) (og : online_game) : online_game :=
  mkOnline (_hall_user og) (delete u (_room_user og)).
Definition is_in_game_hall (u : Z) (og : online_game) : bool := bool_decide (is_Some (_hall_user og !! u)).
Definition is_in_game_room (u : Z) (og : online_game) : bool := bool_decide (is_Some (_room_user og !! u)).
(** [get_conn_from_hall] is [is_in_game_hall] and then [_hall_user[uid]], which inserts a null
    entry when the user has gone in between. *)
Definition hall_index (u : Z) (og : online_game) : option conn * online_game :=
  match _hall_user og !! u with
  | Some o => (o, og)
  | None => (None, mkOnline (<[u := None]> (_hall_user og)) (_room_user og))
  end.
Definition get_conn_from_hall (u : Z) (og : online_game) : option conn * online_game :=
  if is_in_game_hall u og then hall_index u og else (None, og).
Definition get_conn_from_room (u : Z) (og : online_game) : option conn := _room_user og !! u.

(** ** [room] *)
Inductive room_statu := GAME_START | GAME_OVER.
#[global] Instance room_statu_eq_dec : EqDecision room_statu.
Proof. solve_decision. Defined.

Record room := mkRoom {
  _room_id : Z;
  _statu : room_statu;
  _player_count : Z;
  _white_id : Z;
  _black_id : Z;
  _board : board;
}.

(** What a room does to the user table and to the players' connections. *)
Inductive event :=
  | EvWin (id : Z)
  | EvLose (id : Z)
  | EvSend (c : conn) (j : json).

Record rstate := mkRst { the_room : room; events : list event }.


(** [room(room_id, ...)]; the constructor does not set the players' ids. *)
Definition new_room (rid white0 black0 : Z) : room :=
  mkRoom rid GAME_START 0 white0 black0 empty_board.
Definition add_white_user (u : Z) (r : room) : room :=
  mkRoom (_room_id r) (_statu r) (_player_count r + 1) u (_black_id r) (_board r).
Definition add_black_user (u : Z) (r : room) : room :=
  mkRoom (_room_id r) (_statu r) (_player_count r + 1) (_white_id r) u (_board r).
Definition set_statu (s : room_statu) (r : room) : room :=
  mkRoom (_room_id r) s (_player_count r) (_white_id r) (_black_id r) (_board r).
Definition set_board (b : board) (r : room) : room :=
  mkRoom (_room_id r) (_statu r) (_player_count r) (_white_id r) (_black_id r) b.
Definition dec_players (r : room) : room :=
  mkRoom (_room_id r) (_statu r) (_player_count r - 1) (_white_id r) (_black_id r) (_board r).

Definition get_room : M rstate room := gets the_room.
Definition put_room (f : room → room) : M rstate () :=
  modify (λ s, mkRst (f (the_room s)) (events s)).
Definition emit (e : event) : M rstate () :=
  modify (λ s, mkRst (the_room s) (events s ++ [e])).

Definition dropped_reason : string := "运气真好！对方掉线，不战而胜！".
Definition occupied_reason : string := "当前位置已经有了其他棋子！".
Definition win_reason : string := "五星连珠，战无敌！".
Definition chat_reason : string := "消息中包含敏感词，不能发送！".
Definition exit_reason : string := "对方掉线，不战而胜！".
Definition rid_reason : string := "房间号不匹配！".
Definition unknown_reason : string := "未知请求类型".
Definition bad_word : string := "垃圾".

Section Handlers.
Context `{JsonLib} (og : online_game).

Definition handle_chess (req : json) : M rstate json :=
  chess_row ← lift_res (asInt (row req));
  chess_col ← lift_res (asInt (col req));
  cur_uid ← lift_res (asUInt64 (uid req));
  r ← get_room;
  if negb (is_in_game_room (_white_id r) og) then
    mret (with_winner (_black_id r) (with_reason dropped_reason (with_result true req)))
  else if negb (is_in_game_room (_black_id r) og) then
    mret (with_winner (_white_id r) (with_reason dropped_reason (with_result true req)))
  else
    x ← lift_res (at_ (_board r) chess_row chess_col);
    if negb (x =? 0) then mret (with_reason occupied_reason (with_result false req))
    else
      let cur_color := if cur_uid =? _white_id r then CHESS_WHITE else CHESS_BLACK in
      b ← lift_res (set_at (_board r) chess_row chess_col cur_color);
      put_room (set_board b);;
      winner_id ← lift_res (check_win (_white_id r) (_black_id r) b chess_row chess_col cur_color);
      let resp := if negb (winner_id =? 0) then with_reason win_reason req else req in
      mret (with_winner winner_id (with_result true resp)).

Definition handle_chat (req : json) : M rstate json :=
  msg ← lift_res (asString (message req));
  match String.index 0 bad_word msg with
  | Some _ => mret (with_reason chat_reason (with_result false req))
  | None => mret (with_result true req)
  end.

Definition broadcast (rsp : json) : M rstate () :=
  r ← get_room;
  match get_conn_from_room (_white_id r) og with Some c => emit (EvSend c rsp) | None => mret () end;;
  match get_conn_from_room (_black_id r) og with Some c => emit (EvSend c rsp) | None => mret () end.

(** [_tb_user->win(winner_id); _tb_user->lose(loser_id); _statu = GAME_OVER;] *)
Definition record_win (winner_id : Z) : M rstate () :=
  r ← get_room;
  let loser_id := if winner_id =? _white_id r then _black_id r else _white_id r in
  emit (EvWin (to_int32 winner_id));;
  emit (EvLose (to_int32 loser_id));;
  put_room (set_statu GAME_OVER).

Definition handle_exit (u : Z) : M rstate () :=
  r ← get_room;
  match _statu r with
  | GAME_START =>
      let winner_id := if u =? _white_id r then _black_id r else _white_id r in
      let resp := mkJson (Some "put_chess"%string) (Some true) (Some exit_reason) (Some (_room_id r))
                    (Some u) (Some (-1)) (Some (-1)) (Some winner_id) None in
      record_win winner_id;;
      broadcast resp
  | GAME_OVER => mret ()
  end;;
  put_room dec_players.

Definition handle_request (req : json) : M rstate () :=
  rid ← lift_res (asUInt64 (room_id req));
  r ← get_room;
  op ← lift_res (asString (optype req));
  if negb (rid =? _room_id r) then
    broadcast (with_reason rid_reason (with_result false (with_optype op empty_json)))
  else if decide (op = "put_chess"%string) then
    json_resp ← handle_chess req;
    w ← lift_res (asUInt64 (winner json_resp));
    (if negb (w =? 0) then record_win w else mret ());;
    broadcast json_resp
  else if decide (op = "chat"%string) then
    json_resp ← handle_chat req;
    broadcast json_resp
  else
    broadcast (with_reason unknown_reason (with_result false (with_optype op empty_json))).

End Handlers.

(** ** Invariant of a room *)
Record room_inv (r : room) : Prop := {
  ri_board : board_ok (_board r);
  ri_stones : ∀ i j x, cell (_board r) i j = Some x → x = 0 ∨ x = CHESS_WHITE ∨ x = CHESS_BLACK;
  ri_running : _statu r = GAME_START → ¬ lined (_board r) CHESS_WHITE ∧ ¬ lined (_board r) CHESS_BLACK;
  ri_white : 0 < _white_id r < 2 ^ 64;
  ri_black : 0 < _black_id r < 2 ^ 64;
}.

(** Stones stay where they are. *)
Definition stones_kept (b b' : board) : Prop :=
  ∀ i j x, cell b i j = Some x → x ≠ 0 → cell b' i j = Some x.

Lemma stones_kept_refl b : stones_kept b b.
Proof. by intros i j x. Qed.
Lemma stones_kept_trans b1 b2 b3 : stones_kept b1 b2 → stones_kept b2 b3 → stones_kept b1 b3.
Proof. intros H1 H2 i j x Hx Hne. auto. Qed.

Lemma empty_board_cell i j x : cell empty_board i j = Some x → x = 0.
Proof.
  unfold cell. destruct (on_board i j); [|done]. intros (line & Hl & Hx)%bind_Some.
  apply lookup_replicate in Hl as [-> _]. by apply lookup_replicate in Hx as [-> _].
Qed.
Lemma empty_board_lined color : color ≠ 0 → ¬ lined empty_board color.
Proof.
  intros Hc (r & c & dr & dc & _ & Hf). specialize (Hf 0 ltac:(lia)).
  by apply Hc, (empty_board_cell _ _ _ Hf).
Qed.

Lemma new_room_inv rid w0 b0 u1 u2 :
  0 < u1 < 2 ^ 64 → 0 < u2 < 2 ^ 64 →
  room_inv (add_black_user u2 (add_white_user u1 (new_room rid w0 b0))).
Proof.
  intros H1 H2. split; simpl; try done.
  - split; [done|]. repeat constructor.
  - intros i j x Hx%empty_board_cell. auto.
  - intros _. split; by apply empty_board_lined.
Qed.

Section Proofs.
Context `{JL : JsonLib}.

(** What a successful [handle_chess] did. *)
Inductive chess_outcome (req : json) (r : room) : json → room → Prop :=
  | Dropped j w : (w = _black_id r ∨ w = _white_id r) → winner j = Some w → chess_outcome req r j r
  | Occupied i k x : cell (_board r) i k = Some x → x ≠ 0 →
      chess_outcome req r (with_reason occupied_reason (with_result false req)) r
  | Placed j i k b color w :
      color = CHESS_WHITE ∨ color = CHESS_BLACK →
      cell (_board r) i k = Some 0 → board_ok b →
      (∀ i' k', cell b i' k' = if decide (i' = i ∧ k' = k) then Some color else cell (_board r) i' k') →
      winner j = Some w →
      (lined_through b i k color ∧ w = (if decide (color = CHESS_WHITE) then _white_id r else _black_id r) ∨
       ¬ lined_through b i k color ∧ w = 0) →
      chess_outcome req r j (set_board b r).

Lemma lift_res_inv {S A} (m : res A) (s : S) a s' : lift_res m s = Ok (a, s') → m = Ok a ∧ s' = s.
Proof. unfold lift_res. destruct m; [|done]. intros [= -> ->]. done. Qed.

Lemma handle_chess_outcome og req s j s' :
  room_inv (the_room s) → handle_chess og req s = Ok (j, s') →
  events s' = events s ∧ chess_outcome req (the_room s) j (the_room s').
Proof.
  intros Hinv He. unfold handle_chess in He.
  apply bind_inv in He as (i & s1 & [Hi ->]%lift_res_inv & He).
  apply bind_inv in He as (k & s1 & [Hk ->]%lift_res_inv & He).
  apply bind_inv in He as (u & s1 & [Hu ->]%lift_res_inv & He).
  erewrite bind_ok in He by reflexivity. set (r := the_room s) in *.
  destruct (is_in_game_room (_white_id r) og); cbn [negb] in He.
  2: { injection He as <- <-. split; [done|]. by eapply Dropped; [left|]. }
  destruct (is_in_game_room (_black_id r) og); cbn [negb] in He.
  2: { injection He as <- <-. split; [done|]. by eapply Dropped; [right|]. }
  apply bind_inv in He as (x & s1 & [Hx ->]%lift_res_inv & He).
  pose proof (ri_board _ Hinv) as Hb. pose proof (at_cell _ _ _ _ Hb Hx) as Hcell.
  destruct (Z.eqb_spec x 0) as [->|Hx0]; cbn [negb] in He.
  2: { injection He as <- <-. split; [done|]. by eapply Occupied. }
  set (color := if u =? _white_id r then CHESS_WHITE else CHESS_BLACK) in *. cbv zeta in He.
  apply bind_inv in He as (b & s1 & [Hset ->]%lift_res_inv & He).
  destruct (set_at_spec (_board r) i k color Hb (cell_on_board _ _ _ _ Hcell)) as (b' & Hset' & Hb' & Hcells).
  assert (b' = b) as -> by congruence.
  erewrite bind_ok in He by reflexivity.
  apply bind_inv in He as (w & s1 & [Hw ->]%lift_res_inv & He).
  destruct (check_win_spec (_white_id r) (_black_id r) b i k color Hb') as (w' & Hw' & Hcase).
  { rewrite Hcells. by rewrite decide_True. }
  assert (w' = w) as -> by congruence. injection He as <- <-. split; [done|].
  apply (Placed req r _ i k b color w); [|exact Hcell|exact Hb'|exact Hcells|reflexivity|exact Hcase].
  unfold color. destruct (u =? _white_id r); auto.
Qed.

(** The parts of a request that do not touch the board. *)
Definition same_game (s s' : rstate) : Prop :=
  the_room s' = the_room s ∨ the_room s' = set_statu GAME_OVER (the_room s).

Lemma broadcast_room og rsp s s' : broadcast og rsp s = Ok ((), s') → the_room s' = the_room s.
Proof.
  unfold broadcast. intros He. erewrite bind_ok in He by reflexivity.
  destruct (get_conn_from_room _ _), (get_conn_from_room _ _);
    unfold emit, modify, mbind, M_bind, mret, M_ret in He; by injection He as <-.
Qed.

Definition is_send (e : event) : Prop := match e with EvSend _ _ => True | _ => False end.

Lemma broadcast_ok og rsp s :
  ∃ msgs, broadcast og rsp s = Ok ((), mkRst (the_room s) (events s ++ msgs)) ∧ Forall is_send msgs.
Proof.
  unfold broadcast. erewrite bind_ok by reflexivity.
  destruct (get_conn_from_room (_white_id _) _) as [c1|], (get_conn_from_room (_black_id _) _) as [c2|];
    [exists [EvSend c1 rsp; EvSend c2 rsp]|exists [EvSend c1 rsp]|exists [EvSend c2 rsp]|exists []];
    (split; [unfold emit, modify, mbind, M_bind, mret, M_ret; cbn [the_room events];
             rewrite ?app_nil_r, <- ?app_assoc; by destruct s|by repeat constructor]).
Qed.

Lemma record_win_ok w s :
  record_win w s = Ok ((), mkRst (set_statu GAME_OVER (the_room s))
    (events s ++ [EvWin (to_int32 w);
       EvLose (to_int32 (if w =? _white_id (the_room s) then _black_id (the_room s) else _white_id (the_room s)))])).
Proof.
  unfold record_win, get_room, emit, put_room, modify, gets, mbind, M_bind. simpl.
  by rewrite <- app_assoc.
Qed.

Lemma room_inv_over r : room_inv r → room_inv (set_statu GAME_OVER r).
Proof. intros [? ? ? ? ?]. split; try done. Qed.

(** After a placed stone, with the status the request leaves. *)
Lemma placed_inv r b i k color w :
  room_inv r → color = CHESS_WHITE ∨ color = CHESS_BLACK →
  cell (_board r) i k = Some 0 → board_ok b →
  (∀ i' k', cell b i' k' = if decide (i' = i ∧ k' = k) then Some color else cell (_board r) i' k') →
  (lined_through b i k color ∧ w = (if decide (color = CHESS_WHITE) then _white_id r else _black_id r) ∨
   ¬ lined_through b i k color ∧ w = 0) →
  stones_kept (_board r) b ∧ (w = 0 → room_inv (set_board b r)) ∧
  room_inv (set_statu GAME_OVER (set_board b r)).
Proof.
  intros [Hb Hst Hrun Hw Hbk] Hcol Hcell Hb' Hcells Hcase.
  assert (Hst' : ∀ i' k' x, cell b i' k' = Some x → x = 0 ∨ x = CHESS_WHITE ∨ x = CHESS_BLACK).
  { intros i' k' x. rewrite Hcells. destruct (decide (i' = i ∧ k' = k)); [intros [= <-]; tauto|]. apply Hst. }
  split; [|split].
  - intros i' k' x Hx Hne. rewrite Hcells. destruct (decide (i' = i ∧ k' = k)) as [[-> ->]|]; [congruence|done].
  - intros ->. split; simpl; auto. intros Hs. destruct (Hrun Hs) as [Hnw Hnb].
    destruct Hcase as [[_ Hw0]|[Hno _]]; [case_decide; lia|].
    assert (Hnl : ∀ c, ¬ lined (_board r) c → c ≠ 0 → ¬ lined b c).
    { intros c Hnc Hc0 Hl. destruct (decide (c = color)) as [->|Hne].
      - apply (lined_place (_board r) b i k color 0) in Hl as [?|?]; done || congruence.
      - by apply Hnc, (lined_place_other _ _ i k color c Hcells Hne). }
    split; apply Hnl; done.
  - split; simpl; auto. done.
Qed.

Lemma handle_request_inv og req s s' :
  room_inv (the_room s) → handle_request og req s = Ok ((), s') →
  room_inv (the_room s') ∧ stones_kept (_board (the_room s)) (_board (the_room s')).
Proof.
  intros Hinv He. unfold handle_request in He.
  apply bind_inv in He as (rid & s1 & [_ ->]%lift_res_inv & He). erewrite bind_ok in He by reflexivity.
  apply bind_inv in He as (op & s1 & [_ ->]%lift_res_inv & He).
  destruct (negb _).
  { rewrite (broadcast_room _ _ _ _ He). split; [done|apply stones_kept_refl]. }
  repeat case_decide.
  - apply bind_inv in He as (j & s1 & Hc & He).
    destruct (handle_chess_outcome _ _ _ _ _ Hinv Hc) as [_ Hout].
    apply bind_inv in He as (w & s2 & [Hw ->]%lift_res_inv & He).
    apply bind_inv in He as ([] & s3 & Hrec & Hbr). rewrite (broadcast_room _ _ _ _ Hbr). clear Hbr Hc.
    assert (Hs3 : the_room s3 = (if w =? 0 then the_room s1 else set_statu GAME_OVER (the_room s1))).
    { destruct (w =? 0); cbn [negb] in Hrec; [by injection Hrec as <- |].
      rewrite record_win_ok in Hrec. by injection Hrec as <-. }
    rewrite Hs3. clear Hs3 Hrec. inversion Hout as [? w' ? ? Hj|? ? ? ? ? Hj|? i k b color w' Hcol Hcell Hb Hcells Hwin Hcase]; subst.
    + destruct (w =? 0); (split; [auto using room_inv_over|apply stones_kept_refl]).
    + destruct (w =? 0); (split; [auto using room_inv_over|apply stones_kept_refl]).
    + destruct (placed_inv (the_room s) b i k color w' Hinv Hcol Hcell Hb Hcells Hcase) as (Hk & Hi & Ho).
      rewrite Hwin in Hw. assert (w' = w) as ->.
      { rewrite asUInt64_value in Hw; [by injection Hw|]. pose proof (ri_white _ Hinv). pose proof (ri_black _ Hinv).
        destruct Hcase as [[_ ->]|[_ ->]]; [case_decide; lia|lia]. }
      destruct (Z.eqb_spec w 0) as [->|]; split; auto.
  - apply bind_inv in He as (j & s1 & Hc & He). unfold handle_chat in Hc.
    apply bind_inv in Hc as (m & s2 & [_ ->]%lift_res_inv & Hc).
    rewrite (broadcast_room _ _ _ _ He). destruct (String.index _ _ _); injection Hc as <- <-;
      (split; [done|apply stones_kept_refl]).
  - rewrite (broadcast_room _ _ _ _ He). split; [done|apply stones_kept_refl].
Qed.

Lemma handle_exit_inv og u s s' :
  room_inv (the_room s) → handle_exit og u s = Ok ((), s') →
  room_inv (the_room s') ∧ stones_kept (_board (the_room s)) (_board (the_room s')).
Proof.
  intros Hinv He. unfold handle_exit in He. erewrite bind_ok in He by reflexivity.
  apply bind_inv in He as ([] & s1 & H1 & He). injection He as <-. simpl.
  assert (the_room s1 = the_room s ∨ the_room s1 = set_statu GAME_OVER (the_room s)) as Hs1.
  { destruct (_statu (the_room s)); [|injection H1 as <-; by left ]. right.
    cbv zeta in H1. erewrite bind_ok in H1 by apply record_win_ok.
    by rewrite (broadcast_room _ _ _ _ H1). }
  destruct Hinv as [? ? ? ? ?]. destruct Hs1 as [Hs1 | Hs1]; rewrite Hs1;
    (split; [split; done|apply stones_kept_refl]).
Qed.

(** ** Requests that are handled *)

(** The members that the handler reads can be converted, and a move names a cell of the board. *)
Definition readable (req : json) : Prop :=
  (∃ rid, asUInt64 (room_id req) = Ok rid) ∧
  ∃ op, asString (optype req) = Ok op ∧
    (op = "put_chess"%string → ∃ i k u w, asInt (row req) = Ok i ∧ asInt (col req) = Ok k ∧ on_board i k = true ∧
       asUInt64 (uid req) = Ok u ∧ asUInt64 (winner req) = Ok w) ∧
    (op = "chat"%string → ∃ m, asString (message req) = Ok m).

(** The handler of a move on the board returns, with a winner that can be read. *)
Lemma handle_chess_total og req s i k u w :
  room_inv (the_room s) → asInt (row req) = Ok i → asInt (col req) = Ok k → on_board i k = true →
  asUInt64 (uid req) = Ok u → asUInt64 (winner req) = Ok w →
  ∃ j s' w', handle_chess og req s = Ok (j, s') ∧ asUInt64 (winner j) = Ok w'.
Proof.
  intros Hinv Hi Hk Hon Hu Hw. unfold handle_chess. rewrite Hi, Hk, Hu. do 3 (erewrite bind_ok by reflexivity).
  erewrite bind_ok by reflexivity. pose proof (ri_white _ Hinv). pose proof (ri_black _ Hinv).
  destruct (is_in_game_room (_white_id _) og); cbn [negb];
    [|by eexists _, s, _; split; [done|apply asUInt64_value; lia]].
  destruct (is_in_game_room (_black_id _) og); cbn [negb];
    [|by eexists _, s, _; split; [done|apply asUInt64_value; lia]].
  pose proof (ri_board _ Hinv) as Hb. destruct (cell_total _ i k Hb Hon) as (x & Hx & Hat). rewrite Hat.
  erewrite bind_ok by reflexivity. destruct (Z.eqb_spec x 0) as [->|]; cbn [negb]; [|by exists (with_reason occupied_reason (with_result false req)), s, w].
  cbv zeta. set (color := if u =? _white_id (the_room s) then CHESS_WHITE else CHESS_BLACK).
  destruct (set_at_spec (_board (the_room s)) i k color Hb Hon) as (b & -> & Hb' & Hcells). do 2 (erewrite bind_ok by reflexivity).
  destruct (check_win_spec (_white_id (the_room s)) (_black_id (the_room s)) b i k color Hb') as (w' & -> & Hcase); [by rewrite Hcells, decide_True|].
  erewrite bind_ok by reflexivity. eexists _, _, w'. split; [done|]. apply asUInt64_value.
  destruct Hcase as [[_ ->]|[_ ->]]; [case_decide; lia|lia].
Qed.

Lemma handle_request_total og req s :
  room_inv (the_room s) → readable req → ∃ s', handle_request og req s = Ok ((), s').
Proof.
  intros Hinv ([rid Hrid] & op & Hop & Hput & Hchat). unfold handle_request. rewrite Hrid, Hop.
  do 3 (erewrite bind_ok by reflexivity).
  assert (Hbr : ∀ j s0, ∃ s', broadcast og j s0 = Ok ((), s')).
  { intros j s0. destruct (broadcast_ok og j s0) as (m & -> & _). by eexists. }
  destruct (negb _); [apply Hbr|]. repeat case_decide; [| |apply Hbr].
  - destruct Hput as (i & k & u & w & Hi & Hk & Hon & Hu & Hw); [done|].
    destruct (handle_chess_total og req s i k u w Hinv Hi Hk Hon Hu Hw) as (j & s1 & w' & Hc & Hw').
    erewrite bind_ok by exact Hc. rewrite Hw'. erewrite bind_ok by reflexivity.
    destruct (negb _); [erewrite bind_ok by apply record_win_ok|erewrite bind_ok by reflexivity]; apply Hbr.
  - destruct Hchat as [m Hm]; [done|]. unfold handle_chat. rewrite Hm.
    destruct (String.index 0 bad_word m) eqn:E; erewrite bind_ok by (erewrite bind_ok by reflexivity; rewrite E; reflexivity); apply Hbr.
Qed.

Lemma handle_exit_total og u s : ∃ s', handle_exit og u s = Ok ((), s').
Proof.
  unfold handle_exit. erewrite bind_ok by reflexivity. destruct (_statu _); [|by eexists]. cbv zeta.
  match goal with |- ∃ s', ((record_win ?w;; broadcast og ?j);; _) _ = _ =>
    destruct (broadcast_ok og j (mkRst (set_statu GAME_OVER (the_room s)) (events s ++ [EvWin (to_int32 w);
       EvLose (to_int32 (if w =? _white_id (the_room s) then _black_id (the_room s) else _white_id (the_room s)))]))) as (m & Hm & _) end.
  eexists. erewrite bind_ok; [reflexivity|]. erewrite bind_ok by apply record_win_ok. exact Hm.
Qed.

(** ** A room over time *)

(** A request whose handler does not return has no next state: either a conversion throws, which
    ends the server, or the place is outside the vectors of the board, which is undefined. *)
Inductive room_step : rstate → rstate → Prop :=
  | StepRequest og req s s' : handle_request og req s = Ok ((), s') → room_step s s'
  | StepExit og u s s' : handle_exit og u s = Ok ((), s') → room_step s s'.

Lemma room_steps_inv s s' :
  rtc room_step s s' → room_inv (the_room s) →
  room_inv (the_room s') ∧ stones_kept (_board (the_room s)) (_board (the_room s')).
Proof.
  induction 1 as [s|s1 s2 s3 Hs _ IH]; intros Hinv; [split; [done|apply stones_kept_refl]|].
  assert (room_inv (the_room s2) ∧ stones_kept (_board (the_room s1)) (_board (the_room s2))) as [H2 Hk].
  { destruct Hs as [og req s s' He|og u s s' He];
      [by eapply handle_request_inv|by eapply handle_exit_inv]. }
  destruct (IH H2) as [H3 Hk']. split; [done|]. by eapply stones_kept_trans.
Qed.

(** C24: Whatever requests the players send and whenever they leave, online or not, as long as each
    handler returns: the board keeps its size and holds only empty cells, white and black stones; no
    stone is ever moved, removed or recoloured; while the room reports [GAME_START] neither colour
    has five in a row; and the handlers go on to return: every exit does, and every request whose
    members have the types the handler reads them as and, for a move, whose row and column are on
    the board. Other requests are not covered: a conversion throws, or, since the code does not test
    the coordinates, the board is accessed outside its vectors, which is undefined
    ([off_board_undefined]). *)
Theorem room_reachable_inv rid w0 b0 u1 u2 evs s1 s2 :
  0 < u1 < 2 ^ 64 → 0 < u2 < 2 ^ 64 →
  rtc room_step (mkRst (add_black_user u2 (add_white_user u1 (new_room rid w0 b0))) evs) s1 →
  rtc room_step s1 s2 →
  room_inv (the_room s1) ∧ room_inv (the_room s2) ∧
  stones_kept (_board (the_room s1)) (_board (the_room s2)) ∧
  (∀ og req, readable req → ∃ s', handle_request og req s2 = Ok ((), s')) ∧
  (∀ og u, ∃ s', handle_exit og u s2 = Ok ((), s')).
Proof.
  intros H1 H2 Hr1 Hr2. destruct (room_steps_inv _ _ Hr1) as [Hi1 _]; [by apply new_room_inv|].
  destruct (room_steps_inv _ _ Hr2 Hi1). split_and!; [done|done|done| |]; intros; [by apply handle_request_total|apply handle_exit_total].
Qed.

(** A place outside the board, from a player of a room whose players are both there. *)
Lemma off_board_undefined og req s i k u :
  room_inv (the_room s) → asInt (row req) = Ok i → asInt (col req) = Ok k → on_board i k = false → asUInt64 (uid req) = Ok u →
  is_in_game_room (_white_id (the_room s)) og = true → is_in_game_room (_black_id (the_room s)) og = true →
  handle_chess og req s = Err OutOfBounds.
Proof.
  intros Hinv Hi Hk Hon Hu Hw Hb. unfold handle_chess. rewrite Hi, Hk, Hu. do 4 (erewrite bind_ok by reflexivity).
  rewrite Hw, Hb. cbn [negb]. unfold mbind, M_bind, lift_res.
  destruct (at_ (_board (the_room s)) i k) as [x|e] eqn:E.
  - apply (at_cell _ _ _ _ (ri_board _ Hinv)) in E. apply cell_on_board in E. congruence.
  - unfold at_ in E. repeat case_match; congruence.
Qed.

(** The two messages of a broadcast to players who are both in the room. *)
Lemma broadcast_both og rsp s cw cb :
  _room_user og !! _white_id (the_room s) = Some cw → _room_user og !! _black_id (the_room s) = Some cb →
  broadcast og rsp s = Ok ((), mkRst (the_room s) (events s ++ [EvSend cw rsp; EvSend cb rsp])).
Proof.
  intros Hw Hb. unfold broadcast. erewrite bind_ok by reflexivity. unfold get_conn_from_room.
  rewrite Hw, Hb. unfold emit, modify, mbind, M_bind. simpl. by rewrite <- app_assoc.
Qed.

(** What a move that is carried out does: the new board, and the answer. *)
Definition move_answer (r : room) (b : board) (req : json) (color : Z) (won : bool) : json :=
  let owner := if decide (color = CHESS_WHITE) then _white_id r else _black_id r in
  if won then with_winner owner (with_result true (with_reason win_reason req))
  else with_winner 0 (with_result true req).

(** A move.  In a running game with both players in the room, a [put_chess]
    request for an empty cell places a stone of the sender's colour there, and
    is answered to both players.  If the stone makes five in a row, the answer
    names the sender's colour as winner, the user table records one win and one
    loss, and the game is over; otherwise the answer has winner 0 and the game
    goes on. *)
Theorem put_chess_spec og req s i k u cw cb :
  let r := the_room s in
  let color := if u =? _white_id r then CHESS_WHITE else CHESS_BLACK in
  let owner := if decide (color = CHESS_WHITE) then _white_id r else _black_id r in
  let other := if owner =? _white_id r then _black_id r else _white_id r in
  room_inv r → _statu r = GAME_START →
  room_id req = Some (_room_id r) → 0 ≤ _room_id r < 2 ^ 64 → optype req = Some "put_chess"%string →
  asInt (row req) = Ok i → asInt (col req) = Ok k → asUInt64 (uid req) = Ok u →
  _room_user og !! _white_id r = Some cw → _room_user og !! _black_id r = Some cb →
  cell (_board r) i k = Some 0 →
  ∃ b won, set_at (_board r) i k color = Ok b ∧ (won = true ↔ lined b color) ∧
    let j := move_answer r b req color won in
    handle_request og req s = Ok ((), mkRst
      (if (won : bool) then set_statu GAME_OVER (set_board b r) else set_board b r)
      (events s ++ (if won then [EvWin (to_int32 owner); EvLose (to_int32 other)] else []) ++
       [EvSend cw j; EvSend cb j])).
Proof.
  intros r color owner other Hinv Hs Hrid Hrr Hop Hi Hk Hu Hw Hb Hcell.
  pose proof (cell_on_board _ _ _ _ Hcell) as Hin. pose proof (ri_board _ Hinv) as Hbo.
  destruct (set_at_spec (_board r) i k color Hbo Hin) as (b & Hset & Hb' & Hcells).
  destruct (check_win_spec (_white_id r) (_black_id r) b i k color Hb') as (w & Hcw & Hcase).
  { rewrite Hcells. by rewrite decide_True. }
  assert (Hcol : color = CHESS_WHITE ∨ color = CHESS_BLACK) by (unfold color; destruct (_ =? _); auto).
  assert (Hnl : ¬ lined (_board r) color) by (destruct (ri_running _ Hinv Hs), Hcol as [->| ->]; done).
  assert (Hl : lined b color ↔ lined_through b i k color).
  { rewrite (lined_place (_board r) b i k color 0); [tauto|done|done|]. by destruct Hcol as [->| ->]. }
  pose proof (ri_white _ Hinv) as Hww. pose proof (ri_black _ Hinv) as Hbb.
  assert (Hchess : handle_chess og req s = Ok
    (move_answer r b req color (negb (w =? 0)), mkRst (set_board b r) (events s))).
  { unfold handle_chess. rewrite Hi, Hk, Hu. do 4 (erewrite bind_ok by reflexivity). fold r.
    unfold is_in_game_room. rewrite Hw, Hb. cbn [negb]. rewrite !bool_decide_eq_true_2 by eauto. cbn [negb].
    destruct (cell_total _ _ _ Hbo Hin) as (x & Hx & Hat). assert (x = 0) as -> by congruence.
    rewrite Hat. erewrite bind_ok by reflexivity. cbn [Z.eqb negb]. cbv zeta. fold color. rewrite Hset.
    do 2 (erewrite bind_ok by reflexivity). rewrite Hcw. erewrite bind_ok by reflexivity.
    unfold move_answer, mret, M_ret. do 2 f_equal. fold owner.
    destruct (Z.eqb_spec w 0) as [->|Hw0]; [done|]. cbn [negb].
    destruct Hcase as [[_ ->]|[_ ?]]; [done|lia]. }
  exists b, (negb (w =? 0)). split; [done|]. split.
  { rewrite Hl, negb_true_iff, Z.eqb_neq. destruct Hcase as [[? ->]|[? ->]]; [case_decide; split; auto; lia|tauto]. }
  cbv zeta. unfold handle_request. rewrite Hrid, asUInt64_value by done. erewrite bind_ok by reflexivity.
  erewrite bind_ok by reflexivity. rewrite Hop, asString_value. erewrite bind_ok by reflexivity.
  fold r. rewrite Z.eqb_refl. cbn [negb]. rewrite decide_True by done.
  erewrite bind_ok by exact Hchess.
  destruct (Z.eqb_spec w 0) as [->|Hw0]; cbn [negb move_answer winner with_winner].
  - rewrite asUInt64_value by lia. do 2 (erewrite bind_ok by reflexivity).
    unfold move_answer. by rewrite (broadcast_both og _ (mkRst _ _) cw cb).
  - fold owner. assert (w = owner) as Hwo by (destruct Hcase as [[_ ->]|[_ ?]]; [done|lia]).
    assert (0 < owner < 2 ^ 64) by (unfold owner; case_decide; lia).
    unfold move_answer. cbv zeta. fold owner. cbn [winner with_winner].
    rewrite asUInt64_value by lia. erewrite bind_ok by reflexivity.
    rewrite (proj2 (Z.eqb_neq owner 0)) by lia. cbn [negb]. erewrite bind_ok by apply record_win_ok.
    rewrite (broadcast_both og _ (mkRst _ _) cw cb) by done. cbn [the_room events]. fold other.
    by rewrite <- app_assoc.
Qed.

(** A player who leaves a running game loses it: the user table records a
    win for the other player and a loss for the one who leaves, and the game is
    over; leaving a finished game changes no score. *)
Theorem handle_exit_spec og u s :
  let r := the_room s in
  let winner_id := if u =? _white_id r then _black_id r else _white_id r in
  let loser_id := if winner_id =? _white_id r then _black_id r else _white_id r in
  ∃ s' msgs, handle_exit og u s = Ok ((), s') ∧
    _player_count (the_room s') = _player_count r - 1 ∧ _statu (the_room s') = GAME_OVER ∧
    _board (the_room s') = _board r ∧
    events s' = events s ++ (match _statu r with
      | GAME_START => [EvWin (to_int32 winner_id); EvLose (to_int32 loser_id)] ++ msgs
      | GAME_OVER => []
      end) ∧
    Forall is_send msgs.
Proof.
  intros r winner_id loser_id. unfold handle_exit. erewrite bind_ok by reflexivity. fold r. cbv zeta.
  destruct (_statu r) eqn:Es.
  2: { exists (mkRst (dec_players r) (events s)), []. by rewrite app_nil_r. }
  fold winner_id.
  set (j := mkJson _ _ _ _ _ _ _ _ _).
  set (s1 := mkRst (set_statu GAME_OVER r) (events s ++ [EvWin (to_int32 winner_id); EvLose (to_int32 loser_id)])).
  destruct (broadcast_ok og j s1) as (msgs & Hbr & Hm).
  erewrite bind_ok by (erewrite bind_ok by apply record_win_ok; exact Hbr).
  eexists _, msgs. split; [reflexivity|]. simpl. rewrite <- app_assoc. done.
Qed.

(** The answer to a refused move is a copy of the request, and the winner is
    read from the answer: a [put_chess] request for an occupied cell that carries
    a member [winner] makes the room record a win for that user and end the
    game. *)
Theorem forged_winner_recorded og req s i k u x w :
  let r := the_room s in
  room_inv r →
  room_id req = Some (_room_id r) → 0 ≤ _room_id r < 2 ^ 64 → optype req = Some "put_chess"%string →
  asInt (row req) = Ok i → asInt (col req) = Ok k → asUInt64 (uid req) = Ok u →
  is_in_game_room (_white_id r) og = true → is_in_game_room (_black_id r) og = true →
  cell (_board r) i k = Some x → x ≠ 0 →
  winner req = Some w → 0 < w < 2 ^ 64 →
  ∃ s', handle_request og req s = Ok ((), s') ∧ _statu (the_room s') = GAME_OVER ∧
    EvWin (to_int32 w) ∈ events s'.
Proof.
  intros r Hinv Hrid Hrr Hop Hi Hk Hu Hw Hb Hcell Hx0 Hwin Hwr.
  unfold handle_request. rewrite Hrid, asUInt64_value by done. do 2 (erewrite bind_ok by reflexivity).
  rewrite Hop, asString_value. erewrite bind_ok by reflexivity. fold r. rewrite Z.eqb_refl. cbn [negb].
  rewrite decide_True by done.
  assert (handle_chess og req s = Ok (with_reason occupied_reason (with_result false req), s)) as Hc.
  { unfold handle_chess. rewrite Hi, Hk, Hu. do 4 (erewrite bind_ok by reflexivity). fold r.
    rewrite Hw, Hb. cbn [negb].
    destruct (cell_total _ _ _ (ri_board _ Hinv) (cell_on_board _ _ _ _ Hcell)) as (x' & Hx & Hat).
    assert (x' = x) as -> by congruence. rewrite Hat. erewrite bind_ok by reflexivity.
    by rewrite (proj2 (Z.eqb_neq x 0) Hx0). }
  erewrite bind_ok by exact Hc. cbn [winner with_reason with_result]. rewrite Hwin, asUInt64_value by lia.
  erewrite bind_ok by reflexivity. rewrite (proj2 (Z.eqb_neq w 0)) by lia. cbn [negb].
  erewrite bind_ok by apply record_win_ok.
  set (s1 := mkRst _ _).
  destruct (broadcast_ok og (with_reason occupied_reason (with_result false req)) s1) as (ms & Hs' & _).
  eexists. split; [exact Hs'|]. split; [done|]. unfold s1. simpl. set_solver.
Qed.

End Proofs.

(** ** Concrete runs *)

(** An instance of the JSON interface: absent members convert to 0, and a number
    outside the range of the type is refused. *)
#[local] Program Instance json_checked : JsonLib := {|
  asInt o := match o with
    | None => Ok 0
    | Some z => if decide (-2 ^ 31 ≤ z < 2 ^ 31) then Ok z else Err StdException end;
  asUInt64 o := match o with
    | None => Ok 0
    | Some z => if decide (0 ≤ z < 2 ^ 64) then Ok z else Err StdException end;
  asString o := match o with None => Ok ""%string | Some s => Ok s end;
|}.
Next Obligation. intros [z0|] z; simpl; [case_decide|]; intros [= <-]; lia. Qed.
Next Obligation. intros z Hz. simpl. by rewrite decide_True. Qed.
Next Obligation. done. Qed.
Next Obligation. done. Qed.

Definition play (u i k : Z) : json :=
  mkJson (Some "put_chess"%string) None None (Some 1) (Some u) (Some i) (Some k) None None.
Definition two_players : online_game := join_game_room 11 1%positive (join_game_room 12 2%positive new_online).
Definition room_11_12 : rstate := mkRst (add_black_user 12 (add_white_user 11 (new_room 1 0 0))) [].
Fixpoint requests (reqs : list json) : M rstate () :=
  match reqs with [] => mret () | q :: reqs => handle_request two_players q;; requests reqs end.
Definition wins (s : rstate) : list event :=
  List.filter (λ e, match e with EvSend _ _ => false | _ => true end) (events s).

(** Nothing in [handle_chess] looks at whose turn it is or at [_statu]: one
    player can place six stones in a row, and is recorded as winner twice in the
    same game. *)
Theorem unchecked_turns_repeat_wins :
  ∃ s, requests [play 11 7 1; play 11 7 2; play 11 7 3; play 11 7 4; play 11 7 5; play 11 7 6]
         room_11_12 = Ok ((), s) ∧
       wins s = [EvWin 11; EvLose 12; EvWin 11; EvLose 12].
Proof. eexists. split; [vm_compute; reflexivity|reflexivity]. Qed.

Lemma room_11_12_inv : room_inv (the_room room_11_12).
Proof. apply new_room_inv; lia. Qed.

(** The room after the first stone. *)
Definition after_77 : rstate :=
  mkRst (set_board (alter (λ line : list Z, <[7%nat := 1]> line) 7%nat empty_board) (the_room room_11_12))
    (let j := with_winner 0 (with_result true (play 11 7 7)) in [EvSend 1%positive j; EvSend 2%positive j]).
Lemma after_77_ok : handle_request two_players (play 11 7 7) room_11_12 = Ok ((), after_77).
Proof. vm_compute. reflexivity. Qed.

(** ** Witnesses *)
Lemma room_reachable_inv_witness :
  ∃ s, requests [play 11 7 7] room_11_12 = Ok ((), s) ∧ room_inv (the_room s) ∧
    stones_kept empty_board (_board (the_room s)).
Proof.
  exists after_77. split; [vm_compute; reflexivity|].
  destruct (room_reachable_inv 1 0 0 11 12 [] room_11_12
    after_77)
    as (_ & H1 & H2 & _); [lia|lia|apply rtc_refl| |split; [exact H1|exact H2]].
  apply rtc_once. exact (StepRequest two_players (play 11 7 7) _ _ after_77_ok).
Defined.

Lemma put_chess_spec_witness :
  ∃ b won, set_at empty_board 7 7 CHESS_WHITE = Ok b ∧ (won = true ↔ lined b CHESS_WHITE) ∧
    ∃ s, handle_request two_players (play 11 7 7) room_11_12 = Ok ((), s).
Proof.
  destruct (put_chess_spec two_players (play 11 7 7) room_11_12 7 7 11 1%positive 2%positive)
    as (b & won & H1 & H2 & H3); try reflexivity; try (simpl; lia).
  - exact room_11_12_inv.
  - exists b, won. split; [exact H1|]. split; [exact H2|]. eexists. exact H3.
Defined.

Lemma forged_winner_recorded_witness :
  ∃ s s', requests [play 11 7 7] room_11_12 = Ok ((), s) ∧
    handle_request two_players
      (mkJson (Some "put_chess"%string) None None (Some 1) (Some 11) (Some 7) (Some 7) (Some 11) None) s
      = Ok ((), s') ∧ EvWin 11 ∈ events s'.
Proof.
  exists after_77. destruct (forged_winner_recorded two_players
    (mkJson (Some "put_chess"%string) None None (Some 1) (Some 11) (Some 7) (Some 7) (Some 11) None)
    after_77 7 7 11 1 11) as (s' & H1 & _ & H3); try (vm_compute; reflexivity); try (simpl; lia).
  - apply (handle_request_inv two_players (play 11 7 7) room_11_12 after_77 room_11_12_inv after_77_ok).
  - exists s'. split; [vm_compute; reflexivity|]. split; [exact H1|exact H3].
Defined.
