(* ===== verification/Lobby.v ===== *)
(** * Rooms and matching: src/game/source/room.hpp (class [room_manager]) and matcher.hpp

    The table of rooms and of the players in them, and the three matching
    queues.  A [room_ptr] is shared by the table and its users, so a room is
    named by its key in the table and changed in place.  The score lookup
    [user_table::select_by_id] is a database query: a parameter here.  The threads that match users
    are interleaved with each other and with the handlers at every access to shared state. *)

From S2P Require Import Prelude Board Room.

Open Scope Z_scope.

(** ** [room_manager] *)
Record manager := mkManager {
  _next_rid : Z;
  _rooms : gmap Z room;
  _users : gmap Z Z;
  log : list event;
}.

(** [room_manager(ut, om)] *)
Definition new_manager : manager := mkManager 1 ∅ ∅ [].

(** The part of [create_room] that runs under the lock: the key of the new room.  The members
    the constructor of [room] leaves unset are overwritten at once. *)
Definition make_room (uid1 uid2 : Z) : M manager Z := λ m,
  let rid := _next_rid m in
  let rp := add_black_user uid2 (add_white_user uid1 (new_room rid 0 0)) in
  Ok (rid, mkManager ((rid + 1) mod 2 ^ 64) (map_insert_new rid rp (_rooms m))
             (map_insert_new uid2 rid (map_insert_new uid1 rid (_users m))) (log m)).
(** [create_room(uid1, uid2)], when nothing else happens between its accesses: the key of the
    new room, or none. *)
Definition create_room (og : online_game) (uid1 uid2 : Z) : M manager (option Z) :=
  if negb (is_in_game_hall uid1 og) then mret None
  else if negb (is_in_game_hall uid2 og) then mret None
  else rid ← make_room uid1 uid2; mret (Some rid).

Definition get_room_by_rid (rid : Z) (m : manager) : option (Z * room) :=
  pair rid <$> _rooms m !! rid.
Definition get_room_by_uid (u : Z) (m : manager) : option (Z * room) :=
  match _users m !! u with
  | None => None
  | Some rid => pair rid <$> _rooms m !! rid
  end.

(** The end of [remove_room], under the lock. *)
Definition erase_room (rid white black : Z) : M manager () :=
  modify (λ m, mkManager (_next_rid m) (delete rid (_rooms m)) (delete black (delete white (_users m))) (log m)).
(** [rp->handle_exit(uid)] on the room with key [rid]. *)
Definition room_handle_exit (rid : Z) (u : Z) (og : online_game) : M manager room := λ m,
  match _rooms m !! rid with
  | None => Err DanglingPtr
  | Some rp =>
      match handle_exit og u (mkRst rp (log m)) with
      | Ok (_, s) => Ok (the_room s, mkManager (_next_rid m) (<[rid := the_room s]> (_rooms m)) (_users m) (events s))
      | Err e => Err e
      end
  end.

(** A removal as a sequence of accesses to the tables: each takes the lock on its own.  The
    accesses are run by [acc] in the monad of the caller. *)
Section Removal.
Context {P : Type → Type} `{MRet P, MBind P} (acc : ∀ A, (online_game → M manager A) → P A).

Definition remove_room (rid : Z) : P () :=
  found ← acc _ (λ _, gets (get_room_by_rid rid));
  match found with
  | None => mret ()
  | Some (_, rp) => acc _ (λ _, erase_room rid (_white_id rp) (_black_id rp))
  end.

Definition remove_room_user (u : Z) : P () :=
  found ← acc _ (λ _, gets (get_room_by_uid u));
  match found with
  | None => mret ()
  | Some (rid, _) =>
      rp ← acc _ (room_handle_exit rid u);
      if _player_count rp =? 0 then remove_room (_room_id rp) else mret ()
  end.
End Removal.
(** The accesses one after the other. *)
Definition in_turn (og : online_game) (A : Type) (m : online_game → M manager A) : M manager A := m og.

(** ** Consistency of the tables *)
Record manager_inv (m : manager) : Prop := {
  mi_rooms : ∀ rid r, _rooms m !! rid = Some r → _room_id r = rid ∧ rid < _next_rid m;
  mi_users : ∀ u rid, _users m !! u = Some rid →
    ∃ r, _rooms m !! rid = Some r ∧ (u = _white_id r ∨ u = _black_id r);
}.

Lemma map_insert_new_lookup {A} k (v : A) m k' :
  map_insert_new k v m !! k' =
    if decide (k' = k) then Some (default v (m !! k)) else m !! k'.
Proof.
  unfold map_insert_new. destruct (m !! k) as [y|] eqn:E; case_decide; subst; simplify_map_eq; done.
Qed.

Lemma make_room_inv u1 u2 m rid m' :
  manager_inv m → 0 ≤ _next_rid m → _next_rid m + 1 < 2 ^ 64 →
  make_room u1 u2 m = Ok (rid, m') → manager_inv m' ∧ _next_rid m' = _next_rid m + 1.
Proof.
  intros [Hr Hu] Hn Hmax. unfold make_room.
  intros [= <- <-]. simpl. rewrite Z.mod_small by lia. split; [|done].
  assert (Hfresh : _rooms m !! _next_rid m = None).
  { apply eq_None_not_Some. intros [r Hx]. apply Hr in Hx. lia. }
  unfold map_insert_new at 1. split; simpl.
  - rewrite Hfresh. intros rid r [[<- <-]|[? Hx]]%lookup_insert_Some; [simpl; lia|].
    apply Hr in Hx. lia.
  - intros u rid. rewrite Hfresh, !map_insert_new_lookup.
    assert (Hold : ∀ u rid, _users m !! u = Some rid → ∃ r,
              <[_next_rid m := add_black_user u2 (add_white_user u1 (new_room (_next_rid m) 0 0))]> (_rooms m) !! rid
              = Some r ∧ (u = _white_id r ∨ u = _black_id r)).
    { intros u' rid' Hx. destruct (Hu _ _ Hx) as (r & Hrr & Hw). exists r. split; [|done].
      rewrite lookup_insert_ne; [done|]. intros <-. congruence. }
    repeat case_decide; simplify_eq; try (destruct (_users m !! _) eqn:?; simpl; intros [= <-]);
      eauto; simplify_map_eq; eauto.
Qed.

(** The room that is made: new, with the two users as players. *)
Lemma make_room_makes u1 u2 m rid m' :
  manager_inv m → make_room u1 u2 m = Ok (rid, m') →
  rid = _next_rid m ∧ get_room_by_rid rid m = None ∧
  ∃ r, get_room_by_rid rid m' = Some (rid, r) ∧ _white_id r = u1 ∧ _black_id r = u2 ∧ _statu r = GAME_START ∧ _player_count r = 2.
Proof.
  intros [Hr _]. unfold make_room, get_room_by_rid. intros [= <- <-]. cbn [_rooms]. split; [done|].
  assert (Hfresh : _rooms m !! _next_rid m = None).
  { apply eq_None_not_Some. intros [r Hx]. apply Hr in Hx. lia. }
  rewrite Hfresh. split; [done|]. eexists. unfold map_insert_new. by rewrite Hfresh, lookup_insert_eq.
Qed.
(** Rooms that are there are not touched. *)
Lemma make_room_keeps u1 u2 m rid m' i r :
  make_room u1 u2 m = Ok (rid, m') → _rooms m !! i = Some r → _rooms m' !! i = Some r.
Proof.
  unfold make_room. intros [= <- <-] Hi. cbn [_rooms]. rewrite map_insert_new_lookup. case_decide as E; [|done].
  rewrite <- E in *. by rewrite Hi.
Qed.

Lemma room_exit_keeps og u rp evs s :
  handle_exit og u (mkRst rp evs) = Ok ((), s) →
  _room_id (the_room s) = _room_id rp ∧ _white_id (the_room s) = _white_id rp ∧
  _black_id (the_room s) = _black_id rp.
Proof.
  unfold handle_exit. intros He. erewrite bind_ok in He by reflexivity. cbn [the_room] in He.
  apply bind_inv in He as ([] & s1 & H1 & He). injection He as <-.
  destruct (_statu rp); [|by injection H1 as <-].
  cbv zeta in H1. erewrite bind_ok in H1 by apply record_win_ok.
  by rewrite (broadcast_room _ _ _ _ H1).
Qed.

Lemma erase_room_inv rid r m m' :
  manager_inv m → _rooms m !! rid = Some r → erase_room rid (_white_id r) (_black_id r) m = Ok ((), m') →
  manager_inv m' ∧ _next_rid m' = _next_rid m.
Proof.
  intros [Hr Hu] E [= <-]. split; [|done]. split; simpl.
  - intros rid' r' [_ Hx]%lookup_delete_Some. by apply Hr.
  - intros u rid' [Hb [Hw Hx]%lookup_delete_Some]%lookup_delete_Some.
    destruct (Hu _ _ Hx) as (r' & Hrr & Hwho). exists r'. split; [|done].
    rewrite lookup_delete_ne; [done|]. intros ->. rewrite E in Hrr. simplify_eq. naive_solver.
Qed.

Lemma room_handle_exit_inv rid u og m rp m' :
  manager_inv m → room_handle_exit rid u og m = Ok (rp, m') →
  manager_inv m' ∧ _next_rid m' = _next_rid m ∧ _rooms m' !! rid = Some rp ∧ _room_id rp = rid.
Proof.
  intros [Hr Hu]. unfold room_handle_exit. destruct (_rooms m !! rid) as [r|] eqn:Er; [|done].
  destruct (handle_exit og u _) as [[[] s]|] eqn:Ex; [|done]. intros [= <- <-].
  destruct (room_exit_keeps _ _ _ _ _ Ex) as (Hid & Hw & Hb). cbn [_rooms _next_rid _users]. rewrite lookup_insert_eq.
  split_and!; [|done|done|rewrite Hid; by apply Hr]. split; simpl.
  - intros rid' r' [[<- <-]|[? Hx]]%lookup_insert_Some; [|by apply Hr]. rewrite Hid. by apply Hr.
  - intros u' rid' Hx. destruct (Hu _ _ Hx) as (r' & Hrr & Hwho).
    destruct (decide (rid' = rid)) as [->|Hne].
    + exists (the_room s). rewrite lookup_insert_eq, Hw, Hb. split; [done|]. congruence.
    + exists r'. by rewrite lookup_insert_ne.
Qed.

Lemma remove_room_inv og rid m m' :
  manager_inv m → remove_room (in_turn og) rid m = Ok ((), m') → manager_inv m' ∧ _next_rid m' = _next_rid m.
Proof.
  intros Hinv. unfold remove_room, in_turn. erewrite bind_ok by reflexivity. unfold get_room_by_rid.
  destruct (_rooms m !! rid) as [rp|] eqn:E; cbn; [|by intros [= <-]]. by apply erase_room_inv.
Qed.

Lemma remove_room_user_inv og u m m' :
  manager_inv m → remove_room_user (in_turn og) u m = Ok ((), m') → manager_inv m' ∧ _next_rid m' = _next_rid m.
Proof.
  intros Hinv. unfold remove_room_user, in_turn at 1. erewrite bind_ok by reflexivity.
  destruct (get_room_by_uid u m) as [[rid r]|]; [|by intros [= <-]].
  intros (rp & m1 & H1 & He)%bind_inv. destruct (room_handle_exit_inv _ _ _ _ _ _ Hinv H1) as (Hi & Hn & _).
  destruct (_player_count rp =? 0); [|by injection He as <-].
  destruct (remove_room_inv _ _ _ _ Hi He) as [? ->]. done.
Qed.

(** ** [match_queue] and [matcher] *)

(** The queues [_q_normal], [_q_high] and [_q_super], each served by a thread. *)
Inductive which := Normal | High | Super.
#[global] Instance which_eq_dec : EqDecision which.
Proof. solve_decision. Defined.

Definition push (data : Z) (q : list Z) : list Z := q ++ [data].
Definition pop (q : list Z) : option (Z * list Z) :=
  match q with [] => None | x :: q => Some (x, q) end.
(** [std::list::remove] deletes every equal element. *)
Definition remove (data : Z) (q : list Z) : list Z := filter (λ x, x ≠ data) q.

(** Where the loop of [handle_match] is: before which access to shared state.  Each queue
    operation takes its own lock; the lookups of the table of the hall take none, so the search
    and the subscript of [get_conn_from_hall] are accesses of their own. *)
Inductive pc :=
  | AtSize                                        (** [mq.size()] *)
  | AtSleep                                       (** [mq.wait()] *)
  | Asleep                                        (** inside [_cond.wait(lock)] *)
  | AtPop1
  | AtPop2 (uid1 : Z)
  | AtFind1 (uid1 uid2 : Z)
  | AtIndex1 (uid1 uid2 : Z)
  | AtFind2 (uid1 uid2 : Z) (conn1 : conn)
  | AtIndex2 (uid1 uid2 : Z) (conn1 : conn)
  | AtHall1 (uid1 uid2 : Z) (conn1 conn2 : conn)  (** [create_room]: the first test *)
  | AtHall2 (uid1 uid2 : Z) (conn1 conn2 : conn)
  | AtMake (uid1 uid2 : Z) (conn1 conn2 : conn)   (** and the part under its lock *)
  | AtSend1 (conn1 conn2 : conn)
  | AtSend2 (conn2 : conn).

Record lobby := mkLobby {
  queue : which → list Z;
  thread : which → pc;
  mgr : manager;
  online : online_game;
}.

Definition upd {A} (w : which) (x : A) (f : which → A) : which → A :=
  λ w', if decide (w' = w) then x else f w'.
Definition set_queue (w : which) (q : list Z) (s : lobby) : lobby :=
  mkLobby (upd w q (queue s)) (thread s) (mgr s) (online s).
Definition set_pc (w : which) (p : pc) (s : lobby) : lobby :=
  mkLobby (queue s) (upd w p (thread s)) (mgr s) (online s).
Definition set_mgr (m : manager) (s : lobby) : lobby :=
  mkLobby (queue s) (thread s) m (online s).
Definition set_online (og : online_game) (s : lobby) : lobby :=
  mkLobby (queue s) (thread s) (mgr s) og.

Section Matcher.
(** [_ut->select_by_id(uid, user)] and then [user["score"].asInt()]; none when
    the query fails. *)
Context (select_by_id : Z → option Z).

Definition rank (score : Z) : which :=
  if score <? 2000 then Normal
  else if (2000 <=? score) && (score <? 3000) then High
  else Super.

(** [_cond.notify_all()]: only a thread that is inside [wait] is woken. *)
Definition notify_all (w : which) (s : lobby) : lobby :=
  match thread s w with Asleep => set_pc w AtSize s | _ => s end.

Definition add (u : Z) (s : lobby) : bool * lobby :=
  match select_by_id u with
  | None => (false, s)
  | Some score => let w := rank score in (true, notify_all w (set_queue w (push u (queue s w)) s))
  end.
Definition del (u : Z) (s : lobby) : bool * lobby :=
  match select_by_id u with
  | None => (false, s)
  | Some score => let w := rank score in (true, set_queue w (remove u (queue s w)) s)
  end.

Definition match_success : json := with_result true (with_optype "match_success" empty_json).
Definition send_success (c : conn) (s : lobby) : lobby :=
  set_mgr (mkManager (_next_rid (mgr s)) (_rooms (mgr s)) (_users (mgr s)) (log (mgr s) ++ [EvSend c match_success])) s.

(** One step of the thread that serves queue [w]; [wait] can return without a notification. *)
Definition thread_step (w : which) (s : lobby) : res lobby :=
  match thread s w with
  | AtSize => Ok (set_pc w (if (length (queue s w) <? 2)%nat then AtSleep else AtPop1) s)
  | AtSleep => Ok (set_pc w Asleep s)
  | Asleep => Ok (set_pc w AtSize s)
  | AtPop1 =>
      match pop (queue s w) with
      | None => Ok (set_pc w AtSize s)
      | Some (uid1, q) => Ok (set_pc w (AtPop2 uid1) (set_queue w q s))
      end
  | AtPop2 uid1 =>
      match pop (queue s w) with
      | None => Ok (set_pc w AtSize (snd (add uid1 s)))
      | Some (uid2, q) => Ok (set_pc w (AtFind1 uid1 uid2) (set_queue w q s))
      end
  | AtFind1 uid1 uid2 =>
      if is_in_game_hall uid1 (online s) then Ok (set_pc w (AtIndex1 uid1 uid2) s)
      else Ok (set_pc w AtSize (snd (add uid2 s)))
  | AtIndex1 uid1 uid2 =>
      let '(conn1, og) := hall_index uid1 (online s) in
      let s := set_online og s in
      match conn1 with
      | None => Ok (set_pc w AtSize (snd (add uid2 s)))
      | Some conn1 => Ok (set_pc w (AtFind2 uid1 uid2 conn1) s)
      end
  | AtFind2 uid1 uid2 conn1 =>
      if is_in_game_hall uid2 (online s) then Ok (set_pc w (AtIndex2 uid1 uid2 conn1) s)
      else Ok (set_pc w AtSize (snd (add uid1 s)))
  | AtIndex2 uid1 uid2 conn1 =>
      let '(conn2, og) := hall_index uid2 (online s) in
      let s := set_online og s in
      match conn2 with
      | None => Ok (set_pc w AtSize (snd (add uid1 s)))
      | Some conn2 => Ok (set_pc w (AtHall1 uid1 uid2 conn1 conn2) s)
      end
  | AtHall1 uid1 uid2 conn1 conn2 =>
      if is_in_game_hall uid1 (online s) then Ok (set_pc w (AtHall2 uid1 uid2 conn1 conn2) s)
      else Ok (set_pc w AtSize (snd (add uid2 (snd (add uid1 s)))))
  | AtHall2 uid1 uid2 conn1 conn2 =>
      if is_in_game_hall uid2 (online s) then Ok (set_pc w (AtMake uid1 uid2 conn1 conn2) s)
      else Ok (set_pc w AtSize (snd (add uid2 (snd (add uid1 s)))))
  | AtMake uid1 uid2 conn1 conn2 =>
      match make_room uid1 uid2 (mgr s) with
      | Err e => Err e
      | Ok (_, m) => Ok (set_pc w (AtSend1 conn1 conn2) (set_mgr m s))
      end
  | AtSend1 conn1 conn2 => Ok (set_pc w (AtSend2 conn2) (send_success conn1 s))
  | AtSend2 conn2 => Ok (set_pc w AtSize (send_success conn2 s))
  end.

(** ** What a thread does to the shared tables *)

(** Of the table of users online: nothing, or a null entry for a user who is not there. *)
Record only_nulls (og og' : online_game) : Prop := {
  on_room : _room_user og' = _room_user og;
  on_hall : ∀ u, _hall_user og' !! u = _hall_user og !! u ∨ _hall_user og !! u = None ∧ _hall_user og' !! u = Some None;
}.
#[global] Instance only_nulls_preorder : PreOrder only_nulls.
Proof.
  split; [split; auto|]. intros a b c [H1 H2] [H3 H4]. split; [congruence|]. intros u.
  destruct (H2 u) as [E|[E1 E2]], (H4 u) as [F|[F1 F2]]; rewrite ?F, ?E in *; auto; congruence.
Qed.
Lemma hall_index_nulls u og : only_nulls og (hall_index u og).2.
Proof.
  unfold hall_index. destruct (_hall_user og !! u) eqn:E; [done|]. split; [done|]. intros v. cbn [snd _hall_user].
  destruct (decide (v = u)) as [->|]; [right; by rewrite lookup_insert_eq|left; by rewrite lookup_insert_ne].
Qed.

Lemma notify_all_rest w s : queue (notify_all w s) = queue s ∧ mgr (notify_all w s) = mgr s ∧ online (notify_all w s) = online s.
Proof. unfold notify_all. by destruct (thread s w). Qed.
Lemma add_rest v s : mgr (snd (add v s)) = mgr s ∧ online (snd (add v s)) = online s.
Proof.
  unfold add. destruct (select_by_id v) as [sc|]; [|done]. cbn [snd].
  by destruct (notify_all_rest (rank sc) (set_queue (rank sc) (push v (queue s (rank sc))) s)) as (_ & -> & ->).
Qed.
Lemma del_rest v s : mgr (snd (del v s)) = mgr s ∧ online (snd (del v s)) = online s.
Proof. unfold del. by destruct (select_by_id v). Qed.

(** The effect of a step outside the queues: null entries in the hall, and a room or a message. *)
Inductive mgr_effect (m : manager) : manager → Prop :=
  | NoRoom : mgr_effect m m
  | NewRoom u1 u2 rid m' : make_room u1 u2 m = Ok (rid, m') → mgr_effect m m'
  | Message c : mgr_effect m (mkManager (_next_rid m) (_rooms m) (_users m) (log m ++ [EvSend c match_success])).
Lemma thread_step_effect w s s' :
  thread_step w s = Ok s' → only_nulls (online s) (online s') ∧ mgr_effect (mgr s) (mgr s').
Proof.
  assert (Hadd : ∀ v s0, only_nulls (online s) (online s0) → mgr_effect (mgr s) (mgr s0) →
    only_nulls (online s) (online (add v s0).2) ∧ mgr_effect (mgr s) (mgr (add v s0).2)).
  { intros v s0 H1 H2. by destruct (add_rest v s0) as [-> ->]. }
  unfold thread_step. intros He.
  destruct (thread s w); repeat match type of He with
    | context [hall_index ?u ?og] => pose proof (hall_index_nulls u og); destruct (hall_index u og) as [[?|] ?]
    | context [match ?x with _ => _ end] => destruct x eqn:?
    end; try done; injection He as <-; cbn [set_pc set_queue set_online online mgr send_success set_mgr snd] in *;
    try (apply Hadd; [try apply Hadd|try apply Hadd]); try done; try constructor; try done; try by constructor.
  all: by econstructor.
Qed.

(** *** The room tables stay consistent *)
Lemma mgr_effect_inv m m' : mgr_effect m m' → _next_rid m + 1 < 2 ^ 64 →
  manager_inv m ∧ 0 ≤ _next_rid m → manager_inv m' ∧ 0 ≤ _next_rid m'.
Proof.
  intros [|u1 u2 rid m1 Hm|c] Hmax [Hi Hn]; [done| |destruct Hi; by split].
  destruct (make_room_inv _ _ _ _ _ Hi Hn Hmax Hm) as [? ->]. split; [done|lia].
Qed.
Lemma mgr_effect_rooms m m' i r : mgr_effect m m' → _rooms m !! i = Some r → _rooms m' !! i = Some r.
Proof. intros [|u1 u2 rid m1 Hm|c] Hi; [done| |done]. by eapply make_room_keeps. Qed.

(** ** No player is lost *)
Definition holds (p : pc) (u : Z) : Prop :=
  match p with
  | AtPop2 u1 => u = u1
  | AtFind1 u1 u2 | AtIndex1 u1 u2 | AtFind2 u1 u2 _ | AtIndex2 u1 u2 _
  | AtHall1 u1 u2 _ _ | AtHall2 u1 u2 _ _ | AtMake u1 u2 _ _ => u = u1 ∨ u = u2
  | _ => False
  end.

(** [u] waits in a queue or is being matched by a thread. *)
Definition waiting (u : Z) (s : lobby) : Prop :=
  (∃ w, u ∈ queue s w) ∨ (∃ w, holds (thread s w) u).
(** [u] is in the hall with a connection. *)
Definition in_hall (u : Z) (og : online_game) : Prop := ∃ c, _hall_user og !! u = Some (Some c).
(** The step from [s] to [s'] makes a room, not there before, in which [u] plays. *)
Definition gets_room (u : Z) (s s' : lobby) : Prop :=
  ∃ rid r, get_room_by_rid rid (mgr s) = None ∧ get_room_by_rid rid (mgr s') = Some (rid, r) ∧
    (_white_id r = u ∨ _black_id r = u) ∧ _statu r = GAME_START ∧ _player_count r = 2.

Lemma upd_eq {A} w (x : A) f : upd w x f w = x.
Proof. unfold upd. by rewrite decide_True. Qed.
Lemma upd_ne {A} w w' (x : A) f : w' ≠ w → upd w x f w' = f w'.
Proof. unfold upd. intros. by rewrite decide_False. Qed.

Lemma notify_all_holds w s w' u : holds (thread s w') u → holds (thread (notify_all w s) w') u.
Proof.
  unfold notify_all. intros Hh. destruct (thread s w) eqn:E; try done. cbn [set_pc thread].
  destruct (decide (w' = w)) as [->|]; [by rewrite E in Hh|by rewrite upd_ne].
Qed.
Lemma add_tracks u s : is_Some (select_by_id u) → ∃ w, u ∈ queue (snd (add u s)) w.
Proof.
  intros [sc Hs]. unfold add. rewrite Hs. exists (rank sc). cbn [snd].
  rewrite (proj1 (notify_all_rest _ _)). cbn [set_queue queue]. rewrite upd_eq. unfold push. set_solver.
Qed.
Lemma add_keeps u v s :
  (∀ w, u ∈ queue s w → u ∈ queue (snd (add v s)) w) ∧ (∀ w, holds (thread s w) u → holds (thread (snd (add v s)) w) u).
Proof.
  unfold add. destruct (select_by_id v) as [sc|]; [|done]. cbn [snd]. split; intros w Hw.
  - rewrite (proj1 (notify_all_rest _ _)). cbn [set_queue queue].
    destruct (decide (w = rank sc)) as [->|]; [rewrite upd_eq; unfold push; set_solver|by rewrite upd_ne].
  - by apply notify_all_holds.
Qed.
Lemma add_waiting u v s : waiting u s → waiting u (snd (add v s)).
Proof. destruct (add_keeps u v s) as [H1 H2]. intros [[w Hw]|[w Hw]]; [left|right]; eauto. Qed.

(** A thread goes on with what it holds. *)
Lemma waiting_pc u w p s :
  waiting u s → (holds (thread s w) u → holds p u ∨ ∃ w', u ∈ queue s w') → waiting u (set_pc w p s).
Proof.
  intros [Hq|[w' Hh]] Hp; [by left|]. destruct (decide (w' = w)) as [->|Hne].
  - destruct (Hp Hh); [right; exists w; cbn; by rewrite upd_eq|by left].
  - right. exists w'. cbn. by rewrite upd_ne.
Qed.
(** It takes the head of its queue. *)
Lemma waiting_pop u w x q p s :
  waiting u s → pop (queue s w) = Some (x, q) → holds p x → (holds (thread s w) u → holds p u) →
  waiting u (set_pc w p (set_queue w q s)).
Proof.
  intros Hw Hpop Hx Hp. destruct (queue s w) as [|y q'] eqn:Eq; [done|]. injection Hpop as -> ->.
  destruct Hw as [[w' Hq]|[w' Hh]].
  - destruct (decide (w' = w)) as [->|Hne]; [|left; exists w'; cbn; by rewrite upd_ne].
    rewrite Eq in Hq. apply elem_of_cons in Hq as [->|Hq]; [right; exists w; cbn; by rewrite upd_eq|].
    left. exists w. cbn. by rewrite upd_eq.
  - right. destruct (decide (w' = w)) as [->|Hne]; [exists w; cbn; rewrite upd_eq; auto|exists w'; cbn; by rewrite upd_ne].
Qed.
(** It gives up and puts [v] back, and [u] with it if it held [u]. *)
Lemma waiting_back u w v p s :
  is_Some (select_by_id u) → waiting u s → (holds (thread s w) u → u = v) → waiting u (set_pc w p (snd (add v s))).
Proof.
  intros Hsel Hw Hv. destruct (add_keeps u v s) as [Hk Hh]. destruct Hw as [[w' Hq]|[w' Hw]]; [left; exists w'; by apply Hk|].
  destruct (decide (w' = w)) as [->|Hne]; [|right; exists w'; cbn; rewrite upd_ne by done; by apply Hh].
  left. rewrite (Hv Hw). apply add_tracks. by rewrite <- (Hv Hw).
Qed.
Lemma waiting_back2 u w u1 u2 p s :
  is_Some (select_by_id u) → waiting u s → (holds (thread s w) u → u = u1 ∨ u = u2) →
  waiting u (set_pc w p (snd (add u2 (snd (add u1 s))))).
Proof.
  intros Hsel Hw Hv. destruct (add_keeps u u1 s) as [Hk1 Hh1]. destruct (add_keeps u u2 (add u1 s).2) as [Hk2 Hh2].
  destruct Hw as [[w' Hq]|[w' Hw]]; [left; exists w'; by apply Hk2, Hk1|].
  destruct (decide (w' = w)) as [->|Hne]; [|right; exists w'; cbn; rewrite upd_ne by done; by apply Hh2, Hh1].
  left. destruct (Hv Hw) as [-> | ->]; [|by apply add_tracks]. destruct (add_tracks u1 s Hsel) as [w' Hw']. exists w'. by apply Hk2.
Qed.
Lemma in_hall_index u v og : in_hall u og → (hall_index v og).1 = None → u ≠ v.
Proof. intros [c Hc] Hn ->. unfold hall_index in Hn. by rewrite Hc in Hn. Qed.
Lemma in_hall_found u v og : in_hall u og → is_in_game_hall v og = false → u ≠ v.
Proof. intros [c Hc] Hn%bool_decide_eq_false ->. apply Hn. by eexists. Qed.
Lemma only_nulls_in_hall u og og' : only_nulls og og' → in_hall u og → in_hall u og'.
Proof. intros [_ Hh] [c Hc]. destruct (Hh u) as [E|[E _]]; [exists c; by rewrite E|congruence]. Qed.
Lemma waiting_online u og s : waiting u s → waiting u (set_online og s).
Proof. done. Qed.

Lemma thread_step_waiting u w s s' :
  is_Some (select_by_id u) → in_hall u (online s) → manager_inv (mgr s) →
  waiting u s → thread_step w s = Ok s' → waiting u s' ∨ gets_room u s s'.
Proof.
  intros Hsel Hon Hm Hw. unfold thread_step.
  assert (Hgo : ∀ p og, (holds (thread s w) u → holds p u) → waiting u (set_pc w p (set_online og s))) by (intros p og Hp; apply waiting_pc; auto).
  assert (Hback : ∀ og v, (holds (thread s w) u → u = v) → waiting u (set_pc w AtSize (add v (set_online og s)).2)) by (intros; by apply waiting_back).
  assert (Hback2 : ∀ u1 u2, (holds (thread s w) u → u = u1 ∨ u = u2) → waiting u (set_pc w AtSize (add u2 (add u1 s).2).2)) by (intros; by apply waiting_back2).
  assert (Hs : set_online (online s) s = s) by by destruct s.
  destruct (thread s w) as [| | | |u1|u1 u2|u1 u2|u1 u2 c1|u1 u2 c1|u1 u2 c1 c2|u1 u2 c1 c2|u1 u2 c1 c2|c1 c2|c2] eqn:Ep; cbn [holds] in *.
  - intros [= <-]. left. rewrite <- Hs at 2. by apply Hgo.
  - intros [= <-]. left. rewrite <- Hs. by apply Hgo.
  - intros [= <-]. left. rewrite <- Hs. by apply Hgo.
  - destruct (pop (queue s w)) as [[x q]|] eqn:Eq; intros [= <-]; left; [|rewrite <- Hs; by apply Hgo].
    eapply waiting_pop; [done|exact Eq|done|by rewrite Ep].
  - destruct (pop (queue s w)) as [[x q]|] eqn:Eq; intros [= <-]; left; [|rewrite <- Hs; by apply Hback].
    eapply waiting_pop; [done|exact Eq|by right|rewrite Ep; by left].
  - destruct (is_in_game_hall u1 _) eqn:E; intros [= <-]; left; rewrite <- Hs; [by apply Hgo|].
    apply Hback. intros [->| ->]; [|done]. by destruct (in_hall_found _ _ _ Hon E).
  - pose proof (in_hall_index u u1 _ Hon) as Hi. destruct (hall_index u1 _) as [[c1|] og]; intros [= <-]; left; [by apply Hgo|].
    apply Hback. intros [->| ->]; [|done]. by destruct (Hi eq_refl).
  - destruct (is_in_game_hall u2 _) eqn:E; intros [= <-]; left; rewrite <- Hs; [by apply Hgo|].
    apply Hback. intros [->| ->]; [done|]. by destruct (in_hall_found _ _ _ Hon E).
  - pose proof (in_hall_index u u2 _ Hon) as Hi. destruct (hall_index u2 _) as [[c2|] og]; intros [= <-]; left; [by apply Hgo|].
    apply Hback. intros [->| ->]; [done|]. by destruct (Hi eq_refl).
  - destruct (is_in_game_hall u1 _); intros [= <-]; left; [rewrite <- Hs; by apply Hgo|by apply Hback2].
  - destruct (is_in_game_hall u2 _); intros [= <-]; left; [rewrite <- Hs; by apply Hgo|by apply Hback2].
  - destruct (make_room u1 u2 (mgr s)) as [[rid m]|] eqn:Em; intros [= <-].
    destruct (make_room_makes _ _ _ _ _ Hm Em) as (_ & Hn & r & Hr & Hw1 & Hb1 & Hs1 & Hp1).
    destruct (decide (u = u1 ∨ u = u2)) as [Hu|Hu].
    + right. exists rid, r. split_and!; try done. destruct Hu as [-> | ->]; auto.
    + left. apply waiting_pc; [done|]. cbn [set_mgr thread]. by rewrite Ep.
  - intros [= <-]. left. apply waiting_pc; [done|]. cbn. by rewrite Ep.
  - intros [= <-]. left. apply waiting_pc; [done|]. cbn. by rewrite Ep.
Qed.

(** Steps other than one that cancels the match of [u] or takes [u] out of the hall: those of
    the threads, requests for matches, other users who cancel, come and go, and rooms that
    are used, left and removed by the thread of the handlers.  The ids of rooms do not run out. *)
Inductive keeps_waiting (u : Z) : lobby → lobby → Prop :=
  | KeepThread w s s' : _next_rid (mgr s) + 1 < 2 ^ 64 → thread_step w s = Ok s' → keeps_waiting u s s'
  | KeepAdd v s : keeps_waiting u s (snd (add v s))
  | KeepDel v s : v ≠ u → keeps_waiting u s (snd (del v s))
  | KeepOnline og s : in_hall u og → keeps_waiting u s (set_online og s)
  | KeepRooms m s : manager_inv m → _next_rid m = _next_rid (mgr s) → keeps_waiting u s (set_mgr m s).

Record still_waits (u : Z) (s : lobby) : Prop := {
  sw_hall : in_hall u (online s);
  sw_rooms : manager_inv (mgr s) ∧ 0 ≤ _next_rid (mgr s);
  sw_waits : waiting u s;
}.
Lemma keeps_waiting_step u s s' :
  is_Some (select_by_id u) → keeps_waiting u s s' → still_waits u s → still_waits u s' ∨ gets_room u s s'.
Proof.
  intros Hsel Hk [Hh Hm Hw]. destruct Hk as [w s s' Hn He|v s|v s Hv|og s Hog|m s Hi Hn].
  - destruct (thread_step_effect _ _ _ He) as [Ho Hme].
    destruct (thread_step_waiting u w s s' Hsel Hh (proj1 Hm) Hw He) as [Hw'|Hg]; [left|by right].
    split; [by eapply only_nulls_in_hall|by eapply mgr_effect_inv|done].
  - left. destruct (add_rest v s) as [E1 E2]. split; rewrite ?E1, ?E2; [done|done|by apply add_waiting].
  - left. destruct (del_rest v s) as [E1 E2]. split; rewrite ?E1, ?E2; [done|done|].
    unfold del. destruct (select_by_id v) as [sc|]; [|done]. destruct Hw as [[w Hq]|Hw]; [left|by right].
    exists w. cbn. destruct (decide (w = rank sc)) as [->|]; [rewrite upd_eq|by rewrite upd_ne].
    unfold remove. apply list_elem_of_filter. done.
  - by left.
  - left. split; [done| |done]. cbn. split; [done|]. rewrite Hn. apply Hm.
Qed.

(** C25: Matching loses nobody. A user whose record can be read, who stays in the hall with a
    connection and does not cancel, and who waits in a queue, waits at every later moment in a queue
    or in the hands of a matching thread, unless on the way a step made a new room in which the user
    plays: under every interleaving of the single accesses of the three threads, the requests of
    others, their coming and going, and the use and removal of rooms that keeps the room tables
    consistent. Search and subscript of an unlocked lookup of the hall are two steps, and the
    subscript inserts a null entry for a user who has gone in between; each access is one step. The
    score of a user does not change meanwhile, and room ids stay below 2^64. *)
Theorem matching_loses_nobody u s s' :
  is_Some (select_by_id u) → manager_inv (mgr s) → 0 ≤ _next_rid (mgr s) →
  in_hall u (online s) → waiting u s → rtc (keeps_waiting u) s s' →
  in_hall u (online s') ∧ waiting u s' ∨
  ∃ s1 s2, rtc (keeps_waiting u) s s1 ∧ keeps_waiting u s1 s2 ∧ gets_room u s1 s2 ∧ rtc (keeps_waiting u) s2 s'.
Proof.
  intros Hsel Hm Hn Hh Hw Hr. assert (H0 : still_waits u s) by by split. clear Hm Hn Hh Hw.
  induction Hr as [s|s1 s2 s3 Hstep Hr IH]; [left; by destruct H0|].
  destruct (keeps_waiting_step u s1 s2 Hsel Hstep H0) as [H2|Hg]; [|right; exists s1, s2; by split_and!].
  destruct (IH H2) as [|(a & b & Ha & Hab & Hg & Hb)]; [by left|]. right. exists a, b. split_and!; try done. by eapply rtc_l.
Qed.
End Matcher.

(** ** Properties of the room table *)
Inductive manager_step : manager → manager → Prop :=
  | MCreate u1 u2 m rid m' : _next_rid m + 1 < 2 ^ 64 →
      make_room u1 u2 m = Ok (rid, m') → manager_step m m'
  | MRemove og rid m m' : remove_room (in_turn og) rid m = Ok ((), m') → manager_step m m'
  | MExit og u m m' : remove_room_user (in_turn og) u m = Ok ((), m') → manager_step m m'.

Lemma new_manager_inv : manager_inv new_manager.
Proof. split; intros ? ? Hx; simpl in Hx; by rewrite lookup_empty in Hx. Qed.

Lemma manager_step_inv m m' :
  manager_step m m' → manager_inv m ∧ 0 ≤ _next_rid m → manager_inv m' ∧ 0 ≤ _next_rid m'.
Proof.
  intros Hs [Hinv Hn]. destruct Hs as [u1 u2 m rid m' Hmax He|og rid m m' He|og u m m' He].
  - destruct (make_room_inv _ _ _ _ _ Hinv Hn Hmax He) as [? ->]. split; [done|lia].
  - by destruct (remove_room_inv _ _ _ _ Hinv He) as [? ->].
  - by destruct (remove_room_user_inv _ _ _ _ Hinv He) as [? ->].
Qed.

(** The tables of the room manager stay consistent under every sequence of
    room creations, removals and exits: each room is stored under its own id,
    ids are never reused, and each user entry leads to an existing room in which
    that user plays. *)
Theorem manager_tables_consistent m : rtc manager_step new_manager m → manager_inv m.
Proof.
  intros Hr. assert (H0 : manager_inv new_manager ∧ 0 ≤ _next_rid new_manager).
  { by split; [apply new_manager_inv|]. }
  induction Hr as [m|m1 m2 m3 Hs _ IH] in H0 |- *; [apply H0|]. eauto using manager_step_inv.
Qed.

(** [create_room] for two users in the hall who have no room gives them one
    new room: both are led to it by their user id, with [uid1] white and [uid2]
    black, and no other user's room changes. *)
Theorem create_room_gives_room og u1 u2 m :
  manager_inv m → 0 ≤ _next_rid m →
  is_in_game_hall u1 og = true → is_in_game_hall u2 og = true →
  _users m !! u1 = None → _users m !! u2 = None →
  ∃ rid r m', create_room og u1 u2 m = Ok (Some rid, m') ∧
    get_room_by_rid rid m = None ∧ _white_id r = u1 ∧ _black_id r = u2 ∧ _statu r = GAME_START ∧
    _player_count r = 2 ∧
    get_room_by_uid u1 m' = Some (rid, r) ∧ get_room_by_uid u2 m' = Some (rid, r) ∧
    (∀ u, u ≠ u1 → u ≠ u2 → get_room_by_uid u m' = get_room_by_uid u m).
Proof.
  intros [Hr Hu] Hn H1 H2 Hn1 Hn2. unfold create_room. rewrite H1, H2. cbn [negb]. unfold make_room. erewrite bind_ok by reflexivity.
  set (r := add_black_user u2 _).
  assert (Hfresh : _rooms m !! _next_rid m = None).
  { apply eq_None_not_Some. intros [x Hx]. apply Hr in Hx. lia. }
  exists (_next_rid m), r. eexists. split; [reflexivity|].
  unfold get_room_by_rid, get_room_by_uid. simpl. rewrite Hfresh.
  assert (Hnew : map_insert_new (_next_rid m) r (_rooms m) !! _next_rid m = Some r).
  { rewrite map_insert_new_lookup, decide_True by done. by rewrite Hfresh. }
  do 5 (split; [done|]). rewrite !map_insert_new_lookup, Hn1, Hn2.
  split; [|split].
  - repeat case_decide; subst; rewrite ?Hn1, ?Hn2; simpl; try done; by rewrite Hnew.
  - repeat case_decide; subst; rewrite ?Hn1, ?Hn2; simpl; try done; by rewrite Hnew.
  - intros u Hu1 Hu2. rewrite !map_insert_new_lookup, !decide_False by done.
    destruct (_users m !! u) as [rid|] eqn:E; [|done]. destruct (Hu _ _ E) as (x & Hx & _).
    rewrite map_insert_new_lookup, decide_False; [done|]. intros ->. congruence.
Qed.

(** ** Concrete runs *)
Definition hall3 : online_game :=
  join_game_hall 1 1%positive (join_game_hall 2 2%positive (join_game_hall 3 3%positive new_online)).

(** A user's entry is deleted only with the room.  A user who leaves a room
    that the other player still occupies, and is matched again, is led to the old
    room: the new room has the user as a player, but not the table. *)
Theorem rematch_enters_old_room :
  ∃ m, (create_room hall3 1 2;; remove_room_user (in_turn hall3) 1;; create_room hall3 1 3) new_manager
         = Ok (Some 2, m) ∧
    (fst <$> get_room_by_uid 1 m = Some 1) ∧ (fst <$> get_room_by_uid 3 m = Some 2) ∧
    (_white_id ∘ snd <$> get_room_by_rid 2 m = Some 1).
Proof. eexists. split; [vm_compute; reflexivity|]. split_and!; vm_compute; reflexivity. Qed.

Definition idle_lobby : lobby := mkLobby (λ _, []) (λ _, AtSize) new_manager hall3.
Definition score_1000 (u : Z) : option Z := Some 1000.

(** The thread of queue [w] runs [n] steps. *)
Fixpoint thread_steps (sel : Z → option Z) (w : which) (n : nat) (s : lobby) : res lobby :=
  match n with O => Ok s | S n => s' ← thread_step sel w s; thread_steps sel w n s' end.

(** [match_queue::push] takes a user who waits already: a user who asks for
    a match twice is matched against himself. *)
Theorem matched_with_self :
  ∃ s, thread_steps score_1000 Normal 12 (snd (add score_1000 1 (snd (add score_1000 1 idle_lobby)))) = Ok s ∧
    ((λ p, (_white_id (snd p), _black_id (snd p))) <$> get_room_by_uid 1 (mgr s)) = Some (1, 1).
Proof. eexists. split; [vm_compute; reflexivity|]. vm_compute. reflexivity. Qed.

(** A push between [size] and [wait] is not noticed: two users are queued, and the thread
    sleeps until another push or a spurious wake-up. *)
Theorem wakeup_lost :
  ∃ s0 s, thread_steps score_1000 Normal 1 (snd (add score_1000 1 idle_lobby)) = Ok s0 ∧
    thread_step score_1000 Normal (snd (add score_1000 2 s0)) = Ok s ∧ queue s Normal = [1; 2] ∧ thread s Normal = Asleep.
Proof. eexists _, _. split; [vm_compute; reflexivity|]. split; [reflexivity|]. split; vm_compute; reflexivity. Qed.

(** A user who leaves the hall between the search and the subscript gets a null entry: without a
    connection, but taken for present, so that coming back is refused as a second login. *)
Theorem null_entry_left :
  ∃ s0 s, thread_steps score_1000 Normal 4 (snd (add score_1000 2 (snd (add score_1000 1 idle_lobby)))) = Ok s0 ∧
    thread_step score_1000 Normal (set_online (exit_game_hall 1 (online s0)) s0) = Ok s ∧
    is_in_game_hall 1 (online s) = true ∧ (get_conn_from_hall 1 (online s)).1 = None ∧
    join_game_hall 1 9%positive (online s) = online s.
Proof. eexists _, _. split; [vm_compute; reflexivity|]. split; [reflexivity|]. split_and!; vm_compute; reflexivity. Qed.

(** ** Witnesses *)

(** Runs of a thread are runs of the system. *)
Lemma thread_steps_keep sel u w n s s' :
  manager_inv (mgr s) → 0 ≤ _next_rid (mgr s) → _next_rid (mgr s) + Z.of_nat n < 2 ^ 64 →
  thread_steps sel w n s = Ok s' → rtc (keeps_waiting sel u) s s'.
Proof.
  revert s. induction n as [|n IH]; intros s Hm Hn Hmax Hs; [by injection Hs as <-|]. cbn [thread_steps] in Hs.
  destruct (thread_step sel w s) as [s1|] eqn:E; [|done]. eapply rtc_l; [by apply (KeepThread _ _ w); [lia|]|].
  destruct (thread_step_effect _ _ _ _ E) as [_ He]. destruct (mgr_effect_inv _ _ He ltac:(lia) (conj Hm Hn)) as [Hm1 Hn1].
  apply IH; [done|done| |done]. destruct He as [|u1 u2 rid m Hmk|c]; [lia| |cbn; lia].
  destruct (make_room_inv _ _ _ _ _ Hm Hn ltac:(lia) Hmk) as [_ ->]. lia.
Qed.
Definition queued : lobby := snd (add score_1000 1 idle_lobby).
Definition both_queued : lobby := snd (add score_1000 2 queued).
(** Users 1 and 2 are matched, up to the room: user 1 then waits no longer, and so got a room. *)
Lemma matching_loses_nobody_witness :
  ∃ s', thread_steps score_1000 Normal 10 both_queued = Ok s' ∧ (in_hall 1 (online s') ∧ waiting 1 s' ∨
    ∃ s1 s2, rtc (keeps_waiting score_1000 1) queued s1 ∧ keeps_waiting score_1000 1 s1 s2 ∧ gets_room 1 s1 s2 ∧
      rtc (keeps_waiting score_1000 1) s2 s').
Proof.
  destruct (thread_steps score_1000 Normal 10 both_queued) as [s'|e] eqn:E; [|vm_compute in E; discriminate].
  exists s'. split; [reflexivity|].
  apply (matching_loses_nobody score_1000 1 queued s').
  - eexists. reflexivity.
  - exact new_manager_inv.
  - by vm_compute.
  - exists 1%positive. vm_compute. reflexivity.
  - left. exists Normal. vm_compute. left.
  - eapply rtc_l; [apply (KeepAdd score_1000 1 2)|]. eapply thread_steps_keep; [exact new_manager_inv|by vm_compute| |exact E].
    vm_compute. reflexivity.
Defined.

Lemma manager_tables_consistent_witness :
  ∃ rid m, make_room 1 2 new_manager = Ok (rid, m) ∧ manager_inv m.
Proof.
  eexists _, _. split; [reflexivity|]. apply manager_tables_consistent. apply rtc_once.
  eapply (MCreate 1 2); [|reflexivity]. simpl. lia.
Defined.

Lemma create_room_gives_room_witness :
  ∃ rid r m, create_room hall3 1 2 new_manager = Ok (Some rid, m) ∧ get_room_by_uid 1 m = Some (rid, r).
Proof.
  destruct (create_room_gives_room hall3 1 2 new_manager) as (rid & r & m & H1 & _ & _ & _ & _ & _ & H2 & _).
  - exact new_manager_inv.
  - simpl; lia.
  - vm_compute. reflexivity.
  - vm_compute. reflexivity.
  - reflexivity.
  - reflexivity.
  - exists rid, r, m. split; [exact H1|exact H2].
Defined.
