(* ===== verification/StdString.v ===== *)
(** * The operations of [std::string] that the programs use

    A [std::string] is a list of characters.  [npos] is [None]; positions and
    lengths are [size_t], so a negative [int] passed as a length is a huge one. *)

From S2P Require Import Prelude.
From Stdlib Require Export Ascii.

Open Scope Z_scope.

Abbreviation str := (list ascii).

(** String literals of the sources. *)
Definition lit (s : string) : str := String.list_ascii_of_string s.

Definition in_int (x : Z) : bool := (- 2 ^ 31 <=? x) && (x <? 2 ^ 31).

(** The characters before the first NUL: what C code reads through [c_str()], or
    [operator+=] takes of an array of [char]. *)
Fixpoint c_str (s : str) : str :=
  match s with
  | [] => []
  | a :: s => if decide (a = "000"%char) then [] else a :: c_str s
  end.

(** ** Searching *)
Fixpoint starts_with (pat s : str) : bool :=
  match pat, s with
  | [], _ => true
  | p :: pat, c :: s => bool_decide (p = c) && starts_with pat s
  | _ :: _, [] => false
  end.

(** [s.find(pat)] *)
Fixpoint find (pat s : str) : option nat :=
  if starts_with pat s then Some 0%nat
  else match s with [] => None | _ :: s => S <$> find pat s end.

(** [s.rfind(c)] for one character. *)
Fixpoint rfind_char (c : ascii) (s : str) : option nat :=
  match s with
  | [] => None
  | x :: s => match rfind_char c s with
              | Some i => Some (S i)
              | None => if decide (x = c) then Some 0%nat else None
              end
  end.

(** [s.substr(pos, len)] *)
Definition substr (s : str) (pos : nat) (len : Z) : res str :=
  if (pos <=? length s)%nat then
    Ok (if len <? 0 then drop pos s else take (Z.to_nat len) (drop pos s))
  else Err StdException.
Definition substr_from (s : str) (pos : nat) : res str :=
  if (pos <=? length s)%nat then Ok (drop pos s) else Err StdException.

(** ** Numbers *)
Definition digit (n : Z) : ascii := ascii_of_nat (Z.to_nat (48 + n)).
Definition digit_value (c : ascii) : option Z :=
  let n := Z.of_nat (nat_of_ascii c) in
  if (48 <=? n) && (n <=? 57) then Some (n - 48) else None.

Fixpoint digits (fuel : nat) (n : Z) : str :=
  match fuel with
  | O => []
  | S fuel => if n <? 10 then [digit n] else digits fuel (n / 10) ++ [digit (n mod 10)]
  end.

(** [std::to_string]; 20 digits are enough for 64-bit values. *)
Definition to_string (n : Z) : str :=
  if n <? 0 then "-"%char :: digits 20 (- n) else digits 20 n.

(** [isspace] *)
Definition is_space (c : ascii) : bool :=
  let n := nat_of_ascii c in (n =? 32)%nat || ((9 <=? n)%nat && (n <=? 13)%nat).

Fixpoint skip_spaces (s : str) : str :=
  match s with c :: s' => if is_space c then skip_spaces s' else s | [] => [] end.

(** The value of the digits at the front, if there is one. *)
Fixpoint read_digits (acc : Z) (s : str) : Z :=
  match s with
  | [] => acc
  | c :: s => match digit_value c with Some d => read_digits (acc * 10 + d) s | None => acc end
  end.
Definition read_number (s : str) : option Z :=
  match s with
  | [] => None
  | c :: s => match digit_value c with Some d => Some (read_digits d s) | None => None end
  end.

(** The number at the front of a string, after spaces and a sign. *)
Definition parse_number (s : str) : option Z :=
  match skip_spaces s with
  | "-"%char :: s => Z.opp <$> read_number s
  | "+"%char :: s => read_number s
  | s => read_number s
  end.

(** [std::stoi], and [std::stol] for a 64-bit [long] *)
Definition stoi (s : str) : res Z :=
  match parse_number s with
  | None => Err StdException
  | Some v => if in_int v then Ok v else Err StdException
  end.
Definition stol (s : str) : res Z :=
  match parse_number s with
  | None => Err StdException
  | Some v => if (- 2 ^ 63 <=? v) && (v <? 2 ^ 63) then Ok v else Err StdException
  end.

(** ** Facts *)
Implicit Types (s l : str).

Lemma digit_value_digit n : 0 ≤ n < 10 → digit_value (digit n) = Some n.
Proof.
  intros Hn. assert (n ∈ [0; 1; 2; 3; 4; 5; 6; 7; 8; 9]) as Hin by (rewrite !elem_of_cons, elem_of_nil; lia).
  repeat (apply elem_of_cons in Hin as [->|Hin]; [reflexivity|]). by apply not_elem_of_nil in Hin.
Qed.

Definition is_digit (c : ascii) : Prop := is_Some (digit_value c).

Lemma digit_is_digit n : 0 ≤ n < 10 → is_digit (digit n).
Proof. intros Hn. eexists. by apply digit_value_digit. Qed.

Lemma is_digit_not_space c : is_digit c → is_space c = false ∧ c ≠ "-"%char ∧ c ≠ "+"%char.
Proof.
  unfold is_digit, digit_value, is_space. intros [d Hd]. split.
  - destruct ((48 <=? _) && _) eqn:E; [|done]. apply andb_true_iff in E as [E1 E2].
    apply orb_false_iff. split; [apply Nat.eqb_neq; lia|]. apply andb_false_iff. right.
    apply Nat.leb_gt. lia.
  - split; intros ->; vm_compute in Hd; discriminate.
Qed.

Lemma read_digits_app l s acc v :
  Forall is_digit l → read_digits acc l = v → read_digits acc (l ++ s) = read_digits v s.
Proof.
  intros Hl. revert acc. induction Hl as [|c l [d Hd] Hl IH]; intros acc; simpl; [by intros ->|].
  rewrite Hd. apply IH.
Qed.

Lemma digits_spec fuel n :
  0 ≤ n < 10 ^ Z.of_nat fuel → (0 < fuel)%nat →
  Forall is_digit (digits fuel n) ∧ digits fuel n ≠ [] ∧ read_digits 0 (digits fuel n) = n.
Proof.
  revert n. induction fuel as [|fuel IH]; intros n Hn Hf; [lia|]. cbn [digits].
  destruct (Z.ltb_spec n 10) as [Hlt|Hge].
  - split; [constructor; [apply digit_is_digit; lia|constructor]|]. split; [done|]. cbn [read_digits].
    rewrite digit_value_digit by lia. lia.
  - rewrite Nat2Z.inj_succ, Z.pow_succ_r in Hn by lia.
    assert (0 < fuel)%nat. { destruct fuel; [simpl in Hn; lia|lia]. }
    destruct (IH (n / 10)) as (H1 & H2 & H3); [|done|].
    { split; [apply Z.div_pos; lia|apply Z.div_lt_upper_bound; lia]. }
    pose proof (Z.mod_pos_bound n 10 ltac:(lia)). split; [|split].
    + apply Forall_app. split; [done|]. constructor; [by apply digit_is_digit|constructor].
    + by destruct (digits fuel (n / 10)).
    + rewrite (read_digits_app _ _ _ _ H1 H3). cbn [read_digits]. rewrite digit_value_digit by lia.
      pose proof (Z.div_mod n 10). lia.
Qed.

Lemma read_number_digits l : Forall is_digit l → l ≠ [] → read_number l = Some (read_digits 0 l).
Proof. intros Hl Hne. destruct Hl as [|c l [d Hd] Hl]; [done|]. simpl. by rewrite Hd. Qed.

(** Characters that [std::to_string] produces. *)
Definition numeric (c : ascii) : Prop := is_digit c ∨ c = "-"%char.

Lemma numeric_not c : numeric c → c ≠ " "%char ∧ c ≠ "013"%char ∧ c ≠ "010"%char.
Proof.
  intros [[d Hd]| ->]; [|by split_and!]. split_and!; intros ->; vm_compute in Hd; discriminate.
Qed.

Lemma to_string_numeric n : - 2 ^ 63 ≤ n < 2 ^ 64 → Forall numeric (to_string n) ∧ to_string n ≠ [].
Proof.
  intros Hn. unfold to_string. destruct (Z.ltb_spec n 0).
  - destruct (digits_spec 20 (- n)) as (H1 & _); [lia|lia|]. split; [|done].
    constructor; [by right|]. eapply Forall_impl; [exact H1|]. by left.
  - destruct (digits_spec 20 n) as (H1 & H2 & _); [lia|lia|]. split; [|done].
    eapply Forall_impl; [exact H1|]. by left.
Qed.

(** Printing a number and reading it back. *)
Lemma parse_number_to_string n : - 2 ^ 63 ≤ n < 2 ^ 64 → parse_number (to_string n) = Some n.
Proof.
  intros Hn. unfold to_string, parse_number. destruct (Z.ltb_spec n 0).
  - destruct (digits_spec 20 (- n)) as (H1 & H2 & H3); [lia|lia|].
    change (skip_spaces ("-"%char :: digits 20 (- n))) with ("-"%char :: digits 20 (- n)).
    cbv beta iota. rewrite (read_number_digits _ H1 H2), H3. cbn. by rewrite Z.opp_involutive.
  - destruct (digits_spec 20 n) as (H1 & H2 & H3); [lia|lia|].
    pose proof (read_number_digits _ H1 H2) as Hr. rewrite H3 in Hr.
    destruct (digits 20 n) as [|c l]; [done|]. apply Forall_cons in H1 as [Hc _].
    destruct (is_digit_not_space c Hc) as (Hs & Hm & Hp). cbn [skip_spaces]. rewrite Hs.
    destruct c as [[] [] [] [] [] [] [] []]; done.
Qed.

Lemma stoi_to_string n : in_int n = true → stoi (to_string n) = Ok n.
Proof. intros Hn. unfold stoi. rewrite parse_number_to_string by (unfold in_int in Hn; lia). by rewrite Hn. Qed.
Lemma stol_to_string n : - 2 ^ 63 ≤ n < 2 ^ 63 → stol (to_string n) = Ok n.
Proof.
  intros Hn. unfold stol. rewrite parse_number_to_string by lia.
  by rewrite (proj2 (Z.leb_le _ _) (proj1 Hn)), (proj2 (Z.ltb_lt _ _) (proj2 Hn)).
Qed.

(** ** Finding a pattern *)
Lemma find_here pat s : starts_with pat s = true → find pat s = Some 0%nat.
Proof. by destruct s; simpl; intros ->. Qed.

Lemma starts_with_app pat s : starts_with pat (pat ++ s) = true.
Proof. induction pat as [|p pat IH]; simpl; [done|]. by rewrite bool_decide_eq_true_2, IH. Qed.

Lemma find_after c pat l s :
  Forall (λ x, x ≠ c) l → find (c :: pat) (l ++ (c :: pat) ++ s) = Some (length l).
Proof.
  intros Hl. induction Hl as [|x l Hx Hl IH]; [exact (find_here _ _ (starts_with_app (c :: pat) s))|].
  cbn [app find starts_with]. rewrite bool_decide_eq_false_2 by congruence. simpl. simpl in IH. by rewrite IH.
Qed.

(** The text before and behind the first occurrence of a separator. *)
Lemma cut_around c pat l s :
  Forall (λ x, x ≠ c) l →
  let t := l ++ (c :: pat) ++ s in
  find (c :: pat) t = Some (length l) ∧ substr t 0 (Z.of_nat (length l)) = Ok l ∧
  substr_from t (length l + length (c :: pat)) = Ok s.
Proof.
  intros Hl t. unfold t. split; [by apply find_after|]. unfold substr, substr_from. cbn [Nat.leb].
  rewrite (proj2 (Z.ltb_ge _ _)) by lia. rewrite drop_0, Nat2Z.id, take_app_length. split; [done|].
  rewrite !length_app, (proj2 (Nat.leb_le _ _)) by lia. by rewrite drop_app_add, drop_app_length.
Qed.

Lemma find_absent c pat l : Forall (λ x, x ≠ c) l → find (c :: pat) l = None.
Proof.
  intros Hl. induction Hl as [|x l Hx Hl IH]; [done|].
  cbn [find starts_with]. rewrite bool_decide_eq_false_2 by congruence. simpl. by rewrite IH.
Qed.

Lemma rfind_char_after c l s :
  Forall (λ x, x ≠ c) s → rfind_char c (l ++ c :: s) = Some (length l).
Proof.
  intros Hs. induction l as [|x l IH]; simpl; [|by rewrite IH].
  assert (rfind_char c s = None) as ->; [|by rewrite decide_True].
  induction Hs as [|y s Hy Hs IH]; [done|]. simpl. by rewrite IH, decide_False.
Qed.
