(* ===== verification/HttpRequest.v ===== *)
(** * Receiving an HTTP request: src/my_Http (Util.hpp, Protocol.hpp)

    [Util], and the half of [EndPoint] that reads and parses a request.  A socket
    is the bytes that will arrive and what [recv] returns after them: 0 when
    the peer has closed, -1 on an error.  The two bytes read at once after a
    carriage return are one step of [ReadLine]. *)

From S2P Require Import Prelude StdString.

Open Scope Z_scope.

Definition CR : ascii := "013"%char.
Definition LF : ascii := "010"%char.

(** ** Sockets *)
Inductive sock_end := SockClosed | SockError.
Record sock := mkSock { incoming : str; at_end : sock_end }.

(** ** [Util] *)

(** The loop of [ReadLine]: [out] so far, and the bytes left.  [true] is returned when
    the loop ended at a line feed. *)
Fixpoint read_line (out inc : str) : bool * str * str :=
  match inc with
  | [] => (false, out, [])
  | ch :: inc =>
      if decide (ch = CR) then
        match inc with                       (* MSG_PEEK *)
        | ch2 :: inc2 => if decide (ch2 = LF) then (true, out ++ [LF], inc2) else (true, out ++ [LF], inc)
        | [] => (true, out ++ [LF], [])
        end
      else if decide (ch = LF) then (true, out ++ [LF], inc)
      else read_line (out ++ [ch]) inc
  end.

(** [ReadLine(sock, out)]: its result, [out] and the socket afterwards. *)
Definition ReadLine (k : sock) (out : str) : Z * str * sock :=
  match read_line out (incoming k) with
  | (true, out, inc) => (Z.of_nat (length out), out, mkSock inc (at_end k))
  | (false, out, inc) =>
      match at_end k with
      | SockClosed => (Z.of_nat (length out), out, mkSock inc (at_end k))
      | SockError => (-1, out, mkSock inc (at_end k))
      end
  end.

(** [CutString(target, key, val, op)]: key and value, when [op] occurs. *)
Definition CutString (target op : str) : res (option (str * str)) :=
  match find op target with
  | None => Ok None
  | Some pos =>
      key ← substr target 0 (Z.of_nat pos);
      val ← substr_from target (pos + length op);
      Ok (Some (key, val))
  end.

(** ** [HttpRequest] *)
Record HttpRequest := mkReq {
  request_line : str;
  request_header : list str;
  blank : str;
  request_body : str;
  method : str;
  uri : str;
  version : str;
  path : str;
  suffix : str;
  query_string : str;
  header_kv : gmap str str;
  content_length : Z;
  cgi : bool;
  req_size : Z;
}.
Definition new_request : HttpRequest := mkReq [] [] [] [] [] [] [] [] [] [] ∅ 0 false 0.

Definition with_request_line (x : str) (q : HttpRequest) : HttpRequest :=
  mkReq x (request_header q) (blank q) (request_body q) (method q) (uri q) (version q) (path q) (suffix q) (query_string q) (header_kv q) (content_length q) (cgi q) (req_size q).
Definition with_request_header (x : list str) (q : HttpRequest) : HttpRequest :=
  mkReq (request_line q) x (blank q) (request_body q) (method q) (uri q) (version q) (path q) (suffix q) (query_string q) (header_kv q) (content_length q) (cgi q) (req_size q).
Definition with_blank (x : str) (q : HttpRequest) : HttpRequest :=
  mkReq (request_line q) (request_header q) x (request_body q) (method q) (uri q) (version q) (path q) (suffix q) (query_string q) (header_kv q) (content_length q) (cgi q) (req_size q).
Definition with_request_body (x : str) (q : HttpRequest) : HttpRequest :=
  mkReq (request_line q) (request_header q) (blank q) x (method q) (uri q) (version q) (path q) (suffix q) (query_string q) (header_kv q) (content_length q) (cgi q) (req_size q).
Definition with_line_parts (m u v : str) (q : HttpRequest) : HttpRequest :=
  mkReq (request_line q) (request_header q) (blank q) (request_body q) m u v (path q) (suffix q) (query_string q) (header_kv q) (content_length q) (cgi q) (req_size q).
Definition with_header_kv (x : gmap str str) (q : HttpRequest) : HttpRequest :=
  mkReq (request_line q) (request_header q) (blank q) (request_body q) (method q) (uri q) (version q) (path q) (suffix q) (query_string q) x (content_length q) (cgi q) (req_size q).
Definition with_content_length (x : Z) (q : HttpRequest) : HttpRequest :=
  mkReq (request_line q) (request_header q) (blank q) (request_body q) (method q) (uri q) (version q) (path q) (suffix q) (query_string q) (header_kv q) x (cgi q) (req_size q).

(** ** [EndPoint], receiving *)
Record receiver := mkRecv { r_sock : sock; http_request : HttpRequest; stop : bool }.

(** [s.resize(s.size() - 1)] *)
Definition chop (s : str) : str := take (length s - 1) s.

Definition recv_http_request_line : M receiver bool := λ e,
  let '(n, line, k) := ReadLine (r_sock e) (request_line (http_request e)) in
  if 0 <? n then Ok (stop e, mkRecv k (with_request_line (chop line) (http_request e)) (stop e))
  else Ok (true, mkRecv k (with_request_line line (http_request e)) true).

Fixpoint header_loop (fuel : nat) : M receiver bool := λ e,
  match fuel with
  | O => Err OutOfFuel
  | S fuel =>
      let '(n, line, k) := ReadLine (r_sock e) [] in
      if n <=? 0 then Ok (true, mkRecv k (http_request e) true)
      else if decide (line = [LF]) then Ok (stop e, mkRecv k (with_blank line (http_request e)) (stop e))
      else header_loop fuel (mkRecv k
             (with_request_header (request_header (http_request e) ++ [chop line]) (http_request e)) (stop e))
  end.
Definition recv_http_request_header : M receiver bool := λ e,
  header_loop (S (length (incoming (r_sock e)))) e.

(** [ss >> word]: skip spaces, then read up to the next one. *)
Fixpoint word (s : str) : str * str :=
  match s with
  | [] => ([], [])
  | c :: s' => if is_space c then ([], s) else let '(w, r) := word s' in (c :: w, r)
  end.
Definition next_word (s : str) : str * str := word (skip_spaces s).
(** [::toupper] on a byte of the C locale *)
Definition toupper (c : ascii) : ascii :=
  let n := nat_of_ascii c in if ((97 <=? n) && (n <=? 122))%nat then ascii_of_nat (n - 32) else c.

Definition pares_http_request_line (q : HttpRequest) : HttpRequest :=
  let '(m, s) := next_word (request_line q) in
  let '(u, s) := next_word s in
  let '(v, _) := next_word s in
  with_line_parts (toupper <$> m) u v q.

Fixpoint parse_headers (hs : list str) (kv : gmap str str) : res (gmap str str) :=
  match hs with
  | [] => Ok kv
  | h :: hs =>
      r ← CutString h (lit ": ");
      match r with
      | Some (key, val) => parse_headers hs (<[key := val]> kv)
      | None => parse_headers hs kv
      end
  end.
Definition pares_http_request_header (q : HttpRequest) : res HttpRequest :=
  kv ← parse_headers (request_header q) (header_kv q); Ok (with_header_kv kv q).

(** [atoi]; a value outside [int] is undefined. *)
Definition atoi (s : str) : res Z :=
  match parse_number s with
  | None => Ok 0
  | Some v => if in_int v then Ok v else Err SignedOverflow
  end.

Definition isnedd_recv_http_request_body (q : HttpRequest) : res (bool * HttpRequest) :=
  if decide (method q = lit "POST") then
    match header_kv q !! lit "Content-Length" with
    | Some val => n ← atoi val; Ok (true, with_content_length n q)
    | None => Ok (false, q)
    end
  else Ok (false, q).

(** [while (content_length)]: a negative length counts down as well. *)
Fixpoint body_loop (n : Z) (body inc : str) : res (bool * str * str) :=
  if n =? 0 then Ok (false, body, inc)
  else match inc with
       | [] => Ok (true, body, [])
       | ch :: inc => if n =? - 2 ^ 31 then Err SignedOverflow else body_loop (n - 1) (body ++ [ch]) inc
       end.
Definition recv_http_request_body : M receiver bool := λ e,
  '(need, q) ← isnedd_recv_http_request_body (http_request e);
  if (need : bool) then
    '(s, body, inc) ← body_loop (content_length q) (request_body q) (incoming (r_sock e));
    let st := stop e || s in
    Ok (st, mkRecv (mkSock inc (at_end (r_sock e))) (with_request_body body q) st)
  else Ok (stop e, mkRecv (r_sock e) q (stop e)).

Definition recv_http_request : M receiver () :=
  st ← recv_http_request_line;
  if (st : bool) then mret () else
  st ← recv_http_request_header;
  if (st : bool) then mret () else
  modify (λ e, mkRecv (r_sock e) (pares_http_request_line (http_request e)) (stop e));;
  (λ e, match pares_http_request_header (http_request e) with
        | Ok q => Ok ((), mkRecv (r_sock e) q (stop e))
        | Err er => Err er
        end);;
  recv_http_request_body;;
  mret ().

(** [EndPoint(sock)] *)
Definition new_receiver (k : sock) : receiver := mkRecv k new_request false.

(** ** Reading lines *)
Definition plain (s : str) : Prop := Forall (λ c, c ≠ CR ∧ c ≠ LF) s.

(** The ends of lines that are accepted. *)
Inductive eol := CRLF | OnlyLF.
Definition eol_bytes (x : eol) : str := match x with CRLF => [CR; LF] | OnlyLF => [LF] end.

Lemma read_line_spec out s x rest : plain s → read_line out (s ++ eol_bytes x ++ rest) = (true, out ++ s ++ [LF], rest).
Proof.
  intros Hs. revert out. induction Hs as [|c s [H1 H2] Hs IH]; intros out; [by destruct x|].
  cbn [app read_line]. rewrite !decide_False by done. rewrite IH. by rewrite <- app_assoc.
Qed.

Lemma ReadLine_spec out s x rest e :
  plain s → ReadLine (mkSock (s ++ eol_bytes x ++ rest) e) out =
    (Z.of_nat (length (out ++ s ++ [LF])), out ++ s ++ [LF], mkSock rest e).
Proof. intros Hs. unfold ReadLine. cbn [incoming at_end]. by rewrite read_line_spec. Qed.

Lemma chop_snoc s c : chop (s ++ [c]) = s.
Proof. unfold chop. rewrite length_app, Nat.add_sub. by rewrite take_app_length. Qed.

Lemma read_line_consumes out inc b out' inc' :
  read_line out inc = (b, out', inc') →
  (length inc' + (length out' - length out) ≤ length inc ∧ length out ≤ length out')%nat.
Proof.
  revert out. induction inc as [|c inc IH]; intros out; cbn [read_line]; [by intros [= <- <- <-]; cbn; lia|].
  destruct (decide (c = CR)).
  { destruct inc as [|c2 inc2]; [|case_decide]; intros [= <- <- <-]; rewrite length_app; cbn; lia. }
  destruct (decide (c = LF)); [intros [= <- <- <-]; rewrite length_app; cbn; lia|].
  intros Hr%IH. rewrite length_app in Hr. cbn in *. lia.
Qed.

Lemma ReadLine_consumes k n line k' :
  ReadLine k [] = (n, line, k') → 0 < n → (length (incoming k') < length (incoming k))%nat.
Proof.
  unfold ReadLine. destruct (read_line [] (incoming k)) as [[b out] inc] eqn:E. apply read_line_consumes in E. cbn in E.
  destruct b; [|destruct (at_end k)]; intros [= <- <- <-] Hn; cbn; lia.
Qed.

(** ** Every stream is dealt with *)
Lemma header_loop_total fuel e :
  (length (incoming (r_sock e)) < fuel)%nat → ∃ b e', header_loop fuel e = Ok (b, e').
Proof.
  revert e. induction fuel as [|fuel IH]; intros e Hf; [lia|]. cbn [header_loop].
  destruct (ReadLine (r_sock e) []) as [[n line] k] eqn:E. destruct (Z.leb_spec n 0); [eauto|].
  case_decide; [eauto|]. apply IH. cbn. pose proof (ReadLine_consumes _ _ _ _ E). lia.
Qed.

Lemma find_bound pat s pos : find pat s = Some pos → (pos + length pat ≤ length s)%nat.
Proof.
  assert (Hsw : ∀ p t, starts_with p t = true → (length p ≤ length t)%nat).
  { induction p as [|a p IH]; intros [|b t]; cbn; try done; [lia|]. intros [_ Ht%IH]%andb_true_iff. lia. }
  revert pos. induction s as [|c s IH]; intros pos; cbn [find]; destruct (starts_with pat _) eqn:E.
  - intros [= <-]. apply Hsw in E. cbn in *. lia.
  - done.
  - intros [= <-]. apply Hsw in E. cbn in *. lia.
  - destruct (find pat s) as [p|]; [|done]. intros [= <-]. pose proof (IH p eq_refl). cbn. lia.
Qed.

Lemma CutString_total target op : ∃ r, CutString target op = Ok r.
Proof.
  unfold CutString. destruct (find op target) as [pos|] eqn:E; [|eauto]. apply find_bound in E.
  unfold substr, substr_from. rewrite (proj2 (Nat.leb_le 0 _)) by lia. cbn [mbind res_bind].
  rewrite (proj2 (Nat.leb_le _ _)) by lia. cbn. eauto.
Qed.

Lemma parse_headers_total hs kv : ∃ r, parse_headers hs kv = Ok r.
Proof.
  revert kv. induction hs as [|h hs IH]; intros kv; cbn [parse_headers]; [eauto|].
  destruct (CutString_total h (lit ": ")) as [r ->]. cbn [mbind res_bind]. destruct r as [[? ?]|]; apply IH.
Qed.

Lemma body_loop_total n body inc : body_loop n body inc = Err SignedOverflow ∨ ∃ r, body_loop n body inc = Ok r.
Proof.
  revert n body. induction inc as [|c inc IH]; intros n body; cbn [body_loop]; destruct (n =? 0); eauto.
  destruct (n =? - 2 ^ 31); eauto.
Qed.

(** Receiving ends on every stream of bytes, however it breaks off: the request is
    received or [stop] is set; the one thing that can go wrong is a
    [Content-Length] that no [int] holds. *)
Theorem recv_always_ends k :
  (∃ e, recv_http_request (new_receiver k) = Ok ((), e)) ∨ recv_http_request (new_receiver k) = Err SignedOverflow.
Proof.
  unfold recv_http_request, mbind, M_bind, recv_http_request_line.
  destruct (ReadLine _ _) as [[n line] k1]. destruct (0 <? n); [cbn [stop new_receiver]|left; eexists; reflexivity].
  unfold recv_http_request_header.
  match goal with |- context [header_loop ?f ?e] => destruct (header_loop_total f e) as (b & e1 & ->); [lia|] end.
  destruct b; [left; eexists; reflexivity|]. cbn [modify]. unfold pares_http_request_header at 1 2.
  match goal with |- context [parse_headers ?h ?kv] => destruct (parse_headers_total h kv) as [m ->] end. cbn [mbind res_bind].
  unfold recv_http_request_body. cbn [http_request].
  unfold isnedd_recv_http_request_body. cbv zeta. case_decide; [|left; eexists; reflexivity].
  destruct (_ !! _) as [val|]; [|left; eexists; reflexivity]. unfold atoi.
  destruct (parse_number val) as [v|]; [destruct (in_int v)|]; cbn [mbind res_bind]; [|by right|].
  all: match goal with |- context [body_loop ?a ?b ?c] => destruct (body_loop_total a b c) as [->|[[[? ?] ?] ->]] end;
    cbn [mbind res_bind]; [by right|left; eexists; reflexivity].
Qed.

(** ** Messages as clients write them *)
Record message := mkMsg {
  m_method : str; m_uri : str; m_version : str;
  m_headers : list (str * str);
  m_body : str;
}.

Definition header_line (kv : str * str) : str := kv.1 ++ lit ": " ++ kv.2.
(** The text of a message; each line ends in its own way. *)
Definition start_line (m : message) : str := m_method m ++ " "%char :: m_uri m ++ " "%char :: m_version m.
Fixpoint print_lines (ls : list (str * eol)) : str :=
  match ls with [] => [] | (l, x) :: ls => l ++ eol_bytes x ++ print_lines ls end.
Definition print (m : message) (x0 xb : eol) (xs : list eol) : str :=
  start_line m ++ eol_bytes x0 ++ print_lines (zip (header_line <$> m_headers m) xs) ++ eol_bytes xb ++ m_body m.

(** The headers as a map; of two with one name the last counts. *)
Definition headers_map (hs : list (str * str)) : gmap str str := foldl (λ m kv, <[kv.1 := kv.2]> m) ∅ hs.

Definition is_word (w : str) : Prop := w ≠ [] ∧ Forall (λ c, is_space c = false) w.
Definition takes_body (m : message) : Prop :=
  toupper <$> m_method m = lit "POST" ∧ is_Some (headers_map (m_headers m) !! lit "Content-Length").
Record well_formed (m : message) : Prop := {
  wf_method : is_word (m_method m);
  wf_uri : is_word (m_uri m);
  wf_version : is_word (m_version m);
  wf_headers : Forall (λ kv, plain kv.1 ∧ Forall (λ c, c ≠ ":"%char) kv.1 ∧ plain kv.2) (m_headers m);
  wf_body : (takes_body m ∧ headers_map (m_headers m) !! lit "Content-Length" = Some (to_string (Z.of_nat (length (m_body m))))
             ∧ Z.of_nat (length (m_body m)) < 2 ^ 31) ∨ (¬ takes_body m ∧ m_body m = []);
}.

Lemma not_space_plain c : is_space c = false → c ≠ CR ∧ c ≠ LF.
Proof. intros Hc. split; intros ->; discriminate. Qed.
Lemma word_plain w : Forall (λ c, is_space c = false) w → plain w.
Proof. intros Hw. eapply Forall_impl; [exact Hw|]. intros c. apply not_space_plain. Qed.

Lemma word_spec w s : Forall (λ c, is_space c = false) w → word (w ++ " "%char :: s) = (w, " "%char :: s) ∧ word w = (w, []).
Proof.
  intros Hw. induction Hw as [|c w Hc Hw [IH1 IH2]]; [by split|]. cbn [app word]. rewrite Hc, IH1, IH2. done.
Qed.
Lemma next_word_spec w s :
  is_word w → next_word (w ++ " "%char :: s) = (w, " "%char :: s) ∧ next_word w = (w, []) ∧
  next_word (" "%char :: w ++ " "%char :: s) = (w, " "%char :: s) ∧ next_word (" "%char :: w) = (w, []).
Proof.
  intros [Hne Hw]. unfold next_word. destruct w as [|c w]; [done|].
  assert (Hc : is_space c = false) by (by apply Forall_cons in Hw as [? _]).
  assert (Hs : ∀ t, skip_spaces ((c :: w) ++ t) = (c :: w) ++ t) by (intros; cbn [app skip_spaces]; by rewrite Hc).
  assert (Hs' : ∀ t, skip_spaces (" "%char :: (c :: w) ++ t) = (c :: w) ++ t) by (intros; cbn [app skip_spaces]; by rewrite Hc).
  destruct (word_spec (c :: w) s Hw) as [E1 E2]. rewrite Hs, Hs', E1.
  specialize (Hs []). specialize (Hs' []). rewrite app_nil_r in Hs, Hs'. rewrite Hs, Hs', E2. done.
Qed.

Lemma pares_line_spec m q :
  well_formed m → request_line q = start_line m →
  pares_http_request_line q = with_line_parts (toupper <$> m_method m) (m_uri m) (m_version m) q.
Proof.
  intros Hm E. unfold pares_http_request_line. rewrite E. unfold start_line.
  destruct (next_word_spec _ (m_uri m ++ " "%char :: m_version m) (wf_method _ Hm)) as [-> _].
  destruct (next_word_spec _ (m_version m) (wf_uri _ Hm)) as (_ & _ & -> & _).
  by destruct (next_word_spec _ [] (wf_version _ Hm)) as (_ & _ & _ & ->).
Qed.

Lemma CutString_cuts c pat l r : Forall (λ x, x ≠ c) l → CutString (l ++ (c :: pat) ++ r) (c :: pat) = Ok (Some (l, r)).
Proof.
  intros Hl. destruct (cut_around c pat l r Hl) as (H1 & H2 & H3). unfold CutString. rewrite H1, H2. cbn [mbind res_bind].
  by rewrite H3.
Qed.

Lemma CutString_header k v : Forall (λ c, c ≠ ":"%char) k → CutString (header_line (k, v)) (lit ": ") = Ok (Some (k, v)).
Proof. intros Hk. by apply CutString_cuts. Qed.

Lemma parse_headers_spec hs kv :
  Forall (λ kv, Forall (λ c, c ≠ ":"%char) kv.1) hs →
  parse_headers (header_line <$> hs) kv = Ok (foldl (λ m kv, <[kv.1 := kv.2]> m) kv hs).
Proof.
  intros Hh. revert kv. induction Hh as [|[k v] hs Hk Hh IH]; intros kv; [done|]. cbn [fmap list_fmap parse_headers].
  rewrite CutString_header by done. cbn [mbind res_bind]. apply IH.
Qed.

Lemma header_line_plain kv : plain kv.1 → plain kv.2 → plain (header_line kv).
Proof.
  intros H1 H2. apply Forall_app. split; [done|]. apply Forall_app. split; [|done]. by repeat constructor.
Qed.

(** The loop collects the lines up to the empty one. *)
Lemma header_loop_spec ls fuel xb rest k q st e :
  Forall (λ lx, plain lx.1 ∧ lx.1 ≠ []) ls → (length ls < fuel)%nat →
  k = mkSock (print_lines ls ++ eol_bytes xb ++ rest) e →
  header_loop fuel (mkRecv k q st) =
    Ok (st, mkRecv (mkSock rest e) (with_blank [LF] (with_request_header (request_header q ++ ls.*1) q)) st).
Proof.
  revert fuel k q. induction ls as [|[l x] ls IH]; intros fuel k q Hls Hf ->.
  - destruct fuel as [|fuel]; [cbn in Hf; lia|]. cbn [header_loop r_sock print_lines app].
    pose proof (ReadLine_spec [] [] xb rest e ltac:(constructor)) as Hr. cbn [app] in Hr. rewrite Hr. cbn. rewrite app_nil_r.
    by destruct q.
  - destruct fuel as [|fuel]; [cbn in Hf; lia|]. apply Forall_cons in Hls as [[Hp Hne] Hls]. cbn [fst] in *.
    cbn [header_loop r_sock print_lines]. rewrite <- !app_assoc. rewrite ReadLine_spec by done. cbn [app].
    rewrite (proj2 (Z.leb_gt _ _)) by (rewrite length_app; cbn; lia).
    rewrite decide_False by (destruct l as [|? [|? ?]]; cbn; congruence).
    rewrite chop_snoc. cbn [http_request stop]. cbn [length] in Hf.
    rewrite (IH fuel _ _ Hls ltac:(lia) eq_refl). cbn. by rewrite <- app_assoc.
Qed.

Lemma body_loop_spec n body b rest :
  Z.of_nat (length b) = n → n < 2 ^ 31 → body_loop n body (b ++ rest) = Ok (false, body ++ b, rest).
Proof.
  revert n body. induction b as [|c b IH]; intros n body Hn Hb.
  - cbn in Hn. subst n. rewrite app_nil_r. by destruct rest.
  - cbn [length] in Hn. cbn [app body_loop]. rewrite (proj2 (Z.eqb_neq n 0)), (proj2 (Z.eqb_neq n _)) by lia.
    rewrite IH by lia. by rewrite <- app_assoc.
Qed.

Lemma print_lines_length ls : (length ls ≤ length (print_lines ls))%nat.
Proof.
  induction ls as [|[l x] ls IH]; [done|]. cbn [print_lines]. rewrite !length_app. destruct x; cbn; lia.
Qed.

Lemma recv_line_spec s x rest e :
  plain s → recv_http_request_line (new_receiver (mkSock (s ++ eol_bytes x ++ rest) e)) =
    Ok (false, mkRecv (mkSock rest e) (with_request_line s new_request) false).
Proof.
  intros Hs. unfold recv_http_request_line. cbn [r_sock new_receiver http_request new_request request_line].
  rewrite ReadLine_spec by done. cbn [app]. rewrite (proj2 (Z.ltb_lt _ _)) by (rewrite length_app; cbn; lia).
  by rewrite chop_snoc.
Qed.

Lemma recv_body_spec m q rest e :
  well_formed m → method q = toupper <$> m_method m → header_kv q = headers_map (m_headers m) → request_body q = [] →
  ∃ n, recv_http_request_body (mkRecv (mkSock (m_body m ++ rest) e) q false) =
    Ok (false, mkRecv (mkSock rest e) (with_request_body (m_body m) (with_content_length n q)) false) ∧
    (m_body m ≠ [] → n = Z.of_nat (length (m_body m)) ∧ n < 2 ^ 31).
Proof.
  intros Hm Em Eh Eb. unfold recv_http_request_body, isnedd_recv_http_request_body. cbn [http_request r_sock incoming at_end stop].
  rewrite Em, Eh. destruct (wf_body _ Hm) as [([Hp _] & Hl & Hb)|[Hn Hb]].
  - rewrite decide_True by done. rewrite Hl. exists (Z.of_nat (length (m_body m))). unfold atoi.
    rewrite parse_number_to_string by lia. unfold in_int. rewrite (proj2 (Z.leb_le _ _)), (proj2 (Z.ltb_lt _ _)) by lia.
    cbn [andb mbind res_bind with_content_length content_length request_body]. rewrite Eb, body_loop_spec by done. by split.
  - exists (content_length q). rewrite Hb. split; [|done]. case_decide as Hp; [|cbn; destruct q; cbn in *; by subst].
    destruct (headers_map _ !! _) as [v|] eqn:E; [|cbn; destruct q; cbn in *; by subst].
    destruct Hn. split; [done|]. by rewrite E.
Qed.

Lemma recv_printed m x0 xb xs rest e :
  well_formed m → length xs = length (m_headers m) →
  ∃ q, recv_http_request (new_receiver (mkSock (print m x0 xb xs ++ rest) e)) = Ok ((), mkRecv (mkSock rest e) q false) ∧
    method q = toupper <$> m_method m ∧ uri q = m_uri m ∧ version q = m_version m ∧
    header_kv q = headers_map (m_headers m) ∧ request_body q = m_body m ∧ cgi q = false ∧
    (m_body m ≠ [] → content_length q = Z.of_nat (length (m_body m)) ∧ content_length q < 2 ^ 31).
Proof.
  intros Hm Hx. unfold recv_http_request, print. rewrite <- !app_assoc. destruct (Hm) as [[_ Hw1] [_ Hw2] [_ Hw3] Hh _].
  erewrite bind_ok.
  2: { apply recv_line_spec. unfold start_line. apply Forall_app. split; [by apply word_plain|]. constructor; [done|].
       apply Forall_app. split; [by apply word_plain|]. constructor; [done|]. by apply word_plain. }
  cbv beta iota. set (ls := zip _ xs). assert (Els : ls.*1 = header_line <$> m_headers m).
  { unfold ls. apply fst_zip. rewrite length_fmap. lia. }
  erewrite bind_ok.
  2: { unfold recv_http_request_header. apply (header_loop_spec ls _ xb (m_body m ++ rest)); [| |reflexivity].
       - apply Forall_forall. intros [l x] Hin. cbn. apply (list_elem_of_fmap_2 fst) in Hin. cbn in Hin. rewrite Els in Hin.
         apply list_elem_of_fmap in Hin as ([k v] & -> & Hkv). rewrite Forall_forall in Hh. destruct (Hh _ Hkv) as (H1 & _ & H3).
         split; [by apply header_line_plain|]. unfold header_line. by destruct k.
       - cbn [r_sock incoming]. rewrite length_app. pose proof (print_lines_length ls). lia. }
  cbv beta iota. erewrite bind_ok by reflexivity. cbn [http_request r_sock stop].
  rewrite (pares_line_spec m) by done.
  erewrite bind_ok.
  2: { unfold pares_http_request_header. cbn. rewrite Els, parse_headers_spec; [reflexivity|].
       eapply Forall_impl; [exact Hh|]. by intros kv (_ & ? & _). }
  match goal with |- context [mkRecv (mkSock (m_body m ++ rest) e) ?q0 false] => set (q := q0) end.
  destruct (recv_body_spec m q rest e Hm eq_refl eq_refl eq_refl) as (n & Hr & Hn).
  erewrite bind_ok by exact Hr. eexists. split; [reflexivity|]. done.
Qed.

(** What a client writes is what the server reads: a request with any words in its
    first line, headers whose names hold no colon, lines ended by a line feed with or
    without a carriage return, and, for a POST with a length, a body of that
    length, is received completely and without a byte too many, its method in upper
    case, its parts and its headers as written, its body whole. *)
Theorem request_round_trip m x0 xb xs rest e :
  well_formed m → length xs = length (m_headers m) →
  ∃ q, recv_http_request (new_receiver (mkSock (print m x0 xb xs ++ rest) e)) = Ok ((), mkRecv (mkSock rest e) q false) ∧
    method q = toupper <$> m_method m ∧ uri q = m_uri m ∧ version q = m_version m ∧
    header_kv q = headers_map (m_headers m) ∧ request_body q = m_body m.
Proof.
  intros Hm Hx. destruct (recv_printed m x0 xb xs rest e Hm Hx) as (q & H1 & H2 & H3 & H4 & H5 & H6 & _). by exists q.
Qed.

(** ** Witnesses *)
Definition get_page : message :=
  mkMsg (lit "post") (lit "/cgi") (lit "HTTP/1.1") [(lit "Host", lit "a:b"); (lit "Content-Length", lit "2")] (lit "hi").

Lemma request_round_trip_witness :
  ∃ q, recv_http_request (new_receiver (mkSock (print get_page CRLF OnlyLF [CRLF; OnlyLF] ++ lit "next") SockClosed)) =
    Ok ((), mkRecv (mkSock (lit "next") SockClosed) q false) ∧ method q = lit "POST" ∧ request_body q = lit "hi".
Proof.
  destruct (request_round_trip get_page CRLF OnlyLF [CRLF; OnlyLF] (lit "next") SockClosed) as (q & H1 & H2 & _ & _ & _ & H3).
  - split; [| | | |left]; unfold is_word, plain, takes_body; apply (bool_decide_unpack _); by vm_compute.
  - done.
  - exists q. split; [exact H1|]. split; [exact H2|exact H3].
Defined.
