(* ===== verification/HttpResponse.v ===== *)
(** * Answering an HTTP request: src/my_Http/Protocol.hpp

    The half of [EndPoint] that builds and sends a response, and
    [CallBack::HandlerRequest].  Parameters: what [stat] says of a path, what
    [open] finds in a file, and what becomes of a program that is run with an
    environment and an input; they are given C strings, which end at a NUL.  The size that
    an uninitialised [struct stat] holds is one too.  [send] of a header takes all of it, and
    [sendfile] transfers what it is asked for, up to its own limit. *)

From S2P Require Import Prelude StdString HttpRequest.

Open Scope Z_scope.

Definition OK : Z := 200.
Definition BAD_REQUEST : Z := 400.
Definition NOT_FOUND : Z := 404.
Definition SERVER_ERROR : Z := 500.
Definition WEB_ROOT : str := lit "wwwroot".
Definition HOME_PAGE : str := lit "index.html".
Definition HTTP_VERSION : str := lit "HTTP/1.0".
Definition LINE_END : str := [CR; LF].
Definition PAGE_404 : str := lit "404.html".

Definition Code2_desc (code : Z) : str :=
  if code =? 200 then lit "OK" else if code =? 404 then lit "Not Found" else [].
Definition suffix2desc : list (str * str) :=
  [(lit ".html", lit "text/html"); (lit ".css", lit "text/css"); (lit ".js", lit "application/javascript"); (lit ".xml", lit "application/xml")].
Definition Suffix2Desc (suffix : str) : str :=
  match list_find (λ kv, kv.1 = suffix) suffix2desc with Some (_, kv) => kv.2 | None => lit "text/html" end.

(** ** [HttpResponse] *)
Record HttpResponse := mkRep {
  status_line : str;
  response_header : list str;
  response_body : str;
  status_code : Z;
  fd : option str;        (** the open file, by its contents *)
}.
Definition new_response : HttpResponse := mkRep [] [] [] OK None.

Record file_stat := mkStat { st_isdir : bool; st_isexec : bool; st_size : Z }.

(** What can become of a program run through [fork] and [execl]. *)
Inductive exit_status := Exited (n : Z) | Killed | WaitFailed.
Inductive cgi_outcome := PipeFailed | ForkFailed | Ran (output : str) (status : exit_status).

Section EndPoint.
Context (stat : str → option file_stat) (open_file : str → option str).
Context (spawn : str → list str → str → cgi_outcome).
(** [st_size] of the [struct stat] of [Handler_Error] before [stat] fills it. *)
Context (st_size0 : Z).

Definition set_cgi (x : bool) (q : HttpRequest) : HttpRequest :=
  mkReq (request_line q) (request_header q) (blank q) (request_body q) (method q) (uri q) (version q) (path q) (suffix q) (query_string q) (header_kv q) (content_length q) x (req_size q).
Definition set_path (x : str) (q : HttpRequest) : HttpRequest :=
  mkReq (request_line q) (request_header q) (blank q) (request_body q) (method q) (uri q) (version q) x (suffix q) (query_string q) (header_kv q) (content_length q) (cgi q) (req_size q).
Definition set_query (x : str) (q : HttpRequest) : HttpRequest :=
  mkReq (request_line q) (request_header q) (blank q) (request_body q) (method q) (uri q) (version q) (path q) (suffix q) x (header_kv q) (content_length q) (cgi q) (req_size q).
Definition set_suffix (x : str) (q : HttpRequest) : HttpRequest :=
  mkReq (request_line q) (request_header q) (blank q) (request_body q) (method q) (uri q) (version q) (path q) x (query_string q) (header_kv q) (content_length q) (cgi q) (req_size q).
(** [http_request.size = st.st_size], an [int]. *)
Definition set_size (x : Z) (q : HttpRequest) : HttpRequest :=
  mkReq (request_line q) (request_header q) (blank q) (request_body q) (method q) (uri q) (version q) (path q) (suffix q) (query_string q) (header_kv q) (content_length q) (cgi q) (to_int32 x).

Definition set_code (x : Z) (p : HttpResponse) : HttpResponse :=
  mkRep (status_line p) (response_header p) (response_body p) x (fd p).
Definition set_fd (x : option str) (p : HttpResponse) : HttpResponse :=
  mkRep (status_line p) (response_header p) (response_body p) (status_code p) x.
Definition add_body (x : str) (p : HttpResponse) : HttpResponse :=
  mkRep (status_line p) (response_header p) (response_body p ++ x) (status_code p) (fd p).
Definition add_header (x : str) (p : HttpResponse) : HttpResponse :=
  mkRep (status_line p) (response_header p ++ [x]) (response_body p) (status_code p) (fd p).
Definition add_status_line (x : str) (p : HttpResponse) : HttpResponse :=
  mkRep (status_line p ++ x) (response_header p) (response_body p) (status_code p) (fd p).

Definition process_Non_cgi (q : HttpRequest) (p : HttpResponse) : Z * HttpResponse :=
  let p := set_fd (open_file (path q)) p in
  (match fd p with Some _ => OK | None => NOT_FOUND end, p).

(** The environment the child puts in place. *)
Definition cgi_env (q : HttpRequest) : list str :=
  (lit "METHOD=" ++ method q) ::
  (if decide (method q = lit "GET") then [lit "QUERY_STRING=" ++ query_string q]
   else if decide (method q = lit "POST") then
     [lit "CONTENT_LENGTH=" ++ to_string (content_length q); lit "BODY=" ++ request_body q]
   else []).
(** What the parent writes to the child: [body_text] is a reference to
    [http_response.response_body]. *)
Definition cgi_input (q : HttpRequest) (p : HttpResponse) : str :=
  let body_text := response_body p in
  if decide (method q = lit "POST") then (if 0 <? content_length q then body_text else []) else [].

Definition process_cgi (q : HttpRequest) (p : HttpResponse) : Z * HttpResponse :=
  match spawn (path q) (cgi_env q) (cgi_input q p) with
  | PipeFailed => (SERVER_ERROR, p)
  | ForkFailed => (404, p)
  | Ran output status =>
      let p := add_body output p in
      (match status with
       | Exited n => if n =? 0 then OK else BAD_REQUEST
       | Killed => SERVER_ERROR
       | WaitFailed => OK
       end, p)
  end.

Definition Handler_Error (page : str) (q : HttpRequest) (p : HttpResponse) : HttpRequest * HttpResponse :=
  let q := set_cgi false q in
  let p := set_fd (open_file page) p in
  match fd p with
  | None => (q, p)
  | Some content =>
      let size := match stat page with Some st => st_size st | None => st_size0 end in   (* [stat] is not checked *)
      (set_size size q,
       add_header (lit "Content-Length: " ++ to_string size ++ LINE_END)
         (add_header (lit "Content-Type: text/html" ++ LINE_END) p))
  end.

Definition Build_OK_Response (q : HttpRequest) (p : HttpResponse) : HttpResponse :=
  let p := add_header (lit "Content-Type: " ++ Suffix2Desc (suffix q) ++ LINE_END) p in
  add_header (lit "Conten-Length: " ++
    to_string (if cgi q then Z.of_nat (length (response_body p)) else req_size q) ++ LINE_END) p.

Definition build_http_response_helper (q : HttpRequest) (p : HttpResponse) : HttpRequest * HttpResponse :=
  let code := status_code p in
  let p := add_status_line (HTTP_VERSION ++ lit " " ++ to_string code ++ lit " " ++ Code2_desc code ++ LINE_END) p in
  if code =? OK then (q, Build_OK_Response q p)
  else if (code =? NOT_FOUND) || (code =? SERVER_ERROR) || (code =? BAD_REQUEST)
  then Handler_Error (WEB_ROOT ++ lit "/" ++ PAGE_404) q p
  else (q, p).

(** The first part of [build_http_response]: what is asked for. *)
Definition split_uri (q : HttpRequest) : res HttpRequest :=
  if decide (method q = lit "GET") then
    match find (lit "?") (uri q) with
    | Some _ =>
        r ← CutString (uri q) (lit "?");
        match r with
        | Some (l, r) => Ok (set_cgi true (set_query r (set_path l q)))
        | None => Ok (set_cgi true (set_query [] (set_path [] q)))
        end
    | None => Ok (set_path (uri q) q)
    end
  else if decide (method q = lit "POST") then Ok (set_path (uri q) (set_cgi true q))
  else Ok q.

(** [path[path.size() - 1] == '/'] *)
Definition add_home_page (p : str) : str := if decide (last p = Some "/"%char) then p ++ HOME_PAGE else p.

(** Up to the label [END]: the request as it is then, and the response. *)
Definition find_resource (q : HttpRequest) (p : HttpResponse) : res (HttpRequest * HttpResponse) :=
  if negb (bool_decide (method q = lit "GET")) && negb (bool_decide (method q = lit "POST"))
  then Ok (q, set_code BAD_REQUEST p)
  else
    q ← split_uri q;
    let q := set_path (add_home_page (WEB_ROOT ++ path q)) q in
    match stat (path q) with
    | None => Ok (q, set_code NOT_FOUND p)
    | Some st =>
        let '(q, st) :=
          if st_isdir st then
            let q := set_path (path q ++ lit "/" ++ HOME_PAGE) q in
            (q, default st (stat (path q)))        (* the second [stat] is not checked *)
          else (q, st) in
        let q := if st_isexec st then set_cgi true q else q in
        let q := set_size (st_size st) q in
        let q := match rfind_char "."%char (path q) with
                 | Some i => set_suffix (drop i (path q)) q
                 | None => set_suffix (lit ".html") q
                 end in
        let '(code, p) := if cgi q then process_cgi q p else process_Non_cgi q p in
        Ok (q, set_code code p)
    end.
Definition build_http_response (q : HttpRequest) (p : HttpResponse) : res (HttpRequest * HttpResponse) :=
  '(q, p) ← find_resource q p; Ok (build_http_response_helper q p).

(** The loop that sends the body; [rs] are the results of [send], which go into a
    [size_t].  The bytes sent. *)
Fixpoint send_loop (rs : list Z) (body : str) (total : Z) : str :=
  if total <? Z.of_nat (length body) then
    match rs with
    | [] => []
    | r :: rs =>
        let size := u64 r in
        if 0 <? size then take (Z.to_nat r) (drop (Z.to_nat total) body) ++ send_loop rs body (u64 (total + size))
        else []
    end
  else [].

(** [sendfile(sock, fd, nullptr, count)]: at most [0x7ffff000] bytes at a time. *)
Definition SENDFILE_MAX : Z := 2147479552.
Definition sendfile (content : str) (count : Z) : str := take (Z.to_nat (Z.min (u64 count) SENDFILE_MAX)) content.

(** [send_http_response]: the bytes sent, when [send] of the body returns [rs]. *)
Definition send_http_response (rs : list Z) (q : HttpRequest) (p : HttpResponse) : str :=
  status_line p ++ concat (response_header p) ++ LINE_END ++
  (if cgi q then send_loop rs (response_body p) 0
   else match fd p with Some content => sendfile content (req_size q) | None => [] end).

(** [CallBack::HandlerRequest]: the answer, if one is sent, and the socket. *)
Definition HandlerRequest (rs : list Z) (k : sock) : res (option str * sock) :=
  match recv_http_request (new_receiver k) with
  | Err e => Err e
  | Ok (_, e) =>
      if stop e then Ok (None, r_sock e)
      else '(q, p) ← build_http_response (http_request e) new_response;
           Ok (Some (send_http_response rs q p), r_sock e)
  end.

(** ** Theorems *)
#[local] Arguments lit : simpl never.
#[local] Arguments to_string : simpl never.
#[local] Arguments WEB_ROOT : simpl never.
#[local] Arguments HOME_PAGE : simpl never.
#[local] Arguments HTTP_VERSION : simpl never.
#[local] Arguments LINE_END : simpl never.

Definition header_text (hs : list str) : str := concat ((λ h, h ++ LINE_END) <$> hs).
Definition status_text (code : Z) : str := HTTP_VERSION ++ lit " " ++ to_string code ++ lit " " ++ Code2_desc code.

(** The type announced for a path. *)
Definition type_of (path : str) : str :=
  Suffix2Desc (match rfind_char "."%char path with Some i => drop i path | None => lit ".html" end).

(** The request for a file: a GET of a path, not of a program. *)
Definition asks_file (q : HttpRequest) (u : str) : Prop :=
  method q = lit "GET" ∧ uri q = u ∧ ("?"%char ∉ u) ∧ last u ≠ Some "/"%char ∧ u ≠ [] ∧ cgi q = false.

Lemma not_in_find u : ("?"%char ∉ u) → find (lit "?") u = None.
Proof. intros Hu. apply find_absent. apply Forall_forall. intros x Hx ->. done. Qed.

Lemma size_kept n : 0 ≤ n ≤ SENDFILE_MAX → to_int32 n = n.
Proof. intros Hn. unfold SENDFILE_MAX in Hn. apply to_int32_small. lia. Qed.
Lemma sendfile_whole content : Z.of_nat (length content) ≤ SENDFILE_MAX → sendfile content (Z.of_nat (length content)) = content.
Proof. intros Hn. unfold sendfile. pose proof Hn as Hm. unfold SENDFILE_MAX in Hm. rewrite u64_small, Z.min_l by lia. by rewrite Nat2Z.id, firstn_all. Qed.

Lemma find_resource_file q u p content ex :
  asks_file q u → stat (WEB_ROOT ++ u) = Some (mkStat false ex (Z.of_nat (length content))) → ex = false →
  open_file (WEB_ROOT ++ u) = Some content →
  find_resource q p = Ok (set_suffix (match rfind_char "."%char (WEB_ROOT ++ u) with Some i => drop i (WEB_ROOT ++ u) | None => lit ".html" end)
      (set_size (Z.of_nat (length content)) (set_path (WEB_ROOT ++ u) (set_path u q))), set_code OK (set_fd (Some content) p)).
Proof.
  intros (Hm & Hu & Hq & Hl & Hne & Hc) Hst -> Hop. unfold find_resource, split_uri. rewrite Hm, Hu.
  rewrite bool_decide_eq_true_2 by done. cbn [negb andb]. rewrite decide_True by done.
  rewrite not_in_find by done. cbn [mbind res_bind set_path path].
  unfold add_home_page. rewrite decide_False.
  2: { rewrite last_app. destruct (last u) as [c|] eqn:E; [congruence|]. apply last_None in E. done. }
  rewrite Hst. cbn [st_isdir st_isexec st_size]. cbn [set_size set_path path].
  destruct (rfind_char _ _) as [i|]; cbn; unfold process_Non_cgi; cbn; rewrite Hc; cbn; by rewrite Hop.
Qed.

Lemma build_file q u content :
  asks_file q u → stat (WEB_ROOT ++ u) = Some (mkStat false false (Z.of_nat (length content))) →
  open_file (WEB_ROOT ++ u) = Some content → Z.of_nat (length content) ≤ SENDFILE_MAX →
  ∃ q' p', build_http_response q new_response = Ok (q', p') ∧ ∀ rs,
    send_http_response rs q' p' =
      status_text OK ++ LINE_END ++
      header_text [lit "Content-Type: " ++ type_of (WEB_ROOT ++ u); lit "Conten-Length: " ++ to_string (Z.of_nat (length content))] ++
      LINE_END ++ content.
Proof.
  intros Hq Hst Hop Hmax. unfold build_http_response. rewrite (find_resource_file q u _ content false) by done. cbn [mbind res_bind].
  destruct Hq as (_ & _ & _ & _ & _ & Hc). eexists _, _. split; [reflexivity|].
  intros rs. unfold send_http_response. cbn. rewrite Hc. unfold header_text, status_text.
  cbn -[sendfile to_int32 Z.of_nat]. rewrite size_kept, sendfile_whole by (unfold SENDFILE_MAX in *; lia). by rewrite <- ?app_assoc.
Qed.

(** The page for errors, and the answer with it. *)
Definition error_page (page : str) : Prop :=
  open_file (WEB_ROOT ++ lit "/" ++ PAGE_404) = Some page ∧ Z.of_nat (length page) ≤ SENDFILE_MAX ∧
  ∃ d x, stat (WEB_ROOT ++ lit "/" ++ PAGE_404) = Some (mkStat d x (Z.of_nat (length page))).
Definition error_answer (code : Z) (page : str) : str :=
  status_text code ++ LINE_END ++
  header_text [lit "Content-Type: text/html"; lit "Content-Length: " ++ to_string (Z.of_nat (length page))] ++ LINE_END ++ page.
Lemma build_error q q1 code page :
  find_resource q new_response = Ok (q1, set_code code new_response) → code = NOT_FOUND ∨ code = BAD_REQUEST → error_page page →
  ∃ q' p', build_http_response q new_response = Ok (q', p') ∧ ∀ rs, send_http_response rs q' p' = error_answer code page.
Proof.
  intros Hf Hc (Hop & Hmax & d & x & Hst). unfold build_http_response. rewrite Hf. cbn [mbind res_bind].
  unfold build_http_response_helper. cbn [status_code add_status_line set_code].
  destruct (code =? OK) eqn:E1; [by destruct Hc as [-> | ->]|].
  destruct (_ || _ || _) eqn:E2; [|by destruct Hc as [-> | ->]].
  unfold Handler_Error. cbn [set_fd fd]. rewrite Hop, Hst. eexists _, _. split; [reflexivity|]. intros rs.
  unfold send_http_response, error_answer, header_text, status_text.
  cbn -[sendfile to_int32 Z.of_nat]. rewrite size_kept, sendfile_whole by (unfold SENDFILE_MAX in *; lia).
  by rewrite <- ?app_assoc.
Qed.

(** The body is sent whole and in order when [send] always takes some of it. *)
Lemma send_loop_from rs body total :
  Forall (λ r, 0 < r) rs → 0 ≤ total → total + foldr Z.add 0 rs = Z.of_nat (length body) →
  Z.of_nat (length body) < 2 ^ 63 → send_loop rs body total = drop (Z.to_nat total) body.
Proof.
  intros Hrs. revert total. induction Hrs as [|r rs Hr Hrs IH]; intros total Ht Hsum Hb; cbn [foldr] in Hsum.
  - cbn. rewrite (proj2 (Z.ltb_ge _ _)) by lia. symmetry. apply drop_ge. lia.
  - cbn [send_loop]. assert (0 ≤ foldr Z.add 0 rs).
    { clear -Hrs. induction Hrs; cbn; lia. }
    rewrite (proj2 (Z.ltb_lt _ _)) by lia. rewrite !u64_small by (rewrite ?u64_small by lia; lia).
    rewrite (proj2 (Z.ltb_lt _ _)) by lia. rewrite IH by lia. rewrite Z2Nat.inj_add, <- drop_drop by lia. apply take_drop.
Qed.
Lemma send_loop_whole rs body :
  Forall (λ r, 0 < r) rs → foldr Z.add 0 rs = Z.of_nat (length body) → Z.of_nat (length body) < 2 ^ 63 → send_loop rs body 0 = body.
Proof. intros. by rewrite send_loop_from. Qed.

Lemma split_query q u qs :
  method q = lit "GET" → uri q = u ++ "?"%char :: qs → ("?"%char ∉ u) →
  split_uri q = Ok (set_cgi true (set_query qs (set_path u q))).
Proof.
  intros Hm Hu Hq. unfold split_uri. rewrite Hm, Hu, decide_True by done.
  assert (Hn : Forall (λ x, x ≠ "?"%char) u) by (apply Forall_forall; by intros x Hx ->).
  change (u ++ "?"%char :: qs) with (u ++ ["?"%char] ++ qs). change (lit "?") with ["?"%char].
  rewrite (find_after "?"%char [] u qs Hn). by rewrite (CutString_cuts "?"%char [] u qs Hn).
Qed.

(** A program that exits with 0 is answered by its output. *)
Lemma build_program q q1 u st out :
  method q = lit "GET" ∨ method q = lit "POST" → split_uri q = Ok q1 → cgi q1 = true → path q1 = u →
  last u ≠ Some "/"%char → u ≠ [] → stat (WEB_ROOT ++ u) = Some st → st_isdir st = false →
  spawn (WEB_ROOT ++ u) (cgi_env q1) [] = Ran out (Exited 0) →
  ∃ q' p', build_http_response q new_response = Ok (q', p') ∧ ∀ rs,
    Forall (λ r, 0 < r) rs → foldr Z.add 0 rs = Z.of_nat (length out) → Z.of_nat (length out) < 2 ^ 63 →
    send_http_response rs q' p' =
      status_text OK ++ LINE_END ++
      header_text [lit "Content-Type: " ++ type_of (WEB_ROOT ++ u); lit "Conten-Length: " ++ to_string (Z.of_nat (length out))] ++
      LINE_END ++ out.
Proof.
  intros Hm Hs Hc <- Hl Hne Hst Hd Hsp. unfold build_http_response, find_resource.
  assert (negb (bool_decide (method q = lit "GET")) && negb (bool_decide (method q = lit "POST")) = false) as ->.
  { destruct Hm as [->| ->]; done. }
  rewrite Hs. cbn [mbind res_bind]. set (u := path q1) in *. cbn [set_path path].
  assert (add_home_page (WEB_ROOT ++ u) = WEB_ROOT ++ u) as ->.
  { unfold add_home_page. rewrite decide_False; [done|]. rewrite last_app.
    destruct (last u) as [c|] eqn:E; [congruence|]. by apply last_None in E. }
  rewrite Hst, Hd. unfold type_of. set (ty := match rfind_char "."%char (WEB_ROOT ++ u) with Some i => drop i (WEB_ROOT ++ u) | None => lit ".html" end).
  match goal with |- context [process_cgi ?x _] => set (q3 := x) end.
  assert (H3 : cgi q3 = true ∧ path q3 = WEB_ROOT ++ u ∧ cgi_env q3 = cgi_env q1 ∧ suffix q3 = ty).
  { unfold q3, ty. by destruct (st_isexec st), (rfind_char _ _); cbn. }
  clearbody q3 ty. destruct H3 as (E1 & E2 & E3 & E4). rewrite E1. unfold process_cgi.
  assert (cgi_input q3 new_response = []) as -> by (unfold cgi_input; case_decide; [by destruct (0 <? _)|done]).
  rewrite E2, E3, Hsp. cbn [mbind res_bind]. eexists _, _. split; [reflexivity|]. intros rs Hrs Hsum Hlen.
  unfold send_http_response. cbn. rewrite E1, E4. rewrite send_loop_whole by done. unfold header_text, status_text. cbn.
  by rewrite <- ?app_assoc.
Qed.

(** A program is run and its output sent, end to end: whoever writes a GET with
    a query, or a POST with a body, for a path under which [wwwroot] has a program
    receives, if the program exits with 0, the headers that announce the length of its
    output and that output, split by [send] in whatever pieces; the program has the
    method and the query, or the body and its length, in its environment. *)
Lemma program_served m u text x0 xb xs rest e st out rs :
  well_formed m → length xs = length (m_headers m) → last u ≠ Some "/"%char → u ≠ [] →
  stat (WEB_ROOT ++ u) = Some st → st_isdir st = false →
  (toupper <$> m_method m = lit "GET" ∧ m_uri m = u ++ "?"%char :: text ∧ ("?"%char ∉ u) ∧
     spawn (WEB_ROOT ++ u) [lit "METHOD=GET"; lit "QUERY_STRING=" ++ text] [] = Ran out (Exited 0) ∨
   toupper <$> m_method m = lit "POST" ∧ m_uri m = u ∧ m_body m = text ∧ text ≠ [] ∧
     spawn (WEB_ROOT ++ u) [lit "METHOD=POST"; lit "CONTENT_LENGTH=" ++ to_string (Z.of_nat (length text)); lit "BODY=" ++ text] []
       = Ran out (Exited 0)) →
  Forall (λ r, 0 < r) rs → foldr Z.add 0 rs = Z.of_nat (length out) → Z.of_nat (length out) < 2 ^ 63 →
  HandlerRequest rs (mkSock (print m x0 xb xs ++ rest) e) =
    Ok (Some (status_text OK ++ LINE_END ++
         header_text [lit "Content-Type: " ++ type_of (WEB_ROOT ++ u); lit "Conten-Length: " ++ to_string (Z.of_nat (length out))] ++
         LINE_END ++ out), mkSock rest e).
Proof.
  intros Hm Hx Hl Hne Hst Hd Hcase Hrs Hsum Hlen. unfold HandlerRequest.
  destruct (recv_printed m x0 xb xs rest e Hm Hx) as (q & -> & H2 & H3 & _ & _ & H5 & H6 & H7). cbn [stop http_request r_sock].
  assert (∃ q1, (method q = lit "GET" ∨ method q = lit "POST") ∧ split_uri q = Ok q1 ∧ cgi q1 = true ∧ path q1 = u ∧
    spawn (WEB_ROOT ++ u) (cgi_env q1) [] = Ran out (Exited 0)) as (q1 & Hg & Hs & Hc & Hp & Hsp).
  { destruct Hcase as [(Eg & Eu & Hq & Hsp)|(Eg & Eu & Eb & Ht & Hsp)].
    - exists (set_cgi true (set_query text (set_path u q))). split; [left; congruence|].
      rewrite (split_query q u text) by congruence. split_and!; [done..|].
      unfold cgi_env. cbn [set_cgi set_query set_path method query_string]. rewrite H2, Eg, decide_True by done. exact Hsp.
    - exists (set_path (uri q) (set_cgi true q)). split; [right; congruence|]. unfold split_uri.
      rewrite H2, Eg, decide_False, decide_True by done. split_and!; [done|done|cbn; congruence|].
      unfold cgi_env. cbn [set_cgi set_path method content_length request_body]. rewrite H2, Eg, decide_False, decide_True by done.
      rewrite H5, Eb. destruct H7 as [-> _]; [congruence|]. rewrite Eb. exact Hsp. }
  destruct (build_program q q1 u st out Hg Hs Hc Hp Hl Hne Hst Hd Hsp) as (q' & p' & Hb & Hsend).
  rewrite Hb. cbn [mbind res_bind]. by rewrite Hsend.
Qed.

(** The file of a GET, end to end. *)
Lemma page_served m x0 xb xs rest e rs content :
  well_formed m → length xs = length (m_headers m) →
  toupper <$> m_method m = lit "GET" → ("?"%char ∉ m_uri m) → last (m_uri m) ≠ Some "/"%char →
  stat (WEB_ROOT ++ m_uri m) = Some (mkStat false false (Z.of_nat (length content))) →
  open_file (WEB_ROOT ++ m_uri m) = Some content → Z.of_nat (length content) ≤ SENDFILE_MAX →
  HandlerRequest rs (mkSock (print m x0 xb xs ++ rest) e) =
    Ok (Some (status_text OK ++ LINE_END ++
         header_text [lit "Content-Type: " ++ type_of (WEB_ROOT ++ m_uri m); lit "Conten-Length: " ++ to_string (Z.of_nat (length content))] ++
         LINE_END ++ content), mkSock rest e).
Proof.
  intros Hm Hx Hget Hq Hl Hst Hop Hmax. unfold HandlerRequest.
  destruct (recv_printed m x0 xb xs rest e Hm Hx) as (q & -> & H2 & H3 & _ & _ & _ & H6 & _). cbn [stop].
  destruct (build_file q (m_uri m) content) as (q' & p' & Hb & Hs); [|done|done|done|].
  { split; [congruence|]. split; [done|]. split; [done|]. split; [done|]. split; [apply (wf_uri _ Hm)|done]. }
  cbn [http_request r_sock]. rewrite Hb. cbn [mbind res_bind]. by rewrite Hs.
Qed.

(** What cannot be served, end to end. *)
Lemma error_served m x0 xb xs rest e rs page code :
  well_formed m → length xs = length (m_headers m) → error_page page →
  (code = NOT_FOUND ∧ toupper <$> m_method m = lit "GET" ∧ ("?"%char ∉ m_uri m) ∧ stat (add_home_page (WEB_ROOT ++ m_uri m)) = None ∨
   code = BAD_REQUEST ∧ toupper <$> m_method m ≠ lit "GET" ∧ toupper <$> m_method m ≠ lit "POST") →
  HandlerRequest rs (mkSock (print m x0 xb xs ++ rest) e) = Ok (Some (error_answer code page), mkSock rest e).
Proof.
  intros Hm Hx Hp Hcase. unfold HandlerRequest.
  destruct (recv_printed m x0 xb xs rest e Hm Hx) as (q & -> & H2 & H3 & _ & _ & _ & H6 & _). cbn [stop http_request r_sock].
  assert (∃ q1, find_resource q new_response = Ok (q1, set_code code new_response)) as [q1 Hf].
  { unfold find_resource. destruct Hcase as [(-> & Hg & Hq & Hst)|(-> & Hg & Hpo)].
    - rewrite H2, Hg. rewrite bool_decide_eq_true_2 by done. cbn [negb andb]. unfold split_uri. rewrite H2, Hg, decide_True by done.
      rewrite H3, not_in_find by done. cbn [mbind res_bind]. cbn [set_path path]. rewrite Hst. by eexists.
    - rewrite H2, !bool_decide_eq_false_2 by done. by eexists. }
  destruct (build_error q q1 code page Hf) as (q' & p' & -> & Hs); [destruct Hcase as [[-> _]|[-> _]]; auto|done|].
  cbn [mbind res_bind]. by rewrite Hs.
Qed.

End EndPoint.

(** The input of a program that a POST runs is always empty: the body of the request
    is not written to it, so two ways of running programs that agree on an empty
    input give the same answers to every request. *)
Theorem cgi_never_reads_body stat open_file spawn1 spawn2 size0 q :
  (∀ bin env, spawn1 bin env [] = spawn2 bin env []) →
  build_http_response stat open_file spawn1 size0 q new_response = build_http_response stat open_file spawn2 size0 q new_response.
Proof.
  intros He. unfold build_http_response, find_resource. destruct (negb _ && negb _); [done|].
  destruct (split_uri q) as [q0|]; [|done]. cbn [mbind res_bind]. destruct (stat _) as [st|]; [|done].
  destruct (if st_isdir st then _ else _) as [q2 st2].
  match goal with |- context [process_cgi spawn1 ?x _] => generalize x; intros q3 end.
  destruct (cgi q3); [|done]. unfold process_cgi.
  assert (cgi_input q3 new_response = []) as ->; [|by rewrite He].
  unfold cgi_input. case_decide; [|done]. by destruct (0 <? _).
Qed.

(** ** Witnesses *)
Definition page_get : message := mkMsg (lit "GET") (lit "/a.css") (lit "HTTP/1.1") [(lit "Host", lit "x")] [].
Definition one_file (p : str) : option str := if decide (p = lit "wwwroot/a.css") then Some (lit "body{}") else None.
Definition one_stat (p : str) : option file_stat := (λ c, mkStat false false (Z.of_nat (length c))) <$> one_file p.
Definition no_program (bin : str) (env : list str) (input : str) : cgi_outcome := Ran [] (Exited 1).


Lemma cgi_never_reads_body_witness :
  build_http_response one_stat one_file (λ _ _ input, Ran input (Exited 0)) 0 new_request new_response =
  build_http_response one_stat one_file (λ _ _ _, Ran [] (Exited 0)) 0 new_request new_response.
Proof. apply cgi_never_reads_body. done. Defined.
