(* ===== verification/Cgi.v ===== *)
(** * The query program: src/my_Http/cgi/test_cgi.cc

    The program that the web server runs for a form, and the server with that program
    in its place: what a client that fills in the form reads. *)

From S2P Require Import Prelude StdString HttpRequest HttpResponse.

Open Scope Z_scope.

(** ** The program *)
(** The value of a variable of the environment, a C string. *)
Fixpoint getenv (name : str) (env : list str) : option str :=
  match env with
  | [] => None
  | e :: env =>
      if starts_with (name ++ lit "=") e then Some (c_str (drop (length (name ++ lit "=")) e)) else getenv name env
  end.
(** [std::string s = getenv(name)], which needs the variable to be there. *)
Definition env_string (name : str) (env : list str) : res str :=
  match getenv name env with Some v => Ok v | None => Err NullDeref end.

Definition GetQueryString (env : list str) : res (option str) :=
  method ← env_string (lit "METHOD") env;
  if decide (method = lit "GET") then query_string ← env_string (lit "QUERY_STRING") env; Ok (Some query_string)
  else if decide (method = lit "POST") then
    content_length ← env_string (lit "CONTENT_LENGTH") env;
    _ ← atoi content_length;
    query_string ← env_string (lit "BODY") env; Ok (Some query_string)
  else Ok None.

(** The outputs, which are empty before, stay so when the separator is not there. *)
Definition cgi_CutString (in_ op : str) : res (str * str) :=
  match find op in_ with
  | Some pos => out1 ← substr in_ 0 (Z.of_nat pos); out2 ← substr_from in_ (pos + length op); Ok (out1, out2)
  | None => Ok ([], [])
  end.

(** What is written to the standard output. *)
Definition main (env : list str) : res str :=
  query_string ← GetQueryString env;
  '(str1, str2) ← cgi_CutString (default [] query_string) (lit "&");
  '(name1, value1) ← cgi_CutString str1 (lit "=");
  '(name2, value2) ← cgi_CutString str2 (lit "=");
  Ok (name1 ++ lit "->" ++ value1 ++ [LF] ++ name2 ++ lit "->" ++ value2 ++ [LF]).

(** The program as the server sees it. *)
Definition test_cgi (env : list str) : cgi_outcome :=
  match main env with Ok out => Ran out (Exited 0) | Err _ => Ran [] Killed end.

(** ** Forms *)
Definition without (c : ascii) (s : str) : Prop := Forall (λ x, x ≠ c) s.
(** Two fields: the first is ended by the first ampersand, a name by the first equals sign. *)
Record form := mkForm { f_name1 : str; f_value1 : str; f_name2 : str; f_value2 : str }.
Definition form_text (f : form) : str :=
  (f_name1 f ++ "="%char :: f_value1 f) ++ "&"%char :: f_name2 f ++ "="%char :: f_value2 f.
Definition form_page (f : form) : str :=
  f_name1 f ++ lit "->" ++ f_value1 f ++ [LF] ++ f_name2 f ++ lit "->" ++ f_value2 f ++ [LF].
Record form_ok (f : form) : Prop := {
  fo_name1 : without "="%char (f_name1 f);
  fo_first : without "&"%char (f_name1 f ++ "="%char :: f_value1 f);
  fo_name2 : without "="%char (f_name2 f);
  fo_nul : c_str (form_text f) = form_text f;
}.

Lemma cgi_cut c l r : without c l → cgi_CutString (l ++ c :: r) [c] = Ok (l, r).
Proof.
  intros Hl. destruct (cut_around c [] l r Hl) as (H1 & H2 & H3). unfold cgi_CutString.
  change (l ++ c :: r) with (l ++ [c] ++ r). rewrite H1, H2. cbn [mbind res_bind]. by rewrite H3.
Qed.

Lemma main_form env f : form_ok f → GetQueryString env = Ok (Some (form_text f)) → main env = Ok (form_page f).
Proof.
  intros [H1 H2 H3 _] He. unfold main. rewrite He. cbn [mbind res_bind].
  change (default [] (Some (form_text f))) with (form_text f). unfold form_text.
  change (lit "&") with ["&"%char]. change (lit "=") with ["="%char].
  rewrite (cgi_cut "&"%char) by done. cbn [mbind res_bind]. rewrite (cgi_cut "="%char (f_name1 f)) by done.
  cbn [mbind res_bind]. by rewrite (cgi_cut "="%char (f_name2 f)).
Qed.

Lemma form_not_empty f : form_text f ≠ [].
Proof. unfold form_text. by destruct (f_name1 f). Qed.

Lemma get_form f : form_ok f → test_cgi [lit "METHOD=GET"; lit "QUERY_STRING=" ++ form_text f] = Ran (form_page f) (Exited 0).
Proof.
  intros Hf. unfold test_cgi. rewrite (main_form _ f Hf); [done|].
  change (GetQueryString _) with (Ok (Some (c_str (form_text f)))). by rewrite (fo_nul _ Hf).
Qed.

Lemma c_str_no_nul t : Forall (λ c, c ≠ "000"%char) t → c_str t = t.
Proof. induction 1 as [|c t Hc Ht IH]; [done|]. cbn [c_str]. rewrite decide_False by done. by rewrite IH. Qed.

Lemma post_form f n :
  form_ok f → 0 ≤ n < 2 ^ 31 →
  test_cgi [lit "METHOD=POST"; lit "CONTENT_LENGTH=" ++ to_string n; lit "BODY=" ++ form_text f] = Ran (form_page f) (Exited 0).
Proof.
  intros Hf Hn. unfold test_cgi. rewrite (main_form _ f Hf); [done|].
  change (GetQueryString _) with (_ ← atoi (c_str (to_string n)); Ok (Some (c_str (form_text f)))).
  rewrite (fo_nul _ Hf), c_str_no_nul.
  - unfold atoi. rewrite parse_number_to_string by lia. unfold in_int.
    by rewrite (proj2 (Z.leb_le _ _)), (proj2 (Z.ltb_lt _ _)) by lia.
  - destruct (to_string_numeric n) as [Ht _]; [lia|]. eapply Forall_impl; [exact Ht|].
    intros c [[d Hd]| ->] E; [subst c; by vm_compute in Hd|done].
Qed.

(** A form is answered end to end: a client that asks for the program by GET, with the form as
    the query, or by POST, with the form as the body, ends its lines as it likes and receives,
    whatever [send] takes at a time, status 200, the length and one line per field with its name
    and value; the next request on the connection is untouched. *)
Theorem form_answered stat open_file spawn size0 m u f x0 xb xs rest e st rs :
  well_formed m → length xs = length (m_headers m) → last u ≠ Some "/"%char → u ≠ [] →
  stat (WEB_ROOT ++ u) = Some st → st_isdir st = false →
  (∀ env input, spawn (WEB_ROOT ++ u) env input = test_cgi env) → form_ok f →
  (toupper <$> m_method m = lit "GET" ∧ ("?"%char ∉ u) ∧ m_uri m = u ++ "?"%char :: form_text f ∨
   toupper <$> m_method m = lit "POST" ∧ m_uri m = u ∧ m_body m = form_text f) →
  Forall (λ r, 0 < r) rs → foldr Z.add 0 rs = Z.of_nat (length (form_page f)) → Z.of_nat (length (form_page f)) < 2 ^ 63 →
  HandlerRequest stat open_file spawn size0 rs (mkSock (print m x0 xb xs ++ rest) e) =
    Ok (Some (status_text OK ++ LINE_END ++
         header_text [lit "Content-Type: " ++ type_of (WEB_ROOT ++ u); lit "Conten-Length: " ++ to_string (Z.of_nat (length (form_page f)))] ++
         LINE_END ++ form_page f), mkSock rest e).
Proof.
  intros Hm Hx Hl Hne Hst Hd Hsp Hf Hcase Hrs Hsum Hlen.
  apply (program_served stat open_file spawn size0 m u (form_text f)) with (st := st); [done..| |done|done|done].
  destruct Hcase as [(Hg & Hq & Hu)|(Hg & Hu & Hb)]; [left|right].
  - split_and!; [done..|]. rewrite Hsp. by apply get_form.
  - split_and!; [done|done|done|apply form_not_empty|]. rewrite Hsp. apply post_form; [done|].
    destruct (wf_body _ Hm) as [(_ & _ & Hlt)|[_ E]]; [rewrite Hb in Hlt; lia|]. rewrite Hb in E. by apply form_not_empty in E.
Qed.

Definition sum_form : form := mkForm (lit "a") (lit "1") (lit "b") (lit "2").
Definition sum_post : message :=
  mkMsg (lit "post") (lit "/cgi") (lit "HTTP/1.1") [(lit "Content-Length", lit "7")] (form_text sum_form).
Lemma form_answered_witness :
  HandlerRequest (λ _, Some (mkStat false true 9)) (λ _, None) (λ _ env _, test_cgi env) 0 [3; 7]
      (mkSock (print sum_post CRLF CRLF [CRLF] ++ lit "GET") SockClosed) =
    Ok (Some (status_text OK ++ LINE_END ++
         header_text [lit "Content-Type: text/html"; lit "Conten-Length: 10"] ++ LINE_END ++ form_page sum_form), mkSock (lit "GET") SockClosed).
Proof.
  apply (form_answered (λ _, Some (mkStat false true 9)) (λ _, None) (λ _ env _, test_cgi env) 0 sum_post (lit "/cgi") sum_form)
    with (st := mkStat false true 9); try done.
  - split; [| | | |left; split; [|split; [done|by vm_compute]]]; unfold is_word, HttpRequest.plain, takes_body; apply (bool_decide_unpack _); by vm_compute.
  - split; unfold without; apply (bool_decide_unpack _); by vm_compute.
  - right. done.
  - by repeat constructor.
Defined.
