(* ===== verification/CalProto.v ===== *)
(** * The calculator protocol of src/lesson_IO/Reactor (Protocol.hpp, main.cc)

    Messages are framed by their length, as in [src/lesson10/cal/protol.hpp].  A
    request or reply is serialized by one of two codecs chosen when the program
    is built: the text codec of the branch [#ifdef MYSELF], defined here, or
    JsonCpp.  The server is proved against the interface [Codec], which the text
    codec implements. *)

From S2P Require Import Prelude StdString.

Open Scope Z_scope.

Definition LINE_SEP : str := ["013"%char; "010"%char].
Definition LINE_SEP_LEN : nat := 2.
Definition SEP : str := [" "%char].
Definition SEP_LEN : nat := 1.

(** ** Framing *)
Definition enLength (text : str) : str :=
  to_string (Z.of_nat (length text)) ++ LINE_SEP ++ text ++ LINE_SEP.

Definition deLength (package : str) : res (option str) :=
  match find LINE_SEP package with
  | None => Ok None
  | Some pos =>
      text_len_string ← substr package 0 (Z.of_nat pos);
      text_len ← stoi text_len_string;
      text ← substr package (pos + LINE_SEP_LEN) text_len;
      mret (Some text)
  end.

(** [ParseOnePackage(inbuffer, text)]: the package taken off the buffer, if one
    is complete, and the buffer left. *)
Definition ParseOnePackage (inbuffer : str) : res (option str * str) :=
  match find LINE_SEP inbuffer with
  | None => Ok (None, inbuffer)
  | Some pos =>
      text_len_string ← substr inbuffer 0 (Z.of_nat pos);
      text_len ← stoi text_len_string;
      let total := to_int32 ((Z.of_nat (length text_len_string) + 2 * Z.of_nat LINE_SEP_LEN
                              + text_len) mod 2 ^ 64) in
      if Z.of_nat (length inbuffer) <? total mod 2 ^ 64 then Ok (None, inbuffer)
      else
        text ← substr inbuffer 0 total;
        mret (Some text, drop (Z.to_nat (total mod 2 ^ 64)) inbuffer)
  end.

(** ** Requests and replies *)
Record Requse := mkReq { _x : Z; _y : Z; _op : ascii }.
Record Repose := mkRep { _exitcode : Z; _result : Z }.
Definition OK_code : Z := 0.
Definition DIV_ZERO : Z := 1.
Definition MOD_ZERO : Z := 2.
Definition OP_ERROR : Z := 3.

(** An [int] result; overflow is undefined. *)
Definition int_result (v : Z) : res Z := if in_int v then Ok v else Err SignedOverflow.

(** [my_string(req, rep)] on a fresh [Repose]. *)
Definition my_string (req : Requse) : res Repose :=
  if decide (_op req = "+"%char) then v ← int_result (_x req + _y req); mret (mkRep 0 v)
  else if decide (_op req = "-"%char) then v ← int_result (_x req - _y req); mret (mkRep 0 v)
  else if decide (_op req = "*"%char) then v ← int_result (_x req * _y req); mret (mkRep 0 v)
  else if decide (_op req = "/"%char) then
    if _y req =? 0 then mret (mkRep DIV_ZERO 0)
    else v ← int_result (_x req + _y req); mret (mkRep 0 v)
  else if decide (_op req = "%"%char) then
    if _y req =? 0 then mret (mkRep MOD_ZERO 0)
    else v ← int_result (_x req + _y req); mret (mkRep 0 v)
  else mret (mkRep 0 0).

Definition req_ok (r : Requse) : Prop := in_int (_x r) = true ∧ in_int (_y r) = true.
Definition rep_ok (r : Repose) : Prop := in_int (_exitcode r) = true ∧ in_int (_result r) = true.

(** What the server needs of a codec. *)
Class Codec := {
  req_serialize : Requse → str;
  req_deserialize : str → res (option Requse);
  rep_serialize : Repose → str;
  rep_deserialize : str → res (option Repose);
  req_round_trip : ∀ r, req_ok r → req_deserialize (req_serialize r) = Ok (Some r);
  rep_round_trip : ∀ r, rep_ok r → rep_deserialize (rep_serialize r) = Ok (Some r);
  req_length : ∀ r, req_ok r → Z.of_nat (length (req_serialize r)) < 2 ^ 30;
  rep_length : ∀ r, rep_ok r → Z.of_nat (length (rep_serialize r)) < 2 ^ 30;
  req_terminates : ∀ s, req_deserialize s ≠ Err OutOfFuel;
}.

(** *** The text codec *)
Definition text_req_serialize (r : Requse) : str :=
  to_string (_x r) ++ SEP ++ [_op r] ++ SEP ++ to_string (_y r).

Definition text_req_deserialize (inp : str) : res (option Requse) :=
  match find SEP inp, rfind_char " "%char inp with
  | Some left_, Some right_ =>
      if decide (left_ = right_) then Ok None
      else if negb (Z.of_nat right_ - Z.of_nat (left_ + SEP_LEN) =? 1) then Ok None
      else
        x_string ← substr inp 0 (Z.of_nat left_);
        y_string ← substr_from inp (right_ + SEP_LEN);
        if bool_decide (x_string = []) || bool_decide (y_string = []) then Ok None
        else
          x ← stoi x_string;
          y ← stoi y_string;
          match inp !! (left_ + SEP_LEN)%nat with
          | Some op => mret (Some (mkReq x y op))
          | None => Err OutOfBounds
          end
  | _, _ => Ok None
  end.

Definition text_rep_serialize (r : Repose) : str :=
  to_string (_exitcode r) ++ SEP ++ to_string (_result r).

Definition text_rep_deserialize (inp : str) : res (option Repose) :=
  match find SEP inp with
  | None => Ok None
  | Some min =>
      exitcode_string ← substr inp 0 (Z.of_nat min);
      result_string ← substr_from inp (min + SEP_LEN);
      exitcode ← stoi exitcode_string;
      result ← stoi result_string;
      mret (Some (mkRep exitcode result))
  end.

(** ** The server *)
Section Server.
Context `{Codec}.

(** The loop of [calculate(conn)] over [conn->inbuffer] and [conn->outbuffer]: whether
    it ended (or the function returned from its middle), and the two buffers. *)
Fixpoint calculate_loop (fuel : nat) (inbuffer outbuffer : str) : res (bool * (str * str)) :=
  match fuel with
  | O => Err OutOfFuel
  | S fuel =>
      p ← ParseOnePackage inbuffer;
      match fst p with
      | None => mret (true, (snd p, outbuffer))
      | Some OnePackage =>
          d ← deLength OnePackage;
          match d with
          | None => mret (false, (snd p, outbuffer))
          | Some reqStr =>
              r ← req_deserialize reqStr;
              match r with
              | None => mret (false, (snd p, outbuffer))
              | Some req =>
                  resp ← my_string req;
                  calculate_loop fuel (snd p) (outbuffer ++ enLength (rep_serialize resp))
              end
          end
      end
  end.

(** Each pass takes a package with a line separator off the buffer. *)
Definition serve (inbuffer outbuffer : str) : res (bool * (str * str)) :=
  calculate_loop (S (length inbuffer)) inbuffer outbuffer.

(** The bytes arrive in chunks; each is appended to [inbuffer] and served. *)
Fixpoint serve_chunks (chunks : list str) (inbuffer outbuffer : str) : res (str * str) :=
  match chunks with
  | [] => mret (inbuffer, outbuffer)
  | c :: chunks => io ← serve (inbuffer ++ c) outbuffer; serve_chunks chunks io.2.1 io.2.2
  end.

End Server.

(** ** Frames *)
Implicit Types (t p : str).

Definition fits t : Prop := Z.of_nat (length t) < 2 ^ 30.

Lemma digits_length fuel n : (length (digits fuel n) ≤ fuel)%nat.
Proof.
  revert n. induction fuel as [|fuel IH]; intros n; [done|]. cbn [digits].
  destruct (n <? 10); [simpl; lia|]. rewrite length_app. simpl. specialize (IH (n / 10)). lia.
Qed.
Lemma to_string_length n : (length (to_string n) ≤ 21)%nat.
Proof.
  unfold to_string. pose proof (digits_length 20 n). pose proof (digits_length 20 (- n)).
  destruct (n <? 0); cbn [length]; lia.
Qed.

(** The header of a frame holds no carriage return and reads as the length. *)
Lemma header_spec t :
  fits t → Forall (λ x, x ≠ "013"%char) (to_string (Z.of_nat (length t))) ∧
  stoi (to_string (Z.of_nat (length t))) = Ok (Z.of_nat (length t)).
Proof.
  unfold fits. intros Ht. split.
  - destruct (to_string_numeric (Z.of_nat (length t))) as [H1 _]; [lia|].
    eapply Forall_impl; [exact H1|]. intros c Hc. by destruct (numeric_not _ Hc) as (_ & ? & _).
  - apply stoi_to_string. unfold in_int. lia.
Qed.

Lemma find_header t s :
  fits t → find LINE_SEP (to_string (Z.of_nat (length t)) ++ LINE_SEP ++ s)
           = Some (length (to_string (Z.of_nat (length t)))).
Proof. intros Ht. apply (find_after "013"%char ["010"%char]). by apply header_spec. Qed.

Lemma substr_prefix s1 s2 : substr (s1 ++ s2) 0 (Z.of_nat (length s1)) = Ok s1.
Proof.
  unfold substr. cbn [Nat.leb]. rewrite drop_0.
  destruct (Z.ltb_spec (Z.of_nat (length s1)) 0); [lia|]. by rewrite Nat2Z.id, take_app_length.
Qed.

Lemma enLength_app t s :
  enLength t ++ s = to_string (Z.of_nat (length t)) ++ LINE_SEP ++ t ++ LINE_SEP ++ s.
Proof. unfold enLength. by rewrite <- !app_assoc. Qed.
Lemma enLength_length t :
  length (enLength t) = (length (to_string (Z.of_nat (length t))) + 4 + length t)%nat.
Proof. unfold enLength. rewrite !length_app. simpl. lia. Qed.

Lemma total_spec t :
  fits t →
  to_int32 ((Z.of_nat (length (to_string (Z.of_nat (length t)))) + 2 * Z.of_nat LINE_SEP_LEN
             + Z.of_nat (length t)) mod 2 ^ 64) = Z.of_nat (length (enLength t)) ∧
  Z.of_nat (length (enLength t)) mod 2 ^ 64 = Z.of_nat (length (enLength t)).
Proof.
  unfold fits. intros Ht. rewrite enLength_length. pose proof (to_string_length (Z.of_nat (length t))).
  unfold to_int32, LINE_SEP_LEN. rewrite !Z.mod_small by (rewrite ?Z.mod_small by lia; lia). lia.
Qed.

(** A complete frame at the front is taken off, whatever follows it. *)
Lemma parse_frame t s :
  fits t → ParseOnePackage (enLength t ++ s) = Ok (Some (enLength t), s).
Proof.
  intros Ht. unfold ParseOnePackage. rewrite enLength_app, find_header by done.
  rewrite substr_prefix. cbn [mbind res_bind]. destruct (header_spec t Ht) as [_ Hs]. rewrite Hs.
  cbn [mbind res_bind]. cbv zeta. destruct (total_spec t Ht) as [Htot Hmod]. rewrite Htot, Hmod.
  rewrite <- enLength_app, length_app. destruct (Z.ltb_spec (Z.of_nat (length (enLength t) + length s)) (Z.of_nat (length (enLength t)))); [lia|].
  rewrite substr_prefix. cbn [mbind res_bind]. by rewrite Nat2Z.id, drop_app_length.
Qed.

Lemma deLength_enLength t : fits t → deLength (enLength t) = Ok (Some t).
Proof.
  intros Ht. unfold deLength. replace (enLength t) with (enLength t ++ []) by apply app_nil_r.
  rewrite enLength_app, find_header by done. rewrite substr_prefix. cbn [mbind res_bind].
  destruct (header_spec t Ht) as [_ Hs]. rewrite Hs. cbn [mbind res_bind].
  unfold substr, LINE_SEP_LEN. rewrite (proj2 (Nat.leb_le _ _)) by (rewrite !length_app; simpl; lia).
  destruct (Z.ltb_spec (Z.of_nat (length t)) 0); [lia|].
  rewrite (drop_app_add' _ _ _ 2) by done. simpl. by rewrite Nat2Z.id, drop_0, take_app_length.
Qed.

(** An incomplete frame is left in the buffer. *)
Lemma parse_partial t p :
  fits t → p `prefix_of` enLength t → (length p < length (enLength t))%nat →
  ParseOnePackage p = Ok (None, p).
Proof.
  intros Ht Hp Hl. unfold ParseOnePackage. destruct (header_spec t Ht) as [Hcr Hs].
  set (hd := to_string (Z.of_nat (length t))) in *.
  destruct (decide (length p < length hd + 2)%nat) as [Hsh|Hlo].
  - assert (find LINE_SEP p = None) as ->; [|done].
    assert (p `prefix_of` hd ++ ["013"%char]) as [q Hq].
    { unfold enLength in Hp. fold hd in Hp.
      replace (hd ++ LINE_SEP ++ t ++ LINE_SEP) with ((hd ++ ["013"%char]) ++ "010"%char :: t ++ LINE_SEP) in Hp
        by (by rewrite <- app_assoc).
      destruct Hp as [q Hq]. exists (take (length hd + 1 - length p) q).
      apply (f_equal (take (length hd + 1))) in Hq.
      rewrite take_app_length' in Hq by (rewrite length_app; simpl; lia).
      rewrite take_app_ge in Hq by lia. exact Hq. }
    destruct q as [|c q _] using rev_ind.
    + rewrite app_nil_r in Hq. subst p. clear -Hcr. induction Hcr as [|x l Hx Hcr IH]; [done|].
      cbn [app find starts_with LINE_SEP]. rewrite bool_decide_eq_false_2 by congruence. simpl. by rewrite IH.
    + apply find_absent. rewrite app_assoc in Hq. apply app_inj_tail in Hq as [Hq _].
      rewrite Hq in Hcr. by apply Forall_app in Hcr as [? _].
  - assert (∃ s, p = hd ++ LINE_SEP ++ s) as [s Hps].
    { destruct Hp as [q Hq]. unfold enLength in Hq. fold hd in Hq.
      exists (drop (length hd + 2) p). apply (f_equal (take (length hd + 2))) in Hq.
      rewrite app_assoc, take_app_length' in Hq by (rewrite length_app; simpl; lia).
      rewrite take_app_le in Hq by lia. by rewrite app_assoc, Hq, take_drop. }
    rewrite Hps at 1. unfold hd at 1. rewrite find_header by done. fold hd.
    rewrite Hps at 1. rewrite substr_prefix. cbn [mbind res_bind]. rewrite Hs. cbn [mbind res_bind].
    cbv zeta. destruct (total_spec t Ht) as [Htot Hmod]. fold hd in Htot. rewrite Htot, Hmod.
    by rewrite (proj2 (Z.ltb_lt _ _)) by lia.
Qed.

(** ** The text codec implements the interface *)
Lemma no_space n : in_int n = true → Forall (λ x, x ≠ " "%char) (to_string n).
Proof.
  intros Hn. destruct (to_string_numeric n) as [H1 _]; [unfold in_int in Hn; lia|].
  eapply Forall_impl; [exact H1|]. intros c Hc. by destruct (numeric_not _ Hc).
Qed.
Lemma to_string_nonempty n : in_int n = true → to_string n ≠ [].
Proof. intros Hn. apply to_string_numeric. unfold in_int in Hn. lia. Qed.

Lemma find_sep n s : in_int n = true → find SEP (to_string n ++ SEP ++ s) = Some (length (to_string n)).
Proof. intros Hn. apply (find_after " "%char []). by apply no_space. Qed.

Lemma substr_from_after s1 s2 n : n = length s1 → substr_from (s1 ++ s2) n = Ok s2.
Proof.
  intros ->. unfold substr_from. rewrite (proj2 (Nat.leb_le _ _)) by (rewrite length_app; lia).
  by rewrite drop_app_length.
Qed.

Lemma text_req_round_trip r : req_ok r → text_req_deserialize (text_req_serialize r) = Ok (Some r).
Proof.
  destruct r as [x y op]. intros [Hx Hy]. simpl in Hx, Hy. unfold text_req_deserialize, text_req_serialize.
  cbn [_x _y _op]. rewrite find_sep by done.
  set (sx := to_string x). set (sy := to_string y).
  assert (Hsplit : sx ++ SEP ++ [op] ++ SEP ++ sy = (sx ++ SEP ++ [op]) ++ " "%char :: sy)
    by (by rewrite <- !app_assoc).
  rewrite Hsplit at 1. rewrite rfind_char_after by (by apply no_space).
  rewrite !length_app. cbn [length SEP]. rewrite decide_False by lia.
  rewrite (proj2 (Z.eqb_eq _ 1)) by (unfold SEP_LEN; lia). cbn [negb].
  rewrite substr_prefix. cbn [mbind res_bind].
  replace (sx ++ SEP ++ [op] ++ SEP ++ sy) with ((sx ++ SEP ++ [op] ++ SEP) ++ sy) at 1
    by (by rewrite <- !app_assoc).
  rewrite substr_from_after by (rewrite !length_app; simpl; unfold SEP_LEN; lia). cbn [mbind res_bind].
  rewrite !bool_decide_eq_false_2 by (by apply to_string_nonempty). cbn [orb].
  assert (stoi sx = Ok x) as -> by (by apply stoi_to_string). cbn [mbind res_bind].
  assert (stoi sy = Ok y) as -> by (by apply stoi_to_string). cbn [mbind res_bind]. rewrite lookup_app_r by (unfold SEP_LEN; lia).
  by replace (length sx + SEP_LEN - length sx)%nat with 1%nat by (unfold SEP_LEN; lia).
Qed.

Lemma text_rep_round_trip r : rep_ok r → text_rep_deserialize (text_rep_serialize r) = Ok (Some r).
Proof.
  destruct r as [e v]. intros [He Hv]. simpl in He, Hv. unfold text_rep_deserialize, text_rep_serialize.
  cbn [_exitcode _result]. rewrite find_sep by done. rewrite substr_prefix. cbn [mbind res_bind].
  rewrite app_assoc, substr_from_after by (rewrite length_app; simpl; unfold SEP_LEN; lia).
  cbn [mbind res_bind]. rewrite stoi_to_string by done. cbn [mbind res_bind]. by rewrite stoi_to_string.
Qed.

(** Each step of a parser ends with a value or a library exception. *)
Lemma substr_ends s pos n : substr s pos n ≠ Err OutOfFuel.
Proof. unfold substr. by destruct (_ <=? _)%nat. Qed.
Lemma substr_from_ends s pos : substr_from s pos ≠ Err OutOfFuel.
Proof. unfold substr_from. by destruct (_ <=? _)%nat. Qed.
Lemma stoi_ends s : stoi s ≠ Err OutOfFuel.
Proof.
  unfold stoi. cbv zeta.
  match goal with |- match ?v with Some _ => _ | None => _ end ≠ _ => destruct v as [z|] end; [|done].
  by destruct (in_int z).
Qed.
Lemma res_bind_ends {A B} (m : res A) (f : A → res B) :
  m ≠ Err OutOfFuel → (∀ a, f a ≠ Err OutOfFuel) → m ≫= f ≠ Err OutOfFuel.
Proof. unfold mbind, res_bind. destruct m; [auto|]. intros Hm _ [= ->]. done. Qed.

Ltac ends :=
  repeat first
    [ apply res_bind_ends; [|intros ?]
    | apply substr_ends | apply substr_from_ends | apply stoi_ends
    | discriminate
    | match goal with |- context [match ?x with _ => _ end] => destruct x end ].

Lemma text_req_terminates s : text_req_deserialize s ≠ Err OutOfFuel.
Proof. unfold text_req_deserialize. ends. Qed.
Lemma ParseOnePackage_ends s : ParseOnePackage s ≠ Err OutOfFuel.
Proof. unfold ParseOnePackage. cbv zeta. ends. Qed.
Lemma deLength_ends s : deLength s ≠ Err OutOfFuel.
Proof. unfold deLength. ends. Qed.
Lemma my_string_ends r : my_string r ≠ Err OutOfFuel.
Proof. unfold my_string, int_result. ends. Qed.

#[refine] Instance text_codec : Codec := {|
  req_serialize := text_req_serialize;
  req_deserialize := text_req_deserialize;
  rep_serialize := text_rep_serialize;
  rep_deserialize := text_rep_deserialize;
  req_round_trip := text_req_round_trip;
  rep_round_trip := text_rep_round_trip;
|}.
Proof.
  - intros r _. unfold text_req_serialize. rewrite !length_app.
    pose proof (to_string_length (_x r)). pose proof (to_string_length (_y r)). simpl. lia.
  - intros r _. unfold text_rep_serialize. rewrite !length_app.
    pose proof (to_string_length (_exitcode r)). pose proof (to_string_length (_result r)). simpl. lia.
  - exact text_req_terminates.
Defined.

(** ** The server loop *)
Lemma find_some_nonempty pat s pos : find pat s = Some pos → pat ≠ [] → s ≠ [].
Proof. intros Hf Hp ->. by destruct pat. Qed.

(** A package with a separator in it shortens the buffer. *)
Lemma parse_shortens inb pkg rest :
  ParseOnePackage inb = Ok (Some pkg, rest) → deLength pkg ≠ Ok None → (length rest < length inb)%nat.
Proof.
  unfold ParseOnePackage. destruct (find LINE_SEP inb) as [pos|]; [|done].
  destruct (substr inb 0 (Z.of_nat pos)) as [hd|]; cbn [mbind res_bind]; [|done].
  destruct (stoi hd) as [n|]; cbn [mbind res_bind]; [|done]. cbv zeta.
  set (total := to_int32 _). destruct (Z.ltb_spec (Z.of_nat (length inb)) (total mod 2 ^ 64)) as [|Hle]; [done|].
  unfold substr. cbn [Nat.leb mbind res_bind]. rewrite drop_0. intros [= <- <-] Hd. rewrite length_drop.
  assert (- 2 ^ 31 ≤ total < 2 ^ 31).
  { unfold total, to_int32. pose proof (Z.mod_pos_bound ((Z.of_nat (length hd) + 2 * Z.of_nat LINE_SEP_LEN + n) mod 2 ^ 64 + 2 ^ 31) (2 ^ 32)). lia. }
  destruct (Z.ltb_spec total 0) as [Hneg|Hpos].
  - assert (total mod 2 ^ 64 = total + 2 ^ 64) as Hm by (symmetry; apply Z.mod_unique with (-1); lia).
    rewrite Hm in *. lia.
  - rewrite Z.mod_small in * by lia. destruct (decide (total = 0)) as [E|]; [|lia].
    exfalso. apply Hd. by rewrite E.
Qed.
(** A length that is no number: std::invalid_argument is thrown, and nothing in the server catches it. *)
Example malformed_length_throws : ParseOnePackage (lit "x" ++ LINE_SEP) = Err StdException.
Proof. vm_compute. reflexivity. Qed.

Section ServerProofs.
Context `{CD : Codec}.

Lemma calculate_ends fuel inb out :
  (length inb < fuel)%nat → calculate_loop fuel inb out ≠ Err OutOfFuel.
Proof.
  revert inb out. induction fuel as [|fuel IH]; intros inb out Hf; [lia|]. cbn [calculate_loop].
  destruct (ParseOnePackage inb) as [[[pkg|] rest]|e] eqn:Ep; cbn [mbind res_bind fst snd];
    [|done|by intros [= ->]; apply (ParseOnePackage_ends inb)].
  destruct (deLength pkg) as [[reqStr|]|e] eqn:Ed; cbn [mbind res_bind];
    [|done|by intros [= ->]; apply (deLength_ends pkg)].
  destruct (req_deserialize reqStr) as [[req|]|e] eqn:Er; cbn [mbind res_bind];
    [|done|by intros [= ->]; apply (req_terminates reqStr)].
  destruct (my_string req) as [rep|e] eqn:Em; cbn [mbind res_bind];
    [|by intros [= ->]; apply (my_string_ends req)].
  apply IH. assert (length rest < length inb)%nat; [|lia].
  eapply parse_shortens; [exact Ep|]. by rewrite Ed.
Qed.

(** ** Whole requests *)
Definition request_frame (r : Requse) : str := enLength (req_serialize r).
Definition reply_frame (r : Repose) : str := enLength (rep_serialize r).

(** The part of a stream of frames that has arrived: some whole frames, and a
    proper part of the next one. *)
Lemma split_stream (rs : list Requse) s later :
  s ++ later = concat (request_frame <$> rs) →
  ∃ r1 r2 p, rs = r1 ++ r2 ∧ s = concat (request_frame <$> r1) ++ p ∧
    p ++ later = concat (request_frame <$> r2) ∧
    match r2 with [] => p = [] | r :: _ => p `prefix_of` request_frame r ∧ (length p < length (request_frame r))%nat end.
Proof.
  revert s. induction rs as [|r rs IH]; intros s Hs; rewrite ?fmap_cons in Hs; cbn [concat] in Hs.
  { apply app_nil in Hs as [-> ->]. by exists [], [], []. }
  destruct (decide (length s < length (request_frame r))%nat) as [Hlt|Hge].
  - exists [], (r :: rs), s. rewrite fmap_cons. cbn [concat app]. split; [done|]. split; [done|].
    split; [done|]. split; [|done]. exists (drop (length s) (request_frame r)).
    apply (f_equal (take (length s))) in Hs. rewrite take_app_length, take_app_le in Hs by lia.
    rewrite Hs at 1. by rewrite take_drop.
  - assert (s = request_frame r ++ drop (length (request_frame r)) s) as Hsplit.
    { apply (f_equal (take (length (request_frame r)))) in Hs.
      rewrite take_app_length, take_app_le in Hs by lia. rewrite <- Hs at 1. by rewrite take_drop. }
    destruct (IH (drop (length (request_frame r)) s)) as (r1 & r2 & p & -> & Hd & Hp & Hr2).
    { rewrite Hsplit, <- app_assoc in Hs. by apply app_inv_head in Hs. }
    exists (r :: r1), r2, p. split; [done|]. split; [|done]. rewrite fmap_cons. cbn [concat].
    by rewrite <- app_assoc, <- Hd.
Qed.

(** Serving whole frames followed by a part of one. *)
Lemma calculate_frames fuel rs reps p out :
  Forall req_ok rs → Forall2 (λ r rep, my_string r = Ok rep) rs reps →
  ParseOnePackage p = Ok (None, p) → (length rs < fuel)%nat →
  calculate_loop fuel (concat (request_frame <$> rs) ++ p) out
    = Ok (true, (p, out ++ concat (reply_frame <$> reps))).
Proof.
  revert rs reps out. induction fuel as [|fuel IH]; intros rs reps out Hok Hr Hp Hf; [lia|].
  destruct Hr as [|r rep rs reps Hmy Hr].
  { cbn [fmap list_fmap concat app calculate_loop]. rewrite Hp. cbn. by rewrite app_nil_r. }
  apply Forall_cons in Hok as [Hr0 Hok]. rewrite !fmap_cons. cbn [concat calculate_loop].
  assert (Hfit : fits (req_serialize r)) by (by apply req_length).
  rewrite <- app_assoc. unfold request_frame at 1. rewrite parse_frame by done. cbn [mbind res_bind fst snd].
  rewrite deLength_enLength by done. cbn [mbind res_bind]. rewrite req_round_trip by done.
  cbn [mbind res_bind]. rewrite Hmy. cbn [mbind res_bind]. simpl in Hf.
  rewrite (IH rs reps) by (done || lia). by rewrite <- app_assoc.
Qed.

Lemma frames_length rs : (length rs ≤ length (concat (request_frame <$> rs)))%nat.
Proof.
  induction rs as [|r rs IH]; [done|]. rewrite fmap_cons. cbn [concat length]. rewrite length_app.
  unfold request_frame at 1. rewrite enLength_length. lia.
Qed.

Lemma serve_chunks_stream chunks inb rs reps out :
  Forall req_ok rs → Forall2 (λ r rep, my_string r = Ok rep) rs reps →
  inb ++ concat chunks = concat (request_frame <$> rs) →
  match rs with [] => inb = [] | r :: _ => inb `prefix_of` request_frame r ∧ (length inb < length (request_frame r))%nat end →
  serve_chunks chunks inb out = Ok ([], out ++ concat (reply_frame <$> reps)).
Proof.
  revert inb rs reps out. induction chunks as [|c chunks IH]; intros inb rs reps out Hok Hr Hs Hpart.
  - cbn [concat] in Hs. rewrite app_nil_r in Hs. destruct rs as [|r rs].
    + inversion Hr. subst. cbn. by rewrite app_nil_r.
    + exfalso. rewrite fmap_cons in Hs. cbn [concat] in Hs. apply (f_equal length) in Hs.
      rewrite length_app in Hs. lia.
  - cbn [concat] in Hs. rewrite app_assoc in Hs.
    destruct (split_stream rs (inb ++ c) (concat chunks) Hs) as (r1 & r2 & p & -> & Hin & Hp & Hr2).
    apply Forall_app in Hok as [Hok1 Hok2].
    apply Forall2_app_inv_l in Hr as (reps1 & reps2 & Hr1 & Hr2' & ->).
    assert (Hpp : ParseOnePackage p = Ok (None, p)).
    { destruct r2 as [|r r2]; [by subst p|]. destruct Hr2. apply Forall_cons in Hok2 as [? _].
      eapply parse_partial; [|done|done]. by apply req_length. }
    cbn [serve_chunks]. unfold serve. rewrite Hin.
    rewrite (calculate_frames _ r1 reps1 p) by
      (done || (rewrite length_app; pose proof (frames_length r1); lia)).
    cbn [mbind res_bind fst snd]. rewrite (IH p r2 reps2) by done.
    by rewrite fmap_app, concat_app, app_assoc.
Qed.

(** The calculator answers a stream of requests in order, however the
    network cuts the stream: if the bytes that arrive, in chunks of any sizes,
    are the frames of the requests [rs], then at the end the input buffer is
    empty and the output is the frames of the answers, one for each request. *)
Theorem serve_any_chunking chunks rs reps :
  Forall req_ok rs → Forall2 (λ r rep, my_string r = Ok rep) rs reps →
  concat chunks = concat (request_frame <$> rs) →
  serve_chunks chunks [] [] = Ok ([], concat (reply_frame <$> reps)).
Proof.
  intros Hok Hr Hs. apply (serve_chunks_stream chunks [] rs reps []); [done..|].
  destruct rs; [done|]. split; [apply prefix_nil|]. unfold request_frame. rewrite enLength_length. simpl. lia.
Qed.

(** The server loop ends on every input, well formed or not: each pass
    takes at least one byte off the input buffer. *)
Theorem serve_terminates inb out : serve inb out ≠ Err OutOfFuel.
Proof. unfold serve. apply calculate_ends. lia. Qed.

End ServerProofs.

(** Framing round trip: [ParseOnePackage] takes exactly the frame of a text
    off the buffer, whatever bytes follow, and [deLength] gives the text back;
    on a proper part of the frame it takes nothing. *)
Theorem frame_round_trip t s :
  fits t →
  ParseOnePackage (enLength t ++ s) = Ok (Some (enLength t), s) ∧
  deLength (enLength t) = Ok (Some t) ∧
  ∀ p, p `prefix_of` enLength t → p ≠ enLength t → ParseOnePackage p = Ok (None, p).
Proof.
  intros Ht. split; [by apply parse_frame|]. split; [by apply deLength_enLength|].
  intros p Hp Hne. apply (parse_partial t); [done|done|].
  destruct Hp as [q Hq]. rewrite Hq, length_app. destruct q; [|simpl; lia].
  by rewrite app_nil_r in Hq.
Qed.

(** The text codec round trips: every request and every reply with [int]
    members is read back as it was written, for every operator character, the
    separator included. *)
Theorem text_codec_round_trip req rep :
  req_ok req → rep_ok rep →
  text_req_deserialize (text_req_serialize req) = Ok (Some req) ∧
  text_rep_deserialize (text_rep_serialize rep) = Ok (Some rep).
Proof. intros. split; [by apply text_req_round_trip|by apply text_rep_round_trip]. Qed.

(** Division and remainder by a number other than 0 answer the sum, with
    exit code 0; an operator that is none of the five answers 0 with exit code 0,
    never [OP_ERROR]. *)
Theorem my_string_answers x y op :
  in_int (x + y) = true →
  (y ≠ 0 → op = "/"%char ∨ op = "%"%char → my_string (mkReq x y op) = Ok (mkRep 0 (x + y))) ∧
  (op ∉ lit "+-*/%" → my_string (mkReq x y op) = Ok (mkRep 0 0)).
Proof.
  intros Hs. unfold my_string, int_result. cbn [_x _y _op]. rewrite Hs. split.
  - intros Hy%Z.eqb_neq [->| ->]; simpl; by rewrite Hy.
  - intros Hop. assert (op ≠ "+"%char ∧ op ≠ "-"%char ∧ op ≠ "*"%char ∧ op ≠ "/"%char ∧ op ≠ "%"%char)
      as (? & ? & ? & ? & ?).
    { split_and!; intros ->; apply Hop; cbn; rewrite !elem_of_cons; tauto. }
    by rewrite !decide_False.
Qed.

(** ** Witnesses *)
Lemma serve_any_chunking_witness :
  serve_chunks [take 4 (request_frame (mkReq 3 4 "+")); drop 4 (request_frame (mkReq 3 4 "+"))] [] []
    = Ok ([], reply_frame (mkRep 0 7)).
Proof.
  rewrite (serve_any_chunking _ [mkReq 3 4 "+"%char] [mkRep 0 7]).
  - reflexivity.
  - constructor; [split; reflexivity|constructor].
  - constructor; [reflexivity|constructor].
  - vm_compute. reflexivity.
Defined.

Lemma frame_round_trip_witness :
  ParseOnePackage (enLength (lit "1 + 2") ++ lit "9") = Ok (Some (enLength (lit "1 + 2")), lit "9").
Proof. apply (frame_round_trip (lit "1 + 2") (lit "9")). by vm_compute. Defined.

Lemma text_codec_round_trip_witness :
  text_req_deserialize (text_req_serialize (mkReq (-3) 4 " ")) = Ok (Some (mkReq (-3) 4 " ")).
Proof.
  apply (text_codec_round_trip (mkReq (-3) 4 " "%char) (mkRep 0 1)); split; reflexivity.
Defined.

Lemma my_string_answers_witness :
  my_string (mkReq 6 2 "/") = Ok (mkRep 0 8) ∧ my_string (mkReq 6 2 "^") = Ok (mkRep 0 0).
Proof.
  split.
  - apply (my_string_answers 6 2 "/"%char); [reflexivity|discriminate|by left].
  - apply (my_string_answers 6 2 "^"%char); [reflexivity|].
    cbn. rewrite !not_elem_of_cons. split_and!; try discriminate. apply not_elem_of_nil.
Defined.
