(* ===== verification/CalServer.v ===== *)
(** * The calculator servers: src/lesson_IO/Reactor/TcpServer.hpp and src/lesson10/cal

    The first is an edge-triggered event loop: the table of connections beside the
    kernel's interest list, the handlers of a ready descriptor, and the service of
    main.cc.  What the kernel will answer to [recv], [send] and [accept] is part of
    the state, and so is [errno], which the handlers read.  The second reads one
    connection in a blocking loop. *)

From S2P Require Import Prelude StdString CalProto.

Open Scope Z_scope.

Definition EINTR : Z := 4.
Definition EAGAIN : Z := 11.        (** [EWOULDBLOCK] is the same number *)
Definition EPOLLET : Z := 2 ^ 31.
Definition BUFFER_SIZE : nat := 1024.

(** ** Sockets

    Answers of the kernel still to come.  [RData []] is the end of the stream; when
    there is none left, the call would block. *)
Inductive recv_ans := RData (s : str) | RErr (e : Z).
(** [STook n]: there is room for [S n] bytes. *)
Inductive send_ans := STook (n : nat) | SErr (e : Z).
Inductive accept_ans := AConn (fd : Z) | AErr (e : Z).

Record socket := mkSocket {
  arriving : list recv_ans;
  room : list send_ans;
  got : str;             (** the bytes [recv] has delivered *)
  wire : str;            (** the bytes [send] has taken *)
}.
Definition new_socket : socket := mkSocket [] [] [] [].

(** ** The server *)
(** The callbacks of a connection: [Accepter] alone, or [Recver], [Sender] and [Excepter]. *)
Inductive callbacks := Listener | Client.
Record Connection := mkConn { inbuffer : str; outbuffer : str; registered : callbacks }.

Record TcpServer := mkSrv {
  _connections : gmap Z Connection;    (** the live connections: erased and deleted together *)
  interest : gmap Z Z;
  errno : Z;
  sockets : gmap Z socket;
  backlog : list accept_ans;
}.

Definition set_conns (x : gmap Z Connection) (s : TcpServer) : TcpServer :=
  mkSrv x (interest s) (errno s) (sockets s) (backlog s).
Definition set_interest (x : gmap Z Z) (s : TcpServer) : TcpServer :=
  mkSrv (_connections s) x (errno s) (sockets s) (backlog s).
Definition set_errno (x : Z) (s : TcpServer) : TcpServer :=
  mkSrv (_connections s) (interest s) x (sockets s) (backlog s).
Definition set_sockets (x : gmap Z socket) (s : TcpServer) : TcpServer :=
  mkSrv (_connections s) (interest s) (errno s) x (backlog s).
Definition set_backlog (x : list accept_ans) (s : TcpServer) : TcpServer :=
  mkSrv (_connections s) (interest s) (errno s) (sockets s) x.

(** [conn->...]: the pointer is that of the connection of [sock]. *)
Definition get_conn (sock : Z) : M TcpServer Connection := λ s,
  match _connections s !! sock with Some c => Ok (c, s) | None => Err DanglingPtr end.
Definition put_conn (sock : Z) (c : Connection) : M TcpServer () :=
  modify (λ s, set_conns (<[sock := c]> (_connections s)) s).
Definition set_in (x : str) (c : Connection) : Connection := mkConn x (outbuffer c) (registered c).
Definition set_out (x : str) (c : Connection) : Connection := mkConn (inbuffer c) x (registered c).

(** *** System calls *)
Definition socket_of (sock : Z) (s : TcpServer) : socket := default new_socket (sockets s !! sock).

(** [recv(sock, buffer, sizeof(buffer), 0)]: the bytes read, or [None] for a failure. *)
Definition sys_recv (sock : Z) : M TcpServer (option str) := λ s,
  let k := socket_of sock s in
  match arriving k with
  | [] => Ok (None, set_errno EAGAIN s)
  | RErr e :: a => Ok (None, set_errno e (set_sockets (<[sock := mkSocket a (room k) (got k) (wire k)]> (sockets s)) s))
  | RData d :: a =>
      let a := if (length d <=? BUFFER_SIZE)%nat then a else RData (drop BUFFER_SIZE d) :: a in
      let d := take BUFFER_SIZE d in
      Ok (Some d, set_sockets (<[sock := mkSocket a (room k) (got k ++ d) (wire k)]> (sockets s)) s)
  end.

(** [send(sock, data)]: nothing to send returns 0 and leaves [errno] alone. *)
Definition sys_send (sock : Z) (data : str) : M TcpServer Z := λ s,
  let k := socket_of sock s in
  if decide (data = []) then Ok (0, s)
  else
    match room k with
    | [] => Ok (-1, set_errno EAGAIN s)
    | SErr e :: r => Ok (-1, set_errno e (set_sockets (<[sock := mkSocket (arriving k) r (got k) (wire k)]> (sockets s)) s))
    | STook n :: r =>
        let d := take (S n) data in
        Ok (Z.of_nat (length d),
            set_sockets (<[sock := mkSocket (arriving k) r (got k) (wire k ++ d)]> (sockets s)) s)
    end.

Definition sys_accept : M TcpServer Z := λ s,
  match backlog s with
  | [] => Ok (-1, set_errno EAGAIN s)
  | AErr e :: b => Ok (-1, set_errno e (set_backlog b s))
  | AConn fd :: b => Ok (fd, set_backlog b s)
  end.

(** [Epoller] *)
Definition AddEvent (sock events : Z) : M TcpServer bool := λ s,
  Ok (bool_decide (interest s !! sock = None), set_interest (epoll_ctl EPOLL_CTL_ADD sock events (interest s)) s).
Definition Control (sock events : Z) (flag : epoll_op) : M TcpServer () :=
  match flag with
  | EPOLL_CTL_ADD => mret ()
  | _ => modify (λ s, set_interest (epoll_ctl flag sock events (interest s)) s)
  end.

(** *** Handlers *)
Definition EnableEeadWrite (sock : Z) (Read Write : bool) : M TcpServer () :=
  let events := Z.lor (Z.lor (if Read then EPOLLIN else 0) (if Write then EPOLLOUT else 0)) EPOLLET in
  Control sock events EPOLL_CTL_MOD.

Definition Excepter (sock : Z) : M TcpServer () :=
  Control sock 0 EPOLL_CTL_DEL;;
  modify (λ s, set_sockets (delete sock (sockets s)) (set_conns (delete sock (_connections s)) s)).

(** The body of the loop of [Sender] after [send] has returned [s]; [again] is the loop. *)
Definition after_send (again : M TcpServer ()) (sock : Z) (c : Connection) (s : Z) : M TcpServer () :=
  if 0 <? s then
    if decide (outbuffer c = []) then EnableEeadWrite sock true false
    else put_conn sock (set_out (drop (Z.to_nat s) (outbuffer c)) c);; again
  else
    e ← gets errno;
    if e =? EAGAIN then mret ()
    else if e =? EINTR then again
    else
      match registered c with
      | Client => Excepter sock
      | Listener => again
      end.
Fixpoint Sender (fuel : nat) (sock : Z) : M TcpServer () :=
  match fuel with
  | O => fail OutOfFuel
  | S fuel =>
      c ← get_conn sock;
      s ← sys_send sock (outbuffer c);
      after_send (Sender fuel sock) sock c s
  end.

Section Service.
Context `{Codec}.

(** [calculate(conn)] of main.cc: the packages of the input, then the sender. *)
Definition calculate (fuel : nat) (sock : Z) : M TcpServer () :=
  c ← get_conn sock;
  '(finished, (inb, out)) ← lift_res (serve (inbuffer c) (outbuffer c));
  put_conn sock (set_in inb (set_out out c));;
  if (finished : bool) then
    match registered c with Client => Sender fuel sock | Listener => mret () end;;
    c ← get_conn sock;
    EnableEeadWrite sock true (negb (bool_decide (outbuffer c = [])))
  else mret ().

(** The body of the loop of [Recver] after [recv] has returned [r]. *)
Definition after_recv (again service : M TcpServer ()) (sock : Z) (c : Connection) (r : option str) : M TcpServer () :=
  match r with
  | Some [] => match registered c with Client => Excepter sock | Listener => mret () end
  | Some d =>
      if (length d <? BUFFER_SIZE)%nat then    (** [buffer[s] = 0] *)
        put_conn sock (set_in (inbuffer c ++ c_str d) c);;
        service;;
        again
      else fail OutOfBounds
  | None =>
      e ← gets errno;
      if e =? EAGAIN then mret ()
      else if e =? EINTR then again
      else match registered c with Client => Excepter sock | Listener => again end
  end.
Fixpoint Recver (fuel : nat) (sock : Z) : M TcpServer () :=
  match fuel with
  | O => fail OutOfFuel
  | S fuel =>
      c ← get_conn sock;
      r ← sys_recv sock;
      after_recv (Recver fuel sock) (calculate fuel sock) sock c r
  end.

Definition AddConnection (sock events : Z) (cb : callbacks) : M TcpServer () :=
  ret ← AddEvent sock events;
  assert_M ret;;
  modify (λ s, set_conns (match _connections s !! sock with
                          | Some _ => _connections s
                          | None => <[sock := mkConn [] [] cb]> (_connections s)
                          end) s).

(** The body of the loop of [Accepter] after [accept] has returned [sock]. *)
Definition after_accept (again : M TcpServer ()) (sock : Z) : M TcpServer () :=
  err ← gets errno;
  if 0 <? sock then AddConnection sock (Z.lor EPOLLIN EPOLLET) Client;; again
  else if err =? EAGAIN then mret ()
  else if err =? EINTR then again
  else mret ().
Fixpoint Accepter (fuel : nat) : M TcpServer () :=
  match fuel with
  | O => fail OutOfFuel
  | S fuel => sock ← sys_accept; after_accept (Accepter fuel) sock
  end.

Definition IsConnectionExists (sock : Z) : M TcpServer bool :=
  gets (λ s, bool_decide (is_Some (_connections s !! sock))).
(** [_connections[sock]->_recver] and [_sender] *)
Definition recver (fuel : nat) (sock : Z) : M TcpServer () :=
  c ← get_conn sock;
  match registered c with Listener => Accepter fuel | Client => Recver fuel sock end.
Definition sender (fuel : nat) (sock : Z) : M TcpServer () :=
  c ← get_conn sock;
  match registered c with Listener => mret () | Client => Sender fuel sock end.

(** An error or a hang-up counts as readable and writable. *)
Definition widen (events : Z) : Z :=
  let events := if has_bit events EPOLLERR then Z.lor events (Z.lor EPOLLIN EPOLLOUT) else events in
  if has_bit events EPOLLHUP then Z.lor events (Z.lor EPOLLIN EPOLLOUT) else events.
(** One entry of [_evens]; the second test is of [EPOLLIN] too. *)
Definition one_event (fuel : nat) (sock events : Z) : M TcpServer () :=
  let events := widen events in
  ex ← IsConnectionExists sock;
  (if has_bit events EPOLLIN && ex then recver fuel sock else mret ());;
  ex ← IsConnectionExists sock;
  if has_bit events EPOLLIN && ex then sender fuel sock else mret ().
(** [Loop(timeout)], after [epoll_wait] has reported [evens]. *)
Fixpoint Loop (fuel : nat) (evens : list (Z * Z)) : M TcpServer () :=
  match evens with
  | [] => mret ()
  | (sock, events) :: evens => one_event fuel sock events;; Loop fuel evens
  end.

(** [Init]: [fd] is the listening socket. *)
Definition empty_server : TcpServer := mkSrv ∅ ∅ 0 ∅ [].
Definition Init (fd : Z) : M TcpServer () := AddConnection fd (Z.lor EPOLLIN EPOLLET) Listener.
End Service.

(** ** Runs with enough fuel *)
Definition runs (op : nat → M TcpServer ()) (s s' : TcpServer) : Prop :=
  ∃ n, ∀ fuel, (n ≤ fuel)%nat → op fuel s = Ok ((), s').

Lemma runs_S (op : nat → M TcpServer ()) (body : nat → M TcpServer ()) s s' :
  (∀ fuel, op (S fuel) s = body fuel s) → runs body s s' → runs op s s'.
Proof.
  intros E [n Hn]. exists (S n). intros fuel Hf. destruct fuel as [|fuel]; [lia|]. rewrite E. apply Hn. lia.
Qed.
Lemma runs_seq (op1 op2 : nat → M TcpServer ()) s s1 s' :
  runs op1 s s1 → runs op2 s1 s' → runs (λ f, op1 f;; op2 f) s s'.
Proof.
  intros [n1 H1] [n2 H2]. exists (n1 `max` n2)%nat. intros fuel Hf.
  rewrite (bind_ok _ _ _ () s1) by (apply H1; lia). apply H2. lia.
Qed.
Lemma runs_now (op : nat → M TcpServer ()) s s' : (∀ fuel, op fuel s = Ok ((), s')) → runs op s s'.
Proof. intros Hop. exists O. auto. Qed.
Lemma runs_eq (op op' : nat → M TcpServer ()) s1 s s' :
  (∀ fuel, op fuel s = op' fuel s1) → runs op' s1 s' → runs op s s'.
Proof. intros E [n Hn]. exists n. intros fuel Hf. rewrite E. by apply Hn. Qed.
Lemma runs_det op s s1 s2 : runs op s s1 → runs op s s2 → s1 = s2.
Proof.
  intros [n1 H1] [n2 H2]. specialize (H1 (n1 `max` n2)%nat ltac:(lia)). specialize (H2 (n1 `max` n2)%nat ltac:(lia)). congruence.
Qed.

(** ** One connection *)
Definition at_ (sock : Z) (s : TcpServer) (c : Connection) (k : socket) : Prop :=
  _connections s !! sock = Some c ∧ sockets s !! sock = Some k.
(** Each entry of the table is in the interest list. *)
Definition in_step (s : TcpServer) : Prop := dom (interest s) = dom (_connections s).
(** What an operation on one connection leaves alone. *)
Record touches (sock : Z) (s s' : TcpServer) : Prop := {
  to_conns : ∀ j, j ≠ sock → _connections s' !! j = _connections s !! j;
  to_sockets : ∀ j, j ≠ sock → sockets s' !! j = sockets s !! j;
  to_backlog : backlog s' = backlog s;
  to_errno : errno s' = EAGAIN;
  to_step : in_step s → in_step s';
}.
Lemma touches_trans sock s1 s2 s3 : touches sock s1 s2 → touches sock s2 s3 → touches sock s1 s3.
Proof.
  intros [A1 A2 A3 A4 A5] [B1 B2 B3 B4 B5]. split; [| | |done|auto].
  - intros j Hj. rewrite B1, A1; done.
  - intros j Hj. rewrite B2, A2; done.
  - congruence.
Qed.
Lemma touches_refl sock s : errno s = EAGAIN → touches sock s s.
Proof. by split. Qed.

(** The kernel has room for some bytes, or none at the moment. *)
Definition good_send (a : send_ans) : Prop := match a with STook _ => True | SErr e => e = EAGAIN end.

Lemma get_conn_at sock s c k {A} (f : Connection → M TcpServer A) :
  at_ sock s c k → (get_conn sock ≫= f) s = f c s.
Proof. intros [Hc _]. apply bind_ok. unfold get_conn. by rewrite Hc. Qed.
Lemma socket_at sock s c k : at_ sock s c k → socket_of sock s = k.
Proof. intros [_ Hk]. unfold socket_of. by rewrite Hk. Qed.

(** A change of one connection and its socket. *)
Definition upd (sock : Z) (c : Connection) (k : socket) (s : TcpServer) : TcpServer :=
  set_conns (<[sock := c]> (_connections s)) (set_sockets (<[sock := k]> (sockets s)) s).
Lemma upd_at sock c k s : at_ sock (upd sock c k s) c k.
Proof. split; cbn; apply lookup_insert_eq. Qed.
Lemma upd_touches sock c k s c0 :
  _connections s !! sock = Some c0 → errno s = EAGAIN → touches sock s (upd sock c k s).
Proof.
  intros Hc He. split; cbn; [intros; by rewrite lookup_insert_ne|intros; by rewrite lookup_insert_ne|done|done|].
  unfold in_step. cbn. intros ->. rewrite dom_insert_L. apply elem_of_dom_2 in Hc. set_solver.
Qed.
Lemma set_errno_id s : errno s = EAGAIN → set_errno EAGAIN s = s.
Proof. intros E. unfold set_errno. rewrite <- E. by destruct s. Qed.

Lemma take_drop_length {A} n (l : list A) : take n l ++ drop (length (take n l)) l = l.
Proof.
  rewrite length_take. destruct (decide (n ≤ length l)%nat).
  - rewrite Nat.min_l by lia. apply take_drop.
  - rewrite Nat.min_r, drop_all, app_nil_r by lia. apply take_ge. lia.
Qed.

Lemma Sender_S sock s c k s1 n s' :
  at_ sock s c k → sys_send sock (outbuffer c) s = Ok (n, s1) →
  runs (λ f, after_send (Sender f sock) sock c n) s1 s' → runs (λ f, Sender f sock) s s'.
Proof.
  intros Hat Hs Hr. apply (runs_S _ (λ f s, after_send (Sender f sock) sock c n s1)).
  - intros f. cbn [Sender]. rewrite (get_conn_at _ _ _ _ _ Hat). by erewrite bind_ok.
  - by apply (runs_eq _ (λ f, after_send (Sender f sock) sock c n) s1).
Qed.

Lemma after_send_stops sock c n s :
  n ≤ 0 → errno s = EAGAIN → runs (λ f, after_send (Sender f sock) sock c n) s s.
Proof.
  intros Hn He. apply runs_now. intros f. unfold after_send. rewrite (proj2 (Z.ltb_ge _ _)) by done.
  unfold gets, mbind, M_bind. by rewrite He.
Qed.

Lemma Sender_spec sock s c k :
  at_ sock s c k → registered c = Client → errno s = EAGAIN → Forall good_send (room k) →
  ∃ s' c' k', runs (λ f, Sender f sock) s s' ∧ touches sock s s' ∧ at_ sock s' c' k' ∧
    registered c' = Client ∧ inbuffer c' = inbuffer c ∧ got k' = got k ∧ arriving k' = arriving k ∧
    Forall good_send (room k') ∧ wire k' ++ outbuffer c' = wire k ++ outbuffer c.
Proof.
  remember (room k) as r eqn:Er. revert s c k Er. induction r as [|a r IH]; intros s c k Er Hat Hc He Hr.
  - exists s, c, k. split; [|rewrite <- Er; split_and!; [by apply touches_refl|done..]].
    assert (∃ n, sys_send sock (outbuffer c) s = Ok (n, s) ∧ n ≤ 0) as (n & Hs & Hn).
    { unfold sys_send. rewrite (socket_at _ _ _ _ Hat), <- Er.
      case_decide; [by exists 0|]. exists (-1). by rewrite (set_errno_id _ He). }
    eapply Sender_S; [done|exact Hs|]. by apply after_send_stops.
  - apply Forall_cons in Hr as [Ha Hr].
    destruct (decide (outbuffer c = [])) as [Ho|Ho].
    { exists s, c, k. split; [|rewrite <- Er; split_and!; [by apply touches_refl|done..|by constructor|done]].
      eapply (Sender_S _ _ _ _ s 0); [done|unfold sys_send; by rewrite decide_True|by apply after_send_stops]. }
    destruct a as [n|e]; cbn [good_send] in Ha.
    + set (d := take (S n) (outbuffer c)).
      set (k1 := mkSocket (arriving k) r (got k) (wire k ++ d)).
      set (c1 := set_out (drop (length d) (outbuffer c)) c).
      destruct (IH (upd sock c1 k1 s) c1 k1) as (s' & c' & k' & H1 & H2 & H3 & H4 & H5 & H6 & H7 & H8 & H9);
        [done|apply upd_at|done|done|done|].
      exists s', c', k'. split; [|split; [eapply touches_trans; [|done]; eapply upd_touches; [apply Hat|done]|]].
      2: { split; [done|]. split; [done|]. split; [done|]. split; [done|]. split; [done|]. split; [done|].
           rewrite H9. unfold k1, c1. cbn [wire set_out outbuffer]. unfold d. rewrite <- app_assoc. f_equal.
           by rewrite take_drop_length. }
      assert (Hd : (0 < length d)%nat) by (unfold d; rewrite length_take; destruct (outbuffer c); [done|cbn; lia]).
      eapply (Sender_S _ _ _ _ (set_sockets (<[sock := k1]> (sockets s)) s) (Z.of_nat (length d))); [done| |].
      { unfold sys_send. by rewrite decide_False, (socket_at _ _ _ _ Hat), <- Er. }
      eapply runs_eq; [|exact H1]. intros f. cbn beta. unfold after_send.
      rewrite (proj2 (Z.ltb_lt _ _)), decide_False, Nat2Z.id by (lia || done). done.
    + subst e. set (k1 := mkSocket (arriving k) r (got k) (wire k)). exists (upd sock c k1 s), c, k1.
      split; [|split; [eapply upd_touches; [apply Hat|done]|split; [apply upd_at|by split_and!]]].
      eapply (Sender_S _ _ _ _ (upd sock c k1 s) (-1)); [done| |by apply after_send_stops].
      unfold sys_send. rewrite decide_False, (socket_at _ _ _ _ Hat), <- Er by done. f_equal. f_equal.
      unfold upd, set_sockets, set_conns, set_errno. cbn. rewrite (insert_id (_connections s)) by apply Hat. by rewrite He.
Qed.

(** ** Serving *)
Section Serving.
Context `{CD : Codec}.
(** What each client sends over its connection, and the answers. *)
Context (plan : Z → list Requse) (answers : Z → list Repose).
Hypothesis plan_ok : ∀ fd, Forall req_ok (plan fd).
Hypothesis answers_ok : ∀ fd, Forall2 (λ r rep, my_string r = Ok rep) (plan fd) (answers fd).

Definition requests (rs : list Requse) : str := concat (request_frame <$> rs).
Definition replies (fd : Z) (n : nat) : str := concat (reply_frame <$> take n (answers fd)).
(** A proper part of the next request. *)
Definition incomplete (p : str) (rs : list Requse) : Prop :=
  match rs with [] => p = [] | r :: _ => p `prefix_of` request_frame r ∧ (length p < length (request_frame r))%nat end.

Definition bytes (a : list recv_ans) : str := concat ((λ r, match r with RData d => d | RErr _ => [] end) <$> a).
(** Data without NUL in parts smaller than the buffer, and perhaps the end. *)
Inductive arrivals : list recv_ans → Prop :=
  | arr_nil : arrivals []
  | arr_end : arrivals [RData []]
  | arr_data d a : d ≠ [] → (length d < BUFFER_SIZE)%nat → c_str d = d → arrivals a → arrivals (RData d :: a).

Record sock_ok (fd : Z) (k : socket) : Prop := {
  so_room : Forall good_send (room k);
  so_arr : arrivals (arriving k);
  so_stream : got k ++ bytes (arriving k) `prefix_of` requests (plan fd);
}.
(** The requests that are complete have been answered, in order. *)
Record conn_ok (fd : Z) (c : Connection) (k : socket) : Prop := {
  co_client : registered c = Client;
  co_sock : sock_ok fd k;
  co_served : ∃ r1 r2, plan fd = r1 ++ r2 ∧ got k = requests r1 ++ inbuffer c ∧ incomplete (inbuffer c) r2 ∧
    wire k ++ outbuffer c = replies fd (length r1);
}.

Lemma incomplete_waits p rs : Forall req_ok rs → incomplete p rs → ParseOnePackage p = Ok (None, p).
Proof.
  intros Hok Hp. destruct rs as [|r rs]; cbn in Hp; [by subst p|]. destruct Hp. apply Forall_cons in Hok as [? _].
  eapply parse_partial; [|done|done]. by apply req_length.
Qed.

Lemma requests_app r1 r2 : requests (r1 ++ r2) = requests r1 ++ requests r2.
Proof. unfold requests. by rewrite fmap_app, concat_app. Qed.

Lemma replies_add fd n m : replies fd (n + m) = replies fd n ++ concat (reply_frame <$> take m (drop n (answers fd))).
Proof. unfold replies. by rewrite <- take_take_drop, fmap_app, concat_app. Qed.

(** More bytes: the requests they complete are served. *)
Lemma serve_more fd r1 r2 inb out later :
  plan fd = r1 ++ r2 → inb ++ later = requests r2 →
  ∃ r1' r2' p, r2 = r1' ++ r2' ∧ inb = requests r1' ++ p ∧ incomplete p r2' ∧
    serve inb out = Ok (true, (p, out ++ concat (reply_frame <$> take (length r1') (drop (length r1) (answers fd))))).
Proof.
  intros Hp Hs. destruct (split_stream r2 inb later Hs) as (r1' & r2' & p & -> & Hin & _ & Hr2).
  exists r1', r2', p. split; [done|]. split; [exact Hin|]. split; [exact Hr2|].
  pose proof (plan_ok fd) as Hok. rewrite Hp in Hok. apply Forall_app in Hok as [_ [Hok1 Hok2]%Forall_app].
  pose proof (answers_ok fd) as Ha. rewrite Hp in Ha.
  apply Forall2_app_inv_l in Ha as (a1 & a23 & H1 & (a2 & a3 & H2 & _ & ->)%Forall2_app_inv_l & ->).
  rewrite (Forall2_length _ _ _ H1), drop_app_length, (Forall2_length _ _ _ H2), take_app_length.
  unfold serve. rewrite Hin. apply calculate_frames; [done|done|by eapply incomplete_waits|].
  rewrite length_app. pose proof (frames_length r1'). lia.
Qed.

Lemma calculate_spec fd s c k p out :
  at_ fd s c k → registered c = Client → errno s = EAGAIN → Forall good_send (room k) →
  serve (inbuffer c) (outbuffer c) = Ok (true, (p, out)) →
  ∃ s' c' k', runs (λ f, calculate f fd) s s' ∧ touches fd s s' ∧ at_ fd s' c' k' ∧
    registered c' = Client ∧ inbuffer c' = p ∧ got k' = got k ∧ arriving k' = arriving k ∧
    Forall good_send (room k') ∧ wire k' ++ outbuffer c' = wire k ++ out.
Proof.
  intros Hat Hc He Hr Hs. set (c1 := set_in p (set_out out c)).
  assert (Hat1 : at_ fd (set_conns (<[fd := c1]> (_connections s)) s) c1 k).
  { split; cbn; [apply lookup_insert_eq|apply Hat]. }
  destruct (Sender_spec fd _ c1 k Hat1) as (s2 & c2 & k2 & H1 & H2 & H3 & H4 & H5 & H6 & H7 & H8 & H9); [done..|].
  set (ev := Z.lor (Z.lor EPOLLIN (if negb (bool_decide (outbuffer c2 = [])) then EPOLLOUT else 0)) EPOLLET).
  set (s3 := set_interest (epoll_ctl EPOLL_CTL_MOD fd ev (interest s2)) s2).
  exists s3, c2, k2. split; [|split; [|split; [exact H3|by split_and!]]].
  - apply (runs_eq _ (λ f, Sender f fd;; c ← get_conn fd; EnableEeadWrite fd true (negb (bool_decide (outbuffer c = []))))
      (set_conns (<[fd := c1]> (_connections s)) s)).
    { intros f. unfold calculate. rewrite (get_conn_at _ _ _ _ _ Hat).
      erewrite bind_ok by (unfold lift_res; by rewrite Hs). cbn beta iota. by rewrite Hc. }
    eapply runs_seq; [exact H1|]. apply runs_now. intros _. by rewrite (get_conn_at _ _ _ _ _ H3).
  - apply (touches_trans _ _ s2).
    + destruct H2 as [A1 A2 A3 A4 A5]. split; [|exact A2|exact A3|exact A4|].
      * intros j Hj. rewrite A1 by done. cbn. by rewrite lookup_insert_ne.
      * intros Hi. apply A5. unfold in_step in *. cbn. rewrite Hi, dom_insert_L.
        destruct Hat as [Hx%elem_of_dom_2 _]. set_solver.
    + split; [done|done|done|apply (to_errno _ _ _ H2)|]. unfold in_step, s3. cbn. intros <-.
      destruct (interest s2 !! fd) eqn:Ei; [|done]. apply elem_of_dom_2 in Ei. rewrite dom_insert_L. set_solver.
Qed.

Lemma Recver_S sock s c k s1 r s' :
  at_ sock s c k → sys_recv sock s = Ok (r, s1) →
  runs (λ f, after_recv (Recver f sock) (calculate f sock) sock c r) s1 s' → runs (λ f, Recver f sock) s s'.
Proof.
  intros Hat Hs Hr. apply (runs_S _ (λ f s, after_recv (Recver f sock) (calculate f sock) sock c r s1)).
  - intros f. cbn [Recver]. rewrite (get_conn_at _ _ _ _ _ Hat). by erewrite bind_ok.
  - by apply (runs_eq _ (λ f, after_recv (Recver f sock) (calculate f sock) sock c r) s1).
Qed.

Definition gone (fd : Z) (s : TcpServer) : Prop := _connections s !! fd = None ∧ sockets s !! fd = None.

Lemma Excepter_spec fd s :
  errno s = EAGAIN → ∃ s', Excepter fd s = Ok ((), s') ∧ touches fd s s' ∧ gone fd s'.
Proof.
  intros He. eexists. split; [reflexivity|]. split; [|split; cbn; apply lookup_delete_eq].
  split; cbn; [intros; by rewrite lookup_delete_ne|intros; by rewrite lookup_delete_ne|done|done|].
  unfold in_step. cbn. intros Hi. rewrite dom_delete_L, <- Hi. destruct (interest s !! fd) eqn:Ei; [apply dom_delete_L|].
  apply not_elem_of_dom in Ei. set_solver.
Qed.

(** All that has arrived is read and served; at the end of the stream the connection goes. *)
Lemma Recver_spec fd s c k :
  at_ fd s c k → conn_ok fd c k → errno s = EAGAIN →
  ∃ s', runs (λ f, Recver f fd) s s' ∧ touches fd s s' ∧
    ((∃ c' k', at_ fd s' c' k' ∧ conn_ok fd c' k' ∧ arriving k' = []) ∨ gone fd s').
Proof.
  intros Hat Hok He. assert (Ha : arrivals (arriving k)) by apply Hok.
  remember (arriving k) as a eqn:Ea. revert s c k Ea Hat Hok He. induction Ha as [| |d a Hne Hlen Hnul Ha IH]; intros s c k Ea Hat Hok He.
  - exists s. split; [|split; [by apply touches_refl|left; by exists c, k]].
    eapply (Recver_S _ _ _ _ s None); [done| |].
    { unfold sys_recv. rewrite (socket_at _ _ _ _ Hat), <- Ea. by rewrite (set_errno_id _ He). }
    apply runs_now. intros f. unfold after_recv, gets, mbind, M_bind. by rewrite He.
  - set (k1 := mkSocket [] (room k) (got k ++ []) (wire k)).
    destruct (Excepter_spec fd (set_sockets (<[fd := k1]> (sockets s)) s) He) as (s' & H1 & H2 & H3).
    exists s'. split; [|split; [|by right]].
    + eapply (Recver_S _ _ _ _ _ (Some [])); [done| |].
      { unfold sys_recv. by rewrite (socket_at _ _ _ _ Hat), <- Ea. }
      apply runs_now. intros f. unfold after_recv. rewrite (co_client _ _ _ Hok). exact H1.
    + eapply touches_trans; [|exact H2]. split; [done|intros; cbn; by rewrite lookup_insert_ne|done|done|done].
  - destruct Hok as [Hc [Hroom _ Hstr] (r1 & r2 & Hplan & Hgot & Hinc & Hwire)].
    rewrite <- Ea in Hstr. cbn [bytes fmap list_fmap concat] in Hstr. fold (bytes a) in Hstr.
    destruct Hstr as [later Hstr].
    assert (Hin : (inbuffer c ++ d) ++ (bytes a ++ later) = requests r2).
    { apply (app_inv_head (requests r1)). rewrite <- requests_app, <- Hplan, Hstr, Hgot. by rewrite !app_assoc. }
    destruct (serve_more fd r1 r2 _ (outbuffer c) _ Hplan Hin) as (r1' & r2' & p & Er2 & Hp & Hinc' & Hserve).
    set (k1 := mkSocket a (room k) (got k ++ d) (wire k)).
    set (c1 := set_in (inbuffer c ++ c_str d) c).
    rewrite <- Hnul in Hserve at 1.
    destruct (calculate_spec fd (upd fd c1 k1 s) c1 k1 _ _ (upd_at _ _ _ _) Hc He Hroom Hserve)
      as (s2 & c2 & k2 & H1 & H2 & H3 & H4 & H5 & H6 & H7 & H8 & H9).
    destruct (IH s2 c2 k2) as (s' & HR & HT & HF); [done|done| |apply (to_errno _ _ _ H2)|].
    + split; [done| |].
      * split; [done|by rewrite H7|]. rewrite H6, H7. exists later. cbn [k1 got arriving]. by rewrite Hstr, !app_assoc.
      * exists (r1 ++ r1'), r2'. split; [by rewrite Hplan, Er2, app_assoc|]. split; [|split].
        -- rewrite H6, H5. cbn [k1 got]. by rewrite Hgot, requests_app, <- !app_assoc, Hp.
        -- by rewrite H5.
        -- rewrite H9, length_app, replies_add. cbn [k1 wire]. by rewrite app_assoc, Hwire.
    + exists s'. split; [|split; [|exact HF]].
      * eapply (Recver_S _ _ _ _ (set_sockets (<[fd := k1]> (sockets s)) s) (Some d)); [done| |].
        { unfold sys_recv. rewrite (socket_at _ _ _ _ Hat), <- Ea. rewrite (proj2 (Nat.leb_le _ _)), take_ge by lia. done. }
        destruct d as [|x d]; [done|].
        apply (runs_eq _ (λ f, calculate f fd;; Recver f fd) (upd fd c1 k1 s)); [|by eapply runs_seq].
        intros f. unfold after_recv. by rewrite (proj2 (Nat.ltb_lt _ _)).
      * eapply touches_trans; [|exact HT]. eapply touches_trans; [|exact H2]. eapply upd_touches; [apply Hat|done].
Qed.

(** ** The whole server *)
Record srv_ok (s : TcpServer) : Prop := {
  sv_step : in_step s;
  sv_conn : ∀ fd c, _connections s !! fd = Some c → registered c = Client → ∃ k, sockets s !! fd = Some k ∧ conn_ok fd c k;
  sv_listen : ∀ fd c, _connections s !! fd = Some c → registered c = Listener → sockets s !! fd = None;
  sv_fresh : ∀ fd k, sockets s !! fd = Some k → _connections s !! fd = None → sock_ok fd k ∧ got k = [] ∧ wire k = [];
  sv_backlog : ∃ fds, backlog s = AConn <$> fds ∧ NoDup fds ∧
    Forall (λ fd, 0 < fd ∧ _connections s !! fd = None ∧ is_Some (sockets s !! fd)) fds;
}.
Definition errno_ok (s : TcpServer) : Prop :=
  ∀ fd c, _connections s !! fd = Some c → registered c = Client → errno s = EAGAIN.

Lemma touches_ok fd s s' c :
  srv_ok s → _connections s !! fd = Some c → registered c = Client → touches fd s s' →
  (∃ c' k', at_ fd s' c' k' ∧ conn_ok fd c' k') ∨ gone fd s' → srv_ok s' ∧ errno_ok s'.
Proof.
  intros [S1 S2 S3 S4 (fds & S5 & S6 & S7)] Hc Hcl [T1 T2 T3 T4 T5] Hf. split; [|by intros ? ? _ _].
  assert (Hfd : ∀ c', _connections s' !! fd = Some c' → ∃ k', at_ fd s' c' k' ∧ conn_ok fd c' k').
  { intros c' Hc'. destruct Hf as [(c2 & k2 & [Hx Hk] & Hok)|[Hx _]]; rewrite Hx in Hc'; simplify_eq. by exists k2. }
  split; [auto| | | |].
  - intros j cj Hj Hjc. destruct (decide (j = fd)) as [->|Hne].
    + destruct (Hfd _ Hj) as (k' & [_ Hk] & Hok). by exists k'.
    + rewrite T2 by done. rewrite T1 in Hj by done. by apply S2.
  - intros j cj Hj Hjc. destruct (decide (j = fd)) as [->|Hne].
    + destruct (Hfd _ Hj) as (k' & _ & Hok). by rewrite (co_client _ _ _ Hok) in Hjc.
    + rewrite T2 by done. rewrite T1 in Hj by done. by eapply S3.
  - intros j kj Hj Hjn. destruct (decide (j = fd)) as [->|Hne].
    + destruct Hf as [(c2 & k2 & [Hx Hk] & _)|[_ Hx]]; congruence.
    + rewrite T2 in Hj by done. rewrite T1 in Hjn by done. by apply S4.
  - exists fds. split; [congruence|]. split; [done|]. eapply Forall_impl; [exact S7|]. intros j (? & Hn & Hk).
    assert (j ≠ fd) by congruence. by rewrite T1, T2.
Qed.

Definition drained (fd : Z) (s : TcpServer) : Prop := ∀ k, sockets s !! fd = Some k → arriving k = [].
Definition served_conn (fd : Z) (s : TcpServer) : Prop := ∃ c, _connections s !! fd = Some c ∧ registered c = Client.
Definition served (fd : Z) (s : TcpServer) : Prop := drained fd s ∨ served_conn fd s.

Lemma recver_client fd s c :
  srv_ok s → errno_ok s → _connections s !! fd = Some c → registered c = Client →
  ∃ s', runs (λ f, recver f fd) s s' ∧ srv_ok s' ∧ errno_ok s' ∧ touches fd s s' ∧ drained fd s'.
Proof.
  intros Hs He Hc Hcl. destruct (sv_conn _ Hs _ _ Hc Hcl) as (k & Hk & Hok).
  assert (Hat : at_ fd s c k) by done.
  destruct (Recver_spec fd s c k Hat Hok (He _ _ Hc Hcl)) as (s' & H1 & H2 & H3).
  exists s'. split; [|split; [|split; [|split]]].
  - eapply runs_eq; [|exact H1]. intros f. unfold recver. rewrite (get_conn_at _ _ _ _ _ Hat). by rewrite Hcl.
  - refine (proj1 (touches_ok fd s s' c Hs Hc Hcl H2 _)). destruct H3 as [(c' & k' & ? & ? & _)|]; [left; by exists c', k'|by right].
  - intros ? ? _ _. apply (to_errno _ _ _ H2).
  - done.
  - intros kx Hx. destruct H3 as [(c' & k' & [_ Hk'] & _ & Ha)|[_ Hg]]; congruence.
Qed.

Lemma AddConnection_new fd ev cb s :
  interest s !! fd = None → _connections s !! fd = None →
  AddConnection fd ev cb s = Ok ((), set_conns (<[fd := mkConn [] [] cb]> (_connections s)) (set_interest (<[fd := ev]> (interest s)) s)).
Proof.
  intros Hi Hc. unfold AddConnection, AddEvent, assert_M, modify, mbind, M_bind, mret, M_ret, epoll_ctl.
  rewrite bool_decide_eq_true_2, Hi by done. cbn. by rewrite Hc.
Qed.

Lemma Accepter_S s s1 fd s' :
  sys_accept s = Ok (fd, s1) → runs (λ f, after_accept (Accepter f) fd) s1 s' → runs Accepter s s'.
Proof.
  intros Hs Hr. apply (runs_S _ (λ f s, after_accept (Accepter f) fd s1)).
  - intros f. cbn [Accepter]. by erewrite bind_ok.
  - by apply (runs_eq _ (λ f, after_accept (Accepter f) fd) s1).
Qed.

Lemma Accepter_spec s :
  srv_ok s → ∃ s', runs Accepter s s' ∧ srv_ok s' ∧ errno s' = EAGAIN ∧ sockets s' = sockets s ∧
    ∀ fd c, _connections s !! fd = Some c → _connections s' !! fd = Some c.
Proof.
  intros Hs. destruct (sv_backlog _ Hs) as (fds & Eb & Hnd & Hall). revert s Hs Eb Hall.
  induction Hnd as [|fd fds Hni Hnd IH]; intros s [S1 S2 S3 S4 S5] Eb Hall.
  - exists (set_errno EAGAIN s). split; [|split; [by split|done]].
    eapply (Accepter_S _ (set_errno EAGAIN s)); [unfold sys_accept; by rewrite Eb|]. by apply runs_now.
  - apply Forall_cons in Hall as [(Hpos & Hn & [k Hk]) Hall].
    set (c := mkConn [] [] Client).
    set (s1 := mkSrv (<[fd := c]> (_connections s)) (<[fd := Z.lor EPOLLIN EPOLLET]> (interest s)) (errno s) (sockets s) (AConn <$> fds)).
    assert (Hin : interest s !! fd = None) by (apply not_elem_of_dom; rewrite S1; by apply not_elem_of_dom).
    destruct (S4 _ _ Hk Hn) as (Hsk & Hg & Hw).
    assert (Hall1 : Forall (λ j, 0 < j ∧ _connections s1 !! j = None ∧ is_Some (sockets s1 !! j)) fds).
    { rewrite Forall_forall in Hall |- *. intros j Hj. destruct (Hall j Hj) as (? & ? & ?). split; [done|]. split; [|done].
      cbn. rewrite lookup_insert_ne; [done|]. by intros ->. }
    destruct (IH s1) as (s' & H1 & H2 & H3 & H4 & H5); [|done|done|].
    { split; [|intros j cj|intros j cj|intros j kj|by exists fds]; cbn.
      - unfold in_step. cbn. by rewrite !dom_insert_L, S1.
      - rewrite lookup_insert_Some. intros [[<- <-]|[_ Hj]]; [|by apply S2]. intros _. exists k. split; [done|].
        split; [done|done|]. exists [], (plan fd). split; [done|]. cbn [inbuffer outbuffer c]. rewrite Hg, Hw.
        split; [done|]. split; [|done]. destruct (plan fd); [done|]. split; [apply prefix_nil|].
        unfold request_frame. rewrite enLength_length. simpl. lia.
      - rewrite lookup_insert_Some. intros [[<- <-]|[_ Hj]]; [done|by eapply S3].
      - rewrite lookup_insert_None. intros Hj [? _]. by apply S4. }
    exists s'. split; [|split; [done|split; [done|split; [done|]]]].
    + eapply (Accepter_S _ (set_backlog (AConn <$> fds) s) fd); [unfold sys_accept; by rewrite Eb|].
      apply (runs_eq _ Accepter s1); [|exact H1]. intros f. unfold after_accept.
      erewrite bind_ok by done. rewrite (proj2 (Z.ltb_lt _ _)) by done.
      by erewrite bind_ok by (by apply AddConnection_new).
    + intros j cj Hj. apply H5. cbn. rewrite lookup_insert_ne; [done|]. intros ->. congruence.
Qed.

Lemma sender_client fd s c :
  srv_ok s → errno_ok s → _connections s !! fd = Some c → registered c = Client →
  ∃ s', runs (λ f, sender f fd) s s' ∧ srv_ok s' ∧ errno_ok s' ∧ touches fd s s' ∧ (drained fd s → drained fd s').
Proof.
  intros Hs He Hc Hcl. destruct (sv_conn _ Hs _ _ Hc Hcl) as (k & Hk & Hok).
  assert (Hat : at_ fd s c k) by done.
  pose proof Hok as [_ [Hroom Harr Hstr] (r1 & r2 & Hplan & Hgot & Hinc & Hwire)].
  destruct (Sender_spec fd s c k Hat Hcl (He _ _ Hc Hcl) Hroom) as (s' & c' & k' & H1 & H2 & H3 & H4 & H5 & H6 & H7 & H8 & H9).
  exists s'. split; [|split; [|split; [|split]]].
  - eapply runs_eq; [|exact H1]. intros f. unfold sender. rewrite (get_conn_at _ _ _ _ _ Hat). by rewrite Hcl.
  - refine (proj1 (touches_ok fd s s' c Hs Hc Hcl H2 _)). left. exists c', k'. split; [done|]. split; [done| |].
    + split; [done|congruence|congruence].
    + exists r1, r2. rewrite H9, H6, H5. done.
  - intros ? ? _ _. apply (to_errno _ _ _ H2).
  - done.
  - intros Hd kx Hx. destruct H3 as [_ H3]. rewrite Hx in H3. injection H3 as ->. rewrite H7. by apply Hd.
Qed.

(** What an event does: it keeps the invariant, and loses no connection that still has data. *)
Record event_ok (s s' : TcpServer) : Prop := {
  ev_ok : srv_ok s';
  ev_errno : errno_ok s';
  ev_drained : ∀ j, drained j s → drained j s';
  ev_served : ∀ j, served j s → served j s';
}.
Lemma event_ok_refl s : srv_ok s → errno_ok s → event_ok s s.
Proof. by split. Qed.
Lemma event_ok_trans s1 s2 s3 : event_ok s1 s2 → event_ok s2 s3 → event_ok s1 s3.
Proof. intros [A1 A2 A3 A4] [B1 B2 B3 B4]. split; auto. Qed.
Lemma touches_event fd s s' :
  srv_ok s' → errno_ok s' → touches fd s s' → drained fd s' → event_ok s s'.
Proof.
  intros H1 H2 [T1 T2 _ _ _] H3. split; [done|done| |]; intros j; destruct (decide (j = fd)) as [->|Hne]; [done| |by left|].
  - intros Hd k Hk. rewrite T2 in Hk by done. by apply Hd.
  - intros [Hd|(c & Hc & Hcl)]; [left|right; exists c; by rewrite T1].
    intros k Hk. rewrite T2 in Hk by done. by apply Hd.
Qed.

Lemma exists_conn sock s {A} (f : bool → M TcpServer A) :
  (IsConnectionExists sock ≫= f) s = f (bool_decide (is_Some (_connections s !! sock))) s.
Proof. done. Qed.

(** The two halves of [one_event]. *)
Lemma read_half b fd s :
  srv_ok s → errno_ok s →
  ∃ s', runs (λ f, ex ← IsConnectionExists fd; if b && ex then recver f fd else mret ()) s s' ∧ event_ok s s' ∧
    (b = true → served fd s ∨ served_conn fd s' → drained fd s').
Proof.
  intros Hs He. destruct (_connections s !! fd) as [c|] eqn:Ec.
  2: { exists s. split; [apply runs_now; intros f; rewrite exists_conn, Ec; cbn; by rewrite andb_false_r|].
       split; [by apply event_ok_refl|]. intros _ [[?|(c & Hc & _)]|(c & Hc & _)]; [done|congruence..]. }
  destruct b.
  2: { exists s. split; [by apply runs_now; intros f; rewrite exists_conn, Ec|]. split; [by apply event_ok_refl|done]. }
  destruct (registered c) eqn:Er.
  - destruct (Accepter_spec s Hs) as (s' & H1 & H2 & H3 & H4 & H5). exists s'. split; [|split].
    + eapply runs_eq; [|exact H1]. intros f. rewrite exists_conn, Ec. cbn. unfold recver.
      erewrite bind_ok by (unfold get_conn; by rewrite Ec). by rewrite Er.
    + split; [done|by intros ? ? _ _| |]; unfold served, drained; rewrite H4; [done|].
      intros j [Hd|(cj & Hc & Hcl)]; [by left|right; exists cj; auto].
    + apply H5 in Ec as Ec'. intros _ [[Hd|(cj & Hc & Hcl)]|(cj & Hc & Hcl)]; [unfold drained; by rewrite H4|congruence..].
  - destruct (recver_client fd s c Hs He Ec Er) as (s' & H1 & H2 & H3 & H4 & H5).
    exists s'. split; [|split; [by eapply touches_event|done]].
    eapply runs_eq; [|exact H1]. intros f. by rewrite exists_conn, Ec.
Qed.
Lemma write_half b fd s :
  srv_ok s → errno_ok s → (b = true → served_conn fd s → drained fd s) →
  ∃ s', runs (λ f, ex ← IsConnectionExists fd; if b && ex then sender f fd else mret ()) s s' ∧ event_ok s s'.
Proof.
  intros Hs He Hd. destruct (_connections s !! fd) as [c|] eqn:Ec.
  2: { exists s. split; [apply runs_now; intros f; rewrite exists_conn, Ec; cbn; by rewrite andb_false_r|].
       by apply event_ok_refl. }
  destruct b.
  2: { exists s. split; [by apply runs_now; intros f; rewrite exists_conn, Ec|]. by apply event_ok_refl. }
  destruct (registered c) eqn:Er.
  - exists s. split; [|by apply event_ok_refl]. apply runs_now. intros f. rewrite exists_conn, Ec. cbn. unfold sender.
    erewrite bind_ok by (unfold get_conn; by rewrite Ec). by rewrite Er.
  - destruct (sender_client fd s c Hs He Ec Er) as (s' & H1 & H2 & H3 & H4 & H5).
    exists s'. split; [eapply runs_eq; [|exact H1]; intros f; by rewrite exists_conn, Ec|].
    eapply touches_event; [done..|]. apply H5, Hd; [done|]. by exists c.
Qed.

Definition wants_read (events : Z) : bool := has_bit (widen events) EPOLLIN.

Lemma one_event_spec fd ev s :
  srv_ok s → errno_ok s →
  ∃ s', runs (λ f, one_event f fd ev) s s' ∧ event_ok s s' ∧ (wants_read ev = true → served fd s → drained fd s').
Proof.
  intros Hs He. destruct (read_half (wants_read ev) fd s Hs He) as (s1 & H1 & H2 & H3).
  destruct (write_half (wants_read ev) fd s1 (ev_ok _ _ H2) (ev_errno _ _ H2)) as (s2 & H4 & H5); [auto|].
  exists s2. split; [|split; [by eapply event_ok_trans|]].
  - pose proof (runs_seq _ _ _ _ _ H1 H4) as Hr. eapply runs_eq; [|exact Hr]. done.
  - intros Hw Hv. apply (ev_drained _ _ H5). auto.
Qed.

Lemma Loop_spec evs s :
  srv_ok s → errno_ok s →
  ∃ s', runs (λ f, Loop f evs) s s' ∧ event_ok s s' ∧
    ∀ fd ev, (fd, ev) ∈ evs → wants_read ev = true → served fd s → drained fd s'.
Proof.
  revert s. induction evs as [|[fd ev] evs IH]; intros s Hs He.
  { exists s. split; [by apply runs_now|]. split; [by apply event_ok_refl|]. by intros fd ev []%not_elem_of_nil. }
  destruct (one_event_spec fd ev s Hs He) as (s1 & H1 & H2 & H3).
  destruct (IH s1 (ev_ok _ _ H2) (ev_errno _ _ H2)) as (s2 & H4 & H5 & H6).
  exists s2. split; [by eapply runs_eq; [|exact (runs_seq _ _ _ _ _ H1 H4)]|]. split; [by eapply event_ok_trans|].
  intros j evj [[= -> ->]|Hin]%elem_of_cons Hw Hv.
  - apply (ev_drained _ _ H5). auto.
  - eapply H6; [done|done|]. by apply (ev_served _ _ H2).
Qed.

(** *** Steps: the clients, the kernel and the loop *)
(** The steps are those of clients that follow the protocol: [plan fd] is the sequence of requests
    of the one client that ever uses [fd] (a descriptor is not given out again while [sockets] still
    has it), and what arrives is a prefix of their text.  Other input is outside of these steps:
    [malformed_length_throws] is one. *)
Inductive calc_step : TcpServer → TcpServer → Prop :=
  | Connects fd s :
      0 < fd → sockets s !! fd = None → _connections s !! fd = None →
      calc_step s (set_backlog (backlog s ++ [AConn fd]) (set_sockets (<[fd := new_socket]> (sockets s)) s))
  | Arrives fd k d s :
      sockets s !! fd = Some k → arrivals (arriving k ++ [RData d]) →
      got k ++ bytes (arriving k ++ [RData d]) `prefix_of` requests (plan fd) →
      calc_step s (set_sockets (<[fd := mkSocket (arriving k ++ [RData d]) (room k) (got k) (wire k)]> (sockets s)) s)
  | Drains fd k a s :
      sockets s !! fd = Some k → good_send a →
      calc_step s (set_sockets (<[fd := mkSocket (arriving k) (room k ++ [a]) (got k) (wire k)]> (sockets s)) s)
  | Loops evs s s' : runs (λ f, Loop f evs) s s' → calc_step s s'.

(** Only what the kernel holds of a socket changes. *)
Lemma srv_ok_sockets fd k k' s :
  srv_ok s → sockets s !! fd = Some k → got k' = got k → wire k' = wire k → sock_ok fd k' →
  srv_ok (set_sockets (<[fd := k']> (sockets s)) s).
Proof.
  intros [S1 S2 S3 S4 (fds & S5 & S6 & S7)] Hk Hg Hw Hok. split; cbn; [done| | | |].
  - intros j c Hj Hc. destruct (S2 _ _ Hj Hc) as (kj & Hkj & Hcok). destruct (decide (j = fd)) as [->|Hne].
    + rewrite lookup_insert_eq. exists k'. split; [done|]. rewrite Hk in Hkj. injection Hkj as <-.
      destruct Hcok as [C1 C2 (r1 & r2 & C3 & C4 & C5 & C6)]. split; [done|done|]. exists r1, r2. by rewrite Hg, Hw.
    + rewrite lookup_insert_ne by done. by exists kj.
  - intros j c Hj Hc. pose proof (S3 _ _ Hj Hc) as Hn. rewrite lookup_insert_ne; [done|]. intros ->. congruence.
  - intros j kj Hj Hn. destruct (decide (j = fd)) as [->|Hne].
    + rewrite lookup_insert_eq in Hj. injection Hj as <-. destruct (S4 _ _ Hk Hn) as (_ & ? & ?). by rewrite Hg, Hw.
    + rewrite lookup_insert_ne in Hj by done. by apply S4.
  - exists fds. split; [done|]. split; [done|]. eapply Forall_impl; [exact S7|]. intros j (? & ? & ?).
    split; [done|]. split; [done|]. by apply lookup_insert_is_Some'; right.
Qed.

Lemma srv_sock_ok s fd k : srv_ok s → sockets s !! fd = Some k → sock_ok fd k.
Proof.
  intros Hs Hk. destruct (_connections s !! fd) as [c|] eqn:Ec; [|by eapply (sv_fresh _ Hs)].
  destruct (registered c) eqn:Er.
  - pose proof (sv_listen _ Hs _ _ Ec Er). congruence.
  - destruct (sv_conn _ Hs _ _ Ec Er) as (k' & Hk' & Hok). rewrite Hk in Hk'. injection Hk' as <-. apply Hok.
Qed.

Lemma calc_step_ok s s' : srv_ok s ∧ errno_ok s → calc_step s s' → srv_ok s' ∧ errno_ok s'.
Proof.
  intros [Hs He]. destruct 1 as [fd s Hpos Hn Hc|fd k d s Hk Ha Hp|fd k a s Hk Ha|evs s s' Hr].
  - split; [|done]. destruct Hs as [S1 S2 S3 S4 (fds & S5 & S6 & S7)]. split; cbn; [done| | | |].
    + intros j c Hj Hcl. destruct (S2 _ _ Hj Hcl) as (k & Hk & Hok). exists k. split; [|done].
      rewrite lookup_insert_ne; [done|]. intros ->. congruence.
    + intros j c Hj Hcl. rewrite lookup_insert_ne; [by eapply S3|]. intros ->. congruence.
    + intros j k Hj Hnj. apply lookup_insert_Some in Hj as [[<- <-]|[_ Hj]]; [|by apply S4].
      split; [|done]. split; [constructor|constructor|apply prefix_nil].
    + exists (fds ++ [fd]). split; [by rewrite S5, fmap_app|]. rewrite Forall_forall in S7. split.
      * apply NoDup_app. split; [done|]. split; [|apply NoDup_singleton].
        intros j Hj ->%list_elem_of_singleton. destruct (S7 _ Hj) as (_ & _ & [? ?]). congruence.
      * apply Forall_app. split; [|constructor; [|done]].
        -- apply Forall_forall. intros j Hj. destruct (S7 _ Hj) as (? & ? & ?). split; [done|]. split; [done|].
           by apply lookup_insert_is_Some'; right.
        -- split; [done|]. split; [done|]. rewrite lookup_insert_eq. by eexists.
  - split; [|done]. eapply srv_ok_sockets; [done|done|done|done|]. destruct (srv_sock_ok _ _ _ Hs Hk). by split.
  - split; [|done]. eapply srv_ok_sockets; [done|done|done|done|]. destruct (srv_sock_ok _ _ _ Hs Hk).
    split; [|done|done]. apply Forall_app. split; [done|]. by constructor.
  - destruct (Loop_spec evs s Hs He) as (s2 & H1 & H2 & _). rewrite (runs_det _ _ _ _ Hr H1). by destruct H2.
Qed.

Lemma Init_ok lfd s0 : Init lfd empty_server = Ok ((), s0) → srv_ok s0 ∧ errno_ok s0.
Proof.
  unfold Init. rewrite AddConnection_new by done. intros [= <-]. split.
  - split; cbn.
    + unfold in_step. cbn. by rewrite !dom_insert_L.
    + intros fd c [[<- <-]|[_ ?]]%lookup_insert_Some; done.
    + done.
    + done.
    + exists []. by split_and!; [|constructor|constructor].
  - intros fd c. cbn. intros [[<- <-]|[_ ?]]%lookup_insert_Some; done.
Qed.

(** C26: The calculator's event loop serves clients that follow the protocol: each connection has a
    descriptor of its own, never used again, and sends a prefix of one sequence of well-formed
    requests (any operator, operands that fit an int and do not make the operation overflow), in
    parts smaller than the read buffer. Then, whenever they connect, however the parts are cut, and
    however little the kernel takes at a time, as long as no call fails other than for lack of data
    or room, the handlers of any ready descriptors run to their end without touching freed memory;
    every connection that was reported readable has then been read to the end; and on every
    connection the bytes sent and to be sent are exactly the answers, in order, to the requests that
    have arrived completely. Clients that break the protocol are not covered: a length that is no
    number makes stoi throw out of the loop ([malformed_length_throws]). *)
Theorem reactor_serves lfd s0 s :
  Init lfd empty_server = Ok ((), s0) → rtc calc_step s0 s →
  (∀ evs, ∃ s', runs (λ f, Loop f evs) s s' ∧
     ∀ fd ev c, (fd, ev) ∈ evs → wants_read ev = true → _connections s !! fd = Some c → registered c = Client → drained fd s') ∧
  (∀ fd c, _connections s !! fd = Some c → registered c = Client →
     ∃ k r1 r2, sockets s !! fd = Some k ∧ plan fd = r1 ++ r2 ∧
       got k = requests r1 ++ inbuffer c ∧ incomplete (inbuffer c) r2 ∧ wire k ++ outbuffer c = replies fd (length r1)).
Proof.
  intros Hi Hr.
  assert (srv_ok s ∧ errno_ok s) as [Hs He].
  { apply Init_ok in Hi. clear -Hi Hr plan_ok answers_ok. induction Hr; [done|]. eauto using calc_step_ok. }
  split.
  - intros evs. destruct (Loop_spec evs s Hs He) as (s' & H1 & _ & H3). exists s'. split; [done|].
    intros fd ev c Hin Hw Hc Hcl. eapply H3; [done|done|]. right. by exists c.
  - intros fd c Hc Hcl. destruct (sv_conn _ Hs _ _ Hc Hcl) as (k & Hk & [_ _ (r1 & r2 & H)]). by exists k, r1, r2.
Qed.
End Serving.

(** ** What the event loop does not survive *)
Section Hazards.
Context `{CD : Codec}.

(** Pending output waits for input: events that only say a connection is writable
    change nothing, however often they come, since [Loop] tests [EPOLLIN] before it
    calls the sender. *)
Theorem writable_ignored fuel evs s :
  Forall (λ e, wants_read e.2 = false) evs → Loop fuel evs s = Ok ((), s).
Proof.
  induction 1 as [|[fd ev] evs Hw Hr IH]; [done|]. cbn [Loop]. rewrite (bind_ok _ _ _ () s); [exact IH|].
  unfold wants_read in Hw. cbn [snd] in Hw. unfold one_event. cbv zeta. rewrite Hw. done.
Qed.

Lemma after_send_nothing again fd c s :
  after_send again fd c 0 s =
  (if decide (errno s = EAGAIN) then mret ()
   else if decide (errno s = EINTR) then again
   else match registered c with Client => Excepter fd | Listener => again end) s.
Proof.
  unfold after_send, gets, mbind, M_bind. cbn.
  destruct (Z.eqb_spec (errno s) EAGAIN); [by rewrite decide_True|]. rewrite decide_False by done.
  destruct (Z.eqb_spec (errno s) EINTR); [by rewrite decide_True|]. by rewrite decide_False.
Qed.

(** [Sender] takes the 0 that [send] returns for nothing to send for a failure, and
    looks at what [errno] happens to hold: an old [EINTR] makes it loop for ever. *)
Theorem stale_eintr_spins fd s c k fuel :
  at_ fd s c k → outbuffer c = [] → errno s = EINTR → Sender fuel fd s = Err OutOfFuel.
Proof.
  intros Hat Ho He. induction fuel as [|fuel IH]; [done|]. cbn [Sender]. rewrite (get_conn_at _ _ _ _ _ Hat), Ho.
  erewrite bind_ok by (unfold sys_send; by rewrite decide_True).
  rewrite after_send_nothing, He. exact IH.
Qed.

(** C40: Any other old error makes it close and free the connection in the middle of the
    service, which then reads the freed connection: with such an [errno], the first
    bytes of a request are enough. *)
Theorem stale_errno_dangles fd s c k d a p fuel :
  at_ fd s c k → registered c = Client → outbuffer c = [] → errno s ≠ EAGAIN → errno s ≠ EINTR →
  arriving k = RData d :: a → d ≠ [] → (length d < BUFFER_SIZE)%nat →
  serve (inbuffer c ++ c_str d) [] = Ok (true, (p, [])) →
  Recver (S (S fuel)) fd s = Err DanglingPtr.
Proof.
  intros Hat Hc Ho He1 He2 Ha Hd Hlen Hs. cbn [Recver]. rewrite (get_conn_at _ _ _ _ _ Hat).
  set (k1 := mkSocket a (room k) (got k ++ d) (wire k)).
  erewrite (bind_ok _ _ _ (Some d) (set_sockets (<[fd := k1]> (sockets s)) s)).
  2: { unfold sys_recv. rewrite (socket_at _ _ _ _ Hat), Ha, (proj2 (Nat.leb_le _ _)), take_ge by lia. done. }
  destruct d as [|x d]; [done|]. unfold after_recv. rewrite (proj2 (Nat.ltb_lt _ _)) by done.
  set (c1 := set_in (inbuffer c ++ c_str (x :: d)) c).
  erewrite (bind_ok _ _ _ () (upd fd c1 k1 s)) by done. apply bind_err.
  unfold calculate. rewrite (get_conn_at _ _ _ _ _ (upd_at fd c1 k1 s)).
  change (inbuffer c1) with (inbuffer c ++ c_str (x :: d)). change (outbuffer c1) with (outbuffer c). rewrite Ho.
  erewrite bind_ok by (unfold lift_res; by rewrite Hs). cbn beta iota.
  set (c2 := set_in p (set_out [] c1)). erewrite bind_ok by done. change (registered c1) with (registered c). rewrite Hc.
  set (s2 := set_conns _ _).
  assert (Hat2 : at_ fd s2 c2 k1) by (split; cbn; apply lookup_insert_eq).
  destruct (Sender (S fuel) fd s2) as [[[] s3]|] eqn:Es.
  - rewrite (bind_ok _ _ _ _ _ Es). apply bind_err. unfold get_conn. revert Es. cbn [Sender].
    rewrite (get_conn_at _ _ _ _ _ Hat2). erewrite bind_ok by (unfold sys_send; by rewrite decide_True).
    rewrite after_send_nothing. change (registered c2) with (registered c). rewrite decide_False, decide_False, Hc by done.
    intros [= <-]. cbn. by rewrite lookup_delete_eq.
  - exfalso. revert Es. cbn [Sender].
    rewrite (get_conn_at _ _ _ _ _ Hat2). erewrite bind_ok by (unfold sys_send; by rewrite decide_True).
    rewrite after_send_nothing. change (registered c2) with (registered c). by rewrite decide_False, decide_False, Hc.
Qed.

(** A read that fills the buffer writes the terminator behind it. *)
Theorem full_read_overflows fd s c k d a fuel :
  at_ fd s c k → arriving k = RData d :: a → (BUFFER_SIZE ≤ length d)%nat → Recver (S fuel) fd s = Err OutOfBounds.
Proof.
  intros Hat Ha Hlen. cbn [Recver]. rewrite (get_conn_at _ _ _ _ _ Hat).
  assert (Hl : length (take BUFFER_SIZE d) = BUFFER_SIZE) by (rewrite length_take; lia).
  destruct (take BUFFER_SIZE d) as [|x y] eqn:Et; [by unfold BUFFER_SIZE in Hl|].
  erewrite bind_ok by (unfold sys_recv; rewrite (socket_at _ _ _ _ Hat), Ha, Et; done).
  unfold after_recv. by rewrite (proj2 (Nat.ltb_ge _ _)) by lia.
Qed.
End Hazards.

(** ** The blocking server of src/lesson10/cal

    [chunks] is what each [recv] will deliver, of at most 1023 bytes; after them the
    stream has ended. *)
Section Blocking.
Context `{CD : Codec}.

(** [RecvPackage]: its statements on [inbuffer] are those of [ParseOnePackage], but
    each try is preceded by a [recv]. *)
Fixpoint RecvPackage (chunks : list str) (inbuffer : str) : res (option str * str * list str) :=
  match chunks with
  | [] => Ok (None, inbuffer, [])
  | d :: chunks =>
      p ← ParseOnePackage (inbuffer ++ c_str d);
      match fst p with
      | None => RecvPackage chunks (snd p)
      | Some text => Ok (Some text, snd p, chunks)
      end
  end.

(** The members of [Requse()]; a failure of [deserialize] leaves them. *)
Definition default_request : Requse := mkReq 0 0 "000"%char.
(** [handlerEntery]: what it sends. *)
Fixpoint handler_loop (fuel : nat) (chunks : list str) (inbuffer sent : str) : res str :=
  match fuel with
  | O => Err OutOfFuel
  | S fuel =>
      '(req_text, inbuffer, chunks) ← RecvPackage chunks inbuffer;
      match req_text with
      | None => Ok sent
      | Some req_text =>
          d ← deLength req_text;
          match d with
          | None => Ok sent
          | Some req_str =>
              q ← req_deserialize req_str;
              p ← my_string (default default_request q);
              handler_loop fuel chunks inbuffer (sent ++ enLength (rep_serialize p))
          end
      end
  end.
Definition handlerEntery (chunks : list str) : res str := handler_loop (S (length chunks)) chunks [] [].

(** A whole frame in parts, none of them empty: it is taken with its last part. *)
Lemma RecvPackage_frame r cs inb chunks :
  req_ok r → cs ≠ [] → Forall (λ d, d ≠ [] ∧ c_str d = d) cs → inb ++ concat cs = request_frame r →
  RecvPackage (cs ++ chunks) inb = Ok (Some (request_frame r), [], chunks).
Proof.
  intros Hr Hne Hcs. revert inb. induction Hcs as [|d cs [Hd Hnul] Hcs IH]; intros inb E; [done|].
  cbn [app RecvPackage]. rewrite Hnul. cbn [concat] in E. rewrite app_assoc in E.
  assert (Hfit : fits (req_serialize r)) by (by apply req_length).
  destruct cs as [|d' cs].
  - cbn [concat] in E. rewrite app_nil_r in E. rewrite E. unfold request_frame.
    pose proof (parse_frame (req_serialize r) [] Hfit) as Hp. rewrite app_nil_r in Hp. by rewrite Hp.
  - rewrite (parse_partial (req_serialize r)); [cbn; by apply IH|done|eexists; symmetry; exact E|].
    fold (request_frame r). rewrite <- E, length_app. apply Forall_cons in Hcs as [[Hd' _] _].
    destruct d'; [done|]. cbn [concat app]. rewrite !length_app. cbn [length]. lia.
Qed.

Lemma handler_loop_frames css rs reps sent fuel :
  Forall req_ok rs → Forall2 (λ r rep, my_string r = Ok rep) rs reps →
  Forall2 (λ r cs, cs ≠ [] ∧ Forall (λ d, d ≠ [] ∧ c_str d = d) cs ∧ concat cs = request_frame r) rs css →
  (length rs < fuel)%nat →
  handler_loop fuel (concat css) [] sent = Ok (sent ++ concat (reply_frame <$> reps)).
Proof.
  intros Hok Hr Hc. revert reps sent fuel Hok Hr. induction Hc as [|r cs rs css (H1 & H2 & H3) Hc IH]; intros reps sent fuel Hok Hr Hf.
  - inversion Hr. subst. destruct fuel; [simpl in Hf; lia|]. cbn. by rewrite app_nil_r.
  - apply Forall_cons in Hok as [Hr0 Hok]. inversion Hr as [|? rep ? reps' Hmy Hr']. subst.
    destruct fuel as [|fuel]; [simpl in Hf; lia|]. cbn [handler_loop concat].
    rewrite (RecvPackage_frame r) by done. cbn [mbind res_bind]. unfold request_frame.
    rewrite deLength_enLength by (by apply req_length). cbn [mbind res_bind]. rewrite req_round_trip by done.
    cbn [mbind res_bind]. change (default default_request (Some r)) with r. rewrite Hmy. cbn [mbind res_bind]. rewrite fmap_cons. cbn [concat].
    rewrite (IH reps') by (done || (simpl in Hf; lia)). by rewrite <- app_assoc.
Qed.

(** The blocking server answers a client that does not send the next request
    before the end of this one is in a read of its own: if the reads, none empty and
    without NUL, each belong to one request, every request is answered, in order. *)
Theorem handler_answers css rs reps :
  Forall req_ok rs → Forall2 (λ r rep, my_string r = Ok rep) rs reps →
  Forall2 (λ r cs, cs ≠ [] ∧ Forall (λ d, d ≠ [] ∧ c_str d = d) cs ∧ concat cs = request_frame r) rs css →
  handlerEntery (concat css) = Ok (concat (reply_frame <$> reps)).
Proof.
  intros Hok Hr Hc. unfold handlerEntery. apply (handler_loop_frames css rs reps []); [done..|].
  clear -Hc. induction Hc as [|r cs rs css (Hne & _ & _) Hc IH]; [simpl; lia|]. cbn [concat length]. rewrite length_app.
  destruct cs; [done|]. simpl in *. lia.
Qed.

(** Requests that arrive together are not: [RecvPackage] waits for another [recv]
    before it looks at what is already in the buffer, so that of two requests in one
    read the second is not answered before the client sends more. *)
Theorem pipelined_waits r1 r2 rep1 :
  req_ok r1 → my_string r1 = Ok rep1 → c_str (request_frame r1 ++ request_frame r2) = request_frame r1 ++ request_frame r2 →
  handlerEntery [request_frame r1 ++ request_frame r2] = Ok (reply_frame rep1).
Proof.
  intros Hr Hmy Hnul. unfold handlerEntery. cbn [length handler_loop RecvPackage]. rewrite Hnul. cbn [app].
  assert (Hfit : fits (req_serialize r1)) by (by apply req_length).
  unfold request_frame at 1. rewrite parse_frame by done. cbn [mbind res_bind fst snd].
  rewrite deLength_enLength by done. cbn [mbind res_bind]. rewrite req_round_trip by done.
  cbn [mbind res_bind]. change (default default_request (Some r1)) with r1. by rewrite Hmy.
Qed.
End Blocking.

(** ** Witnesses *)
Definition req34 : Requse := mkReq 3 4 "+"%char.
Definition one_plan (fd : Z) : list Requse := [req34].
Definition one_answer (fd : Z) : list Repose := [mkRep 0 7].

(** A client connects and is accepted; half of its request arrives. *)
Definition after {A} (m : M TcpServer A) (s : TcpServer) : TcpServer := match m s with Ok (_, s') => s' | Err _ => s end.
Definition cal0 : TcpServer := after (Init 3) empty_server.
Definition cal1 : TcpServer := set_backlog [AConn 4] (set_sockets {[4 := new_socket]} cal0).
Definition cal2 : TcpServer := after (Loop 10 [(3, EPOLLIN)]) cal1.
Definition half : str := take 4 (request_frame req34).
Definition cal3 : TcpServer := set_sockets {[4 := mkSocket [RData half] [] [] []]} cal2.

Lemma cal3_reached : rtc (calc_step one_plan) cal0 cal3.
Proof.
  eapply rtc_l; [by apply (Connects _ 4 cal0)|].
  eapply rtc_l; [apply (Loops _ [(3, EPOLLIN)] _ cal2); exists 3%nat; intros fuel Hf;
    do 3 (destruct fuel as [|fuel]; [lia|]); by vm_compute|].
  eapply rtc_l; [|apply rtc_refl].
  apply (Arrives _ 4 new_socket half cal2); [by vm_compute| |].
  - apply arr_data; [by vm_compute|by apply Nat.ltb_lt; vm_compute|by vm_compute|constructor].
  - exists (drop 4 (request_frame req34)). by vm_compute.
Qed.

Lemma reactor_serves_witness :
  ∃ s', runs (λ f, Loop f [(4, EPOLLIN)]) cal3 s' ∧ drained 4 s'.
Proof.
  destruct (reactor_serves one_plan one_answer) with (lfd := 3) (s0 := cal0) (s := cal3) as [HL _].
  - intros fd. repeat constructor.
  - intros fd. repeat constructor.
  - by vm_compute.
  - exact cal3_reached.
  - destruct (HL [(4, EPOLLIN)]) as (s' & H1 & H2). exists s'. split; [exact H1|].
    eapply (H2 4 EPOLLIN); [by left|by vm_compute|by vm_compute|done].
Defined.

Lemma writable_ignored_witness : Loop 1 [(4, EPOLLOUT)] cal3 = Ok ((), cal3).
Proof. apply (writable_ignored 1 [(4, EPOLLOUT)] cal3). repeat constructor. Defined.

Definition conn0 : Connection := mkConn [] [] Client.
Lemma stale_eintr_spins_witness : Sender 5 4 (set_errno EINTR cal3) = Err OutOfFuel.
Proof.
  apply (stale_eintr_spins 4 (set_errno EINTR cal3) conn0 (mkSocket [RData half] [] [] []) 5); [split; by vm_compute|done|done].
Defined.

Lemma stale_errno_dangles_witness : Recver 2 4 (set_errno 25 cal3) = Err DanglingPtr.
Proof.
  apply (stale_errno_dangles 4 (set_errno 25 cal3) conn0 (mkSocket [RData half] [] [] []) half [] half 0);
    [split; by vm_compute|done|done|done|done|done|by vm_compute|by apply Nat.ltb_lt; vm_compute|by vm_compute].
Defined.

Lemma full_read_overflows_witness :
  Recver 1 4 (set_sockets {[4 := mkSocket [RData (replicate 1024 "x"%char)] [] [] []]} cal2) = Err OutOfBounds.
Proof.
  apply (full_read_overflows 4 _ conn0 (mkSocket [RData (replicate 1024 "x"%char)] [] [] []) (replicate 1024 "x"%char) [] 0);
    [split; by vm_compute|done|by apply Nat.leb_le; vm_compute].
Defined.

Lemma handler_answers_witness :
  handlerEntery [half; drop 4 (request_frame req34); request_frame req34] = Ok (reply_frame (mkRep 0 7) ++ reply_frame (mkRep 0 7) ++ []).
Proof.
  apply (handler_answers [[half; drop 4 (request_frame req34)]; [request_frame req34]] [req34; req34] [mkRep 0 7; mkRep 0 7]);
    [by repeat constructor|by repeat constructor|].
  assert (∀ d, (d ≠ [] ∧ c_str d = d) → Forall (λ d, d ≠ [] ∧ c_str d = d) [d]) as H1 by (intros d Hd; by constructor).
  constructor; [|constructor; [|constructor]]; (split; [done|split]).
  - constructor; [|apply H1]; split; by vm_compute.
  - by vm_compute.
  - apply H1. split; by vm_compute.
  - by vm_compute.
Defined.

Lemma pipelined_waits_witness : handlerEntery [request_frame req34 ++ request_frame req34] = Ok (reply_frame (mkRep 0 7)).
Proof. apply (pipelined_waits req34 req34); [split; by vm_compute|by vm_compute|by vm_compute]. Defined.
