(* ===== verification/FdServers.v ===== *)
(** * Three servers that multiplex descriptors: src/lesson_IO/select_server, poll_server, epoll_server

    Each keeps the descriptors it watches (an array of numbers, an array of
    [struct pollfd], the kernel's list), asks the kernel which are ready, accepts on the
    listening one and reads the others.  A round is one pass of [handler]: which
    descriptors are ready, what [accept] returns and what [recv] returns for each client
    are its inputs; the replies, the closed and the lost descriptors are recorded. *)

From S2P Require Import Prelude StdString.

Open Scope Z_scope.

Inductive recv_res := Got (d : str) | Closed | Failed.
Definition BUFFER_SIZE : nat := 1024.

Record log := mkLog {
  replies : list (Z * str);     (** what was written, to whom *)
  closed : list Z;
  lost : list Z;                (** accepted, and neither watched nor closed *)
}.
Definition no_log : log := mkLog [] [] [].
Definition log_reply (fd : Z) (s : str) (l : log) : log := mkLog (replies l ++ [(fd, s)]) (closed l) (lost l).
Definition log_close (fd : Z) (l : log) : log := mkLog (replies l) (closed l ++ [fd]) (lost l).
Definition log_lost (fd : Z) (l : log) : log := mkLog (replies l) (closed l) (lost l ++ [fd]).

Section Servers.
(** The service, and the results of the system calls of a round. *)
Context (fun_ : str → str) (accepted : Z) (recv : Z → recv_res).

(** The reply to what was read; [buffer[s] = 0] needs room behind it. *)
Definition reply_to (d : str) : res str :=
  if (length d <? BUFFER_SIZE)%nat then Ok (fun_ (c_str d)) else Err OutOfBounds.

(** ** [select] *)
Definition fdnum : nat := 1024.
Record SelectServer := mkSel { s_sock : Z; fdarray : list Z; s_log : log }.
Definition select_Init (sock : Z) : SelectServer := mkSel sock (<[0%nat := sock]> (replicate fdnum (-1))) no_log.

(** The first free slot. *)
Definition free_slot (fds : list Z) : option nat := fst <$> list_find (.= -1) fds.

Definition select_Accept (s : SelectServer) : SelectServer :=
  if accepted <? 0 then s
  else
    match free_slot (fdarray s) with
    | None => mkSel (s_sock s) (fdarray s) (log_lost accepted (s_log s))
    | Some i => mkSel (s_sock s) (<[i := accepted]> (fdarray s)) (s_log s)
    end.
Definition select_Recver (sock : Z) (pos : nat) (s : SelectServer) : res SelectServer :=
  match recv sock with
  | Got d => r ← reply_to d; Ok (mkSel (s_sock s) (fdarray s) (log_reply sock r (s_log s)))
  | Closed | Failed => Ok (mkSel (s_sock s) (<[pos := -1]> (fdarray s)) (log_close sock (s_log s)))
  end.
(** [handler], from slot [i] on, [n] slots. *)
Fixpoint select_handler (n i : nat) (rfds : gset Z) (s : SelectServer) : res SelectServer :=
  match n with
  | O => Ok s
  | S n =>
      match fdarray s !! i with
      | None => Err OutOfBounds
      | Some fd =>
          s ← (if fd =? -1 then Ok s
               else if bool_decide (fd ∈ rfds) && (fd =? s_sock s) then Ok (select_Accept s)
               else if bool_decide (fd ∈ rfds) then select_Recver fd i s
               else Ok s);
          select_handler n (S i) rfds s
      end
  end.
(** [FD_SET] of each descriptor, which must be below the size of the set. *)
Fixpoint fd_sets (fds : list Z) : res (gset Z) :=
  match fds with
  | [] => Ok ∅
  | fd :: fds =>
      if fd =? -1 then fd_sets fds
      else if (0 <=? fd) && (fd <? Z.of_nat fdnum) then l ← fd_sets fds; Ok ({[fd]} ∪ l) else Err OutOfBounds
  end.
(** One pass of [Start]; [ready] is what [select] leaves of the set. *)
Definition select_round (ready : gset Z) (s : SelectServer) : res SelectServer :=
  rfds ← fd_sets (fdarray s); select_handler fdnum 0 (rfds ∩ ready) s.

(** ** [poll] *)
Definition num : nat := 2048.
Definition POLLIN : Z := 1.
Record pollfd := mkPoll { fd_ : Z; events : Z; revents : Z }.
Record pollServer := mkPS { p_sock : Z; _rfds : list pollfd; p_log : log }.
Definition free_pollfd : pollfd := mkPoll (-1) 0 0.
Definition poll_Init (sock : Z) : pollServer := mkPS sock (<[0%nat := mkPoll sock POLLIN 0]> (replicate num free_pollfd)) no_log.
(** [poll]: [revents] of a negative descriptor is 0. *)
Definition sys_poll (ready : Z → Z) (fds : list pollfd) : list pollfd :=
  (λ p, mkPoll (fd_ p) (events p) (if fd_ p <? 0 then 0 else ready (fd_ p))) <$> fds.

Definition poll_Accept (s : pollServer) : pollServer :=
  if accepted <? 0 then s
  else
    match free_slot (fd_ <$> _rfds s) with
    | None => mkPS (p_sock s) (_rfds s) (log_lost accepted (p_log s))
    | Some i => mkPS (p_sock s) (alter (λ p, mkPoll accepted POLLIN (revents p)) i (_rfds s)) (p_log s)
    end.
Definition poll_Recver (pos : nat) (s : pollServer) : res pollServer :=
  match _rfds s !! pos with
  | None => Err OutOfBounds
  | Some p =>
      match recv (fd_ p) with
      | Got d => r ← reply_to d; Ok (mkPS (p_sock s) (_rfds s) (log_reply (fd_ p) r (p_log s)))
      | Closed | Failed => Ok (mkPS (p_sock s) (<[pos := free_pollfd]> (_rfds s)) (log_close (fd_ p) (p_log s)))
      end
  end.
Fixpoint poll_handler (n i : nat) (s : pollServer) : res pollServer :=
  match n with
  | O => Ok s
  | S n =>
      match _rfds s !! i with
      | None => Err OutOfBounds
      | Some p =>
          s ← (if fd_ p =? -1 then Ok s
               else if negb (events p =? POLLIN) then Ok s
               else if (fd_ p =? p_sock s) && negb (Z.land (revents p) POLLIN =? 0) then Ok (poll_Accept s)
               else if negb (Z.land (revents p) POLLIN =? 0) then poll_Recver i s
               else Ok s);
          poll_handler n (S i) s
      end
  end.
Definition poll_round (ready : Z → Z) (s : pollServer) : res pollServer :=
  poll_handler num 0 (mkPS (p_sock s) (sys_poll ready (_rfds s)) (p_log s)).

(** ** [epoll] *)
Record epollServer := mkES { e_sock : Z; interest : gmap Z Z; e_log : log }.
Definition epoll_Init (sock : Z) : epollServer := mkES sock (epoll_ctl EPOLL_CTL_ADD sock EPOLLIN ∅) no_log.
Definition epoll_Accept (s : epollServer) : epollServer :=
  if accepted <? 0 then s
  else mkES (e_sock s) (epoll_ctl EPOLL_CTL_ADD accepted EPOLLIN (interest s)) (e_log s).
Definition epoll_reader (sock : Z) (s : epollServer) : res epollServer :=
  match recv sock with
  | Got d => r ← reply_to d; Ok (mkES (e_sock s) (interest s) (log_reply sock r (e_log s)))
  | Closed | Failed => Ok (mkES (e_sock s) (epoll_ctl EPOLL_CTL_DEL sock 0 (interest s)) (log_close sock (e_log s)))
  end.
Fixpoint epoll_handler (revs : list (Z * Z)) (s : epollServer) : res epollServer :=
  match revs with
  | [] => Ok s
  | (sock, events) :: revs =>
      s ← (if (sock =? e_sock s) && has_bit events EPOLLIN then Ok (epoll_Accept s)
           else if has_bit events EPOLLIN then epoll_reader sock s
           else Ok s);
      epoll_handler revs s
  end.

(** ** What a round does to the clients that are ready *)
Definition answers (rs : list Z) : list (Z * str) :=
  omap (λ fd, match recv fd with Got d => Some (fd, fun_ (c_str d)) | _ => None end) rs.
Definition hangups (rs : list Z) : list Z := omap (λ fd, match recv fd with Got _ => None | _ => Some fd end) rs.
Definition log_round (rs : list Z) (l : log) : log := mkLog (replies l ++ answers rs) (closed l ++ hangups rs) (lost l).
(** No read fills the buffer. *)
Definition reads_fit : Prop := ∀ fd d, recv fd = Got d → (length d < BUFFER_SIZE)%nat.

Lemma log_round_nil l : log_round [] l = l.
Proof. unfold log_round. cbn. rewrite !app_nil_r. by destruct l. Qed.
Lemma log_round_app r1 r2 l : log_round (r1 ++ r2) l = log_round r2 (log_round r1 l).
Proof. unfold log_round, answers, hangups. cbn. by rewrite !omap_app, !app_assoc. Qed.
Lemma hangups_app r1 r2 : hangups (r1 ++ r2) = hangups r1 ++ hangups r2.
Proof. apply omap_app. Qed.
Lemma answers_one fd : answers [fd] = match recv fd with Got d => [(fd, fun_ (c_str d))] | _ => [] end.
Proof. unfold answers. cbn. by destruct (recv fd). Qed.
Lemma hangups_one fd : hangups [fd] = match recv fd with Got _ => [] | _ => [fd] end.
Proof. unfold hangups. cbn. by destruct (recv fd). Qed.
Lemma reply_to_ok fd d : reads_fit → recv fd = Got d → reply_to d = Ok (fun_ (c_str d)).
Proof. intros Hf Hd. unfold reply_to. by rewrite (proj2 (Nat.ltb_lt _ _)) by (by eapply Hf). Qed.
Lemma hangups_in fd rs : fd ∈ hangups rs ↔ fd ∈ rs ∧ (∀ d, recv fd ≠ Got d).
Proof.
  unfold hangups. rewrite list_elem_of_omap. split.
  - intros (x & Hx & E). destruct (recv x) as [d| |] eqn:Er; simplify_eq; by split; [|intros d; rewrite Er].
  - intros [Hin Hn]. exists fd. split; [done|]. destruct (recv fd) as [d| |]; [by destruct (Hn d)|done..].
Qed.

(** What is left of a slot. *)
Definition after_read (ready : Z → bool) (fd : Z) : Z :=
  if decide (fd = -1) then -1
  else if ready fd then match recv fd with Got _ => fd | _ => -1 end else fd.
Definition ready_clients (ready : Z → bool) (fds : list Z) : list Z := filter (λ fd, fd ≠ -1 ∧ ready fd = true) fds.

(** *** [select] *)
Lemma select_slots rfds suf pre sock l :
  reads_fit → sock ∉ suf →
  select_handler (length suf) (length pre) rfds (mkSel sock (pre ++ suf) l) =
    Ok (mkSel sock (pre ++ (after_read (λ fd, bool_decide (fd ∈ rfds)) <$> suf))
          (log_round (ready_clients (λ fd, bool_decide (fd ∈ rfds)) suf) l)).
Proof.
  intros Hfit. revert pre l. induction suf as [|fd suf IH]; intros pre l Hs.
  { cbn. by rewrite log_round_nil. }
  apply not_elem_of_cons in Hs as [Hne Hs]. cbn [length select_handler fdarray]. rewrite list_lookup_middle by done. cbn [s_sock].
  assert (Hgo : ∀ fd' l', select_handler (length suf) (S (length pre)) rfds (mkSel sock (pre ++ fd' :: suf) l') =
    Ok (mkSel sock (pre ++ fd' :: (after_read (λ fd, bool_decide (fd ∈ rfds)) <$> suf))
          (log_round (ready_clients (λ fd, bool_decide (fd ∈ rfds)) suf) l'))).
  { intros fd' l'. specialize (IH (pre ++ [fd']) l' Hs). rewrite length_app, Nat.add_1_r in IH. by rewrite <- !app_assoc in IH. }
  rewrite fmap_cons. unfold ready_clients. rewrite filter_cons. unfold after_read at 1.
  destruct (Z.eqb_spec fd (-1)) as [->|Hfd].
  { rewrite decide_True, decide_False by naive_solver. apply Hgo. }
  rewrite (decide_False (P := fd = -1)) by done. rewrite (proj2 (Z.eqb_neq fd sock)), andb_false_r by done.
  case_bool_decide as Hr; [|rewrite decide_False by naive_solver; apply Hgo].
  rewrite decide_True by done. change (fd :: ?x) with ([fd] ++ x). rewrite log_round_app.
  unfold select_Recver, log_round at 2, answers, hangups. cbn. destruct (recv fd) as [d| |] eqn:Er.
  - rewrite (reply_to_ok fd d Hfit Er). cbn. rewrite app_nil_r. apply Hgo.
  - cbn. rewrite insert_app_r_alt, Nat.sub_diag by lia. cbn. rewrite app_nil_r. apply Hgo.
  - cbn. rewrite insert_app_r_alt, Nat.sub_diag by lia. cbn. rewrite app_nil_r. apply Hgo.
Qed.

(** The listening socket in the first slot, and distinct clients below 1024. *)
Record select_ok (s : SelectServer) : Prop := {
  sl_slots : ∃ clients, fdarray s = s_sock s :: clients ∧ length clients = 1023%nat;
  sl_range : ∀ i fd, fdarray s !! i = Some fd → fd = -1 ∨ 3 ≤ fd < 1024;
  sl_inj : ∀ i j fd, fdarray s !! i = Some fd → fdarray s !! j = Some fd → fd ≠ -1 → i = j;
  sl_sock : s_sock s ≠ -1;
}.
(** The descriptors that are watched. *)
Definition watched (s : SelectServer) : gset Z := list_to_set (filter (.≠ -1) (fdarray s)).

Lemma inter_sub (X Y : gset Z) : Y ⊆ X → X ∩ Y = Y.
Proof. set_solver. Qed.

Lemma watched_in s fd : fd ∈ watched s ↔ fd ≠ -1 ∧ fd ∈ fdarray s.
Proof. unfold watched. by rewrite elem_of_list_to_set, list_elem_of_filter. Qed.

Lemma fd_sets_ok fds :
  Forall (λ fd, fd = -1 ∨ 3 ≤ fd < 1024) fds → fd_sets fds = Ok (list_to_set (filter (.≠ -1) fds)).
Proof.
  induction 1 as [|fd fds Hfd Hfds IH]; [done|]. cbn [fd_sets]. rewrite filter_cons.
  destruct (Z.eqb_spec fd (-1)) as [->|Hne]; [by rewrite decide_False by naive_solver|].
  rewrite decide_True by done. destruct Hfd as [?|Hfd]; [done|].
  rewrite (proj2 (Z.leb_le 0 fd)), (proj2 (Z.ltb_lt fd (Z.of_nat fdnum))) by (unfold fdnum; lia). cbn [andb]. by rewrite IH.
Qed.

(** Fewer descriptors than slots: one is free. *)
Lemma select_has_room s : select_ok s → ∃ i, free_slot (fdarray s) = Some i ∧ (0 < i)%nat ∧ fdarray s !! i = Some (-1).
Proof.
  intros [(clients & Hf & Hl) Hr Hi Hs]. unfold free_slot. destruct (list_find (.= -1) (fdarray s)) as [[i fd]|] eqn:E.
  - apply list_find_Some in E as (H1 & -> & _). exists i. split; [done|]. split; [|done].
    destruct i; [|lia]. rewrite Hf in H1. cbn in H1. congruence.
  - exfalso. apply list_find_None in E. rewrite Forall_forall in E.
    assert (Hnd : NoDup (fdarray s)).
    { apply NoDup_alt. intros i j fd H1 H2. eapply Hi; [done|done|]. apply E. by eapply list_elem_of_lookup_2. }
    assert (Hsub : fdarray s ⊆+ seqZ 3 1021).
    { apply NoDup_submseteq; [done|]. intros fd [i Hin]%list_elem_of_lookup. apply elem_of_seqZ.
      destruct (Hr _ _ Hin) as [->|?]; [|lia]. exfalso. apply (E (-1)); [by eapply list_elem_of_lookup_2|done]. }
    apply submseteq_length in Hsub. rewrite length_seqZ, Hf in Hsub. cbn [length] in Hsub. rewrite Hl in Hsub.
    change (Z.to_nat 1021) with 1021%nat in Hsub. lia.
Qed.

Lemma filter_insert_out {A} (P : A → Prop) `{∀ x, Decision (P x)} (l : list A) i x y :
  l !! i = Some x → ¬ P x → ¬ P y → filter P (<[i := y]> l) = filter P l.
Proof.
  revert i. induction l as [|z l IH]; intros i Hi Hx Hy; [done|]. destruct i as [|i]; cbn in Hi; cbn [insert list_insert].
  - injection Hi as ->. by rewrite !filter_cons_False.
  - specialize (IH i Hi Hx Hy). rewrite !filter_cons. case_decide; [f_equal; exact IH|exact IH].
Qed.

(** Slots after reading are the same or free. *)
Lemma after_read_cases ready fd : after_read ready fd = fd ∨ after_read ready fd = -1.
Proof. unfold after_read. repeat case_decide; [by right|]. destruct (ready fd), (recv fd); by auto. Qed.
Lemma select_ok_read ready s l :
  select_ok s → select_ok (mkSel (s_sock s) (match fdarray s with [] => [] | fd :: cl => fd :: (after_read ready <$> cl) end) l).
Proof.
  intros [(cl & Hf & Hl) Hr Hi Hs]. rewrite Hf in *.
  assert (Hold : ∀ i fd, (s_sock s :: (after_read ready <$> cl)) !! i = Some fd → fd = -1 ∨ (s_sock s :: cl) !! i = Some fd).
  { intros [|i] fd; [by right|]. change ((after_read ready <$> cl) !! i = Some fd → fd = -1 ∨ cl !! i = Some fd).
    rewrite list_lookup_fmap. destruct (cl !! i) as [x|]; [|done]. cbn. intros [= <-].
    destruct (after_read_cases ready x) as [->| ->]; auto. }
  split; cbn.
  - exists (after_read ready <$> cl). by rewrite length_fmap.
  - intros i fd H. destruct (Hold _ _ H) as [|H']; [by left|by eapply Hr].
  - intros i j fd H1 H2 Hne. destruct (Hold _ _ H1) as [|H1']; [done|]. destruct (Hold _ _ H2) as [|H2']; [done|]. by eapply Hi.
  - done.
Qed.

Lemma select_ok_accept s :
  select_ok s → accepted < 0 ∨ (3 ≤ accepted < 1024 ∧ accepted ∉ watched s) →
  ∃ cl cl1, fdarray s = s_sock s :: cl ∧ select_Accept s = mkSel (s_sock s) (s_sock s :: cl1) (s_log s) ∧
    select_ok (select_Accept s) ∧ (∀ fd, fd ≠ -1 → fd ∈ cl1 ↔ fd ∈ cl ∨ (fd = accepted ∧ 0 ≤ accepted)) ∧
    ∀ ready, ready accepted = false → ready_clients ready cl1 = ready_clients ready cl.
Proof.
  intros Hok Ha. pose proof Hok as [(cl & Hf & Hl) Hr Hi Hs]. exists cl. unfold select_Accept.
  destruct (Z.ltb_spec accepted 0) as [Hneg|Hpos].
  { exists cl. split; [done|]. split; [by rewrite <- Hf; destruct s|]. split; [done|]. split; [|done].
    intros fd Hfd. split; [by left|]. intros [?|[-> ?]]; [done|lia]. }
  destruct Ha as [?|[Ha Hw]]; [lia|]. destruct (select_has_room s Hok) as (i & Hfree & Hi0 & Hslot). rewrite Hfree.
  destruct i as [|i]; [lia|]. rewrite Hf in Hslot |- *. change (cl !! i = Some (-1)) in Hslot. exists (<[i := accepted]> cl).
  assert (Hlt : (i < length cl)%nat) by (by eapply lookup_lt_Some).
  assert (Hout : ∀ j, (s_sock s :: cl) !! j ≠ Some accepted).
  { intros j Hj. apply Hw, watched_in. split; [lia|]. rewrite Hf. by eapply list_elem_of_lookup_2. }
  assert (Hold : ∀ j fd, (s_sock s :: <[i := accepted]> cl) !! j = Some fd → (j = S i ∧ fd = accepted) ∨ (s_sock s :: cl) !! j = Some fd).
  { intros [|j] fd; [by right|]. change (<[i := accepted]> cl !! j = Some fd → (S j = S i ∧ fd = accepted) ∨ cl !! j = Some fd).
    intros [(-> & -> & _)|[_ ?]]%list_lookup_insert_Some; auto. }
  split; [done|]. split; [done|]. split; [|split].
  - split; cbn.
    + exists (<[i := accepted]> cl). by rewrite length_insert.
    + intros j fd Hj. destruct (Hold _ _ Hj) as [[_ ->]|Hj']; [by right|]. rewrite <- Hf in Hj'. by eapply Hr.
    + intros j k fd Hj Hk Hne. destruct (Hold _ _ Hj) as [[-> ->]|Hj'], (Hold _ _ Hk) as [[-> E]|Hk']; simplify_eq; try done.
      * by destruct (Hout k).
      * by destruct (Hout j).
      * rewrite <- Hf in Hj', Hk'. by eapply Hi.
    + done.
  - intros fd Hfd. rewrite !list_elem_of_lookup. split.
    + intros [j [(-> & -> & _)|[_ ?]]%list_lookup_insert_Some]; [by right|by left; exists j].
    + intros [[j Hj]|[-> _]]; [|exists i; by apply list_lookup_insert_eq]. exists j. rewrite list_lookup_insert_ne; [done|].
      intros <-. congruence.
  - intros ready Hra. unfold ready_clients. eapply filter_insert_out; [exact Hslot|naive_solver|]. intros [_ H']. congruence.
Qed.

Lemma ready_clients_NoDup rd fds :
  (∀ i j fd, fds !! i = Some fd → fds !! j = Some fd → fd ≠ -1 → i = j) → NoDup (ready_clients rd fds).
Proof.
  unfold ready_clients. induction fds as [|x fds IH]; intros Hc; [constructor|]. rewrite filter_cons.
  assert (IH' : NoDup (filter (λ fd, fd ≠ -1 ∧ rd fd = true) fds)).
  { apply IH. intros i j fd H1 H2 Hne. assert (S i = S j); [|lia]. by eapply (Hc (S i) (S j) fd). }
  case_decide as Hx; [|done]. constructor; [|done]. intros [_ [j Hj]%list_elem_of_lookup]%list_elem_of_filter.
  assert (0%nat = S j); [|lia]. by eapply (Hc 0%nat (S j) x); [..|apply Hx].
Qed.

(** The listening socket is not in a later slot, and later slots are distinct. *)
Lemma select_ok_tail s cl :
  select_ok s → fdarray s = s_sock s :: cl →
  (s_sock s ∉ cl) ∧ ∀ i j fd, cl !! i = Some fd → cl !! j = Some fd → fd ≠ -1 → i = j.
Proof.
  intros [_ _ Hi Hs] Hf. rewrite Hf in Hi. split.
  - intros [j Hj]%list_elem_of_lookup. assert (0%nat = S j); [|lia]. by eapply (Hi 0%nat (S j) (s_sock s)).
  - intros i j fd H1 H2 Hne. assert (S i = S j); [|lia]. by eapply (Hi (S i) (S j) fd).
Qed.

(** The first slot: the new connection is put into a later one. *)
Lemma select_first ready s cl :
  select_ok s → fdarray s = s_sock s :: cl → ready ⊆ watched s →
  accepted < 0 ∨ (3 ≤ accepted < 1024 ∧ accepted ∉ watched s) →
  ∃ cl1, let s1 := mkSel (s_sock s) (s_sock s :: cl1) (s_log s) in
    select_handler fdnum 0 ready s = select_handler (length cl1) 1 ready s1 ∧ select_ok s1 ∧
    ready_clients (λ fd, bool_decide (fd ∈ ready)) cl1 = ready_clients (λ fd, bool_decide (fd ∈ ready)) cl ∧
    ∀ fd, fd ≠ -1 → fd ∈ cl1 ↔ fd ∈ cl ∨ (fd = accepted ∧ 0 ≤ accepted ∧ s_sock s ∈ ready).
Proof.
  intros Hok Hf Hsub Ha. pose proof Hok as [(cl' & Hf' & Hl) Hr Hi Hs]. rewrite Hf in Hf'. injection Hf' as <-.
  destruct (select_ok_accept s Hok Ha) as (cl' & cl1 & Hf' & HA & HA' & Hcl1 & Hrc). rewrite Hf in Hf'. injection Hf' as <-.
  assert (Hl1 : length cl1 = length cl).
  { rewrite HA in HA'. destruct HA' as [(x & [= <-] & ?) _ _ _]. by rewrite Hl. }
  replace fdnum with (S (length cl)) by (by rewrite Hl). cbn [select_handler]. rewrite Hf.
  change ((s_sock s :: cl) !! 0%nat) with (Some (s_sock s)). cbn beta iota.
  rewrite (proj2 (Z.eqb_neq _ _) Hs), Z.eqb_refl, andb_true_r. case_bool_decide as Hsr.
  - exists cl1. cbv zeta. cbn [mbind res_bind]. rewrite HA in HA' |- *. split; [by rewrite Hl1|]. split; [done|]. split.
    + apply Hrc. apply bool_decide_eq_false. intros Hin%Hsub. destruct Ha as [?|[_ Hw]]; [|done].
      apply watched_in in Hin as [? [j Hj]%list_elem_of_lookup]. apply Hr in Hj. lia.
    + intros fd Hfd. rewrite (Hcl1 fd Hfd). naive_solver.
  - exists cl. cbv zeta. cbn [mbind res_bind]. rewrite <- Hf. split; [by destruct s|]. split; [by destruct s|]. split; [done|].
    naive_solver.
Qed.

(** A client is still there after its slot was read, unless it has gone. *)
Lemma after_read_in rd (cl : list Z) fd :
  fd ≠ -1 → fd ∈ (after_read rd <$> cl) ↔ fd ∈ cl ∧ (rd fd = true → ∃ d, recv fd = Got d).
Proof.
  intros Hne. rewrite list_elem_of_fmap. split.
  - intros (x & -> & Hx). destruct (after_read_cases rd x) as [E|]; [|done]. rewrite E in Hne |- *. split; [done|].
    revert E. unfold after_read. rewrite decide_False by done. intros E Hr. rewrite Hr in E.
    destruct (recv x) as [d| |]; [by eexists|by destruct Hne..].
  - intros [Hin Hg]. exists fd. split; [|done]. unfold after_read. rewrite decide_False by done.
    destruct (rd fd); [|done]. by destruct Hg as [d ->].
Qed.

(** One round of the [select] server: the array never runs out of slots; every client
    that is ready is read once and answered, or, if it has gone, closed and forgotten; the
    new connection is watched and is not read before the next round; nobody else is
    touched. *)
Theorem select_serves ready s :
  select_ok s → reads_fit → ready ⊆ watched s →
  accepted < 0 ∨ (3 ≤ accepted < 1024 ∧ accepted ∉ watched s) →
  ∃ s' rs, select_round ready s = Ok s' ∧ select_ok s' ∧ s_sock s' = s_sock s ∧
    NoDup rs ∧ (∀ fd, fd ∈ rs ↔ fd ∈ ready ∧ fd ≠ s_sock s) ∧ s_log s' = log_round rs (s_log s) ∧
    ∀ fd, fd ∈ watched s' ↔
      (fd ∈ watched s ∧ fd ∉ hangups rs) ∨ (fd = accepted ∧ 0 ≤ accepted ∧ s_sock s ∈ ready).
Proof.
  intros Hok Hfit Hsub Ha. pose proof Hok as [(cl & Hf & Hl) Hr Hi Hs].
  destruct (select_ok_tail s cl Hok Hf) as [Hsock Hdist].
  set (rd := λ fd, bool_decide (fd ∈ ready)). set (rs := ready_clients rd cl).
  assert (Hrs : ∀ fd, fd ∈ rs ↔ fd ∈ ready ∧ fd ≠ s_sock s).
  { intros fd. unfold rs, ready_clients. rewrite list_elem_of_filter. unfold rd. rewrite bool_decide_eq_true. split.
    - intros [[? ?] Hin]. split; [done|]. by intros ->.
    - intros [Hin Hne]. pose proof (Hsub _ Hin) as [Hne' Hw]%watched_in. rewrite Hf in Hw.
      apply elem_of_cons in Hw as [?|?]; [done|]. by split. }
  assert (Hset : fd_sets (fdarray s) = Ok (watched s)) by (apply fd_sets_ok, Forall_lookup; intros i fd; apply Hr).
  destruct (select_first ready s cl Hok Hf Hsub Ha) as (cl1 & H1 & H2 & H4 & H5).
  destruct (select_ok_tail _ cl1 H2 eq_refl) as [H3 _].
  exists (mkSel (s_sock s) (s_sock s :: (after_read rd <$> cl1)) (log_round rs (s_log s))), rs.
  split; [|split; [|split; [done|split; [by apply ready_clients_NoDup|split; [done|split; [done|]]]]]].
  - unfold select_round. rewrite Hset. cbn [mbind res_bind]. rewrite (inter_sub _ _ Hsub).
    rewrite H1. rewrite (select_slots ready cl1 [s_sock s]) by done. by rewrite H4.
  - exact (select_ok_read rd _ (log_round rs (s_log s)) H2).
  - intros fd. destruct (decide (fd = -1)) as [->|Hne].
    { rewrite !watched_in. split; [by intros [? _]|]. intros [[[? _] _]|[<- [? _]]]; [done|lia]. }
    rewrite !watched_in. cbn [fdarray]. rewrite Hf, hangups_in, Hrs, !elem_of_cons, (after_read_in rd cl1 fd Hne), (H5 fd Hne).
    unfold rd. rewrite bool_decide_eq_true. split.
    + intros [_ [->|[[Hin|?] Hg]]]; [left; split; [by auto|]; intros [[_ ?] _]; done| |by right]. left. split; [by auto|]. intros [[Hin' _] Hno].
      destruct (Hg Hin') as [d Hd]. by destruct (Hno d).
    + intros [[[_ Hin] Hno]|(-> & Hp & Hin)]; (split; [done|]).
      * destruct (decide (fd = s_sock s)) as [->|Hns]; [by left|]. right. destruct Hin as [?|Hin]; [done|]. split; [by left|].
        intros Hrdy. destruct (recv fd) as [d| |] eqn:Er; [by eexists|exfalso; apply Hno..]; (split; [by split|]); intros d; congruence.
      * right. split; [by right|]. intros Hin'%Hsub. destruct Ha as [?|[_ Hw]]; [lia|done].
Qed.

Lemma free_slot_lookup fds i : free_slot fds = Some i → fds !! i = Some (-1) ∧ (i < length fds)%nat.
Proof.
  unfold free_slot. destruct (list_find (.= -1) fds) as [[k x]|] eqn:E; [|done]. intros [= <-].
  apply list_find_Some in E as (H1 & -> & _). split; [done|]. by eapply lookup_lt_Some.
Qed.
Lemma free_slot_cons fd fds : fd ≠ -1 → free_slot (fd :: fds) = S <$> free_slot fds.
Proof.
  intros Hne. unfold free_slot. cbn [list_find]. rewrite decide_False by done. by destruct (list_find _ fds) as [[i x]|].
Qed.

(** *** [poll] *)
Definition readable (p : pollfd) : bool := negb (Z.land (revents p) POLLIN =? 0).
Definition after_poll (p : pollfd) : pollfd :=
  if decide (fd_ p = -1) then p
  else if readable p then match recv (fd_ p) with Got _ => p | _ => free_pollfd end else p.
Definition polled (fds : list pollfd) : list Z := fd_ <$> filter (λ p, fd_ p ≠ -1 ∧ readable p = true) fds.

Lemma poll_slots suf pre sock l :
  reads_fit → Forall (λ p, (fd_ p = -1 ∨ events p = POLLIN) ∧ fd_ p ≠ sock) suf →
  poll_handler (length suf) (length pre) (mkPS sock (pre ++ suf) l) =
    Ok (mkPS sock (pre ++ (after_poll <$> suf)) (log_round (polled suf) l)).
Proof.
  intros Hfit Hs. revert pre l. induction Hs as [|p suf [Hev Hne] Hs IH]; intros pre l.
  { cbn. by rewrite log_round_nil. }
  cbn [length poll_handler _rfds]. rewrite list_lookup_middle by done. cbn [p_sock].
  assert (Hgo : ∀ p' l', poll_handler (length suf) (S (length pre)) (mkPS sock (pre ++ p' :: suf) l') =
    Ok (mkPS sock (pre ++ p' :: (after_poll <$> suf)) (log_round (polled suf) l'))).
  { intros p' l'. specialize (IH (pre ++ [p']) l'). rewrite length_app, Nat.add_1_r in IH. by rewrite <- !app_assoc in IH. }
  rewrite fmap_cons. unfold polled. rewrite filter_cons. unfold after_poll at 1.
  destruct (Z.eqb_spec (fd_ p) (-1)) as [E|Hfd].
  { rewrite decide_True, decide_False by (by (intros [? _]) || done). apply Hgo. }
  rewrite (decide_False (P := fd_ p = -1)) by done. destruct Hev as [?|Hev]; [done|]. rewrite Hev. cbn [Z.eqb POLLIN negb].
  rewrite (proj2 (Z.eqb_neq (fd_ p) sock)) by done. cbn [andb]. fold (readable p). destruct (readable p) eqn:Er.
  2: { rewrite decide_False by (by intros [_ ?]). apply Hgo. }
  rewrite decide_True by done. rewrite fmap_cons. change (fd_ p :: ?x) with ([fd_ p] ++ x). rewrite log_round_app.
  unfold poll_Recver, log_round at 2, answers, hangups. cbn [_rfds]. rewrite list_lookup_middle by done. cbn.
  destruct (recv (fd_ p)) as [d| |] eqn:Ed.
  - rewrite (reply_to_ok (fd_ p) d Hfit Ed). cbn. rewrite app_nil_r. apply Hgo.
  - cbn. rewrite insert_app_r_alt, Nat.sub_diag by lia. cbn. rewrite app_nil_r. apply Hgo.
  - cbn. rewrite insert_app_r_alt, Nat.sub_diag by lia. cbn. rewrite app_nil_r. apply Hgo.
Qed.

Definition slot_ok (p : pollfd) : Prop := fd_ p = -1 ∨ (0 ≤ fd_ p ∧ events p = POLLIN).
(** The listening socket in the first slot; the descriptors in the others. *)
Record poll_ok (s : pollServer) (cl : list pollfd) : Prop := {
  pl_slots : ∃ p, _rfds s = p :: cl ∧ fd_ p = p_sock s ∧ events p = POLLIN;
  pl_length : length cl = 2047%nat;
  pl_ok : Forall slot_ok cl;
  pl_sock : 0 ≤ p_sock s ∧ p_sock s ∉ (fd_ <$> cl);
}.

Section PollRound.
Context (ready : Z → Z).
Definition poll_ready (fd : Z) : bool := negb (Z.land (ready fd) POLLIN =? 0).
Definition seen (p : pollfd) : pollfd := mkPoll (fd_ p) (events p) (if fd_ p <? 0 then 0 else ready (fd_ p)).

Lemma after_poll_seen p : slot_ok p → fd_ (after_poll (seen p)) = after_read poll_ready (fd_ p) ∧ slot_ok (after_poll (seen p)).
Proof.
  intros Hp. unfold after_poll, after_read. cbn [seen fd_]. case_decide as E; [by split; [|left]|].
  destruct Hp as [?|[Hpos Hev]]; [done|]. unfold readable, poll_ready. cbn [seen revents].
  rewrite (proj2 (Z.ltb_ge _ _) Hpos). destruct (negb _); [|split; [done|by right]].
  destruct (recv (fd_ p)); (split; [done|]); [by right|by left..].
Qed.
Lemma polled_seen cl : Forall slot_ok cl → polled (seen <$> cl) = ready_clients poll_ready (fd_ <$> cl).
Proof.
  unfold polled, ready_clients. induction 1 as [|p cl Hp Hcl IH]; [done|]. rewrite !fmap_cons, !filter_cons. cbn [seen fd_].
  destruct (decide (fd_ p = -1)) as [E|E]; [by rewrite !decide_False by (by intros [? _])|].
  destruct Hp as [?|[Hpos _]]; [done|].
  assert (Hr : readable (seen p) = poll_ready (fd_ p)) by (unfold readable, poll_ready; cbn; by rewrite (proj2 (Z.ltb_ge _ _) Hpos)).
  rewrite Hr. destruct (poll_ready (fd_ p)); [rewrite !decide_True by done|by rewrite !decide_False by (by intros [_ ?])].
  rewrite fmap_cons. cbn [fd_]. by rewrite IH.
Qed.

Definition put {A} (j : option nat) (x : A) (xs : list A) : list A := match j with Some j => <[j := x]> xs | None => xs end.
(** The later slots, when the first one has been dealt with: slot [j], if any, was free and
    now has the new connection, which is not read. *)
Lemma poll_rest cl j sock p0 l :
  reads_fit → Forall slot_ok cl → sock ∉ (fd_ <$> cl) → 0 ≤ sock →
  match j with None => True | Some j => fd_ <$> cl !! j = Some (-1) ∧ 0 ≤ accepted ∧ accepted ≠ sock end →
  ∃ cl', poll_handler (length cl) 1 (mkPS sock (p0 :: put j (mkPoll accepted POLLIN 0) (seen <$> cl)) l) =
           Ok (mkPS sock (p0 :: cl') (log_round (ready_clients poll_ready (fd_ <$> cl)) l)) ∧
    Forall slot_ok cl' ∧ length cl' = length cl ∧ fd_ <$> cl' = put j accepted (after_read poll_ready <$> (fd_ <$> cl)).
Proof.
  intros Hfit Hok Hs Hs0 Hj. set (cl1 := put j (mkPoll accepted POLLIN 0) (seen <$> cl)).
  assert (Hl : length cl1 = length cl) by (unfold cl1, put; destruct j; by rewrite ?length_insert, length_fmap).
  assert (Hseen : Forall (λ p, (fd_ p = -1 ∨ events p = POLLIN) ∧ fd_ p ≠ sock) (seen <$> cl)).
  { apply Forall_fmap. rewrite Forall_forall in Hok |- *. intros p Hp. cbn. split; [destruct (Hok p Hp) as [?|[_ ?]]; auto|].
    intros E. apply Hs. rewrite <- E. by apply list_elem_of_fmap_2. }
  assert (H1 : Forall (λ p, (fd_ p = -1 ∨ events p = POLLIN) ∧ fd_ p ≠ sock) cl1).
  { unfold cl1, put. destruct j as [j|]; [|done]. apply Forall_insert; [done|]. cbn. split; [by right|apply Hj]. }
  exists (after_poll <$> cl1). rewrite <- Hl. rewrite (poll_slots cl1 [p0]) by done. rewrite length_fmap.
  assert (Hmap : Forall slot_ok (after_poll <$> (seen <$> cl)) ∧ fd_ <$> (after_poll <$> (seen <$> cl)) = after_read poll_ready <$> (fd_ <$> cl)).
  { clear -Hok. induction Hok as [|p cl Hp Hok [IH1 IH2]]; [done|]. destruct (after_poll_seen p Hp) as [E1 E2].
    rewrite !fmap_cons. split; [by constructor|]. by rewrite E1, IH2. }
  destruct Hmap as [Hm1 Hm2].
  destruct j as [j|]; unfold cl1, put; [|by rewrite polled_seen by done].
  destruct Hj as (Hfree & Ha & _). rewrite list_fmap_insert.
  assert (E : after_poll (mkPoll accepted POLLIN 0) = mkPoll accepted POLLIN 0).
  { unfold after_poll. cbn. by case_decide. }
  rewrite E. split; [|split; [apply Forall_insert; [done|by right]|split; [by rewrite length_insert|by rewrite list_fmap_insert, Hm2]]].
  do 3 f_equal. rewrite <- polled_seen by done. unfold polled. f_equal.
  destruct (cl !! j) as [q|] eqn:Eq; [|done]. injection Hfree as Hq.
  eapply filter_insert_out; [by rewrite list_lookup_fmap, Eq|cbn; by intros [? _]|by intros [_ ?]].
Qed.

(** One round of the [poll] server does to the descriptors in its slots what a round of the
    [select] server does: ready clients are answered or forgotten, the new connection takes
    the first free slot and is not read; when no slot is free it is lost: neither
    watched nor closed. *)
Theorem poll_serves s cl :
  poll_ok s cl → reads_fit → accepted < 0 ∨ (0 ≤ accepted ∧ accepted ≠ p_sock s) →
  let fds := fd_ <$> cl in
  let accepts := poll_ready (p_sock s) && (0 <=? accepted) in
  ∃ s' cl', poll_round ready s = Ok s' ∧ poll_ok s' cl' ∧ p_sock s' = p_sock s ∧
    fd_ <$> cl' = put (if accepts then free_slot fds else None) accepted (after_read poll_ready <$> fds) ∧
    p_log s' = log_round (ready_clients poll_ready fds)
                 (if accepts && bool_decide (free_slot fds = None) then log_lost accepted (p_log s) else p_log s).
Proof.
  intros [(p & Hf & Hp & Hev) Hl Hok [Hs0 Hs]] Hfit Ha fds accepts.
  set (j := if accepts then free_slot fds else None).
  set (l := if accepts && bool_decide (free_slot fds = None) then log_lost accepted (p_log s) else p_log s).
  assert (Hj : match j with None => True | Some j => fd_ <$> cl !! j = Some (-1) ∧ 0 ≤ accepted ∧ accepted ≠ p_sock s end).
  { unfold j, accepts. destruct (poll_ready (p_sock s)); [|done]. destruct (Z.leb_spec 0 accepted); [|done]. cbn [andb].
    destruct (free_slot fds) as [i|] eqn:Ef; [|done]. destruct (free_slot_lookup _ _ Ef) as [Hi _]. unfold fds in Hi.
    rewrite list_lookup_fmap in Hi. split; [done|]. split; [done|]. destruct Ha as [?|[_ ?]]; [lia|done]. }
  destruct (poll_rest cl j (p_sock s) (seen p) l Hfit Hok Hs Hs0 Hj) as (cl' & H1 & H2 & H3 & H4).
  exists (mkPS (p_sock s) (seen p :: cl') (log_round (ready_clients poll_ready fds) l)), cl'.
  split; [|split; [|done]].
  - unfold poll_round, sys_poll. replace num with (S (length cl)) by (by rewrite Hl). etrans; [|exact H1]. cbn [poll_handler _rfds].
    rewrite Hf, fmap_cons. fold (seen p). fold seen. change ((?x :: ?y) !! 0%nat) with (Some x). cbn beta iota. cbn [seen fd_ events revents p_sock].
    rewrite Hp, Hev, !Z.eqb_refl, (proj2 (Z.eqb_neq _ (-1))), (proj2 (Z.ltb_ge _ _)) by lia. cbn [Z.eqb POLLIN negb Pos.eqb].
    fold (poll_ready (p_sock s)). unfold l, j, accepts. destruct (poll_ready (p_sock s)); [|done]. cbn [andb].
    unfold poll_Accept. rewrite (Z.leb_antisym accepted 0). destruct (accepted <? 0); [done|]. cbn [negb andb mbind res_bind _rfds p_sock p_log].
    rewrite fmap_cons. cbn [seen fd_]. rewrite Hp, free_slot_cons by lia. rewrite <- list_fmap_compose. change (fd_ ∘ seen) with fd_.
    fold fds. destruct (free_slot fds) as [i|] eqn:Ef; cbn [fmap option_fmap option_map]; [|done].
    rewrite bool_decide_eq_false_2 by done. do 3 f_equal. unfold put. cbn [alter list_alter]. f_equal.
    destruct (free_slot_lookup _ _ Ef) as [Hi _]. unfold fds in Hi. rewrite list_lookup_fmap in Hi.
    destruct (cl !! i) as [q|] eqn:Eq; [|done]. injection Hi as Hq.
    apply list_eq. intros k. destruct (decide (k = i)) as [->|Hne].
    + rewrite list_lookup_alter_eq, list_lookup_fmap, Eq, list_lookup_insert_eq by (rewrite length_fmap; by eapply lookup_lt_Some).
      cbn. by rewrite Hq.
    + by rewrite list_lookup_alter_ne, list_lookup_insert_ne.
  - split; cbn; [by exists (seen p)|congruence|done|]. split; [done|]. rewrite H4.
    intros [k Hk]%list_elem_of_lookup. assert (Hr : ∀ k, (after_read poll_ready <$> fds) !! k ≠ Some (p_sock s)).
    { intros k' Hk'. rewrite list_lookup_fmap in Hk'. destruct (fds !! k') as [x|] eqn:Ex; [|done]. injection Hk' as Hk'.
      destruct (after_read_cases poll_ready x) as [E|E]; [|lia]. apply Hs. rewrite <- Hk', E. by eapply list_elem_of_lookup_2. }
    destruct j as [j|]; cbn in Hk; [|by eapply Hr]. apply list_lookup_insert_Some in Hk as [(_ & E & _)|[_ Hk]]; [|by eapply Hr].
    by destruct Hj as (_ & _ & []).
Qed.
End PollRound.

(** *** [epoll] *)
Definition epoll_ready (sock : Z) (revs : list (Z * Z)) : list Z :=
  (filter (λ e, e.1 ≠ sock ∧ has_bit e.2 EPOLLIN = true) revs).*1.
Lemma epoll_ready_in fd sock revs : fd ∈ epoll_ready sock revs → fd ∈ revs.*1.
Proof.
  intros [e [-> [_ He]%list_elem_of_filter]]%list_elem_of_fmap. by apply list_elem_of_fmap_2.
Qed.
Lemma dom_epoll_add fd ev (l : gmap Z Z) : dom (epoll_ctl EPOLL_CTL_ADD fd ev l) = {[fd]} ∪ dom l.
Proof.
  unfold epoll_ctl. destruct (l !! fd) eqn:E; [|apply dom_insert_L]. apply elem_of_dom_2 in E. set_solver.
Qed.
Lemma dom_epoll_del fd ev (l : gmap Z Z) : dom (epoll_ctl EPOLL_CTL_DEL fd ev l) = dom l ∖ {[fd]}.
Proof.
  unfold epoll_ctl. destruct (l !! fd) eqn:E; [apply dom_delete_L|]. apply not_elem_of_dom in E. set_solver.
Qed.

(** A client's event: answered, or closed and off the list. *)
Lemma epoll_reader_spec fd s :
  reads_fit → ∃ s', epoll_reader fd s = Ok s' ∧ e_sock s' = e_sock s ∧ e_log s' = log_round [fd] (e_log s) ∧
    ∀ x, x ∈ dom (interest s') ↔ x ∈ dom (interest s) ∧ x ∉ hangups [fd].
Proof.
  intros Hfit. unfold epoll_reader, log_round. rewrite answers_one, hangups_one. destruct (recv fd) as [d| |] eqn:Er.
  - rewrite (reply_to_ok fd d Hfit Er). eexists. split; [reflexivity|]. cbn [e_sock e_log interest]. rewrite app_nil_r.
    split; [done|]. split; [done|]. intros x. split; [|by intros [? _]]. intros Hx. split; [done|apply not_elem_of_nil].
  - eexists. split; [reflexivity|]. cbn [e_sock e_log interest]. rewrite app_nil_r. split; [done|]. split; [done|].
    intros x. by rewrite dom_epoll_del, elem_of_difference, elem_of_singleton, list_elem_of_singleton.
  - eexists. split; [reflexivity|]. cbn [e_sock e_log interest]. rewrite app_nil_r. split; [done|]. split; [done|].
    intros x. by rewrite dom_epoll_del, elem_of_difference, elem_of_singleton, list_elem_of_singleton.
Qed.

Lemma accept_cons sock ev (revs : list (Z * Z)) es :
  sock ≠ es ∨ has_bit ev EPOLLIN = false →
  (∃ ev', (es, ev') ∈ (sock, ev) :: revs ∧ has_bit ev' EPOLLIN = true) ↔ (∃ ev', (es, ev') ∈ revs ∧ has_bit ev' EPOLLIN = true).
Proof.
  intros Hne. split; intros (ev' & Hin & Hb); exists ev'; (split; [|done]); [|by right].
  apply elem_of_cons in Hin as [[= -> ->]|?]; [|done]. destruct Hne; congruence.
Qed.

(** One batch of the [epoll] server, the events in any order: ready clients are answered, or
    closed and taken off the kernel's list; the new connection is put on it; nobody
    else is touched. *)
Theorem epoll_serves revs s :
  reads_fit → accepted ∉ revs.*1 →
  ∃ s', epoll_handler revs s = Ok s' ∧ e_sock s' = e_sock s ∧
    e_log s' = log_round (epoll_ready (e_sock s) revs) (e_log s) ∧
    ∀ fd, fd ∈ dom (interest s') ↔
      (fd ∈ dom (interest s) ∧ fd ∉ hangups (epoll_ready (e_sock s) revs)) ∨
      (fd = accepted ∧ 0 ≤ accepted ∧ ∃ ev, (e_sock s, ev) ∈ revs ∧ has_bit ev EPOLLIN = true).
Proof.
  intros Hfit. revert s. induction revs as [|[sock ev] revs IH]; intros s Har.
  { exists s. cbn. rewrite log_round_nil. split; [done|]. split; [done|]. split; [done|]. intros fd. split.
    - intros Hin. left. split; [done|]. apply not_elem_of_nil.
    - intros [[? _]|(_ & _ & ev & []%not_elem_of_nil & _)]; done. }
  rewrite fmap_cons in Har. apply not_elem_of_cons in Har as [Hne Har]. cbn [fst] in Hne.
  cbn [epoll_handler]. unfold epoll_ready. rewrite filter_cons. cbn [fst snd].
  destruct (Z.eqb_spec sock (e_sock s)) as [->|Hs]; cbn [andb]; destruct (has_bit ev EPOLLIN) eqn:Eb.
  - rewrite decide_False by (by intros [? _]). cbn [mbind res_bind].
    destruct (IH (epoll_Accept s) Har) as (s' & H1 & H2 & H3 & H4).
    assert (Hsk : e_sock (epoll_Accept s) = e_sock s ∧ e_log (epoll_Accept s) = e_log s) by (unfold epoll_Accept; by destruct (accepted <? 0)).
    destruct Hsk as [Hsk Hlg]. rewrite Hsk in *. rewrite Hlg in H3.
    exists s'. split; [done|]. split; [done|]. split; [done|]. intros fd. rewrite H4. fold (epoll_ready (e_sock s) revs).
    assert (Hdom : fd ∈ dom (interest (epoll_Accept s)) ↔ fd ∈ dom (interest s) ∨ (fd = accepted ∧ 0 ≤ accepted)).
    { unfold epoll_Accept. destruct (Z.ltb_spec accepted 0); [split; [by left|]; intros [?|[_ ?]]; [done|lia]|].
      cbn [interest]. rewrite dom_epoll_add, elem_of_union, elem_of_singleton. split; [intros [?|?]; auto|intros [?|[? _]]; auto]. }
    rewrite Hdom. split.
    + intros [[[?|[-> ?]] ?]|(-> & ? & ev' & ? & ?)]; [by left|right|right].
      * split; [done|]. split; [done|]. exists ev. split; [by left|done].
      * split; [done|]. split; [done|]. exists ev'. split; [by right|done].
    + intros [[? ?]|(-> & ? & _)]; [left; split; [by left|done]|left]. split; [by right|].
      rewrite hangups_in. intros [Hin _]. by apply Har, (epoll_ready_in _ (e_sock s)).
  - rewrite decide_False by (by intros [_ ?]). cbn [mbind res_bind].
    destruct (IH s Har) as (s' & H1 & H2 & H3 & H4). exists s'. split; [done|]. split; [done|]. split; [done|].
    intros fd. rewrite H4. fold (epoll_ready (e_sock s) revs). by rewrite accept_cons by auto.
  - rewrite decide_True by done. rewrite fmap_cons. cbn [fst]. change (sock :: ?x) with ([sock] ++ x). rewrite log_round_app.
    destruct (epoll_reader_spec sock s Hfit) as (s1 & R1 & R2 & R3 & R4). rewrite R1. cbn [mbind res_bind].
    destruct (IH s1 Har) as (s' & H1 & H2 & H3 & H4). rewrite R2 in *. exists s'. split; [done|]. split; [done|]. split; [by rewrite H3, R3|].
    intros fd. rewrite H4, R4. fold (epoll_ready (e_sock s) revs). rewrite accept_cons by auto.
    rewrite hangups_app, not_elem_of_app. tauto.
  - rewrite decide_False by (by intros [_ ?]). cbn [mbind res_bind].
    destruct (IH s Har) as (s' & H1 & H2 & H3 & H4). exists s'. split; [done|]. split; [done|]. split; [done|].
    intros fd. rewrite H4. fold (epoll_ready (e_sock s) revs). by rewrite accept_cons by auto.
Qed.
End Servers.

(** ** The servers at the start *)
Lemma select_Init_ok sock : 3 ≤ sock < 1024 → select_ok (select_Init sock).
Proof.
  intros Hs. set (cl := replicate 1023 (-1)).
  assert (Hf : fdarray (select_Init sock) = sock :: cl) by done.
  assert (Hcl : ∀ i fd, (sock :: cl) !! i = Some fd → (i = 0%nat ∧ fd = sock) ∨ fd = -1).
  { intros [|i] fd; [intros [= <-]; by left|]. change (cl !! i = Some fd → (S i = 0%nat ∧ fd = sock) ∨ fd = -1).
    intros [-> _]%lookup_replicate. by right. }
  split; rewrite ?Hf.
  - exists cl. split; [done|]. apply length_replicate.
  - intros i fd Hi. destruct (Hcl _ _ Hi) as [[_ ->]|]; auto.
  - intros i j fd Hi Hj Hne. destruct (Hcl _ _ Hi) as [[-> _]|], (Hcl _ _ Hj) as [[-> _]|]; done.
  - cbn. lia.
Qed.
Lemma poll_Init_ok sock : 0 ≤ sock → poll_ok (poll_Init sock) (replicate 2047 free_pollfd).
Proof.
  intros Hs. split.
  - by exists (mkPoll sock POLLIN 0).
  - apply length_replicate.
  - apply Forall_replicate. by left.
  - split; [done|]. rewrite fmap_replicate. intros [E _]%elem_of_replicate. cbn in E. lia.
Qed.

(** ** Witnesses *)
Definition echo (s : str) : str := s.
Definition silent (fd : Z) : recv_res := Closed.
(** The first client connects. *)
Lemma select_serves_witness :
  ∃ s', select_round echo 4 silent {[3]} (select_Init 3) = Ok s' ∧ 4 ∈ watched s'.
Proof.
  destruct (select_serves echo 4 silent {[3]} (select_Init 3)) as (s' & rs & H1 & _ & _ & _ & _ & _ & H2).
  - by apply select_Init_ok.
  - by intros fd d.
  - intros fd ->%elem_of_singleton. apply watched_in. split; [done|by left].
  - right. split; [lia|]. rewrite watched_in. intros [_ Hin]. change (4 ∈ 3 :: replicate 1023 (-1)) in Hin.
    apply elem_of_cons in Hin as [|[? _]%elem_of_replicate]; done.
  - exists s'. split; [exact H1|]. apply H2. right. split; [done|]. split; [lia|]. by apply elem_of_singleton.
Defined.

Lemma poll_serves_witness :
  ∃ s' cl', poll_round echo 4 silent (λ _, POLLIN) (poll_Init 3) = Ok s' ∧ poll_ok s' cl'.
Proof.
  destruct (poll_serves echo 4 silent (λ _, POLLIN) (poll_Init 3) (replicate 2047 free_pollfd)) as (s' & cl' & H1 & H2 & _).
  - by apply poll_Init_ok.
  - by intros fd d.
  - right. split; [lia|done].
  - exists s', cl'. split; [exact H1|exact H2].
Defined.

Lemma epoll_serves_witness :
  ∃ s', epoll_handler echo 4 silent [(3, EPOLLIN)] (epoll_Init 3) = Ok s' ∧ 4 ∈ dom (interest s').
Proof.
  destruct (epoll_serves echo 4 silent [(3, EPOLLIN)] (epoll_Init 3)) as (s' & H1 & _ & _ & H2).
  - by intros fd d.
  - by intros [|[]%not_elem_of_nil]%elem_of_cons.
  - exists s'. split; [exact H1|]. apply H2. right. split; [done|]. split; [lia|]. exists EPOLLIN. split; [by left|done].
Defined.
