(* ===== verification/Chat.v ===== *)
(** * The UDP chat and dictionary server: src/lesson9/udp

    The table of users who are online, keyed by address and port as text, and the
    handler of a datagram; what is sent is its result.  Beside it the dictionary, read
    from the lines of a file. *)

From S2P Require Import Prelude StdString.

Open Scope Z_scope.

(** ** Users *)
Record User := mkUser { _ip : str; _port : Z }.
#[global] Instance User_eq_dec : EqDecision User.
Proof. solve_decision. Defined.

Abbreviation OnlineUser := (gmap str User).
Definition user_id (ip : str) (port : Z) : str := ip ++ lit "-" ++ to_string port.

(** [insert] keeps an entry that is there. *)
Definition add_user (ip : str) (port : Z) (_users : OnlineUser) : OnlineUser :=
  match _users !! user_id ip port with
  | Some _ => _users
  | None => <[user_id ip port := mkUser ip port]> _users
  end.
Definition deluser (ip : str) (port : Z) (_users : OnlineUser) : OnlineUser := delete (user_id ip port) _users.
Definition is_onlie (ip : str) (port : Z) (_users : OnlineUser) : bool := bool_decide (is_Some (_users !! user_id ip port)).

(** What is sent to whom. *)
Abbreviation datagram := (User * str)%type.
Definition broadcastMessage (ip : str) (port : Z) (message : str) (_users : OnlineUser) : list datagram :=
  (λ u, (u.2, ip ++ lit "-" ++ to_string port ++ lit "# " ++ message)) <$> map_to_list _users.

Definition not_online : str := lit "您还没上线，请先上线运行: online".
Definition routeMessage (clientip : str) (clientport : Z) (message : str) (online : OnlineUser) : list datagram * OnlineUser :=
  let online := if decide (message = lit "online") then add_user clientip clientport online else online in
  let online := if decide (message = lit "offine") then deluser clientip clientport online else online in
  if is_onlie clientip clientport online then (broadcastMessage clientip clientport message online, online)
  else ([(mkUser clientip clientport, not_online)], online).

(** What arrives: the sender, whose address is printed as text, and the payload. *)
Record packet := mkPacket { sender : User; payload : str }.
Definition buffer_room : nat := 1023.

(** One turn of the receiving loop: a longer payload is cut, an empty one ignored, and the
    string ends at the first NUL. *)
Definition fun_t (St : Type) : Type := str → Z → str → St → list datagram * St.
Definition receive {St} (_f : fun_t St) (p : packet) (st : St) : list datagram * St :=
  match take buffer_room (payload p) with
  | [] => ([], st)
  | s => _f (_ip (sender p)) (_port (sender p)) (c_str s) st
  end.
Fixpoint Start {St} (_f : fun_t St) (ps : list packet) (st : St) : list (list datagram) * St :=
  match ps with
  | [] => ([], st)
  | p :: ps =>
      let '(out, st) := receive _f p st in
      let '(outs, st) := Start _f ps st in (out :: outs, st)
  end.

(** ** The dictionary *)
Definition curString (cur : str) : res (option (str * str)) :=
  match find (lit ":") cur with
  | Some pos => s1 ← substr cur 0 (Z.of_nat pos); s2 ← substr_from cur (S pos); mret (Some (s1, s2))
  | None => mret None
  end.

Abbreviation dictionary := (gmap str str).
(** The loop over the lines of the file; [insert] keeps the first entry of a word. *)
Fixpoint read_dict (lines : list str) (dict : dictionary) : res dictionary :=
  match lines with
  | [] => mret dict
  | line :: lines =>
      kv ← curString line;
      read_dict lines (match kv with
                       | Some (key, value) => match dict !! key with Some _ => dict | None => <[key := value]> dict end
                       | None => dict
                       end)
  end.
(** From the lines of the file; without it the program exits. *)
Definition Init_dict (file : option (list str)) (dict : dictionary) : res (option dictionary) :=
  match file with None => Ok None | Some lines => d ← read_dict lines dict; Ok (Some d) end.
Definition handler (ip : str) (port : Z) (text : str) (dict : dictionary) : list datagram * dictionary :=
  ([(mkUser ip port, default (lit "unknow") (dict !! text))], dict).

(** ** Keys *)
Definition port_ok (u : User) : Prop := 0 ≤ _port u < 2 ^ 16.
Definition uid (u : User) : str := user_id (_ip u) (_port u).

Lemma to_string_no_dash u : port_ok u → Forall (λ c, c ≠ "-"%char) (to_string (_port u)).
Proof.
  intros Hp. unfold port_ok in Hp. unfold to_string. destruct (Z.ltb_spec (_port u) 0); [lia|].
  destruct (digits_spec 20 (_port u)) as (Hd & _); [lia|lia|].
  eapply Forall_impl; [exact Hd|]. intros c Hc. by apply is_digit_not_space.
Qed.

(** The port is what follows the last dash. *)
Lemma uid_inj u v : port_ok u → port_ok v → uid u = uid v → u = v.
Proof.
  intros Hu Hv He. unfold uid, user_id in He.
  pose proof (f_equal (rfind_char "-"%char) He) as Hl.
  change (lit "-" ++ ?x) with ("-"%char :: x) in Hl.
  rewrite !rfind_char_after in Hl by by apply to_string_no_dash.
  injection Hl as Hl. apply app_inj_1 in He as [Hip He]; [|done]. injection He as He.
  pose proof (stol_to_string (_port u)) as H1. pose proof (stol_to_string (_port v)) as H2.
  unfold port_ok in *. rewrite He, H2 in H1 by lia. destruct u, v; simpl in *.
  assert (Ok _port1 = Ok _port0) as [= ->] by (apply H1; lia). by subst.
Qed.

(** ** Who is online *)
#[global] Instance User_countable : Countable User.
Proof. refine (inj_countable' (λ u, (_ip u, _port u)) (λ p, mkUser p.1 p.2) _). by intros []. Defined.

(** The text a packet brings, if it brings one. *)
Definition text_of (p : packet) : option str :=
  match take buffer_room (payload p) with [] => None | s => Some (c_str s) end.
Definition enter (p : packet) (on : gset User) : gset User :=
  match text_of p with
  | None => on
  | Some t => if decide (t = lit "online") then {[sender p]} ∪ on
              else if decide (t = lit "offine") then on ∖ {[sender p]} else on
  end.

(** What the users should see of one packet. *)
Definition heard (p : packet) (on : gset User) (out : list datagram) : Prop :=
  match text_of p with
  | None => out = []
  | Some t =>
      if decide (sender p ∈ on) then
        out.*1 ≡ₚ elements on ∧ Forall (λ d : datagram, d.2 = uid (sender p) ++ lit "# " ++ t) out
      else out = [(sender p, not_online)]
  end.
Fixpoint all_heard (ps : list packet) (outs : list (list datagram)) (on : gset User) : Prop :=
  match ps, outs with
  | [], [] => True
  | p :: ps, out :: outs => heard p (enter p on) out ∧ all_heard ps outs (enter p on)
  | _, _ => False
  end.

(** The table holds each user who is online, under its key. *)
Definition table_of (on : gset User) (t : OnlineUser) : Prop :=
  (∀ u, u ∈ on → port_ok u) ∧ ∀ k u, t !! k = Some u ↔ u ∈ on ∧ k = uid u.

Lemma table_has on t u : table_of on t → port_ok u → is_Some (t !! uid u) ↔ u ∈ on.
Proof.
  intros [Hp Ht] Hu. split.
  - intros [v Hv]. apply Ht in Hv as [Hv He]. apply uid_inj in He; [by subst|done|by apply Hp].
  - intros Hin. exists u. by apply Ht.
Qed.

Lemma add_user_table on t u : table_of on t → port_ok u → table_of ({[u]} ∪ on) (add_user (_ip u) (_port u) t).
Proof.
  intros H Hu. pose proof H as [Hp Ht]. unfold add_user. change (user_id (_ip u) (_port u)) with (uid u).
  pose proof (table_has on t u H Hu) as Hh. replace (mkUser (_ip u) (_port u)) with u by by destruct u.
  split. { intros v [->%elem_of_singleton|Hv]%elem_of_union; [done|by apply Hp]. }
  intros k v. rewrite elem_of_union, elem_of_singleton. destruct (t !! uid u) as [w|] eqn:E.
  - assert (u ∈ on) by by apply Hh. rewrite Ht. naive_solver.
  - assert (u ∉ on). { intros Hin. apply Hh in Hin as [? Hin]. congruence. }
    destruct (decide (k = uid u)) as [->|Hk].
    + rewrite lookup_insert_eq. split; [intros [= ->]; auto|].
      intros [[->|Hv] He]; [done|]. apply uid_inj in He; [by subst|done|by apply Hp].
    + rewrite lookup_insert_ne by done. rewrite Ht. naive_solver.
Qed.

Lemma deluser_table on t u : table_of on t → port_ok u → table_of (on ∖ {[u]}) (deluser (_ip u) (_port u) t).
Proof.
  intros [Hp Ht] Hu. unfold deluser. change (user_id (_ip u) (_port u)) with (uid u). split.
  { intros v [Hv _]%elem_of_difference. by apply Hp. }
  intros k v. rewrite elem_of_difference, elem_of_singleton, lookup_delete_Some, Ht. split.
  - intros (Hne & Hv & ->). split_and!; [done| |done]. by intros ->.
  - intros ((Hv & Hne) & ->). split_and!; [|done|done]. intros He. apply Hne. symmetry.
    apply uid_inj; [done|by apply Hp|done].
Qed.

Lemma broadcast_reaches on t u m :
  table_of on t →
  (broadcastMessage (_ip u) (_port u) m t).*1 ≡ₚ elements on ∧
  Forall (λ d : datagram, d.2 = uid u ++ lit "# " ++ m) (broadcastMessage (_ip u) (_port u) m t).
Proof.
  intros [Hp Ht]. unfold broadcastMessage. split.
  - rewrite <-list_fmap_compose. apply NoDup_Permutation.
    + apply NoDup_fmap_2_strong; [|apply NoDup_map_to_list].
      intros [k v] [k' v'] H1%elem_of_map_to_list H2%elem_of_map_to_list He. simpl in He. subst v'.
      apply Ht in H1 as [_ ->]. by apply Ht in H2 as [_ ->].
    + apply NoDup_elements.
    + intros v. rewrite elem_of_elements, list_elem_of_fmap. split.
      * intros ([k w] & -> & Hin%elem_of_map_to_list). by apply Ht in Hin as [? _].
      * intros Hv. exists (uid v, v). split; [done|]. apply elem_of_map_to_list. by apply Ht.
  - apply Forall_fmap, Forall_true. intros [k v]. simpl. unfold uid, user_id. by rewrite <-!app_assoc.
Qed.

(** One packet. *)
Lemma receive_heard on t p out t' :
  table_of on t → port_ok (sender p) → receive routeMessage p t = (out, t') →
  table_of (enter p on) t' ∧ heard p (enter p on) out.
Proof.
  intros Ht Hu. unfold receive, heard, enter, text_of.
  destruct (take buffer_room (payload p)) as [|c s]; [by intros [= <- <-]|].
  set (m := c_str (c :: s)). unfold routeMessage.
  set (t1 := if decide (m = lit "offine") then _ else _).
  set (on1 := if decide (m = lit "online") then {[sender p]} ∪ on else _).
  assert (table_of on1 t1) as H1.
  { unfold t1, on1. destruct (decide (m = lit "online")) as [->|].
    - rewrite decide_False by done. by apply add_user_table.
    - destruct (decide (m = lit "offine")); [by apply deluser_table|done]. }
  clearbody t1 on1. unfold is_onlie. change (user_id (_ip (sender p)) (_port (sender p))) with (uid (sender p)).
  pose proof (table_has _ _ _ H1 Hu) as Hh. destruct (decide (sender p ∈ on1)) as [Hin|Hout].
  - rewrite bool_decide_eq_true_2 by by apply Hh. intros [= <- <-]. split; [done|]. by apply broadcast_reaches.
  - rewrite bool_decide_eq_false_2 by by rewrite Hh. intros [= <- <-]. split; [done|]. by destruct (sender p).
Qed.

Lemma table_empty : table_of ∅ ∅.
Proof. split; [set_solver|]. intros k u. rewrite lookup_empty. set_solver. Qed.

(** However packets of users with proper ports arrive, the table holds exactly the users
    whose last control word was [online]; a text of one of them reaches each user who is
    online, once, headed by its sender, and a text of another user is answered by the
    request to come online, to that user only. *)
Theorem chat_routes ps outs t :
  Forall (λ p, port_ok (sender p)) ps → Start routeMessage ps ∅ = (outs, t) →
  all_heard ps outs ∅ ∧ table_of (foldl (flip enter) ∅ ps) t.
Proof.
  intros Hps. assert (table_of ∅ ∅) as H by apply table_empty. revert H Hps.
  generalize (∅ : OnlineUser) as t0. generalize (∅ : gset User) as on. intros on t0 H Hps. revert on t0 outs t H.
  induction Hps as [|p ps Hp Hps IH]; intros on t0 outs t H Hr; simpl in Hr; [by injection Hr as <- <-|].
  destruct (receive routeMessage p t0) as [out t1] eqn:E1. destruct (Start routeMessage ps t1) as [outs1 t2] eqn:E2.
  injection Hr as <- <-. destruct (receive_heard _ _ _ _ _ H Hp E1) as [H1 Hh].
  destruct (IH _ _ _ _ H1 E2) as [Ha Hb]. by split.
Qed.
Definition alice := mkUser (lit "10.0.0.1") 8080.
Definition bob := mkUser (lit "10.0.0.2") 53.
Definition chat_day : list packet :=
  [mkPacket alice (lit "hi"); mkPacket alice (lit "online"); mkPacket bob (lit "online"); mkPacket alice (lit "offine")].
Lemma chat_routes_witness :
  let r := Start routeMessage chat_day ∅ in
  all_heard chat_day r.1 ∅ ∧ table_of (foldl (flip enter) ∅ chat_day) r.2
  ∧ bool_decide ((length <$> r.1) = [1; 1; 2; 1]%nat) = true
  ∧ bool_decide (elements (foldl (flip enter) ∅ chat_day) = [bob]) = true.
Proof.
  intros r. destruct (chat_routes chat_day r.1 r.2) as [H1 H2].
  - repeat constructor; unfold port_ok; simpl; lia.
  - apply surjective_pairing.
  - split; [exact H1|]. split; [exact H2|]. split; vm_compute; reflexivity.
Defined.

(** ** Words *)
Lemma curString_line w v : Forall (λ c, c ≠ ":"%char) w → curString (w ++ lit ":" ++ v) = Ok (Some (w, v)).
Proof.
  intros Hw. destruct (cut_around ":"%char [] w v Hw) as (H1 & H2 & H3). unfold curString.
  change (lit ":") with [":"%char]. rewrite H1, H2. cbn [mbind res_bind].
  replace (S (length w)) with (length w + length [":"%char])%nat by (simpl; lia). by rewrite H3.
Qed.

(** The meaning of a word in the entries of a file: the first. *)
Fixpoint meaning (w : str) (entries : list (str * str)) : option str :=
  match entries with
  | [] => None
  | (w', v) :: entries => if decide (w = w') then Some v else meaning w entries
  end.
Definition entry_line (e : str * str) : str := e.1 ++ lit ":" ++ e.2.

Lemma read_dict_reads es dict :
  Forall (λ e, Forall (λ c, c ≠ ":"%char) e.1) es →
  ∃ d, read_dict (entry_line <$> es) dict = Ok d ∧
    ∀ w, d !! w = match dict !! w with Some v => Some v | None => meaning w es end.
Proof.
  intros Hes. revert dict. induction Hes as [|[w v] es Hw Hes IH]; intros dict.
  { exists dict. split; [done|]. intros w. by destruct (dict !! w). }
  change (read_dict (entry_line <$> (w, v) :: es) dict) with
    (kv ← curString (w ++ lit ":" ++ v); read_dict (entry_line <$> es)
      (match kv with Some (key, value) => match dict !! key with Some _ => dict | None => <[key := value]> dict end | None => dict end)).
  rewrite curString_line by done. cbn [mbind].
  destruct (IH (match dict !! w with Some _ => dict | None => <[w := v]> dict end)) as (d & Hd & Hm).
  exists d. split; [exact Hd|]. intros x. rewrite Hm. simpl. destruct (decide (x = w)) as [->|Hne].
  - destruct (dict !! w) eqn:E; [by rewrite E|]. by rewrite lookup_insert_eq.
  - destruct (dict !! w); [done|]. by rewrite lookup_insert_ne.
Qed.

(** The server started with the dictionary answers every packet that brings a text with
    the first meaning of that word in the file, or with [unknow]. *)
Theorem dictionary_answers es ps :
  Forall (λ e, Forall (λ c, c ≠ ":"%char) e.1) es →
  ∃ d, Init_dict (Some (entry_line <$> es)) ∅ = Ok (Some d) ∧
    (Start handler ps d).1 =
      (λ p, match text_of p with
            | Some w => [(sender p, default (lit "unknow") (meaning w es))]
            | None => []
            end) <$> ps.
Proof.
  intros Hes. destruct (read_dict_reads es ∅ Hes) as (d & Hd & Hm). exists d. split; [cbn [Init_dict]; by rewrite Hd|].
  induction ps as [|p ps IH]; [done|]. rewrite fmap_cons, <-IH. cbn [Start].
  destruct (receive handler p d) as [out d'] eqn:E.
  assert (d' = d ∧ out = match text_of p with Some w => [(sender p, default (lit "unknow") (meaning w es))] | None => [] end) as [-> ->].
  { unfold receive, text_of in *. destruct (take buffer_room (payload p)) as [|c s]; injection E as <- <-; [done|].
    rewrite Hm, lookup_empty. split; [done|]. by destruct (sender p). }
  by destruct (Start handler ps d).
Qed.
Lemma dictionary_answers_witness :
  ∃ d, Init_dict (Some (entry_line <$> [(lit "apple", lit "pingguo"); (lit "apple", lit "x")])) ∅ = Ok (Some d) ∧
    (Start handler [mkPacket alice (lit "apple"); mkPacket bob (lit "pear")] d).1
      = [[(alice, lit "pingguo")]; [(bob, lit "unknow")]].
Proof.
  destruct (dictionary_answers [(lit "apple", lit "pingguo"); (lit "apple", lit "x")]
    [mkPacket alice (lit "apple"); mkPacket bob (lit "pear")]) as (d & H1 & H2).
  - repeat constructor; vm_compute; congruence.
  - exists d. split; [exact H1|]. rewrite H2. vm_compute. reflexivity.
Defined.
