(* ===== verification/HashChain.v ===== *)
(** * The chained hash tables of src/Algorithm/HashTable.hpp

    [zhc_hash::HashTable<K,T,hash,KeyOFT>], with its iterators, and
    [Hash::HashTable<K,V>], which is the same table with [T] a pair and [bool]
    results.  Each chain is owned by one slot of the vector [_stable], so a chain
    is the list of its data from the slot on. *)

From S2P Require Import Prelude StdString.

Open Scope nat_scope.

(** ** Hash functions ([HashFunc]) *)
Definition size_t_of (x : Z) : Z := (x mod 2 ^ 64)%Z.
(** [(size_t)k] for an integer key *)
Definition HashFunc_int (k : Z) : Z := size_t_of k.
(** A [char] is signed. *)
Definition char_value (c : ascii) : Z :=
  let n := Z.of_nat (nat_of_ascii c) in if (n <? 128)%Z then n else (n - 256)%Z.
Definition HashFunc_string (s : str) : Z :=
  foldl (λ n ch, size_t_of (n * 131 + char_value ch)) 0%Z s.

Section Table.
Context {K T : Type} `{Countable K} (hf : K → Z) (kot : T → K).

Record HashTable := mkTable { _stable : list (list T); _size : nat }.

(** [_stable.resize(10)] *)
Definition new_table : HashTable := mkTable (replicate 10 []) 0.

(** [hf(key) % n] *)
Definition slot (n : nat) (key : K) : nat := Z.to_nat (hf key mod Z.of_nat n)%Z.

(** The walk along a chain: [kot(cur->_data) == key] *)
Fixpoint chain_find (key : K) (chain : list T) : option T :=
  match chain with
  | [] => None
  | x :: chain => if decide (kot x = key) then Some x else chain_find key chain
  end.

(** [_stable[i]] *)
Definition bucket (t : list (list T)) (i : nat) : res (list T) :=
  match t !! i with Some c => Ok c | None => Err OutOfBounds end.

Definition find (key : K) (h : HashTable) : res (option T) :=
  c ← bucket (_stable h) (slot (length (_stable h)) key); mret (chain_find key c).

(** [cur->_next=table[index]; table[index]=cur;] *)
Definition link_front (t : list (list T)) (x : T) : res (list (list T)) :=
  let i := slot (length t) (kot x) in
  c ← bucket t i; mret (<[i := x :: c]> t).

Fixpoint move_chain (t : list (list T)) (chain : list T) : res (list (list T)) :=
  match chain with [] => mret t | x :: chain => t' ← link_front t x; move_chain t' chain end.
Fixpoint move_all (t : list (list T)) (old : list (list T)) : res (list (list T)) :=
  match old with [] => mret t | c :: old => t' ← move_chain t c; move_all t' old end.

(** [if(_size==_stable.size())] the nodes move to a table of twice the size. *)
Definition grow (h : HashTable) : res HashTable :=
  if decide (_size h = length (_stable h)) then
    t ← move_all (replicate (length (_stable h) * 2) []) (_stable h);
    mret (mkTable t (_size h))
  else mret h.

(** [insert(data)]: the node it returns an iterator to, and the flag, which is
    [false] in both cases. *)
Definition insert (data : T) (h : HashTable) : res (T * bool * HashTable) :=
  f ← find (kot data) h;
  match f with
  | Some x => mret (x, false, h)
  | None =>
      h ← grow h;
      t ← link_front (_stable h) data;
      mret (data, false, mkTable t (_size h + 1))
  end.

(** ** Iterators

    A node is named by its slot and its place in the chain. *)
Abbreviation node := (nat * nat)%type.
Definition node_data (h : HashTable) (n : node) : res T :=
  c ← bucket (_stable h) (fst n);
  match c !! (snd n) with Some x => Ok x | None => Err DanglingPtr end.

(** [while(index<_stable.size()) if(_stable[index]) break; else ++index;] *)
Fixpoint next_slot (fuel : nat) (t : list (list T)) (index : nat) : res (option node) :=
  match fuel with
  | 0 => Err OutOfFuel
  | S fuel =>
      if decide (index < length t) then
        c ← bucket t index;
        match c with [] => next_slot fuel t (S index) | _ :: _ => Ok (Some (index, 0)) end
      else Ok None
  end.

Definition begin (h : HashTable) : res (option node) :=
  next_slot (S (length (_stable h))) (_stable h) 0.

Definition iter_next (h : HashTable) (n : node) : res (option node) :=
  x ← node_data h n;
  c ← bucket (_stable h) (fst n);
  match c !! S (snd n) with
  | Some _ => Ok (Some (fst n, S (snd n)))
  | None => next_slot (S (length (_stable h))) (_stable h) (S (slot (length (_stable h)) (kot x)))
  end.

Fixpoint visit (fuel : nat) (h : HashTable) (it : option node) : res (list T) :=
  match fuel with
  | 0 => Err OutOfFuel
  | S fuel =>
      match it with
      | None => mret []
      | Some n => x ← node_data h n; it' ← iter_next h n; xs ← visit fuel h it'; mret (x :: xs)
      end
  end.

(** [for(it=begin(); it!=end(); ++it)] *)
Definition iterate (h : HashTable) : res (list T) :=
  b ← begin h; visit (S (length (concat (_stable h)))) h b.

(** ** Invariant *)

(** Every datum is in the chain its hash selects, and no key is there twice. *)
Definition placed (t : list (list T)) : Prop :=
  0 < length t ∧ ∀ i c x, t !! i = Some c → x ∈ c → slot (length t) (kot x) = i.
Definition table_ok (h : HashTable) : Prop :=
  placed (_stable h) ∧ NoDup (kot <$> concat (_stable h)).

Implicit Types (t : list (list T)) (h : HashTable).

Lemma slot_lt n k : 0 < n → slot n k < n.
Proof.
  intros Hn. unfold slot. pose proof (Z.mod_pos_bound (hf k) (Z.of_nat n)). lia.
Qed.

Lemma bucket_ok t i : i < length t → ∃ c, t !! i = Some c ∧ bucket t i = Ok c.
Proof.
  intros Hi. unfold bucket. destruct (lookup_lt_is_Some_2 t i Hi) as [c Hc]. rewrite Hc. eauto.
Qed.

Lemma concat_insert t i c c' :
  t !! i = Some c → ∃ l1 l2, concat t = l1 ++ c ++ l2 ∧ concat (<[i := c']> t) = l1 ++ c' ++ l2.
Proof.
  intros Hi. exists (concat (take i t)), (concat (drop (S i) t)).
  assert (i < length t) by (by eapply lookup_lt_Some). split.
  - rewrite <- (take_drop_middle t i c Hi) at 1. by rewrite concat_app.
  - rewrite insert_take_drop by done. by rewrite concat_app.
Qed.

Lemma link_front_spec t x :
  placed t → ∃ t', link_front t x = Ok t' ∧ placed t' ∧ length t' = length t ∧ concat t' ≡ₚ x :: concat t.
Proof.
  intros [Hl Hp]. unfold link_front. destruct (bucket_ok t (slot (length t) (kot x))) as (c & Hc & Hb);
    [by apply slot_lt|]. rewrite Hb. cbn [mbind res_bind]. eexists. split; [reflexivity|].
  split; [|split; [apply length_insert|]].
  - split; [by rewrite length_insert|]. rewrite length_insert. intros i c' y.
    rewrite list_lookup_insert_Some. intros [(<- & <- & _)|[_ Hc']]; [|by apply Hp].
    rewrite elem_of_cons. intros [->|Hy]; [done|]. by eapply Hp.
  - destruct (concat_insert t _ c (x :: c) Hc) as (l1 & l2 & -> & ->). simpl.
    by rewrite <- Permutation_middle.
Qed.

Lemma move_chain_spec t c :
  placed t → ∃ t', move_chain t c = Ok t' ∧ placed t' ∧ length t' = length t ∧ concat t' ≡ₚ c ++ concat t.
Proof.
  revert t. induction c as [|x c IH]; intros t Hp; [by exists t|]. cbn [move_chain].
  destruct (link_front_spec t x Hp) as (t1 & H1 & Hp1 & Hl1 & Hc1). rewrite H1. cbn [mbind res_bind].
  destruct (IH t1 Hp1) as (t' & H2 & Hp' & Hl' & Hc'). exists t'. split; [done|]. split; [done|].
  split; [congruence|]. rewrite Hc', Hc1. simpl. by rewrite Permutation_middle.
Qed.

Lemma move_all_spec t old :
  placed t → ∃ t', move_all t old = Ok t' ∧ placed t' ∧ length t' = length t ∧
                   concat t' ≡ₚ concat old ++ concat t.
Proof.
  revert t. induction old as [|c old IH]; intros t Hp; [by exists t|]. cbn [move_all].
  destruct (move_chain_spec t c Hp) as (t1 & H1 & Hp1 & Hl1 & Hc1). rewrite H1. cbn [mbind res_bind].
  destruct (IH t1 Hp1) as (t' & H2 & Hp' & Hl' & Hc'). exists t'. split; [done|]. split; [done|].
  split; [congruence|]. rewrite Hc', Hc1. simpl. rewrite !app_assoc.
  by rewrite (Permutation_app_comm (concat old) c).
Qed.

Lemma placed_empty n : 0 < n → placed (replicate n []).
Proof.
  intros Hn. split; [by rewrite length_replicate|]. intros i c x [-> _]%lookup_replicate.
  by intros ?%not_elem_of_nil.
Qed.
Lemma concat_replicate_nil n : concat (replicate n (@nil T)) = [].
Proof. by induction n. Qed.

(** Growing keeps the data. *)
Lemma grow_spec h :
  table_ok h → ∃ h', grow h = Ok h' ∧ placed (_stable h') ∧ _size h' = _size h ∧
    concat (_stable h') ≡ₚ concat (_stable h).
Proof.
  intros [Hp Hnd]. unfold grow. case_decide; [|by exists h].
  destruct (move_all_spec (replicate (length (_stable h) * 2) []) (_stable h)) as (t & Ht & Hpt & _ & Hc).
  { apply placed_empty. destruct Hp. lia. }
  rewrite Ht. cbn [mbind res_bind]. eexists. split; [reflexivity|]. simpl. split; [done|]. split; [done|].
  by rewrite Hc, concat_replicate_nil, app_nil_r.
Qed.

(** ** Lookups *)
Lemma chain_find_elem k c x : chain_find k c = Some x → x ∈ c ∧ kot x = k.
Proof.
  induction c as [|y c IH]; simpl; [done|]. case_decide; [intros [= <-]; set_solver|].
  intros [? ?]%IH. set_solver.
Qed.
Lemma chain_find_None k c : chain_find k c = None ↔ k ∉ kot <$> c.
Proof.
  induction c as [|y c IH]; simpl; [set_solver|]. case_decide; [set_solver|]. rewrite IH. set_solver.
Qed.

Lemma elem_of_slot t x :
  placed t → x ∈ concat t → ∃ c, t !! slot (length t) (kot x) = Some c ∧ x ∈ c.
Proof.
  intros [Hl Hp] (c & Hc & Hx)%list_elem_of_In%in_concat.
  apply list_elem_of_In in Hc, Hx. apply list_elem_of_lookup in Hc as [i Hi].
  exists c. by rewrite (Hp i c x Hi Hx).
Qed.

Lemma find_spec k h :
  table_ok h →
  ∃ f, find k h = Ok f ∧
    match f with
    | Some x => x ∈ concat (_stable h) ∧ kot x = k
    | None => k ∉ kot <$> concat (_stable h)
    end.
Proof.
  intros [[Hl Hp] Hnd]. unfold find.
  destruct (bucket_ok (_stable h) (slot (length (_stable h)) k)) as (c & Hc & Hb); [by apply slot_lt|].
  rewrite Hb. cbn [mbind res_bind]. eexists. split; [reflexivity|].
  destruct (chain_find k c) as [x|] eqn:E.
  - apply chain_find_elem in E as [Hx Hk]. split; [|done]. apply list_elem_of_In, in_concat.
    exists c. split; [|by apply list_elem_of_In]. apply list_elem_of_In. by eapply list_elem_of_lookup_2.
  - apply chain_find_None in E. intros (x & -> & Hx)%list_elem_of_fmap.
    destruct (elem_of_slot _ x (conj Hl Hp) Hx) as (c' & Hc' & Hxc). rewrite Hc in Hc'. simplify_eq.
    apply E. by apply list_elem_of_fmap_2.
Qed.
(** ** Iteration *)
Definition rest_at t (it : option node) : list T :=
  match it with
  | None => []
  | Some (i, j) => drop j (default [] (t !! i)) ++ concat (drop (S i) t)
  end.
Definition node_ok t (it : option node) : Prop :=
  match it with None => True | Some (i, j) => ∃ c, t !! i = Some c ∧ j < length c end.

Lemma next_slot_spec fuel t i :
  length t < fuel + i → i ≤ length t →
  ∃ it, next_slot fuel t i = Ok it ∧ node_ok t it ∧ rest_at t it = concat (drop i t).
Proof.
  revert i. induction fuel as [|fuel IH]; intros i Hf Hi; [lia|]. cbn [next_slot]. case_decide as Hlt.
  - destruct (bucket_ok t i Hlt) as (c & Hc & Hb). rewrite Hb. cbn [mbind res_bind].
    rewrite (drop_S _ _ _ Hc). destruct c as [|x c].
    + destruct (IH (S i)) as (it & H1 & H2 & H3); [lia|lia|]. exists it. by rewrite H3.
    + exists (Some (i, 0)). split; [done|]. simpl. rewrite Hc. split; [|done].
      eexists. split; [done|]. simpl. lia.
  - exists None. split; [done|]. split; [done|]. by rewrite drop_ge by lia.
Qed.

Lemma visit_spec fuel h it :
  placed (_stable h) → node_ok (_stable h) it → length (rest_at (_stable h) it) < fuel →
  visit fuel h it = Ok (rest_at (_stable h) it).
Proof.
  revert it. induction fuel as [|fuel IH]; intros it Hp Hn Hf; [lia|]. cbn [visit].
  destruct it as [[i j]|]; [|done]. destruct Hn as (c & Hc & Hj).
  destruct (lookup_lt_is_Some_2 c j Hj) as [x Hx].
  assert (Hd : node_data h (i, j) = Ok x).
  { unfold node_data, bucket. simpl. rewrite Hc. cbn [mbind res_bind]. by rewrite Hx. }
  assert (Hrest : rest_at (_stable h) (Some (i, j)) = x :: drop (S j) c ++ concat (drop (S i) (_stable h))).
  { simpl. rewrite Hc. simpl. by rewrite (drop_S _ _ _ Hx). }
  assert (∃ it', iter_next h (i, j) = Ok it' ∧ node_ok (_stable h) it' ∧
            rest_at (_stable h) it' = drop (S j) c ++ concat (drop (S i) (_stable h))) as (it' & H1 & H2 & H3).
  { unfold iter_next. rewrite Hd. cbn [mbind res_bind fst snd]. unfold bucket at 1. rewrite Hc.
    cbn [mbind res_bind]. destruct (c !! S j) as [y|] eqn:Ey.
    - exists (Some (i, S j)). split; [done|]. simpl. rewrite Hc. split; [|done].
      exists c. split; [done|]. by eapply lookup_lt_Some.
    - destruct Hp as [Hl Hp]. rewrite (Hp i c x Hc) by (by eapply list_elem_of_lookup_2).
      apply lookup_ge_None in Ey. rewrite drop_ge by done. apply lookup_lt_Some in Hc.
      destruct (next_slot_spec (S (length (_stable h))) (_stable h) (S i)) as (it & ? & ? & ?); [lia|lia|eauto]. }
  rewrite Hd. cbn [mbind res_bind]. rewrite H1. cbn [mbind res_bind].
  rewrite IH; [|done|done|rewrite H3; rewrite Hrest in Hf; simpl in Hf; lia].
  cbn [mbind res_bind]. by rewrite Hrest, H3.
Qed.

Lemma iterate_concat h : placed (_stable h) → iterate h = Ok (concat (_stable h)).
Proof.
  intros Hp. unfold iterate, begin.
  destruct (next_slot_spec (S (length (_stable h))) (_stable h) 0) as (it & H1 & H2 & H3); [lia|lia|].
  rewrite drop_0 in H3. rewrite H1. cbn [mbind res_bind]. rewrite visit_spec; [by rewrite H3|done|done|rewrite H3; lia].
Qed.

(** ** Refinement of a finite map *)
Definition entries h : list (K * T) := (λ x, (kot x, x)) <$> concat (_stable h).
Definition contents h : gmap K T := list_to_map (entries h).

Lemma entries_keys h : (entries h).*1 = kot <$> concat (_stable h).
Proof. unfold entries. rewrite <- list_fmap_compose. done. Qed.

Lemma contents_lookup h x :
  NoDup (kot <$> concat (_stable h)) → x ∈ concat (_stable h) → contents h !! kot x = Some x.
Proof.
  intros Hnd Hx. apply elem_of_list_to_map_1; [by rewrite entries_keys|].
  unfold entries. apply (list_elem_of_fmap_2 (λ x, (kot x, x))). done.
Qed.
Lemma contents_None h k : k ∉ kot <$> concat (_stable h) → contents h !! k = None.
Proof. intros Hk. apply not_elem_of_list_to_map_1. by rewrite entries_keys. Qed.

Lemma contents_perm h l :
  concat (_stable h) ≡ₚ l → NoDup (kot <$> l) →
  contents h = list_to_map ((λ x, (kot x, x)) <$> l).
Proof.
  intros Hp Hnd. unfold contents, entries. apply list_to_map_proper; [|by rewrite Hp].
  rewrite <- list_fmap_compose. by rewrite Hp.
Qed.

Lemma find_contents k h : table_ok h → find k h = Ok (contents h !! k).
Proof.
  intros Hok. destruct (find_spec k h Hok) as (f & -> & Hf). f_equal. destruct Hok as [_ Hnd].
  destruct f as [x|]; [destruct Hf as [Hx <-]; symmetry; by apply contents_lookup|].
  symmetry. by apply contents_None.
Qed.

Lemma insert_new_spec data h :
  table_ok h → contents h !! kot data = None →
  ∃ h', insert data h = Ok (data, false, h') ∧ table_ok h' ∧
    contents h' = <[kot data := data]> (contents h) ∧ _size h' = _size h + 1.
Proof.
  intros Hok Hnone. unfold insert. rewrite find_contents, Hnone by done. cbn [mbind res_bind].
  destruct (grow_spec h Hok) as (h1 & H1 & Hp1 & Hs1 & Hc1). rewrite H1. cbn [mbind res_bind].
  destruct (link_front_spec (_stable h1) data Hp1) as (t & Ht & Hpt & _ & Hct). rewrite Ht. cbn [mbind res_bind].
  eexists. split; [reflexivity|]. destruct Hok as [Hp Hnd].
  assert (Hnew : kot data ∉ kot <$> concat (_stable h)).
  { intros (x & Hk & Hx)%list_elem_of_fmap. rewrite Hk, (contents_lookup h x Hnd Hx) in Hnone. done. }
  assert (Hnd' : NoDup (kot <$> data :: concat (_stable h))) by (rewrite fmap_cons; by constructor).
  rewrite Hc1 in Hct. split; [|split].
  - split; [done|]. simpl. by rewrite Hct.
  - rewrite (contents_perm (mkTable t _) _ Hct Hnd'). rewrite fmap_cons. reflexivity.
  - simpl. by rewrite Hs1.
Qed.

(** Insertions one after the other, and the same on a finite map. *)
Fixpoint insert_all (ds : list T) (h : HashTable) : res HashTable :=
  match ds with [] => mret h | d :: ds => r ← insert d h; insert_all ds (snd r) end.
Definition map_insert (m : gmap K T) (d : T) : gmap K T :=
  match m !! kot d with Some _ => m | None => <[kot d := d]> m end.

Lemma new_table_ok : table_ok new_table ∧ contents new_table = ∅.
Proof.
  split; [|done]. split; [apply placed_empty; lia|]. simpl. constructor.
Qed.

Lemma insert_all_spec ds h :
  table_ok h → ∃ h', insert_all ds h = Ok h' ∧ table_ok h' ∧ contents h' = foldl map_insert (contents h) ds.
Proof.
  revert h. induction ds as [|d ds IH]; intros h Hok; [by exists h|]. cbn [insert_all foldl]. unfold map_insert at 2.
  destruct (contents h !! kot d) as [x|] eqn:E.
  - unfold insert. rewrite find_contents, E by done. cbn. by apply IH.
  - destruct (insert_new_spec d h Hok E) as (h1 & -> & Hok1 & <- & _). cbn [mbind res_bind snd]. by apply IH.
Qed.

(** [find] and a [begin()]..[end()] loop, of a table that holds the finite map [m]. *)
Definition shows (h : HashTable) (m : gmap K T) : Prop :=
  (∀ k, find k h = Ok (m !! k)) ∧ ∃ xs, iterate h = Ok xs ∧ NoDup (kot <$> xs) ∧ ∀ x, x ∈ xs ↔ m !! kot x = Some x.
Lemma table_shows h : table_ok h → shows h (contents h).
Proof.
  intros Hok. split; [intros k; by apply find_contents|]. destruct Hok as [Hp Hnd]. exists (concat (_stable h)).
  split; [by apply iterate_concat|]. split; [done|]. intros x. split; [by apply contents_lookup|].
  intros Hx. apply elem_of_list_to_map_2 in Hx. unfold entries in Hx.
  apply list_elem_of_fmap in Hx as (y & [= _ ->] & Hy). done.
Qed.

(** [insert] reports [false] also for a datum it has just added. *)
Theorem insert_flag_always_false data h :
  table_ok h → ∃ x h', insert data h = Ok (x, false, h') ∧ contents h' !! kot data = Some x.
Proof.
  intros Hok. destruct (contents h !! kot data) as [x|] eqn:E.
  - exists x, h. split; [|done]. unfold insert. by rewrite find_contents, E.
  - destruct (insert_new_spec data h Hok E) as (h' & He & _ & Hc & _). exists data, h'.
    split; [done|]. rewrite Hc. by rewrite lookup_insert_eq.
Qed.
End Table.

(** ** [Hash::HashTable<K,V>] *)
Section Pairs.
Context {K V : Type} `{Countable K} (hf : K → Z).
Abbreviation table := (HashTable (T := K * V)).
Implicit Types h : table.

Definition Hash_find (key : K) (h : table) : res (option (K * V)) := find hf fst key h.
Definition Hash_insert (kv : K * V) (h : table) : res (bool * table) :=
  f ← Hash_find (fst kv) h;
  match f with
  | Some _ => mret (false, h)
  | None =>
      h ← grow hf fst h;
      t ← link_front hf fst (_stable h) kv;
      mret (true, mkTable t (_size h + 1))
  end.
(** The walk of [erase] that unlinks the first node with the key. *)
Fixpoint chain_erase (key : K) (chain : list (K * V)) : list (K * V) :=
  match chain with
  | [] => []
  | x :: chain => if decide (fst x = key) then chain else x :: chain_erase key chain
  end.
Definition Hash_erase (kv : K * V) (h : table) : res (bool * table) :=
  f ← Hash_find (fst kv) h;
  match f with
  | None => mret (false, h)
  | Some _ =>
      let i := slot hf (length (_stable h)) (fst kv) in
      c ← bucket (_stable h) i;
      mret (true, mkTable (<[i := chain_erase (fst kv) c]> (_stable h)) (_size h))
  end.

Lemma Hash_insert_insert kv h :
  Hash_insert kv h =
    f ← Hash_find (fst kv) h; r ← insert hf fst kv h;
    mret (match f with Some _ => false | None => true end, snd r).
Proof.
  unfold Hash_insert, insert, Hash_find. destruct (find hf fst (fst kv) h) as [[x|]|]; cbn; [done| |done].
  destruct (grow hf fst h) as [h1|]; cbn; [|done]. by destruct (link_front hf fst (_stable h1) kv).
Qed.

Lemma chain_erase_perm k c x : chain_find fst k c = Some x → c ≡ₚ x :: chain_erase k c.
Proof.
  induction c as [|y c IH]; simpl; [done|]. case_decide; [by intros [= <-]|].
  intros E. rewrite (IH E) at 1. apply perm_swap.
Qed.

Lemma erase_present_spec k v x h :
  table_ok hf fst h → contents fst h !! k = Some x →
  ∃ h', Hash_erase (k, v) h = Ok (true, h') ∧ table_ok hf fst h' ∧ contents fst h' = delete k (contents fst h) ∧ _size h' = _size h.
Proof.
  intros Hok Hx. unfold Hash_erase, Hash_find. cbn [fst]. pose proof (find_contents hf fst k h Hok) as Hf. rewrite Hf, Hx. cbn [mbind res_bind].
  unfold find in Hf. destruct Hok as [[Hl Hp] Hnd].
  destruct (bucket_ok (_stable h) (slot hf (length (_stable h)) k)) as (c & Hc & Hb); [by apply slot_lt|].
  rewrite Hb in *. cbn [mbind res_bind] in *. rewrite Hx in Hf. injection Hf as Hf.
  eexists. split; [reflexivity|]. pose proof (chain_erase_perm _ _ _ Hf) as Hperm.
  destruct (concat_insert _ _ c (chain_erase k c) Hc) as (l1 & l2 & E1 & E2).
  set (t := <[_ := chain_erase k c]> (_stable h)) in *.
  assert (Hcp : concat (_stable h) ≡ₚ x :: concat t).
  { rewrite E1, E2. transitivity (l1 ++ (x :: chain_erase k c) ++ l2);
      [by apply Permutation_app_head, Permutation_app_tail|]. simpl. by rewrite <- Permutation_middle. }
  pose proof (chain_find_elem _ _ _ _ Hf) as [_ Hk].
  assert (Hnd' : NoDup (fst <$> x :: concat t)) by (by rewrite <- Hcp).
  split; [|split; [|done]].
  - split; [|by apply NoDup_cons in Hnd' as [_ ?]]. unfold t. split; simpl; rewrite length_insert; [done|].
    intros i c' y. rewrite list_lookup_insert_Some. intros [(<- & <- & _)|[_ Hc']]; [|by apply Hp].
    intros Hy. eapply Hp; [exact Hc|]. rewrite Hperm. by right.
  - rewrite (contents_perm fst h _ Hcp Hnd'). rewrite fmap_cons. simpl. rewrite Hk.
    rewrite delete_insert_id; [done|]. apply not_elem_of_list_to_map_1.
    rewrite entries_keys || rewrite <- list_fmap_compose. apply NoDup_cons in Hnd' as [Hn _]. by rewrite Hk in Hn.
Qed.

(** [Hash::HashTable] inserts, reports and erases as a finite map does; its
    counter [_size] counts insertions only: [erase] leaves it as it is. *)
Theorem Hash_ops_spec kv h :
  table_ok hf fst h →
  (∃ h', Hash_insert kv h = Ok (bool_decide (contents fst h !! fst kv = None), h') ∧ table_ok hf fst h' ∧
     contents fst h' = match contents fst h !! fst kv with
                       | Some _ => contents fst h | None => <[fst kv := kv]> (contents fst h) end) ∧
  (∃ h', Hash_erase kv h = Ok (bool_decide (is_Some (contents fst h !! fst kv)), h') ∧ table_ok hf fst h' ∧
     contents fst h' = delete (fst kv) (contents fst h) ∧ _size h' = _size h).
Proof.
  intros Hok. split.
  - rewrite Hash_insert_insert. unfold Hash_find. rewrite find_contents by done. cbn [mbind res_bind].
    destruct (contents fst h !! fst kv) as [x|] eqn:E.
    + unfold insert. rewrite find_contents, E by done. cbn. by exists h.
    + destruct (insert_new_spec hf fst kv h Hok E) as (h' & -> & ? & ? & _). cbn. eauto.
  - destruct kv as [k v]. cbn [fst]. destruct (contents fst h !! k) as [x|] eqn:E.
    + destruct (erase_present_spec k v x h Hok E) as (h' & -> & ? & ? & ?). exists h'.
      by rewrite bool_decide_eq_true_2.
    + unfold Hash_erase, Hash_find. cbn [fst]. rewrite find_contents, E by done. cbn. exists h. split; [|split; [done|]].
      * done.
      * by rewrite delete_id.
Qed.

(** Insertions and erasures with their results, and the same on a finite map. *)
Inductive op := OpInsert (kv : K * V) | OpErase (kv : K * V).
Definition do_op (o : op) (h : table) : res (bool * table) :=
  match o with OpInsert kv => Hash_insert kv h | OpErase kv => Hash_erase kv h end.
Fixpoint do_ops (os : list op) (h : table) : res (list bool * table) :=
  match os with
  | [] => mret ([], h)
  | o :: os => r ← do_op o h; rs ← do_ops os (snd r); mret (fst r :: fst rs, snd rs)
  end.
Definition map_op (o : op) (m : gmap K (K * V)) : bool * gmap K (K * V) :=
  match o with
  | OpInsert kv => match m !! fst kv with Some _ => (false, m) | None => (true, <[fst kv := kv]> m) end
  | OpErase kv => (bool_decide (is_Some (m !! fst kv)), delete (fst kv) m)
  end.
Fixpoint map_ops (os : list op) (m : gmap K (K * V)) : list bool * gmap K (K * V) :=
  match os with
  | [] => ([], m)
  | o :: os => let r := map_op o m in let rs := map_ops os (snd r) in (fst r :: fst rs, snd rs)
  end.
Lemma do_ops_spec os h : table_ok hf fst h →
  ∃ h', do_ops os h = Ok ((map_ops os (contents fst h)).1, h') ∧ table_ok hf fst h' ∧ contents fst h' = (map_ops os (contents fst h)).2.
Proof.
  revert h. induction os as [|o os IH]; intros h Hok; [by exists h|]. cbn [do_ops map_ops].
  assert (∃ h1, do_op o h = Ok ((map_op o (contents fst h)).1, h1) ∧ table_ok hf fst h1 ∧ contents fst h1 = (map_op o (contents fst h)).2) as (h1 & -> & Hok1 & Hc).
  { destruct o as [kv|kv]; cbn [do_op map_op]; destruct (Hash_ops_spec kv h Hok) as [(h1 & H1 & ? & Hc) (h2 & H2 & ? & Hc2 & _)].
    - exists h1. rewrite H1, Hc. by destruct (contents fst h !! fst kv).
    - exists h2. by rewrite H2, Hc2. }
  cbn [mbind res_bind fst snd]. destruct (IH h1 Hok1) as (h' & -> & Hok' & Hc'). exists h'. cbn [mbind res_bind fst snd].
  rewrite Hc in *. by split_and!.
Qed.
End Pairs.

(** C36: The chained hash tables are finite maps, for every hash function. The table under
    unordered_map and unordered_set: after any sequence of insertions on a new table, with their
    rehashes, every operation has succeeded, [find] agrees with the map on every key, and a
    [begin()]..[end()] loop visits every entry exactly once. Hash::HashTable: for any sequence of
    insertions and erasures on a new table every operation succeeds, its result tells whether the
    key was new or was there, and [find] agrees with the map on every key. The erase of the first
    table does not compile when it is instantiated, and is left out. *)
Theorem hash_table_refines_map {K T V : Type} `{Countable K} (hf : K → Z) (kot : T → K) :
  (∀ ds, ∃ h, insert_all hf kot ds new_table = Ok h ∧ shows hf kot h (foldl (map_insert kot) ∅ ds)) ∧
  (∀ os : list (op (K := K) (V := V)), ∃ h, do_ops hf os new_table = Ok ((map_ops os ∅).1, h) ∧
     ∀ k, Hash_find hf k h = Ok ((map_ops os ∅).2 !! k)).
Proof.
  split.
  - intros ds. destruct (new_table_ok hf kot) as [Hok0 Hc0]. destruct (insert_all_spec hf kot ds new_table Hok0) as (h & Hdo & Hok & Hc).
    exists h. split; [done|]. rewrite Hc0 in Hc. rewrite <- Hc. by apply table_shows.
  - intros os. destruct (new_table_ok hf (@fst K V)) as [Hok0 Hc0]. destruct (do_ops_spec hf os new_table Hok0) as (h & Hdo & Hok & Hc).
    rewrite Hc0 in *. exists h. split; [done|]. intros k. rewrite <- Hc. by apply find_contents.
Qed.

(** ** [zhc::unordered_map] (src/Algorithm/Unordered_map.hpp) *)
Section UnorderedMap.
Context {K : Type} `{Countable K} (hf : K → Z).
Abbreviation table := (HashTable (T := K * Z)).
Implicit Types h : table.

(** Writing [second] of the entry with the key, in its chain. *)
Fixpoint chain_write (key : K) (v : Z) (chain : list (K * Z)) : list (K * Z) :=
  match chain with
  | [] => []
  | x :: chain => if decide (fst x = key) then (fst x, v) :: chain else x :: chain_write key v chain
  end.
Definition write_second (key : K) (v : Z) (h : table) : res table :=
  let i := slot hf (length (_stable h)) key in
  c ← bucket (_stable h) i;
  mret (mkTable (<[i := chain_write key v c]> (_stable h)) (_size h)).

(** [Mp[key]++] for [unordered_map<K,int>]: [operator[]] inserts [(key, 0)] and
    refers to the entry's [second]. *)
Definition index_incr (key : K) (h : table) : res table :=
  r ← insert hf fst (key, 0%Z) h;
  let v := (snd (fst (fst r)) + 1)%Z in
  if in_int v then write_second key v (snd r) else Err SignedOverflow.

(** The loop of [Test1]: [for(auto& str : a) Mp[str]++;] *)
Fixpoint count_words (ws : list K) (h : table) : res table :=
  match ws with [] => mret h | w :: ws => h' ← index_incr w h; count_words ws h' end.

Lemma chain_write_keys k v c : (chain_write k v c).*1 = c.*1.
Proof. induction c as [|[k' v'] c IH]; cbn; [done|]. case_decide; [done|]. cbn. by rewrite IH. Qed.

Lemma chain_write_perm k v c x :
  chain_find fst k c = Some x → ∃ c', c ≡ₚ x :: c' ∧ chain_write k v c ≡ₚ (k, v) :: c'.
Proof.
  induction c as [|y c IH]; cbn; [done|]. case_decide as Hk.
  - intros [= <-]. exists c. by rewrite Hk.
  - intros (c' & H1 & H2)%IH. exists (y :: c').
    split; [rewrite H1|rewrite H2]; apply perm_swap.
Qed.

Lemma write_second_spec k v x h :
  table_ok hf fst h → contents fst h !! k = Some x →
  ∃ h', write_second k v h = Ok h' ∧ table_ok hf fst h' ∧ contents fst h' = <[k := (k, v)]> (contents fst h).
Proof.
  intros Hok Hx. pose proof (find_contents hf fst k h Hok) as Hf. unfold find, write_second in *.
  destruct Hok as [[Hl Hp] Hnd].
  destruct (bucket_ok (_stable h) (slot hf (length (_stable h)) k)) as (c & Hc & Hb); [by apply slot_lt|].
  rewrite Hb in *. cbn [mbind res_bind] in *. rewrite Hx in Hf. injection Hf as Hf.
  eexists. split; [reflexivity|]. destruct (chain_write_perm k v c x Hf) as (c' & Hc1 & Hc2).
  destruct (concat_insert _ _ c (chain_write k v c) Hc) as (l1 & l2 & E1 & E2).
  set (t := <[_ := chain_write k v c]> (_stable h)) in *. pose proof (chain_find_elem _ _ _ _ Hf) as [_ Hk].
  assert (P1 : concat (_stable h) ≡ₚ x :: (l1 ++ c' ++ l2)).
  { rewrite E1, Hc1. simpl. by rewrite <- Permutation_middle. }
  assert (P2 : concat t ≡ₚ (k, v) :: (l1 ++ c' ++ l2)).
  { rewrite E2, Hc2. simpl. by rewrite <- Permutation_middle. }
  assert (Hkeys : fst <$> concat t ≡ₚ fst <$> concat (_stable h)).
  { rewrite P1, P2, !fmap_cons. by rewrite Hk. }
  assert (Hnd2 : NoDup (fst <$> (k, v) :: (l1 ++ c' ++ l2))) by (by rewrite <- P2, Hkeys).
  assert (Hnd1 : NoDup (fst <$> x :: (l1 ++ c' ++ l2))) by (by rewrite <- P1).
  split.
  - split; [|by simpl; rewrite Hkeys]. unfold t. split; simpl; rewrite length_insert; [done|].
    intros i d y. rewrite list_lookup_insert_Some. intros [(<- & <- & _)|[_ Hc']]; [|by apply Hp].
    intros Hy. assert (fst y ∈ c.*1) as (z & Hz & Hzc)%list_elem_of_fmap.
    { rewrite <- (chain_write_keys k v c). by apply list_elem_of_fmap_2. }
    rewrite Hz. by eapply Hp.
  - rewrite (contents_perm fst (mkTable t _) _ P2 Hnd2), (contents_perm fst h _ P1 Hnd1).
    rewrite !fmap_cons. simpl. rewrite Hk. by rewrite insert_insert_eq.
Qed.

Lemma index_incr_spec k h :
  table_ok hf fst h →
  let n := default 0%Z (snd <$> contents fst h !! k) in
  in_int (n + 1) = true →
  ∃ h', index_incr k h = Ok h' ∧ table_ok hf fst h' ∧
    contents fst h' = <[k := (k, n + 1)%Z]> (contents fst h).
Proof.
  intros Hok n Hn. unfold index_incr. destruct (contents fst h !! k) as [[k' v]|] eqn:E.
  - assert (Hi : insert hf fst (k, 0%Z) h = Ok ((k', v), false, h)).
    { unfold insert. cbn [fst]. by rewrite find_contents, E. }
    rewrite Hi. cbn [mbind res_bind fst snd]. cbv zeta. change (v + 1)%Z with (n + 1)%Z. rewrite Hn.
    by apply (write_second_spec k (n + 1) (k', v)).
  - destruct (insert_new_spec hf fst (k, 0%Z) h Hok E) as (h1 & -> & Hok1 & Hc1 & _).
    cbn [mbind res_bind fst snd]. cbv zeta. change (0 + 1)%Z with (n + 1)%Z. rewrite Hn.
    destruct (write_second_spec k (n + 1) (k, 0%Z) h1 Hok1) as (h' & He & Hok' & Hc').
    { rewrite Hc1. by rewrite lookup_insert_eq. }
    exists h'. split; [done|]. split; [done|]. rewrite Hc', Hc1. by rewrite insert_insert_eq.
Qed.

Definition occurrences (w : K) (ws : list K) : nat := length (filter (λ x, x = w) ws).

Lemma count_words_spec ws h (base : K → nat) :
  table_ok hf fst h →
  (∀ w, contents fst h !! w = if decide (base w = 0) then None else Some (w, Z.of_nat (base w))) →
  (∀ w, Z.of_nat (base w + length ws) < 2 ^ 31)%Z →
  ∃ h', count_words ws h = Ok h' ∧ table_ok hf fst h' ∧
    ∀ w, contents fst h' !! w =
      if decide (base w + occurrences w ws = 0) then None else Some (w, Z.of_nat (base w + occurrences w ws)).
Proof.
  revert h base. induction ws as [|x ws IH]; intros h base Hok Hc Hb.
  { exists h. split; [done|]. split; [done|]. intros w. rewrite Hc. by rewrite Nat.add_0_r. }
  cbn [count_words]. assert (Hn : default 0%Z (snd <$> contents fst h !! x) = Z.of_nat (base x)).
  { rewrite Hc. case_decide as E; [by rewrite E|done]. }
  destruct (index_incr_spec x h Hok) as (h1 & -> & Hok1 & Hc1).
  { rewrite Hn. specialize (Hb x). simpl in Hb. unfold in_int. lia. }
  rewrite Hn in Hc1. cbn [mbind res_bind].
  destruct (IH h1 (λ w, if decide (w = x) then base w + 1 else base w)) as (h' & He & Hok' & Hc').
  - done.
  - intros w. rewrite Hc1. destruct (decide (w = x)) as [->|Hne].
    + rewrite lookup_insert_eq, decide_False by lia. do 3 f_equal. lia.
    + rewrite lookup_insert_ne by done. apply Hc.
  - intros w. specialize (Hb w). simpl in Hb. destruct (decide (w = x)); lia.
  - exists h'. split; [done|]. split; [done|]. intros w. rewrite Hc'. unfold occurrences.
    rewrite filter_cons. destruct (decide (w = x)) as [->|Hne].
    + rewrite (decide_True (P := x = x)) by done. cbn [length].
      by replace (base x + 1 + length (filter (λ y, y = x) ws))
        with (base x + S (length (filter (λ y, y = x) ws))) by lia.
    + by rewrite (decide_False (P := x = w)) by done.
Qed.

(** Counting words with [Mp[word]++] is right: after the loop over [ws] on a
    new map, every word is bound to the number of its occurrences, and no other
    key is bound, for every hash function and across all rehashes. *)
Theorem word_count_correct ws :
  (Z.of_nat (length ws) < 2 ^ 31)%Z →
  ∃ h, count_words ws new_table = Ok h ∧
    ∀ w, find hf fst w h = Ok (if decide (occurrences w ws = 0) then None
                               else Some (w, Z.of_nat (occurrences w ws))).
Proof.
  intros Hl. destruct (new_table_ok hf (@fst K Z)) as [Hok Hc].
  destruct (count_words_spec ws new_table (λ _, 0) Hok) as (h & He & Hok' & Hc').
  - intros w. by rewrite Hc.
  - done.
  - exists h. split; [done|]. intros w. by rewrite find_contents, Hc'.
Qed.
End UnorderedMap.

(** ** [unordered_set<K>], and the loop of [Test2] *)
Section UnorderedSet.
Context {K : Type} `{Countable K} (hf : K → Z).
Definition uset_insert (key : K) (h : HashTable (T := K)) : res (K * bool * HashTable) := insert hf id key h.
Fixpoint uset_insert_all (ks : list K) (h : HashTable (T := K)) : res HashTable :=
  match ks with [] => mret h | k :: ks => r ← uset_insert k h; uset_insert_all ks r.2 end.
Definition uset_begin (h : HashTable (T := K)) := begin h.

Lemma uset_insert_all_ops ks h : uset_insert_all ks h = insert_all hf id ks h.
Proof.
  revert h. induction ks as [|k ks IH]; intros h; [done|]. cbn [uset_insert_all insert_all]. unfold uset_insert.
  destruct (insert hf id k h) as [[[x b] h']|]; [|done]. apply IH.
Qed.
Lemma set_ops_contents (ks : list K) (m : gmap K K) k :
  (∀ x y, m !! x = Some y → x = y) →
  foldl (map_insert id) m ks !! k = if decide (k ∈ ks) then Some k else m !! k.
Proof.
  revert m. induction ks as [|k' ks IH]; intros m Hm; [done|]. cbn [foldl].
  change (map_insert id m k') with (match m !! k' with Some _ => m | None => <[k' := k']> m end).
  rewrite IH; [|by destruct (m !! k'); [|intros x y; rewrite lookup_insert_Some; intros [[-> ->]|[_ ?]]; [|apply Hm]]].
  destruct (decide (k ∈ ks)) as [Hin|Hin]; [by rewrite decide_True by by right|].
  destruct (decide (k = k')) as [->|Hne].
  - rewrite decide_True by by left. destruct (m !! k') as [y|] eqn:E; [by rewrite E, <- (Hm _ _ E)|by rewrite lookup_insert_eq].
  - rewrite decide_False by (rewrite elem_of_cons; tauto). destruct (m !! k'); [done|]. by rewrite lookup_insert_ne.
Qed.

(** A set built by insertions holds the keys inserted, each once however often it came, for
    every hash function and across all rehashes: a [begin()]..[end()] loop visits them. *)
Theorem unordered_set_iterates ks :
  ∃ h xs, uset_insert_all ks new_table = Ok h ∧ iterate hf id h = Ok xs ∧ NoDup xs ∧ ∀ k, k ∈ xs ↔ k ∈ ks.
Proof.
  destruct (new_table_ok hf (@id K)) as [Hok0 Hc0]. destruct (insert_all_spec hf id ks new_table Hok0) as (h & Hdo & Hok & Hc).
  rewrite Hc0 in Hc. exists h, (concat (_stable h)). rewrite uset_insert_all_ops. split; [done|]. pose proof Hok as [Hp Hnd].
  split; [by eapply iterate_concat|]. rewrite list_fmap_id in Hnd. split; [done|]. intros k.
  assert (Hl : contents id h !! k = if decide (k ∈ ks) then Some k else None).
  { rewrite Hc, set_ops_contents by by intros x y ?%lookup_empty_Some. by rewrite lookup_empty. }
  split.
  - intros Hk. pose proof (contents_lookup id h k) as Hx. rewrite list_fmap_id in Hx. specialize (Hx Hnd Hk).
    change (id k) with k in Hx. rewrite Hl in Hx. by case_decide.
  - intros Hk. rewrite decide_True in Hl by done. apply elem_of_list_to_map_2 in Hl. unfold entries in Hl.
    by apply list_elem_of_fmap in Hl as (y & [= _ ->] & Hy).
Qed.
End UnorderedSet.

(** ** Witnesses *)
Lemma insert_flag_always_false_witness :
  ∃ x h', insert HashFunc_int fst (7%Z, 70%Z) new_table = Ok (x, false, h') ∧
    contents fst h' !! 7%Z = Some x.
Proof. apply (insert_flag_always_false HashFunc_int fst (7%Z, 70%Z) new_table), new_table_ok. Defined.

Lemma Hash_ops_spec_witness :
  ∃ h', Hash_insert HashFunc_int (7%Z, 70%Z) new_table = Ok (true, h') ∧
    contents fst h' = {[7%Z := (7%Z, 70%Z)]}.
Proof.
  destruct (Hash_ops_spec HashFunc_int (7%Z, 70%Z) new_table) as [(h' & H1 & _ & H2) _].
  - apply new_table_ok.
  - exists h'. split; [exact H1|]. rewrite H2. reflexivity.
Defined.

Lemma word_count_correct_witness :
  ∃ h, count_words HashFunc_string [lit "ab"; lit "c"; lit "ab"] new_table = Ok h ∧
    find HashFunc_string fst (lit "ab") h = Ok (Some (lit "ab", 2%Z)).
Proof.
  destruct (word_count_correct HashFunc_string [lit "ab"; lit "c"; lit "ab"]) as (h & H1 & H2).
  - simpl. lia.
  - exists h. split; [exact H1|]. rewrite H2. reflexivity.
Defined.
