(* ===== verification/HashOpen.v ===== *)
(** * The open-addressing hash table of src/Algorithm/HashTable.hpp ([zhc_test1::Hash])

    Linear probing with the slot states [EMPTY], [EXIST] and [DELETE].  The probe
    of [find] has no bound in the source: its fuel is a parameter of every
    operation, and [OutOfFuel] for every fuel means that the call never returns. *)

From S2P Require Import Prelude StdString HashChain.

Open Scope nat_scope.

Inductive States := EMPTY | EXIST | DELETE.
#[global] Instance States_eq_dec : EqDecision States.
Proof. solve_decision. Defined.

Section Open.
Context {K V : Type} `{EqDecision K} (hf : K → Z) (kv0 : K * V).

Record Hash_data := mkData { _kv : K * V; _states : States }.
Record Hash := mkHash { _hs : list Hash_data; _n : nat }.

Definition empty_slot : Hash_data := mkData kv0 EMPTY.
(** [_hs.resize(10)] *)
Definition new_Hash : Hash := mkHash (replicate 10 empty_slot) 0.

Definition slot_at (hs : list Hash_data) (i : nat) : res Hash_data :=
  match hs !! i with Some d => Ok d | None => Err OutOfBounds end.

(** [while(_hs[index]._states != EMPTY) {...; ++index; index%=_hs.size();}] *)
Fixpoint probe_find (fuel : nat) (hs : list Hash_data) (k : K) (index : nat) : res (option nat) :=
  match fuel with
  | 0 => Err OutOfFuel
  | S fuel =>
      d ← slot_at hs index;
      if decide (_states d = EMPTY) then Ok None
      else if decide (_states d = EXIST ∧ fst (_kv d) = k) then Ok (Some index)
      else probe_find fuel hs k (S index mod length hs)
  end.

(** [find(k)]: the index of the slot it returns a pointer to. *)
Definition open_find (fuel : nat) (k : K) (h : Hash) : res (option nat) :=
  probe_find fuel (_hs h) k (slot hf (length (_hs h)) k).

(** [while(_hs[index]._states == EXIST) {index++; index %= _hs.size();}] *)
Fixpoint probe_free (fuel : nat) (hs : list Hash_data) (index : nat) : res nat :=
  match fuel with
  | 0 => Err OutOfFuel
  | S fuel =>
      d ← slot_at hs index;
      if decide (_states d = EXIST) then probe_free fuel hs (S index mod length hs) else Ok index
  end.

(** The end of [insert]: the first slot on the probe path that is free. *)
Definition place (fuel : nat) (kv : K * V) (h : Hash) : res Hash :=
  i ← probe_free fuel (_hs h) (slot hf (length (_hs h)) (fst kv));
  mret (mkHash (<[i := mkData kv EXIST]> (_hs h)) (_n h + 1)).

(** [_n * 10 / _hs.size() > 7] *)
Definition too_full (h : Hash) : bool := (7 <? _n h * 10 / length (_hs h)).

(** [insert(kv)]; [depth] bounds the nesting of tables that grow while they
    are being filled. *)
Fixpoint open_insert (depth fuel : nat) (kv : K * V) (h : Hash) : res (bool * Hash) :=
  match depth with
  | 0 => Err OutOfFuel
  | S depth =>
      f ← open_find fuel (fst kv) h;
      match f with
      | Some _ => mret (false, h)
      | None =>
          h ← (if too_full h then
                 nh ← foldl (λ acc e, nh ← acc;
                               if decide (_states e = EXIST)
                               then (r ← open_insert depth fuel (_kv e) nh; mret (snd r)) else mret nh)
                        (Ok (mkHash (replicate (length (_hs h) * 2) empty_slot) 0)) (_hs h);
                 mret (mkHash (_hs nh) (_n h))
               else mret h);
          h ← place fuel kv h;
          mret (true, h)
      end
  end.

Definition open_erase (fuel : nat) (k : K) (h : Hash) : res (bool * Hash) :=
  pos ← open_find fuel k h;
  match pos with
  | None => mret (false, h)
  | Some i =>
      d ← slot_at (_hs h) i;
      mret (true, mkHash (<[i := mkData (_kv d) DELETE]> (_hs h)) (_n h - 1))
  end.

(** ** Correctness of probing *)
Implicit Types (hs : list Hash_data) (h : Hash).

(** The [d]-th slot of a probe that starts at [s]. *)
Definition nth_probe hs (s d : nat) : nat := (s + d) mod length hs.

(** The entry at [i] can be reached from the slot of its key. *)
Definition reachable hs (i : nat) (k : K) : Prop :=
  ∃ d, i = nth_probe hs (slot hf (length hs) k) d ∧
    ∀ d', d' < d → ∀ x, hs !! nth_probe hs (slot hf (length hs) k) d' = Some x → _states x ≠ EMPTY.

Definition probing_ok hs : Prop :=
  0 < length hs ∧
  ∀ i x, hs !! i = Some x → _states x = EXIST → reachable hs i (fst (_kv x)).

Lemma nth_probe_lt hs s d : 0 < length hs → nth_probe hs s d < length hs.
Proof. clear kv0. intros. apply Nat.mod_upper_bound. lia. Qed.
Lemma nth_probe_S hs s d : 0 < length hs → S (nth_probe hs s d) mod length hs = nth_probe hs s (S d).
Proof.
  clear kv0. intros Hl. unfold nth_probe. rewrite <- Nat.add_1_r, Nat.Div0.add_mod_idemp_l. f_equal. lia.
Qed.

(** Every slot is probed within [length hs] steps. *)
Lemma nth_probe_covers hs s i : i < length hs → ∃ d, d < length hs ∧ nth_probe hs s d = i.
Proof.
  clear kv0. intros Hi. set (n := length hs) in *.
  exists ((i + n - s mod n) mod n). split; [apply Nat.mod_upper_bound; lia|]. unfold nth_probe. fold n.
  rewrite Nat.Div0.add_mod_idemp_r. pose proof (Nat.mod_upper_bound s n).
  rewrite <- (Nat.Div0.add_mod_idemp_l s). 
  replace (s mod n + (i + n - s mod n)) with (i + 1 * n) by lia.
  rewrite Nat.Div0.mod_add. by apply Nat.mod_small.
Qed.

(** A probe that meets an [EMPTY] slot after at most [m] steps decides whether
    the key is in the table. *)
Lemma probe_find_spec hs k m d :
  probing_ok hs →
  (∀ d', d' < d → ∀ x, hs !! nth_probe hs (slot hf (length hs) k) d' = Some x →
     _states x ≠ EMPTY ∧ ¬ (_states x = EXIST ∧ fst (_kv x) = k)) →
  (∃ e x, d ≤ e < d + m ∧ hs !! nth_probe hs (slot hf (length hs) k) e = Some x ∧ _states x = EMPTY) →
  ∃ f, probe_find m hs k (nth_probe hs (slot hf (length hs) k) d) = Ok f ∧
    match f with
    | Some i => ∃ x, hs !! i = Some x ∧ _states x = EXIST ∧ fst (_kv x) = k
    | None => ∀ i x, hs !! i = Some x → _states x = EXIST → fst (_kv x) ≠ k
    end.
Proof.
  clear kv0. intros [Hl Hr]. revert d. induction m as [|m IH]; intros d Hseen (e & xe & He & Hxe & Hempty); [lia|].
  cbn [probe_find]. pose proof (nth_probe_lt hs (slot hf (length hs) k) d Hl) as Hlt.
  destruct (lookup_lt_is_Some_2 hs _ Hlt) as [x Hx]. unfold slot_at. rewrite Hx. cbn [mbind res_bind].
  destruct (decide (_states x = EMPTY)) as [Hex|Hne].
  - eexists. split; [reflexivity|]. simpl. intros i y Hy Hye Hk.
    destruct (Hr i y Hy Hye) as (d0 & -> & Hd0). rewrite Hk in *.
    destruct (Nat.lt_trichotomy d0 d) as [Hlt'|[->|Hgt]].
    + destruct (Hseen d0 Hlt' y Hy) as [_ Hn]. tauto.
    + congruence.
    + by apply (Hd0 d Hgt x Hx).
  - destruct (decide (_states x = EXIST ∧ fst (_kv x) = k)) as [[Hexi Hk]|Hno];
      [eexists; split; [reflexivity|]; by exists x|].
    rewrite nth_probe_S by done. apply IH.
    + intros d' Hd' y Hy. destruct (decide (d' = d)) as [->|]; [|apply (Hseen d'); [lia|done]].
      rewrite Hx in Hy. by simplify_eq.
    + exists e, xe. split; [|done]. destruct (decide (e = d)) as [->|]; [congruence|lia].
Qed.

(** As long as some slot is [EMPTY], a lookup ends within one round of the
    table and is right: it returns a slot that holds the key, or none when no
    slot holds it. *)
Theorem open_find_correct h k i0 x0 :
  probing_ok (_hs h) → _hs h !! i0 = Some x0 → _states x0 = EMPTY →
  ∃ f, open_find (length (_hs h)) k h = Ok f ∧
    match f with
    | Some i => ∃ x, _hs h !! i = Some x ∧ _states x = EXIST ∧ fst (_kv x) = k
    | None => ∀ i x, _hs h !! i = Some x → _states x = EXIST → fst (_kv x) ≠ k
    end.
Proof.
  clear kv0. intros Hok Hi0 Hx0. unfold open_find.
  destruct (nth_probe_covers (_hs h) (slot hf (length (_hs h)) k) i0) as (e & He & Hei).
  { by eapply lookup_lt_Some. }
  assert (slot hf (length (_hs h)) k = nth_probe (_hs h) (slot hf (length (_hs h)) k) 0) as Hs.
  { unfold nth_probe. rewrite Nat.add_0_r, Nat.mod_small; [done|]. apply slot_lt. apply Hok. }
  rewrite Hs. apply probe_find_spec; [done|intros; lia|]. exists e, x0. rewrite Hei. split; [lia|done].
Qed.

(** ** A table without an [EMPTY] slot *)
Definition no_empty hs : Prop := Forall (λ x, _states x ≠ EMPTY) hs.

Lemma probe_find_diverges hs k fuel i :
  no_empty hs → Forall (λ x, ¬ (_states x = EXIST ∧ fst (_kv x) = k)) hs → i < length hs →
  probe_find fuel hs k i = Err OutOfFuel.
Proof.
  intros Hn Hk. revert i. induction fuel as [|fuel IH]; intros i Hi; [done|]. cbn [probe_find].
  destruct (lookup_lt_is_Some_2 hs i Hi) as [x Hx]. unfold slot_at. rewrite Hx. cbn [mbind res_bind].
  unfold no_empty in Hn. rewrite Forall_lookup in Hn, Hk.
  rewrite decide_False by (by eapply Hn). rewrite decide_False by (by eapply Hk).
  apply IH. apply Nat.mod_upper_bound. lia.
Qed.
End Open.

(** ** Concrete run *)

(** Insert and erase the keys [ks] one after the other. *)
Fixpoint churn (ks : list Z) (h : Hash (K:=Z) (V:=Z)) : res (Hash (K:=Z) (V:=Z)) :=
  match ks with
  | [] => mret h
  | k :: ks =>
      r ← open_insert HashFunc_int (0%Z, 0%Z) 1 20 (k, 0%Z) h;
      r ← open_erase HashFunc_int 20 k (snd r);
      churn ks (snd r)
  end.

(** Erased slots stay [DELETE] and do not count as load: after the keys
    0..9 have been inserted and erased, the table is empty but no slot is
    [EMPTY], and [find(10)] (and so [insert] and [erase]) never returns. *)
Theorem find_diverges_after_churn :
  ∃ h, churn [0; 1; 2; 3; 4; 5; 6; 7; 8; 9]%Z (new_Hash (0%Z, 0%Z)) = Ok h ∧ _n h = 0 ∧
    ∀ fuel, open_find HashFunc_int fuel 10%Z h = Err OutOfFuel.
Proof.
  eexists. split; [vm_compute; reflexivity|]. split; [done|]. intros fuel. apply probe_find_diverges.
  - repeat constructor; discriminate.
  - repeat constructor; intros [? _]; discriminate.
  - vm_compute. lia.
Qed.

(** ** Witness *)
Lemma open_find_correct_witness :
  ∃ f, open_find HashFunc_int 10 3%Z (new_Hash (0%Z, 0%Z)) = Ok f.
Proof.
  destruct (open_find_correct HashFunc_int (new_Hash (0%Z, 0%Z)) 3%Z 0 (empty_slot (0%Z, 0%Z))) as (f & H & _).
  - split; [simpl; lia|]. intros i x [-> _]%lookup_replicate. discriminate.
  - reflexivity.
  - reflexivity.
  - exists f. exact H.
Defined.
