(* ===== verification/DList.v ===== *)
(** * The doubly linked list of src/Algorithm/List.hpp

    A circular list with a sentinel node [_head], in a heap of nodes.  Iterators
    are node pointers, so [insert] and [erase] work on addresses; [DL] relates a
    heap to the sequence of addresses and data that the list stands for. *)

From S2P Require Import Prelude.

Open Scope nat_scope.

Abbreviation dloc := positive.
Abbreviation dptr := (option positive).

Section DList.
Context {T : Type} (T0 : T).

(** [list_node<T>] *)
Record list_node := mkDNode { _next : dptr; _prev : dptr; _data : T }.

Record lstate := mkL {
  nodes : gmap dloc list_node;
  _head : dptr;
  _size : nat;
  fresh : dloc;
}.

(** ** Member accesses *)
Definition node_at (p : dptr) : M lstate list_node := λ s,
  match p with
  | None => Err NullDeref
  | Some a => match nodes s !! a with Some n => Ok (n, s) | None => Err DanglingPtr end
  end.
Definition put_node (p : dptr) (f : list_node → list_node) : M lstate () := λ s,
  match p with
  | None => Err NullDeref
  | Some a => match nodes s !! a with
              | Some n => Ok ((), mkL (<[a := f n]> (nodes s)) (_head s) (_size s) (fresh s))
              | None => Err DanglingPtr
              end
  end.
Definition get_next (p : dptr) : M lstate dptr := n ← node_at p; mret (_next n).
Definition get_prev (p : dptr) : M lstate dptr := n ← node_at p; mret (_prev n).
Definition set_next (p v : dptr) : M lstate () := put_node p (λ n, mkDNode v (_prev n) (_data n)).
Definition set_prev (p v : dptr) : M lstate () := put_node p (λ n, mkDNode (_next n) v (_data n)).
Definition new_dnode (x : T) : M lstate dptr := λ s,
  Ok (Some (fresh s), mkL (<[fresh s := mkDNode None None x]> (nodes s)) (_head s) (_size s) (Pos.succ (fresh s))).
Definition delete_node (p : dptr) : M lstate () := λ s,
  match p with
  | None => Ok ((), s)
  | Some a => match nodes s !! a with
              | Some _ => Ok ((), mkL (delete a (nodes s)) (_head s) (_size s) (fresh s))
              | None => Err DanglingPtr
              end
  end.
Definition set_size (f : nat → nat) : M lstate () :=
  modify (λ s, mkL (nodes s) (_head s) (f (_size s)) (fresh s)).

(** ** Operations *)
Definition no_list : lstate := mkL ∅ None 0 1%positive.

Definition empty_initialize : M lstate () :=
  h ← new_dnode T0;
  modify (λ s, mkL (nodes s) h (_size s) (fresh s));;
  hd ← gets _head; set_next hd hd;;
  set_prev hd hd;;
  set_size (λ _, 0).

Definition begin : M lstate dptr := h ← gets _head; get_next h.
Definition end_ : M lstate dptr := gets _head.

Definition insert (pos : dptr) (x : T) : M lstate dptr :=
  newnode ← new_dnode x;
  prev ← get_prev pos;
  set_next prev newnode;;
  set_prev newnode prev;;
  set_next newnode pos;;
  set_prev pos newnode;;
  set_size S;;
  mret newnode.

Definition erase (pos : dptr) : M lstate dptr :=
  e ← end_;
  assert_M (bool_decide (pos ≠ e));;
  prev ← get_prev pos;
  next ← get_next pos;
  set_next prev next;;
  set_prev next prev;;
  delete_node pos;;
  set_size Nat.pred;;
  mret next.

Definition push_back (x : T) : M lstate () := e ← end_; insert e x;; mret ().
Definition push_front (x : T) : M lstate () := b ← begin; insert b x;; mret ().
Definition pop_front : M lstate () := b ← begin; erase b;; mret ().
(** [erase(--end())] *)
Definition pop_back : M lstate () := e ← end_; p ← get_prev e; erase p;; mret ().
Definition empty : M lstate bool := n ← gets _size; mret (n =? 0).

(** [while (it != end()) it = erase(it);] *)
Fixpoint clear_from (fuel : nat) (it : dptr) : M lstate () :=
  match fuel with
  | 0 => fail OutOfFuel
  | S fuel =>
      e ← end_;
      if decide (it = e) then mret () else (it' ← erase it; clear_from fuel it')
  end.
Definition clear : M lstate () :=
  fuel ← gets (λ s, S (_size s)); b ← begin; clear_from fuel b.

(** [list(first, last)] over a sequence of values. *)
Fixpoint push_all (xs : list T) : M lstate () :=
  match xs with [] => mret () | x :: xs => push_back x;; push_all xs end.
Definition list_range (xs : list T) : M lstate () := empty_initialize;; push_all xs.

(** The values a loop from [begin()] to [end()] sees. *)
Fixpoint values_from (fuel : nat) (it : dptr) : M lstate (list T) :=
  match fuel with
  | 0 => fail OutOfFuel
  | S fuel =>
      e ← end_;
      if decide (it = e) then mret []
      else n ← node_at it; xs ← values_from fuel (_next n); mret (_data n :: xs)
  end.
Definition values : M lstate (list T) :=
  fuel ← gets (λ s, S (_size s)); b ← begin; values_from fuel b.

(** [~list()] *)
Definition destroy : M lstate () :=
  clear;; h ← gets _head; delete_node h;;
  modify (λ s, mkL (nodes s) None (_size s) (fresh s)).

(** ** Several lists

    Every list has the nodes it owns; [swap] exchanges [_head] and [_size], and with them
    the nodes. *)
Definition list_swap (s t : lstate) : lstate * lstate := (t, s).
(** The copy constructor: a range constructed beside an empty list, and exchanged with it. *)
Definition list_copy (lt : lstate) : res lstate :=
  '(xs, _) ← values lt;
  '(_, this) ← empty_initialize no_list;
  '(_, tmp) ← list_range xs no_list;
  let p := list_swap this tmp in
  '(_, _) ← destroy p.2;
  Ok p.1.
(** [operator=(list<T> lt)] *)
Definition list_assign (this lt : lstate) : res lstate :=
  lt ← list_copy lt;
  let p := list_swap this lt in
  '(_, _) ← destroy p.2;
  Ok p.1.

(** ** Shape *)
Implicit Types (m : gmap dloc list_node) (s : lstate) (cs : list (dloc * T)).

Definition next_of m a : dptr := m !! a ≫= _next.
Definition prev_of m a : dptr := m !! a ≫= _prev.
Definition linked m a b : Prop := next_of m a = Some b ∧ prev_of m b = Some a.
Fixpoint chain m (l : list dloc) : Prop :=
  match l with
  | a :: ((b :: _) as l') => linked m a b ∧ chain m l'
  | _ => True
  end.

(** The list at [h] holds the nodes [cs], in order. *)
Record DL (s : lstate) (h : dloc) (cs : list (dloc * T)) : Prop := {
  dl_head : _head s = Some h;
  dl_nodup : NoDup (h :: cs.*1);
  dl_chain : chain (nodes s) (h :: cs.*1 ++ [h]);
  dl_data : ∀ a x, (a, x) ∈ cs → _data <$> nodes s !! a = Some x;
  dl_dom : ∀ a, is_Some (nodes s !! a) ↔ a ∈ h :: cs.*1;
  dl_size : _size s = length cs;
  dl_fresh : ∀ a, a ∈ h :: cs.*1 → (a < fresh s)%positive;
}.

Lemma chain_app m l1 a l2 : chain m (l1 ++ a :: l2) ↔ chain m (l1 ++ [a]) ∧ chain m (a :: l2).
Proof.
  induction l1 as [|b l1 IH]; [simpl; tauto|].
  destruct l1 as [|c l1]; simpl in *; tauto.
Qed.

Lemma chain_frame m m' l :
  (∀ l1 a b l2, l = l1 ++ a :: b :: l2 → next_of m' a = next_of m a ∧ prev_of m' b = prev_of m b) →
  chain m l → chain m' l.
Proof.
  induction l as [|a l IH]; [done|]. destruct l as [|b l]; [done|].
  intros Hf [[H1 H2] Hc]. destruct (Hf [] a b l eq_refl) as [E1 E2].
  split; [split; congruence|]. apply IH; [|done]. intros l1 u v l2 E.
  apply (Hf (a :: l1) u v l2). by rewrite E.
Qed.

Lemma node_at_ok s a n : nodes s !! a = Some n → node_at (Some a) s = Ok (n, s).
Proof. intros H. unfold node_at. by rewrite H. Qed.
Lemma put_node_ok s a n f : nodes s !! a = Some n →
  put_node (Some a) f s = Ok ((), mkL (<[a := f n]> (nodes s)) (_head s) (_size s) (fresh s)).
Proof. intros H. unfold put_node. by rewrite H. Qed.
Lemma get_next_ok s a n : nodes s !! a = Some n → get_next (Some a) s = Ok (_next n, s).
Proof. intros H. unfold get_next. by erewrite bind_ok by (by apply node_at_ok). Qed.
Lemma get_prev_ok s a n : nodes s !! a = Some n → get_prev (Some a) s = Ok (_prev n, s).
Proof. intros H. unfold get_prev. by erewrite bind_ok by (by apply node_at_ok). Qed.

(** The neighbours of a place in the list: [cs = c1 ++ c2]. *)
Definition before_at (h : dloc) (c1 : list (dloc * T)) : dloc := default h (last c1.*1).
Definition at_pos (h : dloc) (c2 : list (dloc * T)) : dloc := default h (head c2.*1).

Lemma before_split h c1 : ∃ l, h :: c1.*1 = l ++ [before_at h c1].
Proof.
  unfold before_at. destruct c1 as [|[a x] c1 _] using rev_ind; [by exists []|].
  rewrite fmap_app. cbn [fmap list_fmap fst]. rewrite last_snoc. by exists (h :: c1.*1).
Qed.
Lemma at_pos_split h c2 : ∃ l, c2.*1 ++ [h] = at_pos h c2 :: l.
Proof. unfold at_pos. destruct c2 as [|[a x] c2]; [by exists []|]. by exists (c2.*1 ++ [h]). Qed.

(** Each link update, as a change of the link functions. *)
Definition same_data m m' : Prop :=
  (∀ u, _data <$> m' !! u = _data <$> m !! u) ∧ (∀ u, is_Some (m' !! u) ↔ is_Some (m !! u)).

Lemma set_next_eff s a v :
  is_Some (nodes s !! a) →
  ∃ m', set_next (Some a) v s = Ok ((), mkL m' (_head s) (_size s) (fresh s)) ∧ same_data (nodes s) m' ∧
    (∀ u, next_of m' u = if decide (u = a) then v else next_of (nodes s) u) ∧
    (∀ u, prev_of m' u = prev_of (nodes s) u).
Proof.
  intros [n Hn]. eexists. split; [unfold set_next; by rewrite (put_node_ok _ _ n)|].
  unfold same_data, next_of, prev_of. split_and!; intros u; destruct (decide (u = a)) as [->|Hu];
    rewrite ?lookup_insert_eq, ?(lookup_insert_ne _ a u), ?Hn by done; done || eauto.
Qed.
Lemma set_prev_eff s a v :
  is_Some (nodes s !! a) →
  ∃ m', set_prev (Some a) v s = Ok ((), mkL m' (_head s) (_size s) (fresh s)) ∧ same_data (nodes s) m' ∧
    (∀ u, prev_of m' u = if decide (u = a) then v else prev_of (nodes s) u) ∧
    (∀ u, next_of m' u = next_of (nodes s) u).
Proof.
  intros [n Hn]. eexists. split; [unfold set_prev; by rewrite (put_node_ok _ _ n)|].
  unfold same_data, next_of, prev_of. split_and!; intros u; destruct (decide (u = a)) as [->|Hu];
    rewrite ?lookup_insert_eq, ?(lookup_insert_ne _ a u), ?Hn by done; done || eauto.
Qed.

Lemma get_prev_eff s a : is_Some (nodes s !! a) → get_prev (Some a) s = Ok (prev_of (nodes s) a, s).
Proof. intros [n Hn]. rewrite (get_prev_ok _ _ n Hn). unfold prev_of. by rewrite Hn. Qed.
Lemma get_next_eff s a : is_Some (nodes s !! a) → get_next (Some a) s = Ok (next_of (nodes s) a, s).
Proof. intros [n Hn]. rewrite (get_next_ok _ _ n Hn). unfold next_of. by rewrite Hn. Qed.

(** The cells around a place. *)
Lemma DL_place s h c1 c2 :
  DL s h (c1 ++ c2) →
  ∃ L1 L2, h :: c1.*1 = L1 ++ [before_at h c1] ∧ c2.*1 ++ [h] = at_pos h c2 :: L2 ∧
    chain (nodes s) (L1 ++ [before_at h c1]) ∧ chain (nodes s) (at_pos h c2 :: L2) ∧
    linked (nodes s) (before_at h c1) (at_pos h c2) ∧
    is_Some (nodes s !! before_at h c1) ∧ is_Some (nodes s !! at_pos h c2).
Proof.
  intros HD. destruct (before_split h c1) as [L1 H1], (at_pos_split h c2) as [L2 H2].
  exists L1, L2. split; [done|]. split; [done|].
  pose proof (dl_chain _ _ _ HD) as Hc. rewrite fmap_app, <- app_assoc, app_comm_cons, H1, H2 in Hc.
  rewrite <- app_assoc in Hc. cbn [app] in Hc. apply chain_app in Hc as [Hc1 [Hlk Hc2]].
  split; [done|]. split; [done|]. split; [done|].
  split; apply (dl_dom _ _ _ HD); rewrite fmap_app, app_comm_cons, elem_of_app.
  - left. rewrite H1. set_solver.
  - assert (at_pos h c2 ∈ c2.*1 ++ [h]) as Hin by (rewrite H2; left). clear -Hin. set_solver.
Qed.

(** Consecutive elements of a list without duplicates. *)
Lemma pair_ends {A} (l l1 l2 : list A) u v :
  NoDup l → l = l1 ++ u :: v :: l2 → last l ≠ Some u ∧ head l ≠ Some v ∧ u ∈ l ∧ v ∈ l.
Proof.
  intros Hnd ->. apply NoDup_app in Hnd as (_ & Hdis & Hnd). apply NoDup_cons in Hnd as [Hu _].
  split_and!; [| |set_solver|set_solver].
  - rewrite last_app_cons, last_cons_cons. intros Hl%last_Some_elem_of. done.
  - destruct l1 as [|w l1]; simpl; intros [= ->]; [apply Hu; left|].
    apply (Hdis v); [left|set_solver].
Qed.

Lemma last_before h c1 : last (h :: c1.*1) = Some (before_at h c1).
Proof. unfold before_at. destruct (last c1.*1) eqn:E; rewrite last_cons, E; done. Qed.

(** A change between the two parts of a list does not touch the links inside
    them. *)
Lemma pairs_before h c1 c2 u v l1 l2 :
  NoDup (h :: (c1 ++ c2).*1) → h :: c1.*1 = l1 ++ u :: v :: l2 →
  u ≠ before_at h c1 ∧ v ≠ at_pos h c2 ∧ u ∈ h :: c1.*1 ∧ v ∈ h :: c1.*1.
Proof.
  intros Hnd Hp. rewrite fmap_app, app_comm_cons in Hnd. apply NoDup_app in Hnd as (Hnd1 & Hdis & Hnd2).
  destruct (pair_ends _ _ _ _ _ Hnd1 Hp) as (Hl & Hh & Hu & Hv). rewrite last_before in Hl.
  split_and!; [congruence| |done|done]. unfold at_pos. destruct c2 as [|[b y] c2]; simpl in *; [congruence|].
  intros ->. apply (Hdis b); [done|left].
Qed.
Lemma pairs_after h c1 c2 u v l1 l2 :
  NoDup (h :: (c1 ++ c2).*1) → c2.*1 ++ [h] = l1 ++ u :: v :: l2 →
  u ≠ before_at h c1 ∧ v ≠ at_pos h c2 ∧ u ∈ c2.*1 ∧ v ∈ h :: c2.*1.
Proof.
  intros Hnd Hp. rewrite fmap_app, app_comm_cons in Hnd. apply NoDup_app in Hnd as (Hnd1 & Hdis & Hnd2).
  assert (Hnd : NoDup (c2.*1 ++ [h])).
  { apply NoDup_app. split; [done|]. split; [|apply NoDup_singleton]. intros z Hz ->%list_elem_of_singleton.
    apply (Hdis h); [left|done]. }
  destruct (pair_ends _ _ _ _ _ Hnd Hp) as (Hl & Hh & Hu & Hv). rewrite last_snoc in Hl.
  assert (u ∈ c2.*1) by (apply elem_of_app in Hu as [?|E%list_elem_of_singleton]; [done|congruence]).
  split_and!; [|destruct (at_pos_split h c2) as [L E]; rewrite E in Hh; simpl in Hh; congruence|done|set_solver].
  intros ->. apply (Hdis (before_at h c1)); [|done]. apply last_Some_elem_of. apply last_before.
Qed.

(** ** Insertion *)
Lemma insert_links s a b x :
  nodes s !! fresh s = None → is_Some (nodes s !! a) → is_Some (nodes s !! b) → linked (nodes s) a b →
  let n := fresh s in
  ∃ m', insert (Some b) x s = Ok (Some n, mkL m' (_head s) (S (_size s)) (Pos.succ n)) ∧
    (∀ u, next_of m' u = if decide (u = n) then Some b else if decide (u = a) then Some n else next_of (nodes s) u) ∧
    (∀ u, prev_of m' u = if decide (u = b) then Some n else if decide (u = n) then Some a else prev_of (nodes s) u) ∧
    (∀ u, _data <$> m' !! u = if decide (u = n) then Some x else _data <$> nodes s !! u) ∧
    (∀ u, is_Some (m' !! u) ↔ u = n ∨ is_Some (nodes s !! u)).
Proof.
  intros Hnn Ha Hb [Hn Hp] n.
  assert (Hna : a ≠ n) by (intros E; rewrite E in Ha; unfold n in Ha; rewrite Hnn in Ha; by destruct Ha).
  assert (Hnb : b ≠ n) by (intros E; rewrite E in Hb; unfold n in Hb; rewrite Hnn in Hb; by destruct Hb).
  unfold insert. erewrite bind_ok by reflexivity. fold n.
  set (m0 := <[n := mkDNode None None x]> (nodes s)). set (s0 := mkL m0 _ _ _).
  assert (Hm0 : ∀ u, u ≠ n → m0 !! u = nodes s !! u) by (intros; unfold m0; by rewrite lookup_insert_ne).
  assert (I0 : ∀ u, is_Some (nodes s0 !! u) ↔ u = n ∨ is_Some (nodes s !! u)).
  { intros u. unfold s0, m0. simpl. rewrite lookup_insert_is_Some'. naive_solver. }
  assert (Hpb : get_prev (Some b) s0 = Ok (Some a, s0)).
  { rewrite get_prev_eff by (apply I0; auto). unfold prev_of. simpl. rewrite Hm0 by done. fold (prev_of (nodes s) b). by rewrite Hp. }
  erewrite bind_ok by exact Hpb.
  destruct (set_next_eff s0 a (Some n)) as (m1 & E1 & [D1 I1] & N1 & P1); [apply I0; auto|].
  erewrite bind_ok by exact E1.
  destruct (set_prev_eff (mkL m1 (_head s0) (_size s0) (fresh s0)) n (Some a)) as (m2 & E2 & [D2 I2] & P2 & N2);
    [apply I1, I0; auto|]. erewrite bind_ok by exact E2. cbn [nodes _head _size fresh s0] in *.
  destruct (set_next_eff (mkL m2 (_head s) (_size s) (Pos.succ n)) n (Some b)) as (m3 & E3 & [D3 I3] & N3 & P3);
    [apply I2, I1, I0; auto|]. erewrite bind_ok by exact E3. cbn [nodes _head _size fresh] in *.
  destruct (set_prev_eff (mkL m3 (_head s) (_size s) (Pos.succ n)) b (Some n)) as (m4 & E4 & [D4 I4] & P4 & N4);
    [apply I3, I2, I1, I0; auto|]. erewrite bind_ok by exact E4. cbn [nodes _head _size fresh] in *.
  erewrite bind_ok by reflexivity. exists m4. split; [reflexivity|]. split_and!; intros u.
  - rewrite N4, N3. destruct (decide (u = n)) as [->|Hu]; [done|]. rewrite N2, N1.
    destruct (decide (u = a)); [done|]. unfold next_of. by rewrite Hm0.
  - rewrite P4. destruct (decide (u = b)); [done|]. rewrite P3, P2.
    destruct (decide (u = n)); [done|]. rewrite P1. unfold prev_of. by rewrite Hm0.
  - rewrite D4, D3, D2, D1. destruct (decide (u = n)) as [->|Hu]; [|by rewrite Hm0].
    unfold m0. by rewrite lookup_insert_eq.
  - by rewrite I4, I3, I2, I1, I0.
Qed.

Lemma list_insert_spec s h c1 c2 x :
  DL s h (c1 ++ c2) →
  ∃ s', insert (Some (at_pos h c2)) x s = Ok (Some (fresh s), s') ∧ DL s' h (c1 ++ (fresh s, x) :: c2).
Proof.
  intros HD. destruct (DL_place _ _ _ _ HD) as (L1 & L2 & H1 & H2 & Hc1 & Hc2 & Hlk & Ha & Hb).
  assert (Hfr : fresh s ∉ h :: (c1 ++ c2).*1) by (intros Hx%(dl_fresh _ _ _ HD); lia).
  assert (Hnn : nodes s !! fresh s = None) by (apply eq_None_not_Some; by rewrite (dl_dom _ _ _ HD)).
  destruct (insert_links s _ _ x Hnn Ha Hb Hlk) as (m' & He & HN & HP & HDa & HI).
  set (n := fresh s) in *. pose proof (dl_nodup _ _ _ HD) as Hnd.
  assert (Hin : ∀ u, u ∈ h :: c1.*1 ∨ u ∈ h :: c2.*1 → u ≠ n).
  { intros u Hu ->. apply Hfr. rewrite fmap_app. set_solver. }
  assert (Hperm : h :: (c1 ++ (n, x) :: c2).*1 ≡ₚ n :: h :: (c1 ++ c2).*1).
  { rewrite !fmap_app, fmap_cons. simpl. rewrite <- Permutation_middle. apply perm_swap. }
  assert (Hna : before_at h c1 ≠ n) by (intros E; rewrite E, Hnn in Ha; by destruct Ha).
  assert (Hnb : at_pos h c2 ≠ n) by (intros E; rewrite E, Hnn in Hb; by destruct Hb).
  eexists. split; [exact He|]. split; cbn [nodes _head _size fresh].
  - apply (dl_head _ _ _ HD).
  - rewrite Hperm. by constructor.
  - rewrite fmap_app, fmap_cons. cbn [fst]. rewrite <- app_assoc. cbn [app].
    rewrite app_comm_cons, H1, H2, <- app_assoc. cbn [app].
    apply chain_app. split; [|split; [|split]].
    + rewrite <- H1 in *. eapply chain_frame; [|exact Hc1]. intros l1 u v l2 Hp.
      destruct (pairs_before _ _ c2 _ _ _ _ Hnd Hp) as (Hu & Hv & Hu' & Hv').
      rewrite HN, HP. by rewrite !decide_False by (auto || apply Hin; auto).
    + split; [by rewrite HN, decide_False, decide_True|].
      by rewrite HP, decide_False, decide_True.
    + split; [by rewrite HN, decide_True|by rewrite HP, decide_True].
    + rewrite <- H2 in *. eapply chain_frame; [|exact Hc2]. intros l1 u v l2 Hp.
      destruct (pairs_after _ c1 _ _ _ _ _ Hnd Hp) as (Hu & Hv & Hu' & Hv').
      rewrite HN, HP. rewrite !decide_False; [done|..]; try done; apply Hin; set_solver.
  - intros u y Hu. rewrite HDa. apply elem_of_app in Hu. rewrite elem_of_cons in Hu.
    assert ((u, y) ∈ c1 ++ c2 ∨ (u, y) = (n, x)) as [Hu'|[= -> ->]] by (rewrite elem_of_app; tauto);
      [|by rewrite decide_True].
    rewrite decide_False; [by apply (dl_data _ _ _ HD)|]. intros ->. apply Hfr. right.
    by apply (list_elem_of_fmap_2 fst _ (n, y)).
  - intros u. by rewrite HI, (dl_dom _ _ _ HD), Hperm, (elem_of_cons _ u n).
  - rewrite (dl_size _ _ _ HD), !length_app. simpl. lia.
  - intros u. rewrite Hperm, elem_of_cons. intros [->|Hu%(dl_fresh _ _ _ HD)]; unfold n in *; lia.
Qed.
(** ** Erasure *)
Lemma erase_links s h a p b :
  _head s = Some h → p ≠ h → is_Some (nodes s !! a) → is_Some (nodes s !! p) → is_Some (nodes s !! b) →
  linked (nodes s) a p → linked (nodes s) p b →
  ∃ m', erase (Some p) s = Ok (Some b, mkL m' (_head s) (Nat.pred (_size s)) (fresh s)) ∧
    (∀ u, u ≠ p → next_of m' u = if decide (u = a) then Some b else next_of (nodes s) u) ∧
    (∀ u, u ≠ p → prev_of m' u = if decide (u = b) then Some a else prev_of (nodes s) u) ∧
    (∀ u, u ≠ p → _data <$> m' !! u = _data <$> nodes s !! u) ∧
    (∀ u, is_Some (m' !! u) ↔ u ≠ p ∧ is_Some (nodes s !! u)).
Proof.
  intros Hh Hph Ha Hp Hb [_ Hpa] [Hnb _]. unfold erase, end_. erewrite bind_ok by reflexivity.
  rewrite Hh. rewrite bool_decide_eq_true_2 by congruence. erewrite bind_ok by reflexivity.
  erewrite bind_ok by (by apply get_prev_eff). rewrite Hpa.
  erewrite bind_ok by (by apply get_next_eff). rewrite Hnb.
  destruct (set_next_eff s a (Some b) Ha) as (m1 & E1 & [D1 I1] & N1 & P1). erewrite bind_ok by exact E1.
  destruct (set_prev_eff (mkL m1 (_head s) (_size s) (fresh s)) b (Some a)) as (m2 & E2 & [D2 I2] & P2 & N2);
    [by apply I1|]. erewrite bind_ok by exact E2. cbn [nodes _head _size fresh] in *.
  assert (is_Some (m2 !! p)) as [np Hnp] by (by apply I2, I1).
  assert (Ed : delete_node (Some p) (mkL m2 (_head s) (_size s) (fresh s))
               = Ok ((), mkL (delete p m2) (_head s) (_size s) (fresh s))) by (unfold delete_node; simpl; by rewrite Hnp).
  erewrite bind_ok by exact Ed.
  erewrite bind_ok by reflexivity. exists (delete p m2).
  split; [unfold mret, M_ret; simpl; by rewrite Hh|].
  split; [|split; [|split]]; intros u; try intros Hu.
  - unfold next_of. rewrite lookup_delete_ne by done. fold (next_of m2 u). by rewrite N2, N1.
  - unfold prev_of. rewrite lookup_delete_ne by done. fold (prev_of m2 u). rewrite P2.
    destruct (decide (u = b)); [done|]. apply P1.
  - rewrite lookup_delete_ne by done. by rewrite D2, D1.
  - rewrite lookup_delete_is_Some. rewrite I2, I1. naive_solver.
Qed.

Lemma list_erase_spec s h c1 p x c2 :
  DL s h (c1 ++ (p, x) :: c2) →
  ∃ s', erase (Some p) s = Ok (Some (at_pos h c2), s') ∧ DL s' h (c1 ++ c2) ∧ fresh s' = fresh s.
Proof.
  intros HD. destruct (DL_place s h c1 ((p, x) :: c2) HD) as (L1 & L2 & H1 & H2 & Hc1 & _ & Hlk1 & Ha & Hp).
  assert (HD' : DL s h ((c1 ++ [(p, x)]) ++ c2)) by (by rewrite <- app_assoc).
  destruct (DL_place s h (c1 ++ [(p, x)]) c2 HD') as (_ & L4 & _ & H4 & _ & Hc2 & Hlk2 & _ & Hb).
  assert (Hbp : before_at h (c1 ++ [(p, x)]) = p) by (unfold before_at; rewrite fmap_app; cbn; by rewrite last_snoc).
  rewrite Hbp in Hlk2. change (at_pos h ((p, x) :: c2)) with p in *.
  pose proof (dl_nodup _ _ _ HD) as Hnd.
  assert (Hperm : h :: (c1 ++ (p, x) :: c2).*1 ≡ₚ p :: h :: (c1 ++ c2).*1).
  { rewrite !fmap_app, fmap_cons. simpl. rewrite <- Permutation_middle. apply perm_swap. }
  rewrite Hperm in Hnd. apply NoDup_cons in Hnd as [Hpn Hnd].
  assert (Hph : p ≠ h) by (intros ->; apply Hpn; left).
  destruct (erase_links s h _ p _ (dl_head _ _ _ HD) Hph Ha Hp Hb Hlk1 Hlk2) as (m' & He & HN & HP & HDa & HI).
  assert (Hin : ∀ u, u ∈ h :: c1.*1 ∨ u ∈ h :: c2.*1 → u ≠ p).
  { intros u Hu ->. apply Hpn. rewrite fmap_app. set_solver. }
  assert (Hap : before_at h c1 ≠ p) by (apply Hin; left; rewrite H1; set_solver).
  assert (Hbb : at_pos h c2 ≠ p).
  { apply Hin. right. assert (at_pos h c2 ∈ c2.*1 ++ [h]) by (rewrite H4; left). set_solver. }
  eexists. split; [exact He|]. split; [|done]. split; cbn [nodes _head _size fresh].
  - apply (dl_head _ _ _ HD).
  - done.
  - rewrite fmap_app, <- app_assoc, app_comm_cons, H1, H4, <- app_assoc. cbn [app].
    apply chain_app. split; [|split].
    + rewrite <- H1 in *. eapply chain_frame; [|exact Hc1]. intros l1 u v l2 Hpp.
      destruct (pairs_before _ _ c2 _ _ _ _ Hnd Hpp) as (Hu & Hv & Hu' & Hv').
      rewrite HN, HP by (apply Hin; auto). by rewrite !decide_False.
    + split; [by rewrite HN, decide_True|by rewrite HP, decide_True].
    + rewrite <- H4 in *. eapply chain_frame; [|exact Hc2]. intros l1 u v l2 Hpp.
      destruct (pairs_after _ c1 _ _ _ _ _ Hnd Hpp) as (Hu & Hv & Hu' & Hv').
      rewrite HN, HP by (apply Hin; set_solver). by rewrite !decide_False.
  - intros u y Hu. rewrite HDa; [apply (dl_data _ _ _ HD); set_solver|].
    intros ->. apply Hpn. right. by apply (list_elem_of_fmap_2 fst _ (p, y)).
  - intros u. rewrite HI, (dl_dom _ _ _ HD), Hperm, (elem_of_cons _ u p). split; [naive_solver|].
    intros Hu. split; [|by right]. intros ->. done.
  - rewrite (dl_size _ _ _ HD), !length_app. simpl. lia.
  - intros u Hu. apply (dl_fresh _ _ _ HD). rewrite Hperm. by right.
Qed.

(** ** Derived operations *)
Lemma begin_spec s h cs : DL s h cs → begin s = Ok (Some (at_pos h cs), s).
Proof.
  intros HD. unfold begin. erewrite bind_ok by reflexivity. rewrite (dl_head _ _ _ HD).
  destruct (DL_place s h [] cs HD) as (_ & _ & _ & _ & _ & _ & [Hn _] & Ha & _).
  change (before_at h []) with h in *. rewrite get_next_eff by exact Ha. by rewrite Hn.
Qed.
Lemma end_spec s h cs : DL s h cs → end_ s = Ok (Some h, s).
Proof. intros HD. unfold end_, gets. by rewrite (dl_head _ _ _ HD). Qed.
Lemma last_spec s h cs : DL s h cs → get_prev (Some h) s = Ok (Some (before_at h cs), s).
Proof.
  intros HD. assert (HD' : DL s h (cs ++ [])) by (by rewrite app_nil_r).
  destruct (DL_place s h cs [] HD') as (_ & _ & _ & _ & _ & _ & [_ Hp] & _ & Hb).
  change (at_pos h []) with h in *. rewrite get_prev_eff by exact Hb. by rewrite Hp.
Qed.

Lemma list_push_back_spec s h cs x :
  DL s h cs → ∃ s', push_back x s = Ok ((), s') ∧ DL s' h (cs ++ [(fresh s, x)]).
Proof.
  intros HD. unfold push_back. erewrite bind_ok by (by eapply end_spec).
  destruct (list_insert_spec s h cs [] x) as (s' & He & HD'); [by rewrite app_nil_r|].
  exists s'. split; [|done]. by erewrite bind_ok by exact He.
Qed.
Lemma push_front_spec s h cs x :
  DL s h cs → ∃ s', push_front x s = Ok ((), s') ∧ DL s' h ((fresh s, x) :: cs).
Proof.
  intros HD. unfold push_front. erewrite bind_ok by (by eapply begin_spec).
  destruct (list_insert_spec s h [] cs x HD) as (s' & He & HD').
  exists s'. split; [|done]. by erewrite bind_ok by exact He.
Qed.
Lemma erase_end s h cs : DL s h cs → erase (Some h) s = Err AssertFailed.
Proof.
  intros HD. unfold erase. erewrite bind_ok by (by eapply end_spec).
  rewrite bool_decide_eq_false_2 by tauto. done.
Qed.
Lemma pop_front_spec s h cs :
  DL s h cs →
  match cs with
  | [] => pop_front s = Err AssertFailed
  | _ :: cs' => ∃ s', pop_front s = Ok ((), s') ∧ DL s' h cs'
  end.
Proof.
  intros HD. unfold pop_front. destruct cs as [|[p x] cs].
  - erewrite bind_ok by (by eapply begin_spec). erewrite bind_err by (by eapply erase_end). done.
  - erewrite bind_ok by (by eapply begin_spec). cbn.
    destruct (list_erase_spec s h [] p x cs HD) as (s' & He & HD' & _). exists s'. split; [|done].
    by erewrite bind_ok by exact He.
Qed.
Lemma list_pop_back_spec s h cs :
  DL s h cs →
  (cs = [] → pop_back s = Err AssertFailed) ∧
  (∀ cs' e, cs = cs' ++ [e] → ∃ s', pop_back s = Ok ((), s') ∧ DL s' h cs').
Proof.
  intros HD. unfold pop_back. split.
  - intros ->. erewrite bind_ok by (by eapply end_spec). erewrite bind_ok by (by eapply last_spec).
    by erewrite bind_err by (by eapply erase_end).
  - intros cs' [p x] ->. erewrite bind_ok by (by eapply end_spec). erewrite bind_ok by (by eapply last_spec).
    assert (before_at h (cs' ++ [(p, x)]) = p) as -> by (unfold before_at; rewrite fmap_app; cbn; by rewrite last_snoc).
    destruct (list_erase_spec s h cs' p x [] HD) as (s' & He & HD' & _). rewrite app_nil_r in HD'.
    exists s'. split; [|done]. by erewrite bind_ok by exact He.
Qed.

Lemma DL_at_pos_ne s h p x cs : DL s h ((p, x) :: cs) → p ≠ h.
Proof. intros HD ->. pose proof (dl_nodup _ _ _ HD) as Hnd. apply NoDup_cons in Hnd as [Hn _]. apply Hn. left. Qed.

Lemma clear_from_spec fuel s h cs :
  DL s h cs → length cs < fuel →
  ∃ s', clear_from fuel (Some (at_pos h cs)) s = Ok ((), s') ∧ DL s' h [].
Proof.
  revert s cs. induction fuel as [|fuel IH]; intros s cs HD Hf; [lia|]. cbn [clear_from].
  erewrite bind_ok by (by eapply end_spec). destruct cs as [|[p x] cs]; cbn.
  { rewrite decide_True by done. by exists s. }
  rewrite decide_False by (intros [= E]; by eapply DL_at_pos_ne).
  destruct (list_erase_spec s h [] p x cs HD) as (s1 & He & HD1 & _). simpl in Hf.
  erewrite bind_ok by exact He. apply IH; [done|lia].
Qed.
Lemma list_clear_spec s h cs : DL s h cs → ∃ s', clear s = Ok ((), s') ∧ DL s' h [].
Proof.
  intros HD. unfold clear. erewrite bind_ok by reflexivity. erewrite bind_ok by (by eapply begin_spec).
  apply clear_from_spec; [done|]. rewrite (dl_size _ _ _ HD). lia.
Qed.

Lemma values_from_spec fuel s h c1 c2 :
  DL s h (c1 ++ c2) → length c2 < fuel →
  values_from fuel (Some (at_pos h c2)) s = Ok (c2.*2, s).
Proof.
  revert c1 c2. induction fuel as [|fuel IH]; intros c1 c2 HD Hf; [lia|]. cbn [values_from].
  erewrite bind_ok by (by eapply end_spec). destruct c2 as [|[p x] c2].
  { by rewrite decide_True. }
  change (at_pos h ((p, x) :: c2)) with p.
  assert (Hph : p ≠ h).
  { intros ->. pose proof (dl_nodup _ _ _ HD) as Hnd. apply NoDup_cons in Hnd as [Hn _]. apply Hn.
    rewrite fmap_app. set_solver. }
  rewrite decide_False by congruence.
  pose proof (dl_data _ _ _ HD p x) as Hd. destruct (nodes s !! p) as [n|] eqn:En; [|by exfalso; discriminate Hd; set_solver].
  erewrite bind_ok by (by apply node_at_ok).
  assert (HD' : DL s h ((c1 ++ [(p, x)]) ++ c2)) by (by rewrite <- app_assoc).
  destruct (DL_place s h (c1 ++ [(p, x)]) c2 HD') as (_ & _ & _ & _ & _ & _ & [Hn _] & _).
  assert (before_at h (c1 ++ [(p, x)]) = p) as E by (unfold before_at; rewrite fmap_app; cbn; by rewrite last_snoc).
  rewrite E in Hn. unfold next_of in Hn. rewrite En in Hn. simpl in Hn, Hf. rewrite Hn.
  erewrite bind_ok by (apply (IH (c1 ++ [(p, x)])); [done|lia]).
  assert (_data n = x) as ->; [|done]. specialize (Hd ltac:(set_solver)). by injection Hd.
Qed.
Lemma values_spec s h cs : DL s h cs → values s = Ok (cs.*2, s).
Proof.
  intros HD. unfold values. erewrite bind_ok by reflexivity. erewrite bind_ok by (by eapply begin_spec).
  apply (values_from_spec _ s h []); [done|]. rewrite (dl_size _ _ _ HD). lia.
Qed.
(** ** The list as a sequence *)
Lemma empty_initialize_spec :
  ∃ s, empty_initialize no_list = Ok ((), s) ∧ DL s 1%positive [].
Proof.
  exists (mkL {[1%positive := mkDNode (Some 1%positive) (Some 1%positive) T0]} (Some 1%positive) 0 2%positive).
  split; [vm_compute; reflexivity|]. split; simpl.
  - done.
  - apply NoDup_singleton.
  - split; [|done]. unfold linked, next_of, prev_of. by rewrite lookup_singleton_eq.
  - intros a x Hx. by apply not_elem_of_nil in Hx.
  - intros a. rewrite list_elem_of_singleton, lookup_singleton_is_Some. split; congruence.
  - done.
  - intros a ->%list_elem_of_singleton. lia.
Qed.

(** Operations at positions counted from the front. *)
Fixpoint advance (n : nat) (it : dptr) : M lstate dptr :=
  match n with 0 => mret it | S n => it' ← get_next it; advance n it' end.

Inductive list_op :=
  | PushBack (x : T) | PushFront (x : T) | PopBack | PopFront
  | InsertAt (i : nat) (x : T) | EraseAt (i : nat) | Clear.

Definition do_list_op (o : list_op) : M lstate () :=
  match o with
  | PushBack x => push_back x
  | PushFront x => push_front x
  | PopBack => pop_back
  | PopFront => pop_front
  | InsertAt i x => b ← begin; it ← advance i b; insert it x;; mret ()
  | EraseAt i => b ← begin; it ← advance i b; erase it;; mret ()
  | Clear => clear
  end.

(** The same on a sequence; none where the [assert] of [erase] fails. *)
Definition seq_op (o : list_op) (xs : list T) : option (list T) :=
  match o with
  | PushBack x => Some (xs ++ [x])
  | PushFront x => Some (x :: xs)
  | PopBack => match xs with [] => None | _ => Some (take (Nat.pred (length xs)) xs) end
  | PopFront => match xs with [] => None | _ :: xs => Some xs end
  | InsertAt i x => Some (take i xs ++ x :: drop i xs)
  | EraseAt i => if decide (i < length xs) then Some (take i xs ++ drop (S i) xs) else None
  | Clear => Some []
  end.
(** Positions are within the list; [end()] is one of them. *)
Definition op_in_range (o : list_op) (xs : list T) : Prop :=
  match o with InsertAt i _ | EraseAt i => i ≤ length xs | _ => True end.

Lemma advance_spec n s h c1 c2 :
  DL s h (c1 ++ c2) → n ≤ length c2 →
  advance n (Some (at_pos h c2)) s = Ok (Some (at_pos h (drop n c2)), s).
Proof.
  revert c1 c2. induction n as [|n IH]; intros c1 c2 HD Hn; [by rewrite drop_0|].
  destruct c2 as [|[p x] c2]; simpl in Hn; [lia|]. cbn [advance].
  assert (HD' : DL s h ((c1 ++ [(p, x)]) ++ c2)) by (by rewrite <- app_assoc).
  destruct (DL_place s h (c1 ++ [(p, x)]) c2 HD') as (_ & _ & _ & _ & _ & _ & [Hnx _] & Hp & _).
  assert (before_at h (c1 ++ [(p, x)]) = p) as E by (unfold before_at; rewrite fmap_app; cbn; by rewrite last_snoc).
  rewrite E in Hnx, Hp. change (at_pos h ((p, x) :: c2)) with p.
  erewrite bind_ok by (by apply get_next_eff). rewrite Hnx. apply (IH (c1 ++ [(p, x)]) c2); [done|lia].
Qed.

Lemma do_list_op_spec o s h cs :
  DL s h cs → op_in_range o cs.*2 →
  match seq_op o cs.*2 with
  | None => do_list_op o s = Err AssertFailed
  | Some xs => ∃ s' cs', do_list_op o s = Ok ((), s') ∧ DL s' h cs' ∧ cs'.*2 = xs
  end.
Proof.
  intros HD Hr. destruct o as [x|x| | |i x|i|]; cbn [seq_op do_list_op op_in_range] in *.
  - destruct (list_push_back_spec s h cs x HD) as (s' & He & HD'). eexists s', _. split; [done|]. split; [done|].
    by rewrite fmap_app.
  - destruct (push_front_spec s h cs x HD) as (s' & He & HD'). eauto 10.
  - destruct (list_pop_back_spec s h cs HD) as [H1 H2]. destruct cs as [|e cs _] using rev_ind; [by apply H1|].
    destruct (H2 _ _ eq_refl) as (s' & He & HD'). rewrite fmap_app. cbn [fmap list_fmap].
    destruct (cs.*2 ++ [e.2]) eqn:E; [by destruct (cs.*2)|]. rewrite <- E. eexists s', _. split; [done|].
    split; [done|]. rewrite length_app. simpl. rewrite Nat.add_1_r. cbn [Nat.pred]. by rewrite take_app_length.
  - pose proof (pop_front_spec s h cs HD) as Hp. destruct cs as [|e cs]; [done|].
    destruct Hp as (s' & He & HD'). cbn. eauto.
  - rewrite length_fmap in Hr. erewrite bind_ok by (by eapply begin_spec).
    erewrite bind_ok by (by apply (advance_spec _ _ _ [])).
    destruct (list_insert_spec s h (take i cs) (drop i cs) x) as (s' & He & HD'); [by rewrite take_drop|].
    eexists s', _. split; [by erewrite bind_ok by exact He|]. split; [done|].
    by rewrite fmap_app, fmap_cons, fmap_take, fmap_drop.
  - rewrite length_fmap in *. erewrite bind_ok by (by eapply begin_spec).
    erewrite bind_ok by (by apply (advance_spec _ _ _ [])).
    case_decide as Hi.
    + destruct (lookup_lt_is_Some_2 cs i Hi) as [[p x] Hx]. rewrite (drop_S _ _ _ Hx).
      destruct (list_erase_spec s h (take i cs) p x (drop (S i) cs)) as (s' & He & HD' & _).
      { by rewrite <- (drop_S _ _ _ Hx), take_drop. }
      eexists s', _. split; [by erewrite bind_ok by exact He|]. split; [done|].
      by rewrite fmap_app, fmap_take, fmap_drop.
    + rewrite drop_ge by lia. by erewrite bind_err by (by eapply erase_end).
  - destruct (list_clear_spec s h cs HD) as (s' & He & HD'). eexists s', _. by split; [|split].
Qed.

(** ** Lists in variables *)
Definition LRep s (xs : list T) : Prop := ∃ h cs, DL s h cs ∧ cs.*2 = xs.

Lemma LRep_empty : ∃ s, empty_initialize no_list = Ok ((), s) ∧ LRep s [].
Proof. destruct empty_initialize_spec as (s & H & HD). exists s. split; [done|]. by eexists _, []. Qed.
Lemma LRep_op o s xs :
  LRep s xs → op_in_range o xs →
  match seq_op o xs with
  | None => do_list_op o s = Err AssertFailed
  | Some xs' => ∃ s', do_list_op o s = Ok ((), s') ∧ LRep s' xs'
  end.
Proof.
  intros (h & cs & HD & <-) Hr. pose proof (do_list_op_spec o s h cs HD Hr) as Hs.
  destruct (seq_op o cs.*2); [|done]. destruct Hs as (s' & cs' & ? & ? & ?). exists s'. split; [done|]. by exists h, cs'.
Qed.
Lemma LRep_push_all xs s ys : LRep s ys → ∃ s', push_all xs s = Ok ((), s') ∧ LRep s' (ys ++ xs).
Proof.
  revert s ys. induction xs as [|x xs IH]; intros s ys HR; [exists s; by rewrite app_nil_r|].
  destruct (LRep_op (PushBack x) s ys HR I) as (s1 & H1 & HR1). destruct (IH s1 _ HR1) as (s2 & H2 & HR2).
  exists s2. rewrite <- app_assoc in HR2. split; [|done]. cbn [push_all]. by erewrite bind_ok by exact H1.
Qed.
(** The destructor frees every node. *)
Lemma list_destroy_spec s xs : LRep s xs → ∃ s', destroy s = Ok ((), s') ∧ nodes s' = ∅ ∧ _head s' = None.
Proof.
  intros (h & cs & HD & _). destruct (list_clear_spec s h cs HD) as (s1 & H1 & HD1). unfold destroy.
  erewrite bind_ok by exact H1. unfold gets, mbind, M_bind. rewrite (dl_head _ _ _ HD1). unfold delete_node.
  assert (Hh : is_Some (nodes s1 !! h)) by (apply (dl_dom _ _ _ HD1); by left). destruct Hh as [n Hn]. rewrite Hn.
  eexists. split; [reflexivity|]. split; [|done]. cbn. apply map_eq. intros a. rewrite lookup_empty.
  destruct (decide (a = h)) as [->|Hne]; [by rewrite lookup_delete_eq|]. rewrite lookup_delete_ne by done.
  destruct (nodes s1 !! a) eqn:E; [|done]. assert (Ha : a ∈ h :: ([] : list (dloc * T)).*1) by (apply (dl_dom _ _ _ HD1); by rewrite E).
  by apply list_elem_of_singleton in Ha.
Qed.
Lemma list_copy_spec s xs : LRep s xs → ∃ s', list_copy s = Ok s' ∧ LRep s' xs.
Proof.
  intros (h & cs & HD & <-). unfold list_copy. rewrite (values_spec _ _ _ HD). cbn [mbind res_bind].
  destruct LRep_empty as (s0 & H0 & HR0). rewrite H0. cbn [mbind res_bind].
  destruct (LRep_push_all cs.*2 s0 [] HR0) as (s1 & H1 & HR1). unfold list_range. erewrite bind_ok by exact H0.
  rewrite H1. cbn [mbind res_bind list_swap fst snd]. destruct (list_destroy_spec s0 [] HR0) as (s2 & -> & _).
  by exists s1.
Qed.
Lemma list_assign_spec s t xs ys : LRep s xs → LRep t ys → ∃ s', list_assign s t = Ok s' ∧ LRep s' ys.
Proof.
  intros Hs Ht. unfold list_assign. destruct (list_copy_spec t ys Ht) as (t' & -> & Ht'). cbn [mbind res_bind list_swap fst snd].
  destruct (list_destroy_spec s xs Hs) as (s2 & -> & _). by exists t'.
Qed.

Inductive list_prog :=
  | LNew (a : nat) | LCopy (a b : nat) | LAssign (a b : nat) | LSwap (a b : nat) | LDestroy (a : nat) | LOp (a : nat) (o : list_op).
Definition do_prog (o : list_prog) (m : gmap nat lstate) : res (gmap nat lstate) :=
  match o with
  | LNew a => fresh_var m a;; '(_, s) ← empty_initialize no_list; Ok (<[a := s]> m)
  | LCopy a b => fresh_var m a;; s ← lookup_var m b; t ← list_copy s; Ok (<[a := t]> m)
  | LAssign a b => s ← lookup_var m a; t ← lookup_var m b; s' ← list_assign s t; Ok (<[a := s']> m)
  | LSwap a b => s ← lookup_var m a; t ← lookup_var m b; let p := list_swap s t in Ok (<[b := p.2]> (<[a := p.1]> m))
  | LDestroy a => s ← lookup_var m a; '(_, _) ← destroy s; Ok (delete a m)
  | LOp a o => s ← lookup_var m a; '(_, s') ← do_list_op o s; Ok (<[a := s']> m)
  end.
(** The same over sequences. *)
Definition seq_prog (o : list_prog) (m : gmap nat (list T)) : res (gmap nat (list T)) :=
  match o with
  | LNew a => fresh_var m a;; Ok (<[a := []]> m)
  | LCopy a b => fresh_var m a;; ys ← lookup_var m b; Ok (<[a := ys]> m)
  | LAssign a b => lookup_var m a;; ys ← lookup_var m b; Ok (<[a := ys]> m)
  | LSwap a b => xs ← lookup_var m a; ys ← lookup_var m b; Ok (<[b := xs]> (<[a := ys]> m))
  | LDestroy a => lookup_var m a;; Ok (delete a m)
  | LOp a o => xs ← lookup_var m a; match seq_op o xs with Some xs' => Ok (<[a := xs']> m) | None => Err AssertFailed end
  end.
Fixpoint do_progs (os : list list_prog) (m : gmap nat lstate) : res (gmap nat lstate) :=
  match os with [] => Ok m | o :: os => m ← do_prog o m; do_progs os m end.
Fixpoint seq_progs (os : list list_prog) (m : gmap nat (list T)) : res (gmap nat (list T)) :=
  match os with [] => Ok m | o :: os => m ← seq_prog o m; seq_progs os m end.
(** Positions are within the lists they are used on. *)
Fixpoint prog_in_range (os : list list_prog) (m : gmap nat (list T)) : Prop :=
  match os with
  | [] => True
  | o :: os =>
      match o with LOp a o => ∀ xs, m !! a = Some xs → op_in_range o xs | _ => True end ∧
      match seq_prog o m with Ok m' => prog_in_range os m' | Err _ => True end
  end.

Lemma do_prog_spec o (m : gmap nat lstate) (ms : gmap nat (list T)) :
  vars_rep LRep m ms → match o with LOp a o => ∀ xs, ms !! a = Some xs → op_in_range o xs | _ => True end →
  same_result LRep (do_prog o m) (seq_prog o ms).
Proof.
  intros Hm Hr. destruct o as [a|a b|a b|a b|a|a o]; cbn [do_prog seq_prog].
  - apply vars_fresh; [done|]. destruct LRep_empty as (s0 & -> & HR0). by apply vars_insert.
  - apply vars_fresh; [done|]. apply vars_lookup; [done|]. intros s xs _ HR.
    destruct (list_copy_spec s xs HR) as (t & -> & ?). by apply vars_insert.
  - apply vars_lookup; [done|]. intros s xs _ HR. apply vars_lookup; [done|]. intros t ys _ HR'.
    destruct (list_assign_spec s t xs ys HR HR') as (s' & -> & ?). by apply vars_insert.
  - apply vars_lookup; [done|]. intros s xs _ HR. apply vars_lookup; [done|]. intros t ys _ HR'.
    by apply vars_insert; [apply vars_insert|].
  - apply vars_lookup; [done|]. intros s xs _ HR. destruct (list_destroy_spec s xs HR) as (s' & -> & _). by apply vars_delete.
  - apply vars_lookup; [done|]. intros s xs Hx HR. pose proof (LRep_op o s xs HR (Hr _ Hx)) as Hs.
    destruct (seq_op o xs) as [xs'|]; [|by rewrite Hs]. destruct Hs as (s' & -> & ?). by apply vars_insert.
Qed.

(** Linked lists are sequences: a program over any number of lists that constructs, copies,
    assigns (also to itself), swaps and destroys them, pushes, pops, inserts and erases at
    positions, and clears, follows no null or freed pointer and fails exactly where an element
    is erased at an end; otherwise each list holds, in the order a [begin()]..[end()]
    loop sees them, the values the same program leaves in a sequence, with its
    [size()], and its destructor frees every node. *)
Theorem dlist_refines_sequence os :
  prog_in_range os ∅ →
  match do_progs os ∅, seq_progs os ∅ with
  | Ok m, Ok ms =>
      dom m = dom ms ∧
      ∀ a s xs, m !! a = Some s → ms !! a = Some xs →
        values s = Ok (xs, s) ∧ _size s = length xs ∧ ∃ s', destroy s = Ok ((), s') ∧ nodes s' = ∅
  | Err e, Err e' => e = e'
  | _, _ => False
  end.
Proof.
  intros Hr. assert (Hs : same_result LRep (do_progs os ∅) (seq_progs os ∅)).
  { pose proof (vars_empty LRep) as Hm. revert Hm Hr. generalize (∅ : gmap nat lstate), (∅ : gmap nat (list T)).
    induction os as [|o os IH]; intros m ms Hm Hr; [done|]. destruct Hr as [Ho Hr]. cbn [do_progs seq_progs].
    pose proof (do_prog_spec o m ms Hm Ho) as Hs. destruct (do_prog o m), (seq_prog o ms); try done. by apply IH. }
  destruct (do_progs os ∅) as [m|], (seq_progs os ∅) as [ms|]; try done. split; [by eapply vars_dom|].
  intros a s xs Hv Hx. pose proof (vars_at _ _ _ _ _ _ Hs Hv Hx) as HR. pose proof HR as (h & cs & HD & <-).
  split; [by eapply values_spec|]. split; [by rewrite (dl_size _ _ _ HD), length_fmap|].
  destruct (list_destroy_spec s _ HR) as (s' & ? & ? & _). eauto.
Qed.

(** [insert] and [erase] keep every other node at its address, so iterators
    to other elements stay valid: [insert(pos, x)] puts the new node before
    [pos], [erase(pos)] takes the node out and returns the one after it. *)
Theorem dlist_insert_erase s h c1 c2 x :
  DL s h (c1 ++ c2) →
  ∃ s1 s2, insert (Some (at_pos h c2)) x s = Ok (Some (fresh s), s1) ∧
    DL s1 h (c1 ++ (fresh s, x) :: c2) ∧
    erase (Some (fresh s)) s1 = Ok (Some (at_pos h c2), s2) ∧ DL s2 h (c1 ++ c2).
Proof.
  intros HD. destruct (list_insert_spec s h c1 c2 x HD) as (s1 & H1 & HD1).
  destruct (list_erase_spec s1 h c1 _ x c2 HD1) as (s2 & H2 & HD2 & _). eauto 10.
Qed.
End DList.

(** ** Witnesses *)
Definition two_lists : list (list_prog (T:=Z)) :=
  [LNew 0; LOp 0 (PushBack 1%Z); LOp 0 (InsertAt 1 3%Z); LCopy 1 0; LOp 1 (EraseAt 0); LAssign 0 0; LSwap 0 1; LDestroy 1].
Lemma dlist_refines_sequence_witness :
  ∃ m s, do_progs 0%Z two_lists ∅ = Ok m ∧ m !! 0 = Some s ∧ values s = Ok ([3%Z], s) ∧ _size s = 1.
Proof.
  pose proof (dlist_refines_sequence 0%Z two_lists) as H.
  assert (Hr : prog_in_range two_lists ∅).
  { repeat (split; [first [exact I|intros xs Hx; vm_compute in Hx; injection Hx as <-; cbn; lia]|]). exact I. }
  specialize (H Hr). assert (Hx : seq_progs two_lists ∅ = Ok {[0 := [3%Z]]}) by (vm_compute; reflexivity).
  rewrite Hx in H. destruct (do_progs 0%Z two_lists ∅) as [m|]; [|destruct H].
  destruct H as [Hd Hs]. assert (is_Some (m !! 0)) as [s Hm] by (apply elem_of_dom; rewrite Hd; by vm_compute).
  exists m, s. destruct (Hs 0 s [3%Z] Hm) as (H1 & H2 & _); [reflexivity|]. by split_and!.
Defined.

Lemma dlist_insert_erase_witness :
  ∃ s s1 : lstate (T:=Z), empty_initialize 0%Z no_list = Ok ((), s) ∧
    insert (Some 1%positive) 5%Z s = Ok (Some (fresh s), s1) ∧ DL s1 1%positive [(fresh s, 5%Z)].
Proof.
  destruct (empty_initialize_spec 0%Z) as (s & H0 & HD).
  destruct (dlist_insert_erase s 1%positive [] [] 5%Z HD) as (s1 & s2 & H1 & HD1 & _).
  exists s, s1. split; [exact H0|]. split; [exact H1|exact HD1].
Defined.
