(* ===== verification/Vec.v ===== *)
(** * The vector of src/Algorithm/Vector.hpp ([zhc::vector])

    The array between [_start] and [_endofstorage] is a list of cells, [_finish]
    an offset into it; a null [_start] is the empty array.  Iterators are offsets.
    Elements are passed by value: the arguments of [push_back] and [insert] do
    not refer to elements of the vector itself. *)

From S2P Require Import Prelude.

Open Scope nat_scope.

Section Vec.
Context {T : Type} (T0 : T).

Record vector := mkVec { _start : list T; _finish : nat }.

(** [vector()] *)
Definition new_vector : vector := mkVec [] 0.
Definition size (v : vector) : nat := _finish v.
Definition capacity (v : vector) : nat := length (_start v).
Definition empty (v : vector) : bool := _finish v =? 0.

Definition vload (i : nat) : M vector T := λ v,
  match _start v !! i with Some x => Ok (x, v) | None => Err OutOfBounds end.
Definition vstore (i : nat) (x : T) : M vector () := λ v,
  if decide (i < length (_start v)) then Ok ((), mkVec (<[i := x]> (_start v)) (_finish v))
  else Err OutOfBounds.
Definition set_finish (n : nat) : M vector () := modify (λ v, mkVec (_start v) n).

(** [operator[](pos)] *)
Definition index (pos : nat) : M vector T :=
  v ← gets id; assert_M (pos <? size v);; vload pos.

(** [for (i...) tmp[i] = _start[i];] *)
Fixpoint copy_elems (n i : nat) (src tmp : list T) : res (list T) :=
  match n with
  | 0 => Ok tmp
  | S n =>
      match src !! i with
      | Some x => if decide (i < length tmp) then copy_elems n (S i) src (<[i := x]> tmp) else Err OutOfBounds
      | None => Err OutOfBounds
      end
  end.

Definition reserve (n : nat) : M vector () := λ v,
  if capacity v <? n then
    match copy_elems (size v) 0 (_start v) (replicate n T0) with
    | Ok tmp => Ok ((), mkVec tmp (size v))
    | Err e => Err e
    end
  else Ok ((), v).

(** [if (_finish == _endofstorage) reserve(capacity() == 0 ? 4 : capacity() * 2);] *)
Definition grow : M vector () :=
  v ← gets id;
  if _finish v =? capacity v then reserve (if capacity v =? 0 then 4 else capacity v * 2) else mret ().

Definition push_back (x : T) : M vector () :=
  grow;;
  f ← gets _finish; vstore f x;;
  set_finish (S f).

Definition pop_back : M vector () :=
  v ← gets id; assert_M (negb (empty v));; set_finish (Nat.pred (_finish v)).

(** [while (_finish < _start + n) { *_finish = val; ++_finish; }] *)
Fixpoint fill (k : nat) (val : T) : M vector () :=
  match k with
  | 0 => mret ()
  | S k => f ← gets _finish; vstore f val;; set_finish (S f);; fill k val
  end.
Definition resize (n : nat) (val : T) : M vector () :=
  v ← gets id;
  (if capacity v <? n then reserve n else mret ());;
  v ← gets id;
  if size v <? n then fill (n - size v) val else set_finish n.

(** [while (end >= pos) { *(end + 1) = *end; --end; }], [k] rounds from [end]. *)
Fixpoint shift_up (k : nat) (e : nat) : M vector () :=
  match k with
  | 0 => mret ()
  | S k => x ← vload e; vstore (e + 1) x;; shift_up k (Nat.pred e)
  end.
Definition insert (pos : nat) (val : T) : M vector nat :=
  v ← gets id; assert_M (pos <? _finish v);;
  grow;;
  f ← gets _finish;
  shift_up (f - pos) (f - 1);;
  vstore pos val;;
  set_finish (S f);;
  mret pos.

(** [while (begin < _finish) { *(begin-1) = *begin; ++begin; }] *)
Fixpoint shift_down (k : nat) (b : nat) : M vector () :=
  match k with
  | 0 => mret ()
  | S k => x ← vload b; vstore (b - 1) x;; shift_down k (S b)
  end.
Definition erase (pos : nat) : M vector nat :=
  v ← gets id; assert_M (pos <? _finish v);;
  shift_down (_finish v - (pos + 1)) (pos + 1);;
  set_finish (Nat.pred (_finish v));;
  mret pos.

Definition clear : M vector () := set_finish 0.

(** [vector(first, last)] and [vector(n, val)] *)
Fixpoint push_all (xs : list T) : M vector () :=
  match xs with [] => mret () | x :: xs => push_back x;; push_all xs end.
Definition vector_fill (n : nat) (val : T) : M vector () := reserve n;; push_all (replicate n val).
(** [vector(const vector& v)]: a vector built from the elements of [v]. *)
Definition vector_copy (v : vector) : res vector :=
  match push_all (take (_finish v) (_start v)) new_vector with Ok (_, w) => Ok w | Err e => Err e end.

(** ** The elements *)
Implicit Types (v : vector) (xs : list T).

Definition Elems (v : vector) (xs : list T) : Prop :=
  _finish v ≤ length (_start v) ∧ take (_finish v) (_start v) = xs.

Lemma Elems_size v xs : Elems v xs → _finish v = length xs.
Proof. intros [Hf <-]. rewrite length_take. lia. Qed.

Lemma copy_elems_spec n i src tmp :
  i + n ≤ length src → i + n ≤ length tmp → take i tmp = take i src →
  ∃ tmp', copy_elems n i src tmp = Ok tmp' ∧ length tmp' = length tmp ∧ take (i + n) tmp' = take (i + n) src.
Proof.
  revert i tmp. induction n as [|n IH]; intros i tmp Hs Ht He.
  { exists tmp. by rewrite Nat.add_0_r. }
  cbn [copy_elems]. destruct (lookup_lt_is_Some_2 src i) as [x Hx]; [lia|]. rewrite Hx, decide_True by lia.
  destruct (IH (S i) (<[i := x]> tmp)) as (tmp' & H1 & H2 & H3).
  - lia.
  - rewrite length_insert. lia.
  - rewrite (take_S_r _ _ x) by (apply list_lookup_insert_eq; lia). rewrite take_insert_ge by lia.
    by rewrite He, (take_S_r _ _ _ Hx).
  - exists tmp'. rewrite length_insert in H2. replace (i + S n) with (S i + n) by lia. done.
Qed.

Lemma vec_reserve_spec n v xs :
  Elems v xs → ∃ v', reserve n v = Ok ((), v') ∧ Elems v' xs ∧ capacity v' = Nat.max n (capacity v).
Proof.
  intros [Hf He]. unfold reserve. destruct (Nat.ltb_spec (capacity v) n) as [Hlt|Hge].
  - unfold capacity, size in *.
    destruct (copy_elems_spec (_finish v) 0 (_start v) (replicate n T0)) as (t & -> & Hl & Ht);
      [lia|rewrite length_replicate; lia|done|]. rewrite length_replicate in Hl. simpl in Ht.
    eexists. split; [reflexivity|]. simpl. split; [split; simpl; [lia|by rewrite Ht]|]. lia.
  - exists v. split; [done|]. split; [done|]. lia.
Qed.

Lemma vec_grow_spec v xs :
  Elems v xs → ∃ v', grow v = Ok ((), v') ∧ Elems v' xs ∧ length xs < capacity v' ∧
    capacity v' = if length xs =? capacity v then (if capacity v =? 0 then 4 else capacity v * 2) else capacity v.
Proof.
  intros HE. pose proof (Elems_size _ _ HE) as Hsz. unfold grow. erewrite bind_ok by reflexivity.
  cbn [id]. rewrite Hsz. destruct (Nat.eqb_spec (length xs) (capacity v)) as [E|E].
  - destruct (vec_reserve_spec (if capacity v =? 0 then 4 else capacity v * 2) v xs HE) as (v' & H1 & H2 & H3).
    exists v'. split; [done|]. split; [done|]. destruct (Nat.eqb_spec (capacity v) 0); lia.
  - exists v. split; [done|]. split; [done|]. split; [|done]. destruct HE as [Hf _]. unfold capacity in *. lia.
Qed.

Lemma vstore_ok i x v : i < length (_start v) → vstore i x v = Ok ((), mkVec (<[i := x]> (_start v)) (_finish v)).
Proof. intros. unfold vstore. by rewrite decide_True. Qed.
Lemma vload_ok i x v : _start v !! i = Some x → vload i v = Ok (x, v).
Proof. intros H. unfold vload. by rewrite H. Qed.

Lemma vec_push_back_spec x v xs :
  Elems v xs → ∃ v', push_back x v = Ok ((), v') ∧ Elems v' (xs ++ [x]) ∧
    capacity v' = if length xs =? capacity v then (if capacity v =? 0 then 4 else capacity v * 2) else capacity v.
Proof.
  intros HE. destruct (vec_grow_spec v xs HE) as (v1 & H1 & HE1 & Hcap & Hc). unfold push_back.
  erewrite bind_ok by exact H1. erewrite bind_ok by reflexivity. pose proof (Elems_size _ _ HE1) as Hsz.
  unfold capacity in *. erewrite bind_ok by (apply vstore_ok; lia).
  eexists. split; [reflexivity|]. destruct HE1 as [Hf Ht]. split; [|simpl; by rewrite length_insert].
  split; simpl; [rewrite length_insert; lia|].
  rewrite (take_S_r _ _ x) by (apply list_lookup_insert_eq; lia). by rewrite take_insert_ge, Ht by lia.
Qed.

Lemma vec_pop_back_spec v xs :
  Elems v xs →
  match xs with
  | [] => pop_back v = Err AssertFailed
  | _ => ∃ v', pop_back v = Ok ((), v') ∧ Elems v' (take (Nat.pred (length xs)) xs)
  end.
Proof.
  intros HE. pose proof (Elems_size _ _ HE) as Hsz. unfold pop_back, empty. erewrite bind_ok by reflexivity.
  cbn [id]. rewrite Hsz. destruct HE as [Hf Ht]. destruct xs as [|x xs]; [done|]. cbn [length Nat.eqb negb].
  eexists. split; [reflexivity|]. split; simpl in *; [lia|]. rewrite <- Ht, take_take. f_equal. lia.
Qed.

Lemma fill_spec k val v xs :
  Elems v xs → length xs + k ≤ capacity v →
  ∃ v', fill k val v = Ok ((), v') ∧ Elems v' (xs ++ replicate k val).
Proof.
  revert v xs. induction k as [|k IH]; intros v xs HE Hk.
  { exists v. by rewrite app_nil_r. }
  cbn [fill]. erewrite bind_ok by reflexivity. pose proof (Elems_size _ _ HE) as Hsz. unfold capacity in Hk.
  erewrite bind_ok by (apply vstore_ok; lia). erewrite bind_ok by reflexivity. destruct HE as [Hf Ht]. cbn [_start _finish].
  destruct (IH (mkVec (<[_finish v := val]> (_start v)) (S (_finish v))) (xs ++ [val])) as (v' & H1 & H2).
  - split; simpl; [rewrite length_insert; lia|].
    rewrite (take_S_r _ _ val) by (apply list_lookup_insert_eq; lia). by rewrite take_insert_ge, Ht by lia.
  - unfold capacity. simpl. rewrite length_insert, length_app. simpl. lia.
  - exists v'. split; [done|]. by rewrite <- app_assoc in H2.
Qed.

Lemma vec_resize_spec n val v xs :
  Elems v xs → ∃ v', resize n val v = Ok ((), v') ∧ Elems v' (take n xs ++ replicate (n - length xs) val).
Proof.
  intros HE. unfold resize. erewrite bind_ok by reflexivity. cbn [id].
  assert (∃ v1, (if capacity v <? n then reserve n else mret ()) v = Ok ((), v1) ∧ Elems v1 xs ∧ n ≤ capacity v1)
    as (v1 & H1 & HE1 & Hcap).
  { destruct (Nat.ltb_spec (capacity v) n); [|by exists v].
    destruct (vec_reserve_spec n v xs HE) as (v1 & ? & ? & ?). exists v1. split; [done|]. split; [done|]. lia. }
  erewrite bind_ok by exact H1. erewrite bind_ok by reflexivity. cbn [id]. unfold size.
  pose proof (Elems_size _ _ HE1) as Hsz. rewrite Hsz. destruct (Nat.ltb_spec (length xs) n).
  - rewrite take_ge by lia. apply fill_spec; [done|lia].
  - eexists. split; [reflexivity|]. destruct HE1 as [Hf Ht]. split; simpl; [lia|].
    replace (n - length xs) with 0 by lia. rewrite app_nil_r, <- Ht, take_take. f_equal. lia.
Qed.

(** A shift moves a block of cells and nothing else. *)
Lemma shift_up_spec a b z v :
  _start v = a ++ b ++ z → z ≠ [] →
  shift_up (length b) (length a + length b - 1) v =
    Ok ((), mkVec (a ++ take 1 (b ++ z) ++ b ++ drop 1 z) (_finish v)).
Proof.
  revert z v. induction b as [|y b IH] using rev_ind; intros z v Hs Hz.
  { destruct v as [st f], z as [|z0 z]; [done|]. simpl in *. subst st. by rewrite drop_0. }
  rewrite length_app, Nat.add_1_r. cbn [shift_up]. destruct z as [|z0 z]; [done|].
  replace (length a + S (length b) - 1) with (length (a ++ b)) by (rewrite length_app; lia).
  assert (Hst : _start v = (a ++ b) ++ y :: z0 :: z) by (by rewrite Hs, <- !app_assoc).
  erewrite bind_ok; [|apply vload_ok; rewrite Hst; by rewrite list_lookup_middle].
  erewrite bind_ok; [|apply vstore_ok; rewrite Hst, !length_app; simpl; lia].
  assert (Hi : <[length (a ++ b) + 1 := y]> (_start v) = a ++ b ++ y :: y :: z).
  { rewrite Hst, insert_app_r. simpl. by rewrite <- app_assoc. }
  rewrite Hi. replace (Nat.pred (length (a ++ b))) with (length a + length b - 1) by (rewrite length_app; lia).
  rewrite (IH (y :: y :: z)) by done. simpl. do 3 f_equal. rewrite <- !app_assoc. by destruct b.
Qed.

Lemma Elems_split v xs i :
  Elems v xs → i ≤ length xs →
  ∃ z, _start v = take i xs ++ drop i xs ++ z ∧ _finish v = length xs.
Proof.
  intros HE Hi. exists (drop (_finish v) (_start v)). rewrite app_assoc, take_drop.
  destruct HE as [Hf <-]. rewrite take_drop, length_take. split; [done|lia].
Qed.

Lemma vec_insert_spec pos val v xs :
  Elems v xs →
  if decide (pos < length xs) then
    ∃ v', insert pos val v = Ok (pos, v') ∧ Elems v' (take pos xs ++ val :: drop pos xs)
  else insert pos val v = Err AssertFailed.
Proof.
  intros HE. unfold insert. erewrite bind_ok by reflexivity. cbn [id]. rewrite (Elems_size _ _ HE).
  destruct (decide (pos < length xs)) as [Hp|Hp]; [rewrite (proj2 (Nat.ltb_lt _ _) Hp)|
    by rewrite (proj2 (Nat.ltb_ge pos (length xs))) by lia].
  destruct (vec_grow_spec v xs HE) as (v1 & H1 & HE1 & Hcap & _).
  erewrite bind_ok by reflexivity. erewrite bind_ok by exact H1. erewrite bind_ok by reflexivity.
  destruct (Elems_split v1 xs pos HE1) as (z & Hs & Hf); [lia|]. rewrite Hf.
  assert (z ≠ []) as Hz.
  { intros ->. unfold capacity in Hcap. rewrite Hs, app_nil_r, take_drop in Hcap. lia. }
  erewrite bind_ok.
  2: { pose proof (shift_up_spec (take pos xs) (drop pos xs) z v1 Hs Hz) as Hu.
       rewrite length_drop, length_take in Hu.
       replace (pos `min` length xs + (length xs - pos) - 1) with (length xs - 1) in Hu by lia. exact Hu. }
  destruct (lookup_lt_is_Some_2 xs pos Hp) as [y Hy]. rewrite (drop_S _ _ _ Hy). cbn [app take].
  assert (length (take pos xs) = pos) as Hl by (rewrite length_take; lia).
  erewrite bind_ok by (apply vstore_ok; simpl; rewrite length_app; simpl; lia).
  erewrite bind_ok by reflexivity. eexists. split; [reflexivity|]. cbn [_start _finish].
  rewrite take_0, app_nil_l. replace pos with (length (take pos xs) + 0) at 1 by lia. rewrite insert_app_r. cbn [list_insert insert].
  assert (S (length xs) = length (take pos xs ++ val :: y :: drop (S pos) xs)) as ->.
  { rewrite length_app. simpl. rewrite length_drop. lia. }
  split; cbn [_start _finish].
  - rewrite !length_app. simpl. rewrite length_app. lia.
  - change (<[0:=val]> (y :: y :: drop (S pos) xs ++ drop 1 z)) with ((val :: y :: drop (S pos) xs) ++ drop 1 z).
    by rewrite app_assoc, take_app_length.
Qed.

Lemma shift_down_spec a y b z v :
  _start v = a ++ y :: b ++ z →
  ∃ y', shift_down (length b) (length a + 1) v = Ok ((), mkVec (a ++ b ++ y' :: z) (_finish v)).
Proof.
  revert a y v. induction b as [|x b IH]; intros a y v Hs.
  { exists y. destruct v. simpl in *. by subst. }
  cbn [length shift_down].
  assert (Hst : _start v = (a ++ [y]) ++ x :: b ++ z) by (by rewrite Hs, <- app_assoc).
  erewrite bind_ok.
  2: { apply vload_ok. rewrite Hst. replace (length a + 1) with (length (a ++ [y])) by (by rewrite length_app).
       by rewrite list_lookup_middle. }
  erewrite bind_ok by (apply vstore_ok; rewrite Hs, length_app; simpl; lia).
  replace (length a + 1 - 1) with (length a + 0) by lia. rewrite Hs, insert_app_r. cbn [list_insert insert app].
  destruct (IH (a ++ [x]) x (mkVec (a ++ x :: x :: b ++ z) (_finish v))) as [y' Hy'].
  { simpl. by rewrite <- app_assoc. }
  exists y'. rewrite length_app in Hy'. simpl in Hy'. replace (S (length a + 1)) with (length a + 1 + 1) by lia.
  change (<[0:=x]> (y :: x :: b ++ z)) with (x :: x :: b ++ z). rewrite Hy'. by rewrite <- app_assoc.
Qed.

Lemma vec_erase_spec pos v xs :
  Elems v xs →
  if decide (pos < length xs) then
    ∃ v', erase pos v = Ok (pos, v') ∧ Elems v' (take pos xs ++ drop (S pos) xs)
  else erase pos v = Err AssertFailed.
Proof.
  intros HE. unfold erase. erewrite bind_ok by reflexivity. cbn [id]. rewrite (Elems_size _ _ HE).
  destruct (decide (pos < length xs)) as [Hp|Hp]; [rewrite (proj2 (Nat.ltb_lt _ _) Hp)|
    by rewrite (proj2 (Nat.ltb_ge pos (length xs))) by lia].
  erewrite bind_ok by reflexivity. destruct (lookup_lt_is_Some_2 xs pos Hp) as [y Hy].
  destruct (Elems_split v xs pos HE) as (z & Hs & Hf); [lia|]. rewrite (drop_S _ _ _ Hy) in Hs.
  destruct (shift_down_spec (take pos xs) y (drop (S pos) xs) z v Hs) as [y' Hd].
  assert (length (take pos xs) = pos) as Hl by (rewrite length_take; lia). rewrite length_drop, Hl in Hd.
  replace (length xs - S pos) with (length xs - (pos + 1)) in Hd by lia. erewrite bind_ok by exact Hd.
  erewrite bind_ok by reflexivity. eexists. split; [reflexivity|].
  assert (Nat.pred (length xs) = length (take pos xs ++ drop (S pos) xs)) as ->.
  { rewrite length_app, length_drop. lia. }
  split; cbn [_start _finish].
  - rewrite !length_app. lia.
  - by rewrite app_assoc, take_app_length.
Qed.

Lemma vec_index_spec pos v xs :
  Elems v xs →
  index pos v = match xs !! pos with Some x => Ok (x, v) | None => Err AssertFailed end.
Proof.
  intros HE. unfold index. erewrite bind_ok by reflexivity. unfold size. cbn [id]. rewrite (Elems_size _ _ HE).
  destruct (xs !! pos) as [x|] eqn:Hx.
  - pose proof (lookup_lt_Some _ _ _ Hx) as Hp. rewrite (proj2 (Nat.ltb_lt _ _) Hp).
    erewrite bind_ok by reflexivity. apply vload_ok. destruct HE as [Hf <-].
    rewrite lookup_take_Some in Hx. apply Hx.
  - apply lookup_ge_None in Hx. by rewrite (proj2 (Nat.ltb_ge _ _) Hx).
Qed.

Lemma push_all_spec ys v xs :
  Elems v xs → ∃ v', push_all ys v = Ok ((), v') ∧ Elems v' (xs ++ ys).
Proof.
  revert v xs. induction ys as [|y ys IH]; intros v xs HE.
  { exists v. by rewrite app_nil_r. }
  destruct (vec_push_back_spec y v xs HE) as (v1 & H1 & HE1 & _). destruct (IH v1 _ HE1) as (v' & H2 & HE2).
  exists v'. cbn [push_all]. erewrite bind_ok by exact H1. split; [done|]. by rewrite <- app_assoc in HE2.
Qed.

(** ** Operation sequences *)
Inductive vec_op :=
  | VPush (x : T) | VPop | VInsert (i : nat) (x : T) | VErase (i : nat)
  | VResize (n : nat) (x : T) | VReserve (n : nat) | VClear | VFill (n : nat) (x : T) | VCopy.

Definition do_vec_op (o : vec_op) : M vector () :=
  match o with
  | VPush x => push_back x
  | VPop => pop_back
  | VInsert i x => insert i x;; mret ()
  | VErase i => erase i;; mret ()
  | VResize n x => resize n x
  | VReserve n => reserve n
  | VClear => clear
  | VFill n x => λ _, vector_fill n x new_vector
  | VCopy => λ v, match vector_copy v with Ok w => Ok ((), w) | Err e => Err e end
  end.

(** What the operation does to the sequence of elements, and where it asserts. *)
Definition seq_vec_op (o : vec_op) (xs : list T) : option (list T) :=
  match o with
  | VPush x => Some (xs ++ [x])
  | VPop => match xs with [] => None | _ => Some (take (Nat.pred (length xs)) xs) end
  | VInsert i x => if decide (i < length xs) then Some (take i xs ++ x :: drop i xs) else None
  | VErase i => if decide (i < length xs) then Some (take i xs ++ drop (S i) xs) else None
  | VResize n x => Some (take n xs ++ replicate (n - length xs) x)
  | VReserve _ | VCopy => Some xs
  | VClear => Some []
  | VFill n x => Some (replicate n x)
  end.

Lemma Elems_new : Elems new_vector [].
Proof. by split. Qed.

Lemma do_vec_op_spec o v xs :
  Elems v xs →
  match seq_vec_op o xs with
  | None => do_vec_op o v = Err AssertFailed
  | Some xs' => ∃ v', do_vec_op o v = Ok ((), v') ∧ Elems v' xs'
  end.
Proof.
  intros HE. destruct o as [x| |i x|i|n x|n| |n x|]; cbn [seq_vec_op do_vec_op].
  - destruct (vec_push_back_spec x v xs HE) as (v' & ? & ? & _). eauto.
  - pose proof (vec_pop_back_spec v xs HE). by destruct xs.
  - pose proof (vec_insert_spec i x v xs HE) as Hs. destruct (decide _).
    + destruct Hs as (v' & He & ?). exists v'. by erewrite bind_ok by exact He.
    + by erewrite bind_err by exact Hs.
  - pose proof (vec_erase_spec i v xs HE) as Hs. destruct (decide _).
    + destruct Hs as (v' & He & ?). exists v'. by erewrite bind_ok by exact He.
    + by erewrite bind_err by exact Hs.
  - by apply vec_resize_spec.
  - destruct (vec_reserve_spec n v xs HE) as (v' & ? & ? & _). eauto.
  - eexists. split; [reflexivity|]. split; simpl; [lia|done].
  - destruct (vec_reserve_spec n new_vector [] Elems_new) as (v1 & H1 & HE1 & _).
    destruct (push_all_spec (replicate n x) v1 [] HE1) as (v2 & H2 & HE2).
    exists v2. unfold vector_fill. by erewrite bind_ok by exact H1.
  - unfold vector_copy. destruct HE as [Hf ->].
    destruct (push_all_spec xs new_vector [] Elems_new) as (v2 & H2 & HE2).
    exists v2. by rewrite H2.
Qed.

Fixpoint do_vec_ops (os : list vec_op) : M vector () :=
  match os with [] => mret () | o :: os => do_vec_op o;; do_vec_ops os end.
Fixpoint seq_vec_ops (os : list vec_op) (xs : list T) : option (list T) :=
  match os with [] => Some xs | o :: os => xs' ← seq_vec_op o xs; seq_vec_ops os xs' end.

Lemma do_vec_ops_spec os v xs :
  Elems v xs →
  match seq_vec_ops os xs with
  | None => do_vec_ops os v = Err AssertFailed
  | Some xs' => ∃ v', do_vec_ops os v = Ok ((), v') ∧ Elems v' xs'
  end.
Proof.
  revert v xs. induction os as [|o os IH]; intros v xs HE; [by exists v|].
  pose proof (do_vec_op_spec o v xs HE) as Hs. cbn [seq_vec_ops do_vec_ops].
  destruct (seq_vec_op o xs) as [xs1|]; cbn [mbind option_bind].
  - destruct Hs as (v1 & H1 & HE1). specialize (IH v1 xs1 HE1).
    destruct (seq_vec_ops os xs1); by erewrite bind_ok by exact H1.
  - by erewrite bind_err by exact Hs.
Qed.

(** ** Variables

    [swap] exchanges the three pointers; a new object that takes part in one is empty. *)
Definition swap (v w : vector) : vector * vector := (w, v).
(** [vector(vector<T>&& v)]: the new object and what is left in [v]. *)
Definition move_construct (v : vector) : vector * vector := swap new_vector v.
(** [operator=(vector<T> v)]: [v] is a copy, destroyed at the end. *)
Definition assign (this v : vector) : res vector := v ← vector_copy v; Ok (swap this v).1.
(** [operator=(vector<T>&& v)] *)
Definition move_assign (this v : vector) : vector * vector := swap this v.

Inductive var_op :=
  | WNew (a : nat) | WCopy (a b : nat) | WMove (a b : nat) | WAssign (a b : nat) | WMoveAssign (a b : nat)
  | WSwap (a b : nat) | WDestroy (a : nat) | WOp (a : nat) (o : vec_op).
Definition do_var_op (o : var_op) (m : gmap nat vector) : res (gmap nat vector) :=
  match o with
  | WNew a => fresh_var m a;; Ok (<[a := new_vector]> m)
  | WCopy a b => fresh_var m a;; v ← lookup_var m b; w ← vector_copy v; Ok (<[a := w]> m)
  | WMove a b => fresh_var m a;; v ← lookup_var m b; let p := move_construct v in Ok (<[b := p.2]> (<[a := p.1]> m))
  | WAssign a b => v ← lookup_var m a; w ← lookup_var m b; v' ← assign v w; Ok (<[a := v']> m)
  | WMoveAssign a b => v ← lookup_var m a; w ← lookup_var m b; let p := move_assign v w in Ok (<[b := p.2]> (<[a := p.1]> m))
  | WSwap a b => v ← lookup_var m a; w ← lookup_var m b; let p := swap v w in Ok (<[b := p.2]> (<[a := p.1]> m))
  | WDestroy a => lookup_var m a;; Ok (delete a m)
  | WOp a o => v ← lookup_var m a; match do_vec_op o v with Ok (_, v') => Ok (<[a := v']> m) | Err e => Err e end
  end.
(** The same program over sequences. *)
Definition seq_var_op (o : var_op) (m : gmap nat (list T)) : res (gmap nat (list T)) :=
  match o with
  | WNew a => fresh_var m a;; Ok (<[a := []]> m)
  | WCopy a b => fresh_var m a;; xs ← lookup_var m b; Ok (<[a := xs]> m)
  | WMove a b => fresh_var m a;; xs ← lookup_var m b; Ok (<[b := []]> (<[a := xs]> m))
  | WAssign a b => lookup_var m a;; ys ← lookup_var m b; Ok (<[a := ys]> m)
  | WMoveAssign a b | WSwap a b => xs ← lookup_var m a; ys ← lookup_var m b; Ok (<[b := xs]> (<[a := ys]> m))
  | WDestroy a => lookup_var m a;; Ok (delete a m)
  | WOp a o => xs ← lookup_var m a; match seq_vec_op o xs with Some xs' => Ok (<[a := xs']> m) | None => Err AssertFailed end
  end.
Fixpoint do_var_ops (os : list var_op) (m : gmap nat vector) : res (gmap nat vector) :=
  match os with [] => Ok m | o :: os => m ← do_var_op o m; do_var_ops os m end.
Fixpoint seq_var_ops (os : list var_op) (m : gmap nat (list T)) : res (gmap nat (list T)) :=
  match os with [] => Ok m | o :: os => m ← seq_var_op o m; seq_var_ops os m end.

Lemma vector_copy_spec v xs : Elems v xs → ∃ w, vector_copy v = Ok w ∧ Elems w xs.
Proof.
  intros HE. destruct (do_vec_op_spec VCopy v xs HE) as (w & Hw & ?). exists w. split; [|done].
  cbn [do_vec_op] in Hw. by destruct (vector_copy v); simplify_eq.
Qed.

Lemma do_var_op_spec o m ms : vars_rep Elems m ms → same_result Elems (do_var_op o m) (seq_var_op o ms).
Proof.
  intros Hm. destruct o as [a|a b|a b|a b|a b|a b|a|a o]; cbn [do_var_op seq_var_op].
  - apply vars_fresh; [done|]. apply vars_insert; [done|apply Elems_new].
  - apply vars_fresh; [done|]. apply vars_lookup; [done|]. intros v xs _ HE.
    destruct (vector_copy_spec v xs HE) as (w & Hw & ?). rewrite Hw. by apply vars_insert.
  - apply vars_fresh; [done|]. apply vars_lookup; [done|]. intros v xs _ HE.
    apply vars_insert; [by apply vars_insert|apply Elems_new].
  - apply vars_lookup; [done|]. intros v xs _ HE. apply vars_lookup; [done|]. intros w ys _ HE'.
    destruct (vector_copy_spec w ys HE') as (w' & Hw & ?). unfold assign. rewrite Hw. by apply vars_insert.
  - apply vars_lookup; [done|]. intros v xs _ HE. apply vars_lookup; [done|]. intros w ys _ HE'. by apply vars_insert; [apply vars_insert|].
  - apply vars_lookup; [done|]. intros v xs _ HE. apply vars_lookup; [done|]. intros w ys _ HE'. by apply vars_insert; [apply vars_insert|].
  - apply vars_lookup; [done|]. intros v xs _ HE. by apply vars_delete.
  - apply vars_lookup; [done|]. intros v xs _ HE. pose proof (do_vec_op_spec o v xs HE) as Hs.
    destruct (seq_vec_op o xs) as [xs'|]; [|by rewrite Hs]. destruct Hs as (v' & -> & ?). by apply vars_insert.
Qed.

(** Vectors are sequences: a program over any number of vector variables, which
    constructs, copies, moves, assigns (also to itself), swaps and destroys them and
    inserts, erases, grows and shrinks, stays inside their arrays and fails exactly
    where an [assert] of the code rejects a position or an empty vector; otherwise each
    variable has the elements that the same program leaves in a sequence (a moved-from
    vector is empty), read by [operator[]] and counted by [size()]. *)
Theorem vec_variables_refine os :
  match do_var_ops os ∅, seq_var_ops os ∅ with
  | Ok m, Ok ms =>
      dom m = dom ms ∧
      ∀ a v xs, m !! a = Some v → ms !! a = Some xs →
        size v = length xs ∧ size v ≤ capacity v ∧ empty v = bool_decide (xs = []) ∧
        ∀ i, index i v = match xs !! i with Some x => Ok (x, v) | None => Err AssertFailed end
  | Err e, Err e' => e = e'
  | _, _ => False
  end.
Proof.
  assert (Hs : same_result Elems (do_var_ops os ∅) (seq_var_ops os ∅)).
  { pose proof (vars_empty Elems) as Hm. revert Hm.
    generalize (∅ : gmap nat vector), (∅ : gmap nat (list T)). induction os as [|o os IH]; intros m ms Hm; [done|].
    cbn [do_var_ops seq_var_ops]. pose proof (do_var_op_spec o m ms Hm) as Ho.
    destruct (do_var_op o m), (seq_var_op o ms); try done. by apply IH. }
  destruct (do_var_ops os ∅) as [m|], (seq_var_ops os ∅) as [ms|]; try done. split.
  - by eapply vars_dom.
  - intros a v xs Hv Hx. pose proof (vars_at _ _ _ _ _ _ Hs Hv Hx) as HE. pose proof (Elems_size _ _ HE) as Hsz.
    unfold size, empty. split; [done|]. split; [apply HE|]. split; [rewrite Hsz; by destruct xs|].
    intros i. by apply vec_index_spec.
Qed.

(** The vector is a sequence that grows as needed: any operations on a new
    vector stay inside its array and fail exactly where the code's [assert]s
    reject a position or an empty vector; otherwise [operator[]] then reads, at
    every position, the element the same operations leave in a sequence, and
    [size()] is that sequence's length. *)
Theorem vec_refines_sequence os :
  match seq_vec_ops os [] with
  | None => do_vec_ops os new_vector = Err AssertFailed
  | Some xs => ∃ v, do_vec_ops os new_vector = Ok ((), v) ∧
      size v = length xs ∧ size v ≤ capacity v ∧ empty v = bool_decide (xs = []) ∧
      ∀ i, index i v = match xs !! i with Some x => Ok (x, v) | None => Err AssertFailed end
  end.
Proof.
  pose proof (do_vec_ops_spec os new_vector [] Elems_new) as Hs.
  destruct (seq_vec_ops os []) as [xs|]; [|done]. destruct Hs as (v & H1 & HE). exists v.
  pose proof (Elems_size _ _ HE) as Hsz. unfold size, empty. split; [done|]. split; [done|]. split; [apply HE|].
  split; [rewrite Hsz; by destruct xs|]. intros i. by apply vec_index_spec.
Qed.

End Vec.
