(* ===== verification/Bits.v ===== *)
(** * Bit sets: src/Algorithm/BitSet.hpp and src/Algorithm/BloomFilter.hpp

    [zhc::bitset<N>] keeps its bits in a [vector<char>]; [char] is the signed
    8-bit type, so a cell is a [Z] in [-128, 127] that is promoted to [int] before
    a bit operation.  [BloomFilter] uses [std::bitset] and four string hashes. *)

From S2P Require Import Prelude.

Open Scope nat_scope.

(** ** zhc::bitset *)
Module BitSet.

Record bitset := mkBits { _bit : list Z }.

(** Conversion of an [int] to [char]. *)
Definition to_char (z : Z) : Z := (z + 128) `mod` 256 - 128.

(** [bitset()]: [_bit.resize(N/8+1)] *)
Definition new_bitset (N : nat) : bitset := mkBits (replicate (N / 8 + 1) 0%Z).

Definition mask (j : nat) : Z := Z.shiftl 1 (Z.of_nat j).

Definition update_cell (x : nat) (f : Z → nat → Z) (b : bitset) : res bitset :=
  let i := x / 8 in
  let j := x mod 8 in
  match _bit b !! i with
  | Some c => Ok (mkBits (<[i := to_char (f c j)]> (_bit b)))
  | None => Err OutOfBounds
  end.

Definition set (x : nat) : bitset → res bitset := update_cell x (λ c j, Z.lor c (mask j)).
Definition reset (x : nat) : bitset → res bitset := update_cell x (λ c j, Z.land c (Z.lnot (mask j))).

(** [return _bit[i]&(~(1<<j));] *)
Definition test (x : nat) (b : bitset) : res bool :=
  let i := x / 8 in
  let j := x mod 8 in
  match _bit b !! i with
  | Some c => Ok (negb (Z.land c (Z.lnot (mask j)) =? 0)%Z)
  | None => Err OutOfBounds
  end.

Inductive bit_op := BSet (x : nat) | BReset (x : nat).
Definition op_bit (o : bit_op) : nat := match o with BSet x | BReset x => x end.
Fixpoint run_bits (os : list bit_op) (b : bitset) : res bitset :=
  match os with
  | [] => Ok b
  | BSet x :: os => b' ← set x b; run_bits os b'
  | BReset x :: os => b' ← reset x b; run_bits os b'
  end.

(** The set of numbers the operations leave. *)
Fixpoint bits_of (os : list bit_op) (s : gset nat) : gset nat :=
  match os with
  | [] => s
  | BSet x :: os => bits_of os ({[x]} ∪ s)
  | BReset x :: os => bits_of os (s ∖ {[x]})
  end.

(** ** Bits of a [char] *)
Definition is_char (c : Z) : Prop := (-128 ≤ c < 128)%Z.

Lemma is_char_to_char z : is_char (to_char z).
Proof. unfold is_char, to_char. pose proof (Z.mod_pos_bound (z + 128) 256). lia. Qed.

Lemma is_char_sign c k : is_char c → (7 ≤ k)%Z → Z.testbit c k = Z.testbit c 7.
Proof.
  intros Hc Hk. assert (H : ∀ n, (0 ≤ n)%Z → Z.testbit c (n + 7) = Z.testbit (Z.shiftr c 7) n).
  { intros n Hn. by rewrite Z.shiftr_spec. }
  replace k with (k - 7 + 7)%Z by lia. rewrite H by lia. pose proof (H 0%Z) as H0. rewrite Z.add_0_l in H0.
  rewrite H0 by lia. rewrite Z.shiftr_div_pow2 by lia. change (2 ^ 7)%Z with 128%Z.
  destruct (decide (c < 0)%Z).
  - assert (c `div` 128 = -1)%Z as -> by (unfold is_char in *; symmetry; apply (Z.div_unique c 128 (-1) (c + 128)); lia).
    by rewrite !Z.bits_m1 by lia.
  - rewrite Z.div_small by (unfold is_char in *; lia). by rewrite !Z.bits_0.
Qed.

Lemma to_char_bit z k : (0 ≤ k < 8)%Z → Z.testbit (to_char z) k = Z.testbit z k.
Proof.
  intros Hk. rewrite <- (Z.mod_pow2_bits_low (to_char z) 8 k), <- (Z.mod_pow2_bits_low z 8 k) by lia.
  f_equal. change (2 ^ 8)%Z with 256%Z. unfold to_char.
  rewrite Zminus_mod_idemp_l. f_equal. lia.
Qed.

Lemma mask_bit j k : Z.testbit (mask j) k = bool_decide (k = Z.of_nat j).
Proof.
  unfold mask. rewrite Z.shiftl_1_l. case_bool_decide as H; [subst; apply Z.pow2_bits_true; lia|].
  apply Z.pow2_bits_false. lia.
Qed.

(** The value of [c & ~(1 << j)] is nonzero exactly when another bit is set, the
    sign bit counting through its extension. *)
Lemma test_cell c j :
  is_char c → j < 8 →
  negb (Z.land c (Z.lnot (mask j)) =? 0)%Z = true ↔
  ∃ k, k < 8 ∧ Z.testbit c (Z.of_nat k) = true ∧ (k ≠ j ∨ k = 7).
Proof.
  intros Hc Hj. rewrite negb_true_iff, Z.eqb_neq. split.
  - intros Hne. set (f := λ k, Z.testbit c (Z.of_nat k) && bool_decide (k ≠ j ∨ k = 7)).
    destruct (existsb f (seq 0 8)) eqn:E.
    + apply existsb_exists in E as (k & Hin & Hk). apply in_seq in Hin. unfold f in Hk.
      apply andb_true_iff in Hk as [? Hk]. apply bool_decide_eq_true in Hk. exists k. split; [lia|done].
    + exfalso. apply Hne. apply Z.bits_inj'. intros n Hn. rewrite Z.bits_0, Z.land_spec, Z.lnot_spec, mask_bit by done.
      apply not_true_iff_false. intros Ht. apply andb_true_iff in Ht as [Hb Hm].
      apply negb_true_iff, bool_decide_eq_false in Hm.
      assert (existsb f (seq 0 8) = true); [|congruence]. apply existsb_exists.
      exists (Z.to_nat (n `min` 7)). rewrite in_seq. split; [lia|]. unfold f. apply andb_true_iff.
      split.
      * rewrite Z2Nat.id by lia. destruct (decide (n < 7)%Z); [by rewrite Z.min_l by lia|].
        rewrite Z.min_r by lia. by rewrite <- (is_char_sign c n) by (done || lia).
      * apply bool_decide_eq_true. destruct (decide (n < 7)%Z); [left|right]; lia.
  - intros (k & Hk & Hb & Hkj) H0.
    assert (∃ n, (0 ≤ n)%Z ∧ n ≠ Z.of_nat j ∧ Z.testbit c n = true) as (n & Hn & Hnj & Hbn).
    { destruct Hkj as [?| ->]; [exists (Z.of_nat k); split_and!; [lia|lia|done]|].
      exists 8%Z. split_and!; [lia|lia|]. by rewrite is_char_sign by (done || lia). }
    assert (Z.testbit (Z.land c (Z.lnot (mask j))) n = false) as H by (by rewrite H0, Z.bits_0).
    rewrite Z.land_spec, Z.lnot_spec, mask_bit, Hbn, bool_decide_eq_false_2 in H by done. done.
Qed.

Lemma same_bit y x : y / 8 = x / 8 → y mod 8 = x mod 8 → y = x.
Proof. intros. pose proof (Nat.div_mod_eq y 8). pose proof (Nat.div_mod_eq x 8). lia. Qed.

(** ** The representation *)
Record BitsRep (N : nat) (b : bitset) (s : gset nat) : Prop := {
  br_len : length (_bit b) = N / 8 + 1;
  br_char : Forall is_char (_bit b);
  br_bit : ∀ x c, _bit b !! (x / 8) = Some c → Z.testbit c (Z.of_nat (x mod 8)) = bool_decide (x ∈ s);
}.

Lemma BitsRep_new N : BitsRep N (new_bitset N) ∅.
Proof.
  split; simpl.
  - by rewrite length_replicate.
  - apply Forall_replicate. unfold is_char. lia.
  - intros x c Hc. apply lookup_replicate in Hc as [-> _]. rewrite Z.bits_0, bool_decide_eq_false_2; [done|]. set_solver.
Qed.

Lemma cell_in_range N b s x : BitsRep N b s → x ≤ N → is_Some (_bit b !! (x / 8)).
Proof.
  intros HR Hx. apply lookup_lt_is_Some_2. rewrite (br_len _ _ _ HR).
  pose proof (Nat.Div0.div_le_mono x N 8 Hx). lia.
Qed.

Lemma update_cell_rep N b s s' x f :
  BitsRep N b s → x ≤ N →
  (∀ c j k, j < 8 → Z.testbit (f c j) (Z.of_nat k) =
     if decide (k = j) then bool_decide (x ∈ s') else Z.testbit c (Z.of_nat k)) →
  (∀ y, y ≠ x → y ∈ s' ↔ y ∈ s) →
  ∃ b', update_cell x f b = Ok b' ∧ BitsRep N b' s'.
Proof.
  intros HR Hx Hf Hs. destruct (cell_in_range N b s x HR Hx) as [c Hc]. unfold update_cell. rewrite Hc.
  eexists. split; [reflexivity|]. split; cbn [_bit].
  - by rewrite length_insert, (br_len _ _ _ HR).
  - apply Forall_insert; [apply (br_char _ _ _ HR)|apply is_char_to_char].
  - pose proof (Nat.mod_upper_bound x 8). intros y d Hd. pose proof (Nat.mod_upper_bound y 8).
    destruct (decide (y / 8 = x / 8)) as [E|E].
    + rewrite E, list_lookup_insert_eq in Hd by (by eapply lookup_lt_Some). injection Hd as <-.
      rewrite to_char_bit by lia. rewrite Hf by lia.
      match goal with |- context [if ?d then _ else _] => destruct d as [Em|Em] end.
      * by rewrite (same_bit y x E Em).
      * rewrite (br_bit _ _ _ HR y c) by (by rewrite E). apply bool_decide_ext. symmetry. apply Hs. intros ->. by apply Em.
    + rewrite list_lookup_insert_ne in Hd by done. rewrite (br_bit _ _ _ HR y d Hd).
      apply bool_decide_ext. symmetry. apply Hs. congruence.
Qed.

Lemma set_rep N b s x : BitsRep N b s → x ≤ N → ∃ b', set x b = Ok b' ∧ BitsRep N b' ({[x]} ∪ s).
Proof.
  intros HR Hx. eapply update_cell_rep; [done|done| |set_solver].
  intros c j k Hj. rewrite Z.lor_spec, mask_bit. destruct (decide (k = j)).
  - rewrite !bool_decide_eq_true_2; [apply orb_true_r|set_solver|lia].
  - rewrite (bool_decide_eq_false_2 (Z.of_nat k = Z.of_nat j)) by lia. apply orb_false_r.
Qed.

Lemma reset_rep N b s x : BitsRep N b s → x ≤ N → ∃ b', reset x b = Ok b' ∧ BitsRep N b' (s ∖ {[x]}).
Proof.
  intros HR Hx. eapply update_cell_rep; [done|done| |set_solver].
  intros c j k Hj. rewrite Z.land_spec, Z.lnot_spec, mask_bit by lia. destruct (decide (k = j)).
  - rewrite bool_decide_eq_true_2, bool_decide_eq_false_2; [apply andb_false_r|set_solver|lia].
  - rewrite bool_decide_eq_false_2 by lia. apply andb_true_r.
Qed.

Lemma run_bits_rep N os b s :
  BitsRep N b s → Forall (λ o, op_bit o ≤ N) os →
  ∃ b', run_bits os b = Ok b' ∧ BitsRep N b' (bits_of os s).
Proof.
  intros HR Hos. revert b s HR. induction Hos as [|o os Ho Hos IH]; intros b s HR; [by exists b|].
  destruct o as [x|x]; simpl in Ho; cbn [run_bits bits_of].
  - destruct (set_rep N b s x HR Ho) as (b1 & -> & HR1). cbn [mbind res_bind]. by apply IH.
  - destruct (reset_rep N b s x HR Ho) as (b1 & -> & HR1). cbn [mbind res_bind]. by apply IH.
Qed.

Lemma test_rep N b s x :
  BitsRep N b s → x ≤ N →
  ∃ r, test x b = Ok r ∧ (r = true ↔ ∃ y, y ∈ s ∧ y / 8 = x / 8 ∧ (y ≠ x ∨ y mod 8 = 7)).
Proof.
  intros HR Hx. destruct (cell_in_range N b s x HR Hx) as [c Hc]. unfold test. rewrite Hc.
  eexists. split; [reflexivity|]. pose proof (Nat.mod_upper_bound x 8).
  rewrite test_cell by (lia || exact (Forall_lookup_1 _ _ _ _ (br_char _ _ _ HR) Hc)). split.
  - intros (k & Hk & Hb & Hkx). exists (8 * (x / 8) + k).
    assert ((8 * (x / 8) + k) / 8 = x / 8) as Hd by (symmetry; by apply (Nat.div_unique _ _ _ k)).
    assert ((8 * (x / 8) + k) mod 8 = k) as Hm by (symmetry; by apply (Nat.mod_unique _ _ (x / 8))).
    rewrite Hd, Hm. split; [|split; [done|]].
    + pose proof (br_bit _ _ _ HR (8 * (x / 8) + k) c) as Hbit. rewrite Hd, Hm, Hb in Hbit.
      by eapply bool_decide_eq_true, eq_sym, Hbit.
    + destruct Hkx as [Hkx|?]; [left|by right]. intros E. rewrite E in Hm. congruence.
  - intros (y & Hy & Hd & Hyx). exists (y mod 8). split; [apply Nat.mod_upper_bound; lia|]. split.
    + rewrite (br_bit _ _ _ HR y c) by (by rewrite Hd). by apply bool_decide_eq_true.
    + destruct Hyx as [Hyx|?]; [left|by right]. intros E. apply Hyx.
      by apply same_bit.
Qed.

(** [set] and [reset] with numbers up to [N] never leave the byte array and
    keep exactly the set of numbers set and not reset since, one bit each, but
    [test] inverts its mask: [test(x)] tells whether the byte of [x] holds some
    other number of the set, or, through the sign of [char], one whose
    bit is the byte's highest. *)
Theorem bitset_test_exact N os x :
  Forall (λ o, op_bit o ≤ N) os → x ≤ N →
  ∃ b r, run_bits os (new_bitset N) = Ok b ∧ test x b = Ok r ∧
    (∀ y c, _bit b !! (y / 8) = Some c → Z.testbit c (Z.of_nat (y mod 8)) = bool_decide (y ∈ bits_of os ∅)) ∧
    (r = true ↔ ∃ y, y ∈ bits_of os ∅ ∧ y / 8 = x / 8 ∧ (y ≠ x ∨ y mod 8 = 7)).
Proof.
  intros Hos Hx. destruct (run_bits_rep N os _ _ (BitsRep_new N) Hos) as (b & Hb & HR).
  destruct (test_rep N b _ x HR Hx) as (r & Hr & Hspec). exists b, r. split; [done|]. split; [done|].
  split; [apply (br_bit _ _ _ HR)|done].
Qed.
End BitSet.

(** ** BloomFilter *)
Module Bloom.

Open Scope Z_scope.

(** [size_t] is 64 bits wide, [unsigned int] 32 ([u64], [u32]); a [char] is
    converted to the type of the other operand. *)

(** A [std::string] as its [char] values. *)
Abbreviation str := (list Z) (only parsing).

Fixpoint BKDR_loop (hash : Z) (key : str) : Z :=
  match key with
  | [] => hash
  | ch :: key => BKDR_loop (u64 (u64 (hash * 131) + ch)) key
  end.
Definition BKDRHash (key : str) : Z := BKDR_loop 0 key.

Fixpoint AP_loop (hash i : Z) (key : str) : Z :=
  match key with
  | [] => hash
  | ch :: key =>
      let hash' :=
        if Z.land i 1 =? 0
        then Z.lxor hash (Z.lxor (Z.lxor (u32 (Z.shiftl hash 7)) (u32 ch)) (Z.shiftr hash 3))
        else Z.lxor hash (u32 (Z.lnot (Z.lxor (Z.lxor (u32 (Z.shiftl hash 11)) (u32 ch)) (Z.shiftr hash 5)))) in
      AP_loop hash' (i + 1) key
  end.
Definition APHash (key : str) : Z := AP_loop 0 0 key.

Fixpoint DJB_loop (hash : Z) (key : str) : Z :=
  match key with
  | [] => hash
  | ch :: key => DJB_loop (u32 (hash + u32 (u32 (Z.shiftl hash 5) + ch))) key
  end.
Definition DJBHash (key : str) : Z := DJB_loop 5381 key.

Fixpoint JS_loop (hash : Z) (s : str) : Z :=
  match s with
  | [] => hash
  | ch :: s => JS_loop (Z.lxor hash (u64 (u64 (u64 (Z.shiftl hash 5) + ch) + Z.shiftr hash 2))) s
  end.
Definition JSHash (s : str) : Z := JS_loop 1315423911 s.

(** [std::bitset<n>]: [set] and [test] throw [std::out_of_range] past the end. *)
Definition bs_set (pos : Z) (bs : list bool) : res (list bool) :=
  if decide (0 ≤ pos < Z.of_nat (length bs)) then Ok (<[Z.to_nat pos := true]> bs) else Err StdException.
Definition bs_test (pos : Z) (bs : list bool) : res bool :=
  if decide (0 ≤ pos < Z.of_nat (length bs)) then
    match bs !! Z.to_nat pos with Some b => Ok b | None => Err StdException end
  else Err StdException.

Section BloomFilter.
Context {K : Type} (HashFunc1 HashFunc2 HashFunc3 HashFunc4 : K → Z) (N X : nat).

Definition new_BloomFilter : list bool := replicate (N * X) false.

(** [HashFunc()(key)%(N*X)] *)
Definition slot_of (h : K → Z) (key : K) : Z := h key `mod` Z.of_nat (N * X).

Definition bloom_set (key : K) (_bs : list bool) : res (list bool) :=
  let hash1 := slot_of HashFunc1 key in
  let hash2 := slot_of HashFunc2 key in
  let hash3 := slot_of HashFunc3 key in
  let hash4 := slot_of HashFunc4 key in
  _bs ← bs_set hash1 _bs;
  _bs ← bs_set hash2 _bs;
  _bs ← bs_set hash3 _bs;
  bs_set hash4 _bs.

(** [&&] of two tests: the second runs only when the first holds. *)
Definition and_then (a b : res bool) : res bool := r ← a; if r : bool then b else Ok false.

Definition bloom_test (key : K) (_bs : list bool) : res bool :=
  let hash1 := slot_of HashFunc1 key in
  let hash2 := slot_of HashFunc2 key in
  let hash3 := slot_of HashFunc3 key in
  let hash4 := slot_of HashFunc4 key in
  and_then (bs_test hash1 _bs) (and_then (bs_test hash2 _bs) (and_then (bs_test hash3 _bs) (bs_test hash4 _bs))).

Fixpoint set_keys (keys : list K) (_bs : list bool) : res (list bool) :=
  match keys with [] => Ok _bs | k :: keys => _bs ← bloom_set k _bs; set_keys keys _bs end.

(** The four bits of a key. *)
Definition slots (key : K) : list Z :=
  [slot_of HashFunc1 key; slot_of HashFunc2 key; slot_of HashFunc3 key; slot_of HashFunc4 key].

Definition is_on (bs : list bool) (p : Z) : Prop := bs !! Z.to_nat p = Some true.

Context (HNX : (0 < N * X)%nat).

Lemma slot_of_range h k : 0 ≤ slot_of h k < Z.of_nat (N * X).
Proof. apply Z.mod_pos_bound. lia. Qed.

Lemma slots_range k : Forall (λ p, 0 ≤ p < Z.of_nat (N * X)) (slots k).
Proof. repeat constructor; apply slot_of_range. Qed.

Lemma bs_set_spec p bs :
  length bs = (N * X)%nat → 0 ≤ p < Z.of_nat (N * X) →
  ∃ bs', bs_set p bs = Ok bs' ∧ length bs' = (N * X)%nat ∧
    ∀ q, 0 ≤ q → is_on bs' q ↔ q = p ∨ is_on bs q.
Proof.
  intros Hl Hp. unfold bs_set. rewrite decide_True by lia. eexists. split; [reflexivity|].
  split; [by rewrite length_insert|]. intros q Hq. unfold is_on. destruct (decide (q = p)) as [->|Hne].
  - rewrite list_lookup_insert_eq by lia. naive_solver.
  - rewrite list_lookup_insert_ne by lia. naive_solver.
Qed.

Lemma bs_test_spec p bs :
  length bs = (N * X)%nat → 0 ≤ p < Z.of_nat (N * X) →
  ∃ b, bs_test p bs = Ok b ∧ (b = true ↔ is_on bs p).
Proof.
  intros Hl Hp. unfold bs_test. rewrite decide_True by lia.
  destruct (lookup_lt_is_Some_2 bs (Z.to_nat p)) as [b Hb]; [lia|]. rewrite Hb. exists b. unfold is_on. rewrite Hb.
  split; [done|]. naive_solver.
Qed.

Lemma bloom_set_spec k bs :
  length bs = (N * X)%nat →
  ∃ bs', bloom_set k bs = Ok bs' ∧ length bs' = (N * X)%nat ∧
    ∀ q, 0 ≤ q → is_on bs' q ↔ q ∈ slots k ∨ is_on bs q.
Proof.
  intros Hl. unfold bloom_set. cbv zeta.
  destruct (bs_set_spec _ bs Hl (slot_of_range HashFunc1 k)) as (b1 & -> & Hl1 & H1). cbn [mbind res_bind].
  destruct (bs_set_spec _ b1 Hl1 (slot_of_range HashFunc2 k)) as (b2 & -> & Hl2 & H2). cbn [mbind res_bind].
  destruct (bs_set_spec _ b2 Hl2 (slot_of_range HashFunc3 k)) as (b3 & -> & Hl3 & H3). cbn [mbind res_bind].
  destruct (bs_set_spec _ b3 Hl3 (slot_of_range HashFunc4 k)) as (b4 & -> & Hl4 & H4).
  exists b4. split; [done|]. split; [done|]. intros q Hq. rewrite H4, H3, H2, H1 by done.
  unfold slots. rewrite !elem_of_cons, elem_of_nil. tauto.
Qed.

Lemma set_keys_spec keys bs :
  length bs = (N * X)%nat →
  ∃ bs', set_keys keys bs = Ok bs' ∧ length bs' = (N * X)%nat ∧
    ∀ q, 0 ≤ q → is_on bs' q ↔ (∃ k, k ∈ keys ∧ q ∈ slots k) ∨ is_on bs q.
Proof.
  revert bs. induction keys as [|k keys IH]; intros bs Hl.
  { exists bs. split; [done|]. split; [done|]. intros q _. split; [by right|]. intros [(k & Hk & _)|?]; [|done].
    by apply elem_of_nil in Hk. }
  cbn [set_keys]. destruct (bloom_set_spec k bs Hl) as (b1 & -> & Hl1 & H1). cbn [mbind res_bind].
  destruct (IH b1 Hl1) as (b2 & -> & Hl2 & H2). exists b2. split; [done|]. split; [done|].
  intros q Hq. rewrite H2, H1 by done. setoid_rewrite elem_of_cons. naive_solver.
Qed.

Lemma and_then_spec a b P Q :
  (∃ r, a = Ok r ∧ (r = true ↔ P)) → (∃ r, b = Ok r ∧ (r = true ↔ Q)) →
  ∃ r, and_then a b = Ok r ∧ (r = true ↔ P ∧ Q).
Proof. intros (r & -> & Hr) (r' & -> & Hr'). destruct r; cbn; eexists; (split; [reflexivity|]); naive_solver. Qed.

Lemma bloom_test_spec k bs :
  length bs = (N * X)%nat →
  ∃ r, bloom_test k bs = Ok r ∧ (r = true ↔ Forall (is_on bs) (slots k)).
Proof.
  intros Hl. unfold bloom_test. cbv zeta.
  pose proof (λ h, bs_test_spec _ bs Hl (slot_of_range h k)) as Ht.
  destruct (and_then_spec _ _ _ _ (Ht HashFunc1) (and_then_spec _ _ _ _ (Ht HashFunc2)
    (and_then_spec _ _ _ _ (Ht HashFunc3) (Ht HashFunc4)))) as (r & -> & Hr).
  exists r. split; [done|]. rewrite Hr. unfold slots. rewrite !Forall_cons, Forall_nil. tauto.
Qed.

(** After any keys have been set, a Bloom filter of at least one bit answers
    [test(key)] without error, true for each key that was set, and otherwise true
    exactly when each of the key's four bits is a bit of some key that was set. *)
Theorem bloom_no_false_negatives keys :
  ∃ bs, set_keys keys new_BloomFilter = Ok bs ∧
    (∀ k, k ∈ keys → bloom_test k bs = Ok true) ∧
    (∀ k, ∃ r, bloom_test k bs = Ok r ∧
       (r = true ↔ ∀ p, p ∈ slots k → ∃ k', k' ∈ keys ∧ p ∈ slots k')).
Proof.
  destruct (set_keys_spec keys new_BloomFilter) as (bs & Hbs & Hl & Hon).
  { apply length_replicate. }
  assert (Hq : ∀ q, 0 ≤ q → is_on bs q ↔ ∃ k, k ∈ keys ∧ q ∈ slots k).
  { intros q Hq. rewrite Hon by done. split; [|by left]. intros [?|Hoff]; [done|].
    unfold is_on, new_BloomFilter in Hoff. by apply lookup_replicate in Hoff as [? _]. }
  assert (Ht : ∀ k, ∃ r, bloom_test k bs = Ok r ∧ (r = true ↔ ∀ p, p ∈ slots k → ∃ k', k' ∈ keys ∧ p ∈ slots k')).
  { intros k. destruct (bloom_test_spec k bs Hl) as (r & Hr & Hf). exists r. split; [done|]. rewrite Hf, Forall_forall.
    pose proof (slots_range k) as Hs. rewrite Forall_forall in Hs.
    split; intros H p Hp; specialize (H p Hp); specialize (Hs p Hp); apply Hq; (lia || done). }
  exists bs. split; [done|]. split; [|done]. intros k Hk. destruct (Ht k) as (r & Hr & Hiff). rewrite Hr.
  f_equal. apply Hiff. intros p Hp. by exists k.
Qed.
End BloomFilter.

(** ** The hash functions stay in their types *)

Lemma lxor_range n a b : 0 ≤ n → 0 ≤ a < 2 ^ n → 0 ≤ b < 2 ^ n → 0 ≤ Z.lxor a b < 2 ^ n.
Proof.
  intros Hn Ha Hb. assert (0 ≤ Z.lxor a b) as H0 by (apply Z.lxor_nonneg; lia). split; [done|].
  assert (Z.lxor a b = Z.lxor a b `mod` 2 ^ n) as ->; [|apply Z.mod_pos_bound; lia].
  apply Z.bits_inj'. intros k Hk. destruct (decide (k < n)); [by rewrite Z.mod_pow2_bits_low by lia|].
  rewrite Z.mod_pow2_bits_high, Z.lxor_spec by lia.
  rewrite <- (Z.mod_small a (2 ^ n)), <- (Z.mod_small b (2 ^ n)) by done.
  by rewrite !Z.mod_pow2_bits_high by lia.
Qed.

Lemma shiftr_range n k a : 0 ≤ k → 0 ≤ a < 2 ^ n → 0 ≤ Z.shiftr a k < 2 ^ n.
Proof.
  intros Hk Ha. rewrite Z.shiftr_div_pow2 by done. pose proof (Z.pow_pos_nonneg 2 k).
  split; [apply Z.div_pos; lia|]. apply Z.div_lt_upper_bound; nia.
Qed.

Create HintDb bits.
#[local] Hint Resolve u32_range u64_range lxor_range shiftr_range : bits.

Lemma AP_loop_range key hash i : 0 ≤ hash < 2 ^ 32 → 0 ≤ AP_loop hash i key < 2 ^ 32.
Proof.
  revert hash i. induction key as [|ch key IH]; intros hash i Hh; [done|]. cbn [AP_loop]. cbv zeta. apply IH.
  assert (0 ≤ 32) by lia. assert (0 ≤ 3) by lia. case_match; eauto 7 with bits.
Qed.

Lemma DJB_loop_range key hash : 0 ≤ hash < 2 ^ 32 → 0 ≤ DJB_loop hash key < 2 ^ 32.
Proof. revert hash. induction key; intros hash Hh; cbn [DJB_loop]; auto with bits. Qed.
Lemma BKDR_loop_range key hash : 0 ≤ hash < 2 ^ 64 → 0 ≤ BKDR_loop hash key < 2 ^ 64.
Proof. revert hash. induction key; intros hash Hh; cbn [BKDR_loop]; auto with bits. Qed.
Lemma JS_loop_range key hash : 0 ≤ hash < 2 ^ 64 → 0 ≤ JS_loop hash key < 2 ^ 64.
Proof.
  revert hash. induction key as [|ch key IH]; intros hash Hh; cbn [JS_loop]; [done|]. apply IH.
  apply lxor_range; [lia|done|]. auto with bits.
Qed.

(** With the four string hashes of the code, [APHash] and [DJBHash] compute in
    32 bits and [BKDRHash] and [JSHash] in 64, for any characters. *)
Theorem hash_ranges key :
  0 ≤ BKDRHash key < 2 ^ 64 ∧ 0 ≤ APHash key < 2 ^ 32 ∧ 0 ≤ DJBHash key < 2 ^ 32 ∧ 0 ≤ JSHash key < 2 ^ 64.
Proof.
  split; [apply BKDR_loop_range; lia|]. split; [apply AP_loop_range; lia|].
  split; [apply DJB_loop_range; lia|apply JS_loop_range; lia].
Qed.
End Bloom.

(** ** Witnesses *)
Lemma bitset_test_exact_witness :
  ∃ b r, BitSet.run_bits [BitSet.BSet 3; BitSet.BSet 12] (BitSet.new_bitset 20) = Ok b ∧ BitSet.test 3 b = Ok r ∧
    (∀ y c, BitSet._bit b !! (y / 8) = Some c →
       Z.testbit c (Z.of_nat (y mod 8)) = bool_decide (y ∈ BitSet.bits_of [BitSet.BSet 3; BitSet.BSet 12] ∅)) ∧
    (r = true ↔ ∃ y, y ∈ BitSet.bits_of [BitSet.BSet 3; BitSet.BSet 12] ∅ ∧ y / 8 = 3 / 8 ∧ (y ≠ 3 ∨ y mod 8 = 7)).
Proof.
  apply (BitSet.bitset_test_exact 20 [BitSet.BSet 3; BitSet.BSet 12] 3); [repeat constructor|]; simpl; lia.
Defined.

Lemma bloom_no_false_negatives_witness :
  ∃ bs, Bloom.set_keys Bloom.BKDRHash Bloom.APHash Bloom.DJBHash Bloom.JSHash 10 6 [[97%Z]; [-27; -83]%Z]
          (Bloom.new_BloomFilter 10 6) = Ok bs ∧
    Bloom.bloom_test Bloom.BKDRHash Bloom.APHash Bloom.DJBHash Bloom.JSHash 10 6 [97%Z] bs = Ok true.
Proof.
  destruct (Bloom.bloom_no_false_negatives Bloom.BKDRHash Bloom.APHash Bloom.DJBHash Bloom.JSHash 10 6 ltac:(lia)
    [[97%Z]; [-27; -83]%Z]) as (bs & H1 & H2 & _).
  exists bs. split; [exact H1|]. apply H2. left.
Defined.
