(* ===== verification/Str.v ===== *)
(** * The string of src/Algorithm/String.hpp ([zhc::string])

    The array [_str] is a list of characters, a C string ends at its first NUL,
    and running past the end of the array is an error.  Cells of a new array
    hold the arbitrary character [junk].  A [const char*] argument is the list of
    the characters before its terminator.  [strcpy] within one array, which
    [erase] uses, copies from left to right. *)

From S2P Require Import Prelude StdString.

Open Scope nat_scope.

Definition NUL : ascii := "000"%char.
Definition npos : Z := (2 ^ 64 - 1)%Z.
Definition size_t_wrap (z : Z) : Z := (z `mod` 2 ^ 64)%Z.

(** ** C strings in an array *)
Fixpoint until_nul (m : list ascii) : option str :=
  match m with
  | [] => None
  | c :: m => if decide (c = NUL) then Some [] else (cons c) <$> until_nul m
  end.
(** The C string that starts at [m + off]. *)
Definition c_string (m : list ascii) (off : nat) : res str :=
  match until_nul (drop off m) with Some s => Ok s | None => Err OutOfBounds end.

Definition write_at (off : nat) (cs : str) (m : list ascii) : res (list ascii) :=
  if decide (off + length cs ≤ length m) then Ok (take off m ++ cs ++ drop (off + length cs) m) else Err OutOfBounds.
Definition strcpy (m : list ascii) (off : nat) (s : str) : res (list ascii) := write_at off (s ++ [NUL]) m.
(** [strncpy(m + off, s, strlen(s))] *)
Definition strncpy (m : list ascii) (off : nat) (s : str) : res (list ascii) := write_at off s m.
Definition load (m : list ascii) (i : nat) : res ascii :=
  match m !! i with Some c => Ok c | None => Err OutOfBounds end.
Definition store (m : list ascii) (i : nat) (c : ascii) : res (list ascii) :=
  if decide (i < length m) then Ok (<[i := c]> m) else Err OutOfBounds.

Section Str.
Context (junk : ascii).

Record zstring := mkStr { _str : list ascii; _size : nat; _capacity : nat }.

Definition empty (s : zstring) : bool := (_size s =? 0) && (_capacity s =? 0).

(** [string(const char* str)] *)
Definition string_of (str : str) : res zstring :=
  m ← strcpy (replicate (length str + 1) junk) 0 str;
  Ok (mkStr m (length str) (length str)).
(** [string(const string& s)]: built from [s._str] as a C string. *)
Definition string_copy (s : zstring) : res zstring := c ← c_string (_str s) 0; string_of c.

(** [operator[]] *)
Definition index (s : zstring) (pos : nat) : res ascii :=
  assert_res (pos <? _size s);; load (_str s) pos.

Definition reserve (n : nat) (s : zstring) : res zstring :=
  if _capacity s <? n then
    c ← c_string (_str s) 0;
    tmp ← strcpy (replicate (n + 1) junk) 0 c;
    Ok (mkStr tmp (_size s) n)
  else Ok s.

(** [for (i = _size; i < n; ++i) _str[i] = ch;], [k] rounds from [i]. *)
Fixpoint fill_from (k i : nat) (ch : ascii) (m : list ascii) : res (list ascii) :=
  match k with 0 => Ok m | S k => m ← store m i ch; fill_from k (S i) ch m end.

Definition resize (n : nat) (ch : ascii) (s : zstring) : res zstring :=
  if _size s <? n then
    s ← reserve n s;
    m ← fill_from (n - _size s) (_size s) ch (_str s);
    m ← store m n NUL;
    Ok (mkStr m n (_capacity s))
  else
    m ← store (_str s) n NUL;
    Ok (mkStr m n (_capacity s)).

Definition grow (s : zstring) : res zstring :=
  if _size s =? _capacity s then reserve (if _capacity s =? 0 then 4 else _capacity s * 2) s else Ok s.

Definition push_back (ch : ascii) (s : zstring) : res zstring :=
  s ← grow s;
  m ← store (_str s) (_size s) ch;
  m ← store m (S (_size s)) NUL;
  Ok (mkStr m (S (_size s)) (_capacity s)).

Definition append (str : str) (s : zstring) : res zstring :=
  let len := length str in
  s ← (if _capacity s <? _size s + len then reserve (_size s + len) s else Ok s);
  m ← strcpy (_str s) (_size s) str;
  Ok (mkStr m (_size s + len) (_capacity s)).

(** [_str[end] = _str[end - d]; --end;], [k] rounds. *)
Fixpoint shift_right (k e d : nat) (m : list ascii) : res (list ascii) :=
  match k with
  | 0 => Ok m
  | S k => c ← load m (e - d); m ← store m e c; shift_right k (Nat.pred e) d m
  end.

Definition insert_char (pos : nat) (ch : ascii) (s : zstring) : res zstring :=
  assert_res (pos <=? _size s);;
  s ← grow s;
  m ← shift_right (_size s + 1 - pos) (_size s + 1) 1 (_str s);
  m ← store m pos ch;
  Ok (mkStr m (S (_size s)) (_capacity s)).

(** [while (end > pos + len - 1)] does not run when [pos + len - 1] wraps. *)
Definition insert_str (pos : nat) (str : str) (s : zstring) : res zstring :=
  let len := length str in
  s ← (if _capacity s <? _size s + len then reserve (_size s + len) s else Ok s);
  let rounds := if pos + len =? 0 then 0 else _size s + len - (pos + len - 1) in
  m ← shift_right rounds (_size s + len) len (_str s);
  m ← strncpy m pos str;
  Ok (mkStr m (_size s + len) (_capacity s)).

Definition erase (pos : nat) (len : Z) (s : zstring) : res zstring :=
  assert_res (pos <? _size s);;
  if (len =? npos)%Z || (Z.of_nat (_size s) <=? size_t_wrap (Z.of_nat pos + len))%Z then
    m ← store (_str s) pos NUL;
    Ok (mkStr m pos (_capacity s))
  else
    c ← c_string (_str s) (Z.to_nat (size_t_wrap (Z.of_nat pos + len)));
    m ← strcpy (_str s) pos c;
    Ok (mkStr m (Z.to_nat (size_t_wrap (Z.of_nat (_size s) - len))) (_capacity s)).

(** [while (pos < _size)], [k] rounds; [None] is [npos]. *)
Fixpoint find_from (k pos : nat) (ch : ascii) (m : list ascii) : res (option nat) :=
  match k with
  | 0 => Ok None
  | S k => c ← load m pos; if decide (c = ch) then Ok (Some pos) else find_from k (S pos) ch m
  end.
Definition find_char (ch : ascii) (pos : nat) (s : zstring) : res (option nat) :=
  assert_res (pos <? _size s);; find_from (_size s - pos) pos ch (_str s).
(** [strstr(_str + pos, str)] *)
Definition find_str (str : str) (pos : nat) (s : zstring) : res (option nat) :=
  assert_res (pos <? _size s);;
  c ← c_string (_str s) pos;
  Ok (match find str c with Some i => Some (pos + i) | None => None end).

Definition clear (s : zstring) : res zstring :=
  m ← store (_str s) 0 NUL; Ok (mkStr m 0 (_capacity s)).

(** ** The contents *)
Definition no_nul (xs : str) : Prop := Forall (λ c, c ≠ NUL) xs.

Record StrRep (s : zstring) (xs : str) : Prop := {
  sr_len : length (_str s) = _capacity s + 1;
  sr_size : _size s = length xs;
  sr_cells : take (length xs + 1) (_str s) = xs ++ [NUL];
  sr_nul : no_nul xs;
}.

Lemma StrRep_split s xs :
  StrRep s xs → ∃ z, _str s = xs ++ NUL :: z ∧ length xs + 1 + length z = _capacity s + 1.
Proof.
  intros [Hl Hs Hc Hn]. exists (drop (length xs + 1) (_str s)).
  assert (_str s = xs ++ NUL :: drop (length xs + 1) (_str s)) as E.
  { rewrite <- (take_drop (length xs + 1) (_str s)) at 1. by rewrite Hc, <- app_assoc. }
  split; [done|]. rewrite <- Hl. rewrite E at 2. rewrite length_app. simpl. lia.
Qed.

Lemma StrRep_intro m n cap xs z :
  m = xs ++ NUL :: z → n = length xs → length xs + 1 + length z = cap + 1 → no_nul xs → StrRep (mkStr m n cap) xs.
Proof.
  intros -> -> Hl Hn. split; simpl; [rewrite length_app; simpl; lia|done| |done].
  change (xs ++ NUL :: z) with (xs ++ [NUL] ++ z). rewrite app_assoc.
  by replace (length xs + 1) with (length (xs ++ [NUL])) by (by rewrite length_app); rewrite take_app_length.
Qed.

Lemma until_nul_app xs z : no_nul xs → until_nul (xs ++ NUL :: z) = Some xs.
Proof.
  induction 1 as [|c xs Hc Hxs IH]; [done|]. cbn [app until_nul]. rewrite decide_False by done. by rewrite IH.
Qed.

Lemma c_string_at s xs off :
  StrRep s xs → off ≤ length xs → c_string (_str s) off = Ok (drop off xs).
Proof.
  intros HS Ho. destruct (StrRep_split _ _ HS) as (z & -> & _). unfold c_string. rewrite drop_app_le by done.
  rewrite until_nul_app; [done|]. apply Forall_drop, HS.
Qed.

Lemma write_at_spec a b cs z off :
  off = length a → length cs = length b → write_at off cs (a ++ b ++ z) = Ok (a ++ cs ++ z).
Proof.
  intros -> Hl. unfold write_at. rewrite decide_True by (rewrite !length_app; lia).
  rewrite take_app_length, Hl, drop_app_add, drop_app_length. done.
Qed.

Lemma write_at_start b cs z : length cs = length b → write_at 0 cs (b ++ z) = Ok (cs ++ z).
Proof. intros. by apply (write_at_spec []). Qed.

Lemma store_spec a x c z off : off = length a → store (a ++ x :: z) off c = Ok (a ++ c :: z).
Proof.
  intros ->. unfold store. rewrite decide_True by (rewrite length_app; simpl; lia).
  f_equal. rewrite <- (Nat.add_0_r (length a)). by rewrite insert_app_r.
Qed.

Lemma load_spec a x z off : off = length a → load (a ++ x :: z) off = Ok x.
Proof. intros ->. unfold load. by rewrite list_lookup_middle. Qed.

Lemma string_of_spec xs :
  no_nul xs → ∃ s, string_of xs = Ok s ∧ StrRep s xs ∧ _capacity s = length xs.
Proof.
  intros Hn. unfold string_of, strcpy. rewrite <- (app_nil_r (replicate _ _)).
  rewrite write_at_start by (by rewrite length_app, length_replicate).
  cbn [mbind res_bind]. eexists. split; [reflexivity|]. split; [|done].
  rewrite app_nil_r. apply StrRep_intro with (z := []); simpl; (done || lia).
Qed.

Lemma str_reserve_spec n s xs :
  StrRep s xs → ∃ s', reserve n s = Ok s' ∧ StrRep s' xs ∧ _capacity s' = Nat.max n (_capacity s).
Proof.
  intros HS. destruct (StrRep_split _ _ HS) as (z & _ & Hz). unfold reserve.
  destruct (Nat.ltb_spec (_capacity s) n) as [Hlt|Hge].
  - rewrite (c_string_at s xs 0) by (done || lia). rewrite drop_0. cbn [mbind res_bind]. unfold strcpy.
    replace (n + 1) with ((length xs + 1) + (n - length xs)) by lia. rewrite replicate_add.
    rewrite write_at_start by (by rewrite length_app, length_replicate). cbn [mbind res_bind]. eexists. split; [reflexivity|]. split; [|simpl; lia].
    apply StrRep_intro with (z := replicate (n - length xs) junk); [by rewrite <- app_assoc|apply HS| |apply HS].
    rewrite length_replicate. lia.
  - exists s. split; [done|]. split; [done|]. lia.
Qed.

Lemma str_grow_spec s xs :
  StrRep s xs → ∃ s', grow s = Ok s' ∧ StrRep s' xs ∧ length xs < _capacity s'.
Proof.
  intros HS. destruct (StrRep_split _ _ HS) as (z & _ & Hz). unfold grow. rewrite (sr_size _ _ HS).
  destruct (Nat.eqb_spec (length xs) (_capacity s)) as [E|E].
  - destruct (str_reserve_spec (if _capacity s =? 0 then 4 else _capacity s * 2) s xs HS) as (s' & ? & ? & Hc).
    exists s'. split; [done|]. split; [done|]. destruct (Nat.eqb_spec (_capacity s) 0); lia.
  - exists s. split; [done|]. split; [done|]. lia.
Qed.

Lemma fill_from_spec k a b ch z i :
  i = length a → length b = k → fill_from k i ch (a ++ b ++ z) = Ok (a ++ replicate k ch ++ z).
Proof.
  revert a b i. induction k as [|k IH]; intros a b i -> Hb; destruct b as [|x b]; simplify_eq/=; [done|].
  rewrite store_spec by done. cbn [mbind res_bind].
  change (a ++ ch :: b ++ z) with (a ++ [ch] ++ b ++ z). rewrite app_assoc.
  rewrite (IH _ b) by (rewrite ?length_app; simpl; lia). by rewrite <- app_assoc.
Qed.

Lemma no_nul_replicate k ch : ch ≠ NUL → no_nul (replicate k ch).
Proof. intros. by apply Forall_replicate. Qed.

Lemma str_resize_spec n ch s xs :
  StrRep s xs → (length xs < n → ch ≠ NUL) →
  ∃ s', resize n ch s = Ok s' ∧ StrRep s' (take n xs ++ replicate (n - length xs) ch).
Proof.
  intros HS Hch. unfold resize. rewrite (sr_size _ _ HS). destruct (Nat.ltb_spec (length xs) n) as [Hlt|Hge].
  - destruct (str_reserve_spec n s xs HS) as (s1 & -> & HS1 & Hcap). cbn [mbind res_bind].
    destruct (StrRep_split _ _ HS1) as (z & Hz & Hlz). rewrite Hz, (sr_size _ _ HS1).
    assert (∃ b c z', NUL :: z = b ++ c :: z' ∧ length b = n - length xs) as (b & c & z' & E & Hb).
    { exists (take (n - length xs) (NUL :: z)).
      destruct (lookup_lt_is_Some_2 (NUL :: z) (n - length xs)) as [c Hc]; [simpl; lia|].
      exists c, (drop (S (n - length xs)) (NUL :: z)). rewrite <- (drop_S _ _ _ Hc), take_drop, length_take.
      split; [done|]. simpl. lia. }
    rewrite E, (fill_from_spec _ xs b) by done. cbn [mbind res_bind]. rewrite app_assoc, store_spec
      by (rewrite length_app, length_replicate; lia). cbn [mbind res_bind].
    eexists. split; [reflexivity|]. rewrite take_ge by lia. apply StrRep_intro with (z := z').
    + done.
    + rewrite length_app, length_replicate. lia.
    + apply (f_equal length) in E. rewrite length_app in E. simpl in E. rewrite length_app, length_replicate. lia.
    + apply Forall_app. split; [apply HS|apply no_nul_replicate; auto].
  - destruct (StrRep_split _ _ HS) as (z & Hz & Hlz). rewrite Hz.
    assert (∃ y z', xs ++ NUL :: z = take n xs ++ y :: z') as (y & z' & E).
    { destruct (lookup_lt_is_Some_2 (xs ++ NUL :: z) n) as [y Hy]; [rewrite length_app; simpl; lia|].
      exists y, (drop (S n) (xs ++ NUL :: z)). rewrite <- (drop_S _ _ _ Hy), <- (take_app_le xs (NUL :: z) n) by done.
      by rewrite take_drop. }
    rewrite E, store_spec by (rewrite length_take; lia). cbn [mbind res_bind].
    eexists. split; [reflexivity|]. replace (n - length xs) with 0 by lia. rewrite app_nil_r.
    apply StrRep_intro with (z := z'); [done|rewrite length_take; lia| |apply Forall_take, HS].
    apply (f_equal length) in E. rewrite !length_app, length_take in *. simpl in *. lia.
Qed.

Lemma str_push_back_spec ch s xs :
  StrRep s xs → ch ≠ NUL → ∃ s', push_back ch s = Ok s' ∧ StrRep s' (xs ++ [ch]).
Proof.
  intros HS Hch. unfold push_back. destruct (str_grow_spec s xs HS) as (s1 & -> & HS1 & Hcap). cbn [mbind res_bind].
  destruct (StrRep_split _ _ HS1) as (z & -> & Hlz). rewrite (sr_size _ _ HS1), store_spec by done.
  cbn [mbind res_bind]. destruct z as [|y z]; simpl in Hlz; [lia|].
  change (xs ++ ch :: y :: z) with (xs ++ [ch] ++ y :: z). rewrite app_assoc, store_spec
    by (rewrite length_app; simpl; lia). cbn [mbind res_bind]. eexists. split; [reflexivity|].
  apply StrRep_intro with (z := z); [done|rewrite length_app; simpl; lia|rewrite length_app; simpl; lia|].
  apply Forall_app. split; [apply HS|by apply Forall_singleton].
Qed.

(** [if (_size + len > _capacity) reserve(_size + len);] *)
Lemma make_room_spec len s xs :
  StrRep s xs → ∃ s', (if _capacity s <? _size s + len then reserve (_size s + len) s else Ok s) = Ok s' ∧
    StrRep s' xs ∧ length xs + len ≤ _capacity s'.
Proof.
  intros HS. rewrite (sr_size _ _ HS). destruct (Nat.ltb_spec (_capacity s) (length xs + len)).
  - destruct (str_reserve_spec (length xs + len) s xs HS) as (s' & ? & ? & ?). exists s'. split; [done|]. split; [done|]. lia.
  - exists s. split; [done|]. split; [done|]. lia.
Qed.

Lemma append_spec t s xs :
  StrRep s xs → no_nul t → ∃ s', append t s = Ok s' ∧ StrRep s' (xs ++ t).
Proof.
  intros HS Ht. unfold append. cbv zeta. destruct (make_room_spec (length t) s xs HS) as (s1 & -> & HS1 & Hcap).
  cbn [mbind res_bind]. destruct (StrRep_split _ _ HS1) as (z & -> & Hlz). rewrite (sr_size _ _ HS1). unfold strcpy.
  change (NUL :: z) with ([NUL] ++ z). rewrite <- (take_drop (length t) z), (app_assoc [NUL]).
  rewrite write_at_spec by (rewrite ?length_app, ?length_take; simpl; lia). cbn [mbind res_bind].
  eexists. split; [reflexivity|]. apply StrRep_intro with (z := drop (length t) z).
  - by rewrite <- !app_assoc.
  - by rewrite length_app.
  - rewrite length_app, length_drop. lia.
  - apply Forall_app. split; [apply HS|done].
Qed.

Lemma shift_right_spec d a b z m :
  m = a ++ b ++ z → 1 ≤ d ≤ length z →
  ∃ g, length g = d ∧ shift_right (length b) (length a + length b + d - 1) d m = Ok (a ++ g ++ b ++ drop d z).
Proof.
  revert z m. induction b as [|y b IH] using rev_ind; intros z m -> Hd.
  { exists (take d z). rewrite length_take. split; [lia|]. simpl. by rewrite take_drop. }
  rewrite length_app, Nat.add_1_r. cbn [shift_right].
  rewrite <- !app_assoc, app_assoc. cbn [app]. rewrite load_spec by (rewrite length_app; lia). cbn [mbind res_bind].
  unfold store. rewrite decide_True by (rewrite !length_app; simpl; lia). cbn [mbind res_bind].
  replace (length a + S (length b) + d - 1) with (length (a ++ b) + d) by (rewrite length_app; lia).
  rewrite insert_app_r. destruct d as [|d]; [lia|].
  change (<[S d := y]> (y :: z)) with (y :: <[d := y]> z). rewrite <- app_assoc.
  replace (Nat.pred (length (a ++ b) + S d)) with (length a + length b + S d - 1) by (rewrite length_app; lia).
  destruct (IH (y :: <[d := y]> z) _ eq_refl) as (g & Hg & ->); [simpl; rewrite length_insert; lia|].
  exists g. split; [done|]. cbn [drop]. do 4 f_equal.
  rewrite (drop_S _ y) by (apply list_lookup_insert_eq; lia). by rewrite drop_insert_lt by lia.
Qed.

(** Opening a gap before position [pos], the terminator moving along. *)
Lemma open_gap d pos s xs :
  StrRep s xs → pos ≤ length xs → 1 ≤ d → length xs + d ≤ _capacity s →
  ∃ g z, length g = d ∧ length xs + d + 1 + length z = _capacity s + 1 ∧
    shift_right (length xs + 1 - pos) (length xs + d) d (_str s) = Ok (take pos xs ++ g ++ drop pos xs ++ NUL :: z).
Proof.
  intros HS Hp Hd Hcap. destruct (StrRep_split _ _ HS) as (z & -> & Hlz).
  destruct (shift_right_spec d (take pos xs) (drop pos xs ++ [NUL]) z (xs ++ NUL :: z)) as (g & Hg & He).
  { by rewrite <- app_assoc, app_assoc, take_drop. }
  { lia. }
  exists g, (drop d z). split; [done|]. rewrite length_drop. split; [lia|].
  rewrite length_app, length_drop, length_take in He. cbn [length] in He.
  replace (length xs - pos + 1) with (length xs + 1 - pos) in He by lia.
  replace (pos `min` length xs + (length xs + 1 - pos) + d - 1) with (length xs + d) in He by lia.
  rewrite He. by rewrite <- app_assoc.
Qed.

Lemma insert_char_spec pos ch s xs :
  StrRep s xs → ch ≠ NUL →
  if decide (pos ≤ length xs) then
    ∃ s', insert_char pos ch s = Ok s' ∧ StrRep s' (take pos xs ++ ch :: drop pos xs)
  else insert_char pos ch s = Err AssertFailed.
Proof.
  intros HS Hch. unfold insert_char. rewrite (sr_size _ _ HS). destruct (decide (pos ≤ length xs)) as [Hp|Hp].
  2: { by rewrite (proj2 (Nat.leb_gt _ _)) by lia. }
  rewrite (proj2 (Nat.leb_le _ _) Hp). cbn [assert_res mbind res_bind].
  destruct (str_grow_spec s xs HS) as (s1 & -> & HS1 & Hcap). cbn [mbind res_bind]. rewrite (sr_size _ _ HS1).
  destruct (open_gap 1 pos s1 xs HS1) as (g & z & Hg & Hlz & ->); [lia|lia|lia|]. cbn [mbind res_bind].
  destruct g as [|y [|]]; simplify_eq/=. rewrite store_spec by (rewrite length_take; lia). cbn [mbind res_bind].
  eexists. split; [reflexivity|]. apply StrRep_intro with (z := z).
  - by rewrite <- app_assoc.
  - rewrite length_app, length_take. simpl. rewrite length_drop. lia.
  - rewrite length_app, length_take. simpl. rewrite length_drop. lia.
  - apply Forall_app. split; [apply Forall_take, HS|]. constructor; [done|apply Forall_drop, HS].
Qed.

Lemma shift_right_id k e m : k ≤ e + 1 → e < length m → shift_right k e 0 m = Ok m.
Proof.
  revert e. induction k as [|k IH]; intros e Hk He; [done|]. cbn [shift_right]. rewrite Nat.sub_0_r.
  destruct (lookup_lt_is_Some_2 m e He) as [c Hc]. unfold load. rewrite Hc. cbn [mbind res_bind].
  unfold store. rewrite decide_True by done. cbn [mbind res_bind]. rewrite list_insert_id by done.
  apply IH; lia.
Qed.

Lemma insert_str_spec pos t s xs :
  StrRep s xs → no_nul t → pos ≤ length xs →
  ∃ s', insert_str pos t s = Ok s' ∧ StrRep s' (take pos xs ++ t ++ drop pos xs).
Proof.
  intros HS Ht Hp. unfold insert_str. cbv zeta. destruct (make_room_spec (length t) s xs HS) as (s1 & -> & HS1 & Hcap).
  cbn [mbind res_bind]. rewrite (sr_size _ _ HS1). unfold strncpy. destruct t as [|c0 t].
  - destruct (StrRep_split _ _ HS1) as (z & Hz & Hlz).
    rewrite shift_right_id by (rewrite ?Hz, ?length_app; simpl; destruct (Nat.eqb_spec (pos + 0) 0); lia).
    cbn [mbind res_bind app]. unfold write_at. rewrite decide_True by (rewrite Hz, length_app; simpl; lia).
    cbn [app length mbind res_bind]. rewrite !Nat.add_0_r, !take_drop. eexists. split; [reflexivity|].
    rewrite <- (sr_size _ _ HS1). by destruct s1.
  - remember (c0 :: t) as t' eqn:Et. assert (1 ≤ length t') as Hl by (subst; simpl; lia). clear Et.
    destruct (Nat.eqb_spec (pos + length t') 0); [lia|].
    replace (length xs + length t' - (pos + length t' - 1)) with (length xs + 1 - pos) by lia.
    destruct (open_gap (length t') pos s1 xs HS1) as (g & z & Hg & Hlz & ->); [lia|lia|lia|]. cbn [mbind res_bind].
    rewrite write_at_spec by (rewrite ?length_take; lia). cbn [mbind res_bind]. eexists. split; [reflexivity|].
    apply StrRep_intro with (z := z).
    + by rewrite <- !app_assoc.
    + rewrite !length_app, length_take, length_drop. lia.
    + rewrite !length_app, length_take, length_drop. lia.
    + repeat (apply Forall_app; split); [apply Forall_take, HS|done|apply Forall_drop, HS].
Qed.

(** The characters [erase(pos, len)] leaves. *)
Definition erased (pos : nat) (len : Z) (xs : str) : str :=
  take pos xs ++ (if (len =? npos)%Z then [] else drop (pos + Z.to_nat len) xs).

Lemma str_erase_spec pos len s xs :
  StrRep s xs → (Z.of_nat (length xs) < 2 ^ 64)%Z → (0 ≤ len)%Z → (len = npos ∨ Z.of_nat pos + len < 2 ^ 64)%Z →
  if decide (pos < length xs) then ∃ s', erase pos len s = Ok s' ∧ StrRep s' (erased pos len xs)
  else erase pos len s = Err AssertFailed.
Proof.
  intros HS Hbig H0 Hlen. unfold erase. rewrite (sr_size _ _ HS). destruct (decide (pos < length xs)) as [Hp|Hp].
  2: { by rewrite (proj2 (Nat.ltb_ge _ _)) by lia. }
  rewrite (proj2 (Nat.ltb_lt _ _) Hp). cbn [assert_res mbind res_bind]. unfold erased.
  destruct (StrRep_split _ _ HS) as (z & Hz & Hlz).
  assert (Hcut : ∃ s', (m ← store (_str s) pos NUL; Ok (mkStr m pos (_capacity s))) = Ok s' ∧ StrRep s' (take pos xs ++ [])).
  { destruct (lookup_lt_is_Some_2 xs pos Hp) as [y Hy]. rewrite Hz.
    rewrite <- (take_drop_middle xs pos y Hy), <- app_assoc. cbn [app].
    rewrite store_spec by (rewrite length_take; lia). cbn [mbind res_bind]. eexists. split; [reflexivity|].
    rewrite take_app_le, take_take, Nat.min_id, app_nil_r by (rewrite length_take; lia).
    eapply StrRep_intro; [reflexivity|rewrite length_take; lia| |apply Forall_take, HS].
    rewrite length_app, length_take, length_drop. simpl. lia. }
  destruct (Z.eqb_spec len npos) as [->|Hne]; [exact Hcut|]. destruct Hlen as [?|Hlen]; [done|].
  unfold size_t_wrap at 1. rewrite Z.mod_small by lia. cbn [orb].
  destruct (Z.leb_spec (Z.of_nat (length xs)) (Z.of_nat pos + len)) as [Hle|Hgt].
  { rewrite drop_ge by lia. exact Hcut. }
  assert (Hsz : size_t_wrap (Z.of_nat pos + len) = Z.of_nat (pos + Z.to_nat len)).
  { unfold size_t_wrap. rewrite Z.mod_small by lia. lia. }
  rewrite Hsz, Nat2Z.id. rewrite (c_string_at s xs) by (done || lia). cbn [mbind res_bind]. unfold strcpy.
  assert (Hsplit : ∃ b z', _str s = take pos xs ++ b ++ z' ∧ length b = length xs - (pos + Z.to_nat len) + 1).
  { exists (take (length xs - (pos + Z.to_nat len) + 1) (drop pos (_str s))), (drop (length xs - (pos + Z.to_nat len) + 1) (drop pos (_str s))).
    rewrite take_drop. split; [|rewrite length_take, length_drop, Hz, length_app; simpl; lia].
    rewrite Hz, <- (take_app_le xs (NUL :: z) pos) by lia. by rewrite take_drop. }
  destruct Hsplit as (b & z' & E & Hb). rewrite E.
  rewrite write_at_spec by (rewrite ?length_app, ?length_take, ?length_drop; simpl; lia). cbn [mbind res_bind].
  eexists. split; [reflexivity|]. apply (f_equal length) in E. rewrite (sr_len _ _ HS), !length_app, length_take in E.
  assert (HL : length (take pos xs ++ drop (pos + Z.to_nat len) xs) = length xs - Z.to_nat len).
  { rewrite length_app, length_take, length_drop. lia. }
  apply StrRep_intro with (z := z').
  - by rewrite <- !app_assoc.
  - rewrite HL. unfold size_t_wrap. rewrite Z.mod_small by (unfold npos in *; lia). lia.
  - rewrite HL. lia.
  - apply Forall_app. split; [apply Forall_take, HS|apply Forall_drop, HS].
Qed.

Lemma str_clear_spec s xs : StrRep s xs → ∃ s', clear s = Ok s' ∧ StrRep s' [].
Proof.
  intros HS. destruct (StrRep_split _ _ HS) as (z & Hz & Hlz). unfold clear.
  destruct (_str s) as [|c m] eqn:E; [by destruct xs|]. change (store (c :: m) 0 NUL) with (Ok (NUL :: m)).
  cbn [mbind res_bind]. eexists. split; [reflexivity|]. apply StrRep_intro with (z := m); [done|done| |by constructor].
  pose proof (sr_len _ _ HS) as Hl. rewrite E in Hl. simpl in *. lia.
Qed.

Lemma string_copy_spec s xs : StrRep s xs → ∃ s', string_copy s = Ok s' ∧ StrRep s' xs.
Proof.
  intros HS. unfold string_copy. rewrite (c_string_at s xs) by (done || lia). rewrite drop_0. cbn [mbind res_bind].
  destruct (string_of_spec xs (sr_nul _ _ HS)) as (s' & ? & ? & _). eauto.
Qed.

Lemma str_index_spec s xs i :
  StrRep s xs → index s i = match xs !! i with Some c => Ok c | None => Err AssertFailed end.
Proof.
  intros HS. unfold index. rewrite (sr_size _ _ HS). destruct (xs !! i) as [c|] eqn:Hc.
  - pose proof (lookup_lt_Some _ _ _ Hc) as Hi. rewrite (proj2 (Nat.ltb_lt _ _) Hi). cbn [assert_res mbind res_bind].
    destruct (StrRep_split _ _ HS) as (z & -> & _). unfold load. rewrite lookup_app_l by done. by rewrite Hc.
  - apply lookup_ge_None in Hc. by rewrite (proj2 (Nat.ltb_ge _ _) Hc).
Qed.

(** The first position of [ch] from [pos] on. *)
Definition first_from (ch : ascii) (pos : nat) (xs : str) : option nat :=
  (λ p, pos + p.1) <$> list_find (λ c, c = ch) (drop pos xs).

Lemma find_from_spec k pos ch xs z :
  pos + k = length xs → find_from k pos ch (xs ++ z) = Ok (first_from ch pos xs).
Proof.
  unfold first_from. revert pos. induction k as [|k IH]; intros pos Hk.
  { by rewrite drop_ge by lia. }
  cbn [find_from]. destruct (lookup_lt_is_Some_2 xs pos) as [c Hc]; [lia|].
  unfold load. rewrite lookup_app_l, Hc by lia. cbn [mbind res_bind]. rewrite (drop_S _ _ _ Hc). cbn [list_find].
  destruct (decide (c = ch)); [cbn; by rewrite Nat.add_0_r|]. rewrite IH by lia.
  destruct (list_find _ _) as [[i y]|]; cbn; [|done]. do 2 f_equal. lia.
Qed.

Lemma find_char_spec ch pos s xs :
  StrRep s xs →
  find_char ch pos s = if decide (pos < length xs) then Ok (first_from ch pos xs) else Err AssertFailed.
Proof.
  intros HS. unfold find_char. rewrite (sr_size _ _ HS). destruct (decide (pos < length xs)) as [Hp|Hp].
  - rewrite (proj2 (Nat.ltb_lt _ _) Hp). cbn [assert_res mbind res_bind].
    destruct (StrRep_split _ _ HS) as (z & -> & _). apply find_from_spec. lia.
  - by rewrite (proj2 (Nat.ltb_ge _ _)) by lia.
Qed.

Lemma find_str_spec t pos s xs :
  StrRep s xs →
  find_str t pos s = if decide (pos < length xs) then Ok ((λ i, pos + i) <$> find t (drop pos xs)) else Err AssertFailed.
Proof.
  intros HS. unfold find_str. rewrite (sr_size _ _ HS). destruct (decide (pos < length xs)) as [Hp|Hp].
  - rewrite (proj2 (Nat.ltb_lt _ _) Hp), (c_string_at s xs) by (done || lia). cbn. by destruct (find t _).
  - by rewrite (proj2 (Nat.ltb_ge _ _)) by lia.
Qed.

(** ** Operation sequences *)
Inductive str_op :=
  | SPush (ch : ascii) | SAppend (t : str) | SInsert (pos : nat) (ch : ascii) | SInsertStr (pos : nat) (t : str)
  | SErase (pos : nat) (len : Z) | SResize (n : nat) (ch : ascii) | SReserve (n : nat) | SClear | SCopy | SAssign (t : str).

Definition do_str_op (o : str_op) (s : zstring) : res zstring :=
  match o with
  | SPush ch => push_back ch s
  | SAppend t => append t s
  | SInsert pos ch => insert_char pos ch s
  | SInsertStr pos t => insert_str pos t s
  | SErase pos len => erase pos len s
  | SResize n ch => resize n ch s
  | SReserve n => reserve n s
  | SClear => clear s
  | SCopy => string_copy s
  | SAssign t => string_of t
  end.

(** The operation on the list of characters; [None] where the code asserts. *)
Definition text_op (o : str_op) (xs : str) : option str :=
  match o with
  | SPush ch => Some (xs ++ [ch])
  | SAppend t => Some (xs ++ t)
  | SInsert pos ch => if decide (pos ≤ length xs) then Some (take pos xs ++ ch :: drop pos xs) else None
  | SInsertStr pos t => Some (take pos xs ++ t ++ drop pos xs)
  | SErase pos len => if decide (pos < length xs) then Some (erased pos len xs) else None
  | SResize n ch => Some (take n xs ++ replicate (n - length xs) ch)
  | SReserve _ | SCopy => Some xs
  | SClear => Some []
  | SAssign t => Some t
  end.

(** The arguments hold no NUL, [insert(pos, str)], which checks nothing, is
    called inside the string, and for [erase] the size fits [size_t] and
    [pos + len] does not wrap. *)
Definition str_op_ok (o : str_op) (xs : str) : Prop :=
  match o with
  | SPush ch | SInsert _ ch => ch ≠ NUL
  | SAppend t | SAssign t => no_nul t
  | SInsertStr pos t => no_nul t ∧ pos ≤ length xs
  | SErase pos len => (Z.of_nat (length xs) < 2 ^ 64)%Z ∧ (0 ≤ len)%Z ∧ (len = npos ∨ Z.of_nat pos + len < 2 ^ 64)%Z
  | SResize n ch => length xs < n → ch ≠ NUL
  | SReserve _ | SClear | SCopy => True
  end.

Lemma do_str_op_spec o s xs :
  StrRep s xs → str_op_ok o xs →
  match text_op o xs with
  | None => do_str_op o s = Err AssertFailed
  | Some xs' => ∃ s', do_str_op o s = Ok s' ∧ StrRep s' xs'
  end.
Proof.
  intros HS Hok. destruct o as [ch|t|pos ch|pos t|pos len|n ch|n| | |t]; cbn [text_op do_str_op str_op_ok] in *.
  - by apply str_push_back_spec.
  - by apply append_spec.
  - pose proof (insert_char_spec pos ch s xs HS Hok). by destruct (decide _).
  - apply insert_str_spec; tauto.
  - pose proof (str_erase_spec pos len s xs HS (proj1 Hok) (proj1 (proj2 Hok)) (proj2 (proj2 Hok))). by destruct (decide _).
  - by apply str_resize_spec.
  - destruct (str_reserve_spec n s xs HS) as (s' & ? & ? & _). eauto.
  - by eapply str_clear_spec.
  - by apply string_copy_spec.
  - destruct (string_of_spec t Hok) as (s' & ? & ? & _). eauto.
Qed.

Fixpoint do_str_ops (os : list str_op) (s : zstring) : res zstring :=
  match os with [] => Ok s | o :: os => s' ← do_str_op o s; do_str_ops os s' end.
Fixpoint text_ops (os : list str_op) (xs : str) : option str :=
  match os with [] => Some xs | o :: os => xs' ← text_op o xs; text_ops os xs' end.
Fixpoint str_ops_ok (os : list str_op) (xs : str) : Prop :=
  match os with
  | [] => True
  | o :: os => str_op_ok o xs ∧ match text_op o xs with Some xs' => str_ops_ok os xs' | None => True end
  end.

Lemma do_str_ops_spec os s xs :
  StrRep s xs → str_ops_ok os xs →
  match text_ops os xs with
  | None => do_str_ops os s = Err AssertFailed
  | Some xs' => ∃ s', do_str_ops os s = Ok s' ∧ StrRep s' xs'
  end.
Proof.
  revert s xs. induction os as [|o os IH]; intros s xs HS Hok; [by exists s|].
  destruct Hok as [Ho Hok]. pose proof (do_str_op_spec o s xs HS Ho) as Hs. cbn [text_ops do_str_ops].
  destruct (text_op o xs) as [xs1|]; cbn [mbind option_bind].
  - destruct Hs as (s1 & -> & HS1). by apply IH.
  - by rewrite Hs.
Qed.

(** A string is its text: operations with NUL-free arguments, on a string
    made from a literal, never leave the array, fail exactly where an [assert]
    of the code rejects the position, and leave the text the same operations
    leave on a list of characters, read back by [c_str()], [size()], [operator[]],
    and [find] of a character or a substring. *)
Theorem string_refines_text t os :
  no_nul t → str_ops_ok os t →
  ∃ s0, string_of t = Ok s0 ∧
  match text_ops os t with
  | None => do_str_ops os s0 = Err AssertFailed
  | Some xs => ∃ s, do_str_ops os s0 = Ok s ∧ _size s = length xs ∧ c_string (_str s) 0 = Ok xs ∧
      (∀ i, index s i = match xs !! i with Some c => Ok c | None => Err AssertFailed end) ∧
      (∀ ch pos, pos < length xs → find_char ch pos s = Ok (first_from ch pos xs)) ∧
      (∀ pat pos, pos < length xs → find_str pat pos s = Ok ((λ i, pos + i) <$> find pat (drop pos xs)))
  end.
Proof.
  intros Ht Hok. destruct (string_of_spec t Ht) as (s0 & H0 & HS0 & _). exists s0. split; [done|].
  pose proof (do_str_ops_spec os s0 t HS0 Hok) as Hs. destruct (text_ops os t) as [xs|]; [|done].
  destruct Hs as (s & H1 & HS). exists s. split; [done|]. split; [apply HS|].
  split; [by rewrite (c_string_at s xs) by (done || lia)|].
  split; [intros i; by apply str_index_spec|]. split; intros p pos Hp.
  - by rewrite (find_char_spec p pos s xs HS), decide_True.
  - by rewrite (find_str_spec p pos s xs HS), decide_True.
Qed.

(** ** operator>> *)

(** [in.get()]: at the end of the input it returns [EOF], which as a [char] is 255. *)
Definition get (input : list ascii) : ascii * list ascii :=
  match input with c :: input => (c, input) | [] => ("255"%char, []) end.
Definition is_sep (c : ascii) : bool := bool_decide (c = " "%char) || bool_decide (c = "010"%char).

(** The loop, with [buff], [i] and the last character read as its state. *)
Fixpoint read_loop (fuel : nat) (s : zstring) (buff : list ascii) (i : nat) (ch : ascii) (input : list ascii) :
    res (zstring * list ascii * nat * list ascii) :=
  match fuel with
  | 0 => Err OutOfFuel
  | S fuel =>
      if is_sep ch then Ok (s, buff, i, input)
      else
        '(s, i) ← (if i =? 127 then c ← c_string buff 0; s ← append c s; Ok (s, 0) else Ok (s, i));
        buff ← store buff i ch;
        let '(ch, input) := get input in
        read_loop fuel s buff (S i) ch input
  end.

Definition op_in (fuel : nat) (input : list ascii) (s : zstring) : res (zstring * list ascii) :=
  s ← clear s;
  let buff := replicate 128 NUL in
  let '(ch, input) := get input in
  '(s, buff, i, input) ← read_loop fuel s buff 0 ch input;
  if 0 <? i then
    buff ← store buff i NUL;
    c ← c_string buff 0;
    s ← append c s;
    Ok (s, input)
  else Ok (s, input).

(** [buff] holds the pending characters and ends in NUL. *)
Definition BuffRep (buff : list ascii) (pend : str) : Prop :=
  length buff = 128 ∧ buff !! 127 = Some NUL ∧ take (length pend) buff = pend ∧ length pend ≤ 127 ∧ no_nul pend.

Lemma BuffRep_string buff pend rest :
  BuffRep buff pend → buff !! length pend = Some NUL → c_string (buff ++ rest) 0 = Ok pend.
Proof.
  intros (Hl & _ & Ht & _ & Hn) Hnul. unfold c_string. rewrite drop_0.
  rewrite <- (take_drop_middle buff _ _ Hnul), Ht, <- app_assoc. cbn [app]. by rewrite until_nul_app.
Qed.

Lemma BuffRep_store buff pend c :
  BuffRep buff pend → length pend < 127 → c ≠ NUL →
  ∃ buff', store buff (length pend) c = Ok buff' ∧ BuffRep buff' (pend ++ [c]).
Proof.
  intros (Hl & H127 & Ht & Hle & Hn) Hlt Hc. unfold store. rewrite decide_True by lia. eexists. split; [reflexivity|].
  split; [by rewrite length_insert|]. split; [by rewrite list_lookup_insert_ne by lia|].
  rewrite length_app, Nat.add_1_r. split; [|split; [lia|apply Forall_app; split; [done|by apply Forall_singleton]]].
  rewrite (take_S_r _ _ c) by (apply list_lookup_insert_eq; lia). by rewrite take_insert_ge, Ht by lia.
Qed.

Lemma BuffRep_reset buff pend : BuffRep buff pend → BuffRep buff [].
Proof. intros (? & ? & _ & _ & _). split; [done|]. split; [done|]. split; [done|]. split; [simpl; lia|constructor]. Qed.

Lemma read_loop_spec w sep rest fuel s xs buff pend :
  StrRep s xs → BuffRep buff pend → no_nul w → Forall (λ c, is_sep c = false) w → is_sep sep = true →
  length w < fuel →
  ∃ s' buff' xs' pend',
    read_loop fuel s buff (length pend) (get (w ++ sep :: rest)).1 (get (w ++ sep :: rest)).2 =
      Ok (s', buff', length pend', rest) ∧
    StrRep s' xs' ∧ BuffRep buff' pend' ∧ xs' ++ pend' = xs ++ pend ++ w.
Proof.
  intros HS HB Hw Hsep Hs Hf. revert s xs buff pend w HS HB Hw Hsep Hf.
  induction fuel as [|fuel IH]; intros s xs buff pend w HS HB Hw Hsep Hf; [lia|]. cbn [read_loop].
  destruct w as [|c w].
  { cbn [app get fst snd]. rewrite Hs. exists s, buff, xs, pend. by rewrite app_nil_r. }
  cbn [app get fst snd]. inversion_clear Hw as [|?? Hc Hw']. inversion_clear Hsep as [|?? Hcs Hsep'].
  rewrite Hcs. pose proof HB as (Hl & H127 & Ht & Hle & Hn).
  destruct (Nat.eqb_spec (length pend) 127) as [E|E].
  - rewrite <- (app_nil_r buff), (BuffRep_string buff pend) by (rewrite ?E; done). cbn [mbind res_bind].
    destruct (append_spec pend s xs HS Hn) as (s1 & -> & HS1). cbn [mbind res_bind]. rewrite app_nil_r.
    destruct (BuffRep_store buff [] c (BuffRep_reset _ _ HB)) as (b1 & Hb1 & HB1); [simpl; lia|done|].
    cbn [length] in Hb1. rewrite Hb1. cbn [mbind res_bind].
    destruct (IH s1 (xs ++ pend) b1 [c] w HS1 HB1 Hw' Hsep') as (s' & b' & xs' & p' & Hr & ? & ? & He); [simpl in Hf; lia|].
    exists s', b', xs', p'. destruct (get (w ++ sep :: rest)) as [ch inp]. split; [exact Hr|].
    split; [done|]. split; [done|]. rewrite He, <- app_assoc. done.
  - cbn [mbind res_bind]. destruct (BuffRep_store buff pend c HB) as (b1 & -> & HB1); [lia|done|]. cbn [mbind res_bind].
    destruct (IH s xs b1 (pend ++ [c]) w HS HB1 Hw' Hsep') as (s' & b' & xs' & p' & Hr & ? & ? & He); [simpl in Hf; lia|].
    rewrite length_app, Nat.add_1_r in Hr.
    exists s', b', xs', p'. destruct (get (w ++ sep :: rest)) as [ch inp]. split; [exact Hr|].
    split; [done|]. split; [done|]. rewrite He. by rewrite <- !app_assoc.
Qed.

(** [operator>>] reads one word of any length through its 128-byte buffer: on
    input that is a word followed by a space or a newline it returns, having put
    exactly the word into the string and consumed the word and the separator. *)
Theorem op_in_reads_word w sep rest s xs :
  StrRep s xs → no_nul w → Forall (λ c, is_sep c = false) w → is_sep sep = true →
  ∃ s', op_in (S (length w)) (w ++ sep :: rest) s = Ok (s', rest) ∧ StrRep s' w.
Proof.
  intros HS Hw Hsep Hs. unfold op_in. destruct (str_clear_spec s xs HS) as (s0 & -> & HS0). cbn [mbind res_bind].
  assert (HB : BuffRep (replicate 128 NUL) []) by (split; [done|]; split; [done|]; split; [done|]; split; [simpl; lia|constructor]).
  destruct (read_loop_spec w sep rest (S (length w)) s0 [] _ [] HS0 HB Hw Hsep Hs) as (s1 & b1 & xs1 & p1 & Hr & HS1 & HB1 & He); [lia|].
  cbn [length] in Hr. destruct (get (w ++ sep :: rest)) as [ch inp]. cbn [fst snd] in Hr. rewrite Hr. cbn [mbind res_bind].
  destruct (Nat.ltb_spec 0 (length p1)) as [Hp|Hp].
  - pose proof HB1 as (Hl & H127 & Ht & Hle & Hn). unfold store. rewrite decide_True by lia. cbn [mbind res_bind].
    assert (c_string (<[length p1 := NUL]> b1) 0 = Ok p1) as ->.
    { unfold c_string. rewrite drop_0, insert_take_drop by lia. by rewrite Ht, until_nul_app. }
    cbn [mbind res_bind]. destruct (append_spec p1 s1 xs1 HS1 Hn) as (s2 & -> & HS2). cbn [mbind res_bind].
    exists s2. split; [done|]. by rewrite He in HS2.
  - destruct p1; [|simpl in Hp; lia]. exists s1. split; [done|]. rewrite app_nil_r in He. simpl in He. by rewrite <- He.
Qed.

Lemma read_loop_eof fuel s xs buff pend :
  StrRep s xs → BuffRep buff pend → read_loop fuel s buff (length pend) "255"%char [] = Err OutOfFuel.
Proof.
  revert s xs buff pend. induction fuel as [|fuel IH]; intros s xs buff pend HS HB; [done|]. cbn [read_loop].
  change (is_sep "255"%char) with false. cbn [get]. pose proof HB as (Hl & H127 & Ht & Hle & Hn).
  assert ("255"%char ≠ NUL) as Hc by done. destruct (Nat.eqb_spec (length pend) 127) as [E|E].
  - rewrite <- (app_nil_r buff), (BuffRep_string buff pend) by (rewrite ?E; done). cbn [mbind res_bind].
    destruct (append_spec pend s xs HS Hn) as (s1 & -> & HS1). cbn [mbind res_bind]. rewrite app_nil_r.
    destruct (BuffRep_store buff [] _ (BuffRep_reset _ _ HB) ltac:(simpl; lia) Hc) as (b1 & Hb1 & HB1).
    cbn [length] in Hb1. rewrite Hb1. cbn [mbind res_bind]. by apply (IH s1 (xs ++ pend) b1 ["255"%char]).
  - cbn [mbind res_bind]. destruct (BuffRep_store buff pend _ HB ltac:(lia) Hc) as (b1 & -> & HB1). cbn [mbind res_bind].
    rewrite <- Nat.add_1_r. change 1 with (length ["255"%char]). rewrite <- length_app. by apply (IH s xs).
Qed.

(** [operator>>] does not test for the end of the input: at the end it runs on,
    whatever the number of rounds it is given. *)
Theorem op_in_never_ends_at_eof s xs fuel : StrRep s xs → op_in fuel [] s = Err OutOfFuel.
Proof.
  intros HS. unfold op_in. destruct (str_clear_spec s xs HS) as (s0 & -> & HS0). cbn [mbind res_bind get].
  assert (HB : BuffRep (replicate 128 NUL) []) by (split; [done|]; split; [done|]; split; [done|]; split; [simpl; lia|constructor]).
  pose proof (read_loop_eof fuel s0 [] _ [] HS0 HB) as Hr. cbn [length] in Hr. by rewrite Hr.
Qed.
(** ** Moves, assignment and output *)

(** The members of an object before the [swap] of its move constructor: there is no
    array behind the null pointer. *)
Definition null_string : zstring := mkStr [] 0 0.
Definition swap (s t : zstring) : zstring * zstring := (t, s).
(** [string(string&& s)]: the new string and what is left in [s]. *)
Definition move_construct (s : zstring) : zstring * zstring := swap null_string s.
(** [operator=(string s)]: [s] is a copy, destroyed at the end. *)
Definition assign (this s : zstring) : res zstring := s ← string_copy s; Ok (swap this s).1.

(** [operator<<]: the characters that are output. *)
Fixpoint out_from (n i : nat) (s : zstring) : res (list ascii) :=
  match n with
  | 0 => Ok []
  | S n => c ← index s i; cs ← out_from n (S i) s; Ok (c :: cs)
  end.
Definition op_out (s : zstring) : res (list ascii) := out_from (_size s) 0 s.

Lemma out_from_spec s xs n i : StrRep s xs → i + n = length xs → out_from n i s = Ok (drop i xs).
Proof.
  intros HS. revert i. induction n as [|n IH]; intros i Hi; cbn [out_from]; [by rewrite drop_ge by lia|].
  rewrite (str_index_spec s xs i HS). destruct (lookup_lt_is_Some_2 xs i) as [c Hc]; [lia|].
  rewrite Hc. cbn [mbind res_bind]. rewrite IH by lia. cbn. by rewrite (drop_S _ _ _ Hc).
Qed.

(** A moved string takes its text along, and an assigned one is a copy; but the string
    moved from is left without an array, and appending to it or copying it accesses
    the null pointer. *)
Theorem moved_from_is_null s xs t ys :
  StrRep s xs → StrRep t ys →
  (∃ s1 s2, move_construct s = (s1, s2) ∧ StrRep s1 xs ∧ _size s2 = 0 ∧
     string_copy s2 = Err OutOfBounds ∧ ∀ ch u, push_back ch s2 = Err OutOfBounds ∧ append u s2 = Err OutOfBounds) ∧
  ∃ t', assign t s = Ok t' ∧ StrRep t' xs.
Proof.
  intros HS HT. split.
  - exists s, null_string. split; [done|]. split; [done|]. split; [done|]. split; [done|]. intros ch u. split; [done|].
    by destruct u.
  - unfold assign. destruct (string_copy_spec s xs HS) as (s' & -> & HS'). by exists s'.
Qed.

(** Output and input round trip: what [operator<<] writes of a string that is one
    word, followed by a separator, [operator>>] reads back. *)
Theorem string_io_round_trip s xs sep rest t ys :
  StrRep s xs → StrRep t ys → Forall (λ c, is_sep c = false) xs → is_sep sep = true →
  ∃ cs t', op_out s = Ok cs ∧ op_in (S (length cs)) (cs ++ sep :: rest) t = Ok (t', rest) ∧ StrRep t' xs.
Proof.
  intros HS HT Hx Hs. exists xs. unfold op_out. rewrite (out_from_spec s xs) by (done || (rewrite (sr_size _ _ HS); lia)).
  destruct (op_in_reads_word xs sep rest t ys HT (sr_nul _ _ HS) Hx Hs) as (t' & H1 & H2). by exists t'.
Qed.

End Str.

(** The default filler of [resize] is NUL, and [reserve] copies with [strcpy]: the
    cells after the first NUL, although inside [size()], are lost when the
    array grows. *)
Theorem resize_reserve_loses junk :
  ∃ s, (s0 ← string_of junk (lit "a"); s1 ← resize junk 3 NUL s0; reserve junk 8 s1) = Ok s ∧
    _size s = 3 ∧ index s 2 = Ok junk.
Proof. eexists. split; [reflexivity|]. done. Qed.

(** ** Witnesses *)
Lemma no_nul_lit (s : string) : forallb (λ c, negb (bool_decide (c = NUL))) (lit s) = true → no_nul (lit s).
Proof.
  intros H. apply Forall_forall. intros c Hc. apply list_elem_of_In in Hc. rewrite forallb_forall in H.
  specialize (H c Hc). apply negb_true_iff, bool_decide_eq_false in H. done.
Qed.

Lemma string_refines_text_witness :
  ∃ s0 s, string_of "x" (lit "hello") = Ok s0 ∧
    do_str_ops "x" [SInsertStr 5 (lit " world"); SErase 0 1%Z; SPush "!"] s0 = Ok s ∧ c_string (_str s) 0 = Ok (lit "ello world!").
Proof.
  destruct (string_refines_text "x" (lit "hello") [SInsertStr 5 (lit " world"); SErase 0 1%Z; SPush "!"]) as (s0 & H0 & H).
  - by apply no_nul_lit.
  - split; [split; [by apply no_nul_lit|simpl; lia]|]. cbn [text_op]. split; [simpl; lia|]. cbn. by split.
  - destruct H as (s & H1 & _ & H2 & _). exists s0, s. split; [exact H0|]. split; [exact H1|exact H2].
Defined.

Lemma op_in_reads_word_witness :
  ∃ s0 s', string_of "x" (lit "old") = Ok s0 ∧ op_in "x" 4 (lit "abc def") s0 = Ok (s', lit "def") ∧ StrRep s' (lit "abc").
Proof.
  destruct (string_of_spec "x" (lit "old")) as (s0 & H0 & HS & _); [by apply no_nul_lit|].
  destruct (op_in_reads_word "x" (lit "abc") " " (lit "def") s0 (lit "old") HS) as (s' & H1 & H2).
  - by apply no_nul_lit.
  - by repeat constructor.
  - done.
  - exists s0, s'. split; [exact H0|]. split; [exact H1|exact H2].
Defined.

Lemma op_in_never_ends_at_eof_witness :
  ∃ s0, string_of "x" (lit "old") = Ok s0 ∧ op_in "x" 1000 [] s0 = Err OutOfFuel.
Proof.
  destruct (string_of_spec "x" (lit "old")) as (s0 & H0 & HS & _); [by apply no_nul_lit|].
  exists s0. split; [exact H0|]. apply (op_in_never_ends_at_eof "x" s0 (lit "old") 1000 HS).
Defined.

Lemma moved_from_is_null_witness :
  ∃ s0, string_of "x" (lit "old") = Ok s0 ∧ ∃ t', assign "x" s0 s0 = Ok t' ∧ StrRep t' (lit "old").
Proof.
  destruct (string_of_spec "x" (lit "old")) as (s0 & H0 & HS & _); [by apply no_nul_lit|].
  exists s0. split; [exact H0|]. exact (proj2 (moved_from_is_null "x" s0 (lit "old") s0 (lit "old") HS HS)).
Defined.

Lemma string_io_round_trip_witness :
  ∃ s0 cs t', string_of "x" (lit "word") = Ok s0 ∧ op_out s0 = Ok cs ∧
    op_in "x" (S (length cs)) (cs ++ "010"%char :: lit "more") s0 = Ok (t', lit "more") ∧ StrRep t' (lit "word").
Proof.
  destruct (string_of_spec "x" (lit "word")) as (s0 & H0 & HS & _); [by apply no_nul_lit|].
  destruct (string_io_round_trip "x" s0 (lit "word") "010"%char (lit "more") s0 (lit "word") HS HS) as (cs & t' & H1 & H2 & H3).
  - by repeat constructor.
  - done.
  - exists s0, cs, t'. split; [exact H0|]. split; [exact H1|]. split; [exact H2|exact H3].
Defined.
