(* ===== verification/TimerWheel.v ===== *)
(** * The timer wheel of src/Reactor_http/source/server.hpp ([TimerTask], [TimerWheel])

    A task is an object shared by the [shared_ptr]s in the slots of the wheel: it
    is destroyed, and its callback runs, when the last of them is.  [_timers]
    holds [weak_ptr]s.  A run of a callback is an entry of the log [fired]; the
    callbacks themselves do not add timers.  [_tick] is an [int], timeouts are
    [uint32_t], and the conversions between them are written out. *)

From S2P Require Import Prelude.

Open Scope Z_scope.

Abbreviation tloc := positive (only parsing).

Record TimerTask := mkTask { _id : Z; _timeout : Z; _cancel : bool }.

Record TimerWheel := mkWheel {
  _tick : Z;
  _wheel : list (list tloc);
  _timers : gmap Z tloc;
  tasks : gmap tloc TimerTask;   (** the live task objects *)
  fired : list Z;                (** ids whose callback ran, in order *)
}.

Definition _capacity : Z := 60.
Definition fits_int (z : Z) : bool := (- 2 ^ 31 <=? z) && (z <? 2 ^ 31).

Definition new_wheel : TimerWheel := mkWheel 0 (replicate (Z.to_nat _capacity) []) ∅ ∅ [].

Definition set_slots (f : list (list tloc) → list (list tloc)) (s : TimerWheel) : TimerWheel :=
  mkWheel (_tick s) (f (_wheel s)) (_timers s) (tasks s) (fired s).

(** [_wheel[pos]], and [_wheel[pos].push_back(pt)] *)
Definition slot (s : TimerWheel) (pos : Z) : list tloc := _wheel s !!! Z.to_nat pos.
Definition push_slot (pos : Z) (x : tloc) (s : TimerWheel) : res TimerWheel :=
  if decide (0 ≤ pos < Z.of_nat (length (_wheel s))) then
    Ok (set_slots <[Z.to_nat pos := slot s pos ++ [x]]> s)
  else Err OutOfBounds.

(** [TimerWheel::Remove] *)
Definition Remove (id : Z) (s : TimerWheel) : TimerWheel :=
  mkWheel (_tick s) (_wheel s) (delete id (_timers s)) (tasks s) (fired s).

(** [~TimerTask()]: the callback unless cancelled, then [_release], which is [Remove]. *)
Definition destroy (x : tloc) (s : TimerWheel) : res TimerWheel :=
  match tasks s !! x with
  | None => Err DanglingPtr
  | Some t =>
      let s := if _cancel t then s
               else mkWheel (_tick s) (_wheel s) (_timers s) (tasks s) (fired s ++ [_id t]) in
      let s := Remove (_id t) s in
      Ok (mkWheel (_tick s) (_wheel s) (_timers s) (delete x (tasks s)) (fired s))
  end.

(** A [shared_ptr] to [x] has been destroyed: the task dies with the last one. *)
Definition drop_ref (x : tloc) (s : TimerWheel) : res TimerWheel :=
  if decide (x ∈ concat (_wheel s)) then Ok s else destroy x s.

(** [_wheel[pos].clear()], front to back. *)
Fixpoint clear_slot (pos : Z) (l : list tloc) (s : TimerWheel) : res TimerWheel :=
  match l with
  | [] => Ok s
  | x :: l =>
      s ← drop_ref x (set_slots <[Z.to_nat pos := l]> s);
      clear_slot pos l s
  end.

Definition RunTimerTask (s : TimerWheel) : res TimerWheel :=
  let t := Z.rem (_tick s + 1) _capacity in
  let s := mkWheel t (_wheel s) (_timers s) (tasks s) (fired s) in
  clear_slot t (slot s t) s.

Definition TimerAddInLoop (id timeout : Z) (s : TimerWheel) : res TimerWheel :=
  let x := fresh (dom (tasks s)) in
  let s := mkWheel (_tick s) (_wheel s) (_timers s) (<[x := mkTask id timeout false]> (tasks s)) (fired s) in
  let pos := u32 (_tick s + timeout) `mod` _capacity in
  s ← push_slot pos x s;
  Ok (mkWheel (_tick s) (_wheel s) (<[id := x]> (_timers s)) (tasks s) (fired s)).

Definition TimerRefreshInLoop (id : Z) (s : TimerWheel) : res TimerWheel :=
  match _timers s !! id with
  | None => Ok s
  | Some x =>
      match tasks s !! x with     (** [it->second.lock()] *)
      | None => Err NullDeref
      | Some t =>
          let delay := to_int32 (_timeout t) in
          if fits_int (_tick s + delay) then push_slot (Z.rem (_tick s + delay) _capacity) x s
          else Err SignedOverflow
      end
  end.

Definition TimerCancelInLoop (id : Z) (s : TimerWheel) : res TimerWheel :=
  match _timers s !! id with
  | None => Ok s
  | Some x =>
      match tasks s !! x with
      | None => Ok s
      | Some t => Ok (mkWheel (_tick s) (_wheel s) (_timers s) (<[x := mkTask (_id t) (_timeout t) true]> (tasks s)) (fired s))
      end
  end.

Definition HasTimer (id : Z) (s : TimerWheel) : bool := bool_decide (is_Some (_timers s !! id)).

Inductive timer_op := TAdd (id timeout : Z) | TRefresh (id : Z) | TCancel (id : Z) | TTick.

Definition do_timer_op (o : timer_op) (s : TimerWheel) : res TimerWheel :=
  match o with
  | TAdd id timeout => TimerAddInLoop id timeout s
  | TRefresh id => TimerRefreshInLoop id s
  | TCancel id => TimerCancelInLoop id s
  | TTick => RunTimerTask s
  end.
Fixpoint do_timer_ops (os : list timer_op) (s : TimerWheel) : res TimerWheel :=
  match os with [] => Ok s | o :: os => s ← do_timer_op o s; do_timer_ops os s end.

(** ** Specification: countdowns *)

(** The ticks a timeout stands for: the wheel has 60 slots, and a task put into
    the current slot waits a whole turn. *)
Definition ticks_of (timeout : Z) : Z := if timeout `mod` 60 =? 0 then 60 else timeout `mod` 60.

Record countdown := mkCount { left_ : Z; period : Z; cancelled : bool }.
Record clock := mkClock { counts : gmap Z countdown; rung : list Z }.

Definition tick_one (c : countdown) : option countdown :=
  if left_ c =? 1 then None else Some (mkCount (left_ c - 1) (period c) (cancelled c)).
(** The ids due at the next tick. *)
Definition due (c : countdown) : Prop := left_ c = 1 ∧ cancelled c = false.

Definition clock_op (o : timer_op) (c : clock) : clock :=
  match o with
  | TAdd id timeout => mkClock (<[id := mkCount (ticks_of timeout) (ticks_of timeout) false]> (counts c)) (rung c)
  | TRefresh id => mkClock (alter (λ k, mkCount (period k) (period k) (cancelled k)) id (counts c)) (rung c)
  | TCancel id => mkClock (alter (λ k, mkCount (left_ k) (period k) true) id (counts c)) (rung c)
  | TTick =>
      mkClock (omap tick_one (counts c))
        (rung c ++ (map_to_list (filter (λ p, left_ p.2 = 1 ∧ cancelled p.2 = false) (counts c))).*1)
  end.

(** An id is added only while it has no timer; timeouts are below [2^31 - 60]. *)
Definition timer_op_ok (o : timer_op) (c : clock) : Prop :=
  match o with
  | TAdd id timeout => counts c !! id = None ∧ 0 ≤ timeout < 2 ^ 31 - 60
  | _ => True
  end.
Fixpoint timer_ops_ok (os : list timer_op) (c : clock) : Prop :=
  match os with [] => True | o :: os => timer_op_ok o c ∧ timer_ops_ok os (clock_op o c) end.
Definition run_clock (os : list timer_op) (c : clock) : clock := fold_left (λ c o, clock_op o c) os c.
Definition new_clock : clock := mkClock ∅ [].

(** ** Clearing a slot *)
Lemma in_slots (w : list (list tloc)) p l x :
  (p < length w)%nat → x ∈ concat (<[p := l]> w) ↔ x ∈ l ∨ x ∈ concat (<[p := []]> w).
Proof.
  intros Hp. rewrite !insert_take_drop by done. rewrite !concat_app. cbn [concat].
  rewrite !elem_of_app. set_solver.
Qed.

(** [x] dies with the slot [l] when no other slot [R] refers to it. *)
Definition dead (l R : list tloc) (x : tloc) : Prop := x ∈ l ∧ x ∉ R.
#[local] Instance dead_dec l R x : Decision (dead l R x).
Proof. unfold dead. apply _. Defined.

(** [_timers] names each live task by its id, and no other object. *)
Definition registered (s : TimerWheel) : Prop :=
  ∀ id x, _timers s !! id = Some x ↔ ∃ t, tasks s !! x = Some t ∧ _id t = id.

Record Cleared (l R : list tloc) (p : nat) (s s' : TimerWheel) (F : list Z) : Prop := {
  cl_wheel : _wheel s' = <[p := []]> (_wheel s);
  cl_tick : _tick s' = _tick s;
  cl_fired : fired s' = fired s ++ F;
  cl_tasks : ∀ x t, tasks s' !! x = Some t ↔ tasks s !! x = Some t ∧ ¬ dead l R x;
  cl_reg : registered s';
  cl_nodup : NoDup F;
  cl_in : ∀ id, id ∈ F ↔ ∃ x t, tasks s !! x = Some t ∧ _id t = id ∧ _cancel t = false ∧ dead l R x;
}.

Lemma dead_nil R x : ¬ dead [] R x.
Proof. intros [H _]. by apply elem_of_nil in H. Qed.

Lemma Cleared_nil p s R : registered s → _wheel s !! p = Some [] → Cleared [] R p s s [].
Proof.
  intros Hr Hp. pose proof (dead_nil R) as Hd. split; try done.
  - by rewrite list_insert_id.
  - by rewrite app_nil_r.
  - naive_solver.
  - constructor.
  - intros id. rewrite elem_of_nil. naive_solver.
Qed.

(** A reference that is not the last one goes without effect. *)
Lemma Cleared_skip x l R p s s' F :
  x ∈ l ∨ x ∈ R →
  Cleared l R p (set_slots <[p := l]> s) s' F → Cleared (x :: l) R p s s' F.
Proof.
  intros Hx [H1 H2 H3 H4 H5 H6 H7]. assert (Hd : ∀ y, dead (x :: l) R y ↔ dead l R y).
  { intros y. unfold dead. rewrite elem_of_cons. naive_solver. }
  split; simpl in *; try done.
  - by rewrite H1, list_insert_insert_eq.
  - intros y t. by rewrite H4, Hd.
  - intros id. rewrite H7. by setoid_rewrite Hd.
Qed.

(** The state [destroy] leaves. *)
Lemma destroy_spec x t s :
  registered s → tasks s !! x = Some t →
  ∃ s1, destroy x s = Ok s1 ∧ _tick s1 = _tick s ∧ _wheel s1 = _wheel s ∧ tasks s1 = delete x (tasks s) ∧
    fired s1 = fired s ++ (if _cancel t then [] else [_id t]) ∧ registered s1.
Proof.
  intros Hr Ht. unfold destroy, registered in *. rewrite Ht. eexists. split; [reflexivity|].
  assert (Hreg : ∀ id y, delete (_id t) (_timers s) !! id = Some y ↔ ∃ u, delete x (tasks s) !! y = Some u ∧ _id u = id).
  { intros id y. rewrite lookup_delete_Some, Hr. setoid_rewrite lookup_delete_Some. split.
    - intros [Hne (u & Hu & Hid)]. exists u. split; [|done]. split; [|done]. intros <-. congruence.
    - intros (u & [Hne Hu] & Hid). split; [|by exists u]. intros E.
      assert (_timers s !! id = Some x) as E1 by (apply Hr; exists t; by rewrite E).
      assert (_timers s !! id = Some y) as E2 by (apply Hr; by exists u). congruence. }
  destruct (_cancel t); simpl; rewrite ?app_nil_r; done.
Qed.

Lemma Cleared_destroy x t l R p s s1 s' F :
  x ∉ l → x ∉ R → registered s → tasks s !! x = Some t →
  destroy x (set_slots <[p := l]> s) = Ok s1 → Cleared l R p s1 s' F →
  Cleared (x :: l) R p s s' ((if _cancel t then [] else [_id t]) ++ F).
Proof.
  intros Hl HR Hreg Ht Hd HC.
  destruct (destroy_spec x t (set_slots <[p := l]> s) Hreg Ht) as (s1' & Hd' & E1 & E2 & E3 & E4 & Hr1).
  rewrite Hd in Hd'. injection Hd' as <-. destruct HC as [H1 H2 H3 H4 H5 H6 H7]. simpl in *.
  assert (Hdd : ∀ y, dead (x :: l) R y ↔ y = x ∨ dead l R y).
  { intros y. unfold dead. rewrite elem_of_cons. naive_solver. }
  assert (Hin : _id t ∉ F).
  { rewrite H7, E3. intros (y & u & Hy & Hid & _). apply lookup_delete_Some in Hy as [Hne Hy].
    assert (_timers s !! _id t = Some x) as F1 by (apply Hreg; by exists t).
    assert (_timers s !! _id t = Some y) as F2 by (apply Hreg; by exists u). congruence. }
  split.
  - by rewrite H1, E2, list_insert_insert_eq.
  - by rewrite H2.
  - by rewrite H3, E4, <- app_assoc.
  - intros y u. rewrite H4, E3, lookup_delete_Some, Hdd. naive_solver.
  - done.
  - destruct (_cancel t); [done|]. by constructor.
  - intros id. rewrite elem_of_app, H7, E3. setoid_rewrite lookup_delete_Some. setoid_rewrite Hdd. split.
    + intros [Hi|(y & u & [? ?] & ? & ? & ?)]; [|eauto 10].
      destruct (_cancel t) eqn:Ec; [by apply elem_of_nil in Hi|]. apply list_elem_of_singleton in Hi as ->. eauto 10.
    + intros (y & u & Hy & Hid & Hc & [->|Hdy]).
      * left. assert (u = t) as -> by congruence. rewrite Hc, Hid. by apply list_elem_of_singleton.
      * right. exists y, u. split; [|done]. split; [|done]. intros ->. by destruct Hdy.
Qed.

Lemma clear_slot_spec pos l s R :
  _wheel s !! Z.to_nat pos = Some l → R = concat (<[Z.to_nat pos := []]> (_wheel s)) → registered s →
  (∀ x, x ∈ l → is_Some (tasks s !! x)) →
  ∃ s' F, clear_slot pos l s = Ok s' ∧ Cleared l R (Z.to_nat pos) s s' F.
Proof.
  revert s. induction l as [|x l IH]; intros s Hp HR Hreg Hlive.
  { exists s, []. split; [done|]. by apply Cleared_nil. }
  pose proof (lookup_lt_Some _ _ _ Hp) as Hlt. cbn [clear_slot]. unfold drop_ref. cbn [set_slots _wheel].
  assert (HR1 : ∀ w, w = <[Z.to_nat pos := l]> (_wheel s) → R = concat (<[Z.to_nat pos := []]> w)).
  { intros w ->. by rewrite list_insert_insert_eq. }
  destruct (decide (x ∈ concat (<[Z.to_nat pos := l]> (_wheel s)))) as [Hx|Hx]; rewrite in_slots, <- HR in Hx by done.
  - cbn [mbind res_bind]. destruct (IH (set_slots <[Z.to_nat pos := l]> s)) as (s' & F & H1 & HC).
    + simpl. by apply list_lookup_insert_eq.
    + by apply HR1.
    + done.
    + intros y Hy. apply Hlive. by right.
    + exists s', F. split; [done|]. by apply Cleared_skip.
  - destruct (Hlive x) as [t Ht]; [left|]. assert ((x ∉ l) ∧ (x ∉ R)) as [Hxl HxR] by tauto.
    destruct (destroy_spec x t (set_slots <[Z.to_nat pos := l]> s) Hreg Ht) as (s1 & Hd & E1 & E2 & E3 & E4 & Hr1).
    rewrite Hd. cbn [mbind res_bind]. simpl in *. destruct (IH s1) as (s' & F & H1 & HC).
    + rewrite E2. by apply list_lookup_insert_eq.
    + by apply HR1.
    + done.
    + intros y Hy. rewrite E3, lookup_delete_ne by congruence. apply Hlive. by right.
    + eexists s', _. split; [done|]. by eapply Cleared_destroy.
Qed.

(** ** Distances: the slot that is cleared at the [k]-th tick from now *)
Definition at_dist (s : TimerWheel) (k : Z) : list tloc := slot s ((_tick s + k) `mod` 60).

Record wheel_ok (s : TimerWheel) : Prop := {
  wo_len : length (_wheel s) = 60%nat;
  wo_tick : 0 ≤ _tick s < 60;
}.

Lemma elem_of_concat (w : list (list tloc)) x : x ∈ concat w ↔ ∃ i l, w !! i = Some l ∧ x ∈ l.
Proof.
  induction w as [|l w IH]; cbn [concat].
  { rewrite elem_of_nil. split; [done|]. by intros (i & l & H & _). }
  rewrite elem_of_app, IH. split.
  - intros [H|(i & l' & H1 & H2)]; [by exists 0%nat, l|by exists (S i), l'].
  - intros ([|i] & l' & H1 & H2); simplify_eq/=; eauto.
Qed.

Lemma slot_lookup s p : wheel_ok s → 0 ≤ p < 60 → _wheel s !! Z.to_nat p = Some (slot s p).
Proof. intros Hw Hp. unfold slot. apply list_lookup_lookup_total_lt. rewrite (wo_len _ Hw). lia. Qed.

Lemma dist_of_slot s i :
  wheel_ok s → 0 ≤ i < 60 → ∃ k, 1 ≤ k ≤ 60 ∧ (_tick s + k) `mod` 60 = i.
Proof.
  intros Hw Hi. pose proof (wo_tick _ Hw). exists ((i - _tick s - 1) `mod` 60 + 1).
  Z.to_euclidean_division_equations. lia.
Qed.

Lemma dist_inj a k k' : 1 ≤ k ≤ 60 → 1 ≤ k' ≤ 60 → (a + k) `mod` 60 = (a + k') `mod` 60 → k = k'.
Proof. intros. Z.to_euclidean_division_equations. lia. Qed.

(** The references outside the slot due next are those at a distance of at least 2. *)
Lemma in_other_slots s x :
  wheel_ok s →
  x ∈ concat (<[Z.to_nat ((_tick s + 1) `mod` 60) := []]> (_wheel s)) ↔ ∃ k, 2 ≤ k ≤ 60 ∧ x ∈ at_dist s k.
Proof.
  intros Hw. set (p := (_tick s + 1) `mod` 60). assert (0 ≤ p < 60) as Hp by (apply Z.mod_pos_bound; lia).
  pose proof (wo_len _ Hw) as Hl. rewrite elem_of_concat. split.
  - intros (i & l & Hi & Hx). destruct (decide (i = Z.to_nat p)) as [->|Hne].
    { rewrite list_lookup_insert_eq in Hi by lia. injection Hi as <-. by apply elem_of_nil in Hx. }
    rewrite list_lookup_insert_ne in Hi by done. pose proof (lookup_lt_Some _ _ _ Hi).
    destruct (dist_of_slot s (Z.of_nat i) Hw) as (k & Hk & E); [lia|]. exists k.
    assert (k ≠ 1) by (intros ->; unfold p in Hne; lia). split; [lia|].
    unfold at_dist. rewrite E. pose proof (slot_lookup s (Z.of_nat i) Hw ltac:(lia)) as Hs. rewrite Nat2Z.id in Hs. congruence.
  - intros (k & Hk & Hx). exists (Z.to_nat ((_tick s + k) `mod` 60)), (at_dist s k). split; [|done].
    pose proof (Z.mod_pos_bound (_tick s + k) 60).
    rewrite list_lookup_insert_ne; [by apply slot_lookup; [|lia]|].
    intros E. apply (f_equal Z.of_nat) in E. rewrite !Z2Nat.id in E by lia. apply dist_inj in E; lia.
Qed.

Lemma at_dist_tick s s' k :
  wheel_ok s → _tick s' = (_tick s + 1) `mod` 60 →
  _wheel s' = <[Z.to_nat ((_tick s + 1) `mod` 60) := []]> (_wheel s) → 1 ≤ k ≤ 60 →
  at_dist s' k = if decide (k = 60) then [] else at_dist s (k + 1).
Proof.
  intros Hw Ht Hs Hk. pose proof (wo_len _ Hw) as Hl. unfold at_dist, slot. rewrite Ht, Hs.
  pose proof (Z.mod_pos_bound (_tick s + 1) 60). pose proof (Z.mod_pos_bound (_tick s + (k + 1)) 60).
  rewrite Zplus_mod_idemp_l. replace (_tick s + 1 + k) with (_tick s + (k + 1)) by lia.
  destruct (decide (k = 60)) as [->|Hne].
  - replace ((_tick s + (60 + 1)) `mod` 60) with ((_tick s + 1) `mod` 60) by (Z.to_euclidean_division_equations; lia).
    rewrite list_lookup_total_insert_eq by lia. done.
  - rewrite list_lookup_total_insert_ne; [done|]. intros E. apply (f_equal Z.of_nat) in E.
    rewrite !Z2Nat.id in E by lia. apply dist_inj in E; lia.
Qed.

Lemma push_slot_spec d pos x s :
  wheel_ok s → 1 ≤ d ≤ 60 → pos = (_tick s + d) `mod` 60 →
  ∃ s', push_slot pos x s = Ok s' ∧ wheel_ok s' ∧ _tick s' = _tick s ∧ _timers s' = _timers s ∧
    tasks s' = tasks s ∧ fired s' = fired s ∧
    ∀ k, 1 ≤ k ≤ 60 → at_dist s' k = if decide (k = d) then at_dist s k ++ [x] else at_dist s k.
Proof.
  intros Hw Hd ->. pose proof (Z.mod_pos_bound (_tick s + d) 60). pose proof (wo_len _ Hw) as Hl.
  unfold push_slot. rewrite decide_True by lia. eexists. split; [reflexivity|]. simpl.
  split; [split; simpl; [by rewrite length_insert|apply Hw]|]. do 4 (split; [done|]).
  intros k Hk. pose proof (Z.mod_pos_bound (_tick s + k) 60). unfold at_dist, slot. simpl.
  destruct (decide (k = d)) as [->|Hne].
  - by rewrite list_lookup_total_insert_eq by lia.
  - rewrite list_lookup_total_insert_ne; [done|]. intros E. apply (f_equal Z.of_nat) in E.
    rewrite !Z2Nat.id in E by lia. apply dist_inj in E; lia.
Qed.

Lemma ticks_of_range t : 1 ≤ ticks_of t ≤ 60.
Proof. unfold ticks_of. pose proof (Z.mod_pos_bound t 60). destruct (Z.eqb_spec (t `mod` 60) 0); lia. Qed.

Lemma ticks_of_slot a t : (a + ticks_of t) `mod` 60 = (a + t) `mod` 60.
Proof.
  unfold ticks_of. destruct (Z.eqb_spec (t `mod` 60) 0).
  - Z.to_euclidean_division_equations. lia.
  - by rewrite Zplus_mod_idemp_r.
Qed.

(** ** The wheel implements the countdowns *)

(** A task's countdown is the distance of its farthest reference. *)
Definition counted (s : TimerWheel) (c : clock) (x : tloc) (t : TimerTask) : Prop :=
  0 ≤ _timeout t < 2 ^ 31 - 60 ∧
  ∃ n, counts c !! _id t = Some (mkCount n (ticks_of (_timeout t)) (_cancel t)) ∧ 1 ≤ n ≤ ticks_of (_timeout t) ∧
    x ∈ at_dist s n ∧ ∀ k, 1 ≤ k ≤ 60 → x ∈ at_dist s k → k ≤ n.

Record WInv (s : TimerWheel) (c : clock) : Prop := {
  wv_ok : wheel_ok s;
  wv_reg : registered s;
  wv_live : ∀ k x, 1 ≤ k ≤ 60 → x ∈ at_dist s k → is_Some (tasks s !! x);
  wv_task : ∀ x t, tasks s !! x = Some t → counted s c x t;
  wv_dom : ∀ id, is_Some (counts c !! id) → is_Some (_timers s !! id);
  wv_fired : fired s ≡ₚ rung c;
}.

Lemma WInv_new : WInv new_wheel new_clock.
Proof.
  assert (Hd : ∀ k, at_dist new_wheel k = []).
  { intros k. unfold at_dist, slot. cbn [_wheel new_wheel]. apply lookup_total_replicate_2.
    pose proof (Z.mod_pos_bound (0 + k) 60). cbn [_tick new_wheel]. unfold _capacity. lia. }
  split; try done.
  - intros id x. simpl. rewrite lookup_empty. split; [done|]. intros (t & H & _). by rewrite lookup_empty in H.
  - intros k x _ Hx. rewrite Hd in Hx. by apply elem_of_nil in Hx.
  - intros id [? H]. simpl in H. by rewrite lookup_empty in H.
Qed.

Lemma WInv_same_id s c x y t u :
  WInv s c → tasks s !! x = Some t → tasks s !! y = Some u → _id t = _id u → x = y.
Proof.
  intros HI Hx Hy E. assert (_timers s !! _id t = Some x) as H1 by (apply (wv_reg _ _ HI); eauto).
  assert (_timers s !! _id t = Some y) as H2 by (apply (wv_reg _ _ HI); eauto). congruence.
Qed.

Lemma timer_add_sim id timeout s c :
  WInv s c → timer_op_ok (TAdd id timeout) c →
  ∃ s', TimerAddInLoop id timeout s = Ok s' ∧ WInv s' (clock_op (TAdd id timeout) c).
Proof.
  intros HI [Hnew Ht]. unfold TimerAddInLoop. set (x := fresh (dom (tasks s))). cbv zeta.
  assert (Hx : tasks s !! x = None) by (apply not_elem_of_dom, is_fresh).
  set (s0 := mkWheel _ _ _ _ _). pose proof (wv_ok _ _ HI) as Hw.
  assert (Hw0 : wheel_ok s0) by (split; apply Hw).
  assert (Hnt : _timers s !! id = None).
  { destruct (_timers s !! id) as [y|] eqn:E; [|done]. apply (wv_reg _ _ HI) in E as (u & Hu & <-).
    destruct (wv_task _ _ HI _ _ Hu) as (_ & n & Hn & _). congruence. }
  destruct (push_slot_spec (ticks_of timeout) (u32 (_tick s0 + timeout) `mod` _capacity) x s0 Hw0 (ticks_of_range _))
    as (s1 & -> & Hw1 & E1 & E2 & E3 & E4 & Hdist).
  { rewrite ticks_of_slot. unfold u32. rewrite (Z.mod_small (_tick s0 + timeout)); [done|]. pose proof (wo_tick _ Hw0). lia. }
  cbn [mbind res_bind]. eexists. split; [reflexivity|].
  assert (Hno : ∀ k, 1 ≤ k ≤ 60 → x ∉ at_dist s k).
  { intros k Hk Hin. destruct (wv_live _ _ HI _ _ Hk Hin) as [? ?]. congruence. }
  assert (Hin : ∀ y k, 1 ≤ k ≤ 60 → y ∈ at_dist s1 k ↔ y ∈ at_dist s k ∨ y = x ∧ k = ticks_of timeout).
  { intros y k Hk. rewrite Hdist by done. change (at_dist s0 k) with (at_dist s k).
    destruct (decide (k = ticks_of timeout)); [rewrite elem_of_app, list_elem_of_singleton|]; tauto. }
  split; cbn [clock_op counts rung _timers tasks fired].
  - split; apply Hw1.
  - intros i y. cbn [_timers tasks]. rewrite E2, E3. cbn [s0 _timers tasks]. rewrite lookup_insert_Some, (wv_reg _ _ HI i y).
    setoid_rewrite lookup_insert_Some. split.
    + intros [[<- <-]|[Hne (u & Hu & Hid)]]; [eexists; split; [left; done|done]|].
      exists u. split; [right; split; [congruence|done]|done].
    + intros (u & [[<- <-]|[Hne Hu]] & <-); [by left|right].
      split; [|by exists u]. intros ->. assert (_timers s !! _id u = Some y) by (apply (wv_reg _ _ HI); eauto). congruence.
  - intros k y Hk Hy. cbn [tasks]. rewrite E3. cbn [s0 tasks]. apply Hin in Hy as [Hy|[-> _]]; [|rewrite lookup_insert_eq; eauto | done].
    rewrite lookup_insert_is_Some'. right. by apply (wv_live _ _ HI k).
  - intros y u. rewrite E3. cbn [s0 tasks]. intros Hu. apply lookup_insert_Some in Hu as [[<- <-]|[Hne Hu]].
    + split; [done|]. exists (ticks_of timeout). cbn [_id _timeout _cancel counts]. rewrite lookup_insert_eq. pose proof (ticks_of_range timeout).
      split; [done|]. split; [lia|]. split; [apply Hin; [done|by right]|].
      intros k Hk Hy. apply Hin in Hy as [Hy|[_ ->]]; [by apply Hno in Hy|lia|done].
    + destruct (wv_task _ _ HI _ _ Hu) as (Hto & n & Hn & Hrange & Hy & Hmax). split; [done|]. exists n.
      pose proof (ticks_of_range (_timeout u)). cbn [counts].
      rewrite lookup_insert_ne by (intros ->; congruence). split; [done|]. split; [done|].
      split; [apply Hin; [lia|by left]|]. intros k Hk Hyk. apply Hin in Hyk as [Hyk|[-> _]]; [by apply Hmax|done|done].
  - intros i Hi. cbn [_timers]. rewrite E2. cbn [s0 _timers]. cbn [clock_op counts] in Hi.
    apply lookup_insert_is_Some' in Hi. apply lookup_insert_is_Some'. destruct Hi as [->|Hi]; [by left|].
    right. by apply (wv_dom _ _ HI).
  - rewrite E4. apply (wv_fired _ _ HI).
Qed.

Lemma timer_refresh_sim id s c :
  WInv s c → ∃ s', TimerRefreshInLoop id s = Ok s' ∧ WInv s' (clock_op (TRefresh id) c).
Proof.
  intros HI. unfold TimerRefreshInLoop. destruct (_timers s !! id) as [x|] eqn:Hx.
  2: { exists s. split; [done|]. cbn [clock_op]. destruct (counts c !! id) as [k|] eqn:E.
       { destruct (wv_dom _ _ HI id) as [? ?]; [by eexists|congruence]. }
       rewrite alter_id'; [|naive_solver]. by destruct c. }
  destruct (proj1 (wv_reg _ _ HI id x) Hx) as (t & Ht & Hid). rewrite Ht. cbv zeta.
  destruct (wv_task _ _ HI _ _ Ht) as (Hto & n & Hn & Hrange & Hxn & Hmax). rewrite Hid in Hn.
  pose proof (wv_ok _ _ HI) as Hw. pose proof (wo_tick _ Hw). pose proof (ticks_of_range (_timeout t)).
  assert (to_int32 (_timeout t) = _timeout t) as -> by (unfold to_int32; rewrite Z.mod_small; lia).
  assert (fits_int (_tick s + _timeout t) = true) as -> by (unfold fits_int; lia).
  destruct (push_slot_spec (ticks_of (_timeout t)) (Z.rem (_tick s + _timeout t) _capacity) x s Hw)
    as (s1 & -> & Hw1 & E1 & E2 & E3 & E4 & Hdist); [done| |].
  { rewrite ticks_of_slot. apply Z.rem_mod_nonneg; unfold _capacity; lia. }
  exists s1. split; [done|].
  assert (Hin : ∀ y k, 1 ≤ k ≤ 60 → y ∈ at_dist s1 k ↔ y ∈ at_dist s k ∨ y = x ∧ k = ticks_of (_timeout t)).
  { intros y k Hk. rewrite Hdist by done.
    destruct (decide (k = ticks_of (_timeout t))); [rewrite elem_of_app, list_elem_of_singleton|]; tauto. }
  split; cbn [clock_op counts rung].
  - done.
  - unfold registered. rewrite E2, E3. apply (wv_reg _ _ HI).
  - intros k y Hk Hy. rewrite E3. apply Hin in Hy as [Hy|[-> _]]; [by apply (wv_live _ _ HI k)|by eexists|done].
  - intros y u. rewrite E3. intros Hu. destruct (wv_task _ _ HI _ _ Hu) as (Hto' & m & Hm & Hr' & Hy & Hmax').
    pose proof (ticks_of_range (_timeout u)). split; [done|]. cbn [counts]. destruct (decide (_id u = id)) as [E|E].
    + assert (y = x) as -> by (eapply WInv_same_id; eauto; congruence). assert (u = t) as -> by congruence.
      exists (ticks_of (_timeout t)). rewrite Hid, lookup_alter_eq, Hn. split; [done|]. split; [lia|].
      split; [apply Hin; [lia|by right]|]. intros k Hk Hxk. apply Hin in Hxk as [Hxk|[_ ->]]; [|lia|done].
      specialize (Hmax k Hk Hxk). lia.
    + exists m. rewrite lookup_alter_ne by congruence. split; [done|]. split; [done|]. split; [apply Hin; [lia|by left]|].
      intros k Hk Hyk. apply Hin in Hyk as [Hyk|[-> _]]; [by apply Hmax'|congruence|done].
  - intros i Hi. rewrite E2. apply (wv_dom _ _ HI). cbn [counts clock_op] in Hi. rewrite lookup_alter_is_Some in Hi. done.
  - rewrite E4. apply (wv_fired _ _ HI).
Qed.

Lemma timer_cancel_sim id s c :
  WInv s c → ∃ s', TimerCancelInLoop id s = Ok s' ∧ WInv s' (clock_op (TCancel id) c).
Proof.
  intros HI. unfold TimerCancelInLoop. destruct (_timers s !! id) as [x|] eqn:Hx.
  2: { exists s. split; [done|]. cbn [clock_op]. destruct (counts c !! id) as [k|] eqn:E.
       { destruct (wv_dom _ _ HI id) as [? ?]; [by eexists|congruence]. }
       rewrite alter_id'; [|naive_solver]. by destruct c. }
  destruct (proj1 (wv_reg _ _ HI id x) Hx) as (t & Ht & Hid). rewrite Ht.
  eexists. split; [reflexivity|]. split; cbn [clock_op counts rung fired].
  - split; apply (wv_ok _ _ HI).
  - intros i y. cbn [_timers tasks]. rewrite (wv_reg _ _ HI i y). setoid_rewrite lookup_insert_Some.
    split; [|naive_solver]. intros (u & Hu & Hi). destruct (decide (x = y)) as [->|]; [|by exists u; auto].
    assert (u = t) as -> by congruence. eexists. split; [by left|done].
  - intros k y Hk Hy. cbn [tasks]. rewrite lookup_insert_is_Some'. right. by apply (wv_live _ _ HI k).
  - intros y u. cbn [tasks]. intros Hu. apply lookup_insert_Some in Hu as [[<- <-]|[Hne Hu]].
    + destruct (wv_task _ _ HI _ _ Ht) as (Hto & n & Hn & Hr & Hy & Hmax). split; [done|]. exists n.
      cbn [counts _id _timeout _cancel]. rewrite Hid in *. rewrite lookup_alter_eq, Hn. done.
    + destruct (wv_task _ _ HI _ _ Hu) as (Hto & n & Hn & Hr & Hy & Hmax). split; [done|]. exists n. cbn [counts].
      rewrite lookup_alter_ne; [done|]. intros E. apply Hne. eapply (WInv_same_id s c x y t u); eauto. congruence.
  - intros i Hi. cbn [_timers]. apply (wv_dom _ _ HI). cbn [counts clock_op] in Hi. by rewrite lookup_alter_is_Some in Hi.
  - apply (wv_fired _ _ HI).
Qed.

(** A task dies at the next tick exactly when its countdown is at 1. *)
Lemma dead_iff_due s c x t n d b :
  WInv s c → tasks s !! x = Some t → counts c !! _id t = Some (mkCount n d b) →
  dead (at_dist s 1) (concat (<[Z.to_nat ((_tick s + 1) `mod` 60) := []]> (_wheel s))) x ↔ n = 1.
Proof.
  intros HI Hx Hc. destruct (wv_task _ _ HI _ _ Hx) as (_ & n' & Hn & Hr & Hxn & Hmax). rewrite Hc in Hn. simplify_eq.
  pose proof (ticks_of_range (_timeout t)). unfold dead. rewrite in_other_slots by apply HI. split.
  - intros [_ Hno]. destruct (decide (n' = 1)); [done|]. exfalso. apply Hno. exists n'. split; [lia|done].
  - intros ->. split; [done|]. intros (k & Hk & Hxk). specialize (Hmax k ltac:(lia) Hxk). lia.
Qed.

Lemma fired_due s c F :
  WInv s c → NoDup F →
  (∀ id, id ∈ F ↔ ∃ x t, tasks s !! x = Some t ∧ _id t = id ∧ _cancel t = false ∧
     dead (at_dist s 1) (concat (<[Z.to_nat ((_tick s + 1) `mod` 60) := []]> (_wheel s))) x) →
  F ≡ₚ (map_to_list (filter (λ p, left_ p.2 = 1 ∧ cancelled p.2 = false) (counts c))).*1.
Proof.
  intros HI Hnd HF. apply NoDup_Permutation; [done|apply NoDup_fst_map_to_list|]. intros id. rewrite HF. split.
  - intros (x & t & Hx & <- & Hc & Hd). destruct (wv_task _ _ HI _ _ Hx) as (_ & n & Hn & _).
    pose proof (proj1 (dead_iff_due s c x t _ _ _ HI Hx Hn) Hd) as ->.
    apply list_elem_of_fmap. eexists (_id t, _). split; [done|]. apply elem_of_map_to_list, map_lookup_filter_Some.
    split; [exact Hn|done].
  - intros Hin. apply list_elem_of_fmap in Hin as ([i k] & -> & Hin). apply elem_of_map_to_list, map_lookup_filter_Some in Hin as [Hk [H1 H2]].
    simpl in *. destruct (wv_dom _ _ HI i) as [x Hx]; [by eexists|]. apply (wv_reg _ _ HI) in Hx as (t & Ht & <-).
    destruct k as [n d b]. simpl in *. exists x, t. split; [done|]. split; [done|].
    pose proof (proj2 (dead_iff_due s c x t n d b HI Ht Hk) H1) as Hdead. split; [|done].
    destruct (wv_task _ _ HI _ _ Ht) as (_ & n' & Hn & _). congruence.
Qed.

(** The wheel after the hand has moved and before the slot is cleared. *)
Definition moved (s : TimerWheel) : TimerWheel :=
  mkWheel ((_tick s + 1) `mod` 60) (_wheel s) (_timers s) (tasks s) (fired s).

Lemma tick_clears s c :
  WInv s c → ∃ s' F, RunTimerTask s = Ok s' ∧
    Cleared (at_dist s 1) (concat (<[Z.to_nat ((_tick s + 1) `mod` 60) := []]> (_wheel s)))
      (Z.to_nat ((_tick s + 1) `mod` 60)) (moved s) s' F.
Proof.
  intros HI. pose proof (wv_ok _ _ HI) as Hw. pose proof (wo_tick _ Hw) as Ht. unfold RunTimerTask. cbv zeta.
  assert (Z.rem (_tick s + 1) _capacity = (_tick s + 1) `mod` 60) as -> by (apply Z.rem_mod_nonneg; unfold _capacity; lia).
  pose proof (Z.mod_pos_bound (_tick s + 1) 60) as Hp. apply (clear_slot_spec _ (at_dist s 1) (moved s)).
  - exact (slot_lookup s ((_tick s + 1) `mod` 60) Hw ltac:(lia)).
  - done.
  - apply (wv_reg _ _ HI).
  - intros x Hx. by apply (wv_live _ _ HI 1).
Qed.

Lemma timer_tick_sim s c :
  WInv s c → ∃ s', RunTimerTask s = Ok s' ∧ WInv s' (clock_op TTick c).
Proof.
  intros HI. pose proof (wv_ok _ _ HI) as Hw. pose proof (wo_tick _ Hw) as Ht. pose proof (Z.mod_pos_bound (_tick s + 1) 60) as Hp.
  destruct (tick_clears s c HI) as (s' & F & Hc & [H1 H2 H3 H4 H5 H6 H7]). exists s'. split; [exact Hc|].
  cbn [moved _wheel _tick fired tasks] in *.
  assert (Hdist : ∀ k, 1 ≤ k ≤ 60 → at_dist s' k = if decide (k = 60) then [] else at_dist s (k + 1)).
  { intros k Hk. by apply at_dist_tick. }
  assert (Hcnt : ∀ x t, tasks s' !! x = Some t → counted s c x t ∧ tasks s !! x = Some t ∧
    ∃ n, counts c !! _id t = Some (mkCount n (ticks_of (_timeout t)) (_cancel t)) ∧ n ≠ 1).
  { intros x t Hx. apply H4 in Hx as [Hx Hnd]. pose proof (wv_task _ _ HI _ _ Hx) as Hct. split; [done|]. split; [done|].
    destruct Hct as (_ & n & Hn & _). exists n. split; [done|]. intros ->. apply Hnd. by eapply dead_iff_due. }
  split; cbn [clock_op counts rung].
  - split; [by rewrite H1, length_insert, (wo_len _ Hw)|]. rewrite H2. lia.
  - done.
  - intros k x Hk Hx. rewrite Hdist in Hx by done. destruct (decide (k = 60)); [by apply elem_of_nil in Hx|].
    destruct (wv_live _ _ HI (k + 1) x ltac:(lia) Hx) as [t Htx]. exists t. apply H4. split; [done|].
    intros [_ HR]. apply HR. apply in_other_slots; [done|]. exists (k + 1). split; [lia|done].
  - intros x t Hx. destruct (Hcnt x t Hx) as ((Hto & n & Hn & Hr & Hxn & Hmax) & _ & m & Hm & Hm1). rewrite Hn in Hm. simplify_eq.
    pose proof (ticks_of_range (_timeout t)). split; [done|]. exists (m - 1). cbn [counts].
    rewrite lookup_omap, Hn. cbn. unfold tick_one. cbn [left_ period cancelled]. rewrite (proj2 (Z.eqb_neq m 1)) by done.
    split; [done|]. split; [lia|]. split.
    + rewrite Hdist by lia. rewrite decide_False by lia. by replace (m - 1 + 1) with m by lia.
    + intros k Hk Hxk. rewrite Hdist in Hxk by done. destruct (decide (k = 60)); [by apply elem_of_nil in Hxk|].
      specialize (Hmax (k + 1) ltac:(lia) Hxk). lia.
  - intros id [k Hk]. cbn [counts clock_op] in Hk. rewrite lookup_omap in Hk.
    destruct (counts c !! id) as [[n d b]|] eqn:E; [|done]. cbn in Hk. unfold tick_one in Hk. cbn [left_] in Hk.
    destruct (Z.eqb_spec n 1); [done|]. destruct (wv_dom _ _ HI id) as [x Hx]; [by eexists|].
    apply (wv_reg _ _ HI) in Hx as (t & Htx & <-). exists x. apply H5. exists t. split; [|done]. apply H4. split; [done|].
    intros Hd. apply (dead_iff_due s c x t n d b HI Htx E) in Hd. done.
  - rewrite H3. apply Permutation_app; [apply (wv_fired _ _ HI)|]. by apply (fired_due s c).
Qed.

Lemma timer_op_sim o s c :
  WInv s c → timer_op_ok o c → ∃ s', do_timer_op o s = Ok s' ∧ WInv s' (clock_op o c).
Proof.
  intros HI Ho. destruct o as [id t|id|id|]; cbn [do_timer_op].
  - by apply timer_add_sim.
  - by apply timer_refresh_sim.
  - by apply timer_cancel_sim.
  - by apply timer_tick_sim.
Qed.

Lemma timer_ops_sim os s c :
  WInv s c → timer_ops_ok os c → ∃ s', do_timer_ops os s = Ok s' ∧ WInv s' (run_clock os c).
Proof.
  revert s c. induction os as [|o os IH]; intros s c HI Hok; [by exists s|]. destruct Hok as [Ho Hok].
  destruct (timer_op_sim o s c HI Ho) as (s1 & H1 & HI1). cbn [do_timer_ops]. rewrite H1. cbn [mbind res_bind].
  by apply IH.
Qed.

(** C3: The timer wheel implements countdowns: for any sequence of additions, refreshes,
    cancellations and ticks in which an addition is of an id that has no timer then and its timeout
    is at least 0 and below 2^31 - 60, no access leaves the wheel and no dead task is used,
    [HasTimer] tells which countdowns are running, and the callbacks that have run are those of the
    countdowns that reached zero uncancelled, each as often as it did; a refresh restarts a
    countdown although the old references stay in the wheel. The wheel has 60 slots: a timeout
    counts modulo 60, and 0 as 60. Both conditions are needed: a larger timeout leaves the wheel
    when it is refreshed ([huge_timeout_leaves]), and a second addition of an id makes the first
    task unreachable. *)
Theorem timer_wheel_refines os :
  timer_ops_ok os new_clock →
  ∃ s, do_timer_ops os new_wheel = Ok s ∧ fired s ≡ₚ rung (run_clock os new_clock) ∧
    ∀ id, HasTimer id s = bool_decide (is_Some (counts (run_clock os new_clock) !! id)).
Proof.
  intros Hok. destruct (timer_ops_sim os _ _ WInv_new Hok) as (s & Hs & HI). exists s. split; [done|].
  split; [apply (wv_fired _ _ HI)|]. intros id. unfold HasTimer. apply bool_decide_ext. split; [|apply (wv_dom _ _ HI)].
  intros [x Hx]. apply (wv_reg _ _ HI) in Hx as (t & Ht & <-). destruct (wv_task _ _ HI _ _ Ht) as (_ & n & Hn & _). eauto.
Qed.

(** ** When a timer fires *)

Fixpoint ticks_in (os : list timer_op) : Z :=
  match os with [] => 0 | TTick :: os => 1 + ticks_in os | _ :: os => ticks_in os end.
Definition mentions (id : Z) (o : timer_op) : bool :=
  match o with TAdd i _ | TRefresh i | TCancel i => i =? id | TTick => false end.

Lemma ticks_in_nonneg os : 0 ≤ ticks_in os.
Proof. induction os as [|o os IH]; [done|]. destruct o; cbn [ticks_in]; lia. Qed.

Lemma run_clock_other id n d os c :
  counts c !! id = Some (mkCount n d false) → forallb (λ o, negb (mentions id o)) os = true →
  ticks_in os < n → counts (run_clock os c) !! id = Some (mkCount (n - ticks_in os) d false).
Proof.
  revert n c. induction os as [|o os IH]; intros n c Hc Hm Ht; [simpl; by rewrite Z.sub_0_r|].
  cbn [forallb] in Hm. apply andb_true_iff in Hm as [Ho Hm]. apply negb_true_iff in Ho.
  cbn [run_clock fold_left]. change (fold_left _ os ?x) with (run_clock os x).
  pose proof (ticks_in_nonneg os). destruct o as [i t|i|i|]; cbn [ticks_in mentions clock_op] in *.
  - apply IH; [|done|done]. cbn [counts]. by rewrite lookup_insert_ne by lia.
  - apply IH; [|done|done]. cbn [counts]. by rewrite lookup_alter_ne by lia.
  - apply IH; [|done|done]. cbn [counts]. by rewrite lookup_alter_ne by lia.
  - replace (n - (1 + ticks_in os)) with (n - 1 - ticks_in os) by lia. apply IH; [|done|lia]. cbn [counts].
    rewrite lookup_omap, Hc. cbn. unfold tick_one. cbn [left_]. by rewrite (proj2 (Z.eqb_neq n 1)) by lia.
Qed.

(** C37: A timer that nothing refreshes or cancels runs its callback at a known tick: added with
    timeout [t] from 0 up to 2^31 - 61 while its id has no timer, and after operations that do not
    name the id with one tick less than [t] (for [t] from 1 to 60; in general [t] modulo the 60
    slots, 0 counting as 60), it is still there, and the next tick runs its callback and removes it.
    The additions before and behind it are also of ids without a timer and of timeouts in this
    range. *)
Theorem timer_fires_on_time pre id t os :
  timer_ops_ok (pre ++ TAdd id t :: os) new_clock →
  forallb (λ o, negb (mentions id o)) os = true → ticks_in os = ticks_of t - 1 →
  ∃ s s', do_timer_ops (pre ++ TAdd id t :: os) new_wheel = Ok s ∧ HasTimer id s = true ∧
    RunTimerTask s = Ok s' ∧ HasTimer id s' = false ∧ ∃ F, fired s' = fired s ++ F ∧ id ∈ F.
Proof.
  intros Hok Hm Ht. destruct (timer_ops_sim _ _ _ WInv_new Hok) as (s & Hs & HI). exists s.
  assert (Hc : counts (run_clock (pre ++ TAdd id t :: os) new_clock) !! id = Some (mkCount 1 (ticks_of t) false)).
  { unfold run_clock. rewrite fold_left_app. cbn [fold_left]. set (c := clock_op _ _).
    pose proof (run_clock_other id (ticks_of t) (ticks_of t) os c) as H. rewrite Ht in H.
    replace (ticks_of t - (ticks_of t - 1)) with 1 in H by lia. apply H; [|done|lia]. cbn. by rewrite lookup_insert_eq. }
  destruct (wv_dom _ _ HI id) as [x Hx]; [by eexists|].
  destruct (proj1 (wv_reg _ _ HI id x) Hx) as (u & Hu & Hid).
  destruct (timer_tick_sim s _ HI) as (s' & Hs' & HI'). exists s'. split; [done|].
  split; [by apply bool_decide_eq_true_2; eexists|]. split; [done|]. split.
  - apply bool_decide_eq_false_2. intros [y Hy]. apply (wv_reg _ _ HI') in Hy as (v & Hv & Hvid).
    destruct (wv_task _ _ HI' _ _ Hv) as (_ & n & Hn & _). rewrite Hvid in Hn. cbn [clock_op counts] in Hn.
    rewrite lookup_omap, Hc in Hn. done.
  - destruct (tick_clears s _ HI) as (s2 & F & Hs2 & HC). assert (s2 = s') as -> by congruence.
    exists F. split; [apply HC|]. apply (cl_in _ _ _ _ _ _ HC). exists x, u.
    destruct (wv_task _ _ HI _ _ Hu) as (_ & n & Hn & _). rewrite Hid, Hc in Hn. injection Hn as _ _ Hcan.
    split; [done|]. split; [done|]. split; [done|]. eapply dead_iff_due; [done|done| |reflexivity]. by rewrite Hid, Hc.
Qed.

(** A second task added under an id that still has one: the first task's
    destruction erases the entry of the second, which then can no longer be
    refreshed or cancelled, although it is still in the wheel. *)
Theorem same_id_forgets_timer :
  ∃ s, do_timer_ops [TAdd 7 1; TAdd 7 5; TTick] new_wheel = Ok s ∧ HasTimer 7 s = false ∧ fired s = [7] ∧
    ∃ s', do_timer_ops [TCancel 7; TTick; TTick; TTick; TTick] s = Ok s' ∧ fired s' = [7; 7].
Proof. eexists. split; [vm_compute; reflexivity|]. split; [done|]. split; [done|]. eexists. by split; [vm_compute; reflexivity|]. Qed.

(** ** Witnesses *)
Lemma timer_wheel_refines_witness :
  ∃ s, do_timer_ops [TAdd 1 2; TTick; TRefresh 1; TTick; TTick] new_wheel = Ok s ∧
    fired s ≡ₚ rung (run_clock [TAdd 1 2; TTick; TRefresh 1; TTick; TTick] new_clock) ∧
    ∀ id, HasTimer id s = bool_decide (is_Some (counts (run_clock [TAdd 1 2; TTick; TRefresh 1; TTick; TTick] new_clock) !! id)).
Proof.
  apply (timer_wheel_refines [TAdd 1 2; TTick; TRefresh 1; TTick; TTick]). split; [|done]. split; [done|lia].
Defined.
(** A timeout from 2^31 on is a negative [int] for the refresh: the slot is before the wheel. *)
Example huge_timeout_leaves : do_timer_ops [TAdd 1 4294967295; TRefresh 1] new_wheel = Err OutOfBounds.
Proof. vm_compute. reflexivity. Qed.

Lemma timer_fires_on_time_witness :
  ∃ s s', do_timer_ops [TTick; TAdd 4 3; TTick; TTick] new_wheel = Ok s ∧ HasTimer 4 s = true ∧
    RunTimerTask s = Ok s' ∧ HasTimer 4 s' = false ∧ ∃ F, fired s' = fired s ++ F ∧ 4 ∈ F.
Proof.
  apply (timer_fires_on_time [TTick] 4 3 [TTick; TTick]); [|done|done].
  split; [done|]. split; [|done]. split; [done|lia].
Defined.
