(* ===== verification/Any.v ===== *)
(** * The type-erased value of src/Reactor_http/source/server.hpp ([Any])

    An [Any] holds a pointer to a holder on the heap, which knows its type and can
    clone itself.  The variables, the heap of holders and the types (what [typeid]
    tells apart) are explicit; [val T] is the type of the values of [T].  The
    variables are shown to behave as variables that hold a value or nothing. *)

From S2P Require Import Prelude.

Section Any.
Context {ty : Type} `{EqDecision ty} (val : ty → Type).

(** A [placeholder<T>] with its [_val]. *)
Definition holder : Type := {T : ty & val T}.
Definition type_ (h : holder) : ty := projT1 h.

Record store := mkStore {
  anys : gmap nat (option nat);      (** the [_content] of each [Any] *)
  heap : gmap nat holder;
  next : nat;
}.
Definition empty_store : store := mkStore ∅ ∅ 0.

(** *** Memory *)
Definition new_holder (h : holder) : M store (option nat) := λ s,
  Ok (Some (next s), mkStore (anys s) (<[next s := h]> (heap s)) (S (next s))).
(** [delete _content] *)
Definition delete_ (c : option nat) : M store () := λ s,
  match c with
  | None => Ok ((), s)
  | Some l =>
      match heap s !! l with
      | None => Err DanglingPtr
      | Some _ => Ok ((), mkStore (anys s) (delete l (heap s)) (next s))
      end
  end.
Definition content (a : nat) : M store (option nat) := λ s,
  match anys s !! a with Some c => Ok (c, s) | None => Err DanglingPtr end.
Definition set_content (a : nat) (c : option nat) : M store () :=
  modify (λ s, mkStore (<[a := c]> (anys s)) (heap s) (next s)).
(** [_content->clone()] on what is held *)
Definition clone (l : nat) : M store (option nat) := λ s,
  match heap s !! l with Some h => new_holder h s | None => Err DanglingPtr end.

(** *** Members *)
Definition any_default (a : nat) : M store () := set_content a None.
Definition any_val (a : nat) (T : ty) (v : val T) : M store () :=
  c ← new_holder (existT T v); set_content a c.
Definition clone_content (c : option nat) : M store (option nat) :=
  match c with Some l => clone l | None => mret None end.
Definition any_copy (a other : nat) : M store () :=
  c ← content other; c ← clone_content c; set_content a c.
Definition any_destroy (a : nat) : M store () :=
  c ← content a; delete_ c;; modify (λ s, mkStore (delete a (anys s)) (heap s) (next s)).
Definition swap (a other : nat) : M store () :=
  c ← content a; d ← content other; set_content a d;; set_content other c.

(** [get<T>()]: the assertion on the type, and the address of the value. *)
Definition check_type (l : nat) (T : ty) : M store nat := λ s,
  match heap s !! l with
  | None => Err DanglingPtr
  | Some h => if decide (T = type_ h) then Ok (l, s) else Err AssertFailed
  end.
Definition get (a : nat) (T : ty) : M store nat :=
  c ← content a;
  match c with None => fail NullDeref | Some l => check_type l T end.

(** The temporary of the assignments: swapped with [*this], then destroyed. *)
Definition swap_in (a : nat) (tmp : option nat) : M store () :=
  c ← content a; set_content a tmp;; delete_ c.
Definition assign_val (a : nat) (T : ty) (v : val T) : M store () :=
  tmp ← new_holder (existT T v); swap_in a tmp.
Definition assign (a other : nat) : M store () :=
  c ← content other; tmp ← clone_content c; swap_in a tmp.

(** Reading and writing through the pointer that [get<T>()] returned. *)
Definition read (l : nat) : M store holder := λ s,
  match heap s !! l with Some h => Ok (h, s) | None => Err DanglingPtr end.
Definition write (l : nat) (h : holder) : M store () := λ s,
  match heap s !! l with
  | Some _ => Ok ((), mkStore (anys s) (<[l := h]> (heap s)) (next s))
  | None => Err DanglingPtr
  end.

(** ** Programs over variables *)
Inductive any_op :=
  | ODefault (a : nat) | OVal (a : nat) (T : ty) (v : val T) | OCopy (a b : nat) | ODestroy (a : nat)
  | OSwap (a b : nat) | OAssignVal (a : nat) (T : ty) (v : val T) | OAssign (a b : nat)
  | OGet (a : nat) (T : ty)                   (** [*a.get<T>()] *)
  | OSet (a : nat) (T : ty) (v : val T).      (** [*a.get<T>() = v] *)

(** A declaration names a variable that does not exist yet. *)
Definition fresh_name (a : nat) : M store () := λ s, if decide (anys s !! a = None) then Ok ((), s) else Err AssertFailed.

Definition do_op (o : any_op) : M store (option holder) :=
  match o with
  | ODefault a => fresh_name a;; any_default a;; mret None
  | OVal a T v => fresh_name a;; any_val a T v;; mret None
  | OCopy a b => fresh_name a;; any_copy a b;; mret None
  | ODestroy a => any_destroy a;; mret None
  | OSwap a b => swap a b;; mret None
  | OAssignVal a T v => assign_val a T v;; mret None
  | OAssign a b => assign a b;; mret None
  | OGet a T => l ← get a T; h ← read l; mret (Some h)
  | OSet a T v => l ← get a T; write l (existT T v);; mret None
  end.

(** The specification: each variable holds a value with its type, or nothing. *)
#[local] Abbreviation values := (gmap nat (option holder)).
Definition typed_var (m : values) (a : nat) (T : ty) : res holder :=
  x ← lookup_var m a;
  match x with
  | None => Err NullDeref
  | Some h => if decide (T = type_ h) then Ok h else Err AssertFailed
  end.
Definition spec_op (o : any_op) (m : values) : res (option holder * values) :=
  match o with
  | ODefault a => fresh_var m a;; Ok (None, <[a := None]> m)
  | OVal a T v => fresh_var m a;; Ok (None, <[a := Some (existT T v)]> m)
  | OCopy a b => fresh_var m a;; x ← lookup_var m b; Ok (None, <[a := x]> m)
  | ODestroy a => lookup_var m a;; Ok (None, delete a m)
  | OSwap a b => x ← lookup_var m a; y ← lookup_var m b; Ok (None, <[b := x]> (<[a := y]> m))
  | OAssignVal a T v => lookup_var m a;; Ok (None, <[a := Some (existT T v)]> m)
  | OAssign a b => y ← lookup_var m b; lookup_var m a;; Ok (None, <[a := y]> m)
  | OGet a T => h ← typed_var m a T; Ok (Some h, m)
  | OSet a T v => typed_var m a T;; Ok (None, <[a := Some (existT T v)]> m)
  end.

(** *** The invariant *)
(** Every holder has exactly one owner: nothing dangles, is shared or is lost. *)
Record any_ok (s : store) : Prop := {
  ao_live : ∀ a l, anys s !! a = Some (Some l) → is_Some (heap s !! l);
  ao_inj : ∀ a b l, anys s !! a = Some (Some l) → anys s !! b = Some (Some l) → a = b;
  ao_owned : ∀ l h, heap s !! l = Some h → ∃ a, anys s !! a = Some (Some l);
  ao_next : ∀ l h, heap s !! l = Some h → l < next s;
}.
(** What the variables of a store hold. *)
Definition holds (s : store) (c : option nat) : option holder := c ≫= λ l, heap s !! l.
Definition denotes (s : store) : values := holds s <$> anys s.

Lemma denotes_lookup s a c : anys s !! a = Some c → denotes s !! a = Some (holds s c).
Proof. intros H. unfold denotes. by rewrite lookup_fmap, H. Qed.
Lemma denotes_none s a : anys s !! a = None → denotes s !! a = None.
Proof. intros H. unfold denotes. by rewrite lookup_fmap, H. Qed.
Lemma next_free s : any_ok s → heap s !! next s = None.
Proof. intros [_ _ _ Hn]. destruct (heap s !! next s) eqn:E; [|done]. apply Hn in E. lia. Qed.

(** A variable is given a new holder. *)
Lemma any_ok_new s a h :
  any_ok s → (anys s !! a = None ∨ anys s !! a = Some None) →
  let s' := mkStore (<[a := Some (next s)]> (anys s)) (<[next s := h]> (heap s)) (S (next s)) in
  any_ok s' ∧ denotes s' = <[a := Some h]> (denotes s).
Proof.
  intros Hok Ha s'. pose proof (next_free _ Hok) as Hn. destruct Hok as [H1 H2 H3 H4].
  assert (Hold : ∀ b l, anys s !! b = Some (Some l) → l ≠ next s).
  { intros b l Hb ->. destruct (H1 _ _ Hb). congruence. }
  split.
  - split; unfold s'; cbn.
    + intros b l [[<- [= <-]]|[_ Hb]]%lookup_insert_Some; [rewrite lookup_insert_eq; by eexists|].
      rewrite lookup_insert_ne by (intros <-; by eapply Hold). by eapply H1.
    + intros b b' l [[<- E1]|[_ Hb]]%lookup_insert_Some [[<- E2]|[_ Hb']]%lookup_insert_Some; simplify_eq; [done| | |by eapply H2].
      * by apply Hold in Hb'.
      * by apply Hold in Hb.
    + intros l x [[<- <-]|[_ Hl]]%lookup_insert_Some; [exists a; apply lookup_insert_eq|].
      destruct (H3 _ _ Hl) as [b Hb]. exists b. rewrite lookup_insert_ne; [done|]. intros <-. destruct Ha; congruence.
    + intros l x [[<- <-]|[_ Hl]]%lookup_insert_Some; [lia|]. apply H4 in Hl. lia.
  - unfold denotes, s'. cbn. rewrite fmap_insert. cbn. rewrite lookup_insert_eq. f_equal.
    apply map_fmap_ext. intros b [l|] Hb; [|done]. cbn. rewrite lookup_insert_ne; [done|]. intros <-. by eapply Hold.
Qed.

(** A variable lets go of its holder. *)
Lemma any_ok_drop s a c s' :
  any_ok s → anys s !! a = Some c →
  delete_ c (mkStore (<[a := None]> (anys s)) (heap s) (next s)) = Ok ((), s') →
  any_ok s' ∧ denotes s' = <[a := None]> (denotes s) ∧ anys s' = <[a := None]> (anys s).
Proof.
  intros [H1 H2 H3 H4] Ha Hd. destruct c as [l|]; cbn in Hd.
  - destruct (H1 _ _ Ha) as [h Hl]. rewrite Hl in Hd. injection Hd as <-. split; [split; cbn|split; [|done]].
    + intros b k [[_ ?]|[Hne Hb]]%lookup_insert_Some; [done|]. rewrite lookup_delete_ne; [by eapply H1|].
      intros <-. apply Hne. by eapply H2.
    + intros b b' k [[_ ?]|[_ Hb]]%lookup_insert_Some [[_ ?]|[_ Hb']]%lookup_insert_Some; try done. by eapply H2.
    + intros k x [Hne Hk]%lookup_delete_Some. destruct (H3 _ _ Hk) as [b Hb]. exists b.
      rewrite lookup_insert_ne; [done|]. intros <-. congruence.
    + intros k x [_ Hk]%lookup_delete_Some. by eapply H4.
    + unfold denotes. cbn. rewrite fmap_insert. cbn. apply map_eq. intros b. destruct (decide (a = b)) as [<-|Hne].
      { by rewrite !lookup_insert_eq. }
      rewrite !lookup_insert_ne, !lookup_fmap by done. destruct (anys s !! b) as [[k|]|] eqn:Eb; [|done..]. cbn.
      rewrite lookup_delete_ne; [done|]. intros <-. apply Hne. by eapply H2.
  - injection Hd as <-. rewrite insert_id by done. split; [by split|]. split; [|done].
    rewrite insert_id; [done|]. by rewrite (denotes_lookup _ _ _ Ha).
Qed.

(** Two variables exchange what they hold. *)
Lemma any_ok_swap s a b c d :
  any_ok s → anys s !! a = Some c → anys s !! b = Some d →
  let s' := mkStore (<[b := c]> (<[a := d]> (anys s))) (heap s) (next s) in
  any_ok s' ∧ denotes s' = <[b := holds s c]> (<[a := holds s d]> (denotes s)).
Proof.
  intros [H1 H2 H3 H4] Ha Hb s'. set (tr x := if decide (x = b) then a else if decide (x = a) then b else x).
  assert (Htr : ∀ x, anys s' !! x = anys s !! tr x).
  { intros x. unfold s', tr. cbn. destruct (decide (x = b)) as [->|]; [by rewrite lookup_insert_eq|].
    rewrite lookup_insert_ne by done. destruct (decide (x = a)) as [->|]; [by rewrite lookup_insert_eq|].
    by rewrite lookup_insert_ne. }
  assert (Hinv : ∀ x, tr (tr x) = x) by (intros x; unfold tr; repeat case_decide; congruence).
  split; [split|].
  - intros x l. rewrite Htr. apply H1.
  - intros x y l. rewrite !Htr. intros Hx Hy. rewrite <- (Hinv x), <- (Hinv y). f_equal. by eapply H2.
  - intros l h Hl. destruct (H3 _ _ Hl) as [x Hx]. exists (tr x). by rewrite Htr, Hinv.
  - exact H4.
  - unfold denotes, s'. cbn. by rewrite !fmap_insert.
Qed.

(** A variable's old holder is deleted after the new one is in place. *)
Lemma swap_in_new s a c h :
  any_ok s → anys s !! a = Some c →
  ∃ s', swap_in a (Some (next s)) (mkStore (anys s) (<[next s := h]> (heap s)) (S (next s))) = Ok ((), s') ∧
    any_ok s' ∧ denotes s' = <[a := Some h]> (denotes s).
Proof.
  intros Hok Ha. pose proof (next_free _ Hok) as Hn.
  destruct (delete_ c (mkStore (<[a := None]> (anys s)) (heap s) (next s))) as [[[] s1]|] eqn:Ed.
  2: { exfalso. destruct c as [l|]; cbn in Ed; [|done]. destruct (ao_live _ Hok _ _ Ha) as [x Hx]. by rewrite Hx in Ed. }
  destruct (any_ok_drop _ _ _ _ Hok Ha Ed) as (Hok1 & Hd1 & Ha1).
  destruct (any_ok_new s1 a h Hok1) as [Hok2 Hd2]; [right; rewrite Ha1; apply lookup_insert_eq|].
  eexists. split; [|split; [exact Hok2|by rewrite Hd2, Hd1, insert_insert_eq]].
  unfold swap_in. erewrite bind_ok by (unfold content; cbn; by rewrite Ha).
  erewrite bind_ok by done. cbn. rewrite Ha1, insert_insert_eq. destruct c as [l|]; cbn in Ed |- *.
  - destruct (ao_live _ Hok _ _ Ha) as [x Hx]. rewrite Hx in Ed. injection Ed as <-. cbn.
    assert (l ≠ next s) by (intros ->; congruence).
    rewrite lookup_insert_ne, Hx by done. by rewrite delete_insert_ne.
  - by injection Ed as <-.
Qed.

(** A variable's value is written in place. *)
Lemma any_ok_write s a l h :
  any_ok s → anys s !! a = Some (Some l) →
  let s' := mkStore (anys s) (<[l := h]> (heap s)) (next s) in
  any_ok s' ∧ denotes s' = <[a := Some h]> (denotes s).
Proof.
  intros [H1 H2 H3 H4] Ha s'. destruct (H1 _ _ Ha) as [x Hx]. split; [split; unfold s'; cbn|].
  - intros b k Hb. apply lookup_insert_is_Some'. right. by eapply H1.
  - exact H2.
  - intros k y [[<- <-]|[_ Hk]]%lookup_insert_Some; [by exists a|by eapply H3].
  - intros k y [[<- <-]|[_ Hk]]%lookup_insert_Some; by eapply H4.
  - unfold denotes, s'. cbn. apply map_eq. intros b. rewrite lookup_fmap.
    destruct (decide (a = b)) as [<-|Hne]; [rewrite Ha, lookup_insert_eq; cbn; by rewrite lookup_insert_eq|].
    rewrite lookup_insert_ne, lookup_fmap by done. destruct (anys s !! b) as [[k|]|] eqn:Eb; [|done..]. cbn.
    rewrite lookup_insert_ne; [done|]. intros <-. apply Hne. by eapply H2.
Qed.

Definition matches (r : res (option holder * store)) (r' : res (option holder * values)) : Prop :=
  match r, r' with
  | Ok (x, s'), Ok (x', m') => x = x' ∧ any_ok s' ∧ denotes s' = m'
  | Err e, Err e' => e = e'
  | _, _ => False
  end.

Lemma content_bind s a {B} (f : option nat → M store B) :
  (content a ≫= f) s = match anys s !! a with Some c => f c s | None => Err DanglingPtr end.
Proof. unfold content, mbind, M_bind. by destruct (anys s !! a). Qed.
Lemma fresh_bind s a {B} (f : () → M store B) :
  (fresh_name a ≫= f) s = if decide (anys s !! a = None) then f () s else Err AssertFailed.
Proof. unfold fresh_name, mbind, M_bind. by case_decide. Qed.
Lemma lookup_denotes s a :
  lookup_var (denotes s) a = match anys s !! a with Some c => Ok (holds s c) | None => Err DanglingPtr end.
Proof. unfold lookup_var, denotes. rewrite lookup_fmap. by destruct (anys s !! a). Qed.
Lemma fresh_denotes s a : fresh_var (denotes s) a = if decide (anys s !! a = None) then Ok () else Err AssertFailed.
Proof.
  unfold fresh_var. destruct (anys s !! a) eqn:E; [rewrite (denotes_lookup _ _ _ E)|rewrite (denotes_none _ _ E)]; by repeat case_decide.
Qed.
(** [get<T>()] finds a holder of the right type exactly when the variable has such a value. *)
Lemma get_spec s a T :
  any_ok s →
  match get a T s with
  | Ok (l, s') => s' = s ∧ anys s !! a = Some (Some l) ∧ ∃ h, heap s !! l = Some h ∧ typed_var (denotes s) a T = Ok h
  | Err e => typed_var (denotes s) a T = Err e
  end.
Proof.
  intros Hok. unfold get, typed_var. rewrite content_bind, lookup_denotes. destruct (anys s !! a) as [[l|]|] eqn:Ea; cbn; [|done..].
  destruct (ao_live _ Hok _ _ Ea) as [h Hh]. unfold check_type. rewrite Hh. case_decide; [|done]. split; [done|]. split; [done|]. by exists h.
Qed.

(** The declaration of an empty variable. *)
Lemma any_ok_none s a :
  any_ok s → anys s !! a = None →
  any_ok (mkStore (<[a := None]> (anys s)) (heap s) (next s)) ∧
  denotes (mkStore (<[a := None]> (anys s)) (heap s) (next s)) = <[a := None]> (denotes s).
Proof.
  intros [H1 H2 H3 H4] Ha. split; [split; cbn|].
  - intros b l [[_ ?]|[_ Hb]]%lookup_insert_Some; [done|by eapply H1].
  - intros b b' l [[_ ?]|[_ Hb]]%lookup_insert_Some [[_ ?]|[_ Hb']]%lookup_insert_Some; try done. by eapply H2.
  - intros l h Hl. destruct (H3 _ _ Hl) as [b Hb]. exists b. rewrite lookup_insert_ne; [done|congruence].
  - exact H4.
  - unfold denotes. cbn. by rewrite fmap_insert.
Qed.
(** The destruction of a variable. *)
Lemma any_ok_forget s a :
  any_ok s → anys s !! a = Some None →
  any_ok (mkStore (delete a (anys s)) (heap s) (next s)) ∧
  denotes (mkStore (delete a (anys s)) (heap s) (next s)) = delete a (denotes s).
Proof.
  intros [H1 H2 H3 H4] Ha. split; [split; cbn|].
  - intros b l [_ Hb]%lookup_delete_Some. by eapply H1.
  - intros b b' l [_ Hb]%lookup_delete_Some [_ Hb']%lookup_delete_Some. by eapply H2.
  - intros l h Hl. destruct (H3 _ _ Hl) as [b Hb]. exists b. rewrite lookup_delete_ne; [done|congruence].
  - exact H4.
  - unfold denotes. cbn. by rewrite fmap_delete.
Qed.

Lemma destroy_refines s a : any_ok s → matches (do_op (ODestroy a) s) (spec_op (ODestroy a) (denotes s)).
Proof.
  intros Hok. cbn [do_op spec_op]. unfold any_destroy. rewrite lookup_denotes.
  unfold mbind at 1, M_bind at 1. rewrite content_bind. destruct (anys s !! a) as [c|] eqn:Ea; [|done]. cbn [mbind res_bind].
  destruct (delete_ c (mkStore (<[a := None]> (anys s)) (heap s) (next s))) as [[[] s1]|] eqn:Ed.
  2: { exfalso. destruct c as [l|]; cbn in Ed; [|done]. destruct (ao_live _ Hok _ _ Ea) as [x Hx]. by rewrite Hx in Ed. }
  destruct (any_ok_drop _ _ _ _ Hok Ea Ed) as (Hok1 & Hd1 & Ha1).
  destruct (any_ok_forget s1 a Hok1) as [Hok2 Hd2]; [rewrite Ha1; apply lookup_insert_eq|].
  assert (Hs : delete_ c s = Ok ((), mkStore (anys s) (heap s1) (next s1))).
  { destruct c as [l|]; cbn in Ed |- *; [destruct (heap s !! l); [|done]|]; injection Ed as <-; [done|by destruct s]. }
  erewrite bind_ok by exact Hs. cbn. rewrite Ha1, delete_insert_eq in Hok2, Hd2.
  split; [done|]. split; [exact Hok2|]. etrans; [exact Hd2|]. by rewrite Hd1, delete_insert_eq.
Qed.

Lemma copy_refines s a b : any_ok s → matches (do_op (OCopy a b) s) (spec_op (OCopy a b) (denotes s)).
Proof.
  intros Hok. cbn [do_op spec_op]. unfold any_copy. rewrite fresh_bind, fresh_denotes.
  case_decide as Ha; [|done]. cbn [mbind res_bind]. rewrite lookup_denotes.
  unfold mbind at 1, M_bind at 1. rewrite content_bind. destruct (anys s !! b) as [[l|]|] eqn:Eb; [| |done].
  - destruct (ao_live _ Hok _ _ Eb) as [h Hh]. cbn [holds mbind option_bind res_bind]. rewrite Hh.
    erewrite bind_ok by (cbn; unfold clone; by rewrite Hh).
    destruct (any_ok_new s a h Hok) as [H1 H2]; [by left|]. exact (conj eq_refl (conj H1 H2)).
  - cbn. destruct (any_ok_none s a Hok Ha) as [H1 H2]. exact (conj eq_refl (conj H1 H2)).
Qed.

Lemma assign_refines s a b : any_ok s → matches (do_op (OAssign a b) s) (spec_op (OAssign a b) (denotes s)).
Proof.
  intros Hok. cbn [do_op spec_op]. unfold assign. rewrite !lookup_denotes.
  unfold mbind at 1, M_bind at 1. rewrite content_bind. destruct (anys s !! b) as [[l|]|] eqn:Eb; [| |done]; cbn [mbind res_bind].
  - destruct (ao_live _ Hok _ _ Eb) as [h Hh]. cbn [holds mbind option_bind]. rewrite Hh.
    erewrite bind_ok by (cbn; unfold clone; by rewrite Hh). destruct (anys s !! a) as [c|] eqn:Ea.
    + destruct (swap_in_new s a c h Hok Ea) as (s' & H1 & H2 & H3). rewrite H1. exact (conj eq_refl (conj H2 H3)).
    + unfold swap_in. rewrite content_bind. cbn. by rewrite Ea.
  - erewrite bind_ok by done. unfold swap_in. rewrite content_bind. destruct (anys s !! a) as [c|] eqn:Ea; [|done].
    erewrite bind_ok by done. cbn [mbind res_bind].
    destruct (delete_ c _) as [[[] s1]|] eqn:Ed.
    + destruct (any_ok_drop _ _ _ _ Hok Ea Ed) as (H1 & H2 & _). exact (conj eq_refl (conj H1 H2)).
    + exfalso. destruct c as [k|]; cbn in Ed; [|done]. destruct (ao_live _ Hok _ _ Ea) as [x Hx]. by rewrite Hx in Ed.
Qed.

Lemma do_op_refines o s : any_ok s → matches (do_op o s) (spec_op o (denotes s)).
Proof.
  intros Hok. destruct o as [a|a T v|a b|a|a b|a T v|a b|a T|a T v];
    [| |by apply copy_refines|by apply destroy_refines| | |by apply assign_refines| |]; cbn [do_op spec_op].
  - rewrite fresh_bind, fresh_denotes. case_decide as Ha; [|done]. destruct (any_ok_none s a Hok Ha) as [H1 H2]. exact (conj eq_refl (conj H1 H2)).
  - rewrite fresh_bind, fresh_denotes. case_decide as Ha; [|done].
    destruct (any_ok_new s a (existT T v) Hok) as [H1 H2]; [by left|]. exact (conj eq_refl (conj H1 H2)).
  - unfold swap. rewrite !lookup_denotes. unfold mbind at 1, M_bind at 1. rewrite content_bind.
    destruct (anys s !! a) as [c|] eqn:Ea; [|done]. rewrite content_bind. cbn [mbind res_bind].
    destruct (anys s !! b) as [d|] eqn:Eb; [|done]. destruct (any_ok_swap s a b c d Hok Ea Eb) as [H1 H2]. exact (conj eq_refl (conj H1 H2)).
  - unfold assign_val. rewrite lookup_denotes. unfold mbind at 1, M_bind at 1.
    erewrite bind_ok by done. destruct (anys s !! a) as [c|] eqn:Ea.
    + destruct (swap_in_new s a c (existT T v) Hok Ea) as (s' & H1 & H2 & H3). rewrite H1. exact (conj eq_refl (conj H2 H3)).
    + unfold swap_in. rewrite content_bind. cbn. by rewrite Ea.
  - pose proof (get_spec s a T Hok) as Hg. destruct (get a T s) as [[l s1]|e] eqn:Eg.
    + destruct Hg as (-> & Ha & h & Hh & Ht). rewrite (bind_ok _ _ _ _ _ Eg), Ht. cbn. unfold read.
      erewrite bind_ok by (by rewrite Hh). exact (conj eq_refl (conj Hok eq_refl)).
    + by rewrite (bind_err _ _ _ _ Eg), Hg.
  - pose proof (get_spec s a T Hok) as Hg. destruct (get a T s) as [[l s1]|e] eqn:Eg.
    + destruct Hg as (-> & Ha & h & Hh & Ht). rewrite (bind_ok _ _ _ _ _ Eg), Ht. cbn.
      erewrite bind_ok by (unfold write; by rewrite Hh). destruct (any_ok_write s a l (existT T v) Hok Ha) as [H1 H2]. exact (conj eq_refl (conj H1 H2)).
    + by rewrite (bind_err _ _ _ _ Eg), Hg.
Qed.

Fixpoint do_ops (os : list any_op) (s : store) : res (list (option holder) * store) :=
  match os with
  | [] => Ok ([], s)
  | o :: os => '(x, s) ← do_op o s; '(xs, s) ← do_ops os s; Ok (x :: xs, s)
  end.
Fixpoint spec_ops (os : list any_op) (m : values) : res (list (option holder) * values) :=
  match os with
  | [] => Ok ([], m)
  | o :: os => '(x, m) ← spec_op o m; '(xs, m) ← spec_ops os m; Ok (x :: xs, m)
  end.

(** An [Any] is a variable that holds a value of some type, or nothing: every program
    that declares, copies, assigns (also to itself), swaps, reads, writes and destroys
    variables reads the same values, and stops with the same error, as over plain
    values; [get<T>()] succeeds exactly on a value of type [T], fails its assertion on
    another type and dereferences null on an empty variable; a copy is independent of
    its original; and at the end every holder on the heap belongs to exactly one
    variable, so that nothing is leaked, shared or freed twice. *)
Theorem any_refines_values os :
  match do_ops os empty_store, spec_ops os ∅ with
  | Ok (xs, s), Ok (xs', m) =>
      xs = xs' ∧ denotes s = m ∧ any_ok s ∧ (anys s = ∅ → heap s = ∅)
  | Err e, Err e' => e = e'
  | _, _ => False
  end.
Proof.
  assert (Hok : any_ok empty_store) by (split; cbn; intros *; by rewrite lookup_empty).
  assert (Hd : denotes empty_store = ∅) by (unfold denotes; cbn; apply fmap_empty).
  rewrite <- Hd. clear Hd. revert Hok. generalize empty_store as s.
  induction os as [|o os IH]; intros s Hok; cbn [do_ops spec_ops].
  - split; [done|]. split; [done|]. split; [done|]. intros Ha. apply map_eq. intros l. rewrite lookup_empty.
    destruct (heap s !! l) as [h|] eqn:E; [|done]. destruct (ao_owned _ Hok _ _ E) as [a Hx]. by rewrite Ha, lookup_empty in Hx.
  - pose proof (do_op_refines o s Hok) as Hm. unfold matches in Hm.
    destruct (do_op o s) as [[x s1]|e], (spec_op o (denotes s)) as [[x' m1]|e'] eqn:Es; try done; cbn [mbind res_bind].
    destruct Hm as (-> & Hok1 & <-). specialize (IH s1 Hok1).
      destruct (do_ops os s1) as [[xs s2]|], (spec_ops os (denotes s1)) as [[xs' m2]|]; try done; cbn [mbind res_bind].
      destruct IH as (-> & ? & ? & ?). by split_and!.
Qed.
End Any.

(** A program: a copy of a number survives a change of the original; a read at the
    wrong type stops. *)
Definition ty_val (b : bool) : Type := if b then nat else bool.
Definition any_prog : list (any_op ty_val) :=
  [OVal ty_val 0 true 5; OCopy ty_val 1 0; OSet ty_val 0 true 6; OGet ty_val 1 true; OAssign ty_val 0 0; OGet ty_val 0 true].
Example any_prog_reads :
  (λ r, r.1) <$> (match do_ops ty_val any_prog (empty_store ty_val) with Ok r => Some r | Err _ => None end) =
  Some [None; None; None; Some (existT true 5); None; Some (existT true 6)].
Proof. reflexivity. Qed.
Example any_prog_stops :
  do_ops ty_val [OVal ty_val 0 true 5; OGet ty_val 0 false] (empty_store ty_val) = Err AssertFailed.
Proof. reflexivity. Qed.
