(* ===== verification/Connection.v ===== *)
(** * Connections of src/Reactor_http/source/server.hpp ([Channel], [Connection])

    One connection with its channel, its two buffers and the timers of its event
    loop; every function below runs in the loop's thread, where [RunInLoop]
    calls at once.  What [recv] and [send] return is an input.  The user's message
    callback is a parameter: from the readable bytes it gives what it does, in order:
    consume some, send, shut the connection down.  Its [Shutdown] runs at once, and calls
    it again when it has left bytes.  The log records what crosses the interfaces. *)

From S2P Require Import Prelude Buffer TimerWheel.
From Stdlib Require Import Ascii.

Open Scope Z_scope.

(** ** What a connection needs from the timers of its loop *)
Class LoopTimers (W : Type) := {
  has_timer : Z → W → bool;
  add_timer : Z → Z → W → res W;
  refresh_timer : Z → W → res W;
  cancel_timer : Z → W → res W;
  timers_ok : W → Prop;
  add_timer_ok : ∀ id sec w, timers_ok w → has_timer id w = false → 0 ≤ sec < 2 ^ 31 - 60 →
    ∃ w', add_timer id sec w = Ok w' ∧ timers_ok w' ∧ ∀ i, has_timer i w' = bool_decide (i = id) || has_timer i w;
  refresh_timer_ok : ∀ id w, timers_ok w →
    ∃ w', refresh_timer id w = Ok w' ∧ timers_ok w' ∧ ∀ i, has_timer i w' = has_timer i w;
  cancel_timer_ok : ∀ id w, timers_ok w →
    ∃ w', cancel_timer id w = Ok w' ∧ timers_ok w' ∧ ∀ i, has_timer i w' = has_timer i w;
}.

(** ** Channels *)
(** [_events &= (~flag)] on a [uint32_t] *)
Definition clear_bit (events flag : Z) : Z := Z.land events (Z.lnot flag `mod` 2 ^ 32).

(** The callbacks [Channel::HandleEvent] invokes, in order. *)
Inductive callback := CbEvent | CbRead | CbWrite | CbError | CbClose.
Definition HandleEvent (revents : Z) : list callback :=
  (if has_bit revents EPOLLIN || has_bit revents EPOLLRDHUP || has_bit revents EPOLLPRI
   then [CbEvent; CbRead] else []) ++
  (if has_bit revents EPOLLOUT then [CbEvent; CbWrite]
   else if has_bit revents EPOLLERR then [CbEvent; CbError]
   else if has_bit revents EPOLLHUP then [CbEvent; CbClose]
   else []).

(** ** Connections *)
Inductive ConnStatu := DISCONNECTED | CONNECTING | CONNECTED | DISCONNECTING.
#[global] Instance ConnStatu_eq_dec : EqDecision ConnStatu.
Proof. solve_decision. Defined.

Inductive logged :=
  | LConnected                    (** [_connected_callback] *)
  | LClosed                       (** [_cloesd_callback] *)
  | LServerClosed                 (** [_server_closed_callbck] *)
  | LAccepted (d : list ascii)    (** data put into the output buffer *)
  | LSent (d : list ascii)        (** bytes the socket took *)
  | LReceived (d : list ascii)    (** bytes the socket gave *)
  | LConsumed (d : list ascii).   (** bytes the message callback took *)

(** The four byte streams in a log. *)
Definition accepted (l : list logged) : list ascii := concat ((λ e, match e with LAccepted d => d | _ => [] end) <$> l).
Definition sent (l : list logged) : list ascii := concat ((λ e, match e with LSent d => d | _ => [] end) <$> l).
Definition received (l : list logged) : list ascii := concat ((λ e, match e with LReceived d => d | _ => [] end) <$> l).
Definition consumed (l : list logged) : list ascii := concat ((λ e, match e with LConsumed d => d | _ => [] end) <$> l).

Lemma accepted_snoc l e : accepted (l ++ [e]) = accepted l ++ accepted [e].
Proof. unfold accepted. by rewrite fmap_app, concat_app. Qed.
Lemma sent_snoc l e : sent (l ++ [e]) = sent l ++ sent [e].
Proof. unfold sent. by rewrite fmap_app, concat_app. Qed.
Lemma received_snoc l e : received (l ++ [e]) = received l ++ received [e].
Proof. unfold received. by rewrite fmap_app, concat_app. Qed.
Lemma consumed_snoc l e : consumed (l ++ [e]) = consumed l ++ consumed [e].
Proof. unfold consumed. by rewrite fmap_app, concat_app. Qed.

Ltac streams := rewrite ?accepted_snoc, ?sent_snoc, ?received_snoc, ?consumed_snoc; cbn; rewrite ?app_nil_r.

(** What a message callback does: [buf->MoveReadOffset], [conn->Send], [conn->Shutdown]. *)
Inductive action := AConsume (n : nat) | ASend (d : list ascii) | AShutdown.
Definition is_send (a : action) : Prop := match a with ASend _ => True | _ => False end.

Section Connection.
Context {W : Type} `{LoopTimers W}.

Record Connection := mkConn {
  _statu : ConnStatu;
  _enable_inactive_release : bool;
  sock_open : bool;      (** [_socket._sockfd != -1] *)
  _events : Z;           (** of [_channel] *)
  watched : bool;        (** [_channel] is in the poller's table *)
  _in_buffer : Buffer;
  _out_buffer : Buffer;
  timers : W;            (** of [_loop] *)
  log : list logged;
}.

Definition set_statu (x : ConnStatu) (c : Connection) : Connection :=
  mkConn x (_enable_inactive_release c) (sock_open c) (_events c) (watched c) (_in_buffer c) (_out_buffer c) (timers c) (log c).
Definition set_inactive (x : bool) (c : Connection) : Connection :=
  mkConn (_statu c) x (sock_open c) (_events c) (watched c) (_in_buffer c) (_out_buffer c) (timers c) (log c).
Definition set_sock (x : bool) (c : Connection) : Connection :=
  mkConn (_statu c) (_enable_inactive_release c) x (_events c) (watched c) (_in_buffer c) (_out_buffer c) (timers c) (log c).
Definition set_channel (e : Z) (w : bool) (c : Connection) : Connection :=
  mkConn (_statu c) (_enable_inactive_release c) (sock_open c) e w (_in_buffer c) (_out_buffer c) (timers c) (log c).
Definition set_in (b : Buffer) (c : Connection) : Connection :=
  mkConn (_statu c) (_enable_inactive_release c) (sock_open c) (_events c) (watched c) b (_out_buffer c) (timers c) (log c).
Definition set_out (b : Buffer) (c : Connection) : Connection :=
  mkConn (_statu c) (_enable_inactive_release c) (sock_open c) (_events c) (watched c) (_in_buffer c) b (timers c) (log c).
Definition set_timers (w : W) (c : Connection) : Connection :=
  mkConn (_statu c) (_enable_inactive_release c) (sock_open c) (_events c) (watched c) (_in_buffer c) (_out_buffer c) w (log c).
Definition note (e : logged) (c : Connection) : Connection :=
  mkConn (_statu c) (_enable_inactive_release c) (sock_open c) (_events c) (watched c) (_in_buffer c) (_out_buffer c) (timers c) (log c ++ [e]).

Definition new_Connection (w : W) : Connection :=
  mkConn CONNECTING false true 0 false new_Buffer new_Buffer w [].

(** [_channel.EnableRead()] and the like; [Update] puts the channel into the poller. *)
Definition WriteAble (c : Connection) : bool := has_bit (_events c) EPOLLOUT.
Definition EnableRead (c : Connection) : Connection := set_channel (Z.lor (_events c) EPOLLIN) true c.
Definition EnableWrite (c : Connection) : Connection := set_channel (Z.lor (_events c) EPOLLOUT) true c.
Definition DisableWrite (c : Connection) : Connection := set_channel (clear_bit (_events c) EPOLLOUT) true c.
(** [_channel.Remove()] *)
Definition ChannelRemove (c : Connection) : Connection := set_channel (_events c) false c.

(** An operation of one of the buffers. *)
Definition on_in {A} (m : M Buffer A) (c : Connection) : res (A * Connection) :=
  match m (_in_buffer c) with Ok (a, b) => Ok (a, set_in b c) | Err e => Err e end.
Definition on_out {A} (m : M Buffer A) (c : Connection) : res (A * Connection) :=
  match m (_out_buffer c) with Ok (a, b) => Ok (a, set_out b c) | Err e => Err e end.
Definition on_timers (f : W → res W) (c : Connection) : res Connection :=
  match f (timers c) with Ok w => Ok (set_timers w c) | Err e => Err e end.

(** [_conn_id], and the user's message callback. *)
Context (conn_id : Z) (on_message : list ascii → list action).

Definition SendInLoop (buf : Buffer) (c : Connection) : res Connection :=
  if decide (_statu c = DISCONNECTED) then Ok c else
  '(_, c) ← on_out (WriteBufferAndPush buf) c;
  let c := note (LAccepted (readable buf)) c in
  if WriteAble c then Ok c else Ok (EnableWrite c).

(** [Send]: the data is copied into a buffer, which [SendInLoop] appends. *)
Definition Send (data : list ascii) (c : Connection) : res Connection :=
  match WriteAndPush data new_Buffer with
  | Ok (_, buf) => SendInLoop buf c
  | Err e => Err e
  end.

Definition CancelInactiveReleaseInLoop (c : Connection) : res Connection :=
  let c := set_inactive false c in
  if has_timer conn_id (timers c) then on_timers (cancel_timer conn_id) c else Ok c.

Definition ReleaseInLoop (c : Connection) : res Connection :=
  let c := set_sock false (ChannelRemove (set_statu DISCONNECTED c)) in
  c ← (if has_timer conn_id (timers c) then CancelInactiveReleaseInLoop c else Ok c);
  Ok (note LServerClosed (note LClosed c)).

(** [ShutdownInLoop], from the way it delivers what is in the input buffer. *)
Definition shutdown_with (deliver : Connection → res Connection) (c : Connection) : res Connection :=
  c ← deliver (set_statu DISCONNECTING c);
  let c := if 0 <? ReadAbleSize (_out_buffer c) then (if WriteAble c then c else EnableWrite c) else c in
  if ReadAbleSize (_out_buffer c) =? 0 then ReleaseInLoop c else Ok c.

(** The body of the callback, with the [Shutdown] it may call. *)
Fixpoint do_actions (shutdown : Connection → res Connection) (acts : list action) (c : Connection) : res Connection :=
  match acts with
  | [] => Ok c
  | AConsume n :: acts =>
      let q := readable (_in_buffer c) in
      '(_, c) ← on_in (MoveReadOffset (Z.of_nat n)) c;
      do_actions shutdown acts (note (LConsumed (take n q)) c)
  | ASend d :: acts => c ← Send d c; do_actions shutdown acts c
  | AShutdown :: acts => c ← shutdown c; do_actions shutdown acts c
  end.
(** [_message_callback(shared_from_this(), &_in_buffer)], nested at most [fuel] deep: the
    [ShutdownInLoop] that it calls delivers the bytes it has left to it again. *)
Fixpoint message_callback_at (fuel : nat) (c : Connection) : res Connection :=
  match fuel with
  | O => Err OutOfFuel
  | S fuel =>
      do_actions (shutdown_with (λ c, if 0 <? ReadAbleSize (_in_buffer c) then message_callback_at fuel c else Ok c))
        (on_message (readable (_in_buffer c))) c
  end.
(** A call that is nested deeper than there are bytes finds the bytes of an outer call again. *)
Definition message_callback (c : Connection) : res Connection :=
  message_callback_at (S (length (readable (_in_buffer c)))) c.
(** [if (_in_buffer.ReadAbleSize() > 0) _message_callback(...)] *)
Definition deliver (c : Connection) : res Connection :=
  if 0 <? ReadAbleSize (_in_buffer c) then message_callback c else Ok c.
Definition ShutdownInLoop (c : Connection) : res Connection := shutdown_with deliver c.

Definition EsTablishedInLoop (c : Connection) : res Connection :=
  assert_res (bool_decide (_statu c = CONNECTING));;
  Ok (note LConnected (EnableRead (set_statu CONNECTED c))).

(** [NonBlockRecv]: bytes, none for now, or an error; a closed socket is an error. *)
Inductive recv_result := RecvData (d : list ascii) | RecvError.
Definition recv_ret (r : recv_result) (c : Connection) : option (list ascii) :=
  if sock_open c then match r with RecvData d => Some d | RecvError => None end else None.

Definition HandleRead (r : recv_result) (c : Connection) : res Connection :=
  match recv_ret r c with
  | None => ShutdownInLoop c
  | Some buf =>
      '(_, c) ← on_in (WriteAndPush buf) c;
      deliver (note (LReceived buf) c)
  end.

(** [NonBlockSend]: how many bytes the socket took, or an error. *)
Inductive send_result := SendCount (n : nat) | SendError.
Definition send_ret (r : send_result) (c : Connection) : option nat :=
  if sock_open c then
    match r with SendCount n => Some (Nat.min n (length (readable (_out_buffer c)))) | SendError => None end
  else None.

Definition HandleWrite (r : send_result) (c : Connection) : res Connection :=
  match send_ret r c with
  | None => c ← deliver c; ReleaseInLoop c
  | Some ret =>
      let data := take ret (readable (_out_buffer c)) in
      '(_, c) ← on_out (MoveReadOffset (Z.of_nat ret)) c;
      let c := note (LSent data) c in
      if ReadAbleSize (_out_buffer c) =? 0 then
        let c := DisableWrite c in
        if decide (_statu c = DISCONNECTING) then ReleaseInLoop c else Ok c
      else Ok c
  end.

Definition HandleClose (c : Connection) : res Connection := c ← deliver c; ReleaseInLoop c.
Definition HandleError (c : Connection) : res Connection := HandleClose c.

(** [Connection::HandleEvent], the any-event callback. *)
Definition AnyEvent (c : Connection) : res Connection :=
  if _enable_inactive_release c then on_timers (refresh_timer conn_id) c else Ok c.

Definition EnableInactiveReleaseInLoop (sec : Z) (c : Connection) : res Connection :=
  let c := set_inactive true c in
  if has_timer conn_id (timers c) then on_timers (refresh_timer conn_id) c
  else on_timers (add_timer conn_id sec) c.

(** ** What can happen to a connection *)
Inductive input :=
  | IEstablished | ISend (d : list ascii) | IShutdown
  | IRead (r : recv_result) | IWrite (r : send_result) | IClose | IError | IEvent
  | IEnableInactive (sec : Z) | ICancelInactive | ITimeout.

Definition do_input (i : input) (c : Connection) : res Connection :=
  match i with
  | IEstablished => EsTablishedInLoop c
  | ISend d => Send d c
  | IShutdown => ShutdownInLoop c
  | IRead r => HandleRead r c
  | IWrite r => HandleWrite r c
  | IClose => HandleClose c
  | IError => HandleError c
  | IEvent => AnyEvent c
  | IEnableInactive sec => EnableInactiveReleaseInLoop sec c
  | ICancelInactive => CancelInactiveReleaseInLoop c
  | ITimeout => ReleaseInLoop c
  end.

(** One round of the loop for this connection: the callbacks of [HandleEvent]. *)
Definition input_of (r : recv_result) (s : send_result) (cb : callback) : input :=
  match cb with CbEvent => IEvent | CbRead => IRead r | CbWrite => IWrite s | CbError => IError | CbClose => IClose end.
Fixpoint do_inputs (ins : list input) (c : Connection) : res Connection :=
  match ins with [] => Ok c | i :: ins => c ← do_input i c; do_inputs ins c end.
Definition handle_event (revents : Z) (r : recv_result) (s : send_result) (c : Connection) : res Connection :=
  do_inputs (input_of r s <$> HandleEvent revents) c.

(** ** The invariant *)
(** The streams are kept whole, and while the socket is open pending output is
    waited for. *)
Record conn_inv (c : Connection) (qi qo : list ascii) : Prop := {
  ci_in : Holds (_in_buffer c) qi;
  ci_out : Holds (_out_buffer c) qo;
  ci_stream_out : sent (log c) ++ qo = accepted (log c);
  ci_stream_in : consumed (log c) ++ qi = received (log c);
  ci_pending : sock_open c = true → qo ≠ [] → WriteAble c = true;
  ci_watched : sock_open c = true → WriteAble c = true → watched c = true;
  ci_open : sock_open c = true → _statu c ≠ DISCONNECTED;
  ci_timers : timers_ok (timers c);
}.

(** [fits b n]: [n] more bytes keep the buffer below the size limit of a vector. *)
Definition fits (b : Buffer) (n : nat) : Prop := _writer_idx b + Z.of_nat n ≤ max_size.

Lemma has_bit_lor e : has_bit (Z.lor e EPOLLOUT) EPOLLOUT = true.
Proof.
  unfold has_bit. rewrite Z.land_lor_distr_l. change (Z.land EPOLLOUT EPOLLOUT) with 4.
  destruct (Z.eqb_spec (Z.lor (Z.land e EPOLLOUT) 4) 0) as [E|]; [|done].
  apply Z.lor_eq_0_iff in E as [_ ?]. done.
Qed.

Lemma conn_inv_new w : timers_ok w → conn_inv (new_Connection w) [] [].
Proof. intros. split; try done; apply Holds_new. Qed.

Lemma Send_spec d c qi qo :
  conn_inv c qi qo → vsize d ≤ max_size → fits (_out_buffer c) (length d) →
  ∃ c', Send d c = Ok c' ∧ _statu c' = _statu c ∧ sock_open c' = sock_open c ∧
    _writer_idx (_out_buffer c') ≤ _writer_idx (_out_buffer c) + vsize d ∧
    conn_inv c' qi (if decide (_statu c = DISCONNECTED) then qo else qo ++ d).
Proof.
  intros HI Hd Hf. unfold Send. destruct (WriteAndPush_spec new_Buffer [] d Holds_new) as (buf & -> & _ & Hb & _); [done|].
  unfold SendInLoop. case_decide as Hst.
  { exists c. do 3 (split; [done|]). split; [unfold vsize; lia|done]. }
  destruct (WriteAndPush_spec (_out_buffer c) qo d (ci_out _ _ _ HI) Hf) as (b' & _ & Hw & Hb' & Hle & _).
  unfold on_out. rewrite (WriteBufferAndPush_eq buf (_out_buffer c) d Hb), Hw. cbn [mbind res_bind].
  rewrite (Holds_readable _ _ Hb). destruct HI as [H1 H2 H3 H4 H5 H5' H6 H7]. cbn [app].
  assert (Hinv : ∀ e w', (sock_open c = true → has_bit e EPOLLOUT = true ∧ w' = true) →
    conn_inv (set_channel e w' (note (LAccepted d) (set_out b' c))) qi (qo ++ d)).
  { intros e w' Hp. split; simpl; try done; streams; [|done| |].
    - by rewrite app_assoc, H3.
    - intros Ho _. by apply Hp.
    - intros Ho _. by apply Hp. }
  unfold WriteAble at 1. cbn [note set_out _events]. destruct (has_bit (_events c) EPOLLOUT) eqn:Ew.
  - eexists. split; [reflexivity|]. do 3 (split; [done|]). apply (Hinv (_events c) (watched c)). intros Ho.
    split; [done|]. by apply H5'.
  - eexists. split; [reflexivity|]. do 3 (split; [done|]). apply (Hinv (Z.lor (_events c) EPOLLOUT) true).
    intros _. split; [apply has_bit_lor|done].
Qed.

(** The bytes that a delivery of [q] adds to the output buffer at most. *)
Fixpoint reply_acts (again : list ascii → nat) (q : list ascii) (acts : list action) : nat :=
  match acts with
  | [] => 0
  | AConsume n :: acts => reply_acts again (drop n q) acts
  | ASend d :: acts => (length d + reply_acts again q acts)%nat
  | AShutdown :: acts => (again q + reply_acts again q acts)%nat
  end.
Fixpoint reply_at (fuel : nat) (q : list ascii) : nat :=
  match fuel with
  | O => 0
  | S fuel => reply_acts (λ q, match q with [] => 0%nat | _ => reply_at fuel q end) q (on_message q)
  end.
Definition reply_bytes (q : list ascii) : nat := reply_at (S (length q)) q.

(** The contract of a callback: it consumes no more than it is given, has consumed something
    before it shuts the connection down, and after that only sends. *)
Fixpoint acts_ok (n : nat) (moved : bool) (acts : list action) : Prop :=
  match acts with
  | [] => True
  | AConsume k :: acts => (k ≤ n)%nat ∧ acts_ok (n - k) (moved || (0 <? k)%nat) acts
  | ASend _ :: acts => acts_ok n moved acts
  | AShutdown :: acts => moved = true ∧ Forall is_send acts
  end.
Definition callback_ok : Prop := ∀ q, q ≠ [] → acts_ok (length q) false (on_message q).

(** [holds c k]: room for [k] more bytes in the output buffer; [room]: for a delivery. *)
Definition holds (c : Connection) (k : nat) : Prop := fits (_out_buffer c) k ∧ Z.of_nat k ≤ max_size.
Definition room (c : Connection) (q : list ascii) : Prop := holds c (reply_bytes q).

Lemma ReleaseInLoop_frame c c' :
  ReleaseInLoop c = Ok c' → _in_buffer c' = _in_buffer c ∧ _out_buffer c' = _out_buffer c.
Proof.
  unfold ReleaseInLoop, CancelInactiveReleaseInLoop, on_timers. cbn.
  destruct (has_timer conn_id (timers c)); [|by intros [= <-]].
  by destruct (cancel_timer conn_id (timers c)); [intros [= <-]|].
Qed.

Lemma ReleaseInLoop_spec c qi qo :
  conn_inv c qi qo →
  ∃ c', ReleaseInLoop c = Ok c' ∧ _statu c' = DISCONNECTED ∧ sock_open c' = false ∧ watched c' = false ∧
    log c' = log c ++ [LClosed; LServerClosed] ∧ conn_inv c' qi qo.
Proof.
  intros [H1 H2 H3 H4 H5 H5' H6 H7]. unfold ReleaseInLoop. cbv zeta.
  assert (Hfin : ∀ w b, timers_ok w → ∃ c', Ok (note LServerClosed (note LClosed
      (set_timers w (set_inactive b (set_sock false (ChannelRemove (set_statu DISCONNECTED c))))))) = Ok c' ∧
    _statu c' = DISCONNECTED ∧ sock_open c' = false ∧ watched c' = false ∧
    log c' = log c ++ [LClosed; LServerClosed] ∧ conn_inv c' qi qo).
  { intros w b Hw. eexists. split; [reflexivity|]. do 3 (split; [done|]). split; [simpl; by rewrite <- app_assoc|].
    split; simpl; try done; by streams. }
  simpl. destruct (has_timer conn_id (timers c)) eqn:E.
  - unfold CancelInactiveReleaseInLoop. simpl. rewrite E. unfold on_timers. simpl.
    destruct (cancel_timer_ok conn_id _ H7) as (w' & -> & Hw & _). cbn [mbind res_bind]. by apply (Hfin w' false).
  - cbn [mbind res_bind]. apply (Hfin (timers c) (_enable_inactive_release c) H7).
Qed.

(** ** Each input keeps the invariant *)
Definition input_room (i : input) (c : Connection) (qi : list ascii) : Prop :=
  match i with
  | ISend d => vsize d ≤ max_size ∧ fits (_out_buffer c) (length d)
  | IRead (RecvData d) => fits (_in_buffer c) (length d) ∧ room c (qi ++ d) ∧ room c qi
  | IShutdown | IRead RecvError | IWrite _ | IClose | IError => room c qi
  | IEnableInactive sec => 0 ≤ sec < 2 ^ 31 - 60
  | _ => True
  end.
(** [EsTablished] asserts that the connection is new. *)
Definition input_allowed (i : input) (c : Connection) : Prop :=
  match i with IEstablished => _statu c = CONNECTING | _ => True end.

Lemma conn_inv_statu x c qi qo :
  conn_inv c qi qo → (sock_open c = true → x ≠ DISCONNECTED) → conn_inv (set_statu x c) qi qo.
Proof. intros [H1 H2 H3 H4 H5 H5' H6 H7] Hx. by split. Qed.

(** A delivery leaves the socket and, but for a shutdown, the state alone, or else it
    has released the connection with nothing left to send. *)
Definition calm (c c' : Connection) (qo' : list ascii) : Prop :=
  (sock_open c' = sock_open c ∧ (_statu c' = _statu c ∨ _statu c' = DISCONNECTING)) ∨
  (sock_open c' = false ∧ _statu c' = DISCONNECTED ∧ qo' = []).
Definition grown (c c' : Connection) (k : nat) : Prop := _writer_idx (_out_buffer c') ≤ _writer_idx (_out_buffer c) + Z.of_nat k.
(** [f] delivers inputs of at most [m] bytes, and adds [k] bytes of output. *)
Definition delivers (f : Connection → res Connection) (k : list ascii → nat) (m : nat) : Prop :=
  ∀ c qi qo, (length qi ≤ m)%nat → conn_inv c qi qo → holds c (k qi) →
  ∃ c' qi' qo', f c = Ok c' ∧ grown c c' (k qi) ∧ calm c c' qo' ∧ conn_inv c' qi' qo'.
Definition shut (c c' : Connection) (qo' : list ascii) : Prop :=
  _statu c' = DISCONNECTED ∧ qo' = [] ∧ sock_open c' = false ∨ _statu c' = DISCONNECTING ∧ qo' ≠ [] ∧ sock_open c' = sock_open c.

Lemma shutdown_with_spec f k m c qi qo :
  delivers f k m → (length qi ≤ m)%nat → conn_inv c qi qo → holds c (k qi) →
  ∃ c' qi' qo', shutdown_with f c = Ok c' ∧ grown c c' (k qi) ∧ conn_inv c' qi' qo' ∧ shut c c' qo'.
Proof.
  intros Hf Hm HI Hr. unfold shutdown_with.
  destruct (Hf (set_statu DISCONNECTING c) qi qo Hm) as (c1 & q1 & q2 & -> & Hg & Hc & HI1);
    [by apply conn_inv_statu|done|]. cbn [mbind res_bind]. rewrite (Holds_ReadAble _ _ (ci_out _ _ _ HI1)).
  unfold vsize. destruct q2 as [|x q2].
  - cbn [length]. change (0 <? Z.of_nat 0) with false. cbv zeta iota.
    rewrite (Holds_ReadAble _ _ (ci_out _ _ _ HI1)). change (vsize [] =? 0) with true. cbv iota.
    destruct (ReleaseInLoop_spec c1 q1 [] HI1) as (c' & Er & ? & ? & _ & _ & ?). exists c', q1, []. rewrite Er.
    split_and!; [done| |done|by left]. unfold grown in *. by rewrite (proj2 (ReleaseInLoop_frame _ _ Er)).
  - cbn [length]. change (0 <? Z.of_nat (S (length q2))) with true. cbv zeta iota.
    destruct Hc as [[Ho1 Hs1]|(_ & _ & ?)]; [|done]. cbn in Ho1, Hs1.
    assert (∃ c2, (if WriteAble c1 then c1 else EnableWrite c1) = c2 ∧ conn_inv c2 q1 (x :: q2) ∧
      _statu c2 = DISCONNECTING ∧ sock_open c2 = sock_open c ∧ grown c c2 (k qi)) as (c2 & -> & HI2 & Hs2 & Ho2 & Hg2).
    { destruct (WriteAble c1); [exists c1; by destruct Hs1|]. eexists. split; [reflexivity|]. split; [|by destruct Hs1].
      destruct HI1 as [H1 H2 H3 H4 H5 H5' H6 H7]. split; try done. intros _ _. apply has_bit_lor. }
    rewrite (Holds_ReadAble _ _ (ci_out _ _ _ HI2)). change (vsize (x :: q2) =? 0) with false. cbv iota.
    exists c2, q1, (x :: q2). split_and!; [done..|]. by right.
Qed.

Lemma sends_spec sh acts c qi qo again q :
  Forall is_send acts → conn_inv c qi qo → holds c (reply_acts again q acts) →
  ∃ c' qo', do_actions sh acts c = Ok c' ∧ grown c c' (reply_acts again q acts) ∧ _statu c' = _statu c ∧ sock_open c' = sock_open c ∧
    (_statu c = DISCONNECTED → qo' = qo) ∧ conn_inv c' qi qo'.
Proof.
  intros Ha. revert c qo. induction Ha as [|[] acts Hd _ IH]; try done; intros c qo HI Hr.
  { exists c, qo. split_and!; try done. unfold grown. simpl. lia. }
  cbn [do_actions reply_acts] in *. unfold holds, fits, grown, vsize in *.
  destruct (Send_spec d c qi qo HI) as (c1 & -> & Hs & Ho & Hw & HI1); [unfold vsize; lia|unfold fits; lia|].
  cbn [mbind res_bind]. unfold vsize in Hw. destruct (IH c1 _ HI1) as (c2 & qo2 & -> & Hg & Hs2 & Ho2 & Hq & HI2); [lia|].
  exists c2, qo2. split_and!; [done|lia|congruence|congruence| |done]. intros Hd2. rewrite Hq by congruence. by rewrite decide_True.
Qed.

Lemma actions_spec f k m : delivers f k m → ∀ acts moved c qi qo,
  acts_ok (length qi) moved acts → (length qi ≤ if moved then m else S m)%nat → conn_inv c qi qo → holds c (reply_acts k qi acts) →
  ∃ c' qi' qo', do_actions (shutdown_with f) acts c = Ok c' ∧ grown c c' (reply_acts k qi acts) ∧ calm c c' qo' ∧ conn_inv c' qi' qo'.
Proof.
  intros Hf. induction acts as [|[n|d|] acts IH]; intros moved c qi qo Hok Hm HI Hr; cbn [do_actions reply_acts acts_ok] in *.
  - exists c, qi, qo. split_and!; [done|unfold grown; lia| |done]. left. by split; [|left].
  - destruct Hok as [Hn Hok]. cbv zeta. rewrite (Holds_readable _ _ (ci_in _ _ _ HI)).
    destruct (MoveReadOffset_spec _ _ n (ci_in _ _ _ HI) Hn) as (b' & Hb & HH & _). unfold on_in. rewrite Hb. cbn [mbind res_bind].
    eapply (IH (moved || (0 <? n)%nat) (note (LConsumed (take n qi)) (set_in b' c)) (drop n qi) qo).
    + by rewrite length_drop.
    + rewrite length_drop. destruct moved; cbn [orb]; [lia|]. destruct (Nat.ltb_spec 0 n); lia.
    + destruct HI as [H1 H2 H3 H4 H5 H5' H6 H7]. split; simpl; try done; streams; [done|]. by rewrite <- app_assoc, take_drop.
    + done.
  - unfold holds, fits, grown, vsize in *. destruct (Send_spec d c qi qo HI) as (c1 & -> & Hs & Ho & Hw & HI1); [unfold vsize; lia|unfold fits; lia|].
    cbn [mbind res_bind]. unfold vsize in Hw. destruct (IH moved c1 _ _ Hok Hm HI1) as (c2 & q2 & qo2 & -> & Hg & Hc & HI2); [lia|].
    exists c2, q2, qo2. split_and!; [done|lia| |done]. unfold calm in *. by rewrite <- Hs, <- Ho.
  - destruct Hok as [-> Hsend]. unfold holds, fits, grown in *.
    destruct (shutdown_with_spec f k m c qi qo Hf Hm HI) as (c1 & q1 & qo1 & -> & Hg & HI1 & Hs); [unfold holds, fits; lia|]. cbn [mbind res_bind].
    unfold grown in Hg. destruct (sends_spec (shutdown_with f) acts c1 q1 qo1 k qi Hsend HI1) as (c2 & qo2 & -> & Hg2 & Hs2 & Ho2 & Hq & HI2); [unfold holds, fits; lia|].
    unfold grown in Hg2. exists c2, q1, qo2. split_and!; [done|lia| |done]. unfold calm. rewrite Hs2, Ho2.
    destruct Hs as [(Hst & -> & Hop)|(Hst & _ & Hop)]; [right; split_and!; [done..|by apply Hq]|left; split; [done|by right]].
Qed.

Lemma message_callback_spec fuel : callback_ok →
  delivers (λ c, if 0 <? ReadAbleSize (_in_buffer c) then message_callback_at fuel c else Ok c)
    (λ q, match q with [] => 0%nat | _ => reply_at fuel q end) fuel.
Proof.
  intros Hcb. induction fuel as [|fuel IH]; intros c qi qo Hm HI Hr; rewrite (Holds_ReadAble _ _ (ci_in _ _ _ HI)).
  all: destruct qi as [|x qi]; [exists c, [], qo; split_and!; [done|unfold grown; lia|left; by split; [|left]|done]|].
  { simpl in Hm. lia. }
  change (0 <? vsize (x :: qi)) with true. cbv iota. cbn [message_callback_at reply_at] in *. rewrite (Holds_readable _ _ (ci_in _ _ _ HI)).
  eapply (actions_spec _ _ fuel IH _ false); [by apply Hcb|exact Hm|exact HI|exact Hr].
Qed.

Lemma deliver_spec c qi qo :
  callback_ok → conn_inv c qi qo → room c qi →
  ∃ c' qi' qo', deliver c = Ok c' ∧ grown c c' (reply_bytes qi) ∧ calm c c' qo' ∧ conn_inv c' qi' qo'.
Proof.
  intros Hcb HI Hr. unfold deliver, message_callback. rewrite (Holds_readable _ _ (ci_in _ _ _ HI)).
  destruct (message_callback_spec (S (length qi)) Hcb c qi qo) as (c' & qi' & qo' & -> & Hg & Hc & HI'); [lia|done| |].
  - destruct qi; [|done]. unfold room, holds, fits in *. lia.
  - exists c', qi', qo'. split_and!; [done| |done..]. destruct qi; [unfold grown in *; lia|done].
Qed.

Lemma ShutdownInLoop_spec c qi qo :
  callback_ok → conn_inv c qi qo → room c qi →
  ∃ c' qi' qo', ShutdownInLoop c = Ok c' ∧ conn_inv c' qi' qo' ∧ shut c c' qo'.
Proof.
  intros Hcb HI Hr. destruct (shutdown_with_spec deliver reply_bytes (length qi) c qi qo) as (c' & q1 & q2 & ? & _ & ? & ?); [|done..|by exists c', q1, q2].
  intros c1 q1 q2 _. by apply deliver_spec.
Qed.

Lemma HandleWrite_sent n c qi qo :
  conn_inv c qi qo → sock_open c = true →
  ∃ c', HandleWrite (SendCount n) c = Ok c' ∧ conn_inv c' qi (drop n qo) ∧
    ((n < length qo)%nat → _statu c' = _statu c ∧ sock_open c' = true) ∧
    ((length qo ≤ n)%nat → _statu c' = if decide (_statu c = DISCONNECTING) then DISCONNECTED else _statu c).
Proof.
  intros HI Ho. unfold HandleWrite, send_ret. rewrite Ho, (Holds_readable _ _ (ci_out _ _ _ HI)).
  destruct (MoveReadOffset_spec _ _ (Nat.min n (length qo)) (ci_out _ _ _ HI)) as (b' & Hb & HH & _); [lia|].
  unfold on_out. rewrite Hb. cbn [mbind res_bind]. cbv zeta.
  assert (Hd : drop (Nat.min n (length qo)) qo = drop n qo).
  { destruct (decide (n ≤ length qo)%nat); [by rewrite Nat.min_l by lia|]. by rewrite Nat.min_r, !drop_ge by lia. }
  rewrite Hd in HH. simpl. rewrite (Holds_ReadAble _ _ HH). pose proof HI as [H1 H2 H3 H4 H5 H5' H6 H7].
  assert (Hinv : ∀ e w', (drop n qo ≠ [] → has_bit e EPOLLOUT = true) → (has_bit e EPOLLOUT = true → w' = true) →
    conn_inv (set_channel e w' (note (LSent (take (Nat.min n (length qo)) qo)) (set_out b' c))) qi (drop n qo)).
  { intros e w' Hp Hq. split; simpl; try done; streams; [|done].
    rewrite <- app_assoc, <- Hd, take_drop. done. }
  unfold vsize. rewrite length_drop. destruct (Z.eqb_spec (Z.of_nat (length qo - n)) 0) as [E|E].
  - pose proof (Hinv (clear_bit (_events c) EPOLLOUT) true) as HI2.
    rewrite drop_ge in * by lia. specialize (HI2 ltac:(done) ltac:(done)). destruct (decide (_statu c = DISCONNECTING)).
    + destruct (ReleaseInLoop_spec _ _ _ HI2) as (c' & H8 & H9 & _ & _ & _ & HI3).
      exists c'. split; [exact H8|]. split; [done|]. split; [lia|done].
    + eexists. split; [reflexivity|]. split; [done|]. split; [lia|done].
  - eexists. split; [reflexivity|]. split; [|split; [done|lia]].
    apply (Hinv (_events c) (watched c)); [|by apply H5'].
    intros Hne. apply H5; [done|]. intros ->. by rewrite drop_nil in Hne.
Qed.

Lemma deliver_release_spec c qi qo :
  callback_ok → conn_inv c qi qo → room c qi →
  ∃ c' qi' qo', (c ← deliver c; ReleaseInLoop c) = Ok c' ∧ conn_inv c' qi' qo'.
Proof.
  intros Hcb HI Hr. destruct (deliver_spec c qi qo Hcb HI Hr) as (c1 & q1 & q2 & -> & _ & _ & HI1). cbn [mbind res_bind].
  destruct (ReleaseInLoop_spec c1 q1 q2 HI1) as (c' & ? & _ & _ & _ & _ & ?). eauto.
Qed.

Lemma HandleRead_spec r c qi qo :
  callback_ok → conn_inv c qi qo → input_room (IRead r) c qi →
  ∃ c' qi' qo', HandleRead r c = Ok c' ∧ conn_inv c' qi' qo'.
Proof.
  intros Hcb HI Hr. unfold HandleRead.
  assert (Hshut : room c qi → ∃ c' qi' qo', ShutdownInLoop c = Ok c' ∧ conn_inv c' qi' qo').
  { intros Hroom. destruct (ShutdownInLoop_spec c qi qo Hcb HI Hroom) as (c' & q1 & q2 & ? & ? & _). eauto. }
  destruct r as [d|]; unfold recv_ret; destruct (sock_open c) eqn:Ho; cbn [input_room] in Hr; [|apply Hshut; tauto|by apply Hshut|by apply Hshut].
  destruct Hr as (Hf & Hroom & _).
  destruct (WriteAndPush_spec (_in_buffer c) qi d (ci_in _ _ _ HI) Hf) as (b' & Hb & _ & HH & _).
  unfold on_in. rewrite Hb. cbn [mbind res_bind].
  destruct (deliver_spec (note (LReceived d) (set_in b' c)) (qi ++ d) qo Hcb) as (c' & q1 & q2 & ? & _ & _ & ?); [|done|eauto].
  destruct HI as [H1 H2 H3 H4 H5 H5' H6 H7]. split; simpl; try done; streams; [done|]. by rewrite app_assoc, H4.
Qed.

Lemma on_timers_spec f c qi qo :
  conn_inv c qi qo → (∃ w', f (timers c) = Ok w' ∧ timers_ok w') →
  ∃ c', on_timers f c = Ok c' ∧ conn_inv c' qi qo.
Proof.
  intros [H1 H2 H3 H4 H5 H5' H6 H7] (w' & Hf & Hw). unfold on_timers. rewrite Hf. eexists. split; [reflexivity|]. by split.
Qed.

Lemma conn_inv_inactive b c qi qo : conn_inv c qi qo → conn_inv (set_inactive b c) qi qo.
Proof. intros [H1 H2 H3 H4 H5 H5' H6 H7]. by split. Qed.

Lemma do_input_spec i c qi qo :
  callback_ok → conn_inv c qi qo → input_room i c qi → input_allowed i c →
  ∃ c' qi' qo', do_input i c = Ok c' ∧ conn_inv c' qi' qo'.
Proof.
  intros Hcb HI Hr Ha. pose proof (ci_timers _ _ _ HI) as Htm.
  destruct i as [|d| |r|r| | | |sec| |]; cbn [do_input input_room input_allowed] in *.
  - unfold EsTablishedInLoop. rewrite bool_decide_eq_true_2 by done. cbn [assert_res mbind res_bind].
    eexists _, qi, qo. split; [reflexivity|]. destruct HI as [H1 H2 H3 H4 H5 H5' H6 H7].
    split; simpl; try done; streams; try done. intros Ho Hq. specialize (H5 Ho Hq). unfold WriteAble, has_bit in *. simpl.
    rewrite Z.land_lor_distr_l. change (Z.land EPOLLIN EPOLLOUT) with 0. by rewrite Z.lor_0_r.
  - destruct Hr as [Hd Hf]. destruct (Send_spec d c qi qo HI Hd Hf) as (c' & ? & _ & _ & _ & ?). eauto.
  - destruct (ShutdownInLoop_spec c qi qo Hcb HI Hr) as (c' & q1 & q2 & ? & ? & _). eauto.
  - by eapply HandleRead_spec.
  - destruct r as [n|]; [|unfold HandleWrite, send_ret; destruct (sock_open c); by eapply deliver_release_spec].
    destruct (sock_open c) eqn:Ho; [|unfold HandleWrite, send_ret; rewrite Ho; by eapply deliver_release_spec].
    destruct (HandleWrite_sent n c qi qo HI Ho) as (c' & ? & ? & _). eauto.
  - by eapply deliver_release_spec.
  - by eapply deliver_release_spec.
  - unfold AnyEvent. destruct (_enable_inactive_release c); [|eauto].
    destruct (on_timers_spec (refresh_timer conn_id) c qi qo HI) as (c' & ? & ?); [|eauto].
    destruct (refresh_timer_ok conn_id _ Htm) as (w & ? & ? & _). eauto.
  - unfold EnableInactiveReleaseInLoop. cbv zeta. apply (conn_inv_inactive true) in HI.
    destruct (has_timer conn_id (timers (set_inactive true c))) eqn:E.
    + destruct (on_timers_spec (refresh_timer conn_id) _ qi qo HI) as (c' & ? & ?); [|eauto].
      destruct (refresh_timer_ok conn_id _ Htm) as (w & ? & ? & _). eauto.
    + destruct (on_timers_spec (add_timer conn_id sec) _ qi qo HI) as (c' & ? & ?); [|eauto].
      destruct (add_timer_ok conn_id sec _ Htm E Hr) as (w & ? & ? & _). eauto.
  - unfold CancelInactiveReleaseInLoop. cbv zeta. apply (conn_inv_inactive false) in HI.
    destruct (has_timer conn_id (timers (set_inactive false c))); [|eauto].
    destruct (on_timers_spec (cancel_timer conn_id) _ qi qo HI) as (c' & ? & ?); [|eauto].
    destruct (cancel_timer_ok conn_id _ Htm) as (w & ? & ? & _). eauto.
  - destruct (ReleaseInLoop_spec c qi qo HI) as (c' & ? & _ & _ & _ & _ & ?). eauto.
Qed.

(** The connections that can arise: a new one, and what inputs make of it. *)
Inductive reachable_conn : Connection → Prop :=
  | reach_new w : timers_ok w → reachable_conn (new_Connection w)
  | reach_input c i c' :
      reachable_conn c → input_room i c (readable (_in_buffer c)) → input_allowed i c →
      do_input i c = Ok c' → reachable_conn c'.

Lemma reachable_conn_inv c :
  callback_ok → reachable_conn c → conn_inv c (readable (_in_buffer c)) (readable (_out_buffer c)).
Proof.
  intros Hcb Hc. assert (∃ qi qo, conn_inv c qi qo) as (qi & qo & HI).
  { induction Hc as [w Hw|c i c' Hc (qi & qo & HI) Hr Ha Hi]; [eexists _, _; by apply conn_inv_new|].
    rewrite (Holds_readable _ _ (ci_in _ _ _ HI)) in Hr.
    destruct (do_input_spec i c qi qo Hcb HI Hr Ha) as (c1 & q1 & q2 & H1 & HI1). assert (c1 = c') as -> by congruence. eauto. }
  by rewrite (Holds_readable _ _ (ci_in _ _ _ HI)), (Holds_readable _ _ (ci_out _ _ _ HI)).
Qed.

(** C20: Whatever happens to a connection, its byte streams stay whole: what the socket took and
    what is in the output buffer is, in order, the data accepted by [Send]; what the
    message callback consumed and what is in the input buffer is the data received.  While
    the socket is open, pending output is being waited for by the poller, and each further
    input returns.  The callback is any function of the readable bytes that consumes, sends
    and shuts down, its shutdowns calling it again; it must consume no more than it is given,
    consume something before it shuts down (else it is called without end,
    [shutdown_recurses]), and then only send.  Inputs keep the bounds of [input_room] and
    [input_allowed]: arriving data and the answers it draws fit the buffers (below the
    largest vector), [EsTablished] finds a new connection, and the seconds of the inactivity
    timer are below 2^31 - 60. *)
Theorem connection_streams_whole c :
  callback_ok → reachable_conn c →
  sent (log c) ++ readable (_out_buffer c) = accepted (log c) ∧
  consumed (log c) ++ readable (_in_buffer c) = received (log c) ∧
  (sock_open c = true → readable (_out_buffer c) ≠ [] → WriteAble c = true ∧ watched c = true) ∧
  ∀ i, input_room i c (readable (_in_buffer c)) → input_allowed i c → ∃ c', do_input i c = Ok c'.
Proof.
  intros Hcb Hc. pose proof (reachable_conn_inv c Hcb Hc) as HI. pose proof HI as [H1 H2 H3 H4 H5 H5' H6 H7].
  split; [done|]. split; [done|]. split; [by auto|].
  intros i Hr Ha. destruct (do_input_spec i c _ _ Hcb HI Hr Ha) as (c' & _ & _ & ? & _). eauto.
Qed.

Definition writes (ns : list nat) : list input := (λ n, IWrite (SendCount n)) <$> ns.

Lemma drain_partial ns c qi qo :
  conn_inv c qi qo → sock_open c = true → (sum_list ns < length qo)%nat →
  ∃ c', do_inputs (writes ns) c = Ok c' ∧ conn_inv c' qi (drop (sum_list ns) qo) ∧ _statu c' = _statu c ∧ sock_open c' = true.
Proof.
  revert c qo. induction ns as [|n ns IH]; intros c qo HI Ho Hs; [exists c; by rewrite drop_0|].
  simpl in Hs. cbn [writes fmap list_fmap do_inputs do_input].
  destruct (HandleWrite_sent n c qi qo HI Ho) as (c1 & -> & HI1 & Hlt & _). cbn [mbind res_bind].
  destruct Hlt as [Hs1 Ho1]; [lia|].
  destruct (IH c1 _ HI1 Ho1) as (c' & H1 & HI2 & Hs2 & Ho2); [rewrite length_drop; lia|].
  exists c'. split; [exact H1|]. rewrite drop_drop in HI2. rewrite <- Hs1. done.
Qed.

(** A shutdown loses no accepted data: [ShutdownInLoop] on an open connection
    either finds nothing to send and releases it, or leaves it in
    [DISCONNECTING], where it stays through writes that take less than
    the pending bytes, and the write that takes the last of them releases it; when it
    is released, everything accepted has been sent. *)
Theorem shutdown_drains_output c :
  callback_ok → reachable_conn c → sock_open c = true → room c (readable (_in_buffer c)) →
  ∃ c1, ShutdownInLoop c = Ok c1 ∧
  (readable (_out_buffer c1) = [] → _statu c1 = DISCONNECTED ∧ sent (log c1) = accepted (log c1)) ∧
  (readable (_out_buffer c1) ≠ [] → ∀ ns n,
     (sum_list ns < length (readable (_out_buffer c1)) ≤ sum_list ns + n)%nat →
     ∃ c2 c3, do_inputs (writes ns) c1 = Ok c2 ∧ _statu c2 = DISCONNECTING ∧ sock_open c2 = true ∧
       HandleWrite (SendCount n) c2 = Ok c3 ∧ _statu c3 = DISCONNECTED ∧ sent (log c3) = accepted (log c3)).
Proof.
  intros Hcb Hc Ho Hr. pose proof (reachable_conn_inv c Hcb Hc) as HI.
  destruct (ShutdownInLoop_spec c _ _ Hcb HI Hr) as (c1 & qi & qo & H1 & HI1 & Hcase). exists c1. split; [done|].
  rewrite (Holds_readable _ _ (ci_out _ _ _ HI1)). split.
  - intros ->. destruct Hcase as [[Hs _]|[_ [? _]]]; [|done]. split; [done|].
    pose proof (ci_stream_out _ _ _ HI1) as E. by rewrite app_nil_r in E.
  - intros Hq ns n Hn. destruct Hcase as [[_ [? _]]|[Hs [_ Ho1]]]; [done|]. rewrite Ho in Ho1.
    destruct (drain_partial ns c1 qi qo HI1 Ho1) as (c2 & H2 & HI2 & Hs2 & Ho2); [lia|].
    destruct (HandleWrite_sent n c2 qi _ HI2 Ho2) as (c3 & H3 & HI3 & _ & Hfin).
    exists c2, c3. split; [done|]. split; [congruence|]. split; [done|]. split; [done|].
    rewrite length_drop in Hfin. rewrite Hfin by lia. rewrite decide_True by congruence. split; [done|].
    pose proof (ci_stream_out _ _ _ HI3) as E. rewrite drop_drop, drop_ge in E by lia. by rewrite app_nil_r in E.
Qed.

End Connection.

(** ** The timer wheel provides what connections need *)
Lemma HasTimer_counts id s c : WInv s c → HasTimer id s = bool_decide (is_Some (counts c !! id)).
Proof.
  intros HI. unfold HasTimer. apply bool_decide_ext. split; [|apply (wv_dom _ _ HI)].
  intros [x Hx]. apply (wv_reg _ _ HI) in Hx as (t & Ht & <-). destruct (wv_task _ _ HI _ _ Ht) as (_ & n & Hn & _). eauto.
Qed.

#[refine, export] Instance wheel_timers : LoopTimers TimerWheel := {|
  has_timer := HasTimer;
  add_timer := TimerAddInLoop;
  refresh_timer := TimerRefreshInLoop;
  cancel_timer := TimerCancelInLoop;
  timers_ok := λ s, ∃ c, WInv s c;
|}.
Proof.
  - intros id sec w [c HI] Hno Hsec. destruct (timer_add_sim id sec w c HI) as (w' & H1 & HI').
    + split; [|done]. rewrite (HasTimer_counts _ _ _ HI) in Hno. apply bool_decide_eq_false in Hno.
      by apply eq_None_not_Some.
    + exists w'. split; [done|]. split; [by eexists|]. intros i.
      rewrite (HasTimer_counts _ _ _ HI), (HasTimer_counts _ _ _ HI'), <- bool_decide_or. apply bool_decide_ext.
      cbn [clock_op counts]. rewrite lookup_insert_is_Some'. naive_solver.
  - intros id w [c HI]. destruct (timer_refresh_sim id w c HI) as (w' & H1 & HI'). exists w'. split; [done|].
    split; [by eexists|]. intros i. rewrite (HasTimer_counts _ _ _ HI), (HasTimer_counts _ _ _ HI').
    apply bool_decide_ext. cbn [clock_op counts]. by rewrite lookup_alter_is_Some.
  - intros id w [c HI]. destruct (timer_cancel_sim id w c HI) as (w' & H1 & HI'). exists w'. split; [done|].
    split; [by eexists|]. intros i. rewrite (HasTimer_counts _ _ _ HI), (HasTimer_counts _ _ _ HI').
    apply bool_decide_ext. cbn [clock_op counts]. by rewrite lookup_alter_is_Some.
Defined.

(** One round of [Channel::HandleEvent] can release a connection twice: when reading
    fails while the socket is reported writable, the failed read releases it, and
    the write on the closed socket releases it again, closing callbacks included. *)
Theorem released_twice :
  ∃ c1 c2, EsTablishedInLoop (new_Connection new_wheel) = Ok c1 ∧
    handle_event 5 (λ _, []) (Z.lor EPOLLIN EPOLLOUT) RecvError SendError c1 = Ok c2 ∧
    log c2 = [LConnected; LClosed; LServerClosed; LClosed; LServerClosed].
Proof. eexists _, _. split; [reflexivity|]. split; [vm_compute; reflexivity|done]. Qed.

(** A callback that consumes its bytes and shuts down releases the connection twice: the
    shutdown it is called from goes on behind its own. *)
Example callback_released_twice :
  ∃ c1, do_inputs 5 (λ q, [AConsume 1; AShutdown]) [IEstablished; IRead (RecvData ["h"%char; "i"%char])] (new_Connection new_wheel) = Ok c1 ∧
    log c1 = [LConnected; LReceived ["h"%char; "i"%char]; LConsumed ["h"%char]; LConsumed ["i"%char]; LClosed; LServerClosed; LClosed; LServerClosed].
Proof. eexists. split; [vm_compute; reflexivity|done]. Qed.

(** A callback that shuts down and has consumed nothing is called again without end: no
    depth of the calls is enough. *)
Theorem shutdown_recurses {W} `{LoopTimers W} (id : Z) (fuel : nat) (c : @Connection W) :
  0 < ReadAbleSize (_in_buffer c) → message_callback_at id (λ _, [AShutdown]) fuel c = Err OutOfFuel.
Proof.
  revert c. induction fuel as [|fuel IH]; intros c Hc; [done|]. cbn [message_callback_at do_actions]. unfold shutdown_with.
  cbn [set_statu _in_buffer]. rewrite (proj2 (Z.ltb_lt 0 (ReadAbleSize (_in_buffer c))) Hc), IH by done. done.
Qed.

(** ** Witnesses *)

(** An echo server: everything read is sent back. *)
Definition echo (q : list ascii) : list action := [AConsume (length q); ASend q].
(** One that answers with the first byte, and shuts down with the rest unread. *)
Definition first_byte (q : list ascii) : list action := [AConsume 1; ASend (take 1 q); AShutdown].

Lemma echo_conn :
  ∃ c, do_input 5 echo (ISend ["h"%char; "i"%char]) (new_Connection new_wheel) = Ok c ∧
    reachable_conn 5 echo c ∧ sock_open c = true ∧ readable (_in_buffer c) = [] ∧ readable (_out_buffer c) = ["h"%char; "i"%char] ∧
    _writer_idx (_out_buffer c) = 2.
Proof.
  eexists. split; [vm_compute; reflexivity|]. split; [|by vm_compute].
  eapply (reach_input 5 echo (new_Connection new_wheel) (ISend ["h"%char; "i"%char])).
  - constructor. exists new_clock. apply WInv_new.
  - by vm_compute.
  - done.
  - by vm_compute.
Defined.

Lemma echo_ok : callback_ok echo.
Proof. intros q _. by split. Qed.
Lemma first_byte_ok : callback_ok first_byte.
Proof. intros [|x q] Hq; [done|]. cbn. split; [lia|]. by split; [|constructor]. Qed.
Lemma first_byte_conn :
  ∃ c, do_input 5 first_byte (IRead (RecvData ["h"%char; "i"%char])) (new_Connection new_wheel) = Ok c ∧
    reachable_conn 5 first_byte c ∧ sock_open c = true ∧ readable (_out_buffer c) = ["h"%char; "i"%char] ∧
    readable (_in_buffer c) = [] ∧ _writer_idx (_out_buffer c) = 2.
Proof.
  eexists. split; [vm_compute; reflexivity|]. split; [|by vm_compute].
  eapply (reach_input 5 first_byte (new_Connection new_wheel) (IRead (RecvData ["h"%char; "i"%char]))).
  - constructor. exists new_clock. apply WInv_new.
  - by vm_compute.
  - done.
  - by vm_compute.
Defined.

Lemma connection_streams_whole_witness :
  ∃ c, do_input 5 first_byte (IRead (RecvData ["h"%char; "i"%char])) (new_Connection new_wheel) = Ok c ∧
    sent (log c) ++ readable (_out_buffer c) = accepted (log c) ∧ WriteAble c = true ∧
    ∃ c', do_input 5 first_byte (IWrite (SendCount 1)) c = Ok c'.
Proof.
  destruct first_byte_conn as (c & H1 & H2 & H3 & H4 & H5 & H6). exists c. split; [exact H1|].
  destruct (connection_streams_whole 5 first_byte c first_byte_ok H2) as (E1 & _ & E2 & E3). split; [exact E1|]. split.
  - apply E2; [exact H3|]. by rewrite H4.
  - apply E3; [|exact I]. rewrite H5. unfold input_room, room, holds, fits. rewrite H6. by vm_compute.
Defined.

Lemma shutdown_drains_output_witness :
  ∃ c c1, do_input 5 echo (ISend ["h"%char; "i"%char]) (new_Connection new_wheel) = Ok c ∧ ShutdownInLoop 5 echo c = Ok c1.
Proof.
  destruct echo_conn as (c & H1 & H2 & H3 & H4 & H5 & H6). exists c.
  destruct (shutdown_drains_output 5 echo c echo_ok H2 H3) as (c1 & E1 & _).
  - rewrite H4. unfold room, holds, fits. rewrite H6. by vm_compute.
  - exists c1. split; [exact H1|exact E1].
Defined.
