(* ===== verification/Echo.v ===== *)
(** * The server built on the reactor: src/Reactor_http/source/echo/echo.hpp

    [EchoServer] sets the callbacks of the library: every message is taken whole, answered by
    a greeting, and the connection shut down behind it.  The life of one of its
    connections, from [EsTablished] to its release. *)

From S2P Require Import Prelude Buffer TimerWheel Connection.
From Stdlib Require Import Ascii.

Open Scope Z_scope.

Definition hello : list ascii := String.list_ascii_of_string "hello world".
(** [OnMessage]: its [Shutdown], in the thread of the loop, runs at once. *)
Definition OnMessage (q : list ascii) : list action := [AConsume (length q); ASend hello; AShutdown].
Lemma OnMessage_ok : callback_ok OnMessage.
Proof. intros [|x q] Hq; [done|]. cbn. split; [lia|]. by split; [|constructor]. Qed.

Section Echo.
Context {W : Type} `{LoopTimers W} (conn_id : Z).
Implicit Types c : @Connection W.

(** What happens on an open connection: bytes arrive, or the socket takes some. *)
Inductive echo_event := ERead (d : list ascii) | EWrite (n : nat).
Definition echo_do (e : echo_event) (c : Connection) : res Connection :=
  match e with ERead d => HandleRead conn_id OnMessage (RecvData d) c | EWrite n => HandleWrite conn_id OnMessage (SendCount n) c end.
(** A released connection is no longer in the poller and gets no events. *)
Fixpoint echo_run (es : list echo_event) (c : Connection) : res Connection :=
  match es with
  | [] => Ok c
  | e :: es => if sock_open c then c ← echo_do e c; echo_run es c else Ok c
  end.

(** ** What a client sees *)
(** The greetings due, those bytes of them still to be sent, and whether the end was reached. *)
Record view := mkView { greetings : nat; due : list ascii; over : bool }.
Definition view_step (v : view) (e : echo_event) : view :=
  if over v then v else
  match e with
  | ERead [] => v
  | ERead _ => mkView (S (greetings v)) (due v ++ hello) false
  | EWrite n => mkView (greetings v) (drop n (due v)) (bool_decide (drop n (due v) = []) && (0 <? greetings v)%nat)
  end.

Definition read_size (es : list echo_event) : nat :=
  sum_list ((λ e, match e with ERead d => (length d + length hello)%nat | EWrite _ => 0%nat end) <$> es).

(** The connection is as the view says. *)
Record shows (c : Connection) (v : view) (k : nat) : Prop := {
  sh_inv : conn_inv c [] (due v);
  sh_accepted : accepted (log c) = concat (replicate (greetings v) hello);
  sh_open : sock_open c = negb (over v);
  sh_statu : _statu c = if over v then DISCONNECTED else if decide (greetings v = 0%nat) then CONNECTED else DISCONNECTING;
  sh_due : over v = false → (0 < greetings v)%nat → due v ≠ [];
  sh_in : _writer_idx (_in_buffer c) ≤ Z.of_nat k;
  sh_out : _writer_idx (_out_buffer c) ≤ Z.of_nat k;
}.

(** *** What the operations leave alone *)
Lemma Send_frame d c c' :
  vsize d ≤ max_size → _statu c ≠ DISCONNECTED → Send d c = Ok c' →
  log c' = log c ++ [LAccepted d] ∧ _in_buffer c' = _in_buffer c.
Proof.
  intros Hd Hs. unfold Send. destruct (WriteAndPush_spec new_Buffer [] d Holds_new) as (buf & -> & _ & Hb & _); [done|].
  unfold SendInLoop, on_out. rewrite decide_False, (Holds_readable _ _ Hb) by done.
  destruct (WriteBufferAndPush buf (_out_buffer c)) as [[[] b']|]; [|done]. cbn [mbind res_bind].
  by destruct (WriteAble _); intros [= <-].
Qed.

Lemma HandleWrite_frame n c c' qi qo :
  conn_inv c qi qo → sock_open c = true → HandleWrite conn_id OnMessage (SendCount n) c = Ok c' →
  accepted (log c') = accepted (log c) ∧ _in_buffer c' = _in_buffer c ∧
  _writer_idx (_out_buffer c') = _writer_idx (_out_buffer c) ∧
  ((length qo ≤ n)%nat → _statu c = DISCONNECTING → sock_open c' = false) ∧
  (_statu c ≠ DISCONNECTING → sock_open c' = true).
Proof.
  intros HI Ho. unfold HandleWrite, send_ret. rewrite Ho, (Holds_readable _ _ (ci_out _ _ _ HI)).
  destruct (MoveReadOffset_spec _ _ (Nat.min n (length qo)) (ci_out _ _ _ HI)) as (b' & Hb & HH & Hw & _); [lia|].
  unfold on_out. rewrite Hb. cbn [mbind res_bind]. cbn. rewrite (Holds_ReadAble _ _ HH). unfold vsize. rewrite length_drop.
  assert (Hacc : ∀ x, accepted (log c ++ [LSent x]) = accepted (log c)) by (intros; by streams).
  destruct (Z.eqb_spec (Z.of_nat (length qo - Nat.min n (length qo))) 0) as [E|E].
  2: { intros [= <-]. simpl. split_and!; [apply Hacc|done|done|lia|done]. }
  case_decide as Hst.
  2: { intros [= <-]. simpl. by split_and!; [apply Hacc|..]. }
  intros Hr. pose proof (ReleaseInLoop_frame _ _ _ Hr) as [H1 H2]. cbn in H1, H2. rewrite H1, H2.
  unfold ReleaseInLoop, CancelInactiveReleaseInLoop, on_timers in Hr. cbn in Hr.
  assert (log c' = (log c ++ [LSent (take (Nat.min n (length qo)) qo)]) ++ [LClosed; LServerClosed] ∧ sock_open c' = false) as [-> ->].
  { destruct (has_timer conn_id (timers c)); [destruct (cancel_timer conn_id (timers c)); [|done]|];
      injection Hr as <-; cbn; by rewrite <- !app_assoc. }
  split_and!; [|done..].
  change [LClosed; LServerClosed] with ([LClosed] ++ [LServerClosed]). rewrite app_assoc. by streams.
Qed.

(** A shutdown behind pending output only notes the state. *)
Lemma Shutdown_pending f c qo :
  conn_inv c [] qo → sock_open c = true → qo ≠ [] →
  shutdown_with conn_id (λ c, if 0 <? ReadAbleSize (_in_buffer c) then f c else Ok c) c = Ok (set_statu DISCONNECTING c).
Proof.
  intros HI Ho Hq. unfold shutdown_with. cbn [set_statu _in_buffer].
  rewrite (Holds_ReadAble _ _ (ci_in _ _ _ HI)). cbn [mbind res_bind]. change (0 <? vsize []) with false. cbv iota. cbn [mbind res_bind].
  cbn [set_statu _out_buffer]. rewrite (Holds_ReadAble _ _ (ci_out _ _ _ HI)).
  change (WriteAble (set_statu DISCONNECTING c)) with (WriteAble c). rewrite (ci_pending _ _ _ HI Ho Hq).
  destruct qo as [|x qo]; [done|]. change (0 <? vsize (x :: qo)) with true. cbn [set_statu _out_buffer].
  by rewrite (Holds_ReadAble _ _ (ci_out _ _ _ HI)).
Qed.

Lemma echo_read_shows d c v k :
  shows c v k → over v = false → Z.of_nat (k + length d + length hello) ≤ max_size →
  ∃ c', HandleRead conn_id OnMessage (RecvData d) c = Ok c' ∧ shows c' (view_step v (ERead d)) (k + length d + length hello).
Proof.
  intros [HI Ha Ho Hs Hdue Hin Hout] Hv Hk. rewrite Hv in Ho, Hs. cbn in Ho. unfold HandleRead, recv_ret. rewrite Ho.
  destruct (WriteAndPush_spec (_in_buffer c) [] d (ci_in _ _ _ HI)) as (b' & Hb & _ & HH & Hw & _); [unfold vsize; lia|].
  unfold on_in. rewrite Hb. cbn [mbind res_bind]. unfold deliver. cbn [note set_in _in_buffer]. rewrite (Holds_ReadAble _ _ HH).
  cbn [app] in HH |- *. assert (HI1 : conn_inv (note (LReceived d) (set_in b' c)) d (due v)).
  { destruct HI as [H1 H2 H3 H4 H5 H5' H6 H7]. split; simpl; try done; streams; [done|]. rewrite <- H4. by rewrite app_nil_r. }
  unfold view_step. rewrite Hv. unfold vsize in *. destruct d as [|x d].
  { eexists. split; [reflexivity|]. split; [exact HI1|simpl; by streams|by rewrite Hv|by rewrite Hv|done|cbn in *; lia|cbn; lia]. }
  change (0 <? Z.of_nat (length (x :: d))) with true. cbv iota.
  unfold message_callback. cbn [message_callback_at]. rewrite (Holds_readable _ _ (ci_in _ _ _ HI1)).
  destruct (MoveReadOffset_spec _ _ (length (x :: d)) (ci_in _ _ _ HI1)) as (b2 & Hb2 & HH2 & Hw2 & _); [lia|].
  cbn [OnMessage do_actions]. cbv zeta. rewrite (Holds_readable _ _ (ci_in _ _ _ HI1)). unfold on_in. rewrite Hb2. cbn [mbind res_bind]. rewrite drop_all in HH2. rewrite firstn_all.
  set (c2 := note (LConsumed (x :: d)) _).
  assert (HI2 : conn_inv c2 [] (due v)).
  { destruct HI1 as [H1 H2 H3 H4 H5 H5' H6 H7]. split; try done; unfold c2; cbn [note set_in log] in *; [revert H3|revert H4]; by streams. }
  destruct (Send_spec hello c2 [] (due v) HI2) as (c3 & E3 & Hs3 & Ho3 & Hw3 & HI3); [by vm_compute|unfold fits; simpl in *; lia|].
  assert (Hs2 : _statu c2 ≠ DISCONNECTED) by (change (_statu c2) with (_statu c); rewrite Hs; by destruct (decide _)).
  destruct (Send_frame hello c2 c3) as [Hl3 Hi3]; [by vm_compute|done|done|]. rewrite E3. cbn [mbind res_bind].
  rewrite decide_False in HI3 by done.
  rewrite (Shutdown_pending _ c3 (due v ++ hello) HI3); [|by rewrite Ho3|by destruct (due v)]. eexists. split; [reflexivity|].
  split; cbn [due greetings over negb set_statu sock_open _statu _in_buffer _out_buffer log].
  - by apply conn_inv_statu.
  - rewrite Hl3, replicate_S_end, concat_app, <- Ha. unfold c2. cbn [note set_in log concat]. rewrite app_nil_r.
    generalize hello. intros h. by streams.
  - by rewrite Ho3.
  - done.
  - intros _ _. by destruct (due v).
  - rewrite Hi3. unfold c2. cbn [note set_in _in_buffer] in *. lia.
  - unfold c2 in Hw3. cbn [note set_in _out_buffer] in Hw3. unfold vsize in Hw3. lia.
Qed.

Lemma echo_write_shows n c v k :
  shows c v k → over v = false →
  ∃ c', HandleWrite conn_id OnMessage (SendCount n) c = Ok c' ∧ shows c' (view_step v (EWrite n)) k.
Proof.
  intros [HI Ha Ho Hs Hdue Hin Hout] Hv. rewrite Hv in Ho, Hs. cbn in Ho.
  destruct (HandleWrite_sent conn_id OnMessage n c [] (due v) HI Ho) as (c' & E & HI' & Hlt & Hge).
  destruct (HandleWrite_frame n c c' [] (due v) HI Ho E) as (H1 & H2 & H3 & H4 & H5).
  exists c'. split; [done|]. unfold view_step. rewrite Hv.
  destruct (decide (greetings v = 0%nat)) as [Hg|Hg].
  - assert (due v = []) as Hd.
    { pose proof (ci_stream_out _ _ _ HI) as Es. rewrite Ha, Hg in Es. by apply app_eq_nil in Es as [_ ?]. }
    rewrite Hd, drop_nil in *. rewrite Hg. cbn [Nat.ltb Nat.leb]. rewrite andb_false_r.
    rewrite Hs in Hge. split; cbn [due greetings over negb]; rewrite ?H1, ?H2, ?H3, ?Ha, ?Hg; try done.
    + apply H5. by rewrite Hs.
    + rewrite Hge by (simpl; lia). by rewrite decide_False.
    + lia.
  - rewrite (proj2 (Nat.ltb_lt 0 (greetings v))) by lia. rewrite andb_true_r.
    split; cbn [due greetings over]; rewrite ?H1, ?H2, ?H3, ?Ha; try done.
    + case_bool_decide as Hd; [apply H4; [|done]; apply (f_equal length) in Hd; rewrite length_drop in Hd; simpl in Hd; lia|].
      apply Hlt. destruct (decide (n < length (due v))%nat); [done|]. rewrite drop_ge in Hd by lia. done.
    + case_bool_decide as Hd.
      * rewrite Hge by (apply (f_equal length) in Hd; rewrite length_drop in Hd; simpl in Hd; lia). by rewrite Hs, decide_True.
      * destruct Hlt as [-> _]; [|by rewrite Hs, decide_False]. destruct (decide (n < length (due v))%nat); [done|]. by rewrite drop_ge in Hd by lia.
    + intros Hb _. by apply bool_decide_eq_false in Hb.
Qed.

Lemma echo_run_shows es c v k :
  shows c v k → Z.of_nat (k + read_size es) ≤ max_size →
  ∃ c' k', echo_run es c = Ok c' ∧ shows c' (foldl view_step v es) k'.
Proof.
  revert c v k. induction es as [|e es IH]; intros c v k Hc Hk; [by exists c, k|].
  cbn [echo_run foldl]. rewrite (sh_open _ _ _ Hc). destruct (over v) eqn:Hv.
  - exists c, k. split; [done|]. assert (foldl view_step (view_step v e) es = v) as ->; [|done].
    assert (∀ e, view_step v e = v) as Hstop by (intros; unfold view_step; by rewrite Hv). rewrite Hstop.
    clear -Hstop. induction es as [|e es IH]; [done|]. cbn. by rewrite Hstop.
  - cbn [negb]. destruct e as [d|n].
    + change (read_size (ERead d :: es)) with (length d + length hello + read_size es)%nat in Hk.
      destruct (echo_read_shows d c v k Hc Hv) as (c1 & H1 & Hs1); [lia|]. cbn [echo_do]. rewrite H1. cbn [mbind res_bind].
      eapply IH; [exact Hs1|]. lia.
    + change (read_size (EWrite n :: es)) with (read_size es) in Hk. destruct (echo_write_shows n c v k Hc Hv) as (c1 & H1 & Hs1). cbn [echo_do]. rewrite H1. cbn [mbind res_bind].
      eapply IH; [exact Hs1|]. lia.
Qed.

(** A connection of the echo server, from its start: however the bytes of the client arrive and
    however little the socket takes, every read that brings bytes is consumed whole and earns
    one greeting; what was sent and what is due is, in order, these greetings; while some of
    it is due the poller waits for the socket; and the connection is released exactly when the
    first greetings have been sent completely, with nothing cut off. *)
Theorem echo_greets w es :
  timers_ok w → Z.of_nat (read_size es) ≤ max_size →
  ∃ c0 c, EsTablishedInLoop (new_Connection w) = Ok c0 ∧ echo_run es c0 = Ok c ∧
  let v := foldl view_step (mkView 0 [] false) es in
  sent (log c) ++ due v = concat (replicate (greetings v) hello) ∧
  consumed (log c) = received (log c) ∧
  (due v ≠ [] → over v = false ∧ WriteAble c = true ∧ watched c = true) ∧
  (_statu c = DISCONNECTED ↔ due v = [] ∧ (0 < greetings v)%nat) ∧ sock_open c = negb (over v).
Proof.
  intros Hw Hsz. unfold EsTablishedInLoop. cbn [new_Connection _statu]. rewrite bool_decide_eq_true_2 by done.
  cbn [assert_res mbind res_bind]. set (c0 := note LConnected _). eexists c0.
  assert (H0 : shows c0 (mkView 0 [] false) 0).
  { split; try done; [|cbn; lia]. destruct (conn_inv_new w Hw) as [H1 H2 H3 H4 H5 H5' H6 H7]. by split. }
  destruct (echo_run_shows es c0 _ 0 H0) as (c & k & Hr & Hc); [done|]. exists c. split; [done|]. split; [done|].
  cbv zeta. set (v := foldl _ _ es) in *. destruct Hc as [HI Ha Ho Hs Hdue _ _].
  assert (Hover : over v = true → due v = [] ∧ (0 < greetings v)%nat).
  { unfold v. clear. assert (Hgen : ∀ v0, (over v0 = true → due v0 = [] ∧ (0 < greetings v0)%nat) →
      over (foldl view_step v0 es) = true → due (foldl view_step v0 es) = [] ∧ (0 < greetings (foldl view_step v0 es))%nat).
    { induction es as [|e es IH]; intros v0 H0; [done|]. apply IH. unfold view_step. destruct (over v0) eqn:E; [by rewrite E|].
      destruct e as [[|x d]|n]; cbn [over due greetings]; [by rewrite E|done|]. intros [H1%bool_decide_eq_true H2%Nat.ltb_lt]%andb_true_iff. done. }
    by apply Hgen. }
  split; [by rewrite <- Ha, (ci_stream_out _ _ _ HI)|].
  split; [by rewrite <- (ci_stream_in _ _ _ HI), app_nil_r|]. split.
  - intros Hd. destruct (over v) eqn:Hv; [by destruct Hover|]. cbn in Ho. split; [done|].
    pose proof (ci_pending _ _ _ HI Ho Hd) as Hp. split; [done|]. by apply (ci_watched _ _ _ HI).
  - split; [|done]. rewrite Hs. destruct (over v) eqn:Hv; [by split; [auto|]|]. split.
    + by destruct (decide _).
    + intros [Hd Hg]. by destruct Hdue.
Qed.
End Echo.

Definition one_talk : list echo_event := [ERead ["h"%char; "i"%char]; EWrite 4; EWrite 20].
Lemma echo_greets_witness :
  ∃ c0 c, EsTablishedInLoop (new_Connection new_wheel) = Ok c0 ∧ echo_run 5 one_talk c0 = Ok c ∧
    sent (log c) = hello ∧ _statu c = DISCONNECTED.
Proof.
  destruct (echo_greets 5 new_wheel one_talk) as (c0 & c & H1 & H2 & H3 & _ & _ & H4 & _).
  - exists new_clock. apply WInv_new.
  - by vm_compute.
  - exists c0, c. split; [exact H1|]. split; [exact H2|]. split.
    + rewrite app_nil_r in H3. exact H3.
    + apply H4. split; [reflexivity|]. apply Nat.lt_0_1.
Defined.
