(* ===== verification/EventLoop.v ===== *)
(** * Event loops of src/Reactor_http/source/server.hpp ([Poller], [EventLoop], [LoopThreadPool])

    The table of channels of a poller beside the kernel's interest list; the task
    queue that other threads fill and the loop's thread runs; the choice of a loop
    for a new connection.  The mutex makes each access to the queue one step. *)

From S2P Require Import Prelude.

Open Scope Z_scope.

(** ** Poller *)
Module Poller.
Section Poller.
(** A channel: what [Fd] and [Event] return, and the event [Poll] stores in it. *)
Record Channel := mkChan { _fd : Z; _events : Z }.
#[global] Instance Channel_eq_dec : EqDecision Channel.
Proof. solve_decision. Defined.

(** [_channels], and the interest list of [_epfd] as [epoll_ctl] keeps it. *)
Record Poller := mkPoller { _channels : gmap Z Channel; interest : gmap Z Z }.

Definition new_Poller : Poller := mkPoller ∅ ∅.

(** A failure of [epoll_ctl] is only logged. *)
Definition Update (c : Channel) (op : epoll_op) (p : Poller) : Poller :=
  mkPoller (_channels p) (epoll_ctl op (_fd c) (_events c) (interest p)).

Definition HasChannel (c : Channel) (p : Poller) : bool := bool_decide (is_Some (_channels p !! _fd c)).
Definition UpdateEvent (c : Channel) (p : Poller) : Poller :=
  if HasChannel c p then Update c EPOLL_CTL_MOD p
  else Update c EPOLL_CTL_ADD (mkPoller (<[_fd c := c]> (_channels p)) (interest p)).
Definition RemoveEvent (c : Channel) (p : Poller) : Poller :=
  Update c EPOLL_CTL_DEL (mkPoller (delete (_fd c) (_channels p)) (interest p)).

(** [Poll], after [epoll_wait] has reported [ready]: descriptors with events. *)
Fixpoint Poll (p : Poller) (ready : list (Z * Z)) : res (list (Channel * Z)) :=
  match ready with
  | [] => Ok []
  | (fd, revents) :: ready =>
      match _channels p !! fd with
      | None => Err AssertFailed
      | Some c => rest ← Poll p ready; Ok ((c, revents) :: rest)
      end
  end.

Inductive poller_op := OpUpdate (c : Channel) | OpRemove (c : Channel).
Definition do_poller_op (o : poller_op) (p : Poller) : Poller :=
  match o with OpUpdate c => UpdateEvent c p | OpRemove c => RemoveEvent c p end.
Definition do_poller_ops (os : list poller_op) : Poller := foldl (λ p o, do_poller_op o p) new_Poller os.

(** What the operations ask to be watched: for each descriptor the events of the
    last update after the last removal. *)
Definition wanted_op (w : gmap Z Z) (o : poller_op) : gmap Z Z :=
  match o with OpUpdate c => <[_fd c := _events c]> w | OpRemove c => delete (_fd c) w end.
Definition wanted (os : list poller_op) : gmap Z Z := foldl wanted_op ∅ os.

Record poller_inv (p : Poller) (w : gmap Z Z) : Prop := {
  po_interest : interest p = w;
  po_channels : dom (_channels p) = dom w;
  po_fd : ∀ fd c, _channels p !! fd = Some c → _fd c = fd;
}.

Lemma do_poller_op_inv o p w : poller_inv p w → poller_inv (do_poller_op o p) (wanted_op w o).
Proof.
  intros [H1 H2 H3]. subst w. destruct o as [c|c]; cbn [do_poller_op wanted_op].
  - unfold UpdateEvent, HasChannel. case_bool_decide as Hc; unfold Update; cbn [_channels interest].
    + assert (is_Some (interest p !! _fd c)) as [e He] by (apply elem_of_dom; rewrite <- H2; by apply elem_of_dom).
      unfold epoll_ctl. rewrite He. split; cbn; [done| |done].
      rewrite dom_insert_L, H2. assert (_fd c ∈ dom (interest p)) by (apply elem_of_dom; eauto). set_solver.
    + assert (interest p !! _fd c = None) as He.
      { apply not_elem_of_dom. rewrite <- H2. rewrite elem_of_dom. done. }
      unfold epoll_ctl. rewrite He. split; cbn; [done|by rewrite !dom_insert_L, H2|].
      intros fd c'. rewrite lookup_insert_Some. intros [[<- <-]|[_ ?]]; [done|by apply H3].
  - unfold RemoveEvent, Update; cbn [_channels interest].
    split; cbn; [|by rewrite !dom_delete_L, H2|].
    + unfold epoll_ctl. destruct (interest p !! _fd c) eqn:E; [done|]. by rewrite delete_id.
    + intros fd c'. rewrite lookup_delete_Some. intros [_ ?]. by apply H3.
Qed.

Lemma do_poller_ops_inv os : poller_inv (do_poller_ops os) (wanted os).
Proof.
  unfold do_poller_ops, wanted. assert (poller_inv new_Poller ∅) as HI by (split; cbn; [done|set_solver|done]).
  revert HI. generalize new_Poller, (∅ : gmap Z Z).
  induction os as [|o os IH]; intros p w HI; [done|]. cbn. apply IH. by apply do_poller_op_inv.
Qed.

(** The poller watches what its channels ask for: after any updates and removals the
    interest list of the kernel holds each descriptor with the events of its last
    update; and if [epoll_wait] reports descriptors of that list only, [Poll] never
    fails its assertion and returns for each a channel with that descriptor. *)
Theorem poller_watches os ready :
  let p := do_poller_ops os in
  (∀ fd ev, (fd, ev) ∈ ready → fd ∈ dom (interest p)) →
  interest p = wanted os ∧
  ∃ active, Poll p ready = Ok active ∧ (λ a, (_fd a.1, a.2)) <$> active = ready.
Proof.
  intros p Hr. pose proof (do_poller_ops_inv os) as [H1 H2 H3]. fold p in H1, H2, H3. split; [done|].
  induction ready as [|[fd ev] ready IH]; [by exists []|].
  destruct IH as (active & Ha & Em); [intros; eapply Hr; by right|].
  assert (is_Some (_channels p !! fd)) as [c Hc].
  { apply elem_of_dom. rewrite H2, <- H1. eapply Hr. by left. }
  exists ((c, ev) :: active). cbn [Poll]. rewrite Hc, Ha. split; [done|]. cbn. by rewrite Em, (H3 _ _ Hc).
Qed.
End Poller.
End Poller.

(** A listening descriptor, and a connection whose events change before it goes. *)
Definition poller_run : list Poller.poller_op :=
  [Poller.OpUpdate (Poller.mkChan 3 1); Poller.OpUpdate (Poller.mkChan 4 1); Poller.OpUpdate (Poller.mkChan 4 5);
   Poller.OpUpdate (Poller.mkChan 5 1); Poller.OpRemove (Poller.mkChan 5 1)].
Lemma poller_watches_witness :
  (∀ fd ev, (fd, ev) ∈ [(4, 4)] → fd ∈ dom (Poller.interest (Poller.do_poller_ops poller_run))) ∧
  Poller.interest (Poller.do_poller_ops poller_run) = Poller.wanted poller_run.
Proof.
  assert (∀ fd ev, (fd, ev) ∈ [(4, 4)] → fd ∈ dom (Poller.interest (Poller.do_poller_ops poller_run))) as H.
  { intros fd ev [[= -> ->]|[]%not_elem_of_nil]%elem_of_cons. apply (bool_decide_unpack _). by vm_compute. }
  split; [exact H|]. exact (proj1 (Poller.poller_watches poller_run [(4, 4)] H)).
Defined.

(** ** The task queue of an event loop *)
Module EventLoop.
Section EventLoop.
Context {task : Type}.

(** [_tasks]; [functor], the tasks that [RunAllTask] has swapped out and not
    yet run; and, for the specification, what was queued and what was run. *)
Record EventLoop := mkLoop {
  _tasks : list task;
  functor : list task;
  queued : list task;
  ran : list task;
}.
Definition new_loop : EventLoop := mkLoop [] [] [] [].

(** [QueueInLoop], its critical section *)
Definition QueueInLoop (cb : task) (l : EventLoop) : EventLoop :=
  mkLoop (_tasks l ++ [cb]) (functor l) (queued l ++ [cb]) (ran l).
(** [RunAllTask]: the critical section swaps the queue with an empty vector ... *)
Definition swap_tasks (l : EventLoop) : EventLoop := mkLoop [] (_tasks l) (queued l) (ran l).
(** ... and the loop over the vector calls one task after the other. *)
Definition next_task (l : EventLoop) : option (task * EventLoop) :=
  match functor l with
  | [] => None
  | f :: fs => Some (f, mkLoop (_tasks l) fs (queued l) (ran l ++ [f]))
  end.

Definition loop_inv (l : EventLoop) : Prop := ran l ++ functor l ++ _tasks l = queued l.

Lemma loop_inv_new : loop_inv new_loop.
Proof. done. Qed.
Lemma loop_inv_queue cb l : loop_inv l → loop_inv (QueueInLoop cb l).
Proof. unfold loop_inv. cbn. intros <-. by rewrite !app_assoc. Qed.
Lemma loop_inv_swap l : loop_inv l → functor l = [] → loop_inv (swap_tasks l).
Proof. unfold loop_inv. cbn. intros <- ->. by rewrite app_nil_r. Qed.
Lemma loop_inv_next l f l' : loop_inv l → next_task l = Some (f, l') → loop_inv l'.
Proof.
  unfold loop_inv, next_task. destruct (functor l) as [|g fs]; [done|]. intros <- [= <- <-]. cbn.
  by rewrite <- app_assoc.
Qed.
End EventLoop.
Arguments EventLoop : clear implicits.
End EventLoop.

(** ** The pool of loops *)
Module LoopThreadPool.

(** A loop is named by a number; [0] is [_base_loop], and the loops that
    [Create] starts are [1], [2], ... *)
Record LoopThreadPool := mkPool { _thread_count : Z; _next_loop_idx : Z; _loops : list nat }.
Definition new_pool : LoopThreadPool := mkPool 0 0 [].
Definition SetThreadCount (count : Z) (p : LoopThreadPool) : LoopThreadPool :=
  mkPool count (_next_loop_idx p) (_loops p).
Definition Create (p : LoopThreadPool) : LoopThreadPool :=
  if 0 <? _thread_count p then mkPool (_thread_count p) (_next_loop_idx p) (seq 1 (Z.to_nat (_thread_count p)))
  else p.
Definition NextLoop (p : LoopThreadPool) : res (nat * LoopThreadPool) :=
  if _thread_count p =? 0 then Ok (0%nat, p)
  else
    let idx := Z.rem (_next_loop_idx p + 1) (_thread_count p) in
    let p := mkPool (_thread_count p) idx (_loops p) in
    if 0 <=? idx then
      match _loops p !! Z.to_nat idx with Some l => Ok (l, p) | None => Err OutOfBounds end
    else Err OutOfBounds.

Fixpoint NextLoops (n : nat) (p : LoopThreadPool) : res (list nat * LoopThreadPool) :=
  match n with
  | O => Ok ([], p)
  | S n => '(l, p) ← NextLoop p; '(ls, p) ← NextLoops n p; Ok (l :: ls, p)
  end.

(** The pool as it is once the server has started. *)
Definition started (count : Z) : LoopThreadPool := Create (SetThreadCount count new_pool).

Record pool_ok (n : nat) (p : LoopThreadPool) : Prop := {
  pk_count : _thread_count p = Z.of_nat n;
  pk_idx : 0 ≤ _next_loop_idx p < Z.max 1 (Z.of_nat n);
  pk_loops : _loops p = seq 1 n;
}.

Lemma started_ok n : pool_ok n (started (Z.of_nat n)).
Proof.
  unfold started, Create. cbn. destruct (Z.ltb_spec 0 (Z.of_nat n)).
  - split; cbn; [done|lia|]. by rewrite Nat2Z.id.
  - assert (n = 0%nat) as -> by lia. by split.
Qed.

(** The loop that the [k]-th call chooses, counted from the index [i]. *)
Lemma NextLoop_spec n p :
  (0 < n)%nat → pool_ok n p →
  ∃ p', NextLoop p = Ok (S ((Z.to_nat (_next_loop_idx p) + 1) mod n), p') ∧ pool_ok n p' ∧
    Z.to_nat (_next_loop_idx p') = ((Z.to_nat (_next_loop_idx p) + 1) mod n)%nat.
Proof.
  intros Hn [H1 H2 H3]. unfold NextLoop. rewrite H1. destruct (Z.eqb_spec (Z.of_nat n) 0); [lia|].
  cbn [_loops _thread_count _next_loop_idx].
  assert (Hrem : Z.rem (_next_loop_idx p + 1) (Z.of_nat n) = Z.of_nat ((Z.to_nat (_next_loop_idx p) + 1) mod n)).
  { rewrite Z.rem_mod_nonneg by lia. rewrite Nat2Z.inj_mod, Nat2Z.inj_add, Z2Nat.id by lia. done. }
  rewrite Hrem. rewrite (proj2 (Z.leb_le _ _)) by lia. rewrite Nat2Z.id, H3.
  assert ((Z.to_nat (_next_loop_idx p) + 1) mod n < n)%nat by (apply Nat.mod_upper_bound; lia).
  rewrite (lookup_seq_lt 1 n) by done. eexists. split; [reflexivity|]. split; [|cbn; by rewrite Nat2Z.id].
  split; cbn; [done|lia|done].
Qed.

Lemma NextLoops_spec n k p :
  (0 < n)%nat → pool_ok n p →
  ∃ p', NextLoops k p = Ok ((λ j, S ((Z.to_nat (_next_loop_idx p) + 1 + j) mod n)) <$> seq 0 k, p') ∧ pool_ok n p'.
Proof.
  intros Hn. revert p. induction k as [|k IH]; intros p Hp; [by exists p|].
  destruct (NextLoop_spec n p Hn Hp) as (p1 & H1 & Hp1 & Hi). destruct (IH p1 Hp1) as (p2 & H2 & Hp2).
  exists p2. split; [|done]. cbn [NextLoops]. rewrite H1. cbn [mbind res_bind]. rewrite H2. cbn [mbind res_bind].
  cbn [seq fmap list_fmap]. rewrite Nat.add_0_r. do 3 f_equal. rewrite <- fmap_S_seq, <- list_fmap_compose.
  apply list_fmap_ext. intros j x _. cbn. f_equal. rewrite Hi, <- Nat.add_assoc.
  rewrite Nat.Div0.add_mod_idemp_l. done.
Qed.

(** How often [l] occurs in a list of loops. *)
Definition uses (l : nat) (ls : list nat) : nat := length (filter (l =.) ls).

(** Among [k] consecutive numbers from [a], those congruent to [r] modulo [n]. *)
Lemma uses_window n a r k :
  (r < n)%nat →
  uses (S r) ((λ j, S ((a + j) mod n)) <$> seq 0 k) = ((a + k + (n - 1 - r)) / n - (a + (n - 1 - r)) / n)%nat.
Proof.
  intros Hr. induction k as [|k IH]; [cbn; rewrite Nat.add_0_r; lia|].
  rewrite seq_S, fmap_app. unfold uses in *. rewrite filter_app, length_app, IH. cbn [fmap list_fmap Nat.add].
  set (m := (a + k + (n - 1 - r))%nat). replace (a + S k + (n - 1 - r))%nat with (S m) by lia.
  assert (Hm : ((a + (n - 1 - r)) / n ≤ m / n)%nat) by (apply Nat.Div0.div_le_mono; lia).
  pose proof (Nat.div_mod_eq (a + k) n) as E0. pose proof (Nat.mod_upper_bound (a + k) n ltac:(lia)) as Hz.
  set (q := ((a + k) / n)%nat) in *. set (z := ((a + k) mod n)%nat) in *. destruct (decide (S r = S z)) as [E|E].
  - rewrite filter_cons_True by done. cbn.
    rewrite <- (Nat.div_unique m n q (n - 1)), <- (Nat.div_unique (S m) n (S q) 0) in * by (unfold m; nia). lia.
  - rewrite filter_cons_False by done. cbn. destruct (decide (z < r)%nat).
    + rewrite <- (Nat.div_unique m n q (z + (n - 1 - r))), <- (Nat.div_unique (S m) n q (z + (n - r))) in * by (unfold m; nia). lia.
    + rewrite <- (Nat.div_unique m n (S q) (z - r - 1)), <- (Nat.div_unique (S m) n (S q) (z - r)) in * by (unfold m; nia). lia.
Qed.

(** The loops are used evenly: once the server has started with [n] threads, any
    number [k] of new connections is spread over the [n] loops so that each gets
    [k / n] of them or one more; with no threads all go to the base loop. *)
Theorem pool_is_fair n k :
  ∃ ls p, NextLoops k (started (Z.of_nat n)) = Ok (ls, p) ∧ length ls = k ∧
    (n = 0%nat → ls = replicate k 0%nat) ∧
    ((0 < n)%nat → ∀ l, (1 ≤ l ≤ n)%nat → (k / n ≤ uses l ls ≤ k / n + 1)%nat) ∧
    ((0 < n)%nat → ∀ l, l ∈ ls → (1 ≤ l ≤ n)%nat).
Proof.
  destruct (decide (n = 0%nat)) as [->|Hn].
  { exists (replicate k 0%nat), (started 0). split; [|split; [by rewrite length_replicate|split; [done|lia]]].
    change (Z.of_nat 0) with 0. induction k as [|k IH]; [done|]. cbn [NextLoops].
    change (NextLoop (started 0)) with (Ok (0%nat, started 0)). cbn [mbind res_bind]. by rewrite IH. }
  destruct (NextLoops_spec n k _ ltac:(lia) (started_ok n)) as (p & Hk & _).
  eexists _, p. split; [exact Hk|]. split; [by rewrite length_fmap, length_seq|]. split; [lia|]. split.
  - intros _ [|r] Hl; [lia|]. rewrite uses_window by lia.
    set (a := (_ + 1)%nat). set (b := (a + (n - 1 - r))%nat). replace (a + k + (n - 1 - r))%nat with (b + k)%nat by lia.
    pose proof (Nat.div_mod_eq (b + k) n). pose proof (Nat.div_mod_eq b n). pose proof (Nat.div_mod_eq k n).
    pose proof (Nat.mod_upper_bound (b + k) n Hn). pose proof (Nat.mod_upper_bound b n Hn).
    pose proof (Nat.mod_upper_bound k n Hn).
    set (q1 := ((b + k) / n)%nat) in *. set (q2 := (b / n)%nat) in *. set (q3 := (k / n)%nat) in *. nia.
  - intros _ l. rewrite list_elem_of_fmap. intros (j & -> & _).
    pose proof (Nat.mod_upper_bound (Z.to_nat (_next_loop_idx (started (Z.of_nat n))) + 1 + j) n Hn). lia.
Qed.
End LoopThreadPool.
