(* ===== verification/TcpServer.v ===== *)
(** * The server of src/Reactor_http/source/server.hpp ([TcpServer])

    The server's table of connections, with the loops that run them and the tasks
    the threads queue for each other.  A loop is also the name of its thread; [0]
    is the base loop.  A step is one task, one round of events of a channel, or
    one critical section of a queue.  A connection is named by its [_conn_id]; it is
    freed once neither the table nor a queued [RemoveConnection] refers to it. *)

From S2P Require Import Prelude Buffer TimerWheel Connection EventLoop.
From stdpp Require Import functions.
From Stdlib Require Import Ascii.
Import EventLoop LoopThreadPool.

Open Scope Z_scope.

#[global] Instance logged_eq_dec : EqDecision logged.
Proof. solve_decision. Defined.

(** Tasks bound to a connection (as a raw [this]), for the removal to a
    [PtrConnection], and the call of [RunAfterInLoop]. *)
Inductive task := TConn (id : Z) (i : input) | TRemove (id : Z) | TAfter (delay : Z).

#[global] Instance recv_result_eq_dec : EqDecision recv_result.
Proof. solve_decision. Defined.
#[global] Instance send_result_eq_dec : EqDecision send_result.
Proof. solve_decision. Defined.
#[global] Instance input_eq_dec : EqDecision input.
Proof. solve_decision. Defined.
#[global] Instance task_eq_dec : EqDecision task.
Proof. solve_decision. Defined.

Section Server.
Context {W : Type} `{LoopTimers W}.
#[local] Abbreviation connection := (Connection (W := W)).
(** The user's callbacks: what a message makes of the input, and which calls
    the connected callback makes on the new connection. *)
Context (on_message : list ascii → list action) (on_connected : Z → list input).

Record TcpServer := mkServer {
  _conn_id : Z;
  _server_inactive : bool;      (** [_enable_inactive_release] *)
  _timeout : Z;
  _pool : LoopThreadPool;
  _conns : gset Z;
  objs : gmap Z (nat * connection);   (** live connections with their [_loop] *)
  loops : nat → EventLoop task;
  wheels : nat → W;             (** the timers of each loop *)
  owner : gmap Z nat;           (** the loop each connection was made for *)
  accesses : list (nat * Z);    (** which thread ran functions of which connection *)
}.

Definition new_server (n : nat) (inactive : bool) (timeout : Z) (w : W) : TcpServer :=
  mkServer 0 inactive timeout (started (Z.of_nat n)) ∅ ∅ (λ _, new_loop) (λ _, w) ∅ [].

Definition set_loop (l : nat) (lp : EventLoop task) (s : TcpServer) : TcpServer :=
  mkServer (_conn_id s) (_server_inactive s) (_timeout s) (_pool s) (_conns s) (objs s) (<[l := lp]> (loops s)) (wheels s) (owner s) (accesses s).
Definition set_conns (x : gset Z) (s : TcpServer) : TcpServer :=
  mkServer (_conn_id s) (_server_inactive s) (_timeout s) (_pool s) x (objs s) (loops s) (wheels s) (owner s) (accesses s).
Definition set_objs (x : gmap Z (nat * connection)) (s : TcpServer) : TcpServer :=
  mkServer (_conn_id s) (_server_inactive s) (_timeout s) (_pool s) (_conns s) x (loops s) (wheels s) (owner s) (accesses s).
(** A function of connection [id] has run on thread [self] and left [c]. *)
Definition store (self : nat) (id : Z) (l : nat) (c : connection) (s : TcpServer) : TcpServer :=
  mkServer (_conn_id s) (_server_inactive s) (_timeout s) (_pool s) (_conns s) (<[id := (l, c)]> (objs s)) (loops s)
    (<[l := timers c]> (wheels s)) (owner s) (accesses s ++ [(self, id)]).

Definition queue (l : nat) (t : task) (s : TcpServer) : TcpServer := set_loop l (QueueInLoop t (loops s l)) s.
(** [EventLoop::RunInLoop] on thread [self]: [now] is the call of [t]. *)
Definition RunInLoop (self l : nat) (t : task) (now : TcpServer → res TcpServer) (s : TcpServer) : res TcpServer :=
  if decide (self = l) then now s else Ok (queue l t s).

(** [conn->Id()] is an [int], which [find] converts back. *)
Definition RemoveConnectionInLoop (id : Z) (s : TcpServer) : res TcpServer :=
  match objs s !! id with
  | None => Err DanglingPtr
  | Some _ => Ok (set_conns (_conns s ∖ {[u64 (to_int32 id)]}) s)
  end.
Definition RemoveConnection (self : nat) (id : Z) (s : TcpServer) : res TcpServer :=
  RunInLoop self 0 (TRemove id) (RemoveConnectionInLoop id) s.
Fixpoint RemoveConnections (n : nat) (self : nat) (id : Z) (s : TcpServer) : res TcpServer :=
  match n with O => Ok s | S n => s ← RemoveConnection self id s; RemoveConnections n self id s end.

(** How often [_server_closed_callbck] was called between two states of a connection. *)
Definition closings (c c' : connection) : nat :=
  length (filter (LServerClosed =.) (drop (length (log c)) (log c'))).

(** A function of a connection, on the timers of its loop. *)
Definition conn_call (self : nat) (id : Z) (i : input) (s : TcpServer) : res TcpServer :=
  match objs s !! id with
  | None => Err DanglingPtr
  | Some (l, c) =>
      c' ← do_input id on_message i (set_timers (wheels s l) c);
      RemoveConnections (closings c c') self id (store self id l c' s)
  end.
Fixpoint conn_calls (self : nat) (id : Z) (ins : list input) (s : TcpServer) : res TcpServer :=
  match ins with [] => Ok s | i :: ins => s ← conn_call self id i s; conn_calls self id ins s end.

(** [EsTablishedInLoop], with the connected callback. *)
Definition established (self : nat) (id : Z) (s : TcpServer) : res TcpServer :=
  s ← conn_call self id IEstablished s; conn_calls self id (on_connected id) s.

(** [RunAfterInLoop]: the delay, an [int], becomes a [uint32_t]; [TimerAdd] runs at once in the
    base loop. *)
Definition RunAfterInLoop (delay : Z) (s : TcpServer) : res TcpServer :=
  let id := u64 (_conn_id s + 1) in
  w ← add_timer id (u32 delay) (wheels s 0%nat);
  Ok (mkServer id (_server_inactive s) (_timeout s) (_pool s) (_conns s) (objs s) (loops s) (<[0%nat := w]> (wheels s)) (owner s) (accesses s)).
Definition RunAfter (self : nat) (delay : Z) (s : TcpServer) : res TcpServer :=
  RunInLoop self 0 (TAfter delay) (RunAfterInLoop delay) s.

Definition run_task (self : nat) (t : task) (s : TcpServer) : res TcpServer :=
  match t with
  | TConn id IEstablished => established self id s
  | TConn id i => conn_call self id i s
  | TRemove id => RemoveConnectionInLoop id s
  | TAfter delay => RunAfterInLoop delay s
  end.

(** [NewConnection], on the thread of the base loop. *)
Definition NewConnection (s : TcpServer) : res TcpServer :=
  let id := u64 (_conn_id s + 1) in
  '(l, pool) ← NextLoop (_pool s);
  let s := mkServer id (_server_inactive s) (_timeout s) pool (_conns s)
             (<[id := (l, new_Connection (wheels s l))]> (objs s)) (loops s) (wheels s)
             (<[id := l]> (owner s)) (accesses s) in
  s ← (if _server_inactive s
       then RunInLoop 0 l (TConn id (IEnableInactive (_timeout s))) (conn_call 0 id (IEnableInactive (_timeout s))) s
       else Ok s);
  s ← RunInLoop 0 l (TConn id IEstablished) (established 0 id) s;
  Ok (set_conns ({[id]} ∪ _conns s) s).

(** [RunAllTask] of loop [l] without interruption. *)
Fixpoint run_tasks (n : nat) (l : nat) (s : TcpServer) : res TcpServer :=
  match n with
  | O => Ok s
  | S n =>
      match next_task (loops s l) with
      | None => Ok s
      | Some (t, lp) => s ← run_task l t (set_loop l lp s); run_tasks n l s
      end
  end.
Definition RunAllTask (l : nat) (s : TcpServer) : res TcpServer :=
  run_tasks (length (_tasks (loops s l))) l (set_loop l (swap_tasks (loops s l)) s).

(** ** Steps of the threads *)
Definition public_call (i : input) : Prop :=
  match i with ISend _ | IShutdown | IEnableInactive _ | ICancelInactive => True | _ => False end.

Definition delay_ok (d : Z) : Prop := 0 ≤ d < 2 ^ 31 - 60.

Definition pending (s : TcpServer) (l : nat) : list task := functor (loops s l) ++ _tasks (loops s l).

(** The threads in any order.  The wheel of a loop does not tick here: the timer of a
    connection with an inactivity limit may run out at any time, which includes the times at
    which the wheel would run it out ([TimerWheel] says which), and the user's task of a
    [RunAfter], which gets its timer, is not followed further.  [_conn_id] is a [uint64_t], but [RemoveConnectionInLoop] takes
    it as an [int]: the steps stop where the next id would not fit one ([big_id_stays] is what
    happens there). *)
Inductive server_step : TcpServer → TcpServer → Prop :=
  | StepAccept s s' :           (** the listening socket is readable; ids fit an [int] *)
      functor (loops s 0%nat) = [] → _conn_id s + 1 < 2 ^ 31 → NewConnection s = Ok s' → server_step s s'
  | StepEvent l id c revents r w s s' :     (** [Channel::HandleEvent] in [Start] *)
      functor (loops s l) = [] → objs s !! id = Some (l, c) → watched c = true →
      conn_calls l id (input_of r w <$> HandleEvent revents) s = Ok s' → server_step s s'
  | StepTimeout l id c s s' :   (** the inactivity timer *)
      functor (loops s l) = [] → objs s !! id = Some (l, c) → _enable_inactive_release c = true →
      conn_call l id ITimeout s = Ok s' → server_step s s'
  | StepSwap l s :              (** [RunAllTask] takes the queue *)
      functor (loops s l) = [] → server_step s (set_loop l (swap_tasks (loops s l)) s)
  | StepTask l t lp s s' :      (** and runs one task *)
      next_task (loops s l) = Some (t, lp) → _conn_id s + 1 < 2 ^ 31 →
      run_task l t (set_loop l lp s) = Ok s' → server_step s s'
  | StepUser id l c i s :       (** a call from any other thread *)
      objs s !! id = Some (l, c) → public_call i → server_step s (queue l (TConn id i) s)
  | StepAfter self d s s' :     (** [RunAfter], also in the base loop itself *)
      delay_ok d → _conn_id s + 1 < 2 ^ 31 → (self = 0%nat → functor (loops s 0%nat) = []) →
      RunAfter self d s = Ok s' → server_step s s'
  | StepFree id s :             (** the last reference is gone *)
      id ∉ _conns s → TRemove id ∉ pending s 0 → server_step s (set_objs (delete id (objs s)) s).

(** ** The log of a connection only grows *)
Definition grows (m : connection → res (connection)) : Prop :=
  ∀ c c', m c = Ok c' → log c `prefix_of` log c'.

Lemma grows_ret f : (∀ c, log c `prefix_of` log (f c)) → grows (λ c, Ok (f c)).
Proof. intros Hf c c' [= <-]. apply Hf. Qed.
Lemma grows_bind m k : grows m → grows k → grows (λ c, c ← m c; k c).
Proof.
  intros Hm Hk c c'. cbn. destruct (m c) as [c1|] eqn:E; [|done]. cbn. intros Hc.
  etrans; [by apply Hm|by apply Hk].
Qed.
Lemma grows_before f k : (∀ c, log c `prefix_of` log (f c)) → grows k → grows (λ c, k (f c)).
Proof. intros Hf Hk c c' Hc. etrans; [apply Hf|by apply Hk]. Qed.
Lemma grows_if (b : connection → bool) m k : grows m → grows k → grows (λ c, if b c then m c else k c).
Proof. intros Hm Hk c c'. destruct (b c); [apply Hm|apply Hk]. Qed.
Lemma log_note e (c : connection) : log c `prefix_of` log (note e c).
Proof. by apply prefix_app_r. Qed.
Lemma on_out_log {A} (m : M Buffer A) (c : connection) a c' : on_out m c = Ok (a, c') → log c' = log c.
Proof. unfold on_out. destruct (m (_out_buffer c)) as [[? ?]|]; [|done]. by intros [= _ <-]. Qed.
Lemma on_in_log {A} (m : M Buffer A) (c : connection) a c' : on_in m c = Ok (a, c') → log c' = log c.
Proof. unfold on_in. destruct (m (_in_buffer c)) as [[? ?]|]; [|done]. by intros [= _ <-]. Qed.
Lemma on_timers_grows f : grows (on_timers f).
Proof. intros c c'. unfold on_timers. destruct (f (timers c)); [|done]. by intros [= <-]. Qed.

Lemma grows_send d : grows (Send d).
Proof.
  intros c c'. unfold Send. destruct (WriteAndPush d new_Buffer) as [[? buf]|]; [|done]. unfold SendInLoop.
  case_decide; [by intros [= <-]|]. destruct (on_out _ c) as [[? c1]|] eqn:E; [|done]. apply on_out_log in E. cbn.
  destruct (WriteAble _); intros [= <-]; cbn; rewrite E; by apply prefix_app_r.
Qed.
Lemma grows_cancel id : grows (CancelInactiveReleaseInLoop id).
Proof.
  apply (grows_before (set_inactive false) (λ c, if has_timer id (timers c) then on_timers (cancel_timer id) c else Ok c));
    [done|]. intros c c'. destruct (has_timer _ _); [apply on_timers_grows|by intros [= <-]].
Qed.
Lemma grows_release id : grows (ReleaseInLoop id).
Proof.
  apply (grows_before (λ c, set_sock false (ChannelRemove (set_statu DISCONNECTED c)))
    (λ c, c ← (if has_timer id (timers c) then CancelInactiveReleaseInLoop id c else Ok c);
          Ok (note LServerClosed (note LClosed c)))); [done|].
  apply (grows_bind (λ c, if has_timer id (timers c) then CancelInactiveReleaseInLoop id c else Ok c)).
  - intros c c'. destruct (has_timer _ _); [apply grows_cancel|by intros [= <-]].
  - apply (grows_ret (λ c, note LServerClosed (note LClosed c))). intros c. etrans; apply log_note.
Qed.
Lemma grows_shutdown_with id f : grows f → grows (shutdown_with id f).
Proof.
  intros Hf. apply (grows_bind (λ c, f (set_statu DISCONNECTING c))); [by apply (grows_before (set_statu DISCONNECTING)); [intros c; exists []; by rewrite app_nil_r|]|].
  intros c1 c'. cbv zeta.
  assert (Hfin : ∀ c2, log c2 = log c1 →
    (if ReadAbleSize (_out_buffer c2) =? 0 then ReleaseInLoop id c2 else Ok c2) = Ok c' → log c1 `prefix_of` log c').
  { intros c2 <-. destruct (_ =? 0); [apply grows_release|by intros [= <-]]. }
  destruct (0 <? _); [destruct (WriteAble c1)|]; by apply Hfin.
Qed.
Lemma grows_actions f acts : grows f → grows (do_actions f acts).
Proof.
  intros Hf. induction acts as [|[n|d|] acts IH]; [by apply grows_ret| | |].
  - intros c c'. cbn [do_actions]. cbv zeta. destruct (on_in _ c) as [[? c1]|] eqn:E; [|done]. apply on_in_log in E. cbn [mbind res_bind].
    intros Hc%IH. etrans; [|exact Hc]. cbn. rewrite E. by apply prefix_app_r.
  - apply (grows_bind (Send d)); [apply grows_send|exact IH].
  - by apply (grows_bind f).
Qed.
Lemma grows_callback id fuel : grows (message_callback_at id on_message fuel).
Proof.
  induction fuel as [|fuel IH]; intros c c'; [done|]. apply grows_actions, grows_shutdown_with, grows_if; [exact IH|by apply grows_ret].
Qed.
Lemma grows_deliver id : grows (deliver id on_message).
Proof. intros c c'. unfold deliver. destruct (0 <? _); [apply grows_callback|by intros [= <-]]. Qed.
Lemma grows_shutdown id : grows (ShutdownInLoop id on_message).
Proof. apply grows_shutdown_with, grows_deliver. Qed.

Lemma grows_close id : grows (HandleClose id on_message).
Proof. apply (grows_bind (deliver id on_message)); [apply grows_deliver|apply grows_release]. Qed.
Lemma grows_read id r : grows (HandleRead id on_message r).
Proof.
  intros c c'. unfold HandleRead. destruct (recv_ret r c) as [buf|]; [|apply grows_shutdown].
  destruct (on_in _ c) as [[? c1]|] eqn:E; [|done]. apply on_in_log in E. cbn.
  intros Hd%grows_deliver. etrans; [|exact Hd]. cbn. rewrite E. by apply prefix_app_r.
Qed.
Lemma grows_write id r : grows (HandleWrite id on_message r).
Proof.
  intros c c'. unfold HandleWrite. destruct (send_ret r c) as [n|]; [|apply grows_close].
  destruct (on_out _ c) as [[? c1]|] eqn:E; [|done]. apply on_out_log in E. cbn [mbind res_bind].
  set (d := LSent _). assert (Hp : log c `prefix_of` log (note d c1)) by (cbn; rewrite E; by apply prefix_app_r).
  destruct (_ =? 0); [|by intros [= <-]]. case_decide; [|by intros [= <-]].
  intros Hr%grows_release. etrans; [exact Hp|exact Hr].
Qed.

Lemma do_input_grows id i : grows (do_input id on_message i).
Proof.
  destruct i as [|d| |r|r| | | |sec| |]; cbn [do_input].
  - intros c c'. cbn [do_input]. unfold EsTablishedInLoop. destruct (bool_decide (_statu c = CONNECTING)); cbn [assert_res mbind res_bind]; [intros [= <-]; exact (log_note LConnected (EnableRead (set_statu CONNECTED c)))|intros [=]].
  - apply grows_send.
  - apply grows_shutdown.
  - apply grows_read.
  - apply grows_write.
  - apply grows_close.
  - apply grows_close.
  - intros c c'. cbn [do_input]. unfold AnyEvent. destruct (_enable_inactive_release c); [apply on_timers_grows|by intros [= <-]].
  - apply (grows_before (set_inactive true) (λ c, if has_timer id (timers c) then on_timers (refresh_timer id) c
      else on_timers (add_timer id sec) c)); [done|]. intros c c'. destruct (has_timer _ _); apply on_timers_grows.
  - apply grows_cancel.
  - apply grows_release.
Qed.

(** A connection is released when its server-closed callback has been called. *)
Definition released (c : connection) : Prop := LServerClosed ∈ log c.
#[export] Instance released_dec c : Decision (released c) := decide (LServerClosed ∈ log c).

Lemma closings_spec (c c' : connection) :
  log c `prefix_of` log c' →
  (released c → released c') ∧ ((0 < closings c c')%nat → released c') ∧
  (released c' → ¬ released c → (0 < closings c c')%nat).
Proof.
  unfold released, closings. intros [e ->]. rewrite drop_app_length. split; [set_solver|]. split.
  - intros Hl. destruct (filter (LServerClosed =.) e) as [|x f] eqn:E; [cbn in Hl; lia|].
    assert (x ∈ filter (LServerClosed =.) e) as [<- Hx]%list_elem_of_filter by (rewrite E; by left).
    apply elem_of_app. by right.
  - intros [?|He]%elem_of_app Hn; [done|].
    assert (LServerClosed ∈ filter (LServerClosed =.) e) as Hf by (by apply list_elem_of_filter).
    destruct (filter _ e); [by apply not_elem_of_nil in Hf|]. cbn. lia.
Qed.

(** ** The invariant of the server *)
Record srv_inv (s : TcpServer) : Prop := {
  si_pool : ∃ n, (0 < n)%nat ∧ pool_ok n (_pool s);
  si_id : 0 ≤ _conn_id s < 2 ^ 31;
  si_own : ∀ id l c, objs s !! id = Some (l, c) → owner s !! id = Some l;
  si_owner : ∀ id l, owner s !! id = Some l → 0 < id ≤ _conn_id s ∧ l ≠ 0%nat;
  si_conns : ∀ id, id ∈ _conns s → is_Some (objs s !! id);
  si_live : ∀ id l c, objs s !! id = Some (l, c) → ¬ released c → id ∈ _conns s;
  si_gone : ∀ id l c, objs s !! id = Some (l, c) → released c → id ∈ _conns s → TRemove id ∈ pending s 0;
  si_remove : ∀ l id, TRemove id ∈ pending s l → l = 0%nat ∧ ∃ m c, objs s !! id = Some (m, c) ∧ released c;
  si_task : ∀ l id i, TConn id i ∈ pending s l → owner s !! id = Some l;
  si_access : ∀ t id, (t, id) ∈ accesses s → owner s !! id = Some t;
  si_queues : ∀ l, loop_inv (loops s l);
  si_after : ∀ l d, TAfter d ∈ pending s l → l = 0%nat ∧ delay_ok d;
  si_timers : timers_ok (wheels s 0%nat);
  si_timer_ids : ∀ i, has_timer i (wheels s 0%nat) = true → i ≤ _conn_id s ∧ owner s !! i = None;
}.

Lemma pending_set_loop l lp s m : pending (set_loop l lp s) m = if decide (l = m) then functor lp ++ _tasks lp else pending s m.
Proof. unfold pending. cbn. unfold insert, fn_insert. by case_decide. Qed.

Lemma pending_queue l t s m : pending (queue l t s) m = if decide (l = m) then pending s m ++ [t] else pending s m.
Proof.
  unfold queue. rewrite pending_set_loop. case_decide; [|done]. subst m. cbn. by rewrite app_assoc.
Qed.

Lemma loops_inv_set l lp s : (∀ m, loop_inv (loops s m)) → loop_inv lp → ∀ m, loop_inv (loops (set_loop l lp s) m).
Proof. intros Hs Hl m. cbn. unfold insert, fn_insert. by case_decide. Qed.

(** Removals asked for by another thread wait in the base loop. *)
Lemma RemoveConnections_spec n self id s :
  self ≠ 0%nat →
  ∃ s', RemoveConnections n self id s = Ok s' ∧
    s' = mkServer (_conn_id s) (_server_inactive s) (_timeout s) (_pool s) (_conns s) (objs s) (loops s') (wheels s) (owner s) (accesses s) ∧
    (∀ l, pending s' l = pending s l ++ (if decide (l = 0%nat) then replicate n (TRemove id) else [])) ∧
    ((∀ m, loop_inv (loops s m)) → ∀ m, loop_inv (loops s' m)).
Proof.
  intros Hs. revert s. induction n as [|n IH]; intros s.
  { exists s. split; [done|]. split; [by destruct s|]. split; [|done]. intros l. case_decide; by rewrite app_nil_r. }
  cbn [RemoveConnections]. unfold RemoveConnection, RunInLoop. rewrite decide_False by done. cbn [mbind res_bind].
  destruct (IH (queue 0 (TRemove id) s)) as (s' & H1 & H2 & H3 & H4). exists s'. split; [done|]. split; [exact H2|]. split.
  - intros l. rewrite H3, pending_queue. destruct (decide (l = 0%nat)) as [->|]; [|by rewrite decide_False by done].
    rewrite decide_True by done. by rewrite <- app_assoc.
  - intros Hq. apply H4. apply loops_inv_set; [done|]. by apply loop_inv_queue.
Qed.

(** What a function of connection [id], run on its own thread, changes. *)
Lemma conn_call_spec self id i s s' l c :
  objs s !! id = Some (l, c) → self ≠ 0%nat → conn_call self id i s = Ok s' →
  ∃ c' k, log c `prefix_of` log c' ∧ k = closings c c' ∧
    _conn_id s' = _conn_id s ∧ _pool s' = _pool s ∧ _conns s' = _conns s ∧ owner s' = owner s ∧
    objs s' = <[id := (l, c')]> (objs s) ∧ accesses s' = accesses s ++ [(self, id)] ∧
    (∀ m, pending s' m = pending s m ++ (if decide (m = 0%nat) then replicate k (TRemove id) else [])) ∧
    ((∀ m, loop_inv (loops s m)) → ∀ m, loop_inv (loops s' m)) ∧ wheels s' = <[l := timers c']> (wheels s).
Proof.
  intros Hc Hs. unfold conn_call. rewrite Hc. destruct (do_input _ _ _ _) as [c'|] eqn:E; [|done].
  apply do_input_grows in E. cbn [mbind res_bind]. intros Hr.
  destruct (RemoveConnections_spec (closings c c') self id (store self id l c' s) Hs) as (s1 & H1 & H2 & H3 & H4).
  assert (s1 = s') as -> by congruence. exists c', (closings c c'). rewrite H2. by repeat split.
Qed.

Lemma srv_inv_call self id i s s' l c :
  srv_inv s → objs s !! id = Some (l, c) → self = l → conn_call self id i s = Ok s' →
  srv_inv s' ∧ ∃ c', objs s' !! id = Some (l, c').
Proof.
  intros HI Hc -> Hcall. pose proof HI as [Hp Hid Hown Hown' Hcs Hlive Hgone Hrem Htask Hacc Hq Haft Htm Htid].
  pose proof (Hown _ _ _ Hc) as Ho. destruct (Hown' _ _ Ho) as [_ Hl0].
  destruct (conn_call_spec _ _ _ _ _ _ _ Hc Hl0 Hcall) as (c' & k & Hlog & -> & E1 & E2 & E3 & E4 & E5 & E6 & E7 & E8 & E9).
  destruct (closings_spec _ _ Hlog) as (Hmono & Hnew & Hclos).
  assert (Hobj : ∀ id' m d, objs s' !! id' = Some (m, d) →
    id' = id ∧ m = l ∧ d = c' ∨ id' ≠ id ∧ objs s !! id' = Some (m, d)).
  { intros id' m d. rewrite E5, lookup_insert_Some. naive_solver. }
  assert (Hpend : ∀ m x, x ∈ pending s' m ↔ x ∈ pending s m ∨ m = 0%nat ∧ x = TRemove id ∧ (0 < closings c c')%nat).
  { intros m x. rewrite E7, elem_of_app. case_decide; [rewrite elem_of_replicate|set_solver].
    split; [intros [?|[-> ?]]; [by left|right; split; [done|split; [done|lia]]]|intros [?|(_ & -> & ?)]; [by left|right; split; [done|lia]]]. }
  split; [|exists c'; by rewrite E5, lookup_insert_eq].
  assert (Ew : wheels s' 0%nat = wheels s 0%nat) by (rewrite E9; by apply fn_lookup_insert_ne).
  split; rewrite ?E1, ?E2, ?E3, ?E4, ?Ew; try done.
  - intros id' m d [(-> & -> & ->)|[_ ?]]%Hobj; [done|by eapply Hown].
  - intros id' ?%Hcs. rewrite E5, lookup_insert_is_Some. destruct (decide (id = id')); auto.
  - intros id' m d [(-> & -> & ->)|[_ Hd]]%Hobj Hn; [|by eapply Hlive].
    eapply Hlive; [exact Hc|]. auto.
  - intros id' m d Hd Hr Hin. apply Hpend. apply Hobj in Hd as [(-> & -> & ->)|[_ Hd]]; [|left; by eapply Hgone].
    destruct (decide (released c)); [left; by eapply Hgone|]. right. split; [done|]. split; [done|]. by apply Hclos.
  - intros m id' [Hm|(-> & [= ->] & Hk)]%Hpend.
    + destruct (Hrem _ _ Hm) as (-> & m' & d & Hd & Hr). split; [done|]. rewrite E5.
      destruct (decide (id = id')) as [<-|Hne]; [|exists m', d; by rewrite lookup_insert_ne].
      exists l, c'. rewrite lookup_insert_eq. split; [done|]. apply Hmono. by simplify_eq.
    + split; [done|]. exists l, c'. rewrite E5, lookup_insert_eq. split; [done|]. by apply Hnew.
  - intros m id' j [Hm|(_ & [=] & _)]%Hpend. by eapply Htask.
  - rewrite E6. intros t id' [?|Hx]%elem_of_app; [by apply Hacc|]. apply list_elem_of_singleton in Hx. by simplify_eq.
  - by apply E8.
  - intros m d [Hm|(_ & [=] & _)]%Hpend. by apply Haft.
Qed.

Lemma srv_inv_calls l id ins s s' c :
  srv_inv s → objs s !! id = Some (l, c) → conn_calls l id ins s = Ok s' →
  srv_inv s' ∧ ∃ c', objs s' !! id = Some (l, c').
Proof.
  revert s c. induction ins as [|i ins IH]; intros s c HI Hc; cbn [conn_calls]; [intros [= <-]; eauto|].
  destruct (conn_call l id i s) as [s1|] eqn:E; [|done]. cbn [mbind res_bind]. intros Hs.
  destruct (srv_inv_call _ _ _ _ _ _ _ HI Hc eq_refl E) as [HI1 [c1 Hc1]]. by eapply IH.
Qed.

Lemma srv_inv_established l id s s' c :
  srv_inv s → objs s !! id = Some (l, c) → established l id s = Ok s' → srv_inv s'.
Proof.
  intros HI Hc. unfold established. destruct (conn_call l id IEstablished s) as [s1|] eqn:E; [|done]. cbn [mbind res_bind].
  destruct (srv_inv_call _ _ _ _ _ _ _ HI Hc eq_refl E) as [HI1 [c1 Hc1]]. intros Hs.
  by destruct (srv_inv_calls _ _ _ _ _ _ HI1 Hc1 Hs).
Qed.

(** Replacing the queue of one loop by one with fewer tasks, where a removal is
    dropped only if its connection has left the table. *)
Lemma srv_inv_set_loop l lp s x :
  srv_inv s → loop_inv lp → (∀ y, y ∈ functor lp ++ _tasks lp → y ∈ pending s l) → x ⊆ _conns s →
  (∀ id m c, objs s !! id = Some (m, c) → ¬ released c → id ∈ x) →
  (∀ id, TRemove id ∈ pending s l → TRemove id ∈ functor lp ++ _tasks lp ∨ id ∉ x) →
  srv_inv (set_conns x (set_loop l lp s)).
Proof.
  intros [Hp Hid Hown Hown' Hcs Hlive Hgone Hrem Htask Hacc Hq Haft Htm Htid] Hlp Hsub Hx Hl Hr.
  assert (Hpend : ∀ m y, y ∈ pending (set_conns x (set_loop l lp s)) m → y ∈ pending s m).
  { intros m y. change (pending (set_conns x (set_loop l lp s)) m) with (pending (set_loop l lp s) m).
    rewrite pending_set_loop. case_decide; subst; auto. }
  split; try done.
  - intros id Hi. apply Hcs. by apply Hx.
  - cbn. intros id m c Hc Hrc Hi. pose proof (Hgone _ _ _ Hc Hrc (Hx _ Hi)) as H0.
    change (TRemove id ∈ pending (set_loop l lp s) 0). rewrite pending_set_loop.
    case_decide; [subst|done]. by destruct (Hr _ H0).
  - intros m id Hm%Hpend. by apply Hrem.
  - intros m id i Hm%Hpend. by eapply Htask.
  - by apply (loops_inv_set l lp s).
  - intros m d Hm%Hpend. by apply Haft.
Qed.

Lemma srv_inv_next l t lp s :
  srv_inv s → next_task (loops s l) = Some (t, lp) → (∀ id, t ≠ TRemove id) →
  srv_inv (set_loop l lp s) ∧ t ∈ pending s l.
Proof.
  intros HI Hn Ht. pose proof (si_queues _ HI l) as Hq. pose proof (loop_inv_next _ _ _ Hq Hn) as Hlp.
  unfold next_task in Hn. unfold pending. destruct (functor (loops s l)) as [|f fs] eqn:E; [done|]. simplify_eq.
  split; [|by left]. replace (set_loop _ _ s) with (set_conns (_conns s) (set_loop l (mkLoop (_tasks (loops s l)) fs (queued (loops s l)) (ran (loops s l) ++ [t])) s)) by done.
  apply srv_inv_set_loop; [done|done| |done|apply HI|]; unfold pending; rewrite E; cbn.
  - intros y Hy. by right.
  - intros id [Heq|?]%elem_of_cons; [by destruct (Ht id)|by left].
Qed.

Lemma id_round_trip id : 0 ≤ id < 2 ^ 31 → u64 (to_int32 id) = id.
Proof. intros. rewrite to_int32_small, u64_small; lia. Qed.

(** A queued removal, run by the base loop. *)
Lemma srv_inv_remove l id lp s s' :
  srv_inv s → next_task (loops s l) = Some (TRemove id, lp) →
  RemoveConnectionInLoop id (set_loop l lp s) = Ok s' → srv_inv s' ∧ _conns s' = _conns s ∖ {[id]} ∧ objs s' = objs s.
Proof.
  intros HI Hn. pose proof (si_queues _ HI l) as Hq. pose proof (loop_inv_next _ _ _ Hq Hn) as Hlp.
  assert (Hin : TRemove id ∈ pending s l).
  { unfold next_task in Hn. unfold pending. destruct (functor (loops s l)); simplify_eq. by left. }
  destruct (si_remove _ HI _ _ Hin) as (-> & m & c & Hc & Hrc).
  destruct (si_owner _ HI _ _ (si_own _ HI _ _ _ Hc)) as [Hrange _]. pose proof (si_id _ HI).
  unfold RemoveConnectionInLoop. cbn [set_loop objs]. rewrite Hc, id_round_trip by lia.
  intros [= <-]. split; [|done]. apply srv_inv_set_loop; [done|done| |cbn; set_solver| |];
    unfold next_task in Hn; destruct (functor (loops s 0%nat)) as [|f fs] eqn:E; simplify_eq; unfold pending; rewrite ?E; cbn.
  - intros y Hy. by right.
  - intros id' m' c' Hc' Hn'. apply elem_of_difference. split; [by eapply (si_live _ HI)|]. intros ->%elem_of_singleton.
    by simplify_eq.
  - intros id' [[= ->]|?]%elem_of_cons; [right; set_solver|by left].
Qed.

Lemma srv_inv_queue l t s id i :
  srv_inv s → t = TConn id i ∧ owner s !! id = Some l ∨ (∃ d, t = TAfter d ∧ delay_ok d ∧ l = 0%nat) → srv_inv (queue l t s).
Proof.
  intros [Hp Hid Hown Hown' Hcs Hlive Hgone Hrem Htask Hacc Hq Haft Htm Htid] Ht. split; try done.
  - intros id' m c Hc Hr Hi. rewrite pending_queue. specialize (Hgone _ _ _ Hc Hr Hi).
    case_decide; [apply elem_of_app; by left|done].
  - intros m id'. rewrite pending_queue. case_decide; [|by apply Hrem].
    intros [Hm|Hx]%elem_of_app; [by apply Hrem|]. apply list_elem_of_singleton in Hx as <-. by destruct Ht as [[? _]|(? & ? & _)].
  - intros m id' j. rewrite pending_queue. case_decide; [|by apply Htask]. subst m.
    intros [Hm|Hx]%elem_of_app; [by eapply Htask|]. apply list_elem_of_singleton in Hx as <-.
    by destruct Ht as [[[= -> ->] ?]|(? & ? & _)].
  - apply loops_inv_set; [done|]. by apply loop_inv_queue.
  - intros m d. rewrite pending_queue. case_decide; [|by apply Haft]. subst m.
    intros [Hm|Hx]%elem_of_app; [by apply Haft|]. apply list_elem_of_singleton in Hx as <-.
    by destruct Ht as [[? _]|(? & [= ->] & ? & ->)].
Qed.

(** A new connection, before anything is queued for it, in the table. *)
Lemma srv_inv_new s n l pool :
  srv_inv s → _conn_id s + 1 < 2 ^ 31 → (0 < n)%nat → pool_ok n pool → l ≠ 0%nat →
  srv_inv (mkServer (_conn_id s + 1) (_server_inactive s) (_timeout s) pool ({[_conn_id s + 1]} ∪ _conns s)
    (<[_conn_id s + 1 := (l, new_Connection (wheels s l))]> (objs s)) (loops s) (wheels s)
    (<[_conn_id s + 1 := l]> (owner s)) (accesses s)).
Proof.
  intros [Hp Hid Hown Hown' Hcs Hlive Hgone Hrem Htask Hacc Hq Haft Htm Htid] Hb Hn Hpool Hl.
  set (id := _conn_id s + 1) in *.
  assert (Hfresh : owner s !! id = None).
  { destruct (owner s !! id) eqn:E; [|done]. apply Hown' in E. lia. }
  assert (Hfresh' : objs s !! id = None).
  { destruct (objs s !! id) as [[m c]|] eqn:E; [|done]. apply Hown in E. congruence. }
  assert (Hkeep : ∀ id' m, owner s !! id' = Some m → <[id := l]> (owner s) !! id' = Some m).
  { intros id' m Ho. rewrite lookup_insert_ne; [done|]. congruence. }
  split; cbn; try done.
  - eauto.
  - lia.
  - intros id' m c. rewrite lookup_insert_Some. intros [[<- [= <- <-]]|[_ Hc]]; [by rewrite lookup_insert_eq|].
    eapply Hkeep, Hown, Hc.
  - intros id' m. rewrite lookup_insert_Some. intros [[<- <-]|[_ Ho]]; [split; [lia|done]|].
    destruct (Hown' _ _ Ho). split; [lia|done].
  - intros id' [->%elem_of_singleton|Hi]%elem_of_union; [by rewrite lookup_insert_eq|].
    rewrite lookup_insert_is_Some. destruct (decide (id = id')); auto.
  - intros id' m c. rewrite lookup_insert_Some. intros [[<- [= <- <-]]|[_ Hc]] Hr; [set_solver|].
    apply elem_of_union. right. by eapply Hlive.
  - intros id' m c. rewrite lookup_insert_Some. intros [[<- [= <- <-]]|[Hne Hc]] Hr; [by apply not_elem_of_nil in Hr|].
    intros [->%elem_of_singleton|Hi]%elem_of_union; [done|]. by eapply Hgone.
  - intros m id' Hm. destruct (Hrem _ _ Hm) as (-> & m' & c & Hc & Hr). split; [done|]. exists m', c.
    rewrite lookup_insert_ne; [done|]. congruence.
  - intros m id' i Hm. eapply Hkeep, Htask, Hm.
  - intros t id' Hm. eapply Hkeep, Hacc, Hm.
  - intros i Hi. destruct (Htid i Hi) as [H1 H2]. split; [lia|]. rewrite lookup_insert_ne by lia. done.
Qed.

Lemma NewConnection_inv s s' :
  srv_inv s → _conn_id s + 1 < 2 ^ 31 → NewConnection s = Ok s' → srv_inv s'.
Proof.
  intros HI Hb. destruct (si_pool _ HI) as (n & Hn & Hp). pose proof (si_id _ HI) as Hid.
  destruct (NextLoop_spec n _ Hn Hp) as (p' & Hnext & Hp' & _). unfold NewConnection. rewrite Hnext.
  rewrite u64_small by lia. set (l := S _) in *. cbn [mbind res_bind]. cbv zeta.
  pose proof (srv_inv_new s n l p' HI Hb Hn Hp' ltac:(done)) as HI1.
  unfold RunInLoop. rewrite !decide_False by done. cbn [_server_inactive _timeout].
  assert (Ho : ∀ x, <[x := l]> (owner s) !! x = Some l) by (intros; apply lookup_insert_eq).
  destruct (_server_inactive s); cbn [mbind res_bind]; intros [= <-].
  - match goal with |- srv_inv (set_conns ?x (queue ?a ?t (queue ?b ?u ?s0))) =>
      change (srv_inv (queue a t (queue b u (set_conns x s0)))) end.
    eapply srv_inv_queue; [|left; split; [reflexivity|apply Ho]]. eapply srv_inv_queue; [|left; split; [reflexivity|apply Ho]]. exact HI1.
  - match goal with |- srv_inv (set_conns ?x (queue ?a ?t ?s0)) => change (srv_inv (queue a t (set_conns x s0))) end.
    eapply srv_inv_queue; [|left; split; [reflexivity|apply Ho]]. exact HI1.
Qed.

Lemma srv_inv_free id s :
  srv_inv s → id ∉ _conns s → TRemove id ∉ pending s 0 → srv_inv (set_objs (delete id (objs s)) s).
Proof.
  intros [Hp Hid Hown Hown' Hcs Hlive Hgone Hrem Htask Hacc Hq Haft Htm Htid] Hn Hnp. split; cbn; try done.
  - intros id' l c [_ Hc]%lookup_delete_Some. by eapply Hown.
  - intros id' Hi. rewrite lookup_delete_ne; [by apply Hcs|]. by intros <-.
  - intros id' l c [_ Hc]%lookup_delete_Some. by eapply Hlive.
  - intros id' l c [_ Hc]%lookup_delete_Some. by eapply Hgone.
  - intros l id' Hm. destruct (Hrem l id' Hm) as (-> & m & c & Hc & Hr). split; [done|]. exists m, c.
    rewrite lookup_delete_ne; [done|]. intros <-. by apply Hnp.
Qed.

(** A timer of [RunAfter] gets an id that no connection has. *)
Lemma RunAfterInLoop_spec d s :
  srv_inv s → delay_ok d → _conn_id s + 1 < 2 ^ 31 →
  ∃ s', RunAfterInLoop d s = Ok s' ∧ srv_inv s' ∧ _conn_id s' = _conn_id s + 1 ∧ _conns s' = _conns s ∧ objs s' = objs s ∧
    loops s' = loops s ∧ owner s' = owner s ∧
    ∀ i, has_timer i (wheels s' 0%nat) = bool_decide (i = _conn_id s + 1) || has_timer i (wheels s 0%nat).
Proof.
  intros [Hp Hid Hown Hown' Hcs Hlive Hgone Hrem Htask Hacc Hq Haft Htm Htid] Hd Hb. unfold RunAfterInLoop, u32.
  unfold delay_ok in Hd. rewrite u64_small, Z.mod_small by lia.
  destruct (add_timer_ok (_conn_id s + 1) d (wheels s 0%nat) Htm) as (w & -> & Hw & Hh); [|lia|].
  { destruct (has_timer _ _) eqn:E; [|done]. apply Htid in E. lia. }
  cbn [mbind res_bind]. eexists. split; [reflexivity|].
  assert (Ew : ∀ f : nat → W, <[0%nat := w]> f 0%nat = w) by (intros; apply fn_lookup_insert).
  cbn. rewrite Ew. split; [|by split_and!]. split; cbn; rewrite ?Ew; try done.
  - lia.
  - intros id l Ho. destruct (Hown' _ _ Ho). split; [lia|done].
  - intros i. rewrite Hh, orb_true_iff, bool_decide_eq_true. intros [->|Hi]; [|destruct (Htid i Hi); split; [lia|done]].
    split; [lia|]. destruct (owner s !! _) eqn:E; [|done]. apply Hown' in E. lia.
Qed.

Lemma run_task_inv l t lp s s' :
  srv_inv s → next_task (loops s l) = Some (t, lp) → _conn_id s + 1 < 2 ^ 31 →
  run_task l t (set_loop l lp s) = Ok s' → srv_inv s'.
Proof.
  intros HI Hn Hb Ht. destruct t as [id i|id|d]; [|by destruct (srv_inv_remove _ _ _ _ _ HI Hn Ht)|].
  2: { destruct (srv_inv_next _ _ _ _ HI Hn) as [HI1 Hin]; [done|]. destruct (si_after _ HI _ _ Hin) as [_ Hd].
       destruct (RunAfterInLoop_spec d _ HI1 Hd Hb) as (s1 & E1 & HI2 & _). cbn [run_task] in Ht. congruence. }
  destruct (srv_inv_next _ _ _ _ HI Hn) as [HI1 Hin]; [done|]. apply (si_task _ HI) in Hin.
  assert (∃ c, objs (set_loop l lp s) !! id = Some (l, c)) as [c Hc].
  { destruct (objs s !! id) as [[m c]|] eqn:E.
    - exists c. cbn. rewrite E. do 2 f_equal. apply (si_own _ HI) in E. congruence.
    - exfalso. revert Ht. unfold run_task, established, conn_call. cbn [set_loop objs]. rewrite E. by destruct i. }
  destruct i; try (by eapply srv_inv_established); by destruct (srv_inv_call _ _ _ _ _ _ _ HI1 Hc eq_refl Ht).
Qed.

Lemma srv_inv_step s s' : srv_inv s → server_step s s' → srv_inv s'.
Proof.
  intros HI. destruct 1 as [s s' Hf Hb Hn|l id c rev r w s s' Hf Hc Hw Hcalls|l id c s s' Hf Hc He Hcall|l s Hf|l t lp s s' Hn Hb Ht|id l c i s Hc Hi|self d s s' Hd Hb Hf Hr|id s Hn Hp].
  - by eapply NewConnection_inv.
  - by destruct (srv_inv_calls _ _ _ _ _ _ HI Hc Hcalls).
  - by destruct (srv_inv_call _ _ _ _ _ _ _ HI Hc eq_refl Hcall).
  - replace (set_loop _ _ s) with (set_conns (_conns s) (set_loop l (swap_tasks (loops s l)) s)) by done.
    assert (E : functor (swap_tasks (loops s l)) ++ _tasks (swap_tasks (loops s l)) = pending s l).
    { unfold pending. rewrite Hf. cbn. by rewrite app_nil_r. }
    apply srv_inv_set_loop; rewrite ?E; try done; [apply loop_inv_swap; [apply HI|done]|apply HI|by left].
  - by eapply run_task_inv.
  - eapply srv_inv_queue; [done|]. left. split; [reflexivity|]. by eapply (si_own _ HI).
  - unfold RunAfter, RunInLoop in Hr. case_decide.
    + destruct (RunAfterInLoop_spec d s HI Hd Hb) as (s1 & E1 & HI1 & _). congruence.
    + injection Hr as <-. apply (srv_inv_queue 0 (TAfter d) s 0 IShutdown); [done|]. right. eauto.
  - by apply srv_inv_free.
Qed.

(** The timers of a new loop. *)
Definition no_timers (w : W) : Prop := timers_ok w ∧ ∀ i, has_timer i w = false.

Lemma srv_inv_start n inactive timeout w : (0 < n)%nat → no_timers w → srv_inv (new_server n inactive timeout w).
Proof.
  intros Hn [Hw Hno]. split; try done.
  - exists n. split; [done|]. apply started_ok.
  - cbn. intros l id Hm. by apply not_elem_of_nil in Hm.
  - cbn. intros l id i Hm. by apply not_elem_of_nil in Hm.
  - cbn. intros t id Hm. by apply not_elem_of_nil in Hm.
  - cbn. intros l d Hm. by apply not_elem_of_nil in Hm.
  - cbn. intros i. by rewrite Hno.
Qed.

Lemma srv_reachable n inactive timeout w s :
  (0 < n)%nat → no_timers w → rtc server_step (new_server n inactive timeout w) s → srv_inv s.
Proof.
  intros Hn Hw Hr. pose proof (srv_inv_start n inactive timeout w Hn Hw) as HI. induction Hr as [|x y z Hs _ IH]; [done|].
  apply IH. by eapply srv_inv_step.
Qed.


(** Tasks of the base loop: removals and timers of [RunAfter]. *)
Definition after_tasks (ts : list task) : nat := length (omap (λ t, match t with TAfter d => Some d | _ => None end) ts).

Lemma base_task_spec t lp s :
  srv_inv s → next_task (loops s 0%nat) = Some (t, lp) → _conn_id s + 1 < 2 ^ 31 →
  ∃ s', run_task 0 t (set_loop 0 lp s) = Ok s' ∧ srv_inv s' ∧ objs s' = objs s ∧ loops s' 0%nat = lp ∧
    _conn_id s' = _conn_id s + Z.of_nat (after_tasks [t]) ∧
    ∀ i, has_timer i (wheels s' 0%nat) = bool_decide (_conn_id s < i ≤ _conn_id s') || has_timer i (wheels s 0%nat).
Proof.
  intros HI Hn Hb. assert (Hin : t ∈ pending s 0).
  { unfold next_task in Hn. unfold pending. destruct (functor (loops s 0%nat)); simplify_eq. by left. }
  destruct t as [id i|id|d].
  - destruct (si_owner _ HI _ _ (si_task _ HI _ _ _ Hin)). done.
  - destruct (si_remove _ HI _ _ Hin) as (_ & m & c & Hc & _).
    destruct (RemoveConnectionInLoop id (set_loop 0 lp s)) as [s1|] eqn:E1.
    2: { revert E1. unfold RemoveConnectionInLoop. cbn. by rewrite Hc. }
    destruct (srv_inv_remove _ _ _ _ _ HI Hn E1) as (HI1 & _ & Ho).
    exists s1. split; [done|]. split; [done|]. split; [done|].
    revert E1. unfold RemoveConnectionInLoop. cbn. rewrite Hc. intros [= <-]. cbn. split; [apply fn_lookup_insert|].
    split; [lia|]. intros i. rewrite bool_decide_eq_false_2 by lia. done.
  - destruct (srv_inv_next _ _ _ _ HI Hn) as [HI1 _]; [done|]. destruct (si_after _ HI _ _ Hin) as [_ Hd].
    destruct (RunAfterInLoop_spec d _ HI1 Hd Hb) as (s1 & E1 & HI2 & H3 & H4 & H5 & H6 & H7 & H8).
    exists s1. split; [exact E1|]. split; [done|]. split; [done|]. rewrite H6. cbn in H3, H8 |- *.
    split; [apply fn_lookup_insert|]. split; [lia|]. intros i. rewrite H8, H3. f_equal. apply bool_decide_ext. lia.
Qed.

Lemma run_base_tasks k s :
  srv_inv s → k = length (functor (loops s 0%nat)) → _conn_id s + Z.of_nat k < 2 ^ 31 →
  ∃ s', run_tasks k 0 s = Ok s' ∧ srv_inv s' ∧ objs s' = objs s ∧
    functor (loops s' 0%nat) = [] ∧ _tasks (loops s' 0%nat) = _tasks (loops s 0%nat) ∧
    _conn_id s' = _conn_id s + Z.of_nat (after_tasks (functor (loops s 0%nat))) ∧
    ∀ i, has_timer i (wheels s' 0%nat) = bool_decide (_conn_id s < i ≤ _conn_id s') || has_timer i (wheels s 0%nat).
Proof.
  revert s. induction k as [|k IH]; intros s HI Hk Hb.
  { exists s. destruct (functor (loops s 0%nat)) eqn:Ef; [|done]. do 5 (split; [done|]). split; [cbn; lia|].
    intros i. by rewrite bool_decide_eq_false_2 by lia. }
  cbn [run_tasks]. destruct (next_task (loops s 0%nat)) as [[t lp]|] eqn:En.
  2: { unfold next_task in En. by destruct (functor (loops s 0%nat)). }
  destruct (base_task_spec t lp s HI En ltac:(lia)) as (s1 & E1 & HI1 & Ho & El & Hid & Ht). rewrite E1. cbn [mbind res_bind].
  unfold next_task in En. destruct (functor (loops s 0%nat)) as [|f fs] eqn:Ef; [done|]. injection En as -> <-.
  assert (Ha : after_tasks (t :: fs) = (after_tasks [t] + after_tasks fs)%nat) by (unfold after_tasks; cbn; by destruct t).
  assert (after_tasks [t] ≤ 1)%nat by (destruct t; cbn; lia).
  destruct (IH s1 HI1) as (s' & H1 & H2 & H3 & H4 & H5 & H6 & H7); [rewrite El; simpl in *; lia|lia|].
  rewrite El in H5, H6. cbn [functor _tasks] in H5, H6. exists s'. split; [exact H1|]. split; [done|]. split; [congruence|]. split; [done|]. split; [done|].
  split; [rewrite Ha; lia|]. intros i. rewrite H7, Ht, orb_assoc, <- bool_decide_or. f_equal. apply bool_decide_ext. lia.
Qed.

(** C35: With at least one loop thread and fewer than 2^31 ids, the table of the server is exact: a
    connection stays in it until it has been released, whatever the threads do, and when the base
    loop, between two rounds, next runs its tasks, which always succeeds, exactly the connections
    not released are left, and one timer has been added for each [RunAfter] that was waiting, under
    an id of its own. The server starts without timers. Without loop threads, the default, a
    connection can be released before it is inserted ([released_before_insert]), and from 2^31 on
    ids are truncated and stay ([big_id_stays]). *)
Theorem server_table_exact n inactive timeout w s :
  (0 < n)%nat → no_timers w → rtc server_step (new_server n inactive timeout w) s → functor (loops s 0%nat) = [] →
  _conn_id s + Z.of_nat (length (_tasks (loops s 0%nat))) < 2 ^ 31 →
  (∀ id l c, objs s !! id = Some (l, c) → ¬ released c → id ∈ _conns s) ∧
  ∃ s', RunAllTask 0 s = Ok s' ∧ objs s' = objs s ∧
    (∀ id, id ∈ _conns s' ↔ ∃ l c, objs s !! id = Some (l, c) ∧ ¬ released c) ∧
    _conn_id s' = _conn_id s + Z.of_nat (after_tasks (_tasks (loops s 0%nat))) ∧
    ∀ i, has_timer i (wheels s' 0%nat) = bool_decide (_conn_id s < i ≤ _conn_id s') || has_timer i (wheels s 0%nat).
Proof.
  intros Hn Hw Hr Hf Hb. pose proof (srv_reachable _ _ _ _ _ Hn Hw Hr) as HI. split; [apply HI|].
  assert (HI1 : srv_inv (set_loop 0 (swap_tasks (loops s 0%nat)) s)) by (eapply srv_inv_step; [done|by apply StepSwap]).
  assert (El : loops (set_loop 0 (swap_tasks (loops s 0%nat)) s) 0%nat = swap_tasks (loops s 0%nat)) by apply fn_lookup_insert.
  unfold RunAllTask. destruct (run_base_tasks (length (_tasks (loops s 0%nat))) _ HI1) as (s' & H1 & H2 & H3 & H4 & H5 & H6 & H7);
    [by rewrite El|done|]. rewrite El in H5, H6.
  exists s'. split; [done|]. split; [done|]. split; [|by split]. cbn [set_loop objs] in H3. rewrite <- H3.
  assert (Hp : pending s' 0 = []) by (unfold pending; by rewrite H4, H5).
  intros id. split.
  - intros Hi. destruct (si_conns _ H2 _ Hi) as [[l c] Hc]. exists l, c. split; [done|]. intros Hrel.
    pose proof (si_gone _ H2 _ _ _ Hc Hrel Hi) as Hx. rewrite Hp in Hx. by apply not_elem_of_nil in Hx.
  - intros (l & c & Hc & Hn'). by eapply (si_live _ H2).
Qed.

(** Ids stay in range while tasks are run. *)
Fixpoint ids_fit (k l : nat) (s : TcpServer) : bool :=
  match k with
  | O => true
  | S k =>
      match next_task (loops s l) with
      | None => true
      | Some (t, lp) =>
          (_conn_id s + 1 <? 2 ^ 31) &&
          match run_task l t (set_loop l lp s) with Ok s' => ids_fit k l s' | Err _ => true end
      end
  end.
Lemma run_tasks_steps k l s s' : ids_fit k l s = true → run_tasks k l s = Ok s' → rtc server_step s s'.
Proof.
  revert s. induction k as [|k IH]; intros s; cbn [run_tasks ids_fit]; [by intros _ [= <-]|].
  destruct (next_task (loops s l)) as [[t lp]|] eqn:E; [|by intros _ [= <-]].
  intros [Hb%Z.ltb_lt Hfit]%andb_true_iff. destruct (run_task l t _) as [s1|] eqn:E1; [|done]. cbn [mbind res_bind]. intros Hs.
  eapply rtc_l; [by eapply StepTask|]. by apply IH.
Qed.
Lemma RunAllTask_steps l s s' :
  functor (loops s l) = [] → ids_fit (length (_tasks (loops s l))) l (set_loop l (swap_tasks (loops s l)) s) = true →
  RunAllTask l s = Ok s' → rtc server_step s s'.
Proof. intros Hf Hfit Hr. eapply rtc_l; [by apply StepSwap|]. by eapply run_tasks_steps. Qed.

(** An id that does not fit an [int] is not found again: the connection stays in the
    table for ever. *)
Theorem big_id_stays id s s' :
  2 ^ 31 ≤ id < 2 ^ 32 → id ∈ _conns s → RemoveConnectionInLoop id s = Ok s' → id ∈ _conns s'.
Proof.
  intros Hb Hin. unfold RemoveConnectionInLoop. destruct (objs s !! id); [|done]. intros [= <-]. cbn.
  apply elem_of_difference. split; [done|]. rewrite elem_of_singleton. unfold to_int32, u64.
  rewrite <- (Z.mod_unique (id + 2 ^ 31) (2 ^ 32) 1 (id - 2 ^ 31)) by lia.
  rewrite <- (Z.mod_unique (id - 2 ^ 31 - 2 ^ 31) (2 ^ 64) (-1) (id - 2 ^ 31 - 2 ^ 31 + 2 ^ 64)) by lia. lia.
Qed.

End Server.

(** ** Runs *)
Definition ok_or {A} (d : A) (r : res A) : A := match r with Ok a => a | Err _ => d end.
Definition is_ok {A} (r : res A) : bool := match r with Ok _ => true | Err _ => false end.
Lemma ok_or_eq {A} (d : A) r : is_ok r = true → r = Ok (ok_or d r).
Proof. by destruct r. Qed.

Definition sink (q : list ascii) : list action := [AConsume (length q)].
Definition no_calls (id : Z) : list input := [].

(** Without loop threads, a connected callback that shuts the connection down
    releases it before [NewConnection] puts it into the table, where it then stays:
    nothing is queued that would take it out. *)
Theorem released_before_insert :
  ∃ s c, NewConnection sink (λ _, [IShutdown]) (new_server 0 false 0 new_wheel) = Ok s ∧
    objs s !! 1 = Some (0%nat, c) ∧ released c ∧ 1 ∈ _conns s ∧ pending s 0 = [].
Proof.
  eexists _, _. split; [vm_compute; reflexivity|]. split; [vm_compute; reflexivity|].
  split; [by apply (bool_decide_unpack _); vm_compute|]. by split; [apply (bool_decide_unpack _); vm_compute|].
Qed.

(** A server with one loop thread; a connection is made and established. *)
Definition srv0 := new_server 1 false 0 new_wheel.
Definition srv1 := ok_or srv0 (NewConnection sink no_calls srv0).
Definition srv2 := ok_or srv1 (RunAllTask sink no_calls 1 srv1).
(** Another thread sends; before the loop gets to it, an error event releases the
    connection and the base loop takes it out of the table. *)
Definition srv3 := queue 1 (TConn 1 (ISend ["x"%char])) srv2.
Definition hang_up := input_of RecvError SendError <$> HandleEvent EPOLLHUP.
Definition srv4 := ok_or srv3 (conn_calls sink 1 1 hang_up srv3).
Definition srv5 := ok_or srv4 (RunAllTask sink no_calls 0 srv4).
Definition srv6 := set_objs (delete 1 (objs srv5)) srv5.

Lemma srv2_reached : rtc (server_step sink no_calls) srv0 srv2.
Proof.
  eapply rtc_l; [apply (StepAccept _ _ srv0 srv1); [done|by vm_compute|by apply ok_or_eq; vm_compute]|].
  by apply (RunAllTask_steps _ _ 1); [vm_compute|vm_compute|apply ok_or_eq; vm_compute].
Qed.

Lemma srv6_reached : rtc (server_step sink no_calls) srv0 srv6.
Proof.
  etrans; [exact srv2_reached|].
  eapply rtc_l.
  { eapply (StepUser _ _ 1 1 _ (ISend ["x"%char]) srv2); [vm_compute; reflexivity|done]. }
  eapply rtc_l.
  { eapply (StepEvent _ _ 1 1 _ EPOLLHUP RecvError SendError srv3 srv4);
      [by vm_compute|vm_compute; reflexivity|done|by apply ok_or_eq; vm_compute]. }
  etrans; [by apply (RunAllTask_steps _ _ 0 srv4 srv5); [vm_compute|vm_compute|apply ok_or_eq; vm_compute]|].
  apply rtc_once. apply (StepFree _ _ 1 srv5); apply (bool_decide_unpack _); by vm_compute.
Qed.

(** A call from another thread binds a raw [this]: when the connection is released,
    taken out of the table and freed before the loop runs the call, the call uses the
    freed connection. *)
Theorem late_call_dangles :
  ∃ s, rtc (server_step sink no_calls) srv0 s ∧ RunAllTask sink no_calls 1 s = Err DanglingPtr.
Proof. exists srv6. split; [exact srv6_reached|]. by vm_compute. Qed.

(** ** Witnesses *)
Lemma new_wheel_no_timers : no_timers new_wheel.
Proof. split; [|done]. exists new_clock. apply WInv_new. Qed.


(** Another thread has asked for a task in five seconds. *)
Definition srv2a := queue 0 (TAfter 5) srv2.
Lemma srv2a_reached : rtc (server_step sink no_calls) srv0 srv2a.
Proof.
  etrans; [exact srv2_reached|]. apply rtc_once.
  apply (StepAfter _ _ 1%nat 5 srv2 srv2a); [by unfold delay_ok|by vm_compute|done|done].
Qed.
Lemma server_table_exact_witness :
  ∃ s', RunAllTask sink no_calls 0 srv2a = Ok s' ∧ 1 ∈ _conns s' ∧ has_timer 2 (wheels s' 0%nat) = true.
Proof.
  destruct (server_table_exact sink no_calls 1 false 0 new_wheel srv2a ltac:(lia) new_wheel_no_timers srv2a_reached)
    as (_ & s' & H1 & _ & H2 & H3 & H4); [by vm_compute|by vm_compute|].
  exists s'. split; [exact H1|]. split.
  - apply H2. eexists _, _. split; [vm_compute; reflexivity|]. by apply (bool_decide_unpack _); vm_compute.
  - rewrite H4, H3. vm_compute. reflexivity.
Defined.
