(* ===== verification/Session.v ===== *)
(** * Sessions: src/game/source/session.hpp

    A session object is named by its [_ssid]; the table [_session] holds those in
    use.  The timers belong to websocketpp, which runs them on its event queue: a
    timer that expires posts its handler; [cancel] on a pending one posts it at
    once, since the bound handler ignores the error it is given; a timer of 0 ms
    is posted.  The handlers run in the order in which they were posted, with
    any other work in between. *)

From S2P Require Import Prelude.

Open Scope Z_scope.

Inductive ss_statu := UNLOGIN | LOGIN.
Abbreviation timer_id := Z (only parsing).

Record session := mkSession { _uid : Z; _statu : ss_statu; _tp : option timer_id }.

(** [remove_session(ssid)] and [append_session(sp)], bound as handlers. *)
Inductive handler := HRemove (ssid : Z) | HAppend (ssid : Z).

Record session_manager := mkSM {
  _next_ssid : Z;
  _session : gset Z;
  objects : gmap Z session;             (** the session objects *)
  pending : gmap timer_id Z;            (** timers running, with the session they remove *)
  posted : list handler;                (** handlers to run *)
  timers_made : Z;                      (** timer objects are never confused *)
}.

Definition SESSION_TIMEOUT : Z := 30000.
Definition SESSION_FOREVER : Z := -1.

Definition new_session_manager : session_manager := mkSM 1 ∅ ∅ ∅ [] 0.

Definition create_session (uid : Z) (statu : ss_statu) (m : session_manager) : Z * session_manager :=
  let ssid := _next_ssid m in
  (ssid, mkSM ((ssid + 1) `mod` 2 ^ 64) ({[ssid]} ∪ _session m) (<[ssid := mkSession uid statu None]> (objects m))
           (pending m) (posted m) (timers_made m)).

Definition get_session_by_ssid (ssid : Z) (m : session_manager) : option (Z * session) :=
  if decide (ssid ∈ _session m) then pair ssid <$> objects m !! ssid else None.

(** [ssp->set_timer(tp)] *)
Definition set_timer_of (ssid : Z) (tp : option timer_id) (m : session_manager) : session_manager :=
  mkSM (_next_ssid m) (_session m) (alter (λ s, mkSession (_uid s) (_statu s) tp) ssid (objects m)) (pending m) (posted m) (timers_made m).
(** [_server->set_timer(ms, remove_session(ssid))] *)
Definition start_timer (ssid : Z) (m : session_manager) : timer_id * session_manager :=
  let t := timers_made m in
  (t, mkSM (_next_ssid m) (_session m) (objects m) (<[t := ssid]> (pending m)) (posted m) (t + 1)).
Definition post (h : handler) (m : session_manager) : session_manager :=
  mkSM (_next_ssid m) (_session m) (objects m) (pending m) (posted m ++ [h]) (timers_made m).
(** [tp->cancel()] *)
Definition cancel (t : timer_id) (m : session_manager) : session_manager :=
  match pending m !! t with
  | Some ssid => post (HRemove ssid) (mkSM (_next_ssid m) (_session m) (objects m) (delete t (pending m)) (posted m) (timers_made m))
  | None => m
  end.

Definition set_session_expire_time (ssid ms : Z) (m : session_manager) : session_manager :=
  match get_session_by_ssid ssid m with
  | None => m
  | Some (_, ssp) =>
      match _tp ssp with
      | None =>
          if ms =? SESSION_FOREVER then m
          else let '(t, m) := start_timer ssid m in set_timer_of ssid (Some t) m
      | Some tp =>
          if ms =? SESSION_FOREVER then
            post (HAppend ssid) (set_timer_of ssid None (cancel tp m))
          else
            let m := post (HAppend ssid) (set_timer_of ssid None (cancel tp m)) in
            let '(t, m) := start_timer ssid m in set_timer_of ssid (Some t) m
      end
  end.

Definition set_table (s : gset Z) (m : session_manager) : session_manager :=
  mkSM (_next_ssid m) s (objects m) (pending m) (posted m) (timers_made m).
Definition append_session (ssid : Z) (m : session_manager) : session_manager := set_table ({[ssid]} ∪ _session m) m.
Definition remove_session (ssid : Z) (m : session_manager) : session_manager := set_table (_session m ∖ {[ssid]}) m.

(** The event queue: a running timer expires, or the first posted handler runs. *)
Definition expire (t : timer_id) (m : session_manager) : session_manager := cancel t m.
Definition run_handler (h : handler) (m : session_manager) : session_manager :=
  match h with HRemove ssid => remove_session ssid m | HAppend ssid => append_session ssid m end.
Definition run_posted (m : session_manager) : session_manager :=
  match posted m with
  | [] => m
  | h :: hs => run_handler h (mkSM (_next_ssid m) (_session m) (objects m) (pending m) hs (timers_made m))
  end.

Inductive sm_step : session_manager → session_manager → Prop :=
  | SmCreate m uid statu : _next_ssid m + 1 < 2 ^ 64 → sm_step m (create_session uid statu m).2
  | SmExpireTime m ssid ms : sm_step m (set_session_expire_time ssid ms m)
  | SmTimer m t : sm_step m (expire t m)
  | SmRun m : sm_step m (run_posted m).

(** ** What the table will be once the posted handlers have run *)
Definition apply_handler (s : gset Z) (h : handler) : gset Z :=
  match h with HRemove ssid => s ∖ {[ssid]} | HAppend ssid => {[ssid]} ∪ s end.
Definition settled (m : session_manager) : gset Z := fold_left apply_handler (posted m) (_session m).

(** A session is kept as long as its timer, if it has one, is running. *)
Definition timer_running (m : session_manager) (s : session) : Prop :=
  match _tp s with None => True | Some t => is_Some (pending m !! t) end.

Record sm_inv (m : session_manager) : Prop := {
  si_settled : ∀ ssid, ssid ∈ settled m ↔ ∃ s, objects m !! ssid = Some s ∧ timer_running m s;
  si_pending : ∀ t ssid, pending m !! t = Some ssid → ∃ s, objects m !! ssid = Some s ∧ _tp s = Some t;
  si_owner : ∀ ssid s t, objects m !! ssid = Some s → _tp s = Some t →
    t < timers_made m ∧ ∀ i, pending m !! t = Some i → i = ssid;
  si_table : ∀ ssid, ssid ∈ _session m → is_Some (objects m !! ssid);
  si_posted : ∀ h, h ∈ posted m → match h with HRemove i | HAppend i => is_Some (objects m !! i) end;
  si_next : 0 < _next_ssid m ∧ ∀ ssid, is_Some (objects m !! ssid) → ssid < _next_ssid m;
}.

Lemma settled_post h m : settled (post h m) = apply_handler (settled m) h.
Proof. unfold settled. simpl. by rewrite fold_left_app. Qed.

Lemma settled_run m : settled (run_posted m) = settled m.
Proof. unfold settled, run_posted. destruct (posted m) as [|[i|i] hs] eqn:E; simpl; by rewrite ?E. Qed.

(** The table a fresh session is added to: no handler is about it. *)
Lemma fold_handlers_fresh hs s i :
  (∀ h, h ∈ hs → match h with HRemove j | HAppend j => j ≠ i end) →
  ∀ j, j ∈ fold_left apply_handler hs ({[i]} ∪ s) ↔ j = i ∨ j ∈ fold_left apply_handler hs s.
Proof.
  revert s. induction hs as [|h hs IH]; intros s Hh j; simpl; [set_solver|].
  assert (apply_handler ({[i]} ∪ s) h = {[i]} ∪ apply_handler s h) as ->.
  { specialize (Hh h ltac:(left)). destruct h; simpl; set_solver. }
  apply IH. intros h' Hh'. apply Hh. by right.
Qed.

Lemma sm_inv_new : sm_inv new_session_manager.
Proof.
  split; simpl; try done.
  - intros i. unfold settled. simpl. split; [set_solver|]. intros (s & Hs & _). by rewrite lookup_empty in Hs.
  - intros h Hh. by apply elem_of_nil in Hh.
  - split; [lia|]. intros i [? Hi]. by rewrite lookup_empty in Hi.
Qed.

Lemma create_session_inv uid statu m :
  sm_inv m → _next_ssid m + 1 < 2 ^ 64 → sm_inv (create_session uid statu m).2.
Proof.
  intros [H1 H2 H2' H3 H4 [H5 H6]] Hn. assert (Hnew : objects m !! _next_ssid m = None).
  { apply eq_None_not_Some. intros Hs. specialize (H6 _ Hs). lia. }
  assert (Hneq : ∀ i, is_Some (objects m !! i) → i ≠ _next_ssid m) by (intros i [? ?]; congruence).
  split; cbn [create_session snd].
  - intros i. unfold settled. cbn [posted _session]. rewrite fold_handlers_fresh.
    + change (fold_left apply_handler (posted m) (_session m)) with (settled m). rewrite H1. unfold timer_running. cbn [objects pending].
      setoid_rewrite lookup_insert_Some. split.
      * intros [->|(s & Hs & Ht)]; [eexists; split; [by left|done]|]. exists s. split; [|done]. right.
        split; [|done]. intros E. apply (Hneq i); eauto.
      * intros (s & [[<- <-]|[Hne Hs]] & Ht); [by left|]. right. by exists s.
    + intros h Hh. specialize (H4 h Hh). destruct h; by apply Hneq.
  - intros t i Ht. cbn [objects pending] in *. destruct (H2 t i Ht) as (s & Hs & ?). exists s.
    rewrite lookup_insert_ne; [done|]. intros E. apply (Hneq i); eauto.
  - intros i s t. cbn [objects pending timers_made]. intros [[<- <-]|[Hne Hs]]%lookup_insert_Some; [done|]. by eapply H2'.
  - intros i Hi. cbn [objects _session] in *. apply lookup_insert_is_Some'. set_solver.
  - intros h Hh. cbn [objects posted] in *. specialize (H4 h Hh). destruct h; apply lookup_insert_is_Some'; by right.
  - cbn [_next_ssid objects]. rewrite Z.mod_small by lia. split; [lia|]. intros i Hi.
    apply lookup_insert_is_Some' in Hi as [<-|Hi]; [lia|]. specialize (H6 i Hi). lia.
Qed.

(** [cancel] and expiry: the timer stops, and its session is on its way out. *)
Lemma cancel_inv t m :
  sm_inv m → sm_inv (cancel t m) ∧ pending (cancel t m) !! t = None ∧
  objects (cancel t m) = objects m ∧ _session (cancel t m) = _session m ∧ timers_made (cancel t m) = timers_made m.
Proof.
  intros HI. pose proof HI as [H1 H2 H2' H3 H4 H5]. unfold cancel. destruct (pending m !! t) as [i|] eqn:Et; [|done].
  destruct (H2 t i Et) as (s & Hs & Hst). split; [|by split; [simpl; rewrite lookup_delete_eq|]].
  split; cbn [objects pending _session posted post timers_made _next_ssid].
  - intros j. rewrite settled_post. cbn [apply_handler].
    change (settled _) with (settled m). rewrite elem_of_difference, H1, elem_of_singleton.
    unfold timer_running. cbn [pending post objects]. split.
    + intros [(u & Hu & Hr) Hne]. exists u. split; [done|]. destruct (_tp u) as [t'|] eqn:Eu; [|done].
      rewrite lookup_delete_ne; [done|]. intros <-. apply Hne. symmetry. by eapply H2'.
    + intros (u & Hu & Hr). split.
      * exists u. split; [done|]. destruct (_tp u) as [t'|]; [|done]. destruct Hr as [k Hk].
        apply lookup_delete_Some in Hk as [_ Hk]. by eexists.
      * intros ->. assert (u = s) as -> by congruence. rewrite Hst in Hr. rewrite lookup_delete_eq in Hr. by destruct Hr.
  - intros t' j. rewrite lookup_delete_Some. intros [_ Hj]. by apply H2.
  - intros j u t' Hu Htu. destruct (H2' j u t' Hu Htu) as [Hlt Hown]. split; [done|]. intros k.
    rewrite lookup_delete_Some. intros [_ Hk]. by apply Hown.
  - done.
  - intros h Hh. apply elem_of_app in Hh as [Hh|Hh]; [by apply H4|]. apply list_elem_of_singleton in Hh as ->. by eexists.
  - done.
Qed.

(** A session of the table gets a running timer. *)
Lemma restart_inv i s m :
  sm_inv m → objects m !! i = Some s → _tp s = None → i ∈ settled m →
  sm_inv (let '(t, m) := start_timer i m in set_timer_of i (Some t) m).
Proof.
  intros [H1 H2 H2' H3 H4 H5] Hs Hn Hset. cbn [start_timer]. split; cbn [set_timer_of objects pending _session posted timers_made _next_ssid].
  - intros j. change (settled _) with (settled m). rewrite H1. unfold timer_running. cbn [set_timer_of objects pending].
    destruct (decide (j = i)) as [->|Hne].
    + rewrite lookup_alter_eq, Hs. split; [|intros _; exists s; by rewrite Hn].
      intros _. eexists. split; [reflexivity|]. cbn [_tp]. rewrite lookup_insert_eq. by eexists.
    + rewrite lookup_alter_ne by done. split; intros (u & Hu & Hr); exists u; (split; [done|]); destruct (_tp u) as [t|] eqn:Eu; try done.
      * rewrite lookup_insert_is_Some'. by right.
      * apply lookup_insert_is_Some' in Hr as [E|]; [|done]. destruct (H2' j u t Hu Eu). lia.
  - intros t j. rewrite lookup_insert_Some. intros [[<- <-]|[Hne Hj]].
    + rewrite lookup_alter_eq, Hs. by eexists.
    + destruct (H2 t j Hj) as (u & Hu & Htu). destruct (decide (j = i)) as [->|]; [congruence|].
      exists u. by rewrite lookup_alter_ne.
  - intros j u t. rewrite lookup_alter_Some. intros [(<- & v & Hv & ->)|[Hne Hu]] Ht; cbn [_tp] in Ht.
    + injection Ht as <-. split; [lia|]. intros k. rewrite lookup_insert_eq. by intros [= <-].
    + destruct (H2' j u t Hu Ht) as [Hlt Hown]. split; [lia|]. intros k. rewrite lookup_insert_ne by lia. apply Hown.
  - intros j Hj. rewrite lookup_alter_is_Some. by apply H3.
  - intros h Hh. specialize (H4 h Hh). destruct h; by rewrite lookup_alter_is_Some.
  - destruct H5 as [H5 H6]. split; [done|]. intros j. rewrite lookup_alter_is_Some. apply H6.
Qed.

(** A session without a running timer is made permanent and put back. *)
Lemma make_permanent_inv i s m :
  sm_inv m → objects m !! i = Some s → (∀ t, _tp s = Some t → pending m !! t = None) →
  sm_inv (post (HAppend i) (set_timer_of i None m)).
Proof.
  intros [H1 H2 H2' H3 H4 H5] Hs Hstop. split; cbn [post set_timer_of objects pending _session posted timers_made _next_ssid].
  - intros j. rewrite settled_post. cbn [apply_handler]. change (settled _) with (settled m). rewrite elem_of_union, elem_of_singleton, H1.
    unfold timer_running. cbn [post set_timer_of objects pending]. destruct (decide (j = i)) as [->|Hne].
    + rewrite lookup_alter_eq, Hs. split; [|by left]. intros _. eexists. by split.
    + rewrite lookup_alter_ne by done. naive_solver.
  - intros t j Ht. destruct (H2 t j Ht) as (u & Hu & Htu). destruct (decide (j = i)) as [->|].
    + assert (u = s) as -> by congruence. rewrite (Hstop _ Htu) in Ht. done.
    + exists u. by rewrite lookup_alter_ne.
  - intros j u t. rewrite lookup_alter_Some. intros [(<- & v & Hv & ->)|[Hne Hu]] Ht; [done|]. by eapply H2'.
  - intros j Hj. rewrite lookup_alter_is_Some. by apply H3.
  - intros h Hh. apply elem_of_app in Hh as [Hh|Hh].
    + specialize (H4 h Hh). destruct h; by rewrite lookup_alter_is_Some.
    + apply list_elem_of_singleton in Hh as ->. rewrite lookup_alter_is_Some. by eexists.
  - destruct H5 as [H5 H6]. split; [done|]. intros j. rewrite lookup_alter_is_Some. apply H6.
Qed.

Lemma set_session_expire_time_inv ssid ms m : sm_inv m → sm_inv (set_session_expire_time ssid ms m).
Proof.
  intros HI. unfold set_session_expire_time, get_session_by_ssid. case_decide as Hin; [|done].
  destruct (objects m !! ssid) as [s|] eqn:Hs; cbn [fmap option_fmap option_map]; [|done].
  destruct (_tp s) as [tp|] eqn:Etp.
  - destruct (cancel_inv tp m HI) as (HI1 & Hp & Ho & _ & _). rewrite <- Ho in Hs.
    assert (HI2 : sm_inv (post (HAppend ssid) (set_timer_of ssid None (cancel tp m)))).
    { eapply make_permanent_inv; [done|exact Hs|]. intros t Ht. congruence. }
    destruct (ms =? SESSION_FOREVER); [done|]. eapply (restart_inv ssid); [done| | |].
    + cbn [post set_timer_of objects]. rewrite lookup_alter_eq, Hs. reflexivity.
    + done.
    + rewrite settled_post. simpl. set_solver.
  - destruct (ms =? SESSION_FOREVER); [done|]. eapply (restart_inv ssid); [done|exact Hs|done|].
    apply (si_settled _ HI). exists s. split; [done|]. unfold timer_running. by rewrite Etp.
Qed.

Lemma run_posted_inv m : sm_inv m → sm_inv (run_posted m).
Proof.
  intros [H1 H2 H2' H3 H4 H5]. assert (Ho : objects (run_posted m) = objects m ∧ pending (run_posted m) = pending m ∧
    timers_made (run_posted m) = timers_made m ∧ _next_ssid (run_posted m) = _next_ssid m).
  { unfold run_posted. by destruct (posted m) as [|[]]. }
  destruct Ho as (Eo & Ep & Et & En). split.
  - intros j. rewrite settled_run, H1. unfold timer_running. by rewrite Eo, Ep.
  - by rewrite Eo, Ep.
  - by rewrite Eo, Ep, Et.
  - rewrite Eo. intros i. unfold run_posted. destruct (posted m) as [|[j|j] hs] eqn:E; simpl; [by apply H3|set_solver|].
    intros [->%elem_of_singleton|Hi]%elem_of_union; [|by apply H3]. apply (H4 (HAppend j)). left.
  - rewrite Eo. intros h Hh. apply H4. unfold run_posted in Hh.
    destruct (posted m) as [|[j|j] hs] eqn:E; simpl in Hh; [by rewrite E in Hh|by right|by right].
  - by rewrite Eo, En.
Qed.

Lemma sm_reachable_inv m : rtc sm_step new_session_manager m → sm_inv m.
Proof.
  intros Hr. pose proof sm_inv_new as HI. induction Hr as [|a b c Hs _ IH]; [done|]. apply IH. destruct Hs.
  - by apply create_session_inv.
  - by apply set_session_expire_time_inv.
  - unfold expire. by apply cancel_inv.
  - by apply run_posted_inv.
Qed.

(** C23: A session lives exactly as long as its latest timer says: through any
    interleaving of logins, changes of the expiry time, expiring timers and posted
    handlers, once the posted handlers have run [get_session_by_ssid] finds a session
    just when it was created and has no timer (it is permanent) or one that
    is still running; cancelling a timer, which also runs the removal, never
    loses a session. *)
Theorem session_lives_with_timer m ssid :
  rtc sm_step new_session_manager m → posted m = [] →
  (∃ s, get_session_by_ssid ssid m = Some (ssid, s)) ↔
  ∃ s, objects m !! ssid = Some s ∧ (_tp s = None ∨ ∃ t, _tp s = Some t ∧ pending m !! t = Some ssid).
Proof.
  intros Hr Hp. pose proof (sm_reachable_inv m Hr) as HI. pose proof (si_settled _ HI ssid) as Hs.
  unfold settled in Hs. rewrite Hp in Hs. simpl in Hs. unfold timer_running in Hs.
  assert (Ht : ∀ s, objects m !! ssid = Some s →
    match _tp s with None => True | Some t => is_Some (pending m !! t) end ↔ (_tp s = None ∨ ∃ t, _tp s = Some t ∧ pending m !! t = Some ssid)).
  { intros s Ho. destruct (_tp s) as [t|] eqn:Et; [|naive_solver]. split; [|intros [?|(t' & [= <-] & ?)]; [done|by eexists]].
    intros [i Hi]. right. exists t. split; [done|]. destruct (si_owner _ HI _ _ _ Ho Et) as [_ Hown]. by rewrite <- (Hown i Hi). }
  unfold get_session_by_ssid. split.
  - intros [s E]. case_decide as Hin; [|done]. apply Hs in Hin as (s' & Ho & Hr'). exists s'. split; [done|]. by apply Ht.
  - intros (s & Ho & Hr'). exists s. rewrite decide_True; [by rewrite Ho|]. apply Hs. exists s. split; [done|]. by apply Ht.
Qed.

(** Between the removal that a cancelled timer still runs and the posted
    [append_session], the session is missing from the table, although it is
    permanent: a request handled then is refused. *)
Theorem session_missing_for_a_while :
  ∃ m, rtc sm_step new_session_manager m ∧ objects m !! 1 = Some (mkSession 7 LOGIN None) ∧ get_session_by_ssid 1 m = None.
Proof.
  exists (run_posted (set_session_expire_time 1 SESSION_FOREVER
           (set_session_expire_time 1 SESSION_TIMEOUT (create_session 7 LOGIN new_session_manager).2))).
  split; [|by vm_compute].
  eapply rtc_l; [by apply (SmCreate _ 7 LOGIN)|]. eapply rtc_l; [apply (SmExpireTime _ 1 SESSION_TIMEOUT)|].
  eapply rtc_l; [apply (SmExpireTime _ 1 SESSION_FOREVER)|]. eapply rtc_l; [apply SmRun|]. constructor.
Qed.

(** ** Witnesses *)
Lemma session_lives_with_timer_witness :
  ∃ m s, rtc sm_step new_session_manager m ∧ get_session_by_ssid 1 m = Some (1, s).
Proof.
  set (m := set_session_expire_time 1 SESSION_TIMEOUT (create_session 7 LOGIN new_session_manager).2).
  assert (Hr : rtc sm_step new_session_manager m).
  { eapply rtc_l; [by apply (SmCreate _ 7 LOGIN)|]. eapply rtc_l; [apply (SmExpireTime _ 1 SESSION_TIMEOUT)|]. constructor. }
  destruct (proj2 (session_lives_with_timer m 1 Hr eq_refl)) as [s Hs].
  - eexists. split; [vm_compute; reflexivity|]. right. exists 0. by vm_compute.
  - exists m, s. split; [exact Hr|exact Hs].
Defined.
