(* ===== verification/Gobang.v ===== *)
(** * The game server: src/game/source/server.hpp and [string_util] of util.hpp

    The websocket handlers, the login and the user-info request, on top of the
    sessions, the online table, the matcher and the rooms.  Parameters: the [Cookie]
    header of a connection's request, JsonCpp's parser, and the queries on the
    user table.  What is sent on connections is recorded.  The handlers
    are sequences of accesses, run at once or interleaved with the matching threads. *)

From S2P Require Import Prelude StdString Board Room Lobby Session.

Open Scope Z_scope.

(** ** [string_util::split] and cookies *)

(** The loop, on the part of [src] from [index] on. *)
Fixpoint split_from (fuel : nat) (src sep : str) : res (list str) :=
  match fuel with
  | O => Err OutOfFuel
  | S fuel =>
      match src with
      | [] => Ok []
      | _ =>
          match find sep src with
          | None => Ok [src]
          | Some 0%nat => split_from fuel (drop (length sep) src) sep
          | Some pos => rest ← split_from fuel (drop (pos + length sep) src) sep; Ok (take pos src :: rest)
          end
      end
  end.
Definition split (src sep : str) : res (list str) := split_from (S (length src)) src sep.

(** The loop over the cookies; [None] when the key is not there. *)
Fixpoint scan_cookies (cookie_arr : list str) (key : str) : res (option str) :=
  match cookie_arr with
  | [] => Ok None
  | s :: rest =>
      tmp_arr ← split s (lit "=");
      match tmp_arr with
      | [k; v] => if decide (k = key) then Ok (Some v) else scan_cookies rest key
      | _ => scan_cookies rest key
      end
  end.
Definition get_cookie_val (cookie_str key : str) : res (option str) :=
  cookie_arr ← split cookie_str (lit "; "); scan_cookies cookie_arr key.

(** [std::stol], passed as a [uint64_t]. *)
Definition stol_u64 (s : str) : res Z := v ← stol s; Ok (v `mod` 2 ^ 64).

(** ** Reading cookies back *)
Fixpoint join (sep : str) (ps : list str) : str :=
  match ps with [] => [] | [p] => p | p :: ps => p ++ sep ++ join sep ps end.

Lemma split_from_join c sep ps fuel :
  Forall (λ p, p ≠ [] ∧ Forall (λ x, x ≠ c) p) ps → (length (join (c :: sep) ps) < fuel)%nat →
  split_from fuel (join (c :: sep) ps) (c :: sep) = Ok ps.
Proof.
  intros Hps. revert fuel. induction Hps as [|p ps [Hne Hp] Hps IH]; intros fuel Hf; [destruct fuel; [lia|done]|].
  destruct fuel as [|fuel]; [lia|]. destruct ps as [|p' ps].
  - cbn [join split_from]. rewrite find_absent by done. by destruct p.
  - cbn [join] in *. set (rest := match ps with [] => p' | _ => _ end) in *.
    assert (Hlen : (length p + S (length sep) + length rest < S fuel)%nat).
    { rewrite length_app in Hf. simpl in Hf. rewrite length_app in Hf. lia. }
    assert (Hf' : find (c :: sep) (p ++ (c :: sep) ++ rest) = Some (length p)) by (by apply find_after).
    destruct p as [|x p]; [done|]. cbn [split_from app] in *. cbn [length] in Hf'. rewrite Hf'.
    change (x :: p ++ c :: sep ++ rest) with ((x :: p) ++ (c :: sep) ++ rest).
    change (S (length p) + length (c :: sep))%nat with (length (x :: p) + length (c :: sep))%nat.
    rewrite drop_app_add, drop_app_length, (IH fuel) by (simpl in *; lia). cbn [mbind res_bind]. do 2 f_equal.
    change (S (length p)) with (length (x :: p)). by rewrite take_app_length.
Qed.

Lemma split_join c sep ps :
  Forall (λ p, p ≠ [] ∧ Forall (λ x, x ≠ c) p) ps → split (join (c :: sep) ps) (c :: sep) = Ok ps.
Proof. intros. by apply split_from_join; [|lia]. Qed.

(** Names and values of cookies. *)
Definition plain (s : str) : Prop := s ≠ [] ∧ Forall (λ x, x ≠ ";"%char ∧ x ≠ "="%char) s.
Definition cookie_item (kv : str * str) : str := kv.1 ++ "="%char :: kv.2.
Definition cookie_header (items : list (str * str)) : str := join (lit "; ") (cookie_item <$> items).
(** The value of the first cookie with the name. *)
Fixpoint first_value (items : list (str * str)) (key : str) : option str :=
  match items with [] => None | (k, v) :: items => if decide (k = key) then Some v else first_value items key end.

Lemma scan_cookies_items items key :
  Forall (λ kv, plain kv.1 ∧ plain kv.2) items →
  scan_cookies (cookie_item <$> items) key = Ok (first_value items key).
Proof.
  induction 1 as [|[k v] items [[Hk Hk'] [Hv Hv']] Hi IH]; [done|]. rewrite fmap_cons. cbn [scan_cookies first_value].
  change (cookie_item (k, v)) with (join (lit "=") [k; v]). change (lit "=") with ["="%char]. rewrite split_join.
  - cbn [mbind res_bind]. rewrite IH. by destruct (decide (k = key)).
  - repeat constructor; try done; eapply Forall_impl; try done; naive_solver.
Qed.

Lemma get_cookie_val_spec items key :
  Forall (λ kv, plain kv.1 ∧ plain kv.2) items →
  get_cookie_val (cookie_header items) key = Ok (first_value items key).
Proof.
  intros Hi. unfold get_cookie_val, cookie_header. change (lit "; ") with (";"%char :: [" "%char]). rewrite split_join.
  - cbn [mbind res_bind]. by apply scan_cookies_items.
  - apply Forall_fmap. eapply Forall_impl; [exact Hi|]. intros [k v] [[Hk Hk'] [Hv Hv']]. unfold cookie_item. simpl in *. split.
    + by destruct k.
    + apply Forall_app. split; [eapply Forall_impl; [exact Hk'|]; naive_solver|].
      constructor; [done|]. eapply Forall_impl; [exact Hv'|]. naive_solver.
Qed.

Lemma to_string_plain n : 0 ≤ n < 2 ^ 63 → plain (to_string n).
Proof.
  intros Hn. destruct (to_string_numeric n) as [H1 H2]; [lia|]. split; [done|].
  eapply Forall_impl; [exact H1|]. intros c [[d Hd]| ->]; [|done]. split; intros ->; vm_compute in Hd; discriminate.
Qed.

(** ** The server *)
Inductive wsmsg :=
  | WJson (j : json)
  | WRoomReady (rid uid white black : Z).

Record gobang := mkG {
  _lobby : lobby;               (** [_og], [_rm] and [_mm] *)
  _sm : session_manager;
  sent_msgs : list (conn * wsmsg);
}.

Record http_response := mkResp { status : Z; resp_result : bool; resp_reason : string; set_cookie : option str }.

(** A handler as a program of accesses to the server, between which other threads run. *)
Inductive prog (A : Type) : Type :=
  | Ret (a : A)
  | Act {X : Type} (m : M gobang X) (k : X → prog A).
Arguments Ret {A} _.
Arguments Act {A X} _ _.
Fixpoint prog_bind {A B : Type} (f : A → prog B) (p : prog A) : prog B :=
  match p with Ret a => f a | Act m k => Act m (λ x, prog_bind f (k x)) end.
#[global] Instance prog_ret : MRet prog := @Ret.
#[global] Instance prog_mbind : MBind prog := @prog_bind.
Definition access (X : Type) (m : M gobang X) : prog X := Act m Ret.

Section Server.
Context `{JsonLib}.
Context (cookie : conn → str) (unserialize : str → option json).
(** [user_table::login] on the parsed body, and [select_by_id]: the score. *)
Context (parse_login : str → option (option str * option str)) (ut_login : str → str → option Z).
Context (select_by_id : Z → option Z).

Definition ws_resp (c : conn) (msg : wsmsg) : M gobang () :=
  modify (λ g, mkG (_lobby g) (_sm g) (sent_msgs g ++ [(c, msg)])).
Definition ws_err (c : conn) (op : string) (why : string) : M gobang () :=
  ws_resp c (WJson (with_result false (with_reason why (with_optype op empty_json)))).
(** *** The accesses of the handlers to what is shared *)
Definition get_online : M gobang online_game := gets (λ g, online (_lobby g)).
Definition put_online (f : online_game → online_game) : M gobang () :=
  modify (λ g, mkG (set_online (f (online (_lobby g))) (_lobby g)) (_sm g) (sent_msgs g)).
Definition put_lobby (f : lobby → lobby) : M gobang () :=
  modify (λ g, mkG (f (_lobby g)) (_sm g) (sent_msgs g)).
Definition set_expire (ssid ms : Z) : M gobang () :=
  modify (λ g, mkG (_lobby g) (set_session_expire_time ssid ms (_sm g)) (sent_msgs g)).
(** A call on the room manager, with the online table it refers to. *)
Definition on_rooms {A} (m : online_game → M manager A) : M gobang A := λ g,
  match m (online (_lobby g)) (mgr (_lobby g)) with
  | Ok (a, mg) => Ok (a, mkG (set_mgr mg (_lobby g)) (_sm g) (sent_msgs g))
  | Err e => Err e
  end.
(** [rp->handle_request(req_json)] on the room with key [rid]. *)
Definition room_request (rid : Z) (req : json) (og : online_game) : M manager () := λ m,
  match _rooms m !! rid with
  | None => Err DanglingPtr
  | Some rp =>
      match handle_request og req (mkRst rp (log m)) with
      | Ok (_, s) => Ok ((), mkManager (_next_rid m) (<[rid := the_room s]> (_rooms m)) (_users m) (events s))
      | Err e => Err e
      end
  end.

(** *** The handlers

    The matching threads run while a handler does, so a handler is a sequence of accesses,
    each run by [acc] in the monad of the caller: at once ([whole]), or as the steps of a program
    that the threads interleave ([prog], below). *)
Section Handlers.
Context {P : Type → Type} `{MRet P, MBind P} (acc : ∀ A, M gobang A → P A).

Definition get_session_by_cookie (c : conn) : P (option (Z * session)) :=
  (if decide (cookie c = []) then acc _ (ws_err c "hall_ready" "找不到cookie，请重新登陆") else mret ());;
  ssid_str ← acc _ (lift_res (get_cookie_val (cookie c) (lit "SSID")));
  match ssid_str with
  | None => acc _ (ws_err c "hall_ready" "找不到ssid，请重新登陆");; mret None
  | Some ssid_str =>
      ssid ← acc _ (lift_res (stol_u64 ssid_str));
      ssp ← acc _ (gets (λ g, get_session_by_ssid ssid (_sm g)));
      match ssp with
      | None => acc _ (ws_err c "hall_ready" "找不到session，请重新登陆");; mret None
      | Some ssp => mret (Some ssp)
      end
  end.

(** [_og.is_in_game_hall(uid) || _og.is_in_game_room(uid)] *)
Definition logged_in (u : Z) : P bool :=
  og ← acc _ get_online;
  if is_in_game_hall u og then mret true else og ← acc _ get_online; mret (is_in_game_room u og).

Definition wsopen_game_hall (c : conn) : P () :=
  ssp ← get_session_by_cookie c;
  match ssp with
  | None => mret ()
  | Some (ssid, ss) =>
      there ← logged_in (_uid ss);
      if (there : bool) then
        acc _ (ws_err c "hall_ready" "用户重复登陆")
      else
        acc _ (put_online (join_game_hall (_uid ss) c));;
        acc _ (ws_resp c (WJson (with_result true (with_optype "hall_ready" empty_json))));;
        acc _ (set_expire ssid SESSION_FOREVER)
  end.

Definition wsopen_game_room (c : conn) : P () :=
  ssp ← get_session_by_cookie c;
  match ssp with
  | None => mret ()
  | Some (ssid, ss) =>
      there ← logged_in (_uid ss);
      if (there : bool) then
        acc _ (ws_err c "room_ready" "玩家重复登陆")
      else
        rp ← acc _ (gets (λ g, get_room_by_uid (_uid ss) (mgr (_lobby g))));
        match rp with
        | None => acc _ (ws_err c "room_ready" "没有玩家的房间信息")
        | Some (_, r) =>
            acc _ (put_online (join_game_room (_uid ss) c));;
            acc _ (set_expire ssid SESSION_FOREVER);;
            acc _ (ws_resp c (WRoomReady (_room_id r) (_uid ss) (_white_id r) (_black_id r)))
        end
  end.

Definition wsclose_game_hall (c : conn) : P () :=
  ssp ← get_session_by_cookie c;
  match ssp with
  | None => mret ()
  | Some (ssid, ss) =>
      acc _ (put_online (exit_game_hall (_uid ss)));;
      acc _ (set_expire ssid SESSION_TIMEOUT)
  end.

Definition wsclose_game_room (c : conn) : P () :=
  ssp ← get_session_by_cookie c;
  match ssp with
  | None => mret ()
  | Some (ssid, ss) =>
      acc _ (put_online (exit_game_room (_uid ss)));;
      acc _ (set_expire ssid SESSION_TIMEOUT);;
      remove_room_user (λ A m, acc A (on_rooms m)) (_uid ss)
  end.

Definition wsmsg_game_hall (c : conn) (msg : str) : P () :=
  ssp ← get_session_by_cookie c;
  match ssp with
  | None => mret ()
  | Some (_, ss) =>
      match unserialize msg with
      | None => acc _ (ws_resp c (WJson (with_reason "请求信息解析失败" (with_result false empty_json))))
      | Some req =>
          match optype req with
          | Some op =>
              if decide (op = "match_start"%string) then
                acc _ (put_lobby (λ l, (add select_by_id (_uid ss) l).2));;
                acc _ (ws_resp c (WJson (with_optype "match_start" (with_result true empty_json))))
              else if decide (op = "match_stop"%string) then
                acc _ (put_lobby (λ l, (del select_by_id (_uid ss) l).2));;
                acc _ (ws_resp c (WJson (with_optype "match_stop" (with_result true empty_json))))
              else acc _ (ws_err c "unknow" "请求类型未知")
          | None => acc _ (ws_err c "unknow" "请求类型未知")
          end
      end
  end.

Definition wsmsg_game_room (c : conn) (msg : str) : P () :=
  ssp ← get_session_by_cookie c;
  match ssp with
  | None => mret ()
  | Some (_, ss) =>
      rp ← acc _ (gets (λ g, get_room_by_uid (_uid ss) (mgr (_lobby g))));
      match rp with
      | None => acc _ (ws_err c "unknow" "没有找到玩家的房间信息")
      | Some (rid, _) =>
          match unserialize msg with
          | None => acc _ (ws_err c "unknow" "请求解析失败")
          | Some req => acc _ (on_rooms (room_request rid req))
          end
      end
  end.

(** The callbacks, by the request's path. *)
Definition by_uri {A} (uri : string) (hall room : P A) (other : A) : P A :=
  if decide (uri = "/hall"%string) then hall
  else if decide (uri = "/room"%string) then room
  else mret other.
Definition wsopen_callback (uri : string) (c : conn) : P () := by_uri uri (wsopen_game_hall c) (wsopen_game_room c) ().
Definition wsclose_callback (uri : string) (c : conn) : P () := by_uri uri (wsclose_game_hall c) (wsclose_game_room c) ().
Definition wsmsg_callback (uri : string) (c : conn) (msg : str) : P () :=
  by_uri uri (wsmsg_game_hall c msg) (wsmsg_game_room c msg) ().
End Handlers.
(** A handler that nothing interrupts. *)
Definition whole (A : Type) (m : M gobang A) : M gobang A := m.

Definition http_resp (result : bool) (code : Z) (reason : string) : M gobang http_response :=
  mret (mkResp code result reason None).

Definition login (body : str) : M gobang http_response :=
  match parse_login body with
  | None => http_resp false 400 "请求正文格式错误"
  | Some (Some username, Some password) =>
      match ut_login username password with
      | None => http_resp false 400 "用户名和密码错误"
      | Some uid =>
          ssid ← (λ g, let '(ssid, m) := create_session uid LOGIN (_sm g) in Ok (ssid, mkG (_lobby g) m (sent_msgs g)));
          set_expire ssid SESSION_TIMEOUT;;
          mret (mkResp 200 true "登陆成功" (Some (lit "SSID=" ++ to_string ssid)))
      end
  | Some _ => http_resp false 400 "用户名和密码错误"
  end.

(** [info]: the answer is the user's record; the errors carry [true] as result. *)
Definition info (c : conn) : M gobang (http_response + Z) :=
  if decide (cookie c = []) then r ← http_resp true 400 "找不到cookie，请重新登陆"; mret (inl r)
  else
    ssid_str ← lift_res (get_cookie_val (cookie c) (lit "SSID"));
    match ssid_str with
    | None => r ← http_resp true 400 "找不到ssid，请重新登陆"; mret (inl r)
    | Some ssid_str =>
        ssid ← lift_res (stol_u64 ssid_str);
        ssp ← gets (λ g, get_session_by_ssid ssid (_sm g));
        match ssp with
        | None => r ← http_resp true 400 "找不到session/登陆过期，请重新登陆"; mret (inl r)
        | Some (ssid, ss) =>
            match select_by_id (_uid ss) with
            | None => r ← http_resp true 400 "找不到用户信息"; mret (inl r)
            | Some _ => set_expire ssid SESSION_TIMEOUT;; mret (inr (_uid ss))
            end
        end
    end.

(** ** Sessions found by their cookie *)
Lemma session_by_cookie c g items ssid ss :
  cookie c = cookie_header items → Forall (λ kv, plain kv.1 ∧ plain kv.2) items →
  first_value items (lit "SSID") = Some (to_string ssid) → 0 ≤ ssid < 2 ^ 63 →
  get_session_by_ssid ssid (_sm g) = Some (ssid, ss) →
  get_session_by_cookie whole c g = Ok (Some (ssid, ss), g).
Proof.
  intros Hc Hi Hf Hs Hg. unfold get_session_by_cookie, whole.
  assert (Hne : cookie_header items ≠ []).
  { destruct Hi as [|[k v] items' [[Hk _] _] _]; [done|]. unfold cookie_header. cbn [fmap list_fmap].
    destruct k as [|a k]; [done|]. by destruct (cookie_item <$> items'). }
  rewrite Hc, decide_False by done. erewrite bind_ok by reflexivity.
  rewrite (get_cookie_val_spec _ _ Hi), Hf. erewrite bind_ok by reflexivity. cbn beta iota.
  unfold stol_u64. rewrite stol_to_string by lia. cbn [mbind res_bind].
  rewrite Z.mod_small by lia. erewrite bind_ok by reflexivity. erewrite bind_ok by reflexivity. by rewrite Hg.
Qed.

(** The cookie a login sets identifies the user: after a successful login with
    at most [2^63] sessions made, a connection that sends back the cookie, with other
    cookies of different names around it, is recognised as a session of the user
    id that the user table gave for the name and password. *)
Theorem login_cookie_identifies g body name pass u c before after :
  sm_inv (_sm g) → _next_ssid (_sm g) < 2 ^ 63 →
  parse_login body = Some (Some name, Some pass) → ut_login name pass = Some u →
  Forall (λ kv, plain kv.1 ∧ plain kv.2) (before ++ after) → Forall (λ kv, kv.1 ≠ lit "SSID") before →
  cookie c = cookie_header (before ++ (lit "SSID", to_string (_next_ssid (_sm g))) :: after) →
  ∃ resp g1 ssid ss, login body g = Ok (resp, g1) ∧ status resp = 200 ∧
    set_cookie resp = Some (lit "SSID=" ++ to_string (_next_ssid (_sm g))) ∧
    get_session_by_cookie whole c g1 = Ok (Some (ssid, ss), g1) ∧ _uid ss = u.
Proof.
  clear unserialize select_by_id.
  intros HI Hmax Hp Hl Hpl Hb Hc. destruct (si_next _ HI) as [Hpos _]. unfold login. rewrite Hp, Hl. set (i := _next_ssid (_sm g)) in *.
  erewrite bind_ok by reflexivity. erewrite bind_ok by reflexivity. eexists _, _, i, _. split; [reflexivity|].
  split; [done|]. split; [done|]. split; [|shelve]. eapply session_by_cookie.
  - exact Hc.
  - apply Forall_app in Hpl as [H1 H2]. apply Forall_app. split; [done|]. constructor; [|done].
    split; [split; [done|by repeat constructor]|]. apply to_string_plain. lia.
  - clear -Hb. induction Hb as [|[k v] before Hk Hb IH]; cbn [app first_value]; [by rewrite decide_True|].
    by rewrite decide_False.
  - lia.
  - cbn [_sm]. unfold set_session_expire_time, get_session_by_ssid at 2. cbn [_session objects].
    fold i. rewrite decide_True by set_solver. rewrite lookup_insert_eq. cbn [fmap option_fmap option_map _tp].
    change (SESSION_TIMEOUT =? SESSION_FOREVER) with false. cbv iota. cbn [start_timer].
    unfold get_session_by_ssid. cbn [set_timer_of _session objects]. fold i. rewrite decide_True by set_solver.
    rewrite lookup_alter_eq, lookup_insert_eq. reflexivity.
  Unshelve. done.
Qed.

(** ** Requests without a session *)
Lemma get_session_effect c g o g' :
  get_session_by_cookie whole c g = Ok (o, g') → _lobby g' = _lobby g ∧ _sm g' = _sm g.
Proof.
  unfold get_session_by_cookie, whole. intros He. apply bind_inv in He as ([] & g1 & H1 & He).
  assert (_lobby g1 = _lobby g ∧ _sm g1 = _sm g) as [E1 E2] by (destruct (decide _); by injection H1 as <-).
  rewrite <- E1, <- E2. clear H1 E1 E2 g. apply bind_inv in He as (o1 & g2 & [_ ->]%lift_res_inv & He).
  destruct o1 as [s|]; [|by injection He as _ <-].
  apply bind_inv in He as (i & g3 & [_ ->]%lift_res_inv & He). erewrite bind_ok in He by reflexivity.
  destruct (get_session_by_ssid i (_sm g1)); by injection He as _ <-.
Qed.

(** A websocket request whose cookie leads to no session changes nothing: neither
    the sessions, nor who is online, nor the queues, nor the rooms; at most
    error messages are sent. *)
Theorem no_session_no_effect uri c msg g g1 :
  get_session_by_cookie whole c g = Ok (None, g1) →
  ∃ g2 g3 g4, wsopen_callback whole uri c g = Ok ((), g2) ∧ wsclose_callback whole uri c g = Ok ((), g3) ∧
    wsmsg_callback whole uri c msg g = Ok ((), g4) ∧
    Forall (λ g', _lobby g' = _lobby g ∧ _sm g' = _sm g) [g2; g3; g4].
Proof.
  intros He. destruct (get_session_effect _ _ _ _ He) as [E1 E2].
  unfold wsopen_callback, wsclose_callback, wsmsg_callback, by_uri.
  destruct (decide (uri = "/hall"%string)); [|destruct (decide (uri = "/room"%string))].
  - unfold whole, wsopen_game_hall, wsclose_game_hall, wsmsg_game_hall. erewrite !bind_ok by exact He.
    eexists _, _, _. do 3 (split; [reflexivity|]). by repeat constructor.
  - unfold whole, wsopen_game_room, wsclose_game_room, wsmsg_game_room. erewrite !bind_ok by exact He.
    eexists _, _, _. do 3 (split; [reflexivity|]). by repeat constructor.
  - eexists _, _, _. do 3 (split; [reflexivity|]). by repeat constructor.
Qed.

(** ** The server as a whole *)
Definition room_ids (r : room) : Z * Z * Z := (_room_id r, _white_id r, _black_id r).

Lemma handle_chess_ids og req s j s' :
  handle_chess og req s = Ok (j, s') → room_ids (the_room s') = room_ids (the_room s).
Proof.
  unfold handle_chess. intros He. apply bind_inv in He as (i & s1 & [_ ->]%lift_res_inv & He).
  apply bind_inv in He as (k & s1 & [_ ->]%lift_res_inv & He). apply bind_inv in He as (u & s1 & [_ ->]%lift_res_inv & He).
  erewrite bind_ok in He by reflexivity. do 2 (destruct (negb _); [by injection He as _ <-|]).
  apply bind_inv in He as (x & s1 & [_ ->]%lift_res_inv & He). destruct (negb _); [by injection He as _ <-|].
  cbv zeta in He. apply bind_inv in He as (b & s1 & [_ ->]%lift_res_inv & He). erewrite bind_ok in He by reflexivity.
  apply bind_inv in He as (w & s1 & [_ ->]%lift_res_inv & He). by injection He as _ <-.
Qed.

Lemma handle_request_ids og req s s' :
  handle_request og req s = Ok ((), s') → room_ids (the_room s') = room_ids (the_room s).
Proof.
  unfold handle_request. intros He. apply bind_inv in He as (rid & s1 & [_ ->]%lift_res_inv & He).
  erewrite bind_ok in He by reflexivity. apply bind_inv in He as (op & s1 & [_ ->]%lift_res_inv & He).
  destruct (negb _); [by rewrite (broadcast_room _ _ _ _ He)|]. repeat case_decide.
  - apply bind_inv in He as (j & s1 & Hc & He). apply bind_inv in He as (w & s2 & [_ ->]%lift_res_inv & He).
    apply bind_inv in He as ([] & s3 & Hrec & Hbr). rewrite (broadcast_room _ _ _ _ Hbr), <- (handle_chess_ids _ _ _ _ _ Hc).
    destruct (w =? 0); cbn [negb] in Hrec; [by injection Hrec as <-|]. rewrite record_win_ok in Hrec. by injection Hrec as <-.
  - apply bind_inv in He as (j & s1 & Hc & He). unfold handle_chat in Hc.
    apply bind_inv in Hc as (m & s2 & [_ ->]%lift_res_inv & Hc). rewrite (broadcast_room _ _ _ _ He).
    destruct (String.index _ _ _); by injection Hc as _ <-.
  - by rewrite (broadcast_room _ _ _ _ He).
Qed.

Lemma room_request_inv rid req og m m' :
  manager_inv m → room_request rid req og m = Ok ((), m') → manager_inv m' ∧ _next_rid m' = _next_rid m.
Proof.
  intros [Hr Hu]. unfold room_request. destruct (_rooms m !! rid) as [rp|] eqn:E; [|done].
  destruct (handle_request og req _) as [[[] s]|] eqn:Eh; [|done]. intros [= <-]. apply handle_request_ids in Eh.
  unfold room_ids in Eh. cbn [the_room] in Eh. injection Eh as E1 E2 E3. split; [|done]. split; cbn [_rooms _users _next_rid].
  - intros i r [[<- <-]|[_ Hi]]%lookup_insert_Some; [|by apply Hr]. rewrite E1. by apply Hr.
  - intros u i Hui. destruct (Hu u i Hui) as (r & Hri & Hw). destruct (decide (i = rid)) as [->|Hne].
    + exists (the_room s). rewrite lookup_insert_eq, E2, E3. split; [done|]. congruence.
    + exists r. by rewrite lookup_insert_ne.
Qed.

(** ** Handlers and threads interleaved

    One thread runs the handlers, one at a time, and the timers; the three matching threads run
    between any two accesses of a handler. *)

(** The server, and what is left of the handler that runs. *)
Record system := mkSys { server : gobang; io : prog () }.

Inductive handler : prog () → Prop :=
  | HOpen uri c : handler (wsopen_callback access uri c)
  | HClose uri c : handler (wsclose_callback access uri c)
  | HMsg uri c msg : handler (wsmsg_callback access uri c msg).

(** A step of a matching thread. *)
Inductive matches (g : gobang) : gobang → Prop :=
  | Matches w l : _next_rid (mgr (_lobby g)) + 1 < 2 ^ 64 → thread_step select_by_id w (_lobby g) = Ok l →
      matches g (mkG l (_sm g) (sent_msgs g)).

(** Everything that happens.  An access that throws, or whose behaviour is undefined, has no
    next state.  Logins and user infos touch the sessions only, which belong to this thread. *)
Inductive system_step (s : system) : system → Prop :=
  | Begins p : io s = Ret () → handler p → system_step s (mkSys (server s) p)
  | Accesses X (m : M gobang X) k x g : io s = Act m k → m (server s) = Ok (x, g) → system_step s (mkSys g (k x))
  | Logs_in body r g : io s = Ret () → _next_ssid (_sm (server s)) + 1 < 2 ^ 64 → login body (server s) = Ok (r, g) →
      system_step s (mkSys g (Ret ()))
  | Informs c r g : io s = Ret () → info c (server s) = Ok (r, g) → system_step s (mkSys g (Ret ()))
  | Times m : io s = Ret () → sm_step (_sm (server s)) m → system_step s (mkSys (mkG (_lobby (server s)) m (sent_msgs (server s))) (Ret ()))
  | Threads g : matches (server s) g → system_step s (mkSys g (io s)).

(** Sessions in order, room tables in order, and nobody in the hall and in a room. *)
Record gobang_inv (g : gobang) : Prop := {
  gi_sessions : sm_inv (_sm g);
  gi_rooms : manager_inv (mgr (_lobby g)) ∧ 0 ≤ _next_rid (mgr (_lobby g));
  gi_online : ∀ u, in_hall u (online (_lobby g)) → _room_user (online (_lobby g)) !! u = None;
}.

(** *** What the threads leave to a handler *)
Definition interferes : gobang → gobang → Prop := rtc matches.
Lemma matches_inv g g' : matches g g' → gobang_inv g → gobang_inv g'.
Proof.
  intros [w l Hn He] [H1 H2 H3]. destruct (thread_step_effect _ _ _ _ He) as [[Hr Hh] Hm].
  split; [done|by eapply mgr_effect_inv|]. intros u [c Hc]. cbn [_lobby] in *. rewrite Hr. apply H3. exists c.
  destruct (Hh u) as [E|[_ E]]; congruence.
Qed.
Lemma interferes_keeps g g' : interferes g g' →
  only_nulls (online (_lobby g)) (online (_lobby g')) ∧
  ∀ i r, _rooms (mgr (_lobby g)) !! i = Some r → _rooms (mgr (_lobby g')) !! i = Some r.
Proof.
  induction 1 as [g|g1 g2 g3 [w l Hn He] _ [IH1 IH2]]; [split; [reflexivity|done]|].
  destruct (thread_step_effect _ _ _ _ He) as [Ho Hm]. cbn [_lobby] in *. split; [by etransitivity|].
  intros i r Hi. by apply IH2, (mgr_effect_rooms _ _ _ _ Hm).
Qed.

(** *** Handlers that keep the invariant, whatever the threads do between their accesses *)
Fixpoint wp {A} (p : prog A) (Q : A → gobang → Prop) (g : gobang) : Prop :=
  match p with
  | Ret a => Q a g
  | Act m k => ∀ g1 x g2, interferes g g1 → gobang_inv g1 → m g1 = Ok (x, g2) → gobang_inv g2 ∧ wp (k x) Q g2
  end.
Lemma wp_bind {A B} (p : prog A) (f : A → prog B) Q g : wp p (λ a, wp (f a) Q) g → wp (p ≫= f) Q g.
Proof.
  revert g. induction p as [a|X m k IH]; intros g Hp; [exact Hp|]. intros g1 x g2 Hi Hg He.
  destruct (Hp g1 x g2 Hi Hg He) as [Hg2 Hk]. split; [done|]. by apply IH.
Qed.
Lemma wp_mono {A} (p : prog A) (Q Q' : A → gobang → Prop) g : (∀ a g, Q a g → Q' a g) → wp p Q g → wp p Q' g.
Proof.
  intros HQ. revert g. induction p as [a|X m k IH]; intros g Hp; [by apply HQ|]. intros g1 x g2 Hi Hg He.
  destruct (Hp g1 x g2 Hi Hg He) as [Hg2 Hk]. split; [done|]. by apply IH.
Qed.
Lemma wp_interferes (p : prog ()) g g' : interferes g g' → wp p (λ _ _, True) g → wp p (λ _ _, True) g'.
Proof. intros Hi. destruct p as [a|X m k]; [done|]. intros Hp g1 x g2 Hi'. apply Hp. by etransitivity. Qed.

(** An access that leaves the tables as they are. *)
Definition touches_nothing {X} (m : M gobang X) : Prop :=
  ∀ g x g', m g = Ok (x, g') → _lobby g' = _lobby g ∧ _sm g' = _sm g.
Lemma gobang_inv_same g g' : gobang_inv g → _lobby g' = _lobby g ∧ _sm g' = _sm g → gobang_inv g'.
Proof. intros [H1 H2 H3] [E1 E2]. split; by rewrite ?E1, ?E2. Qed.
Lemma ws_resp_nothing c msg : touches_nothing (ws_resp c msg).
Proof. by intros g x g' [= _ <-]. Qed.
Lemma ws_err_nothing c op why : touches_nothing (ws_err c op why).
Proof. apply ws_resp_nothing. Qed.
Lemma lift_nothing {X} (r : res X) : touches_nothing (lift_res r).
Proof. by intros g x g' [_ ->]%lift_res_inv. Qed.
Lemma gets_nothing {X} (r : gobang → X) : touches_nothing (gets r).
Proof. by intros g x g' [= _ <-]. Qed.
Hint Resolve ws_resp_nothing ws_err_nothing lift_nothing gets_nothing : core.
Lemma wp_nothing {X A} (m : M gobang X) (k : X → prog A) Q g :
  touches_nothing m → (∀ x g', gobang_inv g' → wp (k x) Q g') → wp (Act m k) Q g.
Proof. intros Hm Hk g1 x g2 Hi Hg He. assert (gobang_inv g2) by (eapply gobang_inv_same; [done|by eapply Hm]). by split; [|apply Hk]. Qed.
(** The last access of a handler. *)
Definition keeps_inv {X} (m : M gobang X) : Prop := ∀ g x g', gobang_inv g → m g = Ok (x, g') → gobang_inv g'.
Lemma wp_keeps {X A} (m : M gobang X) (k : X → prog A) Q g :
  keeps_inv m → (∀ x g', gobang_inv g' → wp (k x) Q g') → wp (Act m k) Q g.
Proof. intros Hm Hk g1 x g2 Hi Hg He. assert (gobang_inv g2) by by eapply Hm. by split; [|apply Hk]. Qed.
Lemma nothing_keeps {X} (m : M gobang X) : touches_nothing m → keeps_inv m.
Proof. intros Hm g x g' Hg He. eapply gobang_inv_same; [done|by eapply Hm]. Qed.
Lemma set_expire_keeps ssid ms : keeps_inv (set_expire ssid ms).
Proof. intros g x g' [H1 H2 H3] [= _ <-]. split; try done. by apply set_session_expire_time_inv. Qed.
Lemma put_lobby_keeps f :
  (∀ l, mgr (f l) = mgr l ∧ online (f l) = online l) → keeps_inv (put_lobby f).
Proof. intros Hf g x g' [H1 H2 H3] [= _ <-]. destruct (Hf (_lobby g)) as [E1 E2]. split; cbn; by rewrite ?E1, ?E2. Qed.
Lemma on_rooms_keeps {X} (m : online_game → M manager X) :
  (∀ og mg x mg', manager_inv mg → m og mg = Ok (x, mg') → manager_inv mg' ∧ _next_rid mg' = _next_rid mg) → keeps_inv (on_rooms m).
Proof.
  intros Hm g x g' [H1 [H2 H2n] H3]. unfold on_rooms. destruct (m _ _) as [[y mg]|] eqn:E; [|done]. intros [= _ <-].
  destruct (Hm _ _ _ _ H2 E) as [Hi Hn]. split; [done| |done]. cbn. by rewrite Hn.
Qed.
Lemma exit_hall_keeps u : keeps_inv (put_online (exit_game_hall u)).
Proof.
  intros g x g' [H1 H2 H3] [= _ <-]. split; [done|done|]. cbn. intros v [c Hc]. cbn in Hc. apply lookup_delete_Some in Hc as [_ Hc]. apply H3. by exists c.
Qed.
Lemma exit_room_keeps u : keeps_inv (put_online (exit_game_room u)).
Proof.
  intros g x g' [H1 H2 H3] [= _ <-]. split; [done|done|]. cbn. intros v Hv. apply lookup_delete_None. right. by apply H3.
Qed.

(** The user is neither in the hall nor in a room: so it stays while only the threads run. *)
Definition nowhere (u : Z) (g : gobang) : Prop :=
  ¬ in_hall u (online (_lobby g)) ∧ _room_user (online (_lobby g)) !! u = None.
Lemma nowhere_interferes u g g' : interferes g g' → nowhere u g → nowhere u g'.
Proof.
  intros Hi [H1 H2]. destruct (interferes_keeps _ _ Hi) as [[Hr Hh] _]. split; [|by rewrite Hr].
  intros [c Hc]. apply H1. exists c. destruct (Hh u) as [E|[_ E]]; congruence.
Qed.
Lemma nowhere_same u g g' : _lobby g' = _lobby g → nowhere u g → nowhere u g'.
Proof. unfold nowhere. by intros ->. Qed.

Lemma wp_session c (f : option (Z * session) → prog ()) g :
  gobang_inv g → (∀ o g', gobang_inv g' → wp (f o) (λ _ _, True) g') → wp (get_session_by_cookie access c ≫= f) (λ _ _, True) g.
Proof.
  intros Hg Hf. apply wp_bind. unfold get_session_by_cookie. apply wp_bind.
  assert (Hrest : ∀ g, wp (ssid_str ← access _ (lift_res (get_cookie_val (cookie c) (lit "SSID")));
     match ssid_str with
     | None => access _ (ws_err c "hall_ready" "找不到ssid，请重新登陆");; mret None
     | Some ssid_str => ssid ← access _ (lift_res (stol_u64 ssid_str)); ssp ← access _ (gets (λ g, get_session_by_ssid ssid (_sm g)));
         match ssp with None => access _ (ws_err c "hall_ready" "找不到session，请重新登陆");; mret None | Some ssp => mret (Some ssp) end
     end) (λ a, wp (f a) (λ _ _, True)) g); [|case_decide; [apply wp_nothing; [done|]; intros; apply Hrest|apply Hrest]].
  intros g'. apply wp_nothing; [done|]. intros [s|] g1 Hg1; [|apply wp_nothing; [done|]; intros; by apply Hf].
  apply wp_nothing; [done|]. intros i g2 Hg2. apply wp_nothing; [done|]. intros [ss|] g3 Hg3; [by apply Hf|].
  apply wp_nothing; [done|]. intros; by apply Hf.
Qed.

(** A user who is found nowhere is nowhere, until the handler itself lets the user in. *)
Lemma wp_logged_in u (f : bool → prog ()) Q g :
  (∀ g', gobang_inv g' → wp (f true) Q g') → (∀ g', gobang_inv g' → nowhere u g' → wp (f false) Q g') →
  wp (logged_in access u ≫= f) Q g.
Proof.
  intros Ht Hf. intros g1 og g2 _ Hg1 [= <- <-]. split; [done|]. cbn [mbind prog_mbind prog_bind mret prog_ret access].
  destruct (is_in_game_hall u (online (_lobby g1))) eqn:E; [by apply Ht|]. intros g2 og g3 Hi Hg2 [= <- <-]. split; [done|].
  cbn. destruct (is_in_game_room u (online (_lobby g2))) eqn:Er; [by apply Ht|]. apply Hf; [done|].
  apply bool_decide_eq_false, eq_None_not_Some in Er. split; [|done]. intros [c Hc].
  destruct (interferes_keeps _ _ Hi) as [[_ Hh] _]. apply bool_decide_eq_false, eq_None_not_Some in E. destruct (Hh u) as [F|[_ F]]; congruence.
Qed.
Lemma join_keeps u g g' c x :
  gobang_inv g → nowhere u g → (put_online (join_game_hall u c) g = Ok (x, g') ∨ put_online (join_game_room u c) g = Ok (x, g')) → gobang_inv g'.
Proof.
  intros [H1 H2 H3] [Hh Hr] [[= _ <-]|[= _ <-]]; (split; [done|done|]); cbn; intros v [d Hd].
  - unfold join_game_hall, map_insert_new in Hd. cbn in Hd. destruct (_hall_user (online (_lobby g)) !! u) eqn:E; [apply H3; by exists d|].
    apply lookup_insert_Some in Hd as [[<- _]|[_ Hd]]; [done|]. apply H3. by exists d.
  - unfold map_insert_new. rewrite Hr. destruct (decide (v = u)) as [->|Hne]; [destruct Hh; by exists d|].
    rewrite lookup_insert_ne by done. apply H3. by exists d.
Qed.

Lemma wp_done (m : M gobang ()) g : keeps_inv m → wp (access _ m) (λ _ _, True) g.
Proof. intros Hm. by apply wp_keeps. Qed.
Lemma wp_open uri c g : gobang_inv g → wp (wsopen_callback access uri c) (λ _ _, True) g.
Proof.
  intros Hg. unfold wsopen_callback, by_uri. destruct (decide _); [|destruct (decide _); [|done]]; apply wp_session; try done;
    (intros [[ssid ss]|] g1 Hg1; [|done]); apply wp_logged_in; try (intros; by apply wp_done, nothing_keeps); intros g2 Hg2 Hn.
  - intros g3 x g4 Hi Hg3 He. split; [eapply join_keeps; [done|by eapply nowhere_interferes|by left]|].
    apply wp_nothing; [done|]. intros; apply wp_done, set_expire_keeps.
  - intros g3 x g4 Hi Hg3 [= <- <-]. split; [done|]. cbn beta. pose proof (nowhere_interferes _ _ _ Hi Hn) as Hn3.
    destruct (get_room_by_uid _ _) as [[rid r]|]; [|by apply wp_done, nothing_keeps].
    intros g5 x g6 Hi5 Hg5 He. split; [eapply join_keeps; [done|by eapply nowhere_interferes|by right]|].
    apply wp_keeps; [apply set_expire_keeps|]. intros; by apply wp_done, nothing_keeps.
Qed.

(** *** The removal of a room, access by access *)
Lemma wp_remove_room_user u g : gobang_inv g → wp (remove_room_user (λ A m, access A (on_rooms m)) u) (λ _ _, True) g.
Proof.
  intros Hg. unfold remove_room_user. apply wp_keeps; [apply on_rooms_keeps; by intros og mg x mg' Hm [= _ <-]|].
  intros [[rid r]|] g1 Hg1; [|done]. apply wp_bind. intros g2 rp g3 _ Hg2 He. unfold on_rooms in He.
  destruct (room_handle_exit _ _ _ _) as [[y mg]|] eqn:E; [|done]. injection He as -> <-.
  destruct (gi_rooms _ Hg2) as [Hm Hnr]. destruct (room_handle_exit_inv _ _ _ _ _ _ Hm E) as (Hm' & Hn & Hr & Hid).
  assert (Hg3 : gobang_inv (mkG (set_mgr mg (_lobby g2)) (_sm g2) (sent_msgs g2))).
  { destruct Hg2 as [? ? ?]. split; try done. cbn. by rewrite Hn. }
  split; [done|]. cbn [wp]. destruct (_player_count rp =? 0); [|done]. rewrite Hid. unfold remove_room.
  intros g4 o g5 Hi4 Hg4 [= <- <-]. split; [by destruct g4 as [[] ? ?]|]. cbn beta.
  apply (proj2 (interferes_keeps _ _ Hi4)) in Hr. unfold get_room_by_rid. rewrite Hr. cbn [fmap option_fmap option_map].
  intros g6 x g7 Hi6 Hg6 He. split; [|done]. destruct (gi_rooms _ Hg6) as [Hm6 Hn6].
  assert (Hr6 : _rooms (mgr (_lobby g6)) !! rid = Some rp) by (apply (proj2 (interferes_keeps _ _ Hi6)); by destruct g4 as [[] ? ?]).
  unfold on_rooms in He. destruct (erase_room _ _ _ _) as [[[] mg7]|] eqn:E7; [|done]. injection He as _ <-.
  destruct (erase_room_inv _ _ _ _ Hm6 Hr6 E7) as [Hm7 Hn7]. destruct Hg6 as [? ? ?]. split; try done. cbn. by rewrite Hn7.
Qed.

Lemma wp_close uri c g : gobang_inv g → wp (wsclose_callback access uri c) (λ _ _, True) g.
Proof.
  intros Hg. unfold wsclose_callback, by_uri. destruct (decide _); [|destruct (decide _); [|done]]; apply wp_session; try done;
    (intros [[ssid ss]|] g1 Hg1; [|done]).
  - apply wp_keeps; [apply exit_hall_keeps|]. intros. apply wp_done, set_expire_keeps.
  - apply wp_keeps; [apply exit_room_keeps|]. intros [] g2 Hg2. apply wp_keeps; [apply set_expire_keeps|]. intros [] g3 Hg3. by apply wp_remove_room_user.
Qed.

Lemma wp_msg uri c msg g : gobang_inv g → wp (wsmsg_callback access uri c msg) (λ _ _, True) g.
Proof.
  intros Hg. unfold wsmsg_callback, by_uri. destruct (decide _); [|destruct (decide _); [|done]]; apply wp_session; try done;
    (intros [[ssid ss]|] g1 Hg1; [|done]).
  - destruct (unserialize msg) as [req|]; [|by apply wp_done, nothing_keeps].
    destruct (optype req) as [op|]; [|by apply wp_done, nothing_keeps].
    repeat case_decide; [| |by apply wp_done, nothing_keeps];
      (apply wp_keeps; [apply put_lobby_keeps; intros l; (apply add_rest || apply del_rest)|]; intros; by apply wp_done, nothing_keeps).
  - apply wp_nothing; [done|]. intros [[rid r]|] g2 Hg2; [|by apply wp_done, nothing_keeps].
    destruct (unserialize msg) as [req|]; [|by apply wp_done, nothing_keeps].
    apply wp_done, on_rooms_keeps. intros og mg [] mg' Hm He. by eapply room_request_inv.
Qed.
Lemma handler_wp p g : handler p → gobang_inv g → wp p (λ _ _, True) g.
Proof. intros [uri c|uri c|uri c msg] Hg; [by apply wp_open|by apply wp_close|by apply wp_msg]. Qed.

Lemma login_inv body r g g' :
  gobang_inv g → _next_ssid (_sm g) + 1 < 2 ^ 64 → login body g = Ok (r, g') → gobang_inv g'.
Proof.
  intros HI Hn. unfold login. destruct (parse_login body) as [[[n|] [p|]]|]; try by intros [= _ <-].
  destruct (ut_login n p) as [u|]; [|by intros [= _ <-]]. intros He. erewrite !bind_ok in He by reflexivity.
  injection He as _ <-. destruct HI as [H1 H2 H3]. split; try done. by apply set_session_expire_time_inv, create_session_inv.
Qed.

Lemma info_inv c r g g' : gobang_inv g → info c g = Ok (r, g') → gobang_inv g'.
Proof.
  intros HI. unfold info. destruct (decide _); [by intros [= _ <-]|]. intros He.
  apply bind_inv in He as (o & g1 & [_ ->]%lift_res_inv & He). destruct o as [s|]; [|by injection He as _ <-].
  apply bind_inv in He as (i & g2 & [_ ->]%lift_res_inv & He). erewrite bind_ok in He by reflexivity.
  destruct (get_session_by_ssid i (_sm g)) as [[ssid ss]|]; [|by injection He as _ <-].
  destruct (select_by_id (_uid ss)); [|by injection He as _ <-]. erewrite bind_ok in He by reflexivity. injection He as _ <-.
  destruct HI as [? ? ?]. split; try done. by apply set_session_expire_time_inv.
Qed.

Definition idle : lobby := mkLobby (λ _, []) (λ _, AtSize) new_manager new_online.
Definition new_gobang : gobang := mkG idle new_session_manager [].

(** C22: Whatever clients, timers and matching threads do, with the threads interleaved between the
    single accesses of the handlers: no user has a connection in the hall and one in a room; each
    room is stored under its own id and each user entry leads to an existing room in which that user
    plays; and the sessions are those whose timer, if any, still runs, once the posted handlers have
    run. The handlers and the timers run on one thread, one at a time, as long as they return. The
    lookups of the hall take no lock: search and subscript are two accesses, and a null entry can
    remain in the hall. A single access is one step: two threads inside the same unordered_map at
    once, which C++ leaves undefined, are not covered. The numbers of sessions and rooms stay below
    2^64. *)
Theorem gobang_stays_consistent s :
  rtc system_step (mkSys new_gobang (Ret ())) s →
  let g := server s in
  (∀ u c, ¬ (_hall_user (online (_lobby g)) !! u = Some (Some c) ∧ is_in_game_room u (online (_lobby g)) = true)) ∧
  manager_inv (mgr (_lobby g)) ∧
  (∀ ssid, ssid ∈ settled (_sm g) ↔ ∃ s, objects (_sm g) !! ssid = Some s ∧ timer_running (_sm g) s).
Proof.
  intros Hr. cbv zeta. set (s0 := mkSys new_gobang (Ret ())) in Hr. assert (HI : gobang_inv (server s0) ∧ wp (io s0) (λ _ _, True) (server s0)).
  { split; [|done]. split; [apply sm_inv_new|split; [apply new_manager_inv|done]|]. intros u _. apply lookup_empty. }
  assert (gobang_inv (server s)) as [H1 [H2 _] H3].
  { clearbody s0. induction Hr as [|a b c Hs _ IH]; [apply HI|]. apply IH. clear IH. destruct HI as [HI Hw].
    destruct Hs as [p Hp|X m k x g Hio He|body r g Hio Hn He|co r g Hio He|m Hio Hm|g Hm]; cbn [server io].
    - split; [done|by apply handler_wp].
    - rewrite Hio in Hw. by apply (Hw (server a) x g).
    - split; [by eapply login_inv|done].
    - split; [by eapply info_inv|done].
    - split; [|done]. destruct HI as [G1 G2 G3]. split; try done. cbn. destruct Hm; [by apply create_session_inv|by apply set_session_expire_time_inv|
        by apply cancel_inv|by apply run_posted_inv].
    - split; [by eapply matches_inv|]. eapply wp_interferes; [by apply rtc_once|done]. }
  split; [|split; [done|apply (si_settled _ H1)]]. intros u c [Hh Hro%bool_decide_eq_true].
  destruct Hro as [d Hd]. rewrite H3 in Hd; [done|by exists c].
Qed.

(** Running a handler to its end without interference. *)
Fixpoint run_io (fuel : nat) (s : system) : option system :=
  match fuel, io s with
  | _, Ret () => Some s
  | O, _ => None
  | S fuel, Act m k => match m (server s) with Ok (x, g) => run_io fuel (mkSys g (k x)) | Err _ => None end
  end.
Lemma run_io_steps fuel s s' : run_io fuel s = Some s' → rtc system_step s s'.
Proof.
  revert s. induction fuel as [|fuel IH]; intros s; cbn [run_io]; destruct (io s) as [[]|X m k] eqn:E; try (by intros [= <-]); try done.
  destruct (m (server s)) as [[x g]|] eqn:Em; [|done]. intros Hs. eapply rtc_l; [by eapply Accesses|]. by apply IH.
Qed.
End Server.

(** ** Concrete runs

    User 7 with two browser windows (connections 1 and 2) that share a cookie;
    connection 3 sends a cookie that is no number. *)
Definition cookie7 (c : conn) : str :=
  if decide (c = 3%positive) then lit "SSID=x" else lit "theme=dark; SSID=1".
Definition parse7 (body : str) : option (option str * option str) := Some (Some body, Some body).
Definition users7 (name pass : str) : option Z := Some 7.
Definition no_json (s : str) : option json := None.

(** A second window of a user in the hall is refused, but closing it removes
    the user from the hall, although the first window is still connected. *)
Theorem second_window_evicts :
  ∃ g, (login parse7 users7 [];; wsopen_callback cookie7 whole "/hall" 1%positive;;
        wsopen_callback cookie7 whole "/hall" 2%positive;; wsclose_callback cookie7 whole "/hall" 2%positive) new_gobang = Ok ((), g) ∧
    ((λ p, p.1) <$> sent_msgs g) = [1%positive; 2%positive] ∧ is_in_game_hall 7 (online (_lobby g)) = false.
Proof. eexists. split; [vm_compute; reflexivity|]. split; vm_compute; reflexivity. Qed.

(** [std::stol] throws on a cookie that is not a number, and no handler catches it. *)
Theorem bad_cookie_throws : wsopen_callback cookie7 whole "/hall" 3%positive new_gobang = Err StdException.
Proof. vm_compute. reflexivity. Qed.

(** Users 11 and 12 in a room: a request of user 11 that names user 12 in its
    [uid] member places a stone for user 12. *)
Definition room_server : gobang :=
  mkG (mkLobby (λ _, []) (λ _, AtSize)
        (mkManager 2 {[ 1 := add_black_user 12 (add_white_user 11 (new_room 1 0 0)) ]} {[ 11 := 1; 12 := 1 ]} [])
        two_players)
      (create_session 11 LOGIN new_session_manager).2 [].
Definition as_12 (s : str) : option json := Some (play 12 7 7).

Theorem plays_for_opponent :
  ∃ g, wsmsg_callback (H := json_checked) cookie7 as_12 score_1000 whole "/room" 1%positive [] room_server = Ok ((), g) ∧
    (λ p, at_ (_board p.2) 7 7) <$> get_room_by_uid 11 (mgr (_lobby g)) = Some (Ok CHESS_BLACK).
Proof. eexists. split; [vm_compute; reflexivity|]. vm_compute. reflexivity. Qed.

(** ** Witnesses *)
Lemma login_cookie_identifies_witness :
  ∃ resp g1 ssid ss, login parse7 users7 [] new_gobang = Ok (resp, g1) ∧
    get_session_by_cookie cookie7 whole 1%positive g1 = Ok (Some (ssid, ss), g1) ∧ _uid ss = 7.
Proof.
  destruct (login_cookie_identifies cookie7 parse7 users7 new_gobang [] [] [] 7 1%positive [(lit "theme", lit "dark")] [])
    as (resp & g1 & ssid & ss & H1 & _ & _ & H2 & H3).
  - exact sm_inv_new.
  - vm_compute. reflexivity.
  - reflexivity.
  - reflexivity.
  - constructor; [|constructor]. split; (split; [done|by repeat constructor]).
  - by repeat constructor.
  - reflexivity.
  - exists resp, g1, ssid, ss. split; [exact H1|]. split; [exact H2|exact H3].
Defined.

Lemma no_session_no_effect_witness :
  ∃ g2, wsopen_callback cookie7 whole "/room" 1%positive new_gobang = Ok ((), g2) ∧ _lobby g2 = idle.
Proof.
  edestruct (no_session_no_effect (H := json_checked) cookie7 no_json score_1000 "/room" 1%positive [] new_gobang)
    as (g2 & g3 & g4 & H1 & _ & _ & H2); [vm_compute; reflexivity|].
  exists g2. split; [exact H1|]. apply Forall_cons in H2 as [[H2 _] _]. exact H2.
Defined.

(** User 7 logs in; a thread looks at its queue; user 7 enters the hall. *)
Definition logged7 : gobang := match login parse7 users7 [] new_gobang with Ok (_, g) => g | Err _ => new_gobang end.
Definition looked : gobang :=
  match thread_step score_1000 Normal (_lobby logged7) with Ok l => mkG l (_sm logged7) (sent_msgs logged7) | Err _ => logged7 end.
Definition entered : option system := run_io 10 (mkSys looked (wsopen_callback cookie7 access "/hall" 1%positive)).
Lemma entered_hall : (λ s, is_in_game_hall 7 (online (_lobby (server s)))) <$> entered = Some true.
Proof. vm_compute. reflexivity. Qed.
Lemma entered_reached s :
  entered = Some s → rtc (system_step (H := json_checked) cookie7 no_json parse7 users7 score_1000) (mkSys new_gobang (Ret ())) s.
Proof.
  intros He. assert (∃ r, login parse7 users7 [] new_gobang = Ok (r, logged7)) as [r Hl].
  { unfold logged7. destruct (login parse7 users7 [] new_gobang) as [[r g]|e] eqn:E; [by exists r|]. exfalso.
    assert (Hok : match login parse7 users7 [] new_gobang with Ok _ => true | Err _ => false end = true) by (vm_compute; reflexivity). by rewrite E in Hok. }
  eapply rtc_l; [apply (Logs_in cookie7 no_json parse7 users7 score_1000 (mkSys new_gobang (Ret ())) [] r logged7); [done|by vm_compute|exact Hl]|].
  eapply rtc_l; [apply (Threads cookie7 no_json parse7 users7 score_1000 (mkSys logged7 (Ret ())) looked)|].
  { cbn [server]. unfold looked. destruct (thread_step score_1000 Normal (_lobby logged7)) as [l|e] eqn:E; [apply (Matches score_1000 _ Normal l); [by vm_compute|exact E]|]. exfalso.
    assert (Hok : match thread_step score_1000 Normal (_lobby logged7) with Ok _ => true | Err _ => false end = true) by (vm_compute; reflexivity). by rewrite E in Hok. }
  eapply rtc_l; [apply (Begins cookie7 no_json parse7 users7 score_1000 (mkSys looked (Ret ())) (wsopen_callback cookie7 access "/hall" 1%positive)); [done|constructor]|].
  by apply (run_io_steps (H := json_checked) cookie7 no_json parse7 users7 score_1000 10).
Qed.
Lemma gobang_stays_consistent_witness :
  ∃ s, entered = Some s ∧ is_in_game_hall 7 (online (_lobby (server s))) = true ∧ manager_inv (mgr (_lobby (server s))).
Proof.
  pose proof entered_hall as Hh. destruct entered as [s|] eqn:E; [|discriminate Hh]. exists s. split; [reflexivity|]. split; [by injection Hh|].
  apply (gobang_stays_consistent (H := json_checked) cookie7 no_json parse7 users7 score_1000 s (entered_reached s E)).
Defined.
