(* ===== verification/UserTable.v ===== *)
(** * The user table and the HTTP requests of the game server (src/game/source/db.hpp, server.hpp)

    MySQL is a parameter: what a statement, given as text, answers and leaves of the
    database.  The statements are built by [sprintf] in an array of 4096 bytes.  The
    HTTP handlers are [reg], [login] and [info] and the files; the table of sessions
    and the login proper are those of [Gobang]. *)

From S2P Require Import Prelude StdString Room Lobby Session Gobang.

Open Scope Z_scope.

(** ** Statements *)
Definition SQL_SIZE : nat := 4096.
(** [sprintf(sql, ...)] of a text without its terminator. *)
Definition sprintf (text : str) : res str := if (length text <? SQL_SIZE)%nat then Ok text else Err OutOfBounds.

Definition INSERT_USER (username password : str) : str :=
  lit "insert into user values(null,'" ++ username ++ lit "',password('" ++ password ++ lit "'),1000,0,0);".
Definition LOGIN_USER (username password : str) : str :=
  lit "select id,score,total_count,win_count from user where username='" ++ username ++
  lit "' and password=password('" ++ password ++ lit "');".
Definition USER_BY_NAME (username : str) : str :=
  lit "select id,score,total_count,win_count from user where username='" ++ username ++ lit "';".
(** [%d] reads the low 32 bits of the [uint64_t] as an [int]. *)
Definition USER_BY_ID (id : Z) : str :=
  lit "select username,score,total_count,win_count from user where id='" ++ to_string (to_int32 id) ++ lit "';".
Definition USER_WIN (id : Z) : str :=
  lit "update user set score=score+30,total_count=total_count+1,win_count=win_count+1 where id=" ++ to_string id ++ lit ";".
Definition USER_LOSE (id : Z) : str :=
  lit "update user set score=score-30,total_count=total_count+1 where id=" ++ to_string id ++ lit ";".

(** A member of a JSON value. *)
Inductive jval := JNull | JString (s : str) | JOther.
#[global] Instance jval_eq_dec : EqDecision jval.
Proof. solve_decision. Defined.
Definition isNull (v : jval) : bool := match v with JNull => true | _ => false end.
(** [asCString()], read up to its NUL by [%s]. *)
Definition asCString (v : jval) : res str := match v with JString s => Ok (c_str s) | _ => Err StdException end.

(** A row of a result: [NULL] columns are null pointers. *)
Abbreviation row := (list (option str)).
Definition column (r : row) (i : nat) : res str :=
  match r !! i with Some (Some s) => Ok s | Some None => Err StdException | None => Err OutOfBounds end.
Definition int_column (r : row) (i : nat) : res Z := s ← column r i; stoi s.

Record user_info := mkUser { u_id : Z; u_name : option str; u_score : Z; u_total : Z; u_win : Z }.

Section Table.
Context {Db : Type}.
(** [mysql_query] and [mysql_store_result]: [None] is a failure; a statement that is
    not a query has no result set. *)
Context (mysql_query : str → Db → option (Db * option (list row))).

Definition mysql_execl (sql : str) : M Db (option (option (list row))) := λ d,
  match mysql_query sql d with None => Ok (None, d) | Some (d', r) => Ok (Some r, d') end.
Definition execl (sql : str) : M Db bool := r ← mysql_execl sql; mret (match r with Some _ => true | None => false end).
(** The result of a query that has exactly one row. *)
Definition one_row (sql : str) : M Db (option row) :=
  r ← mysql_execl sql;
  mret (match r with Some (Some [x]) => Some x | _ => None end).

Definition insert (username password : jval) : M Db bool :=
  if isNull username || isNull password then mret false
  else
    n ← lift_res (asCString username); p ← lift_res (asCString password);
    sql ← lift_res (sprintf (INSERT_USER n p));
    execl sql.

Definition user_login (username password : jval) : M Db (option user_info) :=
  if isNull username || isNull password then mret None
  else
    n ← lift_res (asCString username); p ← lift_res (asCString password);
    sql ← lift_res (sprintf (LOGIN_USER n p));
    r ← one_row sql;
    match r with
    | None => mret None
    | Some r =>
        id ← lift_res (int_column r 0); score ← lift_res (int_column r 1);
        total ← lift_res (int_column r 2); win ← lift_res (int_column r 3);
        mret (Some (mkUser id None score total win))
    end.

Definition select_by_name (name : str) : M Db (option user_info) :=
  sql ← lift_res (sprintf (USER_BY_NAME (c_str name)));
  r ← one_row sql;
  match r with
  | None => mret None
  | Some r =>
      id ← lift_res (int_column r 0); score ← lift_res (int_column r 1);
      total ← lift_res (int_column r 2); win ← lift_res (int_column r 3);
      mret (Some (mkUser id (Some name) score total win))
  end.

(** The score goes through [std::stol] and [UInt64]. *)
Definition select_by_id (id : Z) : M Db (option user_info) :=
  sql ← lift_res (sprintf (USER_BY_ID id));
  r ← one_row sql;
  match r with
  | None => mret None
  | Some r =>
      name ← lift_res (column r 0); score ← lift_res (s ← column r 1; stol s);
      total ← lift_res (int_column r 2); win ← lift_res (int_column r 3);
      mret (Some (mkUser id (Some name) (u64 score) total win))
  end.

Definition win (id : Z) : M Db bool := sql ← lift_res (sprintf (USER_WIN id)); execl sql.
Definition lose (id : Z) : M Db bool := sql ← lift_res (sprintf (USER_LOSE id)); execl sql.

(** *** Statements and their values *)
Definition no_quote (s : str) : Prop := Forall (λ c, c ≠ "'"%char) s.

Lemma no_quote_split a b x y : no_quote a → no_quote b → a ++ "'"%char :: x = b ++ "'"%char :: y → a = b ∧ x = y.
Proof.
  intros Ha. revert b. induction Ha as [|c a Hc Ha IH]; intros b Hb E.
  - destruct b as [|d b]; [by injection E|]. cbn in E. injection E as <- _. by inversion Hb.
  - destruct b as [|d b]; cbn in E; [injection E as -> _; done|]. injection E as <- E. inversion Hb; subst.
    destruct (IH b) as [-> ->]; [done|done|done].
Qed.

Lemma login_text_inj n p n' p' :
  no_quote n → no_quote p → no_quote n' → no_quote p' → LOGIN_USER n p = LOGIN_USER n' p' → n = n' ∧ p = p'.
Proof.
  intros Hn Hp Hn' Hp' E. unfold LOGIN_USER in E. apply app_inv_head in E.
  apply no_quote_split in E as [-> E]; [|done|done].
  change (lit " and password=password('" ++ p ++ lit "');" = lit " and password=password('" ++ p' ++ lit "');") in E.
  apply app_inv_head in E. by apply no_quote_split in E as [-> _].
Qed.

Lemma no_quote_c_str s : no_quote s → no_quote (c_str s).
Proof. induction 1 as [|c s Hc _ IH]; [constructor|]. cbn [c_str]. case_decide; by constructor. Qed.

(** A name that ends the literal and comments out the rest: the password does not matter. *)
Example login_injection p : LOGIN_USER (lit "bob' -- ") p =
  lit "select id,score,total_count,win_count from user where username='bob' -- ' and password=password('" ++ p ++ lit "');".
Proof. reflexivity. Qed.

Definition login_text_size : nat := 92.
Lemma login_length n p : length (LOGIN_USER n p) = (login_text_size + length n + length p)%nat.
Proof. unfold LOGIN_USER. rewrite !length_app. unfold login_text_size. cbn. lia. Qed.

(** The login statement says what was typed: it fits the array exactly when name and
    password together have at most 4003 characters, and is otherwise written beyond its
    end, before any query; and names and passwords without a quote can be read off it,
    so that different ones give different statements.  With a quote they need not. *)
Theorem login_statement_safe n p d :
  c_str n = n → c_str p = p →
  ((length n + length p ≤ 4003)%nat → sprintf (LOGIN_USER n p) = Ok (LOGIN_USER n p)) ∧
  ((4003 < length n + length p)%nat → user_login (JString n) (JString p) d = Err OutOfBounds) ∧
  (no_quote n → no_quote p → ∀ n' p', no_quote n' → no_quote p' → LOGIN_USER n p = LOGIN_USER n' p' → n = n' ∧ p = p') ∧
  (let q := lit "' and password=password('" in LOGIN_USER (n ++ q ++ n) p = LOGIN_USER n (n ++ q ++ p)).
Proof.
  intros Hn Hp. unfold sprintf. split; [|split; [|split]].
  - intros Hl. rewrite (proj2 (Nat.ltb_lt _ _)); [done|]. rewrite login_length. unfold login_text_size, SQL_SIZE. lia.
  - intros Hl. unfold user_login. cbn [isNull orb]. erewrite bind_ok by done. erewrite bind_ok by done.
    apply bind_err. unfold lift_res, sprintf. rewrite Hn, Hp, (proj2 (Nat.ltb_ge _ _)); [done|].
    rewrite login_length. unfold login_text_size, SQL_SIZE. lia.
  - intros Hqn Hqp n' p' Hn' Hp'. by apply login_text_inj.
  - cbv zeta. unfold LOGIN_USER. by rewrite <- !app_assoc.
Qed.

End Table.

(** ** HTTP requests *)
Section Http.
Context `{JsonLib} {Db : Type}.
Context (mysql_query : str → Db → option (Db * option (list row))).
(** The [Cookie] header of a request; JsonCpp's parser, as the members [username] and
    [password]; [file_util::read]. *)
Context (cookie : conn → str) (unserialize_login : str → option (jval * jval)) (read_file : str → option str).
Context (www_root : str).

Inductive reply := RHttp (r : http_response) | RInfo (uid : Z) | RFile (status : Z) (body : str).

Abbreviation server := (Db * gobang)%type (only parsing).
Definition on_table {A} (m : M Db A) : M server A := λ s,
  match m s.1 with Ok (a, d) => Ok (a, (d, s.2)) | Err e => Err e end.
Definition on_server {A} (m : M gobang A) : M server A := λ s,
  match m s.2 with Ok (a, g) => Ok (a, (s.1, g)) | Err e => Err e end.

Definition not_found_page : str :=
  lit "<html><head><meta charset='utf-8'/></head><body><h1> Not Found </h1></body>".
Definition file_handler (uri : str) : M server reply :=
  let realpath := www_root ++ uri in
  let realpath := if decide (last realpath = Some "/"%char) then realpath ++ lit "login.html" else realpath in
  match read_file realpath with
  | None => mret (RFile 404 not_found_page)
  | Some body => mret (RFile 200 body)
  end.

Definition reg (body : str) : M server reply :=
  match unserialize_login body with
  | None => r ← on_server (http_resp false 400 "请求正文错误"); mret (RHttp r)
  | Some (username, password) =>
      if isNull username || isNull password then r ← on_server (http_resp false 400 "请输入用户名和密码"); mret (RHttp r)
      else
        flag ← on_table (insert mysql_query username password);
        if (flag : bool) then r ← on_server (http_resp true 200 "注册成功"); mret (RHttp r)
        else r ← on_server (http_resp false 400 "用户名已被占用"); mret (RHttp r)
  end.

(** The members of a parsed body that are there. *)
Definition present (v : jval) : option str := match v with JNull => None | JString s => Some s | JOther => Some [] end.
(** [login]: the query on the table, and [Gobang.login] with its answer. *)
Definition http_login (body : str) : M server reply :=
  u ← on_table (match unserialize_login body with
                | Some (username, password) => user_login mysql_query username password
                | None => mret None
                end);
  r ← on_server (login (λ b, (λ v, (present v.1, present v.2)) <$> unserialize_login b) (λ _ _, u64 <$> (u_id <$> u)) body);
  mret (RHttp r).

(** [info]: the session's user is looked up before the answer. *)
Definition http_info (c : conn) : M server reply := λ s,
  (** the user of the session, as [Gobang.info] finds it *)
  match info cookie (λ _, Some 0) c s.2 with
  | Ok (inr uid, _) =>
      match select_by_id mysql_query uid s.1 with
      | Err e => Err e
      | Ok (u, d) =>
          match info cookie (λ _, u_score <$> u) c s.2 with
          | Ok (inr uid, g) => Ok (RInfo uid, (d, g))
          | Ok (inl r, g) => Ok (RHttp r, (d, g))
          | Err e => Err e
          end
      end
  | Ok (inl r, g) => Ok (RHttp r, (s.1, g))
  | Err e => Err e
  end.

Definition http_callback (method uri : str) (c : conn) (body : str) : M server reply :=
  if decide (method = lit "POST" ∧ uri = lit "/reg") then reg body
  else if decide (method = lit "POST" ∧ uri = lit "/login") then http_login body
  else if decide (method = lit "GET" ∧ uri = lit "/info") then http_info c
  else file_handler uri.

(** The users of the sessions. *)
Definition session_users (m : session_manager) : gmap Z Z := _uid <$> objects m.

Lemma set_timer_users ssid tp m : session_users (set_timer_of ssid tp m) = session_users m.
Proof.
  unfold session_users, set_timer_of. cbn. apply map_eq. intros i. rewrite !lookup_fmap.
  destruct (decide (i = ssid)) as [->|Hne]; [rewrite lookup_alter_eq|by rewrite lookup_alter_ne]. by destruct (objects m !! ssid).
Qed.
Lemma cancel_users t m : session_users (cancel t m) = session_users m.
Proof. unfold cancel. by destruct (pending m !! t). Qed.
Lemma expire_time_users ssid ms m : session_users (set_session_expire_time ssid ms m) = session_users m.
Proof.
  unfold set_session_expire_time. destruct (get_session_by_ssid ssid m) as [[i ss]|]; [|done].
  destruct (_tp ss) as [tp|], (ms =? SESSION_FOREVER); cbn [start_timer]; [| |done|].
  - change (session_users (set_timer_of ssid None (cancel tp m)) = session_users m). by rewrite set_timer_users, cancel_users.
  - rewrite set_timer_users. change (session_users (set_timer_of ssid None (cancel tp m)) = session_users m).
    by rewrite set_timer_users, cancel_users.
  - by rewrite set_timer_users.
Qed.

Lemma info_effect sel c g r g' :
  info cookie sel c g = Ok (r, g') →
  _lobby g' = _lobby g ∧ sent_msgs g' = sent_msgs g ∧ session_users (_sm g') = session_users (_sm g).
Proof.
  unfold info, http_resp, mbind, M_bind, lift_res, gets, mret, M_ret. case_decide; [by intros [= _ <-]|].
  destruct (get_cookie_val (cookie c) (lit "SSID")) as [[v|]|]; cbn; [|by intros [= _ <-]|done].
  destruct (stol_u64 v) as [ssid|]; cbn; [|done].
  destruct (get_session_by_ssid ssid (_sm g)) as [[i ss]|]; cbn; [|by intros [= _ <-]].
  destruct (sel (_uid ss)); cbn; [|by intros [= _ <-]]. intros [= _ <-]. cbn. by rewrite expire_time_users.
Qed.

Lemma login_effect pl ul body g r g' :
  login pl ul body g = Ok (r, g') →
  _lobby g' = _lobby g ∧ sent_msgs g' = sent_msgs g ∧
  (session_users (_sm g') = session_users (_sm g) ∨
   ∃ n p uid, pl body = Some (Some n, Some p) ∧ ul n p = Some uid ∧
     session_users (_sm g') = <[_next_ssid (_sm g) := uid]> (session_users (_sm g))).
Proof.
  unfold login, http_resp, mbind, M_bind, mret, M_ret. destruct (pl body) as [[[n|] [p|]]|]; [|intros [= _ <-]; by auto..].
  destruct (ul n p) as [uid|] eqn:Eu; [|intros [= _ <-]; by auto].
  cbn. intros [= _ <-]. cbn. split; [done|]. split; [done|]. right. exists n, p, uid. split; [done|]. split; [done|].
  rewrite expire_time_users. unfold session_users. cbn. by rewrite fmap_insert.
Qed.

Lemma user_login_strings n p d u d' :
  user_login mysql_query n p d = Ok (Some u, d') → ∃ n' p', n = JString n' ∧ p = JString p'.
Proof.
  unfold user_login. destruct n as [|n|]; [done| |by destruct p]. destruct p as [|p|]; [done|by eauto|].
  unfold mbind, M_bind, lift_res. done.
Qed.

(** A row for the login statement: what the statement answers, and the user read off it. *)
Lemma user_login_row n p d u d' :
  user_login mysql_query (JString n) (JString p) d = Ok (Some u, d') →
  ∃ r, (length (LOGIN_USER (c_str n) (c_str p)) < SQL_SIZE)%nat ∧
    mysql_query (LOGIN_USER (c_str n) (c_str p)) d = Some (d', Some [r]) ∧ int_column r 0 = Ok (u_id u).
Proof.
  unfold user_login, sprintf, one_row, mysql_execl, mbind, M_bind, lift_res, mret, M_ret. cbn [isNull orb asCString].
  destruct (Nat.ltb_spec (length (LOGIN_USER (c_str n) (c_str p))) SQL_SIZE) as [Hl|]; [|done].
  destruct (mysql_query _ d) as [[d1 [[|r [|]]|]]|]; try done.
  destruct (int_column r 0) as [id|] eqn:E0; [|done]. destruct (int_column r 1); [|done].
  destruct (int_column r 2); [|done]. destruct (int_column r 3); [|done]. intros [= <- <-]. exists r. by split_and!.
Qed.

(** C38: A session comes from a row of the login statement only: whatever request arrives, with
    whatever body, cookie and path, when its handler returns, the rooms, the queues and the messages
    are as they were, and no session was created or changed its user, except that a POST to /login
    whose name and password are strings created one, under the next number, for the user of the one
    row with which the database answered the login statement. The statement is the text of name and
    password, without escapes, and fits the array of 4096 bytes. Name and password without a quote
    can be read off it; with a quote a client can choose the condition the row meets
    ([login_injection]): the theorem does not say that the password was right then. Not covered: a
    statement too long for the array, undefined behaviour, and members of other types, which throw. *)
Theorem session_needs_login_row method uri c body d g r d' g' :
  http_callback method uri c body (d, g) = Ok (r, (d', g')) →
  _lobby g' = _lobby g ∧ sent_msgs g' = sent_msgs g ∧
  (session_users (_sm g') = session_users (_sm g) ∨
   method = lit "POST" ∧ uri = lit "/login" ∧
   ∃ n p row id, unserialize_login body = Some (JString n, JString p) ∧
     (length (LOGIN_USER (c_str n) (c_str p)) < SQL_SIZE)%nat ∧
     mysql_query (LOGIN_USER (c_str n) (c_str p)) d = Some (d', Some [row]) ∧ int_column row 0 = Ok id ∧
     session_users (_sm g') = <[_next_ssid (_sm g) := u64 id]> (session_users (_sm g)) ∧
     (no_quote n → no_quote p → ∀ n' p', no_quote n' → no_quote p' →
        LOGIN_USER (c_str n) (c_str p) = LOGIN_USER n' p' → n' = c_str n ∧ p' = c_str p)).
Proof.
  unfold http_callback. case_decide as H1; [|case_decide as H2; [|case_decide as H3]].
  - unfold reg, http_resp, on_server, on_table, mbind, M_bind, mret, M_ret. destruct (unserialize_login body) as [[n p]|]; [|intros [= _ _ <-]; by auto].
    destruct (isNull n || isNull p); [intros [= _ _ <-]; by auto|]. cbn.
    destruct (insert mysql_query n p d) as [[[] d1]|]; [| |done]; intros [= _ _ <-]; by auto.
  - destruct H2 as [-> ->]. unfold http_login, on_table, on_server. unfold mbind at 1, M_bind at 1. cbn [fst snd].
    destruct (unserialize_login body) as [[n p]|] eqn:Eb.
    + destruct (user_login mysql_query n p d) as [[u d1]|] eqn:El; [|done].
      unfold mbind at 1, M_bind at 1. cbn [fst snd].
      destruct (login _ _ body g) as [[r1 g1]|] eqn:Eg; [|done]. intros [= _ <- <-].
      destruct (login_effect _ _ _ _ _ _ Eg) as (? & ? & [?|(n1 & p1 & uid & Hp & Hu & Hs)]); [by auto|].
      split; [done|]. split; [done|]. right. split; [done|]. split; [done|]. destruct u as [u|]; [|done].
      destruct (user_login_strings _ _ _ _ _ El) as (n' & p' & -> & ->).
      destruct (user_login_row _ _ _ _ _ El) as (row & Hlen & Hq & Hid). exists n', p', row, (u_id u).
      split; [done|]. split; [done|]. split; [done|]. split; [done|]. cbn in Hu. injection Hu as <-. split; [exact Hs|].
      intros Hn Hp' n2 p2 Hn2 Hp2 E. by apply login_text_inj in E as [<- <-]; [|by apply no_quote_c_str|by apply no_quote_c_str|..].
    + unfold mret, M_ret, mbind, M_bind. cbn [fst snd]. destruct (login _ _ body g) as [[r1 g1]|] eqn:Eg; [|done]. intros [= _ _ <-].
      destruct (login_effect _ _ _ _ _ _ Eg) as (? & ? & [?|(n1 & p1 & uid & Hp & _)]); [by auto|].
      cbn in Hp. by rewrite Eb in Hp.
  - unfold http_info. cbn [fst snd]. destruct (info cookie _ c g) as [[[r1|uid] g1]|] eqn:E1; [| |done].
    + intros [= _ _ <-]. apply info_effect in E1 as (? & ? & ?). by auto.
    + destruct (select_by_id mysql_query uid d) as [[u d1]|]; [|done].
      destruct (info cookie (λ _ : Z, u_score <$> u) c g) as [[[r2|uid2] g2]|] eqn:E2; [| |done]; intros [= _ _ <-];
        apply info_effect in E2 as (? & ? & ?); by auto.
  - unfold file_handler. destruct (read_file _); intros [= _ _ <-]; by auto.
Qed.
End Http.

(** ** Witnesses *)
(** A database with one user. *)
Definition one_user (sql : str) (d : ()) : option (() * option (list row)) :=
  if decide (sql = LOGIN_USER (lit "bob") (lit "pw")) then Some ((), Some [[Some (lit "7"); Some (lit "1000"); Some (lit "0"); Some (lit "0")]])
  else Some ((), Some []).
Definition bob_body (body : str) : option (jval * jval) := Some (JString (lit "bob"), JString body).

Lemma login_statement_safe_witness :
  user_login one_user (JString (lit "bob")) (JString (replicate 4001 "x"%char)) () = Err OutOfBounds.
Proof.
  apply (login_statement_safe one_user (lit "bob") (replicate 4001 "x"%char) ()).
  - reflexivity.
  - by vm_compute.
  - by apply Nat.ltb_lt; vm_compute.
Defined.

Definition no_cookie (c : conn) : str := [].
Definition no_file (path : str) : option str := None.
Lemma session_needs_login_row_witness :
  ∃ r g', http_callback one_user no_cookie bob_body no_file [] (lit "POST") (lit "/login") 1%positive (lit "pw") ((), new_gobang) = Ok (r, ((), g')) ∧
    session_users (_sm g') = {[1 := 7]} ∧ _lobby g' = _lobby new_gobang.
Proof.
  eexists _, _. split; [vm_compute; reflexivity|].
  split; [by vm_compute|].
  refine (proj1 (session_needs_login_row one_user no_cookie bob_body no_file [] (lit "POST") (lit "/login") 1%positive (lit "pw") () new_gobang _ () _ _)).
  vm_compute. reflexivity.
Defined.
