(* ===== verification/SmartPtr.v ===== *)
(** * The reference-counted pointers of src/Algorithm/SmartPtr.hpp

    [shared_ptr]: variables hold an object and the address of a count that the
    copies share.  A null pointer has a count of its own.  The deleter is the
    default one.  At the end, two threads that destroy their copies of a
    [shared_mutex_ptr], whose destructor does not take the mutex. *)

From S2P Require Import Prelude.

Open Scope Z_scope.

Abbreviation var := nat (only parsing).
Abbreviation addr := positive (only parsing).

(** A variable's [_ptr] and [_count_ptr]. *)
Record shared_ptr := mkPtr { _ptr : option addr; _count_ptr : addr }.

Record pstate := mkPst {
  ptrs : gmap var shared_ptr;   (** the live [shared_ptr] variables *)
  counts : gmap addr Z;         (** the counts on the heap *)
  objects : gset addr;          (** the objects on the heap *)
}.

Definition no_ptrs : pstate := mkPst ∅ ∅ ∅.

Definition get_ptr (v : var) : M pstate shared_ptr := λ s,
  match ptrs s !! v with Some p => Ok (p, s) | None => Err DanglingPtr end.
Definition put_ptr (v : var) (p : shared_ptr) : M pstate () :=
  modify (λ s, mkPst (<[v := p]> (ptrs s)) (counts s) (objects s)).
(** [*_count_ptr] *)
Definition load_count (c : addr) : M pstate Z := λ s,
  match counts s !! c with Some n => Ok (n, s) | None => Err DanglingPtr end.
Definition store_count (c : addr) (n : Z) : M pstate () := λ s,
  match counts s !! c with
  | Some _ => Ok ((), mkPst (ptrs s) (<[c := n]> (counts s)) (objects s))
  | None => Err DanglingPtr
  end.
Definition delete_count (c : addr) : M pstate () := λ s,
  match counts s !! c with
  | Some _ => Ok ((), mkPst (ptrs s) (delete c (counts s)) (objects s))
  | None => Err DanglingPtr
  end.
(** [_del(_ptr)]: [delete] of a null pointer does nothing. *)
Definition del (p : option addr) : M pstate () := λ s,
  match p with
  | None => Ok ((), s)
  | Some o => if decide (o ∈ objects s) then Ok ((), mkPst (ptrs s) (counts s) (objects s ∖ {[o]})) else Err DanglingPtr
  end.

(** [shared_ptr(T* ptr)] with a new object or null. *)
Definition construct (v : var) (null : bool) : M pstate () := λ s,
  let c := fresh (dom (counts s)) in
  let o := fresh (objects s) in
  let p := mkPtr (if null then None else Some o) c in
  Ok ((), mkPst (<[v := p]> (ptrs s)) (<[c := 1]> (counts s)) (if null then objects s else {[o]} ∪ objects s)).

(** [( *_count_ptr)++] *)
Definition incr_count (c : addr) : M pstate () := n ← load_count c; store_count c (n + 1).

(** [shared_ptr(shared_ptr<T>& ps)] *)
Definition copy (v w : var) : M pstate () :=
  ps ← get_ptr w;
  put_ptr v ps;;
  incr_count (_count_ptr ps).

(** [if (--( *_count_ptr) == 0) { _del(_ptr); delete _count_ptr; }] *)
Definition release (p : shared_ptr) : M pstate () :=
  n ← load_count (_count_ptr p);
  store_count (_count_ptr p) (n - 1);;
  if n - 1 =? 0 then del (_ptr p);; delete_count (_count_ptr p) else mret ().

Definition assign (v w : var) : M pstate () :=
  this ← get_ptr v;
  ps ← get_ptr w;
  if decide (_ptr this ≠ _ptr ps) then
    release this;;
    put_ptr v ps;;
    incr_count (_count_ptr ps)
  else mret ().

Definition destroy (v : var) : M pstate () :=
  this ← get_ptr v;
  release this;;
  modify (λ s, mkPst (delete v (ptrs s)) (counts s) (objects s)).

Definition count (v : var) : M pstate Z := p ← get_ptr v; load_count (_count_ptr p).

Inductive ptr_op := PNew (v : var) (null : bool) | PCopy (v w : var) | PAssign (v w : var) | PDestroy (v : var).
Definition do_ptr_op (o : ptr_op) : M pstate () :=
  match o with PNew v null => construct v null | PCopy v w => copy v w | PAssign v w => assign v w | PDestroy v => destroy v end.
Fixpoint do_ptr_ops (os : list ptr_op) : M pstate () :=
  match os with [] => mret () | o :: os => do_ptr_op o;; do_ptr_ops os end.

(** The scoping rules of the language: a variable is constructed once, and used and
    destroyed only while it is alive. *)
Definition scoped_op (o : ptr_op) (vs : gset var) : Prop :=
  match o with
  | PNew v _ => v ∉ vs
  | PCopy v w => (v ∉ vs) ∧ w ∈ vs
  | PAssign v w => v ∈ vs ∧ w ∈ vs
  | PDestroy v => v ∈ vs
  end.
Definition scope_after (o : ptr_op) (vs : gset var) : gset var :=
  match o with PNew v _ | PCopy v _ => {[v]} ∪ vs | PAssign _ _ => vs | PDestroy v => vs ∖ {[v]} end.
Fixpoint scoped (os : list ptr_op) (vs : gset var) : Prop :=
  match os with [] => True | o :: os => scoped_op o vs ∧ scoped os (scope_after o vs) end.

(** ** Sharing *)
Definition sharers (c : addr) (ps : gmap var shared_ptr) : gmap var shared_ptr := filter (λ kv, _count_ptr kv.2 = c) ps.
Definition n_sharers (c : addr) (ps : gmap var shared_ptr) : Z := Z.of_nat (size (sharers c ps)).

Lemma n_sharers_insert c v p ps :
  ps !! v = None → n_sharers c (<[v := p]> ps) = n_sharers c ps + (if decide (_count_ptr p = c) then 1 else 0).
Proof.
  intros Hv. unfold n_sharers, sharers. rewrite map_filter_insert. cbn [snd]. case_decide.
  - rewrite map_size_insert_None; [lia|]. apply map_lookup_filter_None. by left.
  - rewrite delete_id by done. lia.
Qed.

Lemma n_sharers_delete c v p ps :
  ps !! v = Some p → n_sharers c (delete v ps) = n_sharers c ps - (if decide (_count_ptr p = c) then 1 else 0).
Proof.
  intros Hv. pose proof (n_sharers_insert c v p (delete v ps) (lookup_delete_eq _ _)) as H.
  rewrite insert_delete_id in H by done. lia.
Qed.

Lemma n_sharers_pos c v p ps : ps !! v = Some p → _count_ptr p = c → 1 ≤ n_sharers c ps.
Proof.
  intros Hv Hc. pose proof (n_sharers_delete c v p ps Hv) as H. rewrite decide_True in H by done.
  assert (0 ≤ n_sharers c (delete v ps)) by (unfold n_sharers; lia). lia.
Qed.

Lemma n_sharers_zero c v p ps : ps !! v = Some p → n_sharers c ps = 0 → _count_ptr p ≠ c.
Proof. intros Hv H0 Hc. pose proof (n_sharers_pos c v p ps Hv Hc). lia. Qed.

(** Each count is the number of variables that share it, sharing a count and
    sharing an object are the same, and the objects are those pointed to. *)
Record ptr_inv (s : pstate) : Prop := {
  pi_count : ∀ v p, ptrs s !! v = Some p → counts s !! _count_ptr p = Some (n_sharers (_count_ptr p) (ptrs s));
  pi_same : ∀ v w p q, ptrs s !! v = Some p → ptrs s !! w = Some q → _count_ptr p = _count_ptr q → _ptr p = _ptr q;
  pi_own : ∀ v w p q o, ptrs s !! v = Some p → ptrs s !! w = Some q → _ptr p = Some o → _ptr q = Some o → _count_ptr p = _count_ptr q;
  pi_alive : ∀ o, o ∈ objects s ↔ ∃ v p, ptrs s !! v = Some p ∧ _ptr p = Some o;
}.

Lemma construct_spec v null s :
  ptr_inv s → ptrs s !! v = None →
  ∃ s', construct v null s = Ok ((), s') ∧ ptr_inv s' ∧ dom (ptrs s') = {[v]} ∪ dom (ptrs s).
Proof.
  intros [H1 H2 H3 H4] Hv. unfold construct. set (c := fresh (dom (counts s))). set (o := fresh (objects s)). cbv zeta.
  assert (Hc : counts s !! c = None) by (apply not_elem_of_dom, is_fresh).
  assert (Ho : o ∉ objects s) by apply is_fresh.
  assert (Hcv : ∀ w p, ptrs s !! w = Some p → _count_ptr p ≠ c) by (intros w p Hw E; apply H1 in Hw; congruence).
  eexists. split; [reflexivity|]. cbn [ptrs]. rewrite dom_insert_L. split; [|done]. split; cbn [ptrs counts objects].
  - intros w p. rewrite lookup_insert_Some. intros [[<- <-]|[Hne Hw]]; cbn [_count_ptr]; rewrite n_sharers_insert by done; cbn [_count_ptr].
    + rewrite lookup_insert_eq, decide_True by done. f_equal. unfold n_sharers, sharers.
      assert (filter (λ kv : nat * shared_ptr, _count_ptr kv.2 = c) (ptrs s) = ∅) as ->; [|by rewrite map_size_empty].
      apply map_empty. intros w. apply map_lookup_filter_None. right. intros p Hw. by apply (Hcv w p).
    + pose proof (Hcv w p Hw). rewrite lookup_insert_ne, decide_False, Z.add_0_r by done. by apply (H1 w).
  - intros w x p q. rewrite !lookup_insert_Some. intros [[<- <-]|[_ Hw]] [[<- <-]|[_ Hx]] E; try done; cbn [_count_ptr] in E.
    + by destruct (Hcv x q Hx).
    + by destruct (Hcv w p Hw).
    + by apply (H2 w x).
  - intros w x p q o'. rewrite !lookup_insert_Some. intros [[<- <-]|[_ Hw]] [[<- <-]|[_ Hx]] E1 E2; try done.
    + destruct null; [done|]. cbn [_ptr] in E1. injection E1 as <-. exfalso. apply Ho, H4. eauto.
    + destruct null; [done|]. cbn [_ptr] in E2. injection E2 as <-. exfalso. apply Ho, H4. eauto.
    + by apply (H3 w x p q o').
  - intros o'. setoid_rewrite lookup_insert_Some. destruct null.
    + rewrite H4. split; [|naive_solver]. intros (w & p & Hw & E). exists w, p. split; [|done]. right. split; [congruence|done].
    + rewrite elem_of_union, elem_of_singleton, H4. split.
      * intros [->|(w & p & Hw & E)]; [exists v; eexists; split; [by left|done]|].
        exists w, p. split; [|done]. right. split; [congruence|done].
      * intros (w & p & [[<- <-]|[_ Hw]] & E); [left; by injection E|right; eauto].
Qed.

(** A new copy of a live variable. *)
Lemma share_spec v w ps s :
  ptr_inv s → ptrs s !! v = None → ptrs s !! w = Some ps →
  ∃ s', incr_count (_count_ptr ps) (mkPst (<[v := ps]> (ptrs s)) (counts s) (objects s)) = Ok ((), s') ∧
    ptr_inv s' ∧ dom (ptrs s') = {[v]} ∪ dom (ptrs s).
Proof.
  intros [H1 H2 H3 H4] Hv Hw. unfold incr_count.
  erewrite bind_ok by (unfold load_count; cbn [counts]; by rewrite (H1 w ps Hw)).
  unfold store_count. cbn [counts]. rewrite (H1 w ps Hw). eexists. split; [reflexivity|]. cbn [ptrs objects]. rewrite dom_insert_L. split; [|done].
  assert (Hold : ∀ x p, <[v := ps]> (ptrs s) !! x = Some p → ∃ x', ptrs s !! x' = Some p).
  { intros x p. rewrite lookup_insert_Some. intros [[<- <-]|[_ Hx]]; eauto. }
  split; cbn [ptrs counts objects].
  - intros x p Hx. rewrite n_sharers_insert by done. destruct (Hold x p Hx) as [x' Hx'].
    destruct (decide (_count_ptr ps = _count_ptr p)) as [E|E]; [rewrite E, lookup_insert_eq; done|].
    rewrite lookup_insert_ne, Z.add_0_r by done. by apply (H1 x').
  - intros x y p q Hx Hy. destruct (Hold _ _ Hx) as [x' Hx'], (Hold _ _ Hy) as [y' Hy']. by apply (H2 x' y').
  - intros x y p q o Hx Hy. destruct (Hold _ _ Hx) as [x' Hx'], (Hold _ _ Hy) as [y' Hy']. by apply (H3 x' y').
  - intros o. rewrite H4. split.
    + intros (x & p & Hx & E). exists x, p. rewrite lookup_insert_ne by congruence. done.
    + intros (x & p & Hx & E). destruct (Hold _ _ Hx) as [x' Hx']. eauto.
Qed.

Lemma del_spec p s :
  (∀ o, _ptr p = Some o → o ∈ objects s) →
  ∃ s1, del (_ptr p) s = Ok ((), s1) ∧ ptrs s1 = ptrs s ∧ counts s1 = counts s ∧
    ∀ o, o ∈ objects s1 ↔ o ∈ objects s ∧ _ptr p ≠ Some o.
Proof.
  intros Ho. unfold del. destruct (_ptr p) as [o|] eqn:Ep; [|eexists; split; [reflexivity|]; naive_solver].
  rewrite decide_True by auto. eexists. split; [reflexivity|]. split; [done|]. split; [done|].
  intros o'. cbn [objects]. rewrite elem_of_difference, elem_of_singleton. naive_solver.
Qed.

(** The last variable that shares its count goes, with the count and the object. *)
Lemma ptr_inv_last v p s objs :
  ptr_inv s → ptrs s !! v = Some p → n_sharers (_count_ptr p) (ptrs s) = 1 →
  (∀ o, o ∈ objs ↔ o ∈ objects s ∧ _ptr p ≠ Some o) →
  ptr_inv (mkPst (delete v (ptrs s)) (delete (_count_ptr p) (counts s)) objs).
Proof.
  intros [H1 H2 H3 H4] Hv E Ho.
  pose proof (n_sharers_delete (_count_ptr p) v p _ Hv) as Hdel. rewrite decide_True in Hdel by done.
  assert (Hlast : ∀ w q, delete v (ptrs s) !! w = Some q → _count_ptr q ≠ _count_ptr p).
  { intros w q Hw. eapply n_sharers_zero; [exact Hw|]. lia. }
  split; cbn [ptrs counts objects].
  - intros w q Hw. pose proof (Hlast w q Hw). rewrite lookup_delete_ne by done.
    rewrite (n_sharers_delete _ v p) by done. rewrite decide_False, Z.sub_0_r by done.
    apply lookup_delete_Some in Hw as [_ Hw]. by apply (H1 w).
  - intros w x q q' Hw Hx. apply lookup_delete_Some in Hw as [_ Hw], Hx as [_ Hx]. by apply (H2 w x).
  - intros w x q q' o Hw Hx. apply lookup_delete_Some in Hw as [_ Hw], Hx as [_ Hx]. by apply (H3 w x).
  - intros o. rewrite Ho, H4. split.
    + intros [(w & q & Hw & Eq) Hne]. exists w, q. split; [|done]. rewrite lookup_delete_ne; [done|]. intros <-. congruence.
    + intros (w & q & Hw & Eq). pose proof (Hlast w q Hw) as Hc. apply lookup_delete_Some in Hw as [Hne Hw]. split; [eauto|].
      intros Ep. apply Hc. by apply (H3 w v q p o).
Qed.

(** A variable goes and leaves others that share its count. *)
Lemma ptr_inv_shared v p s :
  ptr_inv s → ptrs s !! v = Some p → 1 < n_sharers (_count_ptr p) (ptrs s) →
  ptr_inv (mkPst (delete v (ptrs s)) (<[_count_ptr p := n_sharers (_count_ptr p) (ptrs s) - 1]> (counts s)) (objects s)).
Proof.
  intros [H1 H2 H3 H4] Hv E.
  pose proof (n_sharers_delete (_count_ptr p) v p _ Hv) as Hdel. rewrite decide_True in Hdel by done.
  assert (Hother : ∃ w q, delete v (ptrs s) !! w = Some q ∧ _count_ptr q = _count_ptr p).
  { destruct (map_choose (sharers (_count_ptr p) (delete v (ptrs s)))) as (w & q & Hw).
    - intros Hemp. unfold n_sharers in Hdel at 1. rewrite Hemp, map_size_empty in Hdel. lia.
    - apply map_lookup_filter_Some in Hw as [? ?]. eauto. }
  split; cbn [ptrs counts objects].
  - intros w q Hw. rewrite (n_sharers_delete _ v p) by done. destruct (decide (_count_ptr p = _count_ptr q)) as [Ec|Ec].
    + by rewrite Ec, lookup_insert_eq.
    + rewrite lookup_insert_ne, Z.sub_0_r by done. apply lookup_delete_Some in Hw as [_ Hw]. by apply (H1 w).
  - intros w x q q' Hw Hx. apply lookup_delete_Some in Hw as [_ Hw], Hx as [_ Hx]. by apply (H2 w x).
  - intros w x q q' o Hw Hx. apply lookup_delete_Some in Hw as [_ Hw], Hx as [_ Hx]. by apply (H3 w x).
  - intros o. rewrite H4. split.
    + intros (w & q & Hw & Eq). destruct (decide (w = v)) as [->|Hne]; [|exists w, q; by rewrite lookup_delete_ne].
      destruct Hother as (x & r & Hx & Er). exists x, r. split; [done|]. apply lookup_delete_Some in Hx as [_ Hx].
      assert (q = p) as -> by congruence. by rewrite (H2 x v r p Hx Hv Er).
    + intros (w & q & Hw & Eq). apply lookup_delete_Some in Hw as [_ Hw]. eauto.
Qed.

Lemma release_spec v p s :
  ptr_inv s → ptrs s !! v = Some p →
  ∃ s', release p s = Ok ((), s') ∧ ptrs s' = ptrs s ∧
    ptr_inv (mkPst (delete v (ptrs s')) (counts s') (objects s')).
Proof.
  intros HI Hv. pose proof HI as [H1 _ _ H4]. pose proof (n_sharers_pos _ v p _ Hv eq_refl) as Hpos.
  unfold release. erewrite bind_ok by (unfold load_count; by rewrite (H1 v p Hv)).
  erewrite bind_ok by (unfold store_count; by rewrite (H1 v p Hv)).
  destruct (Z.eqb_spec (n_sharers (_count_ptr p) (ptrs s) - 1) 0) as [E|E].
  - destruct (del_spec p (mkPst (ptrs s) (<[_count_ptr p := n_sharers (_count_ptr p) (ptrs s) - 1]> (counts s)) (objects s)))
      as (s1 & Hd & Ep1 & Ec1 & Ho1); [intros o Ep; apply H4; eauto|].
    erewrite bind_ok by exact Hd. cbn [ptrs counts objects] in *.
    unfold delete_count. rewrite Ec1, lookup_insert_eq. eexists. split; [reflexivity|]. split; [done|].
    rewrite Ep1. cbn [counts objects ptrs]. rewrite delete_insert_eq. apply (ptr_inv_last v p s); auto with lia.
  - eexists. split; [reflexivity|]. split; [done|]. cbn [ptrs counts objects]. apply (ptr_inv_shared v p s); auto with lia.
Qed.

(** Where [s] maps a variable that is about to be overwritten. *)
Lemma incr_over v ps s :
  incr_count (_count_ptr ps) (mkPst (<[v := ps]> (ptrs s)) (counts s) (objects s)) =
  incr_count (_count_ptr ps) (mkPst (<[v := ps]> (delete v (ptrs s))) (counts s) (objects s)).
Proof. by rewrite insert_delete_eq. Qed.

Lemma do_ptr_op_spec o s :
  ptr_inv s → scoped_op o (dom (ptrs s)) →
  ∃ s', do_ptr_op o s = Ok ((), s') ∧ ptr_inv s' ∧ dom (ptrs s') = scope_after o (dom (ptrs s)).
Proof.
  intros HI Hs. destruct o as [v null|v w|v w|v]; cbn [do_ptr_op scoped_op scope_after] in *.
  - apply construct_spec; [done|]. by apply not_elem_of_dom.
  - destruct Hs as [Hv [ps Hw]%elem_of_dom]. unfold copy. erewrite bind_ok by (unfold get_ptr; by rewrite Hw).
    erewrite bind_ok by reflexivity. eapply share_spec; [done|by apply not_elem_of_dom|exact Hw].
  - destruct Hs as [[p Hv]%elem_of_dom [ps Hw]%elem_of_dom]. unfold assign.
    erewrite bind_ok by (unfold get_ptr; by rewrite Hv). erewrite bind_ok by (unfold get_ptr; by rewrite Hw).
    case_decide as Hne; [|by exists s]. destruct (release_spec v p s HI Hv) as (s1 & Hr & Ep & HI1).
    erewrite bind_ok by exact Hr. erewrite bind_ok by reflexivity. rewrite incr_over.
    destruct (share_spec v w ps _ HI1) as (s2 & H2 & HI2 & Hd2); cbn [ptrs].
    + by rewrite lookup_delete_eq.
    + rewrite Ep, lookup_delete_ne; [done|]. intros ->. apply Hne. congruence.
    + exists s2. split; [exact H2|]. split; [done|]. rewrite Hd2. cbn [ptrs]. rewrite Ep, dom_delete_L.
      assert (v ∈ dom (ptrs s)) by (apply elem_of_dom; eauto). rewrite <- union_difference_singleton_L by done. done.
  - destruct (proj1 (elem_of_dom _ _) Hs) as [p Hv]. unfold destroy. erewrite bind_ok by (unfold get_ptr; by rewrite Hv).
    destruct (release_spec v p s HI Hv) as (s1 & Hr & Ep & HI1). erewrite bind_ok by exact Hr.
    eexists. split; [reflexivity|]. split; [done|]. cbn [ptrs]. by rewrite Ep, dom_delete_L.
Qed.

Lemma do_ptr_ops_spec os s :
  ptr_inv s → scoped os (dom (ptrs s)) → ∃ s', do_ptr_ops os s = Ok ((), s') ∧ ptr_inv s'.
Proof.
  revert s. induction os as [|o os IH]; intros s HI Hs; [by exists s|]. destruct Hs as [Ho Hs].
  destruct (do_ptr_op_spec o s HI Ho) as (s1 & H1 & HI1 & Hd). cbn [do_ptr_ops]. erewrite bind_ok by exact H1.
  apply IH; [done|]. by rewrite Hd.
Qed.

(** An object lives exactly as long as some [shared_ptr] points to it: any
    constructions, copies, assignments (self-assignment and null pointers included) and
    destructions of variables that respect their scopes never use a freed count or
    delete an object twice; the objects on the heap are those some variable points to;
    and [count()] is the number of variables that share the count, which are those
    that point to the same object. *)
Theorem shared_ptr_counts os :
  scoped os ∅ →
  ∃ s, do_ptr_ops os no_ptrs = Ok ((), s) ∧
    (∀ o, o ∈ objects s ↔ ∃ v p, ptrs s !! v = Some p ∧ _ptr p = Some o) ∧
    (∀ v p, ptrs s !! v = Some p →
       count v s = Ok (Z.of_nat (size (filter (λ kv, _count_ptr kv.2 = _count_ptr p) (ptrs s))), s)) ∧
    (∀ v w p q o, ptrs s !! v = Some p → ptrs s !! w = Some q → _ptr p = Some o →
       (_ptr q = Some o ↔ _count_ptr q = _count_ptr p)).
Proof.
  intros Hs. assert (HI : ptr_inv no_ptrs).
  { split; try done. intros o. split; [set_solver|]. intros (v & p & Hv & _). cbn [no_ptrs ptrs] in Hv. by rewrite lookup_empty in Hv. }
  destruct (do_ptr_ops_spec os no_ptrs HI) as (s & H1 & [G1 G2 G3 G4]); [cbn [no_ptrs ptrs]; by rewrite dom_empty_L|].
  exists s. split; [done|]. split; [done|]. split.
  - intros v p Hv. unfold count. erewrite bind_ok by (unfold get_ptr; by rewrite Hv). unfold load_count. by rewrite (G1 v p Hv).
  - intros v w p q o Hv Hw Ep. split; intros E; [by apply (G3 w v q p o)|]. rewrite <- Ep. by apply (G2 w v).
Qed.

(** ** Two threads and one [shared_mutex_ptr]

    The destructor's [--( *_count_ptr)] is a load and a store, and the test reads the
    value just stored; the mutex is not taken. *)
Inductive dtor_pc := DLoad | DStore (n : Z) | DTest (n : Z) | DDone.
Record two_dtors := mkTwo { pc1 : dtor_pc; pc2 : dtor_pc; shared_count : Z; deletes : nat }.

Definition dtor_step (pc : dtor_pc) (n : Z) (d : nat) : dtor_pc * Z * nat :=
  match pc with
  | DLoad => (DStore (n - 1), n, d)
  | DStore m => (DTest m, m, d)
  | DTest m => (DDone, n, if m =? 0 then S d else d)
  | DDone => (DDone, n, d)
  end.
Definition two_step (first : bool) (s : two_dtors) : two_dtors :=
  if first then let '(pc, n, d) := dtor_step (pc1 s) (shared_count s) (deletes s) in mkTwo pc (pc2 s) n d
  else let '(pc, n, d) := dtor_step (pc2 s) (shared_count s) (deletes s) in mkTwo (pc1 s) pc n d.
Definition two_run (schedule : list bool) : two_dtors :=
  fold_left (λ s b, two_step b s) schedule (mkTwo DLoad DLoad 2 0).

(** One after the other the two destructors delete the object once; interleaved, the
    second load can come before the first store, and the object is never deleted. *)
Theorem mutex_ptr_leaks :
  two_run [true; true; true; false; false; false] = mkTwo DDone DDone 0 1 ∧
  two_run [true; false; true; false; true; false] = mkTwo DDone DDone 1 0.
Proof. done. Qed.

(** ** Pointers without a count: [auto_ptr], [unique_ptr], [weak_ptr]

    The three hold a raw pointer.  [unique_ptr] has [auto_ptr]'s construction,
    destruction and access, and neither copy nor assignment. *)
Module RawPtr.
Record rstate := mkRaw { raws : gmap var (option addr); live : gset addr }.
Definition no_raws : rstate := mkRaw ∅ ∅.

Definition get_raw (v : var) : M rstate (option addr) := λ s,
  match raws s !! v with Some p => Ok (p, s) | None => Err DanglingPtr end.
Definition put_raw (v : var) (p : option addr) : M rstate () := modify (λ s, mkRaw (<[v := p]> (raws s)) (live s)).
(** [delete _ptr] *)
Definition delete_raw (p : option addr) : M rstate () := λ s,
  match p with
  | None => Ok ((), s)
  | Some o => if decide (o ∈ live s) then Ok ((), mkRaw (raws s) (live s ∖ {[o]})) else Err DanglingPtr
  end.

(** [auto_ptr(new T)] or [auto_ptr(nullptr)], and the same of [unique_ptr]. *)
Definition raw_construct (v : var) (null : bool) : M rstate () := λ s,
  let o := fresh (live s) in
  Ok ((), mkRaw (<[v := if null then None else Some o]> (raws s)) (if null then live s else {[o]} ∪ live s)).
Definition raw_destroy (v : var) : M rstate () :=
  p ← get_raw v; delete_raw p;; modify (λ s, mkRaw (delete v (raws s)) (live s)).
(** [operator*] *)
Definition access (o : addr) : M rstate addr := λ s, if decide (o ∈ live s) then Ok (o, s) else Err DanglingPtr.
Definition raw_deref (v : var) : M rstate addr :=
  p ← get_raw v;
  match p with None => fail NullDeref | Some o => access o end.
Definition auto_copy (v w : var) : M rstate () := p ← get_raw w; put_raw v p.
Definition auto_assign (v w : var) : M rstate () := get_raw v;; p ← get_raw w; put_raw v p.
(** [weak_ptr(const shared_ptr<T>& ps)] of an owner [w]; it has no destructor. *)
Definition weak_of (v w : var) : M rstate () := p ← get_raw w; put_raw v p.

(** Every variable owns its object alone. *)
Record owns (s : rstate) : Prop := {
  ow_inj : ∀ v w o, raws s !! v = Some (Some o) → raws s !! w = Some (Some o) → v = w;
  ow_live : ∀ o, o ∈ live s ↔ ∃ v, raws s !! v = Some (Some o);
}.

Inductive unique_op := UNew (v : var) (null : bool) | UDestroy (v : var).
Definition do_unique (o : unique_op) : M rstate () :=
  match o with UNew v null => raw_construct v null | UDestroy v => raw_destroy v end.
Fixpoint do_uniques (os : list unique_op) : M rstate () :=
  match os with [] => mret () | o :: os => do_unique o;; do_uniques os end.
Fixpoint unique_scoped (os : list unique_op) (vs : gset var) : Prop :=
  match os with
  | [] => True
  | UNew v _ :: os => (v ∉ vs) ∧ unique_scoped os ({[v]} ∪ vs)
  | UDestroy v :: os => v ∈ vs ∧ unique_scoped os (vs ∖ {[v]})
  end.

Lemma construct_owns v null s :
  owns s → raws s !! v = None →
  ∃ s', raw_construct v null s = Ok ((), s') ∧ owns s' ∧ dom (raws s') = {[v]} ∪ dom (raws s).
Proof.
  intros [H1 H2] Hv. eexists. split; [reflexivity|]. split; [|cbn; by rewrite dom_insert_L].
  pose proof (is_fresh (live s)) as Hf. destruct null; cbn; split; cbn.
  - intros a b o [[_ ?]|[_ Ha]]%lookup_insert_Some [[_ ?]|[_ Hb]]%lookup_insert_Some; try done. by eapply H1.
  - intros o. rewrite H2. split; intros [w Hw]; exists w; [rewrite lookup_insert_ne; [done|congruence]|].
    apply lookup_insert_Some in Hw as [[_ ?]|[_ ?]]; done.
  - assert (Hnew : ∀ w, raws s !! w ≠ Some (Some (fresh (live s)))) by (intros w Hw; apply Hf, H2; eauto).
    intros a b o [[<- E1]|[_ Ha]]%lookup_insert_Some [[<- E2]|[_ Hb]]%lookup_insert_Some; simplify_eq; [done| | |by eapply H1];
      exfalso; by eapply Hnew.
  - intros o. rewrite elem_of_union, elem_of_singleton, H2. split.
    + intros [->|[w Hw]]; [exists v; apply lookup_insert_eq|]. exists w. rewrite lookup_insert_ne; [done|congruence].
    + intros [w [[_ [= <-]]|[_ Hw]]%lookup_insert_Some]; [by left|right; eauto].
Qed.

Lemma destroy_owns v s :
  owns s → v ∈ dom (raws s) →
  ∃ s', raw_destroy v s = Ok ((), s') ∧ owns s' ∧ dom (raws s') = dom (raws s) ∖ {[v]}.
Proof.
  intros [H1 H2] [p Hv]%elem_of_dom. unfold raw_destroy. erewrite bind_ok by (unfold get_raw; by rewrite Hv).
  destruct p as [o|].
  - assert (Ho : o ∈ live s) by (apply H2; eauto).
    erewrite bind_ok by (cbn; by rewrite decide_True). eexists. split; [reflexivity|]. split; [|cbn; by rewrite dom_delete_L].
    split; cbn.
    + intros a b x [_ Ha]%lookup_delete_Some [_ Hb]%lookup_delete_Some. by eapply H1.
    + intros x. rewrite elem_of_difference, elem_of_singleton, H2. split.
      * intros [[w Hw] Hne]. exists w. rewrite lookup_delete_ne; [done|]. intros <-. congruence.
      * intros [w [Hne Hw]%lookup_delete_Some]. split; [eauto|]. intros ->. apply Hne. by eapply H1.
  - erewrite bind_ok by done. eexists. split; [reflexivity|]. split; [|cbn; by rewrite dom_delete_L].
    split; cbn.
    + intros a b x [_ Ha]%lookup_delete_Some [_ Hb]%lookup_delete_Some. by eapply H1.
    + intros x. rewrite H2. split; intros [w Hw]; exists w; [rewrite lookup_delete_ne; [done|congruence]|].
      by apply lookup_delete_Some in Hw as [_ ?].
Qed.

(** [unique_ptr] owns its object alone: in every program that respects the scopes of
    its variables, each object is deleted exactly once, with its variable, and every
    access through a variable that is not null succeeds. *)
Theorem unique_ptr_owns os :
  unique_scoped os ∅ →
  ∃ s, do_uniques os no_raws = Ok ((), s) ∧ owns s ∧
    ∀ v o, raws s !! v = Some (Some o) → raw_deref v s = Ok (o, s).
Proof.
  assert (HI : owns no_raws).
  { split; [done|]. intros o. split; [set_solver|]. intros [v Hv]. cbn in Hv. by rewrite lookup_empty in Hv. }
  assert (Hd : dom (raws no_raws) = ∅) by (cbn; apply dom_empty_L). rewrite <- Hd. clear Hd. revert HI.
  generalize no_raws as s. induction os as [|[v null|v] os IH]; intros s HI Hs; cbn [unique_scoped] in Hs.
  - exists s. split; [done|]. split; [done|]. intros v o Hv. unfold raw_deref. erewrite bind_ok by (unfold get_raw; by rewrite Hv).
    unfold access. rewrite decide_True; [done|]. apply (ow_live _ HI). eauto.
  - destruct Hs as [Hv%not_elem_of_dom Hs]. destruct (construct_owns v null s HI Hv) as (s1 & H1 & HI1 & Hd1).
    cbn [do_uniques do_unique]. erewrite bind_ok by exact H1. apply IH; [done|]. by rewrite Hd1.
  - destruct Hs as [Hv Hs]. destruct (destroy_owns v s HI Hv) as (s1 & H1 & HI1 & Hd1).
    cbn [do_uniques do_unique]. erewrite bind_ok by exact H1. apply IH; [done|]. by rewrite Hd1.
Qed.

(** [auto_ptr]'s copy leaves both variables with the same object: when both have been
    destroyed, it has been deleted twice. *)
Theorem auto_copy_deletes_twice v w o s :
  raws s !! v = None → raws s !! w = Some (Some o) → o ∈ live s →
  (auto_copy v w;; raw_destroy v;; raw_destroy w) s = Err DanglingPtr.
Proof.
  intros Hv Hw Ho. assert (Hne : v ≠ w) by congruence.
  unfold auto_copy. rewrite (bind_ok _ _ _ () (mkRaw (<[v := Some o]> (raws s)) (live s))).
  2: { by erewrite bind_ok by (unfold get_raw; by rewrite Hw). }
  rewrite (bind_ok _ _ _ () (mkRaw (delete v (<[v := Some o]> (raws s))) (live s ∖ {[o]}))).
  2: { unfold raw_destroy. erewrite bind_ok by (unfold get_raw; cbn; by rewrite lookup_insert_eq).
       by erewrite bind_ok by (cbn; by rewrite decide_True). }
  unfold raw_destroy. erewrite bind_ok by (unfold get_raw; cbn; by rewrite lookup_delete_ne, lookup_insert_ne, Hw).
  apply bind_err. cbn. rewrite decide_False; [done|set_solver].
Qed.

(** [weak_ptr] does not notice that the object is gone. *)
Theorem weak_dangles v w o s :
  raws s !! v = None → raws s !! w = Some (Some o) → o ∈ live s →
  (weak_of v w;; raw_deref v) s = Ok (o, mkRaw (<[v := Some o]> (raws s)) (live s)) ∧
  (weak_of v w;; raw_destroy w;; raw_deref v) s = Err DanglingPtr.
Proof.
  intros Hv Hw Ho. assert (Hne : v ≠ w) by congruence.
  assert (E : weak_of v w s = Ok ((), mkRaw (<[v := Some o]> (raws s)) (live s))).
  { unfold weak_of. by erewrite bind_ok by (unfold get_raw; by rewrite Hw). }
  split; rewrite (bind_ok _ _ _ _ _ E).
  - unfold raw_deref. erewrite bind_ok by (unfold get_raw; cbn; by rewrite lookup_insert_eq). unfold access. cbn. by rewrite decide_True.
  - rewrite (bind_ok _ _ _ () (mkRaw (delete w (<[v := Some o]> (raws s))) (live s ∖ {[o]}))).
    2: { unfold raw_destroy. erewrite bind_ok by (unfold get_raw; cbn; by rewrite lookup_insert_ne, Hw).
         by erewrite bind_ok by (cbn; by rewrite decide_True). }
    unfold raw_deref. erewrite bind_ok by (unfold get_raw; cbn; by rewrite lookup_delete_ne, lookup_insert_eq).
    unfold access. cbn. rewrite decide_False; [done|set_solver].
Qed.
End RawPtr.

(** ** Witnesses *)
Lemma shared_ptr_counts_witness :
  ∃ s, do_ptr_ops [PNew 0 false; PCopy 1 0; PNew 2 false; PAssign 0 2; PDestroy 1] no_ptrs = Ok ((), s) ∧
    ∀ o, o ∈ objects s ↔ ∃ v p, ptrs s !! v = Some p ∧ _ptr p = Some o.
Proof.
  destruct (shared_ptr_counts [PNew 0 false; PCopy 1 0; PNew 2 false; PAssign 0 2; PDestroy 1]) as (s & H1 & H2 & _).
  - cbn [scoped scoped_op scope_after]. set_solver.
  - exists s. split; [exact H1|exact H2].
Defined.

Lemma unique_ptr_owns_witness :
  ∃ s, RawPtr.do_uniques [RawPtr.UNew 0 false; RawPtr.UNew 1 true; RawPtr.UDestroy 0] RawPtr.no_raws = Ok ((), s) ∧ RawPtr.owns s.
Proof.
  destruct (RawPtr.unique_ptr_owns [RawPtr.UNew 0 false; RawPtr.UNew 1 true; RawPtr.UDestroy 0]) as (s & H1 & H2 & _).
  - cbn [RawPtr.unique_scoped]. set_solver.
  - exists s. split; [exact H1|exact H2].
Defined.

Lemma auto_copy_deletes_twice_witness :
  (RawPtr.auto_copy 1 0;; RawPtr.raw_destroy 1;; RawPtr.raw_destroy 0) (RawPtr.mkRaw {[0%nat := Some 1%positive]} {[1%positive]}) = Err DanglingPtr.
Proof. apply (RawPtr.auto_copy_deletes_twice 1 0 1%positive); [done|done|set_solver]. Defined.

Lemma weak_dangles_witness :
  (RawPtr.weak_of 1 0;; RawPtr.raw_destroy 0;; RawPtr.raw_deref 1) (RawPtr.mkRaw {[0%nat := Some 1%positive]} {[1%positive]}) = Err DanglingPtr.
Proof. apply (RawPtr.weak_dangles 1 0 1%positive); [done|done|set_solver]. Defined.
