(* ===== verification/Queues.v ===== *)
(** * Queues between threads: src/lesson6/BlockQueue, src/lesson7, src/my_Http/ThreadPool.hpp

    A critical section is one step, since it runs under a mutex; a thread that
    waits on a condition variable is in its list until a signal, or a spurious
    wake-up, moves it to those that test their condition again. *)

From S2P Require Import Prelude.

Open Scope Z_scope.

(** [pthread_cond_signal]: one of the waiting threads, if there is one, is woken. *)
Inductive signal {A : Type} : list A → list A → list A → list A → Prop :=
  | signal_none wk : signal [] wk [] wk
  | signal_one l1 x l2 wk : signal (l1 ++ x :: l2) wk (l1 ++ l2) (x :: wk).

Lemma signal_length {A} (w wk w' wk' : list A) :
  signal w wk w' wk' →
  (w = [] ∧ w' = [] ∧ wk' = wk) ∨ (length wk' = S (length wk) ∧ length w = S (length w')).
Proof. destruct 1; [by left|]. right. rewrite !length_app. cbn. lia. Qed.

(** ** [BlockQueue] *)
Module BlockQueue.
Section BlockQueue.
Context {T : Type}.

(** The queue, the threads in [push] (with their value) and in [pop] that wait or
    have been woken, and what has been pushed and popped so far. *)
Record BlockQueue := mkBQ {
  _q : list T;
  _cap : Z;
  p_wait : list T; p_woken : list T;      (** on [_pcond] *)
  c_wait : list (); c_woken : list ();    (** on [_ccond] *)
  pushed : list T; popped : list T;
}.
Definition new_queue (size : Z) : BlockQueue := mkBQ [] size [] [] [] [] [] [].

Definition is_full (s : BlockQueue) : bool := Z.of_nat (length (_q s)) =? _cap s.
Definition is_empty (s : BlockQueue) : bool := match _q s with [] => true | _ => false end.

(** The critical section of [push] after its test: the value goes in. *)
Definition push_in (val : T) (cw ck : list ()) (s : BlockQueue) : BlockQueue :=
  mkBQ (_q s ++ [val]) (_cap s) (p_wait s) (p_woken s) cw ck (pushed s ++ [val]) (popped s).
(** That of [pop]: the front value, and the queue without it. *)
Definition pop_out (pw pk : list T) (s : BlockQueue) : option (T * BlockQueue) :=
  match _q s with
  | [] => None
  | x :: q => Some (x, mkBQ q (_cap s) pw pk (c_wait s) (c_woken s) (pushed s) (popped s ++ [x]))
  end.
Definition set_p (w k : list T) (s : BlockQueue) : BlockQueue :=
  mkBQ (_q s) (_cap s) w k (c_wait s) (c_woken s) (pushed s) (popped s).
Definition set_c (w k : list ()) (s : BlockQueue) : BlockQueue :=
  mkBQ (_q s) (_cap s) (p_wait s) (p_woken s) w k (pushed s) (popped s).

(** [push] with the mutex held: wait, or push and signal [_ccond]. *)
Inductive push_body (val : T) : BlockQueue → BlockQueue → Prop :=
  | push_waits s : is_full s = true → push_body val s (set_p (val :: p_wait s) (p_woken s) s)
  | push_goes s cw ck : is_full s = false → signal (c_wait s) (c_woken s) cw ck → push_body val s (push_in val cw ck s).
(** [pop] with the mutex held: wait, or pop and signal [_pcond]. *)
Inductive pop_body : BlockQueue → BlockQueue → Prop :=
  | pop_waits s : is_empty s = true → pop_body s (set_c (() :: c_wait s) (c_woken s) s)
  | pop_goes s x pw pk s' :
      is_empty s = false → signal (p_wait s) (p_woken s) pw pk → pop_out pw pk s = Some (x, s') → pop_body s s'.

Inductive bq_step : BlockQueue → BlockQueue → Prop :=
  | bq_push val s s' : push_body val s s' → bq_step s s'            (** a new call *)
  | bq_push_again l1 val l2 s s' :                                  (** a woken one *)
      p_woken s = l1 ++ val :: l2 → push_body val (set_p (p_wait s) (l1 ++ l2) s) s' → bq_step s s'
  | bq_pop s s' : pop_body s s' → bq_step s s'
  | bq_pop_again k s s' : c_woken s = () :: k → pop_body (set_c (c_wait s) k s) s' → bq_step s s'
  | bq_spurious_p l1 x l2 s : p_wait s = l1 ++ x :: l2 → bq_step s (set_p (l1 ++ l2) (x :: p_woken s) s)
  | bq_spurious_c k s : c_wait s = () :: k → bq_step s (set_c k (() :: c_woken s) s).

(** While a consumer waits, every element has a woken consumer; while a producer
    waits, every free place has a woken producer. *)
Record bq_inv (s : BlockQueue) : Prop := {
  bi_fifo : popped s ++ _q s = pushed s;
  bi_bound : Z.of_nat (length (_q s)) ≤ _cap s;
  bi_c : c_wait s ≠ [] → (length (_q s) ≤ length (c_woken s))%nat;
  bi_p : p_wait s ≠ [] → _cap s - Z.of_nat (length (_q s)) ≤ Z.of_nat (length (p_woken s));
}.

(** One woken thread fewer, which is about to test again. *)
Record bq_inv' (s : BlockQueue) (dc dp : nat) : Prop := {
  bi_fifo' : popped s ++ _q s = pushed s;
  bi_bound' : Z.of_nat (length (_q s)) ≤ _cap s;
  bi_c' : c_wait s ≠ [] → (length (_q s) ≤ length (c_woken s) + dc)%nat;
  bi_p' : p_wait s ≠ [] → _cap s - Z.of_nat (length (_q s)) ≤ Z.of_nat (length (p_woken s) + dp);
}.

Lemma push_body_inv val s s' d : bq_inv' s 0 d → (d ≤ 1)%nat → push_body val s s' → bq_inv s'.
Proof.
  intros [H1 H2 H3 H4] Hd. destruct 1 as [s Hf|s cw ck Hf Hsig]; unfold is_full in Hf.
  - apply Z.eqb_eq in Hf. split; cbn; [done|done| |lia]. intros Hc. specialize (H3 Hc). lia.
  - apply Z.eqb_neq in Hf. split; cbn.
    + by rewrite app_assoc, H1.
    + rewrite length_app. cbn. lia.
    + intros Hne. rewrite length_app. cbn.
      destruct (signal_length _ _ _ _ Hsig) as [(_ & -> & _)|[E1 E2]]; [done|].
      assert (c_wait s ≠ []) as Hw by (intros E; rewrite E in E2; cbn in E2; lia). specialize (H3 Hw). lia.
    + intros Hne. specialize (H4 Hne). rewrite length_app. cbn. lia.
Qed.

Lemma pop_body_inv s s' d : bq_inv' s d 0 → (d ≤ 1)%nat → pop_body s s' → bq_inv s'.
Proof.
  intros [H1 H2 H3 H4] Hd. destruct 1 as [s He|s x pw pk s' He Hsig Hp]; unfold is_empty, pop_out in *;
    destruct (_q s) as [|y q] eqn:E; try done.
  - split; cbn; rewrite E; cbn in *; [done|done|lia|]. intros Hw. specialize (H4 Hw). lia.
  - injection Hp as <- <-. cbn in *. split; cbn.
    + by rewrite <- app_assoc.
    + lia.
    + intros Hw. specialize (H3 Hw). lia.
    + intros Hne. destruct (signal_length _ _ _ _ Hsig) as [(_ & -> & _)|[E1 E2]]; [done|].
      assert (p_wait s ≠ []) as Hw by (intros E'; rewrite E' in E2; cbn in E2; lia). specialize (H4 Hw). lia.
Qed.

Lemma bq_inv_weaken s dc dp : bq_inv s → bq_inv' s dc dp.
Proof. intros [H1 H2 H3 H4]. split; [done|done| |]; intros Hw; [specialize (H3 Hw)|specialize (H4 Hw)]; lia. Qed.

Lemma bq_step_inv s s' : bq_inv s → bq_step s s' → bq_inv s'.
Proof.
  intros HI. destruct 1 as [val s s' Hb|l1 val l2 s s' E Hb|s s' Hb|k s s' E Hb|l1 x l2 s E|k s E].
  - eapply (push_body_inv _ _ _ 0); [by apply bq_inv_weaken|lia|done].
  - eapply (push_body_inv _ _ _ 1); [|lia|done]. destruct HI as [H1 H2 H3 H4]. split; cbn; [done|done| |]; intros Hw; [specialize (H3 Hw); lia|].
    specialize (H4 Hw). rewrite E, length_app in H4. rewrite length_app. cbn in H4. lia.
  - eapply (pop_body_inv _ _ 0); [by apply bq_inv_weaken|lia|done].
  - eapply (pop_body_inv _ _ 1); [|lia|done]. destruct HI as [H1 H2 H3 H4]. split; cbn; [done|done| |]; intros Hw; [|specialize (H4 Hw); lia].
    specialize (H3 Hw). rewrite E in H3. cbn in H3. lia.
  - destruct HI as [H1 H2 H3 H4]. split; cbn; [done|done|done|]. intros _. rewrite E in H4.
    assert (Hne : l1 ++ x :: l2 ≠ []) by (by destruct l1). specialize (H4 Hne). lia.
  - destruct HI as [H1 H2 H3 H4]. split; cbn; [done|done| |done]. intros _. rewrite E in H3. specialize (H3 ltac:(done)). lia.
Qed.

Lemma bq_step_cap s s' : bq_step s s' → _cap s' = _cap s.
Proof.
  assert (Hpop : ∀ a b, pop_body a b → _cap b = _cap a).
  { destruct 1 as [|a x pw pk b _ _ Hp]; [done|]. unfold pop_out in Hp. destruct (_q a); by simplify_eq. }
  assert (Hpush : ∀ v a b, push_body v a b → _cap b = _cap a) by (by destruct 1).
  destruct 1 as [v a b Hb%Hpush|l1 v l2 a b _ Hb%Hpush|a b Hb%Hpop|k a b _ Hb%Hpop|l1 v l2 a _|k a _]; done.
Qed.
Lemma bq_steps_inv s s' : rtc bq_step s s' → bq_inv s → bq_inv s' ∧ _cap s' = _cap s.
Proof.
  induction 1 as [|x y z Hxy _ IH]; [done|]. intros HI. destruct IH as [H1 H2]; [by eapply bq_step_inv|].
  split; [done|]. by rewrite H2, (bq_step_cap _ _ Hxy).
Qed.

(** The blocking queue works for any number of producers and consumers, under every
    interleaving and with spurious wake-ups: values come out in the order they went
    in, none lost or doubled; there are never more than [size] of them; and no wake-up
    is lost: while a consumer waits although there is a value, or a
    producer although there is room, another one of its kind is already woken, so that
    they never all sleep. *)
Theorem block_queue_works size s :
  0 < size → rtc bq_step (new_queue size) s →
  popped s ++ _q s = pushed s ∧ Z.of_nat (length (_q s)) ≤ size ∧
  (c_wait s ≠ [] → is_empty s = false → c_woken s ≠ []) ∧
  (p_wait s ≠ [] → is_full s = false → p_woken s ≠ []) ∧
  (c_wait s ≠ [] → p_wait s ≠ [] → c_woken s ≠ [] ∨ p_woken s ≠ []).
Proof.
  intros Hs Hr. assert (bq_inv (new_queue size)) as HI by (split; cbn; [done|lia|done|done]).
  assert (bq_inv s ∧ _cap s = size) as [[H1 H2 H3 H4] <-] by (by apply (bq_steps_inv (new_queue size))).
  split; [done|]. split; [done|]. split; [|split].
  - intros Hw He E. specialize (H3 Hw). rewrite E in H3. unfold is_empty in He. destruct (_q s); [done|]. cbn in H3. lia.
  - intros Hw Hf E. specialize (H4 Hw). rewrite E in H4. cbn in H4. unfold is_full in Hf. lia.
  - intros Hc Hp. specialize (H3 Hc). specialize (H4 Hp). destruct (c_woken s); [|by left]. destruct (p_woken s); [|by right].
    cbn in *. lia.
Qed.
End BlockQueue.
End BlockQueue.

(** ** [ring_queue] *)
Module RingQueue.

(** The shared data; the values pushed and popped so far, for the specification. *)
Record ring := mkRing {
  _queue : list Z;
  _cap : nat;
  _space_sem : nat;
  _data_sem : nat;
  productor_step : nat;
  consumer_step : nat;
  pushed : list Z;
  popped : list Z;
}.
Definition new_ring (cap : nat) : ring := mkRing (replicate cap 0) cap cap 0 0 0 [] [].

(** Where a producer is in [Push]: before [P], before the increment, before the write
    to the slot it took, before the reduction modulo [_cap], before [V]. *)
Inductive push_pc := PIdle | PTook (val : Z) | PInc (val : Z) (i : nat) | PWrote | PReduced.
Inductive pop_pc := CIdle | CTook | CInc (i : nat) | CRead | CReduced.

Definition set_productor (x : nat) (r : ring) : ring :=
  mkRing (_queue r) (_cap r) (_space_sem r) (_data_sem r) x (consumer_step r) (pushed r) (popped r).
Definition set_consumer (x : nat) (r : ring) : ring :=
  mkRing (_queue r) (_cap r) (_space_sem r) (_data_sem r) (productor_step r) x (pushed r) (popped r).
Definition set_sems (sp da : nat) (r : ring) : ring :=
  mkRing (_queue r) (_cap r) sp da (productor_step r) (consumer_step r) (pushed r) (popped r).

(** The next step of [Push(val)]; [None] while [sem_wait] blocks. *)
Definition Push_step (val : Z) (pc : push_pc) (r : ring) : option (res (push_pc * ring)) :=
  match pc with
  | PIdle =>                                        (* P(_space_sem) *)
      match _space_sem r with
      | O => None
      | S n => Some (Ok (PTook val, set_sems n (_data_sem r) r))
      end
  | PTook v =>                                      (* productor_step++ *)
      Some (Ok (PInc v (productor_step r), set_productor (S (productor_step r)) r))
  | PInc v i =>                                     (* _queue[...] = val *)
      if decide (i < length (_queue r))%nat
      then Some (Ok (PWrote, mkRing (<[i := v]> (_queue r)) (_cap r) (_space_sem r) (_data_sem r)
                               (productor_step r) (consumer_step r) (pushed r ++ [v]) (popped r)))
      else Some (Err OutOfBounds)
  | PWrote => Some (Ok (PReduced, set_productor (productor_step r mod _cap r) r))
  | PReduced => Some (Ok (PIdle, set_sems (_space_sem r) (S (_data_sem r)) r))     (* V(_data_sem) *)
  end.
Definition Pop_step (pc : pop_pc) (r : ring) : option (res (pop_pc * ring)) :=
  match pc with
  | CIdle =>
      match _data_sem r with
      | O => None
      | S n => Some (Ok (CTook, set_sems (_space_sem r) n r))
      end
  | CTook => Some (Ok (CInc (consumer_step r), set_consumer (S (consumer_step r)) r))
  | CInc i =>
      match _queue r !! i with
      | Some x => Some (Ok (CRead, mkRing (_queue r) (_cap r) (_space_sem r) (_data_sem r)
                                     (productor_step r) (consumer_step r) (pushed r) (popped r ++ [x])))
      | None => Some (Err OutOfBounds)
      end
  | CRead => Some (Ok (CReduced, set_consumer (consumer_step r mod _cap r) r))
  | CReduced => Some (Ok (CIdle, set_sems (S (_space_sem r)) (_data_sem r) r))
  end.

(** Several producers and one consumer. *)
Record system := mkSys { the_ring : ring; producers : list push_pc; consumer : pop_pc }.
Definition start (cap n : nat) : system := mkSys (new_ring cap) (replicate n PIdle) CIdle.

Inductive action := Produce (k : nat) (val : Z) | Consume.
(** [None] when the action is not possible. *)
Definition act (a : action) (s : system) : option (res system) :=
  match a with
  | Produce k val =>
      match producers s !! k with
      | None => None
      | Some pc =>
          match Push_step val pc (the_ring s) with
          | None => None
          | Some (Err e) => Some (Err e)
          | Some (Ok (pc', r)) => Some (Ok (mkSys r (<[k := pc']> (producers s)) (consumer s)))
          end
      end
  | Consume =>
      match Pop_step (consumer s) (the_ring s) with
      | None => None
      | Some (Err e) => Some (Err e)
      | Some (Ok (pc', r)) => Some (Ok (mkSys r (producers s) pc'))
      end
  end.
Fixpoint run (as_ : list action) (s : system) : option (res system) :=
  match as_ with
  | [] => Some (Ok s)
  | a :: as_ => match act a s with Some (Ok s) => run as_ s | x => x end
  end.

(** ** One producer and one consumer *)

(** Space a producer has taken and not written; values written and not announced;
    values a consumer has taken and not read; places read and not given back. *)
Definition claimed (pc : push_pc) : nat := match pc with PTook _ | PInc _ _ => 1 | _ => 0 end.
Definition unannounced (pc : push_pc) : nat := match pc with PWrote | PReduced => 1 | _ => 0 end.
Definition taken (pc : pop_pc) : nat := match pc with CTook | CInc _ => 1 | _ => 0 end.
Definition unreturned (pc : pop_pc) : nat := match pc with CRead | CReduced => 1 | _ => 0 end.

(** What a step counter is, by the number of completed accesses. *)
Definition p_step_ok (n cap : nat) (pc : push_pc) (x : nat) : Prop :=
  match pc with
  | PInc _ i => i = (n mod cap)%nat ∧ x = S i
  | PWrote => x = S ((n - 1) mod cap)%nat
  | _ => x = (n mod cap)%nat
  end.
Definition c_step_ok (n cap : nat) (pc : pop_pc) (x : nat) : Prop :=
  match pc with
  | CInc i => i = (n mod cap)%nat ∧ x = S i
  | CRead => x = S ((n - 1) mod cap)%nat
  | _ => x = (n mod cap)%nat
  end.

Record ring_inv (cap : nat) (r : ring) (pp : push_pc) (cp : pop_pc) : Prop := {
  ri_cap : _cap r = cap;
  ri_len : length (_queue r) = cap;
  ri_space : (_space_sem r + length (pushed r) + claimed pp + unreturned cp = cap + length (popped r))%nat;
  ri_data : (_data_sem r + length (popped r) + taken cp + unannounced pp = length (pushed r))%nat;
  ri_pstep : p_step_ok (length (pushed r)) cap pp (productor_step r);
  ri_cstep : c_step_ok (length (popped r)) cap cp (consumer_step r);
  ri_fifo : popped r = take (length (popped r)) (pushed r);
  ri_slots : ∀ i, (length (popped r) ≤ i < length (pushed r))%nat → _queue r !! (i mod cap)%nat = pushed r !! i;
  ri_wrote : unannounced pp = 1%nat → (0 < length (pushed r))%nat;
  ri_read : unreturned cp = 1%nat → (0 < length (popped r))%nat;
}.

Lemma step_reduced n cap : (0 < n)%nat → (0 < cap)%nat → (S ((n - 1) mod cap) mod cap = n mod cap)%nat.
Proof.
  intros Hn Hc. replace (S ((n - 1) mod cap)) with ((n - 1) mod cap + 1)%nat by lia.
  rewrite Nat.Div0.add_mod_idemp_l. f_equal. lia.
Qed.

(** Positions less than [cap] apart have different slots. *)
Lemma slot_ne i n cap : (i < n < i + cap)%nat → (i mod cap ≠ n mod cap)%nat.
Proof.
  intros Hi E. pose proof (Nat.div_mod_eq i cap). pose proof (Nat.div_mod_eq n cap). rewrite E in *.
  assert (n - i = cap * (n / cap - i / cap))%nat by nia.
  destruct (n / cap - i / cap)%nat as [|d]; nia.
Qed.

Lemma Push_step_inv cap val r pp cp :
  (0 < cap)%nat → ring_inv cap r pp cp →
  match Push_step val pp r with
  | None => pp = PIdle ∧ _space_sem r = 0%nat
  | Some (Err _) => False
  | Some (Ok (pp', r')) => ring_inv cap r' pp' cp
  end.
Proof.
  intros Hcap [H1 H2 H3 H4 H5 H6 H7 H8 H9 H10]. destruct pp as [|v|v i| |]; cbn [Push_step claimed unannounced p_step_ok] in *.
  - destruct (_space_sem r) as [|n] eqn:E; [done|]. split; cbn; try done; lia.
  - split; cbn; try done; lia.
  - destruct H5 as [-> H5]. pose proof (Nat.mod_upper_bound (length (pushed r)) cap ltac:(lia)).
    rewrite decide_True by lia. split; cbn; rewrite ?length_insert, ?length_app; cbn; try done; try lia.
    + rewrite Nat.add_sub. lia.
    + rewrite take_app_le by lia. done.
    + intros i Hi. destruct (decide (i = length (pushed r))) as [->|Hne].
      * rewrite list_lookup_insert_eq by lia. by rewrite lookup_app_r, Nat.sub_diag by lia.
      * rewrite list_lookup_insert_ne; [|apply not_eq_sym, slot_ne; lia]. rewrite lookup_app_l by lia. apply H8. lia.
  - split; cbn; try done. rewrite H5, H1. apply step_reduced; [by apply H9|done].
  - split; cbn; try done; lia.
Qed.

Lemma Pop_step_inv cap r pp cp :
  (0 < cap)%nat → ring_inv cap r pp cp →
  match Pop_step cp r with
  | None => cp = CIdle ∧ _data_sem r = 0%nat
  | Some (Err _) => False
  | Some (Ok (cp', r')) => ring_inv cap r' pp cp'
  end.
Proof.
  intros Hcap [H1 H2 H3 H4 H5 H6 H7 H8 H9 H10]. destruct cp as [| |i| |]; cbn [Pop_step taken unreturned c_step_ok] in *.
  - destruct (_data_sem r) as [|n] eqn:E; [done|]. split; cbn; try done; lia.
  - split; cbn; try done; lia.
  - destruct H6 as [-> H6]. rewrite H8 by lia.
    destruct (lookup_lt_is_Some_2 (pushed r) (length (popped r))) as [x Hx]; [lia|]. rewrite Hx.
    split; cbn; rewrite ?length_app; cbn; try done; try lia.
    + rewrite Nat.add_sub. lia.
    + rewrite Nat.add_1_r, (take_S_r _ _ _ Hx). by rewrite <- H7.
    + intros i Hi. apply H8. lia.
  - split; cbn; try done. rewrite H6, H1. apply step_reduced; [by apply H10|done].
  - split; cbn; try done; lia.
Qed.

(** With one producer and one consumer the ring is a bounded queue: whatever the
    order of their steps, no access leaves the array, the values popped are the
    first ones pushed, in order, at most [cap] are under way, and one of the two
    threads can always go on. *)
Theorem ring_queue_works cap acts :
  (0 < cap)%nat →
  match run acts (start cap 1) with
  | Some (Err _) => False
  | Some (Ok s) =>
      let r := the_ring s in
      popped r `prefix_of` pushed r ∧ (length (pushed r) ≤ length (popped r) + cap)%nat ∧
      (act Consume s ≠ None ∨ ∀ val, act (Produce 0 val) s ≠ None)
  | None => True
  end.
Proof.
  intros Hcap.
  assert (Hgo : ∀ s pp, producers s = [pp] → ring_inv cap (the_ring s) pp (consumer s) →
    match run acts s with
    | Some (Err _) => False
    | Some (Ok s) => ∃ pp, producers s = [pp] ∧ ring_inv cap (the_ring s) pp (consumer s)
    | None => True
    end).
  { induction acts as [|a acts IH]; intros s pp Hp HI; [by exists pp|]. cbn [run].
    destruct a as [k val|]; cbn [act].
    - rewrite Hp. destruct k as [|k]; [|done]. cbn [lookup list_lookup].
      pose proof (Push_step_inv cap val _ _ _ Hcap HI) as HP. destruct (Push_step val pp (the_ring s)) as [[[pp' r']|]|]; try done.
      by apply (IH (mkSys r' [pp'] (consumer s)) pp').
    - pose proof (Pop_step_inv cap _ _ _ Hcap HI) as HP. destruct (Pop_step (consumer s) (the_ring s)) as [[[cp' r']|]|]; try done.
      by apply (IH (mkSys r' (producers s) cp') pp). }
  specialize (Hgo (start cap 1) PIdle eq_refl). destruct (run acts (start cap 1)) as [[s|]|]; [| |done].
  2: { apply Hgo. split; cbn; rewrite ?length_replicate; try done; try lia; by rewrite Nat.Div0.mod_0_l. }
  destruct Hgo as (pp & Hp & HI).
  { split; cbn; rewrite ?length_replicate; try done; try lia; by rewrite Nat.Div0.mod_0_l. }
  pose proof HI as [H1 H2 H3 H4 _ _ H7 _ _ _]. cbv zeta. split; [rewrite H7; apply prefix_take|]. split; [lia|].
  cbn [act]. rewrite Hp. cbn [lookup list_lookup].
  pose proof (Pop_step_inv cap _ _ _ Hcap HI) as HC. destruct (Pop_step (consumer s) (the_ring s)) as [[[? ?]|]|] eqn:EC; [by left|by left|].
  right. intros val. pose proof (Push_step_inv cap val _ _ _ Hcap HI) as HP.
  destruct (Push_step val pp (the_ring s)) as [[[? ?]|]|] eqn:EP; [done|done|]. exfalso.
  destruct HC as [Ec HC], HP as [Ep HP]. rewrite Ec, Ep, HP in H3. rewrite Ec, Ep, HC in H4. cbn in *. lia.
Qed.

(** Two producers break it: one can take its slot between the other's increment
    and its reduction, and then writes outside the array. *)
Theorem two_producers_overrun :
  ∃ acts, run acts (start 3 2) = Some (Err OutOfBounds).
Proof.
  exists (replicate 5 (Produce 0 1) ++ replicate 5 (Produce 0 2) ++ replicate 5 Consume ++
          [Produce 0 3; Produce 1 4; Produce 0 3; Produce 1 4; Produce 1 4]).
  by vm_compute.
Qed.
End RingQueue.

(** ** [ThreadPool] of src/my_Http *)
Module ThreadPool.
Section ThreadPool.
Context {Task : Type}.

(** The workers are alike, so those in each state are counted; a producer signals
    after it has released the lock, so signals can be outstanding. *)
Record ThreadPool := mkPool {
  task_queue : list Task;
  idle : nat;              (** about to lock *)
  waiting : nat; woken : nat;
  busy : list Task;        (** in [Process_on] *)
  signals : nat;           (** [Push_task] between [UnLock] and [ThreadWakeup] *)
  pushed : list Task;
  handed : list Task;      (** tasks given to workers, in order *)
}.
(** [ThreadPool_Init] with [num] threads *)
Definition ThreadPool_Init (num : nat) : ThreadPool := mkPool [] num 0 0 [] 0 [] [].

Definition is_task_queue_empty (p : ThreadPool) : bool := match task_queue p with [] => true | _ => false end.

(** [Push_task] up to [UnLock] *)
Definition Push_task (t : Task) (p : ThreadPool) : ThreadPool :=
  mkPool (task_queue p ++ [t]) (idle p) (waiting p) (woken p) (busy p) (S (signals p)) (pushed p ++ [t]) (handed p).
(** [ThreadWakeup]: one waiting worker is woken, if there is one. *)
Definition ThreadWakeup (p : ThreadPool) : ThreadPool :=
  match waiting p with
  | O => mkPool (task_queue p) (idle p) 0 (woken p) (busy p) (signals p - 1) (pushed p) (handed p)
  | S n => mkPool (task_queue p) (idle p) n (S (woken p)) (busy p) (signals p - 1) (pushed p) (handed p)
  end.
(** [ThreadRoutine] with the lock held: wait while the queue is empty, or take the front task. *)
Definition ThreadRoutine (p : ThreadPool) : ThreadPool :=
  match task_queue p with
  | [] => mkPool [] (idle p) (S (waiting p)) (woken p) (busy p) (signals p) (pushed p) (handed p)
  | t :: q => mkPool q (idle p) (waiting p) (woken p) (t :: busy p) (signals p) (pushed p) (handed p ++ [t])
  end.
Definition set_idle (i k : nat) (p : ThreadPool) : ThreadPool :=
  mkPool (task_queue p) i (waiting p) k (busy p) (signals p) (pushed p) (handed p).

Inductive pool_step : ThreadPool → ThreadPool → Prop :=
  | pool_push t p : pool_step p (Push_task t p)
  | pool_signal p : (0 < signals p)%nat → pool_step p (ThreadWakeup p)
  | pool_enter n p : idle p = S n → pool_step p (ThreadRoutine (set_idle n (woken p) p))
  | pool_again n p : woken p = S n → pool_step p (ThreadRoutine (set_idle (idle p) n p))
  | pool_done l1 t l2 p : busy p = l1 ++ t :: l2 →
      pool_step p (mkPool (task_queue p) (S (idle p)) (waiting p) (woken p) (l1 ++ l2) (signals p) (pushed p) (handed p))
  | pool_spurious n p : waiting p = S n →
      pool_step p (mkPool (task_queue p) (idle p) n (S (woken p)) (busy p) (signals p) (pushed p) (handed p)).

Record pool_inv (num : nat) (p : ThreadPool) : Prop := {
  pi_fifo : handed p ++ task_queue p = pushed p;
  pi_workers : (idle p + waiting p + woken p + length (busy p) = num)%nat;
  pi_wake : (0 < waiting p → length (task_queue p) ≤ woken p + signals p)%nat;
}.

Lemma ThreadRoutine_inv num p :
  handed p ++ task_queue p = pushed p → (S (idle p + waiting p + woken p + length (busy p)) = num)%nat →
  (0 < waiting p → length (task_queue p) ≤ S (woken p + signals p))%nat → pool_inv num (ThreadRoutine p).
Proof.
  intros H1 H2 H3. unfold ThreadRoutine. destruct (task_queue p) as [|t q] eqn:E; split; cbn in *; try lia; [done|].
  by rewrite <- app_assoc.
Qed.

Lemma pool_step_inv num p p' : pool_inv num p → pool_step p p' → pool_inv num p'.
Proof.
  intros [H1 H2 H3]. destruct 1 as [t p|p Hs|n p E|n p E|l1 t l2 p E|n p E].
  - split; cbn; [by rewrite app_assoc, H1|lia|]. rewrite length_app. cbn. lia.
  - unfold ThreadWakeup. destruct (waiting p) as [|n] eqn:E; split; cbn; try done; lia.
  - apply ThreadRoutine_inv; cbn; [done|lia|lia].
  - apply ThreadRoutine_inv; cbn; [done|lia|lia].
  - split; cbn; [done| |lia]. rewrite E, length_app in H2. rewrite length_app. cbn in H2. lia.
  - split; cbn; [done|lia|lia].
Qed.

(** The pool of [num] workers gives each task to exactly one worker, in the order
    of the pushes, and forgets none: while a task is queued, some worker is working, is
    awake, or is about to be woken by a signal still to come. *)
Theorem thread_pool_works num p :
  (0 < num)%nat → rtc pool_step (ThreadPool_Init num) p →
  handed p ++ task_queue p = pushed p ∧ (length (busy p) ≤ num)%nat ∧
  (task_queue p ≠ [] → (0 < idle p + woken p + length (busy p) + signals p)%nat).
Proof.
  intros Hn Hr. assert (pool_inv num (ThreadPool_Init num)) as HI by (split; cbn; [done|lia|lia]).
  assert (pool_inv num p) as [H1 H2 H3].
  { induction Hr as [|x y z Hxy _ IH]; [done|]. apply IH. by eapply pool_step_inv. }
  split; [done|]. split; [lia|]. intros Hq. destruct (task_queue p); [done|]. cbn in H3. lia.
Qed.
End ThreadPool.
End ThreadPool.

(** ** Witnesses *)
Lemma block_queue_works_witness :
  ∃ s, rtc (BlockQueue.bq_step (T := Z)) (BlockQueue.new_queue 1) s ∧ BlockQueue._q s = [7] ∧ BlockQueue.popped s = [].
Proof.
  set (s := BlockQueue.push_in 7 [] [] (BlockQueue.new_queue 1)).
  assert (Hr : rtc (BlockQueue.bq_step (T := Z)) (BlockQueue.new_queue 1) s).
  { apply rtc_once. eapply BlockQueue.bq_push. apply BlockQueue.push_goes; [done|constructor]. }
  destruct (BlockQueue.block_queue_works 1 s ltac:(lia) Hr) as (E & _). exists s. split; [exact Hr|]. split; [done|].
  by apply (app_inv_tail [7]).
Defined.

Lemma ring_queue_works_witness :
  ∃ s, RingQueue.run (replicate 5 (RingQueue.Produce 0 8)) (RingQueue.start 2 1) = Some (Ok s) ∧
    RingQueue.popped (RingQueue.the_ring s) `prefix_of` RingQueue.pushed (RingQueue.the_ring s).
Proof.
  pose proof (RingQueue.ring_queue_works 2 (replicate 5 (RingQueue.Produce 0 8)) ltac:(lia)) as Hw.
  eexists. split; [vm_compute; reflexivity|]. apply Hw.
Defined.

Lemma thread_pool_works_witness :
  ∃ p, rtc (ThreadPool.pool_step (Task := Z)) (ThreadPool.ThreadPool_Init 6) p ∧ ThreadPool.pushed p = [5] ∧
    ThreadPool.handed p ++ ThreadPool.task_queue p = [5].
Proof.
  set (p := ThreadPool.Push_task 5 (ThreadPool.ThreadPool_Init 6)).
  assert (Hr : rtc (ThreadPool.pool_step (Task := Z)) (ThreadPool.ThreadPool_Init 6) p) by (apply rtc_once; constructor).
  destruct (ThreadPool.thread_pool_works 6 p ltac:(lia) Hr) as (E & _). exists p. split; [exact Hr|]. split; [done|exact E].
Defined.
