(* ===== verification/Bytes.v ===== *)
(** * Bytes and machine words

    The byte-level vocabulary of the websocket library: a byte is an integer of
    [0 .. 255]; a machine is its byte order and the size of [size_t]; a C++ union of
    an integer and an array of bytes is the pair of conversions [host_bytes] and
    [host_val].  The lemmas are those the codecs share: conversions are inverse of
    each other, commute with exclusive or, and turn shifts into moves of bytes. *)

From S2P Require Import Prelude.

Open Scope Z_scope.

Definition byte_ok (b : Z) : Prop := 0 ≤ b < 256.
Definition bytes_ok (l : list Z) : Prop := Forall byte_ok l.

(** A statement about the integers below [n], by checking each of them. *)
Lemma below_check (n : nat) (P : Z → bool) :
  forallb P (Z.of_nat <$> seq 0 n) = true → ∀ v, 0 ≤ v < Z.of_nat n → P v = true.
Proof.
  intros H v Hv. rewrite forallb_forall in H. apply H.
  apply list_elem_of_In, list_elem_of_fmap. exists (Z.to_nat v). rewrite elem_of_seq. lia.
Qed.

(** ** Little-endian lists of bytes *)
Fixpoint le_bytes (n : nat) (x : Z) : list Z :=
  match n with O => [] | S n => x mod 256 :: le_bytes n (x / 256) end.
Fixpoint le_val (l : list Z) : Z :=
  match l with [] => 0 | b :: l => b + 256 * le_val l end.

Lemma le_bytes_length n x : length (le_bytes n x) = n.
Proof. revert x. induction n; intros; simpl; auto. Qed.
Lemma le_bytes_ok n x : bytes_ok (le_bytes n x).
Proof. revert x. induction n; intros; constructor; [apply Z.mod_pos_bound; lia|apply IHn]. Qed.
Lemma le_val_bound l : bytes_ok l → 0 ≤ le_val l < 256 ^ Z.of_nat (length l).
Proof.
  induction 1 as [|b l Hb _ IH]; [simpl; lia|]. cbn [le_val length]. rewrite Nat2Z.inj_succ, Z.pow_succ_r by lia.
  unfold byte_ok in Hb. nia.
Qed.
Lemma le_val_bytes n x : 0 ≤ x < 256 ^ Z.of_nat n → le_val (le_bytes n x) = x.
Proof.
  revert x. induction n as [|n IH]; intros x Hx; [simpl in *; lia|]. cbn [le_bytes le_val].
  rewrite Nat2Z.inj_succ, Z.pow_succ_r in Hx by lia. rewrite IH.
  - pose proof (Z.div_mod x 256). lia.
  - split; [apply Z.div_pos; lia|apply Z.div_lt_upper_bound; lia].
Qed.
Lemma le_bytes_val l : bytes_ok l → le_bytes (length l) (le_val l) = l.
Proof.
  induction 1 as [|b l Hb _ IH]; [done|]. cbn [le_val length le_bytes]. unfold byte_ok in Hb. f_equal.
  - rewrite Z.mul_comm, Z_mod_plus_full. by apply Z.mod_small.
  - rewrite Z.mul_comm, Z.div_add, Z.div_small by lia. done.
Qed.

(** ** The bytes of shifted and combined words *)
Lemma lxor_mod_pow2 a b k : 0 ≤ k → Z.lxor a b mod 2 ^ k = Z.lxor (a mod 2 ^ k) (b mod 2 ^ k).
Proof.
  intros Hk. apply Z.bits_inj'. intros i Hi. rewrite Z.lxor_spec.
  destruct (Z.lt_ge_cases i k).
  - rewrite !Z.mod_pow2_bits_low by lia. apply Z.lxor_spec.
  - rewrite !Z.mod_pow2_bits_high by lia. done.
Qed.
Lemma lxor_div_pow2 a b k : 0 ≤ k → Z.lxor a b / 2 ^ k = Z.lxor (a / 2 ^ k) (b / 2 ^ k).
Proof. intros Hk. rewrite <- !Z.shiftr_div_pow2 by lia. apply Z.shiftr_lxor. Qed.

Lemma le_bytes_lxor n x y : le_bytes n (Z.lxor x y) = zip_with Z.lxor (le_bytes n x) (le_bytes n y).
Proof.
  revert x y. induction n as [|n IH]; intros; [done|]. cbn [le_bytes zip_with].
  change 256 with (2 ^ 8). rewrite lxor_mod_pow2, lxor_div_pow2, IH by lia. done.
Qed.
Lemma lor_mod_pow2 a b k : 0 ≤ k → Z.lor a b mod 2 ^ k = Z.lor (a mod 2 ^ k) (b mod 2 ^ k).
Proof.
  intros Hk. apply Z.bits_inj'. intros i Hi. rewrite Z.lor_spec.
  destruct (Z.lt_ge_cases i k).
  - rewrite !Z.mod_pow2_bits_low by lia. apply Z.lor_spec.
  - rewrite !Z.mod_pow2_bits_high by lia. done.
Qed.
Lemma le_bytes_lor n x y : le_bytes n (Z.lor x y) = zip_with Z.lor (le_bytes n x) (le_bytes n y).
Proof.
  revert x y. induction n as [|n IH]; intros; [done|]. cbn [le_bytes zip_with].
  change 256 with (2 ^ 8). rewrite lor_mod_pow2 by lia. rewrite <- !Z.shiftr_div_pow2 by lia.
  rewrite Z.shiftr_lor, IH. done.
Qed.
Lemma zip_with_lor_zeros n l : length l = n → zip_with Z.lor l (replicate n 0) = l ∧ zip_with Z.lor (replicate n 0) l = l.
Proof.
  intros <-. induction l as [|x l [IH1 IH2]]; [done|]. cbn [length replicate zip_with].
  rewrite IH1, IH2, Z.lor_0_r, Z.lor_0_l. done.
Qed.
Lemma le_bytes_zero n : le_bytes n 0 = replicate n 0.
Proof. induction n; [done|]. cbn. by rewrite <- IHn. Qed.
Lemma le_bytes_shiftr n k x :
  le_bytes n (Z.shiftr x (8 * Z.of_nat k)) = drop k (le_bytes (k + n) x).
Proof.
  revert x. induction k as [|k IH]; intros; [by rewrite Z.shiftr_0_r|]. cbn [le_bytes drop Nat.add].
  rewrite <- IH. f_equal. rewrite !Z.shiftr_div_pow2 by lia.
  replace (8 * Z.of_nat (S k)) with (8 + 8 * Z.of_nat k) by lia.
  rewrite Z.pow_add_r, Z.div_div by lia. done.
Qed.
Lemma le_bytes_shiftl n k x :
  le_bytes (k + n) (Z.shiftl x (8 * Z.of_nat k)) = replicate k 0 ++ le_bytes n x.
Proof.
  induction k as [|k IH]; intros; [by rewrite Z.shiftl_0_r|]. cbn [le_bytes Nat.add replicate app].
  rewrite <- IH. rewrite !Z.shiftl_mul_pow2 by lia.
  replace (8 * Z.of_nat (S k)) with (8 * Z.of_nat k + 8) by lia.
  rewrite Z.pow_add_r, Z.mul_assoc by lia. change (2 ^ 8) with 256. f_equal.
  - by rewrite Z.mod_mul.
  - by rewrite Z.div_mul.
Qed.
Lemma le_bytes_add n m x : le_bytes (n + m) x = le_bytes n x ++ le_bytes m (Z.shiftr x (8 * Z.of_nat n)).
Proof.
  rewrite le_bytes_shiftr. rewrite <- (take_drop n (le_bytes (n + m) x)) at 1. f_equal.
  revert x. induction n; intros; [done|]. cbn. by rewrite IHn.
Qed.
Lemma le_bytes_mod n m x : (n ≤ m)%nat → le_bytes n (x mod 256 ^ Z.of_nat m) = le_bytes n x.
Proof.
  revert m x. induction n as [|n IH]; intros m x Hm; [done|]. destruct m as [|m]; [lia|]. cbn [le_bytes].
  rewrite Nat2Z.inj_succ, Z.pow_succ_r by lia. f_equal.
  - rewrite Z.rem_mul_r, Z.mul_comm, Z_mod_plus_full, Z.mod_mod by lia. done.
  - rewrite Z.rem_mul_r by lia. rewrite (Z.mul_comm 256), Z.div_add by lia.
    rewrite (Z.div_small (x mod 256)), Z.add_0_l by (apply Z.mod_pos_bound; lia).
    apply IH. lia.
Qed.
(** A rotation by [k] bytes, written with two shifts. *)
Lemma le_bytes_rotate n k x :
  (k ≤ n)%nat → 0 ≤ x < 256 ^ Z.of_nat n →
  le_bytes n (Z.lor (Z.shiftr x (8 * Z.of_nat k)) (Z.shiftl x (8 * Z.of_nat (n - k)) mod 256 ^ Z.of_nat n)) =
  drop k (le_bytes n x) ++ take k (le_bytes n x).
Proof.
  intros Hk Hx. rewrite le_bytes_lor, le_bytes_shiftr, le_bytes_mod by done.
  rewrite (Nat.add_comm k n), le_bytes_add. replace (Z.shiftr x (8 * Z.of_nat n)) with 0.
  2: { symmetry. rewrite Z.shiftr_div_pow2 by lia. apply Z.div_small. by rewrite Z.pow_mul_r by lia. }
  rewrite le_bytes_zero, drop_app_le by (rewrite le_bytes_length; lia).
  replace n with ((n - k) + k)%nat at 2 by lia. rewrite le_bytes_shiftl.
  rewrite zip_with_app by (rewrite length_drop, length_replicate, le_bytes_length; lia).
  replace (le_bytes k x) with (take k (le_bytes n x)).
  2: { replace n with (k + (n - k))%nat by lia. by rewrite le_bytes_add, take_app_length' by (by rewrite le_bytes_length). }
  pose proof (le_bytes_length n x).
  destruct (zip_with_lor_zeros (n - k) (drop k (le_bytes n x))) as [-> _]; [rewrite length_drop; lia|].
  destruct (zip_with_lor_zeros k (take k (le_bytes n x))) as [_ ->]; [rewrite length_take; lia|]. done.
Qed.
Lemma lor_low_high a b k : 0 ≤ k → 0 ≤ a < 2 ^ k → Z.lor (Z.shiftl b k) a = b * 2 ^ k + a.
Proof.
  intros Hk Ha. rewrite Z.shiftl_mul_pow2 by lia. symmetry. rewrite <- Z.add_lor_land.
  replace (Z.land (b * 2 ^ k) a) with 0; [lia|]. symmetry. apply Z.bits_inj'. intros i Hi.
  rewrite Z.land_spec, Z.bits_0. destruct (Z.lt_ge_cases i k).
  - rewrite Z.mul_pow2_bits_low by lia. done.
  - rewrite <- (Z.mod_small a (2 ^ k)), Z.mod_pow2_bits_high by lia. apply andb_false_r.
Qed.
Lemma le_val_app l1 l2 : le_val (l1 ++ l2) = le_val l1 + 256 ^ Z.of_nat (length l1) * le_val l2.
Proof.
  induction l1 as [|b l1 IH]; [cbn [app le_val length]; lia|]. cbn [app le_val length].
  rewrite IH, Nat2Z.inj_succ, Z.pow_succ_r by lia. lia.
Qed.

(** ** Machines *)
Class Machine := {
  is_little_endian : bool;
  sizeof_size_t : nat;
  size_t_ok : sizeof_size_t = 4%nat ∨ sizeof_size_t = 8%nat;
}.
Definition x86_64 : Machine := {| is_little_endian := true; sizeof_size_t := 8; size_t_ok := or_intror eq_refl |}.
Definition ppc32 : Machine := {| is_little_endian := false; sizeof_size_t := 4; size_t_ok := or_introl eq_refl |}.

Section Host.
Context `{Machine}.

Definition size_t (x : Z) : Z := x mod 256 ^ Z.of_nat sizeof_size_t.

Definition host_bytes (n : nat) (x : Z) : list Z := if is_little_endian then le_bytes n x else rev (le_bytes n x).
Definition host_val (l : list Z) : Z := if is_little_endian then le_val l else le_val (rev l).

Lemma host_bytes_length n x : length (host_bytes n x) = n.
Proof. unfold host_bytes. destruct is_little_endian; rewrite ?length_rev; apply le_bytes_length. Qed.
Lemma host_bytes_ok n x : bytes_ok (host_bytes n x).
Proof. unfold host_bytes. destruct is_little_endian; [|apply Forall_rev]; apply le_bytes_ok. Qed.
Lemma host_val_bytes n x : 0 ≤ x < 256 ^ Z.of_nat n → host_val (host_bytes n x) = x.
Proof. intros. unfold host_val, host_bytes. destruct is_little_endian; rewrite ?rev_involutive; by apply le_val_bytes. Qed.
Lemma host_bytes_val l : bytes_ok l → host_bytes (length l) (host_val l) = l.
Proof.
  intros Hl. unfold host_val, host_bytes. destruct is_little_endian; [by apply le_bytes_val|].
  rewrite <- (length_rev l), le_bytes_val by (by apply Forall_rev). apply rev_involutive.
Qed.
Lemma host_val_bound l : bytes_ok l → 0 ≤ host_val l < 256 ^ Z.of_nat (length l).
Proof.
  intros Hl. unfold host_val. destruct is_little_endian; [by apply le_val_bound|].
  rewrite <- length_rev. apply le_val_bound. by apply Forall_rev.
Qed.
Lemma zip_with_rev {A} (f : A → A → A) l1 l2 :
  length l1 = length l2 → zip_with f (rev l1) (rev l2) = rev (zip_with f l1 l2).
Proof.
  revert l2. induction l1 as [|x l1 IH]; intros [|y l2] Hl; try done. cbn in *.
  rewrite zip_with_app, IH by (rewrite ?length_rev; lia). done.
Qed.
Lemma host_bytes_lxor n x y : host_bytes n (Z.lxor x y) = zip_with Z.lxor (host_bytes n x) (host_bytes n y).
Proof.
  unfold host_bytes. destruct is_little_endian; rewrite le_bytes_lxor; [done|].
  rewrite zip_with_rev; rewrite ?le_bytes_length; done.
Qed.
Lemma size_t_small x : 0 ≤ x < 2 ^ 32 → size_t x = x.
Proof. intros. unfold size_t. apply Z.mod_small. destruct size_t_ok as [-> | ->]; lia. Qed.
Lemma size_t_range x : 0 ≤ size_t x < 256 ^ Z.of_nat sizeof_size_t.
Proof. apply Z.mod_pos_bound. destruct size_t_ok as [-> | ->]; lia. Qed.
End Host.

(** ** Bytes in memory

    Reads and writes of a range of bytes of a buffer; a range that is not inside the
    buffer is an error. *)
Definition load_range (buf : list Z) (at_ n : nat) : res (list Z) :=
  if decide (at_ + n ≤ length buf)%nat then Ok (take n (drop at_ buf)) else Err OutOfBounds.
Definition store_range (buf : list Z) (at_ : nat) (bs : list Z) : res (list Z) :=
  if decide (at_ + length bs ≤ length buf)%nat
  then Ok (take at_ buf ++ bs ++ drop (at_ + length bs) buf) else Err OutOfBounds.

Lemma load_range_ok buf a n : (a + n ≤ length buf)%nat → load_range buf a n = Ok (take n (drop a buf)).
Proof. intros. unfold load_range. by rewrite decide_True. Qed.
Lemma store_range_ok buf a bs :
  (a + length bs ≤ length buf)%nat → store_range buf a bs = Ok (take a buf ++ bs ++ drop (a + length bs) buf).
Proof. intros. unfold store_range. by rewrite decide_True. Qed.
Lemma store_range_lookup (buf : list Z) a bs j :
  (a + length bs ≤ length buf)%nat →
  (take a buf ++ bs ++ drop (a + length bs) buf) !! j =
  if decide (a ≤ j < a + length bs)%nat then bs !! (j - a)%nat else buf !! j.
Proof.
  intros Hl. destruct (decide (a ≤ j < a + length bs)%nat).
  - rewrite lookup_app_r, lookup_app_l; rewrite ?length_take; [f_equal; lia|lia..].
  - destruct (decide (j < a)%nat).
    + rewrite lookup_app_l by (rewrite length_take; lia). by apply lookup_take_lt.
    + rewrite !lookup_app_r; rewrite ?length_take; [|lia..]. rewrite lookup_drop. f_equal. lia.
Qed.
Lemma store_range_length (buf : list Z) a bs :
  (a + length bs ≤ length buf)%nat → length (take a buf ++ bs ++ drop (a + length bs) buf) = length buf.
Proof. intros. rewrite !length_app, length_take, length_drop. lia. Qed.
