(* ===== verification/WsFrame.v ===== *)
(** * Frames of the websocket protocol: src/websocketpp-master/websocketpp/frame.hpp

    The header of a frame is two bytes and up to twelve more; the payload of a client
    is masked with a key of four bytes.  The definitions follow the code for any
    machine (byte order and size of [size_t]).  The theorems: what one side writes the
    other reads back, and each of the masking loops, byte by byte or word by word, in
    place or not, in one piece or in chunks, is the masking of RFC 6455. *)

From S2P Require Import Prelude Bytes.

Open Scope Z_scope.

(** ** Opcodes *)
Module opcode.
Definition continuation : Z := 0.
Definition text : Z := 1.
Definition binary : Z := 2.
Definition rsv3 : Z := 3.
Definition rsv7 : Z := 7.
Definition close : Z := 8.
Definition ping : Z := 9.
Definition pong : Z := 10.
Definition control_rsvb : Z := 11.
Definition control_rsvf : Z := 15.

Definition reserved (v : Z) : bool :=
  ((rsv3 <=? v) && (v <=? rsv7)) || ((control_rsvb <=? v) && (v <=? control_rsvf)).
Definition invalid (v : Z) : bool := (15 <? v) || (v <? 0).
Definition is_control (v : Z) : bool := 8 <=? v.
End opcode.

Module limits.
Definition payload_size_basic : Z := 125.
Definition payload_size_extended : Z := 65535.
Definition close_reason_size : Z := 123.
End limits.

Definition BASIC_HEADER_LENGTH : Z := 2.
Definition MAX_HEADER_LENGTH : Z := 14.
Definition MAX_EXTENDED_HEADER_LENGTH : nat := 12.

Definition BHB0_OPCODE : Z := 15.
Definition BHB0_RSV3 : Z := 16.
Definition BHB0_RSV2 : Z := 32.
Definition BHB0_RSV1 : Z := 64.
Definition BHB0_FIN : Z := 128.
Definition BHB1_PAYLOAD : Z := 127.
Definition BHB1_MASK : Z := 128.
Definition payload_size_code_16bit : Z := 126.
Definition payload_size_code_64bit : Z := 127.

(** ** The fixed part of the header *)
Record basic_header := mkBasic { b0 : Z; b1 : Z }.

Definition uint8 (x : Z) : Z := x mod 256.
Definition set_flag (on : bool) (flag b : Z) : Z := if on then Z.lor b flag else b.

Definition basic_value (size : Z) : Z :=
  if size <=? limits.payload_size_basic then uint8 size
  else if size <=? limits.payload_size_extended then payload_size_code_16bit
  else payload_size_code_64bit.

(** The constructor from the fields of the frame. *)
Definition new_basic_header (op size : Z) (fin mask rsv1 rsv2 rsv3 : bool) : basic_header :=
  let c0 := set_flag fin BHB0_FIN 0 in
  let c0 := set_flag rsv1 BHB0_RSV1 c0 in
  let c0 := set_flag rsv2 BHB0_RSV2 c0 in
  let c0 := set_flag rsv3 BHB0_RSV3 c0 in
  let c0 := Z.lor c0 (Z.land op BHB0_OPCODE) in
  let c1 := set_flag mask BHB1_MASK 0 in
  mkBasic c0 (Z.lor c1 (basic_value size)).

Definition get_fin (h : basic_header) : bool := Z.land (b0 h) BHB0_FIN =? BHB0_FIN.
Definition get_rsv1 (h : basic_header) : bool := Z.land (b0 h) BHB0_RSV1 =? BHB0_RSV1.
Definition get_rsv2 (h : basic_header) : bool := Z.land (b0 h) BHB0_RSV2 =? BHB0_RSV2.
Definition get_rsv3 (h : basic_header) : bool := Z.land (b0 h) BHB0_RSV3 =? BHB0_RSV3.
Definition get_opcode (h : basic_header) : Z := Z.land (b0 h) BHB0_OPCODE.
Definition get_masked (h : basic_header) : bool := Z.land (b1 h) BHB1_MASK =? BHB1_MASK.
Definition get_basic_size (h : basic_header) : Z := Z.land (b1 h) BHB1_PAYLOAD.

Definition put_flag (value : bool) (flag b : Z) : Z :=
  uint8 (if value then Z.lor b flag else Z.land b (Z.lnot flag)).
Definition set_fin (h : basic_header) (value : bool) : basic_header := mkBasic (put_flag value BHB0_FIN (b0 h)) (b1 h).
Definition set_rsv1 (h : basic_header) (value : bool) : basic_header := mkBasic (put_flag value BHB0_RSV1 (b0 h)) (b1 h).
Definition set_rsv2 (h : basic_header) (value : bool) : basic_header := mkBasic (put_flag value BHB0_RSV2 (b0 h)) (b1 h).
Definition set_rsv3 (h : basic_header) (value : bool) : basic_header := mkBasic (put_flag value BHB0_RSV3 (b0 h)) (b1 h).
Definition set_masked (h : basic_header) (value : bool) : basic_header := mkBasic (b0 h) (put_flag value BHB1_MASK (b1 h)).

Definition get_masking_key_offset (h : basic_header) : Z :=
  if get_basic_size h =? payload_size_code_16bit then 2
  else if get_basic_size h =? payload_size_code_64bit then 8
  else 0.
Definition get_header_len (h : basic_header) : Z :=
  let size := BASIC_HEADER_LENGTH + get_masking_key_offset h in
  if get_masked h then size + 4 else size.

(** ** The variable part of the header *)
Section Frame.
Context `{Machine}.

(** [lib::net::_htonll]: four swaps of bytes on a little-endian machine. *)
Definition swap_at (i j : nat) (c : list Z) : list Z :=
  match c !! i, c !! j with Some x, Some y => <[j := x]> (<[i := y]> c) | _, _ => c end.
Definition _htonll (src : Z) : Z :=
  let typ_bige := default 0 (host_bytes 8 1 !! 7%nat) =? 1 in
  if typ_bige then src
  else host_val (swap_at 3 4 (swap_at 2 5 (swap_at 1 6 (swap_at 0 7 (host_bytes 8 src))))).
Definition _ntohll (src : Z) : Z := _htonll src.
(** [ntohs] and [htons] of the C library. *)
Definition ntohs (src : Z) : Z := if is_little_endian then host_val (rev (host_bytes 2 src)) else src.
Definition htons (src : Z) : Z := ntohs src.

(** [extended_header]: an array of twelve bytes. *)
Definition empty_extended : list Z := replicate MAX_EXTENDED_HEADER_LENGTH 0.
Definition copy_payload (payload_size : Z) (bytes : list Z) : res (nat * list Z) :=
  let payload_offset :=
    if payload_size <=? limits.payload_size_basic then 8%nat
    else if payload_size <=? limits.payload_size_extended then 6%nat else 0%nat in
  let temp64 := host_bytes 8 (_htonll payload_size) in
  bytes' ← store_range bytes 0 (drop payload_offset temp64);
  mret ((8 - payload_offset)%nat, bytes').
Definition extended_header_plain (payload_size : Z) : res (list Z) :=
  '(_, bytes) ← copy_payload payload_size empty_extended; mret bytes.
Definition extended_header_keyed (payload_size masking_key : Z) : res (list Z) :=
  '(offset, bytes) ← copy_payload payload_size empty_extended;
  store_range bytes offset (host_bytes 4 masking_key).

Definition prepare_header (h : basic_header) (e : list Z) : res (list Z) :=
  ext ← load_range e 0 (Z.to_nat (get_header_len h - BASIC_HEADER_LENGTH));
  mret ([b0 h; b1 h] ++ ext).

(** The masking key is the union of an integer and four bytes: the bytes. *)
Definition get_masking_key (h : basic_header) (e : list Z) : res (list Z) :=
  if get_masked h then load_range e (Z.to_nat (get_masking_key_offset h)) 4
  else Ok (host_bytes 4 0).
Definition get_extended_size (e : list Z) : res Z :=
  temp16 ← load_range e 0 2; mret (ntohs (host_val temp16)).
Definition get_jumbo_size (e : list Z) : res Z :=
  temp64 ← load_range e 0 8; mret (_ntohll (host_val temp64)).
Definition get_payload_size (h : basic_header) (e : list Z) : res Z :=
  let val := get_basic_size h in
  if val <=? limits.payload_size_basic then Ok val
  else if val =? payload_size_code_16bit then get_extended_size e
  else get_jumbo_size e.

(** ** Masking *)
Definition prepare_masking_key (key : list Z) : Z :=
  let low_bits := host_val key in
  if decide (sizeof_size_t = 8%nat) then u64 (Z.lor (u64 (Z.shiftl low_bits 32)) low_bits) else low_bits.

Definition circshift_prepared_key (prepared_key : Z) (offset : nat) : Z :=
  if decide (offset = 0%nat) then prepared_key
  else if is_little_endian
  then let temp := size_t (Z.shiftl prepared_key (8 * Z.of_nat (sizeof_size_t - offset))) in
       Z.lor (Z.shiftr prepared_key (8 * Z.of_nat offset)) temp
  else let temp := Z.shiftr prepared_key (8 * Z.of_nat (sizeof_size_t - offset)) in
       Z.lor (size_t (Z.shiftl prepared_key (8 * Z.of_nat offset))) temp.

(** [byte_mask(first, last, result, key, key_offset)]: the bytes written. *)
Fixpoint byte_mask_loop (data key : list Z) (key_index : nat) : res (list Z) :=
  match data with
  | [] => Ok []
  | b :: data =>
      k ← match key !! key_index with Some k => Ok k | None => Err OutOfBounds end;
      out ← byte_mask_loop data key ((key_index + 1) mod 4);
      mret (Z.lxor b k :: out)
  end.
Definition byte_mask (data key : list Z) (key_offset : nat) : res (list Z) :=
  byte_mask_loop data key (key_offset mod 4).

(** The buffers of the word loops: an input buffer of its own, or the output buffer. *)
Definition source_of (inp : option (list Z)) (out : list Z) : list Z := default out inp.

(** [for (i = i0; n steps) output_word[i] = input_word[i] ^ prepared_key] *)
Fixpoint mask_words (n i : nat) (inp : option (list Z)) (prepared_key : Z) (out : list Z) : res (list Z) :=
  match n with
  | O => Ok out
  | S n =>
      w ← load_range (source_of inp out) (i * sizeof_size_t) sizeof_size_t;
      out' ← store_range out (i * sizeof_size_t) (host_bytes sizeof_size_t (Z.lxor (host_val w) prepared_key));
      mask_words n (S i) inp prepared_key out'
  end.
(** [for (i = i0; n steps) output[start+i] = input[start+i] ^ key(i)] *)
Fixpoint mask_bytes (n i start : nat) (inp : option (list Z)) (key : nat → option Z) (out : list Z) : res (list Z) :=
  match n with
  | O => Ok out
  | S n =>
      k ← match key i with Some k => Ok k | None => Err OutOfBounds end;
      b ← load_range (source_of inp out) (start + i) 1;
      out' ← store_range out (start + i) ((λ x, Z.lxor x k) <$> b);
      mask_bytes n (S i) start inp key out'
  end.

Definition word_mask_exact (inp : option (list Z)) (out : list Z) (len : nat) (key : list Z) : res (list Z) :=
  let prepared_key := prepare_masking_key key in
  let n := (len / sizeof_size_t)%nat in
  out ← mask_words n 0 inp prepared_key out;
  mask_bytes (len - n * sizeof_size_t) (n * sizeof_size_t) 0 inp (λ i, key !! (i mod 4)%nat) out.

Definition word_mask_circ (inp : option (list Z)) (out : list Z) (len : nat) (prepared_key : Z) : res (Z * list Z) :=
  let n := (len / sizeof_size_t)%nat in
  let l := (len - n * sizeof_size_t)%nat in
  out ← mask_words n 0 inp prepared_key out;
  let start := (len - l)%nat in
  let byte_key := host_bytes sizeof_size_t prepared_key in
  out ← mask_bytes l 0 start inp (λ i, byte_key !! i) out;
  mret (circshift_prepared_key prepared_key l, out).

Definition byte_mask_circ (inp : option (list Z)) (out : list Z) (len : nat) (prepared_key : Z) : res (Z * list Z) :=
  let key := host_bytes 4 (u32 prepared_key) in
  out ← mask_bytes len 0 0 inp (λ i, key !! (i mod 4)%nat) out;
  mret (circshift_prepared_key prepared_key (len mod 4), out).
End Frame.

(** ** Specification *)

(** Section 5.3 of RFC 6455: byte [i] of the payload is combined with byte [i mod 4] of
    the key; [off] is the position of the data in the payload. *)
Definition mask_spec (key : list Z) (off : nat) (data : list Z) : list Z :=
  imap (λ i b, Z.lxor b (default 0 (key !! ((off + i) mod 4)%nat))) data.

(** ** Headers *)
Lemma lor_mask_low (f : bool) v : 0 ≤ v < 128 →
  (Z.land (Z.lor (set_flag f BHB1_MASK 0) v) BHB1_MASK =? BHB1_MASK) = f ∧
  Z.land (Z.lor (set_flag f BHB1_MASK 0) v) BHB1_PAYLOAD = v.
Proof.
  intros Hv.
  assert (Hc := below_check 128 (λ v, Bool.eqb (Z.land (Z.lor (set_flag f BHB1_MASK 0) v) BHB1_MASK =? BHB1_MASK) f
    && (Z.land (Z.lor (set_flag f BHB1_MASK 0) v) BHB1_PAYLOAD =? v))).
  specialize (Hc ltac:(by destruct f) v Hv). apply andb_prop in Hc as [H1%Bool.eqb_prop H2%Z.eqb_eq]. done.
Qed.

Lemma basic_value_range size : 0 ≤ size → 0 ≤ basic_value size < 128.
Proof.
  intros. unfold basic_value, uint8, limits.payload_size_basic, limits.payload_size_extended, payload_size_code_16bit, payload_size_code_64bit.
  repeat case_match; try lia. rewrite Z.mod_small; lia.
Qed.

(** The first byte of a header holds the opcode and the four flags. *)
Lemma first_byte_fields op size fin mask rsv1 rsv2 rsv3 (h := new_basic_header op size fin mask rsv1 rsv2 rsv3) :
  0 ≤ op < 16 →
  byte_ok (b0 h) ∧ get_opcode h = op ∧ get_fin h = fin ∧ get_rsv1 h = rsv1 ∧ get_rsv2 h = rsv2 ∧ get_rsv3 h = rsv3.
Proof.
  intros Hop.
  assert (Hc := below_check 16 (λ op, let h := new_basic_header op 0 fin mask rsv1 rsv2 rsv3 in
    (0 <=? b0 h) && (b0 h <? 256) && (get_opcode h =? op) && Bool.eqb (get_fin h) fin && Bool.eqb (get_rsv1 h) rsv1
    && Bool.eqb (get_rsv2 h) rsv2 && Bool.eqb (get_rsv3 h) rsv3)).
  specialize (Hc ltac:(by destruct fin, mask, rsv1, rsv2, rsv3) op Hop). cbn zeta in Hc.
  rewrite !andb_true_iff, !Bool.eqb_true_iff, Z.leb_le, Z.ltb_lt, Z.eqb_eq in Hc.
  subst h. unfold byte_ok. repeat split; apply Hc.
Qed.

(** The second byte holds the mask flag and the code of the size. *)
Lemma second_byte_fields op size fin mask rsv1 rsv2 rsv3 (h := new_basic_header op size fin mask rsv1 rsv2 rsv3) :
  0 ≤ size → get_masked h = mask ∧ get_basic_size h = basic_value size.
Proof. intros. apply lor_mask_low. by apply basic_value_range. Qed.

(** How many bytes the size takes after the basic header. *)
Definition size_field (size : Z) : nat :=
  if size <=? limits.payload_size_basic then 0%nat
  else if size <=? limits.payload_size_extended then 2%nat else 8%nat.

Lemma masking_key_offset_size op size fin mask rsv1 rsv2 rsv3 (h := new_basic_header op size fin mask rsv1 rsv2 rsv3) :
  0 ≤ size → get_masking_key_offset h = Z.of_nat (size_field size).
Proof.
  intros Hs. unfold get_masking_key_offset, h. destruct (second_byte_fields op size fin mask rsv1 rsv2 rsv3 Hs) as [_ ->].
  unfold basic_value, size_field, uint8, limits.payload_size_basic, limits.payload_size_extended, payload_size_code_16bit, payload_size_code_64bit.
  repeat case_match; try lia; rewrite Z.mod_small in *; lia.
Qed.

Section Headers.
Context `{Machine}.

Lemma swap_reverses (a b c d e f g h : Z) :
  swap_at 3 4 (swap_at 2 5 (swap_at 1 6 (swap_at 0 7 [a; b; c; d; e; f; g; h]))) = [h; g; f; e; d; c; b; a].
Proof. done. Qed.

Lemma htonll_bytes x : 0 ≤ x < 2 ^ 64 → host_bytes 8 (_htonll x) = rev (le_bytes 8 x).
Proof.
  intros Hx. unfold _htonll, host_bytes, host_val. destruct is_little_endian eqn:El; [|done]. cbv zeta.
  change (default 0 (le_bytes 8 1 !! 7%nat) =? 1) with false. cbv iota.
  assert (Hb := le_bytes_ok 8 x). pose proof (le_bytes_length 8 x) as Hl.
  destruct (le_bytes 8 x) as [|a [|b [|c [|d [|e [|f [|g [|h [|? ?]]]]]]]]]; try discriminate Hl.
  rewrite swap_reverses. change 8%nat with (length [h; g; f; e; d; c; b; a]). rewrite le_bytes_val; [done|].
  apply (Forall_rev Hb).
Qed.
Lemma htonll_val l : length l = 8%nat → bytes_ok l → _htonll (host_val l) = le_val (rev l).
Proof.
  intros Hl Hb. unfold _htonll, host_bytes, host_val. destruct is_little_endian eqn:El.
  - change (default 0 (le_bytes 8 1 !! 7%nat) =? 1) with false. cbv iota zeta. rewrite <- Hl, le_bytes_val by done.
    destruct l as [|a [|b [|c [|d [|e [|f [|g [|h [|? ?]]]]]]]]]; try discriminate Hl. by rewrite swap_reverses.
  - done.
Qed.
Lemma ntohs_val l : length l = 2%nat → bytes_ok l → ntohs (host_val l) = le_val (rev l).
Proof.
  intros Hl Hb. unfold ntohs, host_val, host_bytes. destruct is_little_endian; [|done].
  by rewrite <- Hl, le_bytes_val.
Qed.

(** What the constructor of the extended header stores. *)
Lemma copy_payload_spec size :
  0 ≤ size < 2 ^ 64 →
  copy_payload size empty_extended =
  Ok (size_field size, rev (le_bytes (size_field size) size) ++ replicate (12 - size_field size) 0).
Proof.
  intros Hs. unfold copy_payload. rewrite htonll_bytes by done.
  assert (Hd : ∀ k, (k ≤ 8)%nat → drop k (rev (le_bytes 8 size)) = rev (le_bytes (8 - k) size)).
  { intros k Hk. replace 8%nat with ((8 - k) + k)%nat at 1 by lia. rewrite le_bytes_add, rev_app_distr, drop_app_length'; [done|].
    rewrite length_rev, le_bytes_length. done. }
  unfold size_field. repeat case_match; rewrite ?Hd by lia; rewrite store_range_ok by (rewrite ?length_rev, ?le_bytes_length; cbn; lia); cbn [mbind res_bind mret res_ret take app Nat.add].
  all: rewrite length_rev, le_bytes_length; done.
Qed.

(** The bytes of a header, after the two first. *)
Definition ext_bytes (size : Z) (mask : bool) (key : Z) : list Z :=
  rev (le_bytes (size_field size) size) ++ (if mask then host_bytes 4 key else []).

Lemma size_field_le size : (size_field size ≤ 8)%nat.
Proof. unfold size_field. repeat case_match; lia. Qed.
Lemma ext_bytes_length size mask key : length (ext_bytes size mask key) = (size_field size + if mask then 4 else 0)%nat.
Proof. unfold ext_bytes. rewrite length_app, length_rev, le_bytes_length. destruct mask; [by rewrite host_bytes_length|done]. Qed.

Definition make_extended (size : Z) (mask : bool) (key : Z) : res (list Z) :=
  if mask then extended_header_keyed size key else extended_header_plain size.

Lemma make_extended_spec size mask key :
  0 ≤ size < 2 ^ 64 →
  make_extended size mask key = Ok (ext_bytes size mask key ++ replicate (12 - length (ext_bytes size mask key)) 0).
Proof.
  intros Hs. rewrite ext_bytes_length. pose proof (size_field_le size). unfold make_extended, extended_header_keyed, extended_header_plain, ext_bytes.
  rewrite copy_payload_spec by done. cbn [mbind res_bind mret res_ret]. destruct mask.
  - rewrite store_range_ok by (rewrite length_app, length_rev, le_bytes_length, host_bytes_length, length_replicate; lia).
    rewrite take_app_length', drop_app_ge, host_bytes_length; rewrite ?length_rev, ?le_bytes_length; [|lia..].
    rewrite drop_replicate, <- app_assoc. do 4 f_equal. lia.
  - rewrite app_nil_r. do 3 f_equal. lia.
Qed.

Lemma header_len_spec op size fin mask rsv1 rsv2 rsv3 key (h := new_basic_header op size fin mask rsv1 rsv2 rsv3) :
  0 ≤ size → get_header_len h = 2 + Z.of_nat (length (ext_bytes size mask key)).
Proof.
  intros Hs. unfold get_header_len, h. rewrite (masking_key_offset_size op size fin mask rsv1 rsv2 rsv3 Hs).
  destruct (second_byte_fields op size fin mask rsv1 rsv2 rsv3 Hs) as [-> _].
  rewrite ext_bytes_length. unfold BASIC_HEADER_LENGTH. destruct mask; lia.
Qed.

Lemma load_ext_bytes size mask key n :
  n = length (ext_bytes size mask key) →
  load_range (ext_bytes size mask key ++ replicate (12 - length (ext_bytes size mask key)) 0) 0 n = Ok (ext_bytes size mask key).
Proof. intros ->. rewrite load_range_ok by (rewrite length_app; lia). by rewrite drop_0, take_app_length. Qed.

Lemma read_payload_size op size fin mask rsv1 rsv2 rsv3 key rest
  (h := new_basic_header op size fin mask rsv1 rsv2 rsv3) :
  0 ≤ size < 2 ^ 64 → get_payload_size h (ext_bytes size mask key ++ rest) = Ok size.
Proof.
  intros Hs. unfold get_payload_size, h. destruct (second_byte_fields op size fin mask rsv1 rsv2 rsv3) as [_ ->]; [lia|].
  unfold basic_value, ext_bytes, size_field, uint8, limits.payload_size_basic, limits.payload_size_extended, payload_size_code_16bit, payload_size_code_64bit.
  destruct (size <=? 125) eqn:E1; [rewrite Z.mod_small by lia; by rewrite E1|].
  destruct (size <=? 65535) eqn:E2; cbn [Z.leb Z.eqb Z.compare Pos.compare Pos.compare_cont Pos.eqb];
    unfold get_extended_size, get_jumbo_size, _ntohll;
    rewrite load_range_ok by (rewrite !length_app, length_rev, le_bytes_length; lia); cbn [mbind res_bind mret res_ret];
    rewrite drop_0, <- app_assoc, take_app_length' by (by rewrite length_rev, le_bytes_length).
  - rewrite ntohs_val, rev_involutive, le_val_bytes; [done|lia|by rewrite length_rev, le_bytes_length|apply Forall_rev, le_bytes_ok].
  - rewrite htonll_val, rev_involutive, le_val_bytes; [done|lia|by rewrite length_rev, le_bytes_length|apply Forall_rev, le_bytes_ok].
Qed.

Lemma read_masking_key op size fin mask rsv1 rsv2 rsv3 key rest
  (h := new_basic_header op size fin mask rsv1 rsv2 rsv3) :
  0 ≤ size → get_masking_key h (ext_bytes size mask key ++ rest) = Ok (host_bytes 4 (if mask then key else 0)).
Proof.
  intros Hs. unfold get_masking_key, h. rewrite (masking_key_offset_size op size fin mask rsv1 rsv2 rsv3 Hs).
  destruct (second_byte_fields op size fin mask rsv1 rsv2 rsv3 Hs) as [-> _]. destruct mask; [|done].
  rewrite Nat2Z.id, load_range_ok by (rewrite length_app, ext_bytes_length; lia). unfold ext_bytes.
  rewrite <- app_assoc, drop_app_length', take_app_length'; [done|by rewrite host_bytes_length|].
  by rewrite length_rev, le_bytes_length.
Qed.
End Headers.

(** ** Masking *)
Lemma mask_spec_length key off data : length (mask_spec key off data) = length data.
Proof. apply length_imap. Qed.
Lemma mask_spec_lookup key off data j :
  mask_spec key off data !! j = (λ b, Z.lxor b (default 0 (key !! ((off + j) mod 4)%nat))) <$> data !! j.
Proof. apply list_lookup_imap. Qed.
Lemma mask_spec_app key off d1 d2 :
  mask_spec key off (d1 ++ d2) = mask_spec key off d1 ++ mask_spec key (off + length d1) d2.
Proof.
  unfold mask_spec. rewrite imap_app. f_equal. apply imap_ext. intros i x _. simpl. by rewrite Nat.add_assoc.
Qed.
Lemma mask_spec_involutive key off data : mask_spec key off (mask_spec key off data) = data.
Proof.
  apply list_eq. intros i. rewrite !mask_spec_lookup. destruct (data !! i); [|done]. simpl. f_equal.
  by rewrite Z.lxor_assoc, Z.lxor_nilpotent, Z.lxor_0_r.
Qed.
Lemma lxor_byte a b : byte_ok a → byte_ok b → byte_ok (Z.lxor a b).
Proof.
  unfold byte_ok. intros Ha Hb. split; [apply Z.lxor_nonneg; lia|].
  rewrite <- (Z.mod_small a 256), <- (Z.mod_small b 256) by lia. change 256 with (2 ^ 8).
  rewrite <- lxor_mod_pow2 by lia. apply Z.mod_pos_bound. lia.
Qed.
Lemma mask_spec_ok key off data : bytes_ok key → bytes_ok data → bytes_ok (mask_spec key off data).
Proof.
  intros Hk Hd. apply Forall_lookup. intros i x. rewrite mask_spec_lookup.
  destruct (data !! i) as [b|] eqn:E; [|done]. intros [= <-]. apply lxor_byte; [by eapply Forall_lookup_1|].
  destruct (key !! _) as [k|] eqn:E'; cbn; [exact (Forall_lookup_1 _ _ _ _ Hk E')|]. unfold byte_ok. lia.
Qed.

Lemma byte_mask_loop_spec data key i :
  length key = 4%nat → (i < 4)%nat → byte_mask_loop data key i = Ok (mask_spec key i data).
Proof.
  intros Hk. revert i. induction data as [|b data IH]; intros i Hi; [done|]. cbn [byte_mask_loop].
  destruct (lookup_lt_is_Some_2 key i ltac:(lia)) as [k Hki]. rewrite Hki. cbn [mbind res_bind].
  rewrite IH by (apply Nat.mod_upper_bound; lia). cbn [mbind res_bind mret res_ret]. f_equal.
  apply list_eq. intros [|j]; rewrite mask_spec_lookup.
  - change ((?x :: ?l) !! 0%nat) with (Some x). rewrite Nat.add_0_r, Nat.mod_small, Hki by lia. done.
  - change ((?x :: ?l) !! S j) with (l !! j). rewrite mask_spec_lookup, Nat.Div0.add_mod_idemp_l.
    by replace (i + 1 + j)%nat with (i + S j)%nat by lia.
Qed.
Lemma byte_mask_spec data key off : length key = 4%nat → byte_mask data key off = Ok (mask_spec key off data).
Proof.
  intros Hk. unfold byte_mask. rewrite byte_mask_loop_spec by first [done | apply Nat.mod_upper_bound; lia]. f_equal.
  apply list_eq. intros j. rewrite !mask_spec_lookup. by rewrite Nat.Div0.add_mod_idemp_l.
Qed.

Section Masking.
Context `{Machine}.
#[local] Abbreviation ws := sizeof_size_t.

Lemma ws_pos : (0 < ws)%nat.
Proof. destruct size_t_ok; lia. Qed.
Lemma mod_ws_mod4 off j : ((off + j mod ws) mod 4 = (off + j) mod 4)%nat.
Proof.
  rewrite <- (Nat.Div0.add_mod_idemp_r off (j mod ws)), <- (Nat.Div0.add_mod_idemp_r off j). do 2 f_equal.
  destruct size_t_ok as [-> | ->]; [by rewrite Nat.Div0.mod_mod|].
  change 8%nat with (4 * 2)%nat. rewrite (Nat.Div0.mod_mul_r j 4 2). rewrite Nat.Div0.add_mod, (Nat.mul_comm 4), Nat.Div0.mod_mul, Nat.add_0_r, !Nat.Div0.mod_mod. done.
Qed.

(** The bytes written by a loop: the range [s .. s + n) of the source, combined with [k]. *)
Definition writes (k : nat → Z) (s n : nat) (src out out' : list Z) : Prop :=
  length out' = length out ∧
  ∀ j, out' !! j = if decide (s ≤ j < s + n)%nat then (λ b, Z.lxor b (k j)) <$> src !! j else out !! j.

Lemma writes_nil k s src out : writes k s 0 src out out.
Proof. split; [done|]. intros j. by rewrite decide_False by lia. Qed.

(** Storing a range leaves the source as it was beyond the range. *)
Lemma source_store inp out a bs :
  (a + length bs ≤ length out)%nat →
  let out1 := take a out ++ bs ++ drop (a + length bs) out in
  length (source_of inp out1) = length (source_of inp out) ∧
  (∀ j, (a + length bs ≤ j)%nat → source_of inp out1 !! j = source_of inp out !! j) ∧
  (bytes_ok bs → bytes_ok (source_of inp out) → bytes_ok (source_of inp out1)).
Proof.
  intros Hl out1. destruct inp as [src|]; [done|]. cbn. repeat split.
  - by apply store_range_length.
  - intros j Hj. change (out1 !! j = out !! j). unfold out1. rewrite store_range_lookup, decide_False by lia. done.
  - intros Hb Ho. apply Forall_app. split; [by apply Forall_take|]. apply Forall_app. split; [done|by apply Forall_drop].
Qed.

Lemma writes_step k s m n inp out bs out' :
  (s + m ≤ length out)%nat → length bs = m →
  (∀ j, (j < m)%nat → bs !! j = (λ b, Z.lxor b (k (s + j)%nat)) <$> source_of inp out !! (s + j)%nat) →
  let out1 := take s out ++ bs ++ drop (s + length bs) out in
  writes k (s + m) n (source_of inp out1) out1 out' → writes k s (m + n) (source_of inp out) out out'.
Proof.
  intros Hl Hm Hbs out1 [Hlen Hw]. destruct (source_store inp out s bs ltac:(lia)) as (Hs1 & Hs2 & _).
  split; [rewrite Hlen; unfold out1; apply store_range_length; lia|]. intros j. rewrite Hw.
  destruct (decide (s + m ≤ j < s + m + n)%nat).
  - rewrite (decide_True (P := (s ≤ j < s + (m + n))%nat)) by lia. by rewrite Hs2 by lia.
  - unfold out1. rewrite store_range_lookup by lia. destruct (decide (s ≤ j < s + length bs)%nat).
    + rewrite decide_True by lia. rewrite Hbs by lia. by replace (s + (j - s))%nat with j by lia.
    + by rewrite decide_False by lia.
Qed.

Lemma mask_bytes_spec n i start inp key k out :
  (start + i + n ≤ length (source_of inp out))%nat → (start + i + n ≤ length out)%nat →
  (∀ j, (i ≤ j < i + n)%nat → key j = Some (k (start + j)%nat)) →
  ∃ out', mask_bytes n i start inp key out = Ok out' ∧ writes k (start + i) n (source_of inp out) out out'.
Proof.
  revert i out. induction n as [|n IH]; intros i out Hs Ho Hk; cbn [mask_bytes].
  { exists out. split; [done|]. apply writes_nil. }
  rewrite Hk by lia. cbn [mbind res_bind]. rewrite load_range_ok by lia. cbn [mbind res_bind].
  set (bs := (λ x, Z.lxor x (k (start + i)%nat)) <$> take 1 (drop (start + i) (source_of inp out))).
  assert (Hbl : length bs = 1%nat) by (unfold bs; rewrite length_fmap, length_take, length_drop; lia).
  rewrite store_range_ok by lia. cbn [mbind res_bind].
  destruct (source_store inp out (start + i) bs ltac:(lia)) as (Hs1 & _ & _).
  destruct (IH (S i) (take (start + i) out ++ bs ++ drop (start + i + length bs) out)) as (out' & Hr & Hw).
  - rewrite Hs1. lia.
  - rewrite store_range_length; lia.
  - intros j Hj. apply Hk. lia.
  - exists out'. split; [done|]. apply (writes_step k (start + i) 1 n inp out bs out'); [lia|done| |].
    + intros [|j] Hj; [|lia]. unfold bs. rewrite list_lookup_fmap, lookup_take_lt, lookup_drop by lia. by rewrite Nat.add_0_r.
    + by replace (start + i + 1)%nat with (start + S i)%nat by lia.
Qed.

Lemma mask_words_spec n i inp pk k out :
  ((i + n) * ws ≤ length (source_of inp out))%nat → ((i + n) * ws ≤ length out)%nat →
  bytes_ok (source_of inp out) →
  (∀ j, host_bytes ws pk !! (j mod ws)%nat = Some (k j)) →
  ∃ out', mask_words n i inp pk out = Ok out' ∧ writes k (i * ws) (n * ws) (source_of inp out) out out'.
Proof.
  intros Hs Ho Hb Hk. revert i out Hs Ho Hb. induction n as [|n IH]; intros i out Hs Ho Hb; cbn [mask_words].
  { exists out. split; [done|]. apply writes_nil. }
  rewrite load_range_ok by lia. cbn [mbind res_bind].
  set (w := take ws (drop (i * ws) (source_of inp out))).
  assert (Hwl : length w = ws) by (unfold w; rewrite length_take, length_drop; lia).
  assert (Hwb : bytes_ok w) by (by apply Forall_take, Forall_drop).
  set (bs := host_bytes ws (Z.lxor (host_val w) pk)).
  assert (Hbl : length bs = ws) by apply host_bytes_length.
  rewrite store_range_ok by lia. cbn [mbind res_bind].
  destruct (source_store inp out (i * ws) bs ltac:(lia)) as (Hs1 & _ & Hs3).
  destruct (IH (S i) (take (i * ws) out ++ bs ++ drop (i * ws + length bs) out)) as (out' & Hr & Hw).
  - rewrite Hs1. lia.
  - rewrite store_range_length; lia.
  - apply Hs3; [apply host_bytes_ok|done].
  - exists out'. split; [done|]. apply (writes_step k (i * ws) ws (n * ws) inp out bs out'); [lia|done| |].
    + intros j Hj. unfold bs. rewrite host_bytes_lxor. rewrite <- Hwl at 1. rewrite host_bytes_val by done.
      rewrite lookup_zip_with. unfold w. rewrite lookup_take_lt, lookup_drop by lia.
      specialize (Hk (i * ws + j)%nat). rewrite Nat.add_comm, Nat.Div0.mod_add, Nat.mod_small in Hk by lia.
      rewrite Hk. rewrite (Nat.add_comm j). by destruct (source_of inp out !! _).
    + by replace (i * ws + ws)%nat with (S i * ws)%nat by lia.
Qed.

(** Two loops one after the other write what one loop over both ranges writes. *)
Lemma writes_trans k s m n inp out out1 out' :
  writes k s m (source_of inp out) out out1 →
  writes k (s + m) n (source_of inp out1) out1 out' → writes k s (m + n) (source_of inp out) out out'.
Proof.
  intros [Hl1 H1] [Hl2 H2]. split; [lia|]. intros j. rewrite H2.
  assert (Hsrc : (s + m ≤ j)%nat → source_of inp out1 !! j = source_of inp out !! j).
  { intros Hj. destruct inp; [done|]. cbn. change (out1 !! j = out !! j). rewrite H1, decide_False by lia. done. }
  repeat destruct (decide _); try lia; rewrite ?Hsrc, ?H1 by lia; repeat destruct (decide _); try lia; done.
Qed.

Lemma writes_mask key off k len inp out out' :
  (∀ j, k j = default 0 (key !! ((off + j) mod 4)%nat)) →
  (len ≤ length (source_of inp out))%nat → (len ≤ length out)%nat →
  writes k 0 len (source_of inp out) out out' → out' = mask_spec key off (take len (source_of inp out)) ++ drop len out.
Proof.
  intros Hk Hs Ho [Hl Hw]. apply list_eq. intros j. rewrite Hw. destruct (decide (0 ≤ j < 0 + len)%nat).
  - rewrite lookup_app_l by (rewrite mask_spec_length, length_take; lia). rewrite mask_spec_lookup, lookup_take_lt by lia. by rewrite Hk.
  - rewrite lookup_app_r by (rewrite mask_spec_length, length_take; lia).
    rewrite mask_spec_length, length_take, lookup_drop. f_equal. lia.
Qed.

(** A prepared key stands at position [off] of the payload: its bytes in memory are those
    of the key, from the byte for that position on. *)
Definition key_at (kc : list Z) (off : nat) (pk : Z) : Prop :=
  0 ≤ pk < 256 ^ Z.of_nat ws ∧
  ∀ i, (i < ws)%nat → host_bytes ws pk !! i = kc !! ((off + i) mod 4)%nat.

Lemma key_at_lookup kc off pk j :
  length kc = 4%nat → key_at kc off pk →
  host_bytes ws pk !! (j mod ws)%nat = Some (default 0 (kc !! ((off + j) mod 4)%nat)).
Proof.
  intros Hk [_ Hat]. pose proof ws_pos. rewrite Hat by (apply Nat.mod_upper_bound; lia). rewrite mod_ws_mod4.
  destruct (lookup_lt_is_Some_2 kc ((off + j) mod 4)%nat) as [x ->]; [rewrite Hk; apply Nat.mod_upper_bound; lia|done].
Qed.

Lemma prepare_key_at kc : length kc = 4%nat → bytes_ok kc → key_at kc 0 (prepare_masking_key kc).
Proof.
  intros Hl Hb. pose proof (host_val_bound kc Hb) as Hv. rewrite Hl in Hv. change (256 ^ Z.of_nat 4) with (2 ^ 32) in Hv.
  pose proof (host_bytes_val kc Hb) as Hkc. rewrite Hl in Hkc. unfold prepare_masking_key.
  assert (Hcases : sizeof_size_t = 8%nat ∨ sizeof_size_t = 4%nat) by (destruct size_t_ok; auto).
  destruct (decide (sizeof_size_t = 8%nat)) as [E|E].
  - rewrite (u64_small (Z.shiftl _ _)) by (rewrite Z.shiftl_mul_pow2; lia). rewrite lor_low_high by lia. rewrite u64_small by lia.
    split; [rewrite E; lia|]. intros i Hi. rewrite E in *.
    assert (Hbs : host_bytes 8 (host_val kc * 2 ^ 32 + host_val kc) = kc ++ kc).
    { rewrite <- Hkc at 3 4. unfold host_bytes. rewrite (le_bytes_add 4 4). change (8 * Z.of_nat 4) with 32.
      rewrite Z.shiftr_div_pow2, Z.add_comm, Z.div_add, Z.div_small, Z.add_0_l by lia.
      rewrite <- (le_bytes_mod 4 4 (host_val kc + _)) by lia. change (256 ^ Z.of_nat 4) with (2 ^ 32).
      rewrite Z_mod_plus_full, Z.mod_small by lia. destruct is_little_endian; [done|]. by rewrite rev_app_distr. }
    rewrite Hbs. destruct (decide (i < 4)%nat).
    + rewrite lookup_app_l, Nat.mod_small by lia. done.
    + rewrite lookup_app_r by lia. f_equal. rewrite Hl. simpl (0 + i)%nat. replace i with ((i - 4) + 1 * 4)%nat at 2 by lia.
      rewrite Nat.Div0.mod_add, Nat.mod_small by lia. done.
  - destruct Hcases as [?|E']; [done|]. split; [rewrite E'; lia|]. intros i Hi. rewrite E' in *. rewrite Hkc, Nat.mod_small by lia. done.
Qed.

(** [circshift_prepared_key] rotates the bytes in memory to the front. *)
Lemma circshift_bytes pk o :
  (o < ws)%nat → 0 ≤ pk < 256 ^ Z.of_nat ws →
  host_bytes ws (circshift_prepared_key pk o) = drop o (host_bytes ws pk) ++ take o (host_bytes ws pk).
Proof.
  intros Ho Hpk. unfold circshift_prepared_key. destruct (decide (o = 0%nat)) as [->|]; [by rewrite drop_0, take_0, app_nil_r|].
  unfold host_bytes, size_t. destruct is_little_endian; cbv zeta; [apply le_bytes_rotate; [lia|done]|].
  rewrite Z.lor_comm. pose proof (le_bytes_rotate ws (ws - o) pk ltac:(lia) Hpk) as Hr.
  replace (ws - (ws - o))%nat with o in Hr by lia. rewrite Hr, rev_app_distr.
  rewrite skipn_rev, firstn_rev, le_bytes_length. done.
Qed.
Lemma circshift_range pk o : (o < ws)%nat → 0 ≤ pk < 256 ^ Z.of_nat ws → 0 ≤ circshift_prepared_key pk o < 256 ^ Z.of_nat ws.
Proof.
  intros Ho Hpk. unfold circshift_prepared_key. destruct (decide _); [done|].
  assert (Hlor : ∀ a b, 0 ≤ a < 256 ^ Z.of_nat ws → 0 ≤ b < 256 ^ Z.of_nat ws → 0 ≤ Z.lor a b < 256 ^ Z.of_nat ws).
  { intros a b Ha Hb. replace (256 ^ Z.of_nat ws) with (2 ^ (8 * Z.of_nat ws)) in * by (by rewrite Z.pow_mul_r by lia).
    rewrite <- (Z.mod_small a _ Ha), <- (Z.mod_small b _ Hb), <- lor_mod_pow2 by lia. apply Z.mod_pos_bound. lia. }
  assert (Hshr : ∀ n, 0 ≤ n → 0 ≤ Z.shiftr pk n < 256 ^ Z.of_nat ws).
  { intros m Hm. rewrite Z.shiftr_div_pow2 by lia. split; [apply Z.div_pos; lia|].
    apply Z.le_lt_trans with pk; [|lia]. apply Z.div_le_upper_bound; [lia|]. nia. }
  destruct is_little_endian; apply Hlor; first [apply Hshr; lia | apply size_t_range].
Qed.

Lemma circshift_key_at kc off pk o : (o < ws)%nat → key_at kc off pk → key_at kc (off + o) (circshift_prepared_key pk o).
Proof.
  intros Ho [Hr Hat]. split; [by apply circshift_range|]. intros i Hi. rewrite circshift_bytes by done.
  pose proof (host_bytes_length ws pk) as Hl. destruct (decide (i < ws - o)%nat).
  - rewrite lookup_app_l, lookup_drop by (rewrite ?length_drop; lia). rewrite Hat by lia. do 2 f_equal. lia.
  - rewrite lookup_app_r, lookup_take_lt; rewrite ?length_drop; [|lia..]. rewrite Hat by lia. f_equal.
    rewrite Hl. destruct size_t_ok as [E|E]; rewrite E in *.
    + replace (off + o + i)%nat with (off + (i - (4 - o)) + 1 * 4)%nat by lia. by rewrite Nat.Div0.mod_add.
    + replace (off + o + i)%nat with (off + (i - (8 - o)) + 2 * 4)%nat by lia. by rewrite Nat.Div0.mod_add.
Qed.

Lemma key_at_mod kc off off' pk : (off mod 4 = off' mod 4)%nat → key_at kc off pk → key_at kc off' pk.
Proof.
  intros E [Hr Hat]. split; [done|]. intros i Hi. rewrite Hat by done.
  rewrite <- (Nat.Div0.add_mod_idemp_l off), E, Nat.Div0.add_mod_idemp_l. done.
Qed.

(** *** The masking loops *)
Lemma word_mask_exact_spec inp out len key :
  length key = 4%nat → bytes_ok key → bytes_ok (source_of inp out) →
  (len ≤ length (source_of inp out))%nat → (len ≤ length out)%nat →
  word_mask_exact inp out len key = Ok (mask_spec key 0 (take len (source_of inp out)) ++ drop len out).
Proof.
  intros Hk Hkb Hb Hs Ho. unfold word_mask_exact. set (n := (len / ws)%nat).
  assert (Hn : (n * ws ≤ len)%nat) by (subst n; rewrite Nat.mul_comm; apply Nat.Div0.mul_div_le).
  set (k := λ j, default 0 (key !! ((0 + j) mod 4)%nat)).
  destruct (mask_words_spec n 0 inp (prepare_masking_key key) k out) as (out1 & -> & Hw1); [lia..|done| |].
  { intros j. by apply key_at_lookup, prepare_key_at. }
  cbn [mbind res_bind]. pose proof Hw1 as [Hl1 _].
  assert (Hl1' : length (source_of inp out1) = length (source_of inp out)) by (by destruct inp).
  destruct (mask_bytes_spec (len - n * ws) (n * ws) 0 inp (λ i, key !! (i mod 4)%nat) k out1) as (out' & -> & Hw2); [lia..| |].
  { intros j Hj. unfold k. destruct (lookup_lt_is_Some_2 key (j mod 4)%nat) as [x Hx]; [rewrite Hk; apply Nat.mod_upper_bound; lia|].
    rewrite !Nat.add_0_l, Hx. done. }
  f_equal. apply (writes_mask key 0 k); [done..|].
  replace len with (n * ws + (len - n * ws))%nat at 1 by lia. eapply writes_trans; [exact Hw1|exact Hw2].
Qed.

Lemma byte_mask_circ_spec inp out len key off pk :
  length key = 4%nat → key_at key off pk →
  (len ≤ length (source_of inp out))%nat → (len ≤ length out)%nat →
  ∃ pk', byte_mask_circ inp out len pk = Ok (pk', mask_spec key off (take len (source_of inp out)) ++ drop len out) ∧
  key_at key (off + len) pk'.
Proof.
  intros Hk Hat Hs Ho. unfold byte_mask_circ. set (k := λ j, default 0 (key !! ((off + j) mod 4)%nat)).
  assert (H4 : (4 ≤ ws)%nat) by (destruct size_t_ok; lia).
  assert (Hkey : ∀ i, host_bytes 4 (u32 pk) !! (i mod 4)%nat = Some (k i)).
  { intros i. assert (Hi : (i mod 4 < 4)%nat) by (apply Nat.mod_upper_bound; lia).
    assert (Hbs : host_bytes 4 (u32 pk) = if is_little_endian then take 4 (host_bytes ws pk) else drop (ws - 4) (host_bytes ws pk)).
    { unfold host_bytes, u32. change (2 ^ 32) with (256 ^ Z.of_nat 4). rewrite le_bytes_mod by lia.
      replace (le_bytes 4 pk) with (take 4 (le_bytes ws pk)).
      2: { replace ws with (4 + (ws - 4))%nat by lia. by rewrite le_bytes_add, take_app_length' by (by rewrite le_bytes_length). }
      destruct is_little_endian; [done|]. rewrite skipn_rev, le_bytes_length. do 2 f_equal. lia. }
    rewrite Hbs. destruct Hat as [_ Hat]. unfold k.
    destruct (lookup_lt_is_Some_2 key ((off + i) mod 4)%nat) as [x Hx]; [rewrite Hk; apply Nat.mod_upper_bound; lia|].
    rewrite Hx. destruct is_little_endian.
    - rewrite lookup_take_lt by lia. rewrite Hat by lia. by rewrite Nat.Div0.add_mod_idemp_r.
    - rewrite lookup_drop. rewrite Hat by lia. change (default 0 (Some x)) with x. rewrite <- Hx. f_equal.
      rewrite (Nat.add_assoc off), Nat.Div0.add_mod_idemp_r.
      destruct size_t_ok as [-> | ->]; [by rewrite Nat.add_0_r|].
      replace (off + (8 - 4) + i)%nat with (off + i + 1 * 4)%nat by lia. by rewrite Nat.Div0.mod_add. }
  destruct (mask_bytes_spec len 0 0 inp (λ i, host_bytes 4 (u32 pk) !! (i mod 4)%nat) k out) as (out' & -> & Hw); [lia..|intros; apply Hkey|].
  cbn [mbind res_bind mret res_ret]. eexists. split.
  - do 2 f_equal. apply (writes_mask key off k); done.
  - apply (key_at_mod _ (off + len mod 4)); [by rewrite Nat.Div0.add_mod_idemp_r|].
    apply circshift_key_at; [|done]. pose proof (Nat.mod_upper_bound len 4). lia.
Qed.

Lemma word_mask_circ_spec inp out len key off pk :
  length key = 4%nat → key_at key off pk → bytes_ok (source_of inp out) →
  (len ≤ length (source_of inp out))%nat → (len ≤ length out)%nat →
  ∃ pk', word_mask_circ inp out len pk = Ok (pk', mask_spec key off (take len (source_of inp out)) ++ drop len out) ∧
  key_at key (off + len) pk'.
Proof.
  intros Hk Hat Hb Hs Ho. unfold word_mask_circ. set (n := (len / ws)%nat). pose proof ws_pos as Hws.
  assert (Hn : len = (n * ws + len mod ws)%nat) by (subst n; rewrite Nat.mul_comm; apply Nat.div_mod; lia).
  pose proof (Nat.mod_upper_bound len ws ltac:(lia)) as Hm.
  set (l := (len mod ws)%nat) in *. replace (len - n * ws)%nat with l by lia.
  set (k := λ j, default 0 (key !! ((off + j) mod 4)%nat)).
  destruct (mask_words_spec n 0 inp pk k out) as (out1 & -> & Hw1); [lia..|done|intros; by apply key_at_lookup|].
  cbn [mbind res_bind]. pose proof Hw1 as [Hl1 _].
  assert (Hl1' : length (source_of inp out1) = length (source_of inp out)) by (by destruct inp).
  destruct (mask_bytes_spec l 0 (len - l) inp (λ i, host_bytes ws pk !! i) k out1) as (out' & -> & Hw2); [lia..| |].
  { intros j Hj. pose proof (key_at_lookup key off pk (len - l + j)%nat Hk Hat) as Hx.
    replace (len - l + j)%nat with (j + n * ws)%nat in Hx at 1 by lia. rewrite Nat.Div0.mod_add, Nat.mod_small in Hx by lia. done. }
  cbn [mbind res_bind mret res_ret]. eexists. split.
  - do 2 f_equal. apply (writes_mask key off k); [done..|].
    replace len with (n * ws + l)%nat at 1 by lia. eapply writes_trans; [exact Hw1|].
    by replace (0 * ws + n * ws)%nat with (len - l + 0)%nat by lia.
  - apply (key_at_mod _ (off + l)); [|by apply circshift_key_at].
    unfold l. rewrite <- mod_ws_mod4, Nat.Div0.mod_mod, mod_ws_mod4. done.
Qed.

(** *** Masking in chunks

    A payload that arrives in pieces is unmasked piece by piece, in place, by the byte or
    the word loop, with the key each call returns. *)
Fixpoint mask_stream (chunks : list (bool * list Z)) (pk : Z) : res (list Z) :=
  match chunks with
  | [] => Ok []
  | (by_word, c) :: chunks =>
      '(pk', c') ← (if by_word : bool then word_mask_circ None c (length c) pk else byte_mask_circ None c (length c) pk);
      rest ← mask_stream chunks pk';
      mret (c' ++ rest)
  end.

Lemma mask_stream_at chunks key off pk :
  length key = 4%nat → key_at key off pk → Forall (λ c, bytes_ok c.2) chunks →
  mask_stream chunks pk = Ok (mask_spec key off (concat (snd <$> chunks))).
Proof.
  intros Hk. revert off pk. induction chunks as [|[w c] chunks IH]; intros off pk Hat Hb; [done|].
  apply Forall_cons in Hb as [Hc Hb]. cbn [mask_stream].
  assert (Hstep : ∃ pk', (if w : bool then word_mask_circ None c (length c) pk else byte_mask_circ None c (length c) pk)
    = Ok (pk', mask_spec key off c) ∧ key_at key (off + length c) pk').
  { destruct w.
    - destruct (word_mask_circ_spec None c (length c) key off pk) as (pk' & -> & ?); [done..|]. exists pk'. cbn [source_of default].
      rewrite take_ge, drop_ge, app_nil_r by lia. done.
    - destruct (byte_mask_circ_spec None c (length c) key off pk) as (pk' & -> & ?); [done..|]. exists pk'. cbn [source_of default].
      rewrite take_ge, drop_ge, app_nil_r by lia. done. }
  destruct Hstep as (pk' & -> & Hat'). cbn [mbind res_bind]. rewrite (IH _ _ Hat' Hb). cbn [mbind res_bind mret res_ret fmap list_fmap concat snd].
  by rewrite mask_spec_app.
Qed.
End Masking.

(** ** What the two ends of a connection agree on *)

(** The header one end writes: at most fourteen bytes, as many as the reader computes from
    the first two; from them, in an array filled up with zeros, it reads back every field. *)
Theorem header_round_trip `{Machine} op size fin mask rsv1 rsv2 rsv3 key :
  0 ≤ op < 16 → 0 ≤ size < 2 ^ 64 → 0 ≤ key < 2 ^ 32 →
  let h := new_basic_header op size fin mask rsv1 rsv2 rsv3 in
  ∃ e w,
    make_extended size mask key = Ok e ∧ prepare_header h e = Ok w ∧
    Z.of_nat (length w) = get_header_len h ∧ get_header_len h ≤ MAX_HEADER_LENGTH ∧
    take 2 w = [b0 h; b1 h] ∧ drop 2 w ++ replicate (14 - length w) 0 = e ∧
    get_opcode h = op ∧ get_fin h = fin ∧ get_masked h = mask ∧
    get_rsv1 h = rsv1 ∧ get_rsv2 h = rsv2 ∧ get_rsv3 h = rsv3 ∧
    get_payload_size h e = Ok size ∧
    get_masking_key h e = Ok (host_bytes 4 (if mask then key else 0)).
Proof.
  intros Hop Hs Hk h. pose proof (header_len_spec op size fin mask rsv1 rsv2 rsv3 key ltac:(lia)) as Hlen.
  pose proof (ext_bytes_length size mask key) as Hel. pose proof (size_field_le size).
  eexists _, ([b0 h; b1 h] ++ ext_bytes size mask key).
  split; [by apply make_extended_spec|]. split.
  { unfold prepare_header. rewrite load_ext_bytes; [done|]. subst h. rewrite Hlen. unfold BASIC_HEADER_LENGTH. lia. }
  destruct (first_byte_fields op size fin mask rsv1 rsv2 rsv3 Hop) as (_ & ? & ? & ? & ? & ?).
  destruct (second_byte_fields op size fin mask rsv1 rsv2 rsv3) as [? _]; [lia|].
  repeat split; try done.
  - subst h. rewrite Hlen, length_app. cbn [length]. lia.
  - subst h. rewrite Hlen, Hel. unfold MAX_HEADER_LENGTH. destruct mask; lia.
  - apply read_payload_size. lia.
  - apply read_masking_key. lia.
Qed.

Lemma header_round_trip_witness :
  ∃ e w, prepare_header (new_basic_header opcode.binary 70000 true true false false false) e = Ok w ∧
    @get_payload_size x86_64 (new_basic_header opcode.binary 70000 true true false false false) e = Ok 70000.
Proof.
  destruct (@header_round_trip x86_64 opcode.binary 70000 true true false false false 305419896) as (e & w & Hr);
    [unfold opcode.binary; lia..|].
  exists e, w. split; apply Hr.
Defined.

(** C27: Every masking loop is the masking of the protocol: [byte_mask], [word_mask_exact] in
    place and into another buffer, and any sequence of [word_mask_circ] and
    [byte_mask_circ] over the pieces of a payload, on machines of either byte order. *)
Theorem masking_agrees `{Machine} key data other chunks :
  length key = 4%nat → bytes_ok key → bytes_ok data → length other = length data → concat (snd <$> chunks) = data →
  byte_mask data key 0 = Ok (mask_spec key 0 data) ∧
  word_mask_exact None data (length data) key = Ok (mask_spec key 0 data) ∧
  word_mask_exact (Some data) other (length data) key = Ok (mask_spec key 0 data) ∧
  mask_stream chunks (prepare_masking_key key) = Ok (mask_spec key 0 data).
Proof.
  intros Hk Hkb Hd Ho Hc. repeat split.
  - by apply byte_mask_spec.
  - rewrite word_mask_exact_spec by done. cbn [source_of default]. by rewrite take_ge, drop_ge, app_nil_r by lia.
  - rewrite word_mask_exact_spec by (done || (cbn; lia)).
    change (source_of (Some data) other) with data. by rewrite take_ge, drop_ge, app_nil_r by lia.
  - subst data. apply mask_stream_at; [done|by apply prepare_key_at|].
    unfold bytes_ok in Hd. rewrite Forall_concat, Forall_fmap in Hd. exact Hd.
Qed.

Lemma masking_agrees_witness :
  @mask_stream x86_64 [(true, seq 0 11 ≫= λ i, [Z.of_nat i]); (false, [200; 201; 202]); (true, [7])]
    (@prepare_masking_key x86_64 [55; 250; 33; 61]) =
  byte_mask ((seq 0 11 ≫= λ i, [Z.of_nat i]) ++ [200; 201; 202; 7]) [55; 250; 33; 61] 0.
Proof.
  destruct (@masking_agrees x86_64 [55; 250; 33; 61] ((seq 0 11 ≫= λ i, [Z.of_nat i]) ++ [200; 201; 202; 7]) (replicate 15 0)
    [(true, seq 0 11 ≫= λ i, [Z.of_nat i]); (false, [200; 201; 202]); (true, [7])]) as (H1 & _ & _ & H2);
    [reflexivity|unfold bytes_ok, byte_ok; repeat constructor; lia|unfold bytes_ok, byte_ok; repeat constructor; lia|reflexivity|reflexivity|].
  by rewrite H1, H2.
Defined.
