(* ===== verification/Utf8.v ===== *)
(** * The UTF-8 validator: src/websocketpp-master/websocketpp/utf8_validator.hpp

    An automaton in one table: 256 classes of bytes, then the transitions.  The theorem:
    a string passes exactly when it is the encoding of Unicode scalar values, in any
    division into pieces; after each of them the decoder holds the value. *)

From S2P Require Import Prelude Bytes.

Open Scope Z_scope.

Definition utf8_accept : Z := 0.
Definition utf8_reject : Z := 1.

(** [utf8d], line by line. *)
Definition utf8d : list Z :=
  replicate 128 0                                                                          (* 00..7f *)
  ++ replicate 16 1 ++ replicate 16 9                                                      (* 80..9f *)
  ++ replicate 32 7                                                                        (* a0..bf *)
  ++ [8; 8] ++ replicate 30 2                                                              (* c0..df *)
  ++ [10; 3; 3; 3; 3; 3; 3; 3; 3; 3; 3; 3; 3; 4; 3; 3]                                     (* e0..ef *)
  ++ [11; 6; 6; 6; 5; 8; 8; 8; 8; 8; 8; 8; 8; 8; 8; 8]                                     (* f0..ff *)
  ++ [0; 1; 2; 3; 5; 8; 7; 1; 1; 1; 4; 6; 1; 1; 1; 1]                                      (* s0..s0 *)
  ++ [1; 1; 1; 1; 1; 1; 1; 1; 1; 1; 1; 1; 1; 1; 1; 1; 1; 0; 1; 1; 1; 1; 1; 0; 1; 0; 1; 1; 1; 1; 1; 1] (* s1..s2 *)
  ++ [1; 2; 1; 1; 1; 1; 1; 2; 1; 2; 1; 1; 1; 1; 1; 1; 1; 1; 1; 1; 1; 1; 1; 2; 1; 1; 1; 1; 1; 1; 1; 1] (* s3..s4 *)
  ++ [1; 2; 1; 1; 1; 1; 1; 1; 1; 2; 1; 1; 1; 1; 1; 1; 1; 1; 1; 1; 1; 1; 1; 3; 1; 3; 1; 1; 1; 1; 1; 1] (* s5..s6 *)
  ++ [1; 3; 1; 1; 1; 1; 1; 3; 1; 3; 1; 1; 1; 1; 1; 1; 1; 3; 1; 1; 1; 1; 1; 1; 1; 1; 1; 1; 1; 1; 1; 1] (* s7..s8 *).

Definition utf8d_at (i : Z) : res Z :=
  match utf8d !! Z.to_nat i with Some x => Ok x | None => Err OutOfBounds end.

(** The free function [decode]: the new state and code point. *)
Definition decode_byte (state codep byte : Z) : res (Z * Z) :=
  type ← utf8d_at byte;
  let codep := if decide (state ≠ utf8_accept) then Z.lor (Z.land byte 63) (u32 (Z.shiftl codep 6))
               else Z.land (Z.shiftr 255 type) byte in
  state ← utf8d_at (256 + state * 16 + type);
  mret (state, codep).

(** ** The streaming validator *)
Record validator := mkValidator { m_state : Z; m_codepoint : Z }.

Definition new_validator : validator := mkValidator utf8_accept 0.
Definition consume (byte : Z) (v : validator) : res (bool * validator) :=
  '(st, cp) ← decode_byte (m_state v) (m_codepoint v) byte;
  mret (if decide (st = utf8_reject) then false else true, mkValidator st cp).
Fixpoint decode (s : list Z) (v : validator) : res (bool * validator) :=
  match s with
  | [] => Ok (true, v)
  | byte :: s =>
      '(st, cp) ← decode_byte (m_state v) (m_codepoint v) byte;
      let v' := mkValidator st cp in
      if decide (st = utf8_reject) then Ok (false, v') else decode s v'
  end.
Definition complete (v : validator) : bool := m_state v =? utf8_accept.
Definition reset (_ : validator) : validator := mkValidator utf8_accept 0.

Definition validate (s : list Z) : res bool :=
  '(ok, v) ← decode s new_validator;
  if (ok : bool) then mret (complete v) else mret false.

(** ** Specification: the encoding of scalar values (Unicode, table 3-6) *)
Definition scalar (c : Z) : bool := ((0 <=? c) && (c <? 55296)) || ((57344 <=? c) && (c <? 1114112)).
Definition utf8_encode (c : Z) : list Z :=
  if c <? 128 then [c]
  else if c <? 2048 then [192 + c / 64; 128 + c mod 64]
  else if c <? 65536 then [224 + c / 4096; 128 + c / 64 mod 64; 128 + c mod 64]
  else [240 + c / 262144; 128 + c / 4096 mod 64; 128 + c / 64 mod 64; 128 + c mod 64].
Definition encoding_of (cs : list Z) (s : list Z) : Prop := Forall (λ c, scalar c = true) cs ∧ s = concat (utf8_encode <$> cs).

(** ** The automaton, by ranges of bytes *)
Definition in_range (lo hi b : Z) : bool := (lo <=? b) && (b <=? hi).
Definition next_state (q b : Z) : Z :=
  if q =? 0 then
    if b <? 128 then 0 else if in_range 194 223 b then 2
    else if b =? 224 then 4 else if b =? 237 then 5 else if in_range 225 239 b then 3
    else if b =? 240 then 6 else if in_range 241 243 b then 7 else if b =? 244 then 8 else 1
  else if (q =? 2) && in_range 128 191 b then 0
  else if (q =? 3) && in_range 128 191 b then 2
  else if (q =? 4) && in_range 160 191 b then 2
  else if (q =? 5) && in_range 128 159 b then 2
  else if (q =? 6) && in_range 144 191 b then 3
  else if (q =? 7) && in_range 128 191 b then 3
  else if (q =? 8) && in_range 128 143 b then 3
  else 1.
(** The bits of the code point a first byte carries. *)
Definition first_bits (b : Z) : Z :=
  if b <? 128 then b else if b <? 224 then b - 192 else if b <? 240 then b - 224 else b - 240.

Lemma table_states q b : 0 ≤ q < 9 → 0 ≤ b < 256 →
  ∃ t, utf8d_at b = Ok t ∧ utf8d_at (256 + q * 16 + t) = Ok (next_state q b) ∧ 0 ≤ next_state q b < 9 ∧
  (q = 0 → next_state q b ≠ 1 → Z.land (Z.shiftr 255 t) b = first_bits b).
Proof.
  intros Hq Hb.
  assert (Hc := below_check 9 (λ q, forallb (λ b, match utf8d_at b with Err _ => false | Ok t =>
    bool_decide (utf8d_at (256 + q * 16 + t) = Ok (next_state q b)) && (0 <=? next_state q b) && (next_state q b <? 9)
    && (negb (q =? 0) || (next_state q b =? 1) || (Z.land (Z.shiftr 255 t) b =? first_bits b)) end)
    (Z.of_nat <$> seq 0 256))).
  specialize (Hc ltac:(by vm_compute) q Hq). cbv beta in Hc. apply (below_check 256) with (v := b) in Hc; [|done].
  cbv beta in Hc. destruct (utf8d_at b) as [t|]; [|done]. exists t.
  rewrite !andb_true_iff, !orb_true_iff, bool_decide_eq_true, Z.leb_le, Z.ltb_lt, !Z.eqb_eq, negb_true_iff, Z.eqb_neq in Hc.
  destruct Hc as [[[H1 H2] H3] H4]. repeat split; [done..|]. intros. destruct H4 as [[?|?]|?]; done.
Qed.

Lemma decode_byte_next q cp b : 0 ≤ q < 9 → 0 ≤ b < 256 →
  ∃ cp', decode_byte q cp b = Ok (next_state q b, cp') ∧ 0 ≤ next_state q b < 9 ∧
  (q = 0 → next_state q b ≠ 1 → cp' = first_bits b) ∧
  (q ≠ 0 → next_state q b ≠ 1 → 0 ≤ cp < 2 ^ 26 → cp' = cp * 64 + (b - 128)).
Proof.
  intros Hq Hb. destruct (table_states q b Hq Hb) as (t & H1 & H2 & H3 & H4). unfold decode_byte.
  rewrite H1. cbn [mbind res_bind]. rewrite H2. cbn [mbind res_bind mret res_ret]. eexists. split; [done|].
  split; [done|]. unfold utf8_accept. split; intros Hq0 Hn.
  - rewrite decide_False by (by intros []). auto.
  - intros Hcp. rewrite decide_True by done. unfold u32. rewrite Z.shiftl_mul_pow2, Z.mod_small by lia.
    assert (Hr : 128 ≤ b ≤ 191).
    { unfold next_state, in_range in Hn. destruct (q =? 0) eqn:?; [lia|]. repeat case_match; try lia. }
    assert (Hland : Z.land b 63 = b - 128).
    { change 63 with (Z.ones 6). rewrite Z.land_ones by lia. change (2 ^ 6) with 64. Z.div_mod_to_equations. lia. }
    rewrite Hland, Z.lor_comm, <- Z.shiftl_mul_pow2, lor_low_high by lia. done.
Qed.

Lemma decode_step q cp b s : 0 ≤ q < 9 → 0 ≤ b < 256 → next_state q b ≠ 1 →
  decode (b :: s) (mkValidator q cp) = decode s (mkValidator (next_state q b)
    (if q =? 0 then first_bits b else Z.lor (Z.land b 63) (u32 (Z.shiftl cp 6)))).
Proof.
  intros Hq Hb Hn. destruct (table_states q b Hq Hb) as (t & H1 & H2 & H3 & H4). cbn [decode m_state m_codepoint].
  unfold decode_byte. rewrite H1. cbn [mbind res_bind]. rewrite H2. cbn [mbind res_bind mret res_ret].
  unfold utf8_reject, utf8_accept. destruct (decide (next_state q b = 1)); [done|]. destruct (decide (q ≠ 0)) as [Hq0|Hq0].
  - by rewrite (proj2 (Z.eqb_neq q 0)).
  - assert (q = 0) as -> by (destruct (decide (q = 0)); [done|lia]). rewrite H4 by done. done.
Qed.
Lemma decode_reject q cp b s : 0 ≤ q < 9 → 0 ≤ b < 256 → next_state q b = 1 →
  ∃ v, decode (b :: s) (mkValidator q cp) = Ok (false, v).
Proof.
  intros Hq Hb Hn. destruct (decode_byte_next q cp b Hq Hb) as (cp' & H1 & _). cbn [decode m_state m_codepoint]. rewrite H1, Hn.
  cbn [mbind res_bind]. rewrite decide_True by done. eauto.
Qed.
Lemma next_codepoint cp b : 0 ≤ cp < 2 ^ 26 → 128 ≤ b < 192 →
  Z.lor (Z.land b 63) (u32 (Z.shiftl cp 6)) = cp * 64 + (b - 128).
Proof.
  intros Hcp Hr. unfold u32. rewrite Z.shiftl_mul_pow2, Z.mod_small by lia.
  assert (Z.land b 63 = b - 128) as ->.
  { change 63 with (Z.ones 6). rewrite Z.land_ones by lia. change (2 ^ 6) with 64. Z.div_mod_to_equations. lia. }
  rewrite Z.lor_comm, <- Z.shiftl_mul_pow2, lor_low_high by lia. done.
Qed.

(** Evaluates the automaton on a byte whose range is known. *)
Ltac next_state_is q' :=
  match goal with |- context [next_state ?q ?b] =>
    replace (next_state q b) with q' by (unfold next_state, in_range; cbn [Z.eqb Pos.eqb andb]; repeat case_match; Z.div_mod_to_equations; lia)
  end.
Ltac feed q' :=
  rewrite decode_step by first [lia | Z.div_mod_to_equations; lia | next_state_is q'; lia]; next_state_is q'; cbn [Z.eqb];
  rewrite ?next_codepoint by (unfold first_bits; repeat case_match; Z.div_mod_to_equations; lia).

Ltac codepoint_is :=
  do 2 f_equal; unfold first_bits; repeat case_match; Z.div_mod_to_equations; lia.

(** The decoder goes through the encoding of a scalar value and holds the value. *)
Lemma decode_encoded c cp s : scalar c = true → decode (utf8_encode c ++ s) (mkValidator 0 cp) = decode s (mkValidator 0 c).
Proof.
  intros Hc. unfold scalar in Hc. unfold utf8_encode.
  destruct (c <? 128) eqn:E1; [|destruct (c <? 2048) eqn:E2; [|destruct (c <? 65536) eqn:E3]]; cbn [app].
  - feed 0. codepoint_is.
  - feed 2. feed 0. codepoint_is.
  - destruct (c <? 4096) eqn:E4; [feed 4; feed 2; feed 0; codepoint_is|].
    destruct (in_range 53248 55295 c) eqn:E5; unfold in_range in E5; [feed 5|feed 3]; feed 2; feed 0; codepoint_is.
  - destruct (c <? 262144) eqn:E4; [feed 6; feed 3; feed 2; feed 0; codepoint_is|].
    destruct (c <? 1048576) eqn:E5; [feed 7|feed 8]; feed 3; feed 2; feed 0; codepoint_is.
Qed.

(** A decoder that does not reject: the byte is in range, and the input goes on until the
    state is the initial one. *)
Definition accepts (q cp : Z) (s : list Z) : Prop := ∃ v, decode s (mkValidator q cp) = Ok (true, v) ∧ complete v = true.

Lemma accepts_nil q cp : accepts q cp [] → q = 0.
Proof. intros (v & [= <-] & Hc). by apply Z.eqb_eq in Hc. Qed.
Lemma accepts_cons q cp b s : 0 ≤ q < 9 → byte_ok b → accepts q cp (b :: s) →
  next_state q b ≠ 1 ∧ ∃ cp', accepts (next_state q b) cp' s.
Proof.
  intros Hq Hb (v & Hd & Hc). assert (Hn : next_state q b ≠ 1).
  { intros Hn. destruct (decode_reject q cp b s Hq Hb Hn) as [v' Hr]. congruence. }
  split; [done|]. rewrite decode_step in Hd by done. eexists _, v. eauto.
Qed.
(** The next byte of an accepted string, after which [k] more states remain. *)
Lemma accepts_more q cp s : 0 < q < 9 → bytes_ok s → accepts q cp s →
  ∃ b s' cp', s = b :: s' ∧ byte_ok b ∧ bytes_ok s' ∧ next_state q b ≠ 1 ∧ accepts (next_state q b) cp' s'.
Proof.
  intros Hq Hs Ha. destruct s as [|b s]; [apply accepts_nil in Ha; lia|]. apply Forall_cons in Hs as [Hb Hs].
  destruct (accepts_cons q cp b s ltac:(lia) Hb Ha) as (Hn & cp' & Ha'). eauto 10.
Qed.

Ltac more Ha Hs :=
  apply accepts_more in Ha as (? & ? & ? & -> & ? & Hs' & ? & Ha'); [|lia|exact Hs]; clear Hs; rename Hs' into Hs; rename Ha' into Ha.

(** The continuation bytes of a character in progress. *)
Lemma accepts_last cp s : bytes_ok s → accepts 2 cp s → ∃ b s' cp', s = b :: s' ∧ 128 ≤ b < 192 ∧ bytes_ok s' ∧ accepts 0 cp' s'.
Proof.
  intros Hs Ha. more Ha Hs. eexists _, _, _. split; [done|].
  match goal with H : next_state _ ?b ≠ 1 |- _ => revert H Ha end. unfold next_state, in_range. cbn [Z.eqb Pos.eqb andb].
  repeat case_match; try done; intros; repeat split; try done; lia.
Qed.
Lemma accepts_two q lo hi cp s :
  (q, lo, hi) ∈ [(3, 128, 191); (4, 160, 191); (5, 128, 159)] → bytes_ok s → accepts q cp s →
  ∃ b b' s' cp', s = b :: b' :: s' ∧ lo ≤ b ≤ hi ∧ 128 ≤ b' < 192 ∧ bytes_ok s' ∧ accepts 0 cp' s'.
Proof.
  intros Hq Hs Ha. rewrite !elem_of_cons in Hq. assert (0 < q < 9) by (destruct Hq as [[= -> -> ->]|[[= -> -> ->]|[[= -> -> ->]|Hq]]]; [lia..|by apply not_elem_of_nil in Hq]).
  more Ha Hs. match goal with H : next_state _ ?b ≠ 1 |- _ => assert (lo ≤ b ≤ hi ∧ next_state q b = 2) as [? E] end.
  { revert select (next_state _ _ ≠ 1). destruct Hq as [[= -> -> ->]|[[= -> -> ->]|[[= -> -> ->]|Hq]]]; [..|by apply not_elem_of_nil in Hq];
      unfold next_state, in_range; cbn [Z.eqb Pos.eqb andb]; repeat case_match; try done; intros; lia. }
  rewrite E in Ha. apply accepts_last in Ha as (b' & s' & cp' & -> & ? & ? & ?); [|done]. eauto 10.
Qed.
Lemma accepts_three q lo hi cp s :
  (q, lo, hi) ∈ [(6, 144, 191); (7, 128, 191); (8, 128, 143)] → bytes_ok s → accepts q cp s →
  ∃ b b' b'' s' cp', s = b :: b' :: b'' :: s' ∧ lo ≤ b ≤ hi ∧ 128 ≤ b' < 192 ∧ 128 ≤ b'' < 192 ∧ bytes_ok s' ∧ accepts 0 cp' s'.
Proof.
  intros Hq Hs Ha. rewrite !elem_of_cons in Hq. assert (0 < q < 9) by (destruct Hq as [[= -> -> ->]|[[= -> -> ->]|[[= -> -> ->]|Hq]]]; [lia..|by apply not_elem_of_nil in Hq]).
  more Ha Hs. match goal with H : next_state _ ?b ≠ 1 |- _ => assert (lo ≤ b ≤ hi ∧ next_state q b = 3) as [? E] end.
  { revert select (next_state _ _ ≠ 1). destruct Hq as [[= -> -> ->]|[[= -> -> ->]|[[= -> -> ->]|Hq]]]; [..|by apply not_elem_of_nil in Hq];
      unfold next_state, in_range; cbn [Z.eqb Pos.eqb andb]; repeat case_match; try done; intros; lia. }
  rewrite E in Ha. apply (accepts_two 3 128 191) in Ha as (b' & b'' & s' & cp' & -> & ? & ? & ? & ?); [|by left|done].
  eexists _, b', b'', s', cp'. repeat split; try done; lia.
Qed.

(** An accepted string starts with the encoding of a scalar value. *)
Lemma accepts_char cp b s : bytes_ok (b :: s) → accepts 0 cp (b :: s) →
  ∃ c s', scalar c = true ∧ b :: s = utf8_encode c ++ s' ∧ bytes_ok s'.
Proof.
  intros Hs Ha. apply Forall_cons in Hs as [Hb Hs]. apply accepts_cons in Ha as (Hn & cp' & Ha); [|lia|done]. unfold byte_ok in Hb.
  assert (Henc : ∀ c l s', scalar c = true → utf8_encode c = l → b :: s = l ++ s' → bytes_ok s' →
    ∃ c s', scalar c = true ∧ b :: s = utf8_encode c ++ s' ∧ bytes_ok s').
  { intros c l s' ? <- ? ?. eauto. }
  unfold next_state, in_range in Hn, Ha. cbn [Z.eqb] in Hn, Ha.
  repeat match goal with H : context [if ?e then _ else _] |- _ => destruct e eqn:? end; try done.
  all: [> apply (Henc b [b] s); [unfold scalar; lia|unfold utf8_encode; by case_match|done|done]
    | apply accepts_last in Ha as (b2 & s' & cp2 & -> & ? & ? & _); [|done];
      apply (Henc ((b - 192) * 64 + (b2 - 128)) [b; b2] s')
    | apply (accepts_two 4 160 191) in Ha as (b2 & b3 & s' & cp2 & -> & ? & ? & ? & _); [|set_solver|done];
      apply (Henc ((b - 224) * 4096 + (b2 - 128) * 64 + (b3 - 128)) [b; b2; b3] s')
    | apply (accepts_two 5 128 159) in Ha as (b2 & b3 & s' & cp2 & -> & ? & ? & ? & _); [|set_solver|done];
      apply (Henc ((b - 224) * 4096 + (b2 - 128) * 64 + (b3 - 128)) [b; b2; b3] s')
    | apply (accepts_two 3 128 191) in Ha as (b2 & b3 & s' & cp2 & -> & ? & ? & ? & _); [|set_solver|done];
      apply (Henc ((b - 224) * 4096 + (b2 - 128) * 64 + (b3 - 128)) [b; b2; b3] s')
    | apply (accepts_three 6 144 191) in Ha as (b2 & b3 & b4 & s' & cp2 & -> & ? & ? & ? & ? & _); [|set_solver|done];
      apply (Henc ((b - 240) * 262144 + (b2 - 128) * 4096 + (b3 - 128) * 64 + (b4 - 128)) [b; b2; b3; b4] s')
    | apply (accepts_three 7 128 191) in Ha as (b2 & b3 & b4 & s' & cp2 & -> & ? & ? & ? & ? & _); [|set_solver|done];
      apply (Henc ((b - 240) * 262144 + (b2 - 128) * 4096 + (b3 - 128) * 64 + (b4 - 128)) [b; b2; b3; b4] s')
    | apply (accepts_three 8 128 143) in Ha as (b2 & b3 & b4 & s' & cp2 & -> & ? & ? & ? & ? & _); [|set_solver|done];
      apply (Henc ((b - 240) * 262144 + (b2 - 128) * 4096 + (b3 - 128) * 64 + (b4 - 128)) [b; b2; b3; b4] s') ].
  all: try done; unfold scalar, utf8_encode; repeat case_match; try lia; repeat (f_equal; [Z.div_mod_to_equations; lia|]); f_equal; Z.div_mod_to_equations; lia.
Qed.

(** ** The validator *)
Definition valid_state (v : validator) : Prop := 0 ≤ m_state v < 9.

Lemma new_validator_valid : valid_state new_validator.
Proof. unfold valid_state, new_validator, utf8_accept. simpl. lia. Qed.
Lemma decode_total s v : bytes_ok s → valid_state v → ∃ ok v', decode s v = Ok (ok, v') ∧ valid_state v'.
Proof.
  intros Hs. revert v. induction Hs as [|b s Hb _ IH]; intros [q cp] Hv; [by exists true, (mkValidator q cp)|].
  destruct (decode_byte_next q cp b Hv Hb) as (cp' & E & Hq' & _). cbn [decode m_state m_codepoint]. rewrite E. cbn [mbind res_bind].
  destruct (decide _); [by eexists _, _|]. by apply IH.
Qed.
Lemma validate_total s : bytes_ok s → ∃ r, validate s = Ok r.
Proof.
  intros Hs. destruct (decode_total s new_validator Hs new_validator_valid) as ([] & v & Hd & _); unfold validate; rewrite Hd; by eexists.
Qed.
(** Decoding in pieces. *)
Lemma decode_app s1 s2 v :
  decode (s1 ++ s2) v = ('(ok, v') ← decode s1 v; if (ok : bool) then decode s2 v' else Ok (false, v')).
Proof.
  revert v. induction s1 as [|b s1 IH]; intros v; [done|]. cbn [decode app].
  destruct (decode_byte (m_state v) (m_codepoint v) b) as [[st cp]|]; [|done]. cbn [mbind res_bind]. by destruct (decide _).
Qed.
Lemma decode_encodings cs cp s : Forall (λ c, scalar c = true) cs →
  decode (concat (utf8_encode <$> cs) ++ s) (mkValidator 0 cp) = decode s (mkValidator 0 (List.last cs cp)).
Proof.
  intros Hcs. revert cp. induction Hcs as [|c cs Hc _ IH]; intros cp; [done|]. cbn [fmap list_fmap concat]. rewrite <- app_assoc, decode_encoded, IH by done.
  do 2 f_equal. destruct cs as [|c' cs]; [done|]. clear. revert c'. induction cs as [|c'' cs IH]; intros c'; [done|]. apply IH.
Qed.
Lemma accepted_encodes s cp : bytes_ok s → accepts 0 cp s → ∃ cs, encoding_of cs s.
Proof.
  remember (length s) as n eqn:En. revert s cp En. induction (lt_wf n) as [n _ IH]. intros s cp En Hs Ha. subst n.
  destruct s as [|b s]; [by exists []|]. destruct (accepts_char cp b s Hs Ha) as (c & s' & Hc & Heq & Hs').
  rewrite Heq in Ha. destruct Ha as (v & Hd & Hcv). rewrite decode_encoded in Hd by done.
  destruct (IH (length s')) with (s := s') (cp := c) as (cs & Hcs & ->); [|done..|by exists v|].
  { rewrite Heq, length_app. assert (0 < length (utf8_encode c))%nat; [|lia]. unfold utf8_encode. repeat case_match; cbn; lia. }
  exists (c :: cs). split; [by constructor|done].
Qed.

(** C28: The validator answers for every string, and accepts exactly the encodings of scalar
    values. *)
Theorem validate_iff s : bytes_ok s → ∃ r, validate s = Ok r ∧ (r = true ↔ ∃ cs, encoding_of cs s).
Proof.
  intros Hs. destruct (decode_total s new_validator Hs) as (ok & v & Hd & _); [apply new_validator_valid|].
  unfold validate. rewrite Hd. cbn [mbind res_bind]. exists (ok && complete v). split; [by destruct ok|]. split.
  - intros [-> Hc]%andb_prop. apply (accepted_encodes s 0 Hs). by exists v.
  - intros (cs & Hcs & ->). pose proof (decode_encodings cs 0 [] Hcs) as He. rewrite app_nil_r in He.
    unfold new_validator, utf8_accept in Hd. rewrite He in Hd. by injection Hd as <- <-.
Qed.
Lemma validate_iff_witness : ∃ r, validate [226; 130; 172] = Ok r ∧ (r = true ↔ ∃ cs, encoding_of cs [226; 130; 172]).
Proof. apply validate_iff. unfold bytes_ok, byte_ok. repeat constructor; lia. Defined.
