(* ===== verification/WsProcessor.v ===== *)
(** * The websocket protocol processor:
    src/websocketpp-master/websocketpp/processors/hybi13.hpp (class [hybi13])

    One processor per connection turns bytes into messages and messages into frames
    (RFC 6455).  [consume] is a state machine over the fields of a frame; it takes the
    bytes in pieces of any size, unmasks them in place, checks headers and text, and stops
    when a message is ready.  The state is the record [hybi13]; a message buffer is the
    record [message] of message_buffer/message.hpp.  The permessage-deflate extension is an
    interface; the configuration of the game server has the one that is off. *)

From S2P Require Import Prelude Bytes WsFrame Utf8.

Open Scope Z_scope.

(** ** Errors (error.hpp, processors/base.hpp) *)
Module error.
Inductive value :=
  | general | send_queue_full | payload_violation | endpoint_not_secure | endpoint_unavailable | invalid_uri
  | no_outgoing_buffers | no_incoming_buffers | invalid_state | bad_close_code | reserved_close_code
  | invalid_close_code | invalid_utf8 | invalid_subprotocol | bad_connection | test | con_creation_failed
  | unrequested_subprotocol | client_only | server_only | http_connection_ended | open_handshake_timeout
  | close_handshake_timeout | invalid_port | async_accept_not_listening | operation_canceled | rejected
  | upgrade_required | invalid_version | unsupported_version | http_parse_error | extension_neg_failed.
#[global] Instance value_eq_dec : EqDecision value.
Proof. solve_decision. Defined.
End error.

Inductive processor_errors :=
  | general | bad_request | protocol_violation | message_too_big | invalid_payload | invalid_arguments
  | invalid_opcode | control_too_big | invalid_rsv_bit | fragmented_control | invalid_continuation
  | masking_required | masking_forbidden | non_minimal_encoding | requires_64bit | invalid_utf8
  | not_implemented | invalid_http_method | invalid_http_version | invalid_http_status
  | missing_required_header | sha1_library | no_protocol_support | reserved_close_code
  | invalid_close_code | reason_requires_code | subprotocol_parse_error | extension_parse_error
  | extensions_disabled | short_key3.

(** transport/base/connection.hpp *)
Module transport_error.
Inductive value :=
  | general | pass_through | invalid_num_bytes | double_read | operation_aborted | operation_not_supported | eof
  | tls_short_read | timeout | action_after_shutdown | tls_error.
#[global] Instance value_eq_dec : EqDecision value.
Proof. solve_decision. Defined.
End transport_error.
(** extensions/permessage_deflate/enabled.hpp *)
Module deflate_error.
Inductive value :=
  | general | invalid_attributes | invalid_attribute_value | invalid_mode | unsupported_attributes
  | invalid_max_window_bits | zlib_error | uninitialized.
#[global] Instance value_eq_dec : EqDecision value.
Proof. solve_decision. Defined.
End deflate_error.

(** An error code: its category and its value. *)
Inductive error_code :=
  | processor_ec (e : processor_errors)
  | library_ec (e : error.value)
  | transport_ec (e : transport_error.value)
  | deflate_ec (e : deflate_error.value)
  | extension_disabled.
#[global] Instance processor_errors_eq_dec : EqDecision processor_errors.
Proof. solve_decision. Defined.
#[global] Instance error_code_eq_dec : EqDecision error_code.
Proof. solve_decision. Defined.

(** The result [lib::error_code] of a function: [None] is the code 0. *)
Definition make_error_code (e : processor_errors) : option error_code := Some (processor_ec e).

(** ** Close codes (close.hpp) *)
Module status.
Definition blank : Z := 0.
Definition omit_handshake : Z := 1.
Definition force_tcp_drop : Z := 2.
Definition normal : Z := 1000.
Definition going_away : Z := 1001.
Definition protocol_error : Z := 1002.
Definition no_status : Z := 1005.
Definition abnormal_close : Z := 1006.
Definition invalid_payload : Z := 1007.
Definition policy_violation : Z := 1008.
Definition message_too_big : Z := 1009.
Definition internal_endpoint_error : Z := 1011.
Definition tls_handshake : Z := 1015.
Definition rsv_start : Z := 1016.
Definition rsv_end : Z := 2999.
Definition invalid_low : Z := 999.
Definition invalid_high : Z := 5000.

Definition reserved (code : Z) : bool := ((rsv_start <=? code) && (code <=? rsv_end)) || (code =? 1004).
Definition invalid (code : Z) : bool :=
  (code <=? invalid_low) || (invalid_high <=? code) || (code =? no_status) || (code =? abnormal_close) || (code =? tls_handshake).
Definition terminal (code : Z) : bool :=
  (code =? protocol_error) || (code =? invalid_payload) || (code =? policy_violation) || (code =? message_too_big)
  || (code =? internal_endpoint_error).
End status.

(** [processor::error::to_ws] *)
Definition to_ws (ec : error_code) : Z :=
  match ec with
  | library_ec _ | transport_ec _ | deflate_ec _ | extension_disabled => status.blank
  | processor_ec e =>
      match e with
      | protocol_violation | control_too_big | invalid_opcode | invalid_rsv_bit | fragmented_control
      | invalid_continuation | masking_required | masking_forbidden | reserved_close_code | invalid_close_code => status.protocol_error
      | invalid_payload | invalid_utf8 => status.invalid_payload
      | message_too_big => status.message_too_big
      | _ => status.internal_endpoint_error
      end
  end.

(** ** Message buffers *)
Record message := mkMessage {
  m_header : list Z;
  m_extension_data : list Z;
  m_payload : list Z;
  m_opcode : Z;
  m_prepared : bool;
  m_fin : bool;
  m_terminal : bool;
  m_compressed : bool;
}.

Definition set_payload (p : list Z) (m : message) : message :=
  mkMessage (m_header m) (m_extension_data m) p (m_opcode m) (m_prepared m) (m_fin m) (m_terminal m) (m_compressed m).
Definition set_header (h : list Z) (m : message) : message :=
  mkMessage h (m_extension_data m) (m_payload m) (m_opcode m) (m_prepared m) (m_fin m) (m_terminal m) (m_compressed m).
Definition set_prepared (v : bool) (m : message) : message :=
  mkMessage (m_header m) (m_extension_data m) (m_payload m) (m_opcode m) v (m_fin m) (m_terminal m) (m_compressed m).
Definition set_opcode (op : Z) (m : message) : message :=
  mkMessage (m_header m) (m_extension_data m) (m_payload m) op (m_prepared m) (m_fin m) (m_terminal m) (m_compressed m).
Definition set_compressed (v : bool) (m : message) : message :=
  mkMessage (m_header m) (m_extension_data m) (m_payload m) (m_opcode m) (m_prepared m) (m_fin m) (m_terminal m) v.
Definition set_terminal (v : bool) (m : message) : message :=
  mkMessage (m_header m) (m_extension_data m) (m_payload m) (m_opcode m) (m_prepared m) (m_fin m) v (m_compressed m).
Definition append_payload (p : list Z) (m : message) : message := set_payload (m_payload m ++ p) m.

(** ** Interfaces of the processor

    The permessage-deflate extension: its state, and what it does with bytes. *)
Class Deflate := {
  deflate_state : Type;
  is_enabled : deflate_state → bool;
  compress : deflate_state → list Z → list Z → res (deflate_state * list Z);
  decompress : deflate_state → list Z → list Z → res (deflate_state * (option error_code * list Z));
}.
(** extensions/permessage_deflate/disabled.hpp *)
Definition disabled : Deflate := {|
  deflate_state := ();
  is_enabled := λ _, false;
  compress := λ d _ out, mret (d, out);
  decompress := λ d _ out, mret (d, (Some extension_disabled, out));
|}.

Inductive proc_state := HEADER_BASIC | HEADER_EXTENDED | EXTENSION | APPLICATION | READY | FATAL_ERROR.
#[global] Instance proc_state_eq_dec : EqDecision proc_state.
Proof. solve_decision. Defined.

Section Processor.
Context `{Machine} `{Deflate}.
Variable rng : nat → Z.   (** the values of the random generator, in order *)

(** ** State *)
Record msg_metadata := mkMeta {
  msg_ptr : option message;
  prepared_key : Z;
  utf8 : validator;
}.
Definition new_metadata (m : message) (key : list Z) : msg_metadata := mkMeta (Some m) (prepare_masking_key key) new_validator.

(** [m_current_msg] points to one of the two metadata of the processor. *)
Inductive which := Data | Control.

Record hybi13 := mkProc {
  m_server : bool;
  m_max_message_size : Z;
  m_basic_header : basic_header;
  m_bytes_needed : Z;
  m_cursor : nat;
  m_data_msg : msg_metadata;
  m_control_msg : msg_metadata;
  m_current_msg : option which;
  m_extended_header : list Z;
  m_rng : nat;
  m_state : proc_state;
  m_permessage_deflate : deflate_state;
}.

Definition set_state (v : proc_state) (s : hybi13) : hybi13 :=
  mkProc (m_server s) (m_max_message_size s) (m_basic_header s) (m_bytes_needed s) (m_cursor s) (m_data_msg s) (m_control_msg s)
    (m_current_msg s) (m_extended_header s) (m_rng s) v (m_permessage_deflate s).
Definition set_needed (n : Z) (s : hybi13) : hybi13 :=
  mkProc (m_server s) (m_max_message_size s) (m_basic_header s) n (m_cursor s) (m_data_msg s) (m_control_msg s)
    (m_current_msg s) (m_extended_header s) (m_rng s) (m_state s) (m_permessage_deflate s).
Definition set_cursor (n : nat) (s : hybi13) : hybi13 :=
  mkProc (m_server s) (m_max_message_size s) (m_basic_header s) (m_bytes_needed s) n (m_data_msg s) (m_control_msg s)
    (m_current_msg s) (m_extended_header s) (m_rng s) (m_state s) (m_permessage_deflate s).
Definition set_basic (h : basic_header) (s : hybi13) : hybi13 :=
  mkProc (m_server s) (m_max_message_size s) h (m_bytes_needed s) (m_cursor s) (m_data_msg s) (m_control_msg s)
    (m_current_msg s) (m_extended_header s) (m_rng s) (m_state s) (m_permessage_deflate s).
Definition set_extended (e : list Z) (s : hybi13) : hybi13 :=
  mkProc (m_server s) (m_max_message_size s) (m_basic_header s) (m_bytes_needed s) (m_cursor s) (m_data_msg s) (m_control_msg s)
    (m_current_msg s) e (m_rng s) (m_state s) (m_permessage_deflate s).
Definition set_current (w : option which) (s : hybi13) : hybi13 :=
  mkProc (m_server s) (m_max_message_size s) (m_basic_header s) (m_bytes_needed s) (m_cursor s) (m_data_msg s) (m_control_msg s)
    w (m_extended_header s) (m_rng s) (m_state s) (m_permessage_deflate s).
Definition set_rng (n : nat) (s : hybi13) : hybi13 :=
  mkProc (m_server s) (m_max_message_size s) (m_basic_header s) (m_bytes_needed s) (m_cursor s) (m_data_msg s) (m_control_msg s)
    (m_current_msg s) (m_extended_header s) n (m_state s) (m_permessage_deflate s).
Definition set_deflate (d : deflate_state) (s : hybi13) : hybi13 :=
  mkProc (m_server s) (m_max_message_size s) (m_basic_header s) (m_bytes_needed s) (m_cursor s) (m_data_msg s) (m_control_msg s)
    (m_current_msg s) (m_extended_header s) (m_rng s) (m_state s) d.
Definition meta_of (w : which) (s : hybi13) : msg_metadata := match w with Data => m_data_msg s | Control => m_control_msg s end.
Definition set_meta (w : which) (m : msg_metadata) (s : hybi13) : hybi13 :=
  mkProc (m_server s) (m_max_message_size s) (m_basic_header s) (m_bytes_needed s) (m_cursor s)
    (match w with Data => m | Control => m_data_msg s end) (match w with Data => m_control_msg s | Control => m end)
    (m_current_msg s) (m_extended_header s) (m_rng s) (m_state s) (m_permessage_deflate s).

(** Dereferences of [m_current_msg] and of its [msg_ptr]. *)
Definition current (s : hybi13) : res which :=
  match m_current_msg s with Some w => Ok w | None => Err DanglingPtr end.
Definition deref (m : msg_metadata) : res message :=
  match msg_ptr m with Some msg => Ok msg | None => Err NullDeref end.

(** [std::string::reserve] *)
Definition reserve (n : Z) : res () := if n <=? 2 ^ (8 * Z.of_nat sizeof_size_t - 1) - 1 then Ok () else Err StdException.
(** [con_msg_manager::get_message(op, size)] (message_buffer/alloc.hpp): a new message. *)
Definition new_message (op size : Z) : res message :=
  _ ← reserve size; mret (mkMessage [] [] [] op false true false false).

Definition reset_headers (s : hybi13) : hybi13 :=
  set_extended empty_extended (set_basic (mkBasic 0 0) (set_needed BASIC_HEADER_LENGTH (set_state HEADER_BASIC s))).
(** The constructor; what it leaves uninitialised is never read before it is written. *)
Definition new_hybi13 (p_is_server : bool) (max_message_size : Z) (d : deflate_state) : hybi13 :=
  reset_headers (mkProc p_is_server max_message_size (mkBasic 0 0) 0 0 (mkMeta None 0 new_validator) (mkMeta None 0 new_validator)
    None empty_extended 0 HEADER_BASIC d).

(** ** Checks of incoming headers *)
Definition validate_incoming_basic_header (s : hybi13) (h : basic_header) (is_server new_msg : bool) : option error_code :=
  let op := get_opcode h in
  if opcode.is_control op && (limits.payload_size_basic <? get_basic_size h) then make_error_code control_too_big
  else if get_rsv1 h && (negb (is_enabled (m_permessage_deflate s)) || opcode.is_control op) then make_error_code invalid_rsv_bit
  else if get_rsv2 h || get_rsv3 h then make_error_code invalid_rsv_bit
  else if opcode.reserved op then make_error_code invalid_opcode
  else if opcode.invalid op then make_error_code invalid_opcode
  else if opcode.is_control op && negb (get_fin h) then make_error_code fragmented_control
  else if new_msg && (op =? opcode.continuation) then make_error_code invalid_continuation
  else if negb new_msg && negb (opcode.is_control op) && negb (op =? opcode.continuation) then make_error_code invalid_continuation
  else if is_server && negb (get_masked h) then make_error_code masking_required
  else if negb is_server && get_masked h then make_error_code masking_forbidden
  else None.

Definition validate_incoming_extended_header (h : basic_header) (e : list Z) : res (option error_code) :=
  let basic_size := get_basic_size h in
  payload_size ← get_payload_size h e;
  mret (
    if (basic_size =? payload_size_code_16bit) && (payload_size <=? limits.payload_size_basic) then make_error_code non_minimal_encoding
    else if (basic_size =? payload_size_code_64bit) && (payload_size <=? limits.payload_size_extended) then make_error_code non_minimal_encoding
    else if bool_decide (sizeof_size_t = 4%nat) && negb (Z.shiftr payload_size 32 =? 0) then make_error_code requires_64bit
    else None).

(** ** Reading the fields of a frame *)

(** [copy_basic_header_bytes(buf, len)]: how many bytes were read. *)
Definition copy_basic_header_bytes (buf : list Z) (s : hybi13) : res (nat * hybi13) :=
  let h := m_basic_header s in
  match buf with
  | [] => mret (0%nat, s)
  | x :: rest =>
      if m_bytes_needed s =? 0 then mret (0%nat, s)
      else match rest with
      | y :: _ =>
          if m_bytes_needed s =? 2
          then mret (2%nat, set_needed (size_t (m_bytes_needed s - 2)) (set_basic (mkBasic x y) s))
          else mret (1%nat, set_needed (size_t (m_bytes_needed s - 1)) (set_basic (mkBasic (b0 h) x) s))
      | [] =>
          if m_bytes_needed s =? 2
          then mret (1%nat, set_needed (size_t (m_bytes_needed s - 1)) (set_basic (mkBasic x (b1 h)) s))
          else mret (1%nat, set_needed (size_t (m_bytes_needed s - 1)) (set_basic (mkBasic (b0 h) x) s))
      end
  end.

Definition copy_extended_header_bytes (buf : list Z) (s : hybi13) : res (nat * hybi13) :=
  let bytes_to_read := Z.min (m_bytes_needed s) (Z.of_nat (length buf)) in
  let n := Z.to_nat bytes_to_read in
  bytes ← load_range buf 0 n;
  e ← store_range (m_extended_header s) (m_cursor s) bytes;
  mret (n, set_needed (size_t (m_bytes_needed s - bytes_to_read)) (set_cursor (m_cursor s + n) (set_extended e s))).

(** [process_payload_bytes(buf, len, ec)]: the bytes processed, the buffer (unmasked in
    place) and the error code. *)
Definition process_payload_bytes (buf : list Z) (len : nat) (s : hybi13) : res (nat * list Z * option error_code * hybi13) :=
  w ← current s;
  '(buf, s) ← (if get_masked (m_basic_header s)
    then '(key, buf) ← byte_mask_circ None buf len (prepared_key (meta_of w s));
         mret (buf, set_meta w (mkMeta (msg_ptr (meta_of w s)) key (utf8 (meta_of w s))) s)
    else mret (buf, s));
  msg ← deref (meta_of w s);
  let out := m_payload msg in
  let offset := length out in
  bytes ← load_range buf 0 len;
  '(d, (ec, out)) ← (if is_enabled (m_permessage_deflate s) && m_compressed msg
    then decompress (m_permessage_deflate s) bytes out
    else mret (m_permessage_deflate s, (None, out ++ bytes)));
  let s := set_deflate d (set_meta w (mkMeta (Some (set_payload out msg)) (prepared_key (meta_of w s)) (utf8 (meta_of w s))) s) in
  match ec with
  | Some ec => mret (0%nat, buf, Some ec, s)
  | None =>
      '(ok, s) ← (if m_opcode msg =? opcode.text
        then '(ok, v) ← decode (drop offset out) (utf8 (meta_of w s));
             mret (ok, set_meta w (mkMeta (msg_ptr (meta_of w s)) (prepared_key (meta_of w s)) v) s)
        else mret (true, s));
      if (ok : bool) then mret (len, buf, None, set_needed (size_t (m_bytes_needed s - Z.of_nat len)) s)
      else mret (0%nat, buf, make_error_code invalid_utf8, s)
  end.

Definition finalize_message (s : hybi13) : res (option error_code * hybi13) :=
  w ← current s;
  msg ← deref (meta_of w s);
  '(d, (ec, out)) ← (if is_enabled (m_permessage_deflate s) && m_compressed msg
    then decompress (m_permessage_deflate s) [0; 0; 255; 255] (m_payload msg)
    else mret (m_permessage_deflate s, (None, m_payload msg)));
  let s := set_deflate d (set_meta w (mkMeta (Some (set_payload out msg)) (prepared_key (meta_of w s)) (utf8 (meta_of w s))) s) in
  match ec with
  | Some ec => mret (Some ec, s)
  | None =>
      if (get_opcode (m_basic_header s) =? opcode.text) && negb (complete (utf8 (meta_of w s)))
      then mret (make_error_code invalid_utf8, s)
      else mret (None, set_state READY s)
  end.

(** ** The loop of [consume], one case per state

    [p] bytes of the buffer are processed; a case returns the new [p], the buffer, the
    error code and the state of the processor. *)
Definition step_result : Type := nat * list Z * option error_code * hybi13.

Definition consume_header_basic (p : nat) (buf : list Z) (s : hybi13) : res step_result :=
  '(n, s) ← copy_basic_header_bytes (drop p buf) s;
  let p := (p + n)%nat in
  if 0 <? m_bytes_needed s then mret (p, buf, None, s)
  else
    let new_msg := match msg_ptr (m_data_msg s) with None => true | Some _ => false end in
    match validate_incoming_basic_header s (m_basic_header s) (m_server s) new_msg with
    | Some ec => mret (p, buf, Some ec, s)
    | None =>
        let needed := size_t (get_header_len (m_basic_header s) - BASIC_HEADER_LENGTH) in
        mret (p, buf, None, set_needed needed (set_cursor 0 (set_state HEADER_EXTENDED s)))
    end.

(** The metadata of the message a frame belongs to. *)
Definition start_payload (s : hybi13) : res (option error_code * hybi13) :=
  let op := get_opcode (m_basic_header s) in
  key ← get_masking_key (m_basic_header s) (m_extended_header s);
  if opcode.is_control op then
    msg ← new_message op (m_bytes_needed s);
    mret (None, set_current (Some Control) (set_meta Control (new_metadata msg key) s))
  else match msg_ptr (m_data_msg s) with
  | None =>
      if m_max_message_size s <? m_bytes_needed s then mret (make_error_code message_too_big, s)
      else
        msg ← new_message op (m_bytes_needed s);
        let msg := if is_enabled (m_permessage_deflate s) then set_compressed (get_rsv1 (m_basic_header s)) msg else msg in
        mret (None, set_current (Some Data) (set_meta Data (new_metadata msg key) s))
  | Some msg =>
      let size := size_t (Z.of_nat (length (m_payload msg)) + m_bytes_needed s) in
      if m_max_message_size s <? size then mret (make_error_code message_too_big, s)
      else
        _ ← reserve size;
        let meta := mkMeta (Some msg) (prepare_masking_key key) (utf8 (m_data_msg s)) in
        mret (None, set_current (Some Data) (set_meta Data meta s))
  end.

Definition consume_header_extended (p : nat) (buf : list Z) (s : hybi13) : res step_result :=
  '(n, s) ← copy_extended_header_bytes (drop p buf) s;
  let p := (p + n)%nat in
  if 0 <? m_bytes_needed s then mret (p, buf, None, s)
  else
    ec ← validate_incoming_extended_header (m_basic_header s) (m_extended_header s);
    match ec with
    | Some ec => mret (p, buf, Some ec, s)
    | None =>
        size ← get_payload_size (m_basic_header s) (m_extended_header s);
        '(ec, s) ← start_payload (set_needed (size_t size) (set_state APPLICATION s));
        mret (p, buf, ec, s)
    end.

Definition consume_application (p : nat) (buf : list Z) (s : hybi13) : res step_result :=
  let bytes_to_process := Z.to_nat (Z.min (m_bytes_needed s) (Z.of_nat (length buf - p))) in
  '(p, buf, ec, s) ← (if (0 <? bytes_to_process)%nat
    then '(n, tail, ec, s) ← process_payload_bytes (drop p buf) bytes_to_process s;
         mret ((p + n)%nat, take p buf ++ tail, ec, s)
    else mret (p, buf, None, s));
  match ec with
  | Some ec => mret (p, buf, Some ec, s)
  | None =>
      if 0 <? m_bytes_needed s then mret (p, buf, None, s)
      else if get_fin (m_basic_header s)
      then '(ec, s) ← finalize_message s; mret (p, buf, ec, s)
      else mret (p, buf, None, reset_headers s)
  end.

Definition consume_step (p : nat) (buf : list Z) (s : hybi13) : res step_result :=
  match m_state s with
  | HEADER_BASIC => consume_header_basic p buf s
  | HEADER_EXTENDED => consume_header_extended p buf s
  | EXTENSION => mret (p, buf, None, set_state APPLICATION s)
  | APPLICATION => consume_application p buf s
  | READY | FATAL_ERROR => mret (0%nat, buf, make_error_code general, s)
  end.

Definition loop_condition (p : nat) (buf : list Z) (s : hybi13) : bool :=
  negb (bool_decide (m_state s = READY)) && negb (bool_decide (m_state s = FATAL_ERROR))
  && ((p <? length buf)%nat || (m_bytes_needed s =? 0)).

Fixpoint consume_loop (fuel : nat) (p : nat) (buf : list Z) (s : hybi13) : res step_result :=
  match fuel with
  | O => Err OutOfFuel
  | S fuel =>
      if loop_condition p buf s then
        '(p, buf, ec, s) ← consume_step p buf s;
        match ec with Some ec => mret (p, buf, Some ec, s) | None => consume_loop fuel p buf s end
      else mret (p, buf, None, s)
  end.
(** Every turn reads a byte or goes on to the next field of a frame. *)
Definition consume_fuel (buf : list Z) : nat := 3 * length buf + 5.
Definition consume (buf : list Z) (s : hybi13) : res step_result := consume_loop (consume_fuel buf) 0 buf s.

Definition ready (s : hybi13) : bool := bool_decide (m_state s = READY).
Definition get_error (s : hybi13) : bool := bool_decide (m_state s = FATAL_ERROR).
Definition get_message (s : hybi13) : res (option message * hybi13) :=
  if negb (ready s) then mret (None, s)
  else
    w ← current s;
    let clear w s := set_meta w (mkMeta None (prepared_key (meta_of w s)) (utf8 (meta_of w s))) s in
    ret ← deref (meta_of w s);
    let s := clear w s in
    let s := if opcode.is_control (m_opcode ret) then clear Control s else clear Data s in
    mret (Some ret, reset_headers s).

(** ** Preparing frames

    [in] and [out] are shared pointers to different message buffers; [None] is null.
    The result is the error code, the buffer [out], and the state with the random values
    drawn. *)
Definition masked_copy (i key : list Z) : res (list Z) := byte_mask i key 0.

Definition make_header (op size : Z) (fin masked compressed : bool) (key : Z) : res (list Z) :=
  let h := new_basic_header op size fin masked compressed false false in
  e ← (if masked then extended_header_keyed size key else extended_header_plain size);
  prepare_header h e.

Definition prepare_data_frame (in_ out : option message) (s : hybi13) : res (option error_code * option message * hybi13) :=
  match in_, out with
  | Some in_, Some out =>
      let op := m_opcode in_ in
      if opcode.is_control op then mret (make_error_code invalid_opcode, Some out, s)
      else
        let i := m_payload in_ in
        valid ← (if op =? opcode.text then validate i else mret true);
        if negb valid then mret (make_error_code invalid_payload, Some out, s)
        else
          let masked := negb (m_server s) in
          let compressed := is_enabled (m_permessage_deflate s) && m_compressed in_ in
          let fin := m_fin in_ in
          let '(key, s) := if masked : bool then (rng (m_rng s), set_rng (S (m_rng s)) s) else (0, s) in
          '(s, o) ← (if compressed : bool
            then '(d, o) ← compress (m_permessage_deflate s) i (m_payload out); mret (set_deflate d s, o)
            else mret (s, i));
          if compressed && (Z.of_nat (length o) <? 4) then mret (make_error_code general, Some (set_payload o out), s)
          else
            let o := if compressed : bool then take (length o - 4) o else o in
            o ← (if masked : bool then masked_copy o (host_bytes 4 key) else mret o);
            header ← make_header op (Z.of_nat (length o)) fin masked compressed key;
            mret (None, Some (set_opcode op (set_prepared true (set_header header (set_payload o out)))), s)
  | _, _ => mret (make_error_code invalid_arguments, out, s)
  end.

Definition prepare_control (op : Z) (payload : list Z) (out : option message) (s : hybi13) : res (option error_code * option message * hybi13) :=
  match out with
  | None => mret (make_error_code invalid_arguments, out, s)
  | Some out =>
      if negb (opcode.is_control op) then mret (make_error_code invalid_opcode, Some out, s)
      else if limits.payload_size_basic <? Z.of_nat (length payload) then mret (make_error_code control_too_big, Some out, s)
      else
        let masked := negb (m_server s) in
        let '(key, s) := if masked : bool then (rng (m_rng s), set_rng (S (m_rng s)) s) else (0, s) in
        header ← make_header op (Z.of_nat (length payload)) true masked false key;
        o ← (if masked : bool then masked_copy payload (host_bytes 4 key) else mret payload);
        mret (None, Some (set_prepared true (set_opcode op (set_payload o (set_header header out)))), s)
  end.

Definition prepare_ping (in_ : list Z) (out : option message) (s : hybi13) := prepare_control opcode.ping in_ out s.
Definition prepare_pong (in_ : list Z) (out : option message) (s : hybi13) := prepare_control opcode.pong in_ out s.
Definition prepare_close (code : Z) (reason : list Z) (out : option message) (s : hybi13) :=
  if status.reserved code then mret (make_error_code reserved_close_code, out, s)
  else if status.invalid code && negb (code =? status.no_status) then mret (make_error_code invalid_close_code, out, s)
  else if (code =? status.no_status) && (0 <? Z.of_nat (length reason)) then mret (make_error_code reason_requires_code, out, s)
  else if limits.payload_size_basic - 2 <? Z.of_nat (length reason) then mret (make_error_code control_too_big, out, s)
  else
    let payload := if code =? status.no_status then [] else host_bytes 2 (htons code) ++ reason in
    prepare_control opcode.close payload out s.

(** What goes on the wire ([connection::write_push] and [write_frame]). *)
Definition wire (m : message) : list Z := m_header m ++ m_payload m.

(** ** Reading a close frame (close.hpp) *)
Definition extract_code (payload : list Z) : Z * option error_code :=
  match payload with
  | [] => (status.no_status, None)
  | [_] => (status.protocol_error, Some (library_ec error.bad_close_code))
  | c0 :: c1 :: _ =>
      let code := ntohs (host_val [c0; c1]) in
      let ec := if status.invalid code then Some (library_ec error.invalid_close_code) else None in
      (code, if status.reserved code then Some (library_ec error.reserved_close_code) else ec)
  end.
Definition extract_reason (payload : list Z) : res (list Z * option error_code) :=
  let reason := drop 2 payload in
  ok ← validate reason;
  mret (reason, if (ok : bool) then None else Some (library_ec error.invalid_utf8)).
End Processor.
