(* ===== verification/WsReceive.v ===== *)
(** * Receiving messages: theorems about [hybi13::consume]

    The processor never leaves its buffers and always returns; how the bytes of a
    connection are cut into reads does not matter; and the frames one end prepares are the
    messages the other end gets. *)

From S2P Require Import Prelude Bytes WsFrame Utf8 WsProcessor.

Open Scope Z_scope.

Ltac proc_simpl := cbn [m_server m_max_message_size m_basic_header m_bytes_needed m_cursor m_data_msg m_control_msg
  m_current_msg m_extended_header m_rng m_state m_permessage_deflate set_state set_needed set_cursor set_basic set_extended
  set_current set_rng set_deflate set_meta meta_of msg_ptr prepared_key utf8 mbind res_bind mret res_ret reset_headers].

Section Receive.
Context `{Machine} `{Deflate}.
Hypothesis deflate_off : ∀ d, is_enabled d = false.

(** ** The state of a processor that reported no error *)
Definition periodic (pk : Z) : Prop := ∃ kc off, length kc = 4%nat ∧ bytes_ok kc ∧ key_at kc off pk.
Definition msg_ok (w : which) (m : msg_metadata) : Prop :=
  ∀ msg, msg_ptr m = Some msg → bytes_ok (m_payload msg) ∧ valid_state (utf8 m) ∧ periodic (prepared_key m) ∧
  0 ≤ m_opcode msg < 16 ∧ opcode.is_control (m_opcode msg) = match w with Data => false | Control => true end.

Definition max_size : Z := 2 ^ (8 * Z.of_nat sizeof_size_t - 1) - 1.
Definition state_ok (s : hybi13) : Prop :=
  match m_state s with
  | HEADER_BASIC => 0 ≤ m_bytes_needed s ≤ 2
  | HEADER_EXTENDED =>
      0 ≤ m_bytes_needed s ∧ Z.of_nat (m_cursor s) + m_bytes_needed s = get_header_len (m_basic_header s) - 2 ∧
      (opcode.is_control (get_opcode (m_basic_header s)) = true → get_basic_size (m_basic_header s) ≤ 125)
  | APPLICATION | READY => 0 ≤ m_bytes_needed s < 256 ^ Z.of_nat sizeof_size_t ∧
      ∃ w msg, m_current_msg s = Some w ∧ msg_ptr (meta_of w s) = Some msg
  | EXTENSION | FATAL_ERROR => False
  end.

(** The state between two calls.  [ok_max]: the setter of the limit takes any value, and a limit above
    the largest size of a string lets [reserve] throw ([huge_limit_throws]). *)
Record proc_ok (s : hybi13) : Prop := {
  ok_max : 0 ≤ m_max_message_size s ≤ max_size;
  ok_ext_length : length (m_extended_header s) = 12%nat;
  ok_ext_bytes : bytes_ok (m_extended_header s);
  ok_b0 : byte_ok (b0 (m_basic_header s));
  ok_b1 : byte_ok (b1 (m_basic_header s));
  ok_data : msg_ok Data (m_data_msg s);
  ok_control : msg_ok Control (m_control_msg s);
  ok_state : state_ok s;
}.

Lemma size_t_id x : 0 ≤ x < 256 ^ Z.of_nat sizeof_size_t → size_t x = x.
Proof. apply Z.mod_small. Qed.
Lemma size_t_256 : 256 < 256 ^ Z.of_nat sizeof_size_t.
Proof. destruct size_t_ok as [-> | ->]; lia. Qed.

(** ** Absorbing bytes into the field being read *)
Definition put_basic_byte (s : hybi13) (x : Z) : hybi13 :=
  if m_bytes_needed s =? 2 then set_needed 1 (set_basic (mkBasic x (b1 (m_basic_header s))) s)
  else set_needed 0 (set_basic (mkBasic (b0 (m_basic_header s)) x) s).
Definition put_basic (l : list Z) (s : hybi13) : hybi13 := fold_left put_basic_byte l s.

Definition splice (e : list Z) (at_ : nat) (l : list Z) : list Z := take at_ e ++ l ++ drop (at_ + length l) e.
Definition set_read (needed : Z) (cursor : nat) (e : list Z) (s : hybi13) : hybi13 :=
  mkProc (m_server s) (m_max_message_size s) (m_basic_header s) needed cursor (m_data_msg s) (m_control_msg s)
    (m_current_msg s) e (m_rng s) (m_state s) (m_permessage_deflate s).
Definition put_ext (l : list Z) (s : hybi13) : hybi13 :=
  set_read (m_bytes_needed s - Z.of_nat (length l)) (m_cursor s + length l) (splice (m_extended_header s) (m_cursor s) l) s.

Definition unmask (masked : bool) (pk : Z) (l : list Z) : Z * list Z :=
  if masked then match byte_mask_circ None l (length l) pk with Ok r => r | Err _ => (pk, l) end else (pk, l).
Definition check_text (op : Z) (l : list Z) (v : validator) : bool * validator :=
  if op =? opcode.text then match decode l v with Ok r => r | Err _ => (false, v) end else (true, v).
Definition put_payload (l : list Z) (s : hybi13) : bool * hybi13 :=
  match m_current_msg s with
  | None => (false, s)
  | Some w =>
      let m := meta_of w s in
      match msg_ptr m with
      | None => (false, s)
      | Some msg =>
          let '(pk, l') := unmask (get_masked (m_basic_header s)) (prepared_key m) l in
          let '(ok, v) := check_text (m_opcode msg) l' (utf8 m) in
          (ok, set_needed (if ok then m_bytes_needed s - Z.of_nat (length l) else m_bytes_needed s)
            (set_meta w (mkMeta (Some (append_payload l' msg)) pk v) s))
      end
  end.

Lemma copy_basic_absorbs buf s :
  0 ≤ m_bytes_needed s ≤ 2 →
  let k := Nat.min (Z.to_nat (m_bytes_needed s)) (length buf) in
  copy_basic_header_bytes buf s = Ok (k, put_basic (take k buf) s).
Proof.
  intros Hn. destruct buf as [|x buf]; [cbn zeta; by rewrite Nat.min_0_r|].
  assert (m_bytes_needed s = 0 ∨ m_bytes_needed s = 1 ∨ m_bytes_needed s = 2) as [E|[E|E]] by lia;
    destruct buf as [|y buf]; unfold copy_basic_header_bytes; rewrite E;
    change (Z.to_nat 0) with 0%nat; change (Z.to_nat 1) with 1%nat; change (Z.to_nat 2) with 2%nat; try done;
    simpl; unfold put_basic, put_basic_byte; simpl; unfold put_basic_byte; simpl; rewrite ?E; simpl;
    rewrite size_t_small by lia; done.
Qed.
Lemma copy_ext_absorbs buf s :
  0 ≤ m_bytes_needed s → (Z.of_nat (m_cursor s) + m_bytes_needed s ≤ Z.of_nat (length (m_extended_header s))) →
  Z.of_nat (length (m_extended_header s)) < 256 →
  let k := Nat.min (Z.to_nat (m_bytes_needed s)) (length buf) in
  copy_extended_header_bytes buf s = Ok (k, put_ext (take k buf) s).
Proof.
  intros Hn Hc Hl k. unfold copy_extended_header_bytes. replace (Z.to_nat (Z.min _ _)) with k by lia.
  assert (Hk : length (take k buf) = k) by (rewrite length_take; lia).
  rewrite load_range_ok, drop_0 by lia. cbn [mbind res_bind]. rewrite store_range_ok by lia. proc_simpl.
  pose proof size_t_256. rewrite size_t_id by lia. unfold put_ext, splice. rewrite Hk.
  replace (Z.min (m_bytes_needed s) (Z.of_nat (length buf))) with (Z.of_nat k) by lia. by destruct s.
Qed.

Lemma periodic_unmask pk l masked : periodic pk → bytes_ok l →
  (masked = true → byte_mask_circ None l (length l) pk = Ok (unmask masked pk l)) ∧
  periodic (unmask masked pk l).1 ∧ bytes_ok (unmask masked pk l).2 ∧ length (unmask masked pk l).2 = length l.
Proof.
  intros (kc & off & Hk & Hkb & Hat) Hl. unfold unmask. destruct masked; [|split_and!; [done|by exists kc, off|done..]].
  destruct (byte_mask_circ_spec None l (length l) kc off pk) as (pk' & E & Hat'); [done..|]. change (source_of None l) with l in E.
  rewrite take_ge, drop_ge, app_nil_r in E by lia. rewrite E. split_and!; [done|by exists kc, (off + length l)%nat|by apply mask_spec_ok|apply mask_spec_length].
Qed.

(** The loop masks the first bytes of the buffer and leaves the others. *)
Lemma byte_mask_circ_prefix buf len pk : (len ≤ length buf)%nat → periodic pk → bytes_ok buf →
  byte_mask_circ None buf len pk = Ok ((unmask true pk (take len buf)).1, (unmask true pk (take len buf)).2 ++ drop len buf).
Proof.
  intros Hl (kc & off & Hk & Hkb & Hat) Hb.
  destruct (byte_mask_circ_spec None buf len kc off pk) as (pk' & E & Hat'); [done..|].
  destruct (byte_mask_circ_spec None (take len buf) (length (take len buf)) kc off pk) as (pk2 & E2 & _); [done..|].
  unfold unmask. rewrite E2, E. change (source_of None ?l) with l. cbn [fst snd].
  rewrite (take_ge (take len buf)), (drop_ge (take len buf)), app_nil_r by lia. repeat f_equal.
  assert (length (take len buf) = len) as Hlen by (rewrite length_take; lia). rewrite Hlen in E2.
  unfold byte_mask_circ in E, E2. destruct (mask_bytes _ _ _ _ _ buf), (mask_bytes _ _ _ _ _ (take len buf)); try discriminate;
    unfold mbind, res_bind, mret, res_ret in E, E2; congruence.
Qed.

Lemma check_text_total op l v : bytes_ok l → valid_state v →
  (op = opcode.text → decode l v = Ok (check_text op l v)) ∧ valid_state (check_text op l v).2.
Proof.
  intros Hl Hv. unfold check_text. destruct (decode_total l v Hl Hv) as (ok & v' & E & Hv'). rewrite E.
  case_match; [done|]. split; [|done]. intros ->. done.
Qed.

Lemma payload_absorbs buf len s w msg :
  m_current_msg s = Some w → msg_ptr (meta_of w s) = Some msg → msg_ok w (meta_of w s) →
  (len ≤ length buf)%nat → bytes_ok buf → Z.of_nat len ≤ m_bytes_needed s < 256 ^ Z.of_nat sizeof_size_t →
  ∃ buf', length buf' = length buf ∧ bytes_ok buf' ∧ drop len buf' = drop len buf ∧
  process_payload_bytes buf len s =
    let '(ok, s') := put_payload (take len buf) s in
    Ok (if ok then len else 0%nat, buf', if ok then None else make_error_code invalid_utf8, s').
Proof.
  intros Hw Hm Hok Hl Hb Hn. destruct (Hok msg Hm) as (Hp & Hv & Hper & Hop & Hctl).
  set (l := take len buf). assert (Hll : length l = len) by (unfold l; rewrite length_take; lia).
  assert (Hlb : bytes_ok l) by (by apply Forall_take).
  destruct (periodic_unmask (prepared_key (meta_of w s)) l (get_masked (m_basic_header s)) Hper Hlb) as (_ & _ & Hub & Hul).
  set (buf' := (unmask (get_masked (m_basic_header s)) (prepared_key (meta_of w s)) l).2 ++ drop len buf).
  exists buf'. split; [unfold buf'; rewrite length_app, Hul, length_drop; lia|].
  split; [apply Forall_app; split; [done|by apply Forall_drop]|].
  split; [unfold buf'; apply drop_app_length'; lia|].
  assert (Hct : ∀ d, bytes_ok d → (m_opcode msg = opcode.text → decode d (utf8 (meta_of w s)) = Ok (check_text (m_opcode msg) d (utf8 (meta_of w s))))).
  { intros d Hd. by apply check_text_total. }
  assert (Hmask : (if get_masked (m_basic_header s) then byte_mask_circ None buf len (prepared_key (meta_of w s))
    else Ok (prepared_key (meta_of w s), buf)) =
    Ok ((unmask (get_masked (m_basic_header s)) (prepared_key (meta_of w s)) l).1, buf')).
  { unfold buf'. destruct (get_masked (m_basic_header s)); [by apply byte_mask_circ_prefix|]. cbn [unmask fst snd]. unfold l. by rewrite take_drop. }
  assert (Hrange : load_range buf' 0 len = Ok (unmask (get_masked (m_basic_header s)) (prepared_key (meta_of w s)) l).2).
  { rewrite load_range_ok by (unfold buf'; rewrite length_app, length_drop; lia).
    rewrite drop_0. unfold buf'. rewrite take_app_length'; [done|lia]. }
  clearbody buf'. unfold process_payload_bytes, current, put_payload. rewrite Hw, Hm.
  destruct (unmask (get_masked (m_basic_header s)) (prepared_key (meta_of w s)) l) as [pk' l'] eqn:Eu. simpl in Hmask, Hrange, Hub, Hul.
  specialize (Hct l' Hub). cbn [mbind res_bind].
  assert (Hstep : (if get_masked (m_basic_header s)
    then '(key, buf) ← byte_mask_circ None buf len (prepared_key (meta_of w s));
         mret (buf, set_meta w (mkMeta (msg_ptr (meta_of w s)) key (utf8 (meta_of w s))) s)
    else mret (buf, s)) = Ok (buf', set_meta w (mkMeta (Some msg) pk' (utf8 (meta_of w s))) s)).
  { destruct (get_masked _); [rewrite Hmask; cbn [mbind res_bind]; by rewrite Hm|]. injection Hmask as <- <-.
    rewrite <- Hm. by destruct s as [? ? ? ? ? [] [] ? ? ? ? ?], w. }
  cbn [mbind res_bind] in Hstep. rewrite Hstep. clear Hstep Hmask Hok.
  destruct w, s as [sv mx bh nd cu [mp pk v] [mp2 pk2 v2] cw eh rn st df]; simpl in *; subst mp || subst mp2; rewrite Hrange; cbn [mbind res_bind];
    rewrite deflate_off; cbn [andb mbind res_bind mret res_ret]; unfold check_text in *; destruct (m_opcode msg =? opcode.text) eqn:Et;
    rewrite ?drop_app_length, ?Hct by lia; cbn [mbind res_bind];
    try (destruct (decode l' _) as [[[] ?]|]; cbn [mbind res_bind]); unfold mbind, mret, res_bind, res_ret; simpl;
    rewrite ?Hll, ?size_t_id by lia; try done; by specialize (Hct (proj1 (Z.eqb_eq _ _) Et)).
Qed.

(** *** Absorbing two pieces one after the other *)
Lemma put_basic_app a b s : put_basic (a ++ b) s = put_basic b (put_basic a s).
Proof. apply fold_left_app. Qed.

Lemma splice_length e n l : (n + length l ≤ length e)%nat → length (splice e n l) = length e.
Proof. apply store_range_length. Qed.
Lemma put_ext_app a b s :
  (m_cursor s + length (a ++ b) ≤ length (m_extended_header s))%nat → put_ext (a ++ b) s = put_ext b (put_ext a s).
Proof.
  rewrite length_app. intros Hl. unfold put_ext, set_read. proc_simpl. rewrite length_app.
  f_equal; [lia|lia|]. unfold splice. rewrite length_app.
  rewrite <- !app_assoc. rewrite take_app_ge by (rewrite length_take; lia). rewrite length_take.
  replace (m_cursor s + length a - (m_cursor s `min` length (m_extended_header s)))%nat with (length a) by lia.
  rewrite take_app_length, <- app_assoc. do 2 f_equal. f_equal.
  rewrite drop_app_ge, length_take by (rewrite length_take; lia). rewrite drop_app_ge by lia. rewrite drop_drop. f_equal. lia.
Qed.

Lemma key_at_unique kc off pk1 pk2 : key_at kc off pk1 → key_at kc off pk2 → pk1 = pk2.
Proof.
  intros [H1 Ha1] [H2 Ha2]. rewrite <- (host_val_bytes _ pk1 H1), <- (host_val_bytes _ pk2 H2). f_equal. apply list_eq. intros i.
  destruct (decide (i < sizeof_size_t)%nat); [by rewrite Ha1, Ha2|].
  rewrite !lookup_ge_None_2; [done|rewrite host_bytes_length; lia..].
Qed.
Lemma unmask_app m pk a b : periodic pk → bytes_ok a → bytes_ok b →
  unmask m pk (a ++ b) = (let '(pk1, a') := unmask m pk a in let '(pk2, b') := unmask m pk1 b in (pk2, a' ++ b')).
Proof.
  intros (kc & off & Hk & Hkb & Hat) Ha Hb. unfold unmask. destruct m; [|done].
  destruct (byte_mask_circ_spec None (a ++ b) (length (a ++ b)) kc off pk) as (pk' & -> & Hat'); [done..|].
  destruct (byte_mask_circ_spec None a (length a) kc off pk) as (pk1 & -> & Hat1); [done..|].
  destruct (byte_mask_circ_spec None b (length b) kc (off + length a) pk1) as (pk2 & -> & Hat2); [done..|].
  change (source_of None ?l) with l. rewrite !(take_ge _ (length _)), !(drop_ge _ (length _)), !app_nil_r by lia.
  rewrite mask_spec_app. f_equal. eapply key_at_unique; [done|]. by rewrite length_app, Nat.add_assoc.
Qed.
Lemma check_text_app op a b v : bytes_ok a → bytes_ok b → valid_state v →
  match check_text op a v with
  | (true, v1) => check_text op (a ++ b) v = check_text op b v1
  | (false, _) => (check_text op (a ++ b) v).1 = false
  end.
Proof.
  intros Ha Hb Hv. unfold check_text. destruct (op =? opcode.text); [|done]. rewrite decode_app.
  destruct (decode_total a v Ha Hv) as (ok & v1 & -> & Hv1). cbn [mbind res_bind].
  destruct ok; [|done]. by destruct (decode_total b v1 Hb Hv1) as (? & ? & -> & _).
Qed.

Lemma put_payload_app a b s w msg :
  m_current_msg s = Some w → msg_ptr (meta_of w s) = Some msg → msg_ok w (meta_of w s) → bytes_ok a → bytes_ok b →
  match put_payload a s with
  | (true, s1) => (put_payload (a ++ b) s).1 = (put_payload b s1).1 ∧
      ((put_payload (a ++ b) s).1 = true → put_payload (a ++ b) s = put_payload b s1)
  | (false, _) => (put_payload (a ++ b) s).1 = false
  end.
Proof.
  intros Hw Hm Hok Ha Hb. destruct (Hok msg Hm) as (Hp & Hv & Hper & Hop & Hctl).
  unfold put_payload. rewrite Hw, Hm, unmask_app by done.
  destruct (periodic_unmask _ a (get_masked (m_basic_header s)) Hper Ha) as (_ & Hper1 & Hub & Hul).
  destruct (unmask _ _ a) as [pk1 a'] eqn:Ea. simpl in Hper1, Hub, Hul.
  destruct (periodic_unmask _ b (get_masked (m_basic_header s)) Hper1 Hb) as (_ & _ & Hub2 & Hul2).
  destruct (unmask _ pk1 b) as [pk2 b'] eqn:Eb. simpl in Hub2, Hul2.
  pose proof (check_text_app (m_opcode msg) a' b' _ Hub Hub2 Hv) as Hc.
  destruct (check_text _ a' _) as [[] v1] eqn:Ec; simpl.
  2: { destruct (check_text _ (a' ++ b') _) as [ok v2]. by simpl in *. }
  rewrite Hc, Hw.
  destruct w; proc_simpl; rewrite Eb; cbn [append_payload set_payload m_opcode m_payload];
    (destruct (check_text _ b' v1) as [[] v2]; (split; [done|]); intros; [|done]);
    unfold set_needed, set_meta; proc_simpl; rewrite length_app; unfold append_payload, set_payload;
    cbn [m_payload m_header m_extension_data m_opcode m_prepared m_fin m_terminal m_compressed]; rewrite app_assoc; do 2 f_equal; lia.
Qed.

(** ** One turn of the loop *)
Definition put (l : list Z) (s : hybi13) : bool * hybi13 :=
  match m_state s with
  | HEADER_BASIC => (true, put_basic l s)
  | HEADER_EXTENDED => (true, put_ext l s)
  | APPLICATION => put_payload l s
  | _ => (true, s)
  end.
(** What happens when the field is complete. *)
Definition field_done (s : hybi13) : res (option error_code * hybi13) :=
  match m_state s with
  | HEADER_BASIC =>
      let new_msg := match msg_ptr (m_data_msg s) with None => true | Some _ => false end in
      match validate_incoming_basic_header s (m_basic_header s) (m_server s) new_msg with
      | Some ec => Ok (Some ec, s)
      | None => Ok (None, set_needed (size_t (get_header_len (m_basic_header s) - BASIC_HEADER_LENGTH)) (set_cursor 0 (set_state HEADER_EXTENDED s)))
      end
  | HEADER_EXTENDED =>
      ec ← validate_incoming_extended_header (m_basic_header s) (m_extended_header s);
      match ec with
      | Some ec => Ok (Some ec, s)
      | None => size ← get_payload_size (m_basic_header s) (m_extended_header s);
          start_payload (set_needed (size_t size) (set_state APPLICATION s))
      end
  | _ => if get_fin (m_basic_header s) then finalize_message s else Ok (None, reset_headers s)
  end.
Definition reading (s : hybi13) : Prop := m_state s = HEADER_BASIC ∨ m_state s = HEADER_EXTENDED ∨ m_state s = APPLICATION.

Lemma put_payload_nil s w msg :
  m_current_msg s = Some w → msg_ptr (meta_of w s) = Some msg → put_payload [] s = (true, s).
Proof.
  intros Hw Hm. unfold put_payload. rewrite Hw, Hm.
  assert (unmask (get_masked (m_basic_header s)) (prepared_key (meta_of w s)) [] = (prepared_key (meta_of w s), [])) as ->
    by (unfold unmask; by destruct (get_masked _)).
  assert (check_text (m_opcode msg) [] (utf8 (meta_of w s)) = (true, utf8 (meta_of w s))) as -> by (unfold check_text; by case_match).
  f_equal. unfold append_payload. rewrite app_nil_r. change (Z.of_nat (length [])) with 0. rewrite Z.sub_0_r.
  assert (set_payload (m_payload msg) msg = msg) as -> by (by destruct msg).
  rewrite <- Hm. destruct s as [? ? ? ? ? [] [] ? ? ? ? ?], w; done.
Qed.

Lemma masking_key_offset_range h : get_masking_key_offset h = 0 ∨ get_masking_key_offset h = 2 ∨ get_masking_key_offset h = 8.
Proof. unfold get_masking_key_offset. repeat case_match; auto. Qed.
Lemma header_len_range h : get_header_len h = 2 + get_masking_key_offset h + (if get_masked h then 4 else 0) ∧ 2 ≤ get_header_len h ≤ 14.
Proof.
  unfold get_header_len, BASIC_HEADER_LENGTH. destruct (masking_key_offset_range h) as [-> | [-> | ->]]; destruct (get_masked h); lia.
Qed.

Lemma consume_step_turn p buf s :
  proc_ok s → bytes_ok buf → (p ≤ length buf)%nat → reading s →
  let k := Nat.min (Z.to_nat (m_bytes_needed s)) (length buf - p) in
  let '(ok, s1) := put (take k (drop p buf)) s in
  ∃ buf', length buf' = length buf ∧ bytes_ok buf' ∧ drop (p + k) buf' = drop (p + k) buf ∧
  consume_step p buf s =
    if ok then
      if 0 <? m_bytes_needed s1 then Ok ((p + k)%nat, buf', None, s1)
      else '(ec, s2) ← field_done s1; Ok ((p + k)%nat, buf', ec, s2)
    else Ok (p, buf', make_error_code invalid_utf8, s1).
Proof.
  intros Hok Hb Hp Hr k. pose proof (ok_state s Hok) as Hst. unfold state_ok in Hst. unfold put, consume_step.
  assert (Hlen : (length (drop p buf) = length buf - p)%nat) by apply length_drop.
  destruct Hr as [E|[E|E]]; rewrite E in *.
  - unfold consume_header_basic. rewrite copy_basic_absorbs, Hlen by lia. exists buf. do 3 (split; [done|]).
    cbn [mbind res_bind]. fold k. set (s1 := put_basic _ s). assert (E1 : m_state s1 = HEADER_BASIC).
    { unfold s1, put_basic. generalize (take k (drop p buf)). intros l. clear -E. revert s E.
      induction l as [|x l IH]; intros s E; [done|]. apply IH. unfold put_basic_byte. by case_match. }
    unfold field_done. rewrite E1. case_match; [done|]. by case_match.
  - unfold consume_header_extended. pose proof (header_len_range (m_basic_header s)) as [_ Hh]. pose proof (ok_ext_length s Hok).
    rewrite copy_ext_absorbs, Hlen by lia. exists buf. do 3 (split; [done|]). cbn [mbind res_bind]. fold k.
    unfold field_done. change (m_state (put_ext _ s)) with (m_state s). rewrite E. case_match; [done|].
    destruct (validate_incoming_extended_header _ _) as [[ec|]|]; cbn [mbind res_bind]; [done| |done].
    destruct (get_payload_size _ _) as [size|]; cbn [mbind res_bind]; done.
  - destruct Hst as (Hn & w & msg & Hw & Hm). unfold consume_application.
    replace (Z.to_nat (Z.min _ _)) with k by lia.
    assert (Hrest : ∀ s1 buf', m_state s1 = APPLICATION → (if 0 <? m_bytes_needed s1 then @Ok step_result ((p + k)%nat, buf', None, s1)
      else if get_fin (m_basic_header s1) then '(ec, s) ← finalize_message s1; Ok ((p + k)%nat, buf', ec, s) else Ok ((p + k)%nat, buf', None, reset_headers s1))
      = if 0 <? m_bytes_needed s1 then Ok ((p + k)%nat, buf', None, s1) else '(ec, s2) ← field_done s1; Ok ((p + k)%nat, buf', ec, s2)).
    { intros s1 buf' E1. case_match; [done|]. unfold field_done. rewrite E1. by destruct (get_fin _). }
    destruct (decide (k = 0%nat)) as [Hk|Hk].
    + replace (take k (drop p buf)) with (@nil Z) by (by rewrite Hk, take_0). rewrite (put_payload_nil s w msg Hw Hm). exists buf. do 3 (split; [done|]).
      rewrite (proj2 (Nat.ltb_ge 0 k)) by lia. cbn [mbind res_bind]. rewrite <- Hrest by done. rewrite Hk, Nat.add_0_r. done.
    + destruct (payload_absorbs (drop p buf) k s w msg) as (tail & Ht1 & Ht2 & Ht3 & Heq); [done|done| |lia|by apply Forall_drop|lia|].
      { destruct w; apply Hok. }
      destruct (put_payload (take k (drop p buf)) s) as [ok s1] eqn:Ep. exists (take p buf ++ tail).
      split; [rewrite length_app, length_take, Ht1, Hlen; lia|]. split; [apply Forall_app; split; [by apply Forall_take|done]|].
      split. { rewrite drop_app_ge by (rewrite length_take; lia). rewrite length_take.
        replace (p + k - p `min` length buf)%nat with k by lia. rewrite Ht3, drop_drop. done. }
      rewrite (proj2 (Nat.ltb_lt 0 k)) by lia. rewrite Heq. destruct ok; cbn [mbind res_bind mret res_ret]; [|by rewrite Nat.add_0_r].
      apply Hrest. unfold put_payload in Ep. rewrite Hw, Hm in Ep.
      destruct (unmask _ _ _), (check_text _ _ _). inversion Ep. done.
Qed.

(** *** The invariant is kept *)
Lemma put_basic_ok l s : proc_ok s → m_state s = HEADER_BASIC → bytes_ok l → Z.of_nat (length l) ≤ m_bytes_needed s →
  proc_ok (put_basic l s) ∧ m_state (put_basic l s) = HEADER_BASIC ∧ m_bytes_needed (put_basic l s) = m_bytes_needed s - Z.of_nat (length l).
Proof.
  intros Hok Hs Hl. revert s Hok Hs. induction Hl as [|x l Hx Hl IH]; intros s Hok Hs Hn; [cbn; split_and!; [done|done|lia]|].
  assert (Hn' : m_bytes_needed (put_basic_byte s x) = m_bytes_needed s - 1).
  { pose proof (ok_state s Hok) as Hst. unfold state_ok in Hst. rewrite Hs in Hst. cbn [length] in Hn.
    unfold put_basic_byte. destruct (m_bytes_needed s =? 2) eqn:E; simpl; lia. }
  assert (Hok' : proc_ok (put_basic_byte s x)).
  { pose proof Hok as [? ? ? ? ? ? ? Hst]. unfold state_ok in Hst. rewrite Hs in Hst. cbn [length] in Hn.
    split; try (unfold put_basic_byte; by case_match).
    unfold state_ok. replace (m_state (put_basic_byte s x)) with HEADER_BASIC by (unfold put_basic_byte; by case_match).
    rewrite Hn'. lia. }
  destruct (IH (put_basic_byte s x)) as (H1 & H2 & H3); [done|unfold put_basic_byte; by case_match|cbn [length] in Hn; lia|].
  change (put_basic (x :: l) s) with (put_basic l (put_basic_byte s x)). split_and!; [done|done|]. cbn [length]. lia.
Qed.
Lemma put_ext_ok l s : proc_ok s → m_state s = HEADER_EXTENDED → bytes_ok l → Z.of_nat (length l) ≤ m_bytes_needed s →
  proc_ok (put_ext l s).
Proof.
  intros [H1 H2 H3 H4 H5 H6 H7 Hst] Hs Hl Hn. unfold state_ok in Hst. rewrite Hs in Hst. destruct Hst as (? & Hc & Hctl).
  pose proof (header_len_range (m_basic_header s)) as [_ ?]. split; try done.
  - simpl. rewrite splice_length by lia. done.
  - simpl. unfold splice. apply Forall_app. split; [by apply Forall_take|]. apply Forall_app. split; [done|by apply Forall_drop].
  - unfold state_ok. simpl. rewrite Hs. split_and!; [lia|lia|done].
Qed.

Lemma meta_ok w s : proc_ok s → msg_ok w (meta_of w s).
Proof. intros Hok. destruct w; apply Hok. Qed.
Lemma put_payload_ok l s s1 : proc_ok s → m_state s = APPLICATION → bytes_ok l → Z.of_nat (length l) ≤ m_bytes_needed s →
  put_payload l s = (true, s1) → proc_ok s1 ∧ m_state s1 = APPLICATION ∧ m_bytes_needed s1 = m_bytes_needed s - Z.of_nat (length l).
Proof.
  intros Hok Hs Hl Hn Hp. pose proof (ok_state s Hok) as Hst. unfold state_ok in Hst. rewrite Hs in Hst. destruct Hst as (Hr & w & msg & Hw & Hm).
  destruct (meta_ok w s Hok msg Hm) as (Hpl & Hv & Hper & Hop & Hctl).
  unfold put_payload in Hp. rewrite Hw, Hm in Hp.
  destruct (periodic_unmask _ l (get_masked (m_basic_header s)) Hper Hl) as (_ & Hper1 & Hub & Hul).
  destruct (unmask _ _ l) as [pk l']. simpl in Hper1, Hub, Hul.
  destruct (check_text_total (m_opcode msg) l' _ Hub Hv) as [_ Hv'].
  destruct (check_text _ l' _) as [ok v]. inversion Hp. subst s1 ok. simpl in Hv'.
  assert (Hnew : msg_ok w (mkMeta (Some (append_payload l' msg)) pk v)).
  { intros m [= <-]. cbn. split_and!; try done; try lia. by apply Forall_app. }
  split; [|split; [done|simpl; lia]]. destruct Hok as [? ? ? ? ? ? ? _]. split; try done; try (by destruct w).
  unfold state_ok. simpl. rewrite Hs. split; [lia|]. exists w, (append_payload l' msg). split; [done|by destruct w].
Qed.

Lemma put_ok l s s1 : proc_ok s → reading s → bytes_ok l → Z.of_nat (length l) ≤ m_bytes_needed s → put l s = (true, s1) →
  proc_ok s1 ∧ m_state s1 = m_state s ∧ m_bytes_needed s1 = m_bytes_needed s - Z.of_nat (length l).
Proof.
  intros Hok Hr Hl Hn Hp. unfold put in Hp. destruct Hr as [E|[E|E]]; rewrite E in *.
  - injection Hp as <-. by apply put_basic_ok.
  - injection Hp as <-. split; [by apply put_ext_ok|done].
  - by apply put_payload_ok.
Qed.
(** Absorbing in two pieces, when the first is accepted. *)
Lemma put_app a b s s1 : proc_ok s → reading s → bytes_ok a → bytes_ok b → Z.of_nat (length (a ++ b)) ≤ m_bytes_needed s →
  put a s = (true, s1) → (put (a ++ b) s).1 = (put b s1).1 ∧ ((put (a ++ b) s).1 = true → put (a ++ b) s = put b s1).
Proof.
  intros Hok Hr Ha Hb Hn Hp. destruct (put_ok a s s1) as (_ & Es & _); [done..|rewrite length_app in Hn; lia|done|]. unfold put in *. rewrite Es in *.
  pose proof (ok_state s Hok) as Hst. unfold state_ok in Hst. destruct Hr as [E|[E|E]]; rewrite E in *.
  - injection Hp as <-. by rewrite put_basic_app.
  - injection Hp as <-. rewrite put_ext_app; [done|]. rewrite (ok_ext_length s Hok).
    pose proof (header_len_range (m_basic_header s)) as [_ ?]. destruct Hst as (? & ? & _). lia.
  - destruct Hst as (_ & w & msg & Hw & Hm). pose proof (put_payload_app a b s w msg Hw Hm (meta_ok w s Hok) Ha Hb) as Hx. by rewrite Hp in Hx.
Qed.
Lemma put_app_false a b s : proc_ok s → reading s → bytes_ok a → bytes_ok b → (put a s).1 = false → (put (a ++ b) s).1 = false.
Proof.
  intros Hok Hr Ha Hb Hp. unfold put in *. pose proof (ok_state s Hok) as Hst. unfold state_ok in Hst.
  destruct Hr as [E|[E|E]]; rewrite E in *; [done..|].
  destruct Hst as (_ & w & msg & Hw & Hm). pose proof (put_payload_app a b s w msg Hw Hm (meta_ok w s Hok) Ha Hb) as Hx.
  by destruct (put_payload a s) as [[] ?].
Qed.

Lemma get_opcode_range h : byte_ok (b0 h) → 0 ≤ get_opcode h < 16.
Proof.
  intros Hb. unfold get_opcode, BHB0_OPCODE. change 15 with (Z.ones 4). rewrite Z.land_ones by lia. change (2 ^ 4) with 16. apply Z.mod_pos_bound. lia.
Qed.
Lemma basic_size_range h : byte_ok (b1 h) → 0 ≤ get_basic_size h < 128.
Proof.
  intros Hb. unfold get_basic_size, BHB1_PAYLOAD. change 127 with (Z.ones 7). rewrite Z.land_ones by lia. change (2 ^ 7) with 128. apply Z.mod_pos_bound. lia.
Qed.
Lemma payload_size_total h e : byte_ok (b1 h) → length e = 12%nat → bytes_ok e →
  ∃ size, get_payload_size h e = Ok size ∧ 0 ≤ size ∧ (get_basic_size h ≤ 125 → size = get_basic_size h).
Proof.
  intros Hb Hl He. pose proof (basic_size_range h Hb). unfold get_payload_size, limits.payload_size_basic.
  destruct (get_basic_size h <=? 125) eqn:E; [exists (get_basic_size h); split_and!; [done|lia|done]|].
  destruct (get_basic_size h =? payload_size_code_16bit).
  - unfold get_extended_size. rewrite load_range_ok by lia. cbn [mbind res_bind mret res_ret]. eexists. split; [done|]. split; [|lia].
    rewrite drop_0, ntohs_val; [|rewrite length_take; lia|by apply Forall_take]. apply le_val_bound. by apply Forall_rev, Forall_take.
  - unfold get_jumbo_size, _ntohll. rewrite load_range_ok by lia. cbn [mbind res_bind mret res_ret]. eexists. split; [done|]. split; [|lia].
    rewrite drop_0, htonll_val; [|rewrite length_take; lia|by apply Forall_take]. apply le_val_bound. by apply Forall_rev, Forall_take.
Qed.
Lemma masking_key_total h e : length e = 12%nat → bytes_ok e →
  ∃ key, get_masking_key h e = Ok key ∧ length key = 4%nat ∧ bytes_ok key.
Proof.
  intros Hl He. unfold get_masking_key. destruct (get_masked h).
  - rewrite load_range_ok by (destruct (masking_key_offset_range h) as [-> | [-> | ->]]; lia). eexists. split; [done|].
    split; [rewrite length_take, length_drop; destruct (masking_key_offset_range h) as [-> | [-> | ->]]; lia|by apply Forall_take, Forall_drop].
  - eexists. split; [done|]. split; [apply host_bytes_length|apply host_bytes_ok].
Qed.

(** *** A complete field is always handled, and the invariant kept *)
Lemma control_size s is_server new_msg : byte_ok (b1 (m_basic_header s)) →
  validate_incoming_basic_header s (m_basic_header s) is_server new_msg = None →
  opcode.is_control (get_opcode (m_basic_header s)) = true → get_basic_size (m_basic_header s) ≤ 125.
Proof.
  intros Hb Hv Hc. unfold validate_incoming_basic_header in Hv. rewrite Hc in Hv. cbn [andb] in Hv.
  unfold limits.payload_size_basic in Hv. destruct (125 <? get_basic_size (m_basic_header s)) eqn:E; [done|lia].
Qed.

Lemma field_done_basic s : proc_ok s → m_state s = HEADER_BASIC → ∃ ec s2, field_done s = Ok (ec, s2) ∧
  (ec = None → proc_ok s2 ∧ m_state s2 = HEADER_EXTENDED).
Proof.
  intros Hok Hs. unfold field_done. rewrite Hs.
  destruct (validate_incoming_basic_header _ _ _ _) as [ec|] eqn:Ev; [by eexists _, _|].
  eexists _, _. split; [done|]. intros _. split; [|done].
  pose proof (header_len_range (m_basic_header s)) as [_ Hh]. pose proof size_t_256. unfold BASIC_HEADER_LENGTH.
  rewrite size_t_id by lia. destruct Hok as [? ? ? ? ? ? ? _]. split; try done.
  unfold state_ok. simpl. split_and!; [lia|lia|]. by eapply control_size.
Qed.

Lemma new_message_ok op size : size ≤ max_size → new_message op size = Ok (mkMessage [] [] [] op false true false false).
Proof. intros Hs. unfold new_message, reserve. by rewrite (proj2 (Z.leb_le _ _)). Qed.
Lemma fresh_meta_ok w m key : m_payload m = [] → 0 ≤ m_opcode m < 16 →
  opcode.is_control (m_opcode m) = (match w with Data => false | Control => true end) →
  length key = 4%nat → bytes_ok key → msg_ok w (new_metadata m key).
Proof.
  intros Hp Hop Hc Hk Hkb m' [= <-]. rewrite Hp. cbn. split_and!; try done; try lia; [by apply Forall_nil|].
  exists key, 0%nat. split_and!; [done|done|by apply prepare_key_at].
Qed.
Lemma max_size_ge : 125 ≤ max_size < 256 ^ Z.of_nat sizeof_size_t.
Proof. unfold max_size. destruct size_t_ok as [-> | ->]; simpl; lia. Qed.

Lemma start_payload_ok s : proc_ok (set_needed 2 (set_state HEADER_BASIC s)) → m_state s = APPLICATION → 0 ≤ m_bytes_needed s < 256 ^ Z.of_nat sizeof_size_t →
  (opcode.is_control (get_opcode (m_basic_header s)) = true → m_bytes_needed s ≤ 125) →
  ∃ ec s2, start_payload s = Ok (ec, s2) ∧ (ec = None → proc_ok s2 ∧ m_state s2 = APPLICATION).
Proof.
  intros [H1 H2 H3 H4 H5 H6 H7 _] Hs Hn Hc. simpl in *. pose proof max_size_ge. pose proof (get_opcode_range _ H4) as Hop.
  destruct (masking_key_total (m_basic_header s) (m_extended_header s) H2 H3) as (key & Hkey & Hk & Hkb).
  unfold start_payload. rewrite Hkey. cbn [mbind res_bind].
  assert (Hfin : ∀ w meta s', s' = set_current (Some w) (set_meta w meta s) → msg_ok w meta → (∃ msg, msg_ptr meta = Some msg) → proc_ok s' ∧ m_state s' = APPLICATION).
  { intros w meta s' -> Hm [msg Hmsg]. split; [|done]. split; try done; [by destruct w..|]. unfold state_ok. simpl. rewrite Hs.
    split; [done|]. exists w, msg. split; [done|by destruct w]. }
  destruct (opcode.is_control _) eqn:Ec.
  { specialize (Hc eq_refl). rewrite new_message_ok by lia. eexists _, _. split; [done|]. intros _.
    eapply Hfin; [done|by apply fresh_meta_ok|by eexists]. }
  destruct (msg_ptr (m_data_msg s)) as [msg|] eqn:Em.
  - destruct (m_max_message_size s <? _) eqn:El; [by eexists _, _|]. unfold reserve. rewrite (proj2 (Z.leb_le _ _)) by (unfold max_size in *; lia).
    eexists _, _. split; [done|]. intros _. eapply Hfin; [done| |by eexists].
    intros m [= <-]. destruct (H6 msg Em) as (? & ? & ? & ? & ?). split_and!; try done; try lia. exists key, 0%nat. split_and!; [done|done|by apply prepare_key_at].
  - destruct (m_max_message_size s <? _) eqn:El; [by eexists _, _|]. rewrite new_message_ok by lia. cbn [mbind res_bind]. rewrite deflate_off.
    eexists _, _. split; [done|]. intros _. eapply Hfin; [done|by apply fresh_meta_ok|by eexists].
Qed.

Lemma field_done_extended s : proc_ok s → m_state s = HEADER_EXTENDED → ∃ ec s2, field_done s = Ok (ec, s2) ∧
  (ec = None → proc_ok s2 ∧ m_state s2 = APPLICATION).
Proof.
  intros Hok Hs. pose proof Hok as [H1 H2 H3 H4 H5 H6 H7 Hst]. unfold state_ok in Hst. rewrite Hs in Hst. destruct Hst as (_ & _ & Hc).
  destruct (payload_size_total (m_basic_header s) (m_extended_header s) H5 H2 H3) as (size & Hsize & Hpos & Hsmall).
  unfold field_done. rewrite Hs. unfold validate_incoming_extended_header. rewrite Hsize. cbn [mbind res_bind mret res_ret].
  destruct (if _ && _ then _ else _) as [ec|]; [by eexists _, _|]. apply start_payload_ok; [split; try done| |apply size_t_range|].
  - done.
  - simpl. intros Hctl. specialize (Hc Hctl). rewrite Hsmall by done. pose proof (basic_size_range _ H5). pose proof size_t_256. rewrite size_t_id by lia. lia.
Qed.

Lemma reset_headers_ok s : proc_ok s → proc_ok (reset_headers s) ∧ m_state (reset_headers s) = HEADER_BASIC ∧ m_bytes_needed (reset_headers s) = 2.
Proof.
  intros [? ? ? ? ? ? ? _]. split; [|done]. split; try done.
  apply Forall_replicate. by split.
Qed.
Lemma field_done_application s : proc_ok s → m_state s = APPLICATION → ∃ ec s2, field_done s = Ok (ec, s2) ∧
  (ec = None → proc_ok s2 ∧ (m_state s2 = READY ∨ m_state s2 = HEADER_BASIC ∧ m_bytes_needed s2 = 2)).
Proof.
  intros Hok Hs. pose proof Hok as [H1 H2 H3 H4 H5 H6 H7 Hst]. unfold state_ok in Hst. rewrite Hs in Hst. destruct Hst as (Hn & w & msg & Hw & Hm).
  unfold field_done. rewrite Hs. destruct (get_fin _); [|eexists _, _; split; [done|]; intros _; destruct (reset_headers_ok s Hok) as (? & ? & ?); auto].
  unfold finalize_message, current, deref. rewrite Hw. cbn [mbind res_bind]. rewrite Hm. cbn [mbind res_bind]. rewrite deflate_off. cbn [andb mbind res_bind mret res_ret].
  destruct ((_ =? _) && _); [by eexists _, _|]. eexists _, _. split; [done|]. intros _. split; [|by left].
  assert (set_meta w (mkMeta (Some (set_payload (m_payload msg) msg)) (prepared_key (meta_of w s)) (utf8 (meta_of w s))) s = s) as ->.
  { assert (set_payload (m_payload msg) msg = msg) as -> by (by destruct msg). rewrite <- Hm. by destruct s as [? ? ? ? ? [] [] ? ? ? ? ?], w. }
  split; try done. unfold state_ok. simpl. split; [done|]. by exists w, msg.
Qed.

(** ** The loop, on the bytes that are left *)
Definition turn (rest : list Z) (s : hybi13) : res (list Z * option error_code * hybi13) :=
  let k := Nat.min (Z.to_nat (m_bytes_needed s)) (length rest) in
  let '(ok, s1) := put (take k rest) s in
  if ok : bool then
    if 0 <? m_bytes_needed s1 then Ok (drop k rest, None, s1)
    else '(ec, s2) ← field_done s1; Ok (drop k rest, ec, s2)
  else Ok (rest, make_error_code invalid_utf8, s1).
Definition stopped (rest : list Z) (s : hybi13) : Prop := m_state s = READY ∨ rest = [] ∧ m_bytes_needed s ≠ 0.

Inductive run : list Z → hybi13 → list Z → option error_code → hybi13 → Prop :=
  | run_stop rest s : stopped rest s → run rest s rest None s
  | run_turn rest s rest1 s1 rest' ec s' :
      ¬ stopped rest s → turn rest s = Ok (rest1, None, s1) → run rest1 s1 rest' ec s' → run rest s rest' ec s'
  | run_error rest s rest' ec s' :
      ¬ stopped rest s → turn rest s = Ok (rest', Some ec, s') → run rest s rest' (Some ec) s'.

Lemma run_det rest s r1 e1 s1 r2 e2 s2 : run rest s r1 e1 s1 → run rest s r2 e2 s2 → r1 = r2 ∧ e1 = e2 ∧ s1 = s2.
Proof.
  intros H1. revert r2 e2 s2. induction H1 as [|rest s rest1 s1 rest' ec s' Hn Ht Hr IH|rest s rest' ec s' Hn Ht]; intros r2 e2 s2' Hrun;
    inversion Hrun as [|? ? ? ? ? ? ? Hn2 Ht2 Hr2|? ? ? ? ? Hn2 Ht2]; subst; try done; rewrite Ht in Ht2; try done.
  - injection Ht2 as <- <-. by apply IH.
  - by injection Ht2 as <- <- <-.
Qed.

Lemma not_stopped rest s : proc_ok s → ¬ stopped rest s → reading s ∧ (rest ≠ [] ∨ m_bytes_needed s = 0).
Proof.
  intros Hok Hn. pose proof (ok_state s Hok) as Hst. unfold state_ok in Hst. unfold stopped in Hn. unfold reading.
  destruct (m_state s); try done; try (exfalso; apply Hn; by left); (split; [by auto|]).
  all: destruct (decide (rest = [])) as [->|]; [right; destruct (decide (m_bytes_needed s = 0)); [done|exfalso; apply Hn; auto]|by left].
Qed.

(** How much is left to do: bytes, then fields. *)
Definition rank (s : hybi13) : nat :=
  match m_state s with
  | HEADER_BASIC => if m_bytes_needed s =? 0 then 3 else 0
  | HEADER_EXTENDED => 2
  | APPLICATION => 1
  | _ => 0
  end.
Definition left_to_do (rest : list Z) (s : hybi13) : nat := (3 * length rest + rank s)%nat.

Lemma turn_ok rest s : proc_ok s → bytes_ok rest → ¬ stopped rest s →
  ∃ rest' ec s', turn rest s = Ok (rest', ec, s') ∧ (∃ pre, rest = pre ++ rest') ∧
  (ec = None → proc_ok s' ∧ (left_to_do rest' s' < left_to_do rest s)%nat).
Proof.
  intros Hok Hb Hn. destruct (not_stopped rest s Hok Hn) as [Hr Hmore]. unfold turn.
  set (k := Nat.min (Z.to_nat (m_bytes_needed s)) (length rest)).
  pose proof (ok_state s Hok) as Hst. assert (Hn0 : 0 ≤ m_bytes_needed s) by (unfold state_ok in Hst; destruct Hr as [E|[E|E]]; rewrite E in Hst; lia).
  assert (Hk : Z.of_nat (length (take k rest)) ≤ m_bytes_needed s) by (rewrite length_take; lia).
  destruct (put (take k rest) s) as [[] s1] eqn:Ep.
  2: { eexists rest, _, _. split; [done|]. split; [by exists []|done]. }
  destruct (put_ok _ s s1 Hok Hr (Forall_take _ _ _ Hb) Hk Ep) as (Hok1 & Es1 & En1). rewrite length_take in En1.
  assert (Hpos : rest ≠ [] → (0 < length rest)%nat) by (destruct rest; cbn; intros; [done|lia]).
  destruct (0 <? m_bytes_needed s1) eqn:E0.
  { eexists _, _, _. split; [done|]. split; [exists (take k rest); by rewrite take_drop|]. intros _. split; [done|].
    unfold left_to_do, rank. rewrite length_drop, Es1. destruct Hmore as [Hx|Hx]; [specialize (Hpos Hx)|lia].
    destruct Hr as [E|[E|E]]; rewrite E; repeat case_match; lia. }
  assert (Hz : m_bytes_needed s1 = 0) by lia.
  assert (Hpre : ∃ pre, rest = pre ++ drop k rest) by (exists (take k rest); by rewrite take_drop).
  assert (Hfd : ∃ ec s2, field_done s1 = Ok (ec, s2) ∧ (ec = None → proc_ok s2 ∧ (rank s2 < rank s + 3 * k)%nat)).
  { unfold rank. destruct Hr as [E|[E|E]]; rewrite E in *.
    - destruct (field_done_basic s1 Hok1 Es1) as (ec & s2 & Hf & H2'). exists ec, s2. split; [done|]. intros Hec.
      destruct (H2' Hec) as [? ->]. split; [done|]. destruct (m_bytes_needed s =? 0) eqn:?; lia.
    - destruct (field_done_extended s1 Hok1 Es1) as (ec & s2 & Hf & H2'). exists ec, s2. split; [done|]. intros Hec.
      destruct (H2' Hec) as [? ->]. split; [done|]. lia.
    - destruct (field_done_application s1 Hok1 Es1) as (ec & s2 & Hf & H2'). exists ec, s2. split; [done|]. intros Hec.
      destruct (H2' Hec) as [? [-> | [-> ->]]]; (split; [done|]); simpl; lia. }
  destruct Hfd as (ec & s2 & -> & Hfd). cbn [mbind res_bind]. eexists _, _, _. split; [done|]. split; [done|]. intros Hec.
  destruct (Hfd Hec) as [? ?]. split; [done|]. unfold left_to_do. rewrite length_drop. lia.
Qed.

Lemma loop_condition_stopped p buf s : proc_ok s → (p ≤ length buf)%nat → loop_condition p buf s = false ↔ stopped (drop p buf) s.
Proof.
  intros Hok Hp. pose proof (ok_state s Hok) as Hst. unfold state_ok in Hst. unfold loop_condition, stopped.
  assert (Hd : drop p buf = [] ↔ p = length buf).
  { rewrite <- length_zero_iff_nil, length_drop. lia. }
  rewrite Hd. destruct (m_state s) eqn:E; try done; rewrite ?(bool_decide_eq_false_2 (_ = _)) by done.
  all: cbn [negb andb]; rewrite ?orb_false_iff, ?Nat.ltb_ge, ?Z.eqb_neq.
  4: rewrite bool_decide_eq_true_2 by done; cbn [negb andb]; split; [by left|done].
  all: split; [intros [? ?]; right; split; [lia|done]|intros [?|[? ?]]; [done|split; [lia|done]]].
Qed.

(** The loop of the code follows [run]. *)
Lemma consume_step_ok p buf s : proc_ok s → bytes_ok buf → (p ≤ length buf)%nat → reading s →
  (∃ r, turn (drop p buf) s = Ok r) →
  ∃ p' buf' ec s', consume_step p buf s = Ok (p', buf', ec, s') ∧ (p ≤ p')%nat ∧ (p' ≤ length buf)%nat ∧ length buf' = length buf ∧
  bytes_ok buf' ∧ turn (drop p buf) s = Ok (drop p' buf, ec, s') ∧ (ec = None → drop p' buf' = drop p' buf).
Proof.
  intros Hok Hb Hp Hr [r Ht]. pose proof (consume_step_turn p buf s Hok Hb Hp Hr) as Hstep. cbv zeta in Hstep. unfold turn in *.
  rewrite length_drop in *. set (k := Nat.min (Z.to_nat (m_bytes_needed s)) (length buf - p)) in *.
  destruct (put (take k (drop p buf)) s) as [ok s1]. destruct Hstep as (buf' & Hl' & Hb' & Hd' & ->). rewrite drop_drop in *.
  destruct ok; [|by eexists p, buf', _, s1].
  destruct (0 <? m_bytes_needed s1).
  - eexists (p + k)%nat, buf', _, s1. split_and!; [done|lia|lia|done..].
  - destruct (field_done s1) as [[ec s2]|]; [|done]. cbn [mbind res_bind]. eexists (p + k)%nat, buf', _, s2. split_and!; [done|lia|lia|done..].
Qed.

Lemma consume_loop_run fuel p buf s : proc_ok s → bytes_ok buf → (p ≤ length buf)%nat → (left_to_do (drop p buf) s < fuel)%nat →
  ∃ p' buf' ec s', consume_loop fuel p buf s = Ok (p', buf', ec, s') ∧ (p ≤ p')%nat ∧ (p' ≤ length buf)%nat ∧ length buf' = length buf ∧
  run (drop p buf) s (drop p' buf) ec s' ∧ (ec = None → proc_ok s' ∧ drop p' buf' = drop p' buf).
Proof.
  revert p buf s. induction fuel as [|fuel IH]; intros p buf s Hok Hb Hp Hf; [lia|]. cbn [consume_loop].
  destruct (loop_condition p buf s) eqn:El.
  2: { exists p, buf, None, s. apply loop_condition_stopped in El; [|done..]. split_and!; [done|lia|lia|done|by apply run_stop|done]. }
  assert (Hns : ¬ stopped (drop p buf) s) by (rewrite <- loop_condition_stopped by done; by rewrite El).
  destruct (not_stopped _ _ Hok Hns) as [Hr _].
  destruct (turn_ok (drop p buf) s Hok (Forall_drop _ _ _ Hb) Hns) as (rest' & ec & s' & Ht & _ & Hnext).
  destruct (consume_step_ok p buf s Hok Hb Hp Hr) as (p1 & buf1 & ec1 & s1 & -> & Hp1 & Hp1' & Hl1 & Hb1 & Ht1 & Hd1); [by eexists|].
  rewrite Ht in Ht1. injection Ht1 as -> -> ->. cbn [mbind res_bind]. destruct ec1 as [ec1|].
  - exists p1, buf1, (Some ec1), s1. split_and!; [done..|by apply run_error|done].
  - destruct (Hnext eq_refl) as [Hok1 Hless]. rewrite <- Hd1 in Hless by done.
    destruct (IH p1 buf1 s1) as (p' & buf' & ec & s' & -> & ? & ? & ? & Hrun & Hend); [done|done|lia|lia|].
    assert (Hd : drop p' buf1 = drop p' buf).
    { replace p' with (p1 + (p' - p1))%nat by lia. by rewrite <- !drop_drop, Hd1. }
    exists p', buf', ec, s'. split_and!; [done|lia|lia|lia| |by rewrite <- Hd]. eapply run_turn; [done|done|]. by rewrite <- Hd1, <- Hd.
Qed.

(** [consume] returns, stays in its buffers, and follows [run]. *)
Lemma consume_run buf s : proc_ok s → bytes_ok buf →
  ∃ p buf' ec s', consume buf s = Ok (p, buf', ec, s') ∧ (p ≤ length buf)%nat ∧ length buf' = length buf ∧
  run buf s (drop p buf) ec s' ∧ (ec = None → proc_ok s' ∧ drop p buf' = drop p buf).
Proof.
  intros Hok Hb. destruct (consume_loop_run (consume_fuel buf) 0 buf s Hok Hb ltac:(lia)) as (p & buf' & ec & s' & H1 & _ & H2 & H3 & H4 & H5).
  - rewrite drop_0. unfold left_to_do, consume_fuel, rank. repeat case_match; lia.
  - rewrite drop_0 in H4. by exists p, buf', ec, s'.
Qed.

(** ** Bytes that arrive in pieces *)
Lemma turn_app_enough a b s a' ec sx : m_bytes_needed s ≤ Z.of_nat (length a) →
  turn a s = Ok (a', ec, sx) → ∃ a'', turn (a ++ b) s = Ok (a'', ec, sx) ∧ (ec = None → a'' = a' ++ b).
Proof.
  intros Hn Ht. unfold turn in *. rewrite length_app.
  replace (Nat.min (Z.to_nat (m_bytes_needed s)) (length a + length b)) with (Nat.min (Z.to_nat (m_bytes_needed s)) (length a)) by lia.
  set (k := Nat.min (Z.to_nat (m_bytes_needed s)) (length a)) in *. rewrite take_app_le, drop_app_le by lia.
  destruct (put (take k a) s) as [[] s1]; [|injection Ht as <- <- <-; by eexists].
  destruct (0 <? m_bytes_needed s1); [injection Ht as <- <- <-; by eexists|].
  destruct (field_done s1) as [[e s2]|]; [|done]. injection Ht as <- <- <-. by eexists.
Qed.
Lemma turn_app_less a b s sx b' ec sy : proc_ok s → reading s → bytes_ok a → bytes_ok b → Z.of_nat (length a) < m_bytes_needed s →
  put a s = (true, sx) → turn b sx = Ok (b', ec, sy) → ∃ b'' sy', turn (a ++ b) s = Ok (b'', ec, sy') ∧ (ec = None → b'' = b' ∧ sy' = sy).
Proof.
  intros Hok Hr Ha Hb Hn Hp Ht. destruct (put_ok a s sx Hok Hr Ha ltac:(lia) Hp) as (_ & _ & Hnx). unfold turn in *. rewrite length_app.
  set (kb := Nat.min (Z.to_nat (m_bytes_needed sx)) (length b)) in *.
  replace (Nat.min (Z.to_nat (m_bytes_needed s)) (length a + length b)) with (length a + kb)%nat by lia.
  rewrite take_app_add, drop_app_add.
  destruct (put_app a (take kb b) s sx Hok Hr Ha (Forall_take _ _ _ Hb)) as [Hf Hs]; [rewrite length_app, length_take; lia|done|].
  destruct (put (take kb b) sx) as [[] s1] eqn:E.
  - rewrite (Hs Hf). destruct (0 <? m_bytes_needed s1); [injection Ht as <- <- <-; by eexists _, _|].
    destruct (field_done s1) as [[e s2]|]; [|done]. injection Ht as <- <- <-. by eexists _, _.
  - injection Ht as <- <- <-. destruct (put (a ++ take kb b) s) as [[] s1']; [done|]. by eexists _, _.
Qed.
Lemma turn_less a s a' ec sx : proc_ok s → reading s → bytes_ok a → Z.of_nat (length a) < m_bytes_needed s → turn a s = Ok (a', ec, sx) →
  (put a s = (true, sx) ∧ a' = [] ∧ ec = None ∧ 0 < m_bytes_needed sx ∧ m_state sx = m_state s) ∨ ((put a s).1 = false ∧ ec = make_error_code invalid_utf8).
Proof.
  intros Hok Hr Ha Hn Ht. unfold turn in Ht. rewrite Nat.min_r, take_ge, drop_ge in Ht by lia.
  destruct (put a s) as [[] s1] eqn:E; [|injection Ht as <- <- <-; by right].
  destruct (put_ok a s s1 Hok Hr Ha ltac:(lia) E) as (_ & Es & Hnx). rewrite (proj2 (Z.ltb_lt _ _)) in Ht by lia.
  injection Ht as <- <- <-. left. split_and!; [done..|lia|done].
Qed.
Lemma not_stopped_app a b s : ¬ stopped a s → ¬ stopped (a ++ b) s.
Proof. intros Hn [Hs|[Ha Hs]]; apply Hn; [by left|]. right. by destruct a. Qed.
Lemma run_nil_waiting s r ec s' : run [] s r ec s' → m_bytes_needed s ≠ 0 → r = [] ∧ ec = None ∧ s' = s.
Proof. intros Hr Hn. destruct (run_det _ _ _ _ _ _ _ _ Hr (run_stop [] s (or_intror (conj eq_refl Hn)))) as (-> & -> & ->). done. Qed.

Lemma run_app a b s r ec s1 : run a s r ec s1 → proc_ok s → bytes_ok a → bytes_ok b →
  match ec with
  | Some e => ∃ r' s', run (a ++ b) s r' (Some e) s'
  | None =>
      (m_state s1 = READY ∧ run (a ++ b) s (r ++ b) None s1) ∨
      (r = [] ∧ m_state s1 ≠ READY ∧ ∀ r2 ec2 s2, run b s1 r2 ec2 s2 →
        ∃ r' s', run (a ++ b) s r' ec2 s' ∧ (ec2 = None → r' = r2 ∧ s' = s2))
  end.
Proof.
  intros Hrun Hok Ha Hb. induction Hrun as [a s Hst|a s a1 sx r ec s1 Hns Ht Hrun IH|a s r e sx Hns Ht].
  - destruct (decide (m_state s = READY)) as [E|E]; [left; split; [done|]; apply run_stop; by left|].
    right. destruct Hst as [?|[-> Hn]]; [done|]. split_and!; [done|done|]. intros r2 ec2 s2 Hr2. by exists r2, s2.
  - destruct (not_stopped _ _ Hok Hns) as [Hr _].
    destruct (turn_ok a s Hok Ha Hns) as (? & ? & ? & Ht2 & [pre Hpre] & Hnext). rewrite Ht in Ht2. injection Ht2 as <- <- <-.
    destruct (Hnext eq_refl) as [Hokx _]. subst a. apply Forall_app in Ha as Ha'. destruct Ha' as [_ Ha1].
    destruct (decide (m_bytes_needed s ≤ Z.of_nat (length (pre ++ a1)))) as [Hle|Hlt].
    + destruct (turn_app_enough _ b s _ _ _ Hle Ht) as (a'' & Ht' & Ha''). rewrite (Ha'' eq_refl) in Ht'. clear Ha''.
      specialize (IH Hokx Ha1). pose proof (not_stopped_app _ b _ Hns) as Hns'. destruct ec as [e|].
      * destruct IH as (r' & s' & IH). exists r', s'. by eapply run_turn.
      * destruct IH as [[E IH]|(-> & E & IH)]; [left; split; [done|by eapply run_turn]|]. right. split_and!; [done|done|].
        intros r2 ec2 s2 Hr2. destruct (IH r2 ec2 s2 Hr2) as (r' & s' & Hr' & Heq). exists r', s'. split; [by eapply run_turn|done].
    + destruct (turn_less _ s _ _ _ Hok Hr Ha ltac:(lia) Ht) as [(Hp & -> & _ & Hpos & Es)|[_ ?]]; [|done].
      destruct (run_nil_waiting sx r ec s1 Hrun ltac:(lia)) as (-> & -> & ->). right.
      assert (HnR : m_state sx ≠ READY) by (rewrite Es; destruct Hr as [-> | [-> | ->]]; done). split_and!; [done|done|].
      intros r2 ec2 s2 Hr2. destruct Hr2 as [b sx Hstop|b sx b1 sy r2 ec2 s2 Hns2 Ht2 Hr2|b sx r2 e2 s2 Hns2 Ht2].
      * destruct Hstop as [?|[-> _]]; [done|]. exists [], sx. split; [|done]. rewrite app_nil_r. eapply run_turn; [done|done|].
        apply run_stop. right. split; [done|lia].
      * destruct (turn_app_less _ b s sx _ _ _ Hok Hr Ha Hb ltac:(lia) Hp Ht2) as (b'' & sy' & Ht' & Heq).
        destruct (Heq eq_refl) as [-> ->]. exists r2, s2. split; [|done]. eapply run_turn; [by apply not_stopped_app|done|done].
      * destruct (turn_app_less _ b s sx _ _ _ Hok Hr Ha Hb ltac:(lia) Hp Ht2) as (b'' & sy' & Ht' & _).
        exists b'', sy'. split; [|done]. eapply run_error; [by apply not_stopped_app|done].
  - destruct (not_stopped _ _ Hok Hns) as [Hr _]. destruct (decide (m_bytes_needed s ≤ Z.of_nat (length a))) as [Hle|Hlt].
    + destruct (turn_app_enough _ b s _ _ _ Hle Ht) as (a'' & Ht' & _). exists a'', sx. eapply run_error; [by apply not_stopped_app|done].
    + destruct (turn_less _ s _ _ _ Hok Hr Ha ltac:(lia) Ht) as [(_ & _ & ? & _)|[Hp He]]; [done|].
      assert (Hf : ∃ r' s', turn (a ++ b) s = Ok (r', Some e, s')).
      { unfold turn. rewrite length_app. set (k := Nat.min _ _). rewrite take_app_ge by lia.
        pose proof (put_app_false a (take (k - length a) b) s Hok Hr Ha (Forall_take _ _ _ Hb) Hp) as Hx.
        destruct (put (a ++ _) s) as [[] s']; [done|]. rewrite <- He. by eexists _, _. }
      destruct Hf as (r' & s' & Hf). exists r', s'. eapply run_error; [by apply not_stopped_app|done].
Qed.

(** ** Frames on the wire *)
Definition frame_header (op size : Z) (fin mask : bool) : basic_header := new_basic_header op size fin mask false false false.
Definition frame_bytes (op : Z) (fin mask : bool) (key : Z) (payload : list Z) : list Z :=
  let size := Z.of_nat (length payload) in
  let h := frame_header op size fin mask in
  [b0 h; b1 h] ++ ext_bytes size mask key ++ (if mask then mask_spec (host_bytes 4 key) 0 payload else payload).

(** Before a frame: at its first byte. *)
Definition at_frame (t : hybi13) : Prop := proc_ok t ∧ m_state t = HEADER_BASIC ∧ m_bytes_needed t = 2.
(** The state in which the payload starts. *)
Definition payload_state (h : basic_header) (e : list Z) (cursor : nat) (size : Z) (t : hybi13) : hybi13 :=
  mkProc (m_server t) (m_max_message_size t) h size cursor (m_data_msg t) (m_control_msg t) (m_current_msg t) e (m_rng t)
    APPLICATION (m_permessage_deflate t).

Lemma basic_header_fields op size fin mask (h := frame_header op size fin mask) : 0 ≤ op < 16 → 0 ≤ size →
  byte_ok (b0 h) ∧ byte_ok (b1 h) ∧ get_opcode h = op ∧ get_fin h = fin ∧ get_masked h = mask ∧
  get_rsv1 h = false ∧ get_rsv2 h = false ∧ get_rsv3 h = false ∧ get_basic_size h = basic_value size.
Proof.
  intros Hop Hs. destruct (first_byte_fields op size fin mask false false false Hop) as (? & ? & ? & ? & ? & ?).
  destruct (second_byte_fields op size fin mask false false false Hs) as [? ?]. split_and!; try done.
  change (byte_ok (Z.lor (set_flag mask 128 0) (basic_value size))). pose proof (basic_value_range size Hs).
  assert (Hc := below_check 128 (λ v, (0 <=? Z.lor (set_flag mask 128 0) v) && (Z.lor (set_flag mask 128 0) v <? 256))).
  specialize (Hc ltac:(by destruct mask) (basic_value size) ltac:(lia)). cbv beta in Hc.
  apply andb_prop in Hc as [?%Z.leb_le ?%Z.ltb_lt]. by split.
Qed.

Lemma validate_frame t op size fin mask : 0 ≤ size →
  (op = 0 ∨ op = 1 ∨ op = 2 ∨ op = 8 ∨ op = 9 ∨ op = 10) → (8 ≤ op → fin = true ∧ size ≤ 125) →
  mask = m_server t → (op < 8 → (op = 0 ↔ msg_ptr (m_data_msg t) ≠ None)) →
  let new_msg := match msg_ptr (m_data_msg t) with None => true | Some _ => false end in
  validate_incoming_basic_header t (frame_header op size fin mask) (m_server t) new_msg = None.
Proof.
  intros Hs Hop Hctl -> Hcont new_msg. destruct (basic_header_fields op size fin (m_server t)) as (_ & _ & E1 & E2 & E3 & E4 & E5 & E6 & E7); [lia|done|].
  unfold validate_incoming_basic_header. rewrite E1, E2, E3, E4, E5, E6, E7. cbn [andb orb].
  assert (opcode.is_control op && (limits.payload_size_basic <? basic_value size) = false) as ->.
  { unfold opcode.is_control, limits.payload_size_basic. destruct (8 <=? op) eqn:E; [|done]. destruct (Hctl ltac:(lia)) as [_ ?].
    unfold basic_value, limits.payload_size_basic, uint8. rewrite (proj2 (Z.leb_le size 125)), Z.mod_small by lia. lia. }
  assert (opcode.is_control op && negb fin = false) as ->.
  { unfold opcode.is_control. destruct (8 <=? op) eqn:E; [|done]. destruct (Hctl ltac:(lia)) as [-> _]. done. }
  assert (opcode.reserved op = false ∧ opcode.invalid op = false) as [-> ->].
  { unfold opcode.reserved, opcode.invalid, opcode.rsv3, opcode.rsv7, opcode.control_rsvb, opcode.control_rsvf. lia. }
  unfold new_msg. unfold opcode.is_control, opcode.continuation. destruct (msg_ptr (m_data_msg t)) as [msg|] eqn:Em; cbn [andb negb].
  - assert (negb (8 <=? op) && negb (op =? 0) = false) as ->.
    { destruct (8 <=? op) eqn:E8; [done|]. destruct (Hcont ltac:(lia)) as [_ Hc]. rewrite Hc by done. done. }
    by destruct (m_server t).
  - assert ((op =? 0) = false) as -> by (apply Z.eqb_neq; intros ->; by apply Hcont). by destruct (m_server t).
Qed.

Lemma minimal_encoding op size fin mask e : 0 ≤ op < 16 → 0 ≤ size < 2 ^ 64 → 0 ≤ size < 256 ^ Z.of_nat sizeof_size_t →
  get_payload_size (frame_header op size fin mask) e = Ok size →
  validate_incoming_extended_header (frame_header op size fin mask) e = Ok None.
Proof.
  intros Hop Hs Hw He. destruct (basic_header_fields op size fin mask) as (_ & _ & _ & _ & _ & _ & _ & _ & E); [done|lia|].
  unfold validate_incoming_extended_header. rewrite He, E. cbn [mbind res_bind mret res_ret]. f_equal.
  unfold basic_value, limits.payload_size_basic, limits.payload_size_extended, payload_size_code_16bit, payload_size_code_64bit, uint8.
  assert (bool_decide (sizeof_size_t = 4%nat) && negb (Z.shiftr size 32 =? 0) = false) as ->.
  { case_bool_decide as E4; [|done]. rewrite E4 in Hw. rewrite Z.shiftr_div_pow2, Z.div_small by lia. done. }
  destruct (size <=? 125) eqn:E1; [rewrite Z.mod_small by lia; rewrite (proj2 (Z.eqb_neq size 126)), (proj2 (Z.eqb_neq size 127)) by lia; done|].
  destruct (size <=? 65535) eqn:E2; done.
Qed.

Definition with_basic (h : basic_header) (t : hybi13) : hybi13 :=
  mkProc (m_server t) (m_max_message_size t) h 0 (m_cursor t) (m_data_msg t) (m_control_msg t) (m_current_msg t)
    (m_extended_header t) (m_rng t) (m_state t) (m_permessage_deflate t).
Lemma put_basic_pair x y t : m_bytes_needed t = 2 → put_basic [x; y] t = with_basic (mkBasic x y) t.
Proof. destruct t. simpl. intros ->. done. Qed.

(** What the header of a frame leaves in the array of the extended header. *)
Definition ext_of (t : hybi13) (size key : Z) : list Z := splice (m_extended_header t) 0 (ext_bytes size (m_server t) key).
Lemma ext_of_facts t op size fin key (h := frame_header op size fin (m_server t)) :
  proc_ok t → 0 ≤ size < 2 ^ 64 → (length (ext_bytes size (m_server t) key) ≤ 12)%nat ∧ length (ext_of t size key) = 12%nat ∧ bytes_ok (ext_of t size key) ∧
  get_payload_size h (ext_of t size key) = Ok size ∧
  get_masking_key h (ext_of t size key) = Ok (host_bytes 4 (if m_server t then key else 0)).
Proof.
  intros Hok Hs. pose proof (ext_bytes_length size (m_server t) key) as Hel. pose proof (size_field_le size).
  assert (Hle : (length (ext_bytes size (m_server t) key) ≤ 12)%nat) by (rewrite Hel; destruct (m_server t); lia).
  assert (Hread : ext_of t size key = ext_bytes size (m_server t) key ++ drop (length (ext_bytes size (m_server t) key)) (m_extended_header t))
    by (unfold ext_of, splice; by rewrite take_0).
  split_and!; [done|unfold ext_of; rewrite splice_length; rewrite (ok_ext_length t Hok); [done|lia]| | |].
  - rewrite Hread. apply Forall_app. split; [|apply Forall_drop, Hok]. unfold ext_bytes. apply Forall_app.
    split; [apply Forall_rev, le_bytes_ok|]. destruct (m_server t); [apply host_bytes_ok|constructor].
  - rewrite Hread. by apply read_payload_size.
  - rewrite Hread. apply read_masking_key. lia.
Qed.
Definition start_state (t : hybi13) (op size : Z) (fin : bool) (key : Z) : hybi13 :=
  payload_state (frame_header op size fin (m_server t)) (ext_of t size key) (length (ext_bytes size (m_server t) key)) size t.

(** The header of a frame takes the processor to its payload. *)
Lemma run_header t op size fin key rest r ec s' t2 (h := frame_header op size fin (m_server t)) :
  at_frame t → 0 ≤ size < 2 ^ 64 → 0 ≤ size < 256 ^ Z.of_nat sizeof_size_t → 0 ≤ op < 16 →
  (let new_msg := match msg_ptr (m_data_msg t) with None => true | Some _ => false end in
   validate_incoming_basic_header t h (m_server t) new_msg = None) →
  start_payload (start_state t op size fin key) = Ok (None, t2) → run rest t2 r ec s' →
  run ([b0 h; b1 h] ++ ext_bytes size (m_server t) key ++ rest) t r ec s'.
Proof.
  intros (Hok & Hs & Hn) Hsz Hw Hop Hv Hstart Hrest.
  destruct (ext_of_facts t op size fin key Hok Hsz) as (Hle & He12 & Heb & Hgp & Hgk). fold h in Hgp, Hgk.
  pose proof (header_len_spec op size fin (m_server t) false false false key ltac:(lia)) as Hhl. fold (frame_header op size fin (m_server t)) in Hhl. fold h in Hhl.
  set (eb := ext_bytes size (m_server t) key) in *.
  set (t1 := set_needed (get_header_len h - 2) (set_cursor 0 (set_state HEADER_EXTENDED (with_basic h t)))).
  pose proof size_t_256 as Hb256.
  eapply (run_turn _ _ (eb ++ rest) t1).
  { intros [?|[? ?]]; [congruence|done]. }
  { unfold turn. rewrite Hn. change (Z.to_nat 2) with 2%nat. rewrite Nat.min_l by (cbn [app length]; lia).
    change (take 2 _) with [b0 h; b1 h]. change (drop 2 _) with (eb ++ rest).
    unfold put. rewrite Hs, put_basic_pair by done. assert (mkBasic (b0 h) (b1 h) = h) as -> by (by destruct h).
    change (0 <? m_bytes_needed (with_basic h t)) with false. cbv iota. unfold field_done. change (m_state (with_basic h t)) with (m_state t). rewrite Hs.
    change (validate_incoming_basic_header (with_basic h t) (m_basic_header (with_basic h t)) (m_server (with_basic h t))) with (validate_incoming_basic_header t h (m_server t)).
    change (m_data_msg (with_basic h t)) with (m_data_msg t). rewrite Hv.
    change (m_basic_header (with_basic h t)) with h. unfold BASIC_HEADER_LENGTH. rewrite size_t_id by lia. done. }
  eapply (run_turn _ _ rest t2); [| |exact Hrest].
  { intros [?|[Heq Hne]]; [done|]. apply app_eq_nil in Heq as [Heq _]. apply Hne. simpl. rewrite Hhl, Heq. done. }
  unfold turn. replace (m_bytes_needed t1) with (Z.of_nat (length eb)) by (simpl; lia).
  rewrite Nat2Z.id, Nat.min_l, take_app_length, drop_app_length by (rewrite length_app; lia).
  unfold put. change (m_state t1) with HEADER_EXTENDED. cbv iota.
  assert (put_ext eb t1 = mkProc (m_server t) (m_max_message_size t) h 0 (length eb) (m_data_msg t) (m_control_msg t) (m_current_msg t) (ext_of t size key) (m_rng t)
    HEADER_EXTENDED (m_permessage_deflate t)) as ->.
  { unfold put_ext, set_read. simpl. f_equal. lia. }
  cbn [m_bytes_needed]. cbn [Z.ltb Z.compare]. unfold field_done. proc_simpl.
  unfold h. rewrite minimal_encoding by done. proc_simpl. fold h. rewrite Hgp. proc_simpl. rewrite size_t_id by done.
  change (set_needed size (set_state APPLICATION ?x)) with (start_state t op size fin key). by rewrite Hstart.
Qed.

(** The payload of a frame, and the end of the frame. *)
Definition after_payload (w : which) (m : msg_metadata) (t : hybi13) : hybi13 :=
  let t := set_needed 0 (set_meta w m t) in if get_fin (m_basic_header t) then set_state READY t else reset_headers t.
Lemma run_payload t w msg data payload pk v more r ec s' :
  proc_ok t → m_state t = APPLICATION → m_bytes_needed t = Z.of_nat (length data) → m_current_msg t = Some w → msg_ptr (meta_of w t) = Some msg →
  unmask (get_masked (m_basic_header t)) (prepared_key (meta_of w t)) data = (pk, payload) →
  check_text (m_opcode msg) payload (utf8 (meta_of w t)) = (true, v) →
  (get_fin (m_basic_header t) = true → get_opcode (m_basic_header t) = opcode.text → complete v = true) →
  run more (after_payload w (mkMeta (Some (append_payload payload msg)) pk v) t) r ec s' → run (data ++ more) t r ec s'.
Proof.
  intros Hok Hs Hn Hw Hm Hu Hc Hfin Hrun.
  eapply run_turn; [|clear Hrun|exact Hrun].
  { intros [?|[Heq Hne]]; [congruence|]. apply app_eq_nil in Heq as [-> _]. by rewrite Hn in Hne. }
  unfold turn. rewrite Hn, Nat2Z.id, Nat.min_l, take_app_length, drop_app_length by (rewrite length_app; lia).
  unfold put. rewrite Hs. unfold put_payload. rewrite Hw, Hm, Hu, Hc, Hn, Z.sub_diag.
  change (0 <? m_bytes_needed (set_needed 0 _)) with false. cbv iota.
  unfold field_done, after_payload. change (m_state (set_needed 0 (set_meta w ?m t))) with (m_state t). rewrite Hs.
  change (get_fin (m_basic_header (set_needed 0 (set_meta w ?m t)))) with (get_fin (m_basic_header t)) in *.
  destruct (get_fin (m_basic_header t)) eqn:Ef; [|done]. unfold finalize_message, current, deref.
  change (m_current_msg (set_needed 0 (set_meta w ?m t))) with (m_current_msg t). rewrite Hw. cbn [mbind res_bind].
  change (meta_of w (set_needed 0 (set_meta w ?m t))) with (meta_of w (set_meta w m t)).
  assert (Hmw : ∀ m, meta_of w (set_meta w m t) = m) by (by destruct w). rewrite Hmw. cbn [msg_ptr mbind res_bind]. rewrite deflate_off. cbn [andb mbind res_bind mret res_ret].
  assert (Hid : ∀ m d, set_deflate (m_permessage_deflate (set_needed 0 (set_meta w m t))) (set_meta w (mkMeta (Some (set_payload (m_payload (append_payload payload msg)) (append_payload payload msg))) pk v)
     (set_needed 0 (set_meta w d t))) = set_needed 0 (set_meta w (mkMeta (Some (append_payload payload msg)) pk v) t)).
  { intros m d. by destruct t, w. }
  cbn [prepared_key utf8]. rewrite Hid.
  change (m_basic_header (set_needed 0 (set_meta w ?m t))) with (m_basic_header t).
  change (meta_of w (set_needed 0 (set_meta w ?m t))) with (meta_of w (set_meta w m t)). rewrite Hmw. cbn [utf8].
  destruct (get_opcode (m_basic_header t) =? opcode.text) eqn:Eo; [|done]. rewrite Hfin by (done || lia). done.
Qed.

Lemma unmask_frame m key data : 0 ≤ key < 2 ^ 32 → bytes_ok data →
  ∃ pk, unmask m (prepare_masking_key (host_bytes 4 (if m then key else 0))) (if m then mask_spec (host_bytes 4 key) 0 data else data) = (pk, data) ∧ periodic pk.
Proof.
  intros Hk Hd. set (kc := host_bytes 4 (if m then key else 0)).
  assert (Hkl : length kc = 4%nat) by apply host_bytes_length. assert (Hkb : bytes_ok kc) by apply host_bytes_ok.
  unfold unmask. destruct m; [|eexists; split; [done|]; exists kc, 0%nat; split_and!; [done|done|by apply prepare_key_at]].
  set (md := mask_spec (host_bytes 4 key) 0 data).
  destruct (byte_mask_circ_spec None md (length md) kc 0 (prepare_masking_key kc)) as (pk & -> & Hat); [done|by apply prepare_key_at|done|done|].
  change (source_of None md) with md. rewrite take_ge, drop_ge, app_nil_r by lia. unfold md. subst kc. rewrite mask_spec_involutive.
  eexists. split; [done|]. eexists _, _. split_and!; [done|done|exact Hat].
Qed.
Lemma masked_length m key data : length (if m : bool then mask_spec (host_bytes 4 key) 0 data else data) = length data.
Proof. destruct m; [apply mask_spec_length|done]. Qed.

(** What a message in progress looks like to the next frame. *)
Definition accumulated (t : hybi13) : list Z := match msg_ptr (m_data_msg t) with Some m => m_payload m | None => [] end.
Definition message_opcode (op : Z) (t : hybi13) : Z := match msg_ptr (m_data_msg t) with Some m => m_opcode m | None => op end.
Definition text_so_far (t : hybi13) : validator := match msg_ptr (m_data_msg t) with Some _ => utf8 (m_data_msg t) | None => new_validator end.

Lemma app_state_ok h e cursor size w m t : proc_ok t → byte_ok (b0 h) → byte_ok (b1 h) → length e = 12%nat → bytes_ok e →
  0 ≤ size < 256 ^ Z.of_nat sizeof_size_t → msg_ok w m → (∃ msg, msg_ptr m = Some msg) →
  proc_ok (set_current (Some w) (set_meta w m (payload_state h e cursor size t))).
Proof.
  intros [? ? ? ? ? ? ? _] ? ? ? ? ? ? [msg ?]. split; try done; [by destruct w..|]. unfold state_ok. simpl. split; [done|].
  exists w, msg. split; [done|by destruct w].
Qed.

Lemma run_data_frame t op fin key payload :
  at_frame t → op = 0 ∨ op = 1 ∨ op = 2 → (op = 0 ↔ msg_ptr (m_data_msg t) ≠ None) → 0 ≤ key < 2 ^ 32 → bytes_ok payload →
  Z.of_nat (length (accumulated t ++ payload)) ≤ m_max_message_size t →
  (∃ v, check_text (message_opcode op t) payload (text_so_far t) = (true, v) ∧ (fin = true → op = opcode.text → complete v = true)) →
  ∃ t' m' pk v, (∀ more r ec s', run more t' r ec s' → run (frame_bytes op fin (m_server t) key payload ++ more) t r ec s') ∧
  proc_ok t' ∧ m_server t' = m_server t ∧ m_max_message_size t' = m_max_message_size t ∧ m_control_msg t' = m_control_msg t ∧
  m_data_msg t' = mkMeta (Some m') pk v ∧ m_payload m' = accumulated t ++ payload ∧ m_opcode m' = message_opcode op t ∧
  check_text (message_opcode op t) payload (text_so_far t) = (true, v) ∧
  (if fin : bool then m_state t' = READY ∧ m_current_msg t' = Some Data else at_frame t').
Proof.
  intros Hat Hop Hcont Hkey Hpl Hmax (v & Hv & Hfin). pose proof Hat as (Hok & Hs & Hn).
  set (size := Z.of_nat (length payload)). set (h := frame_header op size fin (m_server t)).
  pose proof (ok_max t Hok) as Hm. pose proof max_size_ge as Hmg. rewrite length_app in Hmax.
  assert (Hsz : 0 ≤ size < 256 ^ Z.of_nat sizeof_size_t) by lia.
  assert (Hsz64 : 0 ≤ size < 2 ^ 64) by (destruct size_t_ok as [E|E]; rewrite E in Hsz; lia).
  destruct (basic_header_fields op size fin (m_server t)) as (Hb0 & Hb1 & E1 & E2 & E3 & _ & _ & _ & _); [lia|lia|]. fold h in Hb0, Hb1, E1, E2, E3.
  set (msg0 := match msg_ptr (m_data_msg t) with Some m => m | None => mkMessage [] [] [] op false true false false end).
  set (meta0 := mkMeta (Some msg0) (prepare_masking_key (host_bytes 4 (if m_server t then key else 0))) (text_so_far t)).
  destruct (unmask_frame (m_server t) key payload Hkey Hpl) as (pk & Hun & Hper).
  assert (Hmeta : msg_ok Data meta0).
  { intros m [= <-]. unfold meta0, msg0, text_so_far. cbn [utf8 prepared_key].
    assert (periodic (prepare_masking_key (host_bytes 4 (if m_server t then key else 0)))).
    { eexists _, 0%nat. split_and!; [apply host_bytes_length|apply host_bytes_ok|apply prepare_key_at; [apply host_bytes_length|apply host_bytes_ok]]. }
    destruct (msg_ptr (m_data_msg t)) as [m|] eqn:Em; [destruct (ok_data t Hok m Em) as (? & ? & ? & ? & ?); split_and!; try done; try lia|].
    split; [by apply Forall_nil|]. split; [apply new_validator_valid|]. split; [done|]. cbn [m_opcode].
    assert (op ≠ 0) by (intros ->; by apply Hcont). unfold opcode.is_control. lia. }
  assert (Hacc : m_payload msg0 = accumulated t) by (unfold msg0, accumulated; by destruct (msg_ptr (m_data_msg t))).
  assert (Hmop : m_opcode msg0 = message_opcode op t) by (unfold msg0, message_opcode; by destruct (msg_ptr (m_data_msg t))).
  set (t2 := set_current (Some Data) (set_meta Data meta0 (start_state t op size fin key))).
  assert (Hmeta' : msg_ok Data (mkMeta (Some (append_payload payload msg0)) pk v)).
  { intros m [= <-]. destruct (Hmeta msg0 eq_refl) as (? & Hvs & ? & ? & ?).
    destruct (check_text_total (message_opcode op t) payload _ Hpl Hvs) as [_ Hx]. cbn [utf8 meta0] in Hx. rewrite Hv in Hx.
    split; [by apply Forall_app|]. split; [exact Hx|]. split; [done|]. done. }
  destruct (ext_of_facts t op size fin key Hok Hsz64) as (_ & He12 & Heb & _ & Hgk). fold h in Hgk.
  assert (Hstart : start_payload (start_state t op size fin key) = Ok (None, t2)).
  { unfold start_payload, start_state, payload_state. proc_simpl. fold h. rewrite Hgk. cbn [mbind res_bind]. rewrite E1.
    assert (opcode.is_control op = false) as -> by (unfold opcode.is_control; lia).
    unfold t2, meta0, msg0, text_so_far. destruct (msg_ptr (m_data_msg t)) as [m|] eqn:Em.
    - unfold accumulated in Hmax. rewrite Em in Hmax. rewrite size_t_id by lia. rewrite (proj2 (Z.ltb_ge _ _)) by lia.
      unfold reserve. fold max_size. rewrite (proj2 (Z.leb_le _ _)) by lia. done.
    - rewrite (proj2 (Z.ltb_ge _ _)) by lia. rewrite new_message_ok by lia. cbn [mbind res_bind]. by rewrite deflate_off. }
  assert (Hok2 : proc_ok t2) by (apply app_state_ok; [done..|by exists msg0]).
  set (m' := mkMeta (Some (append_payload payload msg0)) pk v).
  exists (after_payload Data m' t2), (append_payload payload msg0), pk, v. split.
  { intros more r ec s' Hrun. unfold frame_bytes. fold size. fold h. rewrite <- !app_assoc.
    eapply run_header; [done|done|done|lia| |exact Hstart|].
    - apply validate_frame; [lia|lia|lia|done|done].
    - eapply run_payload with (w := Data) (msg := msg0) (pk := pk) (v := v); [done|done| |done|done| | | |exact Hrun].
      + rewrite masked_length. done.
      + simpl. fold h. rewrite E3. exact Hun.
      + rewrite Hmop. exact Hv.
      + simpl. fold h. by rewrite E1, E2. }
  assert (Hf : get_fin (m_basic_header (set_needed 0 (set_meta Data m' t2))) = fin) by exact E2.
  unfold after_payload. rewrite Hf.
  assert (Hbase : proc_ok (set_needed 0 (set_meta Data m' t2))).
  { destruct Hok2 as [? ? ? ? ? ? ? _]. split; try done. unfold state_ok. simpl. split; [lia|]. by exists Data, (append_payload payload msg0). }
  destruct fin.
  - split_and!; try done; [|cbn; by rewrite Hacc].
    destruct Hbase as [? ? ? ? ? ? ? Hst]. split; done.
  - destruct (reset_headers_ok _ Hbase) as (? & ? & ?). split_and!; try done. cbn. by rewrite Hacc.
Qed.

(** A control frame is a message of its own and leaves the data message as it is. *)
Lemma run_control_frame t op key payload :
  at_frame t → op = 8 ∨ op = 9 ∨ op = 10 → 0 ≤ key < 2 ^ 32 → bytes_ok payload → Z.of_nat (length payload) ≤ 125 →
  ∃ t' m' pk, (∀ more r ec s', run more t' r ec s' → run (frame_bytes op true (m_server t) key payload ++ more) t r ec s') ∧
  proc_ok t' ∧ m_server t' = m_server t ∧ m_max_message_size t' = m_max_message_size t ∧ m_data_msg t' = m_data_msg t ∧
  m_control_msg t' = mkMeta (Some m') pk new_validator ∧ m_payload m' = payload ∧ m_opcode m' = op ∧
  m_state t' = READY ∧ m_current_msg t' = Some Control.
Proof.
  intros Hat Hop Hkey Hpl Hmax. pose proof Hat as (Hok & Hs & Hn).
  set (size := Z.of_nat (length payload)) in *. set (h := frame_header op size true (m_server t)).
  pose proof max_size_ge as Hmg. pose proof size_t_256.
  assert (Hsz : 0 ≤ size < 256 ^ Z.of_nat sizeof_size_t) by lia.
  destruct (basic_header_fields op size true (m_server t)) as (Hb0 & Hb1 & E1 & E2 & E3 & _ & _ & _ & _); [lia|lia|]. fold h in Hb0, Hb1, E1, E2, E3.
  set (msg0 := mkMessage [] [] [] op false true false false).
  set (kc := host_bytes 4 (if m_server t then key else 0)).
  destruct (unmask_frame (m_server t) key payload Hkey Hpl) as (pk & Hun & Hper). fold kc in Hun.
  assert (Hctl : opcode.is_control op = true) by (unfold opcode.is_control; lia).
  assert (Hmeta : msg_ok Control (new_metadata msg0 kc)).
  { apply fresh_meta_ok; [done|cbn; lia|done|apply host_bytes_length|apply host_bytes_ok]. }
  set (t2 := set_current (Some Control) (set_meta Control (new_metadata msg0 kc) (start_state t op size true key))).
  destruct (ext_of_facts t op size true key Hok) as (_ & He12 & Heb & _ & Hgk); [lia|]. fold h in Hgk.
  assert (Hstart : start_payload (start_state t op size true key) = Ok (None, t2)).
  { unfold start_payload, start_state, payload_state. proc_simpl. fold h. rewrite Hgk. cbn [mbind res_bind]. rewrite E1, Hctl.
    rewrite new_message_ok by lia. done. }
  assert (Hok2 : proc_ok t2) by (apply app_state_ok; [done..|by exists msg0]).
  set (m' := mkMeta (Some (append_payload payload msg0)) pk new_validator).
  assert (Htext : (op =? opcode.text) = false) by (unfold opcode.text; lia).
  exists (after_payload Control m' t2), (append_payload payload msg0), pk. split.
  { intros more r ec s' Hrun. unfold frame_bytes. fold size. fold h. rewrite <- !app_assoc.
    eapply run_header; [done|lia|done|lia| |exact Hstart|].
    - apply validate_frame; [lia|lia|done|done|lia].
    - eapply run_payload with (w := Control) (msg := msg0) (pk := pk) (v := new_validator); [done|done| |done|done| | | |exact Hrun].
      + rewrite masked_length. done.
      + simpl. fold h. rewrite E3. exact Hun.
      + unfold check_text. cbn [m_opcode msg0]. by rewrite Htext.
      + simpl. fold h. rewrite E1. intros _ Ht. rewrite Ht in Htext. done. }
  assert (Hf : get_fin (m_basic_header (set_needed 0 (set_meta Control m' t2))) = true) by exact E2.
  unfold after_payload. rewrite Hf. split_and!; try done.
  destruct Hok2 as [? ? ? ? ? ? ? _]. split; try done.
  - intros m [= <-]. cbn. split; [done|]. split; [apply new_validator_valid|]. split; [done|]. split; [cbn; lia|done].
  - unfold state_ok. simpl. split; [lia|]. by exists Control, (append_payload payload msg0).
Qed.

(** Taking the message out. *)
Lemma get_message_ready t w m pk v : proc_ok t → m_state t = READY → m_current_msg t = Some w → meta_of w t = mkMeta (Some m) pk v →
  ∃ t', get_message t = Ok (Some m, t') ∧ at_frame t' ∧ m_server t' = m_server t ∧ m_max_message_size t' = m_max_message_size t ∧
  (w = Data → msg_ptr (m_data_msg t') = None ∧ m_control_msg t' = m_control_msg t) ∧
  (w = Control → msg_ptr (m_control_msg t') = None ∧ m_data_msg t' = m_data_msg t).
Proof.
  intros Hok Hs Hw Hm. unfold get_message, ready. rewrite bool_decide_eq_true_2 by done. cbn [negb]. unfold current, deref. rewrite Hw.
  cbn [mbind res_bind]. rewrite Hm. cbn [mbind res_bind msg_ptr].
  assert (Hop : opcode.is_control (m_opcode m) = match w with Data => false | Control => true end).
  { pose proof (meta_ok w t Hok m) as Hx. rewrite Hm in Hx. by destruct (Hx eq_refl) as (_ & _ & _ & _ & ?). }
  rewrite Hop. eexists. split; [done|].
  assert (Hnil : ∀ w m, msg_ok w (mkMeta None (prepared_key m) (utf8 m))) by (intros ? ? ? [=]).
  destruct Hok as [? ? ? ? ? Hd Hc _]. destruct w; cbn; (split; [|split_and!; try done]).
  all: split; [|done]; split; try done; apply Forall_replicate; by split.
Qed.

(** ** Reading in pieces *)

(** The reads of a connection, until a message is ready: the bytes not yet looked at, and
    the state. *)
Fixpoint consume_chunks (chunks : list (list Z)) (s : hybi13) : res (option error_code * list Z * hybi13) :=
  match chunks with
  | [] => Ok (None, [], s)
  | c :: cs =>
      '(p, _, ec, s) ← consume c s;
      match ec with
      | Some e => Ok (Some e, [], s)
      | None => if ready s then Ok (None, drop p c ++ concat cs, s) else consume_chunks cs s
      end
  end.

Lemma run_end rest s r s' : run rest s r None s' → m_state s' ≠ READY → r = [] ∧ m_bytes_needed s' ≠ 0.
Proof.
  remember None as ec eqn:Ee. induction 1 as [rest s Hst|rest s r1 s1 r ec s' _ _ _ IH|]; intros Hn; [|by apply IH|done].
  destruct Hst as [?|[-> ?]]; done.
Qed.
Lemma bytes_ok_suffix rest s r ec s' : run rest s r ec s' → proc_ok s → bytes_ok rest → bytes_ok r.
Proof.
  induction 1 as [|rest s rest1 s1 rest' ec s' Hns Ht Hr IH|rest s rest' ec s' Hns Ht]; intros Hok Hb; [done|..];
    destruct (turn_ok rest s Hok Hb Hns) as (? & ? & ? & Ht2 & [pre Hpre] & Hnext); rewrite Ht in Ht2; injection Ht2 as <- <- <-; subst rest.
  - apply Forall_app in Hb as [_ Hb]. apply IH; [by apply Hnext|done].
  - by apply Forall_app in Hb as [_ Hb].
Qed.

Lemma consume_chunks_run chunks s : proc_ok s → m_bytes_needed s ≠ 0 → Forall bytes_ok chunks →
  ∃ ec rest s', consume_chunks chunks s = Ok (ec, rest, s') ∧
  match ec with
  | None => run (concat chunks) s rest None s' ∧ proc_ok s'
  | Some e => ∃ r s2, run (concat chunks) s r (Some e) s2
  end.
Proof.
  intros Hok Hn Hb. revert s Hok Hn. induction Hb as [|c cs Hc Hcs IH]; intros s Hok Hn.
  { exists None, [], s. split; [done|]. split; [|done]. apply run_stop. by right. }
  cbn [consume_chunks concat]. destruct (consume_run c s Hok Hc) as (p & buf' & ec & s1 & -> & Hp & _ & Hrun & Hok1). cbn [mbind res_bind].
  assert (Hcc : bytes_ok (concat cs)) by (unfold bytes_ok; by rewrite Forall_concat).
  pose proof (run_app c (concat cs) s _ _ _ Hrun Hok Hc Hcc) as Happ. destruct ec as [e|].
  { eexists _, _, _. split; [done|]. exact Happ. }
  destruct (Hok1 eq_refl) as [Hok1' _]. clear Hok1. rename Hok1' into Hok1. unfold ready. case_bool_decide as E.
  - destruct Happ as [[_ Happ]|(_ & ? & _)]; [|done]. eexists _, _, _. split; [done|]. by split.
  - destruct Happ as [[? _]|(_ & _ & Happ)]; [done|]. destruct (run_end _ _ _ _ Hrun E) as [_ Hn1].
    destruct (IH s1 Hok1 Hn1) as (ec & rest & s' & -> & Hres). eexists _, _, _. split; [done|]. destruct ec as [e|].
    + destruct Hres as (r & s2 & Hr). destruct (Happ _ _ _ Hr) as (r' & s'' & ? & _). eauto.
    + destruct Hres as [Hr ?]. destruct (Happ _ _ _ Hr) as (r' & s'' & Hr' & Heq). destruct (Heq eq_refl) as [-> ->]. done.
Qed.
End Receive.

(** ** Theorems *)

(** C21: [consume] on a processor that reported no error, any bytes in the buffer: it returns,
    leaves no buffer, and either an error is reported, or a message is ready, or all bytes are taken
    and more are needed. The extension is disabled, as in config::core: the decompression paths are
    the subject of the theorems on compressed messages. The limit on messages is at most the largest
    length of a string, 2^(bits-1) - 1; the setter takes any size_t, and with a larger limit a frame
    of that length makes reserve throw ([huge_limit_throws]). *)
Theorem consume_safe `{Machine} `{Deflate} (off : ∀ d, is_enabled d = false) buf s :
  proc_ok s → bytes_ok buf →
  ∃ p buf' ec s', consume buf s = Ok (p, buf', ec, s') ∧ (p ≤ length buf)%nat ∧ length buf' = length buf ∧
  (ec = None → proc_ok s' ∧ (ready s' = true ∨ p = length buf ∧ m_bytes_needed s' ≠ 0)).
Proof.
  intros Hok Hb. destruct (consume_run off buf s Hok Hb) as (p & buf' & ec & s' & H1 & H2 & H3 & H4 & H5).
  exists p, buf', ec, s'. split_and!; [done..|]. intros ->. split; [by apply H5|]. unfold ready. case_bool_decide as E; [by left|right].
  destruct (run_end _ _ _ _ H4 E) as [Hd ?]. split; [|done]. apply (f_equal length) in Hd. rewrite length_drop in Hd. simpl in Hd. lia.
Qed.

(** A new processor satisfies the invariant. *)
Lemma new_hybi13_ok `{Machine} `{Deflate} server max d : 0 ≤ max ≤ max_size → proc_ok (new_hybi13 server max d).
Proof.
  intros Hm. split; try done. apply Forall_replicate. by split.
Qed.

Lemma consume_safe_witness :
  ∃ p buf' ec s', @consume x86_64 disabled [1; 2; 3] (@new_hybi13 disabled true 32000000 ()) = Ok (p, buf', ec, s') ∧ (p ≤ 3)%nat.
Proof.
  destruct (@consume_safe x86_64 disabled (λ _, eq_refl) [1; 2; 3] (@new_hybi13 disabled true 32000000 ()))
    as (p & buf' & ec & s' & ? & ? & _); [apply new_hybi13_ok; split; [lia|by vm_compute]|unfold bytes_ok, byte_ok; repeat constructor; lia|eauto 10].
Defined.
(** A limit on messages beyond the largest length of a string: a masked binary frame that declares
    2^63 bytes passes it, and [reserve] throws std::length_error. *)
Example huge_limit_throws :
  @consume x86_64 disabled [130; 255; 128; 0; 0; 0; 0; 0; 0; 0; 1; 2; 3; 4] (@new_hybi13 disabled true (2 ^ 64 - 1) ()) = Err StdException.
Proof. vm_compute. reflexivity. Qed.

(** How the bytes are cut into reads does not matter: the reads end with the error, or with
    the state and the unread bytes, of one [consume] of all the bytes. *)
Theorem consume_in_pieces `{Machine} `{Deflate} (off : ∀ d, is_enabled d = false) chunks s :
  proc_ok s → m_bytes_needed s ≠ 0 → Forall bytes_ok chunks →
  ∃ ec rest s' p buf' s'',
    consume_chunks chunks s = Ok (ec, rest, s') ∧ consume (concat chunks) s = Ok (p, buf', ec, s'') ∧
    (ec = None → s'' = s' ∧ drop p (concat chunks) = rest).
Proof.
  intros Hok Hn Hb. destruct (consume_chunks_run off chunks s Hok Hn Hb) as (ec & rest & s' & H1 & H2).
  assert (Hcc : bytes_ok (concat chunks)) by (unfold bytes_ok; by rewrite Forall_concat).
  destruct (consume_run off (concat chunks) s Hok Hcc) as (p & buf' & ec' & s'' & H3 & _ & _ & H4 & _).
  destruct ec as [e|].
  - destruct H2 as (r & s2 & H2). destruct (run_det _ _ _ _ _ _ _ _ H2 H4) as (_ & <- & _). by exists (Some e), rest, s', p, buf', s''.
  - destruct H2 as [H2 _]. destruct (run_det _ _ _ _ _ _ _ _ H2 H4) as (-> & <- & ->). by exists None, (drop p (concat chunks)), s'', p, buf', s''.
Qed.
Lemma consume_in_pieces_witness :
  ∃ ec rest s', @consume_chunks x86_64 disabled [[129]; [131; 1; 2; 3]; [4; 96]; [96; 96; 7]] (@new_hybi13 disabled true 32000000 ()) = Ok (ec, rest, s').
Proof.
  destruct (@consume_in_pieces x86_64 disabled (λ _, eq_refl) [[129]; [131; 1; 2; 3]; [4; 96]; [96; 96; 7]] (@new_hybi13 disabled true 32000000 ()))
    as (ec & rest & s' & _ & _ & _ & ? & _); [apply new_hybi13_ok; split; [lia|by vm_compute]|done|unfold bytes_ok, byte_ok; repeat constructor; lia|eauto].
Defined.
