(* ===== verification/WsStream.v ===== *)
(** * Streams of frames: from the messages of one end to the messages of the other

    The loop of [connection::handle_read_frame]
    (src/websocketpp-master/websocketpp/impl/connection_impl.hpp) gives the bytes of each
    read to the processor and takes the messages out.  The theorem: whatever sequence of
    data frames, fragments and control frames one end writes, and however the network cuts
    it into reads, the other end takes out exactly the messages of the sequence. *)

From S2P Require Import Prelude Bytes WsFrame Utf8 WsProcessor WsReceive.

Open Scope Z_scope.

Section Stream.
Context `{Machine} `{Deflate}.
Hypothesis deflate_off : ∀ d, is_enabled d = false.

(** ** The loop over the bytes of a read *)
Fixpoint read_loop (fuel : nat) (rest : list Z) (s : hybi13) : res (list message * option error_code * hybi13) :=
  match fuel with
  | O => Err OutOfFuel
  | S fuel =>
      if bool_decide (rest = []) then Ok ([], None, s)
      else
        '(p, buf, ec, s) ← consume rest s;
        match ec with
        | Some e => Ok ([], Some e, s)
        | None =>
            '(m, s) ← (if ready s then get_message s else mret (None, s));
            '(ms, ec, s) ← read_loop fuel (drop p buf) s;
            Ok (match m with Some m => m :: ms | None => ms end, ec, s)
        end
  end.
Definition read_bytes (buf : list Z) (s : hybi13) : res (list message * option error_code * hybi13) := read_loop (S (length buf)) buf s.
(** The reads of a connection, one after the other. *)
Fixpoint read_all (reads : list (list Z)) (s : hybi13) : res (list message * option error_code * hybi13) :=
  match reads with
  | [] => Ok ([], None, s)
  | r :: reads =>
      '(ms, ec, s) ← read_bytes r s;
      match ec with
      | Some e => Ok (ms, Some e, s)
      | None => '(ms', ec, s) ← read_all reads s; Ok (ms ++ ms', ec, s)
      end
  end.

(** ** The loop as a relation *)
Inductive reads : list Z → hybi13 → list message → option error_code → hybi13 → Prop :=
  | reads_wait rest s s' : run rest s [] None s' → m_state s' ≠ READY → reads rest s [] None s'
  | reads_error rest s r e s' : run rest s r (Some e) s' → reads rest s [] (Some e) s'
  | reads_message rest s rest' s1 m s2 ms ec s' :
      run rest s rest' None s1 → m_state s1 = READY → get_message s1 = Ok (Some m, s2) → reads rest' s2 ms ec s' → reads rest s (m :: ms) ec s'.

Lemma reads_det rest s ms1 e1 s1 ms2 e2 s2 : reads rest s ms1 e1 s1 → reads rest s ms2 e2 s2 → ms1 = ms2 ∧ e1 = e2 ∧ s1 = s2.
Proof.
  intros H1. revert ms2 e2 s2. induction H1 as [rest s s' Hr Hn|rest s r e s' Hr|rest s rest' sx m sy ms ec s' Hr Hn Hg _ IH]; intros ms2 e2 s2 H2;
    inversion H2 as [? ? ? Hr2 Hn2|? ? ? ? ? Hr2|? ? ? ? ? ? ? ? ? Hr2 Hn2 Hg2 H2']; subst; destruct (run_det _ _ _ _ _ _ _ _ Hr Hr2) as (? & ? & ?); simplify_eq; try done.
  rewrite Hg in Hg2. injection Hg2 as <- <-. by destruct (IH _ _ _ H2') as (-> & -> & ->).
Qed.

(** A state between reads. *)
Definition waiting (s : hybi13) : Prop := proc_ok s ∧ m_state s ≠ READY ∧ m_bytes_needed s ≠ 0.
Lemma at_frame_waiting s : at_frame s → waiting s.
Proof. intros (? & E & En). split_and!; [done|by rewrite E|by rewrite En]. Qed.
Lemma get_message_total s : proc_ok s → m_state s = READY → ∃ m s', get_message s = Ok (Some m, s') ∧ at_frame s'.
Proof.
  intros Hok Hs. pose proof (ok_state s Hok) as Hst. unfold state_ok in Hst. rewrite Hs in Hst. destruct Hst as (_ & w & m & Hw & Hm).
  destruct (get_message_ready s w m (prepared_key (meta_of w s)) (utf8 (meta_of w s)) Hok Hs Hw) as (s' & ? & ? & _); [destruct (meta_of w s); simpl in Hm; by subst|eauto].
Qed.
Lemma run_progress rest s r s' : run rest s r None s' → waiting s → bytes_ok rest → rest ≠ [] → (length r < length rest)%nat.
Proof.
  intros Hr (Hok & Hs & Hn) Hb Hne. assert (Hle : ∀ rest s r ec s', run rest s r ec s' → proc_ok s → bytes_ok rest → (length r ≤ length rest)%nat).
  { clear -deflate_off. induction 1 as [|rest s rest1 s1 rest' ec s' Hns Ht Hr IH|rest s rest' ec s' Hns Ht]; intros Hok Hb; [lia|..];
      destruct (turn_ok deflate_off rest s Hok Hb Hns) as (? & ? & ? & Ht2 & [pre ->] & Hnext); rewrite Ht in Ht2; injection Ht2 as <- <- <-; rewrite length_app.
    - apply Forall_app in Hb as [_ Hb]. destruct (Hnext eq_refl). specialize (IH ltac:(done) Hb). lia.
    - lia. }
  inversion Hr as [? ? Hst|? ? rest1 s1 ? ? ? Hns Ht Hr1|]; subst.
  { destruct Hst as [?|[? ?]]; done. }
  destruct (turn_ok deflate_off rest s Hok Hb Hns) as (? & ? & ? & Ht2 & [pre Hpre] & Hnext). rewrite Ht in Ht2. injection Ht2 as <- <- <-.
  destruct (Hnext eq_refl) as [Hok1 _]. assert (length r ≤ length rest1)%nat.
  { eapply Hle; [done..|]. subst rest. by apply Forall_app in Hb as [_ ?]. }
  assert (length rest1 < length rest)%nat; [|lia]. destruct (not_stopped _ _ Hok Hns) as [Hrd _].
  assert (0 ≤ m_bytes_needed s) by (pose proof (ok_state s Hok) as Hst; unfold state_ok in Hst; destruct Hrd as [E|[E|E]]; rewrite E in Hst; lia).
  assert (0 < length rest)%nat by (destruct rest; [done|cbn; lia]).
  unfold turn in Ht. destruct (put _ s) as [[] sx]; [|done]. destruct (0 <? m_bytes_needed sx); [injection Ht as <- <-; rewrite length_drop; lia|].
  destruct (field_done sx) as [[? ?]|]; [|done]. injection Ht as <- -> <-. rewrite length_drop. lia.
Qed.

Lemma read_loop_reads fuel rest s : waiting s → bytes_ok rest → (length rest < fuel)%nat →
  ∃ ms ec s', read_loop fuel rest s = Ok (ms, ec, s') ∧ reads rest s ms ec s' ∧ (ec = None → waiting s').
Proof.
  revert rest s. induction fuel as [|fuel IH]; intros rest s Hw Hb Hf; [lia|]. pose proof Hw as (Hok & Hs & Hn). cbn [read_loop].
  case_bool_decide as E.
  { subst rest. exists [], None, s. split_and!; [done| |done]. apply reads_wait; [|done]. apply run_stop. by right. }
  destruct (consume_run deflate_off rest s Hok Hb) as (p & buf' & ec & s1 & -> & Hp & _ & Hrun & Hok1). cbn [mbind res_bind].
  destruct ec as [e|]; [eexists _, _, _; split_and!; [done|by eapply reads_error|done]|]. destruct (Hok1 eq_refl) as [Hok1' Hrest]. clear Hok1. rename Hok1' into Hok1.
  pose proof (run_progress _ _ _ _ Hrun Hw Hb E) as Hless. unfold ready. case_bool_decide as Er.
  - destruct (get_message_total s1 Hok1 Er) as (m & s2 & Hg & Hat). rewrite Hg. cbn [mbind res_bind]. rewrite Hrest.
    destruct (IH (drop p rest) s2) as (ms & ec & s' & -> & Hreads & Hw'); [by apply at_frame_waiting|by apply Forall_drop|lia|].
    cbn [mbind res_bind]. eexists _, _, _. split_and!; [done|by eapply reads_message|done].
  - cbn [mbind res_bind mret res_ret]. destruct (run_end _ _ _ _ Hrun Er) as [Hd Hn1]. rewrite Hrest, Hd in *.
    destruct fuel as [|fuel]; [destruct rest; [done|cbn in Hf; lia]|]. eexists [], None, s1. split_and!; [done|by apply reads_wait|done].
Qed.

Lemma reads_app a b s ms1 e1 s1 : reads a s ms1 e1 s1 → proc_ok s → bytes_ok a → bytes_ok b →
  match e1 with
  | Some e => ∃ s', reads (a ++ b) s ms1 (Some e) s'
  | None => ∀ ms2 e2 s2, reads b s1 ms2 e2 s2 → ∃ s', reads (a ++ b) s (ms1 ++ ms2) e2 s' ∧ (e2 = None → s' = s2)
  end.
Proof.
  intros Hr Hok Ha Hb. revert Hok Ha. induction Hr as [a s s' Hr Hn|a s r e s' Hr|a s a' sx m sy ms ec s' Hr Hn Hg _ IH]; intros Hok Ha;
    pose proof (run_app deflate_off a b s _ _ _ Hr Hok Ha Hb) as Happ.
  - destruct Happ as [[? _]|(_ & _ & Happ)]; [done|]. intros ms2 e2 s2 H2.
    inversion H2 as [? ? ? Hr2 Hn2|? ? ? ? ? Hr2|? ? ? ? ? ? ? ? ? Hr2 Hn2 Hg2 H2']; subst; destruct (Happ _ _ _ Hr2) as (r' & sz & Hr' & Heq).
    + destruct (Heq eq_refl) as [-> ->]. exists s2. split; [by apply reads_wait|done].
    + exists sz. split; [by eapply reads_error|done].
    + destruct (Heq eq_refl) as [-> ->]. exists s2. split; [by eapply reads_message|done].
  - destruct Happ as (r' & sz & Hr'). exists sz. by eapply reads_error.
  - destruct Happ as [[_ Happ]|(_ & ? & _)]; [|done].
    assert (Hok1 : proc_ok sx ∧ bytes_ok a').
    { destruct (consume_run deflate_off a s Hok Ha) as (p & buf' & ec1 & s1 & _ & _ & _ & Hrun & Hok1).
      destruct (run_det _ _ _ _ _ _ _ _ Hr Hrun) as (-> & <- & <-). split; [by apply Hok1|by apply Forall_drop]. }
    destruct Hok1 as [Hok1 Ha']. destruct (get_message_total sx Hok1 Hn) as (? & ? & Hg' & Hat). rewrite Hg in Hg'. injection Hg' as <- <-.
    specialize (IH (proj1 Hat) Ha'). destruct ec as [e|].
    + destruct IH as (sz & IH). exists sz. by eapply reads_message.
    + intros ms2 e2 s2 H2. destruct (IH ms2 e2 s2 H2) as (sz & Hz & Heq). exists sz. split; [by eapply reads_message|done].
Qed.

Lemma read_all_reads chunks s : waiting s → Forall bytes_ok chunks →
  ∃ ms ec s' s'', read_all chunks s = Ok (ms, ec, s') ∧ reads (concat chunks) s ms ec s'' ∧ (ec = None → s'' = s' ∧ waiting s').
Proof.
  intros Hw Hb. revert s Hw. induction Hb as [|c cs Hc Hcs IH]; intros s Hw.
  { pose proof Hw as (Hok & Hs & Hn). exists [], None, s, s. split_and!; [done| |done]. apply reads_wait; [|done]. apply run_stop. by right. }
  cbn [read_all concat]. unfold read_bytes. destruct (read_loop_reads (S (length c)) c s Hw Hc ltac:(lia)) as (ms & ec & s1 & -> & Hr & Hw1).
  cbn [mbind res_bind]. assert (Hcc : bytes_ok (concat cs)) by (unfold bytes_ok; by rewrite Forall_concat).
  pose proof (reads_app c (concat cs) s _ _ _ Hr (proj1 Hw) Hc Hcc) as Happ. destruct ec as [e|].
  - destruct Happ as (sz & Happ). by exists ms, (Some e), s1, sz.
  - destruct (IH s1 (Hw1 eq_refl)) as (ms2 & ec2 & s' & s'' & -> & Hr2 & Hw2). cbn [mbind res_bind].
    destruct (Happ _ _ _ Hr2) as (sz & Hz & Heq). exists (ms ++ ms2), ec2, s', sz. split_and!; [done..|]. intros Hec.
    destruct (Hw2 Hec) as [-> ?]. by rewrite (Heq Hec).
Qed.

(** ** Sequences of frames and the messages they make *)
Inductive frame :=
  | DataFrame (op : Z) (fin : bool) (key : Z) (payload : list Z)
  | ControlFrame (op : Z) (key : Z) (payload : list Z).
Definition frame_wire (server : bool) (f : frame) : list Z :=
  match f with
  | DataFrame op fin key payload => frame_bytes op fin server key payload
  | ControlFrame op key payload => frame_bytes op true server key payload
  end.

(** The opcode and payload of each message; [acc] is the message in progress. *)
Fixpoint messages_of (acc : option (Z * list Z)) (fs : list frame) : list (Z * list Z) :=
  match fs with
  | [] => []
  | DataFrame op fin _ p :: fs =>
      let '(op0, a) := match acc with Some x => x | None => (op, []) end in
      if fin then (op0, a ++ p) :: messages_of None fs else messages_of (Some (op0, a ++ p)) fs
  | ControlFrame op _ p :: fs => (op, p) :: messages_of acc fs
  end.

(** The rules a sender follows: continuation frames continue a message, messages are no
    longer than [max], control frames are short, text is UTF-8. *)
Fixpoint frames_ok (max : Z) (acc : option (Z * list Z)) (fs : list frame) : Prop :=
  match fs with
  | [] => True
  | DataFrame op fin key p :: fs =>
      let '(op0, a) := match acc with Some x => x | None => (op, []) end in
      0 ≤ key < 2 ^ 32 ∧ bytes_ok p ∧ (match acc with Some _ => op = 0 | None => op = 1 ∨ op = 2 end) ∧
      Z.of_nat (length (a ++ p)) ≤ max ∧
      (op0 = opcode.text → (∃ v, decode (a ++ p) new_validator = Ok (true, v)) ∧ (fin = true → validate (a ++ p) = Ok true)) ∧
      frames_ok max (if fin then None else Some (op0, a ++ p)) fs
  | ControlFrame op key p :: fs =>
      (op = 8 ∨ op = 9 ∨ op = 10) ∧ 0 ≤ key < 2 ^ 32 ∧ bytes_ok p ∧ Z.of_nat (length p) ≤ 125 ∧ frames_ok max acc fs
  end.

(** The processor in the middle of a message. *)
Definition in_progress (acc : option (Z * list Z)) (t : hybi13) : Prop :=
  at_frame t ∧
  match acc with
  | None => msg_ptr (m_data_msg t) = None
  | Some (op, a) => ∃ m, msg_ptr (m_data_msg t) = Some m ∧ m_opcode m = op ∧ m_payload m = a ∧ (op = 1 ∨ op = 2) ∧
      (op = opcode.text → decode a new_validator = Ok (true, utf8 (m_data_msg t)))
  end.

Lemma in_progress_fields acc t : in_progress acc t →
  accumulated t = match acc with Some (_, a) => a | None => [] end ∧
  ∀ op, message_opcode op t = match acc with Some (op0, _) => op0 | None => op end.
Proof.
  intros [_ Hm]. unfold accumulated, message_opcode. destruct acc as [[op a]|]; [|by rewrite Hm].
  destruct Hm as (m & -> & <- & <- & _). done.
Qed.
Lemma check_text_prefix acc t op p v : in_progress acc t →
  let '(op0, a) := match acc with Some x => x | None => (op, []) end in
  (op0 = opcode.text → decode (a ++ p) new_validator = Ok (true, v)) →
  ∃ v', check_text op0 p (text_so_far t) = (true, v') ∧ (op0 = opcode.text → v' = v).
Proof.
  intros [_ Hm]. unfold text_so_far, check_text. destruct acc as [[op0 a]|]; [|rewrite Hm].
  - destruct Hm as (m & -> & _ & _ & _ & Hdec). intros Hd. destruct (op0 =? opcode.text) eqn:E; [|eexists; split; [done|lia]].
    assert (op0 = opcode.text) as He by lia. specialize (Hdec He). specialize (Hd He). rewrite decode_app, Hdec in Hd. cbn [mbind res_bind] in Hd. rewrite Hd. eauto.
  - intros Hd. destruct (op =? opcode.text) eqn:E; [|eexists; split; [done|lia]]. cbn [app] in Hd. rewrite Hd by lia. eauto.
Qed.
Lemma validate_complete s v : decode s new_validator = Ok (true, v) → validate s = Ok true → complete v = true.
Proof. unfold validate. intros ->. cbn [mbind res_bind]. by intros [= ->]. Qed.

Lemma reads_prefix (w : list Z) t t' : (∀ more r ec s', run more t' r ec s' → run (w ++ more) t r ec s') →
  ∀ more ms ec s', reads more t' ms ec s' → reads (w ++ more) t ms ec s'.
Proof.
  intros Hw more ms ec s' Hr. inversion Hr; subst; [apply reads_wait|eapply reads_error|eapply reads_message]; eauto.
Qed.

Definition summary (m : message) : Z * list Z := (m_opcode m, m_payload m).

(** One frame: a message comes out when it is the last of its message. *)
Lemma reads_data_frame acc t op fin key p :
  in_progress acc t →
  let '(op0, a) := match acc with Some x => x | None => (op, []) end in
  0 ≤ key < 2 ^ 32 → bytes_ok p → (match acc with Some _ => op = 0 | None => op = 1 ∨ op = 2 end) →
  Z.of_nat (length (a ++ p)) ≤ m_max_message_size t →
  (op0 = opcode.text → (∃ v, decode (a ++ p) new_validator = Ok (true, v)) ∧ (fin = true → validate (a ++ p) = Ok true)) →
  ∃ t', in_progress (if fin then None else Some (op0, a ++ p)) t' ∧ m_server t' = m_server t ∧ m_max_message_size t' = m_max_message_size t ∧
  (∀ more ms ec s', reads more t' ms ec s' → ∃ out, reads (frame_bytes op fin (m_server t) key p ++ more) t (out ++ ms) ec s' ∧
    summary <$> out = if fin then [(op0, a ++ p)] else []).
Proof.
  intros Hin. destruct (in_progress_fields acc t Hin) as [Hacc Hmop]. specialize (Hmop op).
  pose proof (λ v, check_text_prefix acc t op p v Hin) as Hct. pose proof Hin as [Hat Hm].
  destruct (match acc with Some x => x | None => (op, []) end) as [op0 a] eqn:Eacc.
  assert (Ha : accumulated t = a ∧ message_opcode op t = op0) by (destruct acc as [[? ?]|]; by simplify_eq/=). destruct Ha as [Ha Hop0].
  clear Hacc Hmop. intros Hkey Hp Hop Hmax Htext.
  assert (Hv : ∃ v, (op0 = opcode.text → decode (a ++ p) new_validator = Ok (true, v))).
  { destruct (decide (op0 = opcode.text)) as [E|E]; [destruct (Htext E) as [[v ?] _]; by exists v|by exists new_validator]. }
  destruct Hv as [v Hv]. destruct (Hct v Hv) as (v' & Hct' & Hv'). clear Hct.
  destruct (run_data_frame deflate_off t op fin key p) as (t' & m' & pk & v2 & Hrun & Hok' & E1 & E2 & E3 & E4 & E5 & E6 & E7 & Hend); try done.
  - destruct acc; lia.
  - destruct acc as [[? ?]|]; [destruct Hm as (m & -> & _); done|]. rewrite Hm. split; [lia|done].
  - by rewrite Ha.
  - rewrite Hop0. exists v'. split; [done|]. intros Hf Ht. destruct acc as [[? ?]|]; [unfold opcode.text in Ht; lia|]. injection Eacc as <- <-.
    rewrite Hv' by done. destruct (Htext Ht) as [_ Hval]. eapply validate_complete; [by apply Hv|by apply Hval].
  - rewrite Ha in E5. rewrite Hop0 in E6, E7. rewrite Hct' in E7. injection E7 as <-. destruct fin.
    + destruct Hend as [Es Ec]. destruct (get_message_ready t' Data m' pk v' Hok' Es Ec) as (t'' & Hg & Hat'' & F1 & F2 & Hd & _); [done|].
      exists t''. split_and!; [split; [done|by apply Hd]|congruence|congruence|]. intros more ms ec s' Hr. exists [m']. split.
      * apply (reads_message _ _ more t' m' t''); [|done..]. apply Hrun, run_stop. by left.
      * cbn. unfold summary. by rewrite E5, E6.
    + exists t'. split_and!; [split; [done|]|done|done|].
      * exists m'. rewrite E4. split_and!; [done..| |].
        -- destruct acc as [[? ?]|]; injection Eacc as <- <-; [by destruct Hm as (m & _ & _ & _ & ? & _)|done].
        -- intros Ht. cbn [utf8]. rewrite Hv' by done. by apply Hv.
      * intros more ms ec s' Hr. exists []. split; [|done]. by apply (reads_prefix _ _ _ Hrun).
Qed.

Lemma reads_control_frame acc t op key p :
  in_progress acc t → op = 8 ∨ op = 9 ∨ op = 10 → 0 ≤ key < 2 ^ 32 → bytes_ok p → Z.of_nat (length p) ≤ 125 →
  ∃ t', in_progress acc t' ∧ m_server t' = m_server t ∧ m_max_message_size t' = m_max_message_size t ∧
  (∀ more ms ec s', reads more t' ms ec s' → ∃ m, reads (frame_bytes op true (m_server t) key p ++ more) t (m :: ms) ec s' ∧ summary m = (op, p)).
Proof.
  intros [Hat Hm] Hop Hkey Hp Hmax.
  destruct (run_control_frame deflate_off t op key p Hat Hop Hkey Hp Hmax) as (t' & m' & pk & Hrun & Hok' & E1 & E2 & E3 & E4 & E5 & E6 & Es & Ec).
  destruct (get_message_ready t' Control m' pk new_validator Hok' Es Ec) as (t'' & Hg & Hat'' & F1 & F2 & _ & Hd); [done|].
  destruct (Hd eq_refl) as [_ Hd']. exists t''. split_and!; [split; [done|by rewrite Hd', E3]|congruence|congruence|]. intros more ms ec s' Hr. exists m'. split.
  - apply (reads_message _ _ more t' m' t''); [|done..]. apply Hrun, run_stop. by left.
  - unfold summary. by rewrite E5, E6.
Qed.

Lemma reads_frames fs acc t : in_progress acc t → frames_ok (m_max_message_size t) acc fs →
  ∃ ms s', reads (concat (frame_wire (m_server t) <$> fs)) t ms None s' ∧ summary <$> ms = messages_of acc fs ∧ at_frame s'.
Proof.
  revert acc t. induction fs as [|f fs IH]; intros acc t Hin Hok.
  { pose proof Hin as [Hat _]. exists [], t. split_and!; [|done|done]. destruct (at_frame_waiting t Hat) as (? & ? & ?).
    apply reads_wait; [|done]. apply run_stop. by right. }
  destruct f as [op fin key p|op key p]; cbn [fmap list_fmap concat frame_wire messages_of frames_ok] in *.
  - pose proof (reads_data_frame acc t op fin key p Hin) as Hstep.
    destruct (match acc with Some x => x | None => (op, []) end) as [op0 a]. destruct Hok as (Hk & Hp & Hop & Hmax & Htext & Hok).
    destruct (Hstep Hk Hp Hop Hmax Htext) as (t' & Hin' & E1 & E2 & Hnext).
    destruct (IH _ t' Hin') as (ms & s' & Hr & Hms & Hat); [by rewrite E2|]. rewrite E1 in Hr.
    destruct (Hnext _ _ _ _ Hr) as (out & Hout & Hsum). exists (out ++ ms), s'. split_and!; [done| |done].
    rewrite fmap_app, Hsum, Hms. by destruct fin.
  - destruct Hok as (Hop & Hk & Hp & Hl & Hok).
    destruct (reads_control_frame acc t op key p Hin Hop Hk Hp Hl) as (t' & Hin' & E1 & E2 & Hnext).
    destruct (IH _ t' Hin') as (ms & s' & Hr & Hms & Hat); [by rewrite E2|]. rewrite E1 in Hr.
    destruct (Hnext _ _ _ _ Hr) as (m & Hout & Hsum). exists (m :: ms), s'. split_and!; [done| |done].
    cbn [fmap list_fmap]. by rewrite Hsum, <- Hms.
Qed.
End Stream.

(** Whatever frames one end writes by the rules, and however their bytes are cut into
    reads, the other end takes out exactly their messages, and ends between two frames. *)
Theorem stream_delivered `{Machine} `{Deflate} (off : ∀ d, is_enabled d = false) fs t chunks :
  at_frame t → msg_ptr (m_data_msg t) = None → frames_ok (m_max_message_size t) None fs →
  Forall bytes_ok chunks → concat chunks = concat (frame_wire (m_server t) <$> fs) →
  ∃ ms t', read_all chunks t = Ok (ms, None, t') ∧ summary <$> ms = messages_of None fs ∧ at_frame t'.
Proof.
  intros Hat Hd Hok Hb Hc. destruct (reads_frames off fs None t (conj Hat Hd) Hok) as (ms & s' & Hr & Hms & Hat').
  destruct (read_all_reads off chunks t (at_frame_waiting t Hat) Hb) as (ms2 & ec & t' & t'' & Hra & Hr2 & Hw). rewrite Hc in Hr2.
  destruct (reads_det _ _ _ _ _ _ _ _ Hr Hr2) as (<- & <- & <-). destruct (Hw eq_refl) as [<- _]. by exists ms, s'.
Qed.

(** Two fragments of a text with a ping between them, byte by byte. *)
Lemma stream_delivered_witness :
  ∃ ms t', @read_all x86_64 disabled
    ((λ b, [b]) <$> [1; 131; 0; 0; 0; 7; 104; 226; 130 ] ++ [137; 129; 0; 0; 0; 0; 33] ++ [128; 129; 0; 0; 0; 0; 172])
    (@new_hybi13 disabled true 32000000 ()) = Ok (ms, None, t') ∧
  summary <$> ms = [(9, [33]); (1, [104; 226; 130; 172])].
Proof.
  destruct (@stream_delivered x86_64 disabled (λ _, eq_refl)
    [DataFrame 1 false 117440512 [104; 226; 130]; ControlFrame 9 0 [33]; DataFrame 0 true 0 [172]]
    (@new_hybi13 disabled true 32000000 ())
    ((λ b, [b]) <$> [1; 131; 0; 0; 0; 7; 104; 226; 130 ] ++ [137; 129; 0; 0; 0; 0; 33] ++ [128; 129; 0; 0; 0; 0; 172])) as (ms & t' & H1 & H2 & _).
  - split; [|done]. apply new_hybi13_ok. split; [lia|by vm_compute].
  - done.
  - cbn [frames_ok]. unfold bytes_ok, byte_ok.
    repeat match goal with |- _ ∧ _ => split | |- Forall _ _ => repeat constructor; lia | |- false = true → _ => intros [=] | |- _ → _ => intros _ | |- ∃ _, _ => eexists; vm_compute; reflexivity end;
      try done; try lia; try (by vm_compute); auto.
  - unfold bytes_ok, byte_ok. repeat constructor; lia.
  - vm_compute. reflexivity.
  - exists ms, t'. split; [exact H1|exact H2].
Defined.

(** ** The sending end *)
Section Sending.
Context `{Machine} `{Deflate}.
Hypothesis deflate_off : ∀ d, is_enabled d = false.
Variable rng : nat → Z.
Hypothesis rng_range : ∀ n, 0 ≤ rng n < 2 ^ 32.

(** What an application asks a connection to send. *)
Inductive request :=
  | SendData (m : message)
  | SendPing (payload : list Z)
  | SendPong (payload : list Z)
  | SendClose (code : Z) (reason : list Z).
Definition new_buffer : message := mkMessage [] [] [] 0 false true false false.
Definition prepare (r : request) (s : hybi13) : res (option error_code * option message * hybi13) :=
  match r with
  | SendData m => prepare_data_frame rng (Some m) (Some new_buffer) s
  | SendPing p => prepare_ping rng p (Some new_buffer) s
  | SendPong p => prepare_pong rng p (Some new_buffer) s
  | SendClose code reason => prepare_close rng code reason (Some new_buffer) s
  end.
(** Each request that is accepted goes on the wire. *)
Fixpoint send_all (rs : list request) (s : hybi13) : res (list Z * hybi13) :=
  match rs with
  | [] => Ok ([], s)
  | r :: rs =>
      '(ec, out, s) ← prepare r s;
      let w := match ec, out with None, Some m => wire m | _, _ => [] end in
      '(ws, s) ← send_all rs s;
      Ok (w ++ ws, s)
  end.

(** The specification: the opcode and payload each request stands for, or none when the
    request is refused. *)
Definition utf8_ok (p : list Z) : bool := match validate p with Ok b => b | Err _ => false end.
Definition close_payload (code : Z) (reason : list Z) : list Z := if code =? 1005 then [] else [code / 256; code mod 256] ++ reason.
Definition close_accepted (code : Z) (reason : list Z) : bool :=
  negb (status.reserved code) && ((code =? 1005) && bool_decide (reason = []) || negb (code =? 1005) && negb (status.invalid code))
  && (Z.of_nat (length reason) <=? 123).
Definition meaning (r : request) : list (Z * list Z) :=
  match r with
  | SendData m => if negb (opcode.is_control (m_opcode m)) && (negb (m_opcode m =? 1) || utf8_ok (m_payload m)) then [(m_opcode m, m_payload m)] else []
  | SendPing p => if Z.of_nat (length p) <=? 125 then [(9, p)] else []
  | SendPong p => if Z.of_nat (length p) <=? 125 then [(10, p)] else []
  | SendClose code reason => if close_accepted code reason then [(8, close_payload code reason)] else []
  end.
(** What the types of the code and the limit of the receiver allow. *)
Definition request_ok (max : Z) (r : request) : Prop :=
  match r with
  | SendData m => m_fin m = true ∧ (opcode.is_control (m_opcode m) = true ∨ m_opcode m = 1 ∨ m_opcode m = 2) ∧ bytes_ok (m_payload m) ∧ Z.of_nat (length (m_payload m)) ≤ max
  | SendPing p | SendPong p => bytes_ok p
  | SendClose code reason => 0 ≤ code < 65536 ∧ bytes_ok reason
  end.

Lemma make_header_spec op size fin masked key : 0 ≤ size < 2 ^ 64 →
  make_header op size fin masked false key =
  Ok ([b0 (frame_header op size fin masked); b1 (frame_header op size fin masked)] ++ ext_bytes size masked key).
Proof.
  intros Hs. unfold make_header. pose proof (make_extended_spec size masked key Hs) as He. unfold make_extended in He.
  destruct masked; rewrite He; cbn [mbind res_bind]; unfold prepare_header; fold (frame_header op size fin true); fold (frame_header op size fin false);
    unfold frame_header; rewrite (header_len_spec _ _ _ _ _ _ _ key) by lia; rewrite load_ext_bytes; (done || (unfold BASIC_HEADER_LENGTH; lia)).
Qed.

(** The key of the next frame: clients draw one. *)
Definition next_key (s : hybi13) : Z := if m_server s then 0 else rng (m_rng s).
Definition drawn (s : hybi13) : hybi13 := if m_server s then s else set_rng (S (m_rng s)) s.
Lemma next_key_range s : 0 ≤ next_key s < 2 ^ 32.
Proof. unfold next_key. destruct (m_server s); [lia|apply rng_range]. Qed.

Lemma frame_bytes_key op fin mask key p : (mask = false → True) → frame_bytes op fin mask key p =
  ([b0 (frame_header op (Z.of_nat (length p)) fin mask); b1 (frame_header op (Z.of_nat (length p)) fin mask)] ++ ext_bytes (Z.of_nat (length p)) mask key) ++ (if mask then mask_spec (host_bytes 4 key) 0 p else p).
Proof. intros _. unfold frame_bytes. by rewrite <- app_assoc. Qed.

Lemma prepare_control_spec op p s : 8 ≤ op < 16 →
  ∃ out, prepare_control rng op p (Some new_buffer) s =
    (if Z.of_nat (length p) <=? 125 then Ok (None, Some out, drawn s) else Ok (make_error_code control_too_big, Some new_buffer, s)) ∧
  wire out = frame_bytes op true (negb (m_server s)) (next_key s) p.
Proof.
  intros Hop. unfold prepare_control, opcode.is_control. rewrite (proj2 (Z.leb_le 8 op)) by lia. cbn [negb]. unfold limits.payload_size_basic.
  rewrite Z.ltb_antisym. destruct (Z.of_nat (length p) <=? 125) eqn:El; cbn [negb]; [|eexists (mkMessage [] [] (frame_bytes _ _ _ _ _) 0 false true false false); split; [done|]; unfold wire; done].
  unfold drawn, next_key. destruct (m_server s); cbn [negb]; rewrite make_header_spec by lia; cbn [mbind res_bind mret res_ret]; unfold masked_copy;
    rewrite ?byte_mask_spec by apply host_bytes_length; cbn [mbind res_bind mret res_ret]; eexists; (split; [done|]); unfold wire; cbn [m_header m_payload set_prepared set_opcode set_payload set_header]; by rewrite frame_bytes_key.
Qed.
Lemma prepare_data_spec m s : m_opcode m = 1 ∨ m_opcode m = 2 → bytes_ok (m_payload m) → Z.of_nat (length (m_payload m)) < 2 ^ 64 →
  ∃ out, prepare_data_frame rng (Some m) (Some new_buffer) s =
    (if negb (m_opcode m =? 1) || utf8_ok (m_payload m) then Ok (None, Some out, drawn s) else Ok (make_error_code invalid_payload, Some new_buffer, s)) ∧
  wire out = frame_bytes (m_opcode m) (m_fin m) (negb (m_server s)) (next_key s) (m_payload m).
Proof.
  intros Hop Hb Hl. unfold prepare_data_frame. assert (opcode.is_control (m_opcode m) = false) as -> by (unfold opcode.is_control; lia).
  destruct (validate_total (m_payload m) Hb) as (r & Hr). unfold utf8_ok. rewrite Hr. unfold opcode.text.
  assert (Hdefault : ∃ out, wire out = frame_bytes (m_opcode m) (m_fin m) (negb (m_server s)) (next_key s) (m_payload m)).
  { by exists (mkMessage [] [] (frame_bytes (m_opcode m) (m_fin m) (negb (m_server s)) (next_key s) (m_payload m)) 0 false true false false). }
  assert (Hv : (if m_opcode m =? 1 then Ok r else mret true) = Ok (negb (m_opcode m =? 1) || r)) by (by destruct (m_opcode m =? 1)).
  rewrite Hv. cbn [mbind res_bind]. destruct (negb (m_opcode m =? 1) || r); cbn [negb]; [|destruct Hdefault as [out ?]; by exists out].
  clear Hv Hdefault. unfold drawn, next_key. rewrite deflate_off. cbn [andb mbind res_bind mret res_ret].
  destruct (m_server s); cbn [negb]; unfold masked_copy; rewrite ?byte_mask_spec by apply host_bytes_length; cbn [mbind res_bind mret res_ret];
    rewrite ?mask_spec_length, make_header_spec by lia; cbn [mbind res_bind mret res_ret]; eexists; (split; [done|]);
    unfold wire; cbn [m_header m_payload set_prepared set_opcode set_payload set_header]; by rewrite frame_bytes_key.
Qed.

Lemma code_bytes code : 0 ≤ code < 65536 → host_bytes 2 (htons code) = [code / 256; code mod 256].
Proof.
  intros Hc. assert (Hle : rev (le_bytes 2 code) = [code / 256; code mod 256]).
  { cbn. f_equal. rewrite Z.mod_small; [done|]. Z.div_mod_to_equations. lia. }
  unfold htons, ntohs, host_val, host_bytes. destruct is_little_endian; [|done].
  pose proof (le_bytes_val (rev (le_bytes 2 code)) (Forall_rev (le_bytes_ok 2 code))) as Hx. rewrite length_rev, le_bytes_length in Hx. by rewrite Hx.
Qed.
Lemma prepare_close_spec code reason s : 0 ≤ code < 65536 →
  ∃ out ec s', prepare_close rng code reason (Some new_buffer) s = Ok (ec, Some out, s') ∧
  if close_accepted code reason
  then ec = None ∧ s' = drawn s ∧ wire out = frame_bytes 8 true (negb (m_server s)) (next_key s) (close_payload code reason) ∧
    Z.of_nat (length (close_payload code reason)) ≤ 125
  else ec ≠ None ∧ s' = s.
Proof.
  intros Hc. unfold prepare_close, close_accepted, close_payload, status.no_status, limits.payload_size_basic.
  destruct (status.reserved code) eqn:Er; cbn [negb andb]; [by eexists _, _, _|].
  destruct (code =? 1005) eqn:E5; cbn [negb andb orb].
  - rewrite andb_false_r. destruct reason as [|b reason]; [|by eexists _, _, _]. change (0 <? Z.of_nat (length [])) with false. cbv iota.
    destruct (prepare_control_spec 8 [] s ltac:(lia)) as (out & Hp & Hw).
    eexists out, _, _. split; [exact Hp|]. rewrite bool_decide_eq_true_2 by done. done.
  - rewrite andb_true_r. destruct (status.invalid code); cbn [negb andb]; [by eexists _, _, _|]. change (125 - 2) with 123. rewrite Z.ltb_antisym.
    destruct (Z.of_nat (length reason) <=? 123) eqn:El; cbn [negb]; [|by eexists _, _, _]. rewrite code_bytes by done.
    destruct (prepare_control_spec 8 ([code / 256; code mod 256] ++ reason) s ltac:(lia)) as (out & Hp & Hw).
    assert (Hlen : Z.of_nat (length ([code / 256; code mod 256] ++ reason)) ≤ 125) by (rewrite length_app; cbn [length]; lia).
    rewrite (proj2 (Z.leb_le _ _) Hlen) in Hp. eexists out, _, _. split; [exact Hp|]. done.
Qed.
Lemma close_payload_ok code reason : 0 ≤ code < 65536 → bytes_ok reason → bytes_ok (close_payload code reason).
Proof.
  intros Hc Hr. unfold close_payload. destruct (code =? 1005); [by apply Forall_nil|]. unfold bytes_ok, byte_ok in *.
  repeat apply Forall_cons_2; [Z.div_mod_to_equations; lia..|done].
Qed.

(** A request is one frame with its meaning, or nothing. *)
Lemma prepare_frame max r s : request_ok max r → max < 2 ^ 64 →
  ∃ ec out s', prepare r s = Ok (ec, out, s') ∧ m_server s' = m_server s ∧
  ∃ fs, match ec, out with None, Some m => wire m | _, _ => [] end = concat (frame_wire (negb (m_server s)) <$> fs) ∧
  ∀ fs', messages_of None (fs ++ fs') = meaning r ++ messages_of None fs' ∧ (frames_ok max None fs' → frames_ok max None (fs ++ fs')).
Proof.
  intros Hr Hmax. assert (Hdrawn : m_server (drawn s) = m_server s) by (unfold drawn; by destruct (m_server s) eqn:E).
  pose proof (next_key_range s) as Hkey.
  assert (Hctl : ∀ op p, op = 8 ∨ op = 9 ∨ op = 10 → bytes_ok p → Z.of_nat (length p) ≤ 125 → ∀ fs', messages_of None ([ControlFrame op (next_key s) p] ++ fs') = [(op, p)] ++ messages_of None fs' ∧
    (frames_ok max None fs' → frames_ok max None ([ControlFrame op (next_key s) p] ++ fs'))) by (intros op p ? ? ? fs'; split; [done|]; by intros; cbn).
  destruct r as [m|p|p|code reason]; cbn [request_ok prepare meaning] in *.
  - destruct Hr as (Hf & Hop & Hb & Hl). destruct (opcode.is_control (m_opcode m)) eqn:Ec; cbn [negb andb].
    { unfold prepare_data_frame. rewrite Ec. eexists _, _, _. split; [done|]. split; [done|]. by exists []. }
    destruct Hop as [?|Hop]; [done|]. destruct (prepare_data_spec m s Hop Hb ltac:(lia)) as (out & -> & Hw).
    destruct (negb (m_opcode m =? 1) || utf8_ok (m_payload m)) eqn:Ev; eexists _, _, _; (split; [done|]).
    2: { split; [done|]. by exists []. }
    split; [done|]. exists [DataFrame (m_opcode m) true (next_key s) (m_payload m)]. split; [cbn; by rewrite app_nil_r, Hw, Hf|].
    intros fs'. split; [done|]. intros Hfs. cbn. split_and!; try done; try lia. intros Ht. assert (Hval : validate (m_payload m) = Ok true).
    { unfold utf8_ok in Ev. unfold opcode.text in Ht. rewrite Ht in Ev. cbn in Ev. by destruct (validate (m_payload m)) as [[]|]. }
    split; [|done]. unfold validate in Hval. destruct (decode (m_payload m) new_validator) as [[[] v]|]; [by exists v|done..].
  - destruct (prepare_control_spec 9 p s ltac:(lia)) as (out & Hp & Hw). unfold prepare_ping. unfold opcode.ping. rewrite Hp.
    destruct (Z.of_nat (length p) <=? 125) eqn:El; eexists _, _, _; (split; [done|]); (split; [done|]); [|by exists []].
    exists [ControlFrame 9 (next_key s) p]. split; [cbn; by rewrite app_nil_r, Hw|]. apply Hctl; [lia|done|lia].
  - destruct (prepare_control_spec 10 p s ltac:(lia)) as (out & Hp & Hw). unfold prepare_pong. unfold opcode.pong. rewrite Hp.
    destruct (Z.of_nat (length p) <=? 125) eqn:El; eexists _, _, _; (split; [done|]); (split; [done|]); [|by exists []].
    exists [ControlFrame 10 (next_key s) p]. split; [cbn; by rewrite app_nil_r, Hw|]. apply Hctl; [lia|done|lia].
  - destruct Hr as [Hc Hb]. destruct (prepare_close_spec code reason s Hc) as (out & ec & s' & -> & Hspec).
    destruct (close_accepted code reason); eexists _, _, _; (split; [done|]).
    + destruct Hspec as (-> & -> & Hw & Hl). split; [done|]. exists [ControlFrame 8 (next_key s) (close_payload code reason)].
      split; [cbn; by rewrite app_nil_r, Hw|]. apply Hctl; [lia|by apply close_payload_ok|done].
    + destruct Hspec as [Hec ->]. split; [done|]. exists []. split; [by destruct ec|done].
Qed.

Lemma send_all_frames max rs s : Forall (request_ok max) rs → max < 2 ^ 64 →
  ∃ w s' fs, send_all rs s = Ok (w, s') ∧ w = concat (frame_wire (negb (m_server s)) <$> fs) ∧
  messages_of None fs = concat (meaning <$> rs) ∧ frames_ok max None fs.
Proof.
  intros Hrs Hmax. revert s. induction Hrs as [|r rs Hr _ IH]; intros s; [by exists [], s, []|].
  destruct (prepare_frame max r s Hr Hmax) as (ec & out & s1 & Hp & Hs1 & fs1 & Hw & Hfs1).
  destruct (IH s1) as (w & s' & fs & Hsend & -> & Hms & Hok). cbn [send_all]. rewrite Hp. cbn [mbind res_bind]. rewrite Hsend. cbn [mbind res_bind].
  destruct (Hfs1 fs) as [Hm1 Hok1]. eexists _, _, (fs1 ++ fs). split; [done|].
  split; [by rewrite Hw, Hs1, fmap_app, concat_app|]. split; [|auto]. by rewrite Hm1, Hms.
Qed.
End Sending.

(** C10: End to end, between two processors of the versions 7 to 13 of opposite roles without
    compression, the receiver at a frame boundary: the messages, pings, pongs and close frames the
    sender accepts are, in order, what the receiver takes out, whatever the reads are. The requests
    are whole messages (fin set) of text, binary data or a control opcode, which the sender refuses,
    of bytes, no longer than the limit of the receiver on messages; pings and pongs of any bytes;
    closes of any 16 bit code and any bytes as reason. What is refused (text that is not UTF-8,
    control payloads too long, reserved codes) puts nothing on the wire. The sender does not test
    the rest: a message over the limit of the receiver, or of a reserved opcode, is sent and then
    refused by the receiver. *)
Theorem sent_is_received `{Machine} `{Deflate} (off : ∀ d, is_enabled d = false) (rng : nat → Z) rs s t :
  (∀ n, 0 ≤ rng n < 2 ^ 32) → m_server t = negb (m_server s) → at_frame t → msg_ptr (m_data_msg t) = None →
  Forall (request_ok (m_max_message_size t)) rs →
  ∃ w s', send_all rng rs s = Ok (w, s') ∧
  ∀ chunks, Forall bytes_ok chunks → concat chunks = w →
  ∃ ms t', read_all chunks t = Ok (ms, None, t') ∧ summary <$> ms = concat (meaning <$> rs) ∧ at_frame t'.
Proof.
  intros Hrng Hst Hat Hd Hrs. pose proof (ok_max t (proj1 Hat)) as Hmax. pose proof max_size_ge as Hmg.
  assert (Hmax64 : m_max_message_size t < 2 ^ 64) by (destruct size_t_ok as [E|E]; rewrite E in Hmg; lia).
  destruct (send_all_frames off rng Hrng (m_max_message_size t) rs s Hrs Hmax64) as (w & s' & fs & Hsend & -> & Hms & Hok).
  exists (concat (frame_wire (negb (m_server s)) <$> fs)), s'. split; [done|]. intros chunks Hb Hc. rewrite <- Hst in Hc.
  destruct (reads_frames off fs None t (conj Hat Hd) Hok) as (ms & t1 & Hr & Hsum & Hat1).
  destruct (read_all_reads off chunks t (at_frame_waiting t Hat) Hb) as (ms2 & ec & t' & t2 & Hra & Hr2 & Hw). rewrite Hc in Hr2.
  destruct (reads_det _ _ _ _ _ _ _ _ Hr Hr2) as (<- & <- & <-). destruct (Hw eq_refl) as [<- _]. exists ms, t1. by rewrite Hsum.
Qed.
Lemma sent_is_received_witness :
  ∃ w s', @send_all x86_64 disabled (λ n, Z.of_nat n * 7919) [SendData (set_opcode 1 (set_payload [104; 105] new_buffer)); SendPing [1]; SendClose 1000 [98]]
    (@new_hybi13 disabled false 32000000 ()) = Ok (w, s') ∧
  ∃ ms t', @read_all x86_64 disabled [take 5 w; drop 5 w] (@new_hybi13 disabled true 32000000 ()) = Ok (ms, None, t') ∧
  summary <$> ms = [(1, [104; 105]); (9, [1]); (8, [3; 232; 98])].
Proof.
  destruct (@sent_is_received x86_64 disabled (λ _, eq_refl) (λ n, (Z.of_nat n * 7919) mod 2 ^ 32)
    [SendData (set_opcode 1 (set_payload [104; 105] new_buffer)); SendPing [1]; SendClose 1000 [98]]
    (@new_hybi13 disabled false 32000000 ()) (@new_hybi13 disabled true 32000000 ())) as (w & s' & H1 & H2).
  - intros n. by apply Z.mod_pos_bound.
  - done.
  - split; [|done]. apply new_hybi13_ok. split; [lia|by vm_compute].
  - done.
  - apply Forall_cons_2; [|apply Forall_cons_2; [|apply Forall_cons_2; [|by apply Forall_nil]]]; unfold request_ok, bytes_ok, byte_ok.
    + split; [done|]. split; [right; by left|]. split; [repeat constructor; lia|by vm_compute].
    + repeat constructor; lia.
    + split; [lia|repeat constructor; lia].
  - exists w, s'. assert (Hw : Ok (w, s') = @send_all x86_64 disabled (λ n, Z.of_nat n * 7919) [SendData (set_opcode 1 (set_payload [104; 105] new_buffer)); SendPing [1]; SendClose 1000 [98]]
      (@new_hybi13 disabled false 32000000 ())) by (rewrite <- H1; vm_compute; reflexivity).
    split; [by rewrite Hw|]. destruct (H2 [take 5 w; drop 5 w]) as (ms & t' & H3 & H4 & _).
    + assert (bytes_ok w); [|repeat apply Forall_cons_2; [by apply Forall_take|by apply Forall_drop|by apply Forall_nil]].
      vm_compute in Hw. injection Hw as -> _. unfold bytes_ok, byte_ok. repeat constructor; lia.
    + cbn. by rewrite app_nil_r, take_drop.
    + exists ms, t'. split; [exact H3|exact H4].
Defined.

(** ** Where the processor does not keep its rules *)

(** A text in two fragments that stops in the middle of a character is delivered: the last
    frame has the opcode of a continuation, and only the opcode of a text is checked. *)
Lemma fragmented_text_unchecked :
  (∃ ms t', @read_all x86_64 disabled [[1; 129; 0; 0; 0; 0; 104; 128; 129; 0; 0; 0; 0; 226]] (@new_hybi13 disabled true 32000000 ()) = Ok (ms, None, t') ∧
    summary <$> ms = [(1, [104; 226])]) ∧
  validate [104; 226] = Ok false.
Proof. split; [|by vm_compute]. eexists _, _. split; vm_compute; reflexivity. Qed.

(** A continuation frame whose length makes the sum wrap around passes the limit: here three
    bytes are taken into a message limited to one. *)
Lemma size_limit_wraps :
  ∃ t' m, @read_all x86_64 disabled [[2; 129; 0; 0; 0; 0; 65; 128; 255; 255; 255; 255; 255; 255; 255; 255; 255; 0; 0; 0; 0; 66; 67]]
    (@new_hybi13 disabled true 1 ()) = Ok ([], None, t') ∧
  msg_ptr (m_data_msg t') = Some m ∧ m_payload m = [65; 66; 67] ∧ m_max_message_size t' = 1.
Proof. eexists _, _. split_and!; vm_compute; reflexivity. Qed.

(** The reason of a close frame is not checked when it is sent. *)
Lemma close_reason_unchecked :
  ∃ out s', @prepare_close x86_64 disabled (λ _, 0) 1000 [255] (Some new_buffer) (@new_hybi13 disabled true 32000000 ()) = Ok (None, Some out, s') ∧
  validate [255] = Ok false.
Proof. eexists _, _. split; vm_compute; reflexivity. Qed.
