(* ===== verification/Base64.v ===== *)
(** * Base64: src/websocketpp-master/websocketpp/base64/base64.hpp

    Three bytes become four characters of six bits.  The theorem: decoding an encoding
    gives the bytes back, for any length. *)

From S2P Require Import Prelude Bytes.

Open Scope Z_scope.

(** [base64_chars]: A-Z, a-z, 0-9, [+] and [/], as character codes. *)
Definition base64_chars : list Z :=
  (Z.of_nat <$> seq 65 26) ++ (Z.of_nat <$> seq 97 26) ++ (Z.of_nat <$> seq 48 10) ++ [43; 47].
Definition pad : Z := 61.   (** ['='] *)

Definition is_base64 (c : Z) : bool :=
  (c =? 43) || ((47 <=? c) && (c <=? 57)) || ((65 <=? c) && (c <=? 90)) || ((97 <=? c) && (c <=? 122)).

Definition uchar (x : Z) : Z := x mod 256.
Definition char_at (i : Z) : res Z := match base64_chars !! Z.to_nat i with Some c => Ok c | None => Err OutOfBounds end.

(** The four indices of a group of three bytes. *)
Definition char_array_4 (a b c : Z) : list Z :=
  [ uchar (Z.shiftr (Z.land a 252) 2);
    uchar (Z.shiftl (Z.land a 3) 4 + Z.shiftr (Z.land b 240) 4);
    uchar (Z.shiftl (Z.land b 15) 2 + Z.shiftr (Z.land c 192) 6);
    uchar (Z.land c 63) ].
Fixpoint append_chars (l : list Z) (ret : list Z) : res (list Z) :=
  match l with [] => Ok ret | i :: l => c ← char_at i; append_chars l (ret ++ [c]) end.

(** The loop of [base64_encode]; [group] holds [char_array_3[0..i)]. *)
Fixpoint encode_loop (input group ret : list Z) : res (list Z) :=
  match input with
  | x :: input =>
      match group ++ [x] with
      | [a; b; c] => ret ← append_chars (char_array_4 a b c) ret; encode_loop input [] ret
      | group => encode_loop input group ret
      end
  | [] =>
      match group with
      | [] => Ok ret
      | _ =>
          let i := length group in
          let full := group ++ replicate (3 - i) 0 in
          let arr := char_array_4 (default 0 (full !! 0%nat)) (default 0 (full !! 1%nat)) (default 0 (full !! 2%nat)) in
          ret ← append_chars (take (i + 1) arr) ret;
          Ok (ret ++ replicate (3 - i) pad)
      end
  end.
Definition base64_encode (input : list Z) : res (list Z) := encode_loop input [] [].

(** [static_cast<unsigned char>(base64_chars.find(c))]: 255 when there is none. *)
Fixpoint find_index (l : list Z) (c i : Z) : Z :=
  match l with [] => 2 ^ 64 - 1 | x :: l => if x =? c then i else find_index l c (i + 1) end.
Definition char_index (c : Z) : Z := uchar (find_index base64_chars c 0).

Definition char_array_3 (a b c d : Z) : list Z :=
  [ uchar (Z.shiftl a 2 + Z.shiftr (Z.land b 48) 4);
    uchar (Z.shiftl (Z.land b 15) 4 + Z.shiftr (Z.land c 60) 2);
    uchar (Z.shiftl (Z.land c 3) 6 + d) ].

(** The loop of [base64_decode]; [group] holds [char_array_4[0..i)]. *)
Definition decode_end (group ret : list Z) : list Z :=
  match group with
  | [] => ret
  | _ =>
      let i := length group in
      let full := char_index <$> (group ++ replicate (4 - i) 0) in
      let arr := char_array_3 (default 0 (full !! 0%nat)) (default 0 (full !! 1%nat)) (default 0 (full !! 2%nat)) (default 0 (full !! 3%nat)) in
      ret ++ take (i - 1) arr
  end.
Fixpoint decode_loop (input group ret : list Z) : list Z :=
  match input with
  | x :: input =>
      if negb (x =? pad) && is_base64 x then
        match group ++ [x] with
        | [a; b; c; d] => decode_loop input [] (ret ++ char_array_3 (char_index a) (char_index b) (char_index c) (char_index d))
        | group => decode_loop input group ret
        end
      else decode_end group ret
  | [] => decode_end group ret
  end.
Definition base64_decode (input : list Z) : list Z := decode_loop input [] [].

(** ** Characters and groups *)
Lemma char_of_index i : 0 ≤ i < 64 → ∃ c, char_at i = Ok c ∧ char_index c = i ∧ is_base64 c = true ∧ (c =? pad) = false.
Proof.
  intros Hi. assert (Hc := below_check 64 (λ i, match char_at i with Err _ => false | Ok c => (char_index c =? i) && is_base64 c && negb (c =? pad) end)).
  specialize (Hc ltac:(by vm_compute) i Hi). cbv beta in Hc. destruct (char_at i) as [c|]; [|done]. exists c.
  rewrite !andb_true_iff, negb_true_iff, Z.eqb_eq in Hc. by destruct Hc as [[? ?] ?].
Qed.

(** The indices, by arithmetic. *)
Lemma char_array_4_spec a b c : byte_ok a → byte_ok b → byte_ok c →
  char_array_4 a b c = [a / 4; a mod 4 * 16 + b / 16; b mod 16 * 4 + c / 64; c mod 64].
Proof.
  unfold byte_ok. intros Ha Hb Hc. unfold char_array_4, uchar.
  assert (Hhi : ∀ x n m, 0 ≤ x < 256 → 0 ≤ n → m = Z.shiftl (Z.ones (8 - n)) n → n ≤ 8 → Z.shiftr (Z.land x m) n = x / 2 ^ n).
  { intros x n m Hx Hn -> Hn8. rewrite Z.shiftr_land, Z.shiftr_shiftl_l, Z.sub_diag, Z.shiftl_0_r by lia. rewrite Z.land_ones by lia.
    rewrite Z.shiftr_div_pow2 by lia. apply Z.mod_small. split; [apply Z.div_pos; lia|]. apply Z.div_lt_upper_bound; [lia|].
    rewrite <- Z.pow_add_r by lia. replace (n + (8 - n)) with 8 by lia. lia. }
  rewrite (Hhi a 2), (Hhi b 4), (Hhi c 6) by (lia || done).
  change 3 with (Z.ones 2). change 15 with (Z.ones 4). change 63 with (Z.ones 6). rewrite !Z.land_ones by lia. rewrite !Z.shiftl_mul_pow2 by lia.
  change (2 ^ 2) with 4. change (2 ^ 4) with 16. change (2 ^ 6) with 64.
  rewrite !(Z.mod_small _ 256) by (Z.div_mod_to_equations; lia). done.
Qed.
Lemma char_array_3_spec a b c d : 0 ≤ a < 64 → 0 ≤ b < 64 → 0 ≤ c < 256 → 0 ≤ d < 256 →
  take 2 (char_array_3 a b c d) = [a * 4 + b / 16; b mod 16 * 16 + c mod 64 / 4] ∧
  (c < 64 → d < 64 → char_array_3 a b c d = [a * 4 + b / 16; b mod 16 * 16 + c / 4; c mod 4 * 64 + d]).
Proof.
  intros Ha Hb Hc Hd. unfold char_array_3, uchar.
  assert (H1 : Z.shiftr (Z.land b 48) 4 = b / 16).
  { change 48 with (Z.shiftl (Z.ones 2) 4). rewrite Z.shiftr_land, Z.shiftr_shiftl_l, Z.sub_diag, Z.shiftl_0_r, Z.land_ones, Z.shiftr_div_pow2 by lia.
    change (2 ^ 4) with 16. change (2 ^ 2) with 4. Z.div_mod_to_equations. lia. }
  assert (H2 : Z.shiftr (Z.land c 60) 2 = c mod 64 / 4).
  { change 60 with (Z.shiftl (Z.ones 4) 2). rewrite Z.shiftr_land, Z.shiftr_shiftl_l, Z.sub_diag, Z.shiftl_0_r, Z.land_ones, Z.shiftr_div_pow2 by lia.
    change (2 ^ 4) with 16. change (2 ^ 2) with 4. Z.div_mod_to_equations. lia. }
  rewrite H1, H2. change 15 with (Z.ones 4). change 3 with (Z.ones 2). rewrite !Z.land_ones, !Z.shiftl_mul_pow2 by lia.
  change (2 ^ 2) with 4. change (2 ^ 4) with 16. change (2 ^ 6) with 64. cbn [take]. split.
  - rewrite !(Z.mod_small _ 256) by (Z.div_mod_to_equations; lia). done.
  - intros. rewrite (Z.mod_small c 64) by lia. rewrite !(Z.mod_small _ 256) by (Z.div_mod_to_equations; lia). done.
Qed.

(** ** Decoding an encoding *)
Lemma append_chars_spec l ret : Forall (λ i, 0 ≤ i < 64) l →
  ∃ cs, append_chars l ret = Ok (ret ++ cs) ∧ char_index <$> cs = l ∧ Forall (λ c, is_base64 c = true ∧ (c =? pad) = false) cs.
Proof.
  intros Hl. revert ret. induction Hl as [|i l Hi _ IH]; intros ret; [exists []; by rewrite app_nil_r|]. cbn [append_chars].
  destruct (char_of_index i Hi) as (c & -> & Hx & Hb & Hp). cbn [mbind res_bind]. destruct (IH (ret ++ [c])) as (cs & -> & Hcs & Hall).
  exists (c :: cs). rewrite <- app_assoc. split; [done|]. split; [cbn; by rewrite Hx, Hcs|by constructor].
Qed.
Lemma char_array_4_range a b c : byte_ok a → byte_ok b → byte_ok c → Forall (λ i, 0 ≤ i < 64) (char_array_4 a b c).
Proof.
  intros Ha Hb Hc. rewrite char_array_4_spec by done. unfold byte_ok in *.
  repeat apply Forall_cons_2; try apply Forall_nil; try done; Z.div_mod_to_equations; lia.
Qed.

(** One full group is decoded to its bytes. *)
Lemma decode_group a b c cs rest ret : byte_ok a → byte_ok b → byte_ok c → char_index <$> cs = char_array_4 a b c →
  Forall (λ c, is_base64 c = true ∧ (c =? pad) = false) cs → decode_loop (cs ++ rest) [] ret = decode_loop rest [] (ret ++ [a; b; c]).
Proof.
  intros Ha Hb Hc Hcs Hall. pose proof (f_equal length Hcs) as Hl. rewrite length_fmap in Hl.
  destruct cs as [|c0 [|c1 [|c2 [|c3 [|]]]]]; try discriminate Hl. rewrite char_array_4_spec in Hcs by done. injection Hcs as E0 E1 E2 E3.
  apply Forall_cons in Hall as [[B0 P0] Hall]. apply Forall_cons in Hall as [[B1 P1] Hall]. apply Forall_cons in Hall as [[B2 P2] Hall]. apply Forall_cons in Hall as [[B3 P3] _].
  cbn [app decode_loop]. rewrite P0, B0, P1, B1, P2, B2, P3, B3. cbn [negb andb app]. f_equal. f_equal. unfold byte_ok in *.
  rewrite E0, E1, E2, E3.
  assert (0 ≤ a / 4 < 64 ∧ 0 ≤ a mod 4 * 16 + b / 16 < 64 ∧ 0 ≤ b mod 16 * 4 + c / 64 < 64 ∧ 0 ≤ c mod 64 < 64) as (? & ? & ? & ?) by (Z.div_mod_to_equations; lia).
  rewrite (proj2 (char_array_3_spec (a / 4) (a mod 4 * 16 + b / 16) (b mod 16 * 4 + c / 64) (c mod 64) ltac:(lia) ltac:(lia) ltac:(lia) ltac:(lia))) by lia.
  repeat f_equal; Z.div_mod_to_equations; lia.
Qed.

(** The last group of one or two bytes. *)
Lemma decode_rest_one a cs ret : byte_ok a → char_index <$> cs = take 2 (char_array_4 a 0 0) →
  Forall (λ c, is_base64 c = true ∧ (c =? pad) = false) cs → decode_loop (cs ++ [pad; pad]) [] ret = ret ++ [a].
Proof.
  intros Ha Hcs Hall. pose proof (f_equal length Hcs) as Hl. rewrite length_fmap in Hl. destruct cs as [|c0 [|c1 [|]]]; try discriminate Hl.
  rewrite char_array_4_spec in Hcs by (done || by split). injection Hcs as E0 E1.
  apply Forall_cons in Hall as [[B0 P0] Hall]. apply Forall_cons in Hall as [[B1 P1] _].
  cbn [app decode_loop]. rewrite P0, B0, P1, B1. cbn [negb andb app]. rewrite Z.eqb_refl. cbn [negb andb]. unfold decode_end. f_equal.
  cbn [length Nat.sub replicate app fmap list_fmap default lookup list_lookup]. rewrite E0, E1. unfold byte_ok in Ha.
  assert (0 ≤ a / 4 < 64 ∧ 0 ≤ a mod 4 * 16 + 0 / 16 < 64) as (? & ?) by (Z.div_mod_to_equations; lia).
  assert (Hz : char_index 0 = 255) by (by vm_compute). rewrite !Hz. unfold id.
  pose proof (proj1 (char_array_3_spec (a / 4) (a mod 4 * 16 + 0 / 16) 255 255 ltac:(lia) ltac:(lia) ltac:(lia) ltac:(lia))) as Hx.
  apply (f_equal (take 1)) in Hx. rewrite take_take in Hx. change (2 - 1)%nat with 1%nat. change (1 `min` 2)%nat with 1%nat in Hx. rewrite Hx.
  cbn [take]. f_equal. Z.div_mod_to_equations. lia.
Qed.
Lemma decode_rest_two a b cs ret : byte_ok a → byte_ok b → char_index <$> cs = take 3 (char_array_4 a b 0) →
  Forall (λ c, is_base64 c = true ∧ (c =? pad) = false) cs → decode_loop (cs ++ [pad]) [] ret = ret ++ [a; b].
Proof.
  intros Ha Hb Hcs Hall. pose proof (f_equal length Hcs) as Hl. rewrite length_fmap in Hl. destruct cs as [|c0 [|c1 [|c2 [|]]]]; try discriminate Hl.
  rewrite char_array_4_spec in Hcs by (done || by split). injection Hcs as E0 E1 E2.
  apply Forall_cons in Hall as [[B0 P0] Hall]. apply Forall_cons in Hall as [[B1 P1] Hall]. apply Forall_cons in Hall as [[B2 P2] _].
  cbn [app decode_loop]. rewrite P0, B0, P1, B1, P2, B2. cbn [negb andb app]. rewrite Z.eqb_refl. cbn [negb andb]. unfold decode_end. f_equal.
  cbn [length Nat.sub replicate app fmap list_fmap default lookup list_lookup]. rewrite E0, E1, E2. unfold byte_ok in *.
  assert (0 ≤ a / 4 < 64 ∧ 0 ≤ a mod 4 * 16 + b / 16 < 64 ∧ 0 ≤ b mod 16 * 4 + 0 / 64 < 64) as (? & ? & ?) by (Z.div_mod_to_equations; lia).
  assert (Hz : char_index 0 = 255) by (by vm_compute). rewrite !Hz. unfold id.
  pose proof (proj1 (char_array_3_spec (a / 4) (a mod 4 * 16 + b / 16) (b mod 16 * 4 + 0 / 64) 255 ltac:(lia) ltac:(lia) ltac:(lia) ltac:(lia))) as Hx.
  change (3 - 1)%nat with 2%nat. rewrite Hx. repeat f_equal; Z.div_mod_to_equations; lia.
Qed.

(** The characters of an encoding. *)
Definition text_code (c : Z) : Prop := is_base64 c = true ∨ c = pad.
Lemma codes_text cs : Forall (λ c, is_base64 c = true ∧ (c =? pad) = false) cs → Forall text_code cs.
Proof. intros H. eapply Forall_impl; [exact H|]. intros c [? _]. by left. Qed.
Lemma decode_encode_loop n input ret : (length input ≤ n)%nat → bytes_ok input →
  ∃ cs, encode_loop input [] ret = Ok (ret ++ cs) ∧ (length cs ≤ 4 * length input)%nat ∧ Forall text_code cs ∧ ∀ out, decode_loop cs [] out = out ++ input.
Proof.
  revert input ret. induction n as [|n IH]; intros input ret Hl Hb; destruct input as [|a [|b [|c input]]]; try (cbn in Hl; lia).
  1, 2: exists []; rewrite app_nil_r; split_and!; [done|simpl; lia|done|intros; cbn; by rewrite app_nil_r].
  all: unfold bytes_ok in Hb; repeat match goal with Hf : Forall byte_ok (_ :: _) |- _ => apply Forall_cons in Hf as [? Hf] end; assert (byte_ok 0) by (by split).
  - cbn [encode_loop app length Nat.sub replicate].
    destruct (append_chars_spec (take 2 (char_array_4 a 0 0)) ret) as (cs & E & Hcs & Hall); [by apply Forall_take, char_array_4_range|].
    exists (cs ++ [pad; pad]). split_and!; [cbn [default lookup list_lookup]; unfold id; cbn [Nat.add]; rewrite E; cbn [mbind res_bind]; by rewrite <- app_assoc|apply (f_equal length) in Hcs; rewrite length_fmap in Hcs; rewrite length_app, Hcs; simpl; lia| |intros; by apply decode_rest_one].
    apply Forall_app. split; [by apply codes_text|by repeat (apply Forall_cons; split; [by right|])].
  - cbn [encode_loop app length Nat.sub replicate].
    destruct (append_chars_spec (take 3 (char_array_4 a b 0)) ret) as (cs & E & Hcs & Hall); [by apply Forall_take, char_array_4_range|].
    exists (cs ++ [pad]). split_and!; [cbn [default lookup list_lookup]; unfold id; cbn [Nat.add]; rewrite E; cbn [mbind res_bind]; by rewrite <- app_assoc|apply (f_equal length) in Hcs; rewrite length_fmap in Hcs; rewrite length_app, Hcs; simpl; lia| |intros; by apply decode_rest_two].
    apply Forall_app. split; [by apply codes_text|by repeat (apply Forall_cons; split; [by right|])].
  - cbn [encode_loop app].
    destruct (append_chars_spec (char_array_4 a b c) ret) as (cs & E & Hcs & Hall); [by apply char_array_4_range|]. rewrite E. cbn [mbind res_bind].
    destruct (IH input (ret ++ cs)) as (cs' & E' & Hlen & Ht & Hd); [cbn in Hl; lia|done|]. exists (cs ++ cs'). rewrite E', app_assoc. split; [done|].
    split; [apply (f_equal length) in Hcs; rewrite length_fmap in Hcs; rewrite length_app, Hcs; simpl in *; lia|].
    split; [apply Forall_app; split; [by apply codes_text|done]|].
    intros out. rewrite (decode_group a b c) by done. by rewrite Hd, <- app_assoc.
Qed.

Lemma encode_spec input : bytes_ok input → ∃ text, base64_encode input = Ok text ∧ (length text ≤ 4 * length input)%nat ∧ Forall text_code text ∧ base64_decode text = input.
Proof.
  intros Hb. destruct (decode_encode_loop (length input) input [] ltac:(lia) Hb) as (cs & E & Hn & Ht & Hd). exists cs. split_and!; [exact E|done|done|]. apply (Hd []).
Qed.
(** Decoding what was encoded gives the bytes back. *)
Theorem base64_round_trip input : bytes_ok input → ∃ text, base64_encode input = Ok text ∧ base64_decode text = input.
Proof.
  intros Hb. destruct (encode_spec input Hb) as (cs & E & _ & _ & Hd). by exists cs.
Qed.
Lemma base64_round_trip_witness : ∃ text, base64_encode [104; 105; 33; 200] = Ok text ∧ base64_decode text = [104; 105; 33; 200].
Proof. apply base64_round_trip. unfold bytes_ok, byte_ok. repeat constructor; lia. Defined.
