(* ===== verification/Sha1.v ===== *)
(** * SHA-1: src/websocketpp-master/websocketpp/sha1/sha1.hpp

    The hash of the opening handshake.  The code works on one buffer of 80 words that it
    fills block by block; the specification is the text of FIPS 180: padding, message
    schedule, 80 steps per block.  The theorem: they agree on every input shorter than
    [2^29] bytes, the length whose count of bits fits the one word the code writes. *)

From S2P Require Import Prelude Bytes.

Open Scope Z_scope.

(** ** The code *)
Definition rol (value steps : Z) : Z := Z.lor (u32 (Z.shiftl value steps)) (Z.shiftr value (32 - steps)).

Definition word_at (w : list Z) (i : nat) : res Z := match w !! i with Some x => Ok x | None => Err OutOfBounds end.
Definition word_set (w : list Z) (i : nat) (x : Z) : res (list Z) := if decide (i < length w)%nat then Ok (<[i := x]> w) else Err OutOfBounds.

Definition clearWBuffert (w : list Z) : list Z := replicate 16 0 ++ drop 16 w.

(** The variables [a] to [e]. *)
Record vars := mkVars { va : Z; vb : Z; vc : Z; vd : Z; ve : Z }.
Definition sha1macro (func val wr : Z) (v : vars) : vars :=
  let t := u32 (rol (va v) 5 + func + ve v + val + wr) in mkVars t (va v) (rol (vb v) 30) (vc v) (vd v).
Definition not32 (x : Z) : Z := u32 (Z.lnot x).

(** One of the five loops: [n] rounds from [round], with its function and constant. *)
Fixpoint while_rounds (n round : nat) (extend : bool) (func : Z → Z → Z → Z) (val : Z) (w : list Z) (v : vars) : res (list Z * vars) :=
  match n with
  | O => Ok (w, v)
  | S n =>
      w ← (if extend then
        w3 ← word_at w (round - 3); w8 ← word_at w (round - 8); w14 ← word_at w (round - 14); w16 ← word_at w (round - 16);
        word_set w round (rol (Z.lxor (Z.lxor (Z.lxor w3 w8) w14) w16) 1)
      else mret w);
      wr ← word_at w round;
      while_rounds n (S round) extend func val w (sha1macro (func (vb v) (vc v) (vd v)) val wr v)
  end.
Definition f_choose (b c d : Z) : Z := Z.lor (Z.land b c) (Z.land (not32 b) d).
Definition f_parity (b c d : Z) : Z := Z.lxor (Z.lxor b c) d.
Definition f_majority (b c d : Z) : Z := Z.lor (Z.lor (Z.land b c) (Z.land b d)) (Z.land c d).

Definition innerHash (result : vars) (w : list Z) : res (vars * list Z) :=
  '(w, v) ← while_rounds 16 0 false f_choose 1518500249 w result;
  '(w, v) ← while_rounds 4 16 true f_choose 1518500249 w v;
  '(w, v) ← while_rounds 20 20 true f_parity 1859775393 w v;
  '(w, v) ← while_rounds 20 40 true f_majority 2400959708 w v;
  '(w, v) ← while_rounds 20 60 true f_parity 3395469782 w v;
  Ok (mkVars (u32 (va result + va v)) (u32 (vb result + vb v)) (u32 (vc result + vc v)) (u32 (vd result + vd v)) (u32 (ve result + ve v)), w).

Definition result0 : vars := mkVars 1732584193 4023233417 2562383102 271733878 3285377520.

(** [sarray[i]] *)
Definition src_at (src : list Z) (i : nat) : res Z := word_at src i.
(** The words of a full block: [n] more from [roundPos]. *)
Fixpoint load_block (n roundPos currentBlock : nat) (src w : list Z) : res (list Z) :=
  match n with
  | O => Ok w
  | S n =>
      b3 ← src_at src (currentBlock + 3); b2 ← src_at src (currentBlock + 2); b1 ← src_at src (currentBlock + 1); b0 ← src_at src currentBlock;
      w ← word_set w roundPos (Z.lor (Z.lor (Z.lor b3 (Z.shiftl b2 8)) (Z.shiftl b1 16)) (Z.shiftl b0 24));
      load_block n (S roundPos) (currentBlock + 4) src w
  end.
(** [while (currentBlock <= endOfFullBlocks)] *)
Fixpoint full_blocks (fuel currentBlock : nat) (src w : list Z) (result : vars) : res (nat * list Z * vars) :=
  match fuel with
  | O => Err OutOfFuel
  | S fuel =>
      if (currentBlock <=? length src - 64)%nat then
        w ← load_block 16 0 currentBlock src w;
        '(result, w) ← innerHash result w;
        full_blocks fuel (currentBlock + 64) src w result
      else Ok (currentBlock, w, result)
  end.
Definition byte_shift (i : nat) : Z := Z.shiftl (3 - Z.land (Z.of_nat i) 3) 3.
Definition or_word (w : list Z) (i : nat) (x : Z) : res (list Z) := y ← word_at w i; word_set w i (Z.lor y x).
(** [for (; lastBlockBytes < endCurrentBlock; ++lastBlockBytes)] *)
Fixpoint last_bytes (n lastBlockBytes currentBlock : nat) (src w : list Z) : res (list Z) :=
  match n with
  | O => Ok w
  | S n =>
      b ← src_at src (lastBlockBytes + currentBlock);
      w ← or_word w (lastBlockBytes / 4) (u32 (Z.shiftl b (byte_shift lastBlockBytes)));
      last_bytes n (S lastBlockBytes) currentBlock src w
  end.

(** The part of [calc] from [Handle the last and not full 64 byte block] on. *)
Definition finish (w : list Z) (h : vars) (src : list Z) (currentBlock : nat) : res vars :=
  let endCurrentBlock := (length src - currentBlock)%nat in
  w ← last_bytes endCurrentBlock 0 currentBlock src (clearWBuffert w);
  w ← or_word w (endCurrentBlock / 4) (u32 (Z.shiftl 128 (byte_shift endCurrentBlock)));
  '(h, w) ← (if (56 <=? endCurrentBlock)%nat then '(h, w) ← innerHash h w; mret (h, clearWBuffert w) else mret (h, w));
  w ← word_set w 15 (u32 (u64 (Z.shiftl (Z.of_nat (length src)) 3)));
  '(h, w) ← innerHash h w;
  Ok h.

(** [calc(src, bytelength, hash)]; [w0] is what the uninitialised buffer [w] holds. *)
Definition hash_byte (result : vars) (hashByte : nat) : Z :=
  let words := [va result; vb result; vc result; vd result; ve result] in
  Z.land (Z.shiftr (default 0 (words !! (hashByte / 4)%nat)) (Z.shiftl (Z.land (3 - Z.of_nat hashByte) 3) 3)) 255.
Definition calc (w0 src : list Z) : res (list Z) :=
  let bytelength := length src in
  '(currentBlock, w, result) ← (if (64 <=? bytelength)%nat then full_blocks (S bytelength) 0 src w0 result0 else mret (0%nat, w0, result0));
  result ← finish w result src currentBlock;
  Ok (hash_byte result <$> seq 0 20).

(** ** The specification (FIPS 180) *)
Definition Ch (x y z : Z) : Z := Z.lxor (Z.land x y) (Z.land (not32 x) z).
Definition Parity (x y z : Z) : Z := Z.lxor (Z.lxor x y) z.
Definition Maj (x y z : Z) : Z := Z.lxor (Z.lxor (Z.land x y) (Z.land x z)) (Z.land y z).
Definition f_at (t : nat) : Z → Z → Z → Z := if (t <? 20)%nat then Ch else if (t <? 40)%nat then Parity else if (t <? 60)%nat then Maj else Parity.
Definition k_at (t : nat) : Z := if (t <? 20)%nat then 1518500249 else if (t <? 40)%nat then 1859775393 else if (t <? 60)%nat then 2400959708 else 3395469782.

(** The message schedule: 16 words of the block, each later word from four earlier ones. *)
Fixpoint schedule (n : nat) (ws : list Z) : list Z :=
  match n with
  | O => ws
  | S n =>
      let t := length ws in let W i := default 0 (ws !! (t - i)%nat) in
      schedule n (ws ++ [rol (Z.lxor (Z.lxor (Z.lxor (W 3%nat) (W 8%nat)) (W 14%nat)) (W 16%nat)) 1])
  end.
Definition sha1_step (v : vars) (tw : nat * Z) : vars :=
  let '(t, w) := tw in
  mkVars (u32 (rol (va v) 5 + f_at t (vb v) (vc v) (vd v) + ve v + k_at t + w)) (va v) (rol (vb v) 30) (vc v) (vd v).
Definition compress (h : vars) (block : list Z) : vars :=
  let ws := schedule 64 block in
  let v := foldl sha1_step h (zip (seq 0 80) ws) in
  mkVars (u32 (va h + va v)) (u32 (vb h + vb v)) (u32 (vc h + vc v)) (u32 (vd h + vd v)) (u32 (ve h + ve v)).

Definition be_bytes (n : nat) (x : Z) : list Z := rev (le_bytes n x).
Definition be_word (l : list Z) : Z := le_val (rev l).
Fixpoint words_of (n : nat) (l : list Z) : list Z :=
  match n with O => [] | S n => be_word (take 4 l) :: words_of n (drop 4 l) end.
Fixpoint hash_blocks (n : nat) (h : vars) (l : list Z) : vars :=
  match n with O => h | S n => hash_blocks n (compress h (words_of 16 l)) (drop 64 l) end.
Definition padded (msg : list Z) : list Z :=
  let zeros := ((119 - length msg mod 64) mod 64)%nat in
  msg ++ [128] ++ replicate zeros 0 ++ be_bytes 8 (8 * Z.of_nat (length msg)).
Definition sha1_spec (msg : list Z) : list Z :=
  let p := padded msg in let h := hash_blocks (length p / 64) result0 p in
  be_bytes 4 (va h) ++ be_bytes 4 (vb h) ++ be_bytes 4 (vc h) ++ be_bytes 4 (vd h) ++ be_bytes 4 (ve h).

(** The test vector of the standard, for code and specification. *)
Example sha1_abc : calc (replicate 80 7) [97; 98; 99] =
  Ok [169; 153; 62; 54; 71; 6; 129; 106; 186; 62; 37; 113; 120; 80; 194; 108; 156; 208; 216; 157].
Proof. vm_compute. reflexivity. Qed.
Example sha1_spec_abc : sha1_spec [97; 98; 99] =
  [169; 153; 62; 54; 71; 6; 129; 106; 186; 62; 37; 113; 120; 80; 194; 108; 156; 208; 216; 157].
Proof. vm_compute. reflexivity. Qed.

(** ** The functions of the rounds *)
Lemma not32_bits b i : 0 ≤ i → Z.testbit (not32 b) i = bool_decide (i < 32) && negb (Z.testbit b i).
Proof.
  intros Hi. unfold not32, u32. case_bool_decide.
  - rewrite Z.mod_pow2_bits_low, Z.lnot_spec by lia. done.
  - rewrite Z.mod_pow2_bits_high by lia. done.
Qed.
Lemma f_choose_Ch b c d : f_choose b c d = Ch b c d.
Proof.
  unfold f_choose, Ch. apply Z.bits_inj'. intros i Hi. rewrite Z.lor_spec, Z.lxor_spec, !Z.land_spec, not32_bits by done.
  by destruct (Z.testbit b i), (Z.testbit c i), (Z.testbit d i), (bool_decide (i < 32)).
Qed.
Lemma f_majority_Maj b c d : f_majority b c d = Maj b c d.
Proof.
  unfold f_majority, Maj. apply Z.bits_inj'. intros i Hi. rewrite !Z.lor_spec, !Z.lxor_spec, !Z.land_spec.
  by destruct (Z.testbit b i), (Z.testbit c i), (Z.testbit d i).
Qed.

(** ** The message schedule *)
Lemma schedule_app n ws : ∃ tail, schedule n ws = ws ++ tail ∧ length tail = n.
Proof.
  revert ws. induction n as [|n IH]; intros ws; [exists []; by rewrite app_nil_r|]. cbn [schedule].
  destruct (IH (ws ++ [rol (Z.lxor (Z.lxor (Z.lxor (default 0 (ws !! (length ws - 3)%nat)) (default 0 (ws !! (length ws - 8)%nat))) (default 0 (ws !! (length ws - 14)%nat)))
    (default 0 (ws !! (length ws - 16)%nat))) 1])) as (tail & -> & Hl). eexists (_ :: tail). rewrite <- app_assoc. split; [done|]. cbn. by rewrite Hl.
Qed.
Lemma schedule_length n ws : length (schedule n ws) = (length ws + n)%nat.
Proof. destruct (schedule_app n ws) as (tail & -> & <-). apply length_app. Qed.
Definition next_word (W : list Z) (t : nat) : Z :=
  rol (Z.lxor (Z.lxor (Z.lxor (default 0 (W !! (t - 3)%nat)) (default 0 (W !! (t - 8)%nat))) (default 0 (W !! (t - 14)%nat))) (default 0 (W !! (t - 16)%nat))) 1.
Lemma schedule_lookup n ws t : (16 ≤ length ws)%nat → (length ws ≤ t < length ws + n)%nat →
  schedule n ws !! t = Some (next_word (schedule n ws) t).
Proof.
  revert ws. induction n as [|n IH]; intros ws Hl Ht; [lia|]. cbn [schedule].
  set (ws' := ws ++ [_]). assert (Hl' : length ws' = S (length ws)) by (unfold ws'; rewrite length_app; cbn; lia).
  destruct (decide (t = length ws)) as [->|]; [|apply IH; lia].
  destruct (schedule_app n ws') as (tail & -> & _). unfold next_word.
  assert (Hlow : ∀ j, (j < length ws)%nat → (ws' ++ tail) !! j = ws !! j).
  { intros j Hj. rewrite lookup_app_l by lia. unfold ws'. by rewrite lookup_app_l. }
  rewrite (Hlow (length ws - 3)%nat), (Hlow (length ws - 8)%nat), (Hlow (length ws - 14)%nat), (Hlow (length ws - 16)%nat) by lia.
  rewrite lookup_app_l by lia. unfold ws'. by rewrite list_lookup_middle.
Qed.

Section Rounds.
Variable W : list Z.
Hypothesis W_length : length W = 80%nat.
Hypothesis W_next : ∀ t, (16 ≤ t < 80)%nat → W !! t = Some (next_word W t).

(** The buffer holds the schedule up to round [r]. *)
Definition agree (r : nat) (w : list Z) : Prop := length w = 80%nat ∧ ∀ t, (t < r ∨ t < 16)%nat → w !! t = W !! t.
Definition steps (r n : nat) (v : vars) : vars := foldl sha1_step v (zip (seq r n) (take n (drop r W))).

Lemma steps_app r n m v : (r + n + m ≤ 80)%nat → steps (r + n) m (steps r n v) = steps r (n + m) v.
Proof.
  intros Hl. unfold steps. rewrite <- foldl_app. f_equal. rewrite seq_app.
  replace (take (n + m) (drop r W)) with (take n (drop r W) ++ take m (drop (r + n) W)).
  2: { rewrite <- drop_drop. by rewrite take_take_drop. }
  rewrite zip_with_app; [done|]. rewrite length_seq, length_take, length_drop. lia.
Qed.

Lemma word_at_agree r w t : agree r w → (t < r ∨ t < 16)%nat → (t < 80)%nat → word_at w t = Ok (default 0 (W !! t)).
Proof.
  intros [_ Ha] Ht H80. unfold word_at. rewrite Ha by done. destruct (lookup_lt_is_Some_2 W t) as [x ->]; [lia|done].
Qed.

Lemma while_rounds_spec n r ext func val w v :
  agree r w → (r + n ≤ 80)%nat →
  (∀ t, (r ≤ t < r + n)%nat → ext = (16 <=? t)%nat ∧ val = k_at t ∧ ∀ b c d, func b c d = f_at t b c d) →
  ∃ w', while_rounds n r ext func val w v = Ok (w', steps r n v) ∧ agree (r + n) w'.
Proof.
  revert r w v. induction n as [|n IH]; intros r w v Ha Hr Hf.
  { exists w. rewrite Nat.add_0_r. done. }
  cbn [while_rounds]. destruct (Hf r ltac:(lia)) as (Hext & Hval & Hfunc).
  assert (Hw : ∃ w1, (if ext then
        w3 ← word_at w (r - 3); w8 ← word_at w (r - 8); w14 ← word_at w (r - 14); w16 ← word_at w (r - 16);
        word_set w r (rol (Z.lxor (Z.lxor (Z.lxor w3 w8) w14) w16) 1)
      else mret w) = Ok w1 ∧ agree (S r) w1).
  { destruct (16 <=? r)%nat eqn:E; subst ext.
    - apply Nat.leb_le in E. rewrite !(word_at_agree r w) by (done || lia). cbn [mbind res_bind]. unfold word_set. destruct Ha as [Hl Ha]. rewrite decide_True by lia.
      eexists. split; [done|]. split; [by rewrite length_insert|]. intros t Ht. destruct (decide (t = r)) as [->|].
      + rewrite list_lookup_insert_eq by lia. rewrite (W_next r) by lia. done.
      + rewrite list_lookup_insert_ne by done. apply Ha. lia.
    - apply Nat.leb_gt in E. exists w. split; [done|]. destruct Ha as [Hl Ha]. split; [done|]. intros t Ht. apply Ha. lia. }
  destruct Hw as (w1 & -> & Ha1). cbn [mbind res_bind]. rewrite (word_at_agree (S r) w1 r Ha1) by lia. cbn [mbind res_bind].
  destruct (IH (S r) w1 (sha1macro (func (vb v) (vc v) (vd v)) val (default 0 (W !! r)) v) Ha1) as (w' & -> & Ha'); [lia|intros t Ht; apply Hf; lia|].
  exists w'. replace (r + S n)%nat with (S r + n)%nat by lia. split; [|done]. do 2 f_equal.
  destruct (lookup_lt_is_Some_2 W r) as [x Hx]; [lia|]. rewrite Hx. unfold steps. cbn [seq].
  rewrite (drop_S W x r Hx). cbn [take zip zip_with foldl]. unfold sha1_step at 2. unfold sha1macro. cbn [default]. by rewrite Hfunc, Hval.
Qed.
Lemma steps_next r n m r' k v : r' = (r + n)%nat → k = (n + m)%nat → (r + k ≤ 80)%nat → steps r' m (steps r n v) = steps r k v.
Proof. intros -> -> Hl. apply steps_app. lia. Qed.
Lemma rounds_next n r ext func val w v r' :
  agree r w → r' = (r + n)%nat → (r' ≤ 80)%nat →
  (∀ t, (r ≤ t < r')%nat → ext = (16 <=? t)%nat ∧ val = k_at t ∧ ∀ b c d, func b c d = f_at t b c d) →
  ∃ w', while_rounds n r ext func val w v = Ok (w', steps r n v) ∧ agree r' w'.
Proof. intros Ha -> Hr Hf. by apply while_rounds_spec. Qed.

(** Five loops one after the other. *)
Lemma five_loops (m1 m2 m3 m4 m5 : list Z → vars → res (list Z * vars)) (out : vars → vars) w h w1 v1 w2 v2 w3 v3 w4 v4 w5 v5 :
  m1 w h = Ok (w1, v1) → m2 w1 v1 = Ok (w2, v2) → m3 w2 v2 = Ok (w3, v3) → m4 w3 v3 = Ok (w4, v4) → m5 w4 v4 = Ok (w5, v5) →
  ('(w, v) ← m1 w h; '(w, v) ← m2 w v; '(w, v) ← m3 w v; '(w, v) ← m4 w v; '(w, v) ← m5 w v; Ok (out v, w)) = Ok (out v5, w5).
Proof.
  intros H1 H2 H3 H4 H5. rewrite H1. cbn [mbind res_bind]. rewrite H2. cbn [mbind res_bind]. rewrite H3. cbn [mbind res_bind].
  rewrite H4. cbn [mbind res_bind]. rewrite H5. done.
Qed.
Lemma innerHash_rounds h w : agree 0 w →
  ∃ w', innerHash h w = Ok (let v := steps 0 80 h in
    mkVars (u32 (va h + va v)) (u32 (vb h + vb v)) (u32 (vc h + vc v)) (u32 (vd h + vd v)) (u32 (ve h + ve v)), w') ∧ agree 80 w'.
Proof.
  intros Ha0.
  destruct (rounds_next 16 0 false f_choose 1518500249 w h 16 Ha0) as (w1 & E1 & Ha1); [lia..| |].
  { intros t Ht. unfold k_at, f_at. rewrite (proj2 (Nat.ltb_lt t 20)) by lia. split_and!; [symmetry; apply Nat.leb_gt; lia|done|apply f_choose_Ch]. }
  destruct (rounds_next 4 16 true f_choose 1518500249 w1 (steps 0 16 h) 20 Ha1) as (w2 & E2 & Ha2); [lia..| |].
  { intros t Ht. unfold k_at, f_at. rewrite (proj2 (Nat.ltb_lt t 20)) by lia. split_and!; [symmetry; apply Nat.leb_le; lia|done|apply f_choose_Ch]. }
  rewrite (steps_next 0 16 4 16 20) in E2 by lia.
  destruct (rounds_next 20 20 true f_parity 1859775393 w2 (steps 0 20 h) 40 Ha2) as (w3 & E3 & Ha3); [lia..| |].
  { intros t Ht. unfold k_at, f_at. rewrite (proj2 (Nat.ltb_ge t 20)), (proj2 (Nat.ltb_lt t 40)) by lia. split_and!; [symmetry; apply Nat.leb_le; lia|done..]. }
  rewrite (steps_next 0 20 20 20 40) in E3 by lia.
  destruct (rounds_next 20 40 true f_majority 2400959708 w3 (steps 0 40 h) 60 Ha3) as (w4 & E4 & Ha4); [lia..| |].
  { intros t Ht. unfold k_at, f_at. rewrite (proj2 (Nat.ltb_ge t 20)), (proj2 (Nat.ltb_ge t 40)), (proj2 (Nat.ltb_lt t 60)) by lia.
    split_and!; [symmetry; apply Nat.leb_le; lia|done|apply f_majority_Maj]. }
  rewrite (steps_next 0 40 20 40 60) in E4 by lia.
  destruct (rounds_next 20 60 true f_parity 3395469782 w4 (steps 0 60 h) 80 Ha4) as (w5 & E5 & Ha5); [lia..| |].
  { intros t Ht. unfold k_at, f_at. rewrite (proj2 (Nat.ltb_ge t 20)), (proj2 (Nat.ltb_ge t 40)), (proj2 (Nat.ltb_ge t 60)) by lia.
    split_and!; [symmetry; apply Nat.leb_le; lia|done..]. }
  rewrite (steps_next 0 60 20 60 80) in E5 by lia. exists w5. split; [|done].
  exact (five_loops (while_rounds 16 0 false f_choose 1518500249) (while_rounds 4 16 true f_choose 1518500249) (while_rounds 20 20 true f_parity 1859775393)
    (while_rounds 20 40 true f_majority 2400959708) (while_rounds 20 60 true f_parity 3395469782)
    (λ v, mkVars (u32 (va h + va v)) (u32 (vb h + vb v)) (u32 (vc h + vc v)) (u32 (vd h + vd v)) (u32 (ve h + ve v))) w h _ _ _ _ _ _ _ _ _ _ E1 E2 E3 E4 E5).
Qed.
End Rounds.

(** [innerHash] is the compression of the standard, on the first 16 words of the buffer. *)
Lemma innerHash_spec h w : length w = 80%nat → ∃ w', innerHash h w = Ok (compress h (take 16 w), w') ∧ length w' = 80%nat.
Proof.
  intros Hl. unfold compress. assert (Hb : length (take 16 w) = 16%nat) by (rewrite length_take; lia).
  assert (HW : length (schedule 64 (take 16 w)) = 80%nat) by (rewrite schedule_length, Hb; reflexivity).
  assert (Hnext : ∀ t, (16 ≤ t < 80)%nat → schedule 64 (take 16 w) !! t = Some (next_word (schedule 64 (take 16 w)) t)) by (intros t Ht; apply schedule_lookup; lia).
  assert (Ha0 : agree (schedule 64 (take 16 w)) 0 w).
  { split; [done|]. intros t [?|Ht]; [lia|]. destruct (schedule_app 64 (take 16 w)) as (tail & -> & _). rewrite lookup_app_l by lia. by rewrite lookup_take_lt. }
  revert HW Hnext Ha0. generalize (schedule 64 (take 16 w)). intros W HW Hnext Ha0.
  destruct (innerHash_rounds W HW Hnext h w Ha0) as (w' & -> & Ha). exists w'. split; [|apply Ha].
  unfold steps. rewrite drop_0, take_ge by lia. reflexivity.
Qed.

(** ** Words and bytes *)
Lemma words_of_length n l : length (words_of n l) = n.
Proof. revert l. induction n; intros; cbn; auto. Qed.
Lemma words_of_lookup n l j : (j < n)%nat → words_of n l !! j = Some (be_word (take 4 (drop (4 * j) l))).
Proof.
  revert l j. induction n as [|n IH]; intros l j Hj; [lia|]. destruct j as [|j]; [by rewrite drop_0|].
  change (words_of (S n) l !! S j) with (words_of n (drop 4 l) !! j). rewrite IH, drop_drop by lia. do 4 f_equal. lia.
Qed.
Lemma words_of_app n m l : words_of (n + m) l = words_of n l ++ words_of m (drop (4 * n) l).
Proof.
  revert l. induction n as [|n IH]; intros l; [by rewrite drop_0|]. change (words_of (S n + m) l) with (be_word (take 4 l) :: words_of (n + m) (drop 4 l)).
  rewrite IH, drop_drop. cbn [words_of app]. by replace (4 + 4 * n)%nat with (4 * S n)%nat by lia.
Qed.
Lemma words_of_take n l k : (4 * n ≤ k)%nat → words_of n (take k l) = words_of n l.
Proof.
  intros Hk. apply list_eq. intros j. destruct (decide (j < n)%nat); [|rewrite !lookup_ge_None_2; [done|rewrite words_of_length; lia..]].
  rewrite !words_of_lookup by done. do 2 f_equal. rewrite skipn_firstn_comm, take_take. f_equal. lia.
Qed.

Lemma be_word_range l : bytes_ok l → length l = 4%nat → 0 ≤ be_word l < 2 ^ 32.
Proof. intros Hb Hl. pose proof (le_val_bound (rev l) (Forall_rev Hb)) as Hx. rewrite length_rev, Hl in Hx. exact Hx. Qed.
Lemma lor_words l1 l2 : bytes_ok l1 → bytes_ok l2 → length l1 = 4%nat → length l2 = 4%nat →
  Z.lor (be_word l1) (be_word l2) = be_word (zip_with Z.lor l1 l2).
Proof.
  intros Hb1 Hb2 Hl1 Hl2. pose proof (be_word_range l1 Hb1 Hl1). pose proof (be_word_range l2 Hb2 Hl2).
  assert (Hr : 0 ≤ Z.lor (be_word l1) (be_word l2) < 2 ^ 32).
  { rewrite <- (Z.mod_small (be_word l1) (2 ^ 32)), <- (Z.mod_small (be_word l2) (2 ^ 32)), <- lor_mod_pow2 by lia. apply Z.mod_pos_bound. lia. }
  rewrite <- (le_val_bytes 4 (Z.lor _ _)) by exact Hr. rewrite le_bytes_lor. unfold be_word.
  pose proof (le_bytes_val (rev l1) (Forall_rev Hb1)) as E1. pose proof (le_bytes_val (rev l2) (Forall_rev Hb2)) as E2.
  rewrite length_rev, Hl1 in E1. rewrite length_rev, Hl2 in E2. rewrite E1, E2. f_equal. apply zip_with_rev. by rewrite Hl1.
Qed.
Lemma shifted_byte b m : byte_ok b → (m < 4)%nat → u32 (Z.shiftl b (Z.shiftl (3 - Z.of_nat m) 3)) = be_word (replicate m 0 ++ [b] ++ replicate (3 - m) 0).
Proof.
  intros Hb Hm. unfold byte_ok in Hb. unfold u32.
  do 4 (destruct m as [|m]; [match goal with |- context [Z.shiftl (3 - ?x) 3] => let v := eval vm_compute in (Z.shiftl (3 - x) 3) in change (Z.shiftl (3 - x) 3) with v end;
    unfold be_word; cbn [replicate app rev Nat.sub le_val]; rewrite Z.shiftl_mul_pow2, Z.mod_small by lia; lia|]). lia.
Qed.
Lemma zip_or_insert g b m : length g = 4%nat → g !! m = Some 0 → zip_with Z.lor g (replicate m 0 ++ [b] ++ replicate (3 - m) 0) = <[m := b]> g.
Proof.
  intros Hl Hm. destruct g as [|g0 [|g1 [|g2 [|g3 [|]]]]]; try discriminate Hl.
  do 4 (destruct m as [|m]; [injection Hm as ->; cbn; by rewrite ?Z.lor_0_r, ?Z.lor_0_l|]). done.
Qed.
Lemma byte_shift_mod i : byte_shift i = Z.shiftl (3 - Z.of_nat (i mod 4)) 3.
Proof. unfold byte_shift. change 3 with (Z.ones 2) at 2. rewrite Z.land_ones by lia. by rewrite Nat2Z.inj_mod. Qed.

(** Writing a byte into a zero byte of a block of 64. *)
Lemma words_insert l i b : length l = 64%nat → bytes_ok l → byte_ok b → (i < 64)%nat → l !! i = Some 0 →
  words_of 16 (<[i := b]> l) = <[(i / 4)%nat := Z.lor (be_word (take 4 (drop (4 * (i / 4)) l))) (u32 (Z.shiftl b (byte_shift i)))]> (words_of 16 l).
Proof.
  intros Hl Hb Hbb Hi Hz. pose proof (Nat.div_mod i 4 ltac:(lia)) as Hdm. pose proof (Nat.mod_upper_bound i 4 ltac:(lia)) as Hm.
  apply list_eq. intros j. destruct (decide (j < 16)%nat); [|rewrite !lookup_ge_None_2; [done|rewrite ?length_insert, words_of_length; lia..]].
  rewrite words_of_lookup by done. destruct (decide (j = i / 4)%nat) as [->|Hj].
  - rewrite list_lookup_insert_eq by (rewrite words_of_length; lia). f_equal. set (g := take 4 (drop (4 * (i / 4)) l)).
    assert (Hgl : length g = 4%nat) by (unfold g; rewrite length_take, length_drop; lia).
    rewrite byte_shift_mod, shifted_byte by done. rewrite lor_words; [|by apply Forall_take, Forall_drop| |done|].
    2: { apply Forall_app. split; [apply Forall_replicate; by split|]. apply Forall_app. split; [by apply Forall_singleton|apply Forall_replicate; by split]. }
    2: { rewrite !length_app, !length_replicate. cbn [length]. lia. }
    rewrite zip_or_insert; [|done|].
    + f_equal. apply list_eq. intros k. destruct (decide (k < 4)%nat); [|rewrite !lookup_ge_None_2; [done|rewrite ?length_insert, ?length_take, ?length_drop; lia..]].
      rewrite lookup_take_lt, lookup_drop by done. destruct (decide (k = i mod 4)%nat) as [->|].
      * rewrite list_lookup_insert_eq by lia. rewrite <- Hdm, list_lookup_insert_eq by lia. done.
      * rewrite !list_lookup_insert_ne by lia. unfold g. by rewrite lookup_take_lt, lookup_drop by done.
    + unfold g. rewrite lookup_take_lt, lookup_drop, <- Hdm by done. done.
  - rewrite list_lookup_insert_ne, words_of_lookup by done. do 2 f_equal. apply list_eq. intros k.
    destruct (decide (k < 4)%nat); [|rewrite !lookup_ge_None_2; [done|rewrite ?length_take; lia..]].
    rewrite !lookup_take_lt, !lookup_drop by done. rewrite list_lookup_insert_ne by lia. done.
Qed.

(** ** Blocks *)
Lemma load_block_spec n pos cur src w : bytes_ok src → length w = 80%nat → (pos + n ≤ 16)%nat → (cur + 4 * n ≤ length src)%nat →
  ∃ w', load_block n pos cur src w = Ok w' ∧ length w' = 80%nat ∧ take (pos + n) w' = take pos w ++ words_of n (drop cur src).
Proof.
  intros Hb. revert pos cur w. induction n as [|n IH]; intros pos cur w Hl Hp Hc.
  { exists w. split_and!; [done..|]. cbn [words_of]. by rewrite app_nil_r, Nat.add_0_r. }
  destruct (drop cur src) as [|x0 [|x1 [|x2 [|x3 T]]]] eqn:ET; try (apply (f_equal length) in ET; rewrite length_drop in ET; cbn in ET; lia).
  assert (Hat : ∀ k x, [x0; x1; x2; x3] !! k = Some x → src !! (cur + k)%nat = Some x).
  { intros k x Hk. rewrite <- lookup_drop, ET. change (x0 :: x1 :: x2 :: x3 :: T) with ([x0; x1; x2; x3] ++ T). by apply lookup_app_l_Some. }
  cbn [load_block]. unfold src_at, word_at. rewrite (Hat 3%nat x3), (Hat 2%nat x2), (Hat 1%nat x1) by done.
  pose proof (Hat 0%nat x0 eq_refl) as H0. rewrite Nat.add_0_r in H0. rewrite H0. cbn [mbind res_bind].
  unfold word_set. rewrite decide_True by lia. cbn [mbind res_bind].
  assert (Hx : bytes_ok [x0; x1; x2; x3]).
  { assert (bytes_ok (drop cur src)) as Hd by (by apply Forall_drop). rewrite ET in Hd. exact (Forall_take _ 4 _ Hd). }
  assert (Hword : Z.lor (Z.lor (Z.lor x3 (Z.shiftl x2 8)) (Z.shiftl x1 16)) (Z.shiftl x0 24) = be_word [x0; x1; x2; x3]).
  { unfold bytes_ok in Hx. repeat match goal with Hf : Forall byte_ok (_ :: _) |- _ => apply Forall_cons in Hf as [? Hf] end. unfold byte_ok in *.
    rewrite (Z.lor_comm x3), (lor_low_high x3 x2 8) by lia. rewrite (Z.lor_comm (x2 * 2 ^ 8 + x3)), (lor_low_high _ x1 16) by lia.
    rewrite (Z.lor_comm (x1 * 2 ^ 16 + _)), (lor_low_high _ x0 24) by lia. unfold be_word. cbn [rev app le_val]. lia. }
  rewrite Hword. set (w1 := <[pos := be_word [x0; x1; x2; x3]]> w).
  destruct (IH (S pos) (cur + 4)%nat w1) as (w' & -> & Hl' & Ht); [unfold w1; by rewrite length_insert|lia|lia|].
  exists w'. split_and!; [done..|]. replace (pos + S n)%nat with (S pos + n)%nat by lia. rewrite Ht.
  replace (drop (cur + 4) src) with T by (rewrite <- drop_drop, ET; done). cbn [words_of take drop].
  unfold w1. rewrite (take_S_r _ _ (be_word [x0; x1; x2; x3])) by (apply list_lookup_insert_eq; lia). rewrite take_insert_ge by lia. by rewrite <- app_assoc.
Qed.

Lemma load_full_block cur src w : bytes_ok src → length w = 80%nat → (cur + 64 ≤ length src)%nat →
  ∃ w', load_block 16 0 cur src w = Ok w' ∧ length w' = 80%nat ∧ take 16 w' = words_of 16 (drop cur src).
Proof.
  intros Hb Hl Hc. destruct (load_block_spec 16 0 cur src w Hb Hl) as (w1 & H1 & Hl1 & Ht1); [lia|lia|]. exists w1. split_and!; [done..|].
  rewrite take_0 in Ht1. exact Ht1.
Qed.
Lemma hash_blocks_S n h l : hash_blocks (S n) h l = hash_blocks n (compress h (words_of 16 l)) (drop 64 l).
Proof. reflexivity. Qed.
Lemma hash_blocks_0 h l : hash_blocks 0 h l = h.
Proof. reflexivity. Qed.
(** One turn of the loop over full blocks. *)
Lemma full_blocks_turn (m1 : res (list Z)) (m2 : vars → list Z → res (vars * list Z)) (k : list Z → vars → res (nat * list Z * vars)) h w1 h2 w2 r :
  m1 = Ok w1 → m2 h w1 = Ok (h2, w2) → k w2 h2 = r → (w ← m1; '(result, w) ← m2 h w; k w result) = r.
Proof. intros -> H2 H3. cbn [mbind res_bind]. rewrite H2. exact H3. Qed.

Lemma full_blocks_spec fuel cur src w h : bytes_ok src → length w = 80%nat → (64 ≤ length src)%nat → (cur ≤ length src)%nat → (length src - cur < fuel)%nat →
  ∃ w', full_blocks fuel cur src w h = Ok ((cur + 64 * ((length src - cur) / 64))%nat, w', hash_blocks ((length src - cur) / 64) h (drop cur src)) ∧ length w' = 80%nat.
Proof.
  intros Hb. revert cur w h. induction fuel as [|fuel IH]; intros cur w h Hl Hs Hc Hf; [lia|]. cbn [full_blocks].
  destruct (cur <=? length src - 64)%nat eqn:E.
  - apply Nat.leb_le in E. destruct (load_full_block cur src w Hb Hl ltac:(lia)) as (w1 & H1 & Hl1 & Ht1).
    destruct (innerHash_spec h w1 Hl1) as (w2 & H2 & Hl2).
    destruct (IH (cur + 64)%nat w2 (compress h (take 16 w1)) Hl2 Hs) as (w' & H3 & Hl'); [lia|lia|]. exists w'. split; [|done].
    apply (full_blocks_turn _ innerHash (λ w v, full_blocks fuel (cur + 64) src w v) h w1 _ w2 _ H1 H2).
    assert (Hd : ((length src - cur) / 64 = S ((length src - (cur + 64)) / 64))%nat).
    { replace (length src - cur)%nat with (length src - (cur + 64) + 1 * 64)%nat by lia. rewrite Nat.div_add by lia. lia. }
    rewrite Hd, hash_blocks_S, drop_drop, <- Ht1. rewrite H3. do 3 f_equal. lia.
  - apply Nat.leb_gt in E. exists w. rewrite Nat.div_small by lia. cbn [hash_blocks]. split; [|done]. do 3 f_equal. lia.
Qed.

Lemma hash_blocks_app n m h a b : length a = (64 * n)%nat → hash_blocks (n + m) h (a ++ b) = hash_blocks m (hash_blocks n h a) b.
Proof.
  revert h a. induction n as [|n IH]; intros h a Ha; [by destruct a|]. cbn [hash_blocks Nat.add].
  rewrite drop_app_le by lia. rewrite IH by (rewrite length_drop; lia). do 2 f_equal.
  rewrite <- (words_of_take 16 (a ++ b) 64), take_app_le, words_of_take by lia. done.
Qed.

(** ** The last block *)
Lemma or_word_spec w l i b : length w = 80%nat → take 16 w = words_of 16 l → length l = 64%nat → bytes_ok l → byte_ok b → (i < 64)%nat → l !! i = Some 0 →
  ∃ w', or_word w (i / 4) (u32 (Z.shiftl b (byte_shift i))) = Ok w' ∧ length w' = 80%nat ∧ take 16 w' = words_of 16 (<[i := b]> l).
Proof.
  intros Hl Ht Hll Hb Hbb Hi Hz. assert (Hk : (i / 4 < 16)%nat) by (apply Nat.Div0.div_lt_upper_bound; lia).
  unfold or_word, word_at. rewrite <- (lookup_take_lt w 16) by done. rewrite Ht, words_of_lookup by done. cbn [mbind res_bind].
  unfold word_set. rewrite decide_True by lia. eexists. split; [done|]. split; [by rewrite length_insert|].
  rewrite words_insert by done. rewrite <- Ht. by rewrite take_insert_lt.
Qed.
(** A block with [i] bytes of [T] and zeros. *)
Definition partial (T : list Z) (i : nat) : list Z := take i T ++ replicate (64 - i) 0.
Lemma partial_facts T i : bytes_ok T → (i ≤ length T)%nat → (i < 64)%nat → length (partial T i) = 64%nat ∧ bytes_ok (partial T i) ∧ partial T i !! i = Some 0 ∧
  ∀ b, <[i := b]> (partial T i) = take i T ++ b :: replicate (63 - i) 0.
Proof.
  intros Hb Hi H64. unfold partial. assert (Hl : length (take i T) = i) by (rewrite length_take; lia). split_and!.
  - rewrite length_app, length_replicate. lia.
  - apply Forall_app. split; [by apply Forall_take|apply Forall_replicate; by split].
  - rewrite lookup_app_r, Hl, Nat.sub_diag by lia. apply lookup_replicate_2. lia.
  - intros b. replace (64 - i)%nat with (S (63 - i)) by lia. cbn [replicate]. rewrite <- Hl at 1. rewrite <- (Nat.add_0_r (length _)) at 1. by rewrite insert_app_r.
Qed.
Lemma last_bytes_spec n i cur src w : bytes_ok src → length w = 80%nat → (i + n < 64)%nat → (cur + i + n ≤ length src)%nat →
  take 16 w = words_of 16 (partial (drop cur src) i) →
  ∃ w', last_bytes n i cur src w = Ok w' ∧ length w' = 80%nat ∧ take 16 w' = words_of 16 (partial (drop cur src) (i + n)).
Proof.
  intros Hb. revert i w. induction n as [|n IH]; intros i w Hl Hi Hc Ht; [exists w; by rewrite Nat.add_0_r|]. cbn [last_bytes].
  assert (HT : bytes_ok (drop cur src)) by (by apply Forall_drop).
  assert (HTl : (i < length (drop cur src))%nat) by (rewrite length_drop; lia).
  destruct (lookup_lt_is_Some_2 (drop cur src) i HTl) as [b Hbx]. unfold src_at, word_at.
  rewrite Nat.add_comm, <- lookup_drop, Hbx. cbn [mbind res_bind].
  destruct (partial_facts (drop cur src) i HT ltac:(lia) ltac:(lia)) as (P1 & P2 & P3 & P4).
  destruct (or_word_spec w (partial (drop cur src) i) i b Hl Ht P1 P2) as (w1 & -> & Hl1 & Ht1); [exact (Forall_lookup_1 _ _ _ _ HT Hbx)|lia|done|].
  cbn [mbind res_bind]. destruct (IH (S i) w1 Hl1) as (w' & -> & Hl' & Ht'); [lia|lia| |].
  { rewrite Ht1, P4. unfold partial. rewrite (take_S_r _ _ b Hbx), <- app_assoc. cbn [app]. by replace (64 - S i)%nat with (63 - i)%nat by lia. }
  exists w'. split_and!; [done..|]. by replace (i + S n)%nat with (S i + n)%nat by lia.
Qed.

Lemma clear_spec w : length w = 80%nat → length (clearWBuffert w) = 80%nat ∧ take 16 (clearWBuffert w) = words_of 16 (replicate 64 0).
Proof.
  intros Hl. unfold clearWBuffert. split; [rewrite length_app, length_replicate, length_drop; lia|]. rewrite take_app_length' by (by rewrite length_replicate). reflexivity.
Qed.

(** The digest is the five words, most significant byte first. *)
Lemma digest_bytes v : hash_byte v <$> seq 0 20 = be_bytes 4 (va v) ++ be_bytes 4 (vb v) ++ be_bytes 4 (vc v) ++ be_bytes 4 (vd v) ++ be_bytes 4 (ve v).
Proof.
  assert (Hword : ∀ x, be_bytes 4 x = [Z.land (Z.shiftr x 24) 255; Z.land (Z.shiftr x 16) 255; Z.land (Z.shiftr x 8) 255; Z.land (Z.shiftr x 0) 255]).
  { intros x. unfold be_bytes. cbn [le_bytes rev app]. change 255 with (Z.ones 8). rewrite !Z.land_ones, !Z.shiftr_div_pow2 by lia.
    rewrite !Z.div_div by lia. rewrite Z.div_1_r. done. }
  rewrite !Hword. reflexivity.
Qed.

(** The padded message, as blocks. *)
Definition tail_len (src : list Z) : nat := (length src mod 64)%nat.
Lemma padded_split src (q := (length src / 64)%nat) (r := tail_len src) (T := drop (64 * q) src) (bits := be_bytes 8 (8 * Z.of_nat (length src))) :
  length (take (64 * q) src) = (64 * q)%nat ∧ length T = r ∧
  padded src = take (64 * q) src ++
    (if (56 <=? r)%nat then (T ++ 128 :: replicate (63 - r) 0) ++ (replicate 56 0 ++ bits) else T ++ 128 :: replicate (55 - r) 0 ++ bits).
Proof.
  pose proof (Nat.div_mod (length src) 64 ltac:(lia)) as Hdm. fold q in Hdm. change (length src mod 64)%nat with r in Hdm.
  assert (Hr : (r < 64)%nat) by (apply Nat.mod_upper_bound; lia).
  split; [rewrite length_take; lia|]. split; [unfold T; rewrite length_drop; lia|]. unfold padded. fold bits. change (length src mod 64)%nat with r.
  rewrite <- (take_drop (64 * q) src) at 1. rewrite <- app_assoc. f_equal. fold T. destruct (56 <=? r)%nat eqn:E.
  - apply Nat.leb_le in E. rewrite Nat.mod_small by lia. replace (119 - r)%nat with ((63 - r) + 56)%nat by lia. rewrite replicate_add. cbn [app]. rewrite <- !app_assoc. done.
  - apply Nat.leb_gt in E. replace (119 - r)%nat with ((55 - r) + 1 * 64)%nat by lia. rewrite Nat.Div0.mod_add, Nat.mod_small by lia. done.
Qed.
Lemma bits_words n : 0 ≤ n < 2 ^ 32 → be_bytes 8 n = replicate 4 0 ++ be_bytes 4 n ∧ be_word (be_bytes 4 n) = n.
Proof.
  intros Hn. split.
  - unfold be_bytes. rewrite (le_bytes_add 4 4), rev_app_distr. f_equal. rewrite Z.shiftr_div_pow2, Z.div_small by lia. reflexivity.
  - unfold be_word, be_bytes. rewrite rev_involutive. by apply le_val_bytes.
Qed.
(** The last word of a block with four bytes of the length at its end. *)
Lemma words_with_length l n : length l = 60%nat → 0 ≤ n < 2 ^ 32 → <[15%nat := n]> (words_of 16 (l ++ replicate 4 0)) = words_of 16 (l ++ be_bytes 4 n).
Proof.
  intros Hl Hn. change 16%nat with (15 + 1)%nat. rewrite !words_of_app. rewrite <- (words_of_take 15 (l ++ replicate 4 0) 60), <- (words_of_take 15 (l ++ be_bytes 4 n) 60) by lia.
  rewrite !take_app_length' by done. rewrite insert_app_r_alt by (rewrite words_of_length; lia). rewrite words_of_length. f_equal.
  change (4 * 15)%nat with 60%nat. rewrite !drop_app_length' by done. cbn [words_of]. rewrite (take_ge (be_bytes 4 n)) by (unfold be_bytes; rewrite length_rev, le_bytes_length; lia).
  destruct (bits_words n Hn) as [_ ->]. done.
Qed.

Lemma hash_last h w l n : length w = 80%nat → take 16 w = words_of 16 (l ++ replicate 4 0) → length l = 60%nat → 0 ≤ n < 2 ^ 32 →
  ∃ w' w'', word_set w 15 n = Ok w' ∧ innerHash h w' = Ok (compress h (words_of 16 (l ++ be_bytes 4 n)), w'').
Proof.
  intros Hl Ht Hll Hn. unfold word_set. rewrite decide_True by lia. eexists.
  destruct (innerHash_spec h (<[15%nat:=n]> w)) as (w'' & Hi & _); [by rewrite length_insert|]. exists w''. split; [done|]. rewrite Hi.
  rewrite take_insert_lt by lia. rewrite Ht, words_with_length by done. done.
Qed.

Lemma finish_spec w h src (q := (length src / 64)%nat) (r := tail_len src) (T := drop (64 * q) src) (bits := be_bytes 8 (8 * Z.of_nat (length src))) :
  bytes_ok src → length w = 80%nat → Z.of_nat (length src) < 2 ^ 29 →
  finish w h src (64 * q) = Ok (if (56 <=? r)%nat then compress (compress h (words_of 16 (T ++ 128 :: replicate (63 - r) 0))) (words_of 16 (replicate 56 0 ++ bits))
    else compress h (words_of 16 (T ++ 128 :: replicate (55 - r) 0 ++ bits))).
Proof.
  intros Hb Hl Hn. destruct (padded_split src) as (_ & HTl & _). fold q in HTl. fold T in HTl. fold r in HTl.
  assert (Hr : (r < 64)%nat) by (apply Nat.mod_upper_bound; lia). assert (HT : bytes_ok T) by (by apply Forall_drop).
  assert (Hq : (64 * q ≤ length src)%nat) by apply Nat.Div0.mul_div_le.
  pose proof (length_drop src (64 * q)) as Hd. fold T in Hd. unfold finish. replace (length src - 64 * q)%nat with r by lia. cbv zeta.
  destruct (clear_spec w Hl) as [Hcl Hct].
  destruct (last_bytes_spec r 0 (64 * q) src (clearWBuffert w) Hb Hcl) as (w1 & H1 & Hl1 & Ht1); [lia|lia|exact Hct|].
  rewrite (res_bind_ok _ _ _ H1). fold T in Ht1. cbn [Nat.add] in Ht1.
  destruct (partial_facts T r HT ltac:(lia) Hr) as (P1 & P2 & P3 & P4).
  destruct (or_word_spec w1 (partial T r) r 128 Hl1 Ht1 P1 P2) as (w2 & H2 & Hl2 & Ht2); [by split|lia|done|].
  rewrite (res_bind_ok _ _ _ H2). rewrite P4, (take_ge T) in Ht2 by lia.
  set (n := 8 * Z.of_nat (length src)) in *. assert (Hn32 : 0 ≤ n < 2 ^ 32) by (unfold n; lia).
  assert (Hbits : u32 (u64 (Z.shiftl (Z.of_nat (length src)) 3)) = n).
  { rewrite Z.shiftl_mul_pow2 by lia. unfold u32. rewrite u64_small by lia. rewrite Z.mod_small by lia. unfold n. lia. }
  rewrite Hbits. destruct (bits_words n Hn32) as [Hb8 _]. unfold bits. rewrite Hb8. destruct (56 <=? r)%nat eqn:E.
  - destruct (innerHash_spec h w2 Hl2) as (w3 & H3 & Hl3). rewrite Ht2 in H3.
    assert (Hif : ('(h, w) ← innerHash h w2; mret (h, clearWBuffert w)) = Ok (compress h (words_of 16 (T ++ 128 :: replicate (63 - r) 0)), clearWBuffert w3)) by (by rewrite (res_bind_ok _ _ _ H3)).
    rewrite (res_bind_ok _ _ _ Hif). destruct (clear_spec w3 Hl3) as [Hcl3 Hct3].
    destruct (hash_last (compress h (words_of 16 (T ++ 128 :: replicate (63 - r) 0))) (clearWBuffert w3) (replicate 60 0) n Hcl3) as (w4 & w5 & H4 & H5); [|done|done|].
    { rewrite Hct3. reflexivity. }
    rewrite (res_bind_ok _ _ _ H4), (res_bind_ok _ _ _ H5). change (replicate 60 0) with (replicate 56 0 ++ replicate 4 0). by rewrite <- app_assoc.
  - apply Nat.leb_gt in E. rewrite (res_bind_ok (mret (h, w2)) _ (h, w2)) by done.
    destruct (hash_last h w2 (T ++ 128 :: replicate (59 - r) 0) n Hl2) as (w4 & w5 & H4 & H5); [| |done|].
    { rewrite Ht2, <- app_assoc. cbn [app]. rewrite <- replicate_add. by replace (59 - r + 4)%nat with (63 - r)%nat by lia. }
    { rewrite length_app. cbn [length]. rewrite length_replicate. lia. }
    rewrite (res_bind_ok _ _ _ H4), (res_bind_ok _ _ _ H5). rewrite <- app_assoc. cbn [app].
    replace (59 - r)%nat with (55 - r + 4)%nat by lia. by rewrite replicate_add, <- app_assoc.
Qed.

Lemma hash_prefix q h src : length (take (64 * q) src) = (64 * q)%nat → hash_blocks q h src = hash_blocks q h (take (64 * q) src).
Proof.
  intros Hq. pose proof (hash_blocks_app q 0 h (take (64 * q) src) (drop (64 * q) src) Hq) as Ha.
  rewrite Nat.add_0_r, take_drop, hash_blocks_0 in Ha. exact Ha.
Qed.
(** Hashing one or two more blocks. *)
Lemma hash_one q h P A : length P = (64 * q)%nat → length A = 64%nat → hash_blocks (length (P ++ A) / 64) h (P ++ A) = compress (hash_blocks q h P) (words_of 16 A).
Proof.
  intros HP HA. assert (Hl : (length (P ++ A) / 64 = q + 1)%nat).
  { rewrite !length_app, HP, HA. replace (64 * q + 64)%nat with ((q + 1) * 64)%nat by lia. by rewrite Nat.div_mul. }
  rewrite Hl, hash_blocks_app by exact HP. rewrite hash_blocks_S, hash_blocks_0. reflexivity.
Qed.
Lemma hash_two q h P A B : length P = (64 * q)%nat → length A = 64%nat → length B = 64%nat →
  hash_blocks (length (P ++ A ++ B) / 64) h (P ++ A ++ B) = compress (compress (hash_blocks q h P) (words_of 16 A)) (words_of 16 B).
Proof.
  intros HP HA HB. assert (Hl : (length (P ++ A ++ B) / 64 = q + 2)%nat).
  { rewrite !length_app, HP, HA, HB. replace (64 * q + (64 + 64))%nat with ((q + 2) * 64)%nat by lia. by rewrite Nat.div_mul. }
  rewrite Hl, hash_blocks_app by exact HP. rewrite !hash_blocks_S, hash_blocks_0. rewrite drop_app_length' by lia.
  rewrite <- (words_of_take 16 (A ++ B) 64), take_app_length' by lia. reflexivity.
Qed.
Lemma hash_padded src (q := (length src / 64)%nat) (r := tail_len src) (T := drop (64 * q) src) (bits := be_bytes 8 (8 * Z.of_nat (length src))) :
  hash_blocks (length (padded src) / 64) result0 (padded src) =
  (if (56 <=? r)%nat then compress (compress (hash_blocks q result0 src) (words_of 16 (T ++ 128 :: replicate (63 - r) 0))) (words_of 16 (replicate 56 0 ++ bits))
   else compress (hash_blocks q result0 src) (words_of 16 (T ++ 128 :: replicate (55 - r) 0 ++ bits))).
Proof.
  destruct (padded_split src) as (Hql & HTl & Hp). fold q in Hql, HTl, Hp. fold r in HTl, Hp. fold T in HTl, Hp. fold bits in Hp.
  assert (Hr : (r < 64)%nat) by (apply Nat.mod_upper_bound; lia).
  assert (Hbl : length bits = 8%nat) by (unfold bits, be_bytes; rewrite length_rev; apply le_bytes_length).
  assert (Hh : hash_blocks q result0 src = hash_blocks q result0 (take (64 * q) src)).
  { apply hash_prefix. exact Hql. }
  rewrite Hh, Hp. destruct (56 <=? r)%nat eqn:E.
  - apply Nat.leb_le in E. set (A := T ++ 128 :: replicate (63 - r) 0). set (B := replicate 56 0 ++ bits).
    assert (HA : length A = 64%nat) by (unfold A; rewrite length_app; cbn [length]; rewrite length_replicate; lia).
    assert (HB : length B = 64%nat) by (unfold B; rewrite length_app, length_replicate; lia).
    by apply hash_two.
  - apply Nat.leb_gt in E. set (A := T ++ 128 :: replicate (55 - r) 0 ++ bits).
    assert (HA : length A = 64%nat) by (unfold A; rewrite length_app; cbn [length]; rewrite length_app, length_replicate; lia).
    by apply hash_one.
Qed.

Lemma calc_finish w0 src cur w1 h1 v :
  (if (64 <=? length src)%nat then full_blocks (S (length src)) 0 src w0 result0 else mret (0%nat, w0, result0)) = Ok (cur, w1, h1) →
  finish w1 h1 src cur = Ok v →
  calc w0 src = Ok (be_bytes 4 (va v) ++ be_bytes 4 (vb v) ++ be_bytes 4 (vc v) ++ be_bytes 4 (vd v) ++ be_bytes 4 (ve v)).
Proof.
  intros H1 H2. rewrite <- digest_bytes. unfold calc. cbv zeta. rewrite (res_bind_ok _ _ _ H1). by rewrite (res_bind_ok _ _ _ H2).
Qed.

Lemma calc_spec w0 src : bytes_ok src → length w0 = 80%nat → Z.of_nat (length src) < 2 ^ 29 → calc w0 src = Ok (sha1_spec src).
Proof.
  intros Hb Hl Hn. set (q := (length src / 64)%nat).
  assert (Hfirst : ∃ w1, (if (64 <=? length src)%nat then full_blocks (S (length src)) 0 src w0 result0 else mret (0%nat, w0, result0)) =
    Ok ((64 * q)%nat, w1, hash_blocks q result0 src) ∧ length w1 = 80%nat).
  { destruct (64 <=? length src)%nat eqn:E.
    - apply Nat.leb_le in E. destruct (full_blocks_spec (S (length src)) 0 src w0 result0 Hb Hl E) as (w1 & -> & Hl1); [lia|lia|].
      exists w1. rewrite drop_0, Nat.sub_0_r. by split.
    - apply Nat.leb_gt in E. exists w0. unfold q. rewrite Nat.div_small by lia. by split. }
  destruct Hfirst as (w1 & H1 & Hl1). rewrite (calc_finish w0 src _ w1 _ _ H1 (finish_spec w1 _ src Hb Hl1 Hn)).
  unfold sha1_spec. cbv zeta. by rewrite hash_padded.
Qed.
Lemma sha1_spec_bytes msg : bytes_ok (sha1_spec msg) ∧ length (sha1_spec msg) = 20%nat.
Proof.
  unfold sha1_spec. cbv zeta. split.
  - unfold bytes_ok, be_bytes. rewrite !Forall_app. split_and!; apply Forall_rev, le_bytes_ok.
  - unfold be_bytes. by rewrite !length_app, !length_rev, !le_bytes_length.
Qed.

(** C31: For every input of less than 2^29 bytes the code hashes as the standard says, whatever the
    uninitialised buffer holds. For longer inputs it does not: only the low word of the length in
    bits is stored. *)
Theorem calc_is_sha1 w0 src : bytes_ok src → length w0 = 80%nat → Z.of_nat (length src) < 2 ^ 29 → calc w0 src = Ok (sha1_spec src).
Proof. exact (calc_spec w0 src). Qed.
Lemma calc_is_sha1_witness : calc (replicate 80 7) [97; 98; 99] = Ok (sha1_spec [97; 98; 99]).
Proof. apply calc_is_sha1; [unfold bytes_ok, byte_ok; repeat constructor; lia|reflexivity|reflexivity]. Defined.
