(* ===== verification/HttpText.v ===== *)
(** * HTTP text: characters, header maps, tokens, quoted strings and parameter lists
    (src/websocketpp-master/websocketpp: http/constants.hpp, http/parser.hpp, utilities.hpp)

    An iterator into a text is the text from there on, the end iterator the empty text.
    A [std::map] is the list of its entries in key order ([SortedKeys]); a header map
    compares names without regard to case and keeps the spelling of the first insertion. *)

From S2P Require Import Prelude SortedKeys StdString.

Open Scope Z_scope.

(** ** Constants *)
Definition header_delimiter : str := ["013"%char; "010"%char].
Definition header_separator : str := lit ":".
Definition max_header_size : Z := 16000.
Definition max_body_size : Z := 32000000.
Definition quote : ascii := "034"%char.

Definition header_token : list Z := [
  0; 0; 0; 0; 0; 0; 0; 0; 0; 0; 0; 0; 0; 0; 0; 0;
  0; 0; 0; 0; 0; 0; 0; 0; 0; 0; 0; 0; 0; 0; 0; 0;
  0; 1; 0; 1; 1; 1; 1; 1; 0; 0; 1; 1; 0; 1; 1; 0;
  1; 1; 1; 1; 1; 1; 1; 1; 1; 1; 0; 0; 0; 0; 0; 0;
  0; 1; 1; 1; 1; 1; 1; 1; 1; 1; 1; 1; 1; 1; 1; 1;
  1; 1; 1; 1; 1; 1; 1; 1; 1; 1; 1; 0; 0; 0; 1; 1;
  1; 1; 1; 1; 1; 1; 1; 1; 1; 1; 1; 1; 1; 1; 1; 1;
  1; 1; 1; 1; 1; 1; 1; 1; 1; 1; 1; 0; 1; 0; 1; 0;
  0; 0; 0; 0; 0; 0; 0; 0; 0; 0; 0; 0; 0; 0; 0; 0;
  0; 0; 0; 0; 0; 0; 0; 0; 0; 0; 0; 0; 0; 0; 0; 0;
  0; 0; 0; 0; 0; 0; 0; 0; 0; 0; 0; 0; 0; 0; 0; 0;
  0; 0; 0; 0; 0; 0; 0; 0; 0; 0; 0; 0; 0; 0; 0; 0;
  0; 0; 0; 0; 0; 0; 0; 0; 0; 0; 0; 0; 0; 0; 0; 0;
  0; 0; 0; 0; 0; 0; 0; 0; 0; 0; 0; 0; 0; 0; 0; 0;
  0; 0; 0; 0; 0; 0; 0; 0; 0; 0; 0; 0; 0; 0; 0; 0;
  0; 0; 0; 0; 0; 0; 0; 0; 0; 0; 0; 0; 0; 0; 0; 0].
Definition token_class (c : ascii) : Z := default 0 (header_token !! nat_of_ascii c).
Definition is_token_char (c : ascii) : bool := token_class c =? 1.
Definition is_not_token_char (c : ascii) : bool := token_class c =? 0.
Definition code (c : ascii) : Z := Z.of_nat (nat_of_ascii c).
Definition is_whitespace_char (c : ascii) : bool := (code c =? 9) || (code c =? 32).
Definition is_not_whitespace_char (c : ascii) : bool := negb (code c =? 9) && negb (code c =? 32).

(** ** Case (utilities.hpp); the locale is the classic one *)
Definition tolower (c : ascii) : Z := if (65 <=? code c) && (code c <=? 90) then code c + 32 else code c.
Definition toupper (c : ascii) : Z := if (97 <=? code c) && (code c <=? 122) then code c - 32 else code c.

(** [std::lexicographical_compare] *)
Fixpoint lexicographical_compare (l1 l2 : list Z) : bool :=
  match l1, l2 with
  | [], [] => false
  | [], _ :: _ => true
  | _ :: _, [] => false
  | a :: l1, b :: l2 => if a <? b then true else if b <? a then false else lexicographical_compare l1 l2
  end.
Definition ci_less (s1 s2 : str) : bool := lexicographical_compare (tolower <$> s1) (tolower <$> s2).

(** [std::search] with [my_equal]: what follows the first occurrence's start. *)
Fixpoint ci_starts_with (needle haystack : str) : bool :=
  match needle, haystack with
  | [], _ => true
  | n :: needle, h :: haystack => (toupper n =? toupper h) && ci_starts_with needle haystack
  | _ :: _, [] => false
  end.
Fixpoint ci_find_substr (haystack needle : str) : str :=
  if ci_starts_with needle haystack then haystack
  else match haystack with [] => [] | _ :: h => ci_find_substr h needle end.

(** ** Maps with text keys *)
#[export, refine] Instance text_key : KeyOrder (list Z) := {| key_ltb := lexicographical_compare |}.
Proof.
  - intros k. induction k as [|a k IH]; simpl; [done|]. by rewrite Z.ltb_irrefl.
  - intros k1. induction k1 as [|a k1 IH]; intros [|b k2] [|c k3]; simpl; try done.
    destruct (a <? b) eqn:E1, (b <? c) eqn:E2, (b <? a) eqn:E3, (c <? b) eqn:E4; try done; intros H1 H2;
      try (assert ((a <? c) = true) as -> by lia; done); try lia.
    assert ((a <? c) = false) as -> by lia. assert ((c <? a) = false) as -> by lia. eauto.
  - intros k1. induction k1 as [|a k1 IH]; intros [|b k2]; simpl; try done.
    destruct (a <? b) eqn:E1, (b <? a) eqn:E2; try done. intros. f_equal; [lia|]. eauto.
Defined.

Definition entry : Type := str * str.
Section TextMap.
Variable norm : str → list Z.
Definition entry_key (e : entry) : list Z := norm e.1.
(** [find], [operator[]] with an assignment, and [erase] *)
Definition map_find (k : str) (m : list entry) : option str := snd <$> find_key entry_key (norm k) m.
Definition map_put (k v : str) (m : list entry) : list entry :=
  match map_find k m with
  | Some _ => (λ e, if bool_decide (entry_key e = norm k) then (e.1, v) else e) <$> m
  | None => ins entry_key (k, v) m
  end.
Definition map_erase (k : str) (m : list entry) : list entry := filter (λ e, entry_key e ≠ norm k) m.
End TextMap.

(** Header names are compared by [ci_less], attribute names by [<]. *)
Definition ci_name (s : str) : list Z := tolower <$> s.
Definition plain_name (s : str) : list Z := code <$> s.
Definition header_list : Type := list entry.
Definition attribute_list : Type := list entry.
Definition parameter_list : Type := list (str * attribute_list).

(** ** Scanning

    [find_if]: the text before the first character with the property, and from it on. *)
Fixpoint find_if (f : ascii → bool) (s : str) : str * str :=
  match s with
  | [] => ([], [])
  | c :: s' => if f c then ([], s) else let '(a, b) := find_if f s' in (c :: a, b)
  end.
Definition find_char (c : ascii) (s : str) : str * str := find_if (λ x, bool_decide (x = c)) s.
(** [std::search]: the text before the first occurrence, and from it on. *)
Definition search (pat s : str) : str * str :=
  match find pat s with Some n => (take n s, drop n s) | None => (s, []) end.

Definition extract_token (s : str) : str * str := find_if is_not_token_char s.

(** The quotes found so far have put [s] into the result; [marker] is behind the last one.
    [None] when no quote closes the string. *)
Fixpoint quoted_loop (fuel : nat) (s marker : str) : res (option (str * str)) :=
  match fuel with
  | O => Err OutOfFuel
  | S fuel =>
      let '(chunk, cursor) := find_char quote marker in
      match cursor with
      | [] => mret None
      | _ :: cursor =>
          if bool_decide (last chunk = Some "092"%char)
          then quoted_loop fuel (s ++ removelast chunk ++ [quote]) cursor
          else mret (Some (s ++ chunk, cursor))
      end
  end.
Definition extract_quoted_string (begin : str) : res (str * str) :=
  match begin with
  | [] => mret ([], begin)
  | c :: cursor =>
      if bool_decide (c = quote)
      then r ← quoted_loop (S (length cursor)) [] cursor; mret (default ([], begin) r)
      else mret ([], begin)
  end.

(** A line end followed by white space at the front is skipped. *)
Definition skip_folding (begin : str) : str :=
  match begin with
  | "013"%char :: "010"%char :: c :: rest => if is_whitespace_char c then rest else begin
  | _ => begin
  end.
Definition extract_lws (begin : str) : str := (find_if is_not_whitespace_char (skip_folding begin)).2.
Fixpoint lws_loop (fuel : nat) (old_it : str) : res str :=
  match fuel with
  | O => Err OutOfFuel
  | S fuel =>
      let new_it := extract_lws old_it in
      if negb (bool_decide (new_it = [])) && negb (bool_decide (old_it = new_it)) then lws_loop fuel new_it else mret new_it
  end.
Definition extract_all_lws (begin : str) : res str := lws_loop (S (length begin)) begin.

Definition strip_lws (input : str) : res str :=
  begin ← extract_all_lws input;
  if bool_decide (begin = []) then mret []
  else
    rbegin ← extract_all_lws (rev input);
    if bool_decide (rbegin = []) then mret []
    else
      (** the text between the two iterators *)
      let first := (length input - length begin)%nat in
      let last := length rbegin in
      if (first <=? last)%nat then mret (drop first (take last input)) else Err OutOfBounds.

(** ** Attributes and parameters

    The results are the iterator behind what was read, and the list. *)
Fixpoint attributes_loop (fuel : nat) (begin cursor : str) (first : bool) (attributes : attribute_list) : res (str * attribute_list) :=
  match fuel with
  | O => Err OutOfFuel
  | S fuel =>
      if bool_decide (cursor = []) then mret (cursor, attributes)
      else
        cursor ← extract_all_lws cursor;
        match cursor with
        | [] => mret (cursor, attributes)
        | c :: behind =>
            if negb first && negb (bool_decide (c = ";"%char)) then mret (cursor, attributes)
            else
              cursor ← extract_all_lws (if first then cursor else behind);
              let '(name, cursor) := extract_token cursor in
              if bool_decide (name = []) then mret (begin, attributes)
              else
                cursor ← extract_all_lws cursor;
                if negb (bool_decide (head cursor = Some "="%char))
                then attributes_loop fuel begin cursor false (map_put plain_name name [] attributes)
                else
                  cursor ← extract_all_lws (drop 1 cursor);
                  if bool_decide (cursor = []) then mret (begin, attributes)
                  else
                    '(value, behind) ← extract_quoted_string cursor;
                    if bool_decide (behind = cursor) then
                      let '(value, behind) := extract_token cursor in
                      if bool_decide (value = []) then mret (begin, attributes)
                      else attributes_loop fuel begin behind false (map_put plain_name name value attributes)
                    else attributes_loop fuel begin behind false (map_put plain_name name value attributes)
        end
  end.
Definition extract_attributes (begin : str) (attributes : attribute_list) : res (str * attribute_list) :=
  attributes_loop (S (length begin)) begin begin true attributes.

(** The attributes behind a parameter, if a semicolon starts them; [None] when they do not parse. *)
Definition read_attributes (c : ascii) (behind : str) : res (option (str * attribute_list)) :=
  if bool_decide (c = ";"%char) then
    '(acursor, attributes) ← extract_attributes behind [];
    mret (if bool_decide (acursor = behind) then None else Some (acursor, attributes))
  else mret (Some (c :: behind, [])).

Fixpoint parameters_loop (fuel : nat) (begin cursor : str) (parameters : parameter_list) : res (str * parameter_list) :=
  match fuel with
  | O => Err OutOfFuel
  | S fuel =>
      if bool_decide (cursor = []) then mret (cursor, parameters)
      else
        cursor ← extract_all_lws cursor;
        if bool_decide (cursor = []) then mret (cursor, parameters)
        else
          let '(parameter_name, cursor) := extract_token cursor in
          if bool_decide (parameter_name = []) then mret (begin, parameters)
          else
            cursor ← extract_all_lws cursor;
            match cursor with
            | [] => mret (cursor, parameters ++ [(parameter_name, [])])
            | c :: behind =>
                r ← read_attributes c behind;
                match r with
                | None => mret (begin, parameters)
                | Some (cursor, attributes) =>
                    let parameters := parameters ++ [(parameter_name, attributes)] in
                    cursor ← extract_all_lws cursor;
                    match cursor with
                    | [] => mret (cursor, parameters)
                    | c :: behind =>
                        if bool_decide (c = ","%char)
                        then if bool_decide (behind = []) then mret (begin, parameters)
                             else parameters_loop fuel begin behind parameters
                        else mret (cursor, parameters)
                    end
                end
            end
  end.
Definition extract_parameters (begin : str) (parameters : parameter_list) : res (str * parameter_list) :=
  parameters_loop (S (length begin)) begin begin parameters.
(** [parser::parse_parameter_list]: the flag is true when extraction failed. *)
Definition parse_parameter_list (in_ : str) (out : parameter_list) : res (bool * parameter_list) :=
  if bool_decide (in_ = []) then mret (false, out)
  else '(it, out) ← extract_parameters in_ out; mret (bool_decide (it = in_), out).

Example parse_sample : parse_parameter_list (lit "foo; bar=baz;x = 12, b ,  c;q") [] =
  Ok (false, [(lit "foo", [(lit "bar", lit "baz"); (lit "x", lit "12")]); (lit "b", []); (lit "c", [(lit "q", [])])]).
Proof. vm_compute. reflexivity. Qed.
