(* ===== verification/HttpTextFacts.v ===== *)
(** * Facts on HTTP text: scanning ends, maps, white space, parameter lists

    Every scan returns for every text; a parameter list that is written out parses to
    itself. *)

From S2P Require Import Prelude SortedKeys StdString HttpText.

Open Scope Z_scope.

(** ** Scanning *)
Lemma find_if_app f s : (find_if f s).1 ++ (find_if f s).2 = s.
Proof. induction s as [|c s IH]; simpl; [done|]. destruct (f c); [done|]. destruct (find_if f s). simpl in *. by f_equal. Qed.
Lemma find_if_before f s : Forall (λ c, f c = false) (find_if f s).1.
Proof. induction s as [|c s IH]; simpl; [done|]. destruct (f c) eqn:E; [done|]. destruct (find_if f s). simpl in *. by constructor. Qed.
Lemma find_if_stop f s : match (find_if f s).2 with [] => True | c :: _ => f c = true end.
Proof. induction s as [|c s IH]; simpl; [done|]. destruct (f c) eqn:E; [done|]. by destruct (find_if f s). Qed.
Lemma find_if_spec f a b : Forall (λ c, f c = false) a → match b with [] => True | c :: _ => f c = true end → find_if f (a ++ b) = (a, b).
Proof. intros Ha Hb. induction Ha as [|c a Hc Ha IH]; simpl; [destruct b; simpl; [done|by rewrite Hb]|]. by rewrite Hc, IH. Qed.
Lemma find_if_none f a : Forall (λ c, f c = false) a → find_if f a = (a, []).
Proof. intros Ha. rewrite <- (app_nil_r a) at 1. by apply find_if_spec. Qed.
Lemma find_if_length f s : (length (find_if f s).2 ≤ length s)%nat.
Proof. rewrite <- (find_if_app f s) at 2. rewrite length_app. lia. Qed.
Lemma find_char_stops c a b : Forall (λ x, x ≠ c) a → find_char c (a ++ c :: b) = (a, c :: b).
Proof.
  intros Ha. apply find_if_spec; [|by rewrite bool_decide_eq_true_2].
  eapply Forall_impl; [exact Ha|]. intros x Hx. by rewrite bool_decide_eq_false_2.
Qed.
Lemma search_found c pat a b : Forall (λ x, x ≠ c) a → search (c :: pat) (a ++ c :: pat ++ b) = (a, c :: pat ++ b).
Proof.
  intros Ha. unfold search. pose proof (find_after c pat a b Ha) as Hf. cbn [app] in Hf. rewrite Hf.
  by rewrite take_app_length, drop_app_length.
Qed.
(** The end of a search: nothing left, or the pattern first. *)
Lemma find_prefix pat s n : find pat s = Some n → starts_with pat (drop n s) = true ∧ (n + length pat ≤ length s)%nat.
Proof.
  assert (Hlen : ∀ p t, starts_with p t = true → (length p ≤ length t)%nat).
  { induction p as [|x p IH]; intros [|y t]; simpl; intros E; try done; [lia|]. apply andb_prop in E as [_ E]. apply IH in E. lia. }
  revert n. induction s as [|c s IH]; intros n; cbn [find].
  - destruct (starts_with pat []) eqn:E; [|done]. intros [= <-]. simpl. split; [done|]. by apply Hlen in E.
  - destruct (starts_with pat (c :: s)) eqn:E; [intros [= <-]; split; [done|by apply Hlen in E]|].
    destruct (find pat s) as [m|] eqn:Em; [|done]. intros [= <-]. destruct (IH m eq_refl). split; [done|simpl; lia].
Qed.
Lemma search_app pat s : (search pat s).1 ++ (search pat s).2 = s.
Proof. unfold search. destruct (find pat s); simpl; [apply take_drop|by rewrite app_nil_r]. Qed.
Lemma search_end pat s : (search pat s).2 = [] ∨ (length pat ≤ length (search pat s).2)%nat.
Proof.
  unfold search. destruct (find pat s) as [n|] eqn:E; simpl; [|by left]. right. apply find_prefix in E as [_ ?]. rewrite length_drop. lia.
Qed.

(** ** White space *)
Definition blank (s : str) : Prop := Forall (λ c, is_whitespace_char c = true) s.
(** A text without white space at its ends. *)
Definition trimmed (s : str) : Prop :=
  match s with [] => True | c :: _ => is_whitespace_char c = false ∧ c ≠ "013"%char end ∧
  match rev s with [] => True | c :: _ => is_whitespace_char c = false ∧ c ≠ "013"%char end.
Lemma not_whitespace c : is_not_whitespace_char c = negb (is_whitespace_char c).
Proof. unfold is_not_whitespace_char, is_whitespace_char. by rewrite negb_orb. Qed.

Lemma skip_folding_suffix s : ∃ q, s = q ++ skip_folding s.
Proof. unfold skip_folding. repeat case_match; subst; try (by exists []). match goal with |- ∃ q, ?a :: ?b :: ?c :: ?l = _ => by exists [a; b; c] end. Qed.
Lemma extract_lws_length s : (length (extract_lws s) ≤ length s)%nat.
Proof.
  unfold extract_lws. etransitivity; [apply find_if_length|]. destruct (skip_folding_suffix s) as [q Hq]. rewrite Hq at 2. rewrite length_app. lia.
Qed.
Lemma lws_loop_total fuel s : (length s < fuel)%nat → ∃ r, lws_loop fuel s = Ok r ∧ (length r ≤ length s)%nat.
Proof.
  revert s. induction fuel as [|fuel IH]; intros s Hf; [lia|]. cbn [lws_loop]. pose proof (extract_lws_length s) as Hl.
  destruct (negb _ && negb _) eqn:E; [|by eexists]. apply andb_prop in E as [_ E]. apply negb_true_iff, bool_decide_eq_false in E.
  assert (length (extract_lws s) ≠ length s).
  { intros Hlen. apply E. assert (∃ p, s = p ++ extract_lws s) as [p Hp].
    { unfold extract_lws. destruct (skip_folding_suffix s) as [q Hq].
      exists (q ++ (find_if is_not_whitespace_char (skip_folding s)).1). by rewrite <- app_assoc, find_if_app. }
    rewrite Hp in Hlen at 2. rewrite length_app in Hlen. destruct p; [done|simpl in Hlen; lia]. }
  destruct (IH (extract_lws s)) as (r & -> & ?); [lia|]. exists r. split; [done|lia].
Qed.
(** White space is taken from the front. *)
Lemma extract_all_lws_total s : ∃ r, extract_all_lws s = Ok r ∧ (length r ≤ length s)%nat.
Proof. apply lws_loop_total. lia. Qed.

Definition ink (s : str) : Prop := match s with [] => True | c :: _ => is_whitespace_char c = false ∧ starts_with header_delimiter s = false end.
Lemma ink_char c s : is_whitespace_char c = false → c ≠ "013"%char → ink (c :: s).
Proof. intros Hc Hn. split; [done|]. cbn [starts_with header_delimiter]. by rewrite bool_decide_eq_false_2. Qed.
Lemma skip_folding_id s : starts_with header_delimiter s = false → skip_folding s = s.
Proof.
  intros Hs. unfold skip_folding. by repeat case_match.
Qed.
Lemma extract_lws_ink w s : blank w → ink s → extract_lws (w ++ s) = s.
Proof.
  intros Hw Hs. unfold extract_lws. rewrite skip_folding_id.
  - rewrite find_if_spec; [done|..].
    + eapply Forall_impl; [exact Hw|]. intros c. rewrite not_whitespace. by intros ->.
    + destruct s; [done|]. rewrite not_whitespace. by destruct Hs as [-> _].
  - destruct Hw as [|a w Ha _]; simpl; [destruct s; [done|by destruct Hs]|]. apply andb_false_iff. left. apply bool_decide_eq_false. intros <-. done.
Qed.
Lemma extract_all_lws_ink w s : blank w → ink s → extract_all_lws (w ++ s) = Ok s.
Proof.
  intros Hw Hs. unfold extract_all_lws. cbn [lws_loop]. rewrite extract_lws_ink by done.
  destruct (negb _ && negb _) eqn:E; [|done]. apply andb_prop in E as [E1 E2].
  apply negb_true_iff, bool_decide_eq_false in E1. apply negb_true_iff, bool_decide_eq_false in E2.
  destruct w as [|a w]; [done|]. cbn [app length lws_loop]. pose proof (extract_lws_ink [] s (Forall_nil_2 _) Hs) as E. simpl in E. rewrite E.
  by rewrite (bool_decide_eq_true_2 (s = s)), andb_false_r.
Qed.
Lemma strip_lws_trimmed w s w' : blank w → blank w' → trimmed s → strip_lws (w ++ s ++ w') = Ok s.
Proof.
  intros Hw Hw' [Hf Hl]. destruct s as [|c s].
  - unfold strip_lws. rewrite app_nil_l. pose proof (extract_all_lws_ink (w ++ w') [] (proj2 (Forall_app _ _ _) (conj Hw Hw')) I) as E.
    rewrite app_nil_r in E. by rewrite E.
  - unfold strip_lws. rewrite extract_all_lws_ink; [|done|by apply ink_char; destruct Hf]. cbn [mbind res_bind]. rewrite (bool_decide_eq_false_2 ((c :: s) ++ w' = [])) by done.
    rewrite !rev_app_distr, <- app_assoc. rewrite (extract_all_lws_ink (rev w')); [|by apply Forall_rev|].
    + cbn [mbind res_bind]. rewrite bool_decide_eq_false_2.
      * rewrite !length_app, !length_rev. rewrite (proj2 (Nat.leb_le _ _)) by (simpl; lia).
        replace (length w + _ - _)%nat with (length w) by lia.
        replace (length (c :: s) + length w)%nat with (length (w ++ (c :: s)))%nat by (rewrite length_app; lia).
        by rewrite app_assoc, take_app_length, drop_app_length.
      * intros E. apply (f_equal length) in E. rewrite length_app, length_rev in E. simpl in E. lia.
    + destruct (rev (c :: s)) as [|d l] eqn:E; [|by apply ink_char; destruct Hl]. by apply (f_equal length) in E; rewrite length_rev in E.
Qed.

(** Stripping a line: it returns when the line holds no line end. *)
Lemma starts_with_find pat s : find pat s = None → starts_with pat s = false.
Proof. destruct s; simpl; by destruct (starts_with _ _). Qed.
Lemma find_none_drop pat n s : find pat s = None → find pat (drop n s) = None.
Proof.
  revert n. induction s as [|c s IH]; intros n Hf; [by rewrite drop_nil|]. destruct n as [|n]; [done|]. simpl. apply IH.
  simpl in Hf. destruct (starts_with _ _); [done|]. by destruct (find pat s).
Qed.
Lemma blank_split s : ∃ w u, s = w ++ u ∧ blank w ∧ match u with [] => True | c :: _ => is_whitespace_char c = false end.
Proof.
  exists (find_if is_not_whitespace_char s).1, (find_if is_not_whitespace_char s).2. rewrite find_if_app. split_and!; [done|..].
  - eapply Forall_impl; [apply find_if_before|]. simpl. intros c. rewrite not_whitespace. by destruct (is_whitespace_char c).
  - pose proof (find_if_stop is_not_whitespace_char s) as H. destruct (find_if _ s).2; [done|]. rewrite not_whitespace in H. by destruct (is_whitespace_char a).
Qed.
Lemma starts_with_crlf s : starts_with header_delimiter s = true → ∃ t, s = header_delimiter ++ t.
Proof.
  unfold header_delimiter. destruct s as [|a [|b s]]; cbn [starts_with]; try done; [by destruct (bool_decide _)|].
  intros [->%bool_decide_eq_true [->%bool_decide_eq_true _]%andb_prop]%andb_prop. by exists s.
Qed.
Lemma skip_folding_cases s : skip_folding s = s ∨ ∃ c u, is_whitespace_char c = true ∧ s = header_delimiter ++ c :: u ∧ skip_folding s = u.
Proof.
  destruct (starts_with header_delimiter s) eqn:Es; [|left; by apply skip_folding_id].
  destruct (starts_with_crlf _ Es) as [[|c u] ->]; [by left|]. simpl. destruct (is_whitespace_char c) eqn:E; [|by left]. right. by exists c, u.
Qed.
Lemma lws_keeps_ink fuel v c w r : is_whitespace_char c = false → blank w → lws_loop fuel (v ++ c :: w) = Ok r → r = [] ∨ (S (length w) ≤ length r)%nat.
Proof.
  intros Hc Hw.
  assert (Hstep : ∀ v, extract_lws (v ++ c :: w) = [] ∨ ∃ v', extract_lws (v ++ c :: w) = v' ++ c :: w).
  { assert (Hscan : ∀ v, ∃ v', (find_if is_not_whitespace_char (v ++ c :: w)).2 = v' ++ c :: w).
    { intros x. induction x as [|a x IH]; simpl; [exists []; by rewrite not_whitespace, Hc|].
      destruct (is_not_whitespace_char a) eqn:Ea; [by exists (a :: x)|]. destruct IH as [v' IH]. exists v'. by destruct (find_if _ _). }
    intros x. unfold extract_lws. destruct (skip_folding_cases (x ++ c :: w)) as [->|(d & u & Ed & Hu & ->)]; [right; apply Hscan|].
    destruct x as [|a1 [|a2 [|a3 x]]]; simpl in Hu; simplify_eq; [by apply Forall_cons in Hw as [? _]| |congruence|right; apply Hscan].
    left. apply Forall_cons in Hw as [_ Hw]. rewrite find_if_none; [done|]. eapply Forall_impl; [exact Hw|]. intros a. rewrite not_whitespace. by intros ->. }
  revert v. induction fuel as [|fuel IH]; intros v; [done|]. cbn [lws_loop]. destruct (Hstep v) as [->|[v' ->]].
  - rewrite (bool_decide_eq_true_2 ([] = [])) by done. intros [= <-]. by left.
  - destruct (negb _ && negb _); [apply IH|]. intros [= <-]. right. rewrite length_app. simpl. lia.
Qed.
Lemma strip_lws_total s : find header_delimiter s = None → ∃ r, strip_lws s = Ok r.
Proof.
  intros Hs. unfold strip_lws. destruct (blank_split s) as (w & u & -> & Hw & Hu). rewrite extract_all_lws_ink; [|done|].
  2: { destruct u as [|c u]; [done|]. split; [done|]. apply starts_with_find. rewrite <- (drop_app_length w (c :: u)). by apply find_none_drop. }
  cbn [mbind res_bind]. case_bool_decide; [by eexists|]. destruct u as [|c u]; [done|].
  destruct (extract_all_lws_total (rev (w ++ c :: u))) as (r & Hr & Hlen). rewrite Hr. cbn [mbind res_bind]. case_bool_decide; [by eexists|].
  rewrite rev_app_distr in Hr. cbn [rev] in Hr. rewrite <- app_assoc in Hr.
  destruct (lws_keeps_ink _ (rev u) c (rev w) r Hu ltac:(by apply Forall_rev) Hr) as [->|Hge]; [done|]. rewrite length_rev in Hge.
  rewrite (proj2 (Nat.leb_le _ _)) by (rewrite length_app; lia). by eexists.
Qed.

(** ** Maps *)
Section MapFacts.
Variable norm : str → list Z.
#[local] Abbreviation sorted := (sorted_keys (entry_key norm)).

Lemma fmap_entry_key k v (m : list entry) :
  entry_key norm <$> ((λ e : entry, if bool_decide (entry_key norm e = norm k) then (e.1, v) else e) <$> m) = entry_key norm <$> m.
Proof. rewrite <- list_fmap_compose. apply list_fmap_ext. intros i e _. simpl. by case_bool_decide. Qed.
Lemma find_key_fmap_entry (f : entry → entry) k m : (∀ e, entry_key norm (f e) = entry_key norm e) →
  find_key (entry_key norm) k (f <$> m) = f <$> find_key (entry_key norm) k m.
Proof. intros Hf. induction m as [|e m IH]; [done|]. rewrite fmap_cons. cbn [find_key]. rewrite !Hf, IH. by repeat case_match. Qed.
Lemma find_key_some k m e : find_key (entry_key norm) k m = Some e → entry_key norm e = k.
Proof.
  induction m as [|x m IH]; cbn [find_key]; [done|]. destruct (key_ltb (entry_key norm x) k) eqn:E1; [done|].
  destruct (key_ltb k (entry_key norm x)) eqn:E2; [done|]. intros [= <-]. by apply key_total.
Qed.
Lemma put_sorted k v m : sorted m → sorted (map_put norm k v m).
Proof.
  intros Hm. unfold map_put. destruct (map_find norm k m); [|by apply sorted_ins].
  revert Hm. unfold sorted_keys. induction m as [|e m IH]; cbn; intros Hs; [done|]. apply StronglySorted_cons in Hs as [He Hs].
  apply StronglySorted_cons. split; [|by apply IH]. unfold key_lt in *. rewrite Forall_forall in *. intros x Hx.
  apply list_elem_of_fmap in Hx as (y & -> & Hy). specialize (He y Hy). by repeat case_bool_decide.
Qed.
Lemma find_put_eq k v m : sorted m → map_find norm k (map_put norm k v m) = Some v.
Proof.
  intros Hm. unfold map_put. destruct (map_find norm k m) eqn:E; unfold map_find in *.
  - rewrite find_key_fmap_entry by (intros e; simpl; by case_bool_decide). destruct (find_key _ _ m) as [e|] eqn:Ef; [|done]. simpl.
    apply find_key_some in Ef. by rewrite bool_decide_eq_true_2.
  - assert (find_key (entry_key norm) (norm k) m = None) as Hn by by destruct (find_key _ _ m).
    change (norm k) with (entry_key norm (k, v)). by rewrite (find_key_ins_eq (entry_key norm) (k, v) m Hm Hn).
Qed.
Lemma find_put_ne k k' v m : sorted m → norm k' ≠ norm k → map_find norm k' (map_put norm k v m) = map_find norm k' m.
Proof.
  intros Hm Hne. unfold map_put. destruct (map_find norm k m) eqn:E; unfold map_find in *.
  - rewrite find_key_fmap_entry by (intros e; simpl; by case_bool_decide). destruct (find_key _ (norm k') m) as [e|] eqn:Ef; [|done]. simpl.
    apply find_key_some in Ef. by rewrite bool_decide_eq_false_2 by congruence.
  - by rewrite (find_key_ins_ne (entry_key norm) (k, v) m (norm k') Hm Hne).
Qed.
(** An entry behind all others goes to the end. *)
Lemma put_last k v m : Forall (before (entry_key norm) (norm k)) m → map_put norm k v m = m ++ [(k, v)].
Proof.
  intros Hm. pose proof (find_key_absent (entry_key norm) (norm k) m [] Hm (Forall_nil_2 _)) as Hf. rewrite app_nil_r in Hf.
  unfold map_put, map_find. rewrite Hf. simpl. rewrite <- (app_nil_r m) at 1. by apply (ins_app (entry_key norm) (k, v)).
Qed.
Lemma sorted_snoc k v m : sorted (m ++ [(k, v)]) → sorted m ∧ Forall (before (entry_key norm) (norm k)) m.
Proof.
  unfold sorted_keys. intros H. apply StronglySorted_app in H as (Hb & H1 & _). split; [done|]. rewrite Forall_forall. intros x Hx.
  unfold before. apply (Hb x (k, v) Hx). by left.
Qed.
Lemma find_absent_last k m : Forall (before (entry_key norm) (norm k)) m → map_find norm k m = None.
Proof.
  intros Hm. pose proof (find_key_absent (entry_key norm) (norm k) m [] Hm (Forall_nil_2 _)) as Hf. rewrite app_nil_r in Hf.
  unfold map_find. by rewrite Hf.
Qed.
End MapFacts.

(** ** Every scan returns *)
Lemma quoted_loop_total fuel s marker : (length marker < fuel)%nat →
  ∃ r, quoted_loop fuel s marker = Ok r ∧ match r with None => True | Some (_, cursor) => (length cursor < length marker)%nat end.
Proof.
  revert s marker. induction fuel as [|fuel IH]; intros s marker Hf; [lia|]. cbn [quoted_loop].
  pose proof (find_if_length (λ x, bool_decide (x = quote)) marker) as Hl. unfold find_char. destruct (find_if _ marker) as [chunk cursor]. simpl in Hl.
  destruct cursor as [|q cursor]; [by exists None|]. simpl in Hl. case_bool_decide; [|eexists; split; [done|simpl; lia]].
  destruct (IH (s ++ removelast chunk ++ [quote]) cursor) as (r & -> & Hr); [lia|]. exists r. split; [done|]. destruct r as [[? ?]|]; [lia|done].
Qed.
Lemma extract_quoted_string_total s : ∃ v r, extract_quoted_string s = Ok (v, r) ∧ (length r ≤ length s)%nat ∧ (r ≠ s → (length r < length s)%nat).
Proof.
  unfold extract_quoted_string. destruct s as [|c s]; [by exists [], []|]. case_bool_decide; [|by eexists _, _].
  destruct (quoted_loop_total (S (length s)) [] s) as (r & -> & Hr); [lia|]. cbn [mbind res_bind]. destruct r as [[v r]|]; [|by eexists _, _].
  exists v, r. split; [done|]. simpl. split; intros; lia.
Qed.
Lemma extract_token_length s : (extract_token s).1 ≠ [] → (length (extract_token s).2 < length s)%nat.
Proof.
  intros Hn. unfold extract_token in *. pose proof (find_if_app is_not_token_char s) as H. apply (f_equal length) in H. rewrite length_app in H.
  destruct (find_if _ s).1; [done|]. simpl in H. lia.
Qed.

(** One step of a scan: white space goes, a token or a quoted string is read. *)
Ltac scan := match goal with
  | |- context [extract_all_lws ?s] =>
      let r := fresh "r" in let E := fresh in let L := fresh in destruct (extract_all_lws_total s) as (r & E & L); rewrite E; clear E; cbn [mbind res_bind]
  | |- context [extract_quoted_string ?s] =>
      let E := fresh in let L := fresh in destruct (extract_quoted_string_total s) as (? & ? & E & ? & L); rewrite E; clear E; cbn [mbind res_bind]
  | |- context [extract_token ?s] =>
      let L := fresh in pose proof (extract_token_length s) as L; destruct (extract_token s); simpl in L
  end.
Ltac scan_lia := repeat match goal with H : ?P → _, H' : ?P |- _ => specialize (H H') end; simpl in *; lia.
Lemma attributes_loop_total fuel begin cursor first attrs : (length cursor < fuel)%nat → ∃ r, attributes_loop fuel begin cursor first attrs = Ok r.
Proof.
  revert cursor first attrs. induction fuel as [|fuel IH]; intros cursor first attrs Hf; [lia|]. cbn [attributes_loop].
  case_bool_decide; [by eexists|]. scan. destruct r as [|c behind]; [by eexists|]. destruct (negb first && _); [by eexists|].
  assert (Hle : (length (if first then c :: behind else behind) ≤ length cursor)%nat) by (destruct first; simpl in *; lia).
  scan. scan. case_bool_decide; [by eexists|]. scan.
  destruct (negb (bool_decide (head _ = _))); [apply IH; scan_lia|]. scan. rewrite length_drop in *. case_bool_decide; [by eexists|]. scan. case_bool_decide; [scan; case_bool_decide; [by eexists|]|]; apply IH; scan_lia.
Qed.
Lemma extract_attributes_total begin attrs : ∃ r, extract_attributes begin attrs = Ok r.
Proof. apply attributes_loop_total. lia. Qed.
(** What extraction leaves is not longer than what it was given. *)
Lemma attributes_loop_length fuel begin cursor first attrs r attrs' :
  attributes_loop fuel begin cursor first attrs = Ok (r, attrs') → r = begin ∨ (length r ≤ length cursor)%nat.
Proof.
  revert cursor first attrs. induction fuel as [|fuel IH]; intros cursor first attrs; [done|]. cbn [attributes_loop].
  case_bool_decide; [intros [= <- <-]; by right|]. scan. destruct r0 as [|c behind]; [intros [= <- <-]; right; simpl; lia|].
  destruct (negb first && _); [intros [= <- <-]; by right|].
  assert (Hle : (length (if first then c :: behind else behind) ≤ length cursor)%nat) by (destruct first; simpl in *; lia).
  scan. scan. case_bool_decide; [intros [= <- <-]; by left|]. scan.
  assert (Hrec : ∀ t attrs, (length t ≤ length cursor)%nat → attributes_loop fuel begin t false attrs = Ok (r, attrs') → r = begin ∨ (length r ≤ length cursor)%nat).
  { intros t a Ht Hr. destruct (IH _ _ _ Hr); [by left|right; lia]. }
  destruct (negb (bool_decide (head _ = _))); [apply Hrec; scan_lia|]. scan. rewrite length_drop in *. case_bool_decide; [intros [= <- <-]; by left|]. scan. case_bool_decide; [scan; case_bool_decide; [intros [= <- <-]; by left|]|]; apply Hrec; scan_lia.
Qed.
Lemma read_attributes_total c behind :
  ∃ o, read_attributes c behind = Ok o ∧ match o with None => True | Some (a, _) => (length a ≤ length (c :: behind))%nat end.
Proof.
  unfold read_attributes. case_bool_decide; [|eexists; split; [done|simpl; lia]].
  destruct (extract_attributes_total behind []) as [[a attrs] Ha]. rewrite Ha. cbn [mbind res_bind].
  apply attributes_loop_length in Ha. eexists. split; [done|]. case_bool_decide; [done|]. simpl. destruct Ha; [done|lia].
Qed.
Lemma parameters_loop_total fuel begin cursor ps : (length cursor < fuel)%nat → ∃ r, parameters_loop fuel begin cursor ps = Ok r.
Proof.
  revert cursor ps. induction fuel as [|fuel IH]; intros cursor ps Hf; [lia|]. cbn [parameters_loop].
  case_bool_decide; [by eexists|]. scan. case_bool_decide; [by eexists|]. scan. case_bool_decide; [by eexists|]. scan.
  match goal with |- ∃ _, match ?t with _ => _ end = _ => destruct t as [|c t'] end; [by eexists|].
  destruct (read_attributes_total c t') as (o & -> & Ho). cbn [mbind res_bind]. destruct o as [[a attrs]|]; [|by eexists]. scan.
  match goal with |- ∃ _, match ?t with _ => _ end = _ => destruct t as [|c2 t2] end; [by eexists|].
  case_bool_decide; [|by eexists]. case_bool_decide; [by eexists|]. apply IH. scan_lia.
Qed.
(** The parser of parameter lists returns for every text. *)
Lemma parse_parameter_list_total s out : ∃ r, parse_parameter_list s out = Ok r.
Proof.
  unfold parse_parameter_list. case_bool_decide; [by eexists|]. unfold extract_parameters.
  destruct (parameters_loop_total (S (length s)) s s out) as [[it out'] ->]; [lia|]. by eexists.
Qed.

(** ** Parameter lists that are written out *)
Definition token (s : str) : Prop := Forall (λ c, is_not_token_char c = false) s.
#[global] Instance token_dec s : Decision (token s).
Proof. unfold token. apply _. Defined.
(** A character that is no part of a token, white space, or a carriage return. *)
Definition stop_char (c : ascii) : Prop := is_not_token_char c = true ∧ is_whitespace_char c = false ∧ c ≠ "013"%char.
Lemma token_char c : is_not_token_char c = false →
  is_whitespace_char c = false ∧ c ≠ "013"%char ∧ c ≠ "010"%char ∧ c ≠ quote ∧ c ≠ ":"%char ∧ c ≠ " "%char.
Proof. destruct c as [[] [] [] [] [] [] [] []]; intros E; by vm_compute in E. Qed.

Definition escape (v : str) : str := concat ((λ c : ascii, if bool_decide (c = quote) then ["092"%char; quote] else [c]) <$> v).
Definition show_value (v : str) : str :=
  if bool_decide (v = []) then [] else "="%char :: (if bool_decide (token v) then v else quote :: escape v ++ [quote]).
Definition show_attribute (a : entry) : str := a.1 ++ show_value a.2.
Definition show_attributes (l : attribute_list) : str := concat ((λ a, lit "; " ++ show_attribute a) <$> l).
Definition show_parameter (p : str * attribute_list) : str := p.1 ++ show_attributes p.2.
Fixpoint show_parameters (ps : parameter_list) : str :=
  match ps with
  | [] => []
  | [p] => show_parameter p
  | p :: ps => show_parameter p ++ lit ", " ++ show_parameters ps
  end.
Definition attribute_ok (a : entry) : Prop := token a.1 ∧ a.1 ≠ [] ∧ Forall (λ c, c ≠ "092"%char) a.2.
Definition parameter_ok (p : str * attribute_list) : Prop :=
  token p.1 ∧ p.1 ≠ [] ∧ Forall attribute_ok p.2 ∧ sorted_keys (entry_key plain_name) p.2.

(** The text behind a token: nothing, or a character that ends it. *)
Definition stops (t : str) : Prop := match t with [] => True | c :: _ => stop_char c end.
Lemma extract_token_spec s t : token s → stops t → extract_token (s ++ t) = (s, t).
Proof. intros Hs Ht. apply find_if_spec; [done|]. destruct t; [done|by destruct Ht]. Qed.
Lemma stops_ink t : stops t → ink t.
Proof. destruct t; [done|]. intros (_ & ? & ?). by apply ink_char. Qed.
Lemma token_ink s t : token s → s ≠ [] → ink (s ++ t).
Proof. intros Hs Hn. destruct Hs as [|c s Hc _]; [done|]. apply token_char in Hc as (? & ? & _). by apply ink_char. Qed.
Lemma lws_ink t : ink t → extract_all_lws t = Ok t.
Proof. intros Ht. exact (extract_all_lws_ink [] t (Forall_nil_2 _) Ht). Qed.
Lemma lws_space t : ink t → extract_all_lws (" "%char :: t) = Ok t.
Proof. intros Ht. apply (extract_all_lws_ink [" "%char] t); [by repeat constructor|done]. Qed.

Lemma escape_cons c v : escape (c :: v) = (if bool_decide (c = quote) then ["092"%char; quote] else [c]) ++ escape v.
Proof. done. Qed.
Lemma escape_plain a : Forall (λ c, c ≠ quote) a → escape a = a.
Proof. induction 1 as [|c a Hc _ IH]; [done|]. rewrite escape_cons, bool_decide_eq_false_2, IH by done. done. Qed.
Lemma escape_app a b : escape (a ++ b) = escape a ++ escape b.
Proof. unfold escape. by rewrite fmap_app, concat_app. Qed.
Lemma quoted_loop_read fuel s v t : (length (escape v) < fuel)%nat → Forall (λ c, c ≠ "092"%char) v →
  quoted_loop fuel s (escape v ++ quote :: t) = Ok (Some (s ++ v, t)).
Proof.
  revert s v. induction fuel as [|fuel IH]; intros s v Hf Hv; [lia|]. cbn [quoted_loop].
  pose proof (find_if_app (λ x, bool_decide (x = quote)) v) as Hsplit. pose proof (find_if_stop (λ x, bool_decide (x = quote)) v) as Hstop.
  assert (Ha : Forall (λ c, c ≠ quote) (find_if (λ x, bool_decide (x = quote)) v).1).
  { eapply Forall_impl; [apply find_if_before|]. intros c Hc. by apply bool_decide_eq_false in Hc. }
  destruct (find_if _ v) as [a b]. simpl in Hsplit, Hstop, Ha. subst v. apply Forall_app in Hv as [Hva Hvb]. rewrite escape_app, (escape_plain a) by done.
  destruct b as [|c b].
  - unfold escape. simpl. rewrite !app_nil_r. rewrite find_char_stops by done. rewrite bool_decide_eq_false_2; [done|].
    intros Hl. apply last_Some in Hl as [a' ->]. apply Forall_app in Hva as [_ Hva]. by apply Forall_cons in Hva as [? _].
  - apply bool_decide_eq_true in Hstop as ->. change (escape (quote :: b)) with ("092"%char :: quote :: escape b).
    replace ((a ++ "092"%char :: quote :: escape b) ++ quote :: t) with ((a ++ ["092"%char]) ++ quote :: escape b ++ quote :: t) by (rewrite <- !app_assoc; done).
    rewrite find_char_stops.
    2: { apply Forall_app. split; [done|]. by repeat constructor. }
    rewrite bool_decide_eq_true_2 by by rewrite last_snoc. rewrite removelast_last. rewrite IH.
    + f_equal. f_equal. f_equal. rewrite <- !app_assoc. done.
    + rewrite escape_app, length_app in Hf. change (escape (quote :: b)) with ("092"%char :: quote :: escape b) in Hf. simpl in Hf. lia.
    + by apply Forall_cons in Hvb as [_ ?].
Qed.
Lemma quoted_read v t : Forall (λ c, c ≠ "092"%char) v → extract_quoted_string (quote :: escape v ++ quote :: t) = Ok (v, t).
Proof.
  intros Hv. unfold extract_quoted_string. rewrite bool_decide_eq_true_2 by done. rewrite quoted_loop_read; [done| |done]. rewrite length_app. simpl. lia.
Qed.

(** One attribute. *)
Lemma attribute_read fuel begin a t (first : bool) acc : attribute_ok a → stops t → head t ≠ Some "="%char →
  sorted_keys (entry_key plain_name) (acc ++ [a]) →
  attributes_loop (S fuel) begin (if first then " "%char :: show_attribute a ++ t else lit "; " ++ show_attribute a ++ t) first acc =
  attributes_loop fuel begin t false (acc ++ [a]).
Proof.
  intros (Hn & Hne & Hv) Ht Hte Hs. destruct a as [n v]. simpl in Hn, Hne, Hv. unfold show_attribute. simpl.
  assert (Hput : map_put plain_name n v acc = acc ++ [(n, v)]) by (apply put_last; by apply sorted_snoc in Hs as [_ ?]).
  rewrite <- app_assoc. set (u := show_value v ++ t). assert (Hink : ink (n ++ u)) by by apply token_ink.
  assert (Hu : stops u).
  { unfold u, show_value. case_bool_decide; [done|]. simpl. done. }
  cbn [attributes_loop]. destruct (n ++ u) as [|c cu] eqn:Ec; [by destruct n|].
  destruct first.
  all: rewrite bool_decide_eq_false_2 by done.
  1: rewrite lws_space by done. 2: rewrite lws_ink by by apply ink_char.
  all: cbn [mbind res_bind negb andb].
  1: rewrite lws_ink by done. 2: rewrite (bool_decide_eq_true_2 (";"%char = ";"%char)) by done; cbn [negb]; rewrite lws_space by done.
  all: cbn [mbind res_bind]; rewrite <- Ec, extract_token_spec by done; rewrite (bool_decide_eq_false_2 (n = [])) by done.
  all: rewrite (lws_ink u) by by apply stops_ink.
  all: cbn [mbind res_bind]; unfold u, show_value.
  all: destruct (decide (v = [])) as [Hv0|Hv0];
    [rewrite (bool_decide_eq_true_2 (v = [])) by done; cbn [app]; rewrite (bool_decide_eq_false_2 _ Hte); rewrite Hv0 in Hput; rewrite Hput; rewrite Hv0; done|rewrite (bool_decide_eq_false_2 (v = [])) by done].
  all: cbn [app head]; rewrite (bool_decide_eq_true_2 (Some "="%char = Some "="%char)) by done; cbn [negb drop].
  all: destruct (decide (token v)) as [Htok|Htok]; [rewrite (bool_decide_eq_true_2 (token v)) by done|rewrite (bool_decide_eq_false_2 (token v)) by done].
  all: rewrite drop_0; cbn [app]; match goal with |- context [extract_all_lws ?s] => rewrite (lws_ink s) by (by apply token_ink || by apply ink_char) end; cbn [mbind res_bind].
  all: rewrite bool_decide_eq_false_2 by (by destruct v).
  2,4: rewrite <- app_assoc; cbn [app]; rewrite quoted_read by done; cbn [mbind res_bind]; rewrite bool_decide_eq_false_2, Hput; [done|]; intros Ht0; apply (f_equal length) in Ht0; simpl in Ht0; rewrite length_app in Ht0; simpl in Ht0; lia.
  all: assert (extract_quoted_string (v ++ t) = Ok ([], v ++ t)) as -> by (destruct v as [|x v]; [done|]; simpl; rewrite bool_decide_eq_false_2; [done|]; apply Forall_cons in Htok as [(_ & _ & _ & ? & _)%token_char _]; done).
  all: cbn [mbind res_bind]; rewrite (bool_decide_eq_true_2 (v ++ t = v ++ t)) by done; rewrite extract_token_spec by done; rewrite bool_decide_eq_false_2, Hput by done; done.
Qed.

Definition comma_or_end (t : str) : Prop := t = [] ∨ ∃ t', t = ","%char :: t'.
Lemma comma_stops t : comma_or_end t → stops t ∧ head t ≠ Some "="%char ∧ head t ≠ Some ";"%char.
Proof. by intros [->|[t' ->]]. Qed.
Lemma show_attributes_stops l t : comma_or_end t → stops (show_attributes l ++ t) ∧ head (show_attributes l ++ t) ≠ Some "="%char.
Proof. intros Ht. destruct l as [|a l]; [simpl; by destruct (comma_stops t Ht) as (? & ? & _)|]. done. Qed.
Lemma attributes_read fuel begin l t acc : (length l < fuel)%nat → Forall attribute_ok l → sorted_keys (entry_key plain_name) (acc ++ l) → comma_or_end t →
  attributes_loop fuel begin (show_attributes l ++ t) false acc = Ok (t, acc ++ l).
Proof.
  revert fuel acc. induction l as [|a l IH]; intros fuel acc Hf Hl Hs Ht.
  - rewrite app_nil_r. destruct fuel; [simpl in Hf; lia|]. cbn [show_attributes fmap list_fmap concat app attributes_loop].
    destruct Ht as [->|[t' ->]]; [done|]. rewrite bool_decide_eq_false_2 by done. rewrite lws_ink by by apply ink_char. cbn [mbind res_bind].
    by rewrite bool_decide_eq_false_2.
  - destruct fuel; [simpl in Hf; lia|]. apply Forall_cons in Hl as [Ha Hl]. destruct (show_attributes_stops l t Ht).
    replace (acc ++ a :: l) with ((acc ++ [a]) ++ l) in * by by rewrite <- app_assoc.
    assert (sorted_keys (entry_key plain_name) (acc ++ [a])) by (unfold sorted_keys in *; by apply StronglySorted_app in Hs as (_ & ? & _)).
    change (show_attributes (a :: l)) with ((lit "; " ++ show_attribute a) ++ show_attributes l).
    rewrite <- (app_assoc (lit "; " ++ show_attribute a)), <- (app_assoc (lit "; ")).
    rewrite (attribute_read fuel begin a (show_attributes l ++ t) false acc) by done. apply IH; [simpl in Hf; lia|done..].
Qed.
Lemma extract_attributes_read a l t : Forall attribute_ok (a :: l) → sorted_keys (entry_key plain_name) (a :: l) → comma_or_end t →
  extract_attributes (" "%char :: show_attribute a ++ show_attributes l ++ t) [] = Ok (t, a :: l).
Proof.
  intros [Ha Hl]%Forall_cons Hs Ht. unfold extract_attributes. destruct (show_attributes_stops l t Ht).
  assert (sorted_keys (entry_key plain_name) ([] ++ [a])) by by repeat constructor.
  rewrite (attribute_read _ _ a (show_attributes l ++ t) true []) by done. apply attributes_read; [|done..].
  assert (∀ l, (length l ≤ length (show_attributes l))%nat).
  { clear. induction l as [|a l IH]; [done|]. change (show_attributes (a :: l)) with ((lit "; " ++ show_attribute a) ++ show_attributes l).
    rewrite !length_app. simpl. lia. }
  specialize (H2 l). simpl. rewrite !length_app. lia.
Qed.

Lemma comma_ink t : comma_or_end t → ink t.
Proof. intros Ht. apply stops_ink. by destruct (comma_stops t Ht). Qed.
Lemma parameter_read fuel begin pre p t ps : blank pre → parameter_ok p → comma_or_end t → length t ≠ 1%nat →
  parameters_loop (S fuel) begin (pre ++ show_parameter p ++ t) ps =
  match t with [] => Ok ([], ps ++ [p]) | _ :: t => parameters_loop fuel begin t (ps ++ [p]) end.
Proof.
  intros Hpre (Hn & Hne & Hl & Hs) Ht Ht1. destruct p as [n l]. simpl in Hn, Hne, Hl, Hs. unfold show_parameter. simpl. rewrite <- !app_assoc.
  set (u := show_attributes l ++ t). destruct (show_attributes_stops l t Ht) as [Hu _]. fold u in Hu. cbn [parameters_loop].
  rewrite bool_decide_eq_false_2 by (intros E; apply (f_equal length) in E; rewrite !length_app in E; destruct n; simpl in E; [done|lia]).
  rewrite extract_all_lws_ink by (done || by apply token_ink). cbn [mbind res_bind]. rewrite bool_decide_eq_false_2 by by destruct n.
  rewrite extract_token_spec by done. rewrite (bool_decide_eq_false_2 (n = [])) by done. rewrite lws_ink by by apply stops_ink. cbn [mbind res_bind].
  assert (Hend : ∀ l, (match t with
    | [] => mret (t, ps ++ [(n, l)])
    | c :: behind => if bool_decide (c = ","%char) then if bool_decide (behind = []) then mret (begin, ps ++ [(n, l)]) else parameters_loop fuel begin behind (ps ++ [(n, l)])
                     else mret (t, ps ++ [(n, l)])
    end) = match t with [] => Ok ([], ps ++ [(n, l)]) | _ :: t => parameters_loop fuel begin t (ps ++ [(n, l)]) end).
  { intros l'. destruct Ht as [->|[t' ->]]; [done|]. rewrite bool_decide_eq_true_2 by done. rewrite bool_decide_eq_false_2; [done|]. by destruct t'. }
  destruct l as [|a l].
  - unfold u. change (show_attributes [] ++ t) with t. destruct Ht as [->|[t' ->]]; [done|]. unfold read_attributes.
    rewrite bool_decide_eq_false_2 by done. cbn [mbind res_bind mret res_ret]. rewrite lws_ink by by apply ink_char. cbn [mbind res_bind]. apply Hend.
  - unfold u. change (show_attributes (a :: l)) with ((lit "; " ++ show_attribute a) ++ show_attributes l).
    change (lit "; ") with [";"%char; " "%char]. rewrite <- !app_assoc. cbn [app]. unfold read_attributes. rewrite bool_decide_eq_true_2 by done.
    rewrite extract_attributes_read by done. cbn [mbind res_bind mret res_ret].
    rewrite bool_decide_eq_false_2 by (intros E; apply (f_equal length) in E; simpl in E; rewrite !length_app in E; lia).
    rewrite lws_ink by by apply comma_ink. cbn [mbind res_bind]. apply Hend.
Qed.
Lemma parameters_read fuel begin pre ps acc : (length ps < fuel)%nat → blank pre → Forall parameter_ok ps → ps ≠ [] →
  parameters_loop fuel begin (pre ++ show_parameters ps) acc = Ok ([], acc ++ ps).
Proof.
  revert fuel pre acc. induction ps as [|p ps IH]; intros fuel pre acc Hf Hpre Hps Hne; [done|]. destruct fuel; [simpl in Hf; lia|].
  apply Forall_cons in Hps as [Hp Hps]. destruct ps as [|p2 ps].
  - simpl show_parameters. rewrite <- (app_nil_r (show_parameter p)). rewrite (parameter_read _ _ _ _ []); [done|done|done|by left|done].
  - change (show_parameters (p :: p2 :: ps)) with (show_parameter p ++ ","%char :: " "%char :: show_parameters (p2 :: ps)).
    rewrite parameter_read; [|done|done|right; by eexists|done]. rewrite (IH fuel [" "%char]) by (done || (simpl in *; lia) || by repeat constructor).
    by rewrite <- app_assoc.
Qed.

Lemma parameters_parse ps : Forall parameter_ok ps → parse_parameter_list (show_parameters ps) [] = Ok (false, ps).
Proof.
  intros Hps. destruct ps as [|p ps]; [done|]. unfold parse_parameter_list, extract_parameters.
  assert (Hne : show_parameters (p :: ps) ≠ []).
  { apply Forall_cons in Hps as [(_ & Hn & _) _]. destruct ps; simpl; unfold show_parameter; by destruct p.1. }
  rewrite (bool_decide_eq_false_2 _ Hne). pose proof (parameters_read (S (length (show_parameters (p :: ps)))) (show_parameters (p :: ps)) [] (p :: ps) []) as E.
  rewrite !app_nil_l in E. rewrite E; [| |by apply Forall_nil|done|done].
  - cbn [mbind res_bind mret res_ret]. rewrite bool_decide_eq_false_2 by (intros E2; by rewrite <- E2 in Hne). done.
  - clear -Hps. assert (∀ q, parameter_ok q → (0 < length (show_parameter q))%nat).
    { intros q (_ & Hn & _). unfold show_parameter. rewrite length_app. destruct q.1; [done|simpl; lia]. }
    assert (∀ l, Forall parameter_ok l → (length l ≤ length (show_parameters l))%nat) as Hl; [|specialize (Hl _ Hps); lia].
    clear p ps Hps. intros l Hl. induction Hl as [|q l Hq _ IH]; [done|]. specialize (H q Hq). destruct l; [simpl; lia|].
    change (show_parameters (q :: p :: l)) with (show_parameter q ++ ","%char :: " "%char :: show_parameters (p :: l)). rewrite length_app. cbn [length] in *. lia.
Qed.

(** ** Theorem *)

(** A list of parameters that is written out with quoted strings where needed parses to
    itself, and the parser returns for every text. *)
Theorem parameters_round_trip ps s out : Forall parameter_ok ps →
  parse_parameter_list (show_parameters ps) [] = Ok (false, ps) ∧ ∃ r, parse_parameter_list s out = Ok r.
Proof. intros Hps. split; [by apply parameters_parse|apply parse_parameter_list_total]. Qed.
Lemma parameters_round_trip_witness :
  parse_parameter_list (lit "permessage-deflate; client_max_window_bits; note=" ++ [quote] ++ lit "a b" ++ [quote] ++ lit ", x") []
  = Ok (false, [(lit "permessage-deflate", [(lit "client_max_window_bits", []); (lit "note", lit "a b")]); (lit "x", [])])
  ∧ ∃ r, parse_parameter_list (lit ";;") [] = Ok r.
Proof.
  apply (parameters_round_trip [(lit "permessage-deflate", [(lit "client_max_window_bits", []); (lit "note", lit "a b")]); (lit "x", [])]).
  unfold parameter_ok, attribute_ok, token, sorted_keys. repeat constructor; done.
Defined.
