(* ===== verification/HttpParser.v ===== *)
(** * HTTP messages: requests and responses read from a stream
    (src/websocketpp-master/websocketpp: http/parser.hpp, request.hpp, response.hpp and
    their implementations)

    A request or response takes bytes in pieces, splits them into lines, and keeps the
    unfinished line.  A function returns, throws an [http::exception], or leaves the defined
    behaviour ([Stuck]).  An exception ends the message: nothing reads it afterwards. *)

From S2P Require Import Prelude SortedKeys StdString HttpText.

Open Scope Z_scope.

(** ** Status codes and exceptions *)
Module status_code.
Definition uninitialized : Z := 0.
Definition continue_code : Z := 100.
Definition switching_protocols : Z := 101.
Definition ok : Z := 200.
Definition created : Z := 201.
Definition accepted : Z := 202.
Definition non_authoritative_information : Z := 203.
Definition no_content : Z := 204.
Definition reset_content : Z := 205.
Definition partial_content : Z := 206.
Definition multiple_choices : Z := 300.
Definition moved_permanently : Z := 301.
Definition found : Z := 302.
Definition see_other : Z := 303.
Definition not_modified : Z := 304.
Definition use_proxy : Z := 305.
Definition temporary_redirect : Z := 307.
Definition bad_request : Z := 400.
Definition unauthorized : Z := 401.
Definition payment_required : Z := 402.
Definition forbidden : Z := 403.
Definition not_found : Z := 404.
Definition method_not_allowed : Z := 405.
Definition not_acceptable : Z := 406.
Definition proxy_authentication_required : Z := 407.
Definition request_timeout : Z := 408.
Definition conflict : Z := 409.
Definition gone : Z := 410.
Definition length_required : Z := 411.
Definition precondition_failed : Z := 412.
Definition request_entity_too_large : Z := 413.
Definition request_uri_too_long : Z := 414.
Definition unsupported_media_type : Z := 415.
Definition request_range_not_satisfiable : Z := 416.
Definition expectation_failed : Z := 417.
Definition im_a_teapot : Z := 418.
Definition upgrade_required : Z := 426.
Definition precondition_required : Z := 428.
Definition too_many_requests : Z := 429.
Definition request_header_fields_too_large : Z := 431.
Definition internal_server_error : Z := 500.
Definition not_implemented : Z := 501.
Definition bad_gateway : Z := 502.
Definition service_unavailable : Z := 503.
Definition gateway_timeout : Z := 504.
Definition http_version_not_supported : Z := 505.
Definition not_extended : Z := 510.
Definition network_authentication_required : Z := 511.

Definition get_string (c : Z) : str :=
  if c =? uninitialized then lit "Uninitialized"
  else if c =? continue_code then lit "Continue"
  else if c =? switching_protocols then lit "Switching Protocols"
  else if c =? ok then lit "OK"
  else if c =? created then lit "Created"
  else if c =? accepted then lit "Accepted"
  else if c =? non_authoritative_information then lit "Non Authoritative Information"
  else if c =? no_content then lit "No Content"
  else if c =? reset_content then lit "Reset Content"
  else if c =? partial_content then lit "Partial Content"
  else if c =? multiple_choices then lit "Multiple Choices"
  else if c =? moved_permanently then lit "Moved Permanently"
  else if c =? found then lit "Found"
  else if c =? see_other then lit "See Other"
  else if c =? not_modified then lit "Not Modified"
  else if c =? use_proxy then lit "Use Proxy"
  else if c =? temporary_redirect then lit "Temporary Redirect"
  else if c =? bad_request then lit "Bad Request"
  else if c =? unauthorized then lit "Unauthorized"
  else if c =? payment_required then lit "Payment Required"
  else if c =? forbidden then lit "Forbidden"
  else if c =? not_found then lit "Not Found"
  else if c =? method_not_allowed then lit "Method Not Allowed"
  else if c =? not_acceptable then lit "Not Acceptable"
  else if c =? proxy_authentication_required then lit "Proxy Authentication Required"
  else if c =? request_timeout then lit "Request Timeout"
  else if c =? conflict then lit "Conflict"
  else if c =? gone then lit "Gone"
  else if c =? length_required then lit "Length Required"
  else if c =? precondition_failed then lit "Precondition Failed"
  else if c =? request_entity_too_large then lit "Request Entity Too Large"
  else if c =? request_uri_too_long then lit "Request-URI Too Long"
  else if c =? unsupported_media_type then lit "Unsupported Media Type"
  else if c =? request_range_not_satisfiable then lit "Requested Range Not Satisfiable"
  else if c =? expectation_failed then lit "Expectation Failed"
  else if c =? im_a_teapot then lit "I'm a teapot"
  else if c =? upgrade_required then lit "Upgrade Required"
  else if c =? precondition_required then lit "Precondition Required"
  else if c =? too_many_requests then lit "Too Many Requests"
  else if c =? request_header_fields_too_large then lit "Request Header Fields Too Large"
  else if c =? internal_server_error then lit "Internal Server Error"
  else if c =? not_implemented then lit "Not Implemented"
  else if c =? bad_gateway then lit "Bad Gateway"
  else if c =? service_unavailable then lit "Service Unavailable"
  else if c =? gateway_timeout then lit "Gateway Timeout"
  else if c =? http_version_not_supported then lit "HTTP Version Not Supported"
  else if c =? not_extended then lit "Not Extended"
  else if c =? network_authentication_required then lit "Network Authentication Required"
  else lit "Unknown".
End status_code.

Record exception := mkExn { m_msg : str; m_error_code : Z; m_error_msg : str }.
Inductive outcome (A : Type) :=
  | Returns (a : A)
  | Throws (e : exception)
  | Stuck (e : err).
Arguments Returns {A} a.
Arguments Throws {A} e.
Arguments Stuck {A} e.
#[global] Instance outcome_ret : MRet outcome := λ A a, Returns a.
#[global] Instance outcome_bind : MBind outcome := λ A B f m,
  match m with Returns a => f a | Throws e => Throws e | Stuck e => Stuck e end.
Definition lift {A} (r : res A) : outcome A := match r with Ok a => Returns a | Err e => Stuck e end.
Definition throw {A} (msg : string) (c : Z) : outcome A := Throws (mkExn (lit msg) c []).

(** ** The base class [parser] *)
Inductive encoding := unknown | plain | chunked.
Record parser := mkParser {
  m_version : str;
  m_headers : header_list;
  m_header_bytes : Z;
  m_body : str;
  m_body_bytes_needed : Z;
  m_body_bytes_max : Z;
  m_body_encoding : encoding;
}.
Definition new_parser : parser := mkParser [] [] 0 [] 0 max_body_size unknown.
Definition set_headers (h : header_list) (p : parser) : parser :=
  mkParser (m_version p) h (m_header_bytes p) (m_body p) (m_body_bytes_needed p) (m_body_bytes_max p) (m_body_encoding p).
Definition set_header_bytes (n : Z) (p : parser) : parser :=
  mkParser (m_version p) (m_headers p) n (m_body p) (m_body_bytes_needed p) (m_body_bytes_max p) (m_body_encoding p).
Definition set_body_state (body : str) (needed : Z) (enc : encoding) (p : parser) : parser :=
  mkParser (m_version p) (m_headers p) (m_header_bytes p) body needed (m_body_bytes_max p) enc.
Definition set_version (v : str) (p : parser) : parser :=
  mkParser v (m_headers p) (m_header_bytes p) (m_body p) (m_body_bytes_needed p) (m_body_bytes_max p) (m_body_encoding p).

Definition set_max_body_size (value : Z) (p : parser) : parser :=
  mkParser (m_version p) (m_headers p) (m_header_bytes p) (m_body p) (m_body_bytes_needed p) value (m_body_encoding p).

Definition get_header (key : str) (p : parser) : str := default [] (map_find ci_name key (m_headers p)).
(** [get_header_as_plist]: true means that parsing failed. *)
Definition get_header_as_plist (key : str) (p : parser) (out : parameter_list) : res (bool * parameter_list) :=
  match map_find ci_name key (m_headers p) with
  | None => mret (false, out)
  | Some v => if bool_decide (v = []) then mret (false, out) else parse_parameter_list v out
  end.
Definition replace_header (key val : str) (p : parser) : parser := set_headers (map_put ci_name key val (m_headers p)) p.
Definition remove_header (key : str) (p : parser) : parser := set_headers (map_erase ci_name key (m_headers p)) p.
Definition has_non_token (s : str) : bool := negb (bool_decide ((find_if is_not_token_char s).2 = [])).
Definition append_header (key val : str) (p : parser) : outcome parser :=
  if has_non_token key then throw "Invalid header name" status_code.bad_request
  else if bool_decide (get_header key p = []) then mret (replace_header key val p)
  else mret (replace_header key (get_header key p ++ lit ", " ++ val) p).

Definition set_body (value : str) (p : parser) : parser :=
  if bool_decide (value = []) then
    let p := remove_header (lit "Content-Length") p in set_body_state [] (m_body_bytes_needed p) (m_body_encoding p) p
  else
    let p := replace_header (lit "Content-Length") (to_string (Z.of_nat (length value))) p in
    set_body_state value (m_body_bytes_needed p) (m_body_encoding p) p.

(** [std::strtoul(s, &end, 10)] for a 64-bit [unsigned long] *)
Definition strtoul (s : str) : Z :=
  match parse_number (c_str s) with
  | None => 0
  | Some v => if Z.abs v <? 2 ^ 64 then u64 v else 2 ^ 64 - 1
  end.
Definition prepare_body (p : parser) : outcome (bool * parser) :=
  let cl_header := get_header (lit "Content-Length") p in
  if negb (bool_decide (cl_header = [])) then
    let needed := strtoul cl_header in
    let p := set_body_state (m_body p) needed (m_body_encoding p) p in
    if m_body_bytes_max p <? needed then throw "HTTP message body too large" status_code.request_entity_too_large
    else mret (true, set_body_state (m_body p) needed plain p)
  else mret (false, p).
Definition process_body (buf : str) (p : parser) : outcome (Z * parser) :=
  match m_body_encoding p with
  | plain =>
      let processed := Z.min (m_body_bytes_needed p) (Z.of_nat (length buf)) in
      mret (processed, set_body_state (m_body p ++ take (Z.to_nat processed) buf) (m_body_bytes_needed p - processed) plain p)
  | chunked | unknown => throw "Unexpected body encoding" status_code.internal_server_error
  end.
Definition body_ready (p : parser) : bool := m_body_bytes_needed p =? 0.

Definition process_header (line : str) (p : parser) : outcome parser :=
  let '(name, cursor) := search header_separator line in
  if bool_decide (cursor = []) then throw "Invalid header line" status_code.bad_request
  else
    name ← lift (strip_lws name);
    value ← lift (strip_lws (drop 1 cursor));
    append_header name value p.
Definition raw_headers (p : parser) : str := concat ((λ e, e.1 ++ lit ": " ++ e.2 ++ header_delimiter) <$> m_headers p).

(** ** Lines

    The loop of both [consume] functions: [buf] is the argument of [consume], [begin] what
    follows the lines processed so far, and [state] the message; [take_line] processes a
    line, [blank_line] ends the headers, [out_of_bytes] keeps an unfinished line. *)
Section Lines.
Context {state : Type} (parser_of : state → parser) (set_parser : parser → state → state).
Context (take_line : str → state → outcome state) (blank_line : str → str → state → outcome (Z * state)).
Context (out_of_bytes : str → str → state → state).
Fixpoint read_lines (fuel : nat) (buf begin : str) (r : state) : outcome (Z * state) :=
  match fuel with
  | O => Stuck OutOfFuel
  | S fuel =>
      let '(line, endp) := search header_delimiter begin in
      let bytes := m_header_bytes (parser_of r) + (Z.of_nat (length line) + 3) in
      let r := set_parser (set_header_bytes bytes (parser_of r)) r in
      if max_header_size <? bytes then throw "Maximum header size exceeded." status_code.request_header_fields_too_large
      else if bool_decide (endp = []) then
        let r := set_parser (set_header_bytes (bytes - Z.of_nat (length line)) (parser_of r)) r in
        mret (Z.of_nat (length buf), out_of_bytes buf line r)
      else if bool_decide (line = []) then blank_line buf endp r
      else r ← take_line line r; read_lines fuel buf (drop 2 endp) r
  end.
End Lines.

(** ** Requests *)
Record request := mkRequest {
  req : parser;
  m_buf : option str;
  m_method : str;
  m_uri : str;
  m_ready : bool;
}.
Definition new_request : request := mkRequest new_parser (Some []) [] [] false.
Definition set_req (p : parser) (r : request) : request := mkRequest p (m_buf r) (m_method r) (m_uri r) (m_ready r).
Definition set_buf (b : option str) (r : request) : request := mkRequest (req r) b (m_method r) (m_uri r) (m_ready r).
Definition set_uri (u : str) (r : request) : request := mkRequest (req r) (m_buf r) (m_method r) u (m_ready r).
Definition set_ready (b : bool) (r : request) : request := mkRequest (req r) (m_buf r) (m_method r) (m_uri r) b.
Definition set_method (m : str) (r : request) : outcome request :=
  if has_non_token m then throw "Invalid method token." status_code.bad_request
  else mret (mkRequest (req r) (m_buf r) m (m_uri r) (m_ready r)).

(** [request::process]: the request line. *)
Definition process (line : str) (r : request) : outcome request :=
  let '(method, cursor) := find_char " "%char line in
  match cursor with
  | [] => throw "Invalid request line1" status_code.bad_request
  | _ :: rest =>
      r ← set_method method r;
      let '(uri, cursor) := find_char " "%char rest in
      match cursor with
      | [] => throw "Invalid request line2" status_code.bad_request
      | _ :: version => mret (set_req (set_version version (req r)) (set_uri uri r))
      end
  end.

(** The body bytes that came with the end of the headers. *)
Definition finish_head (buf : str) (endp : str) (r : request) : outcome (Z * request) :=
  let processed := Z.of_nat (length buf) - Z.of_nat (length endp) + 2 in
  let r := set_buf None r in
  '(more, p) ← prepare_body (req r);
  let r := set_req p r in
  if (more : bool) then
    '(n, p) ← process_body (drop (Z.to_nat processed) buf) (req r);
    let r := set_req p r in
    mret (processed + n, if body_ready p then set_ready true r else r)
  else mret (processed, set_ready true r).

Definition request_line (line : str) (r : request) : outcome request :=
  if bool_decide (m_method r = []) then process line r else p ← process_header line (req r); mret (set_req p r).
Definition request_blank (buf endp : str) (r : request) : outcome (Z * request) :=
  if bool_decide (m_method r = []) || bool_decide (get_header (lit "Host") (req r) = [])
  then throw "Incomplete Request" status_code.bad_request
  else finish_head buf endp r.
Definition request_lines := read_lines req set_req request_line request_blank (λ _ line r, set_buf (Some line) r).

(** [request::consume]: the number of bytes processed. *)
Definition request_consume (buf : str) (r : request) : outcome (Z * request) :=
  if m_ready r then mret (0, r)
  else if 0 <? m_body_bytes_needed (req r) then
    '(n, p) ← process_body buf (req r);
    let r := set_req p r in
    mret (n, if body_ready p then set_ready true r else r)
  else
    match m_buf r with
    | None => Stuck NullDeref
    | Some b => request_lines (S (length (b ++ buf))) buf (b ++ buf) (set_buf (Some (b ++ buf)) r)
    end.

Definition request_raw_head (r : request) : str :=
  m_method r ++ lit " " ++ m_uri r ++ lit " " ++ m_version (req r) ++ header_delimiter ++ raw_headers (req r) ++ header_delimiter.
Definition request_raw (r : request) : str := request_raw_head r ++ m_body (req r).

(** ** Responses *)
Inductive response_state := RESPONSE_LINE | HEADERS | BODY | DONE.
#[global] Instance response_state_eq_dec : EqDecision response_state.
Proof. solve_decision. Defined.
Record response := mkResponse {
  rep : parser;
  m_status_msg : str;
  m_read : Z;
  rep_buf : option str;
  m_status_code : Z;
  rep_state : response_state;
}.
Definition new_response : response := mkResponse new_parser [] 0 (Some []) status_code.uninitialized RESPONSE_LINE.
Definition set_rep (p : parser) (r : response) : response := mkResponse p (m_status_msg r) (m_read r) (rep_buf r) (m_status_code r) (rep_state r).
Definition set_read (n : Z) (r : response) : response := mkResponse (rep r) (m_status_msg r) n (rep_buf r) (m_status_code r) (rep_state r).
Definition set_rep_buf (b : option str) (r : response) : response := mkResponse (rep r) (m_status_msg r) (m_read r) b (m_status_code r) (rep_state r).
Definition set_rep_state (s : response_state) (r : response) : response := mkResponse (rep r) (m_status_msg r) (m_read r) (rep_buf r) (m_status_code r) s.
Definition set_status_msg (c : Z) (msg : str) (r : response) : response := mkResponse (rep r) msg (m_read r) (rep_buf r) c (rep_state r).
Definition set_status (c : Z) (r : response) : response := set_status_msg c (status_code.get_string c) r.
Definition response_ready (r : response) : bool := bool_decide (rep_state r = DONE).
Definition headers_ready (r : response) : bool := bool_decide (rep_state r = BODY) || bool_decide (rep_state r = DONE).

(** [ss >> n] for an [int] and for a [size_t] *)
Definition read_int (s : str) : option Z :=
  match parse_number s with Some v => if in_int v then Some v else None | None => None end.
Definition read_size (s : str) : option Z :=
  match parse_number s with Some v => if Z.abs v <? 2 ^ 64 then Some (u64 v) else None | None => None end.

Definition response_process (line : str) (r : response) : outcome response :=
  let '(version, cursor) := find_char " "%char line in
  match cursor with
  | [] => throw "Invalid response line" status_code.bad_request
  | _ :: rest =>
      let r := set_rep (set_version version (rep r)) r in
      let '(number, cursor) := find_char " "%char rest in
      match cursor with
      | [] => throw "Invalid request line" status_code.bad_request
      | _ :: msg =>
          match read_int number with
          | None => throw "Unable to parse response code" status_code.bad_request
          | Some code => mret (set_status_msg code msg r)
          end
      end
  end.

Definition response_body (buf : str) (r : response) : Z * response :=
  if m_read r =? 0 then (0, set_rep_state DONE r)
  else
    let len := Z.of_nat (length buf) in
    let '(to_read, r) := if m_read r <=? len then (m_read r, set_rep_state DONE r) else (len, r) in
    let p := rep r in
    let p := set_body_state (m_body p ++ take (Z.to_nat to_read) buf) (m_body_bytes_needed p) (m_body_encoding p) p in
    (to_read, set_read (m_read r - to_read) (set_rep p r)).

Definition response_head_done (buf endp : str) (r : response) : outcome (Z * response) :=
  let len := get_header (lit "Content-Length") (rep r) in
  r ← (if bool_decide (len = []) then mret (set_read 0 r)
       else match read_size len with
            | None => throw "Unable to parse Content-Length header" status_code.bad_request
            | Some n => mret (set_read n r)
            end);
  let r := set_rep_state BODY r in
  let read := Z.of_nat (length buf) - Z.of_nat (length endp) + 2 in
  let '(n, r) := if read <? Z.of_nat (length buf) then response_body (drop (Z.to_nat read) buf) r else (0, r) in
  mret (read + n, set_rep_buf None r).

Definition response_line (line : str) (r : response) : outcome response :=
  if bool_decide (rep_state r = RESPONSE_LINE) then r ← response_process line r; mret (set_rep_state HEADERS r)
  else p ← process_header line (rep r); mret (set_rep p r).
Definition response_blank (buf endp : str) (r : response) : outcome (Z * response) :=
  if bool_decide (rep_state r = RESPONSE_LINE) then throw "Incomplete Request" status_code.bad_request
  else response_head_done buf endp r.
Definition response_lines := read_lines rep set_rep response_line response_blank
  (λ buf line r, set_read (u64 (m_read r + Z.of_nat (length buf))) (set_rep_buf (Some line) r)).
(** [response::consume(buf, len)] *)
Definition response_consume (buf : str) (r : response) : outcome (Z * response) :=
  match rep_state r with
  | DONE => mret (0, r)
  | BODY => mret (response_body buf r)
  | RESPONSE_LINE | HEADERS =>
      match rep_buf r with
      | None => Stuck NullDeref
      | Some b => response_lines (S (length (b ++ buf))) buf (b ++ buf) (set_rep_buf (Some (b ++ buf)) r)
      end
  end.
Definition response_raw (r : response) : str :=
  m_version (rep r) ++ lit " " ++ to_string (m_status_code r) ++ lit " " ++ m_status_msg r ++ header_delimiter
  ++ raw_headers (rep r) ++ header_delimiter ++ m_body (rep r).
