(* ===== verification/HttpStream.v ===== *)
(** * HTTP messages in pieces, and what is written is read

    The lines of a head are given by a relation, [head_lines], that does not mention pieces.
    The loop of the parsers follows it for every division of the text, as long as the count
    of header bytes, which grows by 3 with every piece, stays within its limit. *)

From S2P Require Import Prelude SortedKeys StdString HttpText HttpTextFacts HttpParser.

Open Scope Z_scope.

(** ** Searching in a text that grows *)
Lemma starts_with_more pat s t : starts_with pat s = true → starts_with pat (s ++ t) = true.
Proof.
  revert s. induction pat as [|p pat IH]; intros [|c s]; simpl; try done. intros [-> H]%andb_prop. simpl. by apply IH.
Qed.
Lemma starts_with_less pat s t : starts_with pat (s ++ t) = true → (length pat ≤ length s)%nat → starts_with pat s = true.
Proof.
  revert s. induction pat as [|p pat IH]; intros [|c s]; simpl; try done; [lia|]. intros [-> H]%andb_prop Hl. simpl. apply IH; [done|lia].
Qed.
Lemma find_app_some pat a b n : find pat a = Some n → find pat (a ++ b) = Some n.
Proof.
  revert n. induction a as [|c a IH]; intros n; cbn [find].
  - destruct (starts_with pat []) eqn:E; [|done]. intros [= <-]. apply find_here. by apply (starts_with_more pat []).
  - cbn [app find]. destruct (starts_with pat (c :: a)) eqn:E.
    + apply (starts_with_more _ _ b) in E. simpl in E. by rewrite E.
    + destruct (find pat a) as [m|] eqn:Em; [|done]. intros [= <-]. destruct (starts_with pat (c :: a ++ b)) eqn:E2; [|by rewrite (IH m)].
      apply find_prefix in Em as [_ Hm]. rewrite (starts_with_less pat (c :: a) b) in E; [done|done|simpl; lia].
Qed.
Lemma find_app_none pat a b n : find pat (a ++ b) = Some n → find pat a = None → (length a < n + length pat)%nat.
Proof.
  intros Hf Ha. apply find_prefix in Hf as [Hs Hl]. destruct (decide (length a < n + length pat)%nat) as [|Hge]; [done|]. exfalso.
  rewrite drop_app_le in Hs by lia. apply starts_with_less in Hs; [|rewrite length_drop; lia].
  pose proof (find_none_drop pat n a Ha) as Hn. apply starts_with_find in Hn. congruence.
Qed.
Lemma find_none_take pat n s : find pat s = None → find pat (take n s) = None.
Proof.
  intros Hs. destruct (find pat (take n s)) as [m|] eqn:E; [|done]. apply (find_app_some _ _ (drop n s)) in E. rewrite take_drop in E. congruence.
Qed.
(** The first occurrence: no other before it. *)
Lemma find_first pat s n : pat ≠ [] → find pat s = Some n → find pat (take n s) = None.
Proof.
  intros Hp Hf. destruct (find pat (take n s)) as [m|] eqn:E; [|done]. pose proof E as E2. apply (find_app_some _ _ (drop n s)) in E. rewrite take_drop, Hf in E.
  injection E as <-. apply find_prefix in E2 as [_ E2]. rewrite length_take in E2. destruct pat; [done|simpl in E2; lia].
Qed.

(** The line in front of a text, by [search]. *)
Lemma search_some n s : find header_delimiter s = Some n → search header_delimiter s = (take n s, drop n s) ∧ drop n s ≠ [] ∧ (n + 2 ≤ length s)%nat.
Proof.
  intros Hf. unfold search. rewrite Hf. apply find_prefix in Hf as [_ Hl]. simpl in Hl. split_and!; [done| |lia].
  intros E. apply (f_equal length) in E. rewrite length_drop in E. simpl in E. lia.
Qed.
Lemma search_none s : find header_delimiter s = None → search header_delimiter s = (s, []).
Proof. intros Hf. unfold search. by rewrite Hf. Qed.

(** ** The lines of a head *)
Section Lines.
Context {state : Type} (parser_of : state → parser) (set_parser : parser → state → state).
Context (take_line : str → state → outcome state) (blank_line : str → str → state → outcome (Z * state)).
Context (out_of_bytes : str → str → state → state).
(** States that differ in the count of header bytes, and in what is kept of a line. *)
Context (sim : Z → state → state → Prop) (inv : state → Prop).
#[local] Abbreviation count s := (m_header_bytes (parser_of s)).
#[local] Abbreviation read_lines := (read_lines parser_of set_parser take_line blank_line out_of_bytes).
Definition put_count (n : Z) (s : state) : state := set_parser (set_header_bytes n (parser_of s)) s.

Record line_laws := {
  count_put n s : count (put_count n s) = n;
  put_put n m s : put_count n (put_count m s) = put_count n s;
  sim_count k s t : sim k s t → count t = count s + k;
  sim_put k n s t : sim k s t → sim k (put_count n s) (put_count (n + k) t);
  sim_line k l s t s' : sim k s t → take_line l s = Returns s' → ∃ t', take_line l t = Returns t' ∧ sim k s' t';
  line_count l s s' : take_line l s = Returns s' → count s' = count s;
  inv_put n s : inv s → inv (put_count n s);
  inv_line l s : inv s → find header_delimiter l = None → match take_line l s with Returns s' => inv s' | Throws _ => True | Stuck _ => False end;
}.
Hypothesis laws : line_laws.

Definition read_line (l : str) (s : state) : state := put_count (count s + (Z.of_nat (length l) + 3)) s.
Inductive head_lines : str → state → str → state → Prop :=
  | head_end begin s : find header_delimiter begin = Some 0%nat → count s + 3 ≤ max_header_size → head_lines begin s begin (read_line [] s)
  | head_line n begin s s1 e s2 : find header_delimiter begin = Some (S n) → count s + (Z.of_nat (S n) + 3) ≤ max_header_size →
      take_line (take (S n) begin) (read_line (take (S n) begin) s) = Returns s1 → head_lines (drop (S n + 2) begin) s1 e s2 → head_lines begin s e s2.

Lemma count_read_line l s : count (read_line l s) = count s + (Z.of_nat (length l) + 3).
Proof. apply (count_put laws). Qed.
Lemma head_lines_count begin s e s2 : head_lines begin s e s2 → count s + 3 ≤ count s2 ∧ count s2 ≤ max_header_size.
Proof.
  induction 1 as [begin s Hf Hc|n begin s s1 e s2 Hf Hc Ht Hh IH]; [rewrite count_read_line; simpl; lia|].
  apply (line_count laws) in Ht. rewrite count_read_line in Ht. lia.
Qed.
Lemma head_lines_suffix begin s e s2 : head_lines begin s e s2 → find header_delimiter e = Some 0%nat ∧ ∃ p, begin = p ++ e.
Proof.
  induction 1 as [begin s Hf Hc|n begin s s1 e s2 Hf Hc Ht Hh [IH [p IHp]]]; [split; [done|by exists []]|]. split; [done|].
  exists (take (S n + 2) begin ++ p). by rewrite <- app_assoc, <- IHp, take_drop.
Qed.
Lemma head_lines_sim k begin s e s2 t : head_lines begin s e s2 → sim k s t → 0 ≤ k → count s2 + k ≤ max_header_size →
  ∃ t2, head_lines begin t e t2 ∧ sim k s2 t2.
Proof.
  intros Hh. revert t. induction Hh as [begin s Hf Hc|n begin s s1 e s2 Hf Hc Ht Hh IH]; intros t Hs Hk Hmax.
  - rewrite count_read_line in Hmax. pose proof (sim_count laws _ _ _ Hs). exists (read_line [] t). split; [apply head_end; [done|simpl in *; lia]|].
    unfold read_line. replace (count t + _) with (count s + (Z.of_nat (length ([] : str)) + 3) + k) by lia. by apply (sim_put laws).
  - pose proof (sim_count laws _ _ _ Hs). pose proof (head_lines_count _ _ _ _ Hh). pose proof (line_count laws _ _ _ Ht) as Hc1. rewrite count_read_line in Hc1.
    assert (Hl : length (take (S n) begin) = S n) by (apply find_prefix in Hf as [_ Hf]; simpl in Hf; rewrite length_take; lia). rewrite Hl in Hc1.
    destruct (sim_line laws k (take (S n) begin) (read_line (take (S n) begin) s) (read_line (take (S n) begin) t) s1) as (t1 & Ht1 & Hs1); [|done|].
    { unfold read_line. replace (count t + _) with (count s + (Z.of_nat (length (take (S n) begin)) + 3) + k) by lia. by apply (sim_put laws). }
    destruct (IH t1 Hs1 Hk Hmax) as (t2 & Ht2 & Hs2). exists t2. split; [|done]. eapply head_line; [done|lia|done|done].
Qed.

(** The loop follows the relation. *)
Lemma read_lines_head fuel buf begin s e s2 : head_lines begin s e s2 → (length begin < fuel)%nat → read_lines fuel buf begin s = blank_line buf e s2.
Proof.
  intros Hh. revert fuel. induction Hh as [begin s Hf Hc|n begin s s1 e s2 Hf Hc Ht Hh IH]; intros fuel Hfuel; (destruct fuel; [lia|]); cbn [HttpParser.read_lines];
    destruct (search_some _ _ Hf) as (-> & Hne & Hlen).
  - rewrite take_0, drop_0 in *. rewrite (proj2 (Z.ltb_ge _ _)) by (simpl; lia). rewrite (bool_decide_eq_false_2 _ Hne). by rewrite bool_decide_eq_true_2.
  - assert (Hl : length (take (S n) begin) = S n) by (rewrite length_take; lia). rewrite (proj2 (Z.ltb_ge _ _)) by (rewrite Hl; lia).
    rewrite (bool_decide_eq_false_2 _ Hne). rewrite bool_decide_eq_false_2 by (intros E; by rewrite E in Hl).
    unfold read_line, put_count in Ht. rewrite Ht. cbn [mbind outcome_bind]. rewrite drop_drop. apply IH. rewrite length_drop. lia.
Qed.
Lemma read_lines_waits fuel buf begin s : find header_delimiter begin = None → count s + (Z.of_nat (length begin) + 3) ≤ max_header_size → fuel ≠ 0%nat →
  read_lines fuel buf begin s = Returns (Z.of_nat (length buf), out_of_bytes buf begin (put_count (count s + 3) s)).
Proof.
  intros Hf Hc Hfuel. destruct fuel as [|fuel]; [done|]. cbn [HttpParser.read_lines]. rewrite (search_none _ Hf). rewrite (proj2 (Z.ltb_ge _ _)) by lia.
  rewrite bool_decide_eq_true_2 by done. fold (put_count (count s + (Z.of_nat (length begin) + 3)) s). set (s1 := put_count (count s + (Z.of_nat (length begin) + 3)) s).
  replace (count s + (Z.of_nat (length begin) + 3) - Z.of_nat (length begin)) with (count s + 3) by lia.
  change (set_parser (set_header_bytes (count s + 3) (parser_of s1)) s1) with (put_count (count s + 3) s1). unfold s1. by rewrite (put_put laws).
Qed.
(** Every way the loop can end. *)
Lemma read_lines_cases fuel buf begin s : inv s → (length begin < fuel)%nat →
  (∃ e s2, head_lines begin s e s2 ∧ inv s2 ∧ read_lines fuel buf begin s = blank_line buf e s2) ∨
  (∃ left s1, inv s1 ∧ find header_delimiter left = None ∧ read_lines fuel buf begin s = Returns (Z.of_nat (length buf), out_of_bytes buf left s1)) ∨
  (∃ e, read_lines fuel buf begin s = Throws e).
Proof.
  revert begin s. induction fuel as [|fuel IH]; intros begin s Hi Hf; [lia|].
  destruct (find header_delimiter begin) as [n|] eqn:Hn.
  - destruct (decide (count s + (Z.of_nat n + 3) ≤ max_header_size)) as [Hc|Hc].
    + destruct n as [|n].
      { left. exists begin, (read_line [] s). assert (head_lines begin s begin (read_line [] s)) by (apply head_end; [done|lia]).
        split_and!; [done|by apply (inv_put laws)|by apply read_lines_head]. }
      destruct (search_some _ _ Hn) as (Hsearch & Hne & Hlen). assert (Hl : length (take (S n) begin) = S n) by (rewrite length_take; lia).
      pose proof (inv_line laws (take (S n) begin) (read_line (take (S n) begin) s) ltac:(by apply (inv_put laws)) ltac:(by apply find_first)) as Hline.
      cbn [HttpParser.read_lines]. rewrite Hsearch, (proj2 (Z.ltb_ge _ _)) by (rewrite Hl; lia).
      rewrite (bool_decide_eq_false_2 _ Hne). rewrite (bool_decide_eq_false_2 (take (S n) begin = [])) by (intros E; by rewrite E in Hl).
      unfold read_line, put_count in Hline. destruct (take_line _ _) as [s1|x|x] eqn:Ht; [|by right; right; exists x|done]. cbn [mbind outcome_bind]. rewrite drop_drop.
      destruct (IH (drop (S n + 2) begin) s1 Hline) as [(e & s2 & Hh & Hi2 & Hr)|Hr]; [rewrite length_drop; lia| |by right].
      left. exists e, s2. split_and!; [eapply head_line; [done|done|exact Ht|done]|done|done].
    + right. right. destruct (search_some _ _ Hn) as (Hsearch & Hne & Hlen). cbn [HttpParser.read_lines]. rewrite Hsearch, (proj2 (Z.ltb_lt _ _)); [by eexists|].
      rewrite length_take. lia.
  - destruct (decide (count s + (Z.of_nat (length begin) + 3) ≤ max_header_size)) as [Hc|Hc].
    + right. left. exists begin, (put_count (count s + 3) s). split_and!; [by apply (inv_put laws)|done|by apply read_lines_waits].
    + right. right. cbn [HttpParser.read_lines]. rewrite (search_none _ Hn), (proj2 (Z.ltb_lt _ _)) by lia. by eexists.
Qed.

(** A piece of a head, taken by a state [t] that has counted [k] more bytes: it holds the
    end of the head, or it is used up. *)
Lemma lines_piece k a b s e s2 t : head_lines (a ++ b) s e s2 → sim k s t → 0 ≤ k → count s2 + k + 1 ≤ max_header_size →
  (∃ ea, e = ea ++ b ∧ head_lines a s ea s2) ∨
  (∃ kept s1 t1, find header_delimiter kept = None ∧ head_lines (kept ++ b) s1 e s2 ∧ sim k s1 t1 ∧
     ∀ fuel buf, (length a < fuel)%nat → read_lines fuel buf a t = Returns (Z.of_nat (length buf), out_of_bytes buf kept (put_count (count t1 + 3) t1))).
Proof.
  intros Hh Hs Hk Hmax. remember (a ++ b) as ab eqn:Eab. revert a t Eab Hs. induction Hh as [begin s Hf Hc|n begin s s1 e s2 Hf Hc Ht Hh IH]; intros a t -> Hs;
    pose proof (sim_count laws _ _ _ Hs) as Hct.
  - rewrite count_read_line in Hmax. simpl in Hmax. destruct (find header_delimiter a) as [m|] eqn:Ha.
    + pose proof (find_app_some _ _ b _ Ha) as Hf2. rewrite Hf in Hf2. injection Hf2 as <-. left. exists a. split; [done|by apply head_end].
    + right. exists a, s, t. split_and!; [done|by apply head_end|done|]. pose proof (find_app_none _ _ _ _ Hf Ha). simpl in *. intros. apply read_lines_waits; [done|lia|lia].
  - pose proof (head_lines_count _ _ _ _ Hh) as [Hc1 _]. pose proof (line_count laws _ _ _ Ht) as Hc2. rewrite count_read_line in Hc2.
    assert (Hl : length (take (S n) (a ++ b)) = S n) by (apply find_prefix in Hf as [_ Hf]; simpl in Hf; rewrite length_take; lia). rewrite Hl in Hc2.
    destruct (find header_delimiter a) as [m|] eqn:Ha.
    + pose proof (find_app_some _ _ b _ Ha) as Hf2. rewrite Hf in Hf2. injection Hf2 as <-. pose proof (find_prefix _ _ _ Ha) as [_ Hla]. simpl in Hla.
      rewrite (take_app_le a b (S n)) in Ht by lia. rewrite (drop_app_le a b (S n + 2)) in IH by lia.
      assert (Hl2 : length (take (S n) a) = S n) by (rewrite length_take; lia).
      destruct (sim_line laws k (take (S n) a) (read_line (take (S n) a) s) (read_line (take (S n) a) t) s1) as (t1 & Ht1 & Hs1); [|done|].
      { unfold read_line. replace (count t + _) with (count s + (Z.of_nat (length (take (S n) a)) + 3) + k) by lia. by apply (sim_put laws). }
      destruct (IH Hmax (drop (S n + 2) a) t1 eq_refl Hs1) as [(ea & -> & Hha)|(kept & s3 & t3 & Hkept & Hh3 & Hs3 & Hr)].
      * left. exists ea. split; [done|]. by eapply head_line.
      * right. exists kept, s3, t3. split_and!; [done|done|done|]. intros fuel buf Hfuel. destruct fuel as [|fuel]; [lia|]. cbn [HttpParser.read_lines].
        destruct (search_some _ _ Ha) as (-> & Hne & Hlen).
        rewrite (proj2 (Z.ltb_ge _ _)) by (rewrite Hl2; lia). rewrite (bool_decide_eq_false_2 _ Hne), bool_decide_eq_false_2 by (intros E; by rewrite E in Hl2).
        unfold read_line, put_count in Ht1. rewrite Ht1. cbn [mbind outcome_bind]. rewrite drop_drop. apply Hr. rewrite length_drop. lia.
    + right. exists a, s, t. split_and!; [done|by eapply head_line|done|]. pose proof (find_app_none _ _ _ _ Hf Ha) as Hn. simpl in Hn. intros. apply read_lines_waits; [done|lia|lia].
Qed.
End Lines.

(** ** Requests *)
Definition request_sim (k : Z) (s t : request) : Prop := t = set_buf (m_buf t) (set_req (set_header_bytes (m_header_bytes (req s) + k) (req s)) s).
Definition unfinished (r : request) : Prop := m_ready r = false ∧ m_body_bytes_needed (req r) = 0.

Lemma set_method_spec m r : set_method m r = if has_non_token m then throw "Invalid method token." status_code.bad_request else Returns (mkRequest (req r) (m_buf r) m (m_uri r) (m_ready r)).
Proof. done. Qed.
Lemma append_header_sim k v p q p' n : q = set_header_bytes n p → append_header k v p = Returns p' →
  append_header k v q = Returns (set_header_bytes n p') ∧ m_header_bytes p' = m_header_bytes p ∧ m_body_bytes_needed p' = m_body_bytes_needed p.
Proof.
  intros -> Ha. revert Ha. unfold append_header. destruct (has_non_token k); [done|]. change (get_header k (set_header_bytes n p)) with (get_header k p).
  by case_bool_decide; intros [= <-].
Qed.
Lemma process_header_sim l p q p' n : q = set_header_bytes n p → process_header l p = Returns p' →
  process_header l q = Returns (set_header_bytes n p') ∧ m_header_bytes p' = m_header_bytes p ∧ m_body_bytes_needed p' = m_body_bytes_needed p.
Proof.
  intros Hq. unfold process_header. destruct (search header_separator l) as [name cursor]. case_bool_decide; [done|].
  destruct (strip_lws name) as [nm|]; [|done]. destruct (strip_lws (drop 1 cursor)) as [v|]; [|done]. by apply append_header_sim.
Qed.
(** A line without line end has a defined result. *)
Lemma process_header_total l p : find header_delimiter l = None → match process_header l p with Stuck _ => False | _ => True end.
Proof.
  intros Hl. unfold process_header. unfold search. destruct (find header_separator l) as [n|]; [|done]. case_bool_decide; [done|].
  destruct (strip_lws_total (take n l)) as [a ->]; [by apply find_none_take|].
  destruct (strip_lws_total (drop 1 (drop n l))) as [v ->]; [by do 2 apply find_none_drop|]. cbn. unfold append_header.
  destruct (has_non_token a); [done|]. by case_bool_decide.
Qed.
Lemma request_laws : line_laws req set_req request_line request_sim unfinished.
Proof.
  split; try done.
  - intros k s t ->. done.
  - intros k n s t Ht. unfold request_sim in *. rewrite Ht. done.
  - intros k l s t s' Ht. rewrite Ht. clear Ht. set (b := m_buf t). clearbody b. clear t. unfold request_line. cbn [m_method set_buf set_req req].
    destruct (bool_decide (m_method s = [])).
    + unfold process. destruct (find_char " "%char l) as [m [|c rest]]; [done|]. rewrite !set_method_spec. destruct (has_non_token m); [done|]. cbn [mbind outcome_bind].
      destruct (find_char " "%char rest) as [u [|c2 v]]; [done|]. intros [= <-]. by eexists.
    + destruct (process_header l (req s)) as [p'| |] eqn:Ep; [|done|done]. cbn [mbind outcome_bind]. intros [= <-].
      destruct (process_header_sim l (req s) (set_header_bytes (m_header_bytes (req s) + k) (req s)) p' (m_header_bytes (req s) + k) eq_refl Ep) as (-> & Hp & _).
      cbn [mbind outcome_bind]. eexists. split; [done|]. unfold request_sim. cbn. by rewrite Hp.
  - intros l s s'. unfold request_line. destruct (bool_decide _).
    + unfold process. destruct (find_char " "%char l) as [m [|c rest]]; [done|]. rewrite !set_method_spec. destruct (has_non_token m); [done|]. cbn [mbind outcome_bind].
      destruct (find_char " "%char rest) as [u [|c2 v]]; [done|]. by intros [= <-].
    + destruct (process_header l (req s)) as [p'| |] eqn:Ep; [|done|done]. cbn [mbind outcome_bind]. intros [= <-].
      by destruct (process_header_sim l (req s) (set_header_bytes 0 (req s)) p' 0 eq_refl Ep) as (_ & ? & _).
  - intros l s [Hs Hn] Hl. unfold request_line, unfinished. destruct (bool_decide _).
    + unfold process. destruct (find_char " "%char l) as [m [|c rest]]; [done|]. rewrite !set_method_spec. destruct (has_non_token m); [done|]. cbn [mbind outcome_bind].
      by destruct (find_char " "%char rest) as [u [|c2 v]].
    + pose proof (process_header_total l (req s) Hl). destruct (process_header l (req s)) as [p'| |] eqn:Ep; [|done|done]. cbn [mbind outcome_bind].
      destruct (process_header_sim l (req s) (set_header_bytes 0 (req s)) p' 0 eq_refl Ep) as (_ & _ & Hp). split; [done|]. cbn. congruence.
Qed.

(** The state of a request between reads. *)
Definition request_ok (r : request) : Prop :=
  0 ≤ m_body_bytes_needed (req r) ∧
  (m_ready r = true ∨ 0 < m_body_bytes_needed (req r) ∧ m_body_encoding (req r) = plain ∨
   m_body_bytes_needed (req r) = 0 ∧ ∃ b, m_buf r = Some b ∧ find header_delimiter b = None).
Lemma strtoul_nonneg s : 0 ≤ strtoul s.
Proof. unfold strtoul. destruct (parse_number _); [|lia]. case_match; [apply u64_range|lia]. Qed.
Lemma prepare_body_cases p : (∃ e, prepare_body p = Throws e) ∨ prepare_body p = Returns (false, p) ∨
  ∃ n, 0 ≤ n ∧ prepare_body p = Returns (true, set_body_state (m_body p) n plain p).
Proof.
  unfold prepare_body. destruct (negb _); [|by right; left]. destruct (_ <? _); [left; by eexists|]. right. right. eexists. split; [|done]. apply strtoul_nonneg.
Qed.
Lemma process_body_plain buf p : m_body_encoding p = plain → 0 ≤ m_body_bytes_needed p →
  ∃ n, process_body buf p = Returns (n, set_body_state (m_body p ++ take (Z.to_nat n) buf) (m_body_bytes_needed p - n) plain p) ∧ n = Z.min (m_body_bytes_needed p) (Z.of_nat (length buf)).
Proof. intros He Hn. unfold process_body. rewrite He. by eexists. Qed.
Lemma finish_head_ok buf e r : Z.of_nat (length e) ≤ Z.of_nat (length buf) + 2 → (2 ≤ length e)%nat → unfinished r →
  (∃ x, finish_head buf e r = Throws x) ∨
  ∃ n r', finish_head buf e r = Returns (n, r') ∧ 0 ≤ n ≤ Z.of_nat (length buf) ∧ request_ok r' ∧ (m_ready r' = false → n = Z.of_nat (length buf)).
Proof.
  intros He1 He2 [Hr Hr0]. unfold finish_head. cbv zeta. set (k := Z.of_nat (length buf) - Z.of_nat (length e) + 2).
  change (req (set_buf None r)) with (req r). destruct (prepare_body_cases (req r)) as [[x ->]|[->|(n & Hn & ->)]]; cbn [mbind outcome_bind].
  - left. by eexists.
  - right. eexists _, _. split; [done|]. split; [lia|]. split; [|done]. unfold request_ok. cbn. split; [lia|by left].
  - right. cbn [set_req req set_buf].
    destruct (process_body_plain (drop (Z.to_nat k) buf) (set_body_state (m_body (req r)) n plain (req r)) eq_refl Hn) as (j & -> & Hj). cbn [mbind outcome_bind mret outcome_ret].
    cbn [m_body_bytes_needed set_body_state] in *. rewrite length_drop in Hj. eexists _, _. split; [done|]. split; [lia|]. unfold body_ready. cbn [m_body_bytes_needed set_body_state].
    destruct (n - j =? 0) eqn:Ej.
    + split; [|done]. unfold request_ok. cbn. split; [lia|by left].
    + split; [|intros _; lia]. unfold request_ok. cbn. split; [lia|right; left; split; [lia|done]].
Qed.

(** [consume] on every state between reads: it returns or throws an [http::exception], takes
    no more than it is given, and takes all of it when the request is not complete. *)
Lemma request_consume_ok buf r : request_ok r →
  (∃ x, request_consume buf r = Throws x) ∨
  ∃ n r', request_consume buf r = Returns (n, r') ∧ 0 ≤ n ≤ Z.of_nat (length buf) ∧ request_ok r' ∧ (m_ready r' = false → n = Z.of_nat (length buf)).
Proof.
  intros [Hn Hok]. unfold request_consume. destruct (m_ready r) eqn:Er.
  { right. eexists _, _. split; [done|]. split; [lia|]. split; [by split; [|left]|congruence]. }
  destruct Hok as [?|[[Hn0 He]|(Hn0 & b & Hb & Hfb)]]; [done| |].
  - rewrite (proj2 (Z.ltb_lt _ _)) by done. right. destruct (process_body_plain buf (req r) He Hn) as (j & -> & Hj). cbn [mbind outcome_bind mret outcome_ret].
    unfold body_ready. cbn [m_body_bytes_needed set_body_state]. eexists _, _. split; [done|]. split; [lia|]. destruct (_ =? 0) eqn:Ej.
    + split; [|done]. unfold request_ok. cbn. split; [lia|by left].
    + split; [|intros _; lia]. unfold request_ok. cbn. split; [lia|right; left; split; [lia|done]].
  - rewrite Hn0. cbn [Z.ltb Z.compare]. rewrite Hb.
    destruct (read_lines_cases req set_req request_line request_blank (λ _ line r, set_buf (Some line) r) request_sim unfinished request_laws
      (S (length (b ++ buf))) buf (b ++ buf) (set_buf (Some (b ++ buf)) r)) as [(e & s2 & Hh & Hi & Hr)|[(kept & s1 & Hi & Hl & Hr)|[x Hr]]]; [done|lia| | |];
      unfold request_lines; rewrite Hr; [| |left; by eexists].
    + destruct (head_lines_suffix _ _ _ _ _ _ _ Hh) as [He [p Hp]]. unfold request_blank. destruct (_ || _); [left; by eexists|]. apply finish_head_ok; [| |done].
      * pose proof (f_equal length Hp) as Hlen. rewrite !length_app in Hlen.
        destruct (decide (length p + 2 ≤ length b)%nat) as [Hc|]; [|lia]. exfalso. pose proof (find_none_drop header_delimiter (length p) b Hfb) as Hd.
        apply starts_with_find in Hd. assert (Hs : starts_with header_delimiter (drop (length p) b ++ buf) = true).
        { rewrite <- drop_app_le by lia. rewrite Hp, drop_app_length. by apply find_prefix in He as [He _]. }
        apply starts_with_less in Hs; [congruence|]. rewrite length_drop. simpl. lia.
      * apply find_prefix in He as [_ He]. simpl in He. lia.
    + right. eexists _, _. split; [done|]. destruct Hi as [Hi Hi0]. split; [lia|]. split; [|done]. unfold request_ok. cbn. rewrite Hi0. split; [done|].
      right. right. split; [done|]. by exists kept.
Qed.

(** Reads of a connection until the request is complete, as in
    [connection::handle_read_handshake]; the total number of bytes processed. *)
Fixpoint request_pieces (cs : list str) (r : request) : outcome (Z * request) :=
  match cs with
  | [] => mret (0, r)
  | c :: cs =>
      '(n, r) ← request_consume c r;
      if m_ready r then mret (n, r) else '(m, r) ← request_pieces cs r; mret (n + m, r)
  end.
(** The request without the count of its header bytes. *)
Definition content (r : request) : request := set_req (set_header_bytes 0 (req r)) r.

Lemma body_pieces cs r : 0 < m_body_bytes_needed (req r) ≤ Z.of_nat (length (concat cs)) → m_body_encoding (req r) = plain → m_ready r = false →
  request_pieces cs r = Returns (m_body_bytes_needed (req r),
    set_ready true (set_req (set_body_state (m_body (req r) ++ take (Z.to_nat (m_body_bytes_needed (req r))) (concat cs)) 0 plain (req r)) r)).
Proof.
  revert r. induction cs as [|c cs IH]; intros r Hn He Hr; [simpl in Hn; lia|]. cbn [request_pieces concat] in *. rewrite length_app in Hn.
  unfold request_consume. rewrite Hr, (proj2 (Z.ltb_lt _ _)) by lia. destruct (process_body_plain c (req r) He) as (j & -> & Hj); [lia|]. cbn [mbind outcome_bind mret outcome_ret].
  unfold body_ready. cbn [m_body_bytes_needed set_body_state]. set (n := m_body_bytes_needed (req r)) in *. destruct (n - j =? 0) eqn:E.
  - cbn [m_ready set_ready set_req]. assert (j = n) as -> by lia. rewrite Z.sub_diag. rewrite take_app_le by lia. done.
  - cbn [m_ready set_ready set_req]. rewrite Hr. assert (j = Z.of_nat (length c)) as Hjc by lia. rewrite (IH (set_req _ r)); [|cbn; fold n; lia|done|done]. cbn [mbind outcome_bind mret outcome_ret].
    cbn [req set_req m_body_bytes_needed m_body set_body_state set_ready]. rewrite <- app_assoc. replace (j + (n - j)) with n by lia.
    assert (take (Z.to_nat n) (c ++ concat cs) = take (Z.to_nat j) c ++ take (Z.to_nat (n - j)) (concat cs)) as ->; [|done].
    rewrite Hjc, Nat2Z.id, firstn_all, take_app_ge by lia. do 2 f_equal. lia.
Qed.

(** How a request ends once its head is known. *)
Lemma finish_pieces buf e rest1 rest2 r t k n r' : request_sim k r t → unfinished r → (2 ≤ length e)%nat → drop (Z.to_nat (Z.of_nat (length buf) - Z.of_nat (length e) + 2)) buf = drop 2 e →
  rest1 = drop 2 e ++ concat rest2 → finish_head rest1 ("013"%char :: "010"%char :: rest1) r = Returns (n, r') → m_ready r' = true →
  ∃ m t', ('(n, r) ← finish_head buf e t; if m_ready r then mret (n, r) else '(m, r) ← request_pieces rest2 r; mret (n + m, r)) = Returns (m, t') ∧
    m = Z.of_nat (length buf) - Z.of_nat (length e) + 2 + n ∧ m_ready t' = true ∧ content t' = content r'.
Proof.
  intros Hsim [Hr Hr0] He2 Hdrop Hrest Hf Hready. set (p := Z.of_nat (length buf) - Z.of_nat (length e) + 2) in *.
  assert (∃ b h, t = set_buf b (set_req (set_header_bytes h (req r)) r)) as (b & h & ->) by by eexists _, _. clear Hsim.
  assert (Hprep : prepare_body (set_header_bytes h (req r)) = match prepare_body (req r) with Returns (b, q) => Returns (b, set_header_bytes h q) | Throws x => Throws x | Stuck x => Stuck x end).
  { unfold prepare_body, get_header. cbn [m_headers set_header_bytes]. destruct (negb _); [|done]. cbn [m_body_bytes_max set_body_state set_header_bytes]. by destruct (_ <? _). }
  unfold finish_head in Hf |- *. cbn [length] in Hf. replace (Z.of_nat (length rest1) - _ + 2) with 0 in Hf by lia. cbv zeta in Hf |- *. fold p.
  cbn [req set_buf set_req] in Hf |- *. rewrite Hprep. destruct (prepare_body_cases (req r)) as [[x Hx]|[Hx|(N & HN & Hx)]]; rewrite Hx in Hf |- *; cbn [mbind outcome_bind mret outcome_ret] in Hf |- *; [done|..].
  { injection Hf as <- <-. eexists _, _. split; [done|]. split_and!; [lia|done|done]. }
  cbn [req set_req set_buf] in Hf |- *. destruct (process_body_plain (drop (Z.to_nat 0) rest1) (set_body_state (m_body (req r)) N plain (req r)) eq_refl HN) as (j & Hj1 & Hj). rewrite Hj1 in Hf. clear Hj1.
  cbn [mbind outcome_bind mret outcome_ret m_body_bytes_needed set_body_state m_body] in Hf, Hj. rewrite Z2Nat.inj_0, drop_0 in Hj, Hf. unfold body_ready in Hf. cbn [m_body_bytes_needed set_body_state] in Hf.
  destruct (N - j =? 0) eqn:Ej; [|injection Hf as <- <-; cbn in Hready; congruence]. injection Hf as <- <-. assert (j = N) as -> by lia. rewrite Hdrop.
  destruct (process_body_plain (drop 2 e) (set_header_bytes h (set_body_state (m_body (req r)) N plain (req r))) eq_refl HN) as (i & Hi1 & Hi). rewrite Hi1. clear Hi1.
  cbn [mbind outcome_bind mret outcome_ret m_body_bytes_needed set_body_state set_header_bytes m_body] in Hi |- *. unfold body_ready. cbn [m_body_bytes_needed set_body_state set_header_bytes m_body].
  pose proof (f_equal length Hrest) as Hlen. rewrite length_app in Hlen. destruct (N - i =? 0) eqn:Ei.
  { assert (i = N) as -> by lia. cbn [m_ready set_ready set_req]. eexists _, _. split; [done|]. split_and!; [lia|done|]. rewrite Hrest, take_app_le by lia. done. }
  assert (Hii : i = Z.of_nat (length (drop 2 e))) by lia. cbn [m_ready set_req set_buf]. rewrite Hr. rewrite body_pieces; [|cbn; lia|done|done].
  cbn [mbind outcome_bind mret outcome_ret req set_req m_body_bytes_needed set_body_state set_header_bytes m_body]. eexists _, _. split; [done|]. split_and!; [lia|done|].
  assert (Htake : take (Z.to_nat N) rest1 = take (Z.to_nat i) (drop 2 e) ++ take (Z.to_nat (N - i)) (concat rest2)).
  { rewrite Hrest, take_app_ge by lia. rewrite Hii, Nat2Z.id, firstn_all. do 2 f_equal. lia. }
  unfold content. cbn. by rewrite <- app_assoc, Htake, Z.sub_diag.
Qed.

Lemma finish_head_shift buf e r k n r' : k = Z.of_nat (length buf) - Z.of_nat (length e) + 2 → drop (Z.to_nat k) buf = drop 2 e →
  finish_head buf e r = Returns (k + n, r') → finish_head (drop 2 e) ("013"%char :: "010"%char :: drop 2 e) r = Returns (n, r').
Proof.
  intros -> Hd. unfold finish_head. cbn [length]. replace (Z.of_nat (length (drop 2 e)) - Z.of_nat (S (S (length (drop 2 e)))) + 2) with 0 by lia. cbv zeta.
  rewrite Hd, Z2Nat.inj_0, drop_0. set (k := Z.of_nat (length buf) - Z.of_nat (length e) + 2).
  destruct (prepare_body _) as [[[] p]| |]; cbn [mbind outcome_bind mret outcome_ret]; [|intros [= E <-]; do 2 f_equal; lia|done|done].
  destruct (process_body _ _) as [[j p2]| |]; cbn [mbind outcome_bind mret outcome_ret]; [|done|done]. intros [= E <-]. do 2 f_equal. lia.
Qed.
(** Where the head ends in the last piece. *)
Lemma head_end_drop kept c ea p : find header_delimiter kept = None → kept ++ c = p ++ ea → find header_delimiter ea = Some 0%nat →
  drop (Z.to_nat (Z.of_nat (length c) - Z.of_nat (length ea) + 2)) c = drop 2 ea ∧ 0 ≤ Z.of_nat (length c) - Z.of_nat (length ea) + 2.
Proof.
  intros Hk Hp He. pose proof (f_equal length Hp) as Hlen. rewrite !length_app in Hlen. assert (Hge : (length kept < length p + 2)%nat).
  { destruct (decide (length p + 2 ≤ length kept)%nat) as [Hc|]; [|lia]. exfalso. pose proof (find_none_drop header_delimiter (length p) kept Hk) as Hd.
    apply starts_with_find in Hd. assert (Hs : starts_with header_delimiter (drop (length p) kept ++ c) = true).
    { rewrite <- drop_app_le by lia. rewrite Hp, drop_app_length. by apply find_prefix in He as [He _]. }
    apply starts_with_less in Hs; [congruence|]. rewrite length_drop. simpl. lia. }
  split; [|lia]. assert (drop 2 ea = drop (length p + 2) (kept ++ c)) as ->; [by rewrite Hp, drop_app_add|].
  rewrite drop_app_ge by lia. f_equal. lia.
Qed.

Lemma head_lines_unfinished begin s e s2 : head_lines req set_req request_line begin s e s2 → unfinished s2 → unfinished s.
Proof.
  induction 1 as [begin s Hf Hc|n begin s s1 e s2 Hf Hc Ht Hh IH]; [done|]. intros Hs2. destruct (IH Hs2) as [H1 H2]. clear IH. unfold unfinished.
  revert Ht. unfold request_line. destruct (bool_decide _).
  - unfold process. destruct (find_char " "%char _) as [m [|c rest]]; [done|]. rewrite set_method_spec. destruct (has_non_token m); [done|]. cbn [mbind outcome_bind].
    destruct (find_char " "%char rest) as [u [|c2 v]]; [done|]. by intros [= <-].
  - destruct (process_header _ _) as [p'| |] eqn:Ep; [|done|done]. cbn [mbind outcome_bind]. intros [= <-].
    destruct (process_header_sim _ _ (set_header_bytes 0 (req (read_line req set_req (take (S n) begin) s))) p' 0 eq_refl Ep) as (_ & _ & Hp).
    cbn in H1, H2, Hp. by rewrite <- Hp.
Qed.
Lemma pieces_head cs : ∀ kept s t k e s2 n r', head_lines req set_req request_line (kept ++ concat cs) s e s2 → request_sim k s t → m_buf t = Some kept →
  find header_delimiter kept = None → unfinished t → unfinished s2 → m_method s2 ≠ [] → get_header (lit "Host") (req s2) ≠ [] → 0 ≤ k → m_header_bytes (req s2) + k + 3 * Z.of_nat (length cs) ≤ max_header_size →
  finish_head (drop 2 e) ("013"%char :: "010"%char :: drop 2 e) s2 = Returns (n, r') → m_ready r' = true →
  ∃ m t', request_pieces cs t = Returns (m, t') ∧ m = Z.of_nat (length (concat cs)) - Z.of_nat (length e) + 2 + n ∧ m_ready t' = true ∧ content t' = content r'.
Proof.
  induction cs as [|c cs IH]; intros kept s t k e s2 n r' Hh Hsim Hbuf Hkept [Ht Ht0] Hs2 Hm Hhost Hk Hmax Hf Hready.
  { exfalso. simpl in Hh. rewrite app_nil_r in Hh. inversion Hh as [? ? Hfind|? ? ? ? ? ? Hfind]; congruence. }
  cbn [concat length] in *. rewrite app_assoc in Hh. cbn [request_pieces]. unfold request_consume. rewrite Ht, Ht0. cbn [Z.ltb Z.compare]. rewrite Hbuf. unfold request_lines.
  assert (Hsim0 : request_sim k s (set_buf (Some (kept ++ c)) t)) by (unfold request_sim in *; rewrite Hsim; done).
  destruct (lines_piece _ _ _ request_blank (λ _ line r, set_buf (Some line) r) _ _ request_laws k (kept ++ c) (concat cs) s e s2 _ Hh Hsim0 Hk) as [(ea & -> & Hha)|(kept' & s1 & t1 & Hkept' & Hh1 & Hs1 & Hr)]; [lia|..].
  - destruct (head_lines_sim _ _ _ _ _ request_laws k _ _ _ _ _ Hha Hsim0 Hk) as (t2 & Ht2 & Hs22); [lia|].
    rewrite (read_lines_head _ _ _ _ _ _ c _ _ _ _ Ht2) by lia. destruct (head_lines_suffix _ _ _ _ _ _ _ Hha) as [Hea [p Hp]].
    destruct (head_end_drop kept c ea p Hkept Hp Hea) as [Hd Hd0]. pose proof (find_prefix _ _ _ Hea) as [_ Hea2]. simpl in Hea2.
    assert (Hd2 : drop 2 (ea ++ concat cs) = drop 2 ea ++ concat cs) by (apply drop_app_le; lia). rewrite Hd2 in Hf.
    unfold request_blank. assert (bool_decide (m_method t2 = []) || bool_decide (get_header (lit "Host") (req t2) = []) = false) as ->.
    { rewrite Hs22. apply orb_false_iff. split; by apply bool_decide_eq_false. }
    destruct (finish_pieces c ea (drop 2 ea ++ concat cs) cs s2 t2 k n r' Hs22 Hs2 Hea2 Hd eq_refl Hf Hready) as (m & t' & -> & -> & ? & ?).
    eexists _, t'. split; [done|]. split_and!; [rewrite !length_app; lia|done|done].
  - rewrite (Hr _ c) by lia. cbn [mbind outcome_bind]. set (t' := set_buf _ _). pose proof (head_lines_unfinished _ _ _ _ Hh1 Hs2) as Hu1.
    assert (Ht' : unfinished t' ∧ request_sim (k + 3) s1 t').
    { unfold t', request_sim, unfinished, put_count in *. rewrite Hs1. cbn. split; [done|]. by rewrite <- Z.add_assoc. }
    destruct Ht' as [Ht' Hsim']. destruct (IH kept' s1 t' (k + 3) e s2 n r') as (m & t'' & Hp & -> & ? & ?); [done|done|done|done|done|done|done|done|lia|lia|done|done|].
    rewrite Hp, (proj1 Ht'). cbn [mbind outcome_bind mret outcome_ret]. eexists _, t''. split; [done|]. split_and!; [rewrite length_app; lia|done|done].
Qed.

(** A request that one call of [consume] reads whole is read the same from pieces, as long
    as the pieces are few enough for the header count. *)
Lemma request_pieces_whole cs n r : request_consume (concat cs) new_request = Returns (n, r) → m_ready r = true →
  m_header_bytes (req r) + 3 * Z.of_nat (length cs) ≤ max_header_size →
  ∃ r', request_pieces cs new_request = Returns (n, r') ∧ m_ready r' = true ∧ content r' = content r.
Proof.
  intros Hc Hr Hmax. unfold request_consume in Hc. cbn [m_ready new_request req m_body_bytes_needed new_parser Z.ltb Z.compare m_buf app] in Hc. unfold request_lines in Hc.
  set (s0 := set_buf _ _) in Hc. destruct (read_lines_cases req set_req request_line request_blank (λ _ line r, set_buf (Some line) r) request_sim unfinished request_laws
      (S (length (concat cs))) (concat cs) (concat cs) s0) as [(e & s2 & Hh & Hi & Hx)|[(kept & s1 & Hi & Hl & Hx)|[x Hx]]]; [done|lia| | |]; rewrite Hx in Hc; [|injection Hc as <- <-; destruct Hi as [Hi _]; cbn in Hr; congruence|done].
  unfold request_blank in Hc. destruct (bool_decide (m_method s2 = []) || _) eqn:Eg; [done|]. apply orb_false_iff in Eg as [Hm%bool_decide_eq_false Hhost%bool_decide_eq_false].
  destruct (head_lines_suffix _ _ _ _ _ _ _ Hh) as [He [p Hp]]. destruct (head_end_drop [] (concat cs) e p eq_refl Hp He) as [Hd _].
  assert (Hcount : m_header_bytes (req r) = m_header_bytes (req s2)).
  { revert Hc. unfold finish_head. cbv zeta. change (req (set_buf None s2)) with (req s2). destruct (prepare_body_cases (req s2)) as [[x ->]|[->|(N & HN & ->)]]; cbn [mbind outcome_bind mret outcome_ret]; [done|by intros [= <- <-]|].
    destruct (process_body_plain (drop (Z.to_nat (Z.of_nat (length (concat cs)) - Z.of_nat (length e) + 2)) (concat cs)) (set_body_state (m_body (req s2)) N plain (req s2)) eq_refl HN) as (j & Hj & _).
    cbn [req set_req set_buf]. rewrite Hj. cbn [mbind outcome_bind mret outcome_ret]. intros [= <- <-]. by case_match. }
  set (k := Z.of_nat (length (concat cs)) - Z.of_nat (length e) + 2) in *.
  assert (Hf : finish_head (concat cs) e s2 = Returns (k + (n - k), r)) by (rewrite Hc; do 2 f_equal; lia).
  pose proof (finish_head_shift (concat cs) e s2 k (n - k) r eq_refl Hd Hf) as Hf2.
  destruct (pieces_head cs [] s0 new_request 0 e s2 (n - k) r) as (m & t' & Hpc & -> & ? & ?); try done; [lia| ].
  exists t'. split_and!; [|done|done]. rewrite Hpc. do 2 f_equal. lia.
Qed.

(** ** What is written is read *)
Definition one_line (s : str) : Prop := Forall (λ c, c ≠ "013"%char) s.
Definition header_ok (e : entry) : Prop := token e.1 ∧ e.1 ≠ [] ∧ trimmed e.2 ∧ one_line e.2.
Definition headers_ok (l : header_list) : Prop := Forall header_ok l ∧ sorted_keys (entry_key ci_name) l.
Definition body_ok (p : parser) : Prop :=
  get_header (lit "Content-Length") p = [] ∧ m_body p = [] ∨
  get_header (lit "Content-Length") p = to_string (Z.of_nat (length (m_body p))) ∧ Z.of_nat (length (m_body p)) ≤ max_body_size.

Lemma token_has s : token s → has_non_token s = false.
Proof. intros Hs. unfold has_non_token. by rewrite (find_if_none _ _ Hs). Qed.
Lemma token_one_line s : token s → one_line s.
Proof. intros Hs. eapply Forall_impl; [exact Hs|]. intros c Hc. by apply token_char in Hc as (_ & ? & _). Qed.
Lemma token_trimmed s : token s → trimmed s.
Proof.
  intros Hs. unfold trimmed. assert (Hr : token (rev s)) by by apply Forall_rev. split; [destruct Hs as [|c s Hc _]|destruct Hr as [|c l Hc _]]; try done; by apply token_char in Hc as (? & ? & _).
Qed.
Lemma find_line l t : one_line l → find header_delimiter (l ++ header_delimiter ++ t) = Some (length l).
Proof. intros Hl. by apply find_after. Qed.
Definition show_header (e : entry) : str := e.1 ++ lit ": " ++ e.2.
Lemma show_header_line e : header_ok e → one_line (show_header e) ∧ show_header e ≠ [].
Proof.
  intros (Ht & Hn & _ & Hv). split; [|unfold show_header; by destruct e.1]. apply Forall_app. split; [by apply token_one_line|]. apply Forall_app. split; [by repeat constructor|done].
Qed.
Lemma process_show_header e p : header_ok e → Forall (before (entry_key ci_name) (ci_name e.1)) (m_headers p) →
  process_header (show_header e) p = Returns (set_headers (m_headers p ++ [e]) p).
Proof.
  intros (Ht & Hn & Htr & Hv) Hb. destruct e as [n v]. simpl in *. unfold process_header, show_header. simpl.
  assert (Hs : search header_separator (n ++ ":"%char :: " "%char :: v) = (n, ":"%char :: " "%char :: v)).
  { apply (search_found ":"%char [] n (" "%char :: v)). eapply Forall_impl; [exact Ht|]. intros c Hc. by apply token_char in Hc as (_ & _ & _ & _ & ? & _). }
  rewrite Hs. rewrite bool_decide_eq_false_2 by done.
  pose proof (strip_lws_trimmed [] n [] (Forall_nil_2 _) (Forall_nil_2 _) (token_trimmed n Ht)) as E. rewrite app_nil_l, app_nil_r in E. rewrite E. cbn [lift mbind outcome_bind drop].
  pose proof (strip_lws_trimmed [" "%char] v [] ltac:(by repeat constructor) (Forall_nil_2 _) Htr) as E2. rewrite app_nil_r in E2. change ([" "%char] ++ v) with (" "%char :: v) in E2. rewrite E2.
  cbn [lift mbind outcome_bind]. unfold append_header. rewrite (token_has n Ht). unfold get_header. rewrite (find_absent_last ci_name n) by done.
  rewrite bool_decide_eq_true_2 by done. unfold replace_header. by rewrite put_last.
Qed.

Definition count_headers (l : header_list) : Z := foldr (λ e n, Z.of_nat (length (show_header e)) + 3 + n) 0 l.
Lemma count_headers_nonneg l : 0 ≤ count_headers l.
Proof. induction l as [|e l IH]; unfold count_headers in *; simpl; lia. Qed.
(** Header lines that are written are read one by one, in any message that takes them. *)
Section HeaderLines.
Context {state : Type} (parser_of : state → parser) (set_parser : parser → state → state) (take_line : str → state → outcome state).
Context (in_headers : state → Prop).
Record header_laws := {
  parser_put p s : parser_of (set_parser p s) = p;
  set_set p q s : set_parser p (set_parser q s) = set_parser p s;
  set_same s : set_parser (parser_of s) s = s;
  in_put p s : in_headers s → in_headers (set_parser p s);
  take_header l s : in_headers s → l ≠ [] → take_line l s = (p ← process_header l (parser_of s); mret (set_parser p s));
}.
Hypothesis laws : header_laws.
Definition with_headers (h : header_list) (n : Z) (s : state) : state := set_parser (set_header_bytes n (set_headers h (parser_of s))) s.
Lemma headers_read l tail s : headers_ok (m_headers (parser_of s) ++ l) → in_headers s → m_header_bytes (parser_of s) + count_headers l + 3 ≤ max_header_size →
  head_lines parser_of set_parser take_line (concat ((λ e, e.1 ++ lit ": " ++ e.2 ++ header_delimiter) <$> l) ++ header_delimiter ++ tail) s (header_delimiter ++ tail)
    (with_headers (m_headers (parser_of s) ++ l) (m_header_bytes (parser_of s) + count_headers l + 3) s).
Proof.
  revert s. induction l as [|e l IH]; intros s [Hl Hs] Hm Hmax.
  - rewrite app_nil_r. unfold count_headers in *. simpl in *. rewrite Z.add_0_r in *. replace (with_headers _ _ s) with (read_line parser_of set_parser [] s); [by apply head_end|].
    unfold read_line, put_count, with_headers. simpl. by destruct (parser_of s).
  - replace (concat _ ++ header_delimiter ++ tail) with (show_header e ++ header_delimiter ++ concat ((λ e, e.1 ++ lit ": " ++ e.2 ++ header_delimiter) <$> l) ++ header_delimiter ++ tail).
    2: { cbn [fmap list_fmap concat]. unfold show_header. by rewrite <- !app_assoc. }
    assert (He : header_ok e) by (apply Forall_app in Hl as [_ Hl]; by apply Forall_cons in Hl as [? _]). destruct (show_header_line e He) as [Hline Hne].
    assert (Hcount : count_headers (e :: l) = Z.of_nat (length (show_header e)) + 3 + count_headers l) by done. rewrite Hcount in *. pose proof (count_headers_nonneg l).
    destruct (length (show_header e)) as [|n] eqn:Elen; [by destruct (show_header e)|].
    set (t := concat _ ++ _). assert (Htake : take (S n) (show_header e ++ header_delimiter ++ t) = show_header e) by by rewrite <- Elen, take_app_length.
    set (s1 := with_headers (m_headers (parser_of s) ++ [e]) (m_header_bytes (parser_of s) + (Z.of_nat (S n) + 3)) s).
    assert (Hp1 : parser_of s1 = set_header_bytes (m_header_bytes (parser_of s) + (Z.of_nat (S n) + 3)) (set_headers (m_headers (parser_of s) ++ [e]) (parser_of s))) by apply (parser_put laws).
    eapply (head_line _ _ _ n (show_header e ++ header_delimiter ++ t) s s1); [rewrite find_line by done; by rewrite Elen|lia|rewrite Htake|].
    + rewrite (take_header laws) by (done || by apply (in_put laws)). unfold read_line, put_count. rewrite (parser_put laws), process_show_header; [|done|].
      * cbn [mbind outcome_bind mret outcome_ret]. rewrite (set_set laws), Elen. done.
      * cbn [m_headers set_header_bytes]. replace (m_headers (parser_of s) ++ e :: l) with ((m_headers (parser_of s) ++ [e]) ++ l) in Hs by by rewrite <- app_assoc.
        apply StronglySorted_app in Hs as (_ & Hs & _). destruct e as [k v]. by apply (sorted_snoc ci_name k v) in Hs as [_ ?].
    + replace (drop (S n + 2) (show_header e ++ header_delimiter ++ t)) with t by (rewrite <- Elen, drop_app_add; done).
      assert (E2 : m_headers (parser_of s1) ++ l = m_headers (parser_of s) ++ e :: l) by (rewrite Hp1; cbn; by rewrite <- app_assoc).
      specialize (IH s1). rewrite E2 in IH. replace (with_headers (m_headers (parser_of s) ++ e :: l) _ s) with (with_headers (m_headers (parser_of s) ++ e :: l) (m_header_bytes (parser_of s1) + count_headers l + 3) s1).
      * apply IH; [by split|by apply (in_put laws)|rewrite Hp1; cbn [m_header_bytes set_header_bytes]; lia].
      * unfold with_headers at 1. rewrite Hp1. cbn [m_header_bytes set_header_bytes]. unfold s1, with_headers. rewrite (set_set laws).
        replace (m_header_bytes (parser_of s) + (Z.of_nat (S n) + 3) + count_headers l + 3) with (m_header_bytes (parser_of s) + (Z.of_nat (S n) + 3 + count_headers l) + 3) by lia. done.
Qed.
End HeaderLines.
Lemma request_header_laws : header_laws req set_req request_line (λ s, m_method s ≠ []).
Proof. split; try done; [by intros []|]. intros l s Hs _. unfold request_line. by rewrite bool_decide_eq_false_2. Qed.

(** A request that can be written: its fields hold no separators, its names are tokens in
    order, and its length header agrees with its body. *)
Definition request_wf (r : request) : Prop :=
  token (m_method r) ∧ m_method r ≠ [] ∧ one_line (m_uri r) ∧ Forall (λ c, c ≠ " "%char) (m_uri r) ∧ one_line (m_version (req r)) ∧
  headers_ok (m_headers (req r)) ∧ get_header (lit "Host") (req r) ≠ [] ∧ body_ok (req r).
Definition first_line (r : request) : str := m_method r ++ lit " " ++ m_uri r ++ lit " " ++ m_version (req r).
Definition head_count (r : request) : Z := Z.of_nat (length (first_line r)) + 3 + count_headers (m_headers (req r)) + 3.

Lemma c_str_all s : Forall (λ c, c ≠ "000"%char) s → c_str s = s.
Proof. induction 1 as [|c s Hc _ IH]; [done|]. cbn [c_str]. by rewrite decide_False, IH. Qed.
Lemma strtoul_to_string n : 0 ≤ n < 2 ^ 64 → strtoul (to_string n) = n ∧ to_string n ≠ [].
Proof.
  intros Hn. destruct (to_string_numeric n) as [Hnum Hne]; [lia|]. split; [|done]. unfold strtoul. rewrite c_str_all.
  - rewrite parse_number_to_string by lia. rewrite (proj2 (Z.ltb_lt _ _)) by lia. apply u64_small. lia.
  - eapply Forall_impl; [exact Hnum|]. intros c Hc ->. destruct Hc as [[v Hv]|?]; [by vm_compute in Hv|done].
Qed.
Lemma first_line_read r s : request_wf r → m_method s = [] →
  request_line (first_line r) s = Returns (set_req (set_version (m_version (req r)) (req s)) (mkRequest (req s) (m_buf s) (m_method r) (m_uri r) (m_ready s))).
Proof.
  intros (Hm & _ & _ & Hu & _) Hs. unfold request_line. rewrite bool_decide_eq_true_2 by done. unfold process, first_line. change (lit " ") with [" "%char]. cbn [app].
  rewrite find_char_stops by (eapply Forall_impl; [exact Hm|]; intros c Hc; by apply token_char in Hc as (_ & _ & _ & _ & _ & ?)).
  rewrite set_method_spec, token_has by done. cbn [mbind outcome_bind]. rewrite find_char_stops by done. done.
Qed.

(** The state after the head of a written request. *)
Definition head_state (r : request) (s : request) : request :=
  mkRequest (mkParser (m_version (req r)) (m_headers (req r)) (head_count r) (m_body (req s)) (m_body_bytes_needed (req s)) (m_body_bytes_max (req s)) (m_body_encoding (req s)))
    (m_buf s) (m_method r) (m_uri r) (m_ready s).
Lemma head_read r s tail : request_wf r → m_method s = [] → m_headers (req s) = [] → m_header_bytes (req s) = 0 → head_count r ≤ max_header_size →
  head_lines req set_req request_line (request_raw_head r ++ tail) s (header_delimiter ++ tail) (head_state r s).
Proof.
  intros Hwf Hm Hh Hb Hmax. pose proof Hwf as (Htm & Hmn & Hul & Hu & Hv & Hho & _). unfold head_count in Hmax. pose proof (count_headers_nonneg (m_headers (req r))) as Hnn.
  assert (Hline : one_line (first_line r)).
  { unfold first_line, one_line in *. repeat (apply Forall_app; split); try done; [by apply token_one_line|by repeat constructor..]. }
  assert (Hraw : request_raw_head r ++ tail = first_line r ++ header_delimiter ++ raw_headers (req r) ++ header_delimiter ++ tail).
  { unfold request_raw_head, first_line. by rewrite <- !app_assoc. }
  destruct (length (first_line r)) as [|n] eqn:El.
  { exfalso. unfold first_line in El. rewrite !length_app in El. destruct (m_method r); [done|simpl in El; lia]. }
  rewrite Hraw. set (t := raw_headers (req r) ++ header_delimiter ++ tail). assert (Htake : take (S n) (first_line r ++ header_delimiter ++ t) = first_line r) by by rewrite <- El, take_app_length.
  eapply (head_line _ _ _ n (first_line r ++ header_delimiter ++ t)); [rewrite find_line by done; by rewrite El|lia|rewrite Htake; by apply first_line_read|].
  replace (drop (S n + 2) (first_line r ++ header_delimiter ++ t)) with t by (rewrite <- El, drop_app_add; done). rewrite ?Htake.
  set (s1 := set_req _ _). pose proof (headers_read _ _ _ _ request_header_laws (m_headers (req r)) tail s1) as Hr. assert (Hh1 : m_headers (req s1) = []) by done.
  rewrite Hh1, app_nil_l in Hr. assert (Hb1 : m_header_bytes (req s1) = Z.of_nat (S n) + 3) by (unfold s1, read_line, put_count; cbn; rewrite Hb, El; lia). rewrite Hb1 in Hr.
  replace (head_state r s) with (with_headers req set_req (m_headers (req r)) (Z.of_nat (S n) + 3 + count_headers (m_headers (req r)) + 3) s1); [apply Hr; [done|done|lia]|].
  unfold with_headers, head_state, head_count, s1, read_line, put_count. cbn. by rewrite El.
Qed.

Lemma written_request_consumed r rest : request_wf r → head_count r ≤ max_header_size →
  ∃ r', request_consume (request_raw r ++ rest) new_request = Returns (Z.of_nat (length (request_raw r)), r') ∧ m_ready r' = true ∧ m_header_bytes (req r') = head_count r ∧
  m_method r' = m_method r ∧ m_uri r' = m_uri r ∧ m_version (req r') = m_version (req r) ∧ m_headers (req r') = m_headers (req r) ∧ m_body (req r') = m_body (req r).
Proof.
  intros Hwf Hmax. unfold request_consume. cbn [m_ready new_request req m_body_bytes_needed new_parser Z.ltb Z.compare m_buf app]. unfold request_lines. set (s0 := set_buf _ _).
  unfold request_raw. rewrite <- app_assoc. set (tail := m_body (req r) ++ rest). pose proof (head_read r s0 tail Hwf eq_refl eq_refl eq_refl Hmax) as Hh.
  rewrite (read_lines_head _ _ _ _ _ _ _ _ _ _ _ Hh) by lia. pose proof Hwf as (_ & Hmn & _ & _ & _ & _ & Hhost & Hbody).
  unfold request_blank. assert (bool_decide (m_method (head_state r s0) = []) || bool_decide (get_header (lit "Host") (req (head_state r s0)) = []) = false) as ->.
  { apply orb_false_iff. split; by apply bool_decide_eq_false. }
  unfold finish_head. cbv zeta. set (buf := request_raw_head r ++ tail). assert (Hk : Z.of_nat (length buf) - Z.of_nat (length (header_delimiter ++ tail)) + 2 = Z.of_nat (length (request_raw_head r))).
  { unfold buf. rewrite !length_app. change (length header_delimiter) with 2%nat. lia. }
  rewrite Hk, Nat2Z.id. unfold buf. rewrite drop_app_length. unfold prepare_body.
  change (get_header (lit "Content-Length") (req (set_buf None (head_state r s0)))) with (get_header (lit "Content-Length") (req r)).
  rewrite length_app, Nat2Z.inj_add. destruct Hbody as [[-> Hb0]|[-> Hb0]].
  - rewrite bool_decide_eq_true_2 by done. cbn [negb mbind outcome_bind mret outcome_ret]. rewrite Hb0. eexists. split; [f_equal; f_equal; simpl; lia|]. by split_and!.
  - destruct (strtoul_to_string (Z.of_nat (length (m_body (req r))))) as [Hs Hne]; [unfold max_body_size in Hb0; lia|]. rewrite (bool_decide_eq_false_2 _ Hne), Hs. cbn [negb].
    change (m_body_bytes_max _) with max_body_size. rewrite (proj2 (Z.ltb_ge _ _)) by done. cbn [mbind outcome_bind mret outcome_ret]. unfold process_body.
    cbn [req set_req m_body_encoding set_body_state m_body_bytes_needed m_body set_buf head_state mbind outcome_bind mret outcome_ret]. unfold tail. rewrite length_app.
    replace (Z.min _ _) with (Z.of_nat (length (m_body (req r)))) by lia. rewrite Nat2Z.id, take_app_length, Z.sub_diag. unfold body_ready. cbn [m_body_bytes_needed set_body_state].
    eexists. split; [done|]. by split_and!.
Qed.

(** ** Theorems *)

(** C29: A reader of requests never leaves its defined behaviour: on every sequence of reads it
    returns or throws an [http::exception]. *)
Theorem request_reader_safe cs : match request_pieces cs new_request with Stuck _ => False | _ => True end.
Proof.
  assert (H : ∀ r, request_ok r → match request_pieces cs r with Stuck _ => False | _ => True end); [|apply H; split; [done|right; right; split; [done|by exists []]]].
  induction cs as [|c cs IH]; intros r Hr; [done|]. cbn [request_pieces]. destruct (request_consume_ok c r Hr) as [[x ->]|(n & r' & -> & _ & Hr' & _)]; [done|].
  cbn [mbind outcome_bind]. destruct (m_ready r'); [done|]. specialize (IH r' Hr'). by destruct (request_pieces cs r') as [[m r'']| |].
Qed.

(** C18: A request that is written, with more bytes behind it, is read back from any division of the
    stream into pieces whose number keeps the count of the reader, the bytes of the head and three
    for each line and for each piece, within 16000; the bytes behind it are left. The bound is the
    code's: every read is charged three bytes, and a request cut smaller is refused
    ([small_reads_refused]). The request has a method that is a token, a URI without blanks, one
    line fields, headers with token names and trimmed values in the order of the map, a Host header,
    and a body only with its Content-Length, within the limit on bodies. *)
Theorem http_request_round_trip r cs rest : request_wf r → concat cs = request_raw r ++ rest → head_count r + 3 * Z.of_nat (length cs) ≤ max_header_size →
  ∃ r', request_pieces cs new_request = Returns (Z.of_nat (length (request_raw r)), r') ∧ m_ready r' = true ∧
  m_method r' = m_method r ∧ m_uri r' = m_uri r ∧ m_version (req r') = m_version (req r) ∧ m_headers (req r') = m_headers (req r) ∧ m_body (req r') = m_body (req r).
Proof.
  intros Hwf Hcs Hmax. destruct (written_request_consumed r rest Hwf) as (r1 & Hc & Hready & Hcount & Hm & Hu & Hv & Hh & Hb); [lia|].
  destruct (request_pieces_whole cs (Z.of_nat (length (request_raw r))) r1) as (r2 & Hp & ? & Heq); [by rewrite Hcs|done|lia|].
  exists r2. destruct r1 as [p1 b1 m1 u1 y1], r2 as [p2 b2 m2 u2 y2]. unfold content in Heq. destruct p1, p2. cbn in *. injection Heq as -> -> -> -> -> -> -> -> -> ->. by split_and!.
Qed.
Definition sample_request : request :=
  mkRequest (mkParser (lit "HTTP/1.1") [(lit "Content-Length", lit "3"); (lit "Host", lit "a.b:80"); (lit "X-y", [])] 0 (lit "abc") 0 max_body_size unknown) None (lit "POST") (lit "/p?q") true.
Lemma http_request_round_trip_witness :
  ∃ r', request_pieces [take 9 (request_raw sample_request); drop 9 (request_raw sample_request) ++ lit "xy"] new_request = Returns (Z.of_nat (length (request_raw sample_request)), r') ∧ m_ready r' = true ∧
  m_method r' = lit "POST" ∧ m_uri r' = lit "/p?q" ∧ m_version (req r') = lit "HTTP/1.1" ∧ m_headers (req r') = m_headers (req sample_request) ∧ m_body (req r') = lit "abc".
Proof.
  apply (http_request_round_trip sample_request _ (lit "xy")); [|done|done]. unfold request_wf, token, one_line, headers_ok, header_ok, sorted_keys, trimmed, body_ok. split_and!; try done.
  all: try by repeat constructor.
Defined.

(** The limit on the header counts 3 bytes for every read: a line of 4001 bytes that is
    accepted in one read is refused byte by byte. *)
Definition letters (n : nat) : str := replicate n "a"%char.
Definition letters_read (n : nat) : request := set_buf (Some (letters n)) (put_count req set_req (3 * Z.of_nat n) new_request).
Lemma letters_length n : length (letters n) = n.
Proof. apply length_replicate. Qed.
Lemma letters_no_line n : find header_delimiter (letters n) = None.
Proof. apply find_absent. by apply Forall_replicate. Qed.
Lemma letter_read n : request_consume (letters 1) (letters_read n) =
  if 4 * Z.of_nat n + 4 <=? max_header_size then Returns (1, letters_read (S n)) else throw "Maximum header size exceeded." status_code.request_header_fields_too_large.
Proof.
  unfold request_consume. cbn [m_ready letters_read set_buf put_count set_req new_request req m_body_bytes_needed set_header_bytes new_parser Z.ltb Z.compare m_buf].
  assert (letters n ++ letters 1 = letters (S n)) as -> by (unfold letters; by rewrite <- replicate_add, Nat.add_1_r).
  destruct (4 * Z.of_nat n + 4 <=? max_header_size) eqn:E; unfold request_lines.
  - rewrite (read_lines_waits _ _ _ _ _ _ _ request_laws); [|apply letters_no_line|cbn; rewrite length_replicate; lia|done]. unfold letters_read, put_count.
    cbn [req set_buf set_req m_header_bytes set_header_bytes new_request new_parser].
    replace (3 * Z.of_nat (S n)) with (3 * Z.of_nat n + 3) by lia. by rewrite letters_length.
  - cbn [read_lines]. rewrite (search_none _ (letters_no_line (S n))). rewrite (proj2 (Z.ltb_lt _ _)); [done|]. cbn [req m_header_bytes set_buf put_count set_header_bytes]. cbn. rewrite length_replicate. lia.
Qed.
Lemma small_reads_refused :
  (∃ r, request_consume (letters 4001) new_request = Returns (4001, r)) ∧
  request_pieces (replicate 4001 (letters 1)) new_request = throw "Maximum header size exceeded." status_code.request_header_fields_too_large.
Proof.
  split.
  - unfold request_consume. cbn [m_ready new_request req m_body_bytes_needed new_parser Z.ltb Z.compare m_buf]. rewrite app_nil_l. unfold request_lines.
    rewrite (read_lines_waits _ _ _ _ _ _ _ request_laws); [|apply letters_no_line|rewrite letters_length; cbn; unfold max_header_size; lia|done].
    rewrite letters_length. by eexists.
  - assert (H : ∀ m n, (4000 < n + m)%nat → request_pieces (replicate m (letters 1)) (letters_read n) = throw "Maximum header size exceeded." status_code.request_header_fields_too_large ∨ (4000 < n)%nat).
    { induction m as [|m IH]; intros n Hn; [right; lia|]. left. cbn [replicate request_pieces]. rewrite letter_read. destruct (4 * Z.of_nat n + 4 <=? max_header_size) eqn:E; [|done].
      cbn [mbind outcome_bind m_ready letters_read set_buf put_count set_req new_request]. destruct (IH (S n)) as [Hm|Hm]; [lia|by rewrite Hm|]. unfold max_header_size in E. lia. }
    destruct (H 4001%nat 0%nat) as [H0|H0]; [lia|exact H0|lia].
Qed.
