(* ===== verification/HttpReply.v ===== *)
(** * HTTP responses in pieces, and what is written is read

    The response side of [HttpStream]: the client of a handshake reads until the headers are
    complete and leaves the bytes behind them. *)

From S2P Require Import Prelude SortedKeys StdString HttpText HttpTextFacts HttpParser HttpStream.

Open Scope Z_scope.

Definition response_sim (k : Z) (s t : response) : Prop :=
  t = set_read (m_read t) (set_rep_buf (rep_buf t) (set_rep (set_header_bytes (m_header_bytes (rep s) + k) (rep s)) s)).
Definition reading_head (r : response) : Prop := rep_state r = RESPONSE_LINE ∨ rep_state r = HEADERS.

Lemma response_process_sim l s p' k b n : response_process l s = Returns p' →
  response_process l (set_read n (set_rep_buf b (set_rep (set_header_bytes k (rep s)) s))) = Returns (set_read n (set_rep_buf b (set_rep (set_header_bytes k (rep p')) p'))) ∧
  m_header_bytes (rep p') = m_header_bytes (rep s) ∧ rep_state p' = rep_state s.
Proof.
  unfold response_process. destruct (find_char " "%char l) as [v [|c rest]]; [done|]. destruct (find_char " "%char rest) as [u [|c2 msg]]; [done|].
  destruct (read_int u); [|done]. by intros [= <-].
Qed.
Lemma response_laws : line_laws rep set_rep response_line response_sim reading_head.
Proof.
  split; try done.
  - intros k s t ->. done.
  - intros k n s t Ht. unfold response_sim in *. rewrite Ht. done.
  - intros k l s t s' Ht. rewrite Ht. clear Ht. set (b := rep_buf t). set (n := m_read t). clearbody b n. clear t. unfold response_line. cbn [rep_state set_read set_rep_buf set_rep rep].
    destruct (bool_decide (rep_state s = RESPONSE_LINE)).
    + destruct (response_process l s) as [p'| |] eqn:Ep; [|done|done]. cbn [mbind outcome_bind mret outcome_ret]. intros [= <-].
      destruct (response_process_sim l s p' (m_header_bytes (rep s) + k) b n Ep) as (-> & Hp & _). cbn [mbind outcome_bind]. eexists. split; [done|]. unfold response_sim. cbn. by rewrite Hp.
    + destruct (process_header l (rep s)) as [p'| |] eqn:Ep; [|done|done]. cbn [mbind outcome_bind mret outcome_ret]. intros [= <-].
      destruct (process_header_sim l (rep s) (set_header_bytes (m_header_bytes (rep s) + k) (rep s)) p' (m_header_bytes (rep s) + k) eq_refl Ep) as (-> & Hp & _).
      cbn [mbind outcome_bind]. eexists. split; [done|]. unfold response_sim. cbn. by rewrite Hp.
  - intros l s s'. unfold response_line. destruct (bool_decide _).
    + destruct (response_process l s) as [p'| |] eqn:Ep; [|done|done]. cbn [mbind outcome_bind mret outcome_ret]. intros [= <-].
      by destruct (response_process_sim l s p' 0 None 0 Ep) as (_ & ? & _).
    + destruct (process_header l (rep s)) as [p'| |] eqn:Ep; [|done|done]. cbn [mbind outcome_bind mret outcome_ret]. intros [= <-].
      by destruct (process_header_sim l (rep s) (set_header_bytes 0 (rep s)) p' 0 eq_refl Ep) as (_ & ? & _).
  - intros l s Hs Hl. unfold response_line, reading_head in *. case_bool_decide as E.
    + unfold response_process. destruct (find_char " "%char l) as [v [|c rest]]; [done|]. destruct (find_char " "%char rest) as [u [|c2 msg]]; [done|].
      destruct (read_int u); [|done]. by right.
    + pose proof (process_header_total l (rep s) Hl). destruct (process_header l (rep s)) as [p'| |] eqn:Ep; done.
Qed.

(** Reads of a client until the headers are complete, as in
    [connection::handle_read_http_response]. *)
Fixpoint response_pieces (cs : list str) (r : response) : outcome (Z * response) :=
  match cs with
  | [] => mret (0, r)
  | c :: cs =>
      '(n, r) ← response_consume c r;
      if headers_ready r then mret (n, r) else '(m, r) ← response_pieces cs r; mret (n + m, r)
  end.

(** The state of a response while its head is read. *)
Definition response_ok (r : response) : Prop := reading_head r → ∃ b, rep_buf r = Some b ∧ find header_delimiter b = None.
Lemma response_body_bounds buf r : 0 ≤ m_read r → 0 ≤ (response_body buf r).1 ≤ Z.of_nat (length buf) ∧ ¬ reading_head (set_rep_state BODY r) .
Proof.
  intros Hr. split; [|by intros [?|?]]. unfold response_body. destruct (m_read r =? 0) eqn:E; [simpl; lia|]. destruct (m_read r <=? Z.of_nat (length buf)) eqn:E2; simpl; lia.
Qed.
Lemma read_size_nonneg s n : read_size s = Some n → 0 ≤ n.
Proof. unfold read_size. destruct (parse_number s); [|done]. case_match; [|done]. intros [= <-]. apply u64_range. Qed.

(** What the end of the headers does, by the length header. *)
Lemma head_done_state buf e r : (∃ x, response_head_done buf e r = Throws x) ∨
  ∃ n r', response_head_done buf e r = Returns (n, r') ∧ headers_ready r' = true ∧ m_version (rep r') = m_version (rep r) ∧ m_headers (rep r') = m_headers (rep r) ∧
    m_status_code r' = m_status_code r ∧ m_status_msg r' = m_status_msg r ∧
    (get_header (lit "Content-Length") (rep r) = [] → n = Z.of_nat (length buf) - Z.of_nat (length e) + 2 ∧ m_body (rep r') = m_body (rep r)).
Proof.
  unfold response_head_done. cbv zeta. set (k := Z.of_nat (length buf) - Z.of_nat (length e) + 2).
  assert (Hbody : ∀ c s, rep_state s = BODY → let o := response_body c s in headers_ready o.2 = true ∧ m_version (rep o.2) = m_version (rep s) ∧ m_headers (rep o.2) = m_headers (rep s) ∧
    m_status_code o.2 = m_status_code s ∧ m_status_msg o.2 = m_status_msg s ∧ (m_read s = 0 → o.1 = 0 ∧ m_body (rep o.2) = m_body (rep s))).
  { intros c s Hs. unfold response_body, headers_ready. destruct (m_read s =? 0) eqn:E; [by split_and!|]. destruct (m_read s <=? Z.of_nat (length c)); cbn; rewrite ?Hs; split_and!; try done; lia. }
  case_bool_decide as Hlen; [|destruct (read_size _) as [n|]; [|left; by eexists]]; cbn [mbind outcome_bind mret outcome_ret]; right.
  - destruct (k <? Z.of_nat (length buf)).
    + destruct (Hbody (drop (Z.to_nat k) buf) (set_rep_state BODY (set_read 0 r)) eq_refl) as (H1 & H2 & H3 & H4 & H5 & H6). destruct (response_body _ _) as [j o]. cbn in *.
      eexists _, _. split; [done|]. split_and!; [by destruct o|done..|]. intros _. destruct (H6 eq_refl). split; [lia|done].
    + eexists _, _. split; [done|]. split_and!; try done. intros _. split; [lia|done].
  - destruct (k <? Z.of_nat (length buf)).
    + destruct (Hbody (drop (Z.to_nat k) buf) (set_rep_state BODY (set_read n r)) eq_refl) as (H1 & H2 & H3 & H4 & H5 & H6). destruct (response_body _ _) as [j o]. cbn in *.
      eexists _, _. split; [done|]. split_and!; by try destruct o.
    + eexists _, _. split; [done|]. by split_and!.
Qed.

(** [consume] never leaves its defined behaviour. *)
Lemma response_consume_ok buf r : response_ok r →
  (∃ x, response_consume buf r = Throws x) ∨ ∃ n r', response_consume buf r = Returns (n, r') ∧ response_ok r'.
Proof.
  intros Hok. assert (Hdone : ∀ r', headers_ready r' = true → response_ok r').
  { intros r' H [E|E]; unfold headers_ready in H; by rewrite E in H. }
  assert (Hhead : reading_head r → (∃ x, response_consume buf r = Throws x) ∨ ∃ n r', response_consume buf r = Returns (n, r') ∧ response_ok r').
  { intros Hs. destruct (Hok Hs) as (b & Hb & Hfb). assert (Hc : response_consume buf r = response_lines (S (length (b ++ buf))) buf (b ++ buf) (set_rep_buf (Some (b ++ buf)) r)).
    { unfold response_consume. rewrite Hb. by destruct Hs as [-> | ->]. }
    rewrite Hc. unfold response_lines.
    destruct (read_lines_cases rep set_rep response_line response_blank (λ buf line r, set_read (u64 (m_read r + Z.of_nat (length buf))) (set_rep_buf (Some line) r)) response_sim reading_head response_laws
      (S (length (b ++ buf))) buf (b ++ buf) (set_rep_buf (Some (b ++ buf)) r)) as [(e & s2 & Hh & Hi & Hr)|[(kept & s1 & Hi & Hl & Hr)|[x Hr]]]; [done|lia|..]; rewrite Hr; [| |left; by eexists].
    - unfold response_blank. case_bool_decide; [left; by eexists|]. destruct (head_done_state buf e s2) as [Hx|(n & r' & Hx & Hready & _)]; [by left|right]. eexists _, _. split; [done|by apply Hdone].
    - right. eexists _, _. split; [done|]. intros _. by exists kept. }
  destruct (rep_state r) eqn:Es; [apply Hhead; by left|apply Hhead; by right|..]; right; unfold response_consume; rewrite Es.
  - rewrite (surjective_pairing (response_body buf r)). eexists _, _. split; [done|]. apply Hdone.
    unfold response_body, headers_ready. destruct (m_read r =? 0); [done|]. destruct (_ <=? _); cbn; by rewrite ?Es.
  - eexists _, _. split; [done|]. apply Hdone. unfold headers_ready. by rewrite Es.
Qed.

(** A head that is known, read from pieces. *)
Lemma response_head_pieces cs : ∀ kept s t k e s2, head_lines rep set_rep response_line (kept ++ concat cs) s e s2 → response_sim k s t → rep_buf t = Some kept →
  find header_delimiter kept = None → reading_head t → rep_state s2 = HEADERS → get_header (lit "Content-Length") (rep s2) = [] →
  0 ≤ k → m_header_bytes (rep s2) + k + 3 * Z.of_nat (length cs) ≤ max_header_size →
  ∃ t', response_pieces cs t = Returns (Z.of_nat (length (concat cs)) - Z.of_nat (length e) + 2, t') ∧ headers_ready t' = true ∧
    m_version (rep t') = m_version (rep s2) ∧ m_headers (rep t') = m_headers (rep s2) ∧ m_status_code t' = m_status_code s2 ∧ m_status_msg t' = m_status_msg s2 ∧ m_body (rep t') = m_body (rep s2).
Proof.
  induction cs as [|c cs IH]; intros kept s t k e s2 Hh Hsim Hbuf Hkept Ht Hs2 Hcl Hk Hmax.
  { exfalso. simpl in Hh. rewrite app_nil_r in Hh. inversion Hh as [? ? Hfind|? ? ? ? ? ? Hfind]; congruence. }
  cbn [concat length] in *. rewrite app_assoc in Hh. cbn [response_pieces].
  assert (Hcons : response_consume c t = response_lines (S (length (kept ++ c))) c (kept ++ c) (set_rep_buf (Some (kept ++ c)) t)).
  { unfold response_consume. rewrite Hbuf. by destruct Ht as [-> | ->]. }
  rewrite Hcons. unfold response_lines. assert (Hsim0 : response_sim k s (set_rep_buf (Some (kept ++ c)) t)) by (unfold response_sim in *; rewrite Hsim; done).
  destruct (lines_piece _ _ _ response_blank (λ buf line r, set_read (u64 (m_read r + Z.of_nat (length buf))) (set_rep_buf (Some line) r)) _ _ response_laws k (kept ++ c) (concat cs) s e s2 _ Hh Hsim0 Hk)
    as [(ea & -> & Hha)|(kept' & s1 & t1 & Hkept' & Hh1 & Hs1 & Hr)]; [lia|..].
  - destruct (head_lines_sim _ _ _ _ _ response_laws k _ _ _ _ _ Hha Hsim0 Hk) as (t2 & Ht2 & Hs22); [lia|].
    rewrite (read_lines_head _ _ _ _ _ _ c _ _ _ _ Ht2) by lia. destruct (head_lines_suffix _ _ _ _ _ _ _ Hha) as [Hea [p Hp]].
    destruct (head_end_drop kept c ea p Hkept Hp Hea) as [_ Hd0]. unfold response_sim in Hs22.
    unfold response_blank. rewrite bool_decide_eq_false_2 by (rewrite Hs22; cbn; congruence).
    assert (Hcl2 : get_header (lit "Content-Length") (rep t2) = []) by (rewrite Hs22; done).
    destruct (head_done_state c ea t2) as [[x Hx]|(n & t' & Hx & Hready & H1 & H2 & H3 & H4 & H5)].
    { exfalso. revert Hx. unfold response_head_done. rewrite Hcl2. rewrite bool_decide_eq_true_2 by done. cbn [mbind outcome_bind mret outcome_ret].
      by destruct (_ <? _); [destruct (response_body _ _)|]. }
    destruct (H5 Hcl2) as [-> H6]. rewrite Hx. cbn [mbind outcome_bind mret outcome_ret]. rewrite Hready. exists t'. rewrite !length_app. split; [f_equal; f_equal; lia|].
    rewrite H1, H2, H3, H4, H6, Hs22. by split_and!.
  - rewrite (Hr _ c) by lia. cbn [mbind outcome_bind]. set (t' := set_read _ _).
    assert (Hphase : ∀ begin s e s2, head_lines rep set_rep response_line begin s e s2 → rep_state s2 = HEADERS → reading_head s).
    { clear. induction 1 as [begin s Hf Hc|n begin s s1 e s2 Hf Hc Ht Hh IH]; intros Hs2; [by right|]. unfold response_line in Ht. unfold reading_head in *.
      case_bool_decide as E; [by left|]. right. destruct (process_header _ _) as [p'| |]; [|done|done]. injection Ht as <-. cbn in E, IH. destruct (IH Hs2); [done|done]. }
    pose proof (Hphase _ _ _ _ Hh1 Hs2) as Hu1.
    assert (Ht' : reading_head t' ∧ response_sim (k + 3) s1 t').
    { unfold t', response_sim, reading_head, put_count in *. rewrite Hs1. cbn. split; [done|]. by rewrite <- Z.add_assoc. }
    destruct Ht' as [Ht' Hsim']. destruct (IH kept' s1 t' (k + 3) e s2) as (t'' & Hp & ? & ?); [done|done|done|done|done|done|done|lia|lia|].
    rewrite Hp. assert (headers_ready t' = false) as ->. { unfold headers_ready. by destruct Ht' as [-> | ->]. }
    cbn [mbind outcome_bind mret outcome_ret]. exists t''. split; [rewrite length_app; f_equal; f_equal; lia|done].
Qed.

(** ** What is written is read *)
Lemma response_header_laws : header_laws rep set_rep response_line (λ s, rep_state s = HEADERS).
Proof.
  split; try done; [by intros []|]. intros l s Hs _. unfold response_line. rewrite Hs. done.
Qed.
(** A response without a body that can be written. *)
Definition response_wf (r : response) : Prop :=
  one_line (m_version (rep r)) ∧ Forall (λ c, c ≠ " "%char) (m_version (rep r)) ∧ 0 ≤ m_status_code r < 1000 ∧ one_line (m_status_msg r) ∧
  headers_ok (m_headers (rep r)) ∧ get_header (lit "Content-Length") (rep r) = [] ∧ m_body (rep r) = [].
Definition status_line (r : response) : str := m_version (rep r) ++ lit " " ++ to_string (m_status_code r) ++ lit " " ++ m_status_msg r.
Definition reply_count (r : response) : Z := Z.of_nat (length (status_line r)) + 3 + count_headers (m_headers (rep r)) + 3.

Lemma status_line_read r s : response_wf r → rep_state s = RESPONSE_LINE →
  response_line (status_line r) s =
  Returns (mkResponse (set_version (m_version (rep r)) (rep s)) (m_status_msg r) (m_read s) (rep_buf s) (m_status_code r) HEADERS).
Proof.
  intros (_ & Hv & Hc & _) Hs. unfold response_line. rewrite Hs, bool_decide_eq_true_2 by done. unfold response_process, status_line. change (lit " ") with [" "%char]. cbn [app].
  rewrite find_char_stops by done. destruct (to_string_numeric (m_status_code r)) as [Hnum Hne]; [lia|].
  rewrite find_char_stops by (eapply Forall_impl; [exact Hnum|]; intros c Hc0; by destruct (numeric_not c Hc0)). unfold read_int. rewrite parse_number_to_string by lia.
  unfold in_int. rewrite (proj2 (Z.leb_le _ _)) by lia. rewrite (proj2 (Z.ltb_lt _ _)) by lia. done.
Qed.

(** A response that is written, read from any division of the stream. *)
Lemma response_read r cs rest : response_wf r → concat cs = response_raw r ++ rest → reply_count r + 3 * Z.of_nat (length cs) ≤ max_header_size →
  ∃ r', response_pieces cs new_response = Returns (Z.of_nat (length (response_raw r)), r') ∧ headers_ready r' = true ∧
   m_version (rep r') = m_version (rep r) ∧ m_status_code r' = m_status_code r ∧ m_status_msg r' = m_status_msg r ∧ m_headers (rep r') = m_headers (rep r).
Proof.
  intros Hwf Hcs Hmax.
  pose proof Hwf as (Hv & _ & Hc & Hmsg & Hho & Hcl & Hb). unfold reply_count in Hmax. pose proof (count_headers_nonneg (m_headers (rep r))) as Hnn.
  assert (Hline : one_line (status_line r)).
  { unfold status_line, one_line in *. destruct (to_string_numeric (m_status_code r)) as [Hnum _]; [lia|]. repeat (apply Forall_app; split); try done; [by repeat constructor| |by repeat constructor].
    eapply Forall_impl; [exact Hnum|]. intros c Hc0. by destruct (numeric_not c Hc0) as (_ & ? & _). }
  assert (Hraw : response_raw r ++ rest = status_line r ++ header_delimiter ++ raw_headers (rep r) ++ header_delimiter ++ rest).
  { unfold response_raw, status_line. rewrite Hb, app_nil_r. by rewrite <- !app_assoc. }
  destruct (length (status_line r)) as [|n] eqn:El.
  { exfalso. unfold status_line in El. rewrite !length_app in El. simpl in El. lia. }
  set (s2 := set_rep (mkParser (m_version (rep r)) (m_headers (rep r)) (reply_count r) [] 0 max_body_size unknown)
    (mkResponse new_parser (m_status_msg r) 0 (Some []) (m_status_code r) HEADERS)).
  assert (Hh : head_lines rep set_rep response_line ([] ++ concat cs) new_response (header_delimiter ++ rest) s2).
  { rewrite app_nil_l, Hcs, Hraw. set (t := raw_headers (rep r) ++ header_delimiter ++ rest).
    assert (Htake : take (S n) (status_line r ++ header_delimiter ++ t) = status_line r) by by rewrite <- El, take_app_length.
    set (s1 := mkResponse (set_version (m_version (rep r)) (rep (read_line rep set_rep (status_line r) new_response))) (m_status_msg r) 0 (Some []) (m_status_code r) HEADERS).
    eapply (head_line _ _ _ n (status_line r ++ header_delimiter ++ t) new_response s1); [rewrite find_line by done; by rewrite El|cbn [rep new_response new_parser m_header_bytes]; lia|rewrite Htake; by apply status_line_read|].
    replace (drop (S n + 2) (status_line r ++ header_delimiter ++ t)) with t by (rewrite <- El, drop_app_add; done).
    pose proof (headers_read _ _ _ _ response_header_laws (m_headers (rep r)) rest s1) as Hr. assert (Hh1 : m_headers (rep s1) = []) by done.
    rewrite Hh1, app_nil_l in Hr. assert (Hb1 : m_header_bytes (rep s1) = Z.of_nat (S n) + 3) by (unfold s1, read_line, put_count; cbn [rep set_rep m_header_bytes set_version set_header_bytes new_response new_parser]; rewrite El; lia).
    rewrite Hb1 in Hr. replace s2 with (with_headers rep set_rep (m_headers (rep r)) (Z.of_nat (S n) + 3 + count_headers (m_headers (rep r)) + 3) s1); [apply Hr; [done|done|lia]|].
    unfold with_headers, s2, reply_count, s1, read_line, put_count. rewrite El. done. }
  destruct (response_head_pieces cs [] new_response new_response 0 (header_delimiter ++ rest) s2 Hh) as (t' & Hp & Hready & H1 & H2 & H3 & H4 & _); [done|done|done|by left|done|done|done| |].
  { cbn [rep s2 set_rep m_header_bytes]. unfold reply_count. lia. }
  exists t'. rewrite Hp. split; [|by split_and!]. rewrite Hcs. f_equal. f_equal. rewrite !length_app. simpl. lia.
Qed.

(** ** Theorem *)

(** C32: A response without a body and without Content-Length, such as the answer to a handshake,
    that is written is read back by a client from any division of the stream into pieces whose
    number keeps the count of the reader, the bytes of the head and three for each line and for each
    piece, within 16000 (every read is charged three bytes: one cut smaller is refused); the bytes
    behind the headers, the first frames, are left. The response has a status from 0 to 999, one
    line fields, a version without blanks, and headers with token names and trimmed values in the
    order of the map. The reader never leaves its defined behaviour, whatever pieces it is given. *)
Theorem response_round_trip r cs rest any : response_wf r → concat cs = response_raw r ++ rest → reply_count r + 3 * Z.of_nat (length cs) ≤ max_header_size →
  (∃ r', response_pieces cs new_response = Returns (Z.of_nat (length (response_raw r)), r') ∧ headers_ready r' = true ∧
   m_version (rep r') = m_version (rep r) ∧ m_status_code r' = m_status_code r ∧ m_status_msg r' = m_status_msg r ∧ m_headers (rep r') = m_headers (rep r)) ∧
  match response_pieces any new_response with Stuck _ => False | _ => True end.
Proof.
  intros Hwf Hcs Hmax. split; [by apply (response_read r cs rest)|].
  { assert (H : ∀ r, response_ok r → match response_pieces any r with Stuck _ => False | _ => True end); [|apply H; by exists []].
    clear. induction any as [|c cs IH]; intros r Hr; [done|]. cbn [response_pieces]. destruct (response_consume_ok c r Hr) as [[x ->]|(n & r' & -> & Hr')]; [done|].
    cbn [mbind outcome_bind]. destruct (headers_ready r'); [done|]. specialize (IH r' Hr'). by destruct (response_pieces cs r') as [[m r'']| |]. }
Qed.
Definition sample_response : response :=
  mkResponse (mkParser (lit "HTTP/1.1") [(lit "Connection", lit "Upgrade"); (lit "Upgrade", lit "websocket")] 0 [] 0 max_body_size unknown) (lit "Switching Protocols") 0 None 101 DONE.
Lemma response_round_trip_witness :
  (∃ r', response_pieces [take 20 (response_raw sample_response); drop 20 (response_raw sample_response) ++ lit "frame"] new_response = Returns (Z.of_nat (length (response_raw sample_response)), r') ∧ headers_ready r' = true ∧
   m_version (rep r') = lit "HTTP/1.1" ∧ m_status_code r' = 101 ∧ m_status_msg r' = lit "Switching Protocols" ∧ m_headers (rep r') = m_headers (rep sample_response)) ∧
  match response_pieces [lit "x"] new_response with Stuck _ => False | _ => True end.
Proof.
  apply (response_round_trip sample_response _ (lit "frame")); [|done|done]. unfold response_wf, token, one_line, headers_ok, header_ok, sorted_keys, trimmed. split_and!; try done.
  all: try by repeat constructor.
Defined.
