(* ===== verification/Uri.v ===== *)
(** * URIs of websocket endpoints
    (src/websocketpp-master/websocketpp: uri.hpp, and get_uri_from_host of
    processors/processor.hpp)

    A URI is taken apart by a walk over its text, or made of its parts; it is written back,
    and a server makes it from the Host header of a request. *)

From S2P Require Import Prelude SortedKeys StdString HttpText HttpTextFacts HttpParser.

Open Scope Z_scope.

Definition uri_default_port : Z := 80.
Definition uri_default_secure_port : Z := 443.

(** The port of a URI that is not valid is not initialised; it is 0 here. *)
Record uri := mkUri {
  m_scheme : str;
  m_host : str;
  m_resource : str;
  m_port : Z;
  m_secure : bool;
  m_valid : bool;
}.

(** [atoi]: undefined when the number does not fit an [int]. *)
Definition atoi (s : str) : res Z :=
  match parse_number (c_str s) with
  | None => Ok 0
  | Some v => if in_int v then Ok v else Err SignedOverflow
  end.
Definition default_port (secure : bool) : Z := if secure then uri_default_secure_port else uri_default_port.
(** [get_port_from_string]: the port, and whether it is in range. *)
Definition get_port_from_string (secure : bool) (port : str) : res (Z * bool) :=
  if bool_decide (port = []) then mret (default_port secure, true)
  else
    v ← atoi port;
    let t_port := u32 v in
    mret (t_port mod 2 ^ 16, negb (65535 <? t_port) && negb (t_port =? 0)).

(** ** Taking a URI apart *)
Definition schemes : list (str * (nat * bool)) :=
  [(lit "wss", (7%nat, true)); (lit "ws", (6%nat, false)); (lit "http", (8%nat, false)); (lit "https", (9%nat, true))].
Fixpoint scheme_of (l : list (str * (nat * bool))) (s : str) : option (str * bool * str) :=
  match l with
  | [] => None
  | (name, (len, secure)) :: l =>
      if (len <=? length s)%nat && starts_with (name ++ lit "://") s
      then Some (name, secure, drop (length name + 3) s) else scheme_of l s
  end.

(** A host name up to a slash or a colon: the state (1 when a port follows, 2 otherwise),
    the name, and the iterator. *)
Fixpoint host_loop (it host : str) : Z * str * str :=
  match it with
  | [] => (2, host, it)
  | c :: it' =>
      if bool_decide (c = "/"%char) then (2, host, it')
      else if bool_decide (c = ":"%char) then (1, host, it')
      else host_loop it' (host ++ [c])
  end.
Fixpoint port_loop (it port : str) : str * str :=
  match it with
  | [] => (port, it)
  | c :: it' => if bool_decide (c = "/"%char) then (port, it') else port_loop it' (port ++ [c])
  end.
(** The part between brackets, or a name; [inl] when the brackets are not closed or
    something else follows them. *)
Definition read_host (it : str) : str + Z * str * str :=
  match it with
  | c :: rest =>
      if bool_decide (c = "["%char) then
        let '(digits, temp) := find_char "]"%char rest in
        match temp with
        | [] => inl []
        | [_] => inr (2, digits, [])
        | _ :: c :: it =>
            if bool_decide (c = "/"%char) then inr (2, digits, it)
            else if bool_decide (c = ":"%char) then inr (1, digits, it)
            else inl digits
        end
      else inr (host_loop it [])
  | [] => inr (host_loop it [])
  end.
Definition bad_uri (scheme host : str) (secure : bool) : uri := mkUri scheme host [] 0 secure false.
(** The constructor from a text. *)
Definition parse_uri (uri_string : str) : res uri :=
  match scheme_of schemes uri_string with
  | None => mret (bad_uri [] [] false)
  | Some (scheme, secure, it) =>
      match read_host it with
      | inl host => mret (bad_uri scheme host secure)
      | inr (state, host, it) =>
          let '(port, it) := if state =? 1 then port_loop it [] else ([], it) in
          '(p, ok) ← get_port_from_string secure port;
          mret (if ok : bool then mkUri scheme host (lit "/" ++ it) p secure true else mkUri scheme host [] p secure false)
      end
  end.

(** ** Making a URI of its parts *)
Definition resource_of (resource : str) : str := if bool_decide (resource = []) then lit "/" else resource.
Definition secure_scheme (scheme : str) : bool := bool_decide (scheme = lit "wss") || bool_decide (scheme = lit "https").
Definition ws_scheme (secure : bool) : str := if secure then lit "wss" else lit "ws".
(** [uri(secure, host, port, resource)], [uri(secure, host, resource)], and the one with a
    port that is a text; the same with a scheme. *)
Definition uri_secure_port (secure : bool) (host : str) (port : Z) (resource : str) : uri :=
  mkUri (ws_scheme secure) host (resource_of resource) port secure true.
Definition uri_secure (secure : bool) (host resource : str) : uri :=
  mkUri (ws_scheme secure) host (resource_of resource) (default_port secure) secure true.
Definition uri_secure_text (secure : bool) (host port resource : str) : res uri :=
  '(p, ok) ← get_port_from_string secure port; mret (mkUri (ws_scheme secure) host (resource_of resource) p secure ok).
Definition uri_port (scheme host : str) (port : Z) (resource : str) : uri :=
  mkUri scheme host (resource_of resource) port (secure_scheme scheme) true.
Definition uri_default (scheme host resource : str) : uri :=
  mkUri scheme host (resource_of resource) (default_port (secure_scheme scheme)) (secure_scheme scheme) true.
Definition uri_text (scheme host port resource : str) : res uri :=
  '(p, ok) ← get_port_from_string (secure_scheme scheme) port; mret (mkUri scheme host (resource_of resource) p (secure_scheme scheme) ok).

(** ** Writing *)
Definition port_suffix (u : uri) : str := if m_port u =? default_port (m_secure u) then [] else lit ":" ++ to_string (m_port u).
Definition get_host_port (u : uri) : str := m_host u ++ port_suffix u.
Definition get_authority (u : uri) : str := m_host u ++ lit ":" ++ to_string (m_port u).
Definition get_port_str (u : uri) : str := to_string (m_port u).
Definition uri_str (u : uri) : str := m_scheme u ++ lit "://" ++ m_host u ++ port_suffix u ++ m_resource u.
Definition get_query (u : uri) : str :=
  match find_char "?"%char (m_resource u) with (_, []) => [] | (_, _ :: q) => q end.

(** ** The URI of a request ([get_uri_from_host]) *)
Definition get_uri_from_host (r : request) (scheme : str) : res uri :=
  let h := get_header (lit "Host") (req r) in
  let last_colon := rfind_char ":"%char h in
  let last_sbrace := rfind_char "]"%char h in
  match last_colon with
  | None => mret (uri_default scheme h (m_uri r))
  | Some colon =>
      if match last_sbrace with Some b => (colon <? b)%nat | None => false end
      then mret (uri_default scheme h (m_uri r))
      else
        host ← substr h 0 (Z.of_nat colon);
        port ← substr_from h (S colon);
        uri_text scheme host port (m_uri r)
  end.

(** ** Facts *)
Definition scheme_ok (scheme : str) (secure : bool) : Prop :=
  (scheme = lit "wss" ∧ secure = true) ∨ (scheme = lit "ws" ∧ secure = false) ∨ (scheme = lit "http" ∧ secure = false) ∨ (scheme = lit "https" ∧ secure = true).
(** A host name, and a URI that can be written. *)
Definition host_ok (h : str) : Prop := Forall (λ c, c ≠ "/"%char ∧ c ≠ ":"%char) h ∧ head h ≠ Some "["%char.
Definition uri_wf (u : uri) : Prop :=
  scheme_ok (m_scheme u) (m_secure u) ∧ host_ok (m_host u) ∧ 0 < m_port u < 65536 ∧ (∃ r, m_resource u = "/"%char :: r) ∧ m_valid u = true.

Lemma scheme_ok_secure s b : scheme_ok s b → secure_scheme s = b.
Proof. by intros [[-> ->]|[[-> ->]|[[-> ->]|[-> ->]]]]. Qed.
Lemma scheme_of_str s b t : scheme_ok s b → t ≠ [] → scheme_of schemes (s ++ lit "://" ++ t) = Some (s, b, t).
Proof.
  intros Hs Ht. destruct t as [|c t]; [done|].
  destruct Hs as [[-> ->]|[[-> ->]|[[-> ->]|[-> ->]]]]; cbn [scheme_of schemes]; by rewrite ?(andb_comm (_ <=? _)%nat).
Qed.
Lemma host_loop_slash h acc t : Forall (λ c, c ≠ "/"%char ∧ c ≠ ":"%char) h → host_loop (h ++ "/"%char :: t) acc = (2, acc ++ h, t).
Proof.
  intros Hh. revert acc. induction Hh as [|c h [H1 H2] _ IH]; intros acc; simpl; [by rewrite app_nil_r|].
  rewrite !bool_decide_eq_false_2 by done. rewrite IH. by rewrite <- app_assoc.
Qed.
Lemma host_loop_colon h acc t : Forall (λ c, c ≠ "/"%char ∧ c ≠ ":"%char) h → host_loop (h ++ ":"%char :: t) acc = (1, acc ++ h, t).
Proof.
  intros Hh. revert acc. induction Hh as [|c h [H1 H2] _ IH]; intros acc; simpl; [by rewrite app_nil_r|].
  rewrite !bool_decide_eq_false_2 by done. rewrite IH. by rewrite <- app_assoc.
Qed.
Lemma port_loop_slash p acc t : Forall (λ c, c ≠ "/"%char) p → port_loop (p ++ "/"%char :: t) acc = (acc ++ p, t).
Proof.
  intros Hp. revert acc. induction Hp as [|c p H1 _ IH]; intros acc; simpl; [by rewrite app_nil_r|].
  rewrite bool_decide_eq_false_2 by done. rewrite IH. by rewrite <- app_assoc.
Qed.
Lemma digit_not c d : numeric c → numeric d = False → c ≠ d.
Proof. intros Hc Hd ->. by rewrite Hd in Hc. Qed.
Lemma port_text p : 0 < p < 65536 → to_string p ≠ [] ∧ Forall (λ c, c ≠ "/"%char ∧ c ≠ ":"%char ∧ c ≠ "000"%char ∧ c ≠ "]"%char) (to_string p).
Proof.
  intros Hp. destruct (to_string_numeric p) as [Hn Hne]; [lia|]. split; [done|]. eapply Forall_impl; [exact Hn|].
  intros c [[v Hv]| ->]; [|done]. split_and!; intros ->; by vm_compute in Hv.
Qed.
Lemma get_port_spec secure p : 0 < p < 65536 → get_port_from_string secure (to_string p) = Ok (p, true).
Proof.
  intros Hp. destruct (port_text p Hp) as [Hne Hf]. unfold get_port_from_string. rewrite (bool_decide_eq_false_2 _ Hne). unfold atoi.
  assert (c_str (to_string p) = to_string p) as ->.
  { clear Hne. induction Hf as [|c s (_ & _ & Hc & _) _ IH]; [done|]. cbn [c_str]. by rewrite decide_False, IH. }
  rewrite parse_number_to_string by lia. unfold in_int. rewrite (proj2 (Z.leb_le _ _)), (proj2 (Z.ltb_lt _ _)) by lia. cbn [andb mbind res_bind mret res_ret].
  unfold u32. rewrite (Z.mod_small p (2 ^ 32)) by lia. rewrite (Z.mod_small p) by lia. rewrite (proj2 (Z.ltb_ge _ _)) by lia. by rewrite (proj2 (Z.eqb_neq _ _)) by lia.
Qed.
(** The port part of a URI that is written. *)
Lemma port_suffix_cases u : 0 < m_port u < 65536 →
  port_suffix u = [] ∧ m_port u = default_port (m_secure u) ∨ port_suffix u = lit ":" ++ to_string (m_port u).
Proof. intros Hp. unfold port_suffix. destruct (_ =? _) eqn:E; [left; split; [done|lia]|by right]. Qed.

Lemma uri_str_parses u : uri_wf u → parse_uri (uri_str u) = Ok u.
Proof.
  intros (Hs & [Hh Hh0] & Hp & [r Hr] & Hv). destruct u as [scheme host resource port secure valid]. simpl in *. subst resource valid.
  unfold parse_uri, uri_str. cbn [m_scheme m_host m_resource]. rewrite (scheme_of_str scheme secure); [|done|by destruct host, (port_suffix _)].
  assert (Hread : ∀ t, t ≠ [] → head t ≠ Some "["%char → read_host (host ++ t) = inr (host_loop (host ++ t) [])).
  { intros t Ht Ht0. unfold read_host. destruct host as [|c h]; simpl.
    - destruct t as [|c t]; [done|]. rewrite bool_decide_eq_false_2; [done|]. intros ->. by apply Ht0.
    - rewrite bool_decide_eq_false_2; [done|]. intros ->. by apply Hh0. }
  destruct (port_suffix_cases (mkUri scheme host ("/"%char :: r) port secure true) Hp) as [[-> Hd] | ->]; simpl in *.
  - rewrite Hread by done. rewrite host_loop_slash by done. simpl. unfold get_port_from_string. simpl. by rewrite Hd.
  - rewrite Hread by done. rewrite host_loop_colon by done. cbn [Z.eqb Pos.eqb]. destruct (port_text port Hp) as [_ Hf].
    rewrite port_loop_slash by (eapply Forall_impl; [exact Hf|]; by intros ? (? & _)). simpl. by rewrite get_port_spec.
Qed.

(** The URI that a server makes from the Host header a client wrote. *)
Lemma uri_from_host u r : uri_wf u → Forall (λ c, c ≠ "]"%char) (m_host u) → get_header (lit "Host") (req r) = get_host_port u → m_uri r = m_resource u →
  get_uri_from_host r (m_scheme u) = Ok u.
Proof.
  intros (Hs & [Hh _] & Hp & [t Hr] & Hv) Hbr Hhost Huri. unfold get_uri_from_host. rewrite Hhost, Huri. clear Hhost Huri.
  destruct u as [scheme host resource port secure valid]. simpl in *. subst resource valid. unfold get_host_port. simpl.
  assert (Hnone : ∀ c l, Forall (λ x, x ≠ c) l → rfind_char c l = None).
  { intros c l. induction 1 as [|x l Hx _ IH]; [done|]. simpl. by rewrite IH, decide_False. }
  assert (Hcolon : Forall (λ x, x ≠ ":"%char) host) by (eapply Forall_impl; [exact Hh|]; by intros ? (_ & ?)).
  pose proof (scheme_ok_secure _ _ Hs) as Hsec.
  destruct (port_suffix_cases (mkUri scheme host ("/"%char :: t) port secure true) Hp) as [[-> Hd] | ->]; simpl in *.
  - rewrite app_nil_r, Hnone by done. unfold uri_default. by rewrite Hsec, <- Hd.
  - destruct (port_text port Hp) as [_ Hf]. rewrite rfind_char_after by (eapply Forall_impl; [exact Hf|]; by intros ? (_ & ? & _)).
    rewrite (Hnone "]"%char). 2: { apply Forall_app. split; [done|]. constructor; [done|]. eapply Forall_impl; [exact Hf|]. by intros ? (_ & _ & _ & ?). }
    unfold substr, substr_from. change (0 <=? _)%nat with true. rewrite (proj2 (Z.ltb_ge _ _)) by lia. rewrite drop_0, Nat2Z.id, take_app_length. cbn [mbind res_bind].
    rewrite length_app, (proj2 (Nat.leb_le _ _)) by (simpl; lia). cbn [mbind res_bind].
    replace (S (length host)) with (length host + 1)%nat by lia. rewrite drop_app_add. cbn [drop mbind res_bind]. rewrite drop_0. unfold uri_text. rewrite Hsec, get_port_spec by done. done.
Qed.

(** ** Theorem *)

(** C33: A URI that is written parses to itself, and the Host header a client derives from it gives
    the server the same URI, for a scheme ws, wss, http or https with its secure flag, a port from 1
    to 65535, a resource that starts with a slash, and a host that is not an IPv6 address (no slash
    and no colon in it, no bracket first; for the Host header no closing bracket either). An IPv6
    host is parsed without its brackets and written without them, and does not come back
    ([ipv6_not_kept]). *)
Theorem uri_round_trip u r : uri_wf u →
  parse_uri (uri_str u) = Ok u ∧
  (Forall (λ c, c ≠ "]"%char) (m_host u) → get_header (lit "Host") (req r) = get_host_port u → m_uri r = m_resource u → get_uri_from_host r (m_scheme u) = Ok u).
Proof. intros Hu. split; [by apply uri_str_parses|]. intros. by apply uri_from_host. Qed.
Lemma uri_round_trip_witness :
  let u := mkUri (lit "wss") (lit "a.example") (lit "/chat?x=1") 9001 true true in
  let r := mkRequest (mkParser (lit "HTTP/1.1") [(lit "host", lit "a.example:9001")] 0 [] 0 0 unknown) None (lit "GET") (lit "/chat?x=1") true in
  parse_uri (lit "wss://a.example:9001/chat?x=1") = Ok u ∧
  (Forall (λ c, c ≠ "]"%char) (m_host u) → get_header (lit "Host") (req r) = get_host_port u → m_uri r = m_resource u → get_uri_from_host r (m_scheme u) = Ok u).
Proof.
  apply (uri_round_trip (mkUri (lit "wss") (lit "a.example") (lit "/chat?x=1") 9001 true true)).
  unfold uri_wf, host_ok, scheme_ok. simpl. split_and!; [by left|repeat constructor; done|done|lia|lia|by eexists|done].
Defined.

(** The brackets of an IPv6 host are dropped when the URI is read and not written again: the
    text does not parse to the same host. *)
Lemma ipv6_not_kept : ∃ u v, parse_uri (lit "ws://[::1]/") = Ok u ∧ m_valid u = true ∧ m_host u = lit "::1" ∧
  uri_str u = lit "ws://::1/" ∧ parse_uri (uri_str u) = Ok v ∧ m_valid v = false.
Proof. eexists _, _. split; [vm_compute; reflexivity|]. split; [done|]. split; [done|]. split; [vm_compute; reflexivity|]. split; [vm_compute; reflexivity|done]. Qed.
