(* ===== verification/WsHandshake.v ===== *)
(** * The websocket opening handshake
    (src/websocketpp-master/websocketpp: processors/processor.hpp, and the handshake
    functions of processors/hybi13.hpp)

    The client writes an http request with a random key, the server answers with a digest
    of that key; both then read frames.  Texts of http are lists of characters, keys and
    digests are bytes. *)

From S2P Require Import Prelude Bytes StdString Base64 Sha1 SortedKeys HttpText HttpParser Uri WsFrame Utf8 WsProcessor.

Open Scope Z_scope.

Definition bytes_of (s : str) : list Z := code <$> s.
Definition text_of (l : list Z) : str := (λ b, ascii_of_nat (Z.to_nat b)) <$> l.

(** ** Constants (processors/base.hpp) *)
Definition upgrade_token : str := lit "websocket".
Definition connection_token : str := lit "Upgrade".
Definition handshake_guid : str := lit "258EAFA5-E914-47DA-95CA-C5AB0DC85B11".

(** ** Is it a handshake? *)
Definition has_token (header token : str) : bool := negb (bool_decide (ci_find_substr header token = [])).
Definition is_websocket_handshake (r : request) : bool :=
  has_token (get_header (lit "Upgrade") (req r)) upgrade_token && has_token (get_header (lit "Connection") (req r)) connection_token.
Definition get_websocket_version (r : request) : Z :=
  if negb (m_ready r) then -2
  else
    let v := get_header (lit "Sec-WebSocket-Version") (req r) in
    if bool_decide (v = []) then 0 else default (-1) (read_int v).

(** The handshake part of the permessage-deflate extension. *)
Class Extension `{Deflate} := {
  is_implemented : bool;
  negotiate : deflate_state → attribute_list → res (deflate_state * (option error_code * str));
  init : deflate_state → bool → deflate_state * option error_code;
  generate_offer : deflate_state → str;
}.
(** extensions/permessage_deflate/disabled.hpp *)
Definition no_extension : @Extension disabled := {|
  is_implemented := false;
  negotiate := λ d _, mret (d, (Some extension_disabled, []));
  init := λ d _, (d, None);
  generate_offer := λ _, [];
|}.

Section Handshake.
Context `{Machine} `{Extension}.
Variable enable_extensions : bool.    (** of the configuration *)
Variable rng : nat → Z.               (** the values of the random generator *)
Variable w0 : list Z.                 (** the words of an array that is not initialised *)

(** ** Extensions *)
Fixpoint negotiate_loop (p : parameter_list) (s : hybi13) : res (option error_code * str * hybi13) :=
  match p with
  | [] => mret (None, [], s)
  | (name, attributes) :: p =>
      if negb (bool_decide (name = lit "permessage-deflate")) then negotiate_loop p s
      else if is_enabled (m_permessage_deflate s) then negotiate_loop p s
      else
        '(d, (ec, answer)) ← negotiate (m_permessage_deflate s) attributes;
        let s := set_deflate d s in
        match ec with
        | Some _ => negotiate_loop p s
        | None =>
            let '(d, ec) := init (m_permessage_deflate s) (m_server s) in
            let s := set_deflate d s in
            mret match ec with Some ec => (Some ec, [], s) | None => (None, answer, s) end
        end
  end.
Definition negotiate_extensions (header : parser) (s : hybi13) : res (option error_code * str * hybi13) :=
  if negb enable_extensions then mret (make_error_code extensions_disabled, [], s)
  else
    '(error, p) ← get_header_as_plist (lit "Sec-WebSocket-Extensions") header [];
    if (error : bool) then mret (make_error_code extension_parse_error, [], s)
    else if is_implemented then negotiate_loop p s else mret (None, [], s).

(** ** The server's side *)
Definition validate_handshake (r : request) : option error_code :=
  if negb (bool_decide (m_method r = lit "GET")) then make_error_code invalid_http_method
  else if negb (bool_decide (m_version (req r) = lit "HTTP/1.1")) then make_error_code invalid_http_version
  else if bool_decide (get_header (lit "Sec-WebSocket-Key") (req r) = []) then make_error_code missing_required_header
  else None.

Definition process_handshake_key (key : str) : res str :=
  message_digest ← calc w0 (bytes_of (key ++ handshake_guid));
  encoded ← base64_encode message_digest;
  mret (text_of encoded).

Definition set_rep_parser (f : parser → parser) (r : response) : response := set_rep (f (rep r)) r.
Definition process_handshake (r : request) (subprotocol : str) (a : response) : outcome response :=
  server_key ← lift (process_handshake_key (get_header (lit "Sec-WebSocket-Key") (req r)));
  let p := replace_header (lit "Sec-WebSocket-Accept") server_key (rep a) in
  p ← append_header (lit "Upgrade") upgrade_token p;
  p ← append_header (lit "Connection") connection_token p;
  let p := if bool_decide (subprotocol = []) then p else replace_header (lit "Sec-WebSocket-Protocol") subprotocol p in
  mret (set_rep p a).

Definition get_origin (r : request) : str := get_header (lit "Origin") (req r).
(** The subprotocols a client asks for, appended to the list. *)
Definition extract_subprotocols (r : request) (subprotocol_list : list str) : res (option error_code * list str) :=
  if bool_decide (get_header (lit "Sec-WebSocket-Protocol") (req r) = []) then mret (None, subprotocol_list)
  else
    '(error, p) ← get_header_as_plist (lit "Sec-WebSocket-Protocol") (req r) [];
    mret (if (error : bool) then (make_error_code subprotocol_parse_error, subprotocol_list)
          else (None, subprotocol_list ++ (fst <$> p))).
Definition get_uri (secure : bool) (r : request) : res uri := get_uri_from_host r (ws_scheme secure).

(** ** The client's side *)
Fixpoint join_comma (l : list str) : str :=
  match l with [] => [] | [s] => s | s :: l => s ++ lit ", " ++ join_comma l end.
(** Sixteen random bytes, from the generator's position on. *)
Definition raw_key (n : nat) : list Z := concat ((λ i, host_bytes 4 (rng i)) <$> seq n 4).
Definition client_handshake_request (u : uri) (subprotocols : list str) (s : hybi13) (r : request) : outcome (request * hybi13) :=
  r ← set_method (lit "GET") r;
  let r := set_uri (m_resource u) r in
  let p := set_version (lit "HTTP/1.1") (req r) in
  p ← append_header (lit "Upgrade") (lit "websocket") p;
  p ← append_header (lit "Connection") (lit "Upgrade") p;
  let p := replace_header (lit "Sec-WebSocket-Version") (lit "13") p in
  let p := replace_header (lit "Host") (get_host_port u) p in
  let p := if bool_decide (subprotocols = []) then p else replace_header (lit "Sec-WebSocket-Protocol") (join_comma subprotocols) p in
  key ← lift (base64_encode (raw_key (m_rng s)));
  let s := set_rng (m_rng s + 4) s in
  let p := replace_header (lit "Sec-WebSocket-Key") (text_of key) p in
  let offer := generate_offer (m_permessage_deflate s) in
  let p := if is_implemented && negb (bool_decide (offer = [])) then replace_header (lit "Sec-WebSocket-Extensions") offer p else p in
  mret (set_req p r, s).

Definition validate_server_handshake_response (r : request) (a : response) : res (option error_code) :=
  if negb (m_status_code a =? status_code.switching_protocols) then mret (make_error_code invalid_http_status)
  else if negb (has_token (get_header (lit "Upgrade") (rep a)) upgrade_token) then mret (make_error_code missing_required_header)
  else if negb (has_token (get_header (lit "Connection") (rep a)) connection_token) then mret (make_error_code missing_required_header)
  else
    key ← process_handshake_key (get_header (lit "Sec-WebSocket-Key") (req r));
    mret (if bool_decide (key = get_header (lit "Sec-WebSocket-Accept") (rep a)) then None else make_error_code missing_required_header).
End Handshake.

(** The example of RFC 6455, section 1.3. *)
Example rfc_key : process_handshake_key (replicate 80 0) (lit "dGhlIHNhbXBsZSBub25jZQ==") = Ok (lit "s3pPLMBiTxaQ9kYGzzhZRbK+xOo=").
Proof. vm_compute. reflexivity. Qed.
