(* ===== verification/WsHandshakeFacts.v ===== *)
(** * The opening handshake, from the client's request to the server's answer

    The two sides of [WsHandshake] joined by streams cut into any pieces: what each side
    finds in the message of the other, and that the answer proves knowledge of the key. *)

From S2P Require Import Prelude Bytes StdString Base64 Sha1 SortedKeys HttpText HttpTextFacts HttpParser HttpStream HttpReply Uri WsFrame Utf8 WsProcessor WsHandshake.

Open Scope Z_scope.

(** ** Texts and bytes *)
Lemma bytes_of_ok s : bytes_ok (bytes_of s).
Proof.
  apply Forall_fmap, Forall_true. intros c. unfold byte_ok, code. cbn. pose proof (nat_ascii_bounded c). lia.
Qed.
(** Characters that are neither white space nor a carriage return. *)
Definition visible (s : str) : Prop := Forall (λ c, is_whitespace_char c = false ∧ c ≠ "013"%char) s.
Lemma visible_trimmed s : visible s → trimmed s ∧ one_line s.
Proof.
  intros Hs. split; [|eapply Forall_impl; [exact Hs|]; by intros c [_ ?]].
  assert (Hr : visible (rev s)) by by apply Forall_rev. split; [destruct Hs as [|c s [? ?] _]|destruct Hr as [|c l [? ?] _]]; done.
Qed.
Lemma encoding_visible l : Forall text_code l → visible (text_of l).
Proof.
  intros Hl. apply Forall_fmap. eapply Forall_impl; [exact Hl|]. intros c Hc. cbn.
  assert (Hx : 0 ≤ c < 256 ∧ text_code c) by (split; [|done]; destruct Hc as [Hc| ->]; [unfold is_base64 in Hc; lia|done]). clear Hl Hc. destruct Hx as [Hr Hc].
  pose proof (below_check 256 (λ c, negb (is_base64 c || (c =? pad)) || negb (is_whitespace_char (ascii_of_nat (Z.to_nat c))) && negb (bool_decide (ascii_of_nat (Z.to_nat c) = "013"%char))) ltac:(by vm_compute) c Hr) as Hk.
  cbv beta in Hk. assert (is_base64 c || (c =? pad) = true) as Eb by (destruct Hc as [-> | ->]; [done|apply orb_true_r]). rewrite Eb in Hk. cbn [negb orb] in Hk.
  apply andb_prop in Hk as [Hw%negb_true_iff Hcr%negb_true_iff]. split; [done|]. by apply bool_decide_eq_false in Hcr.
Qed.

(** ** The answer to a key *)
Definition accept_of (key : str) : str :=
  match base64_encode (sha1_spec (bytes_of key ++ bytes_of (lit "258EAFA5-E914-47DA-95CA-C5AB0DC85B11"))) with Ok l => text_of l | Err _ => [] end.
Lemma accept_visible key : visible (accept_of key).
Proof.
  unfold accept_of. destruct (encode_spec (sha1_spec (bytes_of key ++ bytes_of (lit "258EAFA5-E914-47DA-95CA-C5AB0DC85B11")))) as (l & -> & _ & Hl & _); [apply sha1_spec_bytes|].
  by apply encoding_visible.
Qed.
Lemma process_key_spec w0 key : length w0 = 80%nat → Z.of_nat (length key) < 2 ^ 29 - 36 → process_handshake_key w0 key = Ok (accept_of key).
Proof.
  intros Hw Hk. unfold process_handshake_key, accept_of. rewrite calc_spec; [|apply bytes_of_ok|done|].
  - cbn [mbind res_bind]. unfold bytes_of, handshake_guid. rewrite fmap_app.
    destruct (encode_spec (sha1_spec ((code <$> key) ++ (code <$> lit "258EAFA5-E914-47DA-95CA-C5AB0DC85B11")))) as (l & -> & _); [apply sha1_spec_bytes|]. done.
  - unfold bytes_of. rewrite length_fmap, length_app. change (length handshake_guid) with 36%nat. lia.
Qed.

(** ** The client's request *)
Definition client_key `{Machine} (rng : nat → Z) (n : nat) : str :=
  match base64_encode (raw_key rng n) with Ok l => text_of l | Err _ => [] end.
Lemma raw_key_ok `{Machine} rng n : bytes_ok (raw_key rng n) ∧ length (raw_key rng n) = 16%nat.
Proof.
  unfold raw_key. cbn [seq fmap list_fmap concat]. rewrite app_nil_r. split.
  - unfold bytes_ok. rewrite !Forall_app. split_and!; apply host_bytes_ok.
  - by rewrite !length_app, !host_bytes_length.
Qed.
Lemma client_key_spec `{Machine} rng n : base64_encode (raw_key rng n) = Ok (bytes_of (client_key rng n)) ∧ text_of (bytes_of (client_key rng n)) = client_key rng n ∧
  visible (client_key rng n) ∧ client_key rng n ≠ [] ∧ Z.of_nat (length (client_key rng n)) < 2 ^ 29 - 36.
Proof.
  destruct (raw_key_ok rng n) as [Hb Hl]. unfold client_key. set (raw := raw_key rng n) in *. clearbody raw.
  destruct (encode_spec raw Hb) as (l & E0 & Hlen & Ht & Hd). rewrite E0. clear E0.
  assert (Hbt : bytes_of (text_of l) = l).
  { unfold bytes_of, text_of. rewrite <- list_fmap_compose. rewrite <- (list_fmap_id l) at 2. apply list_fmap_ext. intros i c Hc. cbn.
    rewrite Forall_lookup in Ht. specialize (Ht i c Hc). assert (0 ≤ c < 256) by (destruct Ht as [Hx| ->]; [unfold is_base64 in Hx; lia|done]).
    unfold code. rewrite nat_ascii_embedding by lia. lia. }
  rewrite Hbt. split_and!; [done|done|by apply encoding_visible| |].
  - intros E. apply (f_equal bytes_of) in E. rewrite Hbt in E. rewrite E in Hd. cbn in Hd. by rewrite <- Hd in Hl.
  - unfold text_of. rewrite length_fmap. lia.
Qed.

Definition sub_headers (subs : list str) : header_list :=
  if bool_decide (subs = []) then [] else [(lit "Sec-WebSocket-Protocol", join_comma subs)].
Definition client_headers (u : uri) (subs : list str) (key : str) : header_list :=
  [(lit "Connection", lit "Upgrade"); (lit "Host", get_host_port u); (lit "Sec-WebSocket-Key", key)] ++ sub_headers subs ++
  [(lit "Sec-WebSocket-Version", lit "13"); (lit "Upgrade", lit "websocket")].
Definition client_request (u : uri) (subs : list str) (key : str) : request :=
  mkRequest (mkParser (lit "HTTP/1.1") (client_headers u subs key) 0 [] 0 max_body_size unknown) (Some []) (lit "GET") (m_resource u) false.

Lemma client_request_made `{Machine} `{Extension} rng u subs s : is_implemented = false →
  client_handshake_request rng u subs s new_request = Returns (client_request u subs (client_key rng (m_rng s)), set_rng (m_rng s + 4) s).
Proof.
  intros Hi. unfold client_handshake_request. destruct (client_key_spec rng (m_rng s)) as (E & Ht & _). rewrite E, Hi.
  set (key := client_key rng (m_rng s)) in *. clearbody key. unfold client_request, client_headers, sub_headers.
  generalize (get_host_port u) (m_resource u). intros host res. clear E. cbn [lift andb].
  destruct (bool_decide (subs = [])); cbn; rewrite Ht; reflexivity.
Qed.

(** What a client may be given: a URI that can be written, whose host and resource are
    plain, and subprotocols that are tokens. *)
Record client_input (u : uri) (subs : list str) : Prop := {
  input_uri : uri_wf u;
  input_scheme : m_scheme u = ws_scheme (m_secure u);
  input_host : m_host u ≠ [] ∧ visible (m_host u) ∧ Forall (λ c, c ≠ "]"%char) (m_host u);
  input_resource : one_line (m_resource u) ∧ Forall (λ c, c ≠ " "%char) (m_resource u);
  input_subs : Forall (λ s, token s ∧ s ≠ []) subs;
}.
Lemma join_parameters subs : join_comma subs = show_parameters ((λ s, (s, [])) <$> subs).
Proof.
  induction subs as [|s [|s2 subs] IH]; [done|by cbn; unfold show_parameter; rewrite app_nil_r|].
  change (join_comma (s :: s2 :: subs)) with (s ++ lit ", " ++ join_comma (s2 :: subs)). rewrite IH.
  assert (E : show_parameter (s, []) = s) by (unfold show_parameter; cbn; by rewrite app_nil_r). rewrite <- E at 1. done.
Qed.
Lemma join_ok subs : Forall (λ s, token s ∧ s ≠ []) subs → subs ≠ [] → join_comma subs ≠ [] ∧ trimmed (join_comma subs) ∧ one_line (join_comma subs).
Proof.
  intros Hs Hn. assert (H : join_comma subs ≠ [] ∧ (∃ s t, join_comma subs = s ++ t ∧ token s ∧ s ≠ []) ∧ (∃ s t, join_comma subs = t ++ s ∧ token s ∧ s ≠ []) ∧ one_line (join_comma subs)).
  { induction Hs as [|s subs [Ht Hne] Hs IH]; [done|]. destruct subs as [|s2 subs].
    - cbn. split_and!; [done|exists s, []; by rewrite app_nil_r|by exists s, []|by apply token_one_line].
    - destruct IH as (H1 & _ & (l & t & E & Hl & Hln) & H3); [done|]. change (join_comma (s :: s2 :: subs)) with (s ++ lit ", " ++ join_comma (s2 :: subs)).
      split_and!; [by destruct s|by exists s, (lit ", " ++ join_comma (s2 :: subs))|exists l, (s ++ lit ", " ++ t); by rewrite E, !app_assoc|].
      apply Forall_app. split; [by apply token_one_line|]. apply Forall_app. split; [by repeat constructor|done]. }
  destruct H as (H1 & (s & t & E1 & Hs1 & Hn1) & (l & t2 & E2 & Hl & Hln) & H4). split_and!; [done| |done]. split.
  - rewrite E1. destruct Hs1 as [|c s Hc _]; [done|]. cbn. by apply token_char in Hc as (? & ? & _).
  - rewrite E2, rev_app_distr. assert (Hr : token (rev l)) by by apply Forall_rev. destruct (rev l) as [|c l'] eqn:El; [by rewrite <- (rev_involutive l), El in Hln|].
    cbn. apply Forall_cons in Hr as [Hc _]. by apply token_char in Hc as (? & ? & _).
Qed.
Lemma host_port_ok u subs : client_input u subs → get_host_port u ≠ [] ∧ visible (get_host_port u).
Proof.
  intros [(_ & _ & Hp & _) _ (Hn & Hv & _) _ _]. unfold get_host_port. split; [by destruct (m_host u)|]. apply Forall_app. split; [done|].
  destruct (port_suffix_cases u Hp) as [[-> _] | ->]; [by apply Forall_nil|]. apply Forall_app. split; [by repeat constructor|].
  destruct (to_string_numeric (m_port u)) as [Hnum _]; [lia|]. eapply Forall_impl; [exact Hnum|]. intros c [[v Hc]| ->]; [|done].
  split; [|intros ->; by vm_compute in Hc]. destruct (is_whitespace_char c) eqn:E; [|done]. exfalso. clear -Hc E. destruct c as [[] [] [] [] [] [] [] []]; vm_compute in Hc, E; done.
Qed.

Lemma client_header_ok u subs key : client_input u subs → visible key → headers_ok (client_headers u subs key).
Proof.
  intros Hi Hk. destruct (host_port_ok u subs Hi) as [_ Hh]. apply visible_trimmed in Hh, Hk. unfold headers_ok, client_headers, sub_headers.
  assert (Hc : ∀ n v, bool_decide (token n) = true → n ≠ [] → trimmed v → one_line v → header_ok (n, v)).
  { intros n v Hn%bool_decide_eq_true ? ? ?. split; [done|]. split; [done|]. by split. }
  assert (Hl : ∀ v, bool_decide (token v) = true → trimmed v ∧ one_line v).
  { intros v Hv%bool_decide_eq_true. by split; [apply token_trimmed|apply token_one_line]. }
  case_bool_decide as Es; cbn [app]; (split; [repeat (apply Forall_cons; split); try apply Forall_nil; try done; apply Hc; try done; try (apply Hh || apply Hk || by apply Hl)|unfold sorted_keys; repeat constructor]).
  all: by apply join_ok; [apply Hi|].
Qed.
Lemma client_request_wf u subs key : client_input u subs → visible key → key ≠ [] → request_wf (client_request u subs key).
Proof.
  intros Hi Hk Hn. pose proof (client_header_ok u subs key Hi Hk) as Hh. destruct (host_port_ok u subs Hi) as [Hhn _]. destruct Hi as [_ _ _ [Hr1 Hr2] _].
  assert (Hc : ∀ r, get_header (lit "Host") (req (client_request u subs key)) = r → r = get_host_port u) by (intros r <-; unfold client_request, client_headers, sub_headers; by destruct (bool_decide (subs = []))).
  assert (Hv : ∀ s, bool_decide (token s) = true → token s ∧ one_line s) by (intros s Hs%bool_decide_eq_true; by split; [|apply token_one_line]).
  unfold request_wf. split_and!; [by apply Hv|done|done|done|by repeat constructor|done|by rewrite (Hc _ eq_refl)|left].
  split; [|done]. clear. unfold client_request, client_headers, sub_headers. by destruct (bool_decide (subs = [])).
Qed.

(** ** What the server finds *)
Section Server.
Context `{Machine} `{Extension} (w0 : list Z) (Hw0 : length w0 = 80%nat).

Definition received (r r' : request) : Prop :=
  m_ready r' = true ∧ m_method r' = m_method r ∧ m_uri r' = m_uri r ∧ m_version (req r') = m_version (req r) ∧ m_headers (req r') = m_headers (req r).
Lemma server_accepts u subs key r : client_input u subs → key ≠ [] → received (client_request u subs key) r →
  is_websocket_handshake r = true ∧ get_websocket_version r = 13 ∧ validate_handshake r = None ∧ get_header (lit "Sec-WebSocket-Key") (req r) = key ∧
  get_uri (m_secure u) r = Ok u ∧ extract_subprotocols r [] = Ok (None, subs).
Proof.
  intros Hi Hk (Hready & Hm & Hu & Hv & Hh). destruct (host_port_ok u subs Hi) as [Hhn _]. destruct Hi as [Huri Hscheme (_ & _ & Hbr) _ Hsubs].
  assert (Hget : ∀ n, get_header n (req r) = default [] (map_find ci_name n (client_headers u subs key))) by (intros n; unfold get_header; by rewrite Hh).
  assert (Hkey : get_header (lit "Sec-WebSocket-Key") (req r) = key) by (rewrite Hget; unfold client_headers, sub_headers; by destruct (bool_decide (subs = []))).
  split_and!; try done.
  - unfold is_websocket_handshake. rewrite !Hget. unfold client_headers, sub_headers. destruct (bool_decide (subs = [])); by vm_compute.
  - unfold get_websocket_version. rewrite Hready, Hget. unfold client_headers, sub_headers. destruct (bool_decide (subs = [])); by vm_compute.
  - unfold validate_handshake. rewrite Hkey, Hm, Hv, (bool_decide_eq_false_2 _ Hk). done.
  - unfold get_uri. rewrite <- Hscheme. apply uri_from_host; [done|done| |done]. rewrite Hget. unfold client_headers, sub_headers. by destruct (bool_decide (subs = [])).
  - unfold extract_subprotocols. destruct (decide (subs = [])) as [->|Hne].
    + by rewrite Hget.
    + destruct (join_ok subs Hsubs Hne) as (Hj & _).
      assert (Hf : map_find ci_name (lit "Sec-WebSocket-Protocol") (m_headers (req r)) = Some (join_comma subs)) by (rewrite Hh; unfold client_request, client_headers, sub_headers; by rewrite bool_decide_eq_false_2).
      unfold get_header, get_header_as_plist. rewrite Hf. cbn [default]. unfold id. rewrite (bool_decide_eq_false_2 _ Hj). rewrite join_parameters, parameters_parse.
      * cbn [mbind res_bind mret res_ret app]. rewrite <- list_fmap_compose. do 3 f_equal. apply list_fmap_id.
      * apply Forall_fmap. eapply Forall_impl; [exact Hsubs|]. intros s [? ?]. unfold parameter_ok. cbn. split_and!; [done|done|by apply Forall_nil|constructor].
Qed.

(** The answer as the connection writes it: the status, the version and the server's name
    are set behind the processor. *)
Definition finish_answer (server : str) (a : response) : response :=
  set_status status_code.switching_protocols (set_rep_parser (λ p, set_version (lit "HTTP/1.1") (replace_header (lit "Server") server p)) a).
Definition answer_headers (accept sub server : str) : header_list :=
  [(lit "Connection", lit "Upgrade"); (lit "Sec-WebSocket-Accept", accept)] ++
  (if bool_decide (sub = []) then [] else [(lit "Sec-WebSocket-Protocol", sub)]) ++ [(lit "Server", server); (lit "Upgrade", lit "websocket")].
Lemma answer_made key sub server r : get_header (lit "Sec-WebSocket-Key") (req r) = key → Z.of_nat (length key) < 2 ^ 29 - 36 →
  ∃ a, process_handshake w0 r sub new_response = Returns a ∧ m_headers (rep (finish_answer server a)) = answer_headers (accept_of key) sub server ∧
    m_version (rep (finish_answer server a)) = lit "HTTP/1.1" ∧ m_body (rep (finish_answer server a)) = [].
Proof.
  intros Hk Hl. unfold process_handshake. rewrite Hk, process_key_spec by done. cbn [lift mbind outcome_bind]. generalize (accept_of key). intros acc.
  unfold answer_headers. destruct (bool_decide (sub = [])); cbn; eexists; (split; [reflexivity|]); split_and!; vm_compute; reflexivity.
Qed.

Lemma token_plain v : bool_decide (token v) = true → trimmed v ∧ one_line v.
Proof. intros Hv%bool_decide_eq_true. by split; [apply token_trimmed|apply token_one_line]. Qed.
Lemma answer_wf acc sub server a : m_headers (rep a) = answer_headers acc sub server → m_version (rep a) = lit "HTTP/1.1" → m_body (rep a) = [] →
  m_status_code a = 101 → m_status_msg a = lit "Switching Protocols" → visible acc → token sub → trimmed server → one_line server → response_wf a.
Proof.
  intros Hh Hv Hb Hs Hmsg Hacc Hsub Hst Hsl. apply visible_trimmed in Hacc as [Hat Hal]. pose proof (token_trimmed sub Hsub). pose proof (token_one_line sub Hsub).
  assert (Hc : ∀ n v, bool_decide (token n) = true → n ≠ [] → trimmed v ∧ one_line v → header_ok (n, v)).
  { intros n v Hn%bool_decide_eq_true ? [? ?]. split; [done|]. split; [done|]. by split. }
  unfold response_wf, one_line. rewrite Hh, Hv, Hb, Hs, Hmsg. split_and!; try done; try lia; try (by eapply bool_decide_unpack; vm_compute).
  - unfold headers_ok, answer_headers. destruct (bool_decide (sub = [])); cbn [app];
      (split; [repeat (apply Forall_cons; split); try apply Forall_nil; try done; apply Hc; try done; by apply token_plain|unfold sorted_keys; repeat constructor]).
  - unfold get_header. rewrite Hh. unfold answer_headers. by destruct (bool_decide (sub = [])).
Qed.

(** The client takes an answer only with the digest of its own key. *)
Lemma validate_iff_accept r a : Z.of_nat (length (get_header (lit "Sec-WebSocket-Key") (req r))) < 2 ^ 29 - 36 →
  validate_server_handshake_response w0 r a = Ok None ↔
  m_status_code a = 101 ∧ has_token (get_header (lit "Upgrade") (rep a)) (lit "websocket") = true ∧ has_token (get_header (lit "Connection") (rep a)) (lit "Upgrade") = true ∧
  get_header (lit "Sec-WebSocket-Accept") (rep a) = accept_of (get_header (lit "Sec-WebSocket-Key") (req r)).
Proof.
  intros Hl. unfold validate_server_handshake_response. rewrite process_key_spec by done. change upgrade_token with (lit "websocket"). change connection_token with (lit "Upgrade").
  change status_code.switching_protocols with 101. cbn [mbind res_bind].
  destruct (m_status_code a =? 101) eqn:E1; cbn [negb]; [apply Z.eqb_eq in E1|apply Z.eqb_neq in E1; split; [done|by intros [? _]]].
  destruct (has_token _ (lit "websocket")); cbn [negb]; [|split; [done|by intros (_ & ? & _)]].
  destruct (has_token _ (lit "Upgrade")); cbn [negb]; [|split; [done|by intros (_ & _ & ? & _)]].
  case_bool_decide as E; (split; [|done || by intros (_ & _ & _ & ?)]); [intros _; by split_and!|done].
Qed.
End Server.

(** ** Theorem *)

(** C11: A client and a server shake hands in version 13, for a ws or wss URI whose host is not
    empty, visible and not an IPv6 address and whose resource has no blank, subprotocols that are
    tokens, no further headers, and no extension implemented: the server takes the request, finds
    the URI, the key and the subprotocols of the client, and, whatever token it chooses as
    subprotocol and trimmed line as its name, the client takes the answer and finds the subprotocol
    chosen. The streams may be cut in any way into pieces, and have more bytes behind them, as long
    as the count of the reader, the length of the head and three for each line and for each piece,
    stays within 16000 (every read is charged three bytes, so a head that arrives in very small
    pieces is refused, [small_reads_refused]). The client takes an answer exactly when it has the
    status 101, the tokens, and the digest of the key it sent. *)
Theorem opening_handshake `{Machine} `{Extension} rng w0 u subs s (r := client_request u subs (client_key rng (m_rng s))) :
  client_input u subs → is_implemented = false → length w0 = 80%nat →
  client_handshake_request rng u subs s new_request = Returns (r, set_rng (m_rng s + 4) s) ∧
  (∀ cs rest, concat cs = request_raw r ++ rest → head_count r + 3 * Z.of_nat (length cs) ≤ max_header_size →
    ∃ r', request_pieces cs new_request = Returns (Z.of_nat (length (request_raw r)), r') ∧ m_ready r' = true ∧
      is_websocket_handshake r' = true ∧ get_websocket_version r' = 13 ∧ validate_handshake r' = None ∧
      get_uri (m_secure u) r' = Ok u ∧ extract_subprotocols r' [] = Ok (None, subs) ∧
      ∀ sub server, token sub → trimmed server → one_line server →
        ∃ a, process_handshake w0 r' sub new_response = Returns a ∧ let a := finish_answer server a in
          ∀ ds rest, concat ds = response_raw a ++ rest → reply_count a + 3 * Z.of_nat (length ds) ≤ max_header_size →
            ∃ a', response_pieces ds new_response = Returns (Z.of_nat (length (response_raw a)), a') ∧ headers_ready a' = true ∧
              validate_server_handshake_response w0 r a' = Ok None ∧ get_header (lit "Sec-WebSocket-Protocol") (rep a') = sub) ∧
  (∀ a, validate_server_handshake_response w0 r a = Ok None ↔
    m_status_code a = 101 ∧ has_token (get_header (lit "Upgrade") (rep a)) (lit "websocket") = true ∧ has_token (get_header (lit "Connection") (rep a)) (lit "Upgrade") = true ∧
    get_header (lit "Sec-WebSocket-Accept") (rep a) = accept_of (client_key rng (m_rng s))).
Proof.
  intros Hi Him Hw. destruct (client_key_spec rng (m_rng s)) as (_ & _ & Hkv & Hkn & Hkl). set (key := client_key rng (m_rng s)) in *.
  assert (Hkey : get_header (lit "Sec-WebSocket-Key") (req r) = key) by (unfold r, client_request, client_headers, sub_headers; by destruct (bool_decide (subs = []))).
  split_and!; [by apply client_request_made| |].
  2: { intros a. rewrite <- Hkey. apply validate_iff_accept; [done|]. by rewrite Hkey. }
  intros cs rest Hcs Hmax. destruct (written_request_consumed r rest) as (r1 & Hr1 & Hready & Hcount & Hm & Hu & Hv & Hh & _); [by apply client_request_wf|lia|].
  rewrite <- Hcs in Hr1. destruct (request_pieces_whole cs _ r1 Hr1 Hready) as (r' & Hr' & Hready' & Hc); [by rewrite Hcount|].
  assert (Hrec : received r r').
  { unfold received. split_and!; [done|..]; [rewrite <- Hm|rewrite <- Hu|rewrite <- Hv|rewrite <- Hh]; injection Hc as E1 E2 E3 E4 E5 E6 E7 E8 E9; congruence. }
  exists r'. destruct (server_accepts u subs key r' Hi Hkn Hrec) as (Hs1 & Hs2 & Hs3 & Hs4 & Hs5 & Hs6). split_and!; try done.
  intros sub server Hsub Hst Hsl. destruct (answer_made w0 Hw key sub server r' Hs4 Hkl) as (a & Ha & Hah & Hav & Hab). exists a. split; [done|]. cbv zeta. intros ds rest' Hds Hmax'.
  destruct (response_read (finish_answer server a) ds rest') as (a' & Hp & Hready2 & _ & Hst2 & _ & Hh2); [|done|done|].
  { by apply (answer_wf (accept_of key) sub server); try apply accept_visible. }
  exists a'. assert (Hget : ∀ n, get_header n (rep a') = default [] (map_find ci_name n (answer_headers (accept_of key) sub server))) by (intros n; unfold get_header; by rewrite Hh2, Hah).
  split_and!; [done|done| |].
  - apply validate_iff_accept; [done|by rewrite Hkey|]. rewrite !Hget, Hkey, Hst2. generalize (accept_of key). intros acc. clear.
    unfold answer_headers. destruct (bool_decide (sub = [])); vm_compute; by split_and!.
  - rewrite Hget. generalize (accept_of key). intros acc. unfold answer_headers. case_bool_decide as E; [rewrite E|]; by vm_compute.
Qed.
Definition sample_uri : uri := mkUri (lit "wss") (lit "a.example") (lit "/chat?x=1") 9001 true true.
Lemma sample_input : client_input sample_uri [lit "chat"; lit "v2"].
Proof.
  split; unfold uri_wf, host_ok, scheme_ok, visible, one_line, token; cbn; repeat match goal with |- _ ∧ _ => split end; try done; try lia; try (by left); try (by eexists); try (by eapply bool_decide_unpack; vm_compute).
Qed.
Lemma opening_handshake_witness :
  let s := @new_hybi13 disabled false 32000000 () in
  let r := client_request sample_uri [lit "chat"; lit "v2"] (@client_key x86_64 (λ n, Z.of_nat n * 7919) 0) in
  @client_handshake_request x86_64 disabled no_extension (λ n, Z.of_nat n * 7919) sample_uri [lit "chat"; lit "v2"] s new_request = Returns (r, @set_rng disabled 4 s) ∧
  ∀ a, validate_server_handshake_response (replicate 80 7) r a = Ok None ↔
    m_status_code a = 101 ∧ has_token (get_header (lit "Upgrade") (rep a)) (lit "websocket") = true ∧ has_token (get_header (lit "Connection") (rep a)) (lit "Upgrade") = true ∧
    get_header (lit "Sec-WebSocket-Accept") (rep a) = accept_of (@client_key x86_64 (λ n, Z.of_nat n * 7919) 0).
Proof.
  destruct (@opening_handshake x86_64 disabled no_extension (λ n, Z.of_nat n * 7919) (replicate 80 7) sample_uri [lit "chat"; lit "v2"] (@new_hybi13 disabled false 32000000 ())
    sample_input eq_refl eq_refl) as (H1 & _ & H2).
  split; [exact H1|exact H2].
Defined.
