(* ===== verification/Md5.v ===== *)
(** * MD5: src/websocketpp-master/websocketpp/common/md5.hpp

    The hash of the oldest protocol draft: a state takes a message in pieces, keeps an
    unfinished block, and pads at the end.  The theorem: the digest is that of RFC 1321
    over the padded message, however the message is cut into pieces. *)

From S2P Require Import Prelude Bytes.

Open Scope Z_scope.

Section Md5.
Context `{Machine}.

(** ** Tables *)
Definition ZSW_MD5_T_MASK : Z := 2 ^ 32 - 1.
Definition flip (x : Z) : Z := Z.lxor ZSW_MD5_T_MASK x.
Definition ZSW_MD5_T : list Z := [
  flip 0x28955b87; flip 0x173848a9; 0x242070db; flip 0x3e423111;
  flip 0x0a83f050; 0x4787c62a; flip 0x57cfb9ec; flip 0x02b96afe;
  0x698098d8; flip 0x74bb0850; flip 0x0000a44e; flip 0x76a32841;
  0x6b901122; flip 0x02678e6c; flip 0x5986bc71; 0x49b40821;
  flip 0x09e1da9d; flip 0x3fbf4cbf; 0x265e5a51; flip 0x16493855;
  flip 0x29d0efa2; 0x02441453; flip 0x275e197e; flip 0x182c0437;
  0x21e1cde6; flip 0x3cc8f829; flip 0x0b2af278; 0x455a14ed;
  flip 0x561c16fa; flip 0x03105c07; 0x676f02d9; flip 0x72d5b375;
  flip 0x0005c6bd; flip 0x788e097e; 0x6d9d6122; flip 0x021ac7f3;
  flip 0x5b4115bb; 0x4bdecfa9; flip 0x0944b49f; flip 0x4140438f;
  0x289b7ec6; flip 0x155ed805; flip 0x2b10cf7a; 0x04881d05;
  flip 0x262b2fc6; flip 0x1924661a; 0x1fa27cf8; flip 0x3b53a99a;
  flip 0x0bd6ddbb; 0x432aff97; flip 0x546bdc58; flip 0x036c5fc6;
  0x655b59c3; flip 0x70f3336d; flip 0x00100b82; flip 0x7a7ba22e;
  0x6fa87e4f; flip 0x01d3191f; flip 0x5cfebceb; 0x4e0811a1;
  flip 0x08ac817d; flip 0x42c50dca; 0x2ad7d2bb; flip 0x14792c6e].
Definition round1 : list (nat * Z) := [
  (0%nat, 7); (1%nat, 12); (2%nat, 17); (3%nat, 22);
  (4%nat, 7); (5%nat, 12); (6%nat, 17); (7%nat, 22);
  (8%nat, 7); (9%nat, 12); (10%nat, 17); (11%nat, 22);
  (12%nat, 7); (13%nat, 12); (14%nat, 17); (15%nat, 22)].
Definition round2 : list (nat * Z) := [
  (1%nat, 5); (6%nat, 9); (11%nat, 14); (0%nat, 20);
  (5%nat, 5); (10%nat, 9); (15%nat, 14); (4%nat, 20);
  (9%nat, 5); (14%nat, 9); (3%nat, 14); (8%nat, 20);
  (13%nat, 5); (2%nat, 9); (7%nat, 14); (12%nat, 20)].
Definition round3 : list (nat * Z) := [
  (5%nat, 4); (8%nat, 11); (11%nat, 16); (14%nat, 23);
  (1%nat, 4); (4%nat, 11); (7%nat, 16); (10%nat, 23);
  (13%nat, 4); (0%nat, 11); (3%nat, 16); (6%nat, 23);
  (9%nat, 4); (12%nat, 11); (15%nat, 16); (2%nat, 23)].
Definition round4 : list (nat * Z) := [
  (0%nat, 6); (7%nat, 10); (14%nat, 15); (5%nat, 21);
  (12%nat, 6); (3%nat, 10); (10%nat, 15); (1%nat, 21);
  (8%nat, 6); (15%nat, 10); (6%nat, 15); (13%nat, 21);
  (4%nat, 6); (11%nat, 10); (2%nat, 15); (9%nat, 21)].

(** ** One block *)
Record regs := mkRegs { ra : Z; rb : Z; rc : Z; rd : Z }.
Record md5_state := mkMd5 { count0 : Z; count1 : Z; abcd : regs; buf : list Z }.

Definition not32 (x : Z) : Z := u32 (Z.lnot x).
Definition ZSW_MD5_ROTATE_LEFT (x n : Z) : Z := Z.lor (u32 (Z.shiftl x n)) (Z.shiftr x (32 - n)).
Definition ZSW_MD5_F (x y z : Z) : Z := Z.lor (Z.land x y) (Z.land (not32 x) z).
Definition ZSW_MD5_G (x y z : Z) : Z := Z.lor (Z.land x z) (Z.land y (not32 z)).
Definition ZSW_MD5_H (x y z : Z) : Z := Z.lxor (Z.lxor x y) z.
Definition ZSW_MD5_I (x y z : Z) : Z := Z.lxor y (Z.lor x (not32 z)).

(** [X[i]]: a word of the block in the memory of the machine, or put together byte by byte. *)
Definition block_word (data : list Z) (i : nat) : Z :=
  let xp := take 4 (drop (4 * i) data) in
  if is_little_endian then host_val xp else u32 (le_val xp).

(** [SET]: the register [a] is written.  The next [SET] of the source names the registers
    [d, a, b, c]; here they are rotated instead, and are in their places again after four. *)
Definition set_reg (f : Z → Z → Z → Z) (X : list Z) (v : regs) (kst : nat * Z * Z) : res regs :=
  let '(k, s, Ti) := kst in
  match X !! k with
  | None => Err OutOfBounds
  | Some xk =>
      let t := u32 (ra v + f (rb v) (rc v) (rd v) + xk + Ti) in
      mret (mkRegs (rd v) (u32 (ZSW_MD5_ROTATE_LEFT t s + rb v)) (rb v) (rc v))
  end.
Fixpoint set_regs (f : Z → Z → Z → Z) (X : list Z) (l : list (nat * Z * Z)) (v : regs) : res regs :=
  match l with [] => mret v | x :: l => v ← set_reg f X v x; set_regs f X l v end.
Definition with_T (n : nat) (l : list (nat * Z)) : list (nat * Z * Z) := zip l (drop n ZSW_MD5_T).
Definition md5_process (pms : md5_state) (data : list Z) : res md5_state :=
  let X := block_word data <$> seq 0 16 in
  let v0 := abcd pms in
  v ← set_regs ZSW_MD5_F X (with_T 0 round1) v0;
  v ← set_regs ZSW_MD5_G X (with_T 16 round2) v;
  v ← set_regs ZSW_MD5_H X (with_T 32 round3) v;
  v ← set_regs ZSW_MD5_I X (with_T 48 round4) v;
  mret (mkMd5 (count0 pms) (count1 pms) (mkRegs (u32 (ra v0 + ra v)) (u32 (rb v0 + rb v)) (u32 (rc v0 + rc v)) (u32 (rd v0 + rd v))) (buf pms)).

(** ** A message in pieces *)
(** [buf0]: the block buffer, which is not initialised. *)
Definition md5_init (buf0 : list Z) : md5_state :=
  mkMd5 0 0 (mkRegs 0x67452301 (flip 0x10325476) (flip 0x67452301) 0x10325476) buf0.
Definition add_count (nbytes : Z) (pms : md5_state) : md5_state :=
  let nbits := u32 (size_t (Z.shiftl nbytes 3)) in
  let c1 := u32 (count1 pms + Z.shiftr nbytes 29) in
  let c0 := u32 (count0 pms + nbits) in
  mkMd5 c0 (if c0 <? nbits then u32 (c1 + 1) else c1) (abcd pms) (buf pms).
Definition set_buf (at_ : nat) (bs : list Z) (pms : md5_state) : res md5_state :=
  b ← store_range (buf pms) at_ bs; mret (mkMd5 (count0 pms) (count1 pms) (abcd pms) b).
Fixpoint full_blocks (fuel : nat) (p : list Z) (pms : md5_state) : res (list Z * md5_state) :=
  match fuel with
  | O => Err OutOfFuel
  | S fuel => if (64 <=? length p)%nat then pms ← md5_process pms (take 64 p); full_blocks fuel (drop 64 p) pms else mret (p, pms)
  end.
Definition append_blocks (p : list Z) (pms : md5_state) : res md5_state :=
  '(rest, pms) ← full_blocks (S (length p)) p pms;
  if bool_decide (rest = []) then mret pms else set_buf 0 rest pms.
Definition md5_append (data : list Z) (pms : md5_state) : res md5_state :=
  let offset := Z.to_nat (Z.land (Z.shiftr (count0 pms) 3) 63) in
  if bool_decide (data = []) then mret pms
  else
    let pms := add_count (Z.of_nat (length data)) pms in
    if bool_decide (offset = 0%nat) then append_blocks data pms
    else
      let copy := if (64 <? offset + length data)%nat then (64 - offset)%nat else length data in
      pms ← set_buf offset (take copy data) pms;
      if (offset + copy <? 64)%nat then mret pms
      else pms ← md5_process pms (buf pms); append_blocks (drop copy data) pms.

Definition pad : list Z := 128 :: replicate 63 0.
Definition digest_bytes (v : regs) : list Z :=
  concat ((λ w, (λ i, Z.shiftr w (8 * i) mod 256) <$> [0; 1; 2; 3]) <$> [ra v; rb v; rc v; rd v]).
Definition md5_finish (pms : md5_state) : res (list Z) :=
  let data := concat ((λ w, (λ i, Z.shiftr w (8 * i) mod 256) <$> [0; 1; 2; 3]) <$> [count0 pms; count1 pms]) in
  pms ← md5_append (take (Z.to_nat (Z.land (55 - Z.shiftr (count0 pms) 3) 63 + 1)) pad) pms;
  pms ← md5_append data pms;
  mret (digest_bytes (abcd pms)).
Definition md5_hash_string (buf0 s : list Z) : res (list Z) :=
  pms ← md5_append s (md5_init buf0); md5_finish pms.
End Md5.

(** Two test vectors of RFC 1321. *)
Example md5_abc : @md5_hash_string x86_64 (replicate 64 7) [97; 98; 99] =
  Ok [0x90; 0x01; 0x50; 0x98; 0x3c; 0xd2; 0x4f; 0xb0; 0xd6; 0x96; 0x3f; 0x7d; 0x28; 0xe1; 0x7f; 0x72].
Proof. vm_compute. reflexivity. Qed.
Example md5_digits : @md5_hash_string ppc32 (replicate 64 7) (concat (replicate 8 [49; 50; 51; 52; 53; 54; 55; 56; 57; 48])) =
  Ok [0x57; 0xed; 0xf4; 0xa2; 0x2b; 0xe3; 0xc9; 0x55; 0xac; 0x49; 0xda; 0x2e; 0x21; 0x07; 0xb6; 0x7a].
Proof. vm_compute. reflexivity. Qed.

(** ** The specification (RFC 1321) *)
Definition f_at (i : nat) : Z → Z → Z → Z :=
  if (i <? 16)%nat then ZSW_MD5_F else if (i <? 32)%nat then ZSW_MD5_G else if (i <? 48)%nat then ZSW_MD5_H else ZSW_MD5_I.
Definition k_at (i : nat) : nat :=
  (if (i <? 16)%nat then i else if (i <? 32)%nat then (5 * i + 1) mod 16 else if (i <? 48)%nat then (3 * i + 5) mod 16 else (7 * i) mod 16)%nat.
Definition s_at (i : nat) : Z :=
  default 0 ((if (i <? 16)%nat then [7; 12; 17; 22] else if (i <? 32)%nat then [5; 9; 14; 20] else if (i <? 48)%nat then [4; 11; 16; 23] else [6; 10; 15; 21])
    !! (i mod 4)%nat).
Definition t_at (i : nat) : Z := default 0 (ZSW_MD5_T !! i).
Definition word_at (block : list Z) (k : nat) : Z := le_val (take 4 (drop (4 * k) block)).
Definition md5_step (block : list Z) (v : regs) (i : nat) : regs :=
  let t := u32 (ra v + f_at i (rb v) (rc v) (rd v) + word_at block (k_at i) + t_at i) in
  mkRegs (rd v) (u32 (ZSW_MD5_ROTATE_LEFT t (s_at i) + rb v)) (rb v) (rc v).
Definition compress (h : regs) (block : list Z) : regs :=
  let v := foldl (md5_step block) h (seq 0 64) in
  mkRegs (u32 (ra h + ra v)) (u32 (rb h + rb v)) (u32 (rc h + rc v)) (u32 (rd h + rd v)).
Fixpoint hash_blocks (n : nat) (h : regs) (l : list Z) : regs :=
  match n with O => h | S n => hash_blocks n (compress h (take 64 l)) (drop 64 l) end.
Definition h0 : regs := mkRegs 0x67452301 0xefcdab89 0x98badcfe 0x10325476.
Definition padded (msg : list Z) : list Z :=
  msg ++ 128 :: replicate ((119 - length msg mod 64) mod 64)%nat 0 ++ le_bytes 8 (8 * Z.of_nat (length msg)).
Definition regs_bytes (v : regs) : list Z := le_bytes 4 (ra v) ++ le_bytes 4 (rb v) ++ le_bytes 4 (rc v) ++ le_bytes 4 (rd v).
Definition md5_spec (msg : list Z) : list Z := let p := padded msg in regs_bytes (hash_blocks (length p / 64) h0 p).

Example md5_spec_abc : md5_spec [97; 98; 99] =
  [0x90; 0x01; 0x50; 0x98; 0x3c; 0xd2; 0x4f; 0xb0; 0xd6; 0x96; 0x3f; 0x7d; 0x28; 0xe1; 0x7f; 0x72].
Proof. vm_compute. reflexivity. Qed.

(** ** One block *)
Section Facts.
Context `{Machine}.

Lemma k_at_bound i : (k_at i < 16)%nat.
Proof.
  unfold k_at. destruct (i <? 16)%nat eqn:E1; [by apply Nat.ltb_lt|]. destruct (i <? 32)%nat; [apply Nat.mod_upper_bound; lia|].
  destruct (i <? 48)%nat; apply Nat.mod_upper_bound; lia.
Qed.
Lemma set_reg_spec block v i : length block = 64%nat → bytes_ok block →
  set_reg (f_at i) (block_word block <$> seq 0 16) v (k_at i, s_at i, t_at i) = Ok (md5_step block v i).
Proof.
  intros Hl Hb. pose proof (k_at_bound i) as Hk. unfold set_reg, md5_step. rewrite list_lookup_fmap, lookup_seq_lt by done. cbn [fmap option_fmap option_map Nat.add].
  unfold block_word, word_at, host_val. assert (Hbl : bytes_ok (take 4 (drop (4 * k_at i) block))) by by apply Forall_take, Forall_drop.
  pose proof (le_val_bound _ Hbl) as Hv. rewrite length_take, length_drop, Hl in Hv. replace (4 `min` (64 - 4 * k_at i))%nat with 4%nat in Hv by lia.
  assert (u32 (le_val (take 4 (drop (4 * k_at i) block))) = le_val (take 4 (drop (4 * k_at i) block))) as -> by (unfold u32; apply Z.mod_small; exact Hv).
  by destruct is_little_endian.
Qed.
Definition entry_at (i : nat) : nat * Z * Z := (k_at i, s_at i, t_at i).
Lemma set_regs_spec block f l js v : length block = 64%nat → bytes_ok block → l = entry_at <$> js → Forall (λ i, f_at i = f) js →
  set_regs f (block_word block <$> seq 0 16) l v = Ok (foldl (md5_step block) v js).
Proof.
  intros Hl Hb -> Hf. revert v. induction Hf as [|i js Hi _ IH]; intros v; [done|].
  rewrite fmap_cons. cbn [set_regs foldl]. rewrite <- Hi, set_reg_spec by done. cbn [mbind res_bind]. rewrite Hi. apply IH.
Qed.
Lemma sixty_four : seq 0 64 = seq 0 16 ++ seq 16 16 ++ seq 32 16 ++ seq 48 16.
Proof. reflexivity. Qed.
Lemma tables : with_T 0 round1 = entry_at <$> seq 0 16 ∧ with_T 16 round2 = entry_at <$> seq 16 16 ∧
  with_T 32 round3 = entry_at <$> seq 32 16 ∧ with_T 48 round4 = entry_at <$> seq 48 16.
Proof. split_and!; vm_compute; reflexivity. Qed.
Lemma md5_process_spec block pms : length block = 64%nat → bytes_ok block →
  md5_process pms block = Ok (mkMd5 (count0 pms) (count1 pms) (compress (abcd pms) block) (buf pms)).
Proof.
  intros Hl Hb. unfold md5_process. cbv zeta. destruct tables as (T1 & T2 & T3 & T4).
  rewrite (res_bind_ok _ _ _ (set_regs_spec block _ _ (seq 0 16) _ Hl Hb T1 ltac:(by repeat constructor))).
  rewrite (res_bind_ok _ _ _ (set_regs_spec block _ _ (seq 16 16) _ Hl Hb T2 ltac:(by repeat constructor))).
  rewrite (res_bind_ok _ _ _ (set_regs_spec block _ _ (seq 32 16) _ Hl Hb T3 ltac:(by repeat constructor))).
  rewrite (res_bind_ok _ _ _ (set_regs_spec block _ _ (seq 48 16) _ Hl Hb T4 ltac:(by repeat constructor))).
  rewrite <- !foldl_app. unfold compress. rewrite sixty_four. reflexivity.
Qed.

(** ** Blocks *)
Lemma md5_hash_blocks_app n m h a b : length a = (64 * n)%nat → hash_blocks (n + m) h (a ++ b) = hash_blocks m (hash_blocks n h a) b.
Proof.
  revert h a. induction n as [|n IH]; intros h a Ha; [by destruct a|]. cbn [hash_blocks Nat.add].
  rewrite take_app_le, drop_app_le by lia. apply IH. rewrite length_drop. lia.
Qed.
Lemma md5_full_blocks_spec fuel p pms : bytes_ok p → (length p < fuel)%nat → let q := (length p / 64)%nat in
  full_blocks fuel p pms = Ok (drop (64 * q) p, mkMd5 (count0 pms) (count1 pms) (hash_blocks q (abcd pms) p) (buf pms)).
Proof.
  revert p pms. induction fuel as [|fuel IH]; intros p pms Hb Hf; [lia|]. cbn [full_blocks]. destruct (64 <=? length p)%nat eqn:E.
  - apply Nat.leb_le in E. rewrite md5_process_spec; [|rewrite length_take; lia|by apply Forall_take]. cbn [mbind res_bind].
    rewrite IH; [|by apply Forall_drop|rewrite length_drop; lia]. cbn [count0 count1 abcd buf]. rewrite length_drop, drop_drop.
    assert (Hq : (length p / 64 = S ((length p - 64) / 64))%nat).
    { replace (length p) with (length p - 64 + 1 * 64)%nat at 1 by lia. rewrite Nat.div_add by lia. lia. }
    rewrite Hq. cbn [hash_blocks]. do 3 f_equal. lia.
  - apply Nat.leb_gt in E. rewrite Nat.div_small by done. rewrite Nat.mul_0_r, drop_0. by destruct pms.
Qed.
End Facts.

(** ** A message in pieces *)
Section Append.
Context `{Machine}.

(** The state behind a message: the counters, the digest of the full blocks, and the rest. *)
Record absorbed (msg : list Z) (pms : md5_state) : Prop := {
  abs_count0 : count0 pms = 8 * Z.of_nat (length msg) mod 2 ^ 32;
  abs_count1 : count1 pms = 8 * Z.of_nat (length msg) / 2 ^ 32 mod 2 ^ 32;
  abs_blocks : abcd pms = hash_blocks (length msg / 64) h0 msg;
  abs_length : length (buf pms) = 64%nat;
  abs_rest : take (length msg mod 64) (buf pms) = drop (64 * (length msg / 64)) msg;
}.

Lemma add_count_spec L n pms : 0 ≤ L → 0 ≤ n → count0 pms = 8 * L mod 2 ^ 32 → count1 pms = 8 * L / 2 ^ 32 mod 2 ^ 32 →
  let p := add_count n pms in
  count0 p = 8 * (L + n) mod 2 ^ 32 ∧ count1 p = 8 * (L + n) / 2 ^ 32 mod 2 ^ 32 ∧ abcd p = abcd pms ∧ buf p = buf pms.
Proof.
  intros HL Hn H0 H1. unfold add_count. cbv zeta. cbn [count0 count1 abcd buf].
  assert (Hnb : u32 (size_t (Z.shiftl n 3)) = 8 * n mod 2 ^ 32).
  { rewrite Z.shiftl_mul_pow2 by lia. unfold u32, size_t. rewrite (Z.mul_comm n). change (2 ^ 3) with 8.
    apply Z.mod_mod_divide.
    destruct size_t_ok as [-> | ->]; [by exists 1|by exists (2 ^ 32)]. }
  rewrite Hnb, H0, H1. rewrite Z.shiftr_div_pow2 by lia. unfold u32.
  assert (Hd : n / 2 ^ 29 = 8 * n / 2 ^ 32).
  { change (2 ^ 32) with (8 * 2 ^ 29). by rewrite Z.div_mul_cancel_l by lia. }
  rewrite Hd. replace (8 * (L + n)) with (8 * L + 8 * n) by lia. set (x := 8 * L) in *. set (y := 8 * n) in *. clearbody x y.
  split; [by rewrite <- Z.add_mod by lia|]. split; [|done].
  destruct (_ <? _) eqn:E; [apply Z.ltb_lt in E|apply Z.ltb_ge in E]; Z.div_mod_to_equations; lia.
Qed.
Lemma offset_spec (msg : list Z) pms : count0 pms = 8 * Z.of_nat (length msg) mod 2 ^ 32 → Z.to_nat (Z.land (Z.shiftr (count0 pms) 3) 63) = (length msg mod 64)%nat.
Proof.
  intros ->. change 63 with (Z.ones 6). rewrite Z.land_ones, Z.shiftr_div_pow2 by lia. change (2 ^ 3) with 8. change (2 ^ 6) with 64.
  apply Nat2Z.inj. rewrite Z2Nat.id by (apply Z.mod_pos_bound; lia). rewrite Nat2Z.inj_mod. change (Z.of_nat 64) with 64. Z.div_mod_to_equations; lia.
Qed.
Lemma set_buf_spec at_ bs pms : (at_ + length bs ≤ length (buf pms))%nat →
  set_buf at_ bs pms = Ok (mkMd5 (count0 pms) (count1 pms) (abcd pms) (take at_ (buf pms) ++ bs ++ drop (at_ + length bs) (buf pms))).
Proof. intros Hl. unfold set_buf. by rewrite store_range_ok. Qed.

(** From a block boundary on. *)
Lemma append_blocks_spec M p pms : length M = (64 * (length M / 64))%nat → abcd pms = hash_blocks (length M / 64) h0 M → length (buf pms) = 64%nat → bytes_ok p →
  ∃ b, append_blocks p pms = Ok (mkMd5 (count0 pms) (count1 pms) (hash_blocks (length (M ++ p) / 64) h0 (M ++ p)) b) ∧ length b = 64%nat ∧
    take (length (M ++ p) mod 64) b = drop (64 * (length (M ++ p) / 64)) (M ++ p).
Proof.
  intros HM Ha Hb Hp. unfold append_blocks. set (q := (length M / 64)%nat) in *. set (k := (length p / 64)%nat).
  rewrite (res_bind_ok _ _ _ (md5_full_blocks_spec (S (length p)) p pms Hp ltac:(lia))). fold k.
  assert (Hlen : (length (M ++ p) / 64 = q + k)%nat ∧ (length (M ++ p) mod 64 = length p mod 64)%nat).
  { rewrite length_app, HM. replace (64 * q + length p)%nat with (length p + q * 64)%nat by lia. rewrite Nat.div_add, Nat.Div0.mod_add by lia. unfold k. split; [lia|done]. }
  destruct Hlen as [-> ->]. rewrite md5_hash_blocks_app by done. rewrite Ha.
  assert (Hd : drop (64 * (q + k)) (M ++ p) = drop (64 * k) p) by (rewrite drop_app_ge by lia; f_equal; lia). rewrite Hd.
  pose proof (Nat.div_mod_eq (length p) 64) as Hdm. fold k in Hdm. pose proof (Nat.mod_upper_bound (length p) 64 ltac:(lia)) as Hub.
  assert (Hr : length (drop (64 * k) p) = (length p mod 64)%nat) by (rewrite length_drop; lia).
  case_bool_decide as E.
  - exists (buf pms). split; [done|]. split; [done|]. rewrite E in Hr |- *. by rewrite <- Hr.
  - rewrite set_buf_spec by (cbn [buf]; lia). cbn [count0 count1 abcd buf take app]. eexists. split; [done|]. cbn [Nat.add]. split.
    + rewrite take_0, !length_app, !Hr, length_drop. simpl. lia.
    + rewrite <- Hr, take_0. cbn [app]. by rewrite take_app_length.
Qed.

Lemma md5_append_spec msg data pms : absorbed msg pms → bytes_ok msg → bytes_ok data → ∃ pms', md5_append data pms = Ok pms' ∧ absorbed (msg ++ data) pms'.
Proof.
  intros Hab Hm Hd. unfold md5_append. rewrite (offset_spec msg) by apply Hab. cbv zeta. case_bool_decide as E.
  { exists pms. subst data. by rewrite app_nil_r. }
  destruct Hab as [H0 H1 Ha Hl Hr]. set (q := (length msg / 64)%nat) in *. set (o := (length msg mod 64)%nat) in *.
  assert (Hqo : length msg = (64 * q + o)%nat) by apply Nat.div_mod_eq. assert (Ho : (o < 64)%nat) by (apply Nat.mod_upper_bound; lia).
  destruct (add_count_spec (Z.of_nat (length msg)) (Z.of_nat (length data)) pms ltac:(lia) ltac:(lia) H0 H1) as (C0 & C1 & C2 & C3).
  set (p1 := add_count (Z.of_nat (length data)) pms) in *. clearbody p1. rewrite <- Nat2Z.inj_add, <- length_app in C0, C1.
  case_bool_decide as E0.
  - destruct (append_blocks_spec msg data p1) as (b & -> & Hb & Ht); [fold q; lia|by rewrite C2|by rewrite C3|done|].
    eexists. split; [done|]. by split.
  - set (c := if (64 <? o + length data)%nat then (64 - o)%nat else length data).
    assert (Hc : (c ≤ length data)%nat ∧ (o + c ≤ 64)%nat ∧ (o + c < 64 → c = length data)%nat).
    { unfold c. destruct (64 <? o + length data)%nat eqn:E1; [apply Nat.ltb_lt in E1|apply Nat.ltb_ge in E1]; lia. }
    clearbody c. destruct Hc as (Hc1 & Hc2 & Hc3). assert (Hlt : length (take c data) = c) by (rewrite length_take; lia).
    rewrite set_buf_spec by (rewrite C3, Hlt; lia). cbn [mbind res_bind]. rewrite Hlt, C2, C3. destruct (o + c <? 64)%nat eqn:E2.
    + apply Nat.ltb_lt in E2. specialize (Hc3 E2). subst c. eexists. split; [done|].
      assert (Hq : (length (msg ++ data) / 64 = q)%nat ∧ (length (msg ++ data) mod 64 = o + length data)%nat).
      { rewrite length_app, Hqo. replace (64 * q + o + length data)%nat with (o + length data + q * 64)%nat by lia.
        rewrite Nat.div_add, Nat.Div0.mod_add, Nat.div_small, Nat.mod_small by lia. lia. }
      destruct Hq as [Hq Hqr]. split; cbn [count0 count1 abcd buf]; [done|done|..].
      * rewrite Hq, Ha. replace q with (q + 0)%nat at 2 by lia. rewrite <- (take_drop (64 * q) msg) at 2. rewrite <- app_assoc, md5_hash_blocks_app by (rewrite length_take; lia).
        replace q with (q + 0)%nat at 1 by lia. rewrite <- (take_drop (64 * q) msg) at 1. by rewrite md5_hash_blocks_app by (rewrite length_take; lia).
      * rewrite !length_app, length_take, length_drop, Hlt. lia.
      * rewrite Hq, Hqr, (take_ge data) by lia. rewrite app_assoc, take_app_length' by (rewrite length_app, length_take, Hl; lia).
        rewrite Hr. by rewrite drop_app_le by lia.
    + apply Nat.ltb_ge in E2. assert (Hoc : (o + c = 64)%nat) by lia. rewrite Hoc, (drop_ge (buf pms)) by lia. rewrite app_nil_r.
      cbn [buf]. set (blk := take o (buf pms) ++ take c data). assert (Hblk : blk = drop (64 * q) (msg ++ take c data)) by (unfold blk; by rewrite Hr, drop_app_le by lia).
      assert (Hbl : length blk = 64%nat) by (unfold blk; rewrite length_app, length_take, Hlt; lia).
      rewrite md5_process_spec; [|done|rewrite Hblk; apply Forall_drop, Forall_app; split; [done|by apply Forall_take]]. cbn [mbind res_bind abcd count0 count1 buf].
      set (M := msg ++ take c data). assert (HM : length M = (64 * S q)%nat) by (unfold M; rewrite length_app, Hlt; lia).
      assert (HMq : (length M / 64 = S q)%nat) by (rewrite HM, Nat.mul_comm; by apply Nat.div_mul).
      destruct (append_blocks_spec M (drop c data) (mkMd5 (count0 p1) (count1 p1) (compress (abcd pms) blk) blk)) as (b & -> & Hb & Ht).
      { rewrite HMq. exact HM. } { cbn [abcd]. rewrite HMq, Ha. replace (S q) with (q + 1)%nat by lia.
        assert (HMs : M = take (64 * q) msg ++ blk) by (rewrite Hblk; unfold M; rewrite drop_app_le, app_assoc, take_drop by lia; done).
        rewrite HMs, md5_hash_blocks_app by (rewrite length_take; lia). cbn [hash_blocks]. rewrite (take_ge blk) by lia.
        f_equal. replace q with (q + 0)%nat at 1 by lia. rewrite <- (take_drop (64 * q) msg) at 1. by rewrite md5_hash_blocks_app by (rewrite length_take; lia). }
      { done. } { by apply Forall_drop. }
      unfold M in *. rewrite <- app_assoc, take_drop in Ht |- *. eexists. split; [done|]. by split.
Qed.
Lemma init_absorbed buf0 : length buf0 = 64%nat → absorbed [] (md5_init buf0).
Proof. intros Hb. by split. Qed.
Fixpoint append_all (cs : list (list Z)) (pms : md5_state) : res md5_state :=
  match cs with [] => mret pms | c :: cs => pms ← md5_append c pms; append_all cs pms end.
Lemma append_all_spec msg cs pms : absorbed msg pms → bytes_ok msg → bytes_ok (concat cs) → ∃ pms', append_all cs pms = Ok pms' ∧ absorbed (msg ++ concat cs) pms'.
Proof.
  revert msg pms. induction cs as [|c cs IH]; intros msg pms Ha Hm Hc; [exists pms; by rewrite app_nil_r|].
  cbn [concat] in *. apply Forall_app in Hc as [Hc Hcs]. destruct (md5_append_spec msg c pms Ha Hm Hc) as (p1 & E & Hp1).
  cbn [append_all]. rewrite E. cbn [mbind res_bind]. destruct (IH (msg ++ c) p1) as (p2 & -> & Hp2); [done|by apply Forall_app|done|].
  exists p2. by rewrite app_assoc.
Qed.

(** ** The end of a message *)
Lemma word_bytes w : (λ i, Z.shiftr w (8 * i) mod 256) <$> [0; 1; 2; 3] = le_bytes 4 w.
Proof. cbn [fmap list_fmap le_bytes]. rewrite !Z.shiftr_div_pow2 by lia. rewrite !Z.div_div by lia. by rewrite Z.div_1_r. Qed.
Lemma words_bytes ws : concat ((λ w, (λ i, Z.shiftr w (8 * i) mod 256) <$> [0; 1; 2; 3]) <$> ws) = concat (le_bytes 4 <$> ws).
Proof. f_equal. apply list_fmap_ext. intros ? w _. apply word_bytes. Qed.
Lemma digest_spec v : digest_bytes v = regs_bytes v.
Proof. unfold digest_bytes, regs_bytes. rewrite words_bytes. rewrite !fmap_cons, fmap_nil. cbn [concat]. by rewrite app_nil_r. Qed.
Lemma counts_bytes msg pms : absorbed msg pms → le_bytes 4 (count0 pms) ++ le_bytes 4 (count1 pms) = le_bytes 8 (8 * Z.of_nat (length msg)).
Proof.
  intros [-> -> _ _ _]. change 8%nat with (4 + 4)%nat. rewrite (le_bytes_add 4 4), Z.shiftr_div_pow2 by lia. change (8 * Z.of_nat 4) with 32.
  by rewrite !(le_bytes_mod 4 4).
Qed.
Lemma pad_spec msg pms (z := ((119 - length msg mod 64) mod 64)%nat) : absorbed msg pms →
  take (Z.to_nat (Z.land (55 - Z.shiftr (count0 pms) 3) 63 + 1)) pad = 128 :: replicate z 0.
Proof.
  intros [H0 _ _ _ _]. assert (Hz : Z.land (55 - Z.shiftr (count0 pms) 3) 63 = Z.of_nat z).
  { change 63 with (Z.ones 6). rewrite Z.land_ones by lia. rewrite H0, Z.shiftr_div_pow2 by lia. change (2 ^ 3) with 8. change (2 ^ 6) with 64.
    unfold z. pose proof (Nat.mod_upper_bound (length msg) 64 ltac:(lia)) as Hub. rewrite Nat2Z.inj_mod, Nat2Z.inj_sub, Nat2Z.inj_mod by lia.
    change (Z.of_nat 119) with 119. change (Z.of_nat 64) with 64. Z.div_mod_to_equations; lia. }
  rewrite Hz. replace (Z.to_nat (Z.of_nat z + 1)) with (S z) by lia. unfold pad. cbn [take]. f_equal. rewrite take_replicate. f_equal.
  pose proof (Nat.mod_upper_bound (119 - length msg mod 64) 64 ltac:(lia)). fold z in H1. lia.
Qed.
Lemma md5_finish_spec msg pms : absorbed msg pms → bytes_ok msg → md5_finish pms = Ok (md5_spec msg).
Proof.
  intros Ha Hm. unfold md5_finish. cbv zeta. rewrite (pad_spec msg pms Ha). set (z := ((119 - length msg mod 64) mod 64)%nat).
  assert (Hp : bytes_ok (128 :: replicate z 0)) by (apply Forall_cons; split; [unfold byte_ok; lia|apply Forall_replicate; unfold byte_ok; lia]).
  destruct (md5_append_spec msg (128 :: replicate z 0) pms Ha Hm Hp) as (p1 & -> & Ha1). cbn [mbind res_bind].
  rewrite words_bytes, !fmap_cons, fmap_nil. cbn [concat]. rewrite app_nil_r, (counts_bytes msg pms Ha).
  destruct (md5_append_spec _ (le_bytes 8 (8 * Z.of_nat (length msg))) p1 Ha1) as (p2 & -> & Ha2); [by apply Forall_app|apply le_bytes_ok|].
  cbn [mbind res_bind]. unfold md5_spec. rewrite digest_spec, (abs_blocks _ _ Ha2). unfold padded. fold z. cbn [app].
  rewrite <- app_assoc. done.
Qed.

Lemma md5_hash_string_spec buf0 s : length buf0 = 64%nat → bytes_ok s → md5_hash_string buf0 s = Ok (md5_spec s).
Proof.
  intros Hl Hs. unfold md5_hash_string. destruct (md5_append_spec [] s _ (init_absorbed buf0 Hl)) as (p & -> & Hp); [apply Forall_nil_2|done|].
  by apply (md5_finish_spec s p).
Qed.

(** ** Theorem *)

(** C30: The digest of a message taken in any pieces is that of RFC 1321, on machines of either
    byte order and whatever the uninitialised buffer holds. *)
Theorem md5_is_rfc1321 buf0 cs : length buf0 = 64%nat → bytes_ok (concat cs) →
  (pms ← append_all cs (md5_init buf0); md5_finish pms) = Ok (md5_spec (concat cs)) ∧
  md5_hash_string buf0 (concat cs) = Ok (md5_spec (concat cs)).
Proof.
  intros Hl Hc. split; [|by apply md5_hash_string_spec].
  destruct (append_all_spec [] cs _ (init_absorbed buf0 Hl) (Forall_nil_2 _) Hc) as (p & -> & Hp). by apply (md5_finish_spec (concat cs) p).
Qed.
End Append.
Lemma md5_is_rfc1321_witness :
  (pms ← @append_all x86_64 [[97]; []; [98; 99]] (md5_init (replicate 64 7)); @md5_finish x86_64 pms) = Ok (md5_spec [97; 98; 99]) ∧
  @md5_hash_string x86_64 (replicate 64 7) [97; 98; 99] = Ok (md5_spec [97; 98; 99]).
Proof. apply (@md5_is_rfc1321 x86_64 (replicate 64 7) [[97]; []; [98; 99]]); [done|unfold bytes_ok, byte_ok; repeat constructor; lia]. Defined.
