(* ===== verification/WsHybi00.v ===== *)
(** * The oldest draft of the protocol: src/websocketpp-master/websocketpp/processors/hybi00.hpp

    Version 0 has no frames: a message is the byte 0, a text and the byte 255.  Its handshake
    proves with an MD5 digest that the server has read two numbers, hidden in two headers,
    and eight bytes behind the request.  Only the server's side is implemented.  The theorems:
    the texts of one end are the messages of the other, however the stream is cut, and
    what the digest is taken of. *)

From S2P Require Import Prelude Bytes StdString SortedKeys HttpText HttpTextFacts HttpParser HttpStream Uri WsFrame Utf8 Md5 WsProcessor WsHandshake.

Open Scope Z_scope.

Module Hybi00.
Section Hybi00.
Context `{Machine}.
Variable buf0 : list Z.       (** the bytes of an uninitialised MD5 buffer *)
Variable key_final0 : list Z. (** those of the array [key_final] *)

(** ** State *)
Inductive state := HEADER | PAYLOAD | READY | FATAL_ERROR.
#[export] Instance state_eq_dec : EqDecision state.
Proof. solve_decision. Defined.
Record hybi00 := mkHybi00 { m_secure : bool; m_state : state; m_msg_ptr : option message }.
Definition msg_hdr : Z := 0.
Definition msg_ftr : Z := 255.
Definition new_hybi00 (secure : bool) : hybi00 := mkHybi00 secure HEADER None.

(** ** Handshake *)
Definition validate_handshake (r : request) : option error_code :=
  if negb (bool_decide (m_method r = lit "GET")) then make_error_code invalid_http_method
  else if negb (bool_decide (m_version (req r) = lit "HTTP/1.1")) then make_error_code invalid_http_version
  else if bool_decide (get_header (lit "Sec-WebSocket-Key1") (req r) = []) || bool_decide (get_header (lit "Sec-WebSocket-Key2") (req r) = [])
    || bool_decide (get_header (lit "Sec-WebSocket-Key3") (req r) = []) then make_error_code missing_required_header
  else None.

Definition htonl (x : Z) : Z := host_val (rev (le_bytes 4 x)).
Fixpoint key_loop (key : str) (spaces : Z) (digits : str) : Z * str :=
  match key with
  | [] => (spaces, digits)
  | c :: key =>
      if bool_decide (c = " "%char) then key_loop key (u32 (spaces + 1)) digits
      else if (48 <=? code c) && (code c <=? 57) then key_loop key spaces (digits ++ [c])
      else key_loop key spaces digits
  end.
(** The four bytes at [result]. *)
Definition decode_client_key (key : str) : list Z :=
  let '(spaces, digits) := key_loop key 0 [] in
  let num := u32 (strtoul digits) in
  if (0 <? spaces) && (0 <? num) then host_bytes 4 (htonl (num / spaces)) else [0; 0; 0; 0].

Definition get_uri (s : hybi00) (r : request) : res uri :=
  let h := get_header (lit "Host") (req r) in
  match rfind_char ":"%char h with
  | None => mret (uri_secure (m_secure s) h (m_uri r))
  | Some colon =>
      if match rfind_char "]"%char h with Some b => (colon <? b)%nat | None => false end
      then mret (uri_secure (m_secure s) h (m_uri r))
      else
        host ← substr h 0 (Z.of_nat colon);
        port ← substr_from h (S colon);
        uri_secure_text (m_secure s) host port (m_uri r)
  end.

Definition key_final (r : request) : list Z :=
  let key3 := take 8 (bytes_of (get_header (lit "Sec-WebSocket-Key3") (req r))) in
  decode_client_key (get_header (lit "Sec-WebSocket-Key1") (req r)) ++ decode_client_key (get_header (lit "Sec-WebSocket-Key2") (req r))
  ++ key3 ++ drop (8 + length key3) key_final0.
Definition process_handshake (s : hybi00) (r : request) (subprotocol : str) (a : response) : outcome (option error_code * response) :=
  digest ← lift (md5_hash_string buf0 (key_final r));
  p ← append_header (lit "Sec-WebSocket-Key3") (text_of digest) (rep a);
  p ← append_header (lit "Upgrade") (lit "WebSocket") p;
  p ← append_header (lit "Connection") (lit "Upgrade") p;
  p ← (if bool_decide (get_header (lit "Sec-WebSocket-Origin") p = [])
       then append_header (lit "Sec-WebSocket-Origin") (get_header (lit "Origin") (req r)) p else mret p);
  p ← (if bool_decide (get_header (lit "Sec-WebSocket-Location") p = [])
       then u ← lift (get_uri s r); append_header (lit "Sec-WebSocket-Location") (uri_str u) p else mret p);
  let p := if bool_decide (subprotocol = []) then p else replace_header (lit "Sec-WebSocket-Protocol") subprotocol p in
  mret (None, set_rep p a).
Definition client_handshake_request : option error_code := make_error_code no_protocol_support.
Definition validate_server_handshake_response : option error_code := make_error_code no_protocol_support.

Definition get_raw (a : response) : str :=
  response_raw (set_rep (remove_header (lit "Sec-WebSocket-Key3") (rep a)) a) ++ get_header (lit "Sec-WebSocket-Key3") (rep a).
Definition get_origin (r : request) : str := get_header (lit "Origin") (req r).
Definition extract_subprotocols (r : request) (subprotocol_list : list str) : res (option error_code * list str) :=
  if bool_decide (get_header (lit "Sec-WebSocket-Protocol") (req r) = []) then mret (None, subprotocol_list)
  else
    '(error, p) ← get_header_as_plist (lit "Sec-WebSocket-Protocol") (req r) [];
    mret (if (error : bool) then (make_error_code subprotocol_parse_error, subprotocol_list)
          else (None, subprotocol_list ++ (fst <$> p))).

(** ** Reading *)
Fixpoint find_byte (x : Z) (l : list Z) : nat :=
  match l with [] => 0 | y :: l => if y =? x then 0%nat else S (find_byte x l) end.
(** The loop of [consume]: the bytes processed, the error code and the state. *)
Fixpoint consume_loop (fuel : nat) (buf : list Z) (p : nat) (ec : option error_code) (s : hybi00) : res (nat * option error_code * hybi00) :=
  match fuel with
  | O => Err OutOfFuel
  | S fuel =>
      match drop p buf with
      | [] => mret (p, ec, s)
      | x :: rest =>
          match m_state s with
          | HEADER =>
              if x =? msg_hdr then
                msg ← new_message opcode.text 1;
                consume_loop fuel buf (S p) ec (mkHybi00 (m_secure s) PAYLOAD (Some msg))
              else consume_loop fuel buf p (make_error_code protocol_violation) (mkHybi00 (m_secure s) FATAL_ERROR (m_msg_ptr s))
          | PAYLOAD =>
              let l := find_byte msg_ftr (x :: rest) in
              match m_msg_ptr s with
              | None => Err NullDeref
              | Some msg =>
                  let ptr := Some (append_payload (take l (x :: rest)) msg) in
                  if (l <? length (x :: rest))%nat
                  then consume_loop fuel buf (S (p + l)) ec (mkHybi00 (m_secure s) READY ptr)
                  else consume_loop fuel buf (p + l) ec (mkHybi00 (m_secure s) PAYLOAD ptr)
              end
          | READY | FATAL_ERROR => mret (p, ec, s)
          end
      end
  end.
Definition consume (buf : list Z) (s : hybi00) : res (nat * option error_code * hybi00) := consume_loop (length buf + 2) buf 0 None s.
Definition ready (s : hybi00) : bool := bool_decide (m_state s = READY).
Definition get_error (s : hybi00) : bool := false.
Definition get_message (s : hybi00) : option message * hybi00 := (m_msg_ptr s, mkHybi00 (m_secure s) HEADER None).

(** ** Writing *)
Definition prepare_data_frame (in_ out : option message) : res (option error_code * option message) :=
  match in_, out with
  | Some in_, Some out =>
      if negb (m_opcode in_ =? opcode.text) then mret (make_error_code invalid_opcode, Some out)
      else
        valid ← validate (m_payload in_);
        if negb valid then mret (make_error_code invalid_payload, Some out)
        else mret (None, Some (set_prepared true (append_payload [msg_ftr] (set_payload (m_payload in_) (set_header [msg_hdr] out)))))
  | _, _ => mret (make_error_code invalid_arguments, out)
  end.
Definition prepare_ping (out : option message) : option error_code * option message := (make_error_code no_protocol_support, out).
Definition prepare_pong (out : option message) : option error_code * option message := (make_error_code no_protocol_support, out).
Definition prepare_close (out : option message) : option error_code * option message :=
  match out with
  | None => (make_error_code invalid_arguments, out)
  | Some out => (None, Some (set_prepared true (set_payload [255; 0] out)))
  end.
End Hybi00.
End Hybi00.

(** ** The stream, byte by byte

    The loop of [connection::handle_read_frame]
    (src/websocketpp-master/websocketpp/impl/connection_impl.hpp) over this processor. *)
Section Stream.
Context `{Machine}.
Fixpoint read_loop00 (fuel : nat) (rest : list Z) (s : Hybi00.hybi00) : res (list message * option error_code * Hybi00.hybi00) :=
  match fuel with
  | O => Err OutOfFuel
  | S fuel =>
      if bool_decide (rest = []) then Ok ([], None, s)
      else
        '(p, ec, s) ← Hybi00.consume rest s;
        match ec with
        | Some e => Ok ([], Some e, s)
        | None =>
            let '(m, s) := if Hybi00.ready s then Hybi00.get_message s else (None, s) in
            '(ms, ec, s) ← read_loop00 fuel (drop p rest) s;
            Ok (match m with Some m => m :: ms | None => ms end, ec, s)
        end
  end.
Fixpoint read_all00 (reads : list (list Z)) (s : Hybi00.hybi00) : res (list message * option error_code * Hybi00.hybi00) :=
  match reads with
  | [] => Ok ([], None, s)
  | r :: reads =>
      '(ms, ec, s) ← read_loop00 (S (length r)) r s;
      match ec with
      | Some e => Ok (ms, Some e, s)
      | None => '(ms', ec, s) ← read_all00 reads s; Ok (ms ++ ms', ec, s)
      end
  end.

(** The protocol as an automaton over bytes: the texts completed, the text begun; [None] is
    a violation. *)
Definition byte_in (st : option (list (list Z) * option (list Z))) (x : Z) : option (list (list Z) * option (list Z)) :=
  match st with
  | None => None
  | Some (ms, None) => if x =? 0 then Some (ms, Some []) else None
  | Some (ms, Some acc) => if x =? 255 then Some (ms ++ [acc], None) else Some (ms, Some (acc ++ [x]))
  end.
Definition between (s : Hybi00.hybi00) (cur : option (list Z)) : Prop :=
  match Hybi00.m_state s, Hybi00.m_msg_ptr s, cur with
  | Hybi00.HEADER, _, None => True
  | Hybi00.PAYLOAD, Some m, Some acc => m_payload m = acc
  | _, _, _ => False
  end.

Lemma byte_in_none l : fold_left byte_in l None = None.
Proof. by induction l. Qed.
Lemma byte_in_text l ms acc : Forall (λ x, x ≠ 255) l → fold_left byte_in l (Some (ms, Some acc)) = Some (ms, Some (acc ++ l)).
Proof.
  intros Hl. revert acc. induction Hl as [|x l Hx _ IH]; intros acc; [by rewrite app_nil_r|]. cbn [fold_left byte_in].
  apply Z.eqb_neq in Hx. rewrite Hx, IH. by rewrite <- app_assoc.
Qed.
Lemma byte_in_prefix l ms ms' cur cur' : fold_left byte_in l (Some (ms, cur)) = Some (ms', cur') →
  ∀ ms0, fold_left byte_in l (Some (ms0 ++ ms, cur)) = Some (ms0 ++ ms', cur').
Proof.
  revert ms cur. induction l as [|x l IH]; intros ms cur Hf ms0; [by injection Hf as -> ->|]. cbn [fold_left byte_in] in *.
  destruct cur as [acc|]; case_match; [rewrite <- app_assoc; by apply IH|by apply IH..|by rewrite byte_in_none in Hf].
Qed.
Lemma byte_in_fails l ms cur : fold_left byte_in l (Some (ms, cur)) = None → ∀ ms0, fold_left byte_in l (Some (ms0, cur)) = None.
Proof.
  revert ms cur. induction l as [|x l IH]; intros ms cur Hf ms0; [done|]. cbn [fold_left byte_in] in *.
  destruct cur as [acc|]; case_match; try apply byte_in_none; exact (IH _ _ Hf _).
Qed.
Lemma find_byte_spec x l (n := Hybi00.find_byte x l) : Forall (λ y, y ≠ x) (take n l) ∧ (n ≤ length l)%nat ∧ (n < length l → drop n l = x :: drop (S n) l)%nat.
Proof.
  subst n. induction l as [|y l (IH1 & IH2 & IH3)]; [split_and!; [constructor|cbn; lia..]|]. cbn [Hybi00.find_byte]. destruct (y =? x) eqn:E.
  - apply Z.eqb_eq in E. subst y. cbn. split_and!; [constructor|lia|done].
  - apply Z.eqb_neq in E. cbn. split_and!; [by constructor|lia|]. intros Hn. apply IH3. lia.
Qed.

(** One call of [consume] in the middle of a text. *)
Lemma consume_payload fuel buf p sec msg rest (l := Hybi00.find_byte 255 rest) : drop p buf = rest → rest ≠ [] → (2 ≤ fuel)%nat →
  Hybi00.consume_loop fuel buf p None (Hybi00.mkHybi00 sec Hybi00.PAYLOAD (Some msg)) =
  Ok (if (l <? length rest)%nat
      then ((S (p + l))%nat, None, Hybi00.mkHybi00 sec Hybi00.READY (Some (append_payload (take l rest) msg)))
      else ((p + l)%nat, None, Hybi00.mkHybi00 sec Hybi00.PAYLOAD (Some (append_payload (take l rest) msg)))).
Proof.
  intros Hr Hne Hf. destruct fuel as [|[|fuel]]; [lia..|]. destruct rest as [|x rest]; [done|]. cbn [Hybi00.consume_loop]. rewrite Hr.
  cbn [Hybi00.m_state Hybi00.m_msg_ptr Hybi00.m_secure]. unfold Hybi00.msg_ftr. fold l.
  destruct (l <? length (x :: rest))%nat eqn:El.
  - by destruct (drop (S (p + l)) buf).
  - apply Nat.ltb_ge in El. rewrite <- drop_drop, Hr, drop_ge by done. done.
Qed.
(** What one call leaves behind. *)
Definition consumed (buf : list Z) (cur : option (list Z)) (p : nat) (ec : option error_code) (s : Hybi00.hybi00) : Prop :=
  match ec with
  | Some _ => fold_left byte_in buf (Some ([], cur)) = None
  | None => (0 < p ≤ length buf)%nat ∧
      if Hybi00.ready s
      then ∃ m, Hybi00.m_msg_ptr s = Some m ∧ fold_left byte_in (take p buf) (Some ([], cur)) = Some ([m_payload m], None)
      else ∃ cur', between s cur' ∧ p = length buf ∧ fold_left byte_in buf (Some ([], cur)) = Some ([], cur')
  end.
Lemma consume_text buf cur p sec msg rest fuel : drop p buf = rest → rest ≠ [] →
  (∀ l, fold_left byte_in (take p buf ++ l) (Some ([], cur)) = fold_left byte_in l (Some ([], Some (m_payload msg)))) → (2 ≤ fuel)%nat →
  ∃ p' ec s', Hybi00.consume_loop fuel buf p None (Hybi00.mkHybi00 sec Hybi00.PAYLOAD (Some msg)) = Ok (p', ec, s') ∧ consumed buf cur p' ec s'.
Proof.
  intros Hr Hrne Hfold Hf. rewrite (consume_payload fuel buf p sec msg rest Hr Hrne Hf).
  destruct (find_byte_spec 255 rest) as (H1 & H2 & H3). set (l := Hybi00.find_byte 255 rest) in *.
  assert (Hlen : length buf = (p + length rest)%nat).
  { subst rest. rewrite length_drop. destruct (decide (p ≤ length buf)%nat); [lia|]. rewrite drop_ge in Hrne by lia. done. }
  destruct (l <? length rest)%nat eqn:El.
  - apply Nat.ltb_lt in El. eexists _, _, _. split; [done|]. split; [lia|]. unfold Hybi00.ready. cbn [Hybi00.m_state]. rewrite bool_decide_eq_true_2 by done.
    eexists. split; [done|]. assert (Ht : take (S (p + l)) buf = take p buf ++ take l rest ++ [255]).
    { rewrite <- (take_drop p buf) at 1. rewrite Hr. rewrite take_app. rewrite length_take, Nat.min_l by lia.
      rewrite take_ge by (rewrite length_take; lia). f_equal. replace (S (p + l) - p)%nat with (l + 1)%nat by lia.
      rewrite <- take_take_drop. f_equal. by rewrite H3. }
    rewrite Ht, Hfold, fold_left_app, byte_in_text by done. cbn. done.
  - apply Nat.ltb_ge in El. eexists _, _, _. split; [done|]. split; [destruct rest; [done|cbn [length] in *; lia]|].
    unfold Hybi00.ready. cbn [Hybi00.m_state]. rewrite bool_decide_eq_false_2 by done. rewrite take_ge in H1 |- * by lia.
    eexists (Some _). split; [unfold between; cbn; reflexivity|]. split; [lia|]. rewrite <- (take_drop p buf), Hr, Hfold. by apply byte_in_text.
Qed.
Lemma fresh_text : new_message opcode.text 1 = Ok (mkMessage [] [] [] opcode.text false true false false).
Proof. unfold new_message, reserve. by destruct (size_t_ok) as [->| ->]. Qed.
Lemma consume_between buf s cur : between s cur → buf ≠ [] → ∃ p ec s', Hybi00.consume buf s = Ok (p, ec, s') ∧ consumed buf cur p ec s'.
Proof.
  intros Hs Hne. unfold Hybi00.consume. destruct s as [sec st ptr]. unfold between in Hs. cbn in Hs. destruct buf as [|x buf']; [done|].
  destruct st; try done.
  - destruct cur; [done|]. replace (length (x :: buf') + 2)%nat with (S (S (S (length buf')))) by (cbn; lia).
    remember (S (S (length buf'))) as fuel eqn:Ef. cbn [Hybi00.consume_loop]. rewrite drop_0. cbn [Hybi00.m_state Hybi00.m_secure]. unfold Hybi00.msg_hdr.
    destruct (x =? 0) eqn:Ex.
    + apply Z.eqb_eq in Ex. subst x. rewrite fresh_text. cbn [mbind res_bind]. destruct (decide (buf' = [])) as [->|Hne'].
      * subst fuel. eexists 1%nat, None, _. split; [done|]. split; [cbn; lia|]. eexists (Some []). by split_and!.
      * apply (consume_text _ None 1%nat _ _ buf'); [done|done| |lia]. done.
    + subst fuel. eexists 0%nat, _, _. split; [done|]. unfold consumed. cbn. rewrite Ex. apply byte_in_none.
  - destruct ptr as [m|]; [|done]. destruct cur as [acc|]; [|done]. subst acc. apply (consume_text _ (Some (m_payload m)) 0%nat sec m (x :: buf')); [done|done|done|cbn; lia].
Qed.
Lemma read_loop00_spec fuel rest s cur : between s cur → (length rest < fuel)%nat →
  ∃ ms ec s', read_loop00 fuel rest s = Ok (ms, ec, s') ∧
    match ec with
    | Some _ => fold_left byte_in rest (Some ([], cur)) = None
    | None => ∃ cur', between s' cur' ∧ fold_left byte_in rest (Some ([], cur)) = Some (m_payload <$> ms, cur')
    end.
Proof.
  revert rest s cur. induction fuel as [|fuel IH]; intros rest s cur Hs Hf; [lia|]. cbn [read_loop00]. case_bool_decide as E.
  { subst rest. eexists [], None, s. split; [done|]. by exists cur. }
  destruct (consume_between rest s cur Hs E) as (p & ec & s1 & -> & Hc). cbn [mbind res_bind].
  unfold consumed in Hc. destruct ec as [e|]; [by eexists [], _, _|]. destruct Hc as (Hp & Hc). destruct (Hybi00.ready s1) eqn:Er.
  - destruct Hc as (m & Hm & Hfold). unfold Hybi00.get_message. rewrite Hm.
    destruct (IH (drop p rest) (Hybi00.mkHybi00 (Hybi00.m_secure s1) Hybi00.HEADER None) None) as (ms & ec & s' & -> & Hrest); [done|rewrite length_drop; lia|].
    assert (Hsplit : fold_left byte_in rest (Some ([], cur)) = fold_left byte_in (drop p rest) (Some ([m_payload m], None))).
    { rewrite <- (take_drop p rest) at 1. by rewrite fold_left_app, Hfold. }
    cbn [mbind res_bind]. eexists _, _, _. split; [done|]. rewrite Hsplit. destruct ec as [e|].
    + by eapply byte_in_fails.
    + destruct Hrest as (cur' & Hs' & Hfold'). exists cur'. split; [done|]. by apply (byte_in_prefix _ _ _ _ _ Hfold' [_]).
  - destruct Hc as (cur' & Hs' & -> & Hfold). rewrite drop_all. destruct fuel as [|fuel]; [destruct rest; [done|cbn in Hf; lia]|].
    cbn. eexists [], None, s1. split; [done|]. by exists cur'.
Qed.
Lemma read_all00_spec chunks s cur ms' cur' : between s cur → fold_left byte_in (concat chunks) (Some ([], cur)) = Some (ms', cur') →
  ∃ ms s', read_all00 chunks s = Ok (ms, None, s') ∧ m_payload <$> ms = ms' ∧ between s' cur'.
Proof.
  intros Hs. revert s cur Hs ms'. induction chunks as [|c chunks IH]; intros s cur Hs ms' Hfold.
  { injection Hfold as <- <-. by eexists [], s. }
  cbn [concat] in Hfold. rewrite fold_left_app in Hfold. cbn [read_all00].
  destruct (read_loop00_spec (S (length c)) c s cur Hs) as (ms1 & ec & s1 & -> & H1); [lia|]. cbn [mbind res_bind].
  destruct ec as [e|]; [by rewrite H1, byte_in_none in Hfold|]. destruct H1 as (cur1 & Hs1 & H1). rewrite H1 in Hfold.
  destruct (fold_left byte_in (concat chunks) (Some ([], cur1))) as [[ms2 cur2]|] eqn:E2.
  - pose proof (byte_in_prefix _ _ _ _ _ E2 (m_payload <$> ms1)) as H2. rewrite app_nil_r in H2. rewrite H2 in Hfold. injection Hfold as <- <-.
    destruct (IH s1 cur1 Hs1 ms2 E2) as (ms & s' & -> & <- & Hs'). cbn [mbind res_bind]. eexists _, _. split; [done|]. by rewrite fmap_app.
  - by rewrite (byte_in_fails _ _ _ E2) in Hfold.
Qed.

(** ** What is sent *)
Definition text_message (p : list Z) : message := mkMessage [] [] p opcode.text false true false false.
Fixpoint send_texts (ps : list (list Z)) : res (list Z) :=
  match ps with
  | [] => Ok []
  | p :: ps =>
      '(ec, out) ← Hybi00.prepare_data_frame (Some (text_message p)) (Some (mkMessage [] [] [] 0 false true false false));
      w ← send_texts ps;
      Ok (match ec, out with None, Some out => wire out ++ w | _, _ => w end)
  end.

(** UTF-8 has no byte 255, the one that ends a message. *)
Lemma text_no_end p : bytes_ok p → validate p = Ok true → Forall (λ x, x ≠ 255) p.
Proof.
  intros Hb Hv. assert (∃ cs, encoding_of cs p) as (cs & Hcs & ->).
  { unfold validate in Hv. destruct (decode_total p new_validator Hb) as (ok & v & Hd & _); [apply new_validator_valid|].
    rewrite Hd in Hv. cbn [mbind res_bind] in Hv. destruct ok; [injection Hv as Hc|done]. apply (accepted_encodes p 0 Hb). by exists v. }
  clear -Hcs. unfold encoding_of in Hcs. induction Hcs as [|c cs Hc _ IH]; [constructor|]. cbn [fmap list_fmap concat]. apply Forall_app. split; [|done].
  unfold scalar in Hc. unfold utf8_encode. repeat case_match; repeat constructor; Z.div_mod_to_equations; lia.
Qed.
Lemma send_texts_wire ps : Forall bytes_ok ps → Forall (λ p, validate p = Ok true) ps →
  send_texts ps = Ok (concat ((λ p, 0 :: p ++ [255]) <$> ps)).
Proof.
  intros Hb. induction Hb as [|p ps Hp _ IH]; intros Hv; [done|]. inversion Hv as [|? ? Hvp Hvs]; subst. cbn [send_texts Hybi00.prepare_data_frame].
  cbn [text_message m_opcode m_payload]. cbn [Z.eqb opcode.text negb]. change (negb (opcode.text =? opcode.text)) with false. cbv iota.
  rewrite Hvp. cbn [mbind res_bind negb]. rewrite IH by done. done.
Qed.
Lemma byte_in_texts ps : Forall bytes_ok ps → Forall (λ p, validate p = Ok true) ps →
  fold_left byte_in (concat ((λ p, 0 :: p ++ [255]) <$> ps)) (Some ([], None)) = Some (ps, None).
Proof.
  intros Hb. induction Hb as [|p ps Hp _ IH]; intros Hv; [done|]. inversion Hv as [|? ? Hvp Hvs]; subst. cbn [fmap list_fmap concat].
  cbn [app fold_left byte_in Z.eqb]. rewrite fold_left_app, fold_left_app, byte_in_text by (by apply text_no_end). cbn [fold_left byte_in app Z.eqb].
  change (255 =? 255) with true. cbv iota. apply (byte_in_prefix _ _ _ _ _ (IH Hvs) [p]).
Qed.

(** ** The numbers in the headers *)
Definition is_number_char (c : ascii) : bool := (48 <=? code c) && (code c <=? 57).
Lemma key_loop_spec key n ds : 0 ≤ n → n + Z.of_nat (length key) < 2 ^ 32 →
  Hybi00.key_loop key n ds = (n + Z.of_nat (length (filter (λ c, c = " "%char) key)), ds ++ filter (λ c, is_number_char c = true) key).
Proof.
  revert n ds. induction key as [|c key IH]; intros n ds Hn Hl; [cbn; by rewrite app_nil_r, Z.add_0_r|]. cbn [Hybi00.key_loop length] in *.
  rewrite !filter_cons. case_bool_decide as E.
  - subst c. rewrite IH; [|unfold u32; rewrite Z.mod_small; lia..]. rewrite decide_True, decide_False by done. cbn [length]. f_equal.
    unfold u32. rewrite Z.mod_small by lia. lia.
  - rewrite (decide_False (P := c = " "%char)) by done. fold (is_number_char c). destruct (is_number_char c) eqn:Ec.
    + rewrite decide_True by done. rewrite IH by lia. by rewrite <- app_assoc.
    + rewrite decide_False by done. rewrite IH by lia. done.
Qed.
Lemma decode_hidden key n : Z.of_nat (length key) < 2 ^ 32 → 0 < n →
  let spaces := Z.of_nat (length (filter (λ c, c = " "%char) key)) in
  0 < spaces → n * spaces < 2 ^ 32 → filter (λ c, is_number_char c = true) key = to_string (n * spaces) →
  Hybi00.decode_client_key key = rev (le_bytes 4 n).
Proof.
  intros Hl Hn spaces Hs Hm Hd. unfold Hybi00.decode_client_key. rewrite key_loop_spec by lia. cbn [app]. fold spaces. rewrite Hd.
  destruct (strtoul_to_string (n * spaces)) as [-> _]; [nia|]. unfold u32. rewrite (Z.mod_small (n * spaces)) by nia. rewrite Z.add_0_l.
  rewrite (proj2 (Z.ltb_lt 0 spaces)), (proj2 (Z.ltb_lt 0 _)) by nia. cbn [andb]. rewrite Z.div_mul by lia. unfold Hybi00.htonl.
  assert (Hr : length (rev (le_bytes 4 n)) = 4%nat) by (by rewrite length_rev).
  rewrite <- Hr at 1. apply host_bytes_val. apply Forall_rev, le_bytes_ok.
Qed.

(** ** The answer to a handshake *)
Definition challenge (n1 n2 : Z) (key3 : str) : list Z := rev (le_bytes 4 n1) ++ rev (le_bytes 4 n2) ++ bytes_of key3.
(** A key whose digits are those of [n * spaces] hides the number [n]. *)
Definition hides (key : str) (n : Z) : Prop :=
  let spaces := Z.of_nat (length (filter (λ c, c = " "%char) key)) in
  0 < n ∧ 0 < spaces ∧ n * spaces < 2 ^ 32 ∧ Z.of_nat (length key) < 2 ^ 32 ∧ filter (λ c, is_number_char c = true) key = to_string (n * spaces).
Lemma decode_hides key n : hides key n → Hybi00.decode_client_key key = rev (le_bytes 4 n).
Proof. intros (? & ? & ? & ? & ?). by apply decode_hidden. Qed.
Lemma challenge_ok n1 n2 key3 : bytes_ok (challenge n1 n2 key3).
Proof.
  unfold challenge. apply Forall_app; split; [apply Forall_rev, le_bytes_ok|]. apply Forall_app; split; [apply Forall_rev, le_bytes_ok|]. unfold bytes_of. apply Forall_fmap, Forall_true.
  intros c. unfold byte_ok, code. simpl. pose proof (nat_ascii_bounded c). lia.
Qed.
Lemma key_final_challenge k0 r n1 n2 key3 : length k0 = 16%nat → length key3 = 8%nat →
  hides (get_header (lit "Sec-WebSocket-Key1") (req r)) n1 → hides (get_header (lit "Sec-WebSocket-Key2") (req r)) n2 →
  get_header (lit "Sec-WebSocket-Key3") (req r) = key3 → Hybi00.key_final k0 r = challenge n1 n2 key3.
Proof.
  intros Hk Hl H1 H2 H3. unfold Hybi00.key_final, challenge. rewrite (decode_hides _ n1), (decode_hides _ n2), H3 by done.
  assert (Hb : length (bytes_of key3) = 8%nat) by (unfold bytes_of; by rewrite length_fmap). rewrite take_ge by lia.
  rewrite Hb, drop_ge by lia. by rewrite app_nil_r.
Qed.
End Stream.

(** ** Theorems *)

(** A server that speaks the oldest draft receives exactly the texts that are sent with it,
    in order, however the stream is cut, and is ready for the next. *)
Theorem texts_delivered `{Machine} ps chunks secure : Forall bytes_ok ps → Forall (λ p, validate p = Ok true) ps →
  send_texts ps = Ok (concat chunks) →
  ∃ ms s, read_all00 chunks (Hybi00.new_hybi00 secure) = Ok (ms, None, s) ∧ m_payload <$> ms = ps ∧ between s None.
Proof.
  intros Hb Hv Hs. rewrite send_texts_wire in Hs by done. injection Hs as Hs. apply (read_all00_spec _ _ None); [done|]. rewrite <- Hs. by apply byte_in_texts.
Qed.
Lemma texts_delivered_witness :
  ∃ ms s, @read_all00 x86_64 [[0; 104]; [105; 255; 0; 195]; [169; 255]] (Hybi00.new_hybi00 false) = Ok (ms, None, s) ∧ m_payload <$> ms = [[104; 105]; [195; 169]] ∧ between s None.
Proof.
  apply (@texts_delivered x86_64 [[104; 105]; [195; 169]]); [unfold bytes_ok, byte_ok; repeat constructor; lia|repeat constructor|done].
Defined.

(** The answer of the oldest draft carries the digest of the two hidden numbers and the eight
    bytes, and repeats the origin, the place and the subprotocol; the digest is written
    behind the headers. *)
Theorem draft_00_answer `{Machine} buf0 k0 s r sub n1 n2 u : length buf0 = 64%nat → length k0 = 16%nat →
  hides (get_header (lit "Sec-WebSocket-Key1") (req r)) n1 → hides (get_header (lit "Sec-WebSocket-Key2") (req r)) n2 →
  length (get_header (lit "Sec-WebSocket-Key3") (req r)) = 8%nat → Hybi00.get_uri s r = Ok u →
  ∃ a, Hybi00.process_handshake buf0 k0 s r sub new_response = Returns (None, a) ∧
    m_headers (rep (set_rep (remove_header (lit "Sec-WebSocket-Key3") (rep a)) a)) =
      [(lit "Connection", lit "Upgrade"); (lit "Sec-WebSocket-Location", uri_str u); (lit "Sec-WebSocket-Origin", get_header (lit "Origin") (req r))]
      ++ (if bool_decide (sub = []) then [] else [(lit "Sec-WebSocket-Protocol", sub)]) ++ [(lit "Upgrade", lit "WebSocket")] ∧
    Hybi00.get_raw a = response_raw (set_rep (remove_header (lit "Sec-WebSocket-Key3") (rep a)) a)
      ++ text_of (md5_spec (challenge n1 n2 (get_header (lit "Sec-WebSocket-Key3") (req r)))).
Proof.
  intros Hl Hk H1 H2 H3 Hu. unfold Hybi00.process_handshake. rewrite (key_final_challenge k0 r n1 n2 _ Hk H3 H1 H2 eq_refl).
  rewrite md5_hash_string_spec by (done || apply challenge_ok). rewrite Hu. cbn [lift mbind outcome_bind].
  generalize (text_of (md5_spec (challenge n1 n2 (get_header (lit "Sec-WebSocket-Key3") (req r))))) (get_header (lit "Origin") (req r)) (uri_str u).
  clear. intros digest origin place. unfold Hybi00.get_raw.
  destruct (bool_decide (sub = [])); cbn; (eexists; split; [reflexivity|]); split; vm_compute; reflexivity.
Qed.

(** The example of the draft: its answer is "8jKS'y:G*Co,Wxa-". *)
Definition draft_request : request :=
  let headers := [(lit "Host", lit "example.com"); (lit "Origin", lit "http://example.com"); (lit "Sec-WebSocket-Key1", lit "4 @1  46546xW%0l 1 5");
    (lit "Sec-WebSocket-Key2", lit "12998 5 Y3 1  .P00"); (lit "Sec-WebSocket-Key3", lit "^n:ds[4U")] in
  mkRequest (mkParser (lit "HTTP/1.1") headers 0 [] 0 0 unknown) None (lit "GET") (lit "/demo") true.
Example draft_00_digest :
  @md5_hash_string x86_64 (replicate 64 0) (@Hybi00.key_final x86_64 (replicate 16 0) draft_request) = Ok (bytes_of (lit "8jKS'y:G*Co,Wxa-")).
Proof. vm_compute. reflexivity. Qed.
Lemma draft_00_answer_witness :
  ∃ a, @Hybi00.process_handshake x86_64 (replicate 64 7) (replicate 16 7) (Hybi00.new_hybi00 false) draft_request (lit "sample") new_response = Returns (None, a) ∧
    m_headers (rep (set_rep (remove_header (lit "Sec-WebSocket-Key3") (rep a)) a)) =
      [(lit "Connection", lit "Upgrade"); (lit "Sec-WebSocket-Location", uri_str (mkUri (lit "ws") (lit "example.com") (lit "/demo") 80 false true));
       (lit "Sec-WebSocket-Origin", lit "http://example.com"); (lit "Sec-WebSocket-Protocol", lit "sample"); (lit "Upgrade", lit "WebSocket")] ∧
    Hybi00.get_raw a = response_raw (set_rep (remove_header (lit "Sec-WebSocket-Key3") (rep a)) a)
      ++ text_of (md5_spec (challenge 829309203 259970620 (lit "^n:ds[4U"))).
Proof.
  apply (@draft_00_answer x86_64 (replicate 64 7) (replicate 16 7) (Hybi00.new_hybi00 false) draft_request (lit "sample") 829309203 259970620); try done;
    by (split_and!; try done; vm_compute).
Defined.

(** The frame with which a version 0 connection is closed is a protocol violation for the
    reader of the same version. *)
Lemma close_00_rejected : ∃ m s, Hybi00.prepare_close (Some (text_message [])) = (None, Some m) ∧
  @Hybi00.consume x86_64 (wire m) (Hybi00.new_hybi00 false) = Ok (0%nat, make_error_code protocol_violation, s) ∧
  @Hybi00.consume x86_64 [0; 104] s = Ok (0%nat, None, s).
Proof. eexists _, _. split_and!; reflexivity. Qed.
