(* ===== verification/WsConnection.v ===== *)
(** * Websocket connections: class [connection]
    (src/websocketpp-master/websocketpp/connection.hpp and impl/connection_impl.hpp, over the
    transport of transport/asio/connection.hpp)

    A connection is driven by its transport: every operation it starts (a read, a write, a
    timer, a posted task) is recorded in its state, and a step completes one of them with
    a result of the environment's choice and runs the handler.  The user's handlers are
    programs that call the connection back.  Handlers of one connection do not overlap, as
    the strand of the transport guarantees. *)

From S2P Require Import Prelude Bytes StdString SortedKeys HttpText HttpParser Uri WsFrame Utf8 WsProcessor WsHandshake WsHybi00.

Open Scope Z_scope.

(** ** The text of errors (error.hpp, processors/base.hpp, transport/base/connection.hpp,
    extensions/permessage_deflate/enabled.hpp, extensions/extension.hpp) *)
Definition library_message (e : error.value) : string :=
  match e with
  | error.general => "Generic error"
  | error.send_queue_full => "send queue full"
  | error.payload_violation => "payload violation"
  | error.endpoint_not_secure => "endpoint not secure"
  | error.endpoint_unavailable => "endpoint not available"
  | error.invalid_uri => "invalid uri"
  | error.no_outgoing_buffers => "no outgoing message buffers"
  | error.no_incoming_buffers => "no incoming message buffers"
  | error.invalid_state => "invalid state"
  | error.bad_close_code => "Unable to extract close code"
  | error.invalid_close_code => "Extracted close code is in an invalid range"
  | error.reserved_close_code => "Extracted close code is in a reserved range"
  | error.invalid_utf8 => "Invalid UTF-8"
  | error.invalid_subprotocol => "Invalid subprotocol"
  | error.bad_connection => "Bad Connection"
  | error.test => "Test Error"
  | error.con_creation_failed => "Connection creation attempt failed"
  | error.unrequested_subprotocol => "Selected subprotocol was not requested by the client"
  | error.client_only => "Feature not available on server endpoints"
  | error.server_only => "Feature not available on client endpoints"
  | error.http_connection_ended => "HTTP connection ended"
  | error.open_handshake_timeout => "The opening handshake timed out"
  | error.close_handshake_timeout => "The closing handshake timed out"
  | error.invalid_port => "Invalid URI port"
  | error.async_accept_not_listening => "Async Accept not listening"
  | error.operation_canceled => "Operation canceled"
  | error.rejected => "Connection rejected"
  | error.upgrade_required => "Upgrade required"
  | error.invalid_version => "Invalid version"
  | error.unsupported_version => "Unsupported version"
  | error.http_parse_error => "HTTP parse error"
  | error.extension_neg_failed => "Extension negotiation failed"
  end.
Definition processor_message (e : processor_errors) : string :=
  match e with
  | general => "Generic processor error"
  | bad_request => "invalid user input"
  | protocol_violation => "Generic protocol violation"
  | message_too_big => "A message was too large"
  | invalid_payload => "A payload contained invalid data"
  | invalid_arguments => "invalid function arguments"
  | invalid_opcode => "invalid opcode"
  | control_too_big => "Control messages are limited to fewer than 125 characters"
  | invalid_rsv_bit => "Invalid use of reserved bits"
  | fragmented_control => "Control messages cannot be fragmented"
  | invalid_continuation => "Invalid message continuation"
  | masking_required => "Clients may not send unmasked frames"
  | masking_forbidden => "Servers may not send masked frames"
  | non_minimal_encoding => "Payload length was not minimally encoded"
  | requires_64bit => "64 bit frames are not supported on 32 bit systems"
  | invalid_utf8 => "Invalid UTF8 encoding"
  | not_implemented => "Operation required not implemented functionality"
  | invalid_http_method => "Invalid HTTP method."
  | invalid_http_version => "Invalid HTTP version."
  | invalid_http_status => "Invalid HTTP status."
  | missing_required_header => "A required HTTP header is missing"
  | sha1_library => "SHA-1 library error"
  | no_protocol_support => "The WebSocket protocol version in use does not support this feature"
  | reserved_close_code => "Reserved close code used"
  | invalid_close_code => "Invalid close code used"
  | reason_requires_code => "Using a close reason requires a valid close code"
  | subprotocol_parse_error => "Error parsing subprotocol header"
  | extension_parse_error => "Error parsing extension header"
  | extensions_disabled => "Extensions are disabled"
  | short_key3 => "Short Hybi00 Key 3 read"
  end.
Definition transport_message (e : transport_error.value) : string :=
  match e with
  | transport_error.general => "Generic transport policy error"
  | transport_error.pass_through => "Underlying Transport Error"
  | transport_error.invalid_num_bytes => "async_read_at_least call requested more bytes than buffer can store"
  | transport_error.double_read => "Unknown"
  | transport_error.operation_aborted => "The operation was aborted"
  | transport_error.operation_not_supported => "The operation is not supported by this transport"
  | transport_error.eof => "End of File"
  | transport_error.tls_short_read => "TLS Short Read"
  | transport_error.timeout => "Timer Expired"
  | transport_error.action_after_shutdown => "A transport action was requested after shutdown"
  | transport_error.tls_error => "Generic TLS related error"
  end.
Definition deflate_message (e : deflate_error.value) : string :=
  match e with
  | deflate_error.general => "Generic permessage-compress error"
  | deflate_error.invalid_attributes => "Invalid extension attributes"
  | deflate_error.invalid_attribute_value => "Invalid extension attribute value"
  | deflate_error.invalid_mode => "Invalid permessage-deflate negotiation mode"
  | deflate_error.unsupported_attributes => "Unsupported extension attributes"
  | deflate_error.invalid_max_window_bits => "Invalid value for max_window_bits"
  | deflate_error.zlib_error => "A zlib function returned an error"
  | deflate_error.uninitialized => "Deflate extension must be initialized before use"
  end.
Definition ec_message (e : error_code) : list Z :=
  bytes_of (lit match e with
    | processor_ec e => processor_message e
    | library_ec e => library_message e
    | transport_ec e => transport_message e
    | deflate_ec e => deflate_message e
    | extension_disabled => "Use of methods from disabled extension"
    end).

(** ** States and operations *)
Inductive session_state := connecting | open | closing | closed.
Inductive internal_state :=
  | USER_INIT | TRANSPORT_INIT | READ_HTTP_REQUEST | WRITE_HTTP_REQUEST | READ_HTTP_RESPONSE | WRITE_HTTP_RESPONSE
  | PROCESS_HTTP_REQUEST | PROCESS_CONNECTION.
Inductive http_progress := http_init | http_deferred | headers_written | body_written | http_closed.
Inductive terminate_status := status_failed | status_closed.
#[global] Instance session_state_eq_dec : EqDecision session_state.
Proof. solve_decision. Defined.
#[global] Instance internal_state_eq_dec : EqDecision internal_state.
Proof. solve_decision. Defined.
#[global] Instance http_progress_eq_dec : EqDecision http_progress.
Proof. solve_decision. Defined.

(** What the transport will call back. *)
Inductive task := write_frame_task | pause_reading_task | resume_reading_task | interrupt_task.
Inductive read_handler := read_handshake_handler | read_http_response_handler | read_frame_handler.
Inductive write_handler := write_http_response_handler | send_http_request_handler | write_frame_handler.
Inductive timer_handler := open_handshake_timeout | close_handshake_timeout | pong_timeout (payload : list Z).
Inductive timer_state := waiting_timer | expired_timer | cancelled_timer.
Record timer := mkTimer { timer_id : nat; timer_calls : timer_handler; timer_is : timer_state }.
#[global] Instance write_handler_eq_dec : EqDecision write_handler.
Proof. solve_decision. Defined.
#[global] Instance timer_state_eq_dec : EqDecision timer_state.
Proof. solve_decision. Defined.

(** Calls of the user's handlers. *)
Inductive callback :=
  | on_open | on_close | on_fail | on_ping (payload : list Z) | on_pong (payload : list Z) | on_pong_timeout (payload : list Z)
  | on_interrupt | on_http | on_validate | on_message (m : message) | on_termination.

Section Connection.
Context `{Machine} `{Extension}.

(** The processor of the version negotiated: class [hybi13] for versions 13, 8 and 7. *)
Inductive processor := v00 (p : Hybi00.hybi00) | v13 (version : Z) (p : hybi13).

(** ** State

    The fields of the connection by what they are for: the state of the session, the messages
    on their way out ([accepted] is a history variable: all that was queued so far), the
    operations the transport has not completed ([sent]: the bytes the peer gets), the
    handshake; [trace] is the history of the
    points at which a handler is called if it is set. *)
Record session := mkSession {
  m_state : session_state;
  m_internal_state : internal_state;
  m_is_http : bool;
  m_http_state : http_progress;
  m_was_clean : bool;
  m_ec : option error_code;
  m_local_close_code : Z;
  m_local_close_reason : list Z;
  m_remote_close_code : Z;
  m_remote_close_reason : list Z;
}.
Record outgoing := mkOutgoing {
  m_send_queue : list message;
  m_send_buffer_size : Z;
  m_send_buffer : list (list Z);
  m_current_msgs : list message;
  m_write_flag : bool;
  accepted : list message;
}.
Record transport := mkTransport {
  tasks : list task;
  reads : list read_handler;
  writes : list (write_handler * list Z);
  timers : list timer;
  next_timer : nat;
  sent : list (write_handler * list Z);
  shut : bool;
}.
Record http_data := mkHttp {
  m_request : request;
  m_response : response;
  m_uri : option uri;
  m_subprotocol : str;
  m_requested_subprotocols : list str;
  m_handshake_buffer : str;
}.
Record conn := mkConn {
  session_of : session;
  outgoing_of : outgoing;
  transport_of : transport;
  http_of : http_data;
  m_processor : option processor;
  m_buf : list Z;
  m_buf_cursor : nat;
  m_read_flag : bool;
  m_handshake_timer : option nat;
  m_ping_timer : option nat;
  trace : list callback;
}.

Definition put_m_state (v : session_state) (r : session) : session := mkSession v (m_internal_state r) (m_is_http r) (m_http_state r) (m_was_clean r) (m_ec r) (m_local_close_code r) (m_local_close_reason r) (m_remote_close_code r) (m_remote_close_reason r).
Definition put_internal_state (v : internal_state) (r : session) : session := mkSession (m_state r) v (m_is_http r) (m_http_state r) (m_was_clean r) (m_ec r) (m_local_close_code r) (m_local_close_reason r) (m_remote_close_code r) (m_remote_close_reason r).
Definition put_is_http (v : bool) (r : session) : session := mkSession (m_state r) (m_internal_state r) v (m_http_state r) (m_was_clean r) (m_ec r) (m_local_close_code r) (m_local_close_reason r) (m_remote_close_code r) (m_remote_close_reason r).
Definition put_http_state (v : http_progress) (r : session) : session := mkSession (m_state r) (m_internal_state r) (m_is_http r) v (m_was_clean r) (m_ec r) (m_local_close_code r) (m_local_close_reason r) (m_remote_close_code r) (m_remote_close_reason r).
Definition put_was_clean (v : bool) (r : session) : session := mkSession (m_state r) (m_internal_state r) (m_is_http r) (m_http_state r) v (m_ec r) (m_local_close_code r) (m_local_close_reason r) (m_remote_close_code r) (m_remote_close_reason r).
Definition put_ec (v : option error_code) (r : session) : session := mkSession (m_state r) (m_internal_state r) (m_is_http r) (m_http_state r) (m_was_clean r) v (m_local_close_code r) (m_local_close_reason r) (m_remote_close_code r) (m_remote_close_reason r).
Definition put_local_close_code (v : Z) (r : session) : session := mkSession (m_state r) (m_internal_state r) (m_is_http r) (m_http_state r) (m_was_clean r) (m_ec r) v (m_local_close_reason r) (m_remote_close_code r) (m_remote_close_reason r).
Definition put_local_close_reason (v : list Z) (r : session) : session := mkSession (m_state r) (m_internal_state r) (m_is_http r) (m_http_state r) (m_was_clean r) (m_ec r) (m_local_close_code r) v (m_remote_close_code r) (m_remote_close_reason r).
Definition put_remote_close_code (v : Z) (r : session) : session := mkSession (m_state r) (m_internal_state r) (m_is_http r) (m_http_state r) (m_was_clean r) (m_ec r) (m_local_close_code r) (m_local_close_reason r) v (m_remote_close_reason r).
Definition put_remote_close_reason (v : list Z) (r : session) : session := mkSession (m_state r) (m_internal_state r) (m_is_http r) (m_http_state r) (m_was_clean r) (m_ec r) (m_local_close_code r) (m_local_close_reason r) (m_remote_close_code r) v.
Definition put_send_queue (v : list message) (r : outgoing) : outgoing := mkOutgoing v (m_send_buffer_size r) (m_send_buffer r) (m_current_msgs r) (m_write_flag r) (accepted r).
Definition put_send_buffer_size (v : Z) (r : outgoing) : outgoing := mkOutgoing (m_send_queue r) v (m_send_buffer r) (m_current_msgs r) (m_write_flag r) (accepted r).
Definition put_send_buffer (v : list (list Z)) (r : outgoing) : outgoing := mkOutgoing (m_send_queue r) (m_send_buffer_size r) v (m_current_msgs r) (m_write_flag r) (accepted r).
Definition put_current_msgs (v : list message) (r : outgoing) : outgoing := mkOutgoing (m_send_queue r) (m_send_buffer_size r) (m_send_buffer r) v (m_write_flag r) (accepted r).
Definition put_write_flag (v : bool) (r : outgoing) : outgoing := mkOutgoing (m_send_queue r) (m_send_buffer_size r) (m_send_buffer r) (m_current_msgs r) v (accepted r).
Definition put_accepted (v : list message) (r : outgoing) : outgoing := mkOutgoing (m_send_queue r) (m_send_buffer_size r) (m_send_buffer r) (m_current_msgs r) (m_write_flag r) v.
Definition put_tasks (v : list task) (r : transport) : transport := mkTransport v (reads r) (writes r) (timers r) (next_timer r) (sent r) (shut r).
Definition put_reads (v : list read_handler) (r : transport) : transport := mkTransport (tasks r) v (writes r) (timers r) (next_timer r) (sent r) (shut r).
Definition put_writes (v : list (write_handler * list Z)) (r : transport) : transport := mkTransport (tasks r) (reads r) v (timers r) (next_timer r) (sent r) (shut r).
Definition put_timers (v : list timer) (r : transport) : transport := mkTransport (tasks r) (reads r) (writes r) v (next_timer r) (sent r) (shut r).
Definition put_next_timer (v : nat) (r : transport) : transport := mkTransport (tasks r) (reads r) (writes r) (timers r) v (sent r) (shut r).
Definition put_sent (v : list (write_handler * list Z)) (r : transport) : transport := mkTransport (tasks r) (reads r) (writes r) (timers r) (next_timer r) v (shut r).
Definition put_shut (v : bool) (r : transport) : transport := mkTransport (tasks r) (reads r) (writes r) (timers r) (next_timer r) (sent r) v.
Definition put_request (v : request) (r : http_data) : http_data := mkHttp v (m_response r) (m_uri r) (m_subprotocol r) (m_requested_subprotocols r) (m_handshake_buffer r).
Definition put_response (v : response) (r : http_data) : http_data := mkHttp (m_request r) v (m_uri r) (m_subprotocol r) (m_requested_subprotocols r) (m_handshake_buffer r).
Definition put_uri (v : option uri) (r : http_data) : http_data := mkHttp (m_request r) (m_response r) v (m_subprotocol r) (m_requested_subprotocols r) (m_handshake_buffer r).
Definition put_subprotocol (v : str) (r : http_data) : http_data := mkHttp (m_request r) (m_response r) (m_uri r) v (m_requested_subprotocols r) (m_handshake_buffer r).
Definition put_requested_subprotocols (v : list str) (r : http_data) : http_data := mkHttp (m_request r) (m_response r) (m_uri r) (m_subprotocol r) v (m_handshake_buffer r).
Definition put_handshake_buffer (v : str) (r : http_data) : http_data := mkHttp (m_request r) (m_response r) (m_uri r) (m_subprotocol r) (m_requested_subprotocols r) v.
Definition put_session (v : session) (r : conn) : conn := mkConn v (outgoing_of r) (transport_of r) (http_of r) (m_processor r) (m_buf r) (m_buf_cursor r) (m_read_flag r) (m_handshake_timer r) (m_ping_timer r) (trace r).
Definition put_outgoing (v : outgoing) (r : conn) : conn := mkConn (session_of r) v (transport_of r) (http_of r) (m_processor r) (m_buf r) (m_buf_cursor r) (m_read_flag r) (m_handshake_timer r) (m_ping_timer r) (trace r).
Definition put_transport (v : transport) (r : conn) : conn := mkConn (session_of r) (outgoing_of r) v (http_of r) (m_processor r) (m_buf r) (m_buf_cursor r) (m_read_flag r) (m_handshake_timer r) (m_ping_timer r) (trace r).
Definition put_http (v : http_data) (r : conn) : conn := mkConn (session_of r) (outgoing_of r) (transport_of r) v (m_processor r) (m_buf r) (m_buf_cursor r) (m_read_flag r) (m_handshake_timer r) (m_ping_timer r) (trace r).
Definition put_processor (v : option processor) (r : conn) : conn := mkConn (session_of r) (outgoing_of r) (transport_of r) (http_of r) v (m_buf r) (m_buf_cursor r) (m_read_flag r) (m_handshake_timer r) (m_ping_timer r) (trace r).
Definition put_buf (v : list Z) (r : conn) : conn := mkConn (session_of r) (outgoing_of r) (transport_of r) (http_of r) (m_processor r) v (m_buf_cursor r) (m_read_flag r) (m_handshake_timer r) (m_ping_timer r) (trace r).
Definition put_buf_cursor (v : nat) (r : conn) : conn := mkConn (session_of r) (outgoing_of r) (transport_of r) (http_of r) (m_processor r) (m_buf r) v (m_read_flag r) (m_handshake_timer r) (m_ping_timer r) (trace r).
Definition put_read_flag (v : bool) (r : conn) : conn := mkConn (session_of r) (outgoing_of r) (transport_of r) (http_of r) (m_processor r) (m_buf r) (m_buf_cursor r) v (m_handshake_timer r) (m_ping_timer r) (trace r).
Definition put_handshake_timer (v : option nat) (r : conn) : conn := mkConn (session_of r) (outgoing_of r) (transport_of r) (http_of r) (m_processor r) (m_buf r) (m_buf_cursor r) (m_read_flag r) v (m_ping_timer r) (trace r).
Definition put_ping_timer (v : option nat) (r : conn) : conn := mkConn (session_of r) (outgoing_of r) (transport_of r) (http_of r) (m_processor r) (m_buf r) (m_buf_cursor r) (m_read_flag r) (m_handshake_timer r) v (trace r).
Definition put_trace (v : list callback) (r : conn) : conn := mkConn (session_of r) (outgoing_of r) (transport_of r) (http_of r) (m_processor r) (m_buf r) (m_buf_cursor r) (m_read_flag r) (m_handshake_timer r) (m_ping_timer r) v.
Definition in_session (f : session → session) (c : conn) : conn := put_session (f (session_of c)) c.
Definition in_outgoing (f : outgoing → outgoing) (c : conn) : conn := put_outgoing (f (outgoing_of c)) c.
Definition in_transport (f : transport → transport) (c : conn) : conn := put_transport (f (transport_of c)) c.
Definition in_http (f : http_data → http_data) (c : conn) : conn := put_http (f (http_of c)) c.

(** ** Configuration and environment *)
Record configuration := mkConfig {
  is_server : bool;
  is_secure : bool;
  client_version : Z;
  connection_read_buffer_size : nat;
  drop_on_protocol_error : bool;
  silent_close : bool;
  enable_extensions : bool;
  m_user_agent : str;
  m_max_message_size : Z;
  m_open_handshake_timeout_dur : Z;
  m_close_handshake_timeout_dur : Z;
  m_pong_timeout_dur : Z;
  m_max_http_body_size : Z;
}.
Variable config : configuration.
Variable rng : nat → Z.               (** the random generator *)
Variable w0 buf0 key_final0 : list Z. (** arrays that are not initialised *)
Variable deflate0 : deflate_state.    (** a new extension object *)

(** Calls a user's handler makes, with what it does with the results. *)
Inductive call :=
  | Send (payload : list Z) (op : Z) | SendBytes (payload : list Z) (op : Z) | SendMessage (m : message)
  | Ping (payload : list Z) | Pong (payload : list Z) | Close (code : Z) (reason : list Z)
  | PauseReading | ResumeReading | Interrupt
  | SetStatus (code : Z) | SetStatusMsg (code : Z) (msg : str) | SetBody (value : str)
  | AppendHeader (key val : str) | ReplaceHeader (key val : str) | RemoveHeader (key : str)
  | DeferHttpResponse | SendHttpResponse | AddSubprotocol (value : str) | SelectSubprotocol (value : str) | SetUri (u : uri).
(** An error code, returned or inside an exception, or an [http::exception]. *)
Inductive result := Replied (ec : option error_code) | Raised (e : exception).
Inductive program := Answer (b : bool) | Call (a : call) (k : result → conn → program).
(** The handlers that are set: each sees the connection and runs a program. *)
Variable app : callback → option (conn → program).

(** ** The transport *)
Definition add_task (t : task) (c : conn) : conn := in_transport (λ r, put_tasks (tasks r ++ [t]) r) c.
Definition async_read (h : read_handler) (c : conn) : conn := in_transport (λ r, put_reads (reads r ++ [h]) r) c.
Definition async_write (h : write_handler) (bytes : list Z) (c : conn) : conn := in_transport (λ r, put_writes (writes r ++ [(h, bytes)]) r) c.
(** [set_timer]: the handle of the new timer. *)
Definition set_timer (h : timer_handler) (c : conn) : nat * conn :=
  let n := next_timer (transport_of c) in
  (n, in_transport (λ r, put_next_timer (S n) (put_timers (timers r ++ [mkTimer n h waiting_timer]) r)) c).
(** A timer that has expired already is not cancelled. *)
Definition cancel_timer (id : nat) (t : timer) : timer :=
  if bool_decide (timer_id t = id) && bool_decide (timer_is t = waiting_timer) then mkTimer id (timer_calls t) cancelled_timer else t.
Definition cancel (id : nat) (c : conn) : conn := in_transport (λ r, put_timers (cancel_timer id <$> timers r) r) c.
Definition cancel_handshake_timer (c : conn) : conn :=
  match m_handshake_timer c with Some id => put_handshake_timer None (cancel id c) | None => c end.
Definition start_handshake_timer (h : timer_handler) (duration : Z) (c : conn) : conn :=
  if 0 <? duration then let '(id, c) := set_timer h c in put_handshake_timer (Some id) c else c.

(** ** Processors *)
Definition deref_processor (c : conn) : outcome processor := match m_processor c with Some p => mret p | None => Stuck NullDeref end.
Definition deref_uri (c : conn) : outcome uri := match m_uri (http_of c) with Some u => mret u | None => Stuck NullDeref end.
Definition get_version (p : processor) : Z := match p with v00 _ => 0 | v13 v _ => v end.
Definition processor_validate_handshake (p : processor) (r : request) : option error_code :=
  match p with v00 _ => Hybi00.validate_handshake r | v13 _ _ => validate_handshake r end.
Definition processor_negotiate (p : processor) (header : parser) : res (option error_code * str * processor) :=
  match p with
  | v00 _ => mret (None, [], p)
  | v13 v s => '(ec, answer, s) ← negotiate_extensions (enable_extensions config) header s; mret (ec, answer, v13 v s)
  end.
Definition processor_get_uri (p : processor) (r : request) : res uri :=
  match p with v00 s => Hybi00.get_uri s r | v13 _ _ => WsHandshake.get_uri (is_secure config) r end.
Definition processor_get_origin (p : processor) (r : request) : str :=
  match p with
  | v00 _ => Hybi00.get_origin r
  | v13 v _ => if v =? 13 then WsHandshake.get_origin r else get_header (lit "Sec-WebSocket-Origin") (req r)
  end.
Definition processor_extract_subprotocols (p : processor) (r : request) (l : list str) : res (option error_code * list str) :=
  match p with v00 _ => Hybi00.extract_subprotocols r l | v13 _ _ => extract_subprotocols r l end.
Definition processor_process_handshake (p : processor) (r : request) (subprotocol : str) (a : response) : outcome (option error_code * response) :=
  match p with
  | v00 s => Hybi00.process_handshake buf0 key_final0 s r subprotocol a
  | v13 _ _ => a ← process_handshake w0 r subprotocol a; mret (None, a)
  end.
Definition processor_client_handshake_request (p : processor) (u : uri) (subs : list str) (r : request) : outcome (option error_code * request * processor) :=
  match p with
  | v00 _ => mret (Hybi00.client_handshake_request, r, p)
  | v13 v s =>
      if v =? 13 then '(r, s) ← client_handshake_request rng u subs s r; mret (None, r, v13 v s)
      else mret (make_error_code no_protocol_support, r, p)
  end.
Definition processor_validate_server (p : processor) (r : request) (a : response) : res (option error_code) :=
  match p with v00 _ => mret Hybi00.validate_server_handshake_response | v13 _ _ => validate_server_handshake_response w0 r a end.
Definition processor_get_raw (p : processor) (a : response) : str := match p with v00 _ => Hybi00.get_raw a | v13 _ _ => response_raw a end.
Definition processor_consume (buf : list Z) (p : processor) : res (nat * list Z * option error_code * processor) :=
  match p with
  | v00 s => '(n, ec, s) ← Hybi00.consume buf s; mret (n, buf, ec, v00 s)
  | v13 v s => '(n, buf, ec, s) ← WsProcessor.consume buf s; mret (n, buf, ec, v13 v s)
  end.
Definition processor_ready (p : processor) : bool := match p with v00 s => Hybi00.ready s | v13 _ s => ready s end.
Definition processor_get_message (p : processor) : res (option message * processor) :=
  match p with
  | v00 s => let '(m, s) := Hybi00.get_message s in mret (m, v00 s)
  | v13 v s => '(m, s) ← get_message s; mret (m, v13 v s)
  end.
Definition processor_prepare_data_frame (m out : option message) (p : processor) : res (option error_code * option message * processor) :=
  match p with
  | v00 _ => '(ec, out) ← Hybi00.prepare_data_frame m out; mret (ec, out, p)
  | v13 v s => '(ec, out, s) ← prepare_data_frame rng m out s; mret (ec, out, v13 v s)
  end.
Definition processor_prepare_ping (payload : list Z) (out : option message) (p : processor) : res (option error_code * option message * processor) :=
  match p with
  | v00 _ => let '(ec, out) := Hybi00.prepare_ping out in mret (ec, out, p)
  | v13 v s => '(ec, out, s) ← prepare_ping rng payload out s; mret (ec, out, v13 v s)
  end.
Definition processor_prepare_pong (payload : list Z) (out : option message) (p : processor) : res (option error_code * option message * processor) :=
  match p with
  | v00 _ => let '(ec, out) := Hybi00.prepare_pong out in mret (ec, out, p)
  | v13 v s => '(ec, out, s) ← prepare_pong rng payload out s; mret (ec, out, v13 v s)
  end.
Definition processor_prepare_close (code : Z) (reason : list Z) (out : option message) (p : processor) : res (option error_code * option message * processor) :=
  match p with
  | v00 _ => let '(ec, out) := Hybi00.prepare_close out in mret (ec, out, p)
  | v13 v s => '(ec, out, s) ← prepare_close rng code reason out s; mret (ec, out, v13 v s)
  end.
Definition get_processor (version : Z) : option processor :=
  if version =? 0 then Some (v00 (Hybi00.new_hybi00 (is_secure config)))
  else if (version =? 7) || (version =? 8) || (version =? 13) then Some (v13 version (new_hybi13 (is_server config) (m_max_message_size config) deflate0))
  else None.
Definition library (e : error.value) : option error_code := Some (library_ec e).

(** ** The queue of outgoing messages *)
Definition write_push (msg : option message) (c : conn) : conn :=
  match msg with
  | None => c
  | Some m => in_outgoing (λ o, put_accepted (accepted o ++ [m]) (put_send_queue (m_send_queue o ++ [m])
      (put_send_buffer_size (size_t (m_send_buffer_size o + Z.of_nat (length (m_payload m)))) o))) c
  end.
Definition write_pop (o : outgoing) : option message * outgoing :=
  match m_send_queue o with
  | [] => (None, o)
  | m :: q => (Some m, put_send_queue q (put_send_buffer_size (size_t (m_send_buffer_size o - Z.of_nat (length (m_payload m)))) o))
  end.
(** The end of [send], [ping], [pong] and [send_close_frame]. *)
Definition push_and_dispatch (msg : option message) (c : conn) : conn :=
  let c := write_push msg c in
  let o := outgoing_of c in
  if negb (m_write_flag o) && negb (bool_decide (m_send_queue o = [])) then add_task write_frame_task c else c.

(** The loop of [write_frame]: messages up to a terminal one, or all. *)
Fixpoint pop_messages (fuel : nat) (o : outgoing) : outgoing :=
  match fuel with
  | O => o
  | S fuel =>
      match write_pop o with
      | (None, o) => o
      | (Some m, o) =>
          let o := put_current_msgs (m_current_msgs o ++ [m]) o in
          if m_terminal m then o else pop_messages fuel o
      end
  end.
Definition write_frame (c : conn) : conn :=
  let o := outgoing_of c in
  if m_write_flag o then c
  else
    let o := pop_messages (length (m_send_queue o)) o in
    if bool_decide (m_current_msgs o = []) then put_outgoing o c
    else
      let bufs := m_send_buffer o ++ concat ((λ m, [m_header m; m_payload m]) <$> m_current_msgs o) in
      let o := put_send_buffer bufs (put_write_flag true o) in
      async_write write_frame_handler (concat bufs) (put_outgoing o c).

(** ** Calls of the user *)
Definition state_of (c : conn) : session_state := m_state (session_of c).
Definition new_buffer : message := mkMessage [] [] [] 0 false true false false.
Definition send (msg : message) (c : conn) : outcome (option error_code * conn) :=
  if negb (bool_decide (state_of c = open)) then mret (library error.invalid_state, c)
  else if m_prepared msg then mret (None, push_and_dispatch (Some msg) c)
  else
    p ← deref_processor c;
    '(ec, out, p) ← lift (processor_prepare_data_frame (Some msg) (Some new_buffer) p);
    let c := put_processor (Some p) c in
    match ec with Some e => mret (Some e, c) | None => mret (None, push_and_dispatch out c) end.
Definition send_text (payload : list Z) (op : Z) (c : conn) : outcome (option error_code * conn) :=
  msg ← lift (new_message op (Z.of_nat (length payload)));
  send (set_compressed true (append_payload payload msg)) c.
Definition send_bytes (payload : list Z) (op : Z) (c : conn) : outcome (option error_code * conn) :=
  msg ← lift (new_message op (Z.of_nat (length payload)));
  send (append_payload payload msg) c.

Definition start_ping_timer (payload : list Z) (c : conn) : conn :=
  match app (on_pong_timeout payload) with
  | None => c
  | Some _ =>
      let c := match m_ping_timer c with Some id => cancel id c | None => c end in
      if 0 <? m_pong_timeout_dur config then let '(id, c) := set_timer (pong_timeout payload) c in put_ping_timer (Some id) c else c
  end.
Definition ping (payload : list Z) (c : conn) : outcome (option error_code * conn) :=
  if negb (bool_decide (state_of c = open)) then mret (library error.invalid_state, c)
  else
    p ← deref_processor c;
    '(ec, msg, p) ← lift (processor_prepare_ping payload (Some new_buffer) p);
    let c := put_processor (Some p) c in
    match ec with
    | Some e => mret (Some e, c)
    | None => mret (None, push_and_dispatch msg (start_ping_timer payload c))
    end.
Definition pong (payload : list Z) (c : conn) : outcome (option error_code * conn) :=
  if negb (bool_decide (state_of c = open)) then mret (library error.invalid_state, c)
  else
    p ← deref_processor c;
    '(ec, msg, p) ← lift (processor_prepare_pong payload (Some new_buffer) p);
    let c := put_processor (Some p) c in
    match ec with Some e => mret (Some e, c) | None => mret (None, push_and_dispatch msg c) end.

(** The close code and reason that [send_close_frame] sends. *)
Definition close_info (code : Z) (reason : list Z) (ack : bool) (s : session) : Z * list Z :=
  if silent_close config then (status.no_status, [])
  else if negb (code =? status.blank) then (code, reason)
  else if negb ack then (status.no_status, [])
  else if m_remote_close_code s =? status.no_status then (status.normal, [])
  else (m_remote_close_code s, m_remote_close_reason s).
Definition send_close_frame (code : Z) (reason : list Z) (ack terminal : bool) (c : conn) : outcome (option error_code * conn) :=
  let '(code, reason) := close_info code reason ack (session_of c) in
  let c := in_session (λ s, put_local_close_reason reason (put_local_close_code code s)) c in
  p ← deref_processor c;
  '(ec, msg, p) ← lift (processor_prepare_close code reason (Some new_buffer) p);
  let c := put_processor (Some p) c in
  match ec with
  | Some e => mret (Some e, c)
  | None =>
      let msg := if terminal then set_terminal true <$> msg else msg in
      let c := in_session (put_m_state closing) c in
      let c := if ack then in_session (put_was_clean true) c else c in
      let c := start_handshake_timer close_handshake_timeout (m_close_handshake_timeout_dur config) c in
      mret (None, push_and_dispatch msg c)
  end.
Definition close (code : Z) (reason : list Z) (c : conn) : outcome (option error_code * conn) :=
  let tr := take (Z.to_nat (Z.min (Z.of_nat (length reason)) limits.close_reason_size)) reason in
  if negb (bool_decide (state_of c = open)) then mret (library error.invalid_state, c)
  else send_close_frame code tr false (status.terminal code) c.
Definition send_close_ack (code : Z) (reason : list Z) (c : conn) : outcome (option error_code * conn) :=
  send_close_frame code reason true (is_server config) c.

Definition pause_reading (c : conn) : conn := add_task pause_reading_task c.
Definition resume_reading (c : conn) : conn := add_task resume_reading_task c.
Definition interrupt (c : conn) : conn := add_task interrupt_task c.
Definition read_frame (c : conn) : conn := if m_read_flag c then async_read read_frame_handler c else c.
Definition handle_pause_reading (c : conn) : conn := put_read_flag false c.
Definition handle_resume_reading (c : conn) : conn := read_frame (put_read_flag true c).

(** ** HTTP handlers' calls *)
(** A call that is refused raises an exception with the code [invalid_state]. *)
Definition refused (c : conn) : result * conn := (Replied (library error.invalid_state), c).
Definition change_response (f : response → outcome response) (c : conn) : outcome (result * conn) :=
  match f (m_response (http_of c)) with
  | Returns a => mret (Replied None, in_http (put_response a) c)
  | Throws e => mret (Raised e, c)
  | Stuck e => Stuck e
  end.
Definition change_request (f : parser → outcome parser) (c : conn) : outcome (result * conn) :=
  match f (req (m_request (http_of c))) with
  | Returns p => mret (Replied None, in_http (put_request (set_req p (m_request (http_of c)))) c)
  | Throws e => mret (Raised e, c)
  | Stuck e => Stuck e
  end.
Definition in_state (s : internal_state) (c : conn) : bool := bool_decide (m_internal_state (session_of c) = s).
Definition conn_set_status (code : Z) (c : conn) : outcome (result * conn) :=
  if in_state PROCESS_HTTP_REQUEST c then change_response (λ a, mret (set_status code a)) c else mret (refused c).
Definition conn_set_status_msg (code : Z) (msg : str) (c : conn) : outcome (result * conn) :=
  if in_state PROCESS_HTTP_REQUEST c then change_response (λ a, mret (set_status_msg code msg a)) c else mret (refused c).
Definition conn_set_body (value : str) (c : conn) : outcome (result * conn) :=
  if in_state PROCESS_HTTP_REQUEST c then change_response (λ a, mret (set_rep (set_body value (rep a)) a)) c else mret (refused c).
(** Headers of the response of a server, of the request of a client. *)
Definition change_headers (f : parser → outcome parser) (c : conn) : outcome (result * conn) :=
  if is_server config then
    if in_state PROCESS_HTTP_REQUEST c then change_response (λ a, p ← f (rep a); mret (set_rep p a)) c else mret (refused c)
  else if in_state USER_INIT c then change_request f c else mret (refused c).
Definition conn_append_header (key val : str) : conn → outcome (result * conn) := change_headers (append_header key val).
Definition conn_replace_header (key val : str) : conn → outcome (result * conn) := change_headers (λ p, mret (replace_header key val p)).
Definition conn_remove_header (key : str) : conn → outcome (result * conn) := change_headers (λ p, mret (remove_header key p)).

Definition add_subprotocol (value : str) (c : conn) : result * conn :=
  if is_server config then (Replied (library error.client_only), c)
  else if bool_decide (value = []) || has_non_token value then (Replied (library error.invalid_subprotocol), c)
  else (Replied None, in_http (λ h, put_requested_subprotocols (m_requested_subprotocols h ++ [value]) h) c).
Definition select_subprotocol (value : str) (c : conn) : result * conn :=
  if negb (is_server config) then (Replied (library error.server_only), c)
  else if bool_decide (value = []) then (Replied None, c)
  else if negb (bool_decide (value ∈ m_requested_subprotocols (http_of c))) then (Replied (library error.unrequested_subprotocol), c)
  else (Replied None, in_http (put_subprotocol value) c).

(** ** Writing the response of a handshake *)
Definition handshake_raw (c : conn) : str :=
  let a := m_response (http_of c) in
  match m_processor c with Some p => processor_get_raw p a | None => response_raw a end.
Definition set_server_header (a : response) : response :=
  let p := rep a in
  if bool_decide (get_header (lit "Server") p = [])
  then set_rep (if bool_decide (m_user_agent config = []) then remove_header (lit "Server") p else replace_header (lit "Server") (m_user_agent config) p) a
  else a.
Definition write_http_response (ec : option error_code) (c : conn) : conn :=
  if bool_decide (ec = library error.http_connection_ended) then c
  else
    let a := m_response (http_of c) in
    let '(a, ec) := if m_status_code a =? status_code.uninitialized
      then (set_status status_code.internal_server_error a, library error.general) else (a, ec) in
    let a := set_server_header (set_rep (set_version (lit "HTTP/1.1") (rep a)) a) in
    let c := in_session (put_ec ec) (in_http (put_response a) c) in
    let raw := handshake_raw c in
    async_write write_http_response_handler (bytes_of raw) (in_http (put_handshake_buffer raw) c).

Definition defer_http_response (c : conn) : conn := in_session (put_http_state http_deferred) (cancel_handshake_timer c).
Definition send_http_response (c : conn) : option error_code * conn :=
  if negb (bool_decide (m_http_state (session_of c) = http_deferred)) then (library error.invalid_state, c)
  else (None, write_http_response None (in_session (put_http_state body_written) c)).

(** ** The user's handlers *)
Definition reply {A} (r : outcome (option error_code * A)) : outcome (result * A) := '(ec, c) ← r; mret (Replied ec, c).
Definition do_call (a : call) (c : conn) : outcome (result * conn) :=
  match a with
  | Send p op => reply (send_text p op c)
  | SendBytes p op => reply (send_bytes p op c)
  | SendMessage m => reply (send m c)
  | Ping p => reply (ping p c)
  | Pong p => reply (pong p c)
  | Close code reason => reply (close code reason c)
  | PauseReading => mret (Replied None, pause_reading c)
  | ResumeReading => mret (Replied None, resume_reading c)
  | Interrupt => mret (Replied None, interrupt c)
  | SetStatus code => conn_set_status code c
  | SetStatusMsg code msg => conn_set_status_msg code msg c
  | SetBody v => conn_set_body v c
  | AppendHeader k v => conn_append_header k v c
  | ReplaceHeader k v => conn_replace_header k v c
  | RemoveHeader k => conn_remove_header k c
  | DeferHttpResponse => mret (Replied None, defer_http_response c)
  | SendHttpResponse => reply (mret (send_http_response c))
  | AddSubprotocol v => mret (add_subprotocol v c)
  | SelectSubprotocol v => mret (select_subprotocol v c)
  | SetUri u => mret (Replied None, in_http (put_uri (Some u)) c)
  end.
Fixpoint run_program (p : program) (c : conn) : outcome (bool * conn) :=
  match p with
  | Answer b => mret (b, c)
  | Call a k => '(r, c) ← do_call a c; run_program (k r c) c
  end.
(** A handler that is set is called; its answer, true when there is none. *)
Definition notify (cb : callback) (c : conn) : outcome (bool * conn) :=
  let c := put_trace (trace c ++ [cb]) c in
  match app cb with None => mret (true, c) | Some h => run_program (h c) c end.
Definition tell (cb : callback) (c : conn) : outcome conn := '(_, c) ← notify cb c; mret c.
Definition is_set (cb : callback) : bool := match app cb with Some _ => true | None => false end.

(** ** The end of a connection *)
Definition handle_terminate (tstat : terminate_status) (c : conn) : outcome conn :=
  c ← match tstat with
      | status_failed => if bool_decide (m_ec (session_of c) = library error.http_connection_ended) then mret c else tell on_fail c
      | status_closed => tell on_close c
      end;
  tell on_termination c.
(** The shutdown of a plain socket is immediate. *)
Definition async_shutdown (tstat : terminate_status) (c : conn) : outcome conn := handle_terminate tstat (in_transport (put_shut true) c).
Definition terminate (ec : option error_code) (c : conn) : outcome conn :=
  let c := cancel_handshake_timer c in
  let c := match ec with
    | None => c
    | Some e => in_session (λ s, put_local_close_reason (ec_message e) (put_local_close_code status.abnormal_close (put_ec (Some e) s))) c
    end in
  let c := if m_is_http (session_of c) then in_session (put_http_state http_closed) c else c in
  match state_of c with
  | connecting => async_shutdown status_failed (in_session (put_m_state closed) c)
  | open | closing => async_shutdown status_closed (in_session (put_m_state closed) c)
  | closed => mret c
  end.

(** ** Frames *)
Definition handle_write_frame (ec : option error_code) (c : conn) : outcome conn :=
  match last (m_current_msgs (outgoing_of c)) with
  | None => Stuck OutOfBounds
  | Some m =>
      let terminal := m_terminal m in
      let c := in_outgoing (λ o, put_current_msgs [] (put_send_buffer [] o)) c in
      match ec with
      | Some e => terminate (Some e) c
      | None =>
          if terminal then terminate None c
          else
            let c := in_outgoing (put_write_flag false) c in
            mret (if negb (bool_decide (m_send_queue (outgoing_of c) = [])) then add_task write_frame_task c else c)
      end
  end.

(** A bad close frame: drop the connection or acknowledge it as a protocol error. *)
Definition reject_close (ec : option error_code) (why : string) (c : conn) : outcome conn :=
  if drop_on_protocol_error config then terminate ec c
  else '(_, c) ← send_close_ack status.protocol_error (bytes_of (lit why)) c; mret c.
Definition process_close_frame (msg : message) (c : conn) : outcome conn :=
  let '(code, ec) := extract_code (m_payload msg) in
  let c := in_session (put_remote_close_code code) c in
  match ec with
  | Some _ => reject_close ec "Invalid close code" c
  | None =>
      '(reason, ec) ← lift (extract_reason (m_payload msg));
      let c := in_session (put_remote_close_reason reason) c in
      match ec with
      | Some _ => reject_close ec "Invalid close reason" c
      | None =>
          if bool_decide (state_of c = open) then '(_, c) ← send_close_ack status.blank [] c; mret c
          else if bool_decide (state_of c = closing) && negb (m_was_clean (session_of c)) then
            let c := in_session (put_was_clean true) c in
            if is_server config then terminate None c else mret c
          else mret c
      end
  end.
Definition process_control_frame (msg : message) (c : conn) : outcome conn :=
  let op := m_opcode msg in
  if bool_decide (state_of c = closed) then mret c
  else if negb (op =? opcode.close) && negb (bool_decide (state_of c = open)) then mret c
  else if op =? opcode.ping then
    '(should_reply, c) ← notify (on_ping (m_payload msg)) c;
    if (should_reply : bool) then '(_, c) ← pong (m_payload msg) c; mret c else mret c
  else if op =? opcode.pong then
    c ← tell (on_pong (m_payload msg)) c;
    mret (match m_ping_timer c with Some id => cancel id c | None => c end)
  else if op =? opcode.close then process_close_frame msg c
  else mret c.

Definition dispatch_message (msg : option message) (c : conn) : outcome conn :=
  match msg with
  | None => mret c
  | Some m =>
      if negb (opcode.is_control (m_opcode m)) then
        if bool_decide (state_of c = open) then tell (on_message m) c else mret c
      else process_control_frame m c
  end.
(** What the connection does with an error in a frame. *)
Definition handle_consume_error (e : error_code) (c : conn) : outcome conn :=
  if drop_on_protocol_error config then terminate (Some e) c
  else
    '(close_ec, c) ← close (to_ws e) (ec_message e) c;
    match close_ec with Some e => terminate (Some e) c | None => mret c end.
(** The loop over the [n] bytes read, from byte [p] on. *)
Fixpoint frame_loop (fuel : nat) (n p : nat) (c : conn) : outcome conn :=
  match fuel with
  | O => Stuck OutOfFuel
  | S fuel =>
      if (p <? n)%nat then
        s ← deref_processor c;
        '(k, bytes, ec, s) ← lift (processor_consume (take (n - p) (drop p (m_buf c))) s);
        let c := put_buf (take p (m_buf c) ++ bytes ++ drop n (m_buf c)) (put_processor (Some s) c) in
        match ec with
        | Some e => handle_consume_error e c
        | None =>
            c ← (if processor_ready s
              then '(m, s) ← lift (processor_get_message s); dispatch_message m (put_processor (Some s) c)
              else mret c);
            frame_loop fuel n (p + k) c
        end
      else mret (read_frame c)
  end.
Definition handle_read_frame (ec : option error_code) (n : nat) (c : conn) : outcome conn :=
  let ecm := match ec with
    | None => if negb (in_state PROCESS_CONNECTION c) then library error.invalid_state else None
    | Some _ => ec
    end in
  match ecm with
  | None => frame_loop (S n) n 0 c
  | Some e =>
      if bool_decide (e = transport_ec transport_error.eof) then
        if bool_decide (state_of c = closed) then mret c
        else if bool_decide (state_of c = closing) && negb (is_server config) then terminate None c
        else terminate ecm c
      else if bool_decide (ecm = library error.invalid_state) && bool_decide (state_of c = closed) then mret c
      else terminate ecm c
  end.

(** ** The opening handshake of a server *)
Definition put_status (code : Z) (c : conn) : conn := in_http (λ h, put_response (set_status code (m_response h)) h) c.
Definition initialize_processor (c : conn) : outcome (option error_code * conn) :=
  let r := m_request (http_of c) in
  if negb (is_websocket_handshake r) then mret (None, c)
  else
    let version := get_websocket_version r in
    if version <? 0 then mret (library error.invalid_version, put_status status_code.bad_request c)
    else
      match get_processor version with
      | Some p => mret (None, put_processor (Some p) c)
      | None =>
          let c := put_status status_code.bad_request (put_processor None c) in
          let a := m_response (http_of c) in
          mret (library error.unsupported_version,
            in_http (put_response (set_rep (replace_header (lit "Sec-WebSocket-Version") (lit "0,7,8,13") (rep a)) a)) c)
      end.

Definition process_plain_request (c : conn) : outcome (option error_code * conn) :=
  u ← lift (get_uri_from_host (m_request (http_of c)) (if is_secure config then lit "https" else lit "http"));
  let c := in_http (put_uri (Some u)) c in
  if negb (m_valid u) then mret (library error.invalid_uri, put_status status_code.bad_request c)
  else if is_set on_http then
    c ← tell on_http (in_session (put_is_http true) c);
    mret (if bool_decide (state_of c = closed) then library error.http_connection_ended else None, c)
  else
    '(_, c) ← conn_set_status status_code.upgrade_required c;
    mret (library error.upgrade_required, c).
Definition negotiate (c : conn) : outcome (option error_code * conn) :=
  p ← deref_processor c;
  '(ec, answer, p) ← lift (processor_negotiate p (req (m_request (http_of c))));
  let c := put_processor (Some p) c in
  let a := m_response (http_of c) in
  mret (if bool_decide (ec = make_error_code extension_parse_error) then (ec, put_status status_code.bad_request c)
    else match ec with
      | Some _ => (None, c)
      | None => (None, if bool_decide (answer = []) then c else in_http (put_response (set_rep (replace_header (lit "Sec-WebSocket-Extensions") answer (rep a)) a)) c)
      end).
(** The application decides; the answer of an accepted handshake is prepared. *)
Definition validate_and_answer (c : conn) : outcome (option error_code * conn) :=
  '(accepted, c) ← notify on_validate c;
  if (accepted : bool) then
    let c := put_status status_code.switching_protocols c in
    p ← deref_processor c;
    '(ec, a) ← processor_process_handshake p (m_request (http_of c)) (m_subprotocol (http_of c)) (m_response (http_of c));
    let c := in_http (put_response a) c in
    match ec with
    | Some e => mret (Some e, put_status status_code.internal_server_error c)
    | None => mret (None, c)
    end
  else mret (library error.rejected,
    if m_status_code (m_response (http_of c)) =? status_code.uninitialized then put_status status_code.bad_request c else c).
Definition process_handshake_request (c : conn) : outcome (option error_code * conn) :=
  let r := m_request (http_of c) in
  if negb (is_websocket_handshake r) then process_plain_request c
  else
    p ← deref_processor c;
    match processor_validate_handshake p r with
    | Some e => mret (Some e, put_status status_code.bad_request c)
    | None =>
        '(ec, c) ← negotiate c;
        match ec with
        | Some e => mret (Some e, c)
        | None =>
            p ← deref_processor c;
            u ← lift (processor_get_uri p r);
            let c := in_http (put_uri (Some u)) c in
            if negb (m_valid u) then mret (library error.invalid_uri, put_status status_code.bad_request c)
            else
              '(_, subs) ← lift (processor_extract_subprotocols p r (m_requested_subprotocols (http_of c)));
              validate_and_answer (in_http (put_requested_subprotocols subs) c)
        end
    end.

Definition write_http_response_error (ec : option error_code) (c : conn) : outcome conn :=
  if negb (in_state READ_HTTP_REQUEST c) then terminate (library error.invalid_state) c
  else mret (write_http_response ec (in_session (put_internal_state PROCESS_HTTP_REQUEST) c)).

(** The bytes behind the handshake move to the front of the buffer. *)
Definition keep_rest (processed n : nat) (c : conn) : conn :=
  let rest := take (n - processed) (drop processed (m_buf c)) in
  put_buf_cursor (n - processed) (put_buf (rest ++ drop (n - processed) (m_buf c)) c).
(** Version 0 reads eight bytes behind the handshake; [None] when they have not come. *)
Definition read_key3 (processed n : nat) (c : conn) : option (nat * conn) :=
  if match m_processor c with Some p => get_version p =? 0 | None => false end then
    if (8 <=? n - processed)%nat then
      let r := m_request (http_of c) in
      let key3 := text_of (take 8 (drop processed (m_buf c))) in
      Some ((processed + 8)%nat, in_http (put_request (set_req (replace_header (lit "Sec-WebSocket-Key3") key3 (req r)) r)) c)
    else None
  else Some (processed, c).
Definition request_complete (processed n : nat) (c : conn) : outcome conn :=
  '(proc_ec, c) ← initialize_processor c;
  match proc_ec with
  | Some _ => write_http_response_error proc_ec c
  | None =>
      match read_key3 processed n c with
      | None => write_http_response_error (make_error_code short_key3) (put_status status_code.internal_server_error c)
      | Some (processed, c) =>
          let c := in_session (put_internal_state PROCESS_HTTP_REQUEST) (keep_rest processed n c) in
          '(handshake_ec, c) ← process_handshake_request c;
          mret (if negb (m_is_http (session_of c)) || bool_decide (m_http_state (session_of c) = http_init)
            then write_http_response handshake_ec c else c)
      end
  end.

(** The first lines of the four handlers of the handshake: which error, or that the
    connection was closed in the meantime. *)
Inductive check := check_ok | check_ignore | check_fail (ec : option error_code).
Definition check_connecting (ec : option error_code) (expected : internal_state) (c : conn) : check :=
  let ecm := match ec with
    | Some _ => Some ec
    | None =>
        match state_of c with
        | connecting => if in_state expected c then Some None else Some (library error.invalid_state)
        | closed => None
        | open | closing => Some (library error.invalid_state)
        end
    end in
  match ecm with
  | None => check_ignore
  | Some None => check_ok
  | Some (Some e) =>
      if bool_decide (e = transport_ec transport_error.eof) && bool_decide (state_of c = closed) then check_ignore else check_fail (Some e)
  end.
Definition checked (ec : option error_code) (expected : internal_state) (go : conn → outcome conn) (c : conn) : outcome conn :=
  match check_connecting ec expected c with
  | check_ok => go c
  | check_ignore => mret c
  | check_fail ec => terminate ec c
  end.

Definition handle_read_handshake (ec : option error_code) (n : nat) : conn → outcome conn :=
  checked ec READ_HTTP_REQUEST (λ c,
    if (connection_read_buffer_size config <? n)%nat then terminate (library error.general) c
    else
      match request_consume (text_of (take n (m_buf c))) (m_request (http_of c)) with
      | Stuck e => Stuck e
      | Throws e =>
          write_http_response_error (library error.http_parse_error)
            (in_http (λ h, put_response (set_status_msg (m_error_code e) (m_error_msg e) (m_response h)) h) c)
      | Returns (processed, r) =>
          let c := in_http (put_request r) c in
          if Z.of_nat n <? processed then terminate (library error.general) c
          else if m_ready r then request_complete (Z.to_nat processed) n c
          else mret (async_read read_handshake_handler c)
      end).
Definition read_handshake (c : conn) : conn :=
  async_read read_handshake_handler (start_handshake_timer open_handshake_timeout (m_open_handshake_timeout_dur config) c).

Definition handle_write_http_response (ec : option error_code) : conn → outcome conn :=
  checked ec PROCESS_HTTP_REQUEST (λ c,
    let c := cancel_handshake_timer c in
    if negb (m_status_code (m_response (http_of c)) =? status_code.switching_protocols) then
      let c := if m_is_http (session_of c) then in_session (put_ec (library error.http_connection_ended)) c else c in
      terminate (m_ec (session_of c)) c
    else
      let c := in_session (λ s, put_m_state open (put_internal_state PROCESS_CONNECTION s)) c in
      c ← tell on_open c;
      handle_read_frame None (m_buf_cursor c) c).

(** ** The opening handshake of a client *)
Definition set_agent_header (r : request) : request :=
  let p := req r in
  if bool_decide (get_header (lit "User-Agent") p = [])
  then set_req (if bool_decide (m_user_agent config = []) then remove_header (lit "User-Agent") p else replace_header (lit "User-Agent") (m_user_agent config) p) r
  else r.
Definition send_http_request (c : conn) : outcome conn :=
  match m_processor c with
  | None => mret c
  | Some p =>
      u ← deref_uri c;
      '(ec, r, p) ← processor_client_handshake_request p u (m_requested_subprotocols (http_of c)) (m_request (http_of c));
      let c := put_processor (Some p) (in_http (put_request r) c) in
      match ec with
      | Some _ => mret c
      | None =>
          let r := set_agent_header r in
          let raw := request_raw r in
          let c := in_http (λ h, put_handshake_buffer raw (put_request r h)) c in
          let c := start_handshake_timer open_handshake_timeout (m_open_handshake_timeout_dur config) c in
          mret (async_write send_http_request_handler (bytes_of raw) c)
      end
  end.
Definition handle_send_http_request (ec : option error_code) : conn → outcome conn :=
  checked ec WRITE_HTTP_REQUEST (λ c, mret (async_read read_http_response_handler (in_session (put_internal_state READ_HTTP_RESPONSE) c))).

Definition response_complete (processed n : nat) (c : conn) : outcome conn :=
  let c := cancel_handshake_timer c in
  p ← deref_processor c;
  validate_ec ← lift (processor_validate_server p (m_request (http_of c)) (m_response (http_of c)));
  match validate_ec with
  | Some e => terminate (Some e) c
  | None =>
      '(neg_ec, _, p) ← lift (processor_negotiate p (rep (m_response (http_of c))));
      let c := put_processor (Some p) c in
      c ← match neg_ec with Some _ => terminate (library error.extension_neg_failed) c | None => mret c end;
      let c := in_session (λ s, put_m_state open (put_internal_state PROCESS_CONNECTION s)) c in
      c ← tell on_open c;
      let c := keep_rest processed n c in
      handle_read_frame None (m_buf_cursor c) c
  end.
Definition handle_read_http_response (ec : option error_code) (n : nat) : conn → outcome conn :=
  checked ec READ_HTTP_RESPONSE (λ c,
    match response_consume (text_of (take n (m_buf c))) (m_response (http_of c)) with
    | Stuck e => Stuck e
    | Throws _ => terminate (library error.general) c
    | Returns (processed, a) =>
        let c := in_http (put_response a) c in
        if headers_ready a then response_complete (Z.to_nat processed) n c
        else mret (async_read read_http_response_handler c)
    end).

(** ** Start and timers *)
Definition handle_transport_init (ec : option error_code) (c : conn) : outcome conn :=
  let ecm := if negb (in_state TRANSPORT_INIT c) then library error.invalid_state else ec in
  match ecm with
  | Some e => terminate (Some e) c
  | None =>
      if is_server config then mret (read_handshake (in_session (put_internal_state READ_HTTP_REQUEST) c))
      else send_http_request (put_processor (get_processor (client_version config)) (in_session (put_internal_state WRITE_HTTP_REQUEST) c))
  end.
(** The initialisation of a plain socket calls back at once, with [init_ec]. *)
Definition start (init_ec : option error_code) (c : conn) : outcome conn :=
  if negb (in_state USER_INIT c) then terminate (library error.invalid_state) c
  else handle_transport_init init_ec (in_session (put_internal_state TRANSPORT_INIT) c).

Definition handle_timer (h : timer_handler) (ec : option error_code) (c : conn) : outcome conn :=
  match ec with
  | Some _ => mret c
  | None =>
      match h with
      | open_handshake_timeout => terminate (library error.open_handshake_timeout) c
      | close_handshake_timeout => terminate (library error.close_handshake_timeout) c
      | pong_timeout payload => tell (on_pong_timeout payload) c
      end
  end.
Definition handle_interrupt (c : conn) : outcome conn := tell on_interrupt c.

(** ** Steps

    The environment starts the connection, calls it from outside its handlers, or completes
    an operation: the first posted task, read or write, or some timer.  A step that is not
    possible is [None]. *)
Inductive event :=
  | start_connection (init_ec : option error_code)
  | user_call (a : call)
  | run_task
  | read_done (ec : option error_code) (bytes : list Z)
  | write_done (ec : option error_code) (written : nat)
  | timer_expires (id : nat)
  | timer_done (id : nat) (ec : option error_code).

Definition run_first_task (t : task) (c : conn) : outcome conn :=
  match t with
  | write_frame_task => mret (write_frame c)
  | pause_reading_task => mret (handle_pause_reading c)
  | resume_reading_task => mret (handle_resume_reading c)
  | interrupt_task => handle_interrupt c
  end.
Definition run_read_handler (h : read_handler) (ec : option error_code) (n : nat) (c : conn) : outcome conn :=
  match h with
  | read_handshake_handler => handle_read_handshake ec n c
  | read_http_response_handler => handle_read_http_response ec n c
  | read_frame_handler => handle_read_frame ec n c
  end.
Definition run_write_handler (h : write_handler) (ec : option error_code) (c : conn) : outcome conn :=
  match h with
  | write_http_response_handler => handle_write_http_response ec c
  | send_http_request_handler => handle_send_http_request ec c
  | write_frame_handler => handle_write_frame ec c
  end.
Definition find_timer (id : nat) (c : conn) : option timer := head (filter (λ t, timer_id t = id) (timers (transport_of c))).
Definition expire_timer (id : nat) (t : timer) : timer :=
  if bool_decide (timer_id t = id) && bool_decide (timer_is t = waiting_timer) then mkTimer id (timer_calls t) expired_timer else t.
Definition timer_result_ok (t : timer) (ec : option error_code) : bool :=
  match timer_is t with
  | waiting_timer => false
  | expired_timer => bool_decide (ec = None)
  | cancelled_timer => bool_decide (ec = Some (transport_ec transport_error.operation_aborted))
  end.

Definition step (e : event) (c : conn) : option (outcome conn) :=
  match e with
  | start_connection ec => Some (start ec c)
  | user_call a => Some ('(_, c) ← do_call a c; mret c)
  | run_task =>
      match tasks (transport_of c) with
      | [] => None
      | t :: ts => Some (run_first_task t (in_transport (put_tasks ts) c))
      end
  | read_done ec bytes =>
      match reads (transport_of c) with
      | [] => None
      | h :: hs =>
          if bool_decide (length bytes ≤ connection_read_buffer_size config)%nat && (bool_decide (ec ≠ None) || bool_decide (bytes ≠ []))
          then Some (run_read_handler h ec (length bytes) (put_buf (bytes ++ drop (length bytes) (m_buf c)) (in_transport (put_reads hs) c)))
          else None
      end
  | write_done ec written =>
      match writes (transport_of c) with
      | [] => None
      | (h, bytes) :: ws =>
          let bytes := match ec with None => bytes | Some _ => take written bytes end in
          Some (run_write_handler h ec (in_transport (λ r, put_sent (sent r ++ [(h, bytes)]) (put_writes ws r)) c))
      end
  | timer_expires id =>
      match find_timer id c with
      | None => None
      | Some t => Some (mret (in_transport (λ r, put_timers (expire_timer id <$> timers r) r) c))
      end
  | timer_done id ec =>
      match find_timer id c with
      | None => None
      | Some t =>
          if timer_result_ok t ec
          then Some (handle_timer (timer_calls t) ec (in_transport (λ r, put_timers (filter (λ t, timer_id t ≠ id) (timers r)) r) c))
          else None
      end
  end.

(** The constructor, and the limit on bodies that the endpoint sets; [raw] is what the
    read buffer holds. *)
Definition new_connection (raw : list Z) : conn :=
  mkConn (mkSession connecting USER_INIT false http_init false None status.abnormal_close [] status.abnormal_close [])
    (mkOutgoing [] 0 [] [] false []) (mkTransport [] [] [] [] 0 [] false)
    (mkHttp (set_req (set_max_body_size (m_max_http_body_size config) (req new_request)) new_request) new_response None [] [] []) None raw 0 true None None [].

Fixpoint run_events (es : list event) (c : conn) : option (outcome conn) :=
  match es with
  | [] => Some (mret c)
  | e :: es => match step e c with None => None | Some (Returns c) => run_events es c | Some r => Some r end
  end.
Inductive reachable (raw : list Z) : conn → Prop :=
  | reach_new : reachable raw (new_connection raw)
  | reach_step e c c' : reachable raw c → step e c = Some (Returns c') → reachable raw c'.
End Connection.
