(* ===== verification/WsSession.v ===== *)
(** * What a connection promises: an abstract session, and the connection as its refinement

    The abstract session keeps only what users and peers can see: the state, the queue of
    frames with the one write in flight, the bytes written, and the order of the handlers'
    calls.  Every step of [WsConnection] is a sequence of its actions, so what holds of
    the actions holds of the code: messages leave once and in order, nothing follows a
    terminal message, and the handlers are called in a legal order. *)

From S2P Require Import Prelude Bytes StdString SortedKeys HttpText HttpParser Uri WsFrame Utf8 WsProcessor WsHandshake WsHybi00 WsConnection.

Open Scope Z_scope.

(** ** The abstract session *)
Record view := mkView {
  v_state : session_state;
  v_internal : internal_state;
  v_out : outgoing;
  v_wakes : nat;            (** posted calls of [write_frame] *)
  v_frames : list (list Z); (** writes of frames in flight *)
  v_sent : list Z;          (** bytes of frames written *)
  v_trace : list callback;
}.
Definition with_state (st : session_state) (v : view) : view := mkView st (v_internal v) (v_out v) (v_wakes v) (v_frames v) (v_sent v) (v_trace v).
Definition with_internal (st : internal_state) (v : view) : view := mkView (v_state v) st (v_out v) (v_wakes v) (v_frames v) (v_sent v) (v_trace v).
Definition with_out (o : outgoing) (wakes : nat) (v : view) : view := mkView (v_state v) (v_internal v) o wakes (v_frames v) (v_sent v) (v_trace v).
Definition with_frames (frames : list (list Z)) (sent : list Z) (v : view) : view := mkView (v_state v) (v_internal v) (v_out v) (v_wakes v) frames sent (v_trace v).
Definition with_calls (cbs : list callback) (v : view) : view := mkView (v_state v) (v_internal v) (v_out v) (v_wakes v) (v_frames v) (v_sent v) (v_trace v ++ cbs).
Definition pushed `{Machine} (m : message) (v : view) : view :=
  let o := v_out v in
  let o := put_accepted (accepted o ++ [m]) (put_send_queue (m_send_queue o ++ [m])
    (put_send_buffer_size (size_t (m_send_buffer_size o + Z.of_nat (length (m_payload m)))) o)) in
  with_out o (if m_write_flag o then v_wakes v else S (v_wakes v)) v.
(** The queue after [write_frame] has taken what it can. *)
Definition taken `{Machine} (o : outgoing) : outgoing := pop_messages (length (m_send_queue o)) o.
Definition buffers (o : outgoing) : list (list Z) := m_send_buffer o ++ concat ((λ m, [m_header m; m_payload m]) <$> m_current_msgs o).
Definition written (o : outgoing) : outgoing := put_current_msgs [] (put_send_buffer [] o).
(** Calls that a state allows; interrupts and pong timers run on their own. *)
Definition may_call (st : session_state) (cb : callback) : bool :=
  match cb with
  | on_message _ | on_ping _ | on_pong _ => bool_decide (st = open)
  | on_http | on_validate => bool_decide (st = connecting)
  | on_termination => bool_decide (st = closed)
  | on_interrupt | on_pong_timeout _ => true
  | on_open | on_close | on_fail => false
  end.

(** The states of a client's opening handshake. *)
Definition client_state (st : internal_state) : bool := match st with WRITE_HTTP_REQUEST | READ_HTTP_RESPONSE => true | _ => false end.

Section Session.
Context `{Machine}.
Variable server : bool.
Inductive act : view → view → Prop :=
  | act_internal v st : st ≠ PROCESS_CONNECTION → (client_state st = true → server = false) → act v (with_internal st v)
  | act_call v cb : may_call (v_state v) cb = true → act v (with_calls [cb] v)
  | act_push v m : v_state v = open → act v (pushed m v)
  | act_close v m : v_state v = open ∨ v_state v = closing → act v (pushed m (with_state closing v))
  | act_wake_busy v n : v_wakes v = S n → m_write_flag (v_out v) = true → act v (with_out (v_out v) n v)
  | act_wake_empty v n : v_wakes v = S n → m_write_flag (v_out v) = false → m_current_msgs (taken (v_out v)) = [] → act v (with_out (taken (v_out v)) n v)
  | act_write v n (o := taken (v_out v)) : v_wakes v = S n → m_write_flag (v_out v) = false → m_current_msgs o ≠ [] →
      act v (with_frames (v_frames v ++ [concat (buffers o)]) (v_sent v) (with_out (put_send_buffer (buffers o) (put_write_flag true o)) n v))
  | act_written v b fs m : v_frames v = b :: fs → last (m_current_msgs (v_out v)) = Some m → m_terminal m = false →
      act v (with_frames fs (v_sent v ++ b) (with_out (put_write_flag false (written (v_out v)))
        (if bool_decide (m_send_queue (v_out v) = []) then v_wakes v else S (v_wakes v)) v))
  | act_written_last v b fs m : v_frames v = b :: fs → last (m_current_msgs (v_out v)) = Some m → m_terminal m = true →
      act v (with_frames fs (v_sent v ++ b) (with_out (written (v_out v)) (v_wakes v) v))
  | act_write_failed v b fs n : v_frames v = b :: fs → act v (with_frames fs (v_sent v ++ take n b) (with_out (written (v_out v)) (v_wakes v) v))
  | act_open v : v_state v = connecting ∨ server = false → act v (with_calls [on_open] (with_internal PROCESS_CONNECTION (with_state open v)))
  | act_fail v cbs : v_state v = connecting → cbs = [] ∨ cbs = [on_fail] → act v (with_calls cbs (with_state closed v))
  | act_end v : v_state v = open ∨ v_state v = closing → act v (with_calls [on_close] (with_state closed v)).
Definition acts : view → view → Prop := rtc act.
Definition new_view : view := mkView connecting USER_INIT (mkOutgoing [] 0 [] [] false []) 0 [] [] [].

(** ** Frames: once and in order *)
Definition wires (ms : list message) : list Z := concat (wire <$> ms).
(** The messages up to the first terminal one. *)
Fixpoint sendable (ms : list message) : list message :=
  match ms with [] => [] | m :: ms => m :: (if m_terminal m then [] else sendable ms) end.
Definition running (ms : list message) : Prop := Forall (λ m, m_terminal m = false) ms.
Definition queue_size (ms : list message) : Z := Z.of_nat (sum_list ((λ m, length (m_payload m)) <$> ms)).

(** No write; one write, of the messages taken off the queue; or no write ever again. *)
Inductive queue_phase (v : view) : Prop :=
  | queue_idle done : m_write_flag (v_out v) = false → m_current_msgs (v_out v) = [] → m_send_buffer (v_out v) = [] → v_frames v = [] →
      accepted (v_out v) = done ++ m_send_queue (v_out v) → running done → v_sent v = wires done → queue_phase v
  | queue_busy done ms m : m_write_flag (v_out v) = true → m_current_msgs (v_out v) = ms ++ [m] → v_frames v = [wires (ms ++ [m])] →
      accepted (v_out v) = done ++ ms ++ m :: m_send_queue (v_out v) → running (done ++ ms) → v_sent v = wires done → queue_phase v
  | queue_over : m_write_flag (v_out v) = true → m_current_msgs (v_out v) = [] → v_frames v = [] →
      v_sent v `prefix_of` wires (sendable (accepted (v_out v))) → queue_phase v.
Record queue_ok (v : view) : Prop := {
  qo_phase : queue_phase v;
  qo_wakes : m_write_flag (v_out v) = false → m_send_queue (v_out v) ≠ [] → v_wakes v ≠ 0%nat;
  qo_size : m_send_buffer_size (v_out v) = size_t (queue_size (m_send_queue (v_out v)));
}.

Lemma wires_app a b : wires (a ++ b) = wires a ++ wires b.
Proof. unfold wires. by rewrite fmap_app, concat_app. Qed.
Lemma wires_cons m ms : wires (m :: ms) = wire m ++ wires ms.
Proof. done. Qed.
Lemma sendable_running a b : running a → sendable (a ++ b) = a ++ sendable b.
Proof. intros Ha. induction Ha as [|m a Hm _ IH]; [done|]. cbn [app sendable]. by rewrite Hm, IH. Qed.
Lemma sendable_prefix ms : ∃ rest, ms = sendable ms ++ rest.
Proof.
  induction ms as [|m ms [rest IH]]; [by exists []|]. cbn [sendable]. destruct (m_terminal m); [by exists ms|]. exists rest. cbn. by f_equal.
Qed.
Lemma sendable_more ms m : sendable ms `prefix_of` sendable (ms ++ [m]).
Proof.
  induction ms as [|x ms IH]; [apply prefix_nil|]. cbn [app sendable]. destruct (m_terminal x); [done|]. by apply prefix_cons.
Qed.
Lemma sendable_split q : q ≠ [] → ∃ ms m rest, q = ms ++ m :: rest ∧ sendable q = ms ++ [m] ∧ running ms ∧ (m_terminal m = false → rest = []).
Proof.
  induction q as [|x q IH]; [done|]. intros _. cbn [sendable]. destruct (m_terminal x) eqn:Ex; [exists [], x, q; split_and!; [done..|constructor|congruence]|].
  destruct q as [|y q]; [exists [], x, []; split_and!; [done..|constructor|done]|].
  destruct IH as (ms & m & rest & -> & -> & Hr & Hm); [done|]. exists (x :: ms), m, rest. split_and!; [done..| |done]. by constructor.
Qed.
Lemma size_sub a n : size_t (size_t a - n) = size_t (a - n).
Proof. unfold size_t. apply Zminus_mod_idemp_l. Qed.
Lemma size_add a n : size_t (size_t a + n) = size_t (a + n).
Proof. unfold size_t. apply Zplus_mod_idemp_l. Qed.
Lemma queue_size_cons m q : queue_size (m :: q) = Z.of_nat (length (m_payload m)) + queue_size q.
Proof. unfold queue_size. cbn. lia. Qed.
Lemma queue_size_snoc q m : queue_size (q ++ [m]) = queue_size q + Z.of_nat (length (m_payload m)).
Proof. induction q as [|x q IH]; [unfold queue_size; cbn; lia|]. cbn [app]. rewrite !queue_size_cons. lia. Qed.
(** [write_frame] takes the sendable messages off the queue. *)
Lemma pop_messages_spec fuel o (o' := pop_messages fuel o) : (length (m_send_queue o) ≤ fuel)%nat → m_send_buffer_size o = size_t (queue_size (m_send_queue o)) →
  m_send_queue o = sendable (m_send_queue o) ++ m_send_queue o' ∧ m_current_msgs o' = m_current_msgs o ++ sendable (m_send_queue o) ∧
  m_send_buffer_size o' = size_t (queue_size (m_send_queue o')) ∧ m_send_buffer o' = m_send_buffer o ∧ m_write_flag o' = m_write_flag o ∧ accepted o' = accepted o.
Proof.
  subst o'. revert o. induction fuel as [|fuel IH]; intros o Hf Hs.
  - destruct (m_send_queue o) eqn:E; [|cbn in Hf; lia]. cbn [pop_messages]. split_and!; rewrite ?E; cbn; by rewrite ?app_nil_r.
  - cbn [pop_messages]. unfold write_pop. destruct (m_send_queue o) as [|m q] eqn:E; [split_and!; rewrite ?E; cbn; by rewrite ?app_nil_r|].
    rewrite queue_size_cons in Hs. cbn [length sendable] in *. destruct (m_terminal m) eqn:Em.
    + cbn. split_and!; [done..| | done|done|done]. rewrite Hs, size_sub. f_equal. lia.
    + match goal with |- context[pop_messages fuel ?x] => destruct (IH x) as (H1 & H2 & H3 & H4 & H5 & H6); [..|revert H1 H2 H3 H4 H5 H6; generalize (pop_messages fuel x)] end.
      { cbn. lia. } { cbn. rewrite Hs, size_sub. f_equal. lia. }
      cbn. intros o' H1 H2 H3 H4 H5 H6. split_and!; [by rewrite H1 at 1|by rewrite H2, <- app_assoc|done..].
Qed.
Lemma buffers_wires o : m_send_buffer o = [] → concat (buffers o) = wires (m_current_msgs o).
Proof.
  intros Hb. unfold buffers, wires. rewrite Hb. cbn [app]. induction (m_current_msgs o) as [|m ms IH]; [done|]. cbn [fmap list_fmap concat app].
  rewrite IH. unfold wire. by rewrite <- app_assoc.
Qed.

(** ** The invariant of the queue *)
Lemma phase_same v v' : queue_phase v → v_out v' = v_out v → v_frames v' = v_frames v → v_sent v' = v_sent v → queue_phase v'.
Proof.
  intros Hp Ho Hf Hs. destruct Hp; [eapply queue_idle|eapply queue_busy|eapply queue_over]; rewrite ?Ho, ?Hf, ?Hs; eauto.
Qed.
Lemma queue_same v v' : queue_ok v → v_out v' = v_out v → v_frames v' = v_frames v → v_sent v' = v_sent v → v_wakes v' = v_wakes v → queue_ok v'.
Proof. intros [Hp Hw Hs] Ho Hf He Hk. split; [by eapply phase_same|by rewrite Ho, Hk|by rewrite Ho]. Qed.
Lemma queue_pushed v m st : queue_ok v → queue_ok (pushed m (with_state st v)).
Proof.
  intros [Hp Hw Hs]. split.
  - destruct Hp as [done Hf Hc Hb Hfr Ha Hr He|done ms x Hf Hc Hfr Ha Hr He|Hf Hc Hfr Hpre].
    + eapply (queue_idle _ done); cbn; try done. by rewrite Ha, <- app_assoc.
    + eapply (queue_busy _ done ms x); cbn; try done. by rewrite Ha, <- !app_assoc.
    + eapply queue_over; cbn; try done. etrans; [done|]. unfold wires. destruct (sendable_more (accepted (v_out v)) m) as [k ->].
      rewrite fmap_app, concat_app. by eexists.
  - cbn. intros Hf _. by rewrite Hf.
  - cbn. rewrite Hs, size_add. by rewrite queue_size_snoc.
Qed.
Lemma queue_taken v (o := taken (v_out v)) : queue_ok v → m_write_flag (v_out v) = false → m_current_msgs (v_out v) = [] ∧ m_send_buffer (v_out v) = [] ∧ v_frames v = [] ∧
  m_send_queue (v_out v) = sendable (m_send_queue (v_out v)) ++ m_send_queue o ∧ m_current_msgs o = sendable (m_send_queue (v_out v)) ∧
  m_send_buffer_size o = size_t (queue_size (m_send_queue o)) ∧ m_send_buffer o = [] ∧ m_write_flag o = false ∧ accepted o = accepted (v_out v) ∧
  ∃ done, accepted (v_out v) = done ++ m_send_queue (v_out v) ∧ running done ∧ v_sent v = wires done.
Proof.
  intros [Hp Hw Hs] Hf. destruct Hp as [done Hf' Hc Hb Hfr Ha Hr He|done ms x Hf' Hc Hfr Ha Hr He|Hf' Hc Hfr Hpre]; [|congruence..].
  destruct (pop_messages_spec (length (m_send_queue (v_out v))) (v_out v)) as (H1 & H2 & H3 & H4 & H5 & H6); [done|done|].
  unfold taken in o. fold o in H1, H2, H3, H4, H5, H6. rewrite Hc in H2. split_and!; try done; try congruence. by exists done.
Qed.
Lemma queue_write v n (o := taken (v_out v)) : queue_ok v → m_write_flag (v_out v) = false → m_current_msgs o ≠ [] →
  queue_ok (with_frames (v_frames v ++ [concat (buffers o)]) (v_sent v) (with_out (put_send_buffer (buffers o) (put_write_flag true o)) n v)).
Proof.
  intros Hq Hf Hne. destruct (queue_taken v Hq Hf) as (_ & _ & Hfr & Hq1 & Hc & Hsz & Hb & Hfl & Ha & done & Hacc & Hr & He). fold o in Hq1, Hc, Hsz, Hb, Hfl, Ha.
  rewrite (buffers_wires _ Hb). destruct (sendable_split (m_send_queue (v_out v))) as (ms & m & rest & Hq2 & Hs2 & Hrun & _).
  { intros E. rewrite E in Hc. done. }
  rewrite Hs2 in *. assert (Hrest : m_send_queue o = rest).
  { rewrite Hq2 in Hq1. change (ms ++ m :: rest) with (ms ++ [m] ++ rest) in Hq1. rewrite app_assoc in Hq1. by apply app_inv_head in Hq1. }
  split; [|done|done]. eapply (queue_busy _ done ms m); cbn; try done.
  - by rewrite Hfr, Hc.
  - by rewrite Ha, Hacc, Hq2, Hrest.
  - by apply Forall_app.
Qed.
Lemma queue_written v b fs m : queue_ok v → v_frames v = b :: fs → last (m_current_msgs (v_out v)) = Some m → m_terminal m = false →
  queue_ok (with_frames fs (v_sent v ++ b) (with_out (put_write_flag false (written (v_out v))) (if bool_decide (m_send_queue (v_out v) = []) then v_wakes v else S (v_wakes v)) v)).
Proof.
  intros [Hp Hw Hs] Hfr Hl Hm. destruct Hp as [done Hf Hc Hb Hfr' Ha Hr He|done ms x Hf Hc Hfr' Ha Hr He|Hf Hc Hfr' Hpre]; [congruence| |congruence].
  rewrite Hfr' in Hfr. injection Hfr as <- <-. rewrite Hc, last_snoc in Hl. injection Hl as ->. split; [|cbn; intros _ Hne; by rewrite bool_decide_eq_false_2|done].
  eapply (queue_idle _ (done ++ ms ++ [m])); cbn; try done.
  - by rewrite Ha, <- !app_assoc.
  - rewrite app_assoc. apply Forall_app. split; [done|]. by constructor.
  - by rewrite He, !wires_app.
Qed.
(** The last write: all of it, or a part that an error ended. *)
Lemma queue_last v b fs k : queue_ok v → v_frames v = b :: fs → (m_write_flag (v_out v) = true → k `prefix_of` b) →
  queue_ok (with_frames fs (v_sent v ++ k) (with_out (written (v_out v)) (v_wakes v) v)).
Proof.
  intros [Hp Hw Hs] Hfr Hk. destruct Hp as [done Hf Hc Hb Hfr' Ha Hr He|done ms x Hf Hc Hfr' Ha Hr He|Hf Hc Hfr' Hpre]; [congruence| |congruence].
  destruct (Hk Hf) as [z ->]. rewrite Hfr' in Hfr. injection Hfr as Hz <-. split; [|cbn; congruence|done].
  eapply queue_over; cbn; try done. rewrite Ha, app_assoc, sendable_running by done. cbn [sendable]. rewrite He.
  generalize (if m_terminal x then [] else sendable (m_send_queue (v_out v))). intros r. exists (z ++ wires r).
  change (concat (wire <$> (done ++ ms) ++ x :: r)) with (wires ((done ++ ms) ++ [x] ++ r)). rewrite wires_app in Hz. rewrite !wires_app. rewrite <- (app_assoc (wires done)), (app_assoc (wires ms)), Hz.
  by rewrite <- !app_assoc.
Qed.
Lemma act_queue_ok v v' : act v v' → queue_ok v → queue_ok v'.
Proof.
  intros Ha Hq. destruct Ha as [v st Hst Hcl|v cb Hc|v m Hs|v m Hs|v n Hn Hf|v n Hn Hf Hc|v n o Hn Hf Hc|v b fs m Hfr Hl Hm|v b fs m Hfr Hl Hm|v b fs n Hfr|v Hs|v cbs Hs Hc|v Hs].
  1,2,11,12,13: by eapply queue_same.
  - by apply (queue_pushed v m (v_state v)) in Hq.
  - by apply queue_pushed.
  - destruct Hq as [Hp Hw Hs]. split; [by eapply phase_same|cbn; congruence|done].
  - destruct (queue_taken v Hq Hf) as (_ & _ & Hfr & Hq1 & Hc1 & Hsz & Hb & Hfl & Ha & done & Hacc & Hr & He). rewrite Hc in Hc1.
    destruct (decide (m_send_queue (v_out v) = [])) as [E|E].
    + rewrite E in Hq1. cbn in Hq1. split; [|cbn; by rewrite <- Hq1|done]. eapply (queue_idle _ done); cbn; try done. by rewrite Ha, Hacc, E, <- Hq1.
    + destruct (sendable_split _ E) as (ms & m & rest & _ & Hs2 & _). rewrite Hs2 in Hc1. by destruct ms.
  - by apply queue_write.
  - by eapply queue_written.
  - by eapply queue_last.
  - eapply queue_last; [done|done|]. intros _. apply prefix_take.
Qed.

(** ** The order of the calls *)
Inductive phase := not_open | is_open | over.
(** The calls of one connection: [on_open], then messages, then [on_close]; or [on_fail]
    alone.  Interrupts and pong timers may come at any time. *)
Definition next_phase (p : option phase) (cb : callback) : option phase :=
  match p, cb with
  | Some _, (on_interrupt | on_pong_timeout _) => p
  | Some not_open, (on_http | on_validate) => Some not_open
  | Some not_open, on_open => Some is_open
  | Some not_open, (on_fail | on_termination) => Some over
  | Some is_open, (on_message _ | on_ping _ | on_pong _) => Some is_open
  | Some is_open, on_close => Some over
  | Some over, on_termination => Some over
  | _, _ => None
  end.
Definition phase_of (tr : list callback) : option phase := fold_left next_phase tr (Some not_open).
#[local] Arguments phase_of : simpl never.
Definition legal (st : session_state) (tr : list callback) : Prop :=
  match st with
  | connecting => phase_of tr = Some not_open
  | open | closing => phase_of tr = Some is_open
  | closed => phase_of tr = Some not_open ∨ phase_of tr = Some over
  end.
Lemma phase_of_snoc tr cb : phase_of (tr ++ [cb]) = next_phase (phase_of tr) cb.
Proof. unfold phase_of. by rewrite fold_left_app. Qed.
Lemma legal_call st tr cb : may_call st cb = true → legal st tr → legal st (tr ++ [cb]).
Proof.
  unfold legal. rewrite phase_of_snoc. destruct st, cb; cbn; intros Hm Hl; try discriminate Hm; try (by case_bool_decide); try (by rewrite Hl); destruct Hl as [-> | ->]; cbn; (done || auto).
Qed.
Lemma act_legal v v' : server = true → act v v' → legal (v_state v) (v_trace v) → legal (v_state v') (v_trace v').
Proof.
  intros Hsrv Ha Hl. destruct Ha as [v st Hst Hcl|v cb Hc|v m Hs|v m Hs|v n Hn Hf|v n Hn Hf Hc|v n o Hn Hf Hc|v b fs m Hfr Hl' Hm|v b fs m Hfr Hl' Hm|v b fs n Hfr|v Hs|v cbs Hs Hc|v Hs]; try done.
  - by apply legal_call.
  - cbn. destruct Hs as [E|E]; by rewrite E in Hl.
  - destruct Hs as [E|E]; [|congruence]. rewrite E in Hl. cbn in *. by rewrite phase_of_snoc, Hl.
  - rewrite Hs in Hl. cbn in *. destruct Hc as [-> | ->]; [left; by rewrite app_nil_r|right]. by rewrite phase_of_snoc, Hl.
  - right. cbn. rewrite phase_of_snoc. destruct Hs as [E|E]; rewrite E in Hl; cbn in Hl; by rewrite Hl.
Qed.
(** Frames are only read after the connection was opened, and servers read no responses. *)
Definition live_ok (v : view) : Prop :=
  (v_internal v = PROCESS_CONNECTION → v_state v ≠ connecting) ∧ (client_state (v_internal v) = true → server = false).
Lemma act_live_ok v v' : act v v' → live_ok v → live_ok v'.
Proof. intros Ha [Hl Hc]. destruct Ha; try done; split; cbn; try done; intros; auto; congruence. Qed.
Lemma act_not_connecting v v' : act v v' → v_state v ≠ connecting → v_state v' ≠ connecting.
Proof. intros Ha Hl. by destruct Ha. Qed.
Lemma acts_not_connecting v v' : acts v v' → v_state v ≠ connecting → v_state v' ≠ connecting.
Proof. intros Ha. induction Ha; [done|]. intros ?. apply IHHa. by eapply act_not_connecting. Qed.
Lemma acts_live_ok v v' : acts v v' → live_ok v → live_ok v'.
Proof. intros Ha. induction Ha; [done|]. intros ?. apply IHHa. by eapply act_live_ok. Qed.
End Session.

(** ** The connection as a session *)
Lemma bind_returns {A B} (m : outcome A) (f : A → outcome B) b : m ≫= f = Returns b → ∃ a, m = Returns a ∧ f a = Returns b.
Proof. destruct m as [a|e|e]; intros E; [by exists a|done..]. Qed.
Lemma bind_is_ok {A B} (m : res A) (f : A → res B) b : m ≫= f = Ok b → ∃ a, m = Ok a ∧ f a = Ok b.
Proof. destruct m as [a|e]; intros E; [by exists a|done]. Qed.
Ltac ret_inv1 E :=
  lazymatch type of E with
  | mbind _ _ = Returns _ => let H := fresh "B" in apply bind_returns in E as (? & H & E); ret_inv1 H
  | mret _ = Returns _ => apply (f_equal (λ r, match r with Returns a => Some a | _ => None end)) in E; cbn [mret outcome_ret] in E; simplify_eq
  | Returns _ = Returns _ => simplify_eq
  | Stuck _ = Returns _ => discriminate E
  | Throws _ = Returns _ => discriminate E
  | lift ?r = Returns _ => let H := fresh "L" in destruct r eqn:H; [cbn [lift] in E; simplify_eq|discriminate E]
  | _ => idtac
  end.
(** Follow the branch of a function that returned. *)
Ltac ret_inv E :=
  repeat (ret_inv1 E; try match type of E with
  | (let '(_, _) := ?x in _) = Returns _ => let H := fresh "P" in destruct x eqn:H
  | match ?x with _ => _ end = Returns _ =>
      first [is_var x; destruct x|let b := fresh "b" in let H := fresh "C" in remember x as b eqn:H in E; symmetry in H; destruct b]
  end).

(** The same for [res]. *)
Ltac res_inv E :=
  repeat (cbv zeta in E; lazymatch type of E with
  | mbind _ _ = Ok _ => let x := fresh "x" in let B := fresh "B" in apply bind_is_ok in E as (x & B & E)
  | mret _ = Ok _ => apply (f_equal (λ r, match r with Ok a => Some a | _ => None end)) in E; cbn [mret res_ret] in E; simplify_eq
  | Ok _ = Ok _ => simplify_eq
  | Err _ = Ok _ => discriminate E
  | (let '(_, _) := ?x in _) = Ok _ => let P := fresh "P" in destruct x eqn:P
  | match ?x with _ => _ end = Ok _ => let C := fresh "C" in destruct x eqn:C
  end).

Section Refinement.
Context `{Machine} `{Extension}.
Variable config : configuration.
Variable rng : nat → Z.
Variable w0 buf0 key_final0 : list Z.
Variable deflate0 : deflate_state.
Variable app : callback → option (conn → program).

Definition is_frame {A} (w : write_handler * A) : Prop := w.1 = write_frame_handler.
#[local] Instance is_frame_dec {A} (w : write_handler * A) : Decision (is_frame w).
Proof. unfold is_frame. apply _. Defined.
Definition wakes (ts : list task) : nat := length (filter (λ t, match t with write_frame_task => true | _ => false end = true) ts).
#[local] Arguments wakes : simpl never.
Definition view_of (c : conn) : view :=
  mkView (state_of c) (m_internal_state (session_of c)) (outgoing_of c) (wakes (tasks (transport_of c)))
    (snd <$> filter is_frame (writes (transport_of c))) (concat (snd <$> filter is_frame (sent (transport_of c)))) (trace c).
#[local] Abbreviation acts := (acts (is_server config)).
#[local] Abbreviation refines c c' := (acts (view_of c) (view_of c')).

Lemma wakes_snoc ts t : wakes (ts ++ [t]) = (wakes ts + match t with write_frame_task => 1 | _ => 0 end)%nat.
Proof. unfold wakes. rewrite filter_app, length_app. by destruct t. Qed.
Lemma view_add_task t c : view_of (add_task t c) = match t with write_frame_task => with_out (outgoing_of c) (S (v_wakes (view_of c))) (view_of c) | _ => view_of c end.
Proof. unfold view_of. cbn. rewrite wakes_snoc. destruct t; rewrite ?Nat.add_0_r, ?Nat.add_1_r; done. Qed.
Lemma view_async_write h b c : view_of (async_write h b c) = match h with write_frame_handler => with_frames (v_frames (view_of c) ++ [b]) (v_sent (view_of c)) (view_of c) | _ => view_of c end.
Proof. unfold view_of. cbn. rewrite filter_app, fmap_app. destruct h; cbn; by rewrite ?app_nil_r. Qed.
Lemma view_push m c : view_of (push_and_dispatch (Some m) c) = pushed m (view_of c).
Proof.
  unfold push_and_dispatch. cbn [write_push outgoing_of in_outgoing put_outgoing m_write_flag put_accepted put_send_queue put_send_buffer_size m_send_queue].
  case_bool_decide as E; [by destruct (m_send_queue (outgoing_of c))|]. clear E.
  unfold pushed. cbn. destruct (m_write_flag (outgoing_of c)); cbn [negb andb]; [done|]. by rewrite view_add_task.
Qed.
Lemma view_state c c' : view_of c' = view_of c → state_of c' = state_of c.
Proof. intros Hv. change (v_state (view_of c') = state_of c). by rewrite Hv. Qed.
Lemma view_timer h d c : view_of (start_handshake_timer h d c) = view_of c.
Proof. unfold start_handshake_timer. by destruct (0 <? d). Qed.
Lemma view_cancel_handshake c : view_of (cancel_handshake_timer c) = view_of c.
Proof. unfold cancel_handshake_timer. by destruct (m_handshake_timer c). Qed.
Lemma view_ping_timer p c : view_of (start_ping_timer config app p c) = view_of c.
Proof. unfold start_ping_timer. destruct (app _); [|done]. destruct (m_ping_timer c), (0 <? m_pong_timeout_dur config); done. Qed.
Lemma act_one c v : act (is_server config) (view_of c) v → acts (view_of c) v.
Proof. apply rtc_once. Qed.

(** *** Preparing a frame gives one *)
Lemma data_frame_some m out p ec out' p' : processor_prepare_data_frame rng (Some m) (Some out) p = Ok (ec, out', p') → is_Some out'.
Proof.
  destruct p as [p|v p]; cbn [processor_prepare_data_frame]; unfold Hybi00.prepare_data_frame, prepare_data_frame; intros E; res_inv E; try by eexists.
  all: repeat match goal with B : _ = Ok _ |- _ => progress res_inv B end; by eexists.
Qed.
Lemma control_some op payload out s ec out' s' : prepare_control rng op payload (Some out) s = Ok (ec, out', s') → is_Some out'.
Proof. unfold prepare_control. intros E. res_inv E; by eexists. Qed.
Lemma ping_some payload out p ec out' p' : processor_prepare_ping rng payload (Some out) p = Ok (ec, out', p') → is_Some out'.
Proof.
  destruct p as [p|v p]; cbn [processor_prepare_ping Hybi00.prepare_ping]; intros E; res_inv E; [by eexists|]. by eapply control_some.
Qed.
Lemma pong_some payload out p ec out' p' : processor_prepare_pong rng payload (Some out) p = Ok (ec, out', p') → is_Some out'.
Proof.
  destruct p as [p|v p]; cbn [processor_prepare_pong Hybi00.prepare_pong]; intros E; res_inv E; [by eexists|]. by eapply control_some.
Qed.
Lemma close_some code reason out p ec out' p' : processor_prepare_close rng code reason (Some out) p = Ok (ec, out', p') → is_Some out'.
Proof.
  destruct p as [p|v p]; cbn [processor_prepare_close Hybi00.prepare_close]; [intros E; res_inv E; by eexists|]. unfold prepare_close.
  intros E. res_inv E. res_inv B; try by eexists. by eapply control_some.
Qed.

(** *** Calls of the user *)
Lemma push_open m c c' : is_Some m → state_of c = open → view_of c' = view_of c → refines c (push_and_dispatch m c').
Proof. intros [x ->] Hs Hv. rewrite view_push, Hv. apply act_one. by apply act_push. Qed.
Lemma send_refines m c ec c' : send rng m c = Returns (ec, c') → refines c c'.
Proof.
  unfold send. intros E. case_bool_decide as Hs; cbn [negb] in E; [|ret_inv E; apply rtc_refl].
  destruct (m_prepared m); [ret_inv E; by apply push_open|]. ret_inv E; [apply rtc_refl|]. apply push_open; [by eapply data_frame_some|done..].
Qed.
Lemma ping_refines p c ec c' : ping config rng app p c = Returns (ec, c') → refines c c'.
Proof.
  unfold ping. intros E. case_bool_decide as Hs; cbn [negb] in E; [|ret_inv E; apply rtc_refl].
  ret_inv E; [apply rtc_refl|]. apply push_open; [by eapply ping_some|done|by rewrite view_ping_timer].
Qed.
Lemma pong_refines p c ec c' : pong rng p c = Returns (ec, c') → refines c c'.
Proof.
  unfold pong. intros E. case_bool_decide as Hs; cbn [negb] in E; [|ret_inv E; apply rtc_refl].
  ret_inv E; [apply rtc_refl|]. apply push_open; [by eapply pong_some|done..].
Qed.
Lemma close_frame_refines code reason ack terminal c ec c' : state_of c = open ∨ state_of c = closing →
  send_close_frame config rng code reason ack terminal c = Returns (ec, c') → refines c c'.
Proof.
  intros Hs E. unfold send_close_frame in E. destruct (close_info _ _ _ _ _) as [code' reason']. ret_inv E; [apply rtc_refl|].
  apply close_some in L as [m ->]. destruct terminal; cbn [fmap option_fmap option_map]; rewrite view_push, view_timer; apply act_one.
  all: match goal with |- act _ _ (pushed _ (view_of ?x)) => replace (view_of x) with (with_state closing (view_of c)) by (by destruct ack) end; by apply act_close.
Qed.
Lemma close_refines code reason c ec c' : close config rng code reason c = Returns (ec, c') → refines c c'.
Proof.
  unfold close. intros E. case_bool_decide as Hs; cbn [negb] in E; [|ret_inv E; apply rtc_refl]. eapply close_frame_refines; [by left|done].
Qed.
Lemma write_http_response_view ec c : view_of (write_http_response config ec c) = view_of c.
Proof.
  unfold write_http_response. case_bool_decide; [done|]. cbv zeta. destruct (_ =? _); by rewrite view_async_write.
Qed.
Lemma change_response_view f c r c' : change_response f c = Returns (r, c') → view_of c' = view_of c.
Proof. unfold change_response. intros E. destruct (f _); ret_inv E; done. Qed.
Lemma change_headers_view f c r c' : change_headers config f c = Returns (r, c') → view_of c' = view_of c.
Proof.
  unfold change_headers, refused, change_request. intros E. destruct (is_server config), (in_state _ c); [by eapply change_response_view|ret_inv E..|ret_inv E]; try done.
  all: destruct (f _); ret_inv E; done.
Qed.
Lemma do_call_refines a c r c' : do_call config rng app a c = Returns (r, c') → refines c c'.
Proof.
  assert (Hv : view_of c' = view_of c → refines c c') by (intros ->; apply rtc_refl).
  destruct a; cbn [do_call]; unfold reply, send_text, send_bytes, conn_set_status, conn_set_status_msg, conn_set_body, refused; intros E.
  1-6: ret_inv E; eauto using send_refines, ping_refines, pong_refines, close_refines.
  1-3: ret_inv E; unfold pause_reading, resume_reading, interrupt; rewrite view_add_task; apply rtc_refl.
  1-3: destruct (in_state _ c); [by eapply Hv, change_response_view|ret_inv E; apply rtc_refl].
  1-3: by eapply Hv, change_headers_view.
  - ret_inv E. apply Hv. unfold defer_http_response. by rewrite <- (view_cancel_handshake c).
  - unfold send_http_response in E. destruct (negb _); ret_inv E; apply Hv; [done|]. by rewrite write_http_response_view.
  - unfold add_subprotocol in E. repeat case_match; ret_inv E; by apply Hv.
  - unfold select_subprotocol in E. repeat case_match; ret_inv E; by apply Hv.
  - ret_inv E. by apply Hv.
Qed.
Lemma run_program_refines p c b c' : run_program config rng app p c = Returns (b, c') → refines c c'.
Proof.
  revert c. induction p as [b'|a k IH]; intros c E; cbn [run_program] in E; [ret_inv E; apply rtc_refl|].
  ret_inv E. etrans; [by eapply do_call_refines|]. by eapply IH.
Qed.
Lemma notify_refines cb c b c' : may_call (state_of c) cb = true → notify config rng app cb c = Returns (b, c') → refines c c'.
Proof.
  intros Hm E. unfold notify in E. etrans; [apply act_one; by apply (act_call _ (view_of c) cb)|].
  change (with_calls [cb] (view_of c)) with (view_of (put_trace (trace c ++ [cb]) c)). destruct (app cb); [by eapply run_program_refines|ret_inv E; apply rtc_refl].
Qed.
Lemma tell_refines cb c c' : may_call (state_of c) cb = true → tell config rng app cb c = Returns c' → refines c c'.
Proof. intros Hm E. unfold tell in E. ret_inv E. by eapply notify_refines. Qed.
(** A handler called right after the state has changed. *)
Lemma tell_after cb c v c' : v = view_of (put_trace (trace c ++ [cb]) c) → tell config rng app cb c = Returns c' → acts v (view_of c').
Proof.
  intros -> E. unfold tell in E. ret_inv E. unfold notify in B. destruct (app cb); [by eapply run_program_refines|ret_inv B; apply rtc_refl].
Qed.

(** Nothing a handler calls has an effect on a closed connection. *)
Lemma do_call_closed a c r c' : state_of c = closed → do_call config rng app a c = Returns (r, c') → view_of c' = view_of c.
Proof.
  intros Hs. destruct a; cbn [do_call]; unfold reply, send_text, send_bytes, send, ping, pong, close, conn_set_status, conn_set_status_msg, conn_set_body, refused;
    rewrite ?(bool_decide_eq_false_2 (state_of c = open)) by congruence; cbn [negb]; intros E.
  1-6: ret_inv E; try ret_inv B; done.
  1-3: ret_inv E; unfold pause_reading, resume_reading, interrupt; by rewrite view_add_task.
  1-3: destruct (in_state _ c); [by eapply change_response_view|ret_inv E; done].
  1-3: by eapply change_headers_view.
  - ret_inv E. unfold defer_http_response. by rewrite <- (view_cancel_handshake c).
  - unfold send_http_response in E. destruct (negb _); ret_inv E; [done|]. by rewrite write_http_response_view.
  - unfold add_subprotocol in E. repeat case_match; ret_inv E; done.
  - unfold select_subprotocol in E. repeat case_match; ret_inv E; done.
  - ret_inv E. done.
Qed.
Lemma tell_closed cb c c' : state_of c = closed → tell config rng app cb c = Returns c' → view_of c' = view_of (put_trace (trace c ++ [cb]) c).
Proof.
  intros Hs E. unfold tell in E. ret_inv E. unfold notify in B. destruct (app cb) as [h|]; [|by ret_inv B].
  revert B. cbv zeta. set (c1 := put_trace _ c). assert (Hs1 : state_of c1 = closed) by done. generalize (h c1). clearbody c1. intros p. clear -Hs1. revert c1 Hs1. induction p as [ans|a k IH]; intros c Hs E; cbn [run_program] in E.
  - by ret_inv E.
  - ret_inv E. pose proof (do_call_closed _ _ _ _ Hs B) as Hv. rewrite <- Hv. eapply IH; [|exact E]. by rewrite (view_state _ _ Hv).
Qed.
(** *** The end of a connection *)
Lemma terminate_refines ec c c' : terminate config rng app ec c = Returns c' → refines c c'.
Proof.
  unfold terminate. cbv zeta. set (c1 := cancel_handshake_timer c). set (c2 := match ec with None => c1 | Some e => _ end).
  set (c3 := if m_is_http (session_of c2) then _ else c2).
  assert (Hv : view_of c3 = view_of c) by (rewrite <- (view_cancel_handshake c); fold c1; unfold c3, c2; by destruct ec, (m_is_http _)).
  rewrite <- Hv. generalize c3. clear. intros c. unfold async_shutdown, handle_terminate. intros E.
  assert (Hend : ∀ c1, tell config rng app on_termination c1 = Returns c' → state_of c1 = closed → acts (view_of c1) (view_of c')).
  { intros c1 Ht Hs. eapply tell_refines; [|exact Ht]. by rewrite Hs. }
  assert (Hcall : ∀ cb, act (is_server config) (view_of c) (with_calls [cb] (with_state closed (view_of c))) →
    ∀ c1, tell config rng app cb (in_transport (put_shut true) (in_session (put_m_state closed) c)) = Returns c1 → tell config rng app on_termination c1 = Returns c' → refines c c').
  { intros cb Ha c1 H1 H2. apply tell_closed in H1; [|done]. etrans; [by apply act_one|].
    change (with_calls [cb] (with_state closed (view_of c))) with (view_of (put_trace (trace (in_transport (put_shut true) (in_session (put_m_state closed) c)) ++ [cb]) (in_transport (put_shut true) (in_session (put_m_state closed) c)))).
    rewrite <- H1. apply Hend; [done|]. by rewrite (view_state _ _ H1). }
  destruct (state_of c) eqn:Hs; ret_inv E.
  - case_bool_decide; [|eapply Hcall; [apply (act_fail _ (view_of c) [on_fail]); [done|by right]|done..]].
    ret_inv B. etrans; [apply act_one, (act_fail _ (view_of c) []); [done|by left]|].
    replace (with_calls [] (with_state closed (view_of c))) with (view_of (in_transport (put_shut true) (in_session (put_m_state closed) c))); [by apply Hend|].
    unfold with_calls, view_of. cbn. by rewrite app_nil_r.
  - eapply Hcall; [apply (act_end _ (view_of c)); by left|done..].
  - eapply Hcall; [apply (act_end _ (view_of c)); by right|done..].
  - apply rtc_refl.
Qed.

(** *** Frames *)
Lemma write_frame_refines c ts : tasks (transport_of c) = write_frame_task :: ts → refines c (write_frame (in_transport (put_tasks ts) c)).
Proof.
  intros Ht. assert (Hw : v_wakes (view_of c) = S (wakes ts)) by (cbn; by rewrite Ht).
  set (c1 := in_transport (put_tasks ts) c). unfold write_frame. change (outgoing_of c1) with (v_out (view_of c)).
  destruct (m_write_flag (v_out (view_of c))) eqn:Hf; [by apply act_one, (act_wake_busy _ (view_of c) (wakes ts))|].
  fold (taken (v_out (view_of c))). case_bool_decide as Hc; [by apply act_one, (act_wake_empty _ (view_of c) (wakes ts))|].
  rewrite view_async_write. by apply act_one, (act_write _ (view_of c) (wakes ts)).
Qed.
Lemma last_none {A} (l : list A) : last l = None → l = [].
Proof. destruct l as [|x l] using rev_ind; [done|]. by rewrite last_snoc. Qed.
(** The first write in flight is a frame: it is done, or it has failed. *)
Lemma handle_write_frame_refines ec n bytes ws c c' (part := match ec with None => bytes | Some _ => take n bytes end) :
  writes (transport_of c) = (write_frame_handler, bytes) :: ws →
  handle_write_frame config rng app ec (in_transport (λ r, put_sent (sent r ++ [(write_frame_handler, part)]) (put_writes ws r)) c) = Returns c' → refines c c'.
Proof.
  intros Hw E. set (c1 := in_transport _ c) in E.
  assert (Hfr : v_frames (view_of c) = bytes :: (snd <$> filter is_frame ws)) by (cbn; by rewrite Hw).
  assert (Hv : ∀ f, view_of (in_outgoing f c1) = with_frames (snd <$> filter is_frame ws) (v_sent (view_of c) ++ part) (with_out (f (outgoing_of c)) (v_wakes (view_of c)) (view_of c))).
  { intros f. unfold view_of. cbn. rewrite filter_app, filter_cons_True, filter_nil, fmap_app, concat_app by done. cbn. by rewrite app_nil_r. }
  unfold handle_write_frame in E. change (outgoing_of c1) with (v_out (view_of c)) in E. destruct (last _) as [m|] eqn:Hl; [|done]. cbv zeta in E.
  destruct ec as [e|].
  - apply terminate_refines in E. etrans; [|exact E]. rewrite Hv. by apply act_one, (act_write_failed _ (view_of c) bytes).
  - destruct (m_terminal m) eqn:Hm.
    + apply terminate_refines in E. etrans; [|exact E]. rewrite Hv. by apply act_one, (act_written_last _ (view_of c) bytes _ m).
    + ret_inv E. set (c2 := in_outgoing _ (in_outgoing _ c1)). assert (Hv2 : view_of c2 = with_frames (snd <$> filter is_frame ws) (v_sent (view_of c) ++ bytes)
        (with_out (put_write_flag false (written (v_out (view_of c)))) (v_wakes (view_of c)) (view_of c))) by apply (Hv (λ o, put_write_flag false (written o))).
      pose proof (act_written (is_server config) (view_of c) bytes _ m Hfr Hl Hm) as Ha. change (m_send_queue (outgoing_of c2)) with (m_send_queue (v_out (view_of c))).
      case_bool_decide; cbn [negb]; rewrite ?view_add_task, Hv2; by apply act_one.
Qed.

Lemma reject_close_refines ec why c c' : state_of c = open ∨ state_of c = closing → reject_close config rng app ec why c = Returns c' → refines c c'.
Proof.
  unfold reject_close. intros Hs E. destruct (drop_on_protocol_error config); [by eapply terminate_refines|]. ret_inv E. by eapply close_frame_refines.
Qed.
Lemma process_close_frame_refines m c c' : state_of c = open ∨ state_of c = closing → process_close_frame config rng app m c = Returns c' → refines c c'.
Proof.
  unfold process_close_frame. intros Hs E. destruct (extract_code _) as [code ec]. destruct ec as [e|].
  { apply reject_close_refines in E; [exact E|exact Hs]. }
  ret_inv E; try apply rtc_refl.
  all: first [apply reject_close_refines in E; [exact E|exact Hs]|apply terminate_refines in E; exact E|
    match goal with B : send_close_ack _ _ _ _ _ = _ |- _ => apply close_frame_refines in B; [exact B|exact Hs] end].
Qed.
Lemma process_control_frame_refines m c c' : state_of c ≠ connecting → process_control_frame config rng app m c = Returns c' → refines c c'.
Proof.
  unfold process_control_frame. cbv zeta. intros Hs E. case_bool_decide as Hc; [ret_inv E; apply rtc_refl|].
  destruct (negb (m_opcode m =? opcode.close) && negb (bool_decide (state_of c = open))) eqn:Ho; [ret_inv E; apply rtc_refl|].
  assert (Hoc : state_of c = open ∨ state_of c = closing) by (destruct (state_of c); try done; auto).
  assert (Hopen : (m_opcode m =? opcode.close) = false → state_of c = open).
  { intros Hno. rewrite Hno in Ho. cbn in Ho. by case_bool_decide. }
  destruct (m_opcode m =? opcode.ping) eqn:Hp; [|destruct (m_opcode m =? opcode.pong) eqn:Hq].
  - assert (Hst : state_of c = open) by (apply Hopen; apply Z.eqb_eq in Hp; rewrite Hp; done). ret_inv E.
    + etrans; [eapply notify_refines; [|exact B]; by rewrite Hst|]. by eapply pong_refines.
    + eapply notify_refines; [|exact B]. by rewrite Hst.
  - assert (Hst : state_of c = open) by (apply Hopen; apply Z.eqb_eq in Hq; rewrite Hq; done). ret_inv E.
    etrans; [eapply tell_refines; [|exact B]; by rewrite Hst|]. destruct (m_ping_timer _); apply rtc_refl.
  - destruct (m_opcode m =? opcode.close); [by eapply process_close_frame_refines|ret_inv E; apply rtc_refl].
Qed.
Lemma dispatch_refines m c c' : state_of c ≠ connecting → dispatch_message config rng app m c = Returns c' → refines c c'.
Proof.
  unfold dispatch_message. intros Hs E. destruct m as [m|]; [|ret_inv E; apply rtc_refl]. destruct (negb _); [|by eapply process_control_frame_refines].
  case_bool_decide as Ho; [|ret_inv E; apply rtc_refl]. eapply tell_refines; [|exact E]. by rewrite Ho.
Qed.

Lemma handle_consume_error_refines e c c' : handle_consume_error config rng app e c = Returns c' → refines c c'.
Proof.
  unfold handle_consume_error. intros E. destruct (drop_on_protocol_error config); [by eapply terminate_refines|]. ret_inv E.
  - etrans; [by eapply close_refines|by eapply terminate_refines].
  - by eapply close_refines.
Qed.
Lemma read_frame_view c : view_of (read_frame c) = view_of c.
Proof. unfold read_frame. by destruct (m_read_flag c). Qed.
Lemma frame_loop_refines fuel n p c c' : state_of c ≠ connecting → frame_loop config rng app fuel n p c = Returns c' → refines c c'.
Proof.
  revert p c. induction fuel as [|fuel IH]; intros p c Hs E; [done|]. cbn [frame_loop] in E. destruct (p <? n)%nat; [|ret_inv E; rewrite read_frame_view; apply rtc_refl].
  ret_inv E.
  - apply handle_consume_error_refines in E. exact E.
  - assert (Hd : refines c x1).
    { destruct (processor_ready _); [|ret_inv B0; apply rtc_refl]. ret_inv B0. apply dispatch_refines in B0; [exact B0|exact Hs]. }
    etrans; [exact Hd|]. eapply IH; [|exact E]. by apply (acts_not_connecting _ _ _ Hd).
Qed.
Lemma handle_read_frame_refines ec n c c' : live_ok (is_server config) (view_of c) → handle_read_frame config rng app ec n c = Returns c' → refines c c'.
Proof.
  unfold handle_read_frame. cbv zeta. intros Hl E.
  destruct (match ec with Some _ => ec | None => _ end) as [e|] eqn:Ee; [ret_inv E; try apply rtc_refl; by eapply terminate_refines|].
  eapply frame_loop_refines; [|exact E]. apply Hl. destruct ec; [done|]. cbn. unfold in_state in Ee. by case_bool_decide.
Qed.

(** *** The opening handshake *)
Lemma view_internal st c : st ≠ PROCESS_CONNECTION → (client_state st = true → is_server config = false) → refines c (in_session (put_internal_state st) c).
Proof.
  intros Hst Hc. by apply act_one, (act_internal _ (view_of c) st).
Qed.
Lemma initialize_processor_view c ec c' : initialize_processor config deflate0 c = Returns (ec, c') → view_of c' = view_of c.
Proof. unfold initialize_processor. cbv zeta. intros E. ret_inv E; done. Qed.
Lemma process_plain_request_refines c ec c' : state_of c = connecting → process_plain_request config rng app c = Returns (ec, c') → refines c c'.
Proof.
  unfold process_plain_request. cbv zeta. intros Hs E. ret_inv E; [apply rtc_refl| |].
  - eapply tell_refines in B; [exact B|]. change (state_of _) with (state_of c). by rewrite Hs.
  - unfold conn_set_status, refused in B. destruct (in_state _ _); [apply change_response_view in B; by rewrite B|ret_inv B; apply rtc_refl].
Qed.
Lemma negotiate_view c ec c' : negotiate config c = Returns (ec, c') → view_of c' = view_of c.
Proof. unfold negotiate. cbv zeta. intros E. ret_inv E. repeat case_match; simplify_eq; done. Qed.
Lemma validate_and_answer_refines c ec c' : state_of c = connecting → validate_and_answer config rng w0 buf0 key_final0 app c = Returns (ec, c') → refines c c'.
Proof.
  unfold validate_and_answer. cbv zeta. intros Hs E. assert (Hn : ∀ b d, notify config rng app on_validate c = Returns (b, d) → refines c d).
  { intros b d. apply notify_refines. by rewrite Hs. }
  ret_inv E; match goal with B : notify _ _ _ _ _ = _ |- _ => apply Hn in B; try exact B end. by destruct (_ =? _).
Qed.
Lemma process_handshake_request_refines c ec c' : state_of c = connecting → process_handshake_request config rng w0 buf0 key_final0 app c = Returns (ec, c') → refines c c'.
Proof.
  unfold process_handshake_request. cbv zeta. intros Hs E. destruct (negb _); [by eapply process_plain_request_refines|].
  ret_inv E; try apply rtc_refl; match goal with B : negotiate _ _ = _ |- _ => apply negotiate_view in B; rename B into Hv end.
  - rewrite Hv. apply rtc_refl.
  - rewrite <- Hv. apply rtc_refl.
  - rewrite <- Hv. apply validate_and_answer_refines in E; [exact E|]. by rewrite <- Hs, <- (view_state _ _ Hv).
Qed.
Lemma write_http_response_error_refines ec c c' : write_http_response_error config rng app ec c = Returns c' → refines c c'.
Proof.
  unfold write_http_response_error. intros E. destruct (negb _); [by eapply terminate_refines|]. ret_inv E.
  rewrite write_http_response_view. by apply view_internal.
Qed.
Lemma read_key3_view processed n c p c' : read_key3 processed n c = Some (p, c') → view_of c' = view_of c.
Proof. unfold read_key3. intros E. repeat case_match; simplify_eq; done. Qed.
Lemma request_complete_refines processed n c c' : state_of c = connecting → request_complete config rng w0 buf0 key_final0 deflate0 app processed n c = Returns c' → refines c c'.
Proof.
  unfold request_complete. cbv zeta. intros Hs E. ret_inv E; match goal with B : initialize_processor _ _ _ = _ |- _ => apply initialize_processor_view in B; rename B into Hv end; rewrite <- Hv.
  - by eapply write_http_response_error_refines.
  - match goal with B : read_key3 _ _ _ = _ |- _ => apply read_key3_view in B; rename B into Hk end. rewrite <- Hk.
    etrans; [by apply (view_internal PROCESS_HTTP_REQUEST)|].
    match goal with B : process_handshake_request _ _ _ _ _ _ _ = _ |- _ => apply process_handshake_request_refines in B; [|by rewrite <- Hs, <- (view_state _ _ Hv), <- (view_state _ _ Hk)];
      destruct (_ || _); rewrite ?write_http_response_view; exact B end.
  - apply write_http_response_error_refines in E. exact E.
Qed.
(** The first lines of the handlers of the handshake. *)
Lemma checked_refines ec st go c c' : checked config rng app ec st go c = Returns c' → (state_of c = connecting → in_state st c = true → go c = Returns c' → refines c c') → refines c c'.
Proof.
  unfold checked, check_connecting. cbv zeta. intros E Hgo. destruct ec as [e|].
  - destruct (_ && _); [ret_inv E; apply rtc_refl|by eapply terminate_refines].
  - unfold library in E. assert (Hbd : bool_decide (library_ec error.invalid_state = transport_ec transport_error.eof) = false) by by apply bool_decide_eq_false_2.
    destruct (state_of c) eqn:Hs; rewrite ?Hbd in E; cbn [andb] in E; try (by eapply terminate_refines); [|ret_inv E; apply rtc_refl].
    destruct (in_state st c) eqn:Hin; [by apply Hgo|]. rewrite Hbd in E. cbn [andb] in E. by eapply terminate_refines.
Qed.
Lemma handle_read_handshake_refines ec n c c' : handle_read_handshake config rng w0 buf0 key_final0 deflate0 app ec n c = Returns c' → refines c c'.
Proof.
  unfold handle_read_handshake. intros E. eapply checked_refines; [exact E|]. clear E. cbv beta. intros Hs Hin E.
  destruct (_ <? _)%nat; [by eapply terminate_refines|]. destruct (request_consume _ _) as [[processed r]|e|e]; [..|done].
  - cbv zeta in E. destruct (_ <? _); [by apply terminate_refines in E|]. destruct (m_ready r); [|ret_inv E; apply rtc_refl].
    apply request_complete_refines in E; [exact E|done].
  - apply write_http_response_error_refines in E. exact E.
Qed.

(** The connection opens, calls the handler, and reads the frames that came early. *)
Lemma opening_refines c c1 c2 n c' : state_of c = connecting ∨ is_server config = false →
  tell config rng app on_open (in_session (λ s, put_m_state open (put_internal_state PROCESS_CONNECTION s)) c) = Returns c1 → view_of c2 = view_of c1 →
  handle_read_frame config rng app None n c2 = Returns c' → refines c c'.
Proof.
  intros Hs Ht Hv Hr. pose proof (act_open (is_server config) (view_of c) Hs) as Ha.
  eapply (tell_after _ _ (with_calls [on_open] (with_internal PROCESS_CONNECTION (with_state open (view_of c))))) in Ht; [|done].
  assert (Hc1 : acts (view_of c) (view_of c1)) by (etrans; [by apply act_one|exact Ht]).
  etrans; [exact Hc1|]. rewrite <- Hv. eapply handle_read_frame_refines; [|exact Hr]. rewrite Hv.
  apply (acts_live_ok _ _ _ Ht). by split.
Qed.
Lemma handle_write_http_response_refines ec c c' : handle_write_http_response config rng app ec c = Returns c' → refines c c'.
Proof.
  unfold handle_write_http_response. intros E. eapply checked_refines; [exact E|]. clear E. cbv beta zeta. intros Hs Hin E.
  destruct (negb _).
  - apply terminate_refines in E. rewrite <- (view_cancel_handshake c). by destruct (m_is_http _).
  - ret_inv E. rewrite <- (view_cancel_handshake c). eapply opening_refines; [|exact B|done|exact E]. left. by rewrite (view_state _ _ (view_cancel_handshake c)).
Qed.
Lemma send_http_request_refines c c' : send_http_request config rng c = Returns c' → refines c c'.
Proof.
  unfold send_http_request. cbv zeta. intros E. ret_inv E; try apply rtc_refl. rewrite view_async_write, view_timer. apply rtc_refl.
Qed.
Lemma handle_send_http_request_refines ec c c' : live_ok (is_server config) (view_of c) → handle_send_http_request config rng app ec c = Returns c' → refines c c'.
Proof.
  unfold handle_send_http_request. intros [_ Hl] E. eapply checked_refines; [exact E|]. clear E. cbv beta. intros Hs Hin E. ret_inv E.
  apply (view_internal READ_HTTP_RESPONSE); [done|]. intros _. apply Hl. cbn. unfold in_state in Hin. apply bool_decide_eq_true in Hin. by rewrite Hin.
Qed.
Lemma response_complete_refines processed n c c' : is_server config = false → response_complete config rng w0 app processed n c = Returns c' → refines c c'.
Proof.
  unfold response_complete. cbv zeta. intros Hc E. rewrite <- (view_cancel_handshake c). ret_inv E; [by eapply terminate_refines|].
  match goal with T : tell _ _ _ _ (in_session _ ?d) = Returns _ |- _ => assert (Ho : refines d c') by (eapply opening_refines; [by right|exact T| |exact E]; done) end.
  etrans; [|exact Ho]. match goal with B : match ?o with _ => _ end = Returns _ |- _ => destruct o; [by apply terminate_refines in B|ret_inv B; apply rtc_refl] end.
Qed.
Lemma handle_read_http_response_refines ec n c c' : live_ok (is_server config) (view_of c) → handle_read_http_response config rng w0 app ec n c = Returns c' → refines c c'.
Proof.
  unfold handle_read_http_response. intros [_ Hl] E. eapply checked_refines; [exact E|]. clear E. cbv beta. intros Hs Hin E.
  assert (Hc : is_server config = false) by (apply Hl; cbn; unfold in_state in Hin; apply bool_decide_eq_true in Hin; by rewrite Hin).
  destruct (response_consume _ _) as [[processed a]|e|e]; [..|done]; [|by eapply terminate_refines].
  cbv zeta in E. destruct (headers_ready a); [|ret_inv E; apply rtc_refl]. apply response_complete_refines in E; [exact E|done].
Qed.
Lemma start_refines ec c c' : start config rng deflate0 app ec c = Returns c' → refines c c'.
Proof.
  unfold start, handle_transport_init. cbv zeta. intros E. destruct (negb (in_state USER_INIT c)); [by eapply terminate_refines|].
  etrans; [by apply (view_internal TRANSPORT_INIT)|]. revert E. generalize (in_session (put_internal_state TRANSPORT_INIT) c). clear c. intros c E.
  destruct (if negb _ then _ else _) as [e|]; [by eapply terminate_refines|]. destruct (Bool.bool_dec (is_server config) true) as [Hb|Hb%Bool.not_true_is_false]; rewrite Hb in E.
  - ret_inv E. etrans; [by apply (view_internal READ_HTTP_REQUEST)|]. unfold read_handshake.
    change (view_of (async_read ?h ?d)) with (view_of d). rewrite view_timer. apply rtc_refl.
  - apply send_http_request_refines in E. etrans; [by apply (view_internal WRITE_HTTP_REQUEST)|]. exact E.
Qed.

(** *** Steps *)
Lemma handle_timer_refines h ec c c' : handle_timer config rng app h ec c = Returns c' → refines c c'.
Proof.
  unfold handle_timer. intros E. destruct ec; [ret_inv E; apply rtc_refl|]. destruct h; [by eapply terminate_refines..|eapply tell_refines; [|exact E]; done].
Qed.
Lemma run_first_task_refines t ts c c' : tasks (transport_of c) = t :: ts → run_first_task config rng app t (in_transport (put_tasks ts) c) = Returns c' → refines c c'.
Proof.
  intros Ht E. destruct t; cbn [run_first_task] in E; [ret_inv E; by apply write_frame_refines|..].
  all: assert (Hv : view_of (in_transport (put_tasks ts) c) = view_of c) by (unfold view_of; cbn; by rewrite Ht); rewrite <- Hv.
  - ret_inv E. apply rtc_refl.
  - ret_inv E. unfold handle_resume_reading. rewrite read_frame_view. apply rtc_refl.
  - eapply tell_refines; [|exact E]. done.
Qed.
Lemma run_write_handler_refines h ec n bytes ws c c' (part := match ec with None => bytes | Some _ => take n bytes end) :
  live_ok (is_server config) (view_of c) → writes (transport_of c) = (h, bytes) :: ws →
  run_write_handler config rng app h ec (in_transport (λ r, put_sent (sent r ++ [(h, part)]) (put_writes ws r)) c) = Returns c' → refines c c'.
Proof.
  intros Hl Hw E. destruct h; [..|by eapply handle_write_frame_refines].
  all: match type of E with run_write_handler _ _ _ _ _ ?d = _ => assert (Hv : view_of d = view_of c) by (unfold view_of; cbn; rewrite Hw, filter_app; cbn; by rewrite app_nil_r) end; rewrite <- Hv; cbn [run_write_handler] in E.
  - by eapply handle_write_http_response_refines.
  - eapply handle_send_http_request_refines; [by rewrite Hv|exact E].
Qed.
Lemma run_read_handler_refines h ec n c c' : live_ok (is_server config) (view_of c) →
  run_read_handler config rng w0 buf0 key_final0 deflate0 app h ec n c = Returns c' → refines c c'.
Proof.
  intros Hl E. destruct h; [by eapply handle_read_handshake_refines|by eapply handle_read_http_response_refines|by eapply handle_read_frame_refines].
Qed.
Lemma step_refines e c c' : live_ok (is_server config) (view_of c) →
  step config rng w0 buf0 key_final0 deflate0 app e c = Some (Returns c') → refines c c'.
Proof.
  intros Hl E. destruct e as [ec|a| |ec bytes|ec n|id|id ec]; cbn [step] in E.
  - injection E as E. by eapply start_refines.
  - injection E as E. ret_inv E. by eapply do_call_refines.
  - destruct (tasks _) as [|t ts] eqn:Ht; [done|]. injection E as E. by eapply run_first_task_refines.
  - destruct (reads _) as [|h hs]; [done|]. destruct (_ && _); [|done]. injection E as E. apply run_read_handler_refines in E; [exact E|done].
  - destruct (writes _) as [|[h bytes] ws] eqn:Hw; [done|]. injection E as E. by eapply run_write_handler_refines.
  - destruct (find_timer id c); [|done]. injection E as E. ret_inv E. subst c'. apply rtc_refl.
  - destruct (find_timer id c) as [t|]; [|done]. destruct (timer_result_ok t ec); [|done]. injection E as E. apply handle_timer_refines in E. exact E.
Qed.
Lemma new_live_ok : live_ok (is_server config) new_view.
Proof. by split. Qed.
Lemma reachable_acts raw c : reachable config rng w0 buf0 key_final0 deflate0 app raw c → acts new_view (view_of c).
Proof.
  intros Hr. induction Hr as [|e c c' Hr IH E]; [apply rtc_refl|]. etrans; [exact IH|].
  eapply step_refines; [|exact E]. eapply acts_live_ok; [exact IH|]. apply new_live_ok.
Qed.
Lemma run_events_reachable raw es c c' : reachable config rng w0 buf0 key_final0 deflate0 app raw c →
  run_events config rng w0 buf0 key_final0 deflate0 app es c = Some (Returns c') → reachable config rng w0 buf0 key_final0 deflate0 app raw c'.
Proof.
  revert c. induction es as [|e es IH]; intros c Hr E; cbn [run_events] in E; [by injection E as <-|].
  destruct (step _ _ _ _ _ _ _ e c) as [[c1|x|x]|] eqn:Es; try done. eapply IH; [|exact E]. by eapply reach_step.
Qed.

(** *** What holds of every connection *)
Lemma new_queue_ok : queue_ok new_view.
Proof. split; [eapply (queue_idle _ []); [done..|constructor|done]|done|]. cbn. unfold size_t. by rewrite Zmod_0_l. Qed.
Lemma acts_queue_ok v v' : acts v v' → queue_ok v → queue_ok v'.
Proof. intros Ha. induction Ha; [done|]. intros Hq. apply IHHa. by eapply act_queue_ok. Qed.
Lemma acts_legal v v' : is_server config = true → acts v v' → legal (v_state v) (v_trace v) → legal (v_state v') (v_trace v').
Proof. intros Hs Ha. induction Ha; [done|]. intros Hl. apply IHHa. by eapply act_legal. Qed.
Lemma wakes_posted ts : wakes ts ≠ 0%nat → write_frame_task ∈ ts.
Proof.
  unfold wakes. destruct (filter _ ts) as [|t l] eqn:E; [done|]. intros _. assert (Ht : t ∈ t :: l) by left.
  rewrite <- E in Ht. apply list_elem_of_filter in Ht as [Ht Hin]. by destruct t.
Qed.
Lemma queue_prefix v : queue_ok v → v_sent v ++ concat (v_frames v) `prefix_of` wires (sendable (accepted (v_out v))) ∧ (length (v_frames v) ≤ 1)%nat.
Proof.
  intros [Hp _ _]. destruct Hp as [done Hf Hc Hb Hfr Ha Hr He|done ms x Hf Hc Hfr Ha Hr He|Hf Hc Hfr Hpre]; rewrite Hfr; (split; [|cbn; lia]).
  - cbn [concat]. rewrite Ha, He, sendable_running, wires_app, app_nil_r by done. by eexists.
  - rewrite Ha, He, app_assoc, sendable_running by done. cbn [sendable concat]. rewrite app_nil_r, !wires_app, !wires_cons, !(app_assoc (wires done)), app_nil_r, (app_assoc _ (wire x)).
    by apply prefix_app_r.
  - cbn. by rewrite app_nil_r.
Qed.

(** C6: Messages leave in the order in which they were accepted, each once, whatever the
    handlers, the peer and the network do: the bytes written and those of the write in
    flight, of which there is at most one, begin the frames of the accepted messages up
    to the first terminal one; the byte count of the queue is exact; and no message is
    forgotten: when no write is in flight, a call of [write_frame] is posted for a queue
    that is not empty, and all messages that left the queue are written. *)
Theorem frames_in_order raw c (o := outgoing_of c) : reachable config rng w0 buf0 key_final0 deflate0 app raw c →
  v_sent (view_of c) ++ concat (v_frames (view_of c)) `prefix_of` wires (sendable (accepted o)) ∧ (length (v_frames (view_of c)) ≤ 1)%nat ∧
  m_send_buffer_size o = size_t (queue_size (m_send_queue o)) ∧
  (m_write_flag o = false → (m_send_queue o ≠ [] → write_frame_task ∈ tasks (transport_of c)) ∧ v_sent (view_of c) ++ wires (m_send_queue o) = wires (accepted o)).
Proof.
  intros Hr. pose proof (acts_queue_ok _ _ (reachable_acts raw c Hr) new_queue_ok) as Hq. pose proof Hq as [Hp Hw Hs].
  destruct (queue_prefix _ Hq). split_and!; [done|done|exact Hs|]. intros Hf. split; [intros Hne; apply wakes_posted, (Hw Hf Hne)|].
  destruct Hp as [done Hf' Hc Hb Hfr Ha Hr' He|done ms x Hf' |Hf' ]; [|cbn in Hf'; fold o in Hf'; congruence..].
  change (accepted o) with (accepted (v_out (view_of c))). by rewrite Ha, He, wires_app.
Qed.

(** C8: A server calls its handlers in a legal order, whatever the peer sends and the handlers
    do: the handlers of the handshake, then [on_open], then those of messages, then
    [on_close] once, or else [on_fail] alone and no other; [on_termination] comes last.
    (A client whose negotiation of extensions fails does not keep to it.) *)
Theorem server_calls_legal raw c : is_server config = true → reachable config rng w0 buf0 key_final0 deflate0 app raw c → legal (state_of c) (trace c).
Proof. intros Hs Hr. by apply (acts_legal _ _ Hs (reachable_acts raw c Hr)). Qed.

(** C9: The connection implements the abstract session: whatever happens to it, what users and
    peers see is a sequence of the session's actions. *)
Theorem connection_refines_session raw es c : run_events config rng w0 buf0 key_final0 deflate0 app es (new_connection config raw) = Some (Returns c) →
  acts new_view (view_of c) ∧ live_ok (is_server config) (view_of c).
Proof.
  intros E. assert (Ha : acts new_view (view_of c)) by (eapply reachable_acts, run_events_reachable; [apply reach_new|exact E]).
  split; [exact Ha|]. eapply acts_live_ok; [exact Ha|]. apply new_live_ok.
Qed.
End Refinement.

(** ** A connection from its handshake to its end: a server that answers every message with a greeting *)
Definition sample_config : configuration := mkConfig true false 13 200 false false true (lit "WS") 1000 5000 5000 0 32000000.
Definition greeting_app (cb : callback) : option (@conn disabled → @program disabled) :=
  match cb with on_message _ => Some (λ _, Call (Send [104; 105] opcode.text) (λ _ _, Answer true)) | _ => None end.
Definition sample_request : list Z :=
  let line s := bytes_of (lit s) ++ [13; 10] in
  line "GET /chat HTTP/1.1" ++ line "Host: a" ++ line "Upgrade: websocket" ++ line "Connection: Upgrade" ++
  line "Sec-WebSocket-Key: dGhlIHNhbXBsZSBub25jZQ==" ++ line "Sec-WebSocket-Version: 13" ++ [13; 10].
(** A text comes with the handshake and is answered; then the client closes. *)
Definition sample_events : list event :=
  [start_connection None; read_done None (sample_request ++ [129; 130; 1; 2; 3; 4; 105; 107]); write_done None 0; run_task; write_done None 0;
   read_done None [136; 128; 0; 0; 0; 0]; run_task; write_done None 0].
Definition sample_run (es : list event) : option (@conn disabled) :=
  match @run_events x86_64 disabled no_extension sample_config (λ _, 0) (replicate 80 0) (replicate 64 0) (replicate 16 0) () greeting_app es (new_connection sample_config (replicate 200 0)) with
  | Some (Returns c) => Some c
  | _ => None
  end.
Definition sample_reachable : @conn disabled → Prop :=
  @reachable x86_64 disabled no_extension sample_config (λ _, 0) (replicate 80 0) (replicate 64 0) (replicate 16 0) () greeting_app (replicate 200 0).
Lemma sample_run_events es c : sample_run es = Some c →
  @run_events x86_64 disabled no_extension sample_config (λ _, 0) (replicate 80 0) (replicate 64 0) (replicate 16 0) () greeting_app es (new_connection sample_config (replicate 200 0)) = Some (Returns c).
Proof. unfold sample_run. destruct (run_events _ _ _ _ _ _ _ _ _) as [[c1|x|x]|]; [|done..]. by intros [= ->]. Qed.
Lemma sample_run_reachable es c : sample_run es = Some c → sample_reachable c.
Proof. intros E%sample_run_events. eapply run_events_reachable; [apply reach_new|exact E]. Qed.
Example sample_answered : option_map (λ c, (state_of c, v_sent (view_of c), length (v_trace (view_of c)))) (sample_run sample_events) = Some (closed, [129; 2; 104; 105; 136; 2; 3; 232], 5%nat).
Proof. vm_compute. reflexivity. Qed.
Lemma sample_runs : is_Some (sample_run sample_events).
Proof. apply not_eq_None_Some. vm_compute. discriminate. Qed.
Lemma frames_in_order_witness : ∃ c, sample_run sample_events = Some c ∧ v_sent (view_of c) ++ concat (v_frames (view_of c)) `prefix_of` wires (sendable (accepted (outgoing_of c))).
Proof. destruct sample_runs as [c E]. exists c. split; [exact E|]. exact (proj1 (frames_in_order _ _ _ _ _ _ _ _ c (sample_run_reachable _ _ E))). Defined.
Lemma server_calls_legal_witness : ∃ c, sample_run sample_events = Some c ∧ legal (state_of c) (trace c).
Proof. destruct sample_runs as [c E]. exists c. split; [exact E|]. exact (server_calls_legal sample_config _ _ _ _ _ _ _ c eq_refl (sample_run_reachable _ _ E)). Defined.

Lemma connection_refines_session_witness : ∃ c, sample_run sample_events = Some c ∧ @acts x86_64 true new_view (view_of c).
Proof. destruct sample_runs as [c E]. exists c. split; [exact E|]. exact (proj1 (connection_refines_session _ _ _ _ _ _ _ _ _ c (sample_run_events _ _ E))). Defined.

(** ** What goes wrong *)
(** A client with [enable_extensions] off, which no server can satisfy: the connection
    fails and ends, and then it opens. *)
Definition client_config : configuration := mkConfig false false 13 200 false false false [] 1000 5000 5000 0 32000000.
Definition sample_uri : uri := mkUri (lit "ws") (lit "a") (lit "/") 80 false true.
Definition sample_response : list Z :=
  let line s := bytes_of (lit s) ++ [13; 10] in
  line "HTTP/1.1 101 Switching Protocols" ++ line "Upgrade: websocket" ++ line "Connection: Upgrade" ++
  line "Sec-WebSocket-Accept: ICX+Yqv66kxgM0FcWaLWlFLwTAI=" ++ [13; 10].
Definition client_events : list event :=
  [user_call (SetUri sample_uri); start_connection None; write_done None 0; read_done None sample_response].
Example client_opens_after_failure :
  match @run_events x86_64 disabled no_extension client_config (λ _, 0) (replicate 80 0) (replicate 64 0) (replicate 16 0) () (λ _, None) client_events (new_connection client_config (replicate 200 0)) with
  | Some (Returns c) => state_of c = open ∧ trace c = [on_fail; on_termination; on_open] ∧ shut (transport_of c) = true
  | _ => False
  end.
Proof. vm_compute. split_and!; reflexivity. Qed.
(** A close frame with a bad code that answers ours is answered again: the peer gets two
    close frames. *)
Definition twice_events : list event :=
  [start_connection None; read_done None sample_request; write_done None 0; user_call (Close 1000 []); run_task; write_done None 0;
   read_done None [136; 130; 0; 0; 0; 0; 3; 231]; run_task; write_done None 0].
Example two_close_frames : option_map (λ c, v_sent (view_of c)) (sample_run twice_events) = Some ([136; 2; 3; 232] ++ [136; 20; 3; 234] ++ bytes_of (lit "Invalid close code")).
Proof. vm_compute. reflexivity. Qed.
