(* ===== verification/WsDelivery.v ===== *)
(** * Established connections: no undefined behaviour, and every message is delivered

    The loop of [connection::handle_read_frame] joined with the theorems of the processor:
    whatever bytes the peer sends and whatever the handlers call, an established
    connection of versions 7 to 13 goes from one defined state to the next; and the
    messages of a peer that follows the protocol reach the handlers, each once and in
    order, however the network cuts them into reads. *)

From S2P Require Import Prelude Bytes StdString SortedKeys WsFrame Utf8 WsProcessor WsReceive WsStream HttpText HttpParser Uri WsHandshake WsHybi00 WsConnection WsSession.

Open Scope Z_scope.

(** ** Calls that are well typed, and do not resume reading (which may start a second read) *)
Definition payload_ok `{Machine} (p : list Z) : Prop := bytes_ok p ∧ Z.of_nat (length p) ≤ max_size.
Definition call_ok `{Machine} (a : call) : Prop :=
  match a with
  | Send p _ | SendBytes p _ => payload_ok p
  | SendMessage m => payload_ok (m_payload m)
  | ResumeReading => False
  | _ => True
  end.
Definition closes (a : call) : bool := match a with Close _ _ => true | _ => false end.
(** A handler's program makes such calls; unless [b], none that closes the connection. *)
Inductive program_ok `{Machine} `{Deflate} (b : bool) : program → Prop :=
  | answer_ok ans : program_ok b (Answer ans)
  | calls_ok a k : call_ok a → (closes a = true → b = true) → (∀ r c, program_ok b (k r c)) → program_ok b (Call a k).
(** Events from outside: bytes that are bytes, and calls of this kind. *)
Definition event_ok `{Machine} (e : event) : Prop :=
  match e with user_call a => call_ok a | read_done _ bytes => bytes_ok bytes | _ => True end.

Section Delivery.
Context `{Machine} `{Extension}.
Hypothesis deflate_off : ∀ d, is_enabled d = false.
Variable config : configuration.
Variable rng : nat → Z.
Variable w0 buf0 key_final0 : list Z.
Variable deflate0 : deflate_state.
Variable app : callback → option (conn → program).
Variable may_close : callback → bool.
Hypothesis app_ok : ∀ cb h c, app cb = Some h → program_ok (may_close cb) (h c).

(** ** Frames can always be prepared *)
(** Preparing a frame draws a masking key, on clients only. *)
Definition redrawn (s s' : hybi13) : Prop := s' = s ∨ (m_server s = false ∧ ∃ n, s' = set_rng n s).
#[local] Instance redrawn_preorder : PreOrder redrawn.
Proof.
  split; [by left|]. intros a b c [-> |(Ha & n & ->)] [-> |(Hb & k & ->)]; [by left|right..]; eauto.
Qed.
Lemma drawn_redrawn s : redrawn s (drawn s).
Proof. unfold drawn. destruct (m_server s) eqn:E; [by left|right]. split; [done|by eexists]. Qed.
Lemma prepare_control_total op p s : 8 ≤ op < 16 → ∃ ec out s', prepare_control rng op p (Some WsConnection.new_buffer) s = Ok (ec, Some out, s') ∧ redrawn s s'.
Proof.
  intros Hop. destruct (prepare_control_spec rng op p s Hop) as (out & E & _). change WsConnection.new_buffer with WsStream.new_buffer. rewrite E.
  destruct (_ <=? _); eexists _, _, _; (split; [done|]); [apply drawn_redrawn|by left].
Qed.
Lemma prepare_close_total code reason s : ∃ ec out s', prepare_close rng code reason (Some WsConnection.new_buffer) s = Ok (ec, Some out, s') ∧ redrawn s s'.
Proof.
  unfold prepare_close. repeat match goal with |- context[if ?b then mret _ else _] => destruct b; [eexists _, _, _; split; [done|by left]|] end.
  by apply prepare_control_total.
Qed.
Lemma prepare_data_total m s : payload_ok (m_payload m) → ∃ ec out s', prepare_data_frame rng (Some m) (Some WsConnection.new_buffer) s = Ok (ec, Some out, s') ∧ redrawn s s'.
Proof.
  intros [Hb Hl]. unfold prepare_data_frame. destruct (opcode.is_control _); [eexists _, _, _; split; [done|by left]|].
  destruct (validate_total (m_payload m) Hb) as (r & Hr). rewrite Hr. cbv zeta.
  assert (Hv : (if m_opcode m =? opcode.text then Ok r else mret true) = Ok (negb (m_opcode m =? opcode.text) || r)) by (by destruct (m_opcode m =? _)).
  rewrite Hv. cbn [mbind res_bind]. destruct (negb _ || r); cbn [negb]; [|eexists _, _, _; split; [done|by left]].
  rewrite deflate_off. cbn [andb mbind res_bind mret res_ret]. pose proof max_size_ge. assert (Hl64 : Z.of_nat (length (m_payload m)) < 2 ^ 64) by (destruct size_t_ok as [E|E]; rewrite E in *; lia).
  destruct (m_server s) eqn:Es; cbn [negb]; unfold masked_copy; rewrite ?byte_mask_spec by apply host_bytes_length; cbn [mbind res_bind mret res_ret];
    rewrite ?mask_spec_length, make_header_spec by lia; cbn [mbind res_bind mret res_ret]; eexists _, _, _; (split; [done|]); [by left|right; split; [done|by eexists]].
Qed.

(** ** What the calls of a handler keep *)
Definition has_proc (v : Z) (s : hybi13) (c : conn) : Prop := m_processor c = Some (v13 v s) ∧ m_internal_state (session_of c) = PROCESS_CONNECTION ∧ resume_reading_task ∉ tasks (transport_of c).
Record keeps (c c' : conn) : Prop := {
  k_proc v s : has_proc v s c → ∃ s', has_proc v s' c' ∧ redrawn s s';
  k_buf : m_buf c' = m_buf c;
  k_reads : reads (transport_of c') = reads (transport_of c);
  k_flag : m_read_flag c' = m_read_flag c;
  k_state : state_of c ≠ connecting → state_of c' ≠ connecting;
}.
#[global] Instance keeps_preorder : PreOrder keeps.
Proof.
  split.
  - intros c. split; try done. intros v s Hp. by exists s.
  - intros a b c [P1 B1 R1 F1 S1] [P2 B2 R2 F2 S2]. split; [|congruence..|auto]. intros v s Hp.
    destruct (P1 v s Hp) as (s1 & Hp1 & Hr1). destruct (P2 _ _ Hp1) as (s2 & Hp2 & Hr2). exists s2. split; [done|by etrans].
Qed.
(** Also the state and the history. *)
Definition quiet (c c' : conn) : Prop := state_of c' = state_of c ∧ trace c' = trace c.


Lemma same_conn_keeps c c' : m_processor c' = m_processor c → m_internal_state (session_of c') = m_internal_state (session_of c) →
  (resume_reading_task ∉ tasks (transport_of c) → resume_reading_task ∉ tasks (transport_of c')) →
  m_buf c' = m_buf c → reads (transport_of c') = reads (transport_of c) → m_read_flag c' = m_read_flag c → (state_of c ≠ connecting → state_of c' ≠ connecting) → keeps c c'.
Proof.
  intros Hp Hi Ht Hb Hr Hf Hs. split; [|done..]. intros v s (? & ? & ?). exists s. split; [|done]. split_and!; [by rewrite Hp|by rewrite Hi|by apply Ht].
Qed.
Lemma processor_keeps v s s1 c : has_proc v s c → redrawn s s1 → keeps c (put_processor (Some (v13 v s1)) c).
Proof. intros (Hp & ? & ?) Hr. split; [|done..]. intros v' s' (Hp' & _ & _). rewrite Hp in Hp'. simplify_eq. by exists s1. Qed.
Lemma push_keeps m c : keeps c (push_and_dispatch m c).
Proof.
  assert (Hw : keeps c (write_push m c)) by (destruct m; by apply same_conn_keeps). unfold push_and_dispatch. cbv zeta.
  destruct (_ && _); [|done]. etrans; [exact Hw|]. apply same_conn_keeps; try done. cbn. set_solver.
Qed.
Lemma push_quiet m c : quiet c (push_and_dispatch m c).
Proof. unfold push_and_dispatch. cbv zeta. destruct m, (_ && _); done. Qed.
Lemma timer_keeps h d c : keeps c (start_handshake_timer h d c).
Proof. unfold start_handshake_timer. destruct (0 <? d); [|done]. by apply same_conn_keeps. Qed.
Lemma cancel_keeps c : keeps c (cancel_handshake_timer c).
Proof. unfold cancel_handshake_timer. destruct (m_handshake_timer c); [|done]. by apply same_conn_keeps. Qed.
Lemma ping_timer_keeps p c : keeps c (start_ping_timer config app p c) ∧ quiet c (start_ping_timer config app p c).
Proof.
  unfold start_ping_timer. destruct (app _); [|done]. destruct (m_ping_timer c), (0 <? m_pong_timeout_dur config); (split; [by apply same_conn_keeps|done]).
Qed.

(** The common end of the calls that send a frame. *)
Definition push_prepared (v : Z) (f : res (option error_code * option message * hybi13)) (g : conn → conn) (c : conn) : outcome (option error_code * conn) :=
  '(ec, msg, p) ← lift ('(ec, out, s) ← f; mret (ec, out, v13 v s));
  let c := put_processor (Some p) c in
  match ec with Some e => mret (Some e, c) | None => mret (None, push_and_dispatch msg (g c)) end.
Lemma prepared_total v s c f (Hf : ∃ ec out s', f = Ok (ec, Some out, s') ∧ redrawn s s') (g : conn → conn) : has_proc v s c → (∀ d, keeps d (g d) ∧ quiet d (g d)) →
  ∃ ec c', push_prepared v f g c = Returns (ec, c') ∧ keeps c c' ∧ quiet c c'.
Proof.
  intros Hp Hg. destruct Hf as (ec & out & s' & -> & Hr). unfold push_prepared. cbn. pose proof (processor_keeps v s s' c Hp Hr) as Hk.
  destruct ec as [e|]; [by eexists _, _|]. set (c1 := put_processor _ c) in *. destruct (Hg c1) as [Hk2 [Hq1 Hq2]]. eexists _, _. split; [done|]. split.
  - etrans; [exact Hk|]. etrans; [exact Hk2|]. apply push_keeps.
  - destruct (push_quiet (Some out) (g c1)) as [E1 E2]. split; [by rewrite E1|by rewrite E2].
Qed.
Lemma send_total v s m c : has_proc v s c → payload_ok (m_payload m) → ∃ ec c', send rng m c = Returns (ec, c') ∧ keeps c c' ∧ quiet c c'.
Proof.
  intros Hp Hm. unfold send. destruct (negb _); [by eexists _, _|]. destruct (m_prepared m).
  - eexists _, _. split; [done|]. split; [apply push_keeps|apply push_quiet].
  - unfold deref_processor. rewrite (proj1 Hp). cbn [mbind outcome_bind mret outcome_ret processor_prepare_data_frame].
    by apply (prepared_total v s c _ (prepare_data_total m s Hm) id).
Qed.
Ltac with_proc Hp := unfold deref_processor; rewrite (proj1 Hp); cbn [mbind outcome_bind mret outcome_ret].
Lemma ping_total v s p c : has_proc v s c → ∃ ec c', ping config rng app p c = Returns (ec, c') ∧ keeps c c' ∧ quiet c c'.
Proof.
  intros Hp. unfold ping. destruct (negb _); [by eexists _, _|]. with_proc Hp.
  apply (prepared_total v s c _ (prepare_control_total opcode.ping p s ltac:(done)) (start_ping_timer config app p)); [done|]. intros d. apply ping_timer_keeps.
Qed.
Lemma pong_total v s p c : has_proc v s c → ∃ ec c', pong rng p c = Returns (ec, c') ∧ keeps c c' ∧ quiet c c'.
Proof.
  intros Hp. unfold pong. destruct (negb _); [by eexists _, _|]. with_proc Hp. by apply (prepared_total v s c _ (prepare_control_total opcode.pong p s ltac:(done)) id).
Qed.
Lemma close_frame_total v s code reason ack terminal c : has_proc v s c →
  ∃ ec c', send_close_frame config rng code reason ack terminal c = Returns (ec, c') ∧ keeps c c' ∧ trace c' = trace c.
Proof.
  intros Hp. unfold send_close_frame. destruct (close_info _ _ _ _ _) as [code' reason']. cbv zeta. set (c1 := in_session _ c).
  assert (Hp1 : has_proc v s c1) by done. assert (Hk1 : keeps c c1) by by apply same_conn_keeps.
  with_proc Hp1. destruct (prepare_close_total code' reason' s) as (ec & out & s' & E & Hr). cbn [processor_prepare_close]. rewrite E. cbn.
  pose proof (processor_keeps v s s' c1 Hp1 Hr) as Hk2. destruct ec as [e|]; [eexists _, _; split; [done|]; split; [by etrans|done]|].
  set (c2 := put_processor _ c1) in *. set (c3 := in_session (put_m_state closing) c2). set (c4 := if ack then _ else c3).
  assert (Hk4 : keeps c2 c4) by (destruct ack; by apply same_conn_keeps). eexists _, _. split; [done|]. split.
  - etrans; [exact Hk1|]. etrans; [exact Hk2|]. etrans; [exact Hk4|]. etrans; [apply timer_keeps|apply push_keeps].
  - etrans; [apply push_quiet|]. unfold start_handshake_timer. by destruct (0 <? _), ack.
Qed.
Lemma close_total v s code reason c : has_proc v s c → ∃ ec c', close config rng code reason c = Returns (ec, c') ∧ keeps c c' ∧ trace c' = trace c.
Proof. intros Hp. unfold close. destruct (negb _); [by eexists _, _|]. by eapply close_frame_total. Qed.
Lemma write_http_response_keeps ec c : keeps c (write_http_response config ec c) ∧ quiet c (write_http_response config ec c).
Proof.
  unfold write_http_response. destruct (bool_decide _); [done|]. destruct (if _ =? _ then _ else _) as [a e]. by split; [apply same_conn_keeps|].
Qed.

(** Each call returns and keeps the connection established. *)
Lemma do_call_total v s a c : has_proc v s c → call_ok a →
  ∃ r c', do_call config rng app a c = Returns (r, c') ∧ keeps c c' ∧ trace c' = trace c ∧ (closes a = false → state_of c' = state_of c).
Proof.
  intros Hp Ha. assert (Hrefused : ∀ r, in_state r c = bool_decide (r = PROCESS_CONNECTION)).
  { intros r. unfold in_state. rewrite (proj1 (proj2 Hp)). apply bool_decide_ext. split; congruence. }
  assert (Hframe : ∀ f, (∃ ec c', f = Returns (ec, c') ∧ keeps c c' ∧ quiet c c') → ∃ r c', reply f = Returns (r, c') ∧ keeps c c' ∧ trace c' = trace c ∧ (closes a = false → state_of c' = state_of c)).
  { intros f (ec & c' & -> & Hk & Hq1 & Hq2). by eexists _, _. }
  assert (Hsame : ∀ r c', keeps c c' → quiet c c' → ∃ r' d, mret (r, c') = Returns (r' : result, d) ∧ keeps c d ∧ trace d = trace c ∧ (closes a = false → state_of d = state_of c)).
  { intros r c' Hk [? ?]. by eexists _, _. }
  destruct a; cbn [do_call call_ok] in *; unfold conn_set_status, conn_set_status_msg, conn_set_body, conn_append_header, conn_replace_header, conn_remove_header, change_headers; rewrite ?Hrefused; cbn.
  - apply Hframe. unfold send_text. rewrite new_message_ok by apply Ha. by eapply send_total.
  - apply Hframe. unfold send_bytes. rewrite new_message_ok by apply Ha. by eapply send_total.
  - apply Hframe. by eapply send_total.
  - apply Hframe. by eapply ping_total.
  - apply Hframe. by eapply pong_total.
  - destruct (close_total v s code reason c Hp) as (ec & c' & -> & Hk & Ht). by eexists _, _.
  - apply Hsame; [|done]. apply same_conn_keeps; try done. cbn. set_solver.
  - done.
  - apply Hsame; [|done]. apply same_conn_keeps; try done. cbn. set_solver.
  - by apply Hsame.
  - by apply Hsame.
  - by apply Hsame.
  - destruct (is_server config); by apply Hsame.
  - destruct (is_server config); by apply Hsame.
  - destruct (is_server config); by apply Hsame.
  - apply Hsame; [|unfold defer_http_response, cancel_handshake_timer; by destruct (m_handshake_timer c)].
    unfold defer_http_response. etrans; [apply cancel_keeps|by apply same_conn_keeps].
  - unfold send_http_response. destruct (negb _); cbn; [by apply Hsame|]. destruct (write_http_response_keeps None (in_session (put_http_state body_written) c)) as [Hk [? ?]].
    apply Hsame; [|done]. etrans; [by apply (same_conn_keeps c (in_session (put_http_state body_written) c))|done].
  - unfold add_subprotocol. repeat case_match; by apply Hsame; try apply same_conn_keeps.
  - unfold select_subprotocol. repeat case_match; by apply Hsame; try apply same_conn_keeps.
  - apply Hsame; [by apply same_conn_keeps|done].
Qed.

(** ** Handlers, and the end *)
Lemma run_program_total b p c : program_ok b p → ∀ v s, has_proc v s c →
  ∃ ans c', run_program config rng app p c = Returns (ans, c') ∧ keeps c c' ∧ trace c' = trace c ∧ (b = false → state_of c' = state_of c).
Proof.
  intros Hok. revert c. induction Hok as [ans|a k Ha Hcl Hk IH]; intros c v s Hp; [by eexists _, _|]. cbn [run_program].
  destruct (do_call_total v s a c Hp Ha) as (r & c1 & -> & Hk1 & Ht1 & Hs1). cbn [mbind outcome_bind].
  destruct (k_proc _ _ Hk1 v s Hp) as (s1 & Hp1 & _). destruct (IH r c1 c1 _ _ Hp1) as (ans & c2 & -> & Hk2 & Ht2 & Hs2).
  eexists _, _. split; [done|]. split_and!; [by etrans|congruence|]. intros Hb. rewrite (Hs2 Hb). apply Hs1. destruct (closes a); [|done]. rewrite Hcl in Hb; done.
Qed.
Lemma put_trace_keeps tr c : keeps c (put_trace tr c).
Proof. by apply same_conn_keeps. Qed.
Lemma notify_total v s cb c : has_proc v s c →
  ∃ ans c', notify config rng app cb c = Returns (ans, c') ∧ keeps c c' ∧ trace c' = trace c ++ [cb] ∧ (may_close cb = false → state_of c' = state_of c).
Proof.
  intros Hp. unfold notify. destruct (app cb) as [h|] eqn:Eh; [|eexists _, _; split; [done|]; split; [apply put_trace_keeps|done]].
  destruct (run_program_total (may_close cb) (h (put_trace (trace c ++ [cb]) c)) (put_trace (trace c ++ [cb]) c) (app_ok _ _ _ Eh) v s Hp) as (ans & c' & E & Hk & Ht & Hs).
  exists ans, c'. split; [exact E|]. split; [|done]. etrans; [apply put_trace_keeps|done].
Qed.
Lemma tell_total v s cb c : has_proc v s c →
  ∃ c', tell config rng app cb c = Returns c' ∧ keeps c c' ∧ trace c' = trace c ++ [cb] ∧ (may_close cb = false → state_of c' = state_of c).
Proof. intros Hp. unfold tell. destruct (notify_total v s cb c Hp) as (ans & c' & -> & ?). by exists c'. Qed.
Lemma terminate_total v s ec c : has_proc v s c → state_of c ≠ connecting → ∃ c', terminate config rng app ec c = Returns c' ∧ keeps c c'.
Proof.
  intros Hp Hs. unfold terminate. cbv zeta. set (c1 := cancel_handshake_timer c). set (c2 := match ec with None => c1 | Some e => _ end).
  set (c3 := if m_is_http (session_of c2) then _ else c2).
  assert (Hk : keeps c c3) by (etrans; [apply cancel_keeps|]; fold c1; unfold c3, c2; destruct ec, (m_is_http _); by apply same_conn_keeps).
  assert (Hs3 : state_of c3 ≠ connecting) by by apply Hk. destruct (k_proc _ _ Hk v s Hp) as (s3 & Hp3 & _). clearbody c3. clear c1 c2.
  assert (Hend : ∃ c', async_shutdown config rng app status_closed (in_session (put_m_state closed) c3) = Returns c' ∧ keeps c c').
  { unfold async_shutdown, handle_terminate. set (c4 := in_transport _ _). assert (Hk4 : keeps c3 c4) by (by apply same_conn_keeps).
    destruct (k_proc _ _ Hk4 _ _ Hp3) as (s4 & Hp4 & _). destruct (tell_total _ _ on_close c4 Hp4) as (c5 & -> & Hk5 & _). cbn [mbind outcome_bind].
    destruct (k_proc _ _ Hk5 _ _ Hp4) as (s5 & Hp5 & _). destruct (tell_total _ _ on_termination c5 Hp5) as (c6 & -> & Hk6 & _).
    exists c6. split; [done|]. etrans; [exact Hk|]. etrans; [exact Hk4|]. by etrans. }
  destruct (state_of c3); [done|exact Hend|exact Hend|by exists c3].
Qed.

(** *** Control frames *)
Lemma reject_close_total v s ec why c : has_proc v s c → state_of c ≠ connecting → ∃ c', reject_close config rng app ec why c = Returns c' ∧ keeps c c'.
Proof.
  intros Hp Hs. unfold reject_close, send_close_ack. destruct (drop_on_protocol_error config); [by eapply terminate_total|].
  destruct (close_frame_total v s status.protocol_error (bytes_of (lit why)) true (is_server config) c Hp) as (e & c' & -> & Hk & _). by exists c'.
Qed.
Lemma process_close_frame_total v s m c : has_proc v s c → state_of c ≠ connecting → bytes_ok (m_payload m) →
  ∃ c', process_close_frame config rng app m c = Returns c' ∧ keeps c c'.
Proof.
  intros Hp Hs Hb. unfold process_close_frame. destruct (extract_code _) as [code ec]. cbv zeta. set (c1 := in_session _ c).
  assert (Hk1 : keeps c c1) by (by apply same_conn_keeps). assert (Hp1 : has_proc v s c1) by done. assert (Hs1 : state_of c1 ≠ connecting) by done.
  assert (Hwrap : ∀ d f, keeps c d → (∃ c', f = Returns c' ∧ keeps d c') → ∃ c', f = Returns c' ∧ keeps c c').
  { intros d f Hd (c' & -> & Hk). exists c'. split; [done|]. by etrans. }
  destruct ec as [e|]; [apply (Hwrap c1); [done|]; by eapply reject_close_total|].
  assert (Hr : ∃ reason ec, extract_reason (m_payload m) = Ok (reason, ec)).
  { unfold extract_reason. destruct (validate_total (drop 2 (m_payload m))) as (r & ->); [by apply Forall_drop|]. by eexists _, _. }
  destruct Hr as (reason & ec & ->). cbn [lift mbind outcome_bind]. set (c2 := in_session _ c1). assert (Hk2 : keeps c c2) by (by apply same_conn_keeps).
  assert (Hp2 : has_proc v s c2) by done. destruct ec as [e|]; [apply (Hwrap c2); [done|]; by eapply reject_close_total|].
  destruct (bool_decide (state_of c2 = open)).
  - unfold send_close_ack. destruct (close_frame_total v s status.blank [] true (is_server config) c2 Hp2) as (e & c' & -> & Hk & _). apply (Hwrap c2); [done|]. by exists c'.
  - destruct (_ && _); [|by exists c2]. assert (Hk3 : keeps c (in_session (put_was_clean true) c2)) by (by apply same_conn_keeps).
    destruct (is_server config); [|by eexists]. eapply Hwrap; [exact Hk3|]. by apply (terminate_total v s).
Qed.

(** *** Messages *)
(** The call a message causes. *)
Definition call_of (m : message) : callback :=
  if m_opcode m =? opcode.ping then on_ping (m_payload m) else if m_opcode m =? opcode.pong then on_pong (m_payload m) else on_message m.
Lemma dispatch_total v s m c : has_proc v s c → state_of c ≠ connecting → bytes_ok (m_payload m) →
  ∃ c', dispatch_message config rng app (Some m) c = Returns c' ∧ keeps c c' ∧
  (state_of c = open → m_opcode m < 8 ∨ m_opcode m = 9 ∨ m_opcode m = 10 → may_close (call_of m) = false → state_of c' = open ∧ trace c' = trace c ++ [call_of m]).
Proof.
  intros Hp Hs Hb. cbn [dispatch_message]. unfold call_of, opcode.is_control. destruct (8 <=? m_opcode m) eqn:E8; cbn [negb].
  - unfold process_control_frame. cbv zeta. case_bool_decide as Hcl; [exists c; split_and!; [done|done|congruence]|].
    destruct (negb (m_opcode m =? opcode.close) && negb (bool_decide (state_of c = open))) eqn:En.
    { exists c. split_and!; [done|done|]. intros Ho Hop. rewrite bool_decide_eq_true_2 in En by done. by rewrite andb_false_r in En. }
    destruct (m_opcode m =? opcode.ping) eqn:E9; [|destruct (m_opcode m =? opcode.pong) eqn:E10].
    + destruct (notify_total v s (on_ping (m_payload m)) c Hp) as (ans & c1 & -> & Hk1 & Ht1 & Hs1). cbn [mbind outcome_bind].
      destruct ans; [|exists c1; split_and!; [done|done|]; intros Ho _ Hm; by rewrite (Hs1 Hm)].
      destruct (k_proc _ _ Hk1 _ _ Hp) as (s1 & Hp1 & _). destruct (pong_total v s1 (m_payload m) c1 Hp1) as (ec & c2 & -> & Hk2 & Hq1 & Hq2).
      exists c2. split_and!; [done|by etrans|]. intros Ho _ Hm. by rewrite Hq1, Hq2, (Hs1 Hm).
    + destruct (tell_total v s (on_pong (m_payload m)) c Hp) as (c1 & -> & Hk1 & Ht1 & Hs1). cbn [mbind outcome_bind].
      eexists. split; [done|]. destruct (m_ping_timer c1); [|split; [done|]; intros Ho _ Hm; by rewrite (Hs1 Hm)].
      split; [etrans; [exact Hk1|by apply same_conn_keeps]|]. intros Ho _ Hm. change (state_of (cancel n c1)) with (state_of c1). by rewrite (Hs1 Hm).
    + destruct (m_opcode m =? opcode.close) eqn:Ec.
      * destruct (process_close_frame_total v s m c Hp Hs Hb) as (c' & -> & Hk). exists c'. split_and!; [done|done|]. unfold opcode.close in Ec. lia.
      * exists c. split_and!; [done|done|]. unfold opcode.ping, opcode.pong in *. lia.
  - assert (Hno : (m_opcode m =? opcode.ping) = false ∧ (m_opcode m =? opcode.pong) = false) by (unfold opcode.ping, opcode.pong; lia). destruct Hno as [-> ->].
    case_bool_decide as Ho; [|exists c; split_and!; [done|done|congruence]].
    destruct (tell_total v s (on_message m) c Hp) as (c1 & -> & Hk1 & Ht1 & Hs1). exists c1. split_and!; [done|done|]. intros _ _ Hm. by rewrite (Hs1 Hm).
Qed.
Lemma ready_message s : proc_ok s → WsProcessor.m_state s = READY → ∃ m s', get_message s = Ok (Some m, s') ∧ at_frame s' ∧ bytes_ok (m_payload m).
Proof.
  intros Hok Hs. pose proof (ok_state s Hok) as Hst. unfold state_ok in Hst. rewrite Hs in Hst. destruct Hst as (_ & w & m & Hw & Hm).
  destruct (get_message_ready s w m (prepared_key (meta_of w s)) (utf8 (meta_of w s)) Hok Hs Hw) as (s' & ? & ? & _); [destruct (meta_of w s); simpl in Hm; by subst|].
  exists m, s'. split_and!; [done|done|]. by destruct (meta_ok w s Hok m Hm).
Qed.
Lemma waiting_redrawn s s' : redrawn s s' → waiting s → waiting s'.
Proof. intros [-> |(_ & n & ->)] (Hok & ? & ?); [done|]. split_and!; [|done..]. by destruct Hok. Qed.

(** ** The loop over the bytes of a read *)
Definition window (n p : nat) (c : conn) : list Z := take (n - p) (drop p (m_buf c)).
Lemma window_next n p k bytes c : (p ≤ n)%nat → (n ≤ length (m_buf c))%nat → length bytes = length (window n p c) → (k ≤ length bytes)%nat →
  let buf := take p (m_buf c) ++ bytes ++ drop n (m_buf c) in length buf = length (m_buf c) ∧ take (n - (p + k)) (drop (p + k) buf) = drop k bytes.
Proof.
  intros Hpn Hn Hl Hk. unfold window in Hl. rewrite length_take, length_drop in Hl. cbv zeta. split.
  - rewrite !length_app, length_take, length_drop. lia.
  - rewrite drop_app_ge by (rewrite length_take; lia). rewrite length_take. replace (p + k - p `min` length (m_buf c))%nat with k by lia.
    rewrite drop_app_le by lia. rewrite take_app_le by (rewrite length_drop; lia). apply take_ge. rewrite length_drop. lia.
Qed.
(** The state of a connection between two turns of the loop. *)
Record at_turn (n p : nat) (v : Z) (s : hybi13) (c : conn) : Prop := {
  t_proc : has_proc v s c;
  t_waiting : waiting s;
  t_state : state_of c ≠ connecting;
  t_range : (p ≤ n ≤ length (m_buf c))%nat;
  t_bytes : bytes_ok (window n p c);
}.

(** The processor never changes its side. *)
Lemma put_server l s ok s' : put l s = (ok, s') → m_server s' = m_server s.
Proof.
  assert (Hb : ∀ s, m_server (put_basic l s) = m_server s).
  { clear s s' ok. unfold put_basic. induction l as [|x l IH]; intros s; [done|]. cbn [fold_left]. rewrite IH. unfold put_basic_byte. by destruct (_ =? _). }
  unfold put, put_payload. intros E. repeat case_match; simplify_eq; done.
Qed.
Lemma field_done_server s ec s' : field_done s = Ok (ec, s') → m_server s' = m_server s.
Proof.
  unfold field_done, start_payload, finalize_message. intros E. res_inv E; repeat match goal with B : _ = Ok _ |- _ => progress res_inv B end; done.
Qed.
Lemma run_server rest s r ec s' : run rest s r ec s' → m_server s' = m_server s.
Proof.
  assert (Hturn : ∀ rest s r ec s', turn rest s = Ok (r, ec, s') → m_server s' = m_server s).
  { clear. intros rest s r ec s' E. unfold turn in E. destruct (put _ s) as [ok s1] eqn:Ep. apply put_server in Ep. rewrite <- Ep. res_inv E; try done.
    by eapply field_done_server. }
  induction 1 as [|rest s rest1 s1 rest' ec s' Hn Ht Hr IH|rest s rest' ec s' Hn Ht]; [done|..]; apply Hturn in Ht; congruence.
Qed.
Lemma get_message_server s m s' : WsProcessor.m_state s = READY → get_message s = Ok (m, s') → m_server s' = m_server s.
Proof.
  intros Hr E. unfold get_message, ready in E. rewrite bool_decide_eq_true_2 in E by done. cbn [negb] in E. res_inv E. by repeat case_match.
Qed.
Lemma reads_server rest s ms ec s' : WsStream.reads rest s ms ec s' → m_server s' = m_server s.
Proof.
  induction 1 as [rest s s' Hrun _|rest s r e s' Hrun|rest s rest' s1 m s2 ms ec s' Hrun Hrd Hg _ IH]; [by apply run_server in Hrun..|].
  rewrite IH, (get_message_server _ _ _ Hrd Hg). by apply run_server in Hrun.
Qed.

(** After the loop: a read is issued only if the processor waits for one. *)
Definition looped (c c' : conn) : Prop := ∃ v s, has_proc v s c' ∧ state_of c' ≠ connecting ∧
  (reads (transport_of c') = reads (transport_of c) ∨ reads (transport_of c') = reads (transport_of c) ++ [read_frame_handler] ∧ waiting s).
Lemma keeps_looped v s c c' : has_proc v s c → state_of c ≠ connecting → keeps c c' → looped c c'.
Proof. intros Hp Hs Hk. destruct (k_proc _ _ Hk v s Hp) as (s' & Hp' & _). exists v, s'. split_and!; [done|by apply Hk|left; by apply Hk]. Qed.
Lemma handle_consume_error_total v s e c : has_proc v s c → state_of c ≠ connecting → ∃ c', handle_consume_error config rng app e c = Returns c' ∧ looped c c'.
Proof.
  intros Hp Hs. assert (Hterm : ∀ ec d, keeps c d → ∃ c', terminate config rng app ec d = Returns c' ∧ looped c c').
  { intros ec d Hk. destruct (k_proc _ _ Hk v s Hp) as (s' & Hp' & _). destruct (terminate_total v s' ec d Hp' ltac:(by apply Hk)) as (c' & -> & Hk').
    exists c'. split; [done|]. eapply keeps_looped; [done..|]. by etrans. }
  unfold handle_consume_error. destruct (drop_on_protocol_error config); [by apply Hterm|].
  destruct (close_total v s (to_ws e) (ec_message e) c Hp) as (ec & c1 & -> & Hk & _). cbn [mbind outcome_bind]. destruct ec; [by apply Hterm|].
  exists c1. split; [done|by eapply keeps_looped].
Qed.
Definition quiet_message (m : message) : Prop := (m_opcode m < 8 ∨ m_opcode m = 9 ∨ m_opcode m = 10) ∧ may_close (call_of m) = false.
(** What the messages [ms] of a read lead to. *)
Definition delivered (ms : list message) (v : Z) (s' : hybi13) (c c' : conn) : Prop :=
  state_of c' = open ∧ trace c' = trace c ++ (call_of <$> ms) ∧ has_proc v s' c' ∧ m_read_flag c' = m_read_flag c ∧
  reads (transport_of c') = reads (transport_of c) ++ (if m_read_flag c then [read_frame_handler] else []).

(** One message, or none: the connection is ready for the next turn. *)
Lemma turn_message v s c : has_proc v s c → proc_ok s → state_of c ≠ connecting → WsProcessor.m_state s = READY →
  ∃ m s2 s3 c2, get_message s = Ok (Some m, s2) ∧ dispatch_message config rng app (Some m) (put_processor (Some (v13 v s2)) c) = Returns c2 ∧
  at_frame s2 ∧ has_proc v s3 c2 ∧ redrawn s2 s3 ∧ m_server s2 = m_server s ∧ state_of c2 ≠ connecting ∧
  m_buf c2 = m_buf c ∧ reads (transport_of c2) = reads (transport_of c) ∧ m_read_flag c2 = m_read_flag c ∧
  (state_of c = open → quiet_message m → state_of c2 = open ∧ trace c2 = trace c ++ [call_of m]).
Proof.
  intros Hp Hok Hs Hr. destruct (ready_message s Hok Hr) as (m & s2 & Hg & Hat & Hb).
  pose proof (get_message_server s _ s2 Hr Hg) as Hsrv.
  set (c1 := put_processor (Some (v13 v s2)) c). assert (Hp1 : has_proc v s2 c1) by (destruct Hp as (_ & ? & ?); by split_and!).
  destruct (dispatch_total v s2 m c1 Hp1 Hs Hb) as (c2 & Hd & Hk & Hq). destruct (k_proc _ _ Hk v s2 Hp1) as (s3 & Hp3 & Hr3).
  exists m, s2, s3, c2. split_and!; try done; [exact (k_state _ _ Hk Hs)|exact (k_buf _ _ Hk)|exact (k_reads _ _ Hk)|exact (k_flag _ _ Hk)|]. intros Ho [Ho1 Ho2]. by apply Hq.
Qed.
Lemma frame_loop_total fuel n p v s c : at_turn n p v s c → (n - p < fuel)%nat →
  ∃ c', frame_loop config rng app fuel n p c = Returns c' ∧ looped c c' ∧
  (∀ ms s', WsStream.reads (window n p c) s ms None s' → m_server s = true → state_of c = open → Forall quiet_message ms → delivered ms v s' c c').
Proof.
  revert p s c. induction fuel as [|fuel IH]; intros p s c [Hp Hw Hs Hr Hb] Hf; [lia|]. cbn [frame_loop]. destruct (p <? n)%nat eqn:Hpn.
  - apply Nat.ltb_lt in Hpn. assert (Hlw : length (window n p c) = (n - p)%nat) by (unfold window; rewrite length_take, length_drop; lia).
    with_proc Hp. fold (window n p c). cbn [processor_consume].
    destruct (consume_run deflate_off (window n p c) s (proj1 Hw) Hb) as (k & bytes & ec & s1 & -> & Hk & Hlen & Hrun & Hok1). cbn [mbind res_bind mret res_ret lift outcome_bind].
    set (c1 := put_buf _ _). assert (Hp1 : has_proc v s1 c1) by (destruct Hp as (_ & ? & ?); by split_and!).
    destruct (window_next n p k bytes c ltac:(lia) ltac:(lia) Hlen ltac:(lia)) as [Hbl Hnext].
    change (length (m_buf c1) = length (m_buf c)) in Hbl.
    destruct ec as [e|].
    + destruct (handle_consume_error_total v s1 e c1 Hp1 Hs) as (c' & -> & Hl). exists c'. split_and!; [done|exact Hl|].
      intros ms s' Hreads. inversion Hreads as [? ? ? Hr2| |? ? ? ? ? ? ? ? ? Hr2]; subst; by destruct (run_det _ _ _ _ _ _ _ _ Hrun Hr2) as (_ & ? & _).
    + destruct (Hok1 eq_refl) as [Hok Hdrop]. assert (Hne : window n p c ≠ []) by (intros E; rewrite E in Hlw; cbn in Hlw; lia).
      pose proof (run_progress deflate_off _ _ _ _ Hrun Hw Hb Hne) as Hless. rewrite length_drop in Hless. rewrite Hdrop in Hnext.
      assert (Hb2 : bytes_ok (drop k (window n p c))) by by apply Forall_drop.
      cbn [processor_ready]. unfold ready. case_bool_decide as Hrd.
      * destruct (turn_message v s1 c1 Hp1 Hok Hs Hrd) as (m & s2 & s3 & c2 & Hg & Hd & Hat & Hp3 & Hr3 & Hsrv & Hs2 & Hbuf & Hreads2 & Hflag & Hq).
        cbn [processor_get_message]. rewrite Hg. cbn [mbind res_bind mret res_ret lift outcome_bind]. rewrite Hd. cbn [mbind outcome_bind].
        assert (Hwin : window n (p + k) c2 = drop k (window n p c)) by (unfold window at 1; rewrite Hbuf; exact Hnext).
        destruct (IH (p + k)%nat s3 c2) as (c' & -> & Hl & Hdel); [split; try done|lia|].
        { eapply waiting_redrawn; [done|]. by apply at_frame_waiting. } { rewrite Hbuf. lia. } { by rewrite Hwin. }
        exists c'. split_and!; [done|unfold looped in *; by rewrite Hreads2 in Hl|]. intros ms s' Hreads Hsv Ho Hms.
        inversion Hreads as [? ? ? Hr2 Hn2|?|? ? rest' sx m' sy ms' ? ? Hr2 Hn2 Hg2 Hreads']; subst; destruct (run_det _ _ _ _ _ _ _ _ Hrun Hr2) as (? & _ & ?); subst; [done|].
        rewrite Hg in Hg2. injection Hg2 as <- <-. apply Forall_cons in Hms as [Hm Hms]. destruct (Hq Ho Hm) as [Ho2 Ht2].
        assert (Hsv1 : m_server sx = true) by (by rewrite (run_server _ _ _ _ _ Hrun)). assert (s3 = s2) as -> by (destruct Hr3 as [?|[? _]]; [done|congruence]).
        rewrite Hwin in Hdel. destruct (Hdel ms' s' Hreads' ltac:(by rewrite Hsrv) Ho2 Hms) as (D1 & D2 & D3 & D4 & D5).
        split_and!; [done|by rewrite D2, Ht2, <- app_assoc|done|by rewrite D4, Hflag|by rewrite D5, Hreads2, Hflag].
      * cbn [mbind outcome_bind mret outcome_ret]. destruct (run_end _ _ _ _ Hrun Hrd) as [Hend Hn1].
        assert (Hwin : window n (p + k) c1 = drop k (window n p c)) by exact Hnext.
        destruct (IH (p + k)%nat s1 c1) as (c' & -> & Hl & Hdel); [split; try done; [rewrite Hbl; lia|by rewrite Hwin]|lia|].
        exists c'. split_and!; [done|exact Hl|]. intros ms s' Hreads Hsv Ho Hms. rewrite Hwin, Hend in Hdel.
        inversion Hreads as [? ? ? Hr2 Hn2|?|? ? rest' sx m' sy ms' ? ? Hr2 Hn2 Hg2 Hreads']; subst; destruct (run_det _ _ _ _ _ _ _ _ Hrun Hr2) as (? & _ & ?); subst; [|done].
        apply (Hdel [] s'); [|by rewrite (run_server _ _ _ _ _ Hrun)|done|done]. apply reads_wait; [|done]. apply run_stop. by right.
  - apply Nat.ltb_ge in Hpn. assert (Hwin : window n p c = []) by (unfold window; by replace (n - p)%nat with 0%nat by lia).
    exists (read_frame c). split_and!; [done| |].
    + exists v, s. unfold read_frame. destruct (m_read_flag c); (split_and!; [done|done|]); [by right|by left].
    + rewrite Hwin. intros ms s' Hreads Hsv Ho _. assert (Hrun : run [] s [] None s) by (apply run_stop; right; by destruct Hw as (_ & _ & ?)).
      inversion Hreads as [? ? ? Hr2 Hn2|?|? ? rest' sx m' sy ms' ? ? Hr2 Hn2 Hg2 Hreads']; subst; destruct (run_det _ _ _ _ _ _ _ _ Hrun Hr2) as (? & _ & ?); subst.
      * unfold delivered, read_frame. destruct (m_read_flag c) eqn:Ef; split_and!; try done; cbn; by rewrite ?app_nil_r.
      * by destruct Hw as (_ & ? & _).
Qed.

(** ** Established connections *)
Definition reads_ok (s : hybi13) (c : conn) : Prop := reads (transport_of c) = [] ∨ reads (transport_of c) = [read_frame_handler] ∧ waiting s.
(** At most one read, and then of a processor that waits for bytes. *)
Definition defined (c : conn) : Prop := ∃ v s, has_proc v s c ∧ reads_ok s c ∧ state_of c ≠ connecting.
Definition established (c : conn) : Prop := defined c ∧ queue_ok (view_of c).

Lemma keeps_defined c c' : defined c → keeps c c' → defined c'.
Proof.
  intros (v & s & Hp & Hr & Hs) Hk. destruct (k_proc _ _ Hk v s Hp) as (s' & Hp' & Hr'). exists v, s'. split_and!; [done| |by apply (k_state _ _ Hk)].
  unfold reads_ok. rewrite (k_reads _ _ Hk). destruct Hr as [?|[? ?]]; [by left|right]. split; [done|by eapply waiting_redrawn].
Qed.
Lemma looped_defined c c' : reads (transport_of c) = [] → looped c c' → defined c'.
Proof. intros Hn (v & s & Hp & Hs & Hr). exists v, s. split_and!; [done| |done]. unfold reads_ok. rewrite Hn in Hr. exact Hr. Qed.
Lemma terminate_defined ec c : defined c → ∃ c', terminate config rng app ec c = Returns c' ∧ defined c'.
Proof.
  intros Hd. pose proof Hd as (v & s & Hp & Hr & Hs). destruct (terminate_total v s ec c Hp Hs) as (c' & -> & Hk). exists c'. split; [done|by eapply keeps_defined].
Qed.
Lemma tell_defined cb c : defined c → ∃ c', tell config rng app cb c = Returns c' ∧ defined c'.
Proof.
  intros Hd. pose proof Hd as (v & s & Hp & Hr & Hs). destruct (tell_total v s cb c Hp) as (c' & -> & Hk & _). exists c'. split; [done|by eapply keeps_defined].
Qed.
Lemma write_frame_keeps c : keeps c (write_frame c).
Proof. unfold write_frame. destruct (m_write_flag _); [done|]. cbv zeta. destruct (bool_decide _); by apply same_conn_keeps. Qed.
Lemma run_first_task_defined t ts c : defined c → tasks (transport_of c) = t :: ts → ∃ c', run_first_task config rng app t (in_transport (put_tasks ts) c) = Returns c' ∧ defined c'.
Proof.
  intros Hd Ht. set (c1 := in_transport _ c). assert (Hk : keeps c c1) by (apply same_conn_keeps; try done; rewrite Ht; cbn; set_solver).
  pose proof (keeps_defined _ _ Hd Hk) as Hd1. destruct t; cbn [run_first_task].
  - exists (write_frame c1). split; [done|]. eapply keeps_defined; [done|apply write_frame_keeps].
  - by exists (handle_pause_reading c1).
  - destruct Hd as (v & s & (_ & _ & Hn) & _). rewrite Ht in Hn. set_solver.
  - by apply tell_defined.
Qed.
Lemma checked_defined ec st go c : defined c → ∃ c', checked config rng app ec st go c = Returns c' ∧ defined c'.
Proof.
  intros Hd. pose proof Hd as (v & s & Hp & Hr & Hs). unfold checked.
  destruct (check_connecting ec st c) as [| |e] eqn:E; [|by exists c|by apply terminate_defined].
  exfalso. revert E. unfold check_connecting. cbv zeta. destruct ec; [by destruct (_ && _)|]. destruct (state_of c); [done|unfold library; by destruct (_ && _)..|done].
Qed.
Lemma handle_write_frame_defined ec c m : defined c → last (m_current_msgs (outgoing_of c)) = Some m → ∃ c', handle_write_frame config rng app ec c = Returns c' ∧ defined c'.
Proof.
  intros Hd Hl. unfold handle_write_frame. rewrite Hl. cbv zeta. set (c1 := in_outgoing _ c).
  assert (Hd1 : defined c1) by (eapply keeps_defined; [exact Hd|by apply same_conn_keeps]). destruct ec; [by apply terminate_defined|].
  destruct (m_terminal m); [by apply terminate_defined|]. eexists. split; [done|]. eapply keeps_defined; [exact Hd1|].
  destruct (negb _); apply same_conn_keeps; try done. cbn. set_solver.
Qed.
Lemma handle_read_frame_defined ec n v s c : has_proc v s c → waiting s → state_of c ≠ connecting → reads (transport_of c) = [] → (n ≤ length (m_buf c))%nat → bytes_ok (window n 0 c) →
  ∃ c', handle_read_frame config rng app ec n c = Returns c' ∧ defined c'.
Proof.
  intros Hp Hw Hs Hr Hn Hb. assert (Hd : defined c) by (exists v, s; split_and!; [done|by left|done]).
  unfold handle_read_frame, in_state. rewrite (proj1 (proj2 Hp)), bool_decide_eq_true_2 by done. cbv zeta. destruct ec as [e|].
  - repeat match goal with |- context[if ?b then _ else _] => destruct b end; first [by exists c|by apply terminate_defined].
  - destruct (frame_loop_total (S n) n 0 v s c) as (c' & E & Hl & _); [split; try done; lia|lia|]. exists c'. split; [exact E|by eapply looped_defined].
Qed.
Lemma frames_in_flight c h bytes ws : queue_ok (view_of c) → writes (transport_of c) = (h, bytes) :: ws → h = write_frame_handler → is_Some (last (m_current_msgs (outgoing_of c))).
Proof.
  intros [Hp _ _] Hw ->. assert (Hf : v_frames (view_of c) ≠ []) by (cbn; by rewrite Hw).
  destruct Hp as [old Hf' Hc Hb Hfr Ha Hr He|old ms x Hf' Hc Hfr Ha Hr He|Hf' Hc Hfr Hpre]; [done| |done].
  change (outgoing_of c) with (v_out (view_of c)). rewrite Hc, last_snoc. by eexists.
Qed.
Lemma step_defined e c r : established c → event_ok e → step config rng w0 buf0 key_final0 deflate0 app e c = Some r → ∃ c', r = Returns c' ∧ defined c'.
Proof.
  intros [Hd Hq] He E. pose proof Hd as (v & s & Hp & Hr & Hs). destruct e as [ec|a| |ec bytes|ec k|id|id ec]; cbn [step event_ok] in *.
  - injection E as <-. unfold start, in_state. rewrite (proj1 (proj2 Hp)). cbn. by apply terminate_defined.
  - injection E as <-. destruct (do_call_total v s a c Hp He) as (r & c' & -> & Hk & _). exists c'. split; [done|by eapply keeps_defined].
  - destruct (tasks _) as [|t ts] eqn:Ht; [done|]. injection E as <-. by apply run_first_task_defined.
  - destruct (reads _) as [|h hs] eqn:Ereads; [done|]. destruct (_ && _); [|done]. injection E as <-.
    destruct Hr as [Hr|[Hr Hw]]; rewrite Ereads in Hr; [done|]. injection Hr as -> ->. cbn [run_read_handler]. set (c1 := put_buf _ _).
    assert (Hb1 : m_buf c1 = bytes ++ drop (length bytes) (m_buf c)) by done.
    apply (handle_read_frame_defined ec _ v s c1); try done; [rewrite Hb1, length_app; lia|].
    unfold window. rewrite Hb1, drop_0, Nat.sub_0_r, take_app_length. exact He.
  - destruct (writes _) as [|[h bytes] ws] eqn:Hw; [done|]. injection E as <-. set (c1 := in_transport _ c).
    assert (Hd1 : defined c1) by (eapply keeps_defined; [exact Hd|by apply same_conn_keeps]).
    destruct h; cbn [run_write_handler]; unfold handle_write_http_response, handle_send_http_request; [by apply checked_defined..|].
    destruct (frames_in_flight c _ _ _ Hq Hw eq_refl) as [m Hm]. by eapply handle_write_frame_defined.
  - destruct (find_timer id c); [|done]. injection E as <-. eexists. split; [done|]. eapply keeps_defined; [exact Hd|by apply same_conn_keeps].
  - destruct (find_timer id c) as [t|]; [|done]. destruct (timer_result_ok t ec); [|done]. injection E as <-. set (c1 := in_transport _ c).
    assert (Hd1 : defined c1) by (eapply keeps_defined; [exact Hd|by apply same_conn_keeps]).
    unfold handle_timer. destruct ec; [by exists c1|]. destruct (timer_calls t); [by apply terminate_defined..|by apply tell_defined].
Qed.
Lemma step_established e c r : established c → event_ok e → step config rng w0 buf0 key_final0 deflate0 app e c = Some r → ∃ c', r = Returns c' ∧ established c'.
Proof.
  intros Hc He E. destruct (step_defined e c r Hc He E) as (c' & -> & Hd). exists c'. split; [done|]. split; [exact Hd|]. destruct Hc as [(v & s & Hp & Hr & Hs) Hq].
  eapply acts_queue_ok; [|exact Hq]. eapply step_refines; [|exact E]. destruct Hp as (_ & Hi & _). split; [done|]. cbn. by rewrite Hi.
Qed.

(** C7: An established connection of protocol version 7, 8 or 13 without compression, the versions
    in which frames are exchanged by hybi13, has no undefined behaviour, whatever bytes the peer
    sends, however reads, writes and timers end and in whatever order, and whatever well-typed calls
    the handlers and the user make (payloads of bytes that fit a string; no [resume_reading]): every
    step returns, without an exception, and leaves an established connection, with at most one read
    and an exact queue. The limit on messages is at most the largest length of a string. Draft 00,
    which a client can ask for, is not included: its reader can loop for ever after an error. *)
Theorem established_safe es c r : established c → Forall event_ok es →
  run_events config rng w0 buf0 key_final0 deflate0 app es c = Some r → ∃ c', r = Returns c' ∧ established c'.
Proof.
  intros Hc He. revert c Hc. induction He as [|e es He _ IH]; intros c Hc E; cbn [run_events] in E; [injection E as <-; by exists c|].
  destruct (step _ _ _ _ _ _ _ e c) as [r1|] eqn:Es; [|done]. destruct (step_established e c r1 Hc He Es) as (c1 & -> & Hc1). by apply (IH c1).
Qed.

(** ** Delivery *)
(** No close frame, and no handler of a message that closes the connection. *)
Definition no_close (f : frame) : Prop := match f with ControlFrame op _ _ => op ≠ 8 | DataFrame _ _ _ _ => True end.
Definition stays_open : Prop := ∀ p m, may_close (on_ping p) = false ∧ may_close (on_pong p) = false ∧ may_close (on_message m) = false.
(** An open server connection between two reads. *)
Record listening (v : Z) (s : hybi13) (c : conn) : Prop := {
  l_proc : has_proc v s c;
  l_waiting : waiting s;
  l_server : m_server s = true;
  l_open : state_of c = open;
  l_flag : m_read_flag c = true;
  l_reads : reads (transport_of c) = [read_frame_handler];
}.
Lemma messages_open max acc fs : frames_ok max acc fs → Forall no_close fs → match acc with Some (op, _) => op = 1 ∨ op = 2 | None => True end →
  Forall (λ x : Z * list Z, x.1 < 8 ∨ x.1 = 9 ∨ x.1 = 10) (messages_of acc fs).
Proof.
  intros Hf Hn. revert acc Hf. induction Hn as [|f fs Hn _ IH]; intros acc Hf Ha; [constructor|]. destruct f as [op fin key p|op key p]; cbn [messages_of frames_ok] in *.
  - destruct acc as [[op0 a]|].
    + destruct Hf as (_ & _ & _ & _ & _ & Hf). destruct fin; [constructor; [cbn; lia|by apply IH]|by apply IH].
    + destruct Hf as (_ & _ & Hop & _ & _ & Hf). destruct fin; [constructor; [cbn; lia|by apply IH]|by apply IH].
  - destruct Hf as (Hop & _ & _ & _ & Hf). cbn in Hn. constructor; [cbn; lia|by apply IH].
Qed.
Lemma quiet_messages ms : stays_open → Forall (λ x : Z * list Z, x.1 < 8 ∨ x.1 = 9 ∨ x.1 = 10) (summary <$> ms) → Forall quiet_message ms.
Proof.
  intros Hs Hm. rewrite Forall_fmap in Hm. eapply Forall_impl; [exact Hm|]. intros m Hop. split; [exact Hop|]. unfold call_of.
  destruct (Hs (m_payload m) m) as (? & ? & ?). by repeat case_match.
Qed.
(** One read of an open connection. *)
Lemma read_delivered bytes v s ms s' c : listening v s c → bytes_ok bytes → bytes ≠ [] → (length bytes ≤ connection_read_buffer_size config)%nat →
  WsStream.reads bytes s ms None s' → waiting s' → Forall quiet_message ms →
  ∃ c', step config rng w0 buf0 key_final0 deflate0 app (read_done None bytes) c = Some (Returns c') ∧ listening v s' c' ∧ trace c' = trace c ++ (call_of <$> ms).
Proof.
  intros [Hp Hw Hsv Ho Hfl Hr] Hb Hne Hlen Hreads Hw' Hms. cbn [step]. rewrite Hr. rewrite bool_decide_eq_true_2 by done. rewrite (bool_decide_eq_true_2 (bytes ≠ [])) by done.
  rewrite orb_true_r. cbn [andb run_read_handler]. set (c1 := put_buf _ _).
  assert (Hb1 : m_buf c1 = bytes ++ drop (length bytes) (m_buf c)) by done.
  assert (Hwin : window (length bytes) 0 c1 = bytes) by (unfold window; by rewrite Hb1, drop_0, Nat.sub_0_r, take_app_length).
  assert (Hp1 : has_proc v s c1) by done. unfold handle_read_frame, in_state. rewrite (proj1 (proj2 Hp1)), bool_decide_eq_true_2 by done. cbn [negb].
  destruct (frame_loop_total (S (length bytes)) (length bytes) 0 v s c1) as (c' & -> & _ & Hdel).
  { split; [done|done|change (state_of c ≠ connecting); by rewrite Ho|rewrite Hb1, length_app; lia|by rewrite Hwin]. } { lia. }
  rewrite Hwin in Hdel. destruct (Hdel ms s' Hreads Hsv Ho Hms) as (D1 & D2 & D3 & D4 & D5). exists c'. split; [done|]. split; [|exact D2].
  change (m_read_flag c1) with (m_read_flag c) in *. rewrite Hfl in D5. split; try done; [|congruence].
  by rewrite (reads_server _ _ _ _ _ Hreads).
Qed.
Lemma read_all_delivered chunks v s ms s' c : listening v s c →
  Forall (λ b, bytes_ok b ∧ b ≠ [] ∧ (length b ≤ connection_read_buffer_size config)%nat) chunks → read_all chunks s = Ok (ms, None, s') → Forall quiet_message ms →
  ∃ c', run_events config rng w0 buf0 key_final0 deflate0 app (read_done None <$> chunks) c = Some (Returns c') ∧ listening v s' c' ∧ trace c' = trace c ++ (call_of <$> ms).
Proof.
  intros Hl Hc. revert s ms c Hl. induction Hc as [|b cs (Hb & Hne & Hlen) _ IH]; intros s ms c Hl E Hms; cbn [read_all] in E.
  { injection E as <- <-. exists c. split_and!; [done|done|]. by rewrite app_nil_r. }
  unfold read_bytes in E. destruct (read_loop_reads deflate_off (S (length b)) b s (l_waiting _ _ _ Hl) Hb ltac:(lia)) as (ms1 & ec & s1 & E1 & Hreads & Hw1).
  rewrite E1 in E. cbn [mbind res_bind] in E. destruct ec; [done|]. res_inv E.
  apply Forall_app in Hms as [Hms1 Hms2].
  destruct (read_delivered b v s ms1 s1 c Hl Hb Hne Hlen Hreads (Hw1 eq_refl) Hms1) as (c1 & Es & Hl1 & Ht1).
  destruct (IH s1 _ c1 Hl1 B Hms2) as (c2 & Er & Hl2 & Ht2). exists c2. cbn [fmap list_fmap run_events]. rewrite Es. split_and!; [done|done|].
  by rewrite Ht2, Ht1, fmap_app, <- app_assoc.
Qed.

(** C5: What a client writes by the rules reaches the handlers of an open server connection of
    protocol version 7, 8 or 13 without compression, at a frame boundary, whose handlers make no
    call that closes the connection and never resume reading: for any sequence of frames without a
    close frame, of messages of text (UTF-8) or binary data within the limit on messages in any
    number of fragments with pings and pongs between them, and any cut of their bytes into
    successful reads that are not empty and fit the buffer, when only these reads complete and no
    timer or write comes between them, the handlers are called for exactly the messages of the
    sequence, each once and in order, and the connection is open and reads on. The handlers may send
    and may make any other call. *)
Theorem messages_delivered v t c fs chunks : stays_open → listening v t c → at_frame t → msg_ptr (m_data_msg t) = None →
  frames_ok (WsProcessor.m_max_message_size t) None fs → Forall no_close fs →
  Forall (λ b, bytes_ok b ∧ b ≠ [] ∧ (length b ≤ connection_read_buffer_size config)%nat) chunks → concat chunks = concat (frame_wire true <$> fs) →
  ∃ c' t' ms, run_events config rng w0 buf0 key_final0 deflate0 app (read_done None <$> chunks) c = Some (Returns c') ∧
    summary <$> ms = messages_of None fs ∧ trace c' = trace c ++ (call_of <$> ms) ∧ listening v t' c' ∧ at_frame t'.
Proof.
  intros Hst Hl Hat Hd Hok Hnc Hc E. rewrite <- (l_server _ _ _ Hl) in E.
  destruct (reads_frames deflate_off fs None t (conj Hat Hd) Hok) as (ms & t1 & Hr & Hsum & Hat1).
  destruct (read_all_reads deflate_off chunks t (at_frame_waiting t Hat)) as (ms2 & ec & t' & t2 & Hra & Hr2 & Hw); [eapply Forall_impl; [exact Hc|]; by intros b [? _]|].
  rewrite E in Hr2. destruct (reads_det _ _ _ _ _ _ _ _ Hr Hr2) as (<- & <- & <-). destruct (Hw eq_refl) as [<- _].
  destruct (read_all_delivered chunks v t ms t1 c Hl Hc Hra) as (c' & Er & Hl' & Ht).
  { apply quiet_messages; [done|]. rewrite Hsum. by eapply messages_open. }
  by exists c', t1, ms.
Qed.
End Delivery.

(** ** The server of [WsSession] after its handshake *)
Definition opened_events : list event := [start_connection None; read_done None sample_request; write_done None 0].
Definition opened_processor : @hybi13 disabled := @new_hybi13 disabled true 1000 ().
Lemma opened_facts : option_map (λ c, (m_processor c, m_internal_state (session_of c), tasks (transport_of c), reads (transport_of c), state_of c, m_read_flag c)) (sample_run opened_events) =
  Some (Some (v13 13 opened_processor), PROCESS_CONNECTION, [], [read_frame_handler], open, true).
Proof. vm_compute. reflexivity. Qed.
Lemma opened_at_frame : @at_frame x86_64 disabled opened_processor.
Proof. split; [apply new_hybi13_ok; split; [lia|by vm_compute]|done]. Qed.
Lemma opened_waiting : @waiting x86_64 disabled opened_processor.
Proof. exact (at_frame_waiting _ opened_at_frame). Qed.
Lemma opened_listening : ∃ c, sample_run opened_events = Some c ∧ @listening x86_64 disabled 13 opened_processor c.
Proof.
  destruct (sample_run opened_events) as [c|] eqn:E; [|by vm_compute in E]. exists c. split; [done|]. pose proof opened_facts as F. rewrite E in F.
  injection F as Hp Hi Ht Hr Hs Hf. split; [|exact opened_waiting|reflexivity|exact Hs|exact Hf|exact Hr]. split_and!; [exact Hp|exact Hi|rewrite Ht; apply not_elem_of_nil].
Qed.
Lemma greeting_ok cb h c : greeting_app cb = Some h → @program_ok x86_64 disabled false (h c).
Proof.
  destruct cb; intros [= <-]. apply calls_ok; [|done|constructor]. split; [unfold bytes_ok, byte_ok; repeat constructor; lia|by vm_compute].
Qed.
Definition opened_run (es : list event) (c : @conn disabled) : option (outcome conn) :=
  @run_events x86_64 disabled no_extension sample_config (λ _, 0) (replicate 80 0) (replicate 64 0) (replicate 16 0) () greeting_app es c.
(** A call of the user, a close frame that is not masked, and a write that is done. *)
Definition broken_events : list event := [user_call (Ping [1]); read_done None [136; 0; 255]; run_task; write_done None 0].
Lemma broken_events_run : match sample_run opened_events with Some c => match opened_run broken_events c with Some _ => true | None => false end | None => false end = true.
Proof. vm_compute. reflexivity. Qed.
Lemma opened_established c : sample_run opened_events = Some c → @listening x86_64 disabled 13 opened_processor c → @established x86_64 disabled c.
Proof.
  intros E Hl. split.
  - exists 13, opened_processor. split_and!; [exact (l_proc _ _ _ Hl)|right; split; [exact (l_reads _ _ _ Hl)|exact opened_waiting]|rewrite (l_open _ _ _ Hl); discriminate].
  - eapply acts_queue_ok; [eapply reachable_acts, sample_run_reachable, E|apply new_queue_ok].
Qed.
Lemma established_safe_witness : ∃ c c', sample_run opened_events = Some c ∧ @established x86_64 disabled c' ∧ opened_run broken_events c = Some (Returns c').
Proof.
  destruct opened_listening as (c & E & Hl). exists c. pose proof broken_events_run as Hr. rewrite E in Hr. destruct (opened_run broken_events c) as [r|] eqn:Er; [|discriminate Hr].
  destruct (@established_safe x86_64 disabled no_extension (λ _, eq_refl) sample_config (λ _, 0) (replicate 80 0) (replicate 64 0) (replicate 16 0) () greeting_app (λ _, false) greeting_ok
    broken_events c r (opened_established c E Hl)) as (c' & Hr' & Hc'); [repeat constructor; unfold bytes_ok, byte_ok; repeat constructor; lia|exact Er|].
  exists c'. rewrite Hr'. exact (conj E (conj Hc' eq_refl)).
Defined.
(** A text in two fragments with a ping between them, in two reads. *)
Definition sample_frames : list frame := [DataFrame 1 false 0 [104]; ControlFrame 9 0 [33]; DataFrame 0 true 0 [105]].
Definition sample_chunks : list (list Z) := [[1; 129; 0; 0; 0; 0; 104; 137; 129; 0]; [0; 0; 0; 33; 128; 129; 0; 0; 0; 0; 105]].
Lemma sample_frames_ok : frames_ok 1000 None sample_frames.
Proof.
  unfold sample_frames. cbn [frames_ok]. unfold bytes_ok, byte_ok.
    repeat match goal with |- _ ∧ _ => split | |- Forall _ _ => repeat constructor; lia | |- false = true → _ => intros [=] | |- _ → _ => intros _ | |- ∃ _, _ => eexists; vm_compute; reflexivity end;
      first [done|by vm_compute|lia|by left].
Qed.
Lemma messages_delivered_witness : ∃ c c' ms, sample_run opened_events = Some c ∧ opened_run (read_done None <$> sample_chunks) c = Some (Returns c') ∧
  summary <$> ms = [(9, [33]); (1, [104; 105])] ∧ trace c' = trace c ++ (call_of <$> ms).
Proof.
  destruct opened_listening as (c & E & Hl).
  destruct (@messages_delivered x86_64 disabled no_extension (λ _, eq_refl) sample_config (λ _, 0) (replicate 80 0) (replicate 64 0) (replicate 16 0) () greeting_app (λ _, false) greeting_ok
    13 opened_processor c sample_frames sample_chunks) as (c' & t' & ms & Hr & Hs & Ht & _).
  - intros p m; by split_and!.
  - exact Hl.
  - exact opened_at_frame.
  - reflexivity.
  - exact sample_frames_ok.
  - repeat constructor. discriminate.
  - unfold bytes_ok, byte_ok. repeat constructor; first [lia|discriminate|cbn; lia].
  - vm_compute. reflexivity.
  - exists c, c', ms. exact (conj E (conj Hr (conj Hs Ht))).
Defined.
