(* ===== verification/WsDeflate.v ===== *)
(** * The permessage-deflate extension
    (src/websocketpp-master/websocketpp/extensions/permessage_deflate/enabled.hpp)

    The class [enabled]: its settings, the negotiation of both ends, and the loops around
    zlib.  zlib is an interface; what is used of its documentation is the class [ZlibLaws].
    The theorems: after a negotiation both ends use the same windows, and what one end
    compresses the other one inflates, however it is cut into reads. *)

From S2P Require Import Prelude Bytes StdString SortedKeys WsFrame Utf8 WsProcessor WsReceive WsStream HttpText HttpParser Uri WsHandshake.

Open Scope Z_scope.

(** ** zlib *)
Definition Z_SYNC_FLUSH : Z := 2.
Definition Z_FULL_FLUSH : Z := 3.
Definition Z_NEED_DICT : Z := 2.
Definition Z_DATA_ERROR : Z := -3.
Definition Z_MEM_ERROR : Z := -4.
(** A call of [deflate] or [inflate] is given the input that is left and the room for
    output; it gives the stream, the input it did not take and the output. *)
Class Zlib := {
  dstream : Type;
  istream : Type;
  deflateInit2 : Z → option dstream;   (** by the window bits; [None]: not [Z_OK] *)
  inflateInit2 : Z → option istream;
  deflate : Z → dstream → list Z → Z → dstream * list Z * list Z;
  inflate : istream → list Z → Z → Z * istream * list Z * list Z;
}.

Module mode.
Definition accept : Z := 1.
Definition decline : Z := 2.
Definition largest : Z := 3.
Definition smallest : Z := 4.
End mode.
Definition default_server_max_window_bits : Z := 15.
Definition min_server_max_window_bits : Z := 8.
Definition max_server_max_window_bits : Z := 15.
Definition default_client_max_window_bits : Z := 15.
Definition min_client_max_window_bits : Z := 8.
Definition max_client_max_window_bits : Z := 15.
Definition uint8 (x : Z) : Z := x mod 256.

Module Enabled.
Section Enabled.
Context `{Zlib}.

(** ** State *)
Record enabled := mkEnabled {
  m_enabled : bool;
  m_server_no_context_takeover : bool;
  m_client_no_context_takeover : bool;
  m_server_max_window_bits : Z;
  m_client_max_window_bits : Z;
  m_server_max_window_bits_mode : Z;
  m_client_max_window_bits_mode : Z;
  m_initialized : bool;
  m_flush : Z;
  m_compress_buffer_size : Z;
  m_dstate : option dstream;
  m_istate : option istream;
}.
(** [m_flush] and the streams are set by [init]. *)
Definition new_enabled : enabled := mkEnabled false false false 15 15 mode.accept mode.accept false 0 8192 None None.
Definition put_enabled (b : bool) (d : enabled) : enabled :=
  mkEnabled b (m_server_no_context_takeover d) (m_client_no_context_takeover d) (m_server_max_window_bits d) (m_client_max_window_bits d)
    (m_server_max_window_bits_mode d) (m_client_max_window_bits_mode d) (m_initialized d) (m_flush d) (m_compress_buffer_size d) (m_dstate d) (m_istate d).
Definition put_takeover (server client : bool) (d : enabled) : enabled :=
  mkEnabled (m_enabled d) server client (m_server_max_window_bits d) (m_client_max_window_bits d)
    (m_server_max_window_bits_mode d) (m_client_max_window_bits_mode d) (m_initialized d) (m_flush d) (m_compress_buffer_size d) (m_dstate d) (m_istate d).
Definition put_server_bits (bits mode : Z) (d : enabled) : enabled :=
  mkEnabled (m_enabled d) (m_server_no_context_takeover d) (m_client_no_context_takeover d) bits (m_client_max_window_bits d)
    mode (m_client_max_window_bits_mode d) (m_initialized d) (m_flush d) (m_compress_buffer_size d) (m_dstate d) (m_istate d).
Definition put_client_bits (bits mode : Z) (d : enabled) : enabled :=
  mkEnabled (m_enabled d) (m_server_no_context_takeover d) (m_client_no_context_takeover d) (m_server_max_window_bits d) bits
    (m_server_max_window_bits_mode d) mode (m_initialized d) (m_flush d) (m_compress_buffer_size d) (m_dstate d) (m_istate d).
Definition put_streams (initialized : bool) (flush : Z) (ds : option dstream) (js : option istream) (d : enabled) : enabled :=
  mkEnabled (m_enabled d) (m_server_no_context_takeover d) (m_client_no_context_takeover d) (m_server_max_window_bits d) (m_client_max_window_bits d)
    (m_server_max_window_bits_mode d) (m_client_max_window_bits_mode d) initialized flush (m_compress_buffer_size d) ds js.
Definition error (e : deflate_error.value) : option error_code := Some (deflate_ec e).

(** ** Settings *)
Definition is_implemented : bool := true.
Definition is_enabled (d : enabled) : bool := m_enabled d.
Definition enable_server_no_context_takeover (d : enabled) : enabled := put_takeover true (m_client_no_context_takeover d) d.
Definition enable_client_no_context_takeover (d : enabled) : enabled := put_takeover (m_server_no_context_takeover d) true d.
Definition set_server_max_window_bits (bits mode : Z) (d : enabled) : option error_code * enabled :=
  if (bits <? min_server_max_window_bits) || (max_server_max_window_bits <? bits) then (error deflate_error.invalid_max_window_bits, d)
  else (None, put_server_bits (if bits =? 8 then 9 else bits) mode d).
Definition set_client_max_window_bits (bits mode : Z) (d : enabled) : option error_code * enabled :=
  if (bits <? min_client_max_window_bits) || (max_client_max_window_bits <? bits) then (error deflate_error.invalid_max_window_bits, d)
  else (None, put_client_bits (if bits =? 8 then 9 else bits) mode d).

(** [init]: the streams, with the windows of the two directions. *)
Definition init (d : enabled) (is_server : bool) : enabled * option error_code :=
  let deflate_bits := if is_server then m_server_max_window_bits d else m_client_max_window_bits d in
  let inflate_bits := if is_server then m_client_max_window_bits d else m_server_max_window_bits d in
  match deflateInit2 (-1 * deflate_bits) with
  | None => (d, error deflate_error.zlib_error)
  | Some ds =>
      match inflateInit2 (-1 * inflate_bits) with
      | None => (put_streams (m_initialized d) (m_flush d) (Some ds) (m_istate d) d, error deflate_error.zlib_error)
      | Some js =>
          let flush := if (m_server_no_context_takeover d && is_server) || (m_client_no_context_takeover d && negb is_server) then Z_FULL_FLUSH else Z_SYNC_FLUSH in
          (put_streams true flush (Some ds) (Some js) d, None)
      end
  end.

(** ** Negotiation *)
Definition generate_offer (d : enabled) : str := lit "permessage-deflate; client_no_context_takeover; client_max_window_bits".
(** What a client would check of the answer; nothing calls it. *)
Definition validate_offer (response : attribute_list) : option error_code := None.
Definition generate_response (d : enabled) : str :=
  lit "permessage-deflate"
  ++ (if m_server_no_context_takeover d then lit "; server_no_context_takeover" else [])
  ++ (if m_client_no_context_takeover d then lit "; client_no_context_takeover" else [])
  ++ (if m_server_max_window_bits d <? default_server_max_window_bits then lit "; server_max_window_bits=" ++ to_string (m_server_max_window_bits d) else [])
  ++ (if m_client_max_window_bits d <? default_client_max_window_bits then lit "; client_max_window_bits=" ++ to_string (m_client_max_window_bits d) else []).
Definition negotiate_server_no_context_takeover (value : str) (d : enabled) : enabled * option error_code :=
  if negb (bool_decide (value = [])) then (d, error deflate_error.invalid_attribute_value) else (enable_server_no_context_takeover d, None).
Definition negotiate_client_no_context_takeover (value : str) (d : enabled) : enabled * option error_code :=
  if negb (bool_decide (value = [])) then (d, error deflate_error.invalid_attribute_value) else (enable_client_no_context_takeover d, None).
(** The window by the mode, and whether the mode is one of the four. *)
Definition by_mode (m bits own default min : Z) : Z * bool :=
  let '(r, ok) := if m =? mode.decline then (default, true)
    else if m =? mode.accept then (bits, true)
    else if m =? mode.largest then (Z.min bits own, true)
    else if m =? mode.smallest then (min, true)
    else (default, false) in
  (if r =? 8 then 9 else r, ok).
Definition negotiate_server_max_window_bits (value : str) (d : enabled) : res (enabled * option error_code) :=
  v ← atoi value;
  let bits := uint8 v in
  let m := m_server_max_window_bits_mode d in
  if (bits <? min_server_max_window_bits) || (max_server_max_window_bits <? bits)
  then mret (put_server_bits default_server_max_window_bits m d, error deflate_error.invalid_attribute_value)
  else
    let '(r, ok) := by_mode m bits (m_server_max_window_bits d) default_server_max_window_bits min_server_max_window_bits in
    mret (put_server_bits r m d, if ok then None else error deflate_error.invalid_mode).
Definition negotiate_client_max_window_bits (value : str) (d : enabled) : res (enabled * option error_code) :=
  v ← atoi value;
  let bits := uint8 v in
  let m := m_client_max_window_bits_mode d in
  if negb (bool_decide (value = [])) && ((bits <? min_client_max_window_bits) || (max_client_max_window_bits <? bits))
  then mret (put_client_bits default_client_max_window_bits m d, error deflate_error.invalid_attribute_value)
  else
    let bits := if bool_decide (value = []) then default_client_max_window_bits else bits in
    let '(r, ok) := by_mode m bits (m_client_max_window_bits d) default_client_max_window_bits min_client_max_window_bits in
    mret (put_client_bits r m d, if ok then None else error deflate_error.invalid_mode).
(** The attributes up to the first error. *)
Fixpoint negotiate_attributes (offer : attribute_list) (d : enabled) : res (enabled * option error_code) :=
  match offer with
  | [] => mret (d, None)
  | (name, value) :: offer =>
      '(d, ec) ← (if bool_decide (name = lit "server_no_context_takeover") then mret (negotiate_server_no_context_takeover value d)
        else if bool_decide (name = lit "client_no_context_takeover") then mret (negotiate_client_no_context_takeover value d)
        else if bool_decide (name = lit "server_max_window_bits") then negotiate_server_max_window_bits value d
        else if bool_decide (name = lit "client_max_window_bits") then negotiate_client_max_window_bits value d
        else mret (d, error deflate_error.invalid_attributes));
      match ec with Some _ => mret (d, ec) | None => negotiate_attributes offer d end
  end.
Definition negotiate (d : enabled) (offer : attribute_list) : res (enabled * (option error_code * str)) :=
  '(d, ec) ← negotiate_attributes offer d;
  match ec with
  | Some _ => mret (d, (ec, []))
  | None => let d := put_enabled true d in mret (d, (None, generate_response d))
  end.

(** ** Compression *)
Variable fuel : nat.   (** more calls of zlib than one message takes *)
(** [avail_in] has 32 bits. *)
Definition avail_in (l : list Z) : list Z := take (Z.to_nat (u32 (Z.of_nat (length l)))) l.
Fixpoint compress_loop (fuel : nat) (flush size : Z) (s : dstream) (in_ out : list Z) : res (dstream * list Z) :=
  match fuel with
  | O => Err OutOfFuel
  | S fuel =>
      let '(s, rest, output) := deflate flush s in_ size in
      if size - Z.of_nat (length output) =? 0 then compress_loop fuel flush size s rest (out ++ output) else mret (s, out ++ output)
  end.
Definition compress (d : enabled) (in_ out : list Z) : res (enabled * option error_code * list Z) :=
  match m_initialized d, m_dstate d with
  | true, Some s =>
      if bool_decide (in_ = []) then mret (d, None, out ++ [2; 0; 0; 0; 255; 255])
      else
        '(s, out) ← compress_loop fuel (m_flush d) (m_compress_buffer_size d) s (avail_in in_) out;
        mret (put_streams true (m_flush d) (Some s) (m_istate d) d, None, out)
  | _, _ => mret (d, error deflate_error.uninitialized, out)
  end.
Fixpoint decompress_loop (fuel : nat) (size : Z) (s : istream) (in_ out : list Z) : res (istream * option error_code * list Z) :=
  match fuel with
  | O => Err OutOfFuel
  | S fuel =>
      let '(ret, s, rest, output) := inflate s in_ size in
      if (ret =? Z_NEED_DICT) || (ret =? Z_DATA_ERROR) || (ret =? Z_MEM_ERROR) then mret (s, error deflate_error.zlib_error, out)
      else if size - Z.of_nat (length output) =? 0 then decompress_loop fuel size s rest (out ++ output) else mret (s, None, out ++ output)
  end.
Definition decompress (d : enabled) (buf out : list Z) : res (enabled * option error_code * list Z) :=
  match m_initialized d, m_istate d with
  | true, Some s =>
      '(s, ec, out) ← decompress_loop fuel (m_compress_buffer_size d) s (avail_in buf) out;
      mret (put_streams true (m_flush d) (m_dstate d) (Some s) d, ec, out)
  | _, _ => mret (d, error deflate_error.uninitialized, out)
  end.
End Enabled.
End Enabled.

(** The extension as the processor and the handshake use it; the processor does not look
    at the result of [compress]. *)
Definition permessage_deflate `{Zlib} (fuel : nat) : Deflate := {|
  deflate_state := Enabled.enabled;
  is_enabled := Enabled.is_enabled;
  compress := λ d in_ out, '(d, _, out) ← Enabled.compress fuel d in_ out; mret (d, out);
  decompress := λ d buf out, '(d, ec, out) ← Enabled.decompress fuel d buf out; mret (d, (ec, out));
|}.
Definition permessage_deflate_extension `{zlib : Zlib} (fuel : nat) : @Extension (permessage_deflate fuel) :=
  @Build_Extension (permessage_deflate fuel) Enabled.is_implemented Enabled.negotiate Enabled.init Enabled.generate_offer.

(** ** What zlib promises

    [inflated s bytes]: the whole output of the bytes, and the stream behind them.
    [coupled s t]: what the stream [s] deflates next, the stream [t] can inflate. *)
Section Flushed.
Context `{Zlib}.
(** The calls that flush a stream: until one leaves room for output. *)
Inductive flushed (flush size : Z) : dstream → list Z → list Z → dstream → Prop :=
  | flushed_last s in_ s' rest out : deflate flush s in_ size = (s', rest, out) → Z.of_nat (length out) < size → flushed flush size s in_ out s'
  | flushed_more s in_ s' rest out out' s'' : deflate flush s in_ size = (s', rest, out) → Z.of_nat (length out) = size →
      flushed flush size s' rest out' s'' → flushed flush size s in_ (out ++ out') s''.
End Flushed.
Class ZlibLaws `{Zlib} := {
  inflated : istream → list Z → option (istream * list Z);
  coupled : dstream → istream → Prop;
  (** raw streams of windows of 9 to 15 bits *)
  deflateInit2_ok bits : 9 ≤ bits ≤ 15 → is_Some (deflateInit2 (-1 * bits));
  inflateInit2_ok bits : 9 ≤ bits ≤ 15 → is_Some (inflateInit2 (-1 * bits));
  init_coupled bits s t : 9 ≤ bits ≤ 15 → deflateInit2 (-1 * bits) = Some s → inflateInit2 (-1 * bits) = Some t → coupled s t;
  (** a flush gives out all that was put in, as bytes, and ends with an empty stored block *)
  deflate_flushes flush size s t in_ : flush = Z_SYNC_FLUSH ∨ flush = Z_FULL_FLUSH → 6 < size → coupled s t → in_ ≠ [] →
    ∃ out s' t1 t', flushed flush size s in_ (out ++ [0; 0; 255; 255]) s' ∧ (bytes_ok in_ → bytes_ok out) ∧
    inflated t out = Some (t1, in_) ∧ inflated t1 [0; 0; 255; 255] = Some (t', []) ∧ coupled s' t';
  (** an empty block, and an empty stored block *)
  inflate_empty s t : coupled s t → ∃ t1 t', inflated t [2; 0] = Some (t1, []) ∧ inflated t1 [0; 0; 255; 255] = Some (t', []) ∧ coupled s t';
  (** between two messages no output is held back *)
  inflate_idle s t : coupled s t → inflated t [] = Some (t, []);
  (** [inflate] takes what it is given in pieces, and gives as much as there is room for *)
  inflated_app t a b : inflated t (a ++ b) = ('(t, o) ← inflated t a; '(t, o') ← inflated t b; Some (t, o ++ o'));
  inflate_gives t in_ size t2 o : 0 < size → inflated t in_ = Some (t2, o) →
    ∃ ret t' rest out o', inflate t in_ size = (ret, t', rest, out) ∧ ret ≠ Z_NEED_DICT ∧ ret ≠ Z_DATA_ERROR ∧ ret ≠ Z_MEM_ERROR ∧
    o = out ++ o' ∧ Z.of_nat (length out) ≤ size ∧ inflated t' rest = Some (t2, o') ∧ (Z.of_nat (length out) < size → o' = [] ∧ t' = t2);
}.

(** ** Messages in flight

    What [hybi13] sends of a compressed message, and what it does with the pieces that
    arrive. *)
Section Transfer.
Context `{Zlib}.
Definition compressed (fuel : nat) (m : list Z) (d : Enabled.enabled) : res (list Z * Enabled.enabled) :=
  '(d, _, out) ← Enabled.compress fuel d m []; mret (take (length out - 4) out, d).
Fixpoint send_all (fuel : nat) (ms : list (list Z)) (d : Enabled.enabled) : res (list (list Z) * Enabled.enabled) :=
  match ms with
  | [] => mret ([], d)
  | m :: ms => '(p, d) ← compressed fuel m d; '(ps, d) ← send_all fuel ms d; mret (p :: ps, d)
  end.
Fixpoint inflated_pieces (fuel : nat) (pieces : list (list Z)) (out : list Z) (d : Enabled.enabled) : res (option error_code * list Z * Enabled.enabled) :=
  match pieces with
  | [] => mret (None, out, d)
  | p :: pieces =>
      '(d, ec, out) ← Enabled.decompress fuel d p out;
      match ec with Some _ => mret (ec, out, d) | None => inflated_pieces fuel pieces out d end
  end.
Fixpoint receive_all (fuel : nat) (messages : list (list (list Z))) (d : Enabled.enabled) : res (list (list Z) * Enabled.enabled) :=
  match messages with
  | [] => mret ([], d)
  | pieces :: messages =>
      '(ec, m, d) ← inflated_pieces fuel (pieces ++ [[0; 0; 255; 255]]) [] d;
      match ec with
      | Some _ => mret ([], d)
      | None => '(ms, d) ← receive_all fuel messages d; mret (m :: ms, d)
      end
  end.

Context `{!ZlibLaws}.
(** The sender [d] and the receiver [e] of one direction. *)
Definition coupled_ends (d e : Enabled.enabled) : Prop := ∃ s t,
  Enabled.m_initialized d = true ∧ Enabled.m_initialized e = true ∧ Enabled.m_dstate d = Some s ∧ Enabled.m_istate e = Some t ∧ coupled s t ∧
  (Enabled.m_flush d = Z_SYNC_FLUSH ∨ Enabled.m_flush d = Z_FULL_FLUSH) ∧ Enabled.m_compress_buffer_size d = 8192 ∧ Enabled.m_compress_buffer_size e = 8192.
Definition short (l : list Z) : Prop := Z.of_nat (length l) < 2 ^ 32.
Lemma avail_short l : short l → Enabled.avail_in l = l.
Proof. intros Hl. unfold Enabled.avail_in, u32. rewrite Z.mod_small by (unfold short in Hl; lia). apply take_ge. lia. Qed.

Lemma compress_loop_flushed flush size s in_ out s' : flushed flush size s in_ out s' →
  ∃ n, ∀ fuel acc, (n ≤ fuel)%nat → Enabled.compress_loop fuel flush size s in_ acc = Ok (s', acc ++ out).
Proof.
  induction 1 as [s in_ s' rest out E Hl|s in_ s' rest out out' s'' E Hl _ [n IH]].
  - exists 1%nat. intros [|fuel] acc Hf; [lia|]. cbn [Enabled.compress_loop]. rewrite E. by rewrite (proj2 (Z.eqb_neq _ _)) by lia.
  - exists (S n). intros [|fuel] acc Hf; [lia|]. cbn [Enabled.compress_loop]. rewrite E, (proj2 (Z.eqb_eq _ _)) by lia. rewrite IH by lia. by rewrite <- app_assoc.
Qed.
Lemma decompress_loop_inflated fuel size t in_ t' o acc : 0 < size → inflated t in_ = Some (t', o) → (length o < fuel)%nat →
  Enabled.decompress_loop fuel size t in_ acc = Ok (t', None, acc ++ o).
Proof.
  intros Hs. revert t in_ o acc. induction fuel as [|fuel IH]; intros t in_ o acc E Hf; [lia|]. cbn [Enabled.decompress_loop].
  destruct (inflate_gives t in_ size t' o Hs E) as (ret & t1 & rest & out & o' & -> & H1 & H2 & H3 & -> & Hl & E' & Hend).
  rewrite !(proj2 (Z.eqb_neq _ _)) by done. cbn [orb]. rewrite length_app in Hf. destruct (size - _ =? 0) eqn:Ez.
  - rewrite (IH t1 rest o' (acc ++ out) E') by lia. by rewrite <- app_assoc.
  - destruct Hend as [-> ->]; [lia|]. by rewrite app_nil_r.
Qed.
Definition with_istream (t : istream) (e : Enabled.enabled) : Enabled.enabled := Enabled.put_streams true (Enabled.m_flush e) (Enabled.m_dstate e) (Some t) e.
Lemma inflated_pieces_ok fuel ps t t' m acc e : Enabled.m_initialized e = true → Enabled.m_istate e = Some t → Enabled.m_compress_buffer_size e = 8192 →
  Forall short ps → ps ≠ [] → inflated t (concat ps) = Some (t', m) → (length m < fuel)%nat → inflated_pieces fuel ps acc e = Ok (None, acc ++ m, with_istream t' e).
Proof.
  intros Hi Ht Hz Hps. revert t m acc e Hi Ht Hz. induction Hps as [|p ps Hp _ IH]; intros t m acc e Hi Ht Hz Hne E Hf; [done|].
  assert (Hpiece : ∀ t1 o, inflated t p = Some (t1, o) → (length o < fuel)%nat → Enabled.decompress fuel e p acc = Ok (with_istream t1 e, None, acc ++ o)).
  { intros t1 o Eo Ho. unfold Enabled.decompress. rewrite Hi, Ht, Hz, avail_short by done. by rewrite (decompress_loop_inflated _ _ _ _ t1 o) by (done || lia). }
  cbn [inflated_pieces]. destruct ps as [|q ps].
  - cbn [concat] in E. rewrite app_nil_r in E. by rewrite (Hpiece t' m) by done.
  - cbn [concat] in E. rewrite inflated_app in E. destruct (inflated t p) as [[t1 o1]|] eqn:E1; [|done]. cbn [mbind option_bind] in E.
    destruct (inflated t1 _) as [[t2 o2]|] eqn:E2; [|done]. cbn [mbind option_bind] in E. injection E as -> <-. rewrite length_app in Hf.
    rewrite (Hpiece t1 o1) by (done || lia). cbn [mbind res_bind]. rewrite (IH t1 o2 (acc ++ o1) (with_istream t1 e)) by (done || lia). by rewrite <- app_assoc.
Qed.
(** One message: what is sent of it, and the stream of the receiver behind it. *)
Lemma deflated m d e : coupled_ends d e → short m → ∃ n p d' t t1 t',
  (∀ fuel, (n ≤ fuel)%nat → Enabled.compress fuel d m [] = Ok (d', None, p ++ [0; 0; 255; 255])) ∧ (bytes_ok m → bytes_ok p) ∧
  Enabled.m_istate e = Some t ∧ inflated t [] = Some (t, []) ∧ inflated t p = Some (t1, m) ∧ inflated t1 [0; 0; 255; 255] = Some (t', []) ∧
  coupled_ends d' (with_istream t' e) ∧ Enabled.m_enabled d' = Enabled.m_enabled d.
Proof.
  intros (s & t & Hd & He & Hs & Ht & Hc & Hf & Hzd & Hze) Hm. unfold Enabled.compress. rewrite Hd, Hs. case_bool_decide as Em.
  - destruct (inflate_empty s t Hc) as (t1 & t' & E1 & E2 & Hc'). exists 0%nat, [2; 0], d, t, t1, t'. subst m.
    pose proof (inflate_idle s t Hc).
    split_and!; try done; [by intros; repeat constructor|by exists s, t'].
  - destruct (deflate_flushes (Enabled.m_flush d) 8192 s t m Hf ltac:(lia) Hc Em) as (p & s' & t1 & t' & Hfl & Hb & E1 & E2 & Hc').
    destruct (compress_loop_flushed _ _ _ _ _ _ Hfl) as [n Hn].
    exists n, p, (Enabled.put_streams true (Enabled.m_flush d) (Some s') (Enabled.m_istate d) d), t, t1, t'. pose proof (inflate_idle s t Hc). split_and!; try done; [|by exists s', t'].
    intros fuel Hfuel. by rewrite Hzd, avail_short, Hn by done.
Qed.
Lemma compressed_one m d e : coupled_ends d e → short m →
  ∃ n p d' e', coupled_ends d' e' ∧ (∀ fuel, (n ≤ fuel)%nat → compressed fuel m d = Ok (p, d')) ∧
  ∀ fuel ps, (n ≤ fuel)%nat → Forall short ps → concat ps = p → inflated_pieces fuel (ps ++ [[0; 0; 255; 255]]) [] e = Ok (None, m, e').
Proof.
  intros Hc Hm. destruct (deflated m d e Hc Hm) as (n & p & d' & t & t1 & t' & Hn & _ & Ht & _ & E1 & E2 & Hc' & _).
  destruct Hc as (_ & _ & _ & He & _ & _ & _ & _ & _ & Hze). exists (n + S (length m))%nat, p, d', (with_istream t' e). split_and!; [done| |].
  - intros fuel Hfuel. unfold compressed. rewrite Hn by lia. cbn. rewrite length_app. cbn [length]. by rewrite Nat.add_sub, take_app_length.
  - intros fuel ps Hfuel Hps <-. apply (inflated_pieces_ok fuel _ t t' m [] e); try done; [|by destruct ps| |lia].
    + apply Forall_app. split; [done|]. by repeat constructor.
    + rewrite concat_app, inflated_app, E1. cbn [concat app mbind option_bind]. rewrite E2. cbn. by rewrite app_nil_r.
Qed.

(** What one end compresses the other end inflates, message by message: for any messages
    and any cut of their compressed bytes into reads, with any bound on the calls of zlib
    that is large enough, neither end reports an error and the messages arrive; the empty
    message included, which zlib does not see. *)
Lemma compressed_round_trip ms d e : coupled_ends d e → Forall short ms →
  ∃ n ps d' e', coupled_ends d' e' ∧ ∀ fuel, (n ≤ fuel)%nat → send_all fuel ms d = Ok (ps, d') ∧
  ∀ cut, Forall (Forall short) cut → (λ c, concat c) <$> cut = ps → receive_all fuel cut e = Ok (ms, e').
Proof.
  intros Hc Hms. revert d e Hc. induction Hms as [|m ms Hm _ IH]; intros d e Hc.
  { exists 0%nat, [], d, e. split; [done|]. intros fuel _. split; [done|]. by intros [|? ?] _ ?. }
  destruct (compressed_one m d e Hc Hm) as (n1 & p & d1 & e1 & Hc1 & Hs1 & Hr1). destruct (IH d1 e1 Hc1) as (n2 & ps & d2 & e2 & Hc2 & H2).
  exists (n1 + n2)%nat, (p :: ps), d2, e2. split; [done|]. intros fuel Hf. destruct (H2 fuel ltac:(lia)) as [Hs2 Hr2]. split.
  - cbn [send_all]. rewrite Hs1 by lia. cbn [mbind res_bind]. by rewrite Hs2.
  - intros [|c cut] Hcut Ecut; [done|]. apply Forall_cons in Hcut as [Hc' Hcut]. injection Ecut as E1 E2. cbn [receive_all].
    rewrite (Hr1 fuel c) by (done || lia). cbn [mbind res_bind]. by rewrite Hr2.
Qed.
End Transfer.

(** ** Agreement *)
Section Agreement.
Context `{Zlib}.
Definition offered : attribute_list := [(lit "client_max_window_bits", []); (lit "client_no_context_takeover", [])].
Lemma offer_parsed (d : Enabled.enabled) : parse_parameter_list (Enabled.generate_offer d) [] = Ok (false, [(lit "permessage-deflate", offered)]).
Proof. vm_compute. reflexivity. Qed.
(** The settings a response tells. *)
Definition settings (server client : bool) (sb cb : Z) : Enabled.enabled := Enabled.put_client_bits cb mode.accept (Enabled.put_server_bits sb mode.accept (Enabled.put_takeover server client Enabled.new_enabled)).
Lemma bits_range b : 9 ≤ b ≤ 15 → b ∈ [9; 10; 11; 12; 13; 14; 15].
Proof. intros Hb. assert (b = 9 ∨ b = 10 ∨ b = 11 ∨ b = 12 ∨ b = 13 ∨ b = 14 ∨ b = 15) as Hc by lia. destruct_or! Hc; subst b; set_solver. Qed.
Definition answer_read (server : bool) (sb cb : Z) : bool :=
  match parse_parameter_list (Enabled.generate_response (settings server true sb cb)) [] with
  | Ok (false, [(name, attributes)]) => bool_decide (name = lit "permessage-deflate") &&
      match Enabled.negotiate Enabled.new_enabled attributes with
      | Ok (d, (None, _)) => Enabled.m_enabled d && Bool.eqb (Enabled.m_server_no_context_takeover d) server && Enabled.m_client_no_context_takeover d &&
          (Enabled.m_server_max_window_bits d =? sb) && (Enabled.m_client_max_window_bits d =? cb) && (Enabled.m_compress_buffer_size d =? 8192)
      | _ => false
      end
  | _ => false
  end.
Lemma answers_read : forallb (λ server, forallb (λ sb, forallb (answer_read server sb) [9; 10; 11; 12; 13; 14; 15]) [9; 10; 11; 12; 13; 14; 15]) [true; false] = true.
Proof. vm_compute. reflexivity. Qed.
Lemma by_mode_range m own : 9 ≤ own ≤ 15 → m ∈ [mode.accept; mode.decline; mode.largest; mode.smallest] →
  ∃ b, 9 ≤ b ≤ 15 ∧ Enabled.by_mode m 15 own 15 8 = (b, true).
Proof.
  intros Ho Hm. apply list_elem_of_In in Hm as [<-|[<-|[<-|[<-|[]]]]]; unfold Enabled.by_mode; cbn.
  - by exists 15.
  - by exists 15.
  - exists own. rewrite Z.min_r by lia. by rewrite (proj2 (Z.eqb_neq _ _)) by lia.
  - by exists 9.
Qed.
(** A server answers the offer of a client. *)
Lemma server_negotiates d : 9 ≤ Enabled.m_client_max_window_bits d ≤ 15 →
  Enabled.m_client_max_window_bits_mode d ∈ [mode.accept; mode.decline; mode.largest; mode.smallest] →
  ∃ b, 9 ≤ b ≤ 15 ∧
  let d2 := Enabled.put_enabled true (Enabled.put_takeover (Enabled.m_server_no_context_takeover d) true (Enabled.put_client_bits b (Enabled.m_client_max_window_bits_mode d) d)) in
  Enabled.negotiate d offered = Ok (d2, (None, Enabled.generate_response d2)).
Proof.
  intros Hb Hm. destruct (by_mode_range _ _ Hb Hm) as (b & Hb' & E). exists b. split; [done|]. cbv zeta.
  unfold Enabled.negotiate, offered. cbn [Enabled.negotiate_attributes].
  repeat match goal with |- context[bool_decide (lit ?a = lit ?b)] => let v := eval vm_compute in (bool_decide (lit a = lit b)) in change (bool_decide (lit a = lit b)) with v end.
  cbn [mbind res_bind mret res_ret].
  unfold Enabled.negotiate_client_max_window_bits. change (atoi []) with (@Ok Z 0). cbn [mbind res_bind]. rewrite bool_decide_eq_true_2 by done. cbn [negb andb].
  change default_client_max_window_bits with 15. change min_client_max_window_bits with 8. rewrite E. reflexivity.
Qed.
Lemma deflate_answer_read server sb cb : 9 ≤ sb ≤ 15 → 9 ≤ cb ≤ 15 →
  ∃ attributes d response, parse_parameter_list (Enabled.generate_response (settings server true sb cb)) [] = Ok (false, [(lit "permessage-deflate", attributes)]) ∧
  Enabled.negotiate Enabled.new_enabled attributes = Ok (d, (None, response)) ∧ Enabled.m_enabled d = true ∧
  Enabled.m_server_max_window_bits d = sb ∧ Enabled.m_client_max_window_bits d = cb ∧ Enabled.m_compress_buffer_size d = 8192.
Proof.
  intros Hs Hc. assert (Hr : answer_read server sb cb = true).
  { pose proof answers_read as Ha. rewrite forallb_forall in Ha. specialize (Ha server ltac:(destruct server; cbn; auto)). cbv beta in Ha.
    rewrite forallb_forall in Ha. specialize (Ha sb ltac:(apply list_elem_of_In, bits_range, Hs)). cbv beta in Ha.
    rewrite forallb_forall in Ha. apply Ha, list_elem_of_In, bits_range, Hc. }
  unfold answer_read in Hr. destruct (parse_parameter_list _ _) as [[[] [|[name attributes] []]]|]; try done. apply andb_true_iff in Hr as [Hn Hr]. apply bool_decide_eq_true in Hn as ->.
  destruct (Enabled.negotiate _ _) as [[d [[e|] response]]|] eqn:E; try done. exists attributes, d, response.
  repeat (apply andb_true_iff in Hr as [Hr ?]). split_and!; [done|done|done|lia|lia|lia].
Qed.
Context `{!ZlibLaws}.
Lemma init_total (d : Enabled.enabled) side : 9 ≤ Enabled.m_server_max_window_bits d ≤ 15 → 9 ≤ Enabled.m_client_max_window_bits d ≤ 15 →
  ∃ flush ds js, Enabled.init d side = (Enabled.put_streams true flush (Some ds) (Some js) d, None) ∧ (flush = Z_SYNC_FLUSH ∨ flush = Z_FULL_FLUSH) ∧
  deflateInit2 (-1 * (if side then Enabled.m_server_max_window_bits d else Enabled.m_client_max_window_bits d)) = Some ds ∧
  inflateInit2 (-1 * (if side then Enabled.m_client_max_window_bits d else Enabled.m_server_max_window_bits d)) = Some js.
Proof.
  intros Hs Hc. unfold Enabled.init. destruct (deflateInit2_ok (if side then Enabled.m_server_max_window_bits d else Enabled.m_client_max_window_bits d)) as [ds Hds]; [by destruct side|].
  destruct (inflateInit2_ok (if side then Enabled.m_client_max_window_bits d else Enabled.m_server_max_window_bits d)) as [js Hjs]; [by destruct side|].
  cbv zeta. rewrite Hds, Hjs. eexists _, ds, js. split_and!; [done| |done|done]. destruct (_ || _); auto.
Qed.
Definition negotiate_with (fuel : nat) := @negotiate_extensions (permessage_deflate fuel) (permessage_deflate_extension fuel) true.
Definition extensions_of (p : parser) : option str := map_find ci_name (lit "Sec-WebSocket-Extensions") (m_headers p).
Definition extension_of {fuel} (s : @hybi13 (permessage_deflate fuel)) : Enabled.enabled := @m_permessage_deflate (permessage_deflate fuel) s.
Lemma negotiate_one fuel p (s : @hybi13 (permessage_deflate fuel)) v attributes d r : extensions_of p = Some v → v ≠ [] →
  parse_parameter_list v [] = Ok (false, [(lit "permessage-deflate", attributes)]) →
  Enabled.m_enabled (extension_of s) = false → Enabled.negotiate (extension_of s) attributes = Ok (d, (None, r)) →
  9 ≤ Enabled.m_server_max_window_bits d ≤ 15 → 9 ≤ Enabled.m_client_max_window_bits d ≤ 15 →
  ∃ flush ds js s', negotiate_with fuel p s = Ok (None, r, s') ∧ extension_of s' = Enabled.put_streams true flush (Some ds) (Some js) d ∧ (flush = Z_SYNC_FLUSH ∨ flush = Z_FULL_FLUSH) ∧
  deflateInit2 (-1 * (if m_server s then Enabled.m_server_max_window_bits d else Enabled.m_client_max_window_bits d)) = Some ds ∧
  inflateInit2 (-1 * (if m_server s then Enabled.m_client_max_window_bits d else Enabled.m_server_max_window_bits d)) = Some js.
Proof.
  intros Hp Hv Hparse Hoff Hn Hs Hc. unfold extensions_of in Hp. destruct (init_total d (m_server s) Hs Hc) as (flush & ds & js & Hi & Hf & Hds & Hjs).
  exists flush, ds, js, (@set_deflate (permessage_deflate fuel) (Enabled.put_streams true flush (Some ds) (Some js) d) s).
  split_and!; try done. unfold negotiate_with, negotiate_extensions. cbn [negb]. unfold get_header_as_plist. rewrite Hp, bool_decide_eq_false_2, Hparse by done.
  cbn [mbind res_bind is_implemented permessage_deflate_extension negotiate_loop]. rewrite bool_decide_eq_true_2 by done. cbn [negb].
  unfold extension_of in *. change (@is_enabled (permessage_deflate fuel) (@m_permessage_deflate (permessage_deflate fuel) s)) with (Enabled.m_enabled (@m_permessage_deflate (permessage_deflate fuel) s)). rewrite Hoff.
  change (@WsHandshake.negotiate (permessage_deflate fuel) (permessage_deflate_extension fuel)) with Enabled.negotiate. rewrite Hn. cbn [mbind res_bind].
  change (@WsHandshake.init (permessage_deflate fuel) (permessage_deflate_extension fuel)) with Enabled.init.
  change (@m_permessage_deflate (permessage_deflate fuel) (@set_deflate (permessage_deflate fuel) d s)) with d. change (m_server (@set_deflate (permessage_deflate fuel) d s)) with (m_server s). rewrite Hi. done.
Qed.

(** C17: The offer of a client and the answer of a server lead to agreement: whatever windows,
    modes and flags the server is set to, it accepts the offer of a new client, and the
    client accepts its answer; then the extension is on at both ends, and each end can
    inflate what the other one compresses. *)
Theorem extension_agreed fuel (s c : @hybi13 (permessage_deflate fuel)) request :
  m_server s = true → m_server c = false → extension_of c = Enabled.new_enabled → Enabled.m_enabled (extension_of s) = false →
  Enabled.m_compress_buffer_size (extension_of s) = 8192 →
  9 ≤ Enabled.m_server_max_window_bits (extension_of s) ≤ 15 → 9 ≤ Enabled.m_client_max_window_bits (extension_of s) ≤ 15 →
  Enabled.m_client_max_window_bits_mode (extension_of s) ∈ [mode.accept; mode.decline; mode.largest; mode.smallest] →
  extensions_of request = Some (Enabled.generate_offer (extension_of c)) →
  ∃ response s', negotiate_with fuel request s = Ok (None, response, s') ∧ Enabled.m_enabled (extension_of s') = true ∧
  ∀ answer, extensions_of answer = Some response →
  ∃ echo c', negotiate_with fuel answer c = Ok (None, echo, c') ∧ Enabled.m_enabled (extension_of c') = true ∧
    coupled_ends (extension_of s') (extension_of c') ∧ coupled_ends (extension_of c') (extension_of s').
Proof.
  intros Hs Hc Hnew Hoff Hsize Hsb Hcb Hmode Hreq. rewrite Hnew in Hreq.
  destruct (server_negotiates (extension_of s) Hcb Hmode) as (b & Hb & En). set (d2 := Enabled.put_enabled true _) in En.
  destruct (negotiate_one fuel request s _ offered d2 _ Hreq ltac:(done) (offer_parsed _) Hoff En) as (f1 & ds1 & js1 & s' & E1 & X1 & F1 & D1 & J1); [done|done|].
  exists (Enabled.generate_response d2), s'. split_and!; [done|by rewrite X1|]. intros answer Ha. rewrite Hs in D1, J1.
  destruct (deflate_answer_read (Enabled.m_server_no_context_takeover (extension_of s)) (Enabled.m_server_max_window_bits (extension_of s)) b Hsb Hb) as (attributes & d3 & r3 & Hparse & En3 & Hon & Hsb3 & Hcb3 & Hsize3).
  change (Enabled.generate_response (settings _ true _ b)) with (Enabled.generate_response d2) in Hparse.
  destruct (negotiate_one fuel answer c _ attributes d3 r3 Ha ltac:(done) Hparse) as (f2 & ds2 & js2 & c' & E2 & X2 & F2 & D2 & J2); [by rewrite Hnew|by rewrite Hnew|by rewrite Hsb3|by rewrite Hcb3|].
  rewrite Hc, Hsb3, Hcb3 in *. exists r3, c'. split_and!; [done|by rewrite X2| |]; rewrite X1, X2.
  - exists ds1, js2. split_and!; try done. eapply init_coupled; [exact Hsb|exact D1|exact J2].
  - exists ds2, js1. split_and!; try done. eapply init_coupled; [exact Hb|exact D2|exact J1].
Qed.
End Agreement.

(** ** A codec that keeps the promises

    It marks every byte and does not compress; streams hold the output for which there was
    no room. *)
Inductive reading := between_marks | literal | skipping (n : nat).
Definition read_byte (r : reading) (b : Z) : reading * list Z :=
  match r with
  | between_marks => if b =? 7 then (literal, []) else if b =? 0 then (skipping 2, []) else (skipping 0, [])
  | literal => (between_marks, [b])
  | skipping O => (between_marks, [])
  | skipping (S n) => (skipping n, [])
  end.
Fixpoint read_stored (r : reading) (l : list Z) : reading * list Z :=
  match l with [] => (r, []) | b :: l => let '(r, o) := read_byte r b in let '(r, o') := read_stored r l in (r, o ++ o') end.
Definition stored (l : list Z) : list Z := concat ((λ b, [7; b]) <$> l).
Definition window_ok (bits : Z) : bool := (-15 <=? bits) && (bits <=? -9).
Definition store_codec : Zlib := {|
  dstream := list Z;
  istream := reading * list Z;
  deflateInit2 := λ bits, if window_ok bits then Some [] else None;
  inflateInit2 := λ bits, if window_ok bits then Some (between_marks, []) else None;
  deflate := λ flush s in_ size, let all := s ++ (if bool_decide (in_ = []) then [] else stored in_ ++ [0; 0; 255; 255]) in
    (drop (Z.to_nat size) all, [], take (Z.to_nat size) all);
  inflate := λ s in_ size, let '(r, o) := read_stored s.1 in_ in let all := s.2 ++ o in (0, (r, drop (Z.to_nat size) all), [], take (Z.to_nat size) all);
|}.
Lemma read_stored_app r a b : read_stored r (a ++ b) = (let '(r1, o1) := read_stored r a in let '(r2, o2) := read_stored r1 b in (r2, o1 ++ o2)).
Proof.
  revert r. induction a as [|x a IH]; intros r; cbn [app read_stored]; [by destruct (read_stored r b)|]. destruct (read_byte r x) as [r1 o1]. rewrite IH.
  destruct (read_stored r1 a) as [r2 o2], (read_stored r2 b) as [r3 o3]. by rewrite app_assoc.
Qed.
Lemma read_stored_all l : read_stored between_marks (stored l) = (between_marks, l).
Proof. induction l as [|b l IH]; [done|]. unfold stored in *. cbn [fmap list_fmap concat app read_stored read_byte Z.eqb Pos.eqb]. by rewrite IH. Qed.
(** Calls without new input give out what is left. *)
Lemma store_step (all s in_ : list Z) flush size : 0 < size → @deflate store_codec flush s in_ size = (drop (Z.to_nat size) all, [], take (Z.to_nat size) all) →
  (∀ rest, (length rest < length all)%nat → @flushed store_codec flush size rest [] rest []) → @flushed store_codec flush size s in_ all [].
Proof.
  intros Hs E IH. destruct (decide (Z.of_nat (length all) < size)) as [Hlt|Hge].
  - rewrite (take_ge all), (drop_ge all) in E by lia. by eapply (flushed_last (H := store_codec)).
  - rewrite <- (take_drop (Z.to_nat size) all). eapply (flushed_more (H := store_codec)); [exact E|rewrite length_take; lia|]. apply IH. rewrite length_drop. lia.
Qed.
Lemma store_drain flush size all : 0 < size → @flushed store_codec flush size all [] all [].
Proof.
  intros Hs. induction all as [all IH] using (induction_ltof1 _ (@length Z)). apply (store_step all all [] flush size Hs); [|exact IH]. cbn. by rewrite app_nil_r.
Qed.
#[global] Instance store_laws : @ZlibLaws store_codec.
Proof.
  refine {| inflated := λ (t : @istream store_codec) l, let '(r, o) := read_stored t.1 l in Some ((r, []) : @istream store_codec, t.2 ++ o);
            coupled := λ (s : @dstream store_codec) (t : @istream store_codec), s = [] ∧ t = (between_marks, []) |}.
  - intros bits Hb. exists []. cbn. unfold window_ok. by rewrite (proj2 (Z.leb_le _ _)), (proj2 (Z.leb_le _ _)) by lia.
  - intros bits Hb. exists (between_marks, []). cbn. unfold window_ok. by rewrite (proj2 (Z.leb_le _ _)), (proj2 (Z.leb_le _ _)) by lia.
  - intros bits s t Hb. cbn. unfold window_ok. rewrite (proj2 (Z.leb_le _ _)), (proj2 (Z.leb_le _ _)) by lia. by intros [= <-] [= <-].
  - intros flush size s t in_ _ Hsize [-> ->] Hne. exists (stored in_), [], (between_marks, []), (between_marks, []). split_and!; try done.
    + apply (store_step _ [] in_ flush size); [lia| |intros rest _; apply store_drain; lia]. cbn. by rewrite bool_decide_eq_false_2.
    + clear Hne. intros Hb. induction Hb as [|b l Hb Hl IH]; [by constructor|]. repeat (apply Forall_cons; split); [unfold byte_ok; lia|exact Hb|exact IH].
    + cbn. by rewrite read_stored_all.
  - intros s t [-> ->]. exists (between_marks, []), (between_marks, []). done.
  - by intros s t [-> ->].
  - intros [r p] a b. cbn. rewrite read_stored_app. destruct (read_stored r a) as [r1 o1]. cbn. destruct (read_stored r1 b) as [r2 o2]. cbn. by rewrite app_assoc.
  - intros [r p] in_ size t2 o Hs. cbn. destruct (read_stored r in_) as [r1 o1]. intros [= <- <-]. set (all := p ++ o1).
    eexists 0, _, [], _, (drop (Z.to_nat size) all). split; [done|]. split; [done|]. split; [done|]. split; [done|]. split; [by rewrite take_drop|].
    split; [rewrite length_take; lia|]. split; [cbn; by rewrite app_nil_r|]. rewrite length_take. intros Hl. rewrite !drop_ge by lia. done.
Defined.

(** A server that wants windows of 2^10 bytes, and a new client. *)
Definition sample_server : @hybi13 (@permessage_deflate store_codec 100) :=
  @new_hybi13 (@permessage_deflate store_codec 100) true 1000 (@Enabled.put_client_bits store_codec 10 mode.largest (@Enabled.put_server_bits store_codec 10 mode.accept (@Enabled.new_enabled store_codec))).
Definition sample_client : @hybi13 (@permessage_deflate store_codec 100) := @new_hybi13 (@permessage_deflate store_codec 100) false 1000 (@Enabled.new_enabled store_codec).
Definition with_extensions (v : str) : parser := replace_header (lit "Sec-WebSocket-Extensions") v new_parser.
Lemma extension_agreed_witness : ∃ response s' c' echo,
  negotiate_with 100 (with_extensions (lit "permessage-deflate; client_no_context_takeover; client_max_window_bits")) sample_server = Ok (None, response, s') ∧
  negotiate_with 100 (with_extensions response) sample_client = Ok (None, echo, c') ∧ coupled_ends (extension_of s') (extension_of c').
Proof.
  destruct (extension_agreed 100 sample_server sample_client (with_extensions (lit "permessage-deflate; client_no_context_takeover; client_max_window_bits"))) as (response & s' & E & _ & H2);
    [reflexivity..|cbn; lia|cbn; lia|cbn; set_solver|reflexivity|].
  destruct (H2 (with_extensions response) eq_refl) as (echo & c' & E2 & _ & Hc & _). exists response, s', c', echo. exact (conj E (conj E2 Hc)).
Defined.
Definition sample_end : @Enabled.enabled store_codec := @Enabled.put_streams store_codec true Z_SYNC_FLUSH (Some []) (Some (between_marks, [])) Enabled.new_enabled.
Lemma compressed_round_trip_witness : ∃ n (ps : list (list Z)) d' e', coupled_ends d' e' ∧ send_all n [[104; 105]; []; [33]] sample_end = Ok (ps, d') ∧
  receive_all n ((λ p : list Z, (λ b, [b]) <$> p) <$> ps) sample_end = Ok ([[104; 105]; []; [33]], e').
Proof.
  destruct (compressed_round_trip [[104; 105]; []; [33]] sample_end sample_end) as (n & ps & d' & e' & Hc & Hn).
  - exists [], (between_marks, []). split_and!; try done. by left.
  - repeat constructor.
  - destruct (Hn n (le_n n)) as [Hs Hr]. exists n, ps, d', e'. split; [exact Hc|]. split; [exact Hs|]. apply Hr.
    + apply Forall_fmap, Forall_true. intros p. apply Forall_fmap, Forall_true. intros b. by unfold short.
    + rewrite <- list_fmap_compose. rewrite <- (list_fmap_id ps) at 2. apply list_fmap_ext. intros i p _. cbn. induction p as [|b p IH]; [done|]. cbn. by rewrite IH.
Defined.

(** ** What goes wrong *)
(** 271 is read as 15, and a failed negotiation leaves what came before the failure. *)
Example window_wraps : ∃ d, @Enabled.negotiate store_codec Enabled.new_enabled [(lit "server_max_window_bits", lit "271")] = Ok (d, (None, lit "permessage-deflate")) ∧
  Enabled.m_server_max_window_bits d = 15.
Proof. eexists. split; vm_compute; reflexivity. Qed.
Example failure_leaves_settings : ∃ d ec, @Enabled.negotiate store_codec Enabled.new_enabled [(lit "client_no_context_takeover", []); (lit "other", [])] = Ok (d, (ec, [])) ∧
  ec ≠ None ∧ Enabled.m_client_no_context_takeover d = true.
Proof. eexists _, _. split; [vm_compute; reflexivity|done]. Qed.
(** A mode that declines answers with a larger window than was asked for, and a limit on the
    client's window is told to a client that did not offer one. *)
Example decline_answers_larger : ∃ d, @Enabled.negotiate store_codec (@Enabled.put_server_bits store_codec 15 mode.decline Enabled.new_enabled) [(lit "server_max_window_bits", lit "10")] = Ok (d, (None, lit "permessage-deflate")).
Proof. eexists. vm_compute. reflexivity. Qed.
Example client_window_not_offered : ∃ d, @Enabled.negotiate store_codec (@Enabled.put_client_bits store_codec 10 mode.accept Enabled.new_enabled) [] = Ok (d, (None, lit "permessage-deflate; client_max_window_bits=10")).
Proof. eexists. vm_compute. reflexivity. Qed.
(** A window that zlib refuses: the extension is on although its streams are not there. *)
Definition no_zlib : Zlib := {| dstream := (); istream := (); deflateInit2 := λ _, None; inflateInit2 := λ _, None;
  deflate := λ _ s _ _, (s, [], []); inflate := λ s _ _, (0, s, [], []) |}.
Example enabled_without_streams : ∃ s', @negotiate_with no_zlib 1 (with_extensions (lit "permessage-deflate")) (@new_hybi13 (@permessage_deflate no_zlib 1) true 1000 (@Enabled.new_enabled no_zlib)) =
    Ok (Some (deflate_ec deflate_error.zlib_error), [], s') ∧ Enabled.m_enabled (extension_of s') = true ∧ Enabled.m_initialized (extension_of s') = false.
Proof. eexists. split_and!; vm_compute; reflexivity. Qed.


(** The stored blocks of RFC 1951 (three bits, here with the padding to a byte; the length and
    its complement; the bytes), without a limit on the output: enough of inflate to read the
    bytes of the next example. *)
Inductive block := at_block | in_length (bytes : list Z) | in_data (n : nat).
Definition block_byte (k : block) (b : Z) : option (block * list Z) :=
  match k with
  | at_block => if Z.land b 7 =? 0 then Some (in_length [], []) else None
  | in_length [l0; l1; c0] =>
      if (l0 + 256 * l1) + (c0 + 256 * b) =? 65535
      then Some (match Z.to_nat (l0 + 256 * l1) with O => at_block | n => in_data n end, []) else None
  | in_length bytes => Some (in_length (bytes ++ [b]), [])
  | in_data n => Some (match n with S (S n) => in_data (S n) | _ => at_block end, [b])
  end.
Fixpoint read_blocks (k : block) (l : list Z) : option (block * list Z) :=
  match l with [] => Some (k, []) | b :: l => '(k, o) ← block_byte k b; '(k, o') ← read_blocks k l; Some (k, o ++ o') end.
Definition block_codec : Zlib := {|
  dstream := ();
  istream := block;
  deflateInit2 := λ bits, if window_ok bits then Some () else None;
  inflateInit2 := λ bits, if window_ok bits then Some at_block else None;
  deflate := λ _ s in_ _, (s, [], []);
  inflate := λ k in_ _, match read_blocks k in_ with Some (k, o) => (0, k, [], o) | None => (Z_DATA_ERROR, k, in_, []) end;
|}.
(** The trailer that [finalize_message] feeds to [inflate] is data of a block that the message
    leaves open: what it gives is not held against UTF-8, and a text of four bytes that are not
    UTF-8 is delivered. *)
Example trailer_not_checked :
  match @read_all x86_64 (@permessage_deflate block_codec 10) [[193; 133; 0; 0; 0; 0; 0; 4; 0; 251; 255]]
      (@new_hybi13 (@permessage_deflate block_codec 10) true 1000 (@Enabled.put_enabled block_codec true (@Enabled.put_streams block_codec true Z_SYNC_FLUSH (Some ()) (Some at_block) Enabled.new_enabled))) with
  | Ok (ms, ec, _) => Some (summary <$> ms, ec) | Err _ => None end = Some ([(1, [0; 0; 255; 255])], None) ∧
  validate [0; 0; 255; 255] = Ok false.
Proof. split; vm_compute; reflexivity. Qed.
