(* ===== verification/WsCompressed.v ===== *)
(** * Compressed messages over a connection

    [prepare_data_frame] and [consume] (src/websocketpp-master/websocketpp/processors/hybi13.hpp)
    with the permessage-deflate extension between them: the frame of a compressed message, the
    states of a receiver in the middle of it, and the theorem that the messages arrive for
    every cut of the bytes into reads. *)

From S2P Require Import Prelude Bytes WsFrame Utf8 WsProcessor WsReceive WsStream WsDeflate.

Open Scope Z_scope.

Definition trailer : list Z := [0; 0; 255; 255].

Section Compressed.
Context `{Machine} `{Zlib} `{!ZlibLaws}.
Variable fuel : nat.
#[local] Instance deflate_of_fuel : Deflate := permessage_deflate fuel.

(** ** The frame of a compressed message *)
Definition compressed_header (op size : Z) (mask : bool) : basic_header := new_basic_header op size true mask true false false.
Definition masked_payload (mask : bool) (key : Z) (p : list Z) : list Z := if mask then mask_spec (host_bytes 4 key) 0 p else p.
Definition compressed_frame (op : Z) (mask : bool) (key : Z) (p : list Z) : list Z :=
  let size := Z.of_nat (length p) in
  [b0 (compressed_header op size mask); b1 (compressed_header op size mask)] ++ ext_bytes size mask key ++ masked_payload mask key p.

Lemma compressed_header_fields op size mask (h := compressed_header op size mask) : 0 ≤ op < 16 → 0 ≤ size →
  byte_ok (b0 h) ∧ byte_ok (b1 h) ∧ get_opcode h = op ∧ get_fin h = true ∧ get_masked h = mask ∧
  get_rsv1 h = true ∧ get_rsv2 h = false ∧ get_rsv3 h = false ∧ get_basic_size h = basic_value size.
Proof.
  intros Hop Hs. destruct (first_byte_fields op size true mask true false false Hop) as (? & ? & ? & ? & ? & ?).
  destruct (second_byte_fields op size true mask true false false Hs) as [? ?].
  destruct (basic_header_fields op size true mask Hop Hs) as (_ & ? & _). by split_and!.
Qed.
Lemma compressed_make_header op size masked key : 0 ≤ size < 2 ^ 64 →
  make_header op size true masked true key = Ok ([b0 (compressed_header op size masked); b1 (compressed_header op size masked)] ++ ext_bytes size masked key).
Proof.
  intros Hs. unfold make_header. pose proof (make_extended_spec size masked key Hs) as He. unfold make_extended in He.
  destruct masked; rewrite He; cbn [mbind res_bind]; unfold prepare_header, compressed_header;
    rewrite (header_len_spec _ _ _ _ _ _ _ key) by lia; rewrite load_ext_bytes; (done || (unfold BASIC_HEADER_LENGTH; lia)).
Qed.

(** ** The sender *)
Section Sender.
Variable rng : nat → Z.
Lemma prepare_compressed m (s : hybi13) p (d' : Enabled.enabled) :
  m_opcode m = 1 ∨ m_opcode m = 2 → m_fin m = true → m_compressed m = true → (m_opcode m = 1 → validate (m_payload m) = Ok true) →
  Z.of_nat (length p) < 2 ^ 64 → Enabled.m_enabled (m_permessage_deflate s) = true →
  Enabled.compress fuel (m_permessage_deflate s) (m_payload m) [] = Ok (d', None, p ++ trailer) →
  ∃ out, prepare_data_frame rng (Some m) (Some new_buffer) s = Ok (None, Some out, set_deflate d' (drawn s)) ∧
    wire out = compressed_frame (m_opcode m) (negb (m_server s)) (next_key rng s) p.
Proof.
  intros Hop Hfin Hcmp Hv Hl He Hc. unfold prepare_data_frame. assert (opcode.is_control (m_opcode m) = false) as -> by (unfold opcode.is_control; lia).
  assert ((if m_opcode m =? opcode.text then validate (m_payload m) else mret true) = Ok true) as ->.
  { unfold opcode.text. destruct (m_opcode m =? 1) eqn:E; [|done]. apply Hv. lia. }
  cbn [mbind res_bind negb]. rewrite Hfin, Hcmp. change (is_enabled ?d) with (Enabled.m_enabled d). rewrite He. cbn [andb].
  assert (Hlen : (Z.of_nat (length (p ++ trailer)) <? 4) = false) by (rewrite length_app; change (length trailer) with 4%nat; apply Z.ltb_ge; lia).
  assert (Htake : take (length (p ++ trailer) - 4) (p ++ trailer) = p) by (rewrite length_app; change (length trailer) with 4%nat; by rewrite Nat.add_sub, take_app_length).
  unfold drawn, next_key, compressed_frame, masked_payload.
  destruct (m_server s); cbn [negb]; change (compress (m_permessage_deflate ?s0) (m_payload m) (m_payload new_buffer))
    with ('(d, _, out) ← Enabled.compress fuel (m_permessage_deflate s) (m_payload m) []; mret (d, out));
    rewrite Hc; cbn [mbind res_bind mret res_ret]; rewrite Hlen, Htake; unfold masked_copy; rewrite ?byte_mask_spec by apply host_bytes_length;
    cbn [mbind res_bind mret res_ret]; rewrite ?mask_spec_length, compressed_make_header by lia; cbn [mbind res_bind mret res_ret]; eexists; (split; [done|]);
    unfold wire; cbn [m_header m_payload set_prepared set_opcode set_payload set_header]; by rewrite <- app_assoc.
Qed.
End Sender.

(** A processor between two messages. *)
Definition between (server : bool) (max : Z) (e : Enabled.enabled) (s : hybi13) : Prop :=
  at_frame s ∧ msg_ptr (m_data_msg s) = None ∧ m_server s = server ∧ m_max_message_size s = max ∧ (m_permessage_deflate s : Enabled.enabled) = e.

(** ** The receiver, in the middle of a frame

    [r] is between two messages; the frame of [m] arrives, whose compressed bytes are [p]. *)
Section Receiver.
Variables (r : hybi13) (op key : Z) (p m : list Z) (t t1 t2 : istream) (v_end : validator).
#[local] Definition d : Enabled.enabled := m_permessage_deflate r.
#[local] Definition size : Z := Z.of_nat (length p).
#[local] Definition h : basic_header := compressed_header op size (m_server r).
#[local] Definition eb : list Z := ext_bytes size (m_server r) key.
Record receives : Prop := {
  rc_at : at_frame r;
  rc_new : msg_ptr (m_data_msg r) = None;
  rc_op : op = 1 ∨ op = 2;
  rc_key : 0 ≤ key < 2 ^ 32;
  rc_p : bytes_ok p;
  rc_m : bytes_ok m;
  rc_size : size ≤ m_max_message_size r;
  rc_enabled : Enabled.m_enabled d = true;
  rc_initialized : Enabled.m_initialized d = true;
  rc_stream : Enabled.m_istate d = Some t;
  rc_buffer : Enabled.m_compress_buffer_size d = 8192;
  rc_idle : inflated t [] = Some (t, []);
  rc_inflated : inflated t p = Some (t1, m);
  rc_trailer : inflated t1 trailer = Some (t2, []);
  rc_fuel : (length m < fuel)%nat;
  rc_text : check_text op m new_validator = (true, v_end);
  rc_complete : op = 1 → complete v_end = true;
}.
Hypothesis rc : receives.

Lemma size_range : 0 ≤ size < 256 ^ Z.of_nat sizeof_size_t ∧ 0 ≤ size < 2 ^ 64 ∧ size ≤ max_size.
Proof.
  destruct (rc_at rc) as [Hok _]. pose proof (ok_max r Hok). pose proof max_size_ge. pose proof (rc_size rc).
  assert (0 ≤ size) by (unfold size; lia). destruct size_t_ok as [E|E]; rewrite E in *; split_and!; lia.
Qed.
Lemma op_range : 0 ≤ op < 16.
Proof. destruct (rc_op rc); lia. Qed.

(** The payload so far is [o]; [wb] is the rest of the frame. *)
Definition payload_state_at (wb o : list Z) (pk : Z) (v : validator) (tt : istream) : hybi13 :=
  mkProc (m_server r) (m_max_message_size r) h (Z.of_nat (length wb)) (length eb) (mkMeta (Some (mkMessage [] [] o op false true false true)) pk v)
    (m_control_msg r) (Some Data) (ext_of r size key) (m_rng r) APPLICATION (with_istream tt d).
Definition in_payload (wb : list Z) (s : hybi13) : Prop := ∃ pk tt o o' v,
  s = payload_state_at wb o pk v tt ∧ bytes_ok wb ∧ (length wb ≤ length p)%nat ∧ periodic pk ∧ inflated tt [] = Some (tt, []) ∧ inflated tt (unmask (m_server r) pk wb).2 = Some (t1, o') ∧ o ++ o' = m ∧
  valid_state v ∧ check_text op o' v = (true, v_end).

Lemma decompress_piece a o tt ta oa : short a → inflated tt a = Some (ta, oa) → (length oa < fuel)%nat →
  decompress (with_istream tt d) a o = Ok (with_istream ta d : deflate_state, (None, o ++ oa)).
Proof.
  intros Ha E Hf. cbn. unfold Enabled.decompress. cbn. rewrite (rc_buffer rc), avail_short, (decompress_loop_inflated _ _ _ _ ta oa) by (done || lia). done.
Qed.
Lemma check_text_split a b v : bytes_ok a → bytes_ok b → valid_state v → check_text op (a ++ b) v = (true, v_end) →
  ∃ v1, check_text op a v = (true, v1) ∧ valid_state v1 ∧ check_text op b v1 = (true, v_end).
Proof.
  intros Ha Hb Hv E. pose proof (check_text_app op a b v Ha Hb Hv) as Hx. destruct (check_text_total op a v Ha Hv) as [_ Hv1].
  rewrite E in Hx. destruct (check_text op a v) as [[] v1]; [|done]. by exists v1.
Qed.

Lemma inflated_idle tt a ta oa : inflated tt a = Some (ta, oa) → inflated ta [] = Some (ta, []).
Proof.
  intros E. pose proof (inflated_app tt a []) as Hx. rewrite app_nil_r, E in Hx. cbn [mbind option_bind] in Hx.
  destruct (inflated ta []) as [[tb ob]|]; [|done]. injection Hx as -> Hx. rewrite <- (app_nil_r oa) in Hx at 1. by apply app_inv_head in Hx as <-.
Qed.
(** Some bytes of the payload. *)
Lemma payload_read wa wb more s : in_payload (wa ++ wb) s → bytes_ok more → short (wa ++ more) →
  ∃ tail s', process_payload_bytes (wa ++ more) (length wa) s = Ok (length wa, tail ++ more, None, s') ∧ length tail = length wa ∧ bytes_ok tail ∧ in_payload wb s'.
Proof.
  intros (pk & tt & o & o' & v & -> & Hwb & Hle & Hper & _ & Hinf & Hm & Hv & Hct) Hmore Hsh.
  apply Forall_app in Hwb as [Hba Hbb]. rewrite unmask_app in Hinf by done.
  destruct (periodic_unmask pk wa (m_server r) Hper Hba) as (Hcirc & Hper1 & Hub & Hul).
  destruct (unmask (m_server r) pk wa) as [pk1 a] eqn:Ea. cbn [fst snd] in *.
  destruct (unmask (m_server r) pk1 wb) as [pk2 b] eqn:Eb. cbn [snd] in Hinf. rewrite inflated_app in Hinf.
  destruct (inflated tt a) as [[ta oa]|] eqn:E1; [|done]. cbn [mbind option_bind] in Hinf.
  destruct (inflated ta b) as [[tb ob]|] eqn:E2; [|done]. injection Hinf as -> <-.
  assert (Hbo : bytes_ok oa ∧ bytes_ok ob) by (pose proof (rc_m rc) as Hx; rewrite <- Hm in Hx; apply Forall_app in Hx as [_ Hx]; by apply Forall_app in Hx).
  destruct (check_text_split oa ob v) as (v1 & Hc1 & Hv1 & Hc2); [apply Hbo..|done|done|].
  exists a, (payload_state_at wb (o ++ oa) pk1 v1 ta). split_and!; [|done|done|].
  2: { exists pk1, ta, (o ++ oa), ob, v1. rewrite Eb. rewrite length_app in Hle. split_and!; try done; [lia|by eapply inflated_idle|by rewrite <- app_assoc]. }
  destruct (compressed_header_fields op size (m_server r) op_range ltac:(apply size_range)) as (_ & _ & _ & _ & Hmk & _). fold h in Hmk.
  assert (Hstep : (if get_masked h then '(key, buf) ← byte_mask_circ None (wa ++ more) (length wa) pk;
         mret (buf, payload_state_at (wa ++ wb) o key v tt) else mret (wa ++ more, payload_state_at (wa ++ wb) o pk v tt)) = Ok (a ++ more, payload_state_at (wa ++ wb) o pk1 v tt)).
  { rewrite Hmk. destruct (m_server r); [|by injection Ea as <- <-]. rewrite byte_mask_circ_prefix by (done || (rewrite length_app; lia) || by apply Forall_app).
    by rewrite take_app_length, drop_app_length, Ea. }
  unfold process_payload_bytes, current. cbn [m_current_msg payload_state_at mbind res_bind m_basic_header meta_of m_data_msg prepared_key msg_ptr utf8].
  match goal with |- context [if get_masked h then ?x else ?y] => replace (if get_masked h then x else y) with (Ok (a ++ more, payload_state_at (wa ++ wb) o pk1 v tt)) by (symmetry; exact Hstep) end.
  cbn [mbind res_bind payload_state_at meta_of m_data_msg deref msg_ptr m_payload m_permessage_deflate m_compressed]. rewrite load_range_ok by (rewrite length_app; lia).
  rewrite drop_0, <- Hul, take_app_length. cbn [mbind res_bind]. change (is_enabled _) with (Enabled.m_enabled d). rewrite (rc_enabled rc). cbn [andb].
  assert (Hlen : short a ∧ (length oa < fuel)%nat).
  { unfold short in *. rewrite length_app in Hsh. pose proof (rc_fuel rc) as Hx. rewrite <- Hm, !length_app in Hx. lia. }
  rewrite (decompress_piece a o tt ta oa) by (done || apply Hlen). proc_simpl. cbn [set_payload m_opcode]. rewrite drop_app_length.
  assert (Htext : ∀ s0 : hybi13, (if op =? opcode.text then '(ok, v0) ← decode oa v; mret (ok, set_meta Data (mkMeta (Some (mkMessage [] [] (o ++ oa) op false true false true)) pk1 v0) s0)
     else mret (true, set_meta Data (mkMeta (Some (mkMessage [] [] (o ++ oa) op false true false true)) pk1 v) s0)) =
     Ok (true, set_meta Data (mkMeta (Some (mkMessage [] [] (o ++ oa) op false true false true)) pk1 v1) s0)).
  { intros s0. unfold check_text in Hc1. destruct (op =? opcode.text); [|by injection Hc1 as ->]. destruct (decode oa v) as [[ok v0]|]; [|done]. by injection Hc1 as -> ->. }
  specialize (Htext (set_deflate (with_istream ta d) (payload_state_at (wa ++ wb) o pk1 v tt))). etransitivity; [apply (f_equal (λ x, x ≫= _)), Htext|].
  cbn [mbind res_bind mret res_ret]. rewrite length_app in Hle. pose proof size_range as (Hsz & _). unfold size in Hsz.
  assert (size_t (Z.of_nat (length (wa ++ wb)) - Z.of_nat (length a)) = Z.of_nat (length wb)) as Hn by (rewrite size_t_id, length_app; rewrite ?length_app; lia).
  cbn [m_bytes_needed set_meta set_deflate payload_state_at]. rewrite Hn. done.
Qed.

(** The end of the frame. *)
Definition finished (s : hybi13) : Prop := ∃ pk, s = set_state READY (payload_state_at [] m pk v_end t2).
Lemma payload_end s : in_payload [] s → ∃ s', field_done s = Ok (None, s') ∧ finished s'.
Proof.
  intros (pk & tt & o & o' & v & -> & _ & _ & _ & Hidle & Hinf & Hm & _ & Hct).
  assert ((unmask (m_server r) pk []).2 = []) as Hu by (unfold unmask; by destruct (m_server r)). rewrite Hu, Hidle in Hinf. injection Hinf as -> <-. rewrite app_nil_r in Hm. subst o.
  assert (v = v_end) as -> by (unfold check_text in Hct; destruct (op =? opcode.text); [by injection Hct|by injection Hct]).
  destruct (compressed_header_fields op size (m_server r) op_range ltac:(apply size_range)) as (_ & _ & Ho & Hf & _). fold h in Ho, Hf.
  eexists. split; [|by exists pk]. unfold field_done. cbn [m_state payload_state_at m_basic_header]. rewrite Hf.
  unfold finalize_message, current, deref. cbn [m_current_msg payload_state_at mbind res_bind meta_of m_data_msg msg_ptr m_permessage_deflate m_compressed m_payload].
  change (is_enabled _) with (Enabled.m_enabled d). rewrite (rc_enabled rc). cbn [andb].
  rewrite (decompress_piece [0; 0; 255; 255] m t1 t2 []); [|done|apply (rc_trailer rc)|pose proof (rc_fuel rc); cbn [length]; lia].
  rewrite app_nil_r. proc_simpl. cbn [m_basic_header set_deflate set_meta payload_state_at]. rewrite Ho.
  assert ((op =? opcode.text) && negb (complete v_end) = false) as ->; [|done].
  unfold opcode.text. destruct (op =? 1) eqn:E; [|done]. by rewrite (rc_complete rc) by lia.
Qed.

(** ** One turn of [consume]

    [agree l w]: the bytes at hand and the rest of the frame are the same as far as both go. *)
Definition agree (l w : list Z) : Prop := take (length w) l = take (length l) w.
Lemma agree_take l w n : agree l w → (n ≤ length l)%nat → (n ≤ length w)%nat → take n l = take n w.
Proof.
  intros E Hl Hw. apply (f_equal (take n)) in E. rewrite !take_take in E. by rewrite !Nat.min_l in E by lia.
Qed.
Lemma agree_drop l w n : agree l w → agree (drop n l) (drop n w).
Proof.
  unfold agree. intros E. rewrite !length_drop. apply (f_equal (drop n)) in E. by rewrite !skipn_firstn_comm in E.
Qed.
Definition wp : list Z := masked_payload (m_server r) key p.
Definition header_read : hybi13 := set_needed (Z.of_nat (length eb)) (set_cursor 0 (set_state HEADER_EXTENDED (with_basic h r))).
Definition in_extended (wr : list Z) (s : hybi13) : Prop := ∃ a b, eb = a ++ b ∧ s = put_ext a header_read ∧ wr = b ++ wp.
Definition in_basic (wr : list Z) (s : hybi13) : Prop := ∃ a b, [b0 h; b1 h] = a ++ b ∧ b ≠ [] ∧ s = put_basic a r ∧ wr = b ++ eb ++ wp.
Definition receiving (phase : nat) : list Z → hybi13 → Prop :=
  match phase with O => in_payload | 1%nat => in_extended | _ => in_basic end.
(** A turn goes on in the frame, to a later phase or to the end of the bytes, or finishes it. *)
Definition stepped (phase p0 : nat) (buf wr : list Z) (s : hybi13) : Prop := ∃ n buf' s',
  consume_step p0 buf s = Ok ((p0 + n)%nat, buf', None, s') ∧ (p0 + n ≤ length buf)%nat ∧ (n ≤ length wr)%nat ∧
  length buf' = length buf ∧ bytes_ok buf' ∧ drop (p0 + n) buf' = drop (p0 + n) buf ∧
  (n = length wr ∧ finished s' ∨
   ∃ phase', receiving phase' (drop n wr) s' ∧ ((phase' < phase)%nat ∨ phase' = phase ∧ (p0 + n)%nat = length buf ∧ m_bytes_needed s' ≠ 0)).

Lemma stepped_payload p0 buf wr s : in_payload wr s → bytes_ok buf → short buf → (p0 ≤ length buf)%nat → agree (drop p0 buf) wr →
  (p0 < length buf)%nat ∨ m_bytes_needed s = 0 → stepped 0 p0 buf wr s.
Proof.
  intros Hin Hb Hsh Hp Hag Hgo. set (l := drop p0 buf) in *. assert (Hl : length l = (length buf - p0)%nat) by apply length_drop.
  set (n := Nat.min (length wr) (length l)). pose proof (agree_take l wr n Hag ltac:(lia) ltac:(lia)) as Htk.
  assert (Hs : m_state s = APPLICATION ∧ m_bytes_needed s = Z.of_nat (length wr) ∧ m_basic_header s = h) by (by destruct Hin as (? & ? & ? & ? & ? & -> & _)).
  destruct Hs as (Hs1 & Hs2 & Hs3). unfold stepped, consume_step. rewrite Hs1. unfold consume_application. rewrite Hs2.
  replace (Z.to_nat (Z.min _ _)) with n by lia. fold l.
  assert (Hread : ∃ tail s1, (if (0 <? n)%nat then '(n, tail, ec, s) ← process_payload_bytes l n s; mret ((p0 + n)%nat, take p0 buf ++ tail, ec, s) else mret (p0, buf, None, s))
    = Ok ((p0 + n)%nat, take p0 buf ++ tail ++ drop n l, None, s1) ∧ length tail = n ∧ bytes_ok tail ∧ in_payload (drop n wr) s1).
  { destruct (decide (n = 0%nat)) as [Hn|Hn].
    - exists [], s. rewrite Hn, !drop_0. cbn. unfold l. rewrite take_drop, Nat.add_0_r. split_and!; [done|done|by apply Forall_nil|done].
    - rewrite (proj2 (Nat.ltb_lt 0 n)) by lia. rewrite <- (take_drop n wr) in Hin.
      replace (process_payload_bytes l n s) with (process_payload_bytes (take n wr ++ drop n l) n s) by (by rewrite <- Htk, take_drop).
      assert (Hln : length (take n wr) = n) by (rewrite length_take; lia).
      destruct (payload_read (take n wr) (drop n wr) (drop n l) s Hin) as (tail & s1 & E & Ht & Htb & Hin1).
      + by apply Forall_drop, Forall_drop.
      + unfold short in *. rewrite <- Htk, take_drop. lia.
      + rewrite Hln in E, Ht. rewrite E. cbn. by exists tail, s1. }
  destruct Hread as (tail & s1 & -> & Ht & Htb & Hin1). cbn [mbind res_bind].
  assert (Hs : m_state s1 = APPLICATION ∧ m_bytes_needed s1 = Z.of_nat (length (drop n wr)) ∧ m_basic_header s1 = h) by (by destruct Hin1 as (? & ? & ? & ? & ? & -> & _)).
  destruct Hs as (Hs1' & Hs2' & Hs3'). set (buf' := take p0 buf ++ tail ++ drop n l).
  assert (Hb' : length buf' = length buf ∧ bytes_ok buf' ∧ drop (p0 + n) buf' = drop (p0 + n) buf).
  { unfold buf'. split_and!.
    - rewrite !length_app, length_drop, length_take. lia.
    - repeat (apply Forall_app; split); [by apply Forall_take|done|by apply Forall_drop, Forall_drop].
    - rewrite app_assoc, drop_app_length' by (rewrite length_app, length_take; lia). unfold l. by rewrite drop_drop. }
  rewrite length_drop in Hs2'. rewrite Hs2'. destruct (0 <? Z.of_nat (length wr - n)) eqn:Ez.
  - apply Z.ltb_lt in Ez. exists n, buf', s1. split_and!; try done; try apply Hb'; try lia. right. exists 0%nat. split; [done|]. right. split_and!; [done|lia|lia].
  - apply Z.ltb_ge in Ez. assert (n = length wr) as Hn by lia. rewrite (drop_ge wr) in Hin1 by lia. destruct (payload_end s1 Hin1) as (s2 & E2 & Hfin).
    unfold field_done in E2. rewrite Hs1' in E2. rewrite Hs3' in *. destruct (get_fin h) eqn:Ef.
    + rewrite E2. exists n, buf', s2. split_and!; try done; try apply Hb'; try lia. by left.
    + injection E2 as <-. destruct Hfin as [? Hx]. by apply (f_equal m_state) in Hx.
Qed.

(** *** The two parts of the header *)
Lemma header_valid : validate_incoming_basic_header r h (m_server r) true = None.
Proof.
  destruct (compressed_header_fields op size (m_server r) op_range ltac:(apply size_range)) as (_ & _ & E1 & E2 & E3 & E4 & E5 & E6 & _). fold h in E1, E2, E3, E4, E5, E6.
  unfold validate_incoming_basic_header. rewrite E1, E2, E3, E4, E5, E6. change (is_enabled (m_permessage_deflate r)) with (Enabled.m_enabled d). rewrite (rc_enabled rc).
  destruct (rc_op rc) as [-> | ->]; by destruct (m_server r).
Qed.
Lemma with_istream_same : with_istream t d = d.
Proof. pose proof (rc_initialized rc) as Hi. pose proof (rc_stream rc) as Ht. unfold with_istream. generalize dependent d. intros [] ? ?. cbn in *. by subst. Qed.
Lemma payload_starts : ∃ s, start_payload (set_needed size (set_state APPLICATION (put_ext eb header_read))) = Ok (None, s) ∧ in_payload wp s.
Proof.
  destruct (compressed_header_fields op size (m_server r) op_range ltac:(apply size_range)) as (_ & _ & E1 & _ & _ & E4 & _). fold h in E1, E4.
  destruct (rc_at rc) as (Hok & _ & _). destruct (ext_of_facts r op size true key Hok ltac:(apply size_range)) as (_ & _ & _ & _ & Hgk).
  pose proof size_range as (Hsz & _ & Hmx). destruct (unmask_frame (m_server r) key p (rc_key rc) (rc_p rc)) as (pk & Hun & Hper). fold wp in Hun. unfold wp, masked_payload in *.
  set (kc := host_bytes 4 (if m_server r then key else 0)) in *. pose proof (masked_length (m_server r) key p) as Hlen.
  exists (payload_state_at wp [] (prepare_masking_key kc) new_validator t). split.
  - change (set_needed size _) with (payload_state h (ext_of r size key) (length eb) size r). unfold start_payload, payload_state. proc_simpl. change (get_masking_key h (ext_of r size key) = Ok kc) in Hgk. rewrite Hgk. cbn [mbind res_bind]. rewrite E1.
    assert (opcode.is_control op = false) as -> by (unfold opcode.is_control; destruct (rc_op rc); lia).
    rewrite (rc_new rc),  (proj2 (Z.ltb_ge _ _)) by apply (rc_size rc).
    rewrite new_message_ok by done. cbn [mbind res_bind mret res_ret]. change (is_enabled (m_permessage_deflate r)) with (Enabled.m_enabled d). rewrite (rc_enabled rc), E4.
    unfold payload_state_at. rewrite with_istream_same. unfold wp, masked_payload. rewrite Hlen. done.
  - exists (prepare_masking_key kc), t, [], m, new_validator. unfold wp, masked_payload. rewrite Hun, Hlen. split_and!; try done.
    + destruct (m_server r); [apply mask_spec_ok; [apply host_bytes_ok|apply (rc_p rc)]|apply (rc_p rc)].
    + eexists kc, 0%nat. split_and!; [apply host_bytes_length|apply host_bytes_ok|apply prepare_key_at; [apply host_bytes_length|apply host_bytes_ok]].
    + apply (rc_idle rc).
    + apply (rc_inflated rc).
    + apply (rc_text rc).
Qed.

Lemma put_ext_needed a b : eb = a ++ b → m_bytes_needed (put_ext a header_read) = Z.of_nat (length b).
Proof. intros E. cbn. rewrite E, length_app. lia. Qed.
Lemma eb_length : (length eb ≤ 12)%nat ∧ length (m_extended_header r) = 12%nat.
Proof. destruct (rc_at rc) as (Hok & _ & _). destruct (ext_of_facts r op size true key Hok ltac:(apply size_range)) as (Hl & _). split; [exact Hl|apply Hok]. Qed.

Lemma stepped_extended p0 buf wr s : in_extended wr s → bytes_ok buf → (p0 ≤ length buf)%nat → agree (drop p0 buf) wr → stepped 1 p0 buf wr s.
Proof.
  intros (a & b & Eeb & -> & ->) Hb Hp Hag. set (l := drop p0 buf) in *. assert (Hl : length l = (length buf - p0)%nat) by apply length_drop.
  set (n := Nat.min (length b) (length l)). pose proof eb_length as [Hel Her]. pose proof (f_equal length Eeb) as Hlen. rewrite length_app in Hlen.
  assert (Htk : take n l = take n b). { rewrite (agree_take l (b ++ wp) n Hag) by (rewrite ?length_app; lia). by rewrite take_app_le by lia. }
  unfold stepped, consume_step. change (m_state (put_ext a header_read)) with HEADER_EXTENDED. cbv iota. unfold consume_header_extended. fold l.
  pose proof (copy_ext_absorbs l (put_ext a header_read)) as Hc. rewrite (put_ext_needed a b Eeb) in Hc. cbv zeta in Hc.
  assert (length (m_extended_header (put_ext a header_read)) = 12%nat ∧ m_cursor (put_ext a header_read) = length a) as [He Hcu] by (split; [rewrite <- Her; apply (splice_length _ 0 a); cbn -[length eb]; lia|done]).
  rewrite Hc by (rewrite ?He, ?Hcu; lia). clear Hc.
  rewrite Nat2Z.id. fold n. cbn [mbind res_bind]. rewrite Htk, <- put_ext_app by (cbn; rewrite length_app, length_take; lia).
  assert (Eb2 : eb = (a ++ take n b) ++ drop n b) by (by rewrite <- app_assoc, take_drop). rewrite (put_ext_needed _ _ Eb2), length_drop.
  exists n. rewrite length_app. destruct (0 <? _) eqn:Ez; [apply Z.ltb_lt in Ez|apply Z.ltb_ge in Ez].
  - exists buf, (put_ext (a ++ take n b) header_read). split_and!; try done; try lia. right. exists 1%nat. split.
    + exists (a ++ take n b), (drop n b). by rewrite drop_app_le by lia.
    + right. rewrite (put_ext_needed _ _ Eb2), length_drop. split_and!; [done|lia|lia].
  - assert (n = length b) as Hn by lia. rewrite Hn, take_ge, <- Eeb by lia. destruct payload_starts as (s1 & E1 & Hin).
    destruct (rc_at rc) as (Hok & _ & _). pose proof size_range as (Hsz & Hsz64 & _). destruct (ext_of_facts r op size true key Hok Hsz64) as (_ & _ & _ & Hgp & _).
    change (m_basic_header (put_ext eb header_read)) with h. change (m_extended_header (put_ext eb header_read)) with (ext_of r size key).
    pose proof (minimal_encoding op size true (m_server r) _ op_range Hsz64 Hsz Hgp) as Hv.
    change (validate_incoming_extended_header h (ext_of r size key) = Ok None) in Hv. change (get_payload_size h (ext_of r size key) = Ok size) in Hgp.
    rewrite Hv. cbn [mbind res_bind]. rewrite Hgp. cbn [mbind res_bind]. rewrite size_t_id, E1 by done. cbn [mbind res_bind mret res_ret].
    exists buf, s1. split_and!; try done; try lia. right. exists 0%nat. rewrite drop_app_length. split; [done|left; lia].
Qed.

Lemma stepped_basic p0 buf wr s : in_basic wr s → bytes_ok buf → (p0 < length buf)%nat → agree (drop p0 buf) wr → stepped 2 p0 buf wr s.
Proof.
  intros (a & b & Ehd & Hne & -> & ->) Hb Hp Hag. set (l := drop p0 buf) in *. assert (Hl : length l = (length buf - p0)%nat) by apply length_drop.
  set (n := Nat.min (length b) (length l)). destruct (rc_at rc) as (Hok & Hs & Hn2).
  assert (Htk : take n l = take n b). { rewrite (agree_take l (b ++ eb ++ wp) n Hag) by (rewrite ?length_app; lia). by rewrite take_app_le by lia. }
  destruct (compressed_header_fields op size (m_server r) op_range ltac:(apply size_range)) as (Hb0 & Hb1 & _). fold h in Hb0, Hb1.
  assert (Hput : ∀ x y, [b0 h; b1 h] = x ++ y → m_state (put_basic x r) = HEADER_BASIC ∧ m_bytes_needed (put_basic x r) = Z.of_nat (length y)).
  { intros x y E. pose proof (f_equal length E) as El. rewrite length_app in El. cbn [length] in El.
    destruct (put_basic_ok x r Hok Hs) as (_ & -> & ->); [|lia|split; [done|lia]]. assert (Hxy : bytes_ok (x ++ y)) by (rewrite <- E; apply Forall_cons_2; [done|apply Forall_cons_2; [done|by apply Forall_nil]]). by apply Forall_app in Hxy as [? _]. }
  destruct (Hput a b Ehd) as [Hsa Hna]. unfold stepped, consume_step. rewrite Hsa. unfold consume_header_basic. fold l.
  pose proof (f_equal length Ehd) as El. rewrite length_app in El. cbn [length] in El.
  pose proof (copy_basic_absorbs l (put_basic a r)) as Hc. rewrite Hna in Hc. cbv zeta in Hc. rewrite Hc by lia. clear Hc. rewrite Nat2Z.id. fold n. cbn [mbind res_bind]. rewrite Htk, <- put_basic_app.
  assert (Eb2 : [b0 h; b1 h] = (a ++ take n b) ++ drop n b) by (by rewrite <- app_assoc, take_drop). destruct (Hput _ _ Eb2) as [Hs2 Hn']. rewrite Hn', length_drop.
  exists n. rewrite length_app. destruct (0 <? _) eqn:Ez; [apply Z.ltb_lt in Ez|apply Z.ltb_ge in Ez].
  - exists buf, (put_basic (a ++ take n b) r). split_and!; try done; try lia. right. exists 2%nat. split.
    + exists (a ++ take n b), (drop n b). rewrite drop_app_le by lia. split_and!; try done. intros E. apply (f_equal length) in E. rewrite length_drop in E. cbn [length] in E. lia.
    + right. rewrite Hn', length_drop. split_and!; [done|lia|lia].
  - assert (n = length b) as Hn by lia. rewrite Hn, (take_ge b), <- Ehd, put_basic_pair by (done || lia). assert (mkBasic (b0 h) (b1 h) = h) as -> by (by destruct h).
    change (m_data_msg (with_basic h r)) with (m_data_msg r). rewrite (rc_new rc). change (m_basic_header (with_basic h r)) with h.
    change (validate_incoming_basic_header (with_basic h r) h (m_server (with_basic h r)) true) with (validate_incoming_basic_header r h (m_server r) true). rewrite header_valid.
    pose proof size_t_256. pose proof eb_length as [Hel _]. unfold h at 1, compressed_header. rewrite (header_len_spec _ _ _ _ _ _ _ key) by apply size_range. fold eb.
    unfold BASIC_HEADER_LENGTH. replace (2 + Z.of_nat (length eb) - 2) with (Z.of_nat (length eb)) by lia. rewrite size_t_id by lia.
    exists buf, header_read. split_and!; try done; try lia. right. exists 1%nat. rewrite drop_app_length. split; [|left; lia]. exists [], eb. split_and!; try done.
    unfold put_ext, set_read, splice. cbn. by rewrite take_0, drop_0, Z.sub_0_r.
Qed.

(** ** The loop, to the end of the frame or of the bytes *)
Lemma receiving_loop phase wr s p0 buf : receiving phase wr s → loop_condition p0 buf s = (p0 <? length buf)%nat || (m_bytes_needed s =? 0).
Proof.
  intros Hr. assert (m_state s ≠ READY ∧ m_state s ≠ FATAL_ERROR) as [Hn1 Hn2].
  { destruct phase as [|[|phase]]; [by destruct Hr as (? & ? & ? & ? & ? & -> & _)|by destruct Hr as (? & ? & _ & -> & _)|].
    destruct Hr as (a & b & E & Hne & -> & _). destruct (rc_at rc) as (Hok & Hs & Hn2).
    assert (m_state (put_basic a r) = HEADER_BASIC) as ->; [|done]. clear -Hs. revert Hs. generalize r. induction a as [|x a IH]; intros s Hs; [done|]. apply IH. unfold put_basic_byte. by case_match. }
  unfold loop_condition. by rewrite !bool_decide_eq_false_2.
Qed.
Lemma receiving_basic_needs wr s : in_basic wr s → m_bytes_needed s ≠ 0.
Proof.
  intros (a & b & E & Hne & -> & _). destruct (rc_at rc) as (Hok & Hs & Hn2). pose proof (f_equal length E) as El. rewrite length_app in El. cbn [length] in El.
  destruct (compressed_header_fields op size (m_server r) op_range ltac:(apply size_range)) as (Hb0 & Hb1 & _). fold h in Hb0, Hb1.
  assert (Hxy : bytes_ok (a ++ b)) by (rewrite <- E; apply Forall_cons_2; [done|apply Forall_cons_2; [done|by apply Forall_nil]]). apply Forall_app in Hxy as [Ha _].
  destruct (put_basic_ok a r Hok Hs Ha) as (_ & _ & ->); [lia|]. destruct b; [done|]. cbn [length] in El. lia.
Qed.
Lemma stepped_any phase p0 buf wr s : receiving phase wr s → (phase ≤ 2)%nat → bytes_ok buf → short buf → (p0 ≤ length buf)%nat → agree (drop p0 buf) wr →
  loop_condition p0 buf s = true → stepped phase p0 buf wr s.
Proof.
  intros Hr Hph Hb Hsh Hp Hag Hgo. rewrite (receiving_loop phase wr) in Hgo by done. apply orb_true_iff in Hgo. rewrite Nat.ltb_lt, Z.eqb_eq in Hgo.
  destruct phase as [|[|[|phase]]]; [by apply stepped_payload|by apply stepped_extended| |lia].
  apply stepped_basic; try done. destruct Hgo as [?|Hz]; [done|]. by apply receiving_basic_needs in Hr.
Qed.
Definition frame_read (p0 : nat) (buf wr : list Z) (result : res step_result) : Prop := ∃ n buf' s', result = Ok ((p0 + n)%nat, buf', None, s') ∧
  (p0 + n ≤ length buf)%nat ∧ (n ≤ length wr)%nat ∧ length buf' = length buf ∧ bytes_ok buf' ∧ drop (p0 + n) buf' = drop (p0 + n) buf ∧
  (n = length wr ∧ finished s' ∨ ∃ phase', (phase' ≤ 2)%nat ∧ receiving phase' (drop n wr) s' ∧ (p0 + n)%nat = length buf ∧ m_bytes_needed s' ≠ 0).
Lemma consume_loop_frame calls phase p0 buf wr s : receiving phase wr s → (phase ≤ 2)%nat → (phase + 2 ≤ calls)%nat → bytes_ok buf → short buf → (p0 ≤ length buf)%nat →
  agree (drop p0 buf) wr → frame_read p0 buf wr (consume_loop calls p0 buf s).
Proof.
  revert phase p0 buf wr s. induction calls as [|calls IH]; intros phase p0 buf wr s Hr Hph Hc Hb Hsh Hp Hag; [lia|]. cbn [consume_loop].
  destruct (loop_condition p0 buf s) eqn:Hgo.
  2: { rewrite (receiving_loop phase wr) in Hgo by done. apply orb_false_iff in Hgo as [Hl Hz]. apply Nat.ltb_ge in Hl. apply Z.eqb_neq in Hz.
    exists 0%nat, buf, s. rewrite Nat.add_0_r, drop_0. split_and!; try done; [lia|]. right. exists phase. split_and!; try done. lia. }
  destruct (stepped_any phase p0 buf wr s) as (n & buf' & s' & E & Hn & Hnw & Hl & Hb' & Hd & Hcase); [done..|]. rewrite E. cbn [mbind res_bind].
  destruct Hcase as [[-> Hfin]|(phase' & Hr' & Hmore)].
  { destruct calls as [|calls]; [lia|]. cbn [consume_loop]. assert (loop_condition (p0 + length wr) buf' s' = false) as -> by (destruct Hfin as [? ->]; done).
    exists (length wr), buf', s'. split_and!; try done. by left. }
  destruct Hmore as [Hlt|(-> & Hend & Hz)].
  - destruct (IH phase' (p0 + n)%nat buf' (drop n wr) s') as (n2 & buf2 & s2 & E2 & Hn2 & Hnw2 & Hl2 & Hb2 & Hd2 & Hcase); [done|lia|lia|done|unfold short in *; lia|lia| |].
    { rewrite Hd, <- drop_drop. by apply agree_drop. }
    rewrite length_drop in Hnw2, Hcase. rewrite E2. exists (n + n2)%nat, buf2, s2. rewrite Nat.add_assoc. split_and!; try done; try lia.
    + by rewrite Hd2, <- !(drop_drop _ n2 (p0 + n)), Hd.
    + destruct Hcase as [[Hx Hfin]|(phase2 & Hph2 & Hr2 & Hend & Hz)]; [left; split; [lia|done]|right]. exists phase2. rewrite <- drop_drop. split_and!; try done. lia.
  - destruct calls as [|calls]; [lia|]. cbn [consume_loop]. assert (loop_condition (p0 + n) buf' s' = false) as ->.
    { rewrite (receiving_loop phase (drop n wr)) by done. apply orb_false_iff. rewrite Nat.ltb_ge, Z.eqb_neq. split; [lia|done]. }
    exists n, buf', s'. split_and!; try done. right. by exists phase.
Qed.

(** The message is taken out, and the next frame may come. *)
Lemma message_delivered s : finished s → ∃ s', get_message s = Ok (Some (mkMessage [] [] m op false true false true), s') ∧ between (m_server r) (m_max_message_size r) (with_istream t2 d) s'.
Proof.
  intros [pk ->]. unfold get_message, current, deref. change (ready _) with true. cbn [negb].
  cbn [m_current_msg set_state payload_state_at mbind res_bind meta_of m_data_msg msg_ptr m_opcode].
  assert (opcode.is_control op = false) as -> by (unfold opcode.is_control; destruct (rc_op rc); lia).
  eexists. split; [done|]. destruct (rc_at rc) as (Hok & _ & _). destruct Hok as [? ? ? ? ? ? ? _].
  split; [|done]. split; [|done]. split; try done; by apply Forall_replicate.
Qed.
Lemma receiving_rest phase wr s : receiving phase wr s → m_bytes_needed s ≠ 0 → wr ≠ [].
Proof.
  destruct phase as [|[|phase]].
  - by intros (? & ? & ? & ? & ? & -> & _) Hn ->.
  - intros (a & b & E & -> & ->) Hn. rewrite (put_ext_needed _ _ E) in Hn. by destruct b.
  - intros (a & b & _ & Hne & _ & ->) _. by destruct b.
Qed.
Lemma frame_starts : receiving 2 (compressed_frame op (m_server r) key p) r ∧ m_bytes_needed r ≠ 0.
Proof. destruct (rc_at rc) as (_ & _ & ->). split; [|done]. by exists [], [b0 h; b1 h]. Qed.
End Receiver.

(** ** The bytes of several messages *)
Inductive incoming (server : bool) (max : Z) (e_end : Enabled.enabled) : Enabled.enabled → list Z → list (Z * list Z) → Prop :=
  | incoming_end : incoming server max e_end e_end [] []
  | incoming_frame e op key p m t t1 t2 v w ms : (∀ r, between server max e r → receives r op key p m t t1 t2 v) →
      incoming server max e_end (with_istream t2 e) w ms → incoming server max e_end e (compressed_frame op server key p ++ w) ((op, m) :: ms).
(** A receiver that waits for the bytes [w], which hold the rest of the messages [ms]. *)
Inductive waits (server : bool) (max : Z) (e_end : Enabled.enabled) : list Z → list (Z * list Z) → hybi13 → Prop :=
  | waits_between e w ms s : between server max e s → incoming server max e_end e w ms → waits server max e_end w ms s
  | waits_frame r op key p m t t1 t2 v phase wr w ms s : receives r op key p m t t1 t2 v → m_server r = server → m_max_message_size r = max →
      receiving r op key p m t1 v phase wr s → (phase ≤ 2)%nat → m_bytes_needed s ≠ 0 →
      incoming server max e_end (with_istream t2 (m_permessage_deflate r)) w ms → waits server max e_end (wr ++ w) ((op, m) :: ms) s.
Lemma agree_app l w x y : l ++ x = w ++ y → agree l w.
Proof.
  intros E. unfold agree. destruct (decide (length w ≤ length l)%nat).
  - apply (f_equal (take (length w))) in E. rewrite take_app_le, take_app_length in E by done. rewrite E. by rewrite take_ge by lia.
  - apply (f_equal (take (length l))) in E. rewrite take_app_length, take_app_le in E by lia. rewrite <- E. by rewrite take_ge by lia.
Qed.
(** One call of [consume]: the bytes end, or a message comes out. *)
Lemma consume_waits server max e_end chunk rest ms s : waits server max e_end (chunk ++ rest) ms s → chunk ≠ [] → bytes_ok chunk → short chunk →
  ∃ p buf s1, consume chunk s = Ok (p, buf, None, s1) ∧
  (drop p buf = [] ∧ ready s1 = false ∧ waits server max e_end rest ms s1 ∨
   ready s1 = true ∧ (0 < p)%nat ∧ drop p buf = drop p chunk ∧ ∃ msg s2 ms', get_message s1 = Ok (Some msg, s2) ∧ ms = summary msg :: ms' ∧ waits server max e_end (drop p chunk ++ rest) ms' s2).
Proof.
  intros Hw Hne Hb Hsh.
  assert (Hfr : ∃ r op key p m t t1 t2 v phase wr w ms', receives r op key p m t t1 t2 v ∧ m_server r = server ∧ m_max_message_size r = max ∧
    receiving r op key p m t1 v phase wr s ∧ (phase ≤ 2)%nat ∧ m_bytes_needed s ≠ 0 ∧
    incoming server max e_end (with_istream t2 (m_permessage_deflate r)) w ms' ∧ chunk ++ rest = wr ++ w ∧ ms = (op, m) :: ms').
  { inversion Hw as [e w0 ms0 s0 Hbt Hin|r op key p m t t1 t2 v phase wr w ms0 s0 Hrc Hsv Hmx Hr Hph Hn Hin]; subst.
    - inversion Hin as [|e0 op key p m t t1 t2 v w ms0 Hrc Hin']; subst; [by destruct chunk|]. specialize (Hrc s Hbt).
      destruct Hbt as (Hat & Hnew & <- & <- & <-). destruct (frame_starts s op key p m t t1 t2 v Hrc) as [Hst Hn].
      eexists s, op, key, p, m, t, t1, t2, v, 2%nat, _, w, ms0. by split_and!.
    - by exists r, op, key, p, m, t, t1, t2, v, phase, wr, w, ms0. }
  destruct Hfr as (r & op & key & p & m & t & t1 & t2 & v & phase & wr & w & ms' & Hrc & Hsv & Hmx & Hr & Hph & Hn & Hin & E & ->).
  pose proof (receiving_rest _ _ _ _ _ _ _ _ _ _ Hr Hn) as Hwr. unfold consume.
  destruct (consume_loop_frame r op key p m t t1 t2 v Hrc (consume_fuel chunk) phase 0 chunk wr s) as (n & buf & s1 & E1 & Hnl & Hnw & Hlb & Hbb & Hd & Hcase);
    [done|done|unfold consume_fuel; lia|done|done|lia|by eapply agree_app|]. rewrite Nat.add_0_l in *. exists n, buf, s1. split; [done|].
  apply (f_equal (drop n)) in E. rewrite (drop_app_le chunk), (drop_app_le wr) in E by lia.
  destruct Hcase as [[-> Hfin]|(phase' & Hph' & Hr' & Hend & Hn')]; [right|left].
  - destruct (message_delivered r op key p m t t1 t2 v Hrc s1 Hfin) as (s2 & Hg & Hbt). split; [by destruct Hfin as [? ->]|].
    split; [by destruct wr; cbn; [|lia]|]. split; [done|]. eexists _, s2, ms'. split; [exact Hg|]. split; [done|].
    rewrite (drop_ge wr) in E by lia. rewrite E. eapply waits_between; [rewrite <- Hsv, <- Hmx; exact Hbt|exact Hin].
  - rewrite (drop_ge buf) by lia. rewrite (drop_ge chunk) in E by lia. cbn [app] in E. split; [done|]. split.
    + pose proof (receiving_loop r op key p m t t1 t2 v Hrc phase' (drop n wr) s1 0 [0] Hr') as Hx. unfold loop_condition in Hx. unfold ready. by destruct (bool_decide (m_state s1 = READY)).
    + rewrite E. by eapply waits_frame.
Qed.
Lemma read_loop_waits server max e_end calls chunk rest ms s : waits server max e_end (chunk ++ rest) ms s → (length chunk < calls)%nat → bytes_ok chunk → short chunk →
  ∃ msgs ms' s', read_loop calls chunk s = Ok (msgs, None, s') ∧ ms = (summary <$> msgs) ++ ms' ∧ waits server max e_end rest ms' s'.
Proof.
  revert chunk ms s. induction calls as [|calls IH]; intros chunk ms s Hw Hc Hb Hsh; [lia|]. cbn [read_loop]. case_bool_decide as Hne; [subst chunk; by exists [], ms, s|].
  destruct (consume_waits _ _ _ _ _ _ _ Hw Hne Hb Hsh) as (p & buf & s1 & -> & Hcase). cbn [mbind res_bind]. destruct Hcase as [(Hd & Hr & Hw')|(Hr & Hp & Hd & msg & s2 & ms' & Hg & -> & Hw')]; rewrite Hr, Hd.
  - cbn [mbind res_bind mret res_ret]. destruct calls as [|calls]; [destruct chunk; cbn [length] in Hc; [done|lia]|]. cbn. by exists [], ms, s1.
  - rewrite Hg. cbn [mbind res_bind]. destruct (IH (drop p chunk) ms' s2 Hw') as (msgs & ms2 & s' & -> & -> & Hw2); [|by apply Forall_drop|unfold short in *; rewrite length_drop; lia|].
    + rewrite length_drop. destruct chunk; [done|]. cbn [length] in *. lia.
    + by exists (msg :: msgs), ms2, s'.
Qed.
Lemma read_all_waits server max e_end chunks ms s : waits server max e_end (concat chunks) ms s → Forall bytes_ok chunks → Forall short chunks →
  ∃ msgs ms' s', read_all chunks s = Ok (msgs, None, s') ∧ ms = (summary <$> msgs) ++ ms' ∧ waits server max e_end [] ms' s'.
Proof.
  intros Hw Hb. revert ms s Hw. induction Hb as [|chunk chunks Hbc _ IH]; intros ms s Hw Hsh; [by exists [], ms, s|]. apply Forall_cons in Hsh as [Hc Hsh].
  cbn [concat] in Hw. destruct (read_loop_waits _ _ _ (S (length chunk)) _ _ _ _ Hw) as (msgs & ms1 & s1 & E & -> & Hw1); [lia|done|done|].
  cbn [read_all]. unfold read_bytes. rewrite E. cbn [mbind res_bind]. destruct (IH ms1 s1 Hw1 Hsh) as (msgs2 & ms2 & s2 & -> & -> & Hw2).
  exists (msgs ++ msgs2), ms2, s2. split; [done|]. by rewrite fmap_app, app_assoc.
Qed.
(** When the bytes are over, so are the messages. *)
Lemma waits_over server max e_end ms s : waits server max e_end [] ms s → ms = [] ∧ between server max e_end s.
Proof.
  intros Hw. remember [] as nothing eqn:E in Hw. destruct Hw as [e w ms s Hbt Hin|r op key p m t t1 t2 v phase wr w ms s Hrc _ _ Hr _ Hn _].
  - by inversion Hin; subst.
  - apply app_eq_nil in E as [-> _]. by destruct (receiving_rest _ _ _ _ _ _ _ _ _ _ Hr Hn).
Qed.
End Compressed.

(** ** A conversation *)
Section Conversation.
Context `{Machine} `{Zlib} `{!ZlibLaws}.
(** What an application sends with [connection::send]: whole compressed messages. *)
Record sendable (m : message) : Prop := {
  sd_opcode : m_opcode m = 1 ∨ m_opcode m = 2;
  sd_fin : m_fin m = true;
  sd_compressed : m_compressed m = true;
  sd_bytes : bytes_ok (m_payload m);
  sd_short : short (m_payload m);
  sd_utf8 : m_opcode m = 1 → validate (m_payload m) = Ok true;
}.
(** The compressed bytes [ps] of the messages, and the two extensions before and after;
    [n] bounds the calls of zlib. *)
Inductive exchange (n : nat) (d_end e_end : Enabled.enabled) : Enabled.enabled → Enabled.enabled → list message → list (list Z) → Prop :=
  | exchange_end : coupled_ends d_end e_end → exchange n d_end e_end d_end e_end [] []
  | exchange_message d e m ms p ps d' t t1 t' : (∀ fuel, (n ≤ fuel)%nat → Enabled.compress fuel d (m_payload m) [] = Ok (d', None, p ++ trailer)) →
      (length (m_payload m) < n)%nat → bytes_ok p → coupled_ends d e → Enabled.m_istate e = Some t → inflated t [] = Some (t, []) → inflated t p = Some (t1, m_payload m) →
      inflated t1 trailer = Some (t', []) → Enabled.m_enabled d' = Enabled.m_enabled d →
      exchange n d_end e_end d' (with_istream t' e) ms ps → exchange n d_end e_end d e (m :: ms) (p :: ps).
Lemma exchange_more n n' d_end e_end d e ms ps : (n ≤ n')%nat → exchange n d_end e_end d e ms ps → exchange n' d_end e_end d e ms ps.
Proof.
  intros Hn Hx. induction Hx as [|d e m ms p ps d' t t1 t' Hc Hf]; [by constructor|]. eapply exchange_message; [|lia|done..]. intros fuel Hfuel. apply Hc. lia.
Qed.
Lemma exchange_exists ms d e : coupled_ends d e → Forall sendable ms → ∃ n d_end e_end ps, exchange n d_end e_end d e ms ps.
Proof.
  intros Hc Hms. revert d e Hc. induction Hms as [|m ms Hm _ IH]; intros d e Hc; [by exists 0%nat, d, e, []; constructor|].
  destruct (deflated (m_payload m) d e Hc (sd_short m Hm)) as (n & p & d' & t & t1 & t' & Hn & Hp & Ht & Hi & E1 & E2 & Hc' & Hen).
  destruct (IH _ _ Hc') as (n2 & d_end & e_end & ps & Hx). exists (n + S (length (m_payload m)) + n2)%nat, d_end, e_end, (p :: ps).
  eapply (exchange_message _ _ _ d e m ms p ps d' t t1 t'); try done; [|lia|by apply Hp, sd_bytes|eapply exchange_more; [|exact Hx]; lia]. intros fuel Hfuel. apply Hn. lia.
Qed.
Lemma exchange_coupled n d_end e_end d e ms ps : exchange n d_end e_end d e ms ps → coupled_ends d_end e_end.
Proof. by induction 1. Qed.
Lemma exchange_payloads n d_end e_end d e ms ps : exchange n d_end e_end d e ms ps → ∀ fuel, (n ≤ fuel)%nat → WsDeflate.send_all fuel (m_payload <$> ms) d = Ok (ps, d_end).
Proof.
  intros Hx fuel Hfuel. induction Hx as [|d e m ms p ps d' t t1 t' Hc _ _ _ _ _ _ _ _ _ IH]; [done|]. rewrite fmap_cons. cbn [WsDeflate.send_all]. unfold compressed. rewrite Hc by done. cbn [mbind res_bind mret res_ret].
  rewrite length_app. change (length trailer) with 4%nat. rewrite Nat.add_sub, take_app_length, IH. done.
Qed.

Section Transfer.
Variable fuel : nat.
#[local] Existing Instance deflate_of_fuel.
Variable rng : nat → Z.
Hypothesis rng_range : ∀ n, 0 ≤ rng n < 2 ^ 32.
Lemma text_accepted m : sendable m → ∃ v, check_text (m_opcode m) (m_payload m) new_validator = (true, v) ∧ (m_opcode m = 1 → complete v = true).
Proof.
  intros Hm. unfold check_text, opcode.text. destruct (m_opcode m =? 1) eqn:E; [|exists new_validator; split; [done|lia]].
  pose proof (sd_utf8 m Hm ltac:(lia)) as Hv. unfold validate in Hv. destruct (decode (m_payload m) new_validator) as [[[] v]|]; [|done..]. exists v. by injection Hv.
Qed.
Lemma compressed_frame_ok op mask key p : 0 ≤ op < 16 → bytes_ok p → bytes_ok (compressed_frame op mask key p).
Proof.
  intros Hop Hp. destruct (compressed_header_fields op (Z.of_nat (length p)) mask Hop ltac:(lia)) as (? & ? & _). unfold compressed_frame, masked_payload, ext_bytes.
  repeat apply Forall_cons_2; [done..|]. repeat (apply Forall_app; split).
  - apply Forall_rev, le_bytes_ok.
  - destruct mask; [apply host_bytes_ok|by apply Forall_nil].
  - destruct mask; [apply mask_spec_ok; [apply host_bytes_ok|done]|done].
Qed.
Lemma frame_received n ds e m p t t1 t' v server max key :
  (n ≤ fuel)%nat → sendable m → (length (m_payload m) < n)%nat → bytes_ok p → coupled_ends ds e → Enabled.m_istate e = Some t → inflated t [] = Some (t, []) →
  inflated t p = Some (t1, m_payload m) → inflated t1 trailer = Some (t', []) → Enabled.m_enabled e = true → 0 ≤ key < 2 ^ 32 →
  Z.of_nat (length p) ≤ max → check_text (m_opcode m) (m_payload m) new_validator = (true, v) → (m_opcode m = 1 → complete v = true) →
  ∀ r, between fuel server max e r → receives fuel r (m_opcode m) key p (m_payload m) t t1 t' v.
Proof.
  intros Hn Hm Hl Hp Hc Ht Hi E1 E2 Hen Hk Hmax Hv Hcv r (Hat & Hnew & _ & Hmx & He). destruct Hc as (? & ? & _ & Hin & _ & _ & _ & _ & _ & Hb).
  split; unfold d; rewrite ?He; try done; [apply (sd_opcode m Hm)|apply (sd_bytes m Hm)|unfold size; lia|lia].
Qed.
Lemma conversation_sent n d_end e_end d e ms ps server max (s : @hybi13 (deflate_of_fuel fuel)) :
  exchange n d_end e_end d e ms ps → (n ≤ fuel)%nat → Forall sendable ms → Forall (λ p, Z.of_nat (length p) ≤ max) ps → max ≤ max_size →
  m_server s = negb server → (m_permessage_deflate s : Enabled.enabled) = d → Enabled.m_enabled d = true → Enabled.m_enabled e = true →
  ∃ w s', WsStream.send_all rng (SendData <$> ms) s = Ok (w, s') ∧ bytes_ok w ∧ (m_permessage_deflate s' : Enabled.enabled) = d_end ∧ m_server s' = m_server s ∧
  incoming fuel server max e_end e w (summary <$> ms).
Proof.
  intros Hx Hfuel Hms Hps Hmx. revert s Hms Hps. induction Hx as [|d e m ms p ps d' t t1 t' Hc Hl Hp Hcp Ht Hi E1 E2 Hen Hx IH]; intros s Hms Hps Hsv Hd Hed Hee.
  { exists [], s. split_and!; try done; constructor. }
  apply Forall_cons in Hms as [Hm Hms]. apply Forall_cons in Hps as [Hpl Hps]. destruct (text_accepted m Hm) as (v & Hv & Hcv).
  pose proof max_size_ge. assert (Hp64 : Z.of_nat (length p) < 2 ^ 64) by (destruct size_t_ok as [E|E]; rewrite E in *; lia).
  destruct (prepare_compressed fuel rng m s p d') as (out & Hprep & Hw); try apply Hm; [done|by rewrite Hd|by rewrite Hd; apply Hc|].
  destruct (IH (@set_deflate (deflate_of_fuel fuel) d' (drawn s))) as (w & s' & E & Hwb & Hd' & Hs' & Hin); [done|done| |done|by rewrite Hen|done|].
  { unfold drawn. rewrite <- Hsv. by destruct (m_server s) eqn:?. }
  exists (wire out ++ w), s'. rewrite fmap_cons. cbn [WsStream.send_all prepare]. rewrite Hprep. cbn [mbind res_bind]. rewrite E. split_and!; [done| |done| |].
  - apply Forall_app. split; [|done]. rewrite Hw. apply compressed_frame_ok; [destruct (sd_opcode m Hm); lia|done].
  - rewrite Hs'. unfold drawn. by destruct (m_server s) eqn:?.
  - rewrite Hw, Hsv, negb_involutive. cbn [fmap list_fmap]. unfold summary at 1. eapply incoming_frame; [|exact Hin].
    eapply frame_received; try done. by apply next_key_range.
Qed.
End Transfer.

(** C16: Compressed messages arrive: two ends that have agreed on the extension, one of which sends
    any whole text and binary messages; with any bound on the calls of zlib that is large enough
    the frames carry the bytes [ps], and when these are within the limit of the receiver, then
    however the frames are cut into reads, the receiver gets the messages as they were sent,
    without an error, and both ends can go on with the next ones. *)
Theorem compressed_messages_delivered (rng : nat → Z) ms d e :
  (∀ n, 0 ≤ rng n < 2 ^ 32) → coupled_ends d e → Enabled.m_enabled d = true → Enabled.m_enabled e = true → Forall sendable ms →
  ∃ n ps d' e', coupled_ends d' e' ∧ ∀ fuel, (n ≤ fuel)%nat → WsDeflate.send_all fuel (m_payload <$> ms) d = Ok (ps, d') ∧
  ∀ s r : @hybi13 (permessage_deflate fuel), extension_of s = d → extension_of r = e → m_server s = negb (m_server r) →
  at_frame r → msg_ptr (m_data_msg r) = None → Forall (λ p, Z.of_nat (length p) ≤ m_max_message_size r) ps →
  ∃ w s', WsStream.send_all rng (SendData <$> ms) s = Ok (w, s') ∧ extension_of s' = d' ∧
  ∀ chunks, concat chunks = w → Forall short chunks →
  ∃ msgs r', read_all chunks r = Ok (msgs, None, r') ∧ summary <$> msgs = summary <$> ms ∧ at_frame r' ∧ msg_ptr (m_data_msg r') = None ∧ extension_of r' = e'.
Proof.
  intros Hrng Hc Hd He Hms. destruct (exchange_exists ms d e Hc Hms) as (n & d' & e' & ps & Hx). exists n, ps, d', e'. split; [by eapply exchange_coupled|].
  intros fuel Hfuel. split; [by eapply exchange_payloads|]. intros s r Hs Hr Hsv Hat Hnew Hps.
  destruct (conversation_sent fuel rng Hrng n d' e' d e ms ps (m_server r) (m_max_message_size r) s Hx) as (w & s' & E & Hwb & Hd' & _ & Hin); try done.
  { destruct Hat as [Hok _]. apply (ok_max r Hok). }
  exists w, s'. split_and!; [exact E|exact Hd'|]. intros chunks Hcut Hsh.
  assert (Hb : Forall bytes_ok chunks) by (rewrite <- Hcut in Hwb; by apply Forall_concat in Hwb).
  destruct (read_all_waits fuel (m_server r) (m_max_message_size r) e' chunks (summary <$> ms) r) as (msgs & ms' & r' & Er & Em & Hw); [|done|done|].
  { rewrite Hcut. eapply waits_between; [|exact Hin]. by split_and!. }
  destruct (waits_over fuel _ _ _ _ _ Hw) as (-> & Hat' & Hnew' & _ & _ & He'). rewrite app_nil_r in Em. by exists msgs, r'.
Qed.
End Conversation.

(** A client sends three messages to a server, which reads them byte by byte. *)
Definition sample_extension : @Enabled.enabled store_codec := @Enabled.put_enabled store_codec true sample_end.
Definition sample_messages : list message := [mkMessage [] [] [104; 105] 1 false true false true; mkMessage [] [] [] 2 false true false true; mkMessage [] [] [255; 0] 2 false true false true].
Definition sample_processor (fuel : nat) (server : bool) : @hybi13 (@permessage_deflate store_codec fuel) := @new_hybi13 (@permessage_deflate store_codec fuel) server 1000 sample_extension.
Lemma sample_sendable : Forall sendable sample_messages.
Proof.
  repeat (apply Forall_cons; split); [| | |by apply Forall_nil]; (split; [cbn; tauto|done|done| |done|]); try (by intros [=]); try done;
    repeat (apply Forall_cons; split); unfold byte_ok; by try apply Forall_nil.
Qed.
Lemma sample_coupled : coupled_ends sample_extension sample_extension.
Proof. exists [], (between_marks, []). split_and!; try done. by left. Qed.
Lemma sample_payloads n ps d' : @WsDeflate.send_all store_codec (10 + n) (m_payload <$> sample_messages) sample_extension = Ok (ps, d') → Forall (λ p, Z.of_nat (length p) ≤ 1000) ps.
Proof. intros E. vm_compute in E. injection E as <- _. by repeat (apply Forall_cons; split); try apply Forall_nil. Qed.
Lemma bytes_apart (w : list Z) : concat ((λ b, [b]) <$> w) = w ∧ Forall short ((λ b, [b]) <$> w).
Proof. split; [induction w as [|b w IH]; [done|]; cbn; by rewrite IH|]. apply Forall_fmap, Forall_true. intros b. by unfold short. Qed.
Lemma compressed_messages_delivered_witness : ∃ fuel chunks msgs r',
  @read_all x86_64 (@permessage_deflate store_codec fuel) chunks (sample_processor fuel true) = Ok (msgs, None, r') ∧ summary <$> msgs = [(1, [104; 105]); (2, []); (2, [255; 0])].
Proof.
  destruct (@compressed_messages_delivered x86_64 store_codec store_laws (λ _, 305419896) sample_messages sample_extension sample_extension) as (n & ps & d' & e' & _ & Hn);
    [lia|exact sample_coupled|reflexivity|reflexivity|exact sample_sendable|].
  destruct (Hn (10 + n)%nat ltac:(lia)) as [E H2]. destruct (H2 (sample_processor (10 + n) false) (sample_processor (10 + n) true)) as (w & s' & _ & _ & H3);
    [reflexivity|reflexivity|reflexivity| |reflexivity|exact (sample_payloads n ps d' E)|].
  { split; [|done]. apply (@new_hybi13_ok x86_64 (@permessage_deflate store_codec (10 + n))). split; apply Z.leb_le; reflexivity. }
  destruct (bytes_apart w) as [Hcut Hsh]. destruct (H3 _ Hcut Hsh) as (msgs & r' & Er & Em & _). exists (10 + n)%nat, ((λ b, [b]) <$> w), msgs, r'. exact (conj Er Em).
Defined.
