(* ===== verification/WsIostream.v ===== *)
(** * The stream transport: class [iostream::connection]
    (src/websocketpp-master/websocketpp/transport/iostream/connection.hpp and base.hpp)

    A transport without a network: the program hands it bytes, and it calls the handler of
    the read that waits for them, inside the call.  What a handler does is a parameter
    [call]; it may call the transport again.  The theorem: what one connection writes to a
    stream another one reads from it, whether the bytes come from a stream or in pieces, in
    reads of the sizes it asked for. *)

From S2P Require Import Prelude Bytes StdString WsProcessor.

Open Scope Z_scope.

(** ** Streams of the standard library

    [in_left]: the bytes still to come; behind them the stream ends, or breaks. *)
Record istream := mkIstream { in_left : list Z; in_breaks : bool; eofbit : bool; failbit : bool; badbit : bool }.
Definition new_istream (l : list Z) : istream := mkIstream l false false false false.
Definition in_good (s : istream) : bool := negb (eofbit s || failbit s || badbit s).
(** [read] of at most [n] bytes; [gcount] is the number of the bytes taken. *)
Definition in_read (n : Z) (s : istream) : list Z * istream :=
  if negb (in_good s) then ([], mkIstream (in_left s) (in_breaks s) (eofbit s) true (badbit s))
  else if n <=? Z.of_nat (length (in_left s)) then (take (Z.to_nat n) (in_left s), mkIstream (drop (Z.to_nat n) (in_left s)) (in_breaks s) false false false)
  else (in_left s, if in_breaks s then mkIstream [] true false false true else mkIstream [] false true true false).
(** [out_room]: how many more bytes the stream takes before it breaks, if it does. *)
Record ostream := mkOstream { written : list Z; out_room : option nat; out_bad : bool }.
Definition new_ostream : ostream := mkOstream [] None false.
Definition out_write (l : list Z) (o : ostream) : ostream :=
  if out_bad o then o
  else match out_room o with
       | None => mkOstream (written o ++ l) None false
       | Some n => mkOstream (written o ++ take n l) (Some (n - length l)%nat) (n <? length l)%nat
       end.

Module iostream_error.
Inductive value := general | invalid_num_bytes | double_read | output_stream_required | bad_stream.
#[global] Instance value_eq_dec : EqDecision value.
Proof. solve_decision. Defined.
End iostream_error.
Inductive io_error := stream_ec (e : iostream_error.value) | base_ec (e : transport_error.value) | user_ec (n : Z).

Module Iostream.
Section Iostream.
Context `{Machine}.
Context {app handler : Type}.   (** the rest of the program, and the handlers of its layer above *)
Definition hdl : Type := option nat.

(** ** State

    The fields of the read are not initialised before the first one. *)
Record connection := mkConnection {
  m_buf : list Z;
  m_len : Z;
  m_bytes_needed : Z;
  m_read_handler : option handler;
  m_cursor : Z;
  m_output_stream : option ostream;
  m_connection_hdl : hdl;
  m_write_handler : option (hdl → list Z → app → app * option io_error);
  m_vector_write_handler : option (hdl → list (list Z) → app → app * option io_error);
  m_shutdown_handler : option (hdl → app → app * option io_error);
  m_reading : bool;
  m_is_server : bool;
  m_is_secure : bool;
  m_remote_endpoint : string;
}.
Definition new_connection (server : bool) : connection :=
  mkConnection [] 0 0 None 0 None None None None None false server false "iostream transport".
Definition put_read (buf : list Z) (len needed cursor : Z) (h : option handler) (reading : bool) (c : connection) : connection :=
  mkConnection buf len needed h cursor (m_output_stream c) (m_connection_hdl c) (m_write_handler c) (m_vector_write_handler c) (m_shutdown_handler c)
    reading (m_is_server c) (m_is_secure c) (m_remote_endpoint c).
Definition put_output_stream (o : option ostream) (c : connection) : connection :=
  mkConnection (m_buf c) (m_len c) (m_bytes_needed c) (m_read_handler c) (m_cursor c) o (m_connection_hdl c) (m_write_handler c) (m_vector_write_handler c)
    (m_shutdown_handler c) (m_reading c) (m_is_server c) (m_is_secure c) (m_remote_endpoint c).
Definition put_handlers (d : hdl) (w : option (hdl → list Z → app → app * option io_error)) (v : option (hdl → list (list Z) → app → app * option io_error))
    (s : option (hdl → app → app * option io_error)) (c : connection) : connection :=
  mkConnection (m_buf c) (m_len c) (m_bytes_needed c) (m_read_handler c) (m_cursor c) (m_output_stream c) d w v s
    (m_reading c) (m_is_server c) (m_is_secure c) (m_remote_endpoint c).
Definition put_remote (secure : bool) (endpoint : string) (c : connection) : connection :=
  mkConnection (m_buf c) (m_len c) (m_bytes_needed c) (m_read_handler c) (m_cursor c) (m_output_stream c) (m_connection_hdl c) (m_write_handler c)
    (m_vector_write_handler c) (m_shutdown_handler c) (m_reading c) (m_is_server c) secure endpoint.

Definition register_ostream (o : option ostream) (c : connection) : connection := put_output_stream o c.
Definition set_secure (value : bool) (c : connection) : connection := put_remote value (m_remote_endpoint c) c.
Definition set_remote_endpoint (value : string) (c : connection) : connection := put_remote (m_is_secure c) value c.
Definition set_handle (d : hdl) (c : connection) : connection := put_handlers d (m_write_handler c) (m_vector_write_handler c) (m_shutdown_handler c) c.
Definition set_write_handler h (c : connection) : connection := put_handlers (m_connection_hdl c) h (m_vector_write_handler c) (m_shutdown_handler c) c.
Definition set_vector_write_handler h (c : connection) : connection := put_handlers (m_connection_hdl c) (m_write_handler c) h (m_shutdown_handler c) c.
Definition set_shutdown_handler h (c : connection) : connection := put_handlers (m_connection_hdl c) (m_write_handler c) (m_vector_write_handler c) h c.

(** ** Operations

    [call h ec data w] runs a handler: that of a read finds [data] in its buffer.  The
    operations from the outside hold [m_read_mutex]; the handlers do not call them. *)
Abbreviation world := (connection * app)%type.
Variable call : handler → option io_error → list Z → world → res world.

Definition init (h : handler) (w : world) : res world := call h None [] w.
(** There are no timers: the handle is null. *)
Definition set_timer (duration : Z) (h : handler) : option nat := None.

Definition async_read_at_least (num_bytes : Z) (buf : list Z) (len : Z) (h : handler) (w : world) : res world :=
  let '(c, a) := w in
  if len <? num_bytes then call h (Some (stream_ec iostream_error.invalid_num_bytes)) [] w
  else if m_reading c then call h (Some (stream_ec iostream_error.double_read)) [] w
  else if (num_bytes =? 0) || (len =? 0) then call h None [] w
  else mret (put_read buf len num_bytes 0 (Some h) true c, a).

Definition async_write (buf : list Z) (h : handler) (w : world) : res world :=
  let '(c, a) := w in
  match m_output_stream c, m_write_handler c with
  | Some o, _ =>
      let o := out_write buf o in
      call h (if out_bad o then Some (stream_ec iostream_error.bad_stream) else None) [] (put_output_stream (Some o) c, a)
  | None, Some write => let '(a, ec) := write (m_connection_hdl c) buf a in call h ec [] (c, a)
  | None, None => call h (Some (stream_ec iostream_error.output_stream_required)) [] w
  end.
Fixpoint write_buffers (bufs : list (list Z)) (o : ostream) : ostream * option io_error :=
  match bufs with
  | [] => (o, None)
  | b :: bufs =>
      let o := out_write b o in
      if out_bad o then (o, Some (stream_ec iostream_error.bad_stream)) else write_buffers bufs o
  end.
Fixpoint call_write_handler (write : list Z → app → app * option io_error) (bufs : list (list Z)) (a : app) : app * option io_error :=
  match bufs with
  | [] => (a, None)
  | b :: bufs => let '(a, ec) := write b a in match ec with Some _ => (a, ec) | None => call_write_handler write bufs a end
  end.
Definition async_write_buffers (bufs : list (list Z)) (h : handler) (w : world) : res world :=
  let '(c, a) := w in
  match m_output_stream c, m_vector_write_handler c, m_write_handler c with
  | Some o, _, _ => let '(o, ec) := write_buffers bufs o in call h ec [] (put_output_stream (Some o) c, a)
  | None, Some write, _ => let '(a, ec) := write (m_connection_hdl c) bufs a in call h ec [] (c, a)
  | None, None, Some write => let '(a, ec) := call_write_handler (write (m_connection_hdl c)) bufs a in call h ec [] (c, a)
  | None, None, None => call h (Some (stream_ec iostream_error.output_stream_required)) [] w
  end.
Definition dispatch (h : handler) (w : world) : res (world * option io_error) := w ← call h None [] w; mret (w, None).
Definition async_shutdown (h : handler) (w : world) : res world :=
  let '(c, a) := w in
  let '(a, ec) := match m_shutdown_handler c with Some f => f (m_connection_hdl c) a | None => (a, None) end in
  call h ec [] (c, a).

(** ** Input *)
Definition complete_read (ec : option io_error) (w : world) : res world :=
  let '(c, a) := w in
  match m_read_handler c with
  | None => Err StdException
  | Some h => call h ec (take (Z.to_nat (m_cursor c)) (m_buf c)) (put_read (m_buf c) (m_len c) (m_bytes_needed c) (m_cursor c) None false c, a)
  end.
(** Bytes written at the cursor, inside the caller's buffer; the cursor behind them. *)
Definition copy_in (data : list Z) (c : connection) : res connection :=
  let i := Z.to_nat (m_cursor c) in
  if (length (m_buf c) <? i + length data)%nat then Err OutOfBounds
  else mret (put_read (take i (m_buf c) ++ data ++ drop (i + length data) (m_buf c)) (m_len c) (m_bytes_needed c)
    (size_t (m_cursor c + Z.of_nat (length data))) (m_read_handler c) (m_reading c) c).
Definition read_some_impl (buf : list Z) (w : world) : res (Z * world) :=
  let '(c, a) := w in
  if negb (m_reading c) then mret (0, w)
  else
    let bytes_to_copy := Z.min (Z.of_nat (length buf)) (size_t (m_len c - m_cursor c)) in
    c ← copy_in (take (Z.to_nat bytes_to_copy) buf) c;
    w ← (if m_bytes_needed c <=? m_cursor c then complete_read None (c, a) else mret (c, a));
    mret (bytes_to_copy, w).
Definition read_some (buf : list Z) (w : world) : res (Z * world) := read_some_impl buf w.
Definition readsome (buf : list Z) (w : world) : res (Z * world) := read_some buf w.
Fixpoint read_all_loop (fuel : nat) (total_read : Z) (buf : list Z) (w : world) : res (Z * world) :=
  match fuel with
  | O => Err OutOfFuel
  | S fuel =>
      '(temp_read, w) ← read_some_impl (drop (Z.to_nat total_read) buf) w;
      let total_read := total_read + temp_read in
      if negb (temp_read =? 0) && (total_read <? Z.of_nat (length buf)) then read_all_loop fuel total_read buf w else mret (total_read, w)
  end.
Definition read_all (buf : list Z) (w : world) : res (Z * world) := read_all_loop (S (length buf)) 0 buf w.
Definition eof (w : world) : res world := if m_reading w.1 then complete_read (Some (base_ec transport_error.eof)) w else mret w.
Definition fatal_error (w : world) : res world := if m_reading w.1 then complete_read (Some (base_ec transport_error.pass_through)) w else mret w.
(** [operator>>]: a round for each read that waits. *)
Fixpoint read_loop (fuel : nat) (in_ : istream) (w : world) : res (istream * world) :=
  match fuel with
  | O => Err OutOfFuel
  | S fuel =>
      let '(c, a) := w in
      if negb (in_good in_) then mret (in_, w)
      else if negb (m_reading c) then mret (in_, w)
      else
        let '(data, in_) := in_read (size_t (m_len c - m_cursor c)) in_ in
        if bool_decide (data = []) then mret (in_, w)
        else
          c ← copy_in data c;
          w ← (if badbit in_ then complete_read (Some (stream_ec iostream_error.bad_stream)) (c, a) else mret (c, a));
          w ← (if m_bytes_needed w.1 <=? m_cursor w.1 then complete_read None w else mret w);
          read_loop fuel in_ w
  end.
Definition read (in_ : istream) (w : world) : res (istream * world) := read_loop (S (length (in_left in_))) in_ w.
End Iostream.
End Iostream.

(** ** A handler that reads on

    [expects h n len a rest]: with the program in the state [a], the handler [h] can take the
    bytes [rest], in pieces of [n] to [len] bytes.  The law [reads_on]: given a piece, it takes it and reads again. *)
Section Reading.
Context `{Machine} {app handler : Type}.
Abbreviation world := (@Iostream.connection app handler * app)%type.
Variable call : handler → option io_error → list Z → world → res world.
Variable expects : handler → Z → Z → app → list Z → Prop.

(** A read waits, for what its buffer holds and the bytes [rest]. *)
Definition waits (w : world) (rest : list Z) : Prop :=
  Iostream.m_reading w.1 = true ∧ 0 ≤ Iostream.m_cursor w.1 < Iostream.m_bytes_needed w.1 ∧ Iostream.m_bytes_needed w.1 ≤ Iostream.m_len w.1 < 2 ^ 32 ∧
  Iostream.m_len w.1 ≤ Z.of_nat (length (Iostream.m_buf w.1)) ∧
  ∃ h, Iostream.m_read_handler w.1 = Some h ∧ expects h (Iostream.m_bytes_needed w.1) (Iostream.m_len w.1) w.2 (take (Z.to_nat (Iostream.m_cursor w.1)) (Iostream.m_buf w.1) ++ rest).
Hypothesis reads_on : ∀ h n len c a data rest, Iostream.m_reading c = false → n ≤ Z.of_nat (length data) ≤ len → data ≠ [] → expects h n len a (data ++ rest) → ∃ w, call h None data (c, a) = Ok w ∧ waits w rest.

Lemma waits_room w rest : waits w rest → size_t (Iostream.m_len w.1 - Iostream.m_cursor w.1) = Iostream.m_len w.1 - Iostream.m_cursor w.1 ∧ 0 < Iostream.m_len w.1 - Iostream.m_cursor w.1.
Proof. intros (_ & ? & ? & _). split; [apply size_t_small|]; lia. Qed.
(** Bytes that fit are put behind those of the buffer, and the read is completed when they
    are enough. *)
Lemma put_bytes c a data rest : waits (c, a) (data ++ rest) → data ≠ [] → Z.of_nat (length data) ≤ Iostream.m_len c - Iostream.m_cursor c →
  ∃ c1 w, Iostream.copy_in data c = Ok c1 ∧ (if Iostream.m_bytes_needed c1 <=? Iostream.m_cursor c1 then Iostream.complete_read call None (c1, a) else mret (c1, a)) = Ok w ∧ waits w rest.
Proof.
  intros (Hr & Hc & Hn & Hl & h & Hh & He) Hne Hfit. cbn [fst snd] in *. unfold Iostream.copy_in. rewrite (proj2 (Nat.ltb_ge _ _)) by lia.
  rewrite size_t_small by lia. match goal with |- ∃ c1 w, mret ?x = Ok c1 ∧ _ => exists x; set (c1 := x) end.
  assert (Hlen : length (take (Z.to_nat (Iostream.m_cursor c)) (Iostream.m_buf c)) = Z.to_nat (Iostream.m_cursor c)) by (rewrite length_take; lia).
  assert (Htake : take (Z.to_nat (Iostream.m_cursor c1)) (Iostream.m_buf c1) = take (Z.to_nat (Iostream.m_cursor c)) (Iostream.m_buf c) ++ data).
  { cbn [Iostream.m_cursor Iostream.m_buf c1 Iostream.put_read]. rewrite app_assoc. apply take_app_length'. rewrite length_app, Hlen. lia. }
  assert (Hbuf : length (Iostream.m_buf c1) = length (Iostream.m_buf c)) by (cbn [c1 Iostream.put_read Iostream.m_buf]; rewrite !length_app, Hlen, length_drop; lia).
  assert (Hpos : (0 < length data)%nat) by (destruct data; [done|cbn; lia]).
  destruct (Iostream.m_bytes_needed c1 <=? Iostream.m_cursor c1) eqn:E.
  - unfold Iostream.complete_read. cbv beta iota. change (Iostream.m_read_handler c1) with (Iostream.m_read_handler c). rewrite Hh, Htake. rewrite app_assoc in He.
    match goal with |- context [call h None ?d (?c2, a)] => destruct (reads_on h (Iostream.m_bytes_needed c) (Iostream.m_len c) c2 a d rest eq_refl) as (w & -> & Hw); [| |done|] end; [| |by exists w].
    { rewrite length_app, Hlen. apply Z.leb_le in E. change (Iostream.m_bytes_needed c ≤ Iostream.m_cursor c + Z.of_nat (length data)) in E. lia. }
    by destruct (take _ _), data.
  - exists (c1, a). split_and!; try done. unfold waits. cbn [fst snd]. rewrite Htake, <- app_assoc. change (Iostream.m_len c1) with (Iostream.m_len c). change (Iostream.m_bytes_needed c1) with (Iostream.m_bytes_needed c) in *. rewrite Hbuf.
    change (Iostream.m_cursor c1) with (Iostream.m_cursor c + Z.of_nat (length data)) in *. split_and!; try done; try lia. by exists h.
Qed.

Lemma read_some_ok buf w rest : waits w (buf ++ rest) → buf ≠ [] →
  ∃ n w', Iostream.read_some_impl call buf w = Ok (Z.of_nat n, w') ∧ (0 < n ≤ length buf)%nat ∧ waits w' (drop n buf ++ rest).
Proof.
  intros Hw Hne. destruct w as [c a]. destruct (waits_room _ _ Hw) as [Hroom Hpos]. cbn [fst] in *. unfold Iostream.read_some_impl.
  rewrite (proj1 Hw : Iostream.m_reading c = true). cbn [negb]. rewrite Hroom. assert (0 < length buf)%nat by (destruct buf; [done|cbn; lia]).
  set (n := Z.to_nat (Z.min (Z.of_nat (length buf)) (Iostream.m_len c - Iostream.m_cursor c))).
  assert (Hlen : length (take n buf) = n) by (rewrite length_take; lia).
  destruct (put_bytes c a (take n buf) (drop n buf ++ rest)) as (c1 & w' & -> & E & Hw').
  - by rewrite app_assoc, take_drop.
  - destruct (take n buf); [cbn in Hlen; lia|done].
  - rewrite Hlen. lia.
  - unfold mret, res_ret in *. cbn [mbind res_bind]. rewrite E. exists n, w'. subst n. split_and!; [cbn [mbind res_bind]; do 2 f_equal; lia|lia|lia|done].
Qed.

Lemma read_some_nothing w rest : waits w rest → Iostream.read_some_impl call [] w = Ok (0, w).
Proof.
  destruct w as [c a]. intros Hw. destruct (waits_room _ _ Hw) as [Hroom Hpos]. destruct Hw as (Hr & Hc & Hn & Hl & _). cbn [fst] in *. unfold Iostream.read_some_impl.
  rewrite Hr, Hroom, Z.min_l by (cbn; lia). change (Z.of_nat (@length Z [])) with 0. change (take (Z.to_nat 0) (@nil Z)) with (@nil Z). unfold Iostream.copy_in. cbn [negb length]. change (Z.of_nat 0) with 0. rewrite (proj2 (Nat.ltb_ge _ _)) by lia.
  cbn [mbind res_bind mret res_ret Datatypes.app]. rewrite Nat.add_0_r, take_drop, Z.add_0_r, size_t_small by lia.
  assert (Iostream.put_read (Iostream.m_buf c) (Iostream.m_len c) (Iostream.m_bytes_needed c) (Iostream.m_cursor c) (Iostream.m_read_handler c) (Iostream.m_reading c) c = c) as -> by (by destruct c).
  by rewrite (proj2 (Z.leb_gt _ _)) by lia.
Qed.
(** Every byte is taken. *)
Lemma read_all_ok buf w rest : waits w (buf ++ rest) → ∃ w', Iostream.read_all call buf w = Ok (Z.of_nat (length buf), w') ∧ waits w' rest.
Proof.
  intros Hw. unfold Iostream.read_all. destruct (decide (buf = [])) as [->|Hne].
  { exists w. split; [|done]. cbn [Iostream.read_all_loop length]. change (drop (Z.to_nat 0) (@nil Z)) with (@nil Z). by rewrite (read_some_nothing w rest Hw). }
  assert (Hloop : ∀ fuel (k : nat) w, waits w (drop k buf ++ rest) → (k < length buf)%nat → (length buf - k < fuel)%nat →
    ∃ w', Iostream.read_all_loop call fuel (Z.of_nat k) buf w = Ok (Z.of_nat (length buf), w') ∧ waits w' rest).
  { clear w Hw. induction fuel as [|fuel IH]; intros k w Hw Hk Hf; [lia|]. cbn [Iostream.read_all_loop]. rewrite Nat2Z.id.
    destruct (read_some_ok (drop k buf) w rest Hw) as (n & w1 & -> & Hn & Hw1).
    { intros E. apply (f_equal length) in E. rewrite length_drop in E. cbn in E. lia. }
    rewrite length_drop in Hn. rewrite drop_drop in Hw1. cbn [mbind res_bind]. rewrite (proj2 (Z.eqb_neq _ _)) by lia. cbn [negb andb]. rewrite <- Nat2Z.inj_add.
    destruct (Z.of_nat (k + n) <? Z.of_nat (length buf)) eqn:E; [apply Z.ltb_lt in E; apply IH; [done|lia|lia]|apply Z.ltb_ge in E]. exists w1. assert ((k + n)%nat = length buf) as Hend by lia. rewrite Hend in *. by rewrite drop_all in Hw1. }
  apply (Hloop _ 0%nat); [done|destruct buf; [done|cbn; lia]|lia].
Qed.

(** A stream is emptied. *)
Lemma read_stream_ok l w rest : waits w (l ++ rest) → ∃ s w', Iostream.read call (new_istream l) w = Ok (s, w') ∧ in_left s = [] ∧ waits w' rest.
Proof.
  assert (Hloop : ∀ fuel l w, (length l < fuel)%nat → waits w (l ++ rest) → ∃ s w', Iostream.read_loop call fuel (new_istream l) w = Ok (s, w') ∧ in_left s = [] ∧ waits w' rest).
  2: { intros Hw. by apply Hloop; [cbn; lia|]. }
  clear l w. induction fuel as [|fuel IH]; intros l [c a] Hf Hw; [lia|]. destruct (waits_room _ _ Hw) as [Hroom Hpos]. cbn [fst] in *.
  cbn [Iostream.read_loop]. rewrite (proj1 Hw : Iostream.m_reading c = true), Hroom. unfold in_read. cbn [negb in_good new_istream eofbit failbit badbit orb in_left in_breaks].
  destruct (_ <=? _) eqn:E.
  - set (n := Z.to_nat (Iostream.m_len c - Iostream.m_cursor c)). assert (Hlen : length (take n l) = n) by (rewrite length_take; lia).
    assert (Hne : take n l ≠ []) by (intros E0; rewrite E0 in Hlen; cbn in Hlen; lia). rewrite bool_decide_eq_false_2 by done.
    destruct (put_bytes c a (take n l) (drop n l ++ rest)) as (c1 & w1 & -> & E1 & Hw1); [by rewrite app_assoc, take_drop|done|lia|].
    cbn [mbind res_bind badbit mret res_ret fst]. rewrite E1. apply IH; [rewrite length_drop; lia|done].
  - destruct (decide (l = [])) as [->|Hne].
    + rewrite bool_decide_eq_true_2 by done. by eexists _, _.
    + rewrite bool_decide_eq_false_2 by done. destruct (put_bytes c a l rest Hw Hne) as (c1 & w1 & -> & E1 & Hw1); [lia|].
      cbn [mbind res_bind badbit mret res_ret fst]. rewrite E1. destruct fuel as [|fuel]; [destruct l; [done|cbn in Hf; lia]|].
      destruct w1 as [c2 a2]. cbn. by eexists _, _.
Qed.
End Reading.

(** ** Programs that write, and programs that read on

    The reader asks for its next read by what it has got so far: [next got] is how many bytes
    it needs, and the size of its buffer.  It reads again inside each completion. *)
Section Programs.
Context `{Machine}.
Variable next : list (list Z) → Z * Z.
Inductive purpose := Wrote | Reads.
Record program := mkProgram {
  got : list (list Z);                        (** the completed reads *)
  ended : option (io_error * list Z);         (** the error that ended the reading, and the bytes with it *)
  outcomes : list (option io_error);          (** of the writes *)
}.
Definition new_program : program := mkProgram [] None [].
Abbreviation program_world := (@Iostream.connection program purpose * program)%type.
(** With a bound on how deep the handlers are called inside one another. *)
Fixpoint call_program (fuel : nat) (h : purpose) (ec : option io_error) (data : list Z) (w : program_world) : res program_world :=
  match fuel with
  | O => Err OutOfFuel
  | S fuel =>
      let '(c, a) := w in
      match h, ec with
      | Wrote, _ => mret (c, mkProgram (got a) (ended a) (outcomes a ++ [ec]))
      | Reads, Some e => mret (c, mkProgram (got a) (Some (e, data)) (outcomes a))
      | Reads, None =>
          let l := got a ++ [data] in
          Iostream.async_read_at_least (call_program fuel) (next l).1 (repeat 0 (Z.to_nat (next l).2)) (next l).2 Reads (c, mkProgram l (ended a) (outcomes a))
      end
  end.
Definition run_program := call_program 2.
Definition first_read (w : program_world) : res program_world :=
  Iostream.async_read_at_least run_program (next []).1 (repeat 0 (Z.to_nat (next []).2)) (next []).2 Reads w.

(** A write of one buffer, or of several. *)
Definition write_one (b : list Z + list (list Z)) (w : program_world) : res program_world :=
  match b with inl b => Iostream.async_write run_program b Wrote w | inr bs => Iostream.async_write_buffers run_program bs Wrote w end.
Fixpoint write_all (ws : list (list Z + list (list Z))) (w : program_world) : res program_world :=
  match ws with [] => mret w | b :: ws => w ← write_one b w; write_all ws w end.
Definition bytes_of (b : list Z + list (list Z)) : list Z := match b with inl b => b | inr bs => concat bs end.

(** The program hands a connection its bytes in pieces; each call says how many it took. *)
Fixpoint feed (pieces : list (list Z)) (w : program_world) : res (list Z * program_world) :=
  match pieces with
  | [] => mret ([], w)
  | b :: pieces =>
      '(n, w) ← Iostream.read_all run_program b w;
      '(ns, w) ← feed pieces w;
      mret (n :: ns, w)
  end.

(** Each read got what it needs, and no more than its buffer holds. *)
Definition sizes_ok (l : list (list Z)) : Prop :=
  ∀ i d, l !! i = Some d → (next (take i l)).1 ≤ Z.of_nat (length d) ≤ (next (take i l)).2.
(** Of the bytes [l]: the reads got them in order, but for the last ones, which are not enough
    for the read that waits; the end of the input completes it with them. *)
Definition delivered (w : program_world) (l : list Z) : Prop :=
  ∃ rest, concat (got w.2) ++ rest = l ∧ sizes_ok (got w.2) ∧ Z.of_nat (length rest) < (next (got w.2)).1 ∧ ended w.2 = None ∧
  Iostream.m_reading w.1 = true ∧
  ∃ w', Iostream.eof run_program w = Ok w' ∧ got w'.2 = got w.2 ∧ ended w'.2 = Some (base_ec transport_error.eof, rest) ∧ Iostream.m_reading w'.1 = false.

(** *** Writing *)
Lemma write_buffers_all bs o : out_bad o = false → out_room o = None →
  Iostream.write_buffers bs o = (mkOstream (written o ++ concat bs) None false, None).
Proof.
  revert o. induction bs as [|b bs IH]; intros o Hb Hr; cbn [Iostream.write_buffers concat]; [rewrite app_nil_r; by destruct o; cbn in *; subst|].
  unfold out_write. rewrite Hb, Hr. cbn [out_bad]. rewrite IH by done. cbn [written]. by rewrite <- app_assoc.
Qed.
Lemma write_all_ok ws c a o : Iostream.m_output_stream c = Some o → out_bad o = false → out_room o = None →
  ∃ c' a', write_all ws (c, a) = Ok (c', a') ∧ Iostream.m_output_stream c' = Some (mkOstream (written o ++ concat (bytes_of <$> ws)) None false) ∧
    outcomes a' = outcomes a ++ replicate (length ws) None.
Proof.
  revert c a o. induction ws as [|b ws IH]; intros c a o Ho Hb Hr; cbn [write_all fmap list_fmap concat length replicate].
  { exists c, a. rewrite !app_nil_r, Ho. split_and!; [done| |done]. by destruct o; cbn in *; subst. }
  assert (write_one b (c, a) = Ok (Iostream.put_output_stream (Some (mkOstream (written o ++ bytes_of b) None false)) c, mkProgram (got a) (ended a) (outcomes a ++ [None]))) as ->.
  { destruct b as [b|bs]; cbn [write_one bytes_of]; unfold Iostream.async_write, Iostream.async_write_buffers; rewrite Ho.
    - unfold out_write. by rewrite Hb, Hr.
    - by rewrite write_buffers_all. }
  cbn [mbind res_bind].
  destruct (IH (Iostream.put_output_stream (Some (mkOstream (written o ++ bytes_of b) None false)) c) (mkProgram (got a) (ended a) (outcomes a ++ [None]))
    (mkOstream (written o ++ bytes_of b) None false) eq_refl eq_refl eq_refl) as (c' & a' & E & Ho' & Ha).
  exists c', a'. split; [exact E|]. rewrite Ho', Ha. cbn [written outcomes]. by rewrite <- !app_assoc.
Qed.

(** *** Reading *)
Hypothesis next_ok : ∀ l, 0 < (next l).1 ≤ (next l).2 ∧ (next l).2 < 2 ^ 32.
(** The reads so far, and the bytes [rest], are those of [l]. *)
Definition reads_of (l : list Z) (h : purpose) (n len : Z) (a : program) (rest : list Z) : Prop :=
  h = Reads ∧ next (got a) = (n, len) ∧ sizes_ok (got a) ∧ ended a = None ∧ concat (got a) ++ rest = l.
Lemma read_waits call c a l rest : Iostream.m_reading c = false → sizes_ok (got a) → ended a = None → concat (got a) ++ rest = l →
  ∃ w, Iostream.async_read_at_least call (next (got a)).1 (repeat 0 (Z.to_nat (next (got a)).2)) (next (got a)).2 Reads (c, a) = Ok w ∧ waits (reads_of l) w rest.
Proof.
  intros Hr Hs He Hl. destruct (next_ok (got a)) as [Hn Hlen]. unfold Iostream.async_read_at_least.
  rewrite (proj2 (Z.ltb_ge _ _)), Hr, !(proj2 (Z.eqb_neq _ _)) by lia. eexists. split; [done|].
  unfold waits. cbn [fst snd Iostream.m_reading Iostream.m_cursor Iostream.m_bytes_needed Iostream.m_len Iostream.m_buf Iostream.m_read_handler Iostream.put_read].
  rewrite repeat_length. split_and!; try lia; try done. exists Reads. split; [done|]. change (take (Z.to_nat 0) _) with (@nil Z).
  unfold reads_of. by destruct (next (got a)).
Qed.
Lemma program_reads_on l h n len c a data rest : Iostream.m_reading c = false → n ≤ Z.of_nat (length data) ≤ len → data ≠ [] →
  reads_of l h n len a (data ++ rest) → ∃ w, run_program h None data (c, a) = Ok w ∧ waits (reads_of l) w rest.
Proof.
  intros Hr Hd _ (-> & En & Hs & He & Hl). unfold run_program. cbn [call_program]. cbv zeta.
  apply (read_waits (call_program 1) c (mkProgram (got a ++ [data]) (ended a) (outcomes a))); cbn [got ended]; [done| |done|].
  - intros i d Hi. apply lookup_snoc_Some in Hi as [[Hlt Hi]|[-> ->]].
    + rewrite take_app_le by lia. by apply Hs.
    + by rewrite take_app_length, En.
  - rewrite concat_app. cbn [concat]. by rewrite app_nil_r, <- app_assoc.
Qed.
Lemma waits_delivered l w : waits (reads_of l) w [] → delivered w l.
Proof.
  destruct w as [c a]. intros (Hr & Hc & Hn & Hlen & h & Hh & (-> & En & Hs & He & Hl)). cbn [fst snd] in *. rewrite app_nil_r in Hl.
  exists (take (Z.to_nat (Iostream.m_cursor c)) (Iostream.m_buf c)). unfold delivered. cbn [fst snd]. rewrite En. cbn [fst]. split_and!; try done.
  - rewrite length_take. lia.
  - unfold Iostream.eof, Iostream.complete_read. cbn [fst]. rewrite Hr, Hh. by eexists.
Qed.
Lemma feed_ok l pieces w : waits (reads_of l) w (concat pieces) →
  ∃ w', feed pieces w = Ok (Z.of_nat ∘ length <$> pieces, w') ∧ waits (reads_of l) w' [].
Proof.
  revert w. induction pieces as [|b pieces IH]; intros w Hw; [by exists w|]. cbn [concat] in Hw.
  destruct (read_all_ok run_program (reads_of l) (program_reads_on l) b w _ Hw) as (w1 & E1 & Hw1).
  destruct (IH w1 Hw1) as (w2 & E2 & Hw2). exists w2. split; [|done]. cbn [feed]. rewrite E1. cbn [mbind res_bind]. by rewrite E2.
Qed.
End Programs.

(** C14: Bytes between two programs without a network: what one program writes, in single buffers or several at
    once, to an output stream that takes everything is in the stream, in order, and every write is answered once, without
    error. Another program, which after each read asks for the next one, of a size that can depend on what it has got, reads these bytes from an input
    stream, or out of any pieces of them that are handed to its connection: the reads are completed in order with
    exactly these bytes, each with at least what it asked for and at most what its buffer holds; the bytes left are too few for the
    read that waits, and the end of the input completes it with them. The stream is emptied, and every piece is taken
    whole. *)
Theorem bytes_over_streams `{Machine} next server ws :
  (∀ l, 0 < (next l).1 ≤ (next l).2 ∧ (next l).2 < 2 ^ 32) →
  let run := run_program next in
  let bytes := concat (bytes_of <$> ws) in
  ∃ sender reader,
  write_all next ws (Iostream.register_ostream (Some new_ostream) (Iostream.new_connection (negb server)), new_program) = Ok sender ∧
  Iostream.m_output_stream sender.1 = Some (mkOstream bytes None false) ∧ outcomes sender.2 = replicate (length ws) None ∧
  first_read next (Iostream.new_connection server, new_program) = Ok reader ∧
  (∃ in_ w, Iostream.read run (new_istream bytes) reader = Ok (in_, w) ∧ in_left in_ = [] ∧ delivered next w bytes) ∧
  ∀ pieces, concat pieces = bytes → ∃ w, feed next pieces reader = Ok (Z.of_nat ∘ length <$> pieces, w) ∧ delivered next w bytes.
Proof.
  intros Hnext run bytes.
  destruct (write_all_ok next ws (Iostream.register_ostream (Some new_ostream) (Iostream.new_connection (negb server))) new_program new_ostream eq_refl eq_refl eq_refl)
    as (c & a & E & Ho & Ha). cbn [written new_ostream app outcomes new_program] in *.
  destruct (read_waits next Hnext run (Iostream.new_connection server) new_program bytes bytes eq_refl) as (reader & Er & Hw); [by intros i d Hi|done|done|].
  exists (c, a), reader. split_and!; [done|done|done|exact Er| |].
  - destruct (read_stream_ok run (reads_of next bytes) (program_reads_on next Hnext bytes) bytes reader []) as (in_ & w & Ei & Hi & Hwi); [by rewrite app_nil_r|].
    exists in_, w. split_and!; [done|done|by eapply waits_delivered].
  - intros pieces Hp. rewrite <- Hp in Hw at 2. destruct (feed_ok next Hnext bytes pieces reader Hw) as (w & Ew & Hwe). exists w. split; [done|by eapply waits_delivered].
Qed.
(** A reader that asks for two bytes, then for the number of bytes the first one says. *)
Definition next_sample (l : list (list Z)) : Z * Z :=
  match l with [] => (2, 2) | d :: _ => (Z.max 1 (Z.min 100 (nth 0 d 1)), 100) end.
Definition sample_writes : list (list Z + list (list Z)) := [inl [3; 0; 7]; inr [[8]; [9; 10]]; inr []].
Lemma bytes_over_streams_witness : ∃ reader in_ w,
  first_read next_sample (Iostream.new_connection true, new_program) = Ok reader ∧
  @Iostream.read x86_64 _ _ (run_program next_sample) (new_istream [3; 0; 7; 8; 9; 10]) reader = Ok (in_, w) ∧
  in_left in_ = [] ∧ delivered next_sample w [3; 0; 7; 8; 9; 10].
Proof.
  destruct (@bytes_over_streams x86_64 next_sample true sample_writes) as (sender & reader & _ & _ & _ & H1 & (in_ & w & H2 & H3 & H4) & _).
  - intros [|d l]; cbn; lia.
  - exists reader, in_, w. exact (conj H1 (conj H2 (conj H3 H4))).
Defined.

(** ** Errors *)
Section Errors.
Context `{Machine} {app handler : Type}.
Variable call : handler → option io_error → list Z → @Iostream.connection app handler * app → res (@Iostream.connection app handler * app).
(** A second read is refused, and does not touch the first. *)
Lemma second_read_refused num buf len h c a : Iostream.m_reading c = true → num ≤ len →
  Iostream.async_read_at_least call num buf len h (c, a) = call h (Some (stream_ec iostream_error.double_read)) [] (c, a).
Proof. intros Hr Hn. unfold Iostream.async_read_at_least. by rewrite (proj2 (Z.ltb_ge _ _)), Hr by lia. Qed.
(** The end of the input completes the read that waits, with what it has so far; without
    one, nothing happens. *)
Lemma eof_completes c a h : Iostream.m_reading c = true → Iostream.m_read_handler c = Some h →
  Iostream.eof call (c, a) = call h (Some (base_ec transport_error.eof)) (take (Z.to_nat (Iostream.m_cursor c)) (Iostream.m_buf c))
    (Iostream.put_read (Iostream.m_buf c) (Iostream.m_len c) (Iostream.m_bytes_needed c) (Iostream.m_cursor c) None false c, a).
Proof. intros Hr Hh. unfold Iostream.eof, Iostream.complete_read. cbn [fst]. by rewrite Hr, Hh. Qed.
End Errors.
(** A handler that records its calls and does not read again. *)
Definition recording (h : nat) (ec : option io_error) (data : list Z) (w : @Iostream.connection (list (nat * option io_error * list Z)) nat * list (nat * option io_error * list Z)) :
  res (@Iostream.connection (list (nat * option io_error * list Z)) nat * list (nat * option io_error * list Z)) := mret (w.1, w.2 ++ [(h, ec, data)]).
(** A stream that breaks after it has given enough bytes completes the read twice: the
    second time there is no handler. *)
Example broken_stream_completes_twice : 
  (w ← Iostream.async_read_at_least recording 2 (repeat 0 8) 8 7%nat (Iostream.new_connection true, []);
   @Iostream.read x86_64 _ _ recording (mkIstream [1; 2; 3] true false false false) w) = Err StdException.
Proof. reflexivity. Qed.
(** A write after an error on the output stream fails, and writes nothing. *)
Example bad_output_stays_bad : ∃ c a, 
  (w ← Iostream.async_write recording [1; 2; 3] 7%nat (Iostream.register_ostream (Some (mkOstream [] (Some 2%nat) false)) (Iostream.new_connection true), []);
   Iostream.async_write recording [4] 8%nat w) = Ok (c, a) ∧
  a = [(7%nat, Some (stream_ec iostream_error.bad_stream), []); (8%nat, Some (stream_ec iostream_error.bad_stream), [])] ∧
  Iostream.m_output_stream c = Some (mkOstream [1; 2] (Some 0%nat) true).
Proof. eexists _, _. split; [reflexivity|]. by split. Qed.
