(* ===== verification/WsDial.v ===== *)
(** * Connecting to a host
    (src/websocketpp-master/websocketpp/transport/asio/endpoint.hpp: [async_connect] and the
    handlers behind it)

    A client resolves the name of the host and connects, each under a timer.  The handlers
    of an operation and of its timer race; the theorem is that the callback of the attempt
    is called once, whatever the order, unless a result is handled in the very tick in
    which its timer runs out. *)

From S2P Require Import Prelude StdString HttpText Uri WsProcessor.

Open Scope Z_scope.

Module Dial.
(** ** State

    [clock]: milliseconds.  A timer that waits runs out at its deadline; its handler is then
    queued and can no longer be cancelled. *)
Inductive timer_state := waiting | expired | cancelled | handled.
Record timer := mkTimer { deadline : Z; timer_is : timer_state }.
#[global] Instance timer_state_eq_dec : EqDecision timer_state.
Proof. solve_decision. Defined.
(** What asio reports of an operation. *)
Inductive asio_result := success | operation_aborted | failure.
#[global] Instance asio_result_eq_dec : EqDecision asio_result.
Proof. solve_decision. Defined.
Inductive connect_error := proxy_invalid | connect_ec (e : error_code).
(** [answers] is the history of the calls of the callback. *)
Record dial := mkDial {
  clock : Z;
  host : str;
  port : str;
  resolving : bool;
  dns_timer : option timer;
  connecting : bool;
  con_timer : option timer;
  answers : list (option connect_error);
}.
Definition put_operations (r : bool) (dns : option timer) (c : bool) (con : option timer) (d : dial) : dial :=
  mkDial (clock d) (host d) (port d) r dns c con (answers d).
Definition callback (ec : option connect_error) (d : dial) : dial :=
  mkDial (clock d) (host d) (port d) (resolving d) (dns_timer d) (connecting d) (con_timer d) (answers d ++ [ec]).
Definition cancel (t : timer) : timer := if bool_decide (timer_is t = waiting) then mkTimer (deadline t) cancelled else t.
Definition is_neg (t : timer) (now : Z) : bool := deadline t - now <? 0.
Definition transport (e : transport_error.value) : option connect_error := Some (connect_ec (transport_ec e)).

Section Dial.
Variable timeout_dns_resolve timeout_connect : Z.   (** of the configuration *)

(** ** Operations

    [proxy_init]: what the connection answers when the proxy is told the authority. *)
Definition async_connect (now : Z) (proxy : str) (proxy_init : option error_code) (u : uri) : res dial :=
  let fresh := mkDial now [] [] false None false None [] in
  let resolve (u : uri) (d : dial) := mkDial (clock d) (m_host u) (get_port_str u) true (Some (mkTimer (clock d + timeout_dns_resolve) waiting)) false None (answers d) in
  if bool_decide (proxy = []) then mret (resolve u fresh)
  else
    pu ← parse_uri proxy;
    if negb (m_valid pu) then mret (callback (Some proxy_invalid) fresh)
    else match proxy_init with
         | Some e => mret (callback (Some (connect_ec e)) fresh)
         | None => mret (resolve pu fresh)
         end.
(** The handlers of the timers; [ec] is what the timer reports. *)
Definition handle_resolve_timeout (ec : option asio_result) (d : dial) : dial :=
  match ec with
  | Some operation_aborted => d
  | Some _ => callback (transport transport_error.pass_through) d
  | None => callback (transport transport_error.timeout) d
  end.
Definition handle_connect_timeout (ec : option asio_result) (d : dial) : dial := handle_resolve_timeout ec d.
(** A handler dereferences its timer. *)
Definition handle_resolve (r : asio_result) (d : dial) : res dial :=
  match dns_timer d with
  | None => Err NullDeref
  | Some t =>
      if bool_decide (r = operation_aborted) || is_neg t (clock d) then mret d
      else
        let d := put_operations (resolving d) (Some (cancel t)) (connecting d) (con_timer d) d in
        if bool_decide (r = failure) then mret (callback (transport transport_error.pass_through) d)
        else mret (put_operations (resolving d) (dns_timer d) true (Some (mkTimer (clock d + timeout_connect) waiting)) d)
  end.

Definition handle_connect (r : asio_result) (d : dial) : res dial :=
  match con_timer d with
  | None => Err NullDeref
  | Some t =>
      if bool_decide (r = operation_aborted) || is_neg t (clock d) then mret d
      else
        let d := put_operations (resolving d) (dns_timer d) (connecting d) (Some (cancel t)) d in
        if bool_decide (r = failure) then mret (callback (transport transport_error.pass_through) d) else mret (callback None d)
  end.

(** ** Steps

    Time passes; a timer runs out; the handler of a timer or of an operation runs. *)
Inductive event := tick (ms : Z) | dns_expires | con_expires | dns_handled | con_handled | resolved (r : asio_result) | connected (r : asio_result).
Definition expire (t : timer) (now : Z) : option timer :=
  if bool_decide (timer_is t = waiting) && (deadline t <=? now) then Some (mkTimer (deadline t) expired) else None.
(** The handler of a timer that has run out, or was cancelled. *)
Definition timer_result (t : timer) : option (option asio_result) :=
  match timer_is t with expired => Some None | cancelled => Some (Some operation_aborted) | _ => None end.
Definition done_timer (t : timer) : timer := mkTimer (deadline t) handled.
Definition step (e : event) (d : dial) : option (res dial) :=
  match e with
  | tick ms => if 0 <=? ms then Some (Ok (mkDial (clock d + ms) (host d) (port d) (resolving d) (dns_timer d) (connecting d) (con_timer d) (answers d))) else None
  | dns_expires =>
      match dns_timer d with
      | Some t => t ← expire t (clock d); Some (Ok (put_operations (resolving d) (Some t) (connecting d) (con_timer d) d))
      | None => None
      end
  | con_expires =>
      match con_timer d with
      | Some t => t ← expire t (clock d); Some (Ok (put_operations (resolving d) (dns_timer d) (connecting d) (Some t) d))
      | None => None
      end
  | dns_handled =>
      match dns_timer d with
      | Some t => ec ← timer_result t; Some (Ok (handle_resolve_timeout ec (put_operations (resolving d) (Some (done_timer t)) (connecting d) (con_timer d) d)))
      | None => None
      end
  | con_handled =>
      match con_timer d with
      | Some t => ec ← timer_result t; Some (Ok (handle_connect_timeout ec (put_operations (resolving d) (dns_timer d) (connecting d) (Some (done_timer t)) d)))
      | None => None
      end
  | resolved r => if resolving d then Some (handle_resolve r (put_operations false (dns_timer d) (connecting d) (con_timer d) d)) else None
  | connected r => if connecting d then Some (handle_connect r (put_operations (resolving d) (dns_timer d) false (con_timer d) d)) else None
  end.
(** The event is not the result of an operation in the tick of its deadline. *)
Definition off_tick (e : event) (d : dial) : bool :=
  match e with
  | resolved _ => match dns_timer d with Some t => negb (deadline t =? clock d) | None => true end
  | connected _ => match con_timer d with Some t => negb (deadline t =? clock d) | None => true end
  | _ => true
  end.
Inductive runs : dial → dial → Prop :=
  | runs_start d : runs d d
  | runs_step d e d' d'' : runs d d' → off_tick e d' = true → step e d' = Some (Ok d'') → runs d d''.
Fixpoint run (es : list event) (d : dial) : option (res dial) :=
  match es with
  | [] => Some (mret d)
  | e :: es => match step e d with None => None | Some (Ok d) => run es d | Some (Err e) => Some (Err e) end
  end.
Fixpoint off_ticks (es : list event) (d : dial) : bool :=
  match es with
  | [] => true
  | e :: es => off_tick e d && match step e d with Some (Ok d) => off_ticks es d | _ => false end
  end.
Lemma run_runs es d0 d d' : runs d0 d → off_ticks es d = true → run es d = Some (Ok d') → runs d0 d'.
Proof.
  revert d. induction es as [|e es IH]; intros d Hr Hoff E; cbn [run off_ticks] in *; [by injection E as <-|]. apply andb_prop in Hoff as [Ho Hoff].
  destruct (step e d) as [[d1|]|] eqn:E1; [|done..]. eapply IH; [|exact Hoff|exact E]. by eapply runs_step.
Qed.
(** Nothing is outstanding. *)
Definition settled (t : option timer) : bool := match t with Some t => bool_decide (timer_is t = handled) | None => true end.
Definition quiescent (d : dial) : bool := negb (resolving d) && negb (connecting d) && settled (dns_timer d) && settled (con_timer d).

(** ** Once

    Each phase with the number of its answers. *)
Definition open (t : timer) (now : Z) : Prop := timer_is t = waiting ∨ timer_is t = expired ∧ deadline t ≤ now.
Definition closed (t : timer) : Prop := timer_is t = cancelled ∨ timer_is t = handled.
Inductive phase (d : dial) : Prop :=
  | refused ec : resolving d = false → dns_timer d = None → connecting d = false → con_timer d = None → answers d = [ec] → phase d
  | resolve_open t : dns_timer d = Some t → open t (clock d) → connecting d = false → con_timer d = None → answers d = [] → phase d
  | resolve_late t ec : dns_timer d = Some t → timer_is t = handled → deadline t ≤ clock d → connecting d = false → con_timer d = None → answers d = [ec] → phase d
  | resolve_failed t ec : resolving d = false → dns_timer d = Some t → closed t → connecting d = false → con_timer d = None → answers d = [ec] → phase d
  | connect_open t t' : resolving d = false → dns_timer d = Some t → closed t → con_timer d = Some t' → open t' (clock d) → answers d = [] → phase d
  | connect_late t t' ec : resolving d = false → dns_timer d = Some t → closed t → con_timer d = Some t' → timer_is t' = handled → deadline t' ≤ clock d → answers d = [ec] → phase d
  | connect_done t t' ec : resolving d = false → connecting d = false → dns_timer d = Some t → closed t → con_timer d = Some t' → closed t' → answers d = [ec] → phase d.

Lemma cancel_waiting t now : open t now → now < deadline t → cancel t = mkTimer (deadline t) cancelled.
Proof. intros [Ht|[_ ?]] Hd; [|lia]. unfold cancel. by rewrite bool_decide_eq_true_2. Qed.
Lemma expire_open t t' now : expire t now = Some t' → timer_is t = waiting ∧ t' = mkTimer (deadline t) expired ∧ deadline t ≤ now.
Proof. unfold expire. case_bool_decide; [|done]. cbn [andb]. destruct (deadline t <=? now) eqn:E; [|done]. intros [= <-]. split_and!; [done..|lia]. Qed.
Lemma open_later t now ms : open t now → 0 ≤ ms → open t (now + ms).
Proof. intros [?|[? ?]] ?; [by left|right; split; [done|lia]]. Qed.
Lemma closed_no_result t ec : closed t → timer_result t = Some ec → ec = Some operation_aborted.
Proof. unfold timer_result. intros [-> | ->]; [by intros [= <-]|done]. Qed.
Lemma closed_no_expiry t now : closed t → expire t now = None.
Proof. unfold closed, expire. intros Ht. rewrite bool_decide_eq_false_2; [done|]. destruct Ht as [-> | ->]; done. Qed.
Lemma open_result t now ec : open t now → timer_result t = Some ec → ec = None ∧ deadline t ≤ now.
Proof. unfold timer_result. intros [-> | [-> ?]]; [done|]. by intros [= <-]. Qed.

Lemma tick_phase d ms : phase d → 0 ≤ ms → phase (mkDial (clock d + ms) (host d) (port d) (resolving d) (dns_timer d) (connecting d) (con_timer d) (answers d)).
Proof.
  intros Hp Hms. destruct Hp as [ec ? ? ? ? ?|t ? Ho ? ? ?|t ec ? ? ? ? ? ?|t ec ? ? ? ? ? ?|t t' ? ? ? ? Ho ?|t t' ec ? ? ? ? ? ? ?|t t' ec ? ? ? ? ? ? ?].
  - by eapply refused.
  - eapply resolve_open; try done. by apply open_later.
  - eapply resolve_late; try done. cbn. lia.
  - by eapply resolve_failed.
  - eapply connect_open; try done. by apply open_later.
  - eapply connect_late; try done. cbn. lia.
  - by eapply connect_done.
Qed.
(** The events of time and timers. *)
Definition of_timer (e : event) : bool := match e with resolved _ | connected _ => false | _ => true end.
Lemma timer_phase d e r : phase d → of_timer e = true → step e d = Some r → ∃ d', r = Ok d' ∧ phase d'.
Proof.
  intros Hp Hof E. destruct e as [ms| | | | |r0|r0]; try discriminate Hof; clear Hof; cbn [step] in *.
  - destruct (0 <=? ms) eqn:Ems; [|done]. injection E as <-. eexists. split; [done|]. apply tick_phase; [done|lia].
  - destruct (dns_timer d) as [t|] eqn:Et; [|done]. destruct (expire t (clock d)) as [t1|] eqn:Ex; [|done]. injection E as <-. eexists. split; [done|].
    destruct (expire_open _ _ _ Ex) as (Hw & -> & Hd).
    destruct Hp as [ec ? H1 ? ? ?|t0 H1 Ho ? ? ?|t0 ec H1 H2 ? ? ? ?|t0 ec ? H1 Hc ? ? ?|t0 t' ? H1 Hc ? Ho ?|t0 t' ec ? H1 Hc ? ? ? ?|t0 t' ec ? ? H1 Hc ? ? ?]; rewrite Et in H1; simplify_eq;
      try (rewrite (closed_no_expiry _ _ Hc) in Ex; done).
    + eapply resolve_open; try done. right. by split.
    + congruence.
  - destruct (con_timer d) as [t|] eqn:Et; [|done]. destruct (expire t (clock d)) as [t1|] eqn:Ex; [|done]. injection E as <-. eexists. split; [done|].
    destruct (expire_open _ _ _ Ex) as (Hw & -> & Hd).
    destruct Hp as [ec ? ? ? H1 ?|t0 ? Ho ? H1 ?|t0 ec ? ? ? ? H1 ?|t0 ec ? ? ? ? H1 ?|t0 t' ? ? ? H1 Ho ?|t0 t' ec ? ? ? H1 H2 ? ?|t0 t' ec ? ? ? ? H1 Hc ?]; rewrite Et in H1; simplify_eq;
      try (rewrite (closed_no_expiry _ _ Hc) in Ex; done).
    + eapply connect_open; try done. right. by split.
    + congruence.
  - destruct (dns_timer d) as [t|] eqn:Et; [|done]. destruct (timer_result t) as [ec|] eqn:Ex; [|done]. injection E as <-. eexists. split; [done|].
    destruct Hp as [ec0 ? H1 ? ? ?|t0 H1 Ho ? ? Ha|t0 ec0 H1 H2 ? ? ? ?|t0 ec0 ? H1 Hc ? ? ?|t0 t' ? H1 Hc ? Ho ?|t0 t' ec0 ? H1 Hc ? ? ? ?|t0 t' ec0 ? ? H1 Hc ? ? ?]; rewrite Et in H1; simplify_eq;
      try rewrite (closed_no_result _ _ Hc Ex).
    + destruct (open_result _ _ _ Ho Ex) as [-> Hd]. eapply resolve_late; try done. cbn. by rewrite Ha.
    + unfold timer_result in Ex. by rewrite H2 in Ex.
    + eapply resolve_failed; try done. by right.
    + eapply connect_open; try done. by right.
    + eapply connect_late; try done. by right.
    + eapply connect_done; try done. by right.
  - destruct (con_timer d) as [t|] eqn:Et; [|done]. destruct (timer_result t) as [ec|] eqn:Ex; [|done]. injection E as <-. eexists. split; [done|].
    destruct Hp as [ec0 ? ? ? H1 ?|t0 ? Ho ? H1 ?|t0 ec0 ? ? ? ? H1 ?|t0 ec0 ? ? ? ? H1 ?|t0 t' ? ? ? H1 Ho Ha|t0 t' ec0 ? ? ? H1 H2 ? ?|t0 t' ec0 ? ? ? ? H1 Hc ?]; rewrite Et in H1; simplify_eq;
      try rewrite (closed_no_result _ _ Hc Ex).
    + destruct (open_result _ _ _ Ho Ex) as [-> Hd]. eapply connect_late; try done. cbn. by rewrite Ha.
    + unfold timer_result in Ex. by rewrite H2 in Ex.
    + eapply connect_done; try done. by right.
Qed.
Lemma result_phase d e r : phase d → of_timer e = false → off_tick e d = true → step e d = Some r → ∃ d', r = Ok d' ∧ phase d'.
Proof.
  intros Hp Hof Hoff E. destruct e as [ms| | | | |r0|r0]; try discriminate Hof; clear Hof; cbn [step off_tick] in *.
  - destruct (resolving d) eqn:Er; [|done]. injection E as <-. unfold handle_resolve. cbn [dns_timer put_operations].
    destruct Hp as [ec0 H0 ? ? ? ?|t0 H1 Ho ? ? Ha|t0 ec0 H1 H2 ? ? ? ?|t0 ec0 H0 ? ? ? ? ?|t0 t' H0 ? ? ? ? ?|t0 t' ec0 H0 ? ? ? ? ? ?|t0 t' ec0 H0 ? ? ? ? ? ?]; try congruence; rewrite H1 in *; cbn [clock put_operations]; unfold is_neg.
    + case_bool_decide; cbn [orb]; [eexists; split; [done|]; by eapply resolve_open|]. destruct (_ <? 0) eqn:En; [eexists; split; [done|]; by eapply resolve_open|].
      rewrite (cancel_waiting _ _ Ho) by lia. case_bool_decide; eexists; (split; [done|]).
      * eapply resolve_failed; try done; [by left|]. cbn. by rewrite Ha.
      * eapply connect_open; try done; by left.
    + destruct (_ <? 0) eqn:En; [|lia]. rewrite orb_true_r. eexists. split; [done|]. by eapply resolve_late.
  - destruct (connecting d) eqn:Er; [|done]. injection E as <-. unfold handle_connect. cbn [con_timer put_operations].
    destruct Hp as [ec0 ? ? H0 ? ?|t0 ? ? H0 ? ?|t0 ec0 ? ? ? H0 ? ?|t0 ec0 ? ? ? H0 ? ?|t0 t' ? ? ? H1 Ho Ha|t0 t' ec0 ? ? ? H1 H2 ? ?|t0 t' ec0 ? H0 ? ? ? ? ?]; try congruence; rewrite H1 in *; cbn [clock put_operations]; unfold is_neg.
    + case_bool_decide; cbn [orb]; [eexists; split; [done|]; by eapply connect_open|]. destruct (_ <? 0) eqn:En; [eexists; split; [done|]; by eapply connect_open|].
      rewrite (cancel_waiting _ _ Ho) by lia. case_bool_decide; eexists; (split; [done|]); (eapply connect_done; try done; [by left|]; cbn; by rewrite Ha).
    + destruct (_ <? 0) eqn:En; [|lia]. rewrite orb_true_r. eexists. split; [done|]. by eapply connect_late.
Qed.
Lemma step_phase d e r : phase d → off_tick e d = true → step e d = Some r → ∃ d', r = Ok d' ∧ phase d'.
Proof. intros Hp Hoff E. destruct (of_timer e) eqn:Ho; [by eapply timer_phase|by eapply result_phase]. Qed.
Lemma async_connect_phase now proxy pi u d : async_connect now proxy pi u = Ok d → phase d.
Proof.
  assert (Hr : ∀ h p, phase (mkDial now h p true (Some (mkTimer (now + timeout_dns_resolve) waiting)) false None [])) by (intros; eapply resolve_open; try done; by left).
  unfold async_connect. case_bool_decide; [intros [= <-]; apply Hr|]. destruct (parse_uri proxy) as [pu|]; [|done]. cbn [mbind res_bind].
  destruct (m_valid pu); cbn [negb]; [|intros [= <-]; by eapply refused]. destruct pi; intros [= <-]; [by eapply refused|apply Hr].
Qed.

(** C15: The callback of an attempt to connect is called at most once, and once when nothing is
    outstanding any more, and no handler finds a timer missing: for any results of the operations and any order of the handlers,
    provided that no result is handled in the tick in which its timer runs out. *)
Theorem connect_answered_once now proxy pi u d d' : async_connect now proxy pi u = Ok d → runs d d' →
  (length (answers d') ≤ 1)%nat ∧ (quiescent d' = true → length (answers d') = 1%nat) ∧ (∀ e, off_tick e d' = true → ∀ err, step e d' ≠ Some (Err err)).
Proof.
  intros Hd Hr. assert (Hp : phase d').
  { induction Hr as [d|d e d1 d2 _ IH Hoff E]; [by eapply async_connect_phase|]. destruct (step_phase _ _ _ (IH Hd) Hoff E) as (? & [= <-] & ?). done. }
  split_and!.
  - destruct Hp as [? ? ? ? ? ->|? ? ? ? ? ->|? ? ? ? ? ? ? ->|? ? ? ? ? ? ? ->|? ? ? ? ? ? ? ->|? ? ? ? ? ? ? ? ? ->|? ? ? ? ? ? ? ? ? ->]; cbn; lia.
  - unfold quiescent. intros Hq. destruct Hp as [? ? ? ? ? ->|t H1 Ho ? ? ->|? ? ? ? ? ? ? ->|? ? ? ? ? ? ? ->|t t' ? ? ? H1 Ho ->|? ? ? ? ? ? ? ? ? ->|? ? ? ? ? ? ? ? ? ->]; try done;
      rewrite H1 in Hq; cbn [settled] in Hq; destruct Ho as [Ho|[Ho _]]; rewrite Ho in Hq; rewrite ?andb_false_r in Hq; done.
  - intros e Hoff err E. destruct (step_phase _ _ _ Hp Hoff E) as (? & ? & _). done.
Qed.
End Dial.
End Dial.

(** The name is resolved, and the connection fails. *)
Definition sample_uri : uri := mkUri (lit "ws") (lit "localhost") (lit "/") 9002 false true.
Definition sample_run (es : list Dial.event) : option Dial.dial :=
  match Dial.async_connect 5000 0 [] None sample_uri with
  | Ok d => match Dial.run 5000 es d with Some (Ok d) => Some d | _ => None end
  | Err _ => None
  end.
Lemma connect_answered_once_witness : ∃ d d', Dial.async_connect 5000 0 [] None sample_uri = Ok d ∧ Dial.runs 5000 d d' ∧ Dial.quiescent d' = true ∧ length (Dial.answers d') = 1%nat.
Proof.
  destruct (Dial.async_connect 5000 0 [] None sample_uri) as [d|] eqn:E; [|discriminate E].
  set (es := [Dial.tick 10; Dial.resolved Dial.success; Dial.dns_handled; Dial.connected Dial.failure; Dial.con_handled]).
  destruct (Dial.run 5000 es d) as [[d'|]|] eqn:E2; [|vm_compute in E; injection E as <-; discriminate E2..].
  assert (Hq : Dial.quiescent d' = true) by (vm_compute in E; injection E as <-; vm_compute in E2; injection E2 as <-; reflexivity).
  assert (Hr : Dial.runs 5000 d d') by (eapply Dial.run_runs; [apply Dial.runs_start| |exact E2]; vm_compute in E; injection E as <-; reflexivity).
  exists d, d'. split; [reflexivity|]. split; [exact Hr|]. split; [exact Hq|].
  exact (proj1 (proj2 (Dial.connect_answered_once 5000 5000 0 [] None sample_uri d d' E Hr)) Hq).
Defined.
(** In the tick of the deadline both handlers act: the callback is told of a timeout and
    then of success. *)
Example answered_twice : ∃ d, sample_run [Dial.tick 5000; Dial.dns_expires; Dial.resolved Dial.success; Dial.dns_handled; Dial.connected Dial.success] = Some d ∧
  Dial.answers d = [Dial.transport transport_error.timeout; None].
Proof. eexists. split; vm_compute; reflexivity. Qed.
