(* ===== verification/WsEndpoint.v ===== *)
(** * Endpoints: servers and clients with their connections
    (src/websocketpp-master/websocketpp/endpoint.hpp, impl/endpoint_impl.hpp,
    roles/server_endpoint.hpp and roles/client_endpoint.hpp, over transport/asio/endpoint.hpp)

    An endpoint creates connections with its settings, accepts or connects them, and passes
    calls on to the connection of a handle.  Its connections are those of [WsConnection],
    each with an environment of its own.  The theorems: every connection of an endpoint is
    a run of a single connection, so that what is proved of one holds of all; and the loop
    that accepts goes on. *)

From S2P Require Import Prelude Bytes StdString SortedKeys HttpText HttpParser Uri WsFrame Utf8 WsProcessor WsHandshake WsHybi00 WsConnection WsSession.

Open Scope Z_scope.

Module Asio.
Inductive state := UNINITIALIZED | READY | LISTENING.
#[global] Instance state_eq_dec : EqDecision state.
Proof. solve_decision. Defined.
(** What asio reports of an accept; every other error is passed through. *)
Inductive accept_error := operation_canceled | other_error.
Definition translate_ec (ec : accept_error) : error_code := transport_ec transport_error.pass_through.
Definition accepted_ec (ec : option accept_error) : option error_code :=
  match ec with
  | Some operation_canceled => library error.operation_canceled
  | Some other_error => Some (translate_ec other_error)
  | None => None
  end.
End Asio.

Module Endpoint.
Section Endpoint.
Context `{Machine} `{Extension}.

(** ** State *)
Definition handler : Type := conn → program.
Record handlers := mkHandlers {
  m_open_handler : option handler;
  m_close_handler : option handler;
  m_fail_handler : option handler;
  m_ping_handler : option (list Z → handler);
  m_pong_handler : option (list Z → handler);
  m_pong_timeout_handler : option (list Z → handler);
  m_interrupt_handler : option handler;
  m_http_handler : option handler;
  m_validate_handler : option handler;
  m_message_handler : option (message → handler);
}.
Definition no_handlers : handlers := mkHandlers None None None None None None None None None None.
(** The setters of a connection. *)
Definition con_set_open_handler h (s : handlers) : handlers :=
  mkHandlers h (m_close_handler s) (m_fail_handler s) (m_ping_handler s) (m_pong_handler s) (m_pong_timeout_handler s) (m_interrupt_handler s) (m_http_handler s) (m_validate_handler s) (m_message_handler s).
Definition con_set_close_handler h (s : handlers) : handlers :=
  mkHandlers (m_open_handler s) h (m_fail_handler s) (m_ping_handler s) (m_pong_handler s) (m_pong_timeout_handler s) (m_interrupt_handler s) (m_http_handler s) (m_validate_handler s) (m_message_handler s).
Definition con_set_fail_handler h (s : handlers) : handlers :=
  mkHandlers (m_open_handler s) (m_close_handler s) h (m_ping_handler s) (m_pong_handler s) (m_pong_timeout_handler s) (m_interrupt_handler s) (m_http_handler s) (m_validate_handler s) (m_message_handler s).
Definition con_set_ping_handler h (s : handlers) : handlers :=
  mkHandlers (m_open_handler s) (m_close_handler s) (m_fail_handler s) h (m_pong_handler s) (m_pong_timeout_handler s) (m_interrupt_handler s) (m_http_handler s) (m_validate_handler s) (m_message_handler s).
Definition con_set_pong_handler h (s : handlers) : handlers :=
  mkHandlers (m_open_handler s) (m_close_handler s) (m_fail_handler s) (m_ping_handler s) h (m_pong_timeout_handler s) (m_interrupt_handler s) (m_http_handler s) (m_validate_handler s) (m_message_handler s).
Definition con_set_pong_timeout_handler h (s : handlers) : handlers :=
  mkHandlers (m_open_handler s) (m_close_handler s) (m_fail_handler s) (m_ping_handler s) (m_pong_handler s) h (m_interrupt_handler s) (m_http_handler s) (m_validate_handler s) (m_message_handler s).
Definition con_set_interrupt_handler h (s : handlers) : handlers :=
  mkHandlers (m_open_handler s) (m_close_handler s) (m_fail_handler s) (m_ping_handler s) (m_pong_handler s) (m_pong_timeout_handler s) h (m_http_handler s) (m_validate_handler s) (m_message_handler s).
Definition con_set_http_handler h (s : handlers) : handlers :=
  mkHandlers (m_open_handler s) (m_close_handler s) (m_fail_handler s) (m_ping_handler s) (m_pong_handler s) (m_pong_timeout_handler s) (m_interrupt_handler s) h (m_validate_handler s) (m_message_handler s).
Definition con_set_validate_handler h (s : handlers) : handlers :=
  mkHandlers (m_open_handler s) (m_close_handler s) (m_fail_handler s) (m_ping_handler s) (m_pong_handler s) (m_pong_timeout_handler s) (m_interrupt_handler s) (m_http_handler s) h (m_message_handler s).
Definition con_set_message_handler h (s : handlers) : handlers :=
  mkHandlers (m_open_handler s) (m_close_handler s) (m_fail_handler s) (m_ping_handler s) (m_pong_handler s) (m_pong_timeout_handler s) (m_interrupt_handler s) (m_http_handler s) (m_validate_handler s) h.
(** The handlers of a connection by the point at which they are called; an endpoint sets
    none for its termination. *)
Definition handlers_app (h : handlers) (cb : callback) : option (conn → program) :=
  match cb with
  | on_open => m_open_handler h
  | on_close => m_close_handler h
  | on_fail => m_fail_handler h
  | on_ping p => f ← m_ping_handler h; Some (f p)
  | on_pong p => f ← m_pong_handler h; Some (f p)
  | on_pong_timeout p => f ← m_pong_timeout_handler h; Some (f p)
  | on_interrupt => m_interrupt_handler h
  | on_http => m_http_handler h
  | on_validate => m_validate_handler h
  | on_message m => f ← m_message_handler h; Some (f m)
  | on_termination => None
  end.
(** A connection with what the endpoint gave it; [attached] until its accept or its
    connect has failed. *)
Record entry := mkEntry { con_config : configuration; con_handlers : handlers; con : conn; attached : bool }.
(** [static]: the settings of the template argument, and the defaults of the others. *)
Record endpoint := mkEndpoint {
  static : configuration;
  m_user_agent : str;
  m_handlers : handlers;
  m_open_handshake_timeout_dur : Z;
  m_close_handshake_timeout_dur : Z;
  m_pong_timeout_dur : Z;
  m_max_message_size : Z;
  m_max_http_body_size : Z;
  m_is_server : bool;
  m_state : Asio.state;
  accepts : list nat;     (** accepts that asio has not completed *)
  connects : list nat;    (** attempts to connect that have not called back *)
  connections : gmap nat entry;
  next_id : nat;
}.
Definition new_endpoint (static : configuration) (server : bool) : endpoint :=
  mkEndpoint static (lit "WebSocket++/0.8.2") no_handlers (WsConnection.m_open_handshake_timeout_dur static)
    (WsConnection.m_close_handshake_timeout_dur static) (WsConnection.m_pong_timeout_dur static) (WsConnection.m_max_message_size static)
    (WsConnection.m_max_http_body_size static) server Asio.UNINITIALIZED [] [] ∅ 0.
Definition put_user_agent (v : str) (e : endpoint) : endpoint :=
  mkEndpoint (static e) v (m_handlers e) (m_open_handshake_timeout_dur e) (m_close_handshake_timeout_dur e) (m_pong_timeout_dur e) (m_max_message_size e)
    (m_max_http_body_size e) (m_is_server e) (m_state e) (accepts e) (connects e) (connections e) (next_id e).
Definition put_handlers (v : handlers) (e : endpoint) : endpoint :=
  mkEndpoint (static e) (m_user_agent e) v (m_open_handshake_timeout_dur e) (m_close_handshake_timeout_dur e) (m_pong_timeout_dur e) (m_max_message_size e)
    (m_max_http_body_size e) (m_is_server e) (m_state e) (accepts e) (connects e) (connections e) (next_id e).
Definition put_limits (open_dur close_dur pong_dur max_message max_body : Z) (e : endpoint) : endpoint :=
  mkEndpoint (static e) (m_user_agent e) (m_handlers e) open_dur close_dur pong_dur max_message max_body (m_is_server e) (m_state e)
    (accepts e) (connects e) (connections e) (next_id e).
Definition put_state (v : Asio.state) (e : endpoint) : endpoint :=
  mkEndpoint (static e) (m_user_agent e) (m_handlers e) (m_open_handshake_timeout_dur e) (m_close_handshake_timeout_dur e) (m_pong_timeout_dur e) (m_max_message_size e)
    (m_max_http_body_size e) (m_is_server e) v (accepts e) (connects e) (connections e) (next_id e).
Definition put_operations (acc con : list nat) (e : endpoint) : endpoint :=
  mkEndpoint (static e) (m_user_agent e) (m_handlers e) (m_open_handshake_timeout_dur e) (m_close_handshake_timeout_dur e) (m_pong_timeout_dur e) (m_max_message_size e)
    (m_max_http_body_size e) (m_is_server e) (m_state e) acc con (connections e) (next_id e).
Definition put_connections (v : gmap nat entry) (n : nat) (e : endpoint) : endpoint :=
  mkEndpoint (static e) (m_user_agent e) (m_handlers e) (m_open_handshake_timeout_dur e) (m_close_handshake_timeout_dur e) (m_pong_timeout_dur e) (m_max_message_size e)
    (m_max_http_body_size e) (m_is_server e) (m_state e) (accepts e) (connects e) v n.

(** ** Settings: they hold for the connections created later *)
Definition set_user_agent (ua : str) (e : endpoint) : endpoint := put_user_agent ua e.
Definition set_open_handler h (e : endpoint) : endpoint := put_handlers (con_set_open_handler h (m_handlers e)) e.
Definition set_close_handler h (e : endpoint) : endpoint := put_handlers (con_set_close_handler h (m_handlers e)) e.
Definition set_fail_handler h (e : endpoint) : endpoint := put_handlers (con_set_fail_handler h (m_handlers e)) e.
Definition set_ping_handler h (e : endpoint) : endpoint := put_handlers (con_set_ping_handler h (m_handlers e)) e.
Definition set_pong_handler h (e : endpoint) : endpoint := put_handlers (con_set_pong_handler h (m_handlers e)) e.
Definition set_pong_timeout_handler h (e : endpoint) : endpoint := put_handlers (con_set_pong_timeout_handler h (m_handlers e)) e.
Definition set_interrupt_handler h (e : endpoint) : endpoint := put_handlers (con_set_interrupt_handler h (m_handlers e)) e.
Definition set_http_handler h (e : endpoint) : endpoint := put_handlers (con_set_http_handler h (m_handlers e)) e.
Definition set_validate_handler h (e : endpoint) : endpoint := put_handlers (con_set_validate_handler h (m_handlers e)) e.
Definition set_message_handler h (e : endpoint) : endpoint := put_handlers (con_set_message_handler h (m_handlers e)) e.
Definition set_open_handshake_timeout (dur : Z) (e : endpoint) : endpoint :=
  put_limits dur (m_close_handshake_timeout_dur e) (m_pong_timeout_dur e) (m_max_message_size e) (m_max_http_body_size e) e.
Definition set_close_handshake_timeout (dur : Z) (e : endpoint) : endpoint :=
  put_limits (m_open_handshake_timeout_dur e) dur (m_pong_timeout_dur e) (m_max_message_size e) (m_max_http_body_size e) e.
Definition set_pong_timeout (dur : Z) (e : endpoint) : endpoint :=
  put_limits (m_open_handshake_timeout_dur e) (m_close_handshake_timeout_dur e) dur (m_max_message_size e) (m_max_http_body_size e) e.
Definition set_max_message_size (new_value : Z) (e : endpoint) : endpoint :=
  put_limits (m_open_handshake_timeout_dur e) (m_close_handshake_timeout_dur e) (m_pong_timeout_dur e) new_value (m_max_http_body_size e) e.
Definition set_max_http_body_size (new_value : Z) (e : endpoint) : endpoint :=
  put_limits (m_open_handshake_timeout_dur e) (m_close_handshake_timeout_dur e) (m_pong_timeout_dur e) (m_max_message_size e) new_value e.
Inductive setting :=
  | UserAgent (ua : str) | OpenHandler (h : option handler) | CloseHandler (h : option handler) | FailHandler (h : option handler)
  | PingHandler (h : option (list Z → handler)) | PongHandler (h : option (list Z → handler)) | PongTimeoutHandler (h : option (list Z → handler))
  | InterruptHandler (h : option handler) | HttpHandler (h : option handler) | ValidateHandler (h : option handler) | MessageHandler (h : option (message → handler))
  | OpenHandshakeTimeout (dur : Z) | CloseHandshakeTimeout (dur : Z) | PongTimeout (dur : Z) | MaxMessageSize (n : Z) | MaxHttpBodySize (n : Z).
Definition configure (s : setting) : endpoint → endpoint :=
  match s with
  | UserAgent ua => set_user_agent ua
  | OpenHandler h => set_open_handler h
  | CloseHandler h => set_close_handler h
  | FailHandler h => set_fail_handler h
  | PingHandler h => set_ping_handler h
  | PongHandler h => set_pong_handler h
  | PongTimeoutHandler h => set_pong_timeout_handler h
  | InterruptHandler h => set_interrupt_handler h
  | HttpHandler h => set_http_handler h
  | ValidateHandler h => set_validate_handler h
  | MessageHandler h => set_message_handler h
  | OpenHandshakeTimeout dur => set_open_handshake_timeout dur
  | CloseHandshakeTimeout dur => set_close_handshake_timeout dur
  | PongTimeout dur => set_pong_timeout dur
  | MaxMessageSize n => set_max_message_size n
  | MaxHttpBodySize n => set_max_http_body_size n
  end.

(** ** Connections *)
(** What lies outside of a connection: its part of the random numbers, and what its arrays
    and its new extension hold. *)
Record environment := mkEnv { rng : nat → Z; w0 : list Z; buf0 : list Z; key_final0 : list Z; deflate0 : deflate_state; raw : list Z }.
Variable env : nat → environment.
Definition con_set_limits (open_dur close_dur pong_dur max_message max_body : Z) (cfg : configuration) : configuration :=
  mkConfig (is_server cfg) (is_secure cfg) (client_version cfg) (connection_read_buffer_size cfg) (drop_on_protocol_error cfg) (silent_close cfg)
    (enable_extensions cfg) (WsConnection.m_user_agent cfg) max_message open_dur close_dur pong_dur max_body.
Definition con_set_open_handshake_timeout (dur : Z) (cfg : configuration) : configuration :=
  con_set_limits dur (WsConnection.m_close_handshake_timeout_dur cfg) (WsConnection.m_pong_timeout_dur cfg) (WsConnection.m_max_message_size cfg) (WsConnection.m_max_http_body_size cfg) cfg.
Definition con_set_close_handshake_timeout (dur : Z) (cfg : configuration) : configuration :=
  con_set_limits (WsConnection.m_open_handshake_timeout_dur cfg) dur (WsConnection.m_pong_timeout_dur cfg) (WsConnection.m_max_message_size cfg) (WsConnection.m_max_http_body_size cfg) cfg.
Definition con_set_pong_timeout (dur : Z) (cfg : configuration) : configuration :=
  con_set_limits (WsConnection.m_open_handshake_timeout_dur cfg) (WsConnection.m_close_handshake_timeout_dur cfg) dur (WsConnection.m_max_message_size cfg) (WsConnection.m_max_http_body_size cfg) cfg.
Definition con_set_max_message_size (n : Z) (cfg : configuration) : configuration :=
  con_set_limits (WsConnection.m_open_handshake_timeout_dur cfg) (WsConnection.m_close_handshake_timeout_dur cfg) (WsConnection.m_pong_timeout_dur cfg) n (WsConnection.m_max_http_body_size cfg) cfg.
Definition con_set_max_http_body_size (n : Z) (cfg : configuration) : configuration :=
  con_set_limits (WsConnection.m_open_handshake_timeout_dur cfg) (WsConnection.m_close_handshake_timeout_dur cfg) (WsConnection.m_pong_timeout_dur cfg) (WsConnection.m_max_message_size cfg) n cfg.
(** The constructor of a connection, with role and name of the endpoint. *)
Definition base_config (e : endpoint) : configuration :=
  let s := static e in
  mkConfig (m_is_server e) (is_secure s) (client_version s) (connection_read_buffer_size s) (drop_on_protocol_error s) (silent_close s)
    (enable_extensions s) (m_user_agent e) (WsConnection.m_max_message_size s) (WsConnection.m_open_handshake_timeout_dur s)
    (WsConnection.m_close_handshake_timeout_dur s) (WsConnection.m_pong_timeout_dur s) (WsConnection.m_max_http_body_size s).
Definition connection_config (e : endpoint) : configuration :=
  let s := static e in
  let cfg := base_config e in
  let cfg := if negb (m_open_handshake_timeout_dur e =? WsConnection.m_open_handshake_timeout_dur s) then con_set_open_handshake_timeout (m_open_handshake_timeout_dur e) cfg else cfg in
  let cfg := if negb (m_close_handshake_timeout_dur e =? WsConnection.m_close_handshake_timeout_dur s) then con_set_close_handshake_timeout (m_close_handshake_timeout_dur e) cfg else cfg in
  let cfg := if negb (m_pong_timeout_dur e =? WsConnection.m_pong_timeout_dur s) then con_set_pong_timeout (m_pong_timeout_dur e) cfg else cfg in
  let cfg := if negb (m_max_message_size e =? WsConnection.m_max_message_size s) then con_set_max_message_size (m_max_message_size e) cfg else cfg in
  con_set_max_http_body_size (m_max_http_body_size e) cfg.
Definition connection_handlers (e : endpoint) : handlers :=
  let s := m_handlers e in
  let h := con_set_open_handler (m_open_handler s) no_handlers in
  let h := con_set_close_handler (m_close_handler s) h in
  let h := con_set_fail_handler (m_fail_handler s) h in
  let h := con_set_ping_handler (m_ping_handler s) h in
  let h := con_set_pong_handler (m_pong_handler s) h in
  let h := con_set_pong_timeout_handler (m_pong_timeout_handler s) h in
  let h := con_set_interrupt_handler (m_interrupt_handler s) h in
  let h := con_set_http_handler (m_http_handler s) h in
  let h := con_set_validate_handler (m_validate_handler s) h in
  con_set_message_handler (m_message_handler s) h.
(** The new connection, or none when the transport does not take it ([init_ec]). *)
Definition create_connection (init_ec : option error_code) (e : endpoint) : option nat * endpoint :=
  match init_ec with
  | Some _ => (None, put_connections (connections e) (S (next_id e)) e)
  | None =>
      let id := next_id e in
      let cfg := connection_config e in
      (Some id, put_connections (<[id := mkEntry cfg (connection_handlers e) (new_connection cfg (raw (env id))) true]> (connections e)) (S id) e)
  end.

(** An operation on one connection; its pointer keeps it alive. *)
Definition on_connection (id : nat) (f : entry → outcome conn) (keep : bool) (e : endpoint) : outcome endpoint :=
  match connections e !! id with
  | None => Stuck DanglingPtr
  | Some en =>
      c ← f en;
      mret (put_connections (<[id := mkEntry (con_config en) (con_handlers en) c (attached en && keep)]> (connections e)) (next_id e) e)
  end.
Definition con_terminate (id : nat) (ec : option error_code) (en : entry) : outcome conn :=
  terminate (con_config en) (rng (env id)) (handlers_app (con_handlers en)) ec (con en).
Definition con_start (id : nat) (init_ec : option error_code) (en : entry) : outcome conn :=
  start (con_config en) (rng (env id)) (deflate0 (env id)) (handlers_app (con_handlers en)) init_ec (con en).
Definition con_call (id : nat) (a : call) (en : entry) : outcome (result * conn) :=
  do_call (con_config en) (rng (env id)) (handlers_app (con_handlers en)) a (con en).
Definition con_step (id : nat) (ev : event) (en : entry) : option (outcome conn) :=
  step (con_config en) (rng (env id)) (w0 (env id)) (buf0 (env id)) (key_final0 (env id)) (deflate0 (env id)) (handlers_app (con_handlers en)) ev (con en).

(** ** The transport *)
Definition init_asio (e : endpoint) : option error_code * endpoint :=
  if negb (bool_decide (m_state e = Asio.UNINITIALIZED)) then (library error.invalid_state, e) else (None, put_state Asio.READY e).
(** [bec]: the error of the first call on the acceptor that fails. *)
Definition listen (bec : option Asio.accept_error) (e : endpoint) : option error_code * endpoint :=
  if negb (bool_decide (m_state e = Asio.READY)) then (library error.invalid_state, e)
  else match bec with
       | Some x => (Some (Asio.translate_ec x), e)
       | None => (None, put_state Asio.LISTENING e)
       end.
Definition stop_listening (e : endpoint) : option error_code * endpoint :=
  if negb (bool_decide (m_state e = Asio.LISTENING)) then (library error.invalid_state, e) else (None, put_state Asio.READY e).
Definition is_listening (e : endpoint) : bool := bool_decide (m_state e = Asio.LISTENING).
Definition async_accept (id : nat) (e : endpoint) : option error_code * endpoint :=
  if negb (is_listening e) then (library error.async_accept_not_listening, e) else (None, put_operations (accepts e ++ [id]) (connects e) e).

(** ** Servers *)
Definition start_accept (init_ec : option error_code) (e : endpoint) : outcome (option error_code * endpoint) :=
  if negb (is_listening e) then mret (library error.async_accept_not_listening, e)
  else
    let '(con, e) := create_connection init_ec e in
    match con with
    | None => mret (library error.con_creation_failed, e)
    | Some id =>
        let '(ec, e) := async_accept id e in
        match ec with
        | Some _ => e ← on_connection id (con_terminate id None) false e; mret (ec, e)
        | None => mret (None, e)
        end
    end.
(** The result of restarting is only logged. *)
Definition handle_accept (id : nat) (ec start_ec init_ec : option error_code) (e : endpoint) : outcome endpoint :=
  e ← match ec with
      | Some _ => on_connection id (con_terminate id ec) false e
      | None => on_connection id (con_start id start_ec) true e
      end;
  '(_, e) ← start_accept init_ec e;
  mret e.

(** ** Clients *)
Definition get_connection (location : uri) (init_ec : option error_code) (e : endpoint) : outcome (option error_code * option nat * endpoint) :=
  if m_secure location && negb (is_secure (static e)) then mret (library error.endpoint_not_secure, None, e)
  else
    let '(con, e) := create_connection init_ec e in
    match con with
    | None => mret (library error.con_creation_failed, None, e)
    | Some id =>
        e ← on_connection id (λ en, '(_, c) ← con_call id (SetUri location) en; mret c) true e;
        mret (None, Some id, e)
    end.
Definition get_connection_str (u : str) (init_ec : option error_code) (e : endpoint) : outcome (option error_code * option nat * endpoint) :=
  match parse_uri u with
  | Err x => Stuck x
  | Ok location => if negb (m_valid location) then mret (library error.invalid_uri, None, e) else get_connection location init_ec e
  end.
Definition connect (id : nat) (e : endpoint) : endpoint := put_operations (accepts e) (connects e ++ [id]) e.
Definition handle_connect (id : nat) (ec start_ec : option error_code) (e : endpoint) : outcome endpoint :=
  match ec with
  | Some _ => on_connection id (con_terminate id ec) false e
  | None => on_connection id (con_start id start_ec) true e
  end.

(** ** Calls by handle

    A handle whose connection is gone is reported.  The overloads without an error code
    throw what these give. *)
Definition get_con_from_hdl (hdl : nat) (e : endpoint) : option error_code * option entry :=
  match connections e !! hdl with
  | None => (library error.bad_connection, None)
  | Some en => (None, Some en)
  end.
Definition pass_on (hdl : nat) (a : call) (e : endpoint) : outcome (result * endpoint) :=
  match get_con_from_hdl hdl e with
  | (_, Some en) =>
      '(r, c) ← con_call hdl a en;
      mret (r, put_connections (<[hdl := mkEntry (con_config en) (con_handlers en) c (attached en)]> (connections e)) (next_id e) e)
  | (ec, None) => mret (Replied ec, e)
  end.

Definition interrupt (hdl : nat) := pass_on hdl Interrupt.
Definition pause_reading (hdl : nat) := pass_on hdl PauseReading.
Definition resume_reading (hdl : nat) := pass_on hdl ResumeReading.
Definition send_http_response (hdl : nat) := pass_on hdl SendHttpResponse.
Definition send_text (hdl : nat) (payload : list Z) (op : Z) := pass_on hdl (Send payload op).
Definition send_bytes (hdl : nat) (payload : list Z) (op : Z) := pass_on hdl (SendBytes payload op).
Definition send (hdl : nat) (msg : message) := pass_on hdl (SendMessage msg).
Definition close (hdl : nat) (code : Z) (reason : list Z) := pass_on hdl (Close code reason).
Definition ping (hdl : nat) (payload : list Z) := pass_on hdl (Ping payload).
Definition pong (hdl : nat) (payload : list Z) := pass_on hdl (Pong payload).
(** What a program may call on an endpoint. *)
Inductive request :=
  | InterruptCon (hdl : nat) | PauseCon (hdl : nat) | ResumeCon (hdl : nat) | SendHttpCon (hdl : nat)
  | SendText (hdl : nat) (payload : list Z) (op : Z) | SendBin (hdl : nat) (payload : list Z) (op : Z) | SendMsg (hdl : nat) (m : message)
  | CloseCon (hdl : nat) (code : Z) (reason : list Z) | PingCon (hdl : nat) (payload : list Z) | PongCon (hdl : nat) (payload : list Z).
Definition serve (r : request) : endpoint → outcome (result * endpoint) :=
  match r with
  | InterruptCon hdl => interrupt hdl
  | PauseCon hdl => pause_reading hdl
  | ResumeCon hdl => resume_reading hdl
  | SendHttpCon hdl => send_http_response hdl
  | SendText hdl p op => send_text hdl p op
  | SendBin hdl p op => send_bytes hdl p op
  | SendMsg hdl m => send hdl m
  | CloseCon hdl code reason => close hdl code reason
  | PingCon hdl p => ping hdl p
  | PongCon hdl p => pong hdl p
  end.

(** ** Steps *)
Inductive endpoint_event :=
  | Configure (s : setting)
  | InitAsio | Listen (bec : option Asio.accept_error) | StopListening
  | StartAccept (init_ec : option error_code)
  | AcceptDone (ec : option Asio.accept_error) (start_ec init_ec : option error_code)   (** asio has a result for the oldest accept *)
  | GetConnection (location : uri) (init_ec : option error_code)
  | GetConnectionStr (u : str) (init_ec : option error_code)
  | Connect (id : nat)
  | ConnectDone (id : nat) (ec start_ec : option error_code)
  | Request (r : request)
  | ConnectionEvent (id : nat) (ev : event)
  | Release (id : nat).   (** the last pointer to a connection goes *)
(** The transport holds the connection. *)
Definition held (id : nat) (en : entry) (e : endpoint) : bool :=
  let t := transport_of (con en) in
  bool_decide (id ∈ accepts e) || bool_decide (id ∈ connects e) ||
  negb (bool_decide (length (tasks t) = 0%nat) && bool_decide (length (reads t) = 0%nat) && bool_decide (length (writes t) = 0%nat) && bool_decide (length (timers t) = 0%nat)).
Fixpoint remove_one (id : nat) (l : list nat) : option (list nat) :=
  match l with
  | [] => None
  | x :: l => if bool_decide (x = id) then Some l else l ← remove_one id l; Some (x :: l)
  end.
Definition endpoint_step (ev : endpoint_event) (e : endpoint) : option (outcome endpoint) :=
  match ev with
  | Configure s => Some (mret (configure s e))
  | InitAsio => Some (mret (init_asio e).2)
  | Listen bec => Some (mret (listen bec e).2)
  | StopListening => Some (mret (stop_listening e).2)
  | StartAccept init_ec => Some ('(_, e) ← start_accept init_ec e; mret e)
  | AcceptDone ec start_ec init_ec =>
      match accepts e with
      | [] => None
      | id :: ids => Some (handle_accept id (Asio.accepted_ec ec) start_ec init_ec (put_operations ids (connects e) e))
      end
  | GetConnection u init_ec => Some ('(_, _, e) ← get_connection u init_ec e; mret e)
  | GetConnectionStr u init_ec => Some ('(_, _, e) ← get_connection_str u init_ec e; mret e)
  | Connect id => match connections e !! id with Some _ => Some (mret (connect id e)) | None => None end
  | ConnectDone id ec start_ec =>
      match remove_one id (connects e) with
      | None => None
      | Some ids => Some (handle_connect id ec start_ec (put_operations (accepts e) ids e))
      end
  | Request r => Some ('(_, e) ← serve r e; mret e)
  | ConnectionEvent id ev =>
      match connections e !! id, ev with
      | Some en, start_connection _ => None
      | Some en, _ =>
          match con_step id ev en with
          | None => None
          | Some _ => Some (on_connection id (λ en, match con_step id ev en with Some r => r | None => mret (con en) end) true e)
          end
      | None, _ => None
      end
  | Release id =>
      match connections e !! id with
      | Some en => if held id en e then None else Some (mret (put_connections (delete id (connections e)) (next_id e) e))
      | None => None
      end
  end.
Inductive endpoint_runs : endpoint → endpoint → Prop :=
  | run_none e : endpoint_runs e e
  | run_event ev e e' e'' : endpoint_runs e e' → endpoint_step ev e' = Some (Returns e'') → endpoint_runs e e''.
Fixpoint run_endpoint (evs : list endpoint_event) (e : endpoint) : option (outcome endpoint) :=
  match evs with
  | [] => Some (mret e)
  | ev :: evs => match endpoint_step ev e with None => None | Some (Returns e) => run_endpoint evs e | Some r => Some r end
  end.
Definition entry_reachable (id : nat) (en : entry) : Prop :=
  reachable (con_config en) (rng (env id)) (w0 (env id)) (buf0 (env id)) (key_final0 (env id)) (deflate0 (env id)) (handlers_app (con_handlers en)) (raw (env id)) (con en).

Lemma remove_one_elem id l l' : remove_one id l = Some l' → id ∈ l ∧ ∀ x, x ∈ l' → x ∈ l.
Proof.
  revert l'. induction l as [|y l IH]; intros l' E; cbn [remove_one] in E; [done|]. case_bool_decide; [injection E as <-; subst; split; [left|by right]|].
  destruct (remove_one id l) as [l1|]; [|done]. injection E as <-. destruct (IH l1 eq_refl) as [Hin Hsub]. split; [by right|]. intros x [->|Hx]%elem_of_cons; [left|right; auto].
Qed.
(** ** Every connection is a single connection

    [settled e e']: the connections may have changed, the rest of the endpoint has not. *)
Definition entry_ok (server : bool) (id : nat) (en : entry) : Prop :=
  is_server (con_config en) = server ∧ acts server new_view (view_of (con en)) ∧ (attached en = true → entry_reachable id en).
Definition entries_ok (e : endpoint) : Prop := map_Forall (entry_ok (m_is_server e)) (connections e).
Definition pointers_ok (e : endpoint) : Prop := ∀ id, id ∈ accepts e ∨ id ∈ connects e → is_Some (connections e !! id).
Definition endpoint_ok (e : endpoint) : Prop := entries_ok e ∧ pointers_ok e.
Definition grows (e e' : endpoint) : Prop :=
  m_is_server e' = m_is_server e ∧ m_state e' = m_state e ∧ accepts e' = accepts e ∧ connects e' = connects e ∧ dom (connections e) ⊆ dom (connections e').
#[global] Instance grows_preorder : PreOrder grows.
Proof. split; [by intros e|]. intros a b c (?&?&?&?&?) (?&?&?&?&?). split_and!; (congruence || set_solver). Qed.
Lemma grows_pointers e e' : grows e e' → pointers_ok e → pointers_ok e'.
Proof.
  intros (_ & _ & Ha & Hc & Hd) Hp id Hid. rewrite Ha, Hc in Hid. apply Hp in Hid. apply elem_of_dom. apply elem_of_dom in Hid. set_solver.
Qed.
Lemma entries_insert e id en n : entries_ok e → entry_ok (m_is_server e) id en → entries_ok (put_connections (<[id := en]> (connections e)) n e).
Proof. intros He Hen. change (map_Forall (entry_ok (m_is_server e)) (<[id := en]> (connections e))). by apply map_Forall_insert_2. Qed.
Lemma connection_config_server e : is_server (connection_config e) = m_is_server e.
Proof. unfold connection_config. cbv zeta. by repeat case_match. Qed.
Lemma create_connection_ok init_ec e o e' : entries_ok e → create_connection init_ec e = (o, e') →
  entries_ok e' ∧ grows e e' ∧ ∀ id, o = Some id → ∃ en, connections e' !! id = Some en ∧ con en = new_connection (con_config en) (raw (env id)).
Proof.
  intros He. unfold create_connection. destruct init_ec; intros [= <- <-]; [by split_and!|]. cbn. split_and!.
  - apply entries_insert; [done|]. split_and!; [apply connection_config_server|apply rtc_refl|]. intros _. apply reach_new.
  - split_and!; try done. cbn. rewrite dom_insert. set_solver.
  - intros id [= <-]. eexists. split; [apply lookup_insert_eq|done].
Qed.
Lemma on_connection_ok id f keep e e' : entries_ok e → on_connection id f keep e = Returns e' →
  (∀ en c, connections e !! id = Some en → entry_ok (m_is_server e) id en → f en = Returns c →
    acts (m_is_server e) new_view (view_of c) ∧ (attached en && keep = true → entry_reachable id (mkEntry (con_config en) (con_handlers en) c true))) →
  entries_ok e' ∧ grows e e'.
Proof.
  intros He E Hf. unfold on_connection in E. destruct (connections e !! id) as [en|] eqn:Eid; [|done]. destruct (f en) as [c| |] eqn:Ef; [|done..]. injection E as <-.
  pose proof (He _ _ Eid) as Hen. destruct (Hf en c eq_refl Hen Ef) as [Ha Hr]. split.
  - apply entries_insert; [done|]. split_and!; [apply Hen|exact Ha|]. cbn. intros Hk. by apply Hr.
  - split_and!; try done. cbn. rewrite dom_insert. set_solver.
Qed.
Lemma terminate_ok id ec e e' : entries_ok e → on_connection id (con_terminate id ec) false e = Returns e' → entries_ok e' ∧ grows e e'.
Proof.
  intros He E. eapply on_connection_ok; [done|exact E|]. intros en c _ (Hs & Ha & _) Ef. rewrite andb_false_r. split; [|done].
  etrans; [exact Ha|]. rewrite <- Hs. by eapply terminate_refines.
Qed.
Lemma step_entry id ev en c : entry_ok (is_server (con_config en)) id en → con_step id ev en = Some (Returns c) →
  acts (is_server (con_config en)) new_view (view_of c) ∧ (attached en = true → entry_reachable id (mkEntry (con_config en) (con_handlers en) c true)).
Proof.
  intros (_ & Ha & Hr) E. split.
  - etrans; [exact Ha|]. eapply step_refines; [|exact E]. eapply acts_live_ok; [exact Ha|apply new_live_ok].
  - intros Hat. eapply reach_step; [by apply Hr|exact E].
Qed.
Lemma steps_ok id ev f e e' : entries_ok e → (∀ en c, f en = Returns c → con_step id ev en = Some (Returns c)) →
  on_connection id f true e = Returns e' → entries_ok e' ∧ grows e e'.
Proof.
  intros He Hf E. eapply on_connection_ok; [done|exact E|]. intros en c _ Hen Ef. pose proof (proj1 Hen) as Hs. rewrite <- Hs in *. rewrite andb_true_r. by eapply step_entry; [|apply Hf].
Qed.
Lemma pass_on_ok hdl a e r e' : entries_ok e → pass_on hdl a e = Returns (r, e') → entries_ok e' ∧ grows e e'.
Proof.
  intros He E. unfold pass_on, get_con_from_hdl in E. destruct (connections e !! hdl) as [en|] eqn:Eid; [|by injection E as <- <-].
  destruct (con_call hdl a en) as [[r0 c]| |] eqn:Ec; [|done..]. injection E as <- <-. pose proof (He _ _ Eid) as Hen. pose proof (proj1 Hen) as Hs.
  destruct (step_entry hdl (user_call a) en c) as [Ha Hr].
  - by rewrite Hs.
  - unfold con_step, con_call in *. cbn [step]. by rewrite Ec.
  - split; [|split_and!; try done; cbn; rewrite dom_insert; set_solver]. apply entries_insert; [done|]. rewrite Hs in Ha. by split_and!.
Qed.
Lemma start_accept_ok init_ec e ec e' : endpoint_ok e → start_accept init_ec e = Returns (ec, e') →
  endpoint_ok e' ∧ m_is_server e' = m_is_server e ∧ m_state e' = m_state e ∧
  (init_ec = None → is_listening e = true → ∃ id en, accepts e' = accepts e ++ [id] ∧ connections e' !! id = Some en ∧ con en = new_connection (con_config en) (raw (env id))).
Proof.
  intros [He Hp] E. unfold start_accept in E. destruct (is_listening e) eqn:El; cbn [negb] in E; [|by injection E as <- <-].
  destruct (create_connection init_ec e) as [o e1] eqn:Ec. destruct (create_connection_ok _ _ _ _ He Ec) as (He1 & Hg & Hnew). destruct o as [id|].
  2: { injection E as <- <-. unfold create_connection in Ec. destruct init_ec; [|done]. split_and!; [split; [done|by eapply grows_pointers]|by apply Hg|by apply Hg|done]. }
  unfold async_accept in E. assert (is_listening e1 = true) as El1 by (unfold is_listening in *; by rewrite (proj1 (proj2 Hg))). rewrite El1 in E. injection E as <- <-.
  destruct (Hnew id eq_refl) as (en & Hid & Hcon). split_and!; [split; [done|]|by apply Hg|by apply Hg|].
  - intros id' Hid'. cbn in Hid'. destruct Hid' as [[Ha|Ha%list_elem_of_singleton]%elem_of_app|Hc]; [|by subst; exists en|]; apply (grows_pointers _ _ Hg Hp); auto.
  - intros _ _. exists id, en. split_and!; [|done|done]. cbn. by rewrite (proj1 (proj2 (proj2 Hg))).
Qed.
Lemma entries_ok_eq e e' : m_is_server e' = m_is_server e → connections e' = connections e → entries_ok e → entries_ok e'.
Proof. unfold entries_ok. by intros -> ->. Qed.
Lemma shrink_ok e acc cons : endpoint_ok e → (∀ id, id ∈ acc ∨ id ∈ cons → id ∈ accepts e ∨ id ∈ connects e) → endpoint_ok (put_operations acc cons e).
Proof. intros [He Hp] Hs. split; [done|]. intros id Hid. apply (Hp id), Hs, Hid. Qed.
Lemma grown_ok e e' : endpoint_ok e → entries_ok e' ∧ grows e e' → endpoint_ok e' ∧ m_is_server e' = m_is_server e.
Proof. intros [_ Hp] [He Hg]. split; [split; [done|by eapply grows_pointers]|apply Hg]. Qed.
(** The result of an operation that acts on a connection. *)
Lemma result_ok id ec start_ec e e' : endpoint_ok e →
  match ec with Some _ => on_connection id (con_terminate id ec) false e | None => on_connection id (con_start id start_ec) true e end = Returns e' →
  entries_ok e' ∧ grows e e'.
Proof.
  intros [He _] E. destruct ec; [by eapply terminate_ok|]. eapply (steps_ok id (start_connection start_ec)); [done| |exact E]. intros en c Ef. unfold con_step. cbn [step]. by rewrite <- Ef.
Qed.
Lemma get_connection_ok u init_ec e ec o e' : entries_ok e → get_connection u init_ec e = Returns (ec, o, e') → entries_ok e' ∧ grows e e'.
Proof.
  intros He E. unfold get_connection in E. destruct (_ && _); [by injection E as <- <- <-|].
  destruct (create_connection init_ec e) as [o1 e1] eqn:Ec. destruct (create_connection_ok _ _ _ _ He Ec) as (He1 & Hg & _). destruct o1 as [id|].
  2: { by injection E as <- <- <-. }
  apply bind_returns in E as (e2 & E2 & E). injection E as <- <- <-.
  assert (entries_ok e2 ∧ grows e1 e2) as [He2 Hg2]; [|split; [done|by etrans]].
  eapply (steps_ok id (user_call (SetUri u))); [exact He1| |exact E2]. intros en c Ef. unfold con_step. cbn [step]. by rewrite <- Ef.
Qed.
(** The events that start, finish and release nothing. *)
Definition plain (ev : endpoint_event) : bool :=
  match ev with GetConnection _ _ | GetConnectionStr _ _ | Request _ | ConnectionEvent _ _ => true | _ => false end.
Lemma plain_step_ok ev e e' : entries_ok e → plain ev = true → endpoint_step ev e = Some (Returns e') → entries_ok e' ∧ grows e e'.
Proof.
  intros He Hpl E. destruct ev as [| | | | | |u init_ec|u init_ec| | |r|id ev|]; try done; cbn [endpoint_step] in E.
  - injection E as E. apply bind_returns in E as ([[ec o] e1] & E1 & E). injection E as <-. by eapply get_connection_ok.
  - injection E as E. apply bind_returns in E as ([[ec o] e1] & E1 & E). injection E as <-. unfold get_connection_str in E1.
    destruct (parse_uri u) as [v|]; [|done]. destruct (m_valid v); cbn [negb] in E1; [by eapply get_connection_ok|]. by injection E1 as <- <- <-.
  - injection E as E. apply bind_returns in E as ([r0 e1] & E1 & E). injection E as <-. destruct r; by eapply pass_on_ok.
  - destruct (connections e !! id) as [en|] eqn:Eid; [|done].
    assert (Hstep : match con_step id ev en with None => None | Some _ => Some (on_connection id (λ en, match con_step id ev en with Some r => r | None => mret (con en) end) true e) end = Some (Returns e')) by (destruct ev; done).
    destruct (con_step id ev en) as [r|] eqn:Er; [|done]. injection Hstep as Eo.
    eapply on_connection_ok; [done|exact Eo|]. intros en1 c Hen1 Hen Ef. rewrite Eid in Hen1. injection Hen1 as <-. rewrite Er in Ef. subst r. pose proof (proj1 Hen) as Hs. rewrite <- Hs in *. rewrite andb_true_r. by eapply step_entry.
Qed.
Lemma endpoint_step_ok ev e e' : endpoint_ok e → endpoint_step ev e = Some (Returns e') → endpoint_ok e' ∧ m_is_server e' = m_is_server e.
Proof.
  intros Hok E. destruct (plain ev) eqn:Epl; [apply grown_ok; [done|]; by eapply plain_step_ok; [apply Hok|..]|].
  pose proof Hok as [He Hp]. destruct ev as [s| |bec| |init_ec|ec start_ec init_ec|u init_ec|u init_ec|id|id ec start_ec|r|id ev|id]; cbn [endpoint_step] in E; try discriminate Epl; clear Epl.
  - injection E as <-. destruct s; exact (conj Hok eq_refl).
  - injection E as <-. unfold init_asio. destruct (negb _); exact (conj Hok eq_refl).
  - injection E as <-. unfold listen. destruct (negb _), bec; exact (conj Hok eq_refl).
  - injection E as <-. unfold stop_listening. destruct (negb _); exact (conj Hok eq_refl).
  - destruct (start_accept init_ec e) as [[ec e1]| |] eqn:Es; [|done..]. injection E as <-. destruct (start_accept_ok _ _ _ _ Hok Es) as (? & ? & _). done.
  - destruct (accepts e) as [|id ids] eqn:Ea; [done|]. injection E as E. unfold handle_accept in E.
    assert (Hok0 : endpoint_ok (put_operations ids (connects e) e)) by (apply shrink_ok; [done|]; rewrite Ea; intros i [?|?]; [left; by right|by right]).
    apply bind_returns in E as (e1 & E1 & E). apply bind_returns in E as ([ec2 e2] & E2 & E). injection E as <-.
    destruct (grown_ok _ _ Hok0 (result_ok _ _ _ _ _ Hok0 E1)) as [Hok1 Hs1]. destruct (start_accept_ok _ _ _ _ Hok1 E2) as (Hok2 & Hs2 & _). split; [done|]. by rewrite Hs2, Hs1.
  - destruct (connections e !! id) as [en|] eqn:Eid; [|done]. injection E as <-. split; [split; [done|]|done].
    intros i [Hi|[Hi|Hi%list_elem_of_singleton]%elem_of_app]; [apply Hp; by left|apply Hp; by right|]. subst i. by exists en.
  - destruct (remove_one id (connects e)) as [ids|] eqn:Er; [|done]. injection E as E. destruct (remove_one_elem _ _ _ Er) as [_ Hsub].
    assert (Hok0 : endpoint_ok (put_operations (accepts e) ids e)) by (apply shrink_ok; [done|]; intros i [?|?]; auto).
    destruct (grown_ok _ _ Hok0 (result_ok _ _ _ _ _ Hok0 E)) as [Hok1 Hs1]. done.
  - destruct (connections e !! id) as [en|] eqn:Eid; [|done]. destruct (held id en e) eqn:Eh; [done|]. injection E as <-. split; [|done]. split.
    + by apply map_Forall_delete.
    + intros i Hi. cbn in Hi. destruct (decide (i = id)) as [->|Hne]; [|cbn; rewrite lookup_delete_ne by done; by apply Hp].
      unfold held in Eh. apply orb_false_elim in Eh as [Eh _]. apply orb_false_elim in Eh as [Ea Ec]. apply bool_decide_eq_false in Ea, Ec. tauto.
Qed.
Lemma endpoint_runs_ok static server e : endpoint_runs (new_endpoint static server) e → endpoint_ok e ∧ m_is_server e = server.
Proof.
  intros Hr. remember (new_endpoint static server) as e0 eqn:E0. induction Hr as [e|ev e0 e1 e2 _ IH E].
  - subst e. split; [split; [apply map_Forall_empty|]|done]. by intros id [?%elem_of_nil|?%elem_of_nil].
  - destruct (IH E0) as [Hok Hs]. destruct (endpoint_step_ok _ _ _ Hok E) as [Hok' Hs']. split; [done|]. by rewrite Hs'.
Qed.

(** ** Where the settings of a connection come from *)
Definition settings (e : endpoint) :=
  (static e, m_user_agent e, m_handlers e, (m_open_handshake_timeout_dur e, m_close_handshake_timeout_dur e, m_pong_timeout_dur e),
   (m_max_message_size e, m_max_http_body_size e), m_is_server e).
(** What an endpoint says of its connections, and what a connection has been given. *)
Record given_by (e : endpoint) (en : entry) : Prop := {
  given_handlers : con_handlers en = m_handlers e;
  given_role : is_server (con_config en) = m_is_server e;
  given_user_agent : WsConnection.m_user_agent (con_config en) = m_user_agent e;
  given_open_timeout : WsConnection.m_open_handshake_timeout_dur (con_config en) = m_open_handshake_timeout_dur e;
  given_close_timeout : WsConnection.m_close_handshake_timeout_dur (con_config en) = m_close_handshake_timeout_dur e;
  given_pong_timeout : WsConnection.m_pong_timeout_dur (con_config en) = m_pong_timeout_dur e;
  given_message_size : WsConnection.m_max_message_size (con_config en) = m_max_message_size e;
  given_body_size : WsConnection.m_max_http_body_size (con_config en) = m_max_http_body_size e;
}.
Lemma given_new e c : given_by e (mkEntry (connection_config e) (connection_handlers e) c true).
Proof.
  split; [by destruct e as [? ? []]|..]; cbn [con_config]; unfold connection_config; cbv zeta;
    repeat case_match; cbn; try done;
    repeat match goal with E : negb (_ =? _) = false |- _ => apply negb_false_iff, Z.eqb_eq in E end; by symmetry.
Qed.
Lemma given_settings e e' en : settings e' = settings e → given_by e' en → given_by e en.
Proof. intros E [h1 h2 h3 h4 h5 h6 h7 h8]. injection E as ????????? . split; congruence. Qed.
(** [evolves e e']: the settings stay; a connection is an old one with what it was given, or
    a new one that [e] has given its settings. *)
Definition kept (e : endpoint) (id : nat) (en : entry) : Prop :=
  ∃ en0, connections e !! id = Some en0 ∧ con_config en0 = con_config en ∧ con_handlers en0 = con_handlers en.
Definition evolves (e e' : endpoint) : Prop :=
  settings e' = settings e ∧ (next_id e ≤ next_id e')%nat ∧
  ∀ id en, connections e' !! id = Some en → (id < next_id e')%nat ∧ (kept e id en ∨ (next_id e ≤ id)%nat ∧ given_by e en).
Definition fresh_ids (e : endpoint) : Prop := ∀ id, is_Some (connections e !! id) → (id < next_id e)%nat.
Lemma evolves_same e e' : settings e' = settings e → next_id e' = next_id e → connections e' = connections e → fresh_ids e → evolves e e'.
Proof.
  intros Hs Hn Hc Hf. split_and!; [done|lia|]. intros id en Hid. rewrite Hc in Hid. rewrite Hn.
  split; [apply Hf; eauto|]. left. by exists en.
Qed.
Lemma evolves_fresh e e' : evolves e e' → fresh_ids e'.
Proof. intros (_ & _ & Hc) id [en Hid]. by apply (Hc id en). Qed.
Lemma given_kept e en en' : con_config en' = con_config en → con_handlers en' = con_handlers en → given_by e en → given_by e en'.
Proof. intros Hc Hh [h1 h2 h3 h4 h5 h6 h7 h8]. split; congruence. Qed.
Lemma evolves_trans e1 e2 e3 : evolves e1 e2 → evolves e2 e3 → evolves e1 e3.
Proof.
  intros (Hs1 & Hn1 & Hc1) (Hs2 & Hn2 & Hc2). split_and!; [congruence|lia|]. intros id en Hid. destruct (Hc2 id en Hid) as [Hlt [(en2 & Hid2 & Ec & Eh)|[Hle Hg]]].
  - split; [done|]. destruct (Hc1 id en2 Hid2) as [_ [(en1 & Hid1 & Ec1 & Eh1)|[Hle Hg]]].
    + left. exists en1. split_and!; [done|congruence|congruence].
    + right. split; [done|]. by eapply given_kept; [symmetry..|].
  - split; [done|]. right. split; [lia|]. by eapply given_settings.
Qed.
Lemma evolves_put e id en c at' : fresh_ids e → connections e !! id = Some en →
  evolves e (put_connections (<[id := mkEntry (con_config en) (con_handlers en) c at']> (connections e)) (next_id e) e).
Proof.
  intros Hf Hid. split_and!; [done|done|]. cbn. intros j en' Hj. destruct (decide (j = id)) as [->|Hne].
  - rewrite lookup_insert_eq in Hj. injection Hj as <-. split; [apply Hf; eauto|]. left. by exists en.
  - rewrite lookup_insert_ne in Hj by done. split; [apply Hf; eauto|]. left. by exists en'.
Qed.
Lemma evolves_create init_ec e : fresh_ids e → evolves e (create_connection init_ec e).2.
Proof.
  intros Hf. unfold create_connection. destruct init_ec; cbn [snd]; (split_and!; [done|cbn; lia|]); cbn; intros j en' Hj.
  - split; [assert (j < next_id e)%nat by (apply Hf; eauto); lia|]. left. by exists en'.
  - destruct (decide (j = next_id e)) as [->|Hne].
    + rewrite lookup_insert_eq in Hj. injection Hj as <-. split; [lia|]. right. split; [lia|]. apply given_new.
    + rewrite lookup_insert_ne in Hj by done. split; [assert (j < next_id e)%nat by (apply Hf; eauto); lia|]. left. by exists en'.
Qed.
Lemma evolves_on_connection id f keep e e' : fresh_ids e → on_connection id f keep e = Returns e' → evolves e e'.
Proof.
  intros Hf E. unfold on_connection in E. destruct (connections e !! id) as [en|] eqn:Eid; [|done]. apply bind_returns in E as (c & _ & E). injection E as <-. by apply evolves_put.
Qed.
Lemma evolves_result id ec start_ec e e' : fresh_ids e →
  match ec with Some _ => on_connection id (con_terminate id ec) false e | None => on_connection id (con_start id start_ec) true e end = Returns e' → evolves e e'.
Proof. intros Hf. destruct ec; by apply evolves_on_connection. Qed.
Lemma evolves_start_accept init_ec e ec e' : fresh_ids e → start_accept init_ec e = Returns (ec, e') → evolves e e'.
Proof.
  intros Hf E. unfold start_accept in E. destruct (negb _); [injection E as <- <-; by apply evolves_same|].
  pose proof (evolves_create init_ec e Hf) as Hev. destruct (create_connection init_ec e) as [[id|] e1]; [|by injection E as <- <-].
  unfold async_accept in E. destruct (negb _).
  - apply bind_returns in E as (e2 & E2 & E). injection E as <- <-. eapply evolves_trans; [exact Hev|]. eapply evolves_on_connection; [by eapply evolves_fresh|exact E2].
  - injection E as <- <-. eapply evolves_trans; [exact Hev|]. apply evolves_same; try done. by eapply evolves_fresh.
Qed.
Lemma evolves_get_connection u init_ec e r e' : fresh_ids e → get_connection u init_ec e = Returns (r, e') → evolves e e'.
Proof.
  intros Hf E. unfold get_connection in E. destruct (_ && _); [injection E as <- <-; by apply evolves_same|].
  pose proof (evolves_create init_ec e Hf) as Hev. destruct (create_connection init_ec e) as [[id|] e1]; [|by injection E as <- <-].
  apply bind_returns in E as (e2 & E2 & E). injection E as <- <-. eapply evolves_trans; [exact Hev|]. eapply evolves_on_connection; [by eapply evolves_fresh|exact E2].
Qed.
Lemma evolves_pass_on hdl a e r e' : fresh_ids e → pass_on hdl a e = Returns (r, e') → evolves e e'.
Proof.
  intros Hf E. unfold pass_on, get_con_from_hdl in E. destruct (connections e !! hdl) as [en|] eqn:Eid; [|injection E as <- <-; by apply evolves_same].
  apply bind_returns in E as ([r0 c] & _ & E). injection E as <- <-. by apply evolves_put.
Qed.
Definition configures (ev : endpoint_event) : bool := match ev with Configure _ => true | _ => false end.
Lemma evolves_step ev e e' : fresh_ids e → endpoint_step ev e = Some (Returns e') → configures ev = false → evolves e e'.
Proof.
  intros Hf E Hc. destruct ev as [s| |bec| |init_ec|ec start_ec init_ec|u init_ec|u init_ec|id|id ec start_ec|r|id ev|id]; cbn [endpoint_step] in E; try done; clear Hc.
  - injection E as <-. unfold init_asio. destruct (negb _); by apply evolves_same.
  - injection E as <-. unfold listen. destruct (negb _), bec; by apply evolves_same.
  - injection E as <-. unfold stop_listening. destruct (negb _); by apply evolves_same.
  - injection E as E. apply bind_returns in E as ([ec e1] & E1 & E). injection E as <-. by eapply evolves_start_accept.
  - destruct (accepts e) as [|id ids]; [done|]. injection E as E. unfold handle_accept in E.
    apply bind_returns in E as (e1 & E1 & E). apply bind_returns in E as ([ec2 e2] & E2 & E). injection E as <-.
    assert (Hev1 : evolves e e1) by (eapply evolves_trans; [by apply (evolves_same e (put_operations ids (connects e) e))|eapply evolves_result; [|exact E1]; done]).
    eapply evolves_trans; [exact Hev1|]. eapply evolves_start_accept; [by eapply evolves_fresh|exact E2].
  - injection E as E. apply bind_returns in E as ([r e1] & E1 & E). destruct r. injection E as <-. by eapply evolves_get_connection.
  - injection E as E. apply bind_returns in E as ([r e1] & E1 & E). destruct r. injection E as <-. unfold get_connection_str in E1.
    destruct (parse_uri u) as [v|]; [|done]. destruct (negb _); [injection E1 as <- <- <-; by apply evolves_same|by eapply evolves_get_connection].
  - destruct (connections e !! id); [|done]. injection E as <-. by apply evolves_same.
  - destruct (remove_one id (connects e)) as [ids|]; [|done]. injection E as E.
    eapply evolves_trans; [by apply (evolves_same e (put_operations (accepts e) ids e))|]. by eapply evolves_result; [|exact E].
  - injection E as E. apply bind_returns in E as ([r0 e1] & E1 & E). injection E as <-. destruct r; by eapply evolves_pass_on.
  - destruct (connections e !! id) as [en|]; [|done].
    assert (E' : ∃ f, on_connection id f true e = Returns e') by (destruct ev; try done; destruct (con_step id _ en); try done; injection E as E; eauto).
    destruct E' as [f Ef]. by eapply evolves_on_connection.
  - destruct (connections e !! id) as [en0|]; [|done]. destruct (held id en0 e); [done|]. injection E as <-. split_and!; [done|done|].
    cbn. intros j en' [Hne Hj]%lookup_delete_Some. split; [apply Hf; eauto|]. left. by exists en'.
Qed.
(** The step of a run that made a connection, out of a state with the settings it has. *)
Definition made_by (e0 : endpoint) (id : nat) (en : entry) (e : endpoint) : Prop :=
  ∃ e1 ev e2, endpoint_runs e0 e1 ∧ connections e1 !! id = None ∧ endpoint_step ev e1 = Some (Returns e2) ∧
    is_Some (connections e2 !! id) ∧ endpoint_runs e2 e ∧ given_by e1 en.
Lemma runs_made static server e : endpoint_runs (new_endpoint static server) e →
  fresh_ids e ∧ ∀ id en, connections e !! id = Some en → made_by (new_endpoint static server) id en e.
Proof.
  intros Hr. remember (new_endpoint static server) as e0 eqn:E0. induction Hr as [e|ev e0 e e' Hr IH E].
  - subst e. split; [by intros id [? ?]|done].
  - destruct (IH E0) as [Hf Hm]. clear IH.
    assert (Hkeep : ∀ id en, kept e id en → made_by e0 id en e').
    { intros id en (en0 & Hid & Hc & Hh). destruct (Hm _ _ Hid) as (e1 & ev1 & e2 & Hr1 & Hno & Hst & Hin & Hr2 & Hg).
      exists e1, ev1, e2. split_and!; try done; [by eapply run_event|by eapply given_kept]. }
    destruct (configures ev) eqn:Ecf.
    + destruct ev as [s| | | | | | | | | | | |]; try done. injection E as <-.
      assert (connections (configure s e) = connections e ∧ next_id (configure s e) = next_id e) as [Hc Hn] by by destruct s.
      split; [intros id; rewrite Hc, Hn; apply Hf|]. intros id en Hid. rewrite Hc in Hid. apply Hkeep. by exists en.
    + pose proof (evolves_step _ _ _ Hf E Ecf) as Hev. split; [by eapply evolves_fresh|]. intros id en Hid.
      destruct Hev as (_ & _ & Hc). destruct (Hc id en Hid) as [_ [Hk|[Hle Hg]]]; [by apply Hkeep|].
      exists e, ev, e'. split_and!; try done; [|by (apply run_none || exists en)..]. apply eq_None_not_Some. intros Hs. specialize (Hf _ Hs). lia.
Qed.
(** The connection that an event is addressed to. *)
Definition addressed (ev : endpoint_event) : option nat :=
  match ev with
  | Request (InterruptCon hdl | PauseCon hdl | ResumeCon hdl | SendHttpCon hdl | SendText hdl _ _ | SendBin hdl _ _ | SendMsg hdl _ | CloseCon hdl _ _ | PingCon hdl _ | PongCon hdl _) => Some hdl
  | ConnectDone id _ _ | ConnectionEvent id _ | Release id => Some id
  | _ => None
  end.
Lemma on_connection_others id f keep e e' j : on_connection id f keep e = Returns e' → j ≠ id → connections e' !! j = connections e !! j.
Proof.
  intros E Hne. unfold on_connection in E. destruct (connections e !! id) as [en|]; [|done]. apply bind_returns in E as (c & _ & E). injection E as <-. by apply lookup_insert_ne.
Qed.
Lemma pass_on_others hdl a e r e' j : pass_on hdl a e = Returns (r, e') → j ≠ hdl → connections e' !! j = connections e !! j.
Proof.
  intros E Hne. unfold pass_on, get_con_from_hdl in E. destruct (connections e !! hdl) as [en|]; [|by injection E as <- <-].
  apply bind_returns in E as ([r0 c] & _ & E). injection E as <- <-. by apply lookup_insert_ne.
Qed.
Lemma addressed_others ev e e' id j : endpoint_step ev e = Some (Returns e') → addressed ev = Some id → j ≠ id → connections e' !! j = connections e !! j.
Proof.
  intros E Ha Hne. destruct ev as [s| |bec| |init_ec|ec start_ec init_ec|u init_ec|u init_ec|i|i ec start_ec|r|i ev|i]; cbn [endpoint_step] in E; try done.
  - injection Ha as ->. destruct (remove_one id (connects e)) as [ids|]; [|done]. injection E as E. unfold handle_connect in E. destruct ec; by rewrite (on_connection_others _ _ _ _ _ j E Hne).
  - injection E as E. apply bind_returns in E as ([r0 e1] & E1 & E). injection E as <-. destruct r; injection Ha as ->; by eapply pass_on_others.
  - injection Ha as ->. destruct (connections e !! id) as [en|]; [|done].
    assert (E' : ∃ f, on_connection id f true e = Returns e') by (destruct ev; try done; destruct (con_step id _ en); try done; injection E as E; eauto).
    destruct E' as [f Ef]. by eapply on_connection_others.
  - injection Ha as ->. destruct (connections e !! id) as [en0|]; [|done]. destruct (held id en0 e); [done|]. injection E as <-. by apply lookup_delete_ne.
Qed.

(** C12: The connections of an endpoint are apart.  Each was made by one step of the endpoint's run,
    and has for good the ten handlers, the role, the user agent, the three timeouts and the
    two size limits that the endpoint had in the state before that step, however they were
    changed before or after.  Whatever happened to the endpoint and to the others, its state
    is one that a connection on its own with these settings reaches, unless its accept or
    connect has failed; in either case it implements the abstract session, and a server's
    connections call their handlers in a legal order.  No accept or connect under way
    has lost its connection, and a call by handle, an event of a connection, the end of a
    connect or a release leaves all other connections as they were. *)
Theorem connections_apart static server e : endpoint_runs (new_endpoint static server) e →
  (∀ id en, connections e !! id = Some en →
    made_by (new_endpoint static server) id en e ∧
    is_server (con_config en) = server ∧ (attached en = true → entry_reachable id en) ∧ acts server new_view (view_of (con en)) ∧
    (server = true → legal (state_of (con en)) (trace (con en)))) ∧
  (∀ id, id ∈ accepts e ∨ id ∈ connects e → is_Some (connections e !! id)) ∧
  (∀ ev e' id j, endpoint_step ev e = Some (Returns e') → addressed ev = Some id → j ≠ id → connections e' !! j = connections e !! j).
Proof.
  intros Hr. destruct (endpoint_runs_ok _ _ _ Hr) as [[He Hp] <-]. split_and!; [|exact Hp|intros ev e' id j; apply addressed_others].
  intros id en Hid. destruct (He _ _ Hid) as (Hs & Ha & Hre).
  split_and!; [by apply (runs_made _ _ _ Hr)|done..|]. intros Hsrv. rewrite <- Hs in *. by apply (acts_legal _ _ _ Hsrv Ha).
Qed.

(** The events that leave a server listening. *)
Definition keeps_listening (ev : endpoint_event) : bool :=
  match ev with
  | StopListening | StartAccept _ => false
  | AcceptDone _ _ init_ec => bool_decide (init_ec = None)
  | _ => true
  end.
(** The accept that is outstanding. *)
Definition accepting (e : endpoint) : Prop := is_listening e = true ∧ ∃ id, accepts e = [id].
Lemma grows_accepting e e' : grows e e' → accepting e → accepting e'.
Proof. intros (_ & Hs & Ha & _) [Hl [id Hid]]. unfold accepting, is_listening in *. rewrite Hs, Ha. by split; [|exists id]. Qed.
Lemma accepting_step ev e e' : endpoint_ok e → accepting e → keeps_listening ev = true → endpoint_step ev e = Some (Returns e') → accepting e'.
Proof.
  intros Hok Hacc Hk E. destruct (plain ev) eqn:Epl; [eapply grows_accepting; [|exact Hacc]; by eapply plain_step_ok; [apply Hok|..]|].
  pose proof Hacc as [Hl [id0 Ha]]. pose proof Hok as [He Hp]. assert (Hst : m_state e = Asio.LISTENING) by (unfold is_listening in Hl; by apply bool_decide_eq_true in Hl).
  destruct ev as [s| |bec| |init_ec|ec start_ec init_ec|u init_ec|u init_ec|id|id ec start_ec|r|id ev|id]; cbn [endpoint_step keeps_listening] in *; try discriminate Epl; try discriminate Hk; clear Epl.
  - injection E as <-. destruct s; exact Hacc.
  - injection E as <-. unfold init_asio. by rewrite Hst.
  - injection E as <-. unfold listen. by rewrite Hst.
  - rewrite Ha in E. injection E as E. unfold handle_accept in E. apply bool_decide_eq_true in Hk as ->.
    assert (Hok0 : endpoint_ok (put_operations [] (connects e) e)) by (apply shrink_ok; [done|]; intros i [?%elem_of_nil|?]; [done|by right]).
    apply bind_returns in E as (e1 & E1 & E). apply bind_returns in E as ([ec2 e2] & E2 & E). injection E as <-.
    pose proof (result_ok _ _ _ _ _ Hok0 E1) as [He1 Hg]. destruct (grown_ok _ _ Hok0 (conj He1 Hg)) as [Hok1 _].
    destruct Hg as (_ & Hs1 & Ha1 & _). assert (Hl1 : is_listening e1 = true) by (unfold is_listening; by rewrite Hs1; cbn; rewrite Hst).
    destruct (start_accept_ok _ _ _ _ Hok1 E2) as (_ & _ & Hs2 & Hnew). destruct (Hnew eq_refl Hl1) as (id & en & Ha2 & _ & _). split; [unfold is_listening; by rewrite Hs2|].
    exists id. by rewrite Ha2, Ha1.
  - destruct (connections e !! id) as [en|]; [|done]. injection E as <-. exact Hacc.
  - destruct (remove_one id (connects e)) as [ids|] eqn:Er; [|done]. injection E as E. destruct (remove_one_elem _ _ _ Er) as [_ Hsub].
    assert (Hok0 : endpoint_ok (put_operations (accepts e) ids e)) by (apply shrink_ok; [done|]; intros i [?|?]; auto).
    eapply grows_accepting; [by eapply result_ok|exact Hacc].
  - destruct (connections e !! id) as [en|]; [|done]. destruct (held id en e); [done|]. injection E as <-. exact Hacc.
Qed.

(** C13: A server that accepts goes on accepting: from a state with one accept outstanding,
    after any events that do not stop it (results and errors of accepts, settings, calls,
    what happens to the connections), it listens and has exactly one accept outstanding. *)
Theorem accepts_go_on static server e evs e' : endpoint_runs (new_endpoint static server) e → is_listening e = true → (∃ id, accepts e = [id]) →
  Forall (λ ev, keeps_listening ev = true) evs → run_endpoint evs e = Some (Returns e') → is_listening e' = true ∧ ∃ id en, accepts e' = [id] ∧ connections e' !! id = Some en.
Proof.
  intros Hr Hl Ha Hevs E. assert (Hacc : accepting e) by (by split). destruct (endpoint_runs_ok _ _ _ Hr) as [Hok _]. clear Hr Hl Ha.
  revert e Hok Hacc E. induction Hevs as [|ev evs Hk _ IH]; intros e Hok Hacc E; cbn [run_endpoint] in E.
  - injection E as <-. destruct Hacc as [Hl [id Ha]]. split; [done|]. destruct (proj2 Hok id) as [en Hen]; [left; rewrite Ha; by left|]. by exists id, en.
  - destruct (endpoint_step ev e) as [[e1| |]|] eqn:E1; [|done..]. apply (IH e1); [by eapply endpoint_step_ok|by eapply accepting_step|done].
Qed.
End Endpoint.
End Endpoint.

(** ** A server that greets, and its second connection *)
Definition sample_env (id : nat) : @Endpoint.environment disabled := @Endpoint.mkEnv disabled (λ _, 0) (replicate 80 0) (replicate 64 0) (replicate 16 0) () (replicate 200 0).
Definition sample_endpoint : @Endpoint.endpoint disabled := Endpoint.new_endpoint sample_config true.
Definition greeting_handler : message → @Endpoint.handler disabled := λ _ _, Call (Send [104; 105] opcode.text) (λ _ _, Answer true).
Definition run_sample (evs : list (@Endpoint.endpoint_event disabled)) (e : @Endpoint.endpoint disabled) : option (outcome (@Endpoint.endpoint disabled)) :=
  @Endpoint.run_endpoint x86_64 disabled no_extension sample_env evs e.
Definition serving : list (@Endpoint.endpoint_event disabled) :=
  [Endpoint.Configure (Endpoint.MessageHandler (Some greeting_handler)); Endpoint.InitAsio; Endpoint.Listen None; Endpoint.StartAccept None].
Definition first_connection : list (@Endpoint.endpoint_event disabled) :=
  [Endpoint.AcceptDone None None None; Endpoint.ConnectionEvent 0 (read_done None (sample_request ++ [129; 130; 1; 2; 3; 4; 105; 107])); Endpoint.ConnectionEvent 0 (write_done None 0);
   Endpoint.AcceptDone (Some Asio.other_error) None None; Endpoint.ConnectionEvent 0 run_task; Endpoint.Request (Endpoint.PingCon 0 [7])].
Lemma endpoint_sample_events evs e r : run_sample evs e = r → @Endpoint.run_endpoint x86_64 disabled no_extension sample_env evs e = r.
Proof. done. Qed.
Lemma run_endpoint_runs `{Machine} `{Extension} env evs e0 e e' : Endpoint.endpoint_runs env e0 e → Endpoint.run_endpoint env evs e = Some (Returns e') → Endpoint.endpoint_runs env e0 e'.
Proof.
  revert e. induction evs as [|ev evs IH]; intros e Hr E; cbn [Endpoint.run_endpoint] in E; [by injection E as <-|].
  destruct (Endpoint.endpoint_step env ev e) as [[e1| |]|] eqn:E1; [|done..]. apply (IH e1); [by eapply Endpoint.run_event|done].
Qed.
Definition is_open (e : option (outcome (@Endpoint.endpoint disabled))) : bool :=
  match e with
  | Some (Returns e) => match Endpoint.connections e !! 0%nat with Some en => bool_decide (state_of (Endpoint.con en) = open) && Endpoint.attached en | None => false end && bool_decide (Endpoint.accepts e = [2%nat])
  | _ => false
  end.
Lemma sample_is_open : is_open (run_sample (serving ++ first_connection) sample_endpoint) = true.
Proof. vm_compute. reflexivity. Qed.
Lemma is_open_inv r : is_open r = true → ∃ e en, r = Some (Returns e) ∧ Endpoint.connections e !! 0%nat = Some en ∧
  state_of (Endpoint.con en) = open ∧ Endpoint.attached en = true ∧ Endpoint.accepts e = [2%nat].
Proof.
  unfold is_open. destruct r as [[e| |]|]; [|done..]. destruct (Endpoint.connections e !! 0%nat) as [en|] eqn:Eid; [|done].
  intros [[Ho Hat]%andb_prop Ha]%andb_prop. apply bool_decide_eq_true in Ho, Ha. by exists e, en.
Qed.
Lemma connections_apart_witness : ∃ e en, @Endpoint.endpoint_runs x86_64 disabled no_extension sample_env sample_endpoint e ∧ Endpoint.connections e !! 0%nat = Some en ∧
  state_of (Endpoint.con en) = open ∧ @Endpoint.made_by x86_64 disabled no_extension sample_env sample_endpoint 0 en e ∧
  @Endpoint.entry_reachable x86_64 disabled no_extension sample_env 0 en ∧ legal open (trace (Endpoint.con en)).
Proof.
  destruct (is_open_inv _ sample_is_open) as (e & en & E & Hid & Ho & Hat & _).
  assert (Hr : @Endpoint.endpoint_runs x86_64 disabled no_extension sample_env sample_endpoint e) by (eapply run_endpoint_runs; [apply Endpoint.run_none|exact (endpoint_sample_events _ _ _ E)]).
  destruct (proj1 (Endpoint.connections_apart sample_env sample_config true e Hr) 0%nat en Hid) as (Hmade & _ & Hre & _ & Hl). rewrite Ho in Hl.
  exists e, en. exact (conj Hr (conj Hid (conj Ho (conj Hmade (conj (Hre Hat) (Hl eq_refl)))))).
Defined.
Definition listens (e : option (outcome (@Endpoint.endpoint disabled))) : bool :=
  match e with Some (Returns e) => Endpoint.is_listening e && bool_decide (Endpoint.accepts e = [0%nat]) | _ => false end.
Lemma sample_listens : listens (run_sample serving sample_endpoint) = true.
Proof. vm_compute. reflexivity. Qed.
Lemma listens_inv r : listens r = true → ∃ e, r = Some (Returns e) ∧ Endpoint.is_listening e = true ∧ Endpoint.accepts e = [0%nat].
Proof. unfold listens. destruct r as [[e| |]|]; [|done..]. intros [Hl Ha]%andb_prop. apply bool_decide_eq_true in Ha. by exists e. Qed.
Lemma run_sample_app a b e e1 : run_sample a e = Some (Returns e1) → run_sample (a ++ b) e = run_sample b e1.
Proof.
  unfold run_sample. revert e. induction a as [|ev a IH]; intros e E; cbn [app Endpoint.run_endpoint] in *; [by injection E as ->|].
  destruct (Endpoint.endpoint_step _ ev e) as [[e2| |]|]; [|done..]. by apply IH.
Qed.
Lemma accepts_go_on_witness : ∃ e e' id en, @Endpoint.endpoint_runs x86_64 disabled no_extension sample_env sample_endpoint e ∧ run_sample first_connection e = Some (Returns e') ∧
  Endpoint.accepts e' = [id] ∧ Endpoint.connections e' !! id = Some en.
Proof.
  destruct (is_open_inv _ sample_is_open) as (e' & _ & E & _). destruct (listens_inv _ sample_listens) as (e & E1 & Hl & Ha).
  pose proof (run_sample_app serving first_connection sample_endpoint e E1) as Eapp.
  assert (Hr : @Endpoint.endpoint_runs x86_64 disabled no_extension sample_env sample_endpoint e) by (eapply run_endpoint_runs; [apply Endpoint.run_none|exact (endpoint_sample_events _ _ _ E1)]).
  pose proof (eq_trans (eq_sym Eapp) E) as E2.
  destruct (Endpoint.accepts_go_on sample_env sample_config true e first_connection e' Hr Hl (ex_intro _ 0%nat Ha)) as (_ & id & en & Hid & Hen).
  - repeat constructor.
  - exact (endpoint_sample_events _ _ _ E2).
  - exists e, e', id, en. exact (conj Hr (conj E2 (conj Hid Hen))).
Defined.

(** ** What goes wrong *)
(** A server that stops and listens again before its old accept was cancelled accepts twice. *)
Example two_accept_loops : match run_sample (serving ++ [Endpoint.StopListening; Endpoint.Listen None; Endpoint.StartAccept None; Endpoint.AcceptDone (Some Asio.operation_canceled) None None]) sample_endpoint with
  | Some (Returns e) => Endpoint.accepts e = [1%nat; 2%nat] | _ => False end.
Proof. vm_compute. reflexivity. Qed.
(** A connection that cannot be created ends the loop of a server that listens. *)
Example accept_loop_ends : match run_sample (serving ++ [Endpoint.AcceptDone None None (Some (transport_ec transport_error.general))]) sample_endpoint with
  | Some (Returns e) => Endpoint.accepts e = [] ∧ Endpoint.is_listening e = true | _ => False end.
Proof. vm_compute. by split. Qed.
